(* ===== verification/_CoqProject ===== *)
-Q . S2P
Prelude.v
Health.v
Observer.v
TargetValidation.v
InjectionOrchestrator.v
OrchestratorSafety.v
OrchestrationRuntime.v
HostFrame.v
Lifecycle.v
HelperBroker.v
SessionQueue.v
Manifest.v
Activation.v
Profile.v
WindowsCalls.v
Storage.v
ActivationTransaction.v
ActivationFacts.v
ActivationSafety.v
Frames.v
ProfileBridge.v
GenerationStore.v
GenerationFacts.v
Staging.v
InstallBootstrap.v
WindowsPath.v
ServiceConfiguration.v
Scm.v
ScmConfiguration.v
AppInit.v
ProfileStore.v
ProfileStoreFrames.v
ProfileStoreFacts.v
Repair.v
RepairFacts.v
EventText.v
EventLogFile.v
HostEventLog.v
ProfileText.v
Float64.v
ProfileDocument.v
ProfileEditing.v
ProfileEditingFacts.v
ProfileRoundtrip.v
ProfileSaving.v
ProfileCommands.v
ProfileCommandFacts.v
Uninstall.v
UninstallFacts.v
Deployment.v
Silent.v
SetupEvents.v
Conflicts.v
ServiceManager.v
ServiceManagerFacts.v
ServiceManagerSafety.v
SetupBroker.v
DeploymentFrames.v
DeploymentSafety.v
SetupBrokerFrames.v
SetupBrokerSafety.v
Traces.v
MachineService.v
MachineActions.v
MachineActionFacts.v
Migration.v
MigrationFacts.v
BrokerWire.v
BrokerWireFacts.v
BrokerTransferFacts.v
Broker.v
BrokerFacts.v
LegacyService.v
LegacyServiceFacts.v
