(* ===== verification/Prelude.v ===== *)
(** * Verification of the MacType open service

    MacType replaces the font rendering of other processes.  The open service (the Rust
    workspace under [src/service-runtime/]) is the part of the repository that runs with
    the rights of the machine: a Windows service watches processes and has a fixed,
    verified helper inject the renderer into them, and a setup program installs, switches,
    repairs and removes the runtime and the profile the service works with.  The control
    center ([src/control-center/]) is the desktop application, in which a profile is
    edited.  This library models the logic of all three, definition by definition, and
    proves what makes it correct.

    ** The parts and how they interact

    _The contract_ ([contract/src/]), the data both programs agree on.
    - [Health]: [health.rs], the health report, its telemetry and its validation.
    - [Manifest]: [manifest.rs], [migration_pin.rs] and [broker.rs], the signed package,
      the identity of a runtime and the verbs of the setup broker.
    - [Activation]: [runtime_activation.rs] and [paths.rs], the receipts that journal an
      activation, the pointer to the active runtime and the layout of the machine.
    - [Profile]: [profile.rs], the text of a profile and the catalog of its generations.
    - [ServiceConfiguration] and [WindowsPath]: [service_configuration.rs], the identity
      of the fixed service and the drift of its configuration, and the parts of std::path
      on Windows that these read ([paths.rs] and [install_bootstrap.rs] use them too).
    - [AppInit]: [appinit.rs], the registry value of a conflicting installation.
    - [EventText] and [EventLogFile]: [event_log.rs], what may be logged, how often, and
      the rotated file it is appended to and read back from.

    _The host_ ([host/src/]), the service.
    - [Observer]: [observer.rs], [status.rs], [injection_orchestrator/model.rs], the data
      and, as type classes over an abstract machine, the traits of the host.
    - [TargetValidation]: [target_validation.rs], which process may be injected.
    - [InjectionOrchestrator], with its theorems in [OrchestratorSafety]:
      [injection_orchestrator.rs], from a process that appears to the recorded outcome.
    - [OrchestrationRuntime]: [orchestration_runtime.rs], the loop that drives it.
    - [HostFrame] and [Lifecycle]: [runtime/lifecycle.rs], [startup_safety.rs] and
      [control.rs], the service from its start to its end.
    - [HelperBroker]: [helper_broker.rs], launching the helper and judging its answer.
    - [SessionQueue]: [session_event_queue.rs], the lock-free queue of session changes.
    - [HostEventLog]: [event_log.rs], which results are logged one by one and which are
      counted into summaries.

    _The platform_ ([platform/src/]).
    - [WindowsCalls]: the calls of Windows, one constructor each, with their answers.
    - [Scm]: [scm.rs], [handle.rs], [process.rs] and [pipe.rs], the wrappers the setup
      program uses of the service control manager, of processes and of the health pipe,
      against the class [Windows], which answers the calls.
    - [ScmConfiguration]: the rest of [scm.rs], with [scm_response.rs] and [security.rs],
      the whole configuration of a service, read and written.

    _The setup program_ ([setup/src/]).
    - [Storage] and [Frames]: [storage.rs] and the calls on files and directories, on a
      disk with faults, links and a clock; the logic in which the rest is specified.
    - [ActivationTransaction], [ActivationFacts] and [ActivationSafety]:
      [runtime_installer/activation_transaction.rs] and [journal.rs], [journal/], the
      journaled switch of the runtime, written against the class [RuntimeServices].
    - [GenerationStore], [GenerationFacts] and [Staging]: [deployment.rs], [retention.rs],
      [retention/] and [deferred_delete.rs] of [runtime_installer/], which implement that
      class together with
    - [ProfileBridge]: [profile_bridge.rs] and [profile_bridge/], the copy of the profile
      that lies next to the runtime.
    - [Repair] and [RepairFacts]: [journal/repair.rs] and [journal/repair/], the journaled
      exchange of a damaged generation for a new copy.
    - [Deployment], [DeploymentFrames] and [DeploymentSafety]: [runtime_installer.rs], which
      composes staging, activation, repair and recovery into the methods of
      [RuntimeInstaller]; what every call leaves alone; and the invariant of a deployment.
    - [Uninstall] and [UninstallFacts]: [runtime_installer/uninstall.rs], the removal of
      everything that is proved to be the installer's.
    - [ProfileStore], [ProfileStoreFrames] and [ProfileStoreFacts]: [profile_store.rs] and
      [profile_store/], the journaled switch between profiles.
    - [InstallBootstrap]: [install_bootstrap.rs], the decisions of the installer.
    - [Silent] and [SetupEvents]: [event_log.rs] and [windows/known_folders.rs], the records
      of the setup program, which make no call of Windows.
    - [ServiceManager], [ServiceManagerFacts] and [ServiceManagerSafety]: [windows/scm.rs]
      and [windows/scm/], installing, reconfiguring, starting, stopping, removing and
      observing the service.
    - [Conflicts]: [windows/appinit.rs] and [windows/legacy_tray.rs], the search for older
      installations in the registry, the processes and the start menu.
    - [SetupBroker], [SetupBrokerFrames] and [SetupBrokerSafety]: [main.rs], [lib.rs],
      [windows/broker.rs], [windows/broker/], [windows/installer.rs], [windows/installer/],
      [windows/machine_lock.rs] and [windows/runtime_recovery.rs], the program from its
      arguments to its exit code, which composes all of the above.

    _The control center_ ([control-center/src-tauri/src/]).
    - [ProfileText]: [profile/codec.rs], the encodings and the lines of a profile.
    - [Float64]: the decimal notation of an [f64], on the floats of the Standard Library.
    - [ProfileDocument]: [profile.rs] and [profile/document.rs], the nodes of a profile.
    - [ProfileEditing], [ProfileEditingFacts] and [ProfileRoundtrip]: [profile/mutation.rs]
      and [profile/mutation/validated_input.rs], editing, undoing and redoing.
    - [ProfileSaving]: [profile/storage.rs] and [bounded_io.rs], saving with a backup.
    - [ProfileCommands] and [ProfileCommandFacts]: [profile/commands.rs],
      [profile/state.rs], [profile/identity.rs] and [profile/legacy.rs], the commands of
      the interface on the one open document.
    - [Traces]: recording which calls of an interface a computation makes, and the rules
      to reason about them.
    - [MachineService]: [service_contract.rs] and, of [machine_integration/], [model.rs],
      [legacy_mactray/model.rs] and [open_service/action_failure.rs], the data of the
      machine integration and the failures that are shown.
    - [MachineActions] and [MachineActionFacts]: [orchestrator.rs], [publish.rs],
      [designation.rs] and [status.rs] of [machine_integration/], the actions on the
      machine and the publication of a profile.
    - [Migration] and [MigrationFacts]: [open_service/migration.rs],
      [open_service/startup_lifecycle.rs] and [legacy_mactray/startup_coordinator.rs],
      from the older service to the new one.
    - [LegacyService] and [LegacyServiceFacts]: [legacy_mactray/ownership.rs],
      [legacy_mactray/restore_contract.rs] and [legacy_mactray/windows/], the status, the
      stop, the removal, the snapshot and the restoration of the older service.
    - [BrokerWire], [BrokerWireFacts] and [BrokerTransferFacts]: [open_service/request.rs],
      [open_service/broker_result.rs] and [open_service/profile_transfer/], what crosses
      between the control center and its elevated instance.
    - [Broker] and [BrokerFacts]: [open_service/broker.rs] and [open_service/broker/], the
      launcher of the elevated instance and the broker that performs one action.

    ** How code becomes definitions

    An integer is an [N] below its width; a saturating or wrapping operation is written
    out.  A text is the string of its UTF-8 bytes.  [HashMap]s and [BTreeMap]s are [gmap]s,
    and an order of arrival is kept where the code keeps one.  A function that changes
    state is a computation [M S A] (below) over the state of its component; [let!] and
    [let?] are its sequence and its [?].  An error that the code returns is a value;
    [None] is a panic or a loop that does not end, and the theorems show that it does not
    occur.  The traits and the libraries the code calls are type classes: the machine of
    the host answers each call from its own state, in any way; the disk of the setup
    program lets a [World] decide, call by call, whether the call fails, whether a failed
    write happened all the same, how much time passed and in which order a directory is
    listed.  JSON codecs, SHA-256 and the deferred deletion of the platform are such
    classes too, with what is documented of them (a value that is written is read back, a
    digest has 32 bytes) as laws, and a concrete instance for the examples.

    ** What the theorems show

    - Host: only validated processes are injected, once each, with the retries and pauses
      of the policy ([injected_only_validated], [process_handled_once],
      [attempt_follows_policy]); the history and the deferral queue stay bounded and every
      operation answers in every reachable state ([reachable_orchestrator_sound],
      [reachable_operations_answer]); the service follows the protocol of the service
      control manager and publishes honest health on every path
      ([run_status_protocol], [published_health_is_honest]); an answer of the helper counts
      as an injection only when it names the target ([injected_is_confirmed]); no session
      change is lost in any interleaving ([no_change_lost]).
    - Crash safety: [spec P m Q d] (in [Storage]) says that [m] ends and that every state
      the disk passes through satisfies [P].  Writing a file is atomic
      ([atomic_write_is_atomic]); an activation of a runtime that is cut off anywhere,
      and whose recovery is cut off anywhere, any number of times, resolves to the old or
      the new runtime ([interrupted_activation_resolves]); the generation store and the
      bridge keep the contract that proof needs ([store_keeps_the_contract]); staging is
      all or nothing; retention removes only verified generations that are neither the
      current nor the replaced one, and no pinned one if the pins could be seen; a repair
      that is cut off anywhere leaves the old or the new generation whole, where its recovery
      finds it ([interrupted_repair_resolves]); the switch
      between profiles refines the catalog of [Profile], and its recovery restores the
      pointers ([profile_switch_refines_catalog], [profile_recovery_restores]); the removal
      of the runtime takes nothing unless all of it is proved to be owned, and then nothing
      else ([uninstall_removes_only_what_it_owns]).
    - Service manager, whatever Windows answers: a service is changed only through a handle
      whose configuration proved to be the installer's own
      ([foreign_service_is_never_changed]) and deleted only as it was verified
      ([removal_deletes_only_the_verified_service]); a stop is seen to its end and a start
      is confirmed by the process itself ([stop_is_seen_to_its_end],
      [start_is_confirmed_by_the_service]); a reconfiguration leaves no drift
      ([reconfiguration_restores_the_contract]); every loop ends, and a service that does
      stop is found stopped ([a_service_that_stops_is_stopped]); an image path is accepted
      only below the protected directory ([accepted_image_is_below_the_root]).
    - The whole setup program: however its runs are cut off, and whatever each was asked
      for, the next finds the runtime and the receipt of its activation consistent, ends
      with an exit code and recovers ([runs_leave_the_runtime_recoverable]); an upgrade that
      succeeds has stopped and started a service that ran and seen it ready, in this run,
      and an upgrade or an installation that fails leaves the former runtime active or says
      that it could not ([failed_upgrade_is_undone_or_said],
      [failed_installation_is_undone_or_exits_three]); a machine counts as free of older
      installations only on evidence of that very machine
      ([machine_is_cleared_by_evidence]).  Whole runs of
      the program, from the arguments to the output, are evaluated as examples.
    - Event log: appending with rotation refines an abstract list of records that forgets
      only the oldest ([append_refines_the_log]), a recorded event is read back
      ([recorded_event_is_read_back]), a logged text is what the declarative rules for
      secrets, nonces, line breaks and length make of it ([sanitizing_is_exact]), and the
      summaries account for every result ([summaries_account_for_every_result]).
    - Profile editor: an unedited profile is written byte for byte as it was read, in any
      encoding ([unedited_profile_is_unchanged]); a setting is what it was set to and
      nothing else changes ([setting_is_what_was_set]); what was edited is what is read
      back ([edits_survive_saving]), unless the last line of the file is not closed
      ([unclosed_line_joins_the_next], a fault of the code); undo and redo move along one
      line of revisions ([edits_can_be_undone]); a save never loses the profile, whatever
      fails ([saving_never_loses_the_profile]); a failed command changes nothing
      ([failed_commands_change_nothing]); and only what is saved is applied
      ([applied_profile_is_the_saved_one]).
    - Machine integration, against any backend: an action is dispatched only when it is
      authorized and nothing conflicts ([machine_action_is_guarded]); a published profile
      takes effect or every step that undoes it is tried and its failure told
      ([publication_takes_effect_or_is_undone]); a migration completes or rolls back both
      services ([migration_completes_or_rolls_back]); the older service is removed only
      behind its verification ([removal_is_verified_and_final]).
    - Older service, whatever Windows answers: every operation ends; the service is changed
      only behind an answer that proves it to be the older MacType, deleted only behind one
      that it stands still and created only where there is none
      ([older_service_is_changed_only_when_proved]); a restoration that succeeds has read
      back what was saved ([restored_configuration_is_the_saved_one]).
    - Elevated broker: a success is believed only when it is confirmed on every side, and
      no process that was launched is left unnoticed ([elevated_success_is_confirmed]); a
      failure arrives with its blocker and its rollback ([broker_reports_what_it_did]); a
      profile arrives as it was sent, in whatever pieces ([profile_arrives_as_sent]).
    - Exactness: verification of manifests, generations, reports and INI structure accepts
      exactly what it should; codecs and command lines make round trips.

    ** Bounds and fuel

    Recursion is structural nearly everywhere.  The retry of a file operation sleeps at
    least five milliseconds between attempts within a budget of two seconds; its fuel of
    402 attempts is enough for any clock ([retries_spend_their_budget]).  The eviction
    loops of the orchestrator take the size of the map plus one, and the invariant shows
    that the loop ends before ([reachable_operations_answer]).  Receiving a frame takes one
    step per byte of the longest frame, because a read without a byte ends it.  A loop that
    polls Windows until a deadline sleeps in every round, so [polls], the deadline divided
    by the pause, is fuel enough for any clock ([lasts_polls]).

    ** Not modelled

    Calls of the operating system and of third-party code appear only through the classes
    above: the Win32 adapters of the host and of the setup program, the platform crate,
    serde's derived codecs, [encoding_rs] and SHA-256.  Names in a directory are Unicode,
    and what is printed on standard error is not kept.  The discovery of the
    profile that an older [MacType.ini] names is left out.  The generated table
    of settings is a parameter of the profile editor.  Access
    control lists and the security of the setup lock ([windows/acl.rs],
    [windows/machine_lock/security.rs]) are questions to Windows.  The files in which the
    migration keeps its receipts ([legacy_migration/]) are an interface of [Migration].  The rest of the control
    center starts previews, collects diagnostics and draws windows; the C++ part of the
    repository and the interface in TypeScript are out of scope. *)

From Stdlib Require Export Ascii String NArith ZArith Lia.
From stdpp Require Export prelude gmap strings.
From stdpp Require Import pretty.

(** ** Results, panics and state

    [result] is Rust's [Result].  A stateful computation is a function
    [M S A] from a state to an optional answer and new state: [None] stands for
    a run that gives no answer, because an [expect] or an [unreachable!] panics
    or because a loop spins for ever.  Errors that the code returns are values
    of [result] inside the answer and never [None]. *)

Inductive result (A E : Type) : Type :=
| Ok (a : A)
| Err (e : E).
Arguments Ok {A E} a.
Arguments Err {A E} e.

Definition is_ok {A E : Type} (r : result A E) : bool :=
  match r with Ok _ => true | Err _ => false end.

Definition is_err {A E : Type} (r : result A E) : bool :=
  match r with Ok _ => false | Err _ => true end.

Definition ok_or {A E : Type} (o : option A) (e : E) : result A E :=
  match o with Some a => Ok a | None => Err e end.

Definition result_bind {A B E : Type} (r : result A E) (k : A → result B E) : result B E :=
  match r with Ok a => k a | Err e => Err e end.

Definition map_err {A E F : Type} (f : E → F) (r : result A E) : result A F :=
  match r with Ok a => Ok a | Err e => Err (f e) end.

#[export] Instance result_eq_dec {A E} `{EqDecision A, EqDecision E} :
  EqDecision (result A E).
Proof. solve_decision. Defined.

#[export] Instance Ok_inj {A E} : Inj (=) (=) (@Ok A E).
Proof. by intros a b [= ->]. Qed.

#[export] Instance Err_inj {A E} : Inj (=) (=) (@Err A E).
Proof. by intros a b [= ->]. Qed.

Definition M (S A : Type) : Type := S → option (A * S).

Definition ret {S A : Type} (a : A) : M S A := λ s, Some (a, s).

Definition bind {S A B : Type} (m : M S A) (k : A → M S B) : M S B :=
  λ s, match m s with Some (a, s') => k a s' | None => None end.

Definition get {S : Type} : M S S := λ s, Some (s, s).

Definition gets {S A : Type} (f : S → A) : M S A := λ s, Some (f s, s).

Definition modify {S : Type} (f : S → S) : M S unit := λ s, Some (tt, f s).

(** A panic ([expect] on [None], [unreachable!]) or a loop that never ends. *)
Definition no_answer {S A : Type} : M S A := λ _, None.

Declare Scope rust_scope.
Delimit Scope rust_scope with rust.

(** [let!] sequences two computations, [let?] also applies the [?] operator
    to the result of the first, [let-?] is the [?] operator on a pure value. *)
Notation "'let!' x ':=' m 'in' k" := (bind m (λ x, k))
  (at level 10, x binder, m at level 100, k at level 200) : rust_scope.
Notation "'let?' x ':=' m 'in' k" :=
  (bind m (λ r, match r with Ok x => k | Err e => ret (Err e) end))
  (at level 10, x name, m at level 100, k at level 200) : rust_scope.
Notation "'let-?' x ':=' r 'in' k" := (result_bind r (λ x, k))
  (at level 10, x binder, r at level 100, k at level 200) : rust_scope.

Open Scope rust_scope.

(** ** Machine integers

    An unsigned integer of the source is an [N] below its width's bound; the
    operations that wrap, saturate or are checked are written out. *)

Definition U8_MAX : N := 2 ^ 8 - 1.
Definition U16_MAX : N := 2 ^ 16 - 1.
Definition U32_MAX : N := 2 ^ 32 - 1.
Definition U64_MAX : N := 2 ^ 64 - 1.

Definition saturating_add (max a b : N) : N := N.min (a + b) max.

Definition saturating_sub (a b : N) : N := a - b.

Definition checked_add (max a b : N) : option N :=
  if (a + b <=? max)%N then Some (a + b)%N else None.

Definition checked_sub (a b : N) : option N :=
  if (b <=? a)%N then Some (a - b)%N else None.

(** [u32::checked_shl]: [None] when the shift is not below the width. *)
Definition checked_shl32 (a k : N) : option N :=
  if (k <? 32)%N then Some (N.shiftl a k mod 2 ^ 32)%N else None.

(** [x as u32] for a signed or wider [x]. *)
Definition as_u32 (z : Z) : N := Z.to_N (z mod 2 ^ 32).

(** [u64::try_from] on a wider unsigned integer. *)
Definition try_u64 (n : N) : option N := if (n <=? U64_MAX)%N then Some n else None.

(** A [Duration] and an [Instant] count nanoseconds.  The largest [Duration]
    is [u64::MAX] seconds and 999_999_999 nanoseconds. *)
Definition DURATION_MAX : N := U64_MAX * 1000000000 + 999999999.

Definition from_millis (ms : N) : N := ms * 1000000.
Definition from_secs (s : N) : N := s * 1000000000.

Definition duration_saturating_mul (d k : N) : N := N.min (d * k) DURATION_MAX.

(** ** Bytes and strings

    A [u8] is an [ascii], a byte slice a [list ascii] and a [str] a [string],
    the bytes of its UTF-8 encoding. *)

Definition str_bytes (s : string) : list ascii := list_ascii_of_string s.
Definition bytes_str (l : list ascii) : string := string_of_list_ascii l.
Definition str_len (s : string) : N := N.of_nat (String.length s).
Definition bytes_len (l : list ascii) : N := N.of_nat (length l).
Definition str_is_empty (s : string) : bool := (str_len s =? 0)%N.

Definition byte_in (lo hi b : ascii) : bool :=
  ((N_of_ascii lo <=? N_of_ascii b) && (N_of_ascii b <=? N_of_ascii hi))%N.

Definition is_ascii_digit (b : ascii) : bool := byte_in "0" "9" b.
Definition is_ascii_lowercase (b : ascii) : bool := byte_in "a" "z" b.
Definition is_ascii_uppercase (b : ascii) : bool := byte_in "A" "Z" b.
Definition is_ascii_alphanumeric (b : ascii) : bool :=
  is_ascii_digit b || is_ascii_lowercase b || is_ascii_uppercase b.
Definition is_ascii_hexdigit (b : ascii) : bool :=
  is_ascii_digit b || byte_in "a" "f" b || byte_in "A" "F" b.

(** [u8::is_ascii_whitespace]: space, tab, line feed, form feed, return. *)
Definition is_ascii_whitespace (b : ascii) : bool :=
  let n := N_of_ascii b in
  ((n =? 32) || (n =? 9) || (n =? 10) || (n =? 12) || (n =? 13))%N.

Definition to_ascii_lowercase (b : ascii) : ascii :=
  if is_ascii_uppercase b then ascii_of_N (N_of_ascii b + 32) else b.

Definition str_to_ascii_lowercase (s : string) : string :=
  bytes_str (map to_ascii_lowercase (str_bytes s)).

Definition bytes_eq_ignore_ascii_case (a b : list ascii) : bool :=
  bool_decide (map to_ascii_lowercase a = map to_ascii_lowercase b).

Definition eq_ignore_ascii_case (a b : string) : bool :=
  bytes_eq_ignore_ascii_case (str_bytes a) (str_bytes b).

Fixpoint bytes_strip_prefix (p l : list ascii) : option (list ascii) :=
  match p, l with
  | [], _ => Some l
  | a :: p', b :: l' => if (a =? b)%char then bytes_strip_prefix p' l' else None
  | _ :: _, [] => None
  end.

Definition bytes_starts_with (p l : list ascii) : bool :=
  match bytes_strip_prefix p l with Some _ => true | None => false end.

Definition strip_prefix (p s : string) : option string :=
  option_map bytes_str (bytes_strip_prefix (str_bytes p) (str_bytes s)).

(** [str::strip_suffix] *)
Definition strip_suffix (p s : string) : option string :=
  option_map (λ l, bytes_str (rev l)) (bytes_strip_prefix (rev (str_bytes p)) (rev (str_bytes s))).

Definition starts_with (p s : string) : bool :=
  bytes_starts_with (str_bytes p) (str_bytes s).

Definition ends_with (p s : string) : bool :=
  bytes_starts_with (rev (str_bytes p)) (rev (str_bytes s)).

(** The pieces of [l] between the bytes that satisfy [p]: one more than there
    are separators, as [slice::split] and [str::split] yield them. *)
Fixpoint split_on {A : Type} (p : A → bool) (l : list A) : list (list A) :=
  match l with
  | [] => [[]]
  | b :: l' =>
      if p b then [] :: split_on p l'
      else match split_on p l' with
           | [] => [[b]]
           | piece :: pieces => (b :: piece) :: pieces
           end
  end.

(** [iter().position(p)] *)
Fixpoint position {A : Type} (p : A → bool) (l : list A) : option nat :=
  match l with
  | [] => None
  | x :: l' => if p x then Some 0 else option_map S (position p l')
  end.

(** [iter().rposition(p)] *)
Definition rposition {A : Type} (p : A → bool) (l : list A) : option nat :=
  option_map (λ i, length l - S i) (position p (rev l)).

(** [str::rsplit_once(separator)]: the parts before and after the last one. *)
Definition rsplit_once (sep : ascii) (s : string) : option (string * string) :=
  let reversed := rev (str_bytes s) in
  match position (λ b, (b =? sep)%char) reversed with
  | Some i => Some (bytes_str (rev (drop (S i) reversed)), bytes_str (rev (take i reversed)))
  | None => None
  end.

(** [matches!(value, "a" | "b" | ...)] on strings. *)
Definition one_of (options : list string) (s : string) : bool :=
  existsb (λ o, (o =? s)%string) options.

(** A [Path], by its components. *)
Notation Path := (list string) (only parsing).

Definition path_join (root : Path) (name : string) : Path := root ++ [name].
Definition path_parent (p : Path) : option Path :=
  match rev p with [] => None | _ :: rest => Some (rev rest) end.
Definition with_file_name (p : Path) (name : string) : Path :=
  match path_parent p with Some parent => path_join parent name | None => [name] end.
Definition path_display (p : Path) : string := String.concat "\" p.

(** [retain(|key, value| keep value)] on a map. *)
Definition map_retain {K V : Type} `{Countable K} (keep : V → bool) (m : gmap K V) : gmap K V :=
  filter (λ kv, Is_true (keep kv.2)) m.

(** [retain(|x| keep x)] on a deque. *)
Definition list_retain {A : Type} (keep : A → bool) (l : list A) : list A :=
  filter (λ x, Is_true (keep x)) l.

Definition contains_key {K V : Type} `{Countable K} (m : gmap K V) (k : K) : bool :=
  match m !! k with Some _ => true | None => false end.

(** A [HashMap] with a [VecDeque] of its keys in order of arrival: the two hold
    the same keys and the deque no key twice. *)
Record ordered_map {K V : Type} `{Countable K} (m : gmap K V) (order : list K) : Prop := {
  om_nodup : NoDup order;
  om_keys : ∀ k, k ∈ order ↔ is_Some (m !! k)
}.

(** [wp m Q s]: run from [s], [m] gives an answer (no panic, no endless loop)
    and [Q] holds of the answer and the state it leaves. *)
Definition wp {S A : Type} (m : M S A) (Q : A → S → Prop) (s : S) : Prop :=
  match m s with Some (a, s') => Q a s' | None => False end.

(** ** Automation *)

Create HintDb rust.

(** Case analysis on the matches of the goal or of a hypothesis, then the
    consequences of the equations it yields. *)
Ltac break_goal := repeat (case_match; simplify_eq/=).
Ltac break_in H :=
  repeat (match type of H with
          | context [match ?x with _ => _ end] => destruct x eqn:?
          end; simplify_eq/=).
Ltac andb_split :=
  repeat match goal with
  | H : andb _ _ = true |- _ => apply andb_prop in H; destruct H
  | H : orb _ _ = false |- _ => apply orb_false_elim in H; destruct H
  | H : negb _ = true |- _ => apply negb_true_iff in H
  | H : negb _ = false |- _ => apply negb_false_iff in H
  | H : (_ =? _)%N = true |- _ => apply N.eqb_eq in H
  | H : (_ =? _)%N = false |- _ => apply N.eqb_neq in H
  | H : (_ <=? _)%N = true |- _ => apply N.leb_le in H
  | H : (_ <=? _)%N = false |- _ => apply N.leb_gt in H
  | H : (_ <? _)%N = true |- _ => apply N.ltb_lt in H
  | H : (_ <? _)%N = false |- _ => apply N.ltb_ge in H
  | H : (_ =? _)%string = true |- _ => apply String.eqb_eq in H
  | H : (_ =? _)%string = false |- _ => apply String.eqb_neq in H
  end.

(** ** Lemmas on computations *)

Section Wp.
Context {S A B : Type}.
Implicit Types (m : M S A) (s : S).

Lemma wp_ret (a : A) Q s : Q a s → wp (ret a) Q s.
Proof. done. Qed.

Lemma wp_get (Q : S → S → Prop) s : Q s s → wp get Q s.
Proof. done. Qed.

Lemma wp_gets (f : S → A) Q s : Q (f s) s → wp (gets f) Q s.
Proof. done. Qed.

Lemma wp_modify (f : S → S) (Q : unit → S → Prop) s : Q tt (f s) → wp (modify f) Q s.
Proof. done. Qed.

Lemma wp_bind m (k : A → M S B) Q s : wp m (λ a, wp (k a) Q) s → wp (bind m k) Q s.
Proof. unfold wp, bind. by destruct (m s) as [[a s']|]. Qed.

Lemma wp_mono m (P Q : A → S → Prop) s : wp m P s → (∀ a s', P a s' → Q a s') → wp m Q s.
Proof. unfold wp. destruct (m s) as [[a s']|]; eauto. Qed.

Lemma wp_conj m (P Q : A → S → Prop) s :
  wp m P s → wp m Q s → wp m (λ a s', P a s' ∧ Q a s') s.
Proof. unfold wp. destruct (m s) as [[a s']|]; eauto. Qed.

Lemma wp_run m Q s : wp m Q s → ∃ a s', m s = Some (a, s') ∧ Q a s'.
Proof. unfold wp. destruct (m s) as [[a s']|]; naive_solver. Qed.

Lemma wp_elim m Q s a s' : wp m Q s → m s = Some (a, s') → Q a s'.
Proof. unfold wp. intros H E. by rewrite E in H. Qed.
End Wp.

#[export] Hint Resolve wp_ret wp_get wp_gets wp_modify wp_bind : rust.

(** Walk through the sequential structure of a computation. *)
Ltac wp_step :=
  lazymatch goal with
  | |- wp (bind _ _) _ _ => apply wp_bind
  | |- wp (ret _) _ _ => apply wp_ret
  | |- wp get _ _ => apply wp_get
  | |- wp (gets _) _ _ => apply wp_gets
  | |- wp (modify _) _ _ => apply wp_modify
  end.
Ltac wp_steps := repeat (wp_step; cbv beta).

(** ** Lemmas on ordered maps *)

Section OrderedMap.
Context {K V : Type} `{Countable K}.
Implicit Types (m : gmap K V) (order : list K).

Lemma ordered_map_empty : ordered_map (∅ : gmap K V) [].
Proof.
  split; [constructor|]. intros k. rewrite lookup_empty. split.
  - by intros ?%not_elem_of_nil.
  - by intros [? ?].
Qed.

Lemma ordered_map_size m order : ordered_map m order → size m = length order.
Proof.
  intros [Hnd Hk]. rewrite <- (size_dom (D := gset K)).
  rewrite <- (size_list_to_set (C := gset K) order Hnd).
  f_equal. apply set_eq. intros k. rewrite elem_of_dom, elem_of_list_to_set. naive_solver.
Qed.

Lemma ordered_map_update m order k v :
  ordered_map m order → is_Some (m !! k) → ordered_map (<[k:=v]> m) order.
Proof.
  intros [Hnd Hk] Hin. split; [done|]. intros k'. rewrite Hk.
  destruct (decide (k = k')) as [->|]; [|by rewrite lookup_insert_ne].
  rewrite lookup_insert_eq. naive_solver.
Qed.

Lemma ordered_map_push m order k v :
  ordered_map m order → m !! k = None → ordered_map (<[k:=v]> m) (order ++ [k]).
Proof.
  intros [Hnd Hk] Hnone. split.
  - apply NoDup_app. split; [done|]. split; [|apply NoDup_singleton].
    intros x Hx ->%list_elem_of_singleton. apply Hk in Hx. rewrite Hnone in Hx. by destruct Hx.
  - intros k'. rewrite elem_of_app, Hk, list_elem_of_singleton.
    destruct (decide (k = k')) as [->|].
    + rewrite lookup_insert_eq. naive_solver.
    + rewrite lookup_insert_ne by done. naive_solver.
Qed.

Lemma ordered_map_pop m order k :
  ordered_map m (k :: order) → ordered_map (delete k m) order.
Proof.
  intros [Hnd Hk]. apply NoDup_cons in Hnd as [Hni Hnd]. split; [done|].
  intros k'. destruct (decide (k = k')) as [->|].
  - rewrite lookup_delete_eq. split; [done|]. by intros [? ?].
  - rewrite lookup_delete_ne by done. rewrite <- Hk, elem_of_cons. naive_solver.
Qed.

Lemma ordered_map_remove m l k r :
  ordered_map m (l ++ k :: r) → ordered_map (delete k m) (l ++ r).
Proof.
  intros [Hnd Hk]. apply NoDup_app in Hnd as (Hl & Hlr & [Hni Hr]%NoDup_cons).
  split.
  - apply NoDup_app. split; [done|]. split; [|done]. intros x ??. apply (Hlr x); [done|].
    by apply elem_of_cons; right.
  - intros k'. destruct (decide (k = k')) as [->|].
    + rewrite lookup_delete_eq. split; [|by intros [? ?]].
      intros [?|?]%elem_of_app; [|done]. exfalso. apply (Hlr k'); [done|]. by apply elem_of_cons; left.
    + rewrite lookup_delete_ne by done. rewrite <- Hk, !elem_of_app, elem_of_cons. naive_solver.
Qed.

Lemma ordered_map_retain m order (keep : V → bool) :
  ordered_map m order →
  ordered_map (map_retain keep m) (list_retain (contains_key (map_retain keep m)) order).
Proof.
  intros [Hnd Hk]. unfold list_retain. split.
  - by apply NoDup_filter.
  - intros k. rewrite list_elem_of_filter. unfold contains_key.
    destruct (map_retain keep m !! k) eqn:E; simpl.
    + split; [eauto|]. intros _. split; [done|]. apply Hk.
      unfold map_retain in E. apply map_lookup_filter_Some in E as [E _]. eauto.
    + split; [by intros [? ?]|by intros [? ?]].
Qed.

Lemma map_retain_lookup m (keep : V → bool) k v :
  map_retain keep m !! k = Some v ↔ m !! k = Some v ∧ keep v = true.
Proof.
  unfold map_retain. rewrite map_lookup_filter_Some. simpl.
  by rewrite Is_true_true.
Qed.

Lemma contains_key_true m k : contains_key m k = true ↔ is_Some (m !! k).
Proof. unfold contains_key. destruct (m !! k); split; naive_solver. Qed.

Lemma contains_key_false m k : contains_key m k = false ↔ m !! k = None.
Proof. unfold contains_key. destruct (m !! k); split; naive_solver. Qed.
End OrderedMap.

#[export] Hint Resolve ordered_map_empty ordered_map_update ordered_map_push
  ordered_map_pop ordered_map_remove ordered_map_retain : rust.

(** ** Lemmas on lists *)

Lemma position_Some {A : Type} (p : A → bool) (l : list A) i :
  position p l = Some i →
  ∃ x, l !! i = Some x ∧ p x = true ∧ ∀ j y, j < i → l !! j = Some y → p y = false.
Proof.
  revert i. induction l as [|x l IH]; intros i; simpl; [done|].
  destruct (p x) eqn:E.
  - intros [= <-]. exists x. repeat split; auto. lia.
  - destruct (position p l) as [j|]; simpl; [|done]. intros [= <-].
    destruct (IH j eq_refl) as (y & Hy & Hp & Hmin). exists y. repeat split; auto.
    intros [|k] z Hk Hz; simpl in Hz; [naive_solver|]. apply (Hmin k); [lia|done].
Qed.

Lemma position_None {A : Type} (p : A → bool) (l : list A) :
  position p l = None → ∀ x, x ∈ l → p x = false.
Proof.
  induction l as [|x l IH]; simpl; [by intros _ ? ?%not_elem_of_nil|].
  destruct (p x) eqn:E; [done|]. destruct (position p l); simpl; [done|].
  intros _ y [->|Hy]%elem_of_cons; auto.
Qed.

Lemma list_retain_all {A : Type} (keep : A → bool) (l : list A) :
  (∀ x, x ∈ l → keep x = true) → list_retain keep l = l.
Proof.
  unfold list_retain. induction l as [|x l IH]; intros Hl; [done|].
  rewrite filter_cons_True.
  - f_equal. apply IH. intros y Hy. apply Hl. by apply elem_of_cons; right.
  - rewrite (Hl x); [done|]. by apply elem_of_cons; left.
Qed.

Lemma list_retain_elem {A : Type} (keep : A → bool) (l : list A) x :
  x ∈ list_retain keep l ↔ keep x = true ∧ x ∈ l.
Proof. unfold list_retain. by rewrite list_elem_of_filter, Is_true_true. Qed.

Lemma list_retain_length {A : Type} (keep : A → bool) (l : list A) :
  length (list_retain keep l) ≤ length l.
Proof. apply length_filter. Qed.

Lemma N_of_nat_le a b : a ≤ b → (N.of_nat a <= N.of_nat b)%N.
Proof. lia. Qed.

(** ** Pieces between separators *)

Lemma split_on_first {A : Type} (p : A → bool) (l : list A) :
  ∃ first, forallb (negb ∘ p) first = true ∧
    ((l = first ∧ split_on p l = [first]) ∨
     ∃ c rest, l = first ++ c :: rest ∧ p c = true ∧ split_on p l = first :: split_on p rest).
Proof.
  induction l as [|b l (first & Hf & [[-> Hs]|(c & rest & -> & Hc & Hs)])]; cbn [split_on].
  - exists []. auto.
  - destruct (p b) eqn:E; [by exists []; split; [done|]; right; exists b, first|].
    exists (b :: first). split; [simpl; by rewrite E, Hf|]. left. by rewrite Hs.
  - destruct (p b) eqn:E; [by exists []; split; [done|]; right; exists b, (first ++ c :: rest)|].
    exists (b :: first). split; [simpl; by rewrite E, Hf|]. right. exists c, rest. by rewrite Hs.
Qed.

(** [piece] stands between two separators or ends of the list. *)
Record delimited {A : Type} (p : A → bool) (before piece after : list A) : Prop := {
  piece_free : forallb (negb ∘ p) piece = true;
  piece_start c : last before = Some c → p c = true;
  piece_end c : head after = Some c → p c = true
}.

Lemma free_not_separator {A : Type} (p : A → bool) (l : list A) c :
  forallb (negb ∘ p) l = true → c ∈ l → p c = false.
Proof.
  intros Hl Hc%list_elem_of_In. rewrite forallb_forall in Hl. by apply negb_true_iff, (Hl c).
Qed.

Lemma free_prefix {A : Type} (p : A → bool) (first piece rest after : list A) c :
  forallb (negb ∘ p) piece = true → p c = true → first ++ c :: rest = piece ++ after →
  ∃ more, first = piece ++ more.
Proof.
  intros Hp Hc Heq. destruct (app_eq_inv _ _ _ _ Heq) as [(k & -> & Hk)|(k & -> & Hk)]; [by exists k|].
  destruct k as [|d k]; [by exists []; rewrite !app_nil_r|]. simpl in Hk. injection Hk as <- _.
  rewrite (free_not_separator _ _ c Hp) in Hc; [done|set_solver].
Qed.

Lemma delimited_cut {A : Type} (p : A → bool) (first rest before piece after : list A) c :
  forallb (negb ∘ p) first = true → p c = true → delimited p before piece after →
  first ++ c :: rest = before ++ piece ++ after →
  (before = [] ∧ piece = first) ∨
  ∃ before', before = first ++ c :: before' ∧ rest = before' ++ piece ++ after.
Proof.
  intros Hf Hc [Hp Hb Ha] Heq.
  destruct before as [|d before _] using rev_ind; [left|right].
  - split; [done|]. simpl in Heq. destruct (free_prefix _ _ _ _ _ _ Hp Hc Heq) as [more ->].
    rewrite <- app_assoc in Heq. apply app_inv_head in Heq.
    destruct more as [|m more]; [by rewrite app_nil_r|]. simpl in Heq. subst after.
    specialize (Ha m eq_refl). rewrite (free_not_separator _ _ m Hf) in Ha; [done|set_solver].
  - specialize (Hb d). rewrite last_snoc in Hb. specialize (Hb eq_refl).
    rewrite <- app_assoc in Heq. simpl in Heq. symmetry in Heq.
    destruct (free_prefix _ _ _ _ _ _ Hf Hb Heq) as [more ->].
    rewrite <- app_assoc in Heq. apply app_inv_head in Heq.
    destruct more as [|m more]; simpl in Heq; injection Heq as -> Hrest.
    + exists []. by rewrite app_nil_r.
    + exists (more ++ [d]). rewrite <- !app_assoc. done.
Qed.

Lemma last_app_cons {A : Type} (l k : list A) (c : A) :
  last (l ++ c :: k) = match last k with Some d => Some d | None => Some c end.
Proof. rewrite last_app, last_cons. by destruct (last k). Qed.

(** The pieces are exactly the delimited parts. *)
Lemma split_on_elem {A : Type} (p : A → bool) (l piece : list A) :
  piece ∈ split_on p l ↔ ∃ before after, l = before ++ piece ++ after ∧ delimited p before piece after.
Proof.
  remember (length l) as n eqn:Hn. revert l Hn.
  induction n as [n IH] using lt_wf_ind. intros l ->.
  destruct (split_on_first p l) as (first & Hf & [[-> ->]|(c & rest & -> & Hc & ->)]).
  - rewrite list_elem_of_singleton. split.
    + intros ->. exists [], []. rewrite app_nil_r. split; [done|]. by split.
    + intros (before & after & -> & [_ Hb Ha]).
      assert (before = []) as ->.
      { destruct before as [|d before _] using rev_ind; [done|]. specialize (Hb d).
        rewrite last_snoc in Hb. rewrite (free_not_separator _ _ d Hf) in Hb; [naive_solver|set_solver]. }
      destruct after as [|d after]; [by rewrite app_nil_r|]. specialize (Ha d eq_refl).
      rewrite (free_not_separator _ _ d Hf) in Ha; [done|set_solver].
  - rewrite elem_of_cons, (IH (length rest)); [|rewrite length_app; simpl; lia|done]. split.
    + intros [->|(before & after & -> & [Hpc Hb Ha])].
      * exists [], (c :: rest). split; [done|]. split; [done|done|]. by intros ? [= <-].
      * exists (first ++ c :: before), after. split; [by rewrite <- app_assoc|]. split; [done| |done].
        intros d. rewrite last_app_cons. destruct (last before) eqn:E; [by auto|by intros [= <-]].
    + intros (before & after & Heq & Hdel).
      destruct (delimited_cut _ _ _ _ _ _ _ Hf Hc Hdel Heq) as [[-> ->]|(before' & -> & ->)]; [by left|].
      right. exists before', after. split; [done|]. destruct Hdel as [Hpc Hb Ha]. split; [done| |done].
      intros d Hd. apply Hb. by rewrite last_app_cons, Hd.
Qed.

(** The last piece, which [rsplit(..).next()] yields. *)
Lemma split_on_last {A : Type} (p : A → bool) (l : list A) :
  ∃ piece before, last (split_on p l) = Some piece ∧ l = before ++ piece ∧ delimited p before piece [].
Proof.
  remember (length l) as n eqn:Hn. revert l Hn.
  induction n as [n IH] using lt_wf_ind. intros l ->.
  destruct (split_on_first p l) as (first & Hf & [[-> ->]|(c & rest & -> & Hc & ->)]).
  - exists first, []. split; [done|]. split; [done|]. by split.
  - destruct (IH (length rest)) with (l := rest) as (piece & before & Hl & -> & [Hp Hb Ha]);
      [rewrite length_app; simpl; lia|done|].
    exists piece, (first ++ c :: before). rewrite last_cons, Hl. split; [done|].
    split; [by rewrite <- app_assoc|]. split; [done| |done].
    intros d. rewrite last_app_cons. destruct (last before) eqn:E; [by auto|by intros [= <-]].
Qed.

Lemma delimited_last_shorter {A : Type} (p : A → bool) (before piece before' piece' k : list A) :
  delimited p before piece [] → delimited p before' piece' [] →
  before = before' ++ k → piece' = k ++ piece → piece' = piece.
Proof.
  intros [_ Hstart _] [Hfree _ _] -> ->. destruct k as [|c k _] using rev_ind; [done|].
  rewrite app_assoc, last_snoc in Hstart. specialize (Hstart c eq_refl).
  rewrite (free_not_separator _ _ c Hfree) in Hstart; [done|set_solver].
Qed.

Lemma split_on_last_eq {A : Type} (p : A → bool) (before piece : list A) :
  delimited p before piece [] → last (split_on p (before ++ piece)) = Some piece.
Proof.
  intros Hd. destruct (split_on_last p (before ++ piece)) as (piece' & before' & -> & Heq & Hd').
  f_equal. destruct (app_eq_inv _ _ _ _ Heq) as [(k & H1 & H2)|(k & H1 & H2)].
  - by eapply delimited_last_shorter.
  - symmetry. by eapply (delimited_last_shorter p before' piece').
Qed.

Lemma split_on_free {A : Type} (p : A → bool) (l : list A) :
  forallb (negb ∘ p) l = true → split_on p l = [l].
Proof.
  induction l as [|b l IH]; simpl; intros Hl; [done|].
  apply andb_prop in Hl as [Hb Hl]. unfold compose in Hb. apply negb_true_iff in Hb.
  by rewrite Hb, IH.
Qed.

Lemma split_on_cut {A : Type} (p : A → bool) (l k : list A) b :
  p b = true → split_on p (l ++ b :: k) = split_on p l ++ split_on p k.
Proof.
  intros Hb. induction l as [|a l IH]; simpl; [by rewrite Hb|]. rewrite IH. destruct (p a); [done|].
  destruct (split_on p l) eqn:E; [|done]. by destruct l as [|x l]; simpl in E; [|destruct (p x); [|destruct (split_on p l)]].
Qed.

Lemma list_retain_cons {A : Type} (keep : A → bool) x (l : list A) :
  list_retain keep (x :: l) = if keep x then x :: list_retain keep l else list_retain keep l.
Proof. unfold list_retain. rewrite filter_cons. by destruct (keep x); case_decide. Qed.

Lemma str_len_bytes s : str_len s = bytes_len (str_bytes s).
Proof.
  unfold str_len, bytes_len, str_bytes. f_equal. induction s as [|c s IH]; simpl; [done|]. by rewrite IH.
Qed.


Lemma str_len_app (a b : string) : str_len (a ++ b) = (str_len a + str_len b)%N.
Proof. unfold str_len. rewrite <- Nnat.Nat2N.inj_add. f_equal. induction a as [|c a IH]; [done|]. simpl. by f_equal. Qed.

Lemma bytes_strip_prefix_first (c : ascii) (p l k : list ascii) :
  bytes_strip_prefix (c :: p) l = Some k → bytes_starts_with [c] l = true.
Proof.
  unfold bytes_starts_with. destruct l as [|b l]; cbn [bytes_strip_prefix]; [done|].
  by destruct (Ascii.eqb c b).
Qed.

Lemma bytes_strip_prefix_app (p l k : list ascii) : bytes_strip_prefix p l = Some k → l = p ++ k.
Proof.
  revert l. induction p as [|a p IH]; intros l; [by destruct l; simpl; intros [= <-]|].
  destruct l as [|b l]; cbn [bytes_strip_prefix]; [done|].
  destruct (Ascii.eqb_spec a b) as [->|]; [|done]. intros Hk. simpl. f_equal. by apply IH.
Qed.

Lemma bytes_strip_prefix_of (p k : list ascii) : bytes_strip_prefix p (p ++ k) = Some k.
Proof. induction p as [|a p IH]; [done|]. simpl. by rewrite Ascii.eqb_refl. Qed.

(** ** Numbers in decimal *)

Lemma pretty_N_char_digit x : is_ascii_digit (pretty_N_char x) = true.
Proof. unfold pretty_N_char. by repeat case_match. Qed.

Lemma pretty_N_go_digits x s :
  forallb is_ascii_digit (str_bytes s) = true → forallb is_ascii_digit (str_bytes (pretty_N_go x s)) = true.
Proof.
  revert s. induction (N.lt_wf_0 x) as [x _ IH]. intros s Hs.
  destruct (decide (0 < x)%N) as [Hx|Hx].
  - rewrite pretty_N_go_step by done. apply IH; [by apply N.div_lt|].
    unfold str_bytes. simpl. by rewrite pretty_N_char_digit.
  - assert (x = 0%N) as -> by lia. by rewrite pretty_N_go_0.
Qed.

Lemma pretty_N_go_nonempty x s : (0 < x)%N ∨ s ≠ EmptyString → pretty_N_go x s ≠ EmptyString.
Proof.
  revert s. induction (N.lt_wf_0 x) as [x _ IH]. intros s Hs.
  destruct (decide (0 < x)%N) as [Hx|Hx].
  - rewrite pretty_N_go_step by done. apply IH; [by apply N.div_lt|by right].
  - assert (x = 0%N) as -> by lia. rewrite pretty_N_go_0. destruct Hs; [lia|done].
Qed.

(** A number is written in digits. *)
Lemma pretty_N_digits (x : N) :
  str_bytes (pretty x) ≠ [] ∧ forallb is_ascii_digit (str_bytes (pretty x)) = true.
Proof.
  unfold pretty, pretty_N. destruct (decide (x = 0%N)) as [->|Hx]; [done|]. split.
  - assert (pretty_N_go x "" ≠ EmptyString) as Hne by (apply pretty_N_go_nonempty; left; lia).
    by destruct (pretty_N_go x "").
  - by apply pretty_N_go_digits.
Qed.
