(* ===== verification/Health.v ===== *)
(** * Service health contract

    [service-runtime/contract/src/health.rs]: the health report the service
    publishes, the injection telemetry it carries and the validation a reader
    applies before it trusts either. *)

From S2P Require Export Prelude.

Definition HEALTH_PROTOCOL_VERSION : N := 1.
Definition MAX_ERROR_CODE_BYTES : N := 128.
Definition MAX_ERROR_MESSAGE_BYTES : N := 1024.

Inductive HealthState := HealthUnknown | HealthInitializing | HealthReady | HealthDegraded | HealthFailed.

Inductive ComponentReadiness := NotRequired | ReadinessInitializing | ReadinessReady | ReadinessFailed.

#[export] Instance HealthState_eq_dec : EqDecision HealthState.
Proof. solve_decision. Defined.

#[export] Instance ComponentReadiness_eq_dec : EqDecision ComponentReadiness.
Proof. solve_decision. Defined.

Definition satisfies_ready (r : ComponentReadiness) : bool :=
  match r with ReadinessReady => true | _ => false end.

Record ReadinessReport := mk_readiness {
  ready_profile : ComponentReadiness;
  ready_observer : ComponentReadiness;
  ready_injector32 : ComponentReadiness;
  ready_injector64 : ComponentReadiness
}.

Inductive InjectionArchitecture := TelemetryX86 | TelemetryX64.

Record InjectionSuccess := {
  success_pid : N;
  success_creation_time : N;
  success_session_id : N;
  success_runtime_generation_id : string;
  success_profile_digest : string
}.

Record ArchitectureInjectionTelemetry := {
  success_count : N;
  last_success : option InjectionSuccess
}.

Record InjectionTelemetry := {
  x86 : ArchitectureInjectionTelemetry;
  x64 : ArchitectureInjectionTelemetry
}.

Record StructuredServiceError := {
  error_code : string;
  error_message : string;
  error_win32 : option N
}.

Record HealthReport := {
  protocol_version : N;
  service_version : string;
  health : HealthState;
  active_profile_digest : option string;
  readiness : ReadinessReport;
  injection : InjectionTelemetry;
  last_error : option StructuredServiceError
}.

#[export] Instance ReadinessReport_eq_dec : EqDecision ReadinessReport.
Proof. solve_decision. Defined.
#[export] Instance InjectionArchitecture_eq_dec : EqDecision InjectionArchitecture.
Proof. solve_decision. Defined.
#[export] Instance InjectionSuccess_eq_dec : EqDecision InjectionSuccess.
Proof. solve_decision. Defined.
#[export] Instance ArchitectureInjectionTelemetry_eq_dec : EqDecision ArchitectureInjectionTelemetry.
Proof. solve_decision. Defined.
#[export] Instance InjectionTelemetry_eq_dec : EqDecision InjectionTelemetry.
Proof. solve_decision. Defined.
#[export] Instance StructuredServiceError_eq_dec : EqDecision StructuredServiceError.
Proof. solve_decision. Defined.
#[export] Instance HealthReport_eq_dec : EqDecision HealthReport.
Proof. solve_decision. Defined.

(** What [serde_json] reads as a report. *)
Class HealthJson := { health_from_slice : list ascii → option HealthReport }.

(** ** Canonical identifiers *)

Definition is_lower_hex (b : ascii) : bool := is_ascii_digit b || byte_in "a" "f" b.

Definition canonical_generation_id (value : string) : bool :=
  (str_len value =? 64)%N && forallb is_lower_hex (str_bytes value).

Definition canonical_profile_digest (value : string) : bool :=
  (str_len value =? 71)%N && starts_with "sha256:" value &&
  canonical_generation_id (bytes_str (drop 7 (str_bytes value))).

(** ** Telemetry *)

Definition default_architecture_telemetry : ArchitectureInjectionTelemetry :=
  {| success_count := 0; last_success := None |}.

Definition default_telemetry : InjectionTelemetry :=
  {| x86 := default_architecture_telemetry; x64 := default_architecture_telemetry |}.

Definition record_success (t : InjectionTelemetry) (architecture : InjectionArchitecture)
    (success : InjectionSuccess) : InjectionTelemetry :=
  let bump (a : ArchitectureInjectionTelemetry) :=
    {| success_count := saturating_add U64_MAX (success_count a) 1;
       last_success := Some success |} in
  match architecture with
  | TelemetryX86 => {| x86 := bump (x86 t); x64 := x64 t |}
  | TelemetryX64 => {| x86 := x86 t; x64 := bump (x64 t) |}
  end.

Definition telemetry_verified_for_migration (t : InjectionTelemetry)
    (generation_id profile_digest : string) : bool :=
  forallb (λ a : ArchitectureInjectionTelemetry,
    (0 <? success_count a)%N &&
    match last_success a with
    | Some success =>
        (success_runtime_generation_id success =? generation_id)%string &&
        (success_profile_digest success =? profile_digest)%string
    | None => false
    end) [x86 t; x64 t].

Definition architecture_telemetry_validate (a : ArchitectureInjectionTelemetry) : bool :=
  match success_count a, last_success a with
  | 0%N, None => true
  | 0%N, Some _ => false
  | _, None => false
  | _, Some success =>
      negb (success_pid success =? 0)%N &&
      negb (success_creation_time success =? 0)%N &&
      negb (success_session_id success =? 0)%N &&
      canonical_generation_id (success_runtime_generation_id success) &&
      canonical_profile_digest (success_profile_digest success)
  end.

Definition telemetry_validate (t : InjectionTelemetry) : bool :=
  forallb architecture_telemetry_validate [x86 t; x64 t].

(** ** Readiness *)

Definition readiness_all (r : ComponentReadiness) : ReadinessReport := mk_readiness r r r r.
Definition readiness_not_required : ReadinessReport := readiness_all NotRequired.
Definition readiness_initializing : ReadinessReport := readiness_all ReadinessInitializing.
Definition readiness_ready : ReadinessReport := readiness_all ReadinessReady.

Definition all_required_ready (r : ReadinessReport) : bool :=
  satisfies_ready (ready_profile r) && satisfies_ready (ready_observer r) &&
  satisfies_ready (ready_injector32 r) && satisfies_ready (ready_injector64 r).

(** ** Reports *)

Definition ready_report (version : string) (digest : option string) : HealthReport :=
  {| protocol_version := HEALTH_PROTOCOL_VERSION;
     service_version := version;
     health := HealthReady;
     active_profile_digest := digest;
     readiness := readiness_ready;
     injection := default_telemetry;
     last_error := None |}.

Definition is_some_and {A : Type} (o : option A) (p : A → bool) : bool :=
  match o with Some a => p a | None => false end.

Definition state_is_consistent (r : HealthReport) : bool :=
  match health r with
  | HealthReady => negb (is_some_and (last_error r) (λ _, true)) &&
                   is_some_and (active_profile_digest r) (λ _, true)
  | HealthDegraded | HealthFailed => is_some_and (last_error r) (λ _, true)
  | HealthInitializing => negb (is_some_and (active_profile_digest r) (λ _, true))
  | HealthUnknown => true
  end.

Definition report_validate (r : HealthReport) : bool :=
  negb (negb (protocol_version r =? HEALTH_PROTOCOL_VERSION)%N
        || str_is_empty (service_version r)
        || (64 <? str_len (service_version r))%N
        || (bool_decide (health r = HealthReady) && negb (all_required_ready (readiness r)))
        || is_some_and (active_profile_digest r) (λ digest, negb (canonical_profile_digest digest))
        || negb (state_is_consistent r)
        || negb (telemetry_validate (injection r))
        || is_some_and (last_error r) (λ error,
             str_is_empty (error_code error)
             || (MAX_ERROR_CODE_BYTES <? str_len (error_code error))%N
             || str_is_empty (error_message error)
             || (MAX_ERROR_MESSAGE_BYTES <? str_len (error_message error))%N)).

Definition is_active_for (r : HealthReport) (expected_digest : string) : bool :=
  report_validate r && bool_decide (health r = HealthReady) &&
  all_required_ready (readiness r) &&
  bool_decide (active_profile_digest r = Some expected_digest).

Definition report_verified_for_migration (r : HealthReport)
    (runtime_generation_id profile_digest : string) : bool :=
  is_active_for r profile_digest &&
  telemetry_verified_for_migration (injection r) runtime_generation_id profile_digest.

(** ** What the validation means *)

Definition valid_error (e : StructuredServiceError) : Prop :=
  (0 < str_len (error_code e) <= MAX_ERROR_CODE_BYTES)%N ∧
  (0 < str_len (error_message e) <= MAX_ERROR_MESSAGE_BYTES)%N.

(** The report contract stated without booleans. *)
Record valid_report (r : HealthReport) : Prop := {
  vr_protocol : protocol_version r = HEALTH_PROTOCOL_VERSION;
  vr_version : (0 < str_len (service_version r) <= 64)%N;
  vr_ready : health r = HealthReady →
    readiness r = readiness_ready ∧ last_error r = None ∧ is_Some (active_profile_digest r);
  vr_failing : health r = HealthDegraded ∨ health r = HealthFailed → is_Some (last_error r);
  vr_initializing : health r = HealthInitializing → active_profile_digest r = None;
  vr_digest : ∀ d, active_profile_digest r = Some d → canonical_profile_digest d = true;
  vr_telemetry : telemetry_validate (injection r) = true;
  vr_error : ∀ e, last_error r = Some e → valid_error e
}.

(** A success the telemetry may carry. *)
Definition valid_success (s : InjectionSuccess) : Prop :=
  success_pid s ≠ 0%N ∧ success_creation_time s ≠ 0%N ∧ success_session_id s ≠ 0%N ∧
  canonical_generation_id (success_runtime_generation_id s) = true ∧
  canonical_profile_digest (success_profile_digest s) = true.

Lemma str_is_empty_false s : str_is_empty s = false ↔ (0 < str_len s)%N.
Proof. unfold str_is_empty. rewrite N.eqb_neq. lia. Qed.

Lemma all_required_ready_spec r : all_required_ready r = true ↔ r = readiness_ready.
Proof.
  unfold all_required_ready. split; [|by intros ->].
  destruct r as [a b c d]; simpl. rewrite !andb_true_iff.
  by intros [[[??]?]?]; destruct a, b, c, d.
Qed.

Lemma is_some_and_false {A} (o : option A) p :
  is_some_and o p = false ↔ ∀ a, o = Some a → p a = false.
Proof. destruct o; simpl; naive_solver. Qed.

Lemma is_some_and_any {A} (o : option A) : is_some_and o (λ _, true) = true ↔ is_Some o.
Proof. destruct o; simpl; split; naive_solver. Qed.

Lemma valid_error_spec e :
  (str_is_empty (error_code e) || (MAX_ERROR_CODE_BYTES <? str_len (error_code e))%N
   || str_is_empty (error_message e)
   || (MAX_ERROR_MESSAGE_BYTES <? str_len (error_message e))%N) = false ↔ valid_error e.
Proof.
  unfold valid_error. rewrite !orb_false_iff, !str_is_empty_false, !N.ltb_ge. lia.
Qed.

Lemma state_is_consistent_spec r :
  state_is_consistent r = true ↔
  (health r = HealthReady → last_error r = None ∧ is_Some (active_profile_digest r)) ∧
  (health r = HealthDegraded ∨ health r = HealthFailed → is_Some (last_error r)) ∧
  (health r = HealthInitializing → active_profile_digest r = None).
Proof.
  unfold state_is_consistent.
  destruct (health r), (last_error r), (active_profile_digest r); simpl; naive_solver.
Qed.

(** [HealthReport::validate] accepts exactly the reports of the contract:
    protocol 1, a non-empty version of at most 64 bytes, a ready report with all
    four components ready, a digest and no error, a degraded or failed one with
    an error, an initializing one without a digest, and canonical, bounded
    fields throughout. *)
Theorem report_validate_spec r : report_validate r = true ↔ valid_report r.
Proof.
  unfold report_validate.
  rewrite negb_true_iff, !orb_false_iff, !negb_false_iff, andb_false_iff, !is_some_and_false,
    str_is_empty_false, N.ltb_ge, N.eqb_eq, state_is_consistent_spec, negb_false_iff,
    all_required_ready_spec, bool_decide_eq_false.
  setoid_rewrite valid_error_spec. setoid_rewrite negb_false_iff.
  split.
  - intros (((((((?&?)&?)&Hready)&?)&(Hcons&?&?))&?)&?). split; try done.
    intros Hh. split; [|by apply Hcons]. by destruct Hready.
  - intros [? [? ?] Hr ? ? ? ? ?]. repeat split; auto; try (by intros; apply Hr);
      try by apply vr_error0.
    destruct (decide (health r = HealthReady)) as [E|E]; [right; by apply Hr|by left].
Qed.

Lemma is_active_for_spec r d :
  is_active_for r d = true ↔
  valid_report r ∧ health r = HealthReady ∧ active_profile_digest r = Some d.
Proof.
  unfold is_active_for.
  rewrite !andb_true_iff, !bool_decide_eq_true, report_validate_spec, all_required_ready_spec.
  split; [naive_solver|]. intros (Hv & Hh & Hd). destruct (vr_ready r Hv Hh). naive_solver.
Qed.

(** A report the service builds as ready ([HealthReport::ready]) with a
    canonical digest and a version of legal length is valid and active for
    exactly that digest: a reader that expects another profile does not take the
    service for active. *)
Theorem ready_report_active v d d' :
  (0 < str_len v <= 64)%N → canonical_profile_digest d = true →
  is_active_for (ready_report v (Some d)) d' = true ↔ d = d'.
Proof.
  intros Hv Hd. rewrite is_active_for_spec. simpl. split; [naive_solver|]. intros ->.
  split; [|done]. split; simpl; naive_solver.
Qed.

Lemma ready_report_active_witness :
  let d := "sha256:0123456789abcdef0123456789abcdef0123456789abcdef0123456789abcdef"%string in
  is_active_for (ready_report "1.2.3" (Some d)) d = true ↔ d = d.
Proof. apply ready_report_active; vm_compute; [split; congruence|reflexivity]. Defined.

Lemma valid_success_spec s :
  valid_success s ↔
  (negb (success_pid s =? 0)%N && negb (success_creation_time s =? 0)%N &&
   negb (success_session_id s =? 0)%N &&
   canonical_generation_id (success_runtime_generation_id s) &&
   canonical_profile_digest (success_profile_digest s)) = true.
Proof.
  unfold valid_success. rewrite !andb_true_iff, !negb_true_iff, !N.eqb_neq. naive_solver.
Qed.

Lemma architecture_telemetry_validate_bump a s :
  valid_success s →
  architecture_telemetry_validate
    {| success_count := saturating_add U64_MAX (success_count a) 1; last_success := Some s |} = true.
Proof.
  intros Hs%valid_success_spec. unfold architecture_telemetry_validate; simpl.
  assert (saturating_add U64_MAX (success_count a) 1 ≠ 0%N) as Hne
    by (unfold saturating_add, U64_MAX; lia).
  by destruct (saturating_add _ _ _).
Qed.

(** Recording a well-formed success keeps the telemetry valid and its
    counters below the [u64] bound, moves only the counter of that architecture,
    and once both architectures have succeeded under one generation and profile
    the telemetry is verified for migration to exactly them. *)
Theorem record_success_correct t arch s :
  telemetry_validate t = true → valid_success s →
  (success_count (x86 t) <= U64_MAX)%N → (success_count (x64 t) <= U64_MAX)%N →
  let t' := record_success t arch s in
  telemetry_validate t' = true ∧
  (success_count (x86 t') <= U64_MAX)%N ∧ (success_count (x64 t') <= U64_MAX)%N ∧
  (match arch with TelemetryX86 => x64 t' = x64 t | TelemetryX64 => x86 t' = x86 t end) ∧
  let other := match arch with TelemetryX86 => TelemetryX64 | TelemetryX64 => TelemetryX86 end in
  ∀ s', success_runtime_generation_id s' = success_runtime_generation_id s →
        success_profile_digest s' = success_profile_digest s →
        telemetry_verified_for_migration (record_success t' other s')
          (success_runtime_generation_id s) (success_profile_digest s) = true.
Proof.
  intros Ht Hs H86 H64.
  unfold telemetry_validate in *. simpl in Ht. andb_split.
  pose proof (λ a, architecture_telemetry_validate_bump a s Hs) as Hb.
  assert (∀ n, (0 <? saturating_add U64_MAX n 1)%N = true) as Hpos.
  { intros n. apply N.ltb_lt. unfold saturating_add, U64_MAX. lia. }
  assert (∀ n, (saturating_add U64_MAX n 1 <= U64_MAX)%N) as Hmax.
  { intros n. unfold saturating_add. lia. }
  destruct arch; cbn -[saturating_add U64_MAX]; rewrite ?Hb; repeat split; auto;
    try by rewrite ?andb_true_r.
  all: intros s' Hg Hp; unfold telemetry_verified_for_migration;
    cbn -[saturating_add U64_MAX]; by rewrite !Hpos, Hg, Hp, !String.eqb_refl.
Qed.

Lemma record_success_correct_witness :
  let g := "0123456789abcdef0123456789abcdef0123456789abcdef0123456789abcdef"%string in
  let s := {| success_pid := 7; success_creation_time := 9; success_session_id := 1;
              success_runtime_generation_id := g;
              success_profile_digest := "sha256:" ++ g |} in
  telemetry_validate (record_success default_telemetry TelemetryX86 s) = true.
Proof.
  intros g s.
  refine (proj1 (record_success_correct default_telemetry TelemetryX86 s _ _ _ _)).
  - reflexivity.
  - unfold valid_success. split_and!; by vm_compute.
  - by vm_compute.
  - by vm_compute.
Defined.
