(* ===== verification/Observer.v ===== *)
(** * Process observation and the interfaces of the host

    [service-runtime/host/src/observer.rs] and
    [injection_orchestrator/model.rs]: what a process is to the service, and
    one type class per trait the orchestration calls through.  The
    implementations read the Windows process table, the WMI event stream or
    the service control manager, so a class takes the world [W] they depend on
    and returns the world after the call: two calls with the same argument may
    answer differently. *)

From S2P Require Export Health.

(** ** Processes *)

Inductive ProcessArchitecture := X86 | X64.

Record ProcessIdentity := {
  pid : N;
  creation_time : N;
  session_id : N;
  architecture : ProcessArchitecture;
  protected : bool
}.

Record ProcessFacts := {
  critical_or_unknown : bool;
  prohibits_dynamic_code : bool;
  restricts_binary_signature : bool;
  image_name : option string
}.

Record InspectedProcess := {
  identity : ProcessIdentity;
  facts : ProcessFacts
}.

Inductive TargetLiveness := LivenessAlive | LivenessVanished | LivenessUnknown.

Inductive TargetLifecycle := LifecycleRunning | LifecycleFrozen | LifecycleExiting | LifecycleUnknown.

Record InjectionRequest := {
  request_identity : ProcessIdentity;
  request_generation_id : string
}.

Inductive BrokerDisposition :=
| DispositionInjected
| DispositionSkipped
| DispositionRejected
| DispositionRetryableFailure
| DispositionLaunchFailed
| DispositionTargetFrozen
| DispositionCancelled.

Record BrokerResult := {
  disposition : BrokerDisposition;
  result_code : string;
  result_win32_error : option N
}.

#[export] Instance ProcessArchitecture_eq_dec : EqDecision ProcessArchitecture.
Proof. solve_decision. Defined.
#[export] Instance ProcessIdentity_eq_dec : EqDecision ProcessIdentity.
Proof. solve_decision. Defined.
#[export] Instance ProcessFacts_eq_dec : EqDecision ProcessFacts.
Proof. solve_decision. Defined.
#[export] Instance InspectedProcess_eq_dec : EqDecision InspectedProcess.
Proof. solve_decision. Defined.
#[export] Instance TargetLiveness_eq_dec : EqDecision TargetLiveness.
Proof. solve_decision. Defined.
#[export] Instance TargetLifecycle_eq_dec : EqDecision TargetLifecycle.
Proof. solve_decision. Defined.
#[export] Instance InjectionRequest_eq_dec : EqDecision InjectionRequest.
Proof. solve_decision. Defined.
#[export] Instance BrokerDisposition_eq_dec : EqDecision BrokerDisposition.
Proof. solve_decision. Defined.
#[export] Instance BrokerResult_eq_dec : EqDecision BrokerResult.
Proof. solve_decision. Defined.

Definition service_error (c m : string) : StructuredServiceError :=
  {| error_code := c; error_message := m; error_win32 := None |}.

(** ** Orchestration outcomes *)

Inductive ProcessOutcome :=
| OutcomeInjected
| OutcomeSkipped
| OutcomeDeferred
| OutcomeDuplicate
| OutcomeRejected
| OutcomeRetryExhausted
| OutcomeCancelled.

Record ProcessAttemptRecord := {
  record_identity : ProcessIdentity;
  record_runtime_generation_id : string;
  record_outcome : ProcessOutcome;
  record_attempts : N;
  record_code : string;
  record_win32_error : option N
}.

#[export] Instance ProcessOutcome_eq_dec : EqDecision ProcessOutcome.
Proof. solve_decision. Defined.
#[export] Instance ProcessAttemptRecord_eq_dec : EqDecision ProcessAttemptRecord.
Proof. solve_decision. Defined.

Record RetryPolicy := {
  max_attempts : N;
  initial_delay : N;
  max_delay : N
}.

Definition default_retry_policy : RetryPolicy :=
  {| max_attempts := 3; initial_delay := from_millis 25; max_delay := from_millis 250 |}.

Record DeferralPolicy := {
  frozen_recheck : N;
  launch_initial_delay : N;
  launch_max_delay : N;
  launch_max_deferrals : N
}.

Definition default_deferral_policy : DeferralPolicy :=
  {| frozen_recheck := from_secs 2;
     launch_initial_delay := from_secs 2;
     launch_max_delay := from_secs 32;
     launch_max_deferrals := 5 |}.

Record SessionChange := {
  change_event_type : N;
  change_session_id : N
}.

#[export] Instance SessionChange_eq_dec : EqDecision SessionChange.
Proof. solve_decision. Defined.

Definition OVERFLOW_EVENT_TYPE : N := U32_MAX.

Definition session_change_overflow : SessionChange :=
  {| change_event_type := OVERFLOW_EVENT_TYPE; change_session_id := 0 |}.

Definition is_overflow (c : SessionChange) : bool :=
  (change_event_type c =? OVERFLOW_EVENT_TYPE)%N.

(** ** Events the host records ([host/src/event_log.rs]) *)

Inductive LiveObserver := Etw | Wmi.

Inductive HostEvent :=
| ServiceStarted (version : string)
| ServiceStartSkipped (error : StructuredServiceError)
| ServiceStopped
| HealthChanged (state : HealthState) (error : option StructuredServiceError)
| InjectionResult (record : ProcessAttemptRecord) (process : string)
| InjectionSkipped (reason : string)
| InjectionPipelineSample (millis : N) (backlog : nat) (age_millis : option N)
| LiveObserverSelected (observer : LiveObserver)
| FlushInjectionSummary
| HelperBrokerFailed (arch : ProcessArchitecture) (event_code : string) (detail : option string).

(** ** Service status ([host/src/status.rs]) *)

Inductive ScmState := StateStartPending | StateRunning | StateStopPending | StateStopped.

Record ServiceStatus := {
  status_state : ScmState;
  checkpoint : N;
  wait_hint_ms : N;
  win32_exit_code : N;
  service_specific_exit_code : N
}.

Definition SERVICE_STOP_WAIT_HINT_MS : N := 25000.

Definition pending_status (state : ScmState) (cp hint : N) : ServiceStatus :=
  {| status_state := state; checkpoint := cp; wait_hint_ms := hint; win32_exit_code := 0;
     service_specific_exit_code := 0 |}.

Definition settled_status (state : ScmState) (win32 specific : N) : ServiceStatus :=
  {| status_state := state; checkpoint := 0; wait_hint_ms := 0; win32_exit_code := win32;
     service_specific_exit_code := specific |}.

Definition status_start_pending (cp hint : N) : ServiceStatus := pending_status StateStartPending cp hint.
Definition status_running : ServiceStatus := settled_status StateRunning 0 0.
Definition status_stop_pending (cp hint : N) : ServiceStatus := pending_status StateStopPending cp hint.
Definition status_stopped : ServiceStatus := settled_status StateStopped 0 0.
Definition status_stopped_with_error (win32 specific : N) : ServiceStatus :=
  settled_status StateStopped win32 specific.

(** An [io::Error] as far as the host reads it. *)
Record IoError := {
  io_message : string;
  raw_os_error : option Z
}.

#[export] Instance ScmState_eq_dec : EqDecision ScmState.
Proof. solve_decision. Defined.
#[export] Instance ServiceStatus_eq_dec : EqDecision ServiceStatus.
Proof. solve_decision. Defined.
#[export] Instance IoError_eq_dec : EqDecision IoError.
Proof. solve_decision. Defined.

(** ** Interfaces *)

Class ProcessInspector (W : Type) := {
  inspect : N → W → result InspectedProcess StructuredServiceError * W;
  probe_target_lifecycle : ProcessIdentity → W → TargetLifecycle * W;
  probe_target_liveness : ProcessIdentity → W → TargetLiveness * W;
  process_basename : ProcessIdentity → W → option string * W;
  image_name_for_ordering : N → W → option string * W
}.

Class InjectionBroker (W : Type) := {
  verify_ready : ProcessArchitecture → W → result unit StructuredServiceError * W;
  inject : InjectionRequest → W → BrokerResult * W
}.

Class RetryScheduler (W : Type) := {
  scheduler_wait : N → W → bool * W
}.

(** What the code takes from [std]: [thread::sleep], [Instant::now] and the time
    since the Unix epoch ([None] when the clock is set before it). *)
Class Clock (W : Type) := {
  thread_sleep : N → W → W;
  instant_now : W → N * W;
  unix_time : W → option N * W
}.

Class HostEventSink (W : Type) := {
  record_event : HostEvent → W → W
}.

Class ProcessEventSource (W : Type) := {
  subscribe : string → W → result unit StructuredServiceError * W;
  snapshot_pids : W → result (list N) StructuredServiceError * W;
  next_pid : N → W → result (option N) StructuredServiceError * W
}.

Class StopSignal (W : Type) := {
  stop_wait : W → result unit StructuredServiceError * W;
  wait_timeout : N → W → result bool StructuredServiceError * W;
  stop_requested : W → bool * W;
  take_session_change : W → option SessionChange * W
}.

Class StatusReporter (W : Type) := {
  report_status : ServiceStatus → W → result unit IoError * W
}.

Class HealthPublisher (W : Type) := {
  publish : HealthReport → W → result unit IoError * W
}.

(** ** A world that remembers the calls made to it

    [Traced W] is [W] together with the calls that crossed an interface, the
    latest first, each with its argument and its answer.  It implements every
    interface [W] implements, so a statement about what the code calls, in
    which order and how often, is a statement about the code run in
    [Traced W]. *)

Inductive call :=
| CallInspect (p : N) (answer : result InspectedProcess StructuredServiceError)
| CallLifecycle (i : ProcessIdentity) (answer : TargetLifecycle)
| CallLiveness (i : ProcessIdentity) (answer : TargetLiveness)
| CallBasename (i : ProcessIdentity) (answer : option string)
| CallImageName (p : N) (answer : option string)
| CallVerifyReady (a : ProcessArchitecture) (answer : result unit StructuredServiceError)
| CallInject (r : InjectionRequest) (answer : BrokerResult)
| CallWait (delay : N) (answer : bool)
| CallSleep (delay : N)
| CallRecord (e : HostEvent)
| CallNow (answer : N)
| CallUnixTime (answer : option N)
| CallSubscribe (query : string) (answer : result unit StructuredServiceError)
| CallSnapshot (answer : result (list N) StructuredServiceError)
| CallNextPid (timeout : N) (answer : result (option N) StructuredServiceError)
| CallStopWait (answer : result unit StructuredServiceError)
| CallWaitTimeout (timeout : N) (answer : result bool StructuredServiceError)
| CallStopRequested (answer : bool)
| CallTakeSession (answer : option SessionChange)
| CallStatus (s : ServiceStatus) (answer : result unit IoError)
| CallPublish (r : HealthReport) (answer : result unit IoError)
| CallInitialize (initialized : bool).

Record Traced (W : Type) := mk_traced {
  base : W;
  calls : list call
}.
Arguments mk_traced {W}.
Arguments base {W}.
Arguments calls {W}.

Definition traced {W A : Type} (f : W → A * W) (note : A → call) (t : Traced W) : A * Traced W :=
  let '(a, w) := f (base t) in (a, mk_traced w (note a :: calls t)).

#[export] Instance Traced_inspector W `{ProcessInspector W} : ProcessInspector (Traced W) := {
  inspect p := traced (inspect p) (CallInspect p);
  probe_target_lifecycle i := traced (probe_target_lifecycle i) (CallLifecycle i);
  probe_target_liveness i := traced (probe_target_liveness i) (CallLiveness i);
  process_basename i := traced (process_basename i) (CallBasename i);
  image_name_for_ordering p := traced (image_name_for_ordering p) (CallImageName p)
}.

#[export] Instance Traced_broker W `{InjectionBroker W} : InjectionBroker (Traced W) := {
  verify_ready a := traced (verify_ready a) (CallVerifyReady a);
  inject r := traced (inject r) (CallInject r)
}.

#[export] Instance Traced_scheduler W `{RetryScheduler W} : RetryScheduler (Traced W) := {
  scheduler_wait d := traced (scheduler_wait d) (CallWait d)
}.

#[export] Instance Traced_clock W `{Clock W} : Clock (Traced W) := {
  thread_sleep d t := mk_traced (thread_sleep d (base t)) (CallSleep d :: calls t);
  instant_now := traced instant_now CallNow;
  unix_time := traced unix_time CallUnixTime
}.

#[export] Instance Traced_source W `{ProcessEventSource W} : ProcessEventSource (Traced W) := {
  subscribe q := traced (subscribe q) (CallSubscribe q);
  snapshot_pids := traced snapshot_pids CallSnapshot;
  next_pid d := traced (next_pid d) (CallNextPid d)
}.

#[export] Instance Traced_stop W `{StopSignal W} : StopSignal (Traced W) := {
  stop_wait := traced stop_wait CallStopWait;
  wait_timeout d := traced (wait_timeout d) (CallWaitTimeout d);
  stop_requested := traced stop_requested CallStopRequested;
  take_session_change := traced take_session_change CallTakeSession
}.

#[export] Instance Traced_status W `{StatusReporter W} : StatusReporter (Traced W) := {
  report_status s := traced (report_status s) (CallStatus s)
}.

#[export] Instance Traced_publisher W `{HealthPublisher W} : HealthPublisher (Traced W) := {
  publish r := traced (publish r) (CallPublish r)
}.

#[export] Instance Traced_sink W `{HostEventSink W} : HostEventSink (Traced W) := {
  record_event e t := mk_traced (record_event e (base t)) (CallRecord e :: calls t)
}.

(** ** A scripted world for evaluation

    Every interface answers from a script of its own and falls back to a fixed
    answer when the script is used up. *)

Record Script := mk_host_script {
  on_inspect : list (result InspectedProcess StructuredServiceError);
  on_lifecycle : list TargetLifecycle;
  on_liveness : list TargetLiveness;
  on_inject : list BrokerResult;
  on_wait : list bool;
  on_next_pid : list (result (option N) StructuredServiceError);
  on_snapshot : list (list N);
  on_wait_timeout : list (result bool StructuredServiceError);
  on_session : list SessionChange;
  on_publish : list (result unit IoError)
}.

Definition mk_script i l v j w : Script := mk_host_script i l v j w [] [] [] [] [].

Definition empty_script : Script := mk_script [] [] [] [] [].

Definition next {A : Type} (d : A) (l : list A) : A * list A :=
  match l with [] => (d, []) | a :: l' => (a, l') end.

Definition default_broker_result : BrokerResult :=
  {| disposition := DispositionInjected; result_code := "injected"; result_win32_error := None |}.

Definition unscripted : StructuredServiceError := service_error "unscripted" "unscripted".

#[export] Instance Script_inspector : ProcessInspector Script := {
  inspect p '(mk_host_script i l v j w n s t c b) :=
    let '(a, i) := next (Err unscripted) i in (a, mk_host_script i l v j w n s t c b);
  probe_target_lifecycle _ '(mk_host_script i l v j w n s t c b) :=
    let '(a, l) := next LifecycleUnknown l in (a, mk_host_script i l v j w n s t c b);
  probe_target_liveness _ '(mk_host_script i l v j w n s t c b) :=
    let '(a, v) := next LivenessUnknown v in (a, mk_host_script i l v j w n s t c b);
  process_basename i s := (None, s);
  image_name_for_ordering p s := (if (p =? 100)%N then Some "explorer.exe"%string else None, s)
}.

#[export] Instance Script_broker : InjectionBroker Script := {
  verify_ready a s := (Ok tt, s);
  inject r '(mk_host_script i l v j w n s t c b) :=
    let '(a, j) := next default_broker_result j in (a, mk_host_script i l v j w n s t c b)
}.

#[export] Instance Script_scheduler : RetryScheduler Script := {
  scheduler_wait d '(mk_host_script i l v j w n s t c b) :=
    let '(a, w) := next true w in (a, mk_host_script i l v j w n s t c b)
}.

#[export] Instance Script_clock : Clock Script := {
  thread_sleep d s := s;
  instant_now s := (0%N, s);
  unix_time s := (None, s)
}.

#[export] Instance Script_sink : HostEventSink Script := { record_event e s := s }.

#[export] Instance Script_source : ProcessEventSource Script := {
  subscribe q s := (Ok tt, s);
  snapshot_pids '(mk_host_script i l v j w n s t c b) :=
    let '(a, s) := next [] s in (Ok a, mk_host_script i l v j w n s t c b);
  next_pid d '(mk_host_script i l v j w n s t c b) :=
    let '(a, n) := next (Ok None) n in (a, mk_host_script i l v j w n s t c b)
}.

#[export] Instance Script_stop : StopSignal Script := {
  stop_wait s := (Ok tt, s);
  wait_timeout d '(mk_host_script i l v j w n s t c b) :=
    let '(a, t) := next (Ok true) t in (a, mk_host_script i l v j w n s t c b);
  stop_requested s := (match on_wait_timeout s with [] => true | _ => false end, s);
  take_session_change '(mk_host_script i l v j w n s t c b) :=
    match c with
    | [] => (None, mk_host_script i l v j w n s t c b)
    | a :: c => (Some a, mk_host_script i l v j w n s t c b)
    end
}.

#[export] Instance Script_status : StatusReporter Script := { report_status s w := (Ok tt, w) }.

#[export] Instance Script_publisher : HealthPublisher Script := {
  publish r '(mk_host_script i l v j w n s t c b) :=
    let '(a, b) := next (Ok tt) b in (a, mk_host_script i l v j w n s t c b)
}.
