(* ===== verification/TargetValidation.v ===== *)
(** * Target validation

    [service-runtime/host/src/target_validation.rs]: which observed process may
    be injected at all.  [validate] inspects one PID and returns an eligible
    identity, a deferral or an explicit skip; what it cannot attribute to the
    target it returns as an error. *)

From S2P Require Export Observer.

Inductive SkipReason :=
| SelfProcess
| SessionZero
| Protected
| CriticalOrUnknown
| DynamicCodeMitigation
| BinarySignatureMitigation
| ImportantWindowsProcess
| InstallerControlProcess
| ImageNameUnavailable
| Exiting
| InspectionFailed (code : string).

Definition skip_code (r : SkipReason) : string :=
  match r with
  | SelfProcess => "self-process"
  | SessionZero => "session-zero"
  | Protected => "protected"
  | CriticalOrUnknown => "critical-or-unknown"
  | DynamicCodeMitigation => "dynamic-code-mitigation"
  | BinarySignatureMitigation => "binary-signature-mitigation"
  | ImportantWindowsProcess => "important-windows-process"
  | InstallerControlProcess => "installer-control-process"
  | ImageNameUnavailable => "image-name-unavailable"
  | Exiting => "exiting"
  | InspectionFailed _ => "inspection-failed"
  end.

Inductive DeferralReason := Frozen | HelperLaunchFailed.

Inductive ProcessTargetDecision :=
| Eligible (i : ProcessIdentity)
| Skipped (r : SkipReason)
| Deferred (i : ProcessIdentity) (r : DeferralReason).

#[export] Instance SkipReason_eq_dec : EqDecision SkipReason.
Proof. solve_decision. Defined.
#[export] Instance DeferralReason_eq_dec : EqDecision DeferralReason.
Proof. solve_decision. Defined.
#[export] Instance ProcessTargetDecision_eq_dec : EqDecision ProcessTargetDecision.
Proof. solve_decision. Defined.

Definition target_scoped_inspection_failure (c : string) : option string :=
  if one_of ["process-protected-or-inaccessible"; "process-creation-time-unavailable";
             "process-session-unavailable"; "process-architecture-unavailable";
             "process-architecture-unsupported"] c
  then Some c else None.

Definition is_relay_root (name : string) : bool := (name =? "explorer.exe")%string.

Definition is_important_windows_process (name : string) : bool :=
  one_of ["smss.exe"; "csrss.exe"; "wininit.exe"; "winlogon.exe"; "services.exe"; "lsass.exe";
          "fontdrvhost.exe"] name.

Definition is_inno_uninstaller (name : string) : bool :=
  match rsplit_once "." name with
  | None => false
  | Some (stem, extension) =>
      if negb (one_of ["exe"; "tmp"] extension) then false
      else
        let stem := default stem (strip_prefix "_" stem) in
        match strip_prefix "unins" stem with
        | Some sequence => forallb is_ascii_digit (str_bytes sequence)
        | None => false
        end
  end.

Definition is_installer_control_process (name : string) : bool :=
  (name =? "mactype-service-setup.exe")%string || is_inno_uninstaller name.

Section Validate.
Context {W : Type} `{ProcessInspector W}.

Definition validate (service_pid : N) (p : N) (w : W)
    : result ProcessTargetDecision StructuredServiceError * W :=
  let '(inspected, w) := inspect p w in
  match inspected with
  | Err error =>
      match target_scoped_inspection_failure (error_code error) with
      | Some code => (Ok (Skipped (InspectionFailed code)), w)
      | None => (Err error, w)
      end
  | Ok {| identity := i; facts := f |} =>
      if negb (pid i =? p)%N then
        (Err (service_error "process-identity-mismatch"
                "the inspected process identity does not match the observed PID"), w)
      else if (pid i =? service_pid)%N then (Ok (Skipped SelfProcess), w)
      else if (session_id i =? 0)%N then (Ok (Skipped SessionZero), w)
      else if protected i then (Ok (Skipped Protected), w)
      else if critical_or_unknown f then (Ok (Skipped CriticalOrUnknown), w)
      else if prohibits_dynamic_code f then (Ok (Skipped DynamicCodeMitigation), w)
      else if restricts_binary_signature f then (Ok (Skipped BinarySignatureMitigation), w)
      else match image_name f with
      | None => (Ok (Skipped ImageNameUnavailable), w)
      | Some name =>
          if is_important_windows_process name then (Ok (Skipped ImportantWindowsProcess), w)
          else if is_installer_control_process name then (Ok (Skipped InstallerControlProcess), w)
          else
            let '(lifecycle, w) := probe_target_lifecycle i w in
            match lifecycle with
            | LifecycleExiting => (Ok (Skipped Exiting), w)
            | LifecycleFrozen => (Ok (Deferred i Frozen), w)
            | LifecycleRunning | LifecycleUnknown => (Ok (Eligible i), w)
            end
      end
  end.
End Validate.

(** ** What an eligible target is *)

(** The facts an inspection must report before a process may become a target of
    the service with PID [service_pid]. *)
Definition safe_target (service_pid p : N) (inspected : InspectedProcess) : Prop :=
  let i := identity inspected in
  let f := facts inspected in
  pid i = p ∧ p ≠ service_pid ∧ session_id i ≠ 0%N ∧ protected i = false ∧
  critical_or_unknown f = false ∧ prohibits_dynamic_code f = false ∧
  restricts_binary_signature f = false ∧
  ∃ name, image_name f = Some name ∧
    is_important_windows_process name = false ∧ is_installer_control_process name = false.

(** The calls one validation of [p] adds to a trace, latest first, when it lets
    the identity [i] through. *)
Definition validated (service_pid p : N) (i : ProcessIdentity) (added : list call) : Prop :=
  ∃ inspected lifecycle,
    identity inspected = i ∧ safe_target service_pid p inspected ∧
    lifecycle ≠ LifecycleExiting ∧
    added = [CallLifecycle i lifecycle; CallInspect p (Ok inspected)].

Section ValidateFacts.
Context {W : Type} `{ProcessInspector W}.

(** Either [validate] lets an identity through after one inspection that
    reported every safety fact, or it made no decision in favour of the target. *)
Lemma validate_cases service_pid p (t : Traced W) r t' :
  validate service_pid p t = (r, t') →
  ∃ added, calls t' = added ++ calls t ∧
  match r with
  | Ok (Eligible i) => validated service_pid p i added ∧
      ∃ l rest, added = CallLifecycle i l :: rest ∧ (l = LifecycleRunning ∨ l = LifecycleUnknown)
  | Ok (Deferred i reason) => validated service_pid p i added ∧ reason = Frozen ∧
      ∃ rest, added = CallLifecycle i LifecycleFrozen :: rest
  | Ok (Skipped _) | Err _ => True
  end.
Proof.
  unfold validate, inspect, probe_target_lifecycle; simpl. unfold traced.
  destruct (inspect p (base t)) as [[inspected|e] w]; simpl.
  2:{ intros E. exists [CallInspect p (Err e)]. break_in E; done. }
  destruct inspected as [i f]. intros E.
  destruct (negb (pid i =? p)%N) eqn:E1.
  { simplify_eq/=. by exists [CallInspect p (Ok (Build_InspectedProcess i f))]. }
  destruct (pid i =? service_pid)%N eqn:E2;
    [|destruct (session_id i =? 0)%N eqn:E3;
    [|destruct (protected i) eqn:E4;
    [|destruct (critical_or_unknown f) eqn:E5;
    [|destruct (prohibits_dynamic_code f) eqn:E6;
    [|destruct (restricts_binary_signature f) eqn:E7;
    [|destruct (image_name f) as [name|] eqn:E8;
    [destruct (is_important_windows_process name) eqn:E9;
    [|destruct (is_installer_control_process name) eqn:E10]|]]]]]]].
  all: try (simplify_eq/=; by exists [CallInspect p (Ok (Build_InspectedProcess i f))]).
  andb_split. subst p.
  destruct (probe_target_lifecycle i w) as [l w'] eqn:El; simpl in E.
  exists [CallLifecycle i l; CallInspect (pid i) (Ok (Build_InspectedProcess i f))].
  assert (safe_target service_pid (pid i) (Build_InspectedProcess i f)) as Hsafe.
  { unfold safe_target; simpl. naive_solver. }
  assert (∀ l, l ≠ LifecycleExiting → validated service_pid (pid i) i
    [CallLifecycle i l; CallInspect (pid i) (Ok (Build_InspectedProcess i f))]) as Hv
    by (intros l' Hl; by exists (Build_InspectedProcess i f), l').
  destruct l; simplify_eq/=; split; try done; split_and?; eauto 6.
Qed.
End ValidateFacts.

(** Validation is a conjunction of guards: in a world whose inspector answers
    with [inspected] and whose lifecycle probe answers [l], [validate] lets the
    target through, or defers it, exactly when every safety fact holds and the
    process is not exiting; and it defers it exactly when it is frozen. *)
Theorem validate_complete {W} `{ProcessInspector W} service_pid p (w w1 w2 : W) inspected l :
  inspect p w = (Ok inspected, w1) →
  probe_target_lifecycle (identity inspected) w1 = (l, w2) →
  (fst (validate service_pid p w) = Ok (Eligible (identity inspected)) ↔
     safe_target service_pid p inspected ∧ (l = LifecycleRunning ∨ l = LifecycleUnknown)) ∧
  (fst (validate service_pid p w) = Ok (Deferred (identity inspected) Frozen) ↔
     safe_target service_pid p inspected ∧ l = LifecycleFrozen).
Proof.
  intros Ei El. unfold validate. rewrite Ei. destruct inspected as [i f]; simpl in *.
  unfold safe_target; simpl.
  destruct (N.eqb_spec (pid i) p) as [Hp|Hp]; simpl; [|naive_solver].
  destruct (N.eqb_spec (pid i) service_pid); simpl; [naive_solver congruence|].
  destruct (N.eqb_spec (session_id i) 0); simpl; [naive_solver|].
  destruct (protected i); [naive_solver|].
  destruct (critical_or_unknown f); [naive_solver|].
  destruct (prohibits_dynamic_code f); [naive_solver|].
  destruct (restricts_binary_signature f); [naive_solver|].
  destruct (image_name f) as [name|]; [|naive_solver].
  destruct (is_important_windows_process name) eqn:?; [naive_solver congruence|].
  destruct (is_installer_control_process name) eqn:?; [naive_solver congruence|].
  rewrite El. destruct l; simpl; naive_solver congruence.
Qed.

Definition example_process : InspectedProcess :=
  {| identity := {| pid := 42; creation_time := 7; session_id := 1; architecture := X64;
                    protected := false |};
     facts := {| critical_or_unknown := false; prohibits_dynamic_code := false;
                 restricts_binary_signature := false; image_name := Some "notepad.exe"%string |} |}.

Definition example_script : Script :=
  mk_script [Ok example_process] [LifecycleRunning] [] [] [].

Lemma validate_complete_witness :
  fst (validate 4 42 example_script) = Ok (Eligible (identity example_process)).
Proof.
  apply (validate_complete 4 42 example_script (mk_script [] [LifecycleRunning] [] [] [])
           empty_script example_process LifecycleRunning); try reflexivity.
  split; [|by left]. unfold safe_target. split_and!; try done. by exists "notepad.exe"%string.
Defined.

(** The names the tests of the source pin down. *)
Example installer_control_names :
  forallb is_installer_control_process
    ["mactype-service-setup.exe"; "unins000.exe"; "unins000.tmp"; "_unins.tmp"; "_unins001.exe";
     "_unins001.tmp"]%string = true ∧
  existsb is_installer_control_process
    ["mactype-service-setup.exe.disabled"; "uninstall-helper.exe"; "unison.exe"]%string = false.
Proof. split; vm_compute; reflexivity. Qed.
