(* ===== verification/InjectionOrchestrator.v ===== *)
(** * The injection orchestrator

    [service-runtime/host/src/injection_orchestrator.rs]: one target at a time
    from the validator's decision to a recorded outcome, with deduplication by
    PID and creation time, bounded retries, deferral of frozen targets and of
    failed helper launches, a bounded history and the telemetry of one runtime
    generation. *)

From stdpp Require Import pretty.
From S2P Require Export TargetValidation.

Definition TARGET_VANISHED_RESULT_CODE : string := "injection-target-vanished".
Definition DEFERRAL_CAPACITY_EXHAUSTED_CODE : string := "deferral-capacity-exhausted".
Definition MAX_DEFERRED_TARGETS : N := 512.
Definition MAX_TRACKED_PROCESS_RESULTS : N := 4096.

Record DeferredTarget := {
  target_identity : ProcessIdentity;
  target_reason : DeferralReason;
  target_deferrals : N;
  target_not_before : N
}.

Definition identity_key (i : ProcessIdentity) : N * N := (pid i, creation_time i).

Record InjectionOrchestrator := mk_orchestrator {
  generation_id : string;
  profile_digest : option string;
  service_pid : N;
  processed : gmap (N * N) ProcessAttemptRecord;
  process_order : list (N * N);
  deferred : gmap (N * N) DeferredTarget;
  deferred_order : list (N * N);
  deferral_policy : DeferralPolicy;
  retry_policy : RetryPolicy;
  retry_scheduler : bool;
  last_handled_creation_time : option N;
  injection_telemetry : InjectionTelemetry
}.

Definition set_processed (m : gmap (N * N) ProcessAttemptRecord) (order : list (N * N))
    (o : InjectionOrchestrator) : InjectionOrchestrator :=
  mk_orchestrator (generation_id o) (profile_digest o) (service_pid o) m order
    (deferred o) (deferred_order o) (deferral_policy o) (retry_policy o) (retry_scheduler o)
    (last_handled_creation_time o) (injection_telemetry o).

Definition set_deferred (m : gmap (N * N) DeferredTarget) (order : list (N * N))
    (o : InjectionOrchestrator) : InjectionOrchestrator :=
  mk_orchestrator (generation_id o) (profile_digest o) (service_pid o) (processed o)
    (process_order o) m order (deferral_policy o) (retry_policy o) (retry_scheduler o)
    (last_handled_creation_time o) (injection_telemetry o).

Definition set_last_handled (c : option N) (o : InjectionOrchestrator) : InjectionOrchestrator :=
  mk_orchestrator (generation_id o) (profile_digest o) (service_pid o) (processed o)
    (process_order o) (deferred o) (deferred_order o) (deferral_policy o) (retry_policy o)
    (retry_scheduler o) c (injection_telemetry o).

Definition set_telemetry (t : InjectionTelemetry) (o : InjectionOrchestrator)
    : InjectionOrchestrator :=
  mk_orchestrator (generation_id o) (profile_digest o) (service_pid o) (processed o)
    (process_order o) (deferred o) (deferred_order o) (deferral_policy o) (retry_policy o)
    (retry_scheduler o) (last_handled_creation_time o) t.

Definition set_profile_digest (d : option string) (o : InjectionOrchestrator)
    : InjectionOrchestrator :=
  mk_orchestrator (generation_id o) d (service_pid o) (processed o) (process_order o)
    (deferred o) (deferred_order o) (deferral_policy o) (retry_policy o) (retry_scheduler o)
    (last_handled_creation_time o) (injection_telemetry o).

(** ** Construction *)

Definition build (service_pid : N) (generation_id : string) (policy : RetryPolicy)
    (scheduler : bool) : InjectionOrchestrator :=
  mk_orchestrator generation_id None service_pid ∅ [] ∅ [] default_deferral_policy policy
    scheduler None default_telemetry.

Definition new (service_pid : N) (generation_id : string) : InjectionOrchestrator :=
  build service_pid generation_id default_retry_policy false.

Definition with_retry_policy (service_pid : N) (generation_id : string) (policy : RetryPolicy)
    : InjectionOrchestrator :=
  build service_pid generation_id policy true.

Definition with_runtime_context (service_pid : N) (generation_id digest : string)
    (policy : RetryPolicy) : InjectionOrchestrator :=
  set_profile_digest (Some digest) (with_retry_policy service_pid generation_id policy).

(** ** Classification of broker results *)

Definition safe_to_retry_same_identity (c : string) : bool :=
  one_of ["session-unavailable"; "identity-unavailable"; "architecture-unavailable";
          "module-inventory-unavailable"] c.

Definition terminal_outcome (d : BrokerDisposition) (final_attempt : bool)
    : option ProcessOutcome :=
  match d with
  | DispositionLaunchFailed | DispositionTargetFrozen => None
  | DispositionCancelled => Some OutcomeCancelled
  | DispositionInjected => Some OutcomeInjected
  | DispositionSkipped => Some OutcomeSkipped
  | DispositionRejected => Some OutcomeRejected
  | DispositionRetryableFailure => if final_attempt then Some OutcomeRetryExhausted else None
  end.

(** A failure that must not be retried on the same identity is a rejection. *)
Definition demote_unsafe_retry (r : BrokerResult) : BrokerResult :=
  if bool_decide (disposition r = DispositionRetryableFailure) &&
     negb (safe_to_retry_same_identity (result_code r))
  then {| disposition := DispositionRejected; result_code := result_code r;
          result_win32_error := result_win32_error r |}
  else r.

Definition is_failure (o : ProcessOutcome) : bool :=
  match o with OutcomeRejected | OutcomeRetryExhausted => true | _ => false end.

Definition contains_identity (o : InjectionOrchestrator) (i : ProcessIdentity) : bool :=
  contains_key (processed o) (identity_key i) || contains_key (deferred o) (identity_key i).

(** [while processed.len() >= MAX { if let Some(oldest) = pop_front { remove } }]
    spins for ever ([None]) on a full history with an empty order. *)
Fixpoint evict_processed (order : list (N * N)) (m : gmap (N * N) ProcessAttemptRecord)
    : option (gmap (N * N) ProcessAttemptRecord * list (N * N)) :=
  if (N.of_nat (size m) <? MAX_TRACKED_PROCESS_RESULTS)%N then Some (m, order)
  else match order with
       | [] => None
       | oldest :: order' => evict_processed order' (delete oldest m)
       end.

Fixpoint evict_deferred (order : list (N * N)) (m : gmap (N * N) DeferredTarget)
    : gmap (N * N) DeferredTarget * list (N * N) * option DeferredTarget :=
  if (N.of_nat (size m) <? MAX_DEFERRED_TARGETS)%N then (m, order, None)
  else match order with
       | [] => (m, [], None)
       | oldest :: order' =>
           match m !! oldest with
           | Some evicted => (delete oldest m, order', Some evicted)
           | None => evict_deferred order' m
           end
       end.

Definition next_delay (p : RetryPolicy) (delay : N) : N :=
  N.min (duration_saturating_mul delay 2) (max_delay p).

Definition launch_delay (p : DeferralPolicy) (deferrals : N) : N :=
  N.min (duration_saturating_mul (launch_initial_delay p)
           (default U32_MAX (checked_shl32 1 deferrals)))
        (launch_max_delay p).

Section Orchestrator.
Context {W : Type} `{ProcessInspector W, InjectionBroker W, RetryScheduler W, Clock W, HostEventSink W}.

Definition orch : M (InjectionOrchestrator * W) InjectionOrchestrator := gets fst.

Definition update (f : InjectionOrchestrator → InjectionOrchestrator)
    : M (InjectionOrchestrator * W) unit :=
  modify (λ s, (f s.1, s.2)).

Definition ext {A : Type} (f : W → A * W) : M (InjectionOrchestrator * W) A :=
  λ s, let '(a, w) := f s.2 in Some (a, (s.1, w)).

Definition ext_ {A : Type} (f : W → W) : M (InjectionOrchestrator * W) unit :=
  modify (λ s, (s.1, f s.2)).

Definition record_result (i : ProcessIdentity) (outcome : ProcessOutcome) (attempts : N)
    (result : BrokerResult) : M (InjectionOrchestrator * W) unit :=
  let k := identity_key i in
  let! o := orch in
  let! _ :=
    (if contains_key (processed o) k then ret tt
     else match evict_processed (process_order o) (processed o) with
          | Some (m, order) => update (set_processed m (order ++ [k]))
          | None => no_answer
          end) in
  let record := {| record_identity := i; record_runtime_generation_id := generation_id o;
                   record_outcome := outcome; record_attempts := attempts;
                   record_code := result_code result;
                   record_win32_error := result_win32_error result |} in
  let! process :=
    (if is_failure outcome then
       let! name := ext (process_basename i) in
       ret (default ("pid-" ++ pretty (pid i)) name)%string
     else ret EmptyString) in
  let! _ := ext (λ w, (tt, record_event (InjectionResult record process) w)) in
  update (λ o, set_processed (<[k := record]> (processed o)) (process_order o) o).

Definition record_skip (i : ProcessIdentity) (c : string) (win32_error : option N)
    : M (InjectionOrchestrator * W) unit :=
  record_result i OutcomeSkipped 0
    {| disposition := DispositionSkipped; result_code := c; result_win32_error := win32_error |}.

Definition insert_deferred (target : DeferredTarget) : M (InjectionOrchestrator * W) unit :=
  let k := identity_key (target_identity target) in
  let! o := orch in
  let order := list_retain (λ c, negb (bool_decide (c = k))) (deferred_order o) in
  let! _ :=
    (if contains_key (deferred o) k then update (set_deferred (deferred o) order)
     else
       let '(m, order, evicted) := evict_deferred order (deferred o) in
       let! _ := update (set_deferred m order) in
       match evicted with
       | Some e => record_skip (target_identity e) DEFERRAL_CAPACITY_EXHAUSTED_CODE None
       | None => ret tt
       end) in
  update (λ o, set_deferred (<[k := target]> (deferred o)) (deferred_order o ++ [k]) o).

Definition record_injection_success (i : ProcessIdentity) : M (InjectionOrchestrator * W) unit :=
  update (λ o,
    match profile_digest o with
    | None => o
    | Some digest =>
        set_telemetry
          (record_success (injection_telemetry o)
             (match architecture i with X86 => TelemetryX86 | X64 => TelemetryX64 end)
             {| success_pid := pid i; success_creation_time := creation_time i;
                success_session_id := session_id i;
                success_runtime_generation_id := generation_id o;
                success_profile_digest := digest |}) o
    end).

Definition reclassify_vanished_target (i : ProcessIdentity) (outcome : ProcessOutcome)
    (result : BrokerResult) : M (InjectionOrchestrator * W) (ProcessOutcome * BrokerResult) :=
  if negb (is_failure outcome) || negb (ends_with "-cleanup-unknown" (result_code result))
  then ret (outcome, result)
  else
    let! liveness := ext (probe_target_liveness i) in
    match liveness with
    | LivenessVanished =>
        ret (OutcomeSkipped,
             {| disposition := disposition result; result_code := TARGET_VANISHED_RESULT_CODE;
                result_win32_error := result_win32_error result |})
    | LivenessAlive | LivenessUnknown => ret (outcome, result)
    end.

Definition handle_launch_failure (i : ProcessIdentity) (deferrals now : N)
    (result : BrokerResult) (attempt : N) : M (InjectionOrchestrator * W) ProcessOutcome :=
  let! o := orch in
  let! liveness := ext (probe_target_liveness i) in
  if bool_decide (liveness = LivenessVanished) then
    let! _ := record_skip i TARGET_VANISHED_RESULT_CODE (result_win32_error result) in
    ret OutcomeSkipped
  else if (launch_max_deferrals (deferral_policy o) <=? deferrals)%N then
    let! _ := record_result i OutcomeRejected attempt result in
    ret OutcomeRejected
  else
    let! _ := insert_deferred
      {| target_identity := i; target_reason := HelperLaunchFailed;
         target_deferrals := saturating_add U8_MAX deferrals 1;
         target_not_before := now + launch_delay (deferral_policy o) deferrals |} in
    ret OutcomeDeferred.

(** The end of an attempt with a terminal outcome. *)
Definition conclude_attempt (i : ProcessIdentity) (outcome : ProcessOutcome)
    (result : BrokerResult) (attempt : N)
    : M (InjectionOrchestrator * W) (Prelude.result ProcessOutcome StructuredServiceError) :=
  let! _ := (if bool_decide (outcome = OutcomeInjected)
             then record_injection_success i else ret tt) in
  let! classified := reclassify_vanished_target i outcome result in
  let! _ := record_result i classified.1 attempt classified.2 in
  ret (Ok classified.1).

(** The loop [for attempt in 1..=attempts], [left] rounds before its end; after
    the last one the source is at [unreachable!]. *)
Fixpoint attempt_loop (left : nat) (attempt attempts : N) (delay : N)
    (request : InjectionRequest) (deferrals now : N)
    : M (InjectionOrchestrator * W) (result ProcessOutcome StructuredServiceError) :=
  match left with
  | O => no_answer
  | S left' =>
      let i := request_identity request in
      let! o := orch in
      let! answer := ext (inject request) in
      let result := demote_unsafe_retry answer in
      match disposition result with
      | DispositionLaunchFailed =>
          let! outcome := handle_launch_failure i deferrals now result attempt in
          ret (Ok outcome)
      | DispositionTargetFrozen =>
          let! _ := insert_deferred
            {| target_identity := i; target_reason := Frozen; target_deferrals := deferrals;
               target_not_before := now + frozen_recheck (deferral_policy o) |} in
          ret (Ok OutcomeDeferred)
      | d =>
          match terminal_outcome d (attempt =? attempts)%N with
          | Some outcome => conclude_attempt i outcome result attempt
          | None =>
              let! proceed :=
                (if retry_scheduler o then ext (scheduler_wait delay)
                 else ext (λ w, (true, thread_sleep delay w))) in
              if negb proceed then
                let! _ := record_result i OutcomeCancelled attempt result in
                ret (Ok OutcomeCancelled)
              else
                attempt_loop left' (attempt + 1) attempts (next_delay (retry_policy o) delay)
                  request deferrals now
          end
      end
  end.

Definition attempt_injection (i : ProcessIdentity) (deferrals now : N)
    : M (InjectionOrchestrator * W) (result ProcessOutcome StructuredServiceError) :=
  let! o := orch in
  let request := {| request_identity := i; request_generation_id := generation_id o |} in
  let attempts := N.max (max_attempts (retry_policy o)) 1 in
  attempt_loop (N.to_nat attempts) 1 attempts (initial_delay (retry_policy o)) request deferrals
    now.

Definition handle_pid_at (p now : N)
    : M (InjectionOrchestrator * W) (result ProcessOutcome StructuredServiceError) :=
  let! _ := update (set_last_handled None) in
  let! o := orch in
  let? decision := ext (validate (service_pid o) p) in
  match decision with
  | Eligible i =>
      let! _ := update (set_last_handled (Some (creation_time i))) in
      if contains_identity o i then ret (Ok OutcomeDuplicate)
      else attempt_injection i 0 now
  | Deferred i reason =>
      let! _ := update (set_last_handled (Some (creation_time i))) in
      if contains_identity o i then ret (Ok OutcomeDuplicate)
      else
        let! _ := insert_deferred
          {| target_identity := i; target_reason := reason; target_deferrals := 0;
             target_not_before := now + frozen_recheck (deferral_policy o) |} in
        ret (Ok OutcomeDeferred)
  | Skipped reason =>
      let! _ := ext (λ w, (tt, record_event (InjectionSkipped (skip_code reason)) w)) in
      ret (Ok OutcomeSkipped)
  end.

Definition revalidate_deferred (target : DeferredTarget) (now : N)
    : M (InjectionOrchestrator * W) (result ProcessOutcome StructuredServiceError) :=
  let! o := orch in
  let? decision := ext (validate (service_pid o) (pid (target_identity target))) in
  match decision with
  | Eligible i =>
      if bool_decide (i = target_identity target) then
        attempt_injection i (target_deferrals target) now
      else
        let! _ := record_skip (target_identity target) TARGET_VANISHED_RESULT_CODE None in
        ret (Ok OutcomeSkipped)
  | Deferred i reason =>
      if bool_decide (i = target_identity target) then
        let! _ := insert_deferred
          {| target_identity := i; target_reason := reason;
             target_deferrals := target_deferrals target;
             target_not_before := now + frozen_recheck (deferral_policy o) |} in
        ret (Ok OutcomeDeferred)
      else
        let! _ := record_skip (target_identity target) TARGET_VANISHED_RESULT_CODE None in
        ret (Ok OutcomeSkipped)
  | Skipped _ =>
      let! _ := record_skip (target_identity target) "process-no-longer-eligible" None in
      ret (Ok OutcomeSkipped)
  end.

Definition is_due (o : InjectionOrchestrator) (now : N) (k : N * N) : bool :=
  match deferred o !! k with
  | Some target => (target_not_before target <=? now)%N
  | None => false
  end.

Definition poll_deferred (now : N)
    : M (InjectionOrchestrator * W) (result (option ProcessOutcome) StructuredServiceError) :=
  let! o := orch in
  match position (is_due o now) (deferred_order o) with
  | None => ret (Ok None)
  | Some index =>
      match deferred_order o !! index with
      | None => no_answer
      | Some k =>
          let order := delete index (deferred_order o) in
          match deferred o !! k with
          | None =>
              let! _ := update (set_deferred (deferred o) order) in
              ret (Ok None)
          | Some target =>
              let! _ := update (set_deferred (delete k (deferred o)) order) in
              let revalidate :=
                let? outcome := revalidate_deferred target now in ret (Ok (Some outcome)) in
              if bool_decide (target_reason target = Frozen) then
                let! lifecycle := ext (probe_target_lifecycle (target_identity target)) in
                match lifecycle with
                | LifecycleFrozen | LifecycleUnknown =>
                    let! _ := insert_deferred
                      {| target_identity := target_identity target;
                         target_reason := target_reason target;
                         target_deferrals := target_deferrals target;
                         target_not_before := now + frozen_recheck (deferral_policy o) |} in
                    ret (Ok (Some OutcomeDeferred))
                | LifecycleExiting =>
                    let! _ := record_skip (target_identity target) "process-exiting" None in
                    ret (Ok (Some OutcomeSkipped))
                | LifecycleRunning => revalidate
                end
              else revalidate
          end
      end
  end.

End Orchestrator.

(** ** Session changes and queries *)

Definition handle_session_change (change : SessionChange) (o : InjectionOrchestrator)
    : InjectionOrchestrator :=
  if is_overflow change then set_deferred ∅ [] (set_processed ∅ [] o)
  else if existsb (N.eqb (change_event_type change)) [2; 4; 6; 11]%N then
    let processed' :=
      map_retain (λ r, negb (session_id (record_identity r) =? change_session_id change)%N)
        (processed o) in
    let deferred' :=
      map_retain (λ t, negb (session_id (target_identity t) =? change_session_id change)%N)
        (deferred o) in
    set_deferred deferred' (list_retain (contains_key deferred') (deferred_order o))
      (set_processed processed' (list_retain (contains_key processed') (process_order o)) o)
  else o.

Definition deferred_targets (o : InjectionOrchestrator) : list DeferredTarget :=
  omap (λ k, deferred o !! k) (deferred_order o).

Definition last_result (o : InjectionOrchestrator) (p created : N)
    : option ProcessAttemptRecord :=
  processed o !! (p, created).

Definition tracked_process_count (o : InjectionOrchestrator) : nat := size (processed o).

Definition most_recent_result (o : InjectionOrchestrator) : option ProcessAttemptRecord :=
  match last (process_order o) with
  | Some k => processed o !! k
  | None => None
  end.

Definition health_error_code (c : string) : option string :=
  if ends_with "-cleanup-unknown" c then Some "injection-cleanup-unknown"%string
  else if one_of ["helper-response-invalid"; "helper-response-too-large";
                  "helper-exit-mismatch"; "runtime-generation-mismatch"] c
  then Some "injection-helper-response-integrity-unknown"%string
  else None.

Definition generation_health_error (o : InjectionOrchestrator) : option StructuredServiceError :=
  match most_recent_result o with
  | None => None
  | Some r =>
      match health_error_code (record_code r) with
      | None => None
      | Some c =>
          Some {| error_code := c;
                  error_message :=
                    "target result is not trustworthy: pid=" ++ pretty (pid (record_identity r)) ++
                    " creation_time=" ++ pretty (creation_time (record_identity r)) ++
                    " session_id=" ++ pretty (session_id (record_identity r)) ++
                    " generation=" ++ record_runtime_generation_id r ++
                    " broker_code=" ++ record_code r;
                  error_win32 := record_win32_error r |}
      end
  end.

(** ** Well-formed orchestrators *)

Definition attempt_bound (o : InjectionOrchestrator) : N := N.max (max_attempts (retry_policy o)) 1.

Record orch_wf (o : InjectionOrchestrator) : Prop := {
  wf_processed : ordered_map (processed o) (process_order o);
  wf_deferred : ordered_map (deferred o) (deferred_order o);
  wf_processed_key k r : processed o !! k = Some r → identity_key (record_identity r) = k;
  wf_deferred_key k t : deferred o !! k = Some t → identity_key (target_identity t) = k;
  wf_processed_bound : (N.of_nat (length (process_order o)) <= MAX_TRACKED_PROCESS_RESULTS)%N;
  wf_deferred_bound : (N.of_nat (length (deferred_order o)) <= MAX_DEFERRED_TARGETS)%N;
  wf_disjoint k : processed o !! k = None ∨ deferred o !! k = None;
  wf_deferrals k t : deferred o !! k = Some t →
    (target_deferrals t <= launch_max_deferrals (deferral_policy o))%N;
  wf_records k r : processed o !! k = Some r →
    record_runtime_generation_id r = generation_id o ∧ (record_attempts r <= attempt_bound o)%N
}.

(** What no operation of the orchestrator changes. *)
Record same_binding (o o' : InjectionOrchestrator) : Prop := {
  sb_generation : generation_id o' = generation_id o;
  sb_digest : profile_digest o' = profile_digest o;
  sb_service : service_pid o' = service_pid o;
  sb_deferral : deferral_policy o' = deferral_policy o;
  sb_retry : retry_policy o' = retry_policy o;
  sb_scheduler : retry_scheduler o' = retry_scheduler o
}.

#[export] Instance same_binding_preorder : PreOrder same_binding.
Proof. split; [by intros o; split|]. intros a b c [] []. split; congruence. Qed.

#[export] Hint Constructors same_binding : rust.
#[export] Hint Extern 0 (same_binding ?o ?o) => reflexivity : rust.

Lemma orch_wf_build p g policy scheduler : orch_wf (build p g policy scheduler).
Proof.
  split; simpl; try apply ordered_map_empty; try (by intros ? ? ?%lookup_empty_Some); try done.
  intros k. left. apply lookup_empty.
Qed.

Lemma orch_wf_with_runtime_context p g d policy : orch_wf (with_runtime_context p g d policy).
Proof. by destruct (orch_wf_build p g policy true); split. Qed.

Lemma contains_identity_false o i :
  contains_identity o i = false ↔
  processed o !! identity_key i = None ∧ deferred o !! identity_key i = None.
Proof. unfold contains_identity. by rewrite orb_false_iff, !contains_key_false. Qed.

(** The eviction loop of the history ends whenever map and order agree, and
    leaves room for one more record. *)
Lemma evict_processed_spec order m :
  ordered_map m order →
  ∃ m' order', evict_processed order m = Some (m', order') ∧ ordered_map m' order' ∧ m' ⊆ m ∧
    (N.of_nat (length order') < MAX_TRACKED_PROCESS_RESULTS)%N.
Proof.
  revert m. induction order as [|k order IH]; intros m Hm; simpl; pose proof (ordered_map_size _ _ Hm) as Hs;
    rewrite Hs; case_match eqn:E; andb_split.
  - by exists m, [].
  - simpl in E. unfold MAX_TRACKED_PROCESS_RESULTS in E. lia.
  - by exists m, (k :: order).
  - destruct (IH (delete k m)) as (m' & order' & Heq & ? & Hsub & ?); [by apply ordered_map_pop|].
    exists m', order'. rewrite Heq. split_and!; try done. etrans; [exact Hsub|apply delete_subseteq].
Qed.

Lemma evict_deferred_spec order m :
  ordered_map m order → (N.of_nat (length order) <= MAX_DEFERRED_TARGETS)%N →
  ∃ m' order' e, evict_deferred order m = (m', order', e) ∧ ordered_map m' order' ∧ m' ⊆ m ∧
    (N.of_nat (length order') < MAX_DEFERRED_TARGETS)%N ∧
    match e with
    | Some t => ∃ k, m !! k = Some t ∧ m' = delete k m
    | None => m' = m
    end.
Proof.
  intros Hm Hl. destruct order as [|k order]; simpl; pose proof (ordered_map_size _ _ Hm) as Hs;
    rewrite Hs; case_match eqn:E; andb_split.
  - exists m, [], None. by split_and!.
  - simpl in E. unfold MAX_DEFERRED_TARGETS in E. lia.
  - exists m, (k :: order), None. by split_and!.
  - destruct (m !! k) as [t|] eqn:Hk.
    + exists (delete k m), order, (Some t). split_and!; try done.
      * by apply ordered_map_pop.
      * apply delete_subseteq.
      * simpl in *. lia.
      * by exists k.
    + destruct Hm as [_ Hk']. destruct (proj1 (Hk' k)) as [? ?]; [by left|congruence].
Qed.

(** ** Every operation is total and keeps the orchestrator well formed *)

Section Invariant.
Context {W : Type} `{ProcessInspector W, InjectionBroker W, RetryScheduler W, Clock W, HostEventSink W}.
Implicit Types (o : InjectionOrchestrator) (w : W) (i : ProcessIdentity).

Lemma wp_orch (Q : InjectionOrchestrator → InjectionOrchestrator * W → Prop) o w :
  Q o (o, w) → wp orch Q (o, w).
Proof. done. Qed.

Lemma wp_update f (Q : unit → InjectionOrchestrator * W → Prop) o w :
  Q tt (f o, w) → wp (update f) Q (o, w).
Proof. done. Qed.

Lemma wp_ext {A} (f : W → A * W) (Q : A → InjectionOrchestrator * W → Prop) o w :
  (∀ a w', f w = (a, w') → Q a (o, w')) → wp (ext f) Q (o, w).
Proof. intros HQ. unfold wp, ext. simpl. destruct (f w) as [a w'] eqn:E. by apply HQ. Qed.

Ltac orch_step :=
  lazymatch goal with
  | |- wp orch _ _ => apply wp_orch
  | |- wp (update _) _ _ => apply wp_update
  | |- wp (ext _) _ _ => apply wp_ext; let a := fresh "a" in let w' := fresh "w" in
                         let E := fresh "Eext" in intros a w' E
  | |- wp (if ?b then _ else _) _ _ => let E := fresh "E" in destruct b eqn:E
  | |- _ => wp_step
  end; cbv beta.
Ltac orch_steps := repeat orch_step.

Definition result_record o i outcome attempts (result : BrokerResult) : ProcessAttemptRecord :=
  {| record_identity := i; record_runtime_generation_id := generation_id o;
     record_outcome := outcome; record_attempts := attempts;
     record_code := result_code result; record_win32_error := result_win32_error result |}.

(** What [record_result] does to the orchestrator. *)
Record recorded o i (r : ProcessAttemptRecord) o' : Prop := {
  rec_wf : orch_wf o';
  rec_binding : same_binding o o';
  rec_deferred : deferred o' = deferred o;
  rec_deferred_order : deferred_order o' = deferred_order o;
  rec_recent : processed o !! identity_key i = None →
    last (process_order o') = Some (identity_key i);
  rec_record : processed o' !! identity_key i = Some r;
  rec_others k : k ≠ identity_key i → processed o' !! k = None ∨ processed o' !! k = processed o !! k;
  rec_telemetry : injection_telemetry o' = injection_telemetry o;
  rec_last : last_handled_creation_time o' = last_handled_creation_time o
}.

Lemma recorded_intro o i r m order :
  orch_wf o → deferred o !! identity_key i = None →
  record_identity r = i → record_runtime_generation_id r = generation_id o →
  (record_attempts r <= attempt_bound o)%N →
  ordered_map (<[identity_key i:=r]> m) order → m ⊆ processed o →
  (N.of_nat (length order) <= MAX_TRACKED_PROCESS_RESULTS)%N →
  (processed o !! identity_key i = None → last order = Some (identity_key i)) →
  recorded o i r (set_processed (<[identity_key i:=r]> m) order o).
Proof.
  intros Hwf Hdef Hid Hgen Hatt Hm Hsub Hlen Hlast. split; simpl; auto with rust.
  - split; simpl; try done; try (by destruct Hwf).
    + intros k r'. rewrite lookup_insert_Some. intros [[<- <-]|[_ Hk]]; [by rewrite Hid|].
      eapply wf_processed_key; [done|]. by eapply lookup_weaken.
    + intros k. destruct (decide (identity_key i = k)) as [<-|Hne]; [by right|].
      rewrite lookup_insert_ne by done. destruct (wf_disjoint o Hwf k) as [Hk|Hk]; [|by right].
      left. by eapply lookup_weaken_None.
    + intros k r'. rewrite lookup_insert_Some. intros [[<- <-]|[_ Hk]]; [done|].
      eapply (wf_records o Hwf k). by eapply lookup_weaken.
  - apply lookup_insert_eq.
  - intros k Hne. rewrite lookup_insert_ne by done. destruct (m !! k) eqn:E; [|by left].
    right. symmetry. by eapply lookup_weaken.
Qed.

Lemma record_result_spec o w i outcome attempts result :
  orch_wf o → deferred o !! identity_key i = None → (attempts <= attempt_bound o)%N →
  wp (record_result i outcome attempts result)
     (λ _ s, recorded o i (result_record o i outcome attempts result) s.1) (o, w).
Proof.
  intros Hwf Hdef Hatt. unfold record_result. orch_step; orch_step; orch_step.
  apply (wp_mono _ (λ _ s, ∃ m order, s.1 = set_processed m order o ∧
     ordered_map (<[identity_key i:=result_record o i outcome attempts result]> m) order ∧
     m ⊆ processed o ∧ (N.of_nat (length order) <= MAX_TRACKED_PROCESS_RESULTS)%N ∧
     (processed o !! identity_key i = None → last order = Some (identity_key i)))).
  - orch_step.
    + orch_step. exists (processed o), (process_order o). split_and!.
      * by destruct o.
      * apply ordered_map_update; [by apply wf_processed|by apply contains_key_true].
      * done.
      * by apply wf_processed_bound.
      * intros Hn. apply contains_key_true in E as [? ?]. congruence.
    + apply contains_key_false in E.
      destruct (evict_processed_spec _ _ (wf_processed o Hwf)) as (m & order & -> & Hm & Hsub & Hlen).
      orch_step. exists m, (order ++ [identity_key i]). split_and!; try done.
      * apply ordered_map_push; [done|]. by eapply lookup_weaken_None.
      * rewrite length_app. simpl. lia.
      * intros _. by rewrite last_snoc.
  - intros [] [o1 w1] (m & order & Ho1 & Hm & Hsub & Hlen & Hlast). simpl in Ho1. subst o1.
    orch_steps; by apply (recorded_intro o i (result_record o i outcome attempts result) m order).
Qed.

Lemma record_skip_spec o w i c e :
  orch_wf o → deferred o !! identity_key i = None →
  wp (record_skip i c e)
     (λ _ s, recorded o i (result_record o i OutcomeSkipped 0
        {| disposition := DispositionSkipped; result_code := c; result_win32_error := e |}) s.1)
     (o, w).
Proof. intros. apply record_result_spec; [done..|lia]. Qed.

(** A deferral a well-formed orchestrator may hold. *)
Definition deferral_ok o (t : DeferredTarget) : Prop :=
  (target_deferrals t <= launch_max_deferrals (deferral_policy o))%N.

(** What [insert_deferred] does to the orchestrator. *)
Record inserted o (t : DeferredTarget) o' : Prop := {
  ins_wf : orch_wf o';
  ins_binding : same_binding o o';
  ins_target : deferred o' !! identity_key (target_identity t) = Some t;
  ins_others k : k ≠ identity_key (target_identity t) →
    deferred o' !! k = deferred o !! k ∨ deferred o' !! k = None;
  ins_telemetry : injection_telemetry o' = injection_telemetry o
}.

(** The state in which the target goes in: its key is in neither map, and there
    is room for it. *)
Lemma inserted_intro o t o1 :
  orch_wf o1 → same_binding o o1 → deferral_ok o t →
  processed o1 !! identity_key (target_identity t) = None →
  deferred o1 !! identity_key (target_identity t) = None →
  (N.of_nat (length (deferred_order o1)) < MAX_DEFERRED_TARGETS)%N →
  (∀ k, deferred o1 !! k = deferred o !! k ∨ deferred o1 !! k = None) →
  injection_telemetry o1 = injection_telemetry o →
  inserted o t (set_deferred (<[identity_key (target_identity t):=t]> (deferred o1))
                  (deferred_order o1 ++ [identity_key (target_identity t)]) o1).
Proof.
  intros Hwf Hsb Hok Hp Hd Hlen Hoth Htel. split; simpl; try done.
  - split; simpl; try (by destruct Hwf).
    + apply ordered_map_push; [by apply wf_deferred|done].
    + intros k t'. rewrite lookup_insert_Some. intros [[<- <-]|[_ Hk]]; [done|].
      by eapply wf_deferred_key.
    + rewrite length_app. simpl. lia.
    + intros k. destruct (decide (identity_key (target_identity t) = k)) as [<-|Hne]; [by left|].
      rewrite lookup_insert_ne by done. by apply wf_disjoint.
    + intros k t'. rewrite lookup_insert_Some. intros [[<- <-]|[_ Hk]].
      * unfold deferral_ok in Hok. by rewrite (sb_deferral _ _ Hsb).
      * by eapply wf_deferrals.
  - by destruct Hsb.
  - apply lookup_insert_eq.
  - intros k Hne. by rewrite lookup_insert_ne by done.
Qed.

Lemma retain_absent o k :
  orch_wf o → deferred o !! k = None →
  list_retain (λ c, negb (bool_decide (c = k))) (deferred_order o) = deferred_order o.
Proof.
  intros Hwf Hk. apply list_retain_all. intros x Hx.
  apply negb_true_iff, bool_decide_eq_false. intros ->.
  apply (om_keys _ _ (wf_deferred o Hwf)) in Hx as [? ?]. congruence.
Qed.

Lemma orch_wf_set_deferred o m order :
  orch_wf o → ordered_map m order → m ⊆ deferred o →
  (N.of_nat (length order) <= MAX_DEFERRED_TARGETS)%N →
  orch_wf (set_deferred m order o).
Proof.
  intros Hwf Hm Hsub Hlen. split; simpl; try done; try (by destruct Hwf).
  - intros k t Hk. eapply wf_deferred_key; [done|]. by eapply lookup_weaken.
  - intros k. destruct (wf_disjoint o Hwf k) as [?|?]; [by left|right].
    by eapply lookup_weaken_None.
  - intros k t Hk. eapply wf_deferrals; [done|]. by eapply lookup_weaken.
Qed.

Lemma insert_deferred_spec o w t :
  orch_wf o → deferral_ok o t →
  processed o !! identity_key (target_identity t) = None →
  deferred o !! identity_key (target_identity t) = None →
  wp (insert_deferred t) (λ _ s, inserted o t s.1) (o, w).
Proof.
  intros Hwf Hok Hp Hd. unfold insert_deferred. orch_step; orch_step.
  rewrite (retain_absent o _ Hwf Hd), (proj2 (contains_key_false _ _) Hd).
  destruct (evict_deferred_spec _ _ (wf_deferred o Hwf) (wf_deferred_bound o Hwf))
    as (m & order & e & -> & Hm & Hsub & Hlen & He).
  assert (orch_wf (set_deferred m order o)) as Hwf1 by (apply orch_wf_set_deferred; try done; lia).
  orch_step; orch_step; orch_step. destruct e as [e|].
  - destruct He as (k & Hk & ->).
    assert (identity_key (target_identity e) = k) as Hek by exact (wf_deferred_key o Hwf _ _ Hk).
    eapply wp_mono.
    { apply record_skip_spec; [done|]. simpl. by rewrite Hek, lookup_delete_eq. }
    intros [] [o1 w1]. simpl. intros Hrec. orch_step. simpl.
    assert (deferred o1 = delete k (deferred o)) as Hd1 by apply (rec_deferred _ _ _ _ Hrec).
    apply inserted_intro.
    + apply (rec_wf _ _ _ _ Hrec).
    + etrans; [|apply (rec_binding _ _ _ _ Hrec)]. by split.
    + done.
    + destruct (rec_others _ _ _ _ Hrec (identity_key (target_identity t))) as [?| ->]; try done.
      intros Heq. rewrite <- Hek, <- Heq in Hk. congruence.
    + rewrite Hd1. destruct (decide (k = identity_key (target_identity t))) as [->|];
        [apply lookup_delete_eq|by rewrite lookup_delete_ne].
    + by rewrite (rec_deferred_order _ _ _ _ Hrec).
    + intros k'. rewrite Hd1. destruct (decide (k = k')) as [->|];
        [right; apply lookup_delete_eq|left; by rewrite lookup_delete_ne].
    + by rewrite (rec_telemetry _ _ _ _ Hrec).
  - subst m. orch_step; orch_step. apply inserted_intro; simpl; try done; auto.
Qed.

(** ** Attempts *)

(** After an attempt on [i] that answered [r], [i] is accounted for: either it
    waits in the deferral queue, or the history holds a record of it with the
    outcome that was returned. *)
Record settled o i (r : result ProcessOutcome StructuredServiceError) o' : Prop := {
  settled_wf : orch_wf o';
  settled_binding : same_binding o o';
  settled_outcome :
    (r = Ok OutcomeDeferred ∧ ∃ t, deferred o' !! identity_key i = Some t ∧ target_identity t = i) ∨
    (∃ record, processed o' !! identity_key i = Some record ∧ r = Ok (record_outcome record) ∧
       record_identity record = i ∧
       record_outcome record ≠ OutcomeDeferred ∧ record_outcome record ≠ OutcomeDuplicate ∧
       last (process_order o') = Some (identity_key i));
  settled_telemetry : r = Ok OutcomeInjected ∨ injection_telemetry o' = injection_telemetry o
}.

Lemma recorded_settled o i r o' :
  recorded o i r o' → processed o !! identity_key i = None → record_identity r = i →
  record_outcome r ≠ OutcomeDeferred → record_outcome r ≠ OutcomeDuplicate →
  settled o i (Ok (record_outcome r)) o'.
Proof. intros [] ????. split; eauto 10. Qed.

Lemma inserted_settled o t o' i :
  inserted o t o' → target_identity t = i → settled o i (Ok OutcomeDeferred) o'.
Proof. intros [] <-. split; eauto. Qed.

Definition absent o i : Prop :=
  processed o !! identity_key i = None ∧ deferred o !! identity_key i = None.

(** [record_result] and [insert_deferred] as the last step of an operation that
    answers the outcome. *)
Lemma record_then_settled o w i outcome attempts result :
  orch_wf o → absent o i → (attempts <= attempt_bound o)%N →
  outcome ≠ OutcomeDeferred → outcome ≠ OutcomeDuplicate →
  wp (record_result i outcome attempts result)
     (λ _ s, settled o i (Ok outcome) s.1) (o, w).
Proof.
  intros Hwf [Hp Hd] Ha ??. eapply wp_mono; [by apply record_result_spec|].
  intros [] s Hr. by apply (recorded_settled _ _ _ _ Hr).
Qed.

Lemma insert_then_settled o w t i :
  orch_wf o → absent o i → deferral_ok o t → target_identity t = i →
  wp (insert_deferred t) (λ _ s, settled o i (Ok OutcomeDeferred) s.1) (o, w).
Proof.
  intros Hwf [Hp Hd] Hok Hi. eapply wp_mono; [apply insert_deferred_spec; by rewrite ?Hi|].
  intros [] s Hr. by apply (inserted_settled _ _ _ _ Hr).
Qed.

Lemma handle_launch_failure_spec o w i deferrals now result attempt :
  orch_wf o → absent o i → (deferrals <= launch_max_deferrals (deferral_policy o))%N →
  (attempt <= attempt_bound o)%N →
  wp (handle_launch_failure i deferrals now result attempt)
     (λ outcome s, settled o i (Ok outcome) s.1) (o, w).
Proof.
  intros Hwf Habs Hd Ha. unfold handle_launch_failure.
  orch_step; orch_step; orch_step; orch_step; orch_step.
  - orch_step. eapply wp_mono; [apply record_then_settled; try done; lia|].
    intros [] s Hs. by orch_step.
  - orch_step; orch_step.
    + eapply wp_mono; [by apply record_then_settled|]. intros [] s Hs. by orch_step.
    + eapply wp_mono; [apply insert_then_settled; try done|].
      * unfold deferral_ok, saturating_add; simpl. andb_split. lia.
      * intros [] s Hs. by orch_step.
Qed.

Lemma conclude_attempt_spec o w i outcome result attempt :
  orch_wf o → absent o i → (attempt <= attempt_bound o)%N →
  outcome ≠ OutcomeDeferred → outcome ≠ OutcomeDuplicate →
  wp (conclude_attempt i outcome result attempt) (λ r s, settled o i r s.1) (o, w).
Proof.
  intros Hwf Habs Ha Hn1 Hn2. unfold conclude_attempt. orch_step.
  apply (wp_mono _ (λ _ s, orch_wf s.1 ∧ same_binding o s.1 ∧ absent s.1 i ∧
    (outcome = OutcomeInjected ∨ injection_telemetry s.1 = injection_telemetry o))).
  { orch_step; [|by orch_step; split_and!; auto].
    apply bool_decide_eq_true in E. unfold record_injection_success. orch_step.
    destruct (profile_digest o); split_and!; try done; auto; by destruct Hwf. }
  intros [] [o1 w1]. simpl. intros (Hwf1 & Hsb & Habs1 & Htel). orch_step.
  assert (attempt_bound o1 = attempt_bound o) as Hab
    by (unfold attempt_bound; by rewrite (sb_retry _ _ Hsb)).
  apply (wp_mono _ (λ c s, s.1 = o1 ∧ c.1 ≠ OutcomeDeferred ∧ c.1 ≠ OutcomeDuplicate ∧
    (outcome = OutcomeInjected → c.1 = OutcomeInjected))).
  { unfold reclassify_vanished_target. orch_step; [by orch_step|].
    orch_step; orch_step. destruct a; orch_step; split_and!; try done.
    intros ->. by destruct (is_failure OutcomeInjected) eqn:?. }
  intros [c r] [o2 w2]. simpl. intros (-> & Hc1 & Hc2 & Hinj). orch_step.
  eapply wp_mono; [apply record_then_settled; try done; by rewrite Hab|].
  intros [] s [? ? ? Htel']. orch_step. split; try done.
  - by etrans.
  - destruct Htel as [->| <-]; [left; by rewrite Hinj|]. done.
Qed.

Lemma attempt_loop_spec left attempt attempts delay request deferrals now o w :
  orch_wf o → absent o (request_identity request) →
  (deferrals <= launch_max_deferrals (deferral_policy o))%N → attempts = attempt_bound o →
  (attempt + N.of_nat left = attempts + 1)%N → left ≠ 0 →
  wp (attempt_loop left attempt attempts delay request deferrals now)
     (λ r s, settled o (request_identity request) r s.1) (o, w).
Proof.
  revert attempt delay o w. induction left as [|left IH]; intros attempt delay o w Hwf Habs Hd Ha Hl Hne;
    [done|clear Hne]. simpl.
  assert (attempt <= attempt_bound o)%N as Hab by lia.
  orch_step; orch_step; orch_step; orch_step. destruct (disposition (demote_unsafe_retry a)) eqn:Ed;
    cbn [terminal_outcome].
  - by apply conclude_attempt_spec.
  - by apply conclude_attempt_spec.
  - by apply conclude_attempt_spec.
  - destruct (N.eqb_spec attempt attempts) as [->|Hlt]; [by apply conclude_attempt_spec|].
    orch_step. eapply (wp_mono _ (λ _ s, s.1 = o)).
    { orch_step; by orch_step. }
    intros b [o1 w1]. simpl. intros ->. orch_step.
    + orch_step. eapply wp_mono; [by apply record_then_settled|]. intros [] s Hs. by orch_step.
    + apply IH; try done; lia.
  - orch_step. eapply wp_mono; [by apply handle_launch_failure_spec|]. intros r s Hs. by orch_step.
  - orch_step. eapply wp_mono; [by apply insert_then_settled|]. intros [] s Hs. by orch_step.
  - by apply conclude_attempt_spec.
Qed.

Lemma attempt_injection_spec o w i deferrals now :
  orch_wf o → absent o i → (deferrals <= launch_max_deferrals (deferral_policy o))%N →
  wp (attempt_injection i deferrals now) (λ r s, settled o i r s.1) (o, w).
Proof.
  intros Hwf Habs Hd. unfold attempt_injection. orch_step; orch_step.
  apply attempt_loop_spec; simpl; try done; lia.
Qed.

(** ** The public operations *)

Lemma orch_wf_set_last_handled o c : orch_wf o → orch_wf (set_last_handled c o).
Proof. by intros []; split. Qed.

Lemma same_binding_set_last_handled o c : same_binding o (set_last_handled c o).
Proof. by split. Qed.

Lemma settled_from o o1 i r o' :
  same_binding o o1 → settled o1 i r o' → orch_wf o' ∧ same_binding o o'.
Proof. intros Hsb []. split; [done|by etrans]. Qed.

Lemma handle_pid_at_spec o w p now :
  orch_wf o →
  wp (handle_pid_at p now) (λ r s, orch_wf s.1 ∧ same_binding o s.1) (o, w).
Proof.
  intros Hwf. unfold handle_pid_at. orch_step; orch_step; orch_step; orch_step; orch_step; orch_step.
  pose proof (orch_wf_set_last_handled o None Hwf) as Hwf0.
  destruct a as [[i|reason|i reason]|e]; orch_steps; try (split; [done|by split]).
  1, 3: split; [by do 2 apply orch_wf_set_last_handled|by split].
  - apply contains_identity_false in E.
    eapply wp_mono; [apply attempt_injection_spec|].
    + by apply orch_wf_set_last_handled.
    + exact E.
    + simpl. lia.
    + intros r s Hs. eapply settled_from; [|exact Hs]. by split.
  - apply contains_identity_false in E.
    eapply wp_mono; [apply (insert_then_settled _ _ _ i)|].
    + by apply orch_wf_set_last_handled.
    + exact E.
    + unfold deferral_ok; simpl. lia.
    + done.
    + intros [] s Hs. orch_step. eapply settled_from; [|exact Hs]. by split.
Qed.

Lemma revalidate_deferred_spec o w t now :
  orch_wf o → absent o (target_identity t) → deferral_ok o t →
  wp (revalidate_deferred t now) (λ r s, orch_wf s.1 ∧ same_binding o s.1) (o, w).
Proof.
  intros Hwf Habs Hok. unfold revalidate_deferred. orch_step; orch_step; orch_step; orch_step.
  assert (∀ c (r : result ProcessOutcome StructuredServiceError),
    wp (let! _ := record_skip (target_identity t) c None in ret r)
       (λ _ s, orch_wf s.1 ∧ same_binding o s.1) (o, w0)) as Hskip.
  { intros c r. orch_step. eapply wp_mono; [apply record_skip_spec; [done|by apply Habs]|].
    intros [] s []. orch_step. done. }
  destruct a as [[i|reason|i reason]|e]; [|apply Hskip| |by orch_step];
    (orch_step; [|apply Hskip]); apply bool_decide_eq_true in E as ->.
  - eapply wp_mono; [by apply attempt_injection_spec|]. intros r s Hs.
    by destruct Hs.
  - orch_step. eapply wp_mono; [by apply (insert_then_settled _ _ _ (target_identity t))|].
    intros [] s Hs. orch_step. by destruct Hs.
Qed.

(** Taking the target at [index] out of the queue leaves an orchestrator in
    which it is absent. *)
Lemma take_deferred o index k t :
  orch_wf o → deferred_order o !! index = Some k → deferred o !! k = Some t →
  let o1 := set_deferred (delete k (deferred o)) (delete index (deferred_order o)) o in
  orch_wf o1 ∧ same_binding o o1 ∧ absent o1 (target_identity t) ∧ deferral_ok o1 t.
Proof.
  intros Hwf Hi Hk o1.
  assert (identity_key (target_identity t) = k) as Ht by exact (wf_deferred_key o Hwf _ _ Hk).
  assert (ordered_map (delete k (deferred o)) (delete index (deferred_order o))) as Hom.
  { rewrite delete_take_drop. apply (ordered_map_remove _ _ k).
    rewrite (take_drop_middle _ _ _ Hi). apply Hwf. }
  split_and!.
  - apply orch_wf_set_deferred; try done; [apply delete_subseteq|].
    pose proof (wf_deferred_bound o Hwf). rewrite length_delete by eauto. lia.
  - by split.
  - split; simpl; rewrite Ht; [|apply lookup_delete_eq].
    destruct (wf_disjoint o Hwf k) as [?|?]; [done|congruence].
  - by apply (wf_deferrals o Hwf k).
Qed.

Lemma poll_deferred_spec o w now :
  orch_wf o → wp (poll_deferred now) (λ r s, orch_wf s.1 ∧ same_binding o s.1) (o, w).
Proof.
  intros Hwf. unfold poll_deferred. orch_step; orch_step.
  destruct (position (is_due o now) (deferred_order o)) as [index|] eqn:Hpos; [|by orch_step].
  destruct (position_Some _ _ _ Hpos) as (k & Hk & Hdue & _). rewrite Hk.
  unfold is_due in Hdue. destruct (deferred o !! k) as [t|] eqn:Ht; [clear Hdue|done].
  destruct (take_deferred o index k t Hwf Hk Ht) as (Hwf1 & Hsb & Habs & Hok).
  set (o1 := set_deferred _ _ o) in *. orch_step; orch_step.
  assert (∀ w', wp (let? outcome := revalidate_deferred t now in ret (Ok (Some outcome)))
       (λ _ s, orch_wf s.1 ∧ same_binding o s.1) (o1, w')) as Hre.
  { intros w'. orch_step. eapply wp_mono; [by apply revalidate_deferred_spec|].
    intros r s [? ?]. destruct r; orch_step; (split; [done|by etrans]). }
  orch_step; [|done]. orch_step; orch_step. destruct a.
  - apply Hre.
  - orch_step. eapply wp_mono; [by apply (insert_then_settled _ _ _ (target_identity t))|].
    intros [] s Hs. orch_step. by eapply settled_from.
  - orch_step. eapply wp_mono; [apply record_skip_spec; [done|by apply Habs]|].
    intros [] s []. orch_step. split; [done|by etrans].
  - orch_step. eapply wp_mono; [by apply (insert_then_settled _ _ _ (target_identity t))|].
    intros [] s Hs. orch_step. by eapply settled_from.
Qed.
End Invariant.

Lemma handle_session_change_spec change o :
  orch_wf o → orch_wf (handle_session_change change o) ∧
  same_binding o (handle_session_change change o).
Proof.
  intros Hwf. unfold handle_session_change.
  destruct (is_overflow change); [|destruct (existsb _ _); [|done]].
  - split; [|by split].
    split; simpl; try apply ordered_map_empty; try (by intros ? ? ?%lookup_empty_Some); try done.
    intros k. left. apply lookup_empty.
  - split; [|by split].
    split; simpl.
    + apply ordered_map_retain, Hwf.
    + apply ordered_map_retain, Hwf.
    + intros k r [Hk _]%map_retain_lookup. by eapply wf_processed_key.
    + intros k r [Hk _]%map_retain_lookup. by eapply wf_deferred_key.
    + etrans; [|apply (wf_processed_bound o Hwf)].
      apply N_of_nat_le, list_retain_length.
    + etrans; [|apply (wf_deferred_bound o Hwf)].
      apply N_of_nat_le, list_retain_length.
    + intros k. destruct (wf_disjoint o Hwf k) as [Hk|Hk]; [left|right];
        destruct (map_retain _ _ !! k) eqn:E; try done; apply map_retain_lookup in E as [E _]; congruence.
    + intros k t [Hk _]%map_retain_lookup. by eapply wf_deferrals.
    + intros k r [Hk _]%map_retain_lookup. apply (wf_records o Hwf k r Hk).
Qed.
