(* ===== verification/OrchestratorSafety.v ===== *)
(** * What the injection orchestrator guarantees

    Reachability: the invariant of [InjectionOrchestrator.v] along every
    interleaving of the operations.  Traces: which processes are injected, how
    often, and with which waits.  Deduplication, session changes, deferral
    back-off and the classification of untrustworthy results. *)

From S2P Require Export InjectionOrchestrator.

(** ** Reachable orchestrators *)

Section Reachability.
Context {W : Type} `{ProcessInspector W, InjectionBroker W, RetryScheduler W, Clock W, HostEventSink W}.

(** One step of the driver: an operation that answered, a session change, or
    the rest of the machine moving on as [env] lets it. *)
Inductive orch_step (env : W → W → Prop) :
    InjectionOrchestrator * W → InjectionOrchestrator * W → Prop :=
| step_handle o w p now r s :
    handle_pid_at p now (o, w) = Some (r, s) → orch_step env (o, w) s
| step_poll o w now r s :
    poll_deferred now (o, w) = Some (r, s) → orch_step env (o, w) s
| step_session o w change :
    orch_step env (o, w) (handle_session_change change o, w)
| step_world o w w' :
    env w w' → orch_step env (o, w) (o, w').

Lemma orch_step_wf env s s' :
  orch_step env s s' → orch_wf s.1 → orch_wf s'.1 ∧ same_binding s.1 s'.1.
Proof.
  intros Hs Hwf. destruct Hs as [o w p now r s E|o w now r s E|o w change|o w w' _]; simpl in *.
  - exact (wp_elim _ _ _ _ _ (handle_pid_at_spec o w p now Hwf) E).
  - exact (wp_elim _ _ _ _ _ (poll_deferred_spec o w now Hwf) E).
  - by apply handle_session_change_spec.
  - done.
Qed.

Lemma orch_steps_wf env s s' :
  rtc (orch_step env) s s' → orch_wf s.1 → orch_wf s'.1 ∧ same_binding s.1 s'.1.
Proof.
  induction 1 as [s|s1 s2 s3 H12 _ IH]; intros Hwf; [done|].
  destruct (orch_step_wf _ _ _ H12 Hwf) as [Hwf2 ?]. destruct (IH Hwf2). split; [done|by etrans].
Qed.
End Reachability.

(** In every state the driver can bring the orchestrator to, whatever the
    machine answers in between, the bookkeeping is sound: the history holds at
    most 4096 results and the deferral queue at most 512 targets, each map agrees
    with its order of arrival, no process is in both, no target was deferred more
    often than the policy allows, and the generation is still the one it was
    built for. *)
Theorem reachable_orchestrator_sound
    {W} `{ProcessInspector W, InjectionBroker W, RetryScheduler W, Clock W, HostEventSink W}
    p g d policy env (w : W) o' w' :
  rtc (orch_step env) (with_runtime_context p g d policy, w) (o', w') →
  orch_wf o' ∧ (N.of_nat (tracked_process_count o') <= 4096)%N ∧
  (N.of_nat (size (deferred o')) <= 512)%N ∧ generation_id o' = g ∧ profile_digest o' = Some d.
Proof.
  intros Hr. destruct (orch_steps_wf _ _ _ Hr) as [Hwf Hsb];
    [apply orch_wf_with_runtime_context|]. simpl in *.
  split; [done|]. unfold tracked_process_count.
  rewrite (ordered_map_size _ _ (wf_processed o' Hwf)), (ordered_map_size _ _ (wf_deferred o' Hwf)).
  split; [apply (wf_processed_bound o' Hwf)|]. split; [apply (wf_deferred_bound o' Hwf)|].
  split; [apply (sb_generation _ _ Hsb)|apply (sb_digest _ _ Hsb)].
Qed.

Definition example_orchestrator : InjectionOrchestrator :=
  with_runtime_context 4 "g" "d" default_retry_policy.

Definition example_orchestrator_after : InjectionOrchestrator * Script :=
  match handle_pid_at 42 0 (example_orchestrator, example_script) with
  | Some (_, s) => s
  | None => (example_orchestrator, example_script)
  end.

Lemma reachable_orchestrator_sound_witness :
  (N.of_nat (tracked_process_count example_orchestrator_after.1) <= 4096)%N.
Proof.
  refine (proj1 (proj2 (reachable_orchestrator_sound 4 "g" "d" default_retry_policy eq
    example_script example_orchestrator_after.1 example_orchestrator_after.2 _))).
  apply rtc_once. apply (step_handle _ _ _ 42 0 (Ok OutcomeInjected)). vm_compute. reflexivity.
Defined.

(** C31. No operation ever panics or spins: from every reachable state, handling
    a PID and polling the deferral queue end with an answer, so neither the
    [expect] of the queue removal, the [unreachable!] after the attempt loop nor
    an endless eviction loop is reached. *)
Theorem reachable_operations_answer
    {W} `{ProcessInspector W, InjectionBroker W, RetryScheduler W, Clock W, HostEventSink W}
    p g d policy env (w : W) o' w' :
  rtc (orch_step env) (with_runtime_context p g d policy, w) (o', w') →
  (∀ q now, is_Some (handle_pid_at q now (o', w'))) ∧
  (∀ now, is_Some (poll_deferred now (o', w'))).
Proof.
  intros Hr. destruct (orch_steps_wf _ _ _ Hr) as [Hwf _]; [apply orch_wf_with_runtime_context|].
  split; intros.
  - destruct (wp_run _ _ _ (handle_pid_at_spec o' w' q now Hwf)) as (r & s & -> & _). eauto.
  - destruct (wp_run _ _ _ (poll_deferred_spec o' w' now Hwf)) as (r & s & -> & _). eauto.
Qed.

Lemma reachable_operations_answer_witness :
  is_Some (handle_pid_at 42 0 (example_orchestrator, example_script)).
Proof.
  apply (proj1 (reachable_operations_answer 4 "g" "d" default_retry_policy eq example_script
    example_orchestrator example_script (rtc_refl _ _))).
Defined.

(** ** The calls an operation makes *)

(** Whenever [m], run from [o] in the traced world [t], answers, the calls it
    added satisfy [P] together with its answer and the state it leaves. *)
Definition emits {W A : Type} (m : M (InjectionOrchestrator * Traced W) A)
    (P : A → InjectionOrchestrator → list call → Prop) (o : InjectionOrchestrator) : Prop :=
  ∀ (t : Traced W) a o' t', m (o, t) = Some (a, (o', t')) →
    ∃ added, calls t' = added ++ calls t ∧ P a o' added.

(** Calls that neither inspect, inject nor wait. *)
Definition quiet_call (c : call) : bool :=
  match c with
  | CallLifecycle _ _ | CallLiveness _ _ | CallBasename _ _ | CallRecord _ => true
  | _ => false
  end.

Section Emits.
Context {W : Type} `{ProcessInspector W, InjectionBroker W, RetryScheduler W, Clock W, HostEventSink W}.
Implicit Types (o : InjectionOrchestrator).

Lemma emits_mono {A} (m : M (InjectionOrchestrator * Traced W) A) P Q o :
  emits m P o → (∀ a o' l, P a o' l → Q a o' l) → emits m Q o.
Proof. intros Hm HPQ t a o' t' E. destruct (Hm t a o' t' E) as (l & ? & ?). eauto. Qed.

Lemma emits_ret {A} (a : A) (P : A → InjectionOrchestrator → list call → Prop) o :
  P a o [] → emits (W := W) (ret a) P o.
Proof. intros HP t a' o' t' [= <- <- <-]. by exists []. Qed.

Lemma emits_orch (P : InjectionOrchestrator → InjectionOrchestrator → list call → Prop) o :
  P o o [] → emits (W := W) orch P o.
Proof. intros HP t a' o' t' [= <- <- <-]. by exists []. Qed.

Lemma emits_read {A} (k : InjectionOrchestrator → M (InjectionOrchestrator * Traced W) A) P o :
  emits (k o) P o → emits (bind orch k) P o.
Proof. done. Qed.

Lemma emits_update f (P : unit → InjectionOrchestrator → list call → Prop) o :
  P tt (f o) [] → emits (W := W) (update f) P o.
Proof. intros HP t a' o' t' [= <- <- <-]. by exists []. Qed.

Lemma emits_no_answer {A} (P : A → InjectionOrchestrator → list call → Prop) o :
  emits (W := W) no_answer P o.
Proof. by intros t a o' t' [=]. Qed.

Lemma emits_ext {A} (f : W → A * W) note (P : A → InjectionOrchestrator → list call → Prop) o :
  (∀ a, P a o [note a]) → emits (ext (traced f note)) P o.
Proof.
  intros HP t a o' t'. unfold ext, traced. simpl. destruct (f (base t)) as [b w].
  intros [= <- <- <-]. by exists [note b].
Qed.

Lemma emits_record e (P : unit → InjectionOrchestrator → list call → Prop) o :
  P tt o [CallRecord e] → emits (W := W) (ext (λ t, (tt, record_event e t))) P o.
Proof. intros HP t a' o' t' [= <- <- <-]. by exists [CallRecord e]. Qed.

Lemma emits_sleep d (P : bool → InjectionOrchestrator → list call → Prop) o :
  P true o [CallSleep d] → emits (W := W) (ext (λ t, (true, thread_sleep d t))) P o.
Proof. intros HP t a' o' t' [= <- <- <-]. by exists [CallSleep d]. Qed.

Lemma emits_bind {A B} (m : M (InjectionOrchestrator * Traced W) A) k
    (P : B → InjectionOrchestrator → list call → Prop) o :
  emits m (λ a o' l, emits (k a) (λ b o'' l', P b o'' (l' ++ l)) o') o → emits (bind m k) P o.
Proof.
  intros Hm t b o'' t''. unfold bind. destruct (m (o, t)) as [[a [o' t']]|] eqn:E; [|done].
  intros Ek. destruct (Hm t a o' t' E) as (l & Hl & Hk).
  destruct (Hk t' b o'' t'' Ek) as (l' & Hl' & HP). exists (l' ++ l). by rewrite <- app_assoc, <- Hl.
Qed.

(** An operation that only makes quiet calls. *)
Definition quiet {A} (m : M (InjectionOrchestrator * Traced W) A) o : Prop :=
  emits m (λ _ _ l, forallb quiet_call l = true) o.

Ltac emits_step :=
  lazymatch goal with
  | |- quiet _ _ => unfold quiet
  | |- emits (bind orch _) _ _ => apply emits_read
  | |- emits (bind _ _) _ _ => apply emits_bind
  | |- emits (ret _) _ _ => apply emits_ret
  | |- emits orch _ _ => apply emits_orch
  | |- emits (update _) _ _ => apply emits_update
  | |- emits no_answer _ _ => apply emits_no_answer
  | |- emits (ext _) _ _ =>
      first [apply emits_record | apply emits_sleep
            | apply emits_ext; let a := fresh "a" in intros a]
  | |- emits (if ?b then _ else _) _ _ => let E := fresh "E" in destruct b eqn:E
  | |- emits (match ?x with _ => _ end) _ _ => let E := fresh "E" in destruct x eqn:E
  end; cbv beta.
Ltac emits_steps := repeat emits_step.

Lemma quiet_bind {A B} (m : M (InjectionOrchestrator * Traced W) A)
    (k : A → M (InjectionOrchestrator * Traced W) B) o :
  quiet m o → (∀ a o', quiet (k a) o') → quiet (bind m k) o.
Proof.
  intros Hm Hk. apply emits_bind. eapply emits_mono; [exact Hm|]. intros a o' l Hl.
  eapply emits_mono; [apply Hk|]. intros b o'' l' Hl'. simpl. by rewrite forallb_app, Hl, Hl'.
Qed.

Lemma record_result_quiet i outcome n r o : quiet (record_result i outcome n r) o.
Proof.
  unfold record_result. repeat (apply quiet_bind; [|intros ??]); by emits_steps.
Qed.

Lemma insert_deferred_quiet target o : quiet (insert_deferred target) o.
Proof.
  unfold insert_deferred. apply quiet_bind; [by emits_steps|]. intros a o'.
  apply quiet_bind; [|intros ??; by emits_steps]. unfold quiet; emits_step; [by emits_steps|].
  destruct (evict_deferred _ _) as [[m order] [e|]]; apply quiet_bind; try (intros; by emits_steps).
  intros ??. apply record_result_quiet.
Qed.

Lemma conclude_attempt_quiet i outcome r n o : quiet (conclude_attempt i outcome r n) o.
Proof.
  unfold conclude_attempt. apply quiet_bind; [unfold record_injection_success; by emits_steps|].
  intros _ o1. apply quiet_bind.
  - unfold reclassify_vanished_target. by emits_steps.
  - intros c o2. apply quiet_bind; [apply record_result_quiet|]. intros ??. by emits_steps.
Qed.

Lemma handle_launch_failure_quiet i d now r n o : quiet (handle_launch_failure i d now r n) o.
Proof.
  unfold handle_launch_failure. apply quiet_bind; [by emits_steps|]. intros a o1.
  apply quiet_bind; [by emits_steps|]. intros liveness o2.
  repeat case_match; (apply quiet_bind; [|intros ??; by emits_steps]);
    first [apply record_result_quiet|apply insert_deferred_quiet].
Qed.

(** A failure that is safe to retry on the same identity. *)
Definition retryable (answer : BrokerResult) : Prop :=
  disposition answer = DispositionRetryableFailure ∧
  safe_to_retry_same_identity (result_code answer) = true.

(** Twice the pause, within what a [Duration] holds and the policy allows. *)
Definition doubled (policy : RetryPolicy) (delay : N) : N :=
  N.min (N.min (delay * 2) DURATION_MAX) (max_delay policy).

(** The grammar of one attempt, in the order of the calls: at most [left]
    injections of the same request, with one pause of the policy's next delay
    between two of them.  There is another one exactly when the answer was a
    failure that is safe to retry on the same identity, a round is left and the
    pause was not cut short; only quiet calls follow the last one. *)
Inductive attempt_trace (policy : RetryPolicy) (req : InjectionRequest) :
    nat → N → list call → Prop :=
| trace_last left delay answer tail :
    ¬ retryable answer ∨ left = 0 →
    forallb quiet_call tail = true →
    attempt_trace policy req (S left) delay (CallInject req answer :: tail)
| trace_again left delay answer pause rest :
    retryable answer → pause = CallWait delay true ∨ pause = CallSleep delay →
    attempt_trace policy req left (doubled policy delay) rest →
    attempt_trace policy req (S left) delay (CallInject req answer :: pause :: rest)
| trace_cancelled left delay answer tail :
    retryable answer → left ≠ 0 → forallb quiet_call tail = true →
    attempt_trace policy req (S left) delay (CallInject req answer :: CallWait delay false :: tail).

Lemma demote_retryable answer :
  disposition (demote_unsafe_retry answer) = DispositionRetryableFailure → retryable answer.
Proof.
  unfold demote_unsafe_retry, retryable. case_match eqn:E; simpl; [done|]. intros Hd.
  rewrite Hd in E. simpl in E. split; [done|]. by apply negb_false_iff in E.
Qed.

Lemma retryable_demote answer :
  retryable answer → disposition (demote_unsafe_retry answer) = DispositionRetryableFailure.
Proof. intros [Hd Hs]. unfold demote_unsafe_retry. by rewrite Hs, andb_false_r. Qed.

Lemma quiet_tail {A} policy req left delay answer (m : M (InjectionOrchestrator * Traced W) A) o :
  ¬ retryable answer ∨ left = 0 → quiet m o →
  emits m (λ _ _ l, attempt_trace policy req (S left) delay (rev (l ++ [CallInject req answer]))) o.
Proof.
  intros Hr Hm. eapply emits_mono; [exact Hm|]. intros ?? l Hl. simpl in *. rewrite rev_app_distr.
  apply trace_last; [done|]. apply forallb_forall. intros c Hc%in_rev.
  by apply (proj1 (forallb_forall _ _) Hl).
Qed.

Lemma quiet_cancelled {A} policy req left delay answer (m : M (InjectionOrchestrator * Traced W) A) o :
  retryable answer → left ≠ 0 → quiet m o →
  emits m (λ _ _ l, attempt_trace policy req (S left) delay
    (rev ((l ++ [CallWait delay false]) ++ [CallInject req answer]))) o.
Proof.
  intros Ha Hn Hm. eapply emits_mono; [exact Hm|]. intros ?? l Hl. simpl in *. rewrite <- app_assoc, rev_app_distr.
  apply trace_cancelled; [done..|]. apply forallb_forall. intros c Hc%in_rev.
  by apply (proj1 (forallb_forall _ _) Hl).
Qed.

Lemma quiet_then_ret {A B} (m : M (InjectionOrchestrator * Traced W) A) (f : A → B) o :
  quiet m o → quiet (bind m (λ a, ret (f a))) o.
Proof. intros Hm. apply quiet_bind; [done|]. intros. by emits_steps. Qed.

(** A granted pause, then the remaining rounds. *)
Lemma pause_then {A} policy req left delay answer pause
    (m : M (InjectionOrchestrator * Traced W) A) o :
  retryable answer → pause = CallWait delay true ∨ pause = CallSleep delay →
  emits m (λ _ _ l, attempt_trace policy req left (doubled policy delay) (rev l)) o →
  emits m (λ _ _ l, attempt_trace policy req (S left) delay
    (rev ((l ++ [pause]) ++ [CallInject req answer]))) o.
Proof.
  intros Ha Hp Hm. eapply emits_mono; [exact Hm|]. intros ?? l Hl. simpl in *. rewrite <- app_assoc, rev_app_distr.
  by apply trace_again.
Qed.

Lemma attempt_loop_trace left attempt attempts delay req d now o :
  (attempt + N.of_nat left = attempts + 1)%N →
  emits (attempt_loop left attempt attempts delay req d now)
    (λ _ _ l, attempt_trace (retry_policy o) req left delay (rev l)) o.
Proof.
  revert attempt delay. induction left as [|left IH]; intros attempt delay Hn; [apply emits_no_answer|].
  cbn [attempt_loop]. do 3 emits_step.
  destruct (disposition (demote_unsafe_retry a)) eqn:Ed.
  all: cbn [terminal_outcome]; try (apply quiet_tail;
    [left; intros Hr%retryable_demote; congruence|first
    [apply conclude_attempt_quiet | apply quiet_then_ret; first
      [apply handle_launch_failure_quiet | apply insert_deferred_quiet]]]).
  apply demote_retryable in Ed.
  destruct (N.eqb_spec attempt attempts).
  { apply quiet_tail; [right; lia|apply conclude_attempt_quiet]. }
  emits_step. emits_step; emits_step; [destruct a0|]; cbn [negb app].
  - apply pause_then; auto. apply IH. lia.
  - apply quiet_cancelled; [done|lia|]. apply quiet_then_ret, record_result_quiet.
  - apply pause_then; auto. apply IH. lia.
Qed.

Lemma attempt_injection_trace i d now o :
  emits (attempt_injection i d now)
    (λ _ _ l, attempt_trace (retry_policy o)
       {| request_identity := i; request_generation_id := generation_id o |}
       (N.to_nat (attempt_bound o)) (initial_delay (retry_policy o)) (rev l)) o.
Proof.
  unfold attempt_injection. emits_step. apply attempt_loop_trace. unfold attempt_bound. lia.
Qed.
End Emits.

(** ** Only validated targets are injected *)

Definition is_inspection (c : call) : bool :=
  match c with CallInspect _ _ => true | _ => false end.

(** In a trace (latest call first) every injection asks for generation [g] and
    for an identity that the latest inspection and lifecycle probe before it let
    through: no other process was inspected in between. *)
Definition injections_validated (service_pid : N) (g : string) (trace : list call) : Prop :=
  ∀ pre req answer post, trace = pre ++ CallInject req answer :: post →
    request_generation_id req = g ∧
    ∃ mid checks rest, post = mid ++ checks ++ rest ∧ existsb is_inspection mid = false ∧
      validated service_pid (pid (request_identity req)) (request_identity req) checks.

(** Calls after which an earlier validation for [req] is still the latest. *)
Definition stays_on (req : InjectionRequest) (c : call) : Prop :=
  match c with CallInspect _ _ => False | CallInject r _ => r = req | _ => True end.

Lemma quiet_stays_on req l : forallb quiet_call l = true → Forall (stays_on req) l.
Proof.
  intros Hl. apply Forall_forall. intros c Hc%list_elem_of_In.
  assert (quiet_call c = true) by by apply (proj1 (forallb_forall _ _) Hl). by destruct c.
Qed.

Lemma attempt_trace_stays_on policy req left delay l :
  attempt_trace policy req left delay l → Forall (stays_on req) l.
Proof.
  induction 1 as [? ? ? ? ? Hq| ? ? ? ? ? ? [-> | ->] ? IH|? ? ? ? ? ? Hq]; repeat constructor; try done;
    by apply quiet_stays_on.
Qed.

Lemma stays_on_not_inspection req l : Forall (stays_on req) l → existsb is_inspection l = false.
Proof. induction 1 as [|c l Hc _ IH]; [done|]. by destruct c. Qed.

Definition not_inject (c : call) : Prop := match c with CallInject _ _ => False | _ => True end.

Lemma injections_validated_extend p g l trace :
  injections_validated p g trace → Forall not_inject l → injections_validated p g (l ++ trace).
Proof.
  intros Ht. induction 1 as [|c l Hc _ IH]; [done|]. intros pre req a post E.
  destruct pre as [|c' pre]; simplify_eq/=; [done|]. by apply (IH pre req a post).
Qed.

Lemma quiet_not_inject l : forallb quiet_call l = true → Forall not_inject l.
Proof.
  intros Hl. apply Forall_forall. intros c Hc%list_elem_of_In.
  assert (quiet_call c = true) by by apply (proj1 (forallb_forall _ _) Hl). by destruct c.
Qed.

(** The calls of one attempt on top of a validation of its target. *)
Lemma injections_validated_attempt p g req seg checks trace :
  injections_validated p g (checks ++ trace) → request_generation_id req = g →
  validated p (pid (request_identity req)) (request_identity req) checks →
  Forall (stays_on req) seg → injections_validated p g (seg ++ checks ++ trace).
Proof.
  intros Ht Hg Hv. induction 1 as [|c seg Hc Hseg IH]; [done|]. intros pre r a post E.
  destruct pre as [|c' pre]; simplify_eq/=; [|by apply (IH pre r a post)].
  split; [done|]. exists seg, checks, trace. split_and!; try done.
  by eapply stays_on_not_inspection.
Qed.

Lemma validated_not_inject p q i checks : validated p q i checks → Forall not_inject checks.
Proof. intros (? & ? & ? & ? & ? & ->). by repeat constructor. Qed.

Lemma validated_pid p q i checks : validated p q i checks → pid i = q.
Proof. intros (ins & l & <- & Hs & _). apply Hs. Qed.

Section Validated.
Context {W : Type} `{ProcessInspector W, InjectionBroker W, RetryScheduler W, Clock W, HostEventSink W}.
Implicit Types (o : InjectionOrchestrator) (t : Traced W).

(** Running [m] keeps every injection of the trace validated. *)
Definition keeps_validated {A} (m : M (InjectionOrchestrator * Traced W) A) o t : Prop :=
  ∀ a o' t', m (o, t) = Some (a, (o', t')) →
    injections_validated (service_pid o) (generation_id o) (calls t) →
    injections_validated (service_pid o) (generation_id o) (calls t').

Lemma quiet_keeps_validated {A} (m : M (InjectionOrchestrator * Traced W) A) o t :
  quiet m o → keeps_validated m o t.
Proof.
  intros Hm a o' t' E Ht. destruct (Hm t a o' t' E) as (l & -> & Hl).
  apply injections_validated_extend; [done|]. by apply quiet_not_inject.
Qed.

(** An attempt on [i] right after [i] was validated. *)
Lemma attempt_keeps_validated i d now o t checks rest :
  calls t = checks ++ rest → validated (service_pid o) (pid i) i checks →
  keeps_validated (attempt_injection i d now) o t.
Proof.
  intros Hc Hv a o' t' E Ht. destruct (attempt_injection_trace i d now o t a o' t' E) as (l & Hl & Htr).
  rewrite Hl, Hc. eapply (injections_validated_attempt _ _
    {| request_identity := i; request_generation_id := generation_id o |}); try done.
  - by rewrite <- Hc.
  - rewrite <- (rev_involutive l). apply Forall_rev. by eapply attempt_trace_stays_on.
Qed.

Lemma validate_keeps_validated p q g t r t' :
  validate p q t = (r, t') → injections_validated p g (calls t) → injections_validated p g (calls t').
Proof.
  intros E Ht. assert (∃ l, calls t' = l ++ calls t ∧ Forall not_inject l) as (l & -> & Hl);
    [|by apply injections_validated_extend].
  revert E. unfold validate, inspect, probe_target_lifecycle; simpl. unfold traced.
  destruct (inspect q (base t)) as [[[i f]|e] w]; simpl; [destruct (probe_target_lifecycle i w)|];
    intros E; repeat case_match; simplify_eq/=; by
      (exists [CallInspect q (Ok (Build_InspectedProcess i f))]; split; [reflexivity|repeat constructor]) ||
      (exists [CallInspect q (Err e)]; split; [reflexivity|repeat constructor]) ||
      (eexists [_; _]; split; [reflexivity|repeat constructor]).
Qed.

Lemma set_last_handled_keeps {A} (m : M (InjectionOrchestrator * Traced W) A) c o t :
  keeps_validated m (set_last_handled c o) t →
  ∀ a o' t', m (set_last_handled c o, t) = Some (a, (o', t')) →
    injections_validated (service_pid o) (generation_id o) (calls t) →
    injections_validated (service_pid o) (generation_id o) (calls t').
Proof. done. Qed.

Lemma handle_pid_keeps_validated p now o t : keeps_validated (handle_pid_at p now) o t.
Proof.
  intros r o' t'. unfold handle_pid_at, bind, update, modify, orch, gets, ext; simpl.
  destruct (validate (service_pid o) p t) as [d t1] eqn:Ev. intros E Ht.
  pose proof (validate_keeps_validated _ _ _ _ _ _ Ev Ht) as Ht1.
  destruct (validate_cases _ _ _ _ _ Ev) as (added & Hc & Hd).
  destruct d as [[i|reason|i reason]|e]; simpl in E.
  - destruct Hd as [Hv _]. change (contains_identity _ i) with (contains_identity o i) in E.
    destruct (contains_identity o i); [by unfold ret in E; simplify_eq/=|].
    refine (attempt_keeps_validated i 0 now _ t1 added (calls t) Hc _ r o' t' E Ht1).
    by rewrite (validated_pid _ _ _ _ Hv).
  - unfold ret in E. simplify_eq/=. by apply (injections_validated_extend _ _ [_]); [|repeat constructor].
  - change (contains_identity _ i) with (contains_identity o i) in E.
    destruct (contains_identity o i); [by unfold ret in E; simplify_eq/=|].
    refine (quiet_keeps_validated
      (let! _ := insert_deferred _ in ret (Ok OutcomeDeferred)) _ t1 _ r o' t' E Ht1).
    apply quiet_then_ret, insert_deferred_quiet.
  - by unfold ret in E; simplify_eq/=.
Qed.

Lemma revalidate_keeps_validated target now o t :
  keeps_validated (revalidate_deferred target now) o t.
Proof.
  intros r o' t'. unfold revalidate_deferred, bind at 1 2, orch, gets, ext; simpl.
  destruct (validate (service_pid o) (pid (target_identity target)) t) as [d t1] eqn:Ev.
  intros E Ht. pose proof (validate_keeps_validated _ _ _ _ _ _ Ev Ht) as Ht1.
  destruct (validate_cases _ _ _ _ _ Ev) as (added & Hc & Hd).
  destruct d as [[i|reason|i reason]|e]; simpl in E.
  - destruct Hd as [Hv _]. case_bool_decide.
    + refine (attempt_keeps_validated i _ now _ t1 added (calls t) Hc _ r o' t' E Ht1).
      by rewrite (validated_pid _ _ _ _ Hv).
    + refine (quiet_keeps_validated _ _ t1 _ r o' t' E Ht1).
      apply quiet_then_ret, record_result_quiet.
  - refine (quiet_keeps_validated _ _ t1 _ r o' t' E Ht1).
    apply quiet_then_ret, record_result_quiet.
  - case_bool_decide; refine (quiet_keeps_validated _ _ t1 _ r o' t' E Ht1); apply quiet_then_ret;
      [apply insert_deferred_quiet|apply record_result_quiet].
  - by unfold ret in E; simplify_eq/=.
Qed.

Lemma probe_traced i t : ∃ l w,
  probe_target_lifecycle i t = (l, mk_traced w (CallLifecycle i l :: calls t)).
Proof.
  change (probe_target_lifecycle i t) with (traced (probe_target_lifecycle i) (CallLifecycle i) t).
  unfold traced. destruct (probe_target_lifecycle i (base t)). eauto.
Qed.

Lemma poll_keeps_validated now o t : keeps_validated (poll_deferred now) o t.
Proof.
  intros r o' t'. unfold poll_deferred, bind at 1, orch, gets; cbn [fst snd].
  destruct (position _ _); [|by unfold ret; intros; simplify_eq/=].
  destruct (deferred_order o !! _); [|done]. destruct (deferred o !! _) as [target|];
    [|unfold bind, update, modify, ret; intros; by simplify_eq/=].
  unfold bind at 1, update, modify; cbn [fst snd]. set (o1 := set_deferred _ _ o).
  assert (∀ t1, keeps_validated (let? outcome := revalidate_deferred target now in
    ret (Ok (Some outcome))) o1 t1) as Hre.
  { intros t1 a o2 t2. unfold bind at 1. destruct (revalidate_deferred _ _ _) as [[x [o3 t3]]|] eqn:E;
      [|done]. intros E2 Ht1. pose proof (revalidate_keeps_validated _ _ _ _ _ _ _ E Ht1).
    destruct x; unfold ret in E2; by simplify_eq/=. }
  case_bool_decide; [|apply Hre]. unfold bind at 1, ext. cbn [fst snd].
  destruct (probe_traced (target_identity target) t) as (l & w & ->). cbv beta iota. intros E Ht.
  assert (injections_validated (service_pid o1) (generation_id o1)
    (calls (mk_traced w (CallLifecycle (target_identity target) l :: calls t)))) as Ht1
    by (apply (injections_validated_extend _ _ [_]); [done|by repeat constructor]).
  destruct l.
  1: exact (Hre _ _ _ _ E Ht1).
  all: refine (quiet_keeps_validated _ o1 _ _ r o' t' E Ht1); apply quiet_then_ret;
    first [apply insert_deferred_quiet|apply record_result_quiet].
Qed.
End Validated.

(** Everything but the traced calls may change between two operations. *)
Definition no_calls {W : Type} (t t' : Traced W) : Prop := calls t' = calls t.

(** C1. No process is ever injected that was not cleared first: along every run
    of the orchestrator, each injection request carries the generation the
    orchestrator was built for and an identity (PID, creation time, session,
    architecture) for which the latest inspection reported every safety fact -
    not the service itself, not session zero, not protected, not critical, no
    dynamic-code or signature mitigation, a known image name that is neither an
    important Windows process nor an installer - and whose lifecycle probe did not
    find it exiting; no other process is inspected in between. *)
Theorem injected_only_validated
    {W} `{ProcessInspector W, InjectionBroker W, RetryScheduler W, Clock W, HostEventSink W}
    p g d policy (w : W) o' t' :
  rtc (orch_step no_calls) (with_runtime_context p g d policy, mk_traced w []) (o', t') →
  injections_validated p g (calls t').
Proof.
  assert (∀ s s', rtc (orch_step (no_calls (W := W))) s s' → orch_wf s.1 →
    injections_validated (InjectionOrchestrator.service_pid s.1) (generation_id s.1) (calls s.2) →
    injections_validated (InjectionOrchestrator.service_pid s'.1) (generation_id s'.1) (calls s'.2)) as Hr.
  { intros s s'. induction 1 as [s|s1 s2 s3 H12 _ IH]; [done|]. intros Hwf Ht.
    destruct (orch_step_wf _ _ _ H12 Hwf) as [Hwf2 Hsb]. apply IH; [done|].
    rewrite (sb_service _ _ Hsb), (sb_generation _ _ Hsb).
    destruct H12 as [o t q now r [o2 t2] E|o t now r [o2 t2] E|o t change|o t t2 Hcalls]; simpl in *.
    - by apply (handle_pid_keeps_validated _ _ _ _ _ _ _ E).
    - by apply (poll_keeps_validated _ _ _ _ _ _ E).
    - done.
    - by rewrite Hcalls. }
  intros Hrtc. pose proof (orch_wf_with_runtime_context p g d policy) as Hwf0.
  pose proof (Hr _ _ Hrtc Hwf0) as Hv.
  destruct (orch_steps_wf _ _ _ Hrtc Hwf0) as [_ Hsb]. simpl in *.
  rewrite (sb_service _ _ Hsb), (sb_generation _ _ Hsb) in Hv. apply Hv.
  intros pre req a post E. by destruct pre.
Qed.

Definition example_traced_after : InjectionOrchestrator * Traced Script :=
  match handle_pid_at 42 0 (example_orchestrator, mk_traced example_script []) with
  | Some (_, s) => s
  | None => (example_orchestrator, mk_traced example_script [])
  end.

Lemma injected_only_validated_witness :
  injections_validated 4 "g" (calls example_traced_after.2) ∧
  existsb (λ c, negb (quiet_call c || is_inspection c)) (calls example_traced_after.2) = true.
Proof.
  split; [|vm_compute; reflexivity].
  apply (injected_only_validated 4 "g" "d" default_retry_policy example_script
    example_traced_after.1 example_traced_after.2).
  apply rtc_once, (step_handle _ _ _ 42 0 (Ok OutcomeInjected)). vm_compute. reflexivity.
Defined.


(** ** The schedule of an attempt *)

Definition is_injection (c : call) : bool :=
  match c with CallInject _ _ => true | _ => false end.

Lemma quiet_no_injection l : forallb quiet_call l = true → List.filter is_injection l = [].
Proof. induction l as [|c l IH]; simpl; [done|]. intros [? ?]%andb_prop. destruct c; naive_solver. Qed.

Lemma attempt_trace_bound policy req left delay l :
  attempt_trace policy req left delay l → length (List.filter is_injection l) ≤ left.
Proof.
  induction 1 as [? ? ? ? ? Hq| ? ? ? ? ? ? [-> | ->] ? IH|? ? ? ? ? ? Hq]; simpl;
    rewrite ?(quiet_no_injection _ Hq); simpl; lia.
Qed.

(** One attempt follows the retry policy to the letter: the helper is asked at
    least once and at most [max(max_attempts, 1)] times, always for the same
    identity and generation; it is asked again exactly when the last answer was a
    failure that is safe to retry on the same identity, rounds are left and the
    pause was not cut short by a stop; and the pauses are the initial delay doubled
    each time up to the cap.  Everything else is a final answer. *)
Theorem attempt_follows_policy
    {W} `{ProcessInspector W, InjectionBroker W, RetryScheduler W, Clock W, HostEventSink W}
    i deferrals now o (w : W) r o' t' :
  attempt_injection i deferrals now (o, mk_traced w []) = Some (r, (o', t')) →
  attempt_trace (retry_policy o)
    {| request_identity := i; request_generation_id := generation_id o |}
    (N.to_nat (N.max (max_attempts (retry_policy o)) 1)) (initial_delay (retry_policy o))
    (rev (calls t')) ∧
  1 ≤ length (List.filter is_injection (calls t')) ≤ N.to_nat (N.max (max_attempts (retry_policy o)) 1).
Proof.
  intros E. destruct (attempt_injection_trace i deferrals now o _ _ _ _ E) as (l & Hl & Ht).
  simpl in Hl. rewrite app_nil_r in Hl. rewrite Hl. split; [exact Ht|].
  assert (length (List.filter is_injection l) = length (List.filter is_injection (rev l))) as ->.
  { by rewrite List.filter_rev, length_rev. }
  split; [|by eapply attempt_trace_bound]. inversion Ht; simpl; lia.
Qed.

Definition example_retry_script : Script :=
  mk_script [] [] []
    [ {| disposition := DispositionRetryableFailure; result_code := "session-unavailable";
         result_win32_error := None |} ] [].

Lemma attempt_follows_policy_witness :
  ∃ r o' t',
  attempt_injection (identity example_process) 0 0
    (example_orchestrator, mk_traced example_retry_script []) = Some (r, (o', t')) ∧
  length (List.filter is_injection (calls t')) = 2 ∧
  1 ≤ length (List.filter is_injection (calls t')) ≤ 3.
Proof.
  eexists _, _, _. split; [vm_compute; reflexivity|]. split; [vm_compute; reflexivity|].
  refine (proj2 (attempt_follows_policy (identity example_process) 0 0 example_orchestrator
    example_retry_script _ _ _ _)). vm_compute. reflexivity.
Defined.

(** ** Each process is handled once *)

Section Once.
Context {W : Type} `{ProcessInspector W, InjectionBroker W, RetryScheduler W, Clock W, HostEventSink W}.
Implicit Types (o : InjectionOrchestrator) (w : W).

(** The identity a decision of the validator is about, unless it is a skip. *)
Definition decided_identity (d : ProcessTargetDecision) : option ProcessIdentity :=
  match d with Eligible i | Deferred i _ => Some i | Skipped _ => None end.

Lemma settled_contains o i r o' : settled o i r o' → contains_identity o' i = true.
Proof.
  intros [_ _ Hs _]. unfold contains_identity. apply orb_true_iff. rewrite !contains_key_true.
  destruct Hs as [(_ & t & Ht & _)|(rec & Hrec & _)]; eauto.
Qed.

(** Handling a PID whose process is not known yet accounts for the process. *)
Lemma handle_pid_fresh o w p now d i w1 r o' w' :
  orch_wf o → validate (service_pid o) p w = (Ok d, w1) → decided_identity d = Some i →
  contains_identity o i = false → handle_pid_at p now (o, w) = Some (r, (o', w')) →
  settled (set_last_handled (Some (creation_time i)) (set_last_handled None o)) i r o'.
Proof.
  intros Hwf Ev Hd Hc E. pose proof (proj1 (contains_identity_false _ _) Hc) as Habs.
  set (o1 := set_last_handled _ _).
  assert (orch_wf o1) as Hwf1 by by do 2 apply orch_wf_set_last_handled.
  revert E. unfold handle_pid_at, bind at 1, update, modify, orch, gets, bind at 1, ext, bind at 1.
  cbn [fst snd]. change (InjectionOrchestrator.service_pid (set_last_handled None o))
    with (InjectionOrchestrator.service_pid o). rewrite Ev. cbv beta iota.
  destruct d as [j|reason|j reason]; simplify_eq/=; unfold bind at 1; cbn [fst snd].
  - change (contains_identity (set_last_handled None o) i) with (contains_identity o i).
    rewrite Hc. intros E.
    refine (wp_elim _ _ _ _ _ (attempt_injection_spec o1 w1 i 0 now Hwf1 Habs _) E). lia.
  - change (contains_identity (set_last_handled None o) i) with (contains_identity o i).
    rewrite Hc. intros E.
    refine (wp_elim _ (λ r s, settled o1 i r s.1) _ _ _ _ E). apply wp_bind.
    eapply wp_mono; [apply (insert_then_settled o1 w1 _ i)|]; try done.
    unfold deferral_ok. simpl. lia.
Qed.

Lemma handle_pid_known o w p now d i w1 :
  validate (service_pid o) p w = (Ok d, w1) → decided_identity d = Some i →
  contains_identity o i = true →
  handle_pid_at p now (o, w) =
    Some (Ok OutcomeDuplicate, (set_last_handled (Some (creation_time i)) (set_last_handled None o), w1)).
Proof.
  intros Ev Hd Hc.
  unfold handle_pid_at, bind at 1, update, modify, orch, gets, bind at 1, ext, bind at 1.
  cbn [fst snd]. change (InjectionOrchestrator.service_pid (set_last_handled None o))
    with (InjectionOrchestrator.service_pid o). rewrite Ev. cbv beta iota.
  destruct d as [j|reason|j reason]; simplify_eq/=; unfold bind at 1; cbn [fst snd];
    change (contains_identity (set_last_handled None o) i) with (contains_identity o i);
    by rewrite Hc.
Qed.
End Once.

(** Each process is attempted once: after a PID was handled whose process the
    validator accepted or deferred, the process - its PID together with its creation
    time - is accounted for with the very outcome that was returned, in the history
    or in the deferral queue; and whenever the same process is announced again, the
    answer is [Duplicate] straight after validation, with no broker call, no wait
    and nothing forgotten. *)
Theorem process_handled_once
    {W} `{ProcessInspector W, InjectionBroker W, RetryScheduler W, Clock W, HostEventSink W}
    o p now d i (w w1 w2 w3 : W) now' d' r o' :
  orch_wf o → decided_identity d = Some i → decided_identity d' = Some i →
  validate (service_pid o) p w = (Ok d, w1) → contains_identity o i = false →
  handle_pid_at p now (o, w) = Some (r, (o', w2)) →
  validate (service_pid o) p w2 = (Ok d', w3) →
  match r with
  | Ok OutcomeDeferred => is_Some (deferred o' !! identity_key i)
  | Ok outcome => option_map record_outcome (last_result o' (pid i) (creation_time i)) = Some outcome
  | Err _ => False
  end ∧
  ∃ o'', handle_pid_at p now' (o', w2) = Some (Ok OutcomeDuplicate, (o'', w3)) ∧
    processed o'' = processed o' ∧ deferred o'' = deferred o'.
Proof.
  intros Hwf Hd Hd' Ev Hc E Ev'.
  pose proof (handle_pid_fresh _ _ _ _ _ _ _ _ _ _ Hwf Ev Hd Hc E) as Hs.
  pose proof (settled_contains _ _ _ _ Hs) as Hc'. split.
  - destruct Hs as [_ _ [(-> & t & -> & _)|(rec & Hrec & -> & _ & Hn & _ & _)] _]; [eauto|].
    unfold last_result. change (pid i, creation_time i) with (identity_key i). rewrite Hrec.
    simpl. by destruct (record_outcome rec).
  - exists (set_last_handled (Some (creation_time i)) (set_last_handled None o')). split; [|by split].
    apply (handle_pid_known o' w2 p now' d' i w3); try done.
    destruct Hs as [_ Hsb _ _]. by rewrite (sb_service _ _ Hsb).
Qed.

Definition example_twice_script : Script :=
  mk_script [Ok example_process; Ok example_process] [LifecycleRunning; LifecycleRunning] [] [] [].

Lemma process_handled_once_witness :
  ∃ o' w2 w3 o'',
    handle_pid_at 42 0 (example_orchestrator, example_twice_script) =
      Some (Ok OutcomeInjected, (o', w2)) ∧
    handle_pid_at 42 9 (o', w2) = Some (Ok OutcomeDuplicate, (o'', w3)) ∧
    processed o'' = processed o' ∧ deferred o'' = deferred o'.
Proof.
  eexists _, _, _.
  assert (∀ o', Some (Ok OutcomeInjected, o') = handle_pid_at 42 0 (example_orchestrator, example_twice_script) →
    ∃ o'', handle_pid_at 42 9 (o'.1, o'.2) = Some (Ok OutcomeDuplicate, (o'', empty_script)) ∧
      processed o'' = processed o'.1 ∧ deferred o'' = deferred o'.1) as Hdup.
  { intros [o' w'] Eo. refine (proj2 (process_handled_once example_orchestrator 42 0
      (Eligible (identity example_process)) (identity example_process) example_twice_script
      example_script w' empty_script 9 (Eligible (identity example_process)) (Ok OutcomeInjected) o' _ _ _ _ _ _ _));
    try (vm_compute; reflexivity).
    - apply orch_wf_with_runtime_context.
    - done.
    - vm_compute in Eo. injection Eo as -> ->. vm_compute. reflexivity. }
  destruct (Hdup _ eq_refl) as (o'' & H1 & H2 & H3).
  exists o''. split; [vm_compute; reflexivity|]. split; [exact H1|]. by split.
Defined.

(** ** Session changes *)

Definition session_event_types : list N := [2; 4; 6; 11]%N.

(** A session change forgets exactly the processes of that session: after a
    disconnect, a logoff or a session end, a result or a deferral is kept if and
    only if its process ran in another session, and both orders keep the survivors
    in their order of arrival; an overflow of the event queue forgets everything;
    any other event changes nothing. *)
Theorem session_change_forgets change o :
  let o' := handle_session_change change o in
  let other (i : ProcessIdentity) := session_id i ≠ change_session_id change in
  if is_overflow change then
    processed o' = ∅ ∧ process_order o' = [] ∧ deferred o' = ∅ ∧ deferred_order o' = []
  else if bool_decide (change_event_type change ∈ session_event_types) then
    (∀ k r, processed o' !! k = Some r ↔ processed o !! k = Some r ∧ other (record_identity r)) ∧
    (∀ k t, deferred o' !! k = Some t ↔ deferred o !! k = Some t ∧ other (target_identity t)) ∧
    process_order o' = filter (λ k, is_Some (processed o' !! k)) (process_order o) ∧
    deferred_order o' = filter (λ k, is_Some (deferred o' !! k)) (deferred_order o)
  else o' = o.
Proof.
  simpl. unfold handle_session_change. destruct (is_overflow change); [done|].
  assert (existsb (N.eqb (change_event_type change)) [2; 4; 6; 11]%N =
    bool_decide (change_event_type change ∈ session_event_types)) as ->.
  { apply eq_true_iff_eq. rewrite existsb_exists, bool_decide_eq_true, list_elem_of_In.
    split; [intros (x & Hx & ->%N.eqb_eq); done|]. intros Hx. eexists. split; [done|]. apply N.eqb_refl. }
  case_bool_decide; [|done]. simpl. split_and!.
  - intros k r. by rewrite map_retain_lookup, negb_true_iff, N.eqb_neq.
  - intros k t. by rewrite map_retain_lookup, negb_true_iff, N.eqb_neq.
  - apply list_filter_iff. intros k. by rewrite Is_true_true, contains_key_true.
  - apply list_filter_iff. intros k. by rewrite Is_true_true, contains_key_true.
Qed.

(** ** Deferral back-off *)

(** The wait before a failed helper launch is tried again doubles with every
    deferral up to the cap, without overflow: for every deferral count a policy can
    reach below 32 it is [initial * 2^deferrals] capped, it never decreases, and with
    the default policy the five waits are 2, 4, 8, 16 and 32 seconds. *)
Theorem launch_backoff_doubles p d :
  (launch_max_delay p <= DURATION_MAX)%N →
  ((d < 32)%N → launch_delay p d = N.min (launch_initial_delay p * 2 ^ d) (launch_max_delay p)) ∧
  (∀ e, (d <= e)%N → (launch_delay p d <= launch_delay p e <= launch_max_delay p)%N) ∧
  map (launch_delay default_deferral_policy) [0; 1; 2; 3; 4]%N =
    map from_secs [2; 4; 8; 16; 32]%N.
Proof.
  intros Hmax.
  assert (∀ d, (d < 32)%N → checked_shl32 1 d = Some (2 ^ d)%N) as Hshl.
  { intros d' Hd. unfold checked_shl32. apply N.ltb_lt in Hd as E. rewrite E.
    rewrite N.shiftl_1_l, N.mod_small; [done|]. by apply N.pow_lt_mono_r. }
  split_and!.
  - intros Hd. unfold launch_delay. rewrite (Hshl d Hd). unfold duration_saturating_mul. simpl. lia.
  - intros e He. split; [|unfold launch_delay; lia].
    assert (default U32_MAX (checked_shl32 1 d) <= default U32_MAX (checked_shl32 1 e))%N.
    { destruct (N.lt_ge_cases e 32).
      - rewrite !Hshl by lia. simpl. apply N.pow_le_mono_r; lia.
      - assert (checked_shl32 1 e = None) as ->.
        { unfold checked_shl32. by rewrite (proj2 (N.ltb_ge _ _)). }
        destruct (N.lt_ge_cases d 32) as [Hd|Hd].
        + rewrite Hshl by lia. simpl. pose proof (N.pow_lt_mono_r 2 d 32 eq_refl Hd). change (2 ^ 32)%N with (U32_MAX + 1)%N in *. lia.
        + unfold checked_shl32. by rewrite (proj2 (N.ltb_ge _ _)). }
    unfold launch_delay, duration_saturating_mul.
    apply N.min_le_compat_r, N.min_le_compat_r. by apply N.mul_le_mono_l.
  - vm_compute. reflexivity.
Qed.

Lemma launch_backoff_doubles_witness :
  launch_delay default_deferral_policy 3 = from_secs 16.
Proof.
  rewrite (proj1 (launch_backoff_doubles default_deferral_policy 3 ltac:(vm_compute; discriminate))
    ltac:(lia)). vm_compute. reflexivity.
Defined.

(** ** Results that cannot be trusted *)

(** What the host reports as degraded is what just happened: after a process
    the orchestrator did not know was handled with a terminal outcome, the health
    error of the generation is present exactly when that result's code says the
    clean-up or the answer of the helper cannot be trusted, and it names the class
    of the failure and carries that very result's Win32 error. *)
Theorem health_error_of_latest_result
    {W} `{ProcessInspector W, InjectionBroker W, RetryScheduler W, Clock W, HostEventSink W}
    o p now d i (w w1 w2 : W) outcome o' :
  orch_wf o → decided_identity d = Some i →
  validate (service_pid o) p w = (Ok d, w1) → contains_identity o i = false →
  handle_pid_at p now (o, w) = Some (Ok outcome, (o', w2)) → outcome ≠ OutcomeDeferred →
  ∃ record, last_result o' (pid i) (creation_time i) = Some record ∧
    record_outcome record = outcome ∧
    match generation_health_error o' with
    | Some e => health_error_code (record_code record) = Some (error_code e) ∧
        error_win32 e = record_win32_error record
    | None => health_error_code (record_code record) = None
    end.
Proof.
  intros Hwf Hd Ev Hc E Hn.
  destruct (handle_pid_fresh _ _ _ _ _ _ _ _ _ _ Hwf Ev Hd Hc E) as
    [_ _ [([=] & _)|(rec & Hrec & [= ->] & _ & _ & _ & Hlast)] _]; [done|].
  exists rec. split; [done|]. split; [done|].
  unfold generation_health_error, most_recent_result. rewrite Hlast, Hrec.
  by destruct (health_error_code (record_code rec)).
Qed.

Definition example_untrusted_script : Script :=
  mk_script [Ok example_process] [LifecycleRunning] [LivenessAlive]
    [ {| disposition := DispositionRejected; result_code := "remote-thread-cleanup-unknown";
         result_win32_error := Some 5%N |} ] [].

Lemma health_error_of_latest_result_witness :
  ∃ o' w2 record,
    handle_pid_at 42 0 (example_orchestrator, example_untrusted_script) =
      Some (Ok OutcomeRejected, (o', w2)) ∧
    last_result o' 42 7 = Some record ∧ record_outcome record = OutcomeRejected ∧
    option_map error_code (generation_health_error o') = Some "injection-cleanup-unknown"%string.
Proof.
  assert (∀ o' w2, handle_pid_at 42 0 (example_orchestrator, example_untrusted_script) =
      Some (Ok OutcomeRejected, (o', w2)) →
    ∃ record, last_result o' 42 7 = Some record ∧ record_outcome record = OutcomeRejected) as Hh.
  { intros o' w2 E.
    destruct (health_error_of_latest_result example_orchestrator 42 0
      (Eligible (identity example_process)) (identity example_process) example_untrusted_script
      (mk_script [] [] (on_liveness example_untrusted_script) (on_inject example_untrusted_script) [])
      w2 OutcomeRejected o') as (rec & ? & ? & _); eauto;
      try apply orch_wf_with_runtime_context; try done; by vm_compute. }
  destruct (handle_pid_at 42 0 (example_orchestrator, example_untrusted_script))
    as [[r [o' w2]]|] eqn:E; [|by vm_compute in E].
  assert (r = Ok OutcomeRejected) as -> by (vm_compute in E; by injection E).
  destruct (Hh o' w2 eq_refl) as (rec & H1 & H2). exists o', w2, rec. split_and!; try done.
  vm_compute in E. injection E as <- _. vm_compute. reflexivity.
Defined.
