(* ===== verification/OrchestrationRuntime.v ===== *)
(** * The driver of the process orchestration

    [service-runtime/host/src/orchestration_runtime.rs]: the subscription to
    process creations, the backlog of processes that were running before it, the
    recovery of a lost subscription, the rate at which a failing health channel
    is tolerated, and the loop that feeds the injection orchestrator. *)

From S2P Require Export OrchestratorSafety.

Definition MAX_TOLERATED_CONSECUTIVE_HEALTH_REPORT_FAILURES : N := 20.

Definition PROCESS_CREATION_QUERY : string := "SELECT ProcessID FROM Win32_ProcessStartTrace".

Record ObserverRecoveryPolicy := {
  recovery_initial_delay : N;
  recovery_max_delay : N;
  recovery_max_attempts : N
}.

Definition default_observer_recovery : ObserverRecoveryPolicy :=
  {| recovery_initial_delay := from_secs 1; recovery_max_delay := from_secs 30;
     recovery_max_attempts := 12 |}.

Inductive ObserverRecovery := Resubscribed | RecoveryStopped.

(** What the driver holds: the observer's backlog and recovery policy, the
    orchestrator built when [run] starts and its count of health failures. *)
Record Driver := mk_driver {
  orchestrator : InjectionOrchestrator;
  consecutive_failures : N;
  backlog : list N;
  recovery : ObserverRecoveryPolicy
}.

Definition set_orchestrator (o : InjectionOrchestrator) (d : Driver) : Driver :=
  mk_driver o (consecutive_failures d) (backlog d) (recovery d).
Definition set_failures (n : N) (d : Driver) : Driver :=
  mk_driver (orchestrator d) n (backlog d) (recovery d).
Definition set_backlog (l : list N) (d : Driver) : Driver :=
  mk_driver (orchestrator d) (consecutive_failures d) l (recovery d).

(** ** The age of a process *)

Definition UNIX_EPOCH_FILETIME_TICKS : N := 116444736000000000.

Definition filetime_from_unix_epoch (since_unix_epoch : N) : option N :=
  try_u64 (since_unix_epoch / 100 + UNIX_EPOCH_FILETIME_TICKS).

Definition filetime_age_millis (now created : N) : option N :=
  option_map (λ ticks, ticks / 10000)%N (checked_sub now created).

(** How one pass of the loop, or a part of it, ends: with a value to go on with,
    with [continue], or with [return]. *)
Inductive flow (A : Type) :=
| Proceed (a : A)
| Continue
| Return (r : result unit StructuredServiceError).
Arguments Proceed {A} a.
Arguments Continue {A}.
Arguments Return {A} r.

Definition is_relay_root_name (name : option string) : bool :=
  match name with Some n => is_relay_root n | None => false end.

Section Driver.
Context {W : Type} `{ProcessInspector W, InjectionBroker W, Clock W, HostEventSink W,
  ProcessEventSource W, StopSignal W}.
(** [RuntimeHealthReporter::report]. *)
Context (report_health : HealthState → ReadinessReport → InjectionTelemetry →
  option StructuredServiceError → W → result unit StructuredServiceError * W).

#[local] Instance StopRetryScheduler : RetryScheduler W := {
  scheduler_wait delay w :=
    let '(r, w) := wait_timeout delay w in
    (match r with Ok false => true | _ => false end, w)
}.

Definition driver : M (Driver * W) Driver := gets fst.

Definition update_driver (f : Driver → Driver) : M (Driver * W) unit := modify (λ s, (f s.1, s.2)).

Definition call_out {A : Type} (f : W → A * W) : M (Driver * W) A :=
  λ s, let '(a, w) := f s.2 in Some (a, (s.1, w)).

Definition with_orchestrator {A : Type} (m : M (InjectionOrchestrator * W) A) : M (Driver * W) A :=
  λ s, match m (orchestrator s.1, s.2) with
       | Some (a, (o, w)) => Some (a, (set_orchestrator o s.1, w))
       | None => None
       end.

(** ** Backlog *)

(** [partition] asks for every name once, in order. *)
Fixpoint partition_roots (pids : list N) (w : W) : list N * list N * W :=
  match pids with
  | [] => ([], [], w)
  | p :: pids' =>
      let '(name, w) := image_name_for_ordering p w in
      let '(roots, rest, w) := partition_roots pids' w in
      if is_relay_root_name name then (p :: roots, rest, w) else (roots, p :: rest, w)
  end.

Definition relay_roots_first (pids : list N) (w : W) : list N * W :=
  let '(roots, rest, w) := partition_roots pids w in (roots ++ rest, w).

Fixpoint fold_snapshot (pids : list N) : M (Driver * W) unit :=
  match pids with
  | [] => ret tt
  | p :: pids' =>
      let! d := driver in
      if bool_decide (p ∈ backlog d) then fold_snapshot pids'
      else
        let! name := call_out (image_name_for_ordering p) in
        let! _ := update_driver (set_backlog
          (if is_relay_root_name name then p :: backlog d else backlog d ++ [p])) in
        fold_snapshot pids'
  end.

Definition resubscribe : M (Driver * W) (result unit StructuredServiceError) :=
  let? _ := call_out (subscribe PROCESS_CREATION_QUERY) in
  let? pids := call_out snapshot_pids in
  let! _ := fold_snapshot pids in
  ret (Ok tt).

(** ** Health *)

Definition report_runtime_health (state : HealthState) (readiness : ReadinessReport)
    (injection : InjectionTelemetry) (last_error : option StructuredServiceError)
    : M (Driver * W) (result unit StructuredServiceError) :=
  let! r := call_out (report_health state readiness injection last_error) in
  match r with
  | Ok _ => let! _ := update_driver (set_failures 0) in ret (Ok tt)
  | Err error =>
      let! _ := update_driver (λ d, set_failures (consecutive_failures d + 1) d) in
      let! d := driver in
      if (MAX_TOLERATED_CONSECUTIVE_HEALTH_REPORT_FAILURES <? consecutive_failures d)%N
      then ret (Err error) else ret (Ok tt)
  end.

(** ** Recovery of a lost subscription *)

Definition observer_failed : ReadinessReport :=
  mk_readiness ReadinessReady ReadinessFailed ReadinessReady ReadinessReady.

(** [scheduler.wait(delay)] answers no, or a stop was requested meanwhile. *)
Definition stopped_while_waiting (delay : N) : M (Driver * W) bool :=
  let! proceed := call_out (scheduler_wait delay) in
  if negb proceed then ret true else call_out stop_requested.

Fixpoint recovery_loop (left : nat) (delay : N) (latest_error : StructuredServiceError)
    (injection : InjectionTelemetry)
    : M (Driver * W) (result ObserverRecovery StructuredServiceError) :=
  match left with
  | O =>
      let? _ := report_runtime_health HealthFailed observer_failed injection (Some latest_error) in
      ret (Err latest_error)
  | S left' =>
      let! stopped := stopped_while_waiting delay in
      if stopped : bool then ret (Ok RecoveryStopped)
      else
        let! r := resubscribe in
        match r with
        | Ok _ =>
            let? _ := report_runtime_health HealthReady readiness_ready injection None in
            ret (Ok Resubscribed)
        | Err error =>
            let! d := driver in
            recovery_loop left'
              (N.min (duration_saturating_mul delay 2) (recovery_max_delay (recovery d)))
              error injection
        end
  end.

Definition recover_observer (error : StructuredServiceError) (injection : InjectionTelemetry)
    : M (Driver * W) (result ObserverRecovery StructuredServiceError) :=
  let? _ := report_runtime_health HealthDegraded observer_failed injection (Some error) in
  let! d := driver in
  recovery_loop (N.to_nat (recovery_max_attempts (recovery d)))
    (recovery_initial_delay (recovery d)) error injection.

(** ** The loop *)

(** [while let Some(change) = stop.take_session_change()]: [fuel] bounds the
    changes taken in one pass; [None] stands for a queue that is refilled faster
    than it is drained. *)
Fixpoint drain_session_changes (fuel : nat) : M (Driver * W) unit :=
  match fuel with
  | O => no_answer
  | S fuel' =>
      let! change := call_out take_session_change in
      match change with
      | None => ret tt
      | Some c =>
          let! _ := update_driver (λ d,
            set_orchestrator (handle_session_change c (orchestrator d)) d) in
          drain_session_changes fuel'
      end
  end.

Definition handle_pid (p : N) : M (Driver * W) (result ProcessOutcome StructuredServiceError) :=
  let! now := call_out instant_now in with_orchestrator (handle_pid_at p now).

(** The PID to handle next, and whether the live source announced it. *)
Definition next_target : M (Driver * W) (flow (N * bool)) :=
  let! d := driver in
  let! next := call_out (next_pid (match backlog d with [] => from_millis 250 | _ => 0 end)) in
  match next with
  | Ok (Some p) => ret (Proceed (p, true))
  | Ok None =>
      match backlog d with
      | p :: rest => let! _ := update_driver (set_backlog rest) in ret (Proceed (p, false))
      | [] => ret Continue
      end
  | Err error =>
      let! r := recover_observer error (injection_telemetry (orchestrator d)) in
      match r with
      | Ok Resubscribed => ret Continue
      | Ok RecoveryStopped => ret (Return (Ok tt))
      | Err error => ret (Return (Err error))
      end
  end.

Definition sampled_handle_pid (p : N) (announced : bool)
    : M (Driver * W) (result ProcessOutcome StructuredServiceError) :=
  let! started := call_out instant_now in
  let! handling_began :=
    (if announced then
       let! since := call_out unix_time in
       ret (match since with Some t => filetime_from_unix_epoch t | None => None end)
     else ret None) in
  let! outcome := handle_pid p in
  let! d := driver in
  let age :=
    match handling_began, last_handled_creation_time (orchestrator d) with
    | Some now, Some created => filetime_age_millis now created
    | _, _ => None
    end in
  let! ended := call_out instant_now in
  let! _ := call_out (λ w, (tt, record_event (InjectionPipelineSample
    (default U64_MAX (try_u64 ((ended - started) / 1000000))) (length (backlog d)) age) w)) in
  ret outcome.

(** [?] on a health report inside the loop. *)
Definition report_or_return (state : HealthState) (last_error : option StructuredServiceError)
    : M (Driver * W) (flow unit) :=
  let! d := driver in
  let! r := report_runtime_health state readiness_ready (injection_telemetry (orchestrator d))
              last_error in
  match r with Ok _ => ret (Proceed tt) | Err error => ret (Return (Err error)) end.

Definition settle_outcome (outcome : result ProcessOutcome StructuredServiceError)
    : M (Driver * W) (flow unit) :=
  match outcome with
  | Ok OutcomeInjected => report_or_return HealthReady None
  | Ok (OutcomeRejected | OutcomeRetryExhausted) =>
      let! d := driver in
      match generation_health_error (orchestrator d) with
      | Some error => report_or_return HealthDegraded (Some error)
      | None => ret (Proceed tt)
      end
  | Ok OutcomeCancelled => ret (Return (Ok tt))
  | Ok _ => ret (Proceed tt)
  | Err error => report_or_return HealthDegraded (Some error)
  end.

(** The target of this pass when no deferred target settled first. *)
Definition handle_next : M (Driver * W) (flow (result ProcessOutcome StructuredServiceError)) :=
  let! target := next_target in
  match target with
  | Continue => ret Continue
  | Return r => ret (Return r)
  | Proceed (p, announced) =>
      let! outcome := sampled_handle_pid p announced in ret (Proceed outcome)
  end.

(** One pass of the loop; [Some r] when it returns [r]. *)
Definition driver_round (fuel : nat)
    : M (Driver * W) (option (result unit StructuredServiceError)) :=
  let! stop := call_out (wait_timeout 0) in
  match stop with
  | Err error => ret (Some (Err error))
  | Ok true => ret (Some (Ok tt))
  | Ok false =>
      let! _ := drain_session_changes fuel in
      let! _ := call_out (λ w, (tt, record_event FlushInjectionSummary w)) in
      let! now := call_out instant_now in
      let! due := with_orchestrator (poll_deferred now) in
      let! outcome :=
        match due with
        | Ok (Some OutcomeDeferred) | Ok None => handle_next
        | Ok (Some outcome) => ret (Proceed (Ok outcome))
        | Err error => ret (Proceed (Err error))
        end in
      match outcome with
      | Continue => ret None
      | Return r => ret (Some r)
      | Proceed outcome =>
          let! settled := settle_outcome outcome in
          match settled with Return r => ret (Some r) | _ => ret None end
      end
  end.

(** [rounds] passes of the loop; [None] when the service is still running. *)
Fixpoint run_rounds (rounds fuel : nat)
    : M (Driver * W) (option (result unit StructuredServiceError)) :=
  match rounds with
  | O => ret None
  | S rounds' =>
      let! r := driver_round fuel in
      match r with
      | Some result => ret (Some result)
      | None => run_rounds rounds' fuel
      end
  end.

(** ** Start *)

Record InitializedRuntime := {
  runtime_profile_digest : option string;
  runtime_readiness : ReadinessReport;
  runtime_driver : option Driver
}.

Definition initialize_process_orchestration (digest : option string)
    (policy : ObserverRecoveryPolicy) (service_pid : N) (generation_id : string) (w : W)
    : result InitializedRuntime StructuredServiceError * W :=
  match digest with
  | None => (Err (service_error "active-profile-unavailable"
               "process orchestration requires an active protected profile"), w)
  | Some profile_digest =>
      let '(ready86, w) := verify_ready X86 w in
      match ready86 with
      | Err e => (Err e, w)
      | Ok _ =>
          let '(ready64, w) := verify_ready X64 w in
          match ready64 with
          | Err e => (Err e, w)
          | Ok _ =>
              let '(subscribed, w) := subscribe PROCESS_CREATION_QUERY w in
              match subscribed with
              | Err e => (Err e, w)
              | Ok _ =>
                  let '(snapshot, w) := snapshot_pids w in
                  match snapshot with
                  | Err e => (Err e, w)
                  | Ok pids =>
                      let '(ordered, w) := relay_roots_first pids w in
                      (Ok {| runtime_profile_digest := digest;
                             runtime_readiness := readiness_ready;
                             runtime_driver := Some (mk_driver
                               (with_runtime_context service_pid generation_id profile_digest
                                  default_retry_policy) 0 ordered policy) |}, w)
                  end
              end
          end
      end
  end.

(** ** The driver keeps to the orchestrator's operations *)

Definition any_world (w w' : W) : Prop := True.

(** From [s] to [s'] the driver only took steps of the orchestrator, and its
    recovery policy is what it was. *)
Definition advanced (s s' : Driver * W) : Prop :=
  rtc (orch_step any_world) (orchestrator s.1, s.2) (orchestrator s'.1, s'.2) ∧
  recovery s'.1 = recovery s.1.

Lemma advanced_refl s : advanced s s.
Proof. split; [apply rtc_refl|done]. Qed.

Lemma advanced_trans s1 s2 s3 : advanced s1 s2 → advanced s2 s3 → advanced s1 s3.
Proof. intros [Ha Ea] [Hb Eb]. split; [by etrans|congruence]. Qed.

Lemma advanced_wf s s' : advanced s s' → orch_wf (orchestrator s.1) → orch_wf (orchestrator s'.1).
Proof. intros [Hs _] Hwf. exact (proj1 (orch_steps_wf _ _ _ Hs Hwf)). Qed.

(** A running driver: sound bookkeeping, and the health channel has not failed
    more often in a row than is tolerated. *)
Definition healthy (d : Driver) : Prop :=
  orch_wf (orchestrator d) ∧
  (consecutive_failures d <= MAX_TOLERATED_CONSECUTIVE_HEALTH_REPORT_FAILURES)%N.

(** Run from a healthy driver [m] answers; it only advances the driver, and
    unless the answer ends the service, by [ongoing], the driver is healthy. *)
Definition runs {A : Type} (m : M (Driver * W) A) (ongoing : A → bool) : Prop :=
  ∀ s, healthy s.1 →
    wp m (λ a s', advanced s s' ∧ (ongoing a = true → healthy s'.1)) s.

Definition always {A : Type} (_ : A) : bool := true.

Lemma runs_bind {A B} (m : M (Driver * W) A) (k : A → M (Driver * W) B) ongoing ongoing' :
  runs m ongoing → (∀ a, ongoing a = true → runs (k a) ongoing') →
  (∀ a, ongoing a = false → ∃ b, k a = ret b ∧ ongoing' b = false) →
  runs (bind m k) ongoing'.
Proof.
  intros Hm Hk Hend s Hs. apply wp_bind. eapply wp_mono; [by apply Hm|].
  intros a s' [Ha Hok]. destruct (ongoing a) eqn:E.
  - eapply wp_mono; [by apply (Hk a E), Hok|]. intros b s'' [Hb ?].
    split; [by eapply advanced_trans|done].
  - destruct (Hend a E) as (b & -> & Hb). apply wp_ret. rewrite Hb. by split.
Qed.

Lemma runs_ret {A} (a : A) ongoing : runs (ret a) ongoing.
Proof. intros s Hs. apply wp_ret. split; [apply advanced_refl|done]. Qed.

Lemma runs_weaken {A} (m : M (Driver * W) A) ongoing : runs m always → runs m ongoing.
Proof. intros Hm s Hs. eapply wp_mono; [by apply Hm|]. intros a s' [? Hh]. split; auto. Qed.

Lemma runs_seq {A B} (m : M (Driver * W) A) (k : A → M (Driver * W) B) ongoing :
  runs m always → (∀ a, runs (k a) ongoing) → runs (bind m k) ongoing.
Proof. intros Hm Hk. apply (runs_bind _ _ always); auto. done. Qed.

Lemma runs_driver : runs driver always.
Proof. intros s Hs. apply wp_gets. split; [apply advanced_refl|done]. Qed.

Lemma runs_call_out {A} (f : W → A * W) : runs (call_out f) always.
Proof.
  intros [d w] Hs. unfold wp, call_out. simpl. destruct (f w) as [a w'].
  split; [|done]. split; [|done]. by apply rtc_once, step_world.
Qed.

Lemma runs_set_backlog f : runs (update_driver (λ d, set_backlog (f d) d)) always.
Proof. intros [d w] Hs. apply wp_modify. split; [split; [apply rtc_refl|done]|done]. Qed.

Lemma runs_session c :
  runs (update_driver (λ d, set_orchestrator (handle_session_change c (orchestrator d)) d)) always.
Proof.
  intros [d w] [Hwf Hf]. apply wp_modify. split.
  - split; [|done]. by apply rtc_once, step_session.
  - intros _. split; [|done]. by apply handle_session_change_spec.
Qed.

Lemma runs_with_orchestrator {A} (m : M (InjectionOrchestrator * W) A) :
  (∀ o w, orch_wf o → wp m (λ _ s', orch_step any_world (o, w) s' ∧ orch_wf s'.1) (o, w)) →
  runs (with_orchestrator m) always.
Proof.
  intros Hm [d w] [Hwf Hf]. specialize (Hm (orchestrator d) w Hwf).
  destruct (wp_run _ _ _ Hm) as (a & [o w'] & E & Hs & Hwf').
  unfold wp, with_orchestrator. simpl. rewrite E. split; [|done].
  split; [|done]. by apply rtc_once.
Qed.

Lemma runs_poll now : runs (with_orchestrator (poll_deferred now)) always.
Proof.
  apply runs_with_orchestrator. intros o w Hwf.
  destruct (wp_run _ _ _ (poll_deferred_spec o w now Hwf)) as (r & s & E & Hwf' & _).
  unfold wp. rewrite E. split; [by eapply step_poll|done].
Qed.

Lemma runs_handle_pid p : runs (handle_pid p) always.
Proof.
  apply runs_seq; [apply runs_call_out|]. intros now. apply runs_with_orchestrator.
  intros o w Hwf. destruct (wp_run _ _ _ (handle_pid_at_spec o w p now Hwf)) as (r & s & E & Hwf' & _).
  unfold wp. rewrite E. split; [by eapply step_handle|done].
Qed.

Ltac runs_step :=
  lazymatch goal with
  | |- runs (bind _ _) _ => apply runs_seq; [|intros ?]
  | |- runs (ret _) _ => apply runs_ret
  | |- runs driver _ => apply runs_driver
  | |- runs (call_out _) _ => apply runs_call_out
  | |- runs (update_driver (set_backlog _)) _ => apply (runs_set_backlog (λ _, _))
  | |- runs (match ?x with _ => _ end) _ => destruct x
  end; cbv beta.

Lemma runs_fold_snapshot pids : runs (fold_snapshot pids) always.
Proof. induction pids as [|p pids IH]; simpl; repeat first [exact IH|runs_step]. Qed.

Lemma runs_resubscribe : runs resubscribe always.
Proof. unfold resubscribe. repeat first [apply runs_fold_snapshot|runs_step]. Qed.

Lemma report_runtime_health_eq state readiness injection e d w :
  report_runtime_health state readiness injection e (d, w) =
    let '(r, w') := report_health state readiness injection e w in
    match r with
    | Ok _ => Some (Ok tt, (set_failures 0 d, w'))
    | Err error =>
        let d' := set_failures (consecutive_failures d + 1) d in
        if (consecutive_failures d <? 20)%N then Some (Ok tt, (d', w')) else Some (Err error, (d', w'))
    end.
Proof.
  unfold report_runtime_health, bind, call_out, update_driver, modify, driver, gets. simpl.
  destruct (report_health _ _ _ _ w) as [[[]|err] w']; [done|]. simpl.
  unfold MAX_TOLERATED_CONSECUTIVE_HEALTH_REPORT_FAILURES.
  destruct (N.ltb_spec (consecutive_failures d) 20), (N.ltb_spec 20 (consecutive_failures d + 1));
    try done; lia.
Qed.

(** A health report ends the service only when it fails and the channel had
    already failed as often as is tolerated. *)
Lemma runs_report state readiness injection e :
  runs (report_runtime_health state readiness injection e) is_ok.
Proof.
  intros [d w] [Hwf Hf]. unfold wp. rewrite report_runtime_health_eq. simpl in *.
  destruct (report_health state readiness injection e w) as [[[]|err] w'].
  - split; [|done]. split; [|done]. by apply rtc_once, step_world.
  - destruct (N.ltb_spec (consecutive_failures d) 20); (split; [|intros Hok]); try done;
      try (split; [by apply rtc_once, step_world|done]).
    split; [done|]. simpl. unfold MAX_TOLERATED_CONSECUTIVE_HEALTH_REPORT_FAILURES. lia.
Qed.

Lemma runs_recovery_loop left delay e injection :
  runs (recovery_loop left delay e injection) is_ok.
Proof.
  revert delay e. induction left as [|left IH]; intros delay e; simpl.
  - apply (runs_bind _ _ is_ok); [apply runs_report| |].
    + intros [] [=]; apply runs_ret.
    + intros [] [=]. eexists; split; [done|done].
  - apply runs_seq; [unfold stopped_while_waiting; repeat runs_step|]. intros [].
    { apply runs_ret. }
    apply runs_seq; [apply runs_resubscribe|]. intros [[]|err].
    + apply (runs_bind _ _ is_ok); [apply runs_report| |].
      * intros [] [=]; apply runs_ret.
      * intros [] [=]. eexists; split; [done|done].
    + apply runs_seq; [apply runs_driver|]. intros ?. apply IH.
Qed.

Lemma runs_recover e injection : runs (recover_observer e injection) is_ok.
Proof.
  apply (runs_bind _ _ is_ok); [apply runs_report| |].
  - intros [] [=]. apply runs_seq; [apply runs_driver|]. intros d. apply runs_recovery_loop.
  - intros [] [=]. eexists; split; [done|done].
Qed.

(** Neither [Return] nor a returned result keeps the loop going. *)
Definition flows {A : Type} (f : flow A) : bool := match f with Return _ => false | _ => true end.
Definition goes_on (r : option (result unit StructuredServiceError)) : bool :=
  match r with None => true | Some _ => false end.

Lemma runs_next_target : runs next_target flows.
Proof.
  unfold next_target. apply runs_seq; [apply runs_driver|]. intros d.
  apply runs_seq; [apply runs_call_out|]. intros [[p|]|e]; [apply runs_ret|destruct (backlog d)|].
  - apply runs_ret.
  - apply runs_seq; [apply (runs_set_backlog (λ _, _))|]. intros ?. apply runs_ret.
  - apply (runs_bind _ _ is_ok); [apply runs_recover| |].
    + intros [[]|] [=]; apply runs_ret.
    + intros [] [=]. eexists; split; [done|done].
Qed.

Lemma runs_sampled p announced : runs (sampled_handle_pid p announced) always.
Proof. unfold sampled_handle_pid. repeat first [apply runs_handle_pid|runs_step]. Qed.

Lemma runs_handle_next : runs handle_next flows.
Proof.
  apply (runs_bind _ _ flows); [apply runs_next_target| |].
  - intros [[p announced]| |] [=]; [|apply runs_ret].
    apply runs_seq; [apply runs_sampled|]. intros ?. apply runs_ret.
  - intros [] [=]. eexists; split; [done|done].
Qed.

Lemma runs_report_or_return state e : runs (report_or_return state e) flows.
Proof.
  apply runs_seq; [apply runs_driver|]. intros d. apply (runs_bind _ _ is_ok); [apply runs_report| |].
  - intros [] [=]. apply runs_ret.
  - intros [] [=]. eexists; split; [done|done].
Qed.

Lemma runs_settle outcome : runs (settle_outcome outcome) flows.
Proof.
  unfold settle_outcome. destruct outcome as [[]|e]; try apply runs_ret;
    try apply runs_report_or_return;
    (apply runs_seq; [apply runs_driver|]; intros d; destruct (generation_health_error _);
     [apply runs_report_or_return|apply runs_ret]).
Qed.

(** The pass after the session changes have been taken. *)
Lemma runs_after_drain :
  runs (let! _ := call_out (λ w, (tt, record_event FlushInjectionSummary w)) in
      let! now := call_out instant_now in
      let! due := with_orchestrator (poll_deferred now) in
      let! outcome :=
        match due with
        | Ok (Some OutcomeDeferred) | Ok None => handle_next
        | Ok (Some outcome) => ret (Proceed (Ok outcome))
        | Err error => ret (Proceed (Err error))
        end in
      match outcome with
      | Continue => ret None
      | Return r => ret (Some r)
      | Proceed outcome =>
          let! settled := settle_outcome outcome in
          match settled with Return r => ret (Some r) | _ => ret None end
      end) goes_on.
Proof.
  do 2 (apply runs_seq; [apply runs_call_out|]; intros ?).
  apply runs_seq; [apply runs_poll|]. intros due. apply (runs_bind _ _ flows).
  - destruct due as [[[]|]|e]; try apply runs_handle_next; apply runs_ret.
  - intros [outcome| |] [=]; [|apply runs_ret]. apply (runs_bind _ _ flows); [apply runs_settle| |].
    + intros [] [=]; apply runs_ret.
    + intros [] [=]. eexists; split; [done|done].
  - intros [] [=]. eexists; split; [done|done].
Qed.

(** The source of session changes runs dry within [fuel] requests. *)
Fixpoint dries_up (fuel : nat) (w : W) : Prop :=
  match fuel with
  | O => False
  | S fuel' =>
      match take_session_change w with
      | (None, _) => True
      | (Some _, w') => dries_up fuel' w'
      end
  end.

Lemma drain_spec fuel s :
  healthy s.1 → dries_up fuel s.2 →
  wp (drain_session_changes fuel) (λ _ s', advanced s s' ∧ healthy s'.1) s.
Proof.
  revert s. induction fuel as [|fuel IH]; intros [d w] Hs Hdry; [done|]. simpl in *.
  apply wp_bind. unfold wp at 1, call_out. simpl. destruct (take_session_change w) as [[c|] w'].
  - destruct (runs_session c (d, w') Hs) as [Hadv Hh]. specialize (Hh eq_refl).
    apply wp_bind. unfold update_driver at 1. wp_step. eapply wp_mono; [by apply IH|].
    intros _ s2 [Hadv2 ?]. split; [|done]. eapply advanced_trans; [|exact Hadv2].
    eapply advanced_trans; [|exact Hadv]. split; [|done]. by apply rtc_once, step_world.
  - apply wp_ret. split; [|done]. split; [|done]. by apply rtc_once, step_world.
Qed.

Lemma drain_dries_up fuel s r : drain_session_changes fuel s = Some r → dries_up fuel s.2.
Proof.
  revert s r. induction fuel as [|fuel IH]; intros [d w] r; [done|]. simpl. unfold bind at 1, call_out.
  simpl. destruct (take_session_change w) as [[c|] w']; [|done].
  unfold bind, update_driver, modify. cbn [fst snd]. intros E. exact (IH _ _ E).
Qed.

Lemma driver_round_spec fuel s :
  healthy s.1 → dries_up fuel (snd (wait_timeout 0 s.2)) →
  wp (driver_round fuel) (λ r s', advanced s s' ∧ (goes_on r = true → healthy s'.1)) s.
Proof.
  destruct s as [d w]. simpl. intros Hd Hdry. unfold driver_round. apply wp_bind.
  unfold wp at 1, call_out. simpl. destruct (wait_timeout 0 w) as [stop w1] eqn:Ew. simpl in Hdry.
  assert (advanced (d, w) (d, w1)) as Hadv by (split; [by apply rtc_once, step_world|done]).
  destruct stop as [[]|e]; try (apply wp_ret; by split).
  apply wp_bind. eapply wp_mono; [by apply drain_spec|]. intros [] s1 [Hadv1 Hh1].
  eapply wp_mono; [by apply runs_after_drain|]. intros r s2 [Hadv2 ?]. split; [|done].
  eapply advanced_trans; [exact Hadv|]. by eapply advanced_trans.
Qed.

Lemma driver_round_partial fuel s r s' :
  healthy s.1 → driver_round fuel s = Some (r, s') →
  advanced s s' ∧ (goes_on r = true → healthy s'.1).
Proof.
  intros Hh E. destruct (wait_timeout 0 s.2) as [stop w1] eqn:Ew.
  assert (dries_up fuel w1 ∨ stop ≠ Ok false) as [Hdry|Hstop].
  { destruct stop as [[]|]; [by right| |by right]. left. destruct s as [d w].
    unfold driver_round, bind at 1, call_out in E. simpl in *. rewrite Ew in E.
    unfold bind at 1 in E. destruct (drain_session_changes fuel (d, w1)) as [x|] eqn:Ed; [|done].
    exact (drain_dries_up _ _ _ Ed). }
  - refine (wp_elim _ _ _ _ _ (driver_round_spec fuel s Hh _) E). by rewrite Ew.
  - destruct s as [d w]. unfold driver_round, bind at 1, call_out in E. simpl in *. rewrite Ew in E.
    assert (advanced (d, w) (d, w1)) as Hadv by (split; [by apply rtc_once, step_world|done]).
    destruct stop as [[]|e]; [|done|]; unfold ret in E; simplify_eq/=; by split.
Qed.

Lemma run_rounds_spec rounds fuel s r s' :
  healthy s.1 → run_rounds rounds fuel s = Some (r, s') →
  advanced s s' ∧ (goes_on r = true → healthy s'.1).
Proof.
  revert s. induction rounds as [|rounds IH]; intros s Hh; simpl.
  - unfold ret. intros [= <- <-]. split; [apply advanced_refl|done].
  - unfold bind. destruct (driver_round fuel s) as [[r1 s1]|] eqn:E; [|done].
    destruct (driver_round_partial _ _ _ _ Hh E) as [Hadv Hok]. destruct r1 as [r1|].
    + unfold ret. intros [= <- <-]. by split.
    + intros E2. destruct (IH s1 (Hok eq_refl) E2) as [Hadv2 ?]. split; [|done].
      by eapply advanced_trans.
Qed.

(** One pass of the service loop never panics or spins and leaves a sound
    service: from a healthy driver, and as long as the queue of session changes
    runs dry, the pass ends; the injection orchestrator only moved along its own
    operations; and unless the pass returned, the driver is healthy again - its
    bookkeeping is well formed and at most 20 health reports in a row have failed. *)
Theorem driver_round_sound fuel d w :
  healthy d → dries_up fuel (snd (wait_timeout 0 w)) →
  ∃ r d' w', driver_round fuel (d, w) = Some (r, (d', w')) ∧
    rtc (orch_step any_world) (orchestrator d, w) (orchestrator d', w') ∧
    recovery d' = recovery d ∧ (r = None → healthy d').
Proof.
  intros Hd Hdry.
  destruct (wp_run _ _ _ (driver_round_spec fuel (d, w) Hd Hdry))
    as (r & [d' w'] & E & [Hs Hrec] & Hh).
  exists r, d', w'. split_and!; try done. intros ->. by apply Hh.
Qed.

(** From the start on, whatever the machine answers: once the orchestration has
    been initialised with an active profile, verified helpers and a subscription,
    every state the loop reaches belongs to that profile and generation, its history
    and deferral queue stay within their bounds, and while the service is running the
    health channel has not failed more than 20 times in a row. *)
Theorem running_service_sound digest policy p g w0 rt d w rounds fuel r d' w' :
  initialize_process_orchestration digest policy p g w0 = (Ok rt, w) →
  runtime_driver rt = Some d →
  run_rounds rounds fuel (d, w) = Some (r, (d', w')) →
  orch_wf (orchestrator d') ∧ generation_id (orchestrator d') = g ∧
  profile_digest (orchestrator d') = digest ∧ is_Some digest ∧
  (r = None → (consecutive_failures d' <= 20)%N).
Proof.
  intros Hinit Hd Hrun.
  assert (∃ dg, digest = Some dg ∧ healthy d ∧
    orchestrator d = with_runtime_context p g dg default_retry_policy)
    as (dg & -> & Hh & Ho).
  { unfold initialize_process_orchestration in Hinit.
    repeat (case_match; simplify_eq/=). eexists. split; [done|]. split; [|done].
    split; [apply orch_wf_with_runtime_context|]. simpl. done. }
  destruct (run_rounds_spec _ _ (_, _) _ (_, _) Hh Hrun) as [[Hs _] Hok].
  destruct (orch_steps_wf _ _ _ Hs (proj1 Hh)) as [Hwf Hsb]. simpl in *.
  rewrite (sb_generation _ _ Hsb), (sb_digest _ _ Hsb), Ho. split_and!; try done.
  intros ->. by apply Hok.
Qed.

(** The health channel is allowed to fail: a report fails the service exactly
    when it fails itself and twenty reports in a row have failed before it; a
    successful report clears the count, and the error returned is the one of the
    last report. *)
Theorem health_failures_tolerated state readiness injection e d w :
  report_runtime_health state readiness injection e (d, w) =
    let '(r, w') := report_health state readiness injection e w in
    match r with
    | Ok _ => Some (Ok tt, (set_failures 0 d, w'))
    | Err error =>
        let d' := set_failures (consecutive_failures d + 1) d in
        if (consecutive_failures d <? 20)%N then Some (Ok tt, (d', w')) else Some (Err error, (d', w'))
    end.
Proof. apply report_runtime_health_eq. Qed.

(** ** The backlog *)

(** The names the inspector answers for [pids], asked one after the other. *)
Fixpoint names_in_turn (pids : list N) (w : W) : list (option string) :=
  match pids with
  | [] => []
  | p :: pids' => let '(name, w) := image_name_for_ordering p w in name :: names_in_turn pids' w
  end.

(** The PIDs whose name in [names] is, or is not, the one of a relay root. *)
Definition pids_named (root : bool) (pids : list N) (names : list (option string)) : list N :=
  (filter (λ x, is_relay_root_name x.2 = root) (zip pids names)).*1.

Lemma partition_roots_spec pids w roots rest w' :
  partition_roots pids w = (roots, rest, w') →
  roots = pids_named true pids (names_in_turn pids w) ∧
  rest = pids_named false pids (names_in_turn pids w) ∧ roots ++ rest ≡ₚ pids.
Proof.
  unfold pids_named. revert w roots rest w'.
  induction pids as [|p pids IH]; intros w roots rest w'; simpl.
  { by intros [= <- <- <-]. }
  destruct (image_name_for_ordering p w) as [name w1]. destruct (partition_roots pids w1)
    as [[roots1 rest1] w2] eqn:E. destruct (IH _ _ _ _ E) as (Hr & Hs & Hp). simpl.
  destruct (is_relay_root_name name) eqn:En; intros [= <- <- <-].
  - rewrite filter_cons_True, filter_cons_False by (cbn [snd]; by rewrite En).
    rewrite fmap_cons, <- Hr, <- Hs. split_and!; try done. simpl. by rewrite Hp.
  - rewrite filter_cons_False, filter_cons_True by (cbn [snd]; by rewrite En).
    rewrite fmap_cons, <- Hr, <- Hs. split_and!; try done. by rewrite <- Permutation_middle, Hp.
Qed.

(** Ordering the backlog loses and invents nothing: the relay roots, by the
    name the inspector answers for every PID in turn, come first and the rest after
    them, each group in the order of the snapshot; the result is a permutation of
    the snapshot. *)
Theorem relay_roots_first_stable pids w :
  fst (relay_roots_first pids w) =
    pids_named true pids (names_in_turn pids w) ++ pids_named false pids (names_in_turn pids w) ∧
  fst (relay_roots_first pids w) ≡ₚ pids.
Proof.
  unfold relay_roots_first. destruct (partition_roots pids w) as [[roots rest] w'] eqn:E.
  by destruct (partition_roots_spec _ _ _ _ _ E) as (-> & -> & ?).
Qed.

(** In some state of the machine [p] was, or was not, named like a relay root. *)
Definition seen_as_root (root : bool) (p : N) : Prop :=
  ∃ w, is_relay_root_name (fst (image_name_for_ordering p w)) = root.

Lemma fold_snapshot_spec pids s :
  wp (fold_snapshot pids) (λ _ s',
    (∀ p, p ∈ backlog s'.1 ↔ p ∈ backlog s.1 ∨ p ∈ pids) ∧
    (∃ roots rest, backlog s'.1 = roots ++ backlog s.1 ++ rest ∧
       Forall (seen_as_root true) roots ∧ Forall (seen_as_root false) rest) ∧
    (NoDup (backlog s.1) → NoDup (backlog s'.1)) ∧
    orchestrator s'.1 = orchestrator s.1) s.
Proof.
  revert s. induction pids as [|p pids IH]; intros [d w]; simpl.
  { apply wp_ret. split_and!; [set_solver|exists [], []; by rewrite app_nil_r|done|done]. }
  unfold driver. wp_step; wp_step. cbn [fst]. case_bool_decide as Hin.
  { eapply wp_mono; [apply IH|]. intros _ s' (Hp & ?). split; [|done]. intros q. rewrite Hp. simpl.
    set_solver. }
  wp_step. unfold wp at 1, call_out. simpl. destruct (image_name_for_ordering p w) as [name w1] eqn:En.
  wp_step. unfold update_driver. wp_step. cbn [fst snd].
  assert (seen_as_root (is_relay_root_name name) p) as Hseen by (exists w; by rewrite En).
  eapply wp_mono; [apply IH|]. intros _ s' (Hp & (roots & rest & Hb & Hro & Hre) & Hnd & Ho).
  simpl in *. destruct (is_relay_root_name name) eqn:E; split_and!; try done.
  - intros q. rewrite Hp. set_solver.
  - exists (roots ++ [p]), rest. rewrite Hb, <- app_assoc. split_and!; try done.
    apply Forall_app. split; [done|]. by repeat constructor.
  - intros Hd. apply Hnd. by apply NoDup_cons.
  - intros q. rewrite Hp. set_solver.
  - exists roots, (p :: rest). rewrite Hb, <- app_assoc. split_and!; try done. by constructor.
  - intros Hd. apply Hnd. apply NoDup_app. split_and!; [done|set_solver|apply NoDup_singleton].
Qed.

(** A recovered subscription misses no target: taking the subscription again
    either fails and leaves the backlog alone, or ends with a backlog that holds
    exactly the PIDs it held before and the PIDs running now, each at most once; the
    old backlog stays in one piece and in order, the new relay roots in front of it
    and every other new PID behind. *)
Theorem resubscribe_misses_nothing d w :
  match resubscribe (d, w) with
  | None => False
  | Some (Err _, (d', _)) => d' = d
  | Some (Ok _, (d', _)) =>
      let '(_, w1) := subscribe PROCESS_CREATION_QUERY w in
      ∃ pids, fst (snapshot_pids w1) = Ok pids ∧
        (∀ p, p ∈ backlog d' ↔ p ∈ backlog d ∨ p ∈ pids) ∧
        (∃ roots rest, backlog d' = roots ++ backlog d ++ rest ∧
           Forall (seen_as_root true) roots ∧ Forall (seen_as_root false) rest) ∧
        (NoDup (backlog d) → NoDup (backlog d')) ∧ orchestrator d' = orchestrator d
  end.
Proof.
  unfold resubscribe, bind, call_out, ret. simpl.
  destruct (subscribe PROCESS_CREATION_QUERY w) as [[[]|e] w1]; [|done]. cbn [fst snd].
  destruct (snapshot_pids w1) as [[pids|e] w2]; [|done].
  pose proof (fold_snapshot_spec pids (d, w2)) as Hf. unfold wp in Hf.
  destruct (fold_snapshot pids (d, w2)) as [[[] [d' w3]]|]; [|done]. simpl in *. by exists pids.
Qed.

(** How a failed wait for the stop event ends the service depends on where the loop
    meets it: at the top of a pass the error is returned, and the service reports it;
    in a pause of the observer's recovery, after the lost subscription was reported as
    degraded, the same error counts as a stop ([matches!(_, Ok(false))] in the
    scheduler), so the loop returns [Ok], no later recovery is attempted and the
    service ends as if it had been stopped. *)
Theorem failed_wait_ends_the_loop fuel d w w1 w2 w3 e e' :
  next_pid (match backlog d with [] => from_millis 250 | _ => 0 end) w = (Err e, w1) →
  report_health HealthDegraded observer_failed (injection_telemetry (orchestrator d)) (Some e) w1 =
    (Ok tt, w2) →
  recovery_max_attempts (recovery d) ≠ 0%N →
  wait_timeout (recovery_initial_delay (recovery d)) w2 = (Err e', w3) →
  next_target (d, w) = Some (Return (Ok tt), (set_failures 0 d, w3)) ∧
  ∀ wa wb, wait_timeout 0 wa = (Err e', wb) →
    driver_round fuel (d, wa) = Some (Some (Err e'), (d, wb)).
Proof.
  intros Hn Hr Hm Hw. split.
  - unfold next_target, bind at 1, driver, gets. cbn [fst snd].
    unfold bind at 1, call_out. cbn [fst snd]. rewrite Hn. unfold recover_observer, bind at 1 2.
    rewrite report_runtime_health_eq, Hr. unfold driver, bind, gets. cbn [fst snd].
    change (recovery (set_failures 0 d)) with (recovery d).
    destruct (N.to_nat (recovery_max_attempts (recovery d))) eqn:E; [lia|]. simpl.
    unfold bind, stopped_while_waiting, bind, call_out. simpl. by rewrite Hw.
  - intros wa wb Ht. unfold driver_round, bind at 1, call_out at 1. cbn [fst snd]. by rewrite Ht.
Qed.
End Driver.

(** ** The driver in a scripted world *)

Definition example_report (state : HealthState) (r : ReadinessReport) (t : InjectionTelemetry)
    (e : option StructuredServiceError) (s : Script) : result unit StructuredServiceError * Script :=
  let '(a, s) := publish {| protocol_version := 1; service_version := "1"; health := state;
    active_profile_digest := None; readiness := r; injection := t; last_error := e |} s in
  (map_err (λ i, service_error "health-publish-failed" (io_message i)) a, s).

Definition example_host_script : Script :=
  mk_host_script [Ok example_process] [LifecycleRunning] [] [] [] [Ok (Some 42%N)] [[7; 100]%N]
    [Ok false; Ok false] [session_change_overflow] [].

Definition example_started : Driver * Script :=
  match initialize_process_orchestration (Some "d"%string) default_observer_recovery 4 "g"
          example_host_script with
  | (Ok {| runtime_driver := Some d |}, s) => (d, s)
  | (_, s) => (mk_driver example_orchestrator 0 [] default_observer_recovery, s)
  end.

Lemma driver_round_sound_witness :
  backlog example_started.1 = [100; 7]%N ∧
  ∃ r d' w', driver_round example_report 2 (example_started.1, example_started.2) = Some (r, (d', w')) ∧
    rtc (orch_step (any_world (W := Script)) (H1 := StopRetryScheduler))
      (orchestrator example_started.1, example_started.2) (orchestrator d', w') ∧
    recovery d' = default_observer_recovery ∧ (r = None → healthy d').
Proof.
  split; [vm_compute; reflexivity|].
  apply (driver_round_sound example_report 2 example_started.1 example_started.2).
  - split; [apply orch_wf_with_runtime_context|vm_compute; discriminate].
  - vm_compute. exact I.
Defined.

Lemma running_service_sound_witness :
  ∃ d' w', run_rounds example_report 1 2 example_started = Some (None, (d', w')) ∧
    (consecutive_failures d' <= 20)%N.
Proof.
  destruct (run_rounds example_report 1 2 example_started) as [[r [d' w']]|] eqn:E;
    [|by vm_compute in E].
  exists d', w'. assert (r = None) as -> by (vm_compute in E; by injection E).
  split; [reflexivity|].
  refine (proj2 (proj2 (proj2 (proj2 (running_service_sound example_report (Some "d"%string)
    default_observer_recovery 4 "g" example_host_script
    {| runtime_profile_digest := Some "d"%string; runtime_readiness := readiness_ready;
       runtime_driver := Some example_started.1 |} example_started.1 example_started.2 1 2 None d' w'
    _ eq_refl E)))) eq_refl).
  vm_compute. reflexivity.
Defined.

(** The subscription is lost and the wait for the stop event fails. *)
Definition example_failing_wait : Script :=
  mk_host_script [] [] [] [] [] [Err unscripted] [] [Err unscripted] [] [].

Lemma failed_wait_ends_the_loop_witness :
  let d := mk_driver example_orchestrator 0 [] default_observer_recovery in
  fst <$> next_target example_report (d, example_failing_wait) = Some (Return (Ok tt)) ∧
  driver_round example_report 1 (d, example_failing_wait) =
    Some (Some (Err unscripted), (d, mk_host_script [] [] [] [] [] [Err unscripted] [] [] [] [])).
Proof.
  intros d.
  pose proof (failed_wait_ends_the_loop example_report 1 d example_failing_wait
    (mk_host_script [] [] [] [] [] [] [] [Err unscripted] [] [])
    (mk_host_script [] [] [] [] [] [] [] [Err unscripted] [] [])
    (mk_host_script [] [] [] [] [] [] [] [] [] []) unscripted unscripted) as Hlemma.
  destruct Hlemma as [-> Htop]; [reflexivity|reflexivity|vm_compute; discriminate|reflexivity|].
  split; [reflexivity|]. by apply Htop.
Defined.
