(* ===== verification/HostFrame.v ===== *)
(** * What the driver leaves alone

    A frame theorem: a predicate on the machine that every interface call of the
    orchestration preserves is preserved by a whole run of the driver, provided
    the health reporter preserves it.  The life cycle instantiates it with facts
    about status reports and published health. *)

From S2P Require Export OrchestrationRuntime.

Section Frame.
Context {W : Type} `{ProcessInspector W, InjectionBroker W, Clock W, HostEventSink W,
  ProcessEventSource W, StopSignal W}.

(** [I] is not disturbed by the interfaces the driver calls. *)
Class Undisturbed (I : W → Prop) : Prop := {
  und_inspect p w : I w → I (inspect p w).2;
  und_lifecycle i w : I w → I (probe_target_lifecycle i w).2;
  und_liveness i w : I w → I (probe_target_liveness i w).2;
  und_basename i w : I w → I (process_basename i w).2;
  und_image_name p w : I w → I (image_name_for_ordering p w).2;
  und_inject r w : I w → I (inject r w).2;
  und_sleep d w : I w → I (thread_sleep d w);
  und_now w : I w → I (instant_now w).2;
  und_unix_time w : I w → I (unix_time w).2;
  und_record e w : I w → I (record_event e w);
  und_subscribe q w : I w → I (subscribe q w).2;
  und_snapshot w : I w → I (snapshot_pids w).2;
  und_next_pid d w : I w → I (next_pid d w).2;
  und_wait_timeout d w : I w → I (wait_timeout d w).2;
  und_stop_requested w : I w → I (stop_requested w).2;
  und_take_session w : I w → I (take_session_change w).2
}.

Context (I : W → Prop) `{!Undisturbed I}.

Definition keeps {X A : Type} (m : M (X * W) A) : Prop :=
  ∀ x w a x' w', m (x, w) = Some (a, (x', w')) → I w → I w'.

Section Rules.
Context {X : Type}.

Lemma keeps_ret {A} (a : A) : keeps (X := X) (ret a).
Proof. intros x w b x' w' E. unfold ret, gets in E. by simplify_eq/=. Qed.

Lemma keeps_bind {A B} (m : M (X * W) A) (k : A → M (X * W) B) :
  keeps m → (∀ a, keeps (k a)) → keeps (bind m k).
Proof.
  intros Hm Hk x w b x' w'. unfold bind. destruct (m (x, w)) as [[a [x1 w1]]|] eqn:E; [|done].
  intros Ek HI. eapply Hk; [exact Ek|]. by eapply Hm.
Qed.

Lemma keeps_no_answer {A} : keeps (X := X) (no_answer (A := A)).
Proof. by intros x w b x' w' [=]. Qed.

Lemma keeps_gets {A} (f : X * W → A) : keeps (gets f).
Proof. intros x w b x' w' E. unfold ret, gets in E. by simplify_eq/=. Qed.

Lemma keeps_modify (f : X → X) : keeps (modify (λ s, (f s.1, s.2))).
Proof. intros x w b x' w' E. unfold modify in E. by simplify_eq/=. Qed.

Lemma keeps_call {A} (f : W → A * W) :
  (∀ w, I w → I (f w).2) → keeps (X := X) (λ s, let '(a, w) := f s.2 in Some (a, (s.1, w))).
Proof.
  intros Hf x w b x' w'. simpl. specialize (Hf w). destruct (f w) as [a w1].
  by intros [= <- <- <-].
Qed.
End Rules.

Lemma keeps_ext {A} (f : W → A * W) : (∀ w, I w → I (f w).2) → keeps (ext f).
Proof. apply keeps_call. Qed.

Lemma keeps_call_out {A} (f : W → A * W) : (∀ w, I w → I (f w).2) → keeps (call_out f).
Proof. apply keeps_call. Qed.

#[local] Existing Instance StopRetryScheduler.

Lemma und_scheduler_wait d w : I w → I (scheduler_wait d w).2.
Proof.
  intros HI. unfold scheduler_wait; simpl. pose proof (und_wait_timeout d w HI).
  by destruct (wait_timeout d w).
Qed.

Lemma und_validate p q w : I w → I (validate p q w).2.
Proof.
  intros HI. unfold validate. pose proof (und_inspect q w HI) as H1'.
  destruct (inspect q w) as [[[i f]|e] w1]; simpl in *; [|by case_match].
  pose proof (und_lifecycle i w1 H1'). destruct (probe_target_lifecycle i w1) as [l w2].
  simpl in *. by repeat case_match.
Qed.

Create HintDb undisturbed.
#[local] Hint Extern 1 (I _) => first
  [ apply und_inspect | apply und_lifecycle | apply und_liveness | apply und_basename
  | apply und_image_name | apply und_inject | apply und_sleep | apply und_now | apply und_unix_time
  | apply und_record | apply und_subscribe | apply und_snapshot | apply und_next_pid
  | apply und_wait_timeout | apply und_stop_requested | apply und_take_session
  | apply und_scheduler_wait | apply und_validate ]; assumption : undisturbed.

Ltac keeps_step :=
  lazymatch goal with
  | |- keeps (bind _ _) => apply keeps_bind; [|intros ?]
  | |- keeps (ret _) => apply keeps_ret
  | |- keeps no_answer => apply keeps_no_answer
  | |- keeps orch => apply keeps_gets
  | |- keeps driver => apply keeps_gets
  | |- keeps (update _) => apply keeps_modify
  | |- keeps (update_driver _) => apply keeps_modify
  | |- keeps (ext _) => apply keeps_ext; intros; cbn [snd]
  | |- keeps (call_out _) => apply keeps_call_out; intros; cbn [snd]
  | |- keeps (match ?x with _ => _ end) => destruct x
  | |- keeps (let '_ := ?x in _) => destruct x
  end; cbv beta.
Ltac keeps_steps := repeat first [assumption | keeps_step | solve [auto with undisturbed]].

Lemma keeps_record_result i outcome n r : keeps (record_result i outcome n r).
Proof. unfold record_result. keeps_steps. Qed.
#[local] Hint Resolve keeps_record_result : undisturbed.

Lemma keeps_record_skip i c e : keeps (record_skip i c e).
Proof. apply keeps_record_result. Qed.
#[local] Hint Resolve keeps_record_skip : undisturbed.

Lemma keeps_insert_deferred t : keeps (insert_deferred t).
Proof. unfold insert_deferred. keeps_steps. Qed.
#[local] Hint Resolve keeps_insert_deferred : undisturbed.

Lemma keeps_conclude i outcome r n : keeps (conclude_attempt i outcome r n).
Proof.
  unfold conclude_attempt, record_injection_success, reclassify_vanished_target. keeps_steps.
Qed.
#[local] Hint Resolve keeps_conclude : undisturbed.

Lemma keeps_launch_failure i d now r n : keeps (handle_launch_failure i d now r n).
Proof. unfold handle_launch_failure. keeps_steps. Qed.
#[local] Hint Resolve keeps_launch_failure : undisturbed.

Lemma keeps_attempt_loop left n attempts delay req d now :
  keeps (attempt_loop left n attempts delay req d now).
Proof.
  revert n delay. induction left as [|left IH]; intros n delay; [apply keeps_no_answer|].
  cbn [attempt_loop]. keeps_steps.
Qed.
#[local] Hint Resolve keeps_attempt_loop : undisturbed.

Lemma keeps_attempt i d now : keeps (attempt_injection i d now).
Proof. unfold attempt_injection. keeps_steps. Qed.
#[local] Hint Resolve keeps_attempt : undisturbed.

Lemma keeps_handle_pid_at p now : keeps (handle_pid_at p now).
Proof. unfold handle_pid_at. keeps_steps. Qed.

Lemma keeps_revalidate t now : keeps (revalidate_deferred t now).
Proof. unfold revalidate_deferred. keeps_steps. Qed.
#[local] Hint Resolve keeps_revalidate : undisturbed.

Lemma keeps_poll now : keeps (poll_deferred now).
Proof. unfold poll_deferred. keeps_steps. Qed.
#[local] Hint Resolve keeps_handle_pid_at keeps_poll : undisturbed.

Lemma keeps_with_orchestrator {A} (m : M (InjectionOrchestrator * W) A) :
  keeps m → keeps (with_orchestrator m).
Proof.
  intros Hm d w a d' w'. unfold with_orchestrator. simpl.
  destruct (m (orchestrator d, w)) as [[b [o w1]]|] eqn:E; [|done].
  intros [= <- <- <-] HI. by eapply Hm.
Qed.
#[local] Hint Resolve keeps_with_orchestrator : undisturbed.

Section Loop.
Context (report_health : HealthState → ReadinessReport → InjectionTelemetry →
  option StructuredServiceError → W → result unit StructuredServiceError * W).
Context (report_keeps : ∀ s r t e w, I w → I (report_health s r t e w).2).
#[local] Hint Resolve report_keeps : undisturbed.

Lemma keeps_fold_snapshot pids : keeps (fold_snapshot pids).
Proof. induction pids as [|p pids IH]; cbn [fold_snapshot]; keeps_steps. Qed.
#[local] Hint Resolve keeps_fold_snapshot : undisturbed.

Lemma keeps_resubscribe : keeps resubscribe.
Proof. unfold resubscribe. keeps_steps. Qed.
#[local] Hint Resolve keeps_resubscribe : undisturbed.

Lemma keeps_report s r t e : keeps (report_runtime_health report_health s r t e).
Proof. unfold report_runtime_health. keeps_steps. Qed.
#[local] Hint Resolve keeps_report : undisturbed.

Lemma keeps_recovery_loop left delay e t : keeps (recovery_loop report_health left delay e t).
Proof.
  revert delay e. induction left as [|left IH]; intros delay e;
    cbn [recovery_loop]; unfold stopped_while_waiting; keeps_steps.
Qed.
#[local] Hint Resolve keeps_recovery_loop : undisturbed.

Lemma keeps_next : keeps (handle_next report_health).
Proof.
  unfold handle_next, next_target, recover_observer, sampled_handle_pid, handle_pid. keeps_steps.
Qed.
#[local] Hint Resolve keeps_next : undisturbed.

Lemma keeps_settle outcome : keeps (settle_outcome report_health outcome).
Proof. unfold settle_outcome, report_or_return. keeps_steps. Qed.
#[local] Hint Resolve keeps_settle : undisturbed.

Lemma keeps_drain fuel : keeps (drain_session_changes fuel).
Proof. induction fuel; cbn [drain_session_changes]; keeps_steps. Qed.
#[local] Hint Resolve keeps_drain : undisturbed.

Lemma keeps_round fuel : keeps (driver_round report_health fuel).
Proof. unfold driver_round. keeps_steps. Qed.
#[local] Hint Resolve keeps_round : undisturbed.

(** The frame theorem of the loop. *)
Lemma keeps_run_rounds rounds fuel : keeps (run_rounds report_health rounds fuel).
Proof. induction rounds as [|rounds IH]; cbn [run_rounds]; keeps_steps. Qed.
End Loop.
End Frame.
