(* ===== verification/Lifecycle.v ===== *)
(** * The life of the service

    [service-runtime/host/src/runtime.rs], [runtime/lifecycle.rs],
    [startup_safety.rs] and [control.rs]: what the service reports to the service
    control manager and to its health channel from its start to its end, whatever
    fails on the way. *)

From S2P Require Export HostFrame.

Definition ERROR_SERVICE_SPECIFIC_ERROR : N := 1066.
Definition ACTIVE_PROFILE_ABSENT_CODE : string := "active-profile-absent".
Definition RUNTIME_PROFILE_ABSENT_CODE : string := "runtime-profile-absent".

Inductive HostError :=
| HostIo (error : IoError)
| HostRuntime (error : StructuredServiceError).

Class RuntimeInitializer (W : Type) := {
  initialize : W → result InitializedRuntime StructuredServiceError * W
}.

#[export] Instance Traced_initializer W `{RuntimeInitializer W} : RuntimeInitializer (Traced W) := {
  initialize := traced initialize (λ r, CallInitialize (is_ok r))
}.

Definition is_supported_stopped_state (e : StructuredServiceError) : bool :=
  one_of [ACTIVE_PROFILE_ABSENT_CODE; RUNTIME_PROFILE_ABSENT_CODE] (error_code e).

(** [error.raw_os_error().map(|code| code as u32)] *)
Definition win32_code (e : IoError) : option N := option_map as_u32 (raw_os_error e).

Definition io_service_error (code : string) (e : IoError) : StructuredServiceError :=
  {| error_code := code; error_message := io_message e; error_win32 := win32_code e |}.

(** A report about no active profile. *)
Definition idle_report (version : string) (state : HealthState) (r : ReadinessReport)
    (e : option StructuredServiceError) : HealthReport :=
  {| protocol_version := HEALTH_PROTOCOL_VERSION; service_version := version; health := state;
     active_profile_digest := None; readiness := r; injection := default_telemetry;
     last_error := e |}.

Section Runtime.
Context {W : Type} `{ProcessInspector W, InjectionBroker W, Clock W, HostEventSink W,
  ProcessEventSource W, StopSignal W, StatusReporter W, HealthPublisher W, RuntimeInitializer W}.
Context (version : string).

Definition ask {A : Type} (f : W → A * W) : M W A := λ w, Some (f w).

(** [RuntimeHealthAdapter::report] *)
Definition runtime_health_report (digest : option string) (state : HealthState)
    (r : ReadinessReport) (injection : InjectionTelemetry) (last : option StructuredServiceError)
    (w : W) : result unit StructuredServiceError * W :=
  let report := {| protocol_version := HEALTH_PROTOCOL_VERSION; service_version := version;
                   health := state; active_profile_digest := digest; readiness := r;
                   injection := injection; last_error := last |} in
  if negb (report_validate report) then
    (Err (service_error "runtime-health-invalid"
            "the runtime attempted to publish an invalid health report"), w)
  else
    let '(published, w) := publish report w in
    match published with
    | Err e => (Err (io_service_error "health-publish-failed" e), w)
    | Ok _ => (Ok tt, record_event (HealthChanged (health report) (last_error report)) w)
    end.

Definition report_failure (e : StructuredServiceError) : M W unit :=
  let! published := ask (publish
    (idle_report version HealthFailed readiness_initializing (Some e))) in
  let! _ :=
    (if is_ok published then ask (λ w, (tt, record_event (HealthChanged HealthFailed (Some e)) w))
     else ret tt) in
  let! _ := ask (report_status (status_stopped_with_error ERROR_SERVICE_SPECIFIC_ERROR 1)) in
  ret tt.

Definition report_io_failure (code : string) (e : IoError) : M W HostError :=
  let! _ := report_failure (io_service_error code e) in ret (HostIo e).

(** [status.report(stopped)] at the end of a clean run. *)
Definition report_stopped : M W (result unit HostError) :=
  let! stopped := ask (report_status status_stopped) in
  match stopped with
  | Err e => let! host := report_io_failure "stopped-status-report-failed" e in ret (Err host)
  | Ok _ => ret (Ok tt)
  end.

Definition report_supported_stop (e : StructuredServiceError) : M W (result unit HostError) :=
  let! _ := ask (publish (idle_report version HealthUnknown readiness_not_required (Some e))) in
  let! _ := ask (λ w, (tt, record_event (ServiceStartSkipped e) w)) in
  report_stopped.

Definition fail_runtime (e : StructuredServiceError) : M W (result unit HostError) :=
  let! _ := report_failure e in ret (Err (HostRuntime e)).

(** The driver runs until it returns; [None] when it does not within [rounds]
    passes. *)
Definition run_driver (digest : option string) (d : Driver) (rounds fuel : nat)
    : M W (result unit StructuredServiceError) :=
  λ w, match run_rounds (runtime_health_report digest) rounds fuel (d, w) with
       | Some (Some r, (_, w')) => Some (r, w')
       | Some (None, _) | None => None
       end.

(** From the published readiness to the end. *)
Definition serve (initialized : InitializedRuntime) (rounds fuel : nat)
    : M W (result unit HostError) :=
  let! _ := ask (λ w, (tt, record_event (ServiceStarted version) w)) in
  let! wait_result :=
    match runtime_driver initialized with
    | Some d => run_driver (runtime_profile_digest initialized) d rounds fuel
    | None => ask stop_wait
    end in
  let! terminal :=
    match wait_result with
    | Ok _ => ret (Ok None)
    | Err e =>
        let! stop := ask stop_requested in
        if stop : bool then ret (Ok (Some e))
        else let! _ := report_failure e in ret (Err e)
    end in
  match terminal with
  | Err e => ret (Err (HostRuntime e))
  | Ok terminal_error =>
      let! _ := ask (publish (idle_report version HealthUnknown readiness_not_required
                                terminal_error)) in
      let! _ := ask (λ w, (tt, record_event ServiceStopped w)) in
      report_stopped
  end.

Definition run (rounds fuel : nat) : M W (result unit HostError) :=
  let! pending := ask (report_status (status_start_pending 1 10000)) in
  match pending with
  | Err e => let! host := report_io_failure "start-pending-report-failed" e in ret (Err host)
  | Ok _ =>
      let! announced := ask (publish
        (idle_report version HealthInitializing readiness_initializing None)) in
      match announced with
      | Err e => let! host := report_io_failure "initializing-health-publish-failed" e in ret (Err host)
      | Ok _ =>
          let! initialized := ask initialize in
          match initialized with
          | Err e => if is_supported_stopped_state e then report_supported_stop e else fail_runtime e
          | Ok initialized =>
              let! running := ask (report_status status_running) in
              match running with
              | Err e => let! host := report_io_failure "running-status-report-failed" e in ret (Err host)
              | Ok _ =>
                  let ready :=
                    {| protocol_version := HEALTH_PROTOCOL_VERSION;
                       service_version := version; health := HealthReady;
                       active_profile_digest := runtime_profile_digest initialized;
                       readiness := runtime_readiness initialized;
                       injection := default_telemetry; last_error := None |} in
                  if negb (report_validate ready) then
                    fail_runtime (service_error "readiness-incomplete"
                                    "required runtime components are not ready")
                  else
                    let! published := ask (publish ready) in
                    match published with
                    | Err e => fail_runtime (io_service_error "health-publish-failed" e)
                    | Ok _ => serve initialized rounds fuel
                    end
              end
          end
      end
  end.
End Runtime.

(** ** What may start ([startup_safety.rs]) *)

Inductive LegacyServiceRuntimeState :=
| LegacyAbsent | LegacyStopped | LegacyStartPending | LegacyRunning | LegacyUnknown.

Record StartupSafetySnapshot := {
  app_init32_enabled : bool;
  app_init64_enabled : bool;
  legacy_state : LegacyServiceRuntimeState;
  open_service_image_owned : bool
}.

Definition startup_validate (s : StartupSafetySnapshot) : result unit StructuredServiceError :=
  if app_init32_enabled s || app_init64_enabled s then
    Err (service_error "appinit-conflict"
           "enabled AppInit injection conflicts with the open service")
  else if negb (match legacy_state s with LegacyAbsent | LegacyStopped => true | _ => false end) then
    Err (service_error "legacy-service-conflict"
           "the legacy MacType service must be stopped before the open service becomes ready")
  else if negb (open_service_image_owned s) then
    Err (service_error "open-service-ownership-conflict"
           "the SCM service image is not the fixed active protected runtime")
  else Ok tt.

(** ** Controls the service accepts ([control.rs]) *)

Definition SERVICE_CONTROL_STOP : N := 1.
Definition SERVICE_CONTROL_SHUTDOWN : N := 5.
Definition SERVICE_CONTROL_SESSIONCHANGE : N := 14.
Definition ACCEPTED_CONTROL_MASK : N := N.lor (N.lor 1 4) 128.

Inductive ServiceControl :=
| ControlStop
| ControlShutdown
| ControlSessionChange (event_type session : N).

Definition from_session_change (event_type session : N) : ServiceControl :=
  ControlSessionChange event_type session.

Definition from_raw (control event_type : N) : option ServiceControl :=
  if (control =? SERVICE_CONTROL_STOP)%N then Some ControlStop
  else if (control =? SERVICE_CONTROL_SHUTDOWN)%N then Some ControlShutdown
  else if (control =? SERVICE_CONTROL_SESSIONCHANGE)%N then Some (from_session_change event_type 0)
  else None.

(** ** What the traces of a run look like *)

(** The calls the driver makes: everything but the status reports, the published
    health and the initialisation. *)
Definition driver_call (c : call) : bool :=
  match c with CallStatus _ _ | CallPublish _ _ | CallInitialize _ => false | _ => true end.

(** What the service control manager was told, and whether the service was initialised. *)
Inductive milestone :=
| Said (status : ServiceStatus)
| Initialized (succeeded : bool).

Definition as_milestone (c : call) : option milestone :=
  match c with CallStatus s _ => Some (Said s) | CallInitialize ok => Some (Initialized ok) | _ => None end.

(** The milestones of a trace, in the order they happened. *)
Definition milestones (l : list call) : list milestone := rev (omap as_milestone l).

Section Traces.
Context {W : Type} `{ProcessInspector W, InjectionBroker W, Clock W, HostEventSink W,
  ProcessEventSource W, StopSignal W, StatusReporter W, HealthPublisher W, RuntimeInitializer W}.
Context (version : string).

Lemma traced_keeps {A} (P : list call → Prop) (f : W → A * W) note (t : Traced W) :
  (∀ a, P (calls t) → P (note a :: calls t)) → P (calls t) → P (calls (traced f note t).2).
Proof. unfold traced. destruct (f (base t)) as [a w]. simpl. auto. Qed.

Lemma undisturbed_calls (P : list call → Prop) :
  (∀ c l, driver_call c = true → P l → P (c :: l)) → Undisturbed (λ t : Traced W, P (calls t)).
Proof.
  intros HP. split; intros; cbv beta in *; try (by apply HP);
    (eapply (traced_keeps P); [intros; by apply HP|done]).
Qed.

(** [m] adds milestones that satisfy [Q] together with its answer. *)
Definition says {A : Type} (m : M (Traced W) A) (Q : A → list milestone → Prop) : Prop :=
  ∀ t a t', m t = Some (a, t') → ∃ l, milestones (calls t') = milestones (calls t) ++ l ∧ Q a l.

Lemma says_mono {A} (m : M (Traced W) A) (P Q : A → list milestone → Prop) :
  says m P → (∀ a l, P a l → Q a l) → says m Q.
Proof. intros Hm HPQ t a t' E. destruct (Hm t a t' E) as (l & ? & ?). eauto. Qed.

Lemma says_ret {A} (a : A) (Q : A → list milestone → Prop) : Q a [] → says (ret a) Q.
Proof. intros HQ t b t' [= <- <-]. exists []. by rewrite app_nil_r. Qed.

Lemma says_bind {A B} (m : M (Traced W) A) (k : A → M (Traced W) B) P Q :
  says m P → (∀ a l, P a l → says (k a) (λ b l', Q b (l ++ l'))) → says (bind m k) Q.
Proof.
  intros Hm Hk t b t'. unfold bind. destruct (m t) as [[a t1]|] eqn:E; [|done]. intros E2.
  destruct (Hm t a t1 E) as (l & Hl & HP). destruct (Hk a l HP t1 b t' E2) as (l' & Hl' & HQ).
  exists (l ++ l'). by rewrite Hl', Hl, app_assoc.
Qed.

(** An interface call that is no milestone. *)
Definition silent {A : Type} (m : M (Traced W) A) : Prop := says m (λ _ l, l = []).

Lemma silent_traced {A} (f : W → A * W) note :
  (∀ a, as_milestone (note a) = None) → silent (ask (traced f note)).
Proof.
  intros Hn t a t'. unfold ask, traced. destruct (f (base t)) as [b w]. intros [= <- <-].
  exists []. unfold milestones. simpl. by rewrite Hn, app_nil_r.
Qed.

Lemma silent_record e : silent (ask (λ w : Traced W, (tt, record_event e w))).
Proof. intros t a t' [= <- <-]. exists []. by rewrite app_nil_r. Qed.

Lemma silent_ret {A} (a : A) : silent (ret a).
Proof. by apply says_ret. Qed.

Lemma says_silent {A B} (m : M (Traced W) A) (k : A → M (Traced W) B) Q :
  silent m → (∀ a, says (k a) Q) → says (bind m k) Q.
Proof. intros Hm Hk. eapply says_bind; [exact Hm|]. intros a l ->. apply Hk. Qed.

Lemma report_status_says s : says (ask (report_status s)) (λ _ l, l = [Said s]).
Proof.
  intros t a t'. unfold ask. change (report_status s t) with (traced (report_status s) (CallStatus s) t).
  unfold traced. destruct (report_status s (base t)) as [b w]. intros [= <- <-]. exists [Said s].
  split; [|done]. unfold milestones. by simpl.
Qed.

Lemma says_report {B} s (k : result unit IoError → M (Traced W) B) Q :
  (∀ a, says (k a) (λ b l, Q b (Said s :: l))) → says (bind (ask (report_status s)) k) Q.
Proof.
  intros Hk. eapply says_bind; [apply report_status_says|]. intros a l ->. apply Hk.
Qed.

Lemma says_initialize {B} (k : result InitializedRuntime StructuredServiceError → M (Traced W) B) Q :
  (∀ a, says (k a) (λ b l, Q b (Initialized (is_ok a) :: l))) → says (bind (ask initialize) k) Q.
Proof.
  intros Hk. apply (says_bind _ _ (λ a l, l = [Initialized (is_ok a)])).
  - intros t a t'. unfold ask. change (initialize t) with (traced (initialize (W := W)) (λ r, CallInitialize (is_ok r)) t).
    unfold traced. destruct (initialize (base t)) as [b w]. intros [= <- <-]. by exists [Initialized (is_ok b)].
  - intros a l ->. apply Hk.
Qed.

(** *** Status reports *)

Definition failed_status : ServiceStatus :=
  status_stopped_with_error ERROR_SERVICE_SPECIFIC_ERROR 1.

Lemma says_publish {B} r (k : result unit IoError → M (Traced W) B) Q :
  (∀ a, says (k a) Q) → says (bind (ask (publish r)) k) Q.
Proof. apply says_silent. by apply (silent_traced (publish r)). Qed.

Lemma report_failure_says e : says (report_failure version e) (λ _ l, l = [Said failed_status]).
Proof.
  unfold report_failure. apply says_publish. intros a. apply says_silent.
  { destruct (is_ok a); [apply silent_record|apply silent_ret]. }
  intros _. apply says_report. intros b. by apply says_ret.
Qed.

Lemma fails_says {A} (m : M (Traced W) A) (b : HostError) (Q : result unit HostError → list milestone → Prop) :
  says m (λ _ l, l = [Said failed_status]) → Q (Err b) [Said failed_status] →
  says (let! _ := m in ret (Err b)) Q.
Proof. intros Hm HQ. eapply says_bind; [exact Hm|]. intros a l ->. by apply says_ret. Qed.

Lemma runtime_health_report_keeps (P : list call → Prop) digest state r i e (t : Traced W) :
  (∀ c l, driver_call c = true → P l → P (c :: l)) →
  (∀ r a l, report_validate r = true → P l → P (CallPublish r a :: l)) →
  P (calls t) → P (calls (runtime_health_report version digest state r i e t).2).
Proof.
  intros HP Hpub Ht. unfold runtime_health_report. destruct (report_validate _) eqn:E; [|done].
  cbn [negb]. match goal with |- context [publish ?r t] =>
    change (publish r t) with (traced (publish r) (CallPublish r) t) end.
  unfold traced. destruct (publish _ (base t)) as [[[]|err] w]; cbn [snd].
  - apply HP; [done|]. by apply Hpub.
  - by apply Hpub.
Qed.

Lemma silent_run_driver digest d rounds fuel : silent (run_driver version digest d rounds fuel).
Proof.
  intros t r t'. unfold run_driver.
  destruct (run_rounds _ rounds fuel (d, t)) as [[[r1|] [d' t1]]|] eqn:E; try done.
  intros [= <- <-]. exists []. split; [|done]. rewrite app_nil_r.
  set (P l := milestones l = milestones (calls t)).
  assert (∀ c l, driver_call c = true → P l → P (c :: l)) as HP.
  { intros c l Hc Hl. unfold P in *. rewrite <- Hl. unfold milestones. simpl. by destruct c. }
  pose proof (undisturbed_calls P HP) as Hund.
  refine (keeps_run_rounds (λ t, P (calls t)) _ _ rounds fuel _ _ _ _ _ E _); [|done].
  intros. by apply (runtime_health_report_keeps P).
Qed.

(** How the milestones of a run may read, and what the run returns. *)
Inductive status_protocol : list milestone → result unit HostError → Prop :=
| protocol_clean :
    status_protocol [Said (status_start_pending 1 10000); Initialized true; Said status_running; Said status_stopped] (Ok tt)
| protocol_skipped :
    status_protocol [Said (status_start_pending 1 10000); Initialized false; Said status_stopped] (Ok tt)
| protocol_failed pre e :
    pre ∈ [ [Said (status_start_pending 1 10000)];
            [Said (status_start_pending 1 10000); Initialized false];
            [Said (status_start_pending 1 10000); Initialized false; Said status_stopped];
            [Said (status_start_pending 1 10000); Initialized true; Said status_running];
            [Said (status_start_pending 1 10000); Initialized true; Said status_running; Said status_stopped] ] →
    status_protocol (pre ++ [Said failed_status]) (Err e).

Lemma report_io_failure_says c e :
  says (report_io_failure version c e) (λ _ l, l = [Said failed_status]).
Proof.
  eapply says_bind; [apply report_failure_says|]. intros _ ? ->. by apply says_ret.
Qed.

(** A failure that was reported ends the run with its error. *)
Lemma io_failure_says c e (Q : result unit HostError → list milestone → Prop) :
  (∀ host, Q (Err host) [Said failed_status]) →
  says (let! host := report_io_failure version c e in ret (Err host)) Q.
Proof.
  intros HQ. eapply says_bind; [apply report_io_failure_says|]. intros host ? ->. by apply says_ret.
Qed.

Lemma fail_runtime_says e (Q : result unit HostError → list milestone → Prop) :
  Q (Err (HostRuntime e)) [Said failed_status] → says (fail_runtime version e) Q.
Proof.
  intros HQ. eapply says_bind; [apply report_failure_says|]. intros _ ? ->. by apply says_ret.
Qed.

Lemma report_stopped_says (Q : result unit HostError → list milestone → Prop) :
  Q (Ok tt) [Said status_stopped] → (∀ e, Q (Err e) [Said status_stopped; Said failed_status]) →
  says (report_stopped version) Q.
Proof.
  intros HQ HQe. unfold report_stopped. apply says_report. intros [[]|e]; [by apply says_ret|].
  by apply io_failure_says.
Qed.

Lemma serve_says initialized rounds fuel (Q : result unit HostError → list milestone → Prop) :
  Q (Ok tt) [Said status_stopped] → (∀ e, Q (Err e) [Said status_stopped; Said failed_status]) →
  (∀ e, Q (Err e) [Said failed_status]) →
  says (serve version initialized rounds fuel) Q.
Proof.
  intros HQ Hstopped Hfailed. unfold serve. apply says_silent; [apply silent_record|]. intros _.
  apply says_silent.
  { destruct (runtime_driver initialized); [apply silent_run_driver|].
    by apply (silent_traced stop_wait). }
  intros r. eapply (says_bind _ _ (λ t l, match t with Ok _ => l = [] | Err _ => l = [Said failed_status] end)).
  - destruct r as [[]|e]; [by apply says_ret|]. apply says_silent.
    { by apply (silent_traced stop_requested). }
    intros []; [by apply says_ret|]. eapply says_bind; [apply report_failure_says|].
    intros _ ? ->. by apply says_ret.
  - intros [e|e] l ->; [|by apply says_ret]. apply says_publish. intros _.
    apply says_silent; [apply silent_record|]. intros _. by apply report_stopped_says.
Qed.
End Traces.

(** C32. Whatever fails on the way, the service control manager is told a complete
    story: [START_PENDING] first, and before the service is initialised; [RUNNING] only
    after an initialisation that succeeded; and a run that returns has always reported
    [STOPPED] last - with exit code 0 exactly when the run succeeds, be it after serving
    or because the initialisation found no profile, and with the service-specific error 1
    whenever it fails, even when the failed call was the status report itself. *)
Theorem run_status_protocol
    {W} `{ProcessInspector W, InjectionBroker W, Clock W, HostEventSink W, ProcessEventSource W,
          StopSignal W, StatusReporter W, HealthPublisher W, RuntimeInitializer W}
    version rounds fuel (w : W) r t' :
  run version rounds fuel (mk_traced w []) = Some (r, t') →
  status_protocol (milestones (calls t')) r.
Proof.
  assert (says (W := W) (run version rounds fuel) (λ r l, status_protocol l r)) as Hsays.
  2:{ intros E. by destruct (Hsays _ _ _ E) as (l & -> & Hl). }
  unfold run. apply says_report. intros [[]|e].
  2:{ apply io_failure_says. intros host. apply (protocol_failed [_]). set_solver. }
  apply says_publish. intros [[]|e].
  2:{ apply io_failure_says. intros host. apply (protocol_failed [_]). set_solver. }
  apply says_initialize. intros [init|e]; cbn [is_ok].
  2:{ destruct (is_supported_stopped_state e).
      - unfold report_supported_stop. apply says_publish. intros _.
        apply says_silent; [apply silent_record|]. intros _.
        apply report_stopped_says; [constructor|]. intros host.
        apply (protocol_failed [_; _; _]). set_solver.
      - apply fail_runtime_says. apply (protocol_failed [_; _]). set_solver. }
  apply says_report. intros [[]|e].
  2:{ apply io_failure_says. intros host. apply (protocol_failed [_; _; _]). set_solver. }
  destruct (report_validate _); cbn [negb].
  2:{ apply fail_runtime_says. apply (protocol_failed [_; _; _]). set_solver. }
  apply says_publish. intros [[]|e].
  2:{ apply fail_runtime_says. apply (protocol_failed [_; _; _]). set_solver. }
  apply serve_says; [constructor|intros host|intros host].
  - apply (protocol_failed [_; _; _; _]). set_solver.
  - apply (protocol_failed [_; _; _]). set_solver.
Qed.

(** *** Published health *)

(** Every published report passes the contract's validation, or announces that no
    profile is active and claims neither [Ready] nor [Degraded]. *)
Definition honest_report (version : string) (r : HealthReport) : Prop :=
  report_validate r = true ∨
  ∃ state rd e, r = idle_report version state rd e ∧ state ≠ HealthReady ∧ state ≠ HealthDegraded.

Definition honest_trace (version : string) (l : list call) : Prop :=
  Forall (λ c, match c with CallPublish r _ => honest_report version r | _ => True end) l.

Section Honest.
Context {W : Type} `{ProcessInspector W, InjectionBroker W, Clock W, HostEventSink W,
  ProcessEventSource W, StopSignal W, StatusReporter W, HealthPublisher W, RuntimeInitializer W}.
Context (version : string).

Definition honest {A : Type} (m : M (Traced W) A) : Prop :=
  ∀ t a t', m t = Some (a, t') → honest_trace version (calls t) → honest_trace version (calls t').

Lemma honest_bind {A B} (m : M (Traced W) A) (k : A → M (Traced W) B) :
  honest m → (∀ a, honest (k a)) → honest (bind m k).
Proof.
  intros Hm Hk t b t'. unfold bind. destruct (m t) as [[a t1]|] eqn:E; [|done]. intros E2 Ht.
  eapply Hk; [exact E2|]. by eapply Hm.
Qed.

Lemma honest_ret {A} (a : A) : honest (ret a).
Proof. by intros t b t' [= <- <-]. Qed.

Lemma honest_traced {A} (f : W → A * W) note :
  (∀ a, match note a with CallPublish r _ => honest_report version r | _ => True end) →
  honest (ask (traced f note)).
Proof.
  intros Hn t a t' [= E] Ht. pose proof (traced_keeps (honest_trace version) f note t) as Hk.
  rewrite E in Hk. apply Hk; [|done]. intros b Hb. apply Forall_cons. split; [apply Hn|done].
Qed.

Lemma honest_record e : honest (ask (λ w : Traced W, (tt, record_event e w))).
Proof. intros t a t' [= <- <-] Ht. by constructor. Qed.

Lemma honest_publish r : honest_report version r → honest (ask (publish r)).
Proof. intros Hr. apply (honest_traced (publish r) (CallPublish r)). by intros a. Qed.

Lemma honest_idle state rd e :
  state ≠ HealthReady → state ≠ HealthDegraded → honest_report version (idle_report version state rd e).
Proof. intros. right. eauto 6. Qed.

Lemma honest_status s : honest (ask (report_status s)).
Proof. apply (honest_traced (report_status s) (CallStatus s)). by intros a. Qed.

Lemma honest_run_driver digest d rounds fuel : honest (run_driver version digest d rounds fuel).
Proof.
  intros t r t'. unfold run_driver.
  destruct (run_rounds _ rounds fuel (d, t)) as [[[r1|] [d' t1]]|] eqn:E; try done.
  intros [= <- <-] Ht.
  assert (∀ c l, driver_call c = true → honest_trace version l → honest_trace version (c :: l)) as HP
    by (intros c l Hc Hl; constructor; [by destruct c|done]).
  pose proof (undisturbed_calls (honest_trace version) HP) as Hund.
  refine (keeps_run_rounds (λ t, honest_trace version (calls t)) _ _ rounds fuel _ _ _ _ _ E Ht).
  intros. apply (runtime_health_report_keeps version (honest_trace version)); try done.
  intros. constructor; [by left|done].
Qed.

Ltac honest_step :=
  lazymatch goal with
  | |- honest (bind _ _) => apply honest_bind; [|intros ?]
  | |- honest (ret _) => apply honest_ret
  | |- honest (run_driver _ _ _ _ _) => apply honest_run_driver
  | |- honest (ask (publish (idle_report _ _ _ _))) => apply honest_publish, honest_idle; done
  | |- honest (ask (publish _)) => apply honest_publish; left
  | |- honest (ask (report_status _)) => apply honest_status
  | |- honest (ask initialize) => by apply (honest_traced initialize)
  | |- honest (ask stop_wait) => by apply (honest_traced stop_wait)
  | |- honest (ask stop_requested) => by apply (honest_traced stop_requested)
  | |- honest (ask _) => apply honest_record
  | |- honest (match ?x with _ => _ end) => destruct x eqn:?
  end; cbv beta.

Lemma honest_failure e : honest (report_failure version e).
Proof. unfold report_failure. repeat honest_step. Qed.

Lemma honest_run rounds fuel : honest (run version rounds fuel).
Proof.
  unfold run, fail_runtime, report_supported_stop, serve, report_stopped, report_io_failure.
  repeat first [apply honest_failure | honest_step]. by apply negb_false_iff.
Qed.
End Honest.

(** C33. The health channel never claims more than is true: in every run that returns,
    whatever the machine and the driver do, each report published as [Ready] or [Degraded],
    and each report that names an active profile, passes the validation every reader
    applies - so a published [Ready] always comes with all four components ready, a
    canonical profile digest and consistent telemetry. *)
Theorem published_health_is_honest
    {W} `{ProcessInspector W, InjectionBroker W, Clock W, HostEventSink W, ProcessEventSource W,
          StopSignal W, StatusReporter W, HealthPublisher W, RuntimeInitializer W}
    version rounds fuel (w : W) result t' r a :
  run version rounds fuel (mk_traced w []) = Some (result, t') →
  CallPublish r a ∈ calls t' →
  health r = HealthReady ∨ health r = HealthDegraded ∨ is_Some (active_profile_digest r) →
  report_validate r = true.
Proof.
  intros E Hin Hclaim. pose proof (honest_run version rounds fuel _ _ _ E) as Ht.
  assert (honest_trace version (calls t')) as Hall by (apply Ht; constructor).
  pose proof (proj1 (Forall_forall _ _) Hall _ Hin) as [Hv|(s & rd & e & -> & ? & ?)]; [done|].
  simpl in Hclaim. naive_solver.
Qed.

(** ** A service in a scripted world *)

Definition example_digest : string :=
  "sha256:0000000000000000000000000000000000000000000000000000000000000000".

#[export] Instance Script_initializer : RuntimeInitializer Script := {
  initialize := initialize_process_orchestration (Some example_digest) default_observer_recovery 4
                  "0000000000000000000000000000000000000000000000000000000000000000"
}.

Definition example_run : option (result unit HostError * Traced Script) :=
  run "1.0.0" 3 2 (mk_traced example_host_script []).

Definition example_run_calls : list call :=
  match example_run with Some (_, t) => calls t | None => [] end.

Lemma run_status_protocol_witness :
  milestones example_run_calls =
    [Said (status_start_pending 1 10000); Initialized true; Said status_running; Said status_stopped] ∧
  status_protocol (milestones example_run_calls) (Ok tt).
Proof.
  split; [vm_compute; reflexivity|]. unfold example_run_calls.
  destruct example_run as [[r t]|] eqn:E; [|by vm_compute in E].
  assert (r = Ok tt) as -> by (vm_compute in E; by injection E).
  exact (run_status_protocol "1.0.0" 3 2 example_host_script (Ok tt) t E).
Defined.

Definition is_ready_publish (c : call) : bool :=
  match c with CallPublish r _ => bool_decide (health r = HealthReady) | _ => false end.

Lemma published_health_is_honest_witness :
  length (List.filter is_ready_publish example_run_calls) = 2 ∧
  ∀ r a, CallPublish r a ∈ example_run_calls → health r = HealthReady → report_validate r = true.
Proof.
  split; [vm_compute; reflexivity|]. unfold example_run_calls.
  destruct example_run as [[r t]|] eqn:E; [|by vm_compute in E].
  intros rep a Hin Hready.
  exact (published_health_is_honest "1.0.0" 3 2 example_host_script r t rep a E Hin (or_introl Hready)).
Defined.
