(* ===== verification/HelperBroker.v ===== *)
(** * The fixed helper broker

    [service-runtime/host/src/helper_broker.rs]: the broker that launches the
    protected helper of the target's architecture and decides what its answer is
    worth.  JSON parsing is third-party code: [Serde] states what the broker uses
    of [serde_json], and every theorem holds for any implementation of it. *)

From stdpp Require Import pretty.
From S2P Require Export OrchestratorSafety.

(** ** [serde_json] *)

Class Serde (Json : Type) := {
  from_slice : list ascii → option Json;
  as_object : Json → option (gmap string Json);
  as_str : Json → option string;
  as_u64 : Json → option N;
  as_bool : Json → option bool
}.

(** ** Data *)

Definition HELPER_TIMEOUT : N := from_secs 20.
Definition MAX_HELPER_OUTPUT_BYTES : N := 1024.
Definition MODULE_ALREADY_LOADED_CODE : string := "module-already-loaded".

Record HelperInvocation := {
  executable : Path;
  target : ProcessIdentity;
  invocation_generation_id : string;
  timeout : N
}.

Definition arguments_for_process_handle (i : HelperInvocation) (process_handle : N) : list string :=
  [ "--process-handle"; pretty process_handle;
    "--pid"; pretty (pid (target i));
    "--creation-time"; pretty (creation_time (target i));
    "--session-id"; pretty (session_id (target i));
    "--generation-id"; invocation_generation_id i ].

Record HelperOutput := {
  exit_code : Z;
  stdout : list ascii
}.

Inductive HelperLaunchStage := BeforeResume | AfterResume.

(** [io::ErrorKind], as far as the broker distinguishes. *)
Inductive ErrorKind := Interrupted | TimedOut | OtherKind.

Record HelperLaunchError := {
  stage : HelperLaunchStage;
  kind : ErrorKind;
  launch_os_error : option Z
}.

Inductive FixedModuleState := ModuleLoaded | ModuleAbsent | ModuleUnknown.

Record ProtectedRuntimeAssets := {
  assets_root : Path;
  injector32 : Path;
  injector64 : Path;
  assets_generation_id : string
}.

#[export] Instance HelperLaunchStage_eq_dec : EqDecision HelperLaunchStage.
Proof. solve_decision. Defined.
#[export] Instance ErrorKind_eq_dec : EqDecision ErrorKind.
Proof. solve_decision. Defined.
#[export] Instance FixedModuleState_eq_dec : EqDecision FixedModuleState.
Proof. solve_decision. Defined.

Class HelperLauncher (W : Type) := {
  launch : HelperInvocation → W → result HelperOutput HelperLaunchError * W
}.

Class FixedModuleProbe (W : Type) := {
  fixed_module_state : ProcessIdentity → Path → W → FixedModuleState * W
}.

(** [Path::is_file] *)
Class FileProbe (W : Type) := {
  is_file : Path → W → bool * W
}.

(** ** Parsing the answer of the helper *)

Definition invalid_response (code : string) (win32 : option N) : BrokerResult :=
  {| disposition := DispositionRetryableFailure; result_code := code; result_win32_error := win32 |}.

Definition expected_module (a : ProcessArchitecture) : string :=
  match a with X86 => "MacType.dll" | X64 => "MacType64.dll" end.

(** What the status of a response stands for, and the exit code it goes with. *)
Definition status_meaning (status : option string) (code : string) : option (BrokerDisposition * Z) :=
  match status with
  | Some s =>
      if (s =? "injected")%string then Some (DispositionInjected, 0%Z)
      else if (s =? "skipped")%string then
        if (code =? "process-frozen")%string then Some (DispositionTargetFrozen, 0%Z)
        else Some (DispositionSkipped, 0%Z)
      else if (s =? "rejected")%string then Some (DispositionRejected, 2%Z)
      else if (s =? "failed")%string then Some (DispositionRetryableFailure, 3%Z)
      else if (s =? "timeout")%string then Some (DispositionRetryableFailure, 4%Z)
      else None
  | None => None
  end.

Section Parse.
Context {Json : Type} `{Serde Json}.

Definition field {A : Type} (as_a : Json → option A) (object : gmap string Json) (name : string)
    : option A :=
  match object !! name with Some v => as_a v | None => None end.

Definition parse_object (request : InjectionRequest) (exit : Z) (object : gmap string Json)
    : BrokerResult :=
  let invalid := invalid_response "helper-response-invalid" None in
  let i := request_identity request in
  let status := field as_str object "status" in
  match field as_str object "code" with
  | None => invalid
  | Some code =>
      if str_is_empty code then invalid
      else
        let windows_error := field as_u64 object "windowsError" in
        let cleanup := field as_bool object "cleanupComplete" in
        if negb (bool_decide (field as_u64 object "schemaVersion" = Some 1%N))
           || negb (bool_decide (field as_u64 object "pid" = Some (pid i)))
           || negb (bool_decide (field as_u64 object "sessionId" = Some (session_id i)))
           || negb (bool_decide (field as_str object "generationId" =
                Some (request_generation_id request)))
           || negb (bool_decide (field as_str object "module" =
                Some (expected_module (architecture i))))
           || match windows_error with None => true | Some v => (U32_MAX <? v)%N end
           || bool_decide (cleanup = None)
        then invalid
        else
          match status_meaning status code with
          | None => invalid
          | Some (disposition, expected_exit) =>
              if negb (exit =? expected_exit)%Z then invalid_response "helper-exit-mismatch" None
              else
                {| disposition :=
                     if bool_decide (cleanup = Some false) then DispositionRejected else disposition;
                   result_code :=
                     if bool_decide (cleanup = Some false) then
                       if ends_with "-cleanup-unknown" code then code
                       else "helper-reported-cleanup-unknown"
                     else code;
                   result_win32_error :=
                     match windows_error with
                     | Some v => if (v =? 0)%N then None else Some (as_u32 (Z.of_N v))
                     | None => None
                     end |}
          end
  end.

Definition parse_output (request : InjectionRequest) (output : HelperOutput) : BrokerResult :=
  if (MAX_HELPER_OUTPUT_BYTES <? bytes_len (stdout output))%N then
    invalid_response "helper-response-too-large" None
  else
    match from_slice (stdout output) with
    | None => invalid_response "helper-response-invalid" None
    | Some value =>
        match as_object value with
        | Some object =>
            if (N.of_nat (size object) =? 9)%N then parse_object request (exit_code output) object
            else invalid_response "helper-response-invalid" None
        | None => invalid_response "helper-response-invalid" None
        end
    end.
End Parse.

(** ** The broker *)

Definition launch_win32 (e : HelperLaunchError) : option N := option_map as_u32 (launch_os_error e).

Definition launch_failure (e : HelperLaunchError) : BrokerResult :=
  if bool_decide (stage e = BeforeResume) && bool_decide (kind e = Interrupted) then
    {| disposition := DispositionCancelled; result_code := "helper-cancelled-service-stop";
       result_win32_error := launch_win32 e |}
  else
    {| disposition :=
         if bool_decide (stage e = BeforeResume) then DispositionLaunchFailed else DispositionRejected;
       result_code :=
         if bool_decide (stage e = BeforeResume) then "helper-launch-failed-before-resume"
         else match kind e with
              | Interrupted => "helper-service-stop-cleanup-unknown"
              | TimedOut => "helper-absolute-timeout-cleanup-unknown"
              | OtherKind => "helper-launch-failed-cleanup-unknown"
              end;
       result_win32_error := launch_win32 e |}.

(** A result the host records as a broker failure. *)
Definition untrusted_code (c : string) : bool :=
  ends_with "-cleanup-unknown" c
  || one_of ["helper-response-invalid"; "helper-response-too-large"; "helper-exit-mismatch"] c.

Definition debug_option (o : option N) : string :=
  match o with Some n => "Some(" ++ pretty n ++ ")" | None => "None" end.

Definition failure_detail (i : ProcessIdentity) (r : BrokerResult) : string :=
  "pid=" ++ pretty (pid i) ++ " creation_time=" ++ pretty (creation_time i) ++ " win32=" ++
  debug_option (result_win32_error r).

Section Broker.
Context {Json : Type} `{Serde Json}.
Context {W : Type} `{HelperLauncher W, FixedModuleProbe W, FileProbe W, HostEventSink W}.
Context (assets : ProtectedRuntimeAssets).

Definition helper (a : ProcessArchitecture) : Path :=
  match a with X86 => injector32 assets | X64 => injector64 assets end.

Definition invocation (request : InjectionRequest) : HelperInvocation :=
  {| executable := helper (architecture (request_identity request));
     target := request_identity request;
     invocation_generation_id := request_generation_id request;
     timeout := HELPER_TIMEOUT |}.

Definition fixed_module (a : ProcessArchitecture) : Path :=
  path_join (assets_root assets) (expected_module a).

Definition broker_verify_ready (a : ProcessArchitecture) (w : W)
    : result unit StructuredServiceError * W :=
  let '(file, w) := is_file (helper a) w in
  if file && bool_decide (path_parent (helper a) = Some (assets_root assets)) then (Ok tt, w)
  else
    (Err (service_error "runtime-helper-unavailable"
            "the fixed helper is not ready in the protected runtime generation"),
     record_event (HelperBrokerFailed a "runtime-helper-unavailable"
       (Some ("helper=" ++ path_display (helper a))%string)) w).

Definition broker_inject (request : InjectionRequest) (w : W) : BrokerResult * W :=
  let i := request_identity request in
  if negb (request_generation_id request =? assets_generation_id assets)%string then
    (invalid_response "runtime-generation-mismatch" None, w)
  else
    let '(state, w) := fixed_module_state i (fixed_module (architecture i)) w in
    if bool_decide (state = ModuleLoaded) then
      ({| disposition := DispositionSkipped; result_code := MODULE_ALREADY_LOADED_CODE;
          result_win32_error := None |}, w)
    else
      let '(launched, w) := launch (invocation request) w in
      let result :=
        match launched with
        | Ok output => parse_output request output
        | Err e => launch_failure e
        end in
      (result,
       if untrusted_code (result_code result) then
         record_event (HelperBrokerFailed (architecture i) (result_code result)
           (Some (failure_detail i result))) w
       else w).

(** The implementation of the interface the orchestrator is written against. *)
Definition FixedHelperBroker : InjectionBroker W := {|
  verify_ready := broker_verify_ready;
  inject := broker_inject
|}.
End Broker.

(** ** What an answer means *)

Section Meaning.
Context {Json : Type} `{Serde Json}.

(** The helper's own report, as the broker accepts it: about this very target,
    generation and module, within the bounds, and with the exit code that belongs
    to its status. *)
Record confirmed (request : InjectionRequest) (output : HelperOutput) (status code : string)
    (win32 : N) (cleanup : bool) (d : BrokerDisposition) : Prop := {
  cf_bounded : (bytes_len (stdout output) <= MAX_HELPER_OUTPUT_BYTES)%N;
  cf_status : status_meaning (Some status) code = Some (d, exit_code output);
  cf_code : code ≠ EmptyString;
  cf_win32 : (win32 <= U32_MAX)%N;
  cf_json : ∃ value object,
    from_slice (stdout output) = Some value ∧ as_object value = Some object ∧ size object = 9 ∧
    field as_u64 object "schemaVersion" = Some 1%N ∧
    field as_str object "status" = Some status ∧ field as_str object "code" = Some code ∧
    field as_u64 object "pid" = Some (pid (request_identity request)) ∧
    field as_u64 object "sessionId" = Some (session_id (request_identity request)) ∧
    field as_str object "generationId" = Some (request_generation_id request) ∧
    field as_str object "module" =
      Some (expected_module (architecture (request_identity request))) ∧
    field as_u64 object "windowsError" = Some win32 ∧
    field as_bool object "cleanupComplete" = Some cleanup
}.

(** The result the broker makes of a confirmed report. *)
Definition confirmed_result (code : string) (win32 : N) (cleanup : bool) (d : BrokerDisposition)
    : BrokerResult :=
  {| disposition := if cleanup then d else DispositionRejected;
     result_code := if cleanup then code
                    else if ends_with "-cleanup-unknown" code then code
                    else "helper-reported-cleanup-unknown";
     result_win32_error := if (win32 =? 0)%N then None else Some win32 |}.

Lemma as_u32_small v : (v <= U32_MAX)%N → as_u32 (Z.of_N v) = v.
Proof.
  unfold as_u32, U32_MAX. intros Hv. rewrite Z.mod_small; [lia|].
  split; [lia|]. change (2 ^ 32)%Z with 4294967296%Z. change (2 ^ 32 - 1)%N with 4294967295%N in Hv. lia.
Qed.

Lemma parse_output_cases request output :
  (∃ code, parse_output request output = invalid_response code None ∧
     code ∈ ["helper-response-too-large"; "helper-response-invalid"; "helper-exit-mismatch"]%string) ∨
  (∃ status code win32 cleanup d, confirmed request output status code win32 cleanup d ∧
     parse_output request output = confirmed_result code win32 cleanup d).
Proof.
  unfold parse_output. destruct (N.ltb_spec MAX_HELPER_OUTPUT_BYTES (bytes_len (stdout output))).
  { left. eexists. split; [done|]. set_solver. }
  assert (∀ P : Prop, (∃ code, invalid_response "helper-response-invalid" None =
      invalid_response code None ∧
      code ∈ ["helper-response-too-large"; "helper-response-invalid"; "helper-exit-mismatch"]%string)
      ∨ P) as Hinv by (intros P; left; eexists; split; [done|]; set_solver).
  destruct (from_slice (stdout output)) as [value|] eqn:Ev; [|apply Hinv].
  destruct (as_object value) as [object|] eqn:Eo; [|apply Hinv].
  destruct (N.eqb_spec (N.of_nat (size object)) 9); [|apply Hinv]. unfold parse_object.
  destruct (field as_str object "code") as [code|] eqn:Ecode; [|apply Hinv].
  destruct (str_is_empty code) eqn:Eempty; [apply Hinv|].
  destruct (_ || _) eqn:Eguards; [apply Hinv|].
  rewrite !orb_false_iff, !negb_false_iff, !bool_decide_eq_true in Eguards.
  destruct Eguards as ((((((Hs & Hp) & Hse) & Hg) & Hm) & Hw) & Hc).
  destruct (field as_u64 object "windowsError") as [win32|] eqn:Ew; [|done]. andb_split.
  destruct (field as_bool object "cleanupComplete") as [cleanup|] eqn:Ec; [|by rewrite bool_decide_eq_true_2 in Hc].
  destruct (status_meaning (field as_str object "status") code) as [[d x]|] eqn:Est; [|apply Hinv].
  destruct (field as_str object "status") as [status|] eqn:Estatus; [|done].
  destruct (Z.eqb_spec (exit_code output) x) as [Hx|]; cbn [negb].
  2:{ left. eexists. split; [done|]. set_solver. }
  right. exists status, code, win32, cleanup, d. split.
  - split; try done; [by rewrite Hx| |].
    + intros ->. done.
    + exists value, object. split_and!; try done. lia.
  - unfold confirmed_result. rewrite as_u32_small by done. by destruct cleanup.
Qed.
End Meaning.

Section BrokerFacts.
Context {Json : Type} `{Serde Json}.
Context {W : Type} `{HelperLauncher W, FixedModuleProbe W, FileProbe W, HostEventSink W}.

(** The launch that gave the answer [r] to [request] in the world [w]: the
    generation matched, the module was not seen loaded, and the helper that ran is
    the protected one of the target's architecture. *)
Definition launched_for (assets : ProtectedRuntimeAssets) (request : InjectionRequest) (w : W)
    (answer : result HelperOutput HelperLaunchError) : Prop :=
  request_generation_id request = assets_generation_id assets ∧
  ∃ state w1 w2,
    fixed_module_state (request_identity request)
      (fixed_module assets (architecture (request_identity request))) w = (state, w1) ∧
    state ≠ ModuleLoaded ∧
    launch (invocation assets request) w1 = (answer, w2).

Lemma broker_inject_cases assets request (w : W) r w' :
  broker_inject assets request w = (r, w') →
  r = invalid_response "runtime-generation-mismatch" None ∨
  (disposition r = DispositionSkipped ∧ result_code r = MODULE_ALREADY_LOADED_CODE ∧
     request_generation_id request = assets_generation_id assets) ∨
  (∃ e, launched_for assets request w (Err e) ∧ r = launch_failure e) ∨
  (∃ output, launched_for assets request w (Ok output) ∧ r = parse_output request output).
Proof.
  unfold broker_inject. destruct (String.eqb_spec (request_generation_id request)
    (assets_generation_id assets)) as [Hg|]; cbn [negb]; [|by intros [= <- <-]; left].
  destruct (fixed_module_state _ _ w) as [state w1] eqn:Es. case_bool_decide as Hl.
  { intros [= <- <-]. by right; left. }
  destruct (launch (invocation assets request) w1) as [[output|e] w2] eqn:El; intros [= <- <-].
  - right; right; right. exists output. split; [|done]. split; [done|]. by exists state, w1, w2.
  - right; right; left. exists e. split; [|done]. split; [done|]. by exists state, w1, w2.
Qed.

Lemma launch_failure_not_injected e :
  disposition (launch_failure e) ≠ DispositionInjected ∧
  disposition (launch_failure e) ≠ DispositionRetryableFailure.
Proof. unfold launch_failure. by destruct (stage e), (kind e). Qed.

(** The code of an answer the broker could not accept is never safe to retry. *)
Lemma invalid_response_not_retryable c :
  c ∈ ["helper-response-too-large"; "helper-response-invalid"; "helper-exit-mismatch";
       "runtime-generation-mismatch"]%string → ¬ retryable (invalid_response c None).
Proof. intros Hc [_ Hs]. set_unfold in Hc. by destruct Hc as [->|[->|[->| [->|[]]]]]. Qed.

(** [Injected] is never claimed on the helper's word alone: the broker answers
    [Injected] only when the request names the loaded generation, the target did not
    carry the module already, the protected helper of the target's architecture was
    launched on exactly that target, ended with exit code 0 and printed at most 1024
    bytes, and these parse to an object of nine fields that reports "injected" with
    a completed clean-up for the same PID, session, generation and module. *)
Theorem injected_is_confirmed assets request (w : W) r w' :
  broker_inject assets request w = (r, w') → disposition r = DispositionInjected →
  ∃ output code win32,
    launched_for assets request w (Ok output) ∧
    confirmed request output "injected" code win32 true DispositionInjected ∧
    exit_code output = 0%Z ∧ result_code r = code.
Proof.
  intros E Hd. destruct (broker_inject_cases _ _ _ _ _ E) as
    [->|[(Hs & _)|[(e & _ & ->)|(output & Hl & ->)]]]; try done; try congruence.
  { by destruct (launch_failure_not_injected e). }
  destruct (parse_output_cases request output) as
    [(c & Hc & _)|(status & code & win32 & cleanup & d & Hcf & Hr)]; [by rewrite Hc in Hd|].
  rewrite Hr in Hd |- *. unfold confirmed_result in Hd |- *. simpl in Hd. destruct cleanup; [|done].
  subst d. exists output, code, win32. simpl.
  assert (status = "injected"%string ∧ exit_code output = 0%Z) as [-> Hx].
  { pose proof (cf_status _ _ _ _ _ _ _ Hcf) as Hst. unfold status_meaning in Hst.
    destruct (String.eqb_spec status "injected"); simplify_eq/=; [done|]. by repeat case_match. }
  by split_and!.
Qed.

(** A retry is offered only when nothing can have been left behind: an answer
    that the orchestrator would retry on the same identity is a report of the helper
    itself, accepted in every field, that says "failed" or "timeout" with the exit
    code of that status, a completed clean-up and one of the four codes that mean the
    target was not touched; no launch failure, no unreadable answer, no exit
    mismatch and no foreign generation is ever retried. *)
Theorem retry_is_confirmed assets request (w : W) r w' :
  broker_inject assets request w = (r, w') → retryable r →
  ∃ output status win32,
    launched_for assets request w (Ok output) ∧
    confirmed request output status (result_code r) win32 true DispositionRetryableFailure ∧
    (status = "failed"%string ∧ exit_code output = 3%Z ∨
     status = "timeout"%string ∧ exit_code output = 4%Z).
Proof.
  intros E Hr. destruct (broker_inject_cases _ _ _ _ _ E) as
    [->|[(Hs & _)|[(e & _ & ->)|(output & Hl & ->)]]].
  - exfalso. eapply invalid_response_not_retryable; [|exact Hr]. set_solver.
  - destruct Hr. congruence.
  - exfalso. destruct (launch_failure_not_injected e) as [_ Hn]. by destruct Hr.
  - destruct (parse_output_cases request output) as
      [(c & Hc & Hin)|(status & code & win32 & cleanup & d & Hcf & Hres)].
    { exfalso. rewrite Hc in Hr. eapply invalid_response_not_retryable; [|exact Hr]. set_solver. }
    rewrite Hres in Hr |- *. destruct Hr as [Hd Hsafe]. unfold confirmed_result in *. simpl in *.
    destruct cleanup; [|done]. subst d. exists output, status, win32. split_and!; try done.
    pose proof (cf_status _ _ _ _ _ _ _ Hcf) as Hst. unfold status_meaning in Hst.
    repeat case_match; simplify_eq/=; andb_split; auto.
Qed.

(** Where a launch failed decides what may have happened to the target: before
    the helper ran, the target is untouched and the answer is a launch failure, or a
    cancellation when the service is stopping, and neither counts as untrusted; once
    it ran, the answer is a rejection whose code says the clean-up is unknown, the
    failure is recorded as an event of the broker, and the generation's health
    becomes "injection-cleanup-unknown". *)
Theorem launch_failure_classified assets request e (w w1 w2 : W) state :
  request_generation_id request = assets_generation_id assets →
  fixed_module_state (request_identity request)
    (fixed_module assets (architecture (request_identity request))) w = (state, w1) →
  state ≠ ModuleLoaded → launch (invocation assets request) w1 = (Err e, w2) →
  let '(r, w') := broker_inject assets request w in
  match stage e with
  | BeforeResume =>
      (disposition r = if bool_decide (kind e = Interrupted) then DispositionCancelled
                       else DispositionLaunchFailed) ∧
      health_error_code (result_code r) = None ∧ w' = w2
  | AfterResume =>
      disposition r = DispositionRejected ∧
      health_error_code (result_code r) = Some "injection-cleanup-unknown"%string ∧
      w' = record_event (HelperBrokerFailed (architecture (request_identity request))
             (result_code r) (Some (failure_detail (request_identity request) r))) w2
  end.
Proof.
  intros Hg Hs Hn Hl. unfold broker_inject. rewrite Hg, String.eqb_refl. cbn [negb].
  rewrite Hs, bool_decide_eq_false_2, Hl by done. unfold launch_failure.
  by destruct (stage e), (kind e).
Qed.
End BrokerFacts.

(** ** The broker with a concrete parser

    A helper whose answer is already an object: [from_slice] gives it back. *)

Inductive ExampleJson :=
| JNumber (n : N)
| JString (s : string)
| JBool (b : bool)
| JObject.

Definition example_object : gmap string ExampleJson :=
  list_to_map [("schemaVersion", JNumber 1); ("status", JString "injected"); ("code", JString "ok");
    ("pid", JNumber 42); ("sessionId", JNumber 1); ("generationId", JString "g");
    ("module", JString "MacType64.dll"); ("windowsError", JNumber 0);
    ("cleanupComplete", JBool true)]%string.

Definition example_failed_object : gmap string ExampleJson :=
  <["status" := JString "failed"]> (<["code" := JString "session-unavailable"]> example_object)%string.

#[export] Instance ExampleSerde : Serde ExampleJson := {
  from_slice bytes := if (bytes_len bytes =? 0)%N then None
                      else if (bytes_len bytes =? 1)%N then Some (JNumber 0) else Some JObject;
  as_object j := match j with
                 | JObject => Some example_object
                 | JNumber _ => Some example_failed_object
                 | _ => None end;
  as_str j := match j with JString s => Some s | _ => None end;
  as_u64 j := match j with JNumber n => Some n | _ => None end;
  as_bool j := match j with JBool b => Some b | _ => None end
}.

Record ExampleHelper := { answers : list (result HelperOutput HelperLaunchError) }.

#[export] Instance Example_launcher : HelperLauncher ExampleHelper := {
  launch i w :=
    match answers w with
    | [] => (Err {| stage := BeforeResume; kind := OtherKind; launch_os_error := None |}, w)
    | a :: l => (a, {| answers := l |})
    end
}.
#[export] Instance Example_probe : FixedModuleProbe ExampleHelper := {
  fixed_module_state i m w := (ModuleAbsent, w)
}.
#[export] Instance Example_files : FileProbe ExampleHelper := { is_file p w := (true, w) }.
#[export] Instance Example_sink : HostEventSink ExampleHelper := { record_event e w := w }.

Definition example_assets : ProtectedRuntimeAssets :=
  {| assets_root := ["C:"; "runtime"]; injector32 := ["C:"; "runtime"; "mactype-injector32.exe"];
     injector64 := ["C:"; "runtime"; "mactype-injector64.exe"]; assets_generation_id := "g" |}%string.

Definition example_request : InjectionRequest :=
  {| request_identity := identity example_process; request_generation_id := "g" |}.

Definition example_output : HelperOutput := {| exit_code := 0; stdout := str_bytes "{}" |}.

Lemma injected_is_confirmed_witness :
  ∃ output code win32,
    launched_for example_assets example_request {| answers := [Ok example_output] |} (Ok output) ∧
    confirmed example_request output "injected" code win32 true DispositionInjected.
Proof.
  destruct (injected_is_confirmed example_assets example_request {| answers := [Ok example_output] |}
    {| disposition := DispositionInjected; result_code := "ok"; result_win32_error := None |}
    {| answers := [] |}) as (output & code & win32 & Hl & Hc & _).
  - vm_compute. reflexivity.
  - reflexivity.
  - by exists output, code, win32.
Defined.

Lemma retry_is_confirmed_witness :
  ∃ output status win32,
    confirmed example_request output status "session-unavailable" win32 true
      DispositionRetryableFailure.
Proof.
  destruct (retry_is_confirmed example_assets example_request
    {| answers := [Ok {| exit_code := 3; stdout := str_bytes "x" |}] |}
    {| disposition := DispositionRetryableFailure; result_code := "session-unavailable";
       result_win32_error := None |} {| answers := [] |}) as (output & status & win32 & _ & Hc & _).
  - vm_compute. reflexivity.
  - split; reflexivity.
  - by exists output, status, win32.
Defined.

Lemma launch_failure_classified_witness :
  disposition (fst (broker_inject example_assets example_request {| answers := [] |})) =
    DispositionLaunchFailed.
Proof.
  refine (proj1 (launch_failure_classified example_assets example_request
    {| stage := BeforeResume; kind := OtherKind; launch_os_error := None |}
    {| answers := [] |} {| answers := [] |} {| answers := [] |} ModuleAbsent _ _ _ _));
    vm_compute; first [reflexivity|discriminate].
Defined.
