(* ===== verification/SessionQueue.v ===== *)
(** * The queue of session changes

    [service-runtime/host/src/session_event_queue.rs]: 64 atomic slots between the
    control handler, which any thread of the service control manager may run, and
    the service loop.  [push] and [pop] are sequences of atomic operations; a step
    of the system is one atomic operation of one thread, so a run is any
    interleaving of them. *)

From S2P Require Export Observer.

Definition SESSION_EVENT_QUEUE_CAPACITY : nat := 64.
Definition USIZE : N := 2 ^ 64.

Record SessionEventQueue := mk_queue {
  slots : list N;
  write_cursor : N;
  read_cursor : N;
  overflowed : bool
}.

Definition new_queue : SessionEventQueue :=
  mk_queue (replicate SESSION_EVENT_QUEUE_CAPACITY 0%N) 0 0 false.

(** ** Encoding *)

Definition raw_event (c : SessionChange) : N :=
  N.lor (N.shiftl (change_event_type c) 32) (change_session_id c).

Definition encode_event (c : SessionChange) : option N := checked_add U64_MAX (raw_event c) 1.

Definition decode_event (encoded : N) : SessionChange :=
  let raw := (encoded - 1)%N in
  {| change_event_type := N.shiftr raw 32 mod 2 ^ 32; change_session_id := raw mod 2 ^ 32 |}.

Definition slot_index (start : N) (offset : nat) : nat :=
  N.to_nat (((start + N.of_nat offset) mod USIZE) mod N.of_nat SESSION_EVENT_QUEUE_CAPACITY).

(** ** [push], one atomic operation at a time *)

Inductive PushState :=
| PushStart (c : SessionChange)
| PushProbe (c : SessionChange) (start : N) (offset : nat)
| PushFull (c : SessionChange)
| PushDone (c : SessionChange) (stored : bool).

Definition set_slots (l : list N) (q : SessionEventQueue) : SessionEventQueue :=
  mk_queue l (write_cursor q) (read_cursor q) (overflowed q).
Definition set_overflowed (b : bool) (q : SessionEventQueue) : SessionEventQueue :=
  mk_queue (slots q) (write_cursor q) (read_cursor q) b.
Definition set_read_cursor (n : N) (q : SessionEventQueue) : SessionEventQueue :=
  mk_queue (slots q) (write_cursor q) n (overflowed q).

Definition push_step (q : SessionEventQueue) (s : PushState) : option (SessionEventQueue * PushState) :=
  match s with
  | PushStart c =>
      match encode_event c with
      | None => Some (set_overflowed true q, PushDone c false)
      | Some _ =>
          Some (mk_queue (slots q) ((write_cursor q + 1) mod USIZE) (read_cursor q) (overflowed q),
                PushProbe c (write_cursor q) 0)
      end
  | PushProbe c start offset =>
      if (offset <? SESSION_EVENT_QUEUE_CAPACITY)%nat then
        let index := slot_index start offset in
        match slots q !! index, encode_event c with
        | Some 0%N, Some encoded => Some (set_slots (<[index := encoded]> (slots q)) q, PushDone c true)
        | Some _, Some _ => Some (q, PushProbe c start (S offset))
        | _, _ => None
        end
      else Some (q, PushFull c)
  | PushFull c => Some (set_overflowed true q, PushDone c false)
  | PushDone _ _ => None
  end.

(** ** [pop], one atomic operation at a time *)

Inductive PopState :=
| PopIdle
| PopCursor
| PopProbe (start : N) (offset : nat)
| PopFound (index : nat) (encoded : N)
| PopDone (answer : option SessionChange).

Definition pop_step (q : SessionEventQueue) (s : PopState) : option (SessionEventQueue * PopState) :=
  match s with
  | PopIdle =>
      if overflowed q then Some (set_overflowed false q, PopDone (Some session_change_overflow))
      else Some (set_overflowed false q, PopCursor)
  | PopCursor => Some (q, PopProbe (read_cursor q) 0)
  | PopProbe start offset =>
      if (offset <? SESSION_EVENT_QUEUE_CAPACITY)%nat then
        let index := slot_index start offset in
        match slots q !! index with
        | Some encoded =>
            Some (set_slots (<[index := 0%N]> (slots q)) q,
                  if (encoded =? 0)%N then PopProbe start (S offset) else PopFound index encoded)
        | None => None
        end
      else Some (q, PopDone None)
  | PopFound index encoded =>
      Some (set_read_cursor ((N.of_nat index + 1) mod USIZE) q, PopDone (Some (decode_event encoded)))
  | PopDone _ => None
  end.

(** ** Sequential runs *)

Fixpoint run_push (fuel : nat) (q : SessionEventQueue) (s : PushState)
    : option (bool * SessionEventQueue) :=
  match s with
  | PushDone _ b => Some (b, q)
  | _ => match fuel with
         | O => None
         | S fuel' => match push_step q s with
                      | Some (q', s') => run_push fuel' q' s'
                      | None => None
                      end
         end
  end.

(** One operation to start, one per slot and two at the end. *)
Definition OPERATION_FUEL : nat := S (3 + SESSION_EVENT_QUEUE_CAPACITY).

Definition push (q : SessionEventQueue) (c : SessionChange) : option (bool * SessionEventQueue) :=
  run_push OPERATION_FUEL q (PushStart c).

Fixpoint run_pop (fuel : nat) (q : SessionEventQueue) (s : PopState)
    : option (option SessionChange * SessionEventQueue) :=
  match s with
  | PopDone a => Some (a, q)
  | _ => match fuel with
         | O => None
         | S fuel' => match pop_step q s with
                      | Some (q', s') => run_pop fuel' q' s'
                      | None => None
                      end
         end
  end.

Definition pop (q : SessionEventQueue) : option (option SessionChange * SessionEventQueue) :=
  run_pop OPERATION_FUEL q PopIdle.

(** ** Concurrent runs

    Any number of pushes in flight and one consumer, as in the host.  The system
    remembers what pushes reported and pops answered: the changes whose push was
    accepted, every answer that pops gave, whether a push has been refused since a pop
    last answered with an overflow, and how often a pop took the overflow flag down. *)

Record QueueSystem := mk_system {
  queue : SessionEventQueue;
  pushing : list PushState;
  popping : PopState;
  accepted : list SessionChange;
  answered : list SessionChange;
  unreported_loss : bool;
  flag_taken : nat
}.

Definition u32_change (c : SessionChange) : Prop :=
  (change_event_type c <= U32_MAX)%N ∧ (change_session_id c <= U32_MAX)%N.

Definition after_push (s : PushState) (accepted : list SessionChange) (loss : bool)
    : list SessionChange * bool :=
  match s with
  | PushDone c true => (c :: accepted, loss)
  | PushDone _ false => (accepted, true)
  | _ => (accepted, loss)
  end.

(** What the answer of a pop says, by the state it ends in. *)
Definition after_pop (s : PopState) (answered : list SessionChange) (loss : bool)
    : list SessionChange * bool :=
  match s with
  | PopDone (Some c) => (c :: answered, if is_overflow c then false else loss)
  | _ => (answered, loss)
  end.

Definition flag_falls (q q' : SessionEventQueue) : nat :=
  if overflowed q && negb (overflowed q') then 1 else 0.

Inductive queue_step : QueueSystem → QueueSystem → Prop :=
| step_begin_push q ps pop a d l n c :
    u32_change c →
    queue_step (mk_system q ps pop a d l n) (mk_system q (ps ++ [PushStart c]) pop a d l n)
| step_push q ps pop a d l n i s q' s' a' l' :
    ps !! i = Some s → push_step q s = Some (q', s') → after_push s' a l = (a', l') →
    queue_step (mk_system q ps pop a d l n) (mk_system q' (<[i := s']> ps) pop a' d l' n)
| step_pop q ps pop a d l n q' pop' d' l' :
    pop_step q pop = Some (q', pop') → after_pop pop' d l = (d', l') →
    queue_step (mk_system q ps pop a d l n) (mk_system q' ps pop' a d' l' (flag_falls q q' + n))
| step_begin_pop q ps answer a d l n :
    queue_step (mk_system q ps (PopDone answer) a d l n) (mk_system q ps PopIdle a d l n).

Definition start_system : QueueSystem := mk_system new_queue [] PopIdle [] [] false 0.

(** ** The encoding *)

Lemma high_low_disjoint a b : (b < 2 ^ 32)%N → N.land (a * 2 ^ 32) b = 0%N.
Proof.
  intros Hb. apply N.bits_inj_0. intros n. rewrite N.land_spec.
  destruct (N.lt_ge_cases n 32) as [Hn|Hn]; [by rewrite N.mul_pow2_bits_low|].
  replace (N.testbit b n) with false; [by rewrite andb_false_r|]. symmetry.
  destruct (N.eq_dec b 0%N) as [->|]; [apply N.bits_0|].
  apply N.bits_above_log2, N.log2_lt_pow2; [lia|].
  apply N.lt_le_trans with (2 ^ 32)%N; [done|]. by apply N.pow_le_mono_r.
Qed.

Lemma raw_event_add c : u32_change c →
  raw_event c = (change_event_type c * 2 ^ 32 + change_session_id c)%N.
Proof.
  intros [_ Hs]. unfold raw_event. rewrite N.shiftl_mul_pow2.
  assert (change_session_id c < 2 ^ 32)%N by (unfold U32_MAX in Hs; lia).
  by rewrite <- N.lxor_lor, N.add_nocarry_lxor by by apply high_low_disjoint.
Qed.

Lemma encode_decode_raw c :
  u32_change c →
  match encode_event c with
  | Some encoded => (0 < encoded <= U64_MAX)%N ∧ decode_event encoded = c
  | None => change_event_type c = U32_MAX ∧ change_session_id c = U32_MAX
  end.
Proof.
  intros Hc. unfold encode_event, checked_add, decode_event. rewrite raw_event_add by done.
  destruct Hc as [He Hs]. destruct c as [e s]; simpl in *.
  unfold U32_MAX, U64_MAX in *. change (2 ^ 32)%N with 4294967296%N in *.
  change (2 ^ 64)%N with 18446744073709551616%N in *.
  destruct (N.leb_spec (e * 4294967296 + s + 1) (18446744073709551616 - 1)); [|lia].
  split; [lia|]. rewrite N.add_sub, N.shiftr_div_pow2. change (2 ^ 32)%N with 4294967296%N. f_equal.
  - rewrite N.div_add_l by lia. rewrite N.div_small, N.add_0_r by lia. apply N.mod_small. lia.
  - rewrite N.add_comm, N.Div0.mod_add. apply N.mod_small. lia.
Qed.

(** What is stored is what was announced: every session change of two 32-bit
    values is encoded to a non-zero 64-bit word that decodes to the same change,
    except the one whose two values are both [u32::MAX], for which there is no word
    and which is refused as an overflow. *)
Theorem encode_decode c :
  u32_change c →
  match encode_event c with
  | Some encoded => (0 < encoded <= U64_MAX)%N ∧ decode_event encoded = c
  | None => change_event_type c = U32_MAX ∧ change_session_id c = U32_MAX
  end.
Proof. apply encode_decode_raw. Qed.

Lemma encode_decode_witness :
  decode_event 8589934595 = {| change_event_type := 2; change_session_id := 2 |}.
Proof.
  refine (proj2 (encode_decode {| change_event_type := 2; change_session_id := 2 |} _)).
  split; vm_compute; discriminate.
Defined.

(** ** Nothing is lost, doubled or made up *)

Definition slot_event (encoded : N) : option SessionChange :=
  if (encoded =? 0)%N then None else Some (decode_event encoded).

(** The changes that wait in the slots. *)
Definition waiting (q : SessionEventQueue) : list SessionChange := omap slot_event (slots q).

(** One report of an overflow for each time the flag was taken down. *)
Definition overflow_reports (n : nat) : list SessionChange := replicate n session_change_overflow.

(** The change the consumer has taken out but not answered yet. *)
Definition in_hand (s : PopState) : list SessionChange :=
  match s with PopFound _ encoded => [decode_event encoded] | _ => [] end.

Definition push_change (s : PushState) : SessionChange :=
  match s with PushStart c | PushProbe c _ _ | PushFull c | PushDone c _ => c end.

Record queue_inv (s : QueueSystem) : Prop := {
  qi_length : length (slots (queue s)) = SESSION_EVENT_QUEUE_CAPACITY;
  qi_pushing : Forall (λ p, u32_change (push_change p)) (pushing s);
  qi_conserved : waiting (queue s) ++ in_hand (popping s) ++ answered s
                   ≡ₚ overflow_reports (flag_taken s) ++ accepted s;
  qi_loss : unreported_loss s = true → overflowed (queue s) = true
}.

Lemma omap_insert (l : list N) i x y :
  l !! i = Some x →
  omap slot_event (<[i := y]> l) ≡ₚ
    option_list (slot_event y) ++ omap slot_event (delete i l) ∧
  omap slot_event l ≡ₚ option_list (slot_event x) ++ omap slot_event (delete i l).
Proof.
  intros Hi. rewrite delete_take_drop, omap_app. split.
  - rewrite insert_take_drop by by eapply lookup_lt_Some. rewrite omap_app. simpl.
    destruct (slot_event y); simpl; [|done]. by rewrite <- Permutation_middle.
  - rewrite <- (take_drop_middle l i x Hi) at 1. rewrite omap_app. simpl.
    destruct (slot_event x); simpl; [|done]. by rewrite <- Permutation_middle.
Qed.

Lemma slot_event_encode c e : u32_change c → encode_event c = Some e → slot_event e = Some c.
Proof.
  intros Hc He. pose proof (encode_decode_raw c Hc) as Hd. rewrite He in Hd. destruct Hd as [Hpos Hd].
  unfold slot_event. destruct (N.eqb_spec e 0); [lia|]. by rewrite Hd.
Qed.

Lemma waiting_store q i c e :
  u32_change c → encode_event c = Some e → slots q !! i = Some 0%N →
  waiting (set_slots (<[i := e]> (slots q)) q) ≡ₚ c :: waiting q.
Proof.
  intros Hc He Hi. unfold waiting. simpl. destruct (omap_insert _ i 0%N e Hi) as [-> ->].
  by rewrite (slot_event_encode c e).
Qed.

Lemma waiting_take q i e :
  slots q !! i = Some e →
  waiting q ≡ₚ option_list (slot_event e) ++ waiting (set_slots (<[i := 0%N]> (slots q)) q).
Proof. intros Hi. unfold waiting. simpl. by destruct (omap_insert _ i e 0%N Hi) as [-> ->]. Qed.

Lemma push_step_inv q c q' s' p a l a' l' h r :
  push_step q p = Some (q', s') → push_change p = c → u32_change c →
  after_push s' a l = (a', l') →
  length (slots q) = SESSION_EVENT_QUEUE_CAPACITY →
  (l = true → overflowed q = true) → waiting q ++ h ≡ₚ r ++ a →
  length (slots q') = SESSION_EVENT_QUEUE_CAPACITY ∧ push_change s' = c ∧
  (l' = true → overflowed q' = true) ∧ waiting q' ++ h ≡ₚ r ++ a'.
Proof.
  intros E Hp Hc Ha Hlen Hl Hw. destruct p as [c0|c0 start offset|c0|c0 b]; simpl in *; subst c0.
  - destruct (encode_event c); simplify_eq/=; by split_and!.
  - destruct (offset <? SESSION_EVENT_QUEUE_CAPACITY)%nat; [|by simplify_eq/=].
    destruct (slots q !! slot_index start offset) as [[|x]|] eqn:Es;
      destruct (encode_event c) as [e|] eqn:Ee; simplify_eq/=; try done.
    split_and!; try done; [by rewrite length_insert|].
    rewrite (waiting_store q _ c e) by done. rewrite <- Permutation_middle. simpl. by constructor.
  - simplify_eq/=. by split_and!.
  - done.
Qed.

Lemma pop_step_inv q p q' p' d l d' l' a n :
  pop_step q p = Some (q', p') → after_pop p' d l = (d', l') →
  length (slots q) = SESSION_EVENT_QUEUE_CAPACITY →
  (l = true → overflowed q = true) → waiting q ++ in_hand p ++ d ≡ₚ overflow_reports n ++ a →
  length (slots q') = SESSION_EVENT_QUEUE_CAPACITY ∧
  (l' = true → overflowed q' = true) ∧
  waiting q' ++ in_hand p' ++ d' ≡ₚ overflow_reports (flag_falls q q' + n) ++ a.
Proof.
  intros E Ha Hlen Hl Hw. unfold flag_falls. destruct p as [| |start offset|index e|answer]; simpl in *.
  - destruct (overflowed q) eqn:Eo; simplify_eq/=; split_and!; try done. rewrite <- Permutation_middle. by constructor.
  - simplify_eq/=. rewrite andb_negb_r. done.
  - destruct (offset <? SESSION_EVENT_QUEUE_CAPACITY)%nat.
    2: { simplify_eq/=. by rewrite andb_negb_r. }
    destruct (slots q !! slot_index start offset) as [e|] eqn:Es; [|done].
    rewrite (waiting_take q _ e) in Hw by done. unfold slot_event in Hw. injection E as <- <-. cbn [overflowed set_slots].
    rewrite andb_negb_r. split; [cbn; by rewrite length_insert|].
    destruct (e =? 0)%N; cbn [after_pop] in Ha; injection Ha as <- <-; split; [exact Hl| |exact Hl|];
      cbn [option_list option_rect in_hand app] in *; [exact Hw|].
    etrans; [symmetry; apply Permutation_middle|]. exact Hw.
  - injection E as <- <-. cbn [after_pop] in Ha. apply pair_equal_spec in Ha as [<- <-]. cbn [overflowed set_read_cursor slots in_hand].
    rewrite andb_negb_r. split_and!; [exact Hlen|by destruct (is_overflow _)|exact Hw].
  - done.
Qed.

Lemma queue_step_inv s s' : queue_step s s' → queue_inv s → queue_inv s'.
Proof.
  intros Hs [Hlen Hp Hw Hl].
  destruct Hs as [q ps pop a d l n c Hc|q ps pop a d l n i p q' p' a' l' Hi E Ha
    |q ps pop a d l n q' pop' d' l' E Ha|q ps answer a d l n]; simpl in *.
  - split; simpl; try done. apply Forall_app. split; [done|]. by apply Forall_singleton.
  - destruct (push_step_inv q (push_change p) q' p' p a l a' l' (in_hand pop ++ d) (overflow_reports n)) as (? & Hc & ? & ?);
      try done.
    { by eapply (Forall_lookup_1 _ _ _ _ Hp). }
    split; simpl; try done. apply Forall_insert; [done|]. rewrite Hc.
    by eapply (Forall_lookup_1 _ _ _ _ Hp).
  - destruct (pop_step_inv q pop q' pop' d l d' l' a n) as (? & ? & ?); try done.
  - by split.
Qed.

Lemma reachable_queue_inv s : rtc queue_step start_system s → queue_inv s.
Proof.
  intros Hr. assert (queue_inv start_system) as Hi by by split; [done|constructor|..].
  induction Hr as [s|s1 s2 s3 H12 _ IH]; [done|]. by apply IH, (queue_step_inv s1).
Qed.

(** C34. No session change is lost, doubled or made up, however the threads interleave:
    in every reachable state the changes waiting in the slots, the one the consumer has
    taken out and every answer that pops have given are, together and with their
    multiplicities, exactly the changes whose push reported success and one report of an
    overflow for each time a pop took the overflow flag down; so a pop that empties a
    slot answers with what was in it, and one that clears the flag answers with the
    overflow.  Whenever a push was refused and no pop has answered with an overflow
    since, the flag is set, so the consumer will be told. *)
Theorem no_change_lost s :
  rtc queue_step start_system s →
  waiting (queue s) ++ in_hand (popping s) ++ answered s ≡ₚ overflow_reports (flag_taken s) ++ accepted s ∧
  (unreported_loss s = true → overflowed (queue s) = true) ∧
  length (slots (queue s)) = SESSION_EVENT_QUEUE_CAPACITY.
Proof.
  intros Hr. by destruct (reachable_queue_inv s Hr).
Qed.

Definition example_change : SessionChange := {| change_event_type := 2; change_session_id := 2 |}.

(** A push is refused, a pop reports it. *)
Definition refused_change : SessionChange := {| change_event_type := U32_MAX; change_session_id := U32_MAX |}.

Lemma no_change_lost_witness :
  ∃ s, rtc queue_step start_system s ∧ answered s = [session_change_overflow] ∧ flag_taken s = 1 ∧
    waiting (queue s) ++ in_hand (popping s) ++ answered s ≡ₚ overflow_reports (flag_taken s) ++ accepted s.
Proof.
  eexists. assert (rtc queue_step start_system (mk_system new_queue [PushDone refused_change false]
    (PopDone (Some session_change_overflow)) [] [session_change_overflow] false 1)) as Hr.
  { eapply rtc_l; [apply (step_begin_push _ _ _ _ _ _ _ refused_change); split; vm_compute; discriminate|].
    eapply rtc_l; [exact (step_push new_queue [PushStart refused_change] PopIdle [] [] false 0 0
      (PushStart refused_change) _ (PushDone refused_change false) [] true eq_refl eq_refl eq_refl)|].
    apply rtc_once. exact (step_pop (set_overflowed true new_queue) [PushDone refused_change false] PopIdle [] [] true 0
      new_queue (PopDone (Some session_change_overflow)) [session_change_overflow] false eq_refl eq_refl). }
  split; [exact Hr|]. split_and!; [reflexivity..|]. apply (no_change_lost _ Hr).
Defined.

(** ** Operations without interference *)

Lemma slot_index_mod start offset :
  slot_index start offset = N.to_nat ((start + N.of_nat offset) mod 64).
Proof.
  unfold slot_index. f_equal. change (N.of_nat SESSION_EVENT_QUEUE_CAPACITY) with 64%N.
  set (x := (start + N.of_nat offset)%N). change USIZE with (64 * 2 ^ 58)%N.
  rewrite N.Div0.mod_mul_r, N.mul_comm, N.Div0.mod_add. apply N.Div0.mod_mod.
Qed.

Lemma slot_index_lt start offset : slot_index start offset < SESSION_EVENT_QUEUE_CAPACITY.
Proof.
  rewrite slot_index_mod. pose proof (N.mod_upper_bound (start + N.of_nat offset) 64 ltac:(done)).
  unfold SESSION_EVENT_QUEUE_CAPACITY. lia.
Qed.

(** The 64 probes of one scan visit every slot. *)
Lemma slot_index_surjective start i :
  i < SESSION_EVENT_QUEUE_CAPACITY → ∃ j, j < SESSION_EVENT_QUEUE_CAPACITY ∧ slot_index start j = i.
Proof.
  unfold SESSION_EVENT_QUEUE_CAPACITY. intros Hi.
  pose proof (N.mod_upper_bound start 64 ltac:(done)) as Hs.
  exists (N.to_nat ((N.of_nat i + (64 - start mod 64)) mod 64)).
  pose proof (N.mod_upper_bound (N.of_nat i + (64 - start mod 64)) 64 ltac:(done)) as Hj.
  split; [lia|]. rewrite slot_index_mod, N2Nat.id, N.Div0.add_mod_idemp_r.
  rewrite (N.div_mod start 64) at 1 by done.
  replace (64 * (start / 64) + start mod 64 + (N.of_nat i + (64 - start mod 64)))%N
    with (N.of_nat i + (start / 64 + 1) * 64)%N by lia.
  rewrite N.Div0.mod_add, N.mod_small by lia. lia.
Qed.

Lemma slot_in_range q start offset :
  length (slots q) = SESSION_EVENT_QUEUE_CAPACITY → ∃ e, slots q !! slot_index start offset = Some e.
Proof. intros Hl. apply lookup_lt_is_Some. rewrite Hl. apply slot_index_lt. Qed.

(** Scans from [offset] on: either every slot still to be probed is taken, or the
    first free one gets the change. *)
Lemma run_push_probe fuel q c start offset e :
  length (slots q) = SESSION_EVENT_QUEUE_CAPACITY → u32_change c → encode_event c = Some e →
  offset ≤ SESSION_EVENT_QUEUE_CAPACITY → SESSION_EVENT_QUEUE_CAPACITY - offset + 2 ≤ fuel →
  ∃ b q', run_push fuel q (PushProbe c start offset) = Some (b, q') ∧
    (if b then waiting q' ≡ₚ c :: waiting q ∧ 0%N ∈ slots q ∧ overflowed q' = overflowed q
     else q' = set_overflowed true q ∧
       ∀ j, offset ≤ j < SESSION_EVENT_QUEUE_CAPACITY → slots q !! slot_index start j ≠ Some 0%N).
Proof.
  intros Hlen Hc He. revert offset. induction fuel as [|fuel IH]; intros offset Ho Hf; [lia|].
  cbn [run_push push_step]. destruct (Nat.ltb_spec offset SESSION_EVENT_QUEUE_CAPACITY) as [Hlt|Hge].
  - destruct (slot_in_range q start offset Hlen) as [x Hx]. rewrite Hx, He.
    destruct x as [|p].
    + destruct fuel; simpl; (eexists true, _; split; [reflexivity|]; split_and!;
        [by apply waiting_store|by eapply list_elem_of_lookup_2|done]).
    + destruct (IH (S offset)) as (b & q' & Hr & Hb); [lia..|]. exists b, q'. split; [done|].
      destruct b; [done|]. destruct Hb as [-> Hb]. split; [done|]. intros j Hj.
      destruct (decide (j = offset)) as [->|]; [by rewrite Hx|]. apply Hb. lia.
  - destruct fuel as [|fuel]; [lia|]. exists false, (set_overflowed true q).
    split; [by destruct fuel|]. split; [done|]. intros j. lia.
Qed.

Lemma run_pop_probe fuel q start offset :
  length (slots q) = SESSION_EVENT_QUEUE_CAPACITY →
  offset ≤ SESSION_EVENT_QUEUE_CAPACITY → SESSION_EVENT_QUEUE_CAPACITY - offset + 2 ≤ fuel →
  ∃ a q', run_pop fuel q (PopProbe start offset) = Some (a, q') ∧ overflowed q' = overflowed q ∧
    match a with
    | Some c => waiting q ≡ₚ c :: waiting q'
    | None => waiting q' = waiting q ∧
        ∀ j, offset ≤ j < SESSION_EVENT_QUEUE_CAPACITY → slots q !! slot_index start j = Some 0%N
    end.
Proof.
  revert q offset. induction fuel as [|fuel IH]; intros q offset Hlen Ho Hf; [lia|].
  cbn [run_pop pop_step]. destruct (Nat.ltb_spec offset SESSION_EVENT_QUEUE_CAPACITY) as [Hlt|Hge].
  - destruct (slot_in_range q start offset Hlen) as [x Hx]. rewrite Hx.
    pose proof (waiting_take q _ _ Hx) as Hw. unfold slot_event in Hw.
    destruct (N.eqb_spec x 0) as [->|].
    + rewrite (list_insert_id _ _ _ Hx) in *. replace (set_slots (slots q) q) with q by by destruct q.
      destruct (IH q (S offset)) as (a & q' & Hr & Ho' & Ha); [done|lia..|].
      exists a, q'. split; [done|]. split; [done|]. destruct a; [done|].
      destruct Ha as [? Ha]. split; [done|]. intros j Hj.
      destruct (decide (j = offset)) as [->|]; [done|]. apply Ha. lia.
    + destruct fuel as [|fuel]; [lia|]. eexists (Some _), _. split; [by destruct fuel|].
      split; [done|]. exact Hw.
  - exists None, q. split; [by destruct fuel|]. split_and!; try done. intros j. lia.
Qed.

Lemma waiting_empty q :
  length (slots q) = SESSION_EVENT_QUEUE_CAPACITY →
  (∀ j, 0 ≤ j < SESSION_EVENT_QUEUE_CAPACITY → slots q !! slot_index (read_cursor q) j = Some 0%N) →
  waiting q = [].
Proof.
  intros Hlen Hall. unfold waiting. assert (Forall (λ e, e = 0%N) (slots q)) as Hz.
  { apply Forall_lookup. intros i e Hi. destruct (slot_index_surjective (read_cursor q) i) as (j & Hj & Hij).
    - rewrite <- Hlen. by eapply lookup_lt_Some.
    - specialize (Hall j ltac:(lia)). rewrite Hij in Hall. congruence. }
  clear Hlen Hall. induction Hz as [|e l -> _ IH]; [done|]. exact IH.
Qed.

Lemma run_push_start fuel q c :
  run_push (S fuel) q (PushStart c) =
    match push_step q (PushStart c) with Some (q', s') => run_push fuel q' s' | None => None end.
Proof. reflexivity. Qed.

Lemma run_pop_start fuel q :
  run_pop (S fuel) q PopIdle =
    match pop_step q PopIdle with Some (q', s') => run_pop fuel q' s' | None => None end.
Proof. reflexivity. Qed.

(** Alone with the queue, each operation does what it promises and ends: a push
    stores its change exactly when some slot is free and otherwise raises the
    overflow; a pop first reports an overflow and clears it, then takes one waiting
    change out, and answers nothing only when nothing is waiting - the 64 probes
    reach every slot wherever the cursors stand, wrap-around included. *)
Theorem quiescent_operations q c :
  length (slots q) = SESSION_EVENT_QUEUE_CAPACITY → u32_change c → is_Some (encode_event c) →
  (∃ q', push q c = Some (bool_decide (0%N ∈ slots q), q') ∧
     if bool_decide (0%N ∈ slots q) then
       waiting q' ≡ₚ c :: waiting q ∧ overflowed q' = overflowed q
     else waiting q' = waiting q ∧ overflowed q' = true) ∧
  (∃ a q', pop q = Some (a, q') ∧ overflowed q' = false ∧
     if overflowed q then a = Some session_change_overflow ∧ waiting q' = waiting q
     else match a with
          | Some d => waiting q ≡ₚ d :: waiting q'
          | None => waiting q = [] ∧ waiting q' = []
          end).
Proof.
  intros Hlen Hc [e He]. split.
  - unfold push, OPERATION_FUEL. rewrite run_push_start. unfold push_step. rewrite He. cbv beta iota. set (q1 := mk_queue _ _ _ _).
    destruct (run_push_probe (3 + SESSION_EVENT_QUEUE_CAPACITY) q1 c (write_cursor q) 0 e)
      as (b & q' & Hr & Hb); try done; [lia..|]. rewrite Hr. exists q'.
    destruct b.
    + destruct Hb as (Hw & Hin & Ho). by rewrite bool_decide_eq_true_2.
    + destruct Hb as [-> Hb]. rewrite bool_decide_eq_false_2; [done|].
      intros (i & Hi)%list_elem_of_lookup.
      destruct (slot_index_surjective (write_cursor q) i) as (j & Hj & Hij);
        [rewrite <- Hlen; by eapply lookup_lt_Some|].
      apply (Hb j); [lia|]. by rewrite Hij.
  - unfold pop, OPERATION_FUEL. rewrite run_pop_start. unfold pop_step. destruct (overflowed q) eqn:Eo; [by eexists _, _|]. cbv beta iota.
    set (q1 := set_overflowed false q).
    destruct (run_pop_probe (2 + SESSION_EVENT_QUEUE_CAPACITY) q1 (read_cursor q1) 0)
      as (a & q' & Hr & Ho & Ha); try done; [lia..|].
    exists a, q'. split; [exact Hr|]. split; [done|]. destruct a; [done|]. destruct Ha as [Hw Hall].
    rewrite Hw. pose proof (waiting_empty q1 Hlen Hall). done.
Qed.

Lemma quiescent_operations_witness :
  ∃ q', push new_queue example_change = Some (true, q') ∧ waiting q' ≡ₚ [example_change].
Proof.
  destruct (proj1 (quiescent_operations new_queue example_change eq_refl
    ltac:(split; vm_compute; discriminate) ltac:(by vm_compute; eexists))) as (q' & Hp & Hw).
  rewrite bool_decide_eq_true_2 in Hp, Hw by (vm_compute; by left).
  exists q'. split; [exact Hp|]. exact (proj1 Hw).
Defined.
