(* ===== verification/Manifest.v ===== *)
(** * Runtime manifests, generations and pins

    [service-runtime/contract/src/manifest.rs], [migration_pin.rs] and
    [broker.rs]: which package a runtime generation may be made of, the identity
    derived from its files, the pins a migration keeps and the verbs of the setup
    broker.  SHA-256 and the derived JSON parsers are third-party code and stay
    parameters; a digest is only known to have 32 bytes. *)

From stdpp Require Import sorting.
From S2P Require Export Health.

(** A [BTreeMap<String, _>] is a map; it is iterated in the byte order of its keys. *)
Definition string_leb (a b : string) : bool := String.leb a b.
Definition string_le (a b : string) : Prop := Is_true (string_leb a b).

#[export] Instance string_le_dec : RelDecision string_le.
Proof. intros a b. unfold string_le. apply _. Defined.

Definition keys_in_order {V : Type} (m : gmap string V) : list string :=
  merge_sort string_le (map_to_list m).*1.

(** ** Digests *)

Class Sha256 := {
  sha256 : list ascii → list ascii;
  sha256_length : ∀ bytes, length (sha256 bytes) = 32
}.

Definition hex_digit (n : N) : ascii :=
  ascii_of_N (if (n <? 10)%N then 48 + n else 87 + n).

(** [{byte:02x}] *)
Definition hex_byte (b : ascii) : list ascii :=
  [hex_digit (N_of_ascii b / 16); hex_digit (N_of_ascii b mod 16)].

Definition hex (bytes : list ascii) : list ascii := concat (map hex_byte bytes).

Definition sha256_digest `{Sha256} (bytes : list ascii) : string :=
  "sha256:" ++ bytes_str (hex (sha256 bytes)).

Definition RUNTIME_MANIFEST_SCHEMA : N := 1.
Definition MAX_RUNTIME_FILE_BYTES : N := 32 * 1024 * 1024.

Definition IMMUTABLE_RUNTIME_FILES : list string :=
  ["mactype-service.exe"; "mactype-injector32.exe"; "mactype-injector64.exe"; "MacType.dll";
   "MacType64.dll"].

Record RuntimeManifest := {
  schema : N;
  manifest_version : string;
  manifest_files : gmap string string
}.

Record VerifiedRuntimeManifest := {
  verified_version : string;
  verified_files : list string
}.

Inductive ManifestError :=
| InvalidJson | UnsupportedSchema | InvalidVersion | InvalidFileSet | InvalidHash | HashMismatch
| FileEmpty | FileTooLarge.

#[export] Instance ManifestError_eq_dec : EqDecision ManifestError.
Proof. solve_decision. Defined.

Definition is_allowed_name (name : string) : bool := one_of IMMUTABLE_RUNTIME_FILES name.

Definition file_count : N := N.of_nat (length IMMUTABLE_RUNTIME_FILES).

Definition exact_runtime_file_set {T : Type} (files : gmap string T) : bool :=
  (N.of_nat (size files) =? file_count)%N &&
  forallb (contains_key files) IMMUTABLE_RUNTIME_FILES &&
  forallb is_allowed_name (map_to_list files).*1.

Definition canonical_sha256 (value : string) : bool :=
  (str_len value =? 71)%N && starts_with "sha256:" value &&
  forallb is_lower_hex (drop 7 (str_bytes value)).

(** [b'.' | b'-' | b'+'] *)
Definition version_byte (b : ascii) : bool :=
  is_ascii_alphanumeric b || (b =? ".")%char || (b =? "-")%char || (b =? "+")%char.

Definition numeric_component (component : list ascii) : bool :=
  negb (bytes_len component =? 0)%N && forallb is_ascii_digit component.

Definition valid_version (version : string) : bool :=
  if str_is_empty version || (64 <? str_len version)%N ||
     negb (forallb version_byte (str_bytes version))
  then false
  else
    let core := default [] (head (split_on (λ b, (b =? "-")%char || (b =? "+")%char)
                                   (str_bytes version))) in
    let components := split_on (λ b, (b =? ".")%char) core in
    (N.of_nat (length components) =? 3)%N && forallb numeric_component components.

Definition valid_runtime_version_component (version : string) : bool :=
  negb (str_is_empty version) && (str_len version <=? 64)%N &&
  forallb version_byte (str_bytes version) && negb (one_of ["."; ".."] version).

Section Manifest.
Context `{Sha256}.
(** The JSON parser derived for [RuntimeManifest]. *)
Context (parse_manifest : list ascii → option RuntimeManifest).

(** The material of the identity, one file after the other. *)
Fixpoint identity_material (names : list string) (files : gmap string (list ascii))
    : result (list ascii) ManifestError :=
  match names with
  | [] => Ok []
  | name :: names' =>
      let-? bytes := ok_or (files !! name) InvalidFileSet in
      if (bytes_len bytes =? 0)%N then Err FileEmpty
      else if (MAX_RUNTIME_FILE_BYTES <? bytes_len bytes)%N then Err FileTooLarge
      else
        let-? rest := identity_material names' files in
        Ok (str_bytes name ++ str_bytes (sha256_digest bytes) ++ rest)
  end.

Definition runtime_generation_id (files : gmap string (list ascii)) : result string ManifestError :=
  if negb (exact_runtime_file_set files) then Err InvalidFileSet
  else
    let-? material := identity_material IMMUTABLE_RUNTIME_FILES files in
    Ok (bytes_str (drop 7 (str_bytes (sha256_digest material)))).

(** The checks on one entry of the manifest. *)
Definition verify_entry (expected_hash : string) (package : option (list ascii))
    : result unit ManifestError :=
  if negb (canonical_sha256 expected_hash) then Err InvalidHash
  else
    let-? bytes := ok_or package InvalidFileSet in
    if (bytes_len bytes =? 0)%N then Err FileEmpty
    else if (MAX_RUNTIME_FILE_BYTES <? bytes_len bytes)%N then Err FileTooLarge
    else if negb (sha256_digest bytes =? expected_hash)%string then Err HashMismatch
    else Ok tt.

Fixpoint verify_entries (names : list string) (files : gmap string string)
    (package : gmap string (list ascii)) : result unit ManifestError :=
  match names with
  | [] => Ok tt
  | name :: names' =>
      match files !! name with
      | Some expected_hash =>
          let-? _ := verify_entry expected_hash (package !! name) in
          verify_entries names' files package
      | None => verify_entries names' files package
      end
  end.

Definition verify_runtime_manifest (manifest_json : list ascii) (package : gmap string (list ascii))
    : result VerifiedRuntimeManifest ManifestError :=
  let-? manifest := ok_or (parse_manifest manifest_json) InvalidJson in
  if negb (schema manifest =? RUNTIME_MANIFEST_SCHEMA)%N then Err UnsupportedSchema
  else if negb (valid_version (manifest_version manifest)) then Err InvalidVersion
  else
    let files := manifest_files manifest in
    if negb (N.of_nat (size files) =? file_count)%N
       || existsb (λ name, negb (contains_key files name)) IMMUTABLE_RUNTIME_FILES
       || existsb (λ name, negb (is_allowed_name name)) (map_to_list files).*1
       || negb (N.of_nat (size package) =? N.of_nat (size files))%N
       || existsb (λ name, negb (contains_key files name)) (map_to_list package).*1
    then Err InvalidFileSet
    else
      let-? _ := verify_entries (keys_in_order files) files package in
      Ok {| verified_version := manifest_version manifest; verified_files := keys_in_order files |}.
End Manifest.

(** ** Migration pins ([migration_pin.rs]) *)

Definition MIGRATION_RUNTIME_PIN_SCHEMA : N := 1.
Definition MAX_PINNED_RUNTIMES : N := 64.

Record MigrationPinnedRuntime := {
  pinned_version : string;
  pinned_files : gmap string string;
  generated_profile : option string
}.

Record MigrationRuntimePin := {
  pin_schema : N;
  nonce : string;
  runtimes : list MigrationPinnedRuntime
}.

Definition pinned_runtime_validate (r : MigrationPinnedRuntime) : bool :=
  negb (negb (valid_version (pinned_version r))
        || negb (exact_runtime_file_set (pinned_files r))
        || existsb (λ digest, negb (canonical_sha256 digest)) (map_to_list (pinned_files r)).*2
        || is_some_and (generated_profile r) (λ digest, negb (canonical_sha256 digest))).

Definition pin_validate (p : MigrationRuntimePin) : bool :=
  if negb (pin_schema p =? MIGRATION_RUNTIME_PIN_SCHEMA)%N
     || negb (str_len (nonce p) =? 32)%N
     || negb (forallb is_lower_hex (str_bytes (nonce p)))
     || (N.of_nat (length (runtimes p)) =? 0)%N
     || (MAX_PINNED_RUNTIMES <? N.of_nat (length (runtimes p)))%N
     || existsb (λ r, negb (pinned_runtime_validate r)) (runtimes p)
  then false
  else (N.of_nat (size (list_to_set (C := gset string) (map pinned_version (runtimes p))))
        =? N.of_nat (length (runtimes p)))%N.

Definition new_pinned_runtime (version : string) (files : gmap string string)
    (profile : option string) : option MigrationPinnedRuntime :=
  let r := {| pinned_version := version; pinned_files := files; generated_profile := profile |} in
  if pinned_runtime_validate r then Some r else None.

Definition new_pin (n : string) (rs : list MigrationPinnedRuntime) : option MigrationRuntimePin :=
  let p := {| pin_schema := MIGRATION_RUNTIME_PIN_SCHEMA; nonce := n; runtimes := rs |} in
  if pin_validate p then Some p else None.

(** ** Verbs of the setup broker ([broker.rs]) *)

Inductive BrokerCommand :=
| Install | Upgrade | Repair | Remove | Start | Stop | PublishProfile | MigrateFromLegacy | Rollback
| RestoreRuntime.

#[export] Instance BrokerCommand_eq_dec : EqDecision BrokerCommand.
Proof. solve_decision. Defined.

Definition BROKER_COMMANDS : list (BrokerCommand * string) :=
  [(Install, "install"); (Upgrade, "upgrade"); (Repair, "repair"); (Remove, "remove");
   (Start, "start"); (Stop, "stop"); (PublishProfile, "publish-profile");
   (MigrateFromLegacy, "migrate-from-legacy"); (Rollback, "rollback");
   (RestoreRuntime, "restore-runtime")].

(** [self as usize] *)
Definition discriminant (c : BrokerCommand) : nat :=
  match c with
  | Install => 0 | Upgrade => 1 | Repair => 2 | Remove => 3 | Start => 4 | Stop => 5
  | PublishProfile => 6 | MigrateFromLegacy => 7 | Rollback => 8 | RestoreRuntime => 9
  end.

(** [BROKER_COMMANDS[self as usize].1], [None] when the index is out of range. *)
Definition verb (c : BrokerCommand) : option string :=
  option_map snd (BROKER_COMMANDS !! discriminant c).

Definition parse_verb (v : string) : option BrokerCommand :=
  option_map fst (List.find (λ entry, (entry.2 =? v)%string) BROKER_COMMANDS).

Definition parse_broker_command (arguments : list string) : option BrokerCommand :=
  match arguments with
  | [] => None
  | v :: [] => parse_verb v
  | _ :: _ :: _ => None
  end.

(** ** Facts about sets of runtime files *)

Lemma one_of_elem options s : one_of options s = true ↔ s ∈ options.
Proof.
  unfold one_of. rewrite existsb_exists, list_elem_of_In. split.
  - by intros (x & Hx & ->%String.eqb_eq).
  - intros Hx. exists s. by rewrite String.eqb_refl.
Qed.

Lemma forallb_elem {A} (p : A → bool) (l : list A) :
  forallb p l = true ↔ ∀ x, x ∈ l → p x = true.
Proof.
  rewrite forallb_forall. split; intros Hx x; [rewrite list_elem_of_In|rewrite <- list_elem_of_In]; auto.
Qed.

Lemma existsb_negb {A} (p : A → bool) (l : list A) :
  existsb (λ x, negb (p x)) l = negb (forallb p l).
Proof. induction l as [|x l IH]; simpl; [done|]. rewrite IH. by destruct (p x). Qed.

Lemma elem_of_keys {V} (m : gmap string V) k : k ∈ (map_to_list m).*1 ↔ k ∈ dom m.
Proof.
  rewrite elem_of_dom, list_elem_of_fmap. split.
  - intros ([k' v] & -> & Hkv%elem_of_map_to_list). by exists v.
  - intros [v Hv]. exists (k, v). split; [done|]. by apply elem_of_map_to_list.
Qed.

Lemma elem_of_keys_in_order {V} (m : gmap string V) k : k ∈ keys_in_order m ↔ is_Some (m !! k).
Proof. unfold keys_in_order. by rewrite merge_sort_Permutation, elem_of_keys, elem_of_dom. Qed.

Definition runtime_file_names : gset string := list_to_set IMMUTABLE_RUNTIME_FILES.

Lemma size_runtime_file_names : N.of_nat (size runtime_file_names) = file_count.
Proof. vm_compute. reflexivity. Qed.

Lemma allowed_keys {V} (m : gmap string V) :
  forallb is_allowed_name (map_to_list m).*1 = true ↔ dom m ⊆ runtime_file_names.
Proof.
  rewrite forallb_elem. split.
  - intros Hall k Hk. apply elem_of_list_to_set, one_of_elem, Hall. by apply elem_of_keys.
  - intros Hsub k Hk%elem_of_keys. apply one_of_elem, (elem_of_list_to_set (C := gset string)).
    by apply Hsub.
Qed.

Lemma required_keys {V} (m : gmap string V) :
  forallb (contains_key m) IMMUTABLE_RUNTIME_FILES = true ↔ runtime_file_names ⊆ dom m.
Proof.
  rewrite forallb_elem. split.
  - intros Hall k Hk%elem_of_list_to_set. apply elem_of_dom, contains_key_true. by apply Hall.
  - intros Hsub k Hk. apply contains_key_true, elem_of_dom, Hsub. by apply elem_of_list_to_set.
Qed.

(** A map with exactly the runtime files. *)
Lemma exact_runtime_file_set_spec {V} (m : gmap string V) :
  exact_runtime_file_set m = true ↔ dom m = runtime_file_names.
Proof.
  unfold exact_runtime_file_set. rewrite !andb_true_iff, required_keys, allowed_keys, N.eqb_eq. split.
  - intros [[_ ?] ?]. by apply set_eq_subseteq.
  - intros Hd. rewrite <- (size_dom (D := gset string)), Hd, size_runtime_file_names. set_solver.
Qed.

(** ** Digests are canonical, and equal only for equal bytes or on a collision *)

Lemma str_bytes_app a b : str_bytes (a ++ b) = str_bytes a ++ str_bytes b.
Proof. unfold str_bytes. induction a as [|c a IH]; simpl; [done|]. by rewrite IH. Qed.

Lemma str_bytes_str l : str_bytes (bytes_str l) = l.
Proof. apply list_ascii_of_string_of_list_ascii. Qed.

Lemma str_bytes_inj a b : str_bytes a = str_bytes b → a = b.
Proof.
  unfold str_bytes. intros Hab. by rewrite <- (string_of_list_ascii_of_string a), Hab,
    string_of_list_ascii_of_string.
Qed.

Lemma hex_length bytes : length (hex bytes) = 2 * length bytes.
Proof. induction bytes as [|b l IH]; [done|]. unfold hex in *. simpl in *. lia. Qed.

Lemma hex_byte_lower b : forallb is_lower_hex (hex_byte b) = true.
Proof. destruct b as [[] [] [] [] [] [] [] []]; vm_compute; reflexivity. Qed.

Lemma hex_lower bytes : forallb is_lower_hex (hex bytes) = true.
Proof.
  induction bytes as [|b l IH]; [done|]. unfold hex in *. cbn [map concat].
  by rewrite forallb_app, hex_byte_lower, IH.
Qed.

Lemma hex_byte_inj a b : hex_byte a = hex_byte b → a = b.
Proof.
  assert (∀ c, exists d, hex_byte c = d ∧
    ascii_of_N (match d with
      | [h; l] => (let v x := if (N_of_ascii x <? 58)%N then N_of_ascii x - 48 else N_of_ascii x - 87 in
                  v h * 16 + v l)%N | _ => 0%N end) = c) as Hinv.
  { intros c. eexists. split; [reflexivity|].
    destruct c as [[] [] [] [] [] [] [] []]; vm_compute; reflexivity. }
  intros Hab. destruct (Hinv a) as (d & Hd & Ha), (Hinv b) as (d' & Hd' & Hb).
  assert (d = d') as -> by congruence. congruence.
Qed.

Lemma hex_inj a b : hex a = hex b → a = b.
Proof.
  revert b. induction a as [|x a IH]; intros [|y b]; try done. intros Hab.
  change (hex_byte x ++ hex a = hex_byte y ++ hex b) in Hab.
  apply app_inj_1 in Hab as [Hb Ht]; [|done]. f_equal; [by apply hex_byte_inj|by apply IH].
Qed.

Section Digest.
Context `{Sha256}.

(** Two different inputs with the same digest. *)
Definition collision : Prop := ∃ x y, x ≠ y ∧ sha256 x = sha256 y.

Lemma digest_bytes bytes :
  str_bytes (sha256_digest bytes) = str_bytes "sha256:" ++ hex (sha256 bytes).
Proof. unfold sha256_digest. by rewrite str_bytes_app, str_bytes_str. Qed.

Lemma digest_drop bytes : drop 7 (str_bytes (sha256_digest bytes)) = hex (sha256 bytes).
Proof. rewrite digest_bytes. simpl. by rewrite drop_0. Qed.

Lemma digest_length bytes : length (str_bytes (sha256_digest bytes)) = 71.
Proof. by rewrite digest_bytes, length_app, hex_length, sha256_length. Qed.

Lemma digest_canonical bytes : canonical_sha256 (sha256_digest bytes) = true.
Proof.
  unfold canonical_sha256. rewrite str_len_bytes. unfold bytes_len. rewrite digest_length.
  unfold starts_with. rewrite digest_bytes. simpl. by rewrite drop_0, hex_lower.
Qed.

Lemma digest_inj a b : sha256_digest a = sha256_digest b → a = b ∨ collision.
Proof.
  intros Hd. apply (f_equal str_bytes) in Hd. rewrite !digest_bytes in Hd.
  apply app_inv_head, hex_inj in Hd. destruct (decide (a = b)); [by left|right]. by exists a, b.
Qed.

Lemma identity_material_Ok names files m :
  identity_material names files = Ok m →
  ∀ name, name ∈ names → ∃ bytes, files !! name = Some bytes ∧
    (0 < bytes_len bytes <= MAX_RUNTIME_FILE_BYTES)%N.
Proof.
  revert m. induction names as [|n names IH]; intros m; simpl; [by intros _ ? ?%not_elem_of_nil|].
  destruct (files !! n) as [bytes|] eqn:En; simpl; [|done].
  destruct (N.eqb_spec (bytes_len bytes) 0); [done|].
  destruct (N.ltb_spec MAX_RUNTIME_FILE_BYTES (bytes_len bytes)); [done|].
  destruct (identity_material names files) as [rest|]; simpl; [|done]. intros _ name Hin.
  apply elem_of_cons in Hin as [->|Hin]; [|by eapply IH]. exists bytes. split; [done|]. lia.
Qed.

(** The same material means the same contents. *)
Lemma identity_material_inj names f g m :
  identity_material names f = Ok m → identity_material names g = Ok m →
  (∀ name, name ∈ names → f !! name = g !! name) ∨ collision.
Proof.
  revert m. induction names as [|n names IH]; intros m.
  { intros _ _. left. by intros ? ?%not_elem_of_nil. }
  cbn [identity_material]. destruct (f !! n) as [x|] eqn:Ex; [|done].
  destruct (g !! n) as [y|] eqn:Ey; [|done]. cbn [ok_or result_bind].
  destruct (bytes_len x =? 0)%N; [done|]. destruct (_ <? bytes_len x)%N; [done|].
  destruct (bytes_len y =? 0)%N; [done|]. destruct (_ <? bytes_len y)%N; [done|].
  destruct (identity_material names f) as [mf|]; [|done].
  destruct (identity_material names g) as [mg|]; [|done]. cbn [result_bind]. intros Ef Eg.
  assert (str_bytes (sha256_digest x) ++ mf = str_bytes (sha256_digest y) ++ mg) as Hm
    by (apply (app_inv_head (str_bytes n)); congruence).
  apply app_inj_1 in Hm as [Hd Hr]; [|by rewrite !digest_length].
  apply str_bytes_inj, digest_inj in Hd as [->|]; [|by right].
  destruct (IH mf) as [Heq|]; [done|by rewrite Hr| |by right]. left. intros name Hin.
  apply elem_of_cons in Hin as [->|Hin]; [by rewrite Ex, Ey|by apply Heq].
Qed.
End Digest.

(** ** What a generation identity and a verified manifest promise *)

Section Promises.
Context `{Sha256}.
Context (parse_manifest : list ascii → option RuntimeManifest).

Lemma generation_id_digest m :
  canonical_generation_id (bytes_str (drop 7 (str_bytes (sha256_digest m)))) = true.
Proof.
  unfold canonical_generation_id. rewrite str_len_bytes, str_bytes_str. unfold bytes_len.
  rewrite length_drop, digest_length, digest_bytes. simpl. by rewrite drop_0, hex_lower.
Qed.

(** A generation identity names its contents: it is 64 lower-case hex digits, it
    exists exactly for the five runtime files, each non-empty and within 32 MiB, and
    two file sets with the same identity are the same, byte for byte, unless two
    inputs of SHA-256 collide. *)
Theorem generation_id_binds_contents files files' id :
  runtime_generation_id files = Ok id →
  canonical_generation_id id = true ∧ dom files = runtime_file_names ∧
  (∀ name bytes, files !! name = Some bytes → (0 < bytes_len bytes <= MAX_RUNTIME_FILE_BYTES)%N) ∧
  (runtime_generation_id files' = Ok id → files = files' ∨ collision).
Proof.
  unfold runtime_generation_id. destruct (exact_runtime_file_set files) eqn:Ef; cbn [negb]; [|done].
  apply exact_runtime_file_set_spec in Ef.
  destruct (identity_material IMMUTABLE_RUNTIME_FILES files) as [m|] eqn:Em; cbn [result_bind]; [|done].
  intros <-%(inj Ok). split_and!; [apply generation_id_digest|done| |].
  - intros name bytes Hb. assert (name ∈ dom files) as Hin by by eapply elem_of_dom_2.
    rewrite Ef in Hin. apply elem_of_list_to_set in Hin.
    destruct (identity_material_Ok _ _ _ Em name Hin) as (b & ? & ?). by simplify_eq.
  - destruct (exact_runtime_file_set files') eqn:Ef'; cbn [negb]; [|done].
    apply exact_runtime_file_set_spec in Ef'.
    destruct (identity_material _ files') as [m'|] eqn:Em'; cbn [result_bind]; [|done].
    intros Hid%(inj Ok). assert (m' = m ∨ collision) as [->|]; [|..|by right].
    { apply digest_inj, str_bytes_inj. apply (f_equal str_bytes) in Hid. rewrite !str_bytes_str in Hid.
      rewrite !digest_drop in Hid. by rewrite !digest_bytes, Hid. }
    destruct (identity_material_inj _ _ _ _ Em Em') as [Heq|]; [left|by right].
    apply map_eq. intros name. destruct (decide (name ∈ runtime_file_names)) as [Hin|Hout].
    + apply Heq. by apply elem_of_list_to_set in Hin.
    + rewrite (not_elem_of_dom_1 files), (not_elem_of_dom_1 files'); congruence.
Qed.

Lemma verify_entry_spec expected package :
  verify_entry expected package = Ok tt ↔
  ∃ bytes, package = Some bytes ∧ (0 < bytes_len bytes <= MAX_RUNTIME_FILE_BYTES)%N ∧
    expected = sha256_digest bytes.
Proof.
  unfold verify_entry. split.
  - destruct (canonical_sha256 expected); cbn [negb]; [|done].
    destruct package as [bytes|]; cbn [ok_or result_bind]; [|done].
    destruct (N.eqb_spec (bytes_len bytes) 0); [done|].
    destruct (N.ltb_spec MAX_RUNTIME_FILE_BYTES (bytes_len bytes)); [done|].
    destruct (String.eqb_spec (sha256_digest bytes) expected); [|done]. intros _.
    exists bytes. split_and!; try done; lia.
  - intros (bytes & -> & Hb & ->). rewrite digest_canonical. cbn [negb ok_or result_bind].
    rewrite String.eqb_refl.
    destruct (N.eqb_spec (bytes_len bytes) 0); [lia|].
    by destruct (N.ltb_spec MAX_RUNTIME_FILE_BYTES (bytes_len bytes)); [lia|].
Qed.

Lemma verify_entries_spec names files package :
  verify_entries names files package = Ok tt ↔
  ∀ name expected, name ∈ names → files !! name = Some expected →
    verify_entry expected (package !! name) = Ok tt.
Proof.
  induction names as [|n names IH]; cbn [verify_entries].
  { split; [|done]. by intros _ ?? ?%not_elem_of_nil. }
  destruct (files !! n) as [x|] eqn:En.
  - destruct (verify_entry x (package !! n)) as [[]|e] eqn:Ev; cbn [result_bind].
    + rewrite IH. split; intros Hall name expected; [|intros ?; apply Hall; by apply elem_of_cons; right].
      intros [->|Hin]%elem_of_cons ?; [congruence|by apply Hall].
    + split; [done|]. intros Hall. rewrite <- Ev. apply (Hall n); [by apply elem_of_cons; left|done].
  - rewrite IH. split; intros Hall name expected; [|intros ?; apply Hall; by apply elem_of_cons; right].
    intros [->|Hin]%elem_of_cons ?; [congruence|by apply Hall].
Qed.

Lemma names_match {V W} (a : gmap string V) (b : gmap string W) :
  (N.of_nat (size b) =? N.of_nat (size a))%N = true →
  forallb (contains_key a) (map_to_list b).*1 = true → dom b = dom a.
Proof.
  intros Hs%N.eqb_eq Hall. assert (dom b ⊆ dom a) as Hsub.
  { intros k Hk%elem_of_keys. apply elem_of_dom, contains_key_true. rewrite forallb_elem in Hall. auto. }
  apply set_eq_subseteq. split; [done|]. rewrite <- !(size_dom (D := gset string)) in Hs.
  destruct (decide (dom b = dom a)) as [->|Hne]; [done|].
  assert (dom b ⊂ dom a) as Hlt by (split; [done|]; intros ?; apply Hne; by apply set_eq_subseteq).
  apply subset_size in Hlt. lia.
Qed.

Lemma verify_runtime_manifest_spec json package v :
  verify_runtime_manifest parse_manifest json package = Ok v ↔
  ∃ m, parse_manifest json = Some m ∧ schema m = RUNTIME_MANIFEST_SCHEMA ∧
    valid_version (manifest_version m) = true ∧
    dom (manifest_files m) = runtime_file_names ∧ dom package = runtime_file_names ∧
    (∀ name bytes, package !! name = Some bytes →
       (0 < bytes_len bytes <= MAX_RUNTIME_FILE_BYTES)%N ∧
       manifest_files m !! name = Some (sha256_digest bytes)) ∧
    v = {| verified_version := manifest_version m;
           verified_files := keys_in_order (manifest_files m) |}.
Proof.
  unfold verify_runtime_manifest. split.
  - destruct (parse_manifest json) as [m|]; cbn [ok_or result_bind]; [|done].
    destruct (N.eqb_spec (schema m) RUNTIME_MANIFEST_SCHEMA) as [Hs|]; cbn [negb]; [|done].
    destruct (valid_version (manifest_version m)) eqn:Hv; cbn [negb]; [|done].
    rewrite !existsb_negb. destruct (_ || _) eqn:Eg; [done|].
    rewrite !orb_false_iff, !negb_false_iff in Eg. destruct Eg as ((((Hn & Hreq) & Hall) & Hsize) & Hkeys).
    assert (dom (manifest_files m) = runtime_file_names) as Hdom
      by (apply exact_runtime_file_set_spec; unfold exact_runtime_file_set; by rewrite Hn, Hreq, Hall).
    destruct (verify_entries _ _ _) as [[]|] eqn:Ev; cbn [result_bind]; [|done]. intros [= <-].
    pose proof (names_match _ _ Hsize Hkeys) as Hpk. rewrite verify_entries_spec in Ev.
    exists m. split_and!; try done; [congruence|]. intros name bytes Hb.
    assert (name ∈ dom (manifest_files m)) as [x Hx]%elem_of_dom
      by (rewrite <- Hpk; by eapply elem_of_dom_2).
    specialize (Ev name x). rewrite elem_of_keys_in_order, Hx in Ev.
    destruct (proj1 (verify_entry_spec _ _) (Ev (mk_is_Some _ _ eq_refl) eq_refl)) as (b & Hb' & ? & ->).
    by simplify_eq.
  - intros (m & -> & Hs & Hv & Hdom & Hpk & Hall & ->). cbn [ok_or result_bind].
    rewrite Hs, N.eqb_refl, Hv. cbn [negb]. rewrite !existsb_negb.
    pose proof (proj2 (exact_runtime_file_set_spec (manifest_files m)) Hdom) as He.
    unfold exact_runtime_file_set in He. apply andb_prop in He as [[He1 He2]%andb_prop He3].
    assert ((N.of_nat (size package) =? N.of_nat (size (manifest_files m)))%N = true) as Hsz
      by (apply N.eqb_eq; by rewrite <- !(size_dom (D := gset string)), Hpk, Hdom).
    assert (forallb (contains_key (manifest_files m)) (map_to_list package).*1 = true) as Hk.
    { apply forallb_elem. intros k Hk%elem_of_keys. apply contains_key_true, elem_of_dom. congruence. }
    rewrite Hsz, Hk, He1, He2, He3. cbn [negb orb].
    assert (verify_entries (keys_in_order (manifest_files m)) (manifest_files m) package = Ok tt) as Hve;
      [|by rewrite Hve].
    apply verify_entries_spec. intros name expected Hin Hexp. apply verify_entry_spec.
    assert (name ∈ dom package) as [bytes Hb]%elem_of_dom
      by (rewrite Hpk, <- Hdom; by eapply elem_of_dom_2).
    destruct (Hall name bytes Hb) as [? Hd]. exists bytes. split; [done|]. split; [done|].
    apply (inj Some). by rewrite <- Hd, Hexp.
Qed.

(** A verified manifest vouches for the whole package and nothing else: the
    verification succeeds exactly when the manifest parses, has schema 1 and a valid
    version, names exactly the five runtime files, the package holds exactly these,
    and each of them is non-empty, within 32 MiB and has the digest the manifest
    states; the answer is then that version and the names in byte order. *)
Theorem verified_manifest_exact json package v :
  verify_runtime_manifest parse_manifest json package = Ok v ↔
  ∃ m, parse_manifest json = Some m ∧ schema m = RUNTIME_MANIFEST_SCHEMA ∧
    valid_version (manifest_version m) = true ∧
    dom (manifest_files m) = runtime_file_names ∧ dom package = runtime_file_names ∧
    (∀ name bytes, package !! name = Some bytes →
       (0 < bytes_len bytes <= MAX_RUNTIME_FILE_BYTES)%N ∧
       manifest_files m !! name = Some (sha256_digest bytes)) ∧
    v = {| verified_version := manifest_version m;
           verified_files := keys_in_order (manifest_files m) |}.
Proof. apply verify_runtime_manifest_spec. Qed.
End Promises.

(** A version that a manifest or a pin may carry is always a safe directory
    name: it is one path component of at most 64 bytes of letters, digits, dots,
    dashes and pluses, and neither "." nor "..", so no verified package can leave
    the directory of the runtime versions. *)
Theorem valid_version_is_component version :
  valid_version version = true → valid_runtime_version_component version = true.
Proof.
  unfold valid_version, valid_runtime_version_component. destruct (_ || _) eqn:E; [done|].
  rewrite !orb_false_iff, negb_false_iff in E. destruct E as [[He Hl] Hb]. rewrite He, Hb. intros Hv.
  andb_split. cbn [negb andb]. rewrite (proj2 (N.leb_le _ _)) by done. cbn [andb].
  apply negb_true_iff, not_true_is_false. rewrite one_of_elem. intros Hin. set_unfold in Hin.
  by destruct Hin as [->|[->|[]]].
Qed.

Lemma valid_version_is_component_witness :
  valid_runtime_version_component "1.20.3-rc.1+build" = true.
Proof. apply valid_version_is_component. vm_compute. reflexivity. Defined.

(** The setup broker understands exactly its ten verbs: a command line means a
    command if and only if it is that command's one verb without further arguments. *)
Theorem broker_command_exact arguments c :
  parse_broker_command arguments = Some c ↔ ∃ v, verb c = Some v ∧ arguments = [v].
Proof.
  assert (∀ v, parse_verb v = Some c ↔ verb c = Some v) as Hverb.
  { intros v. unfold parse_verb. split.
    - unfold BROKER_COMMANDS. cbn [List.find snd]. repeat (match goal with |- context [String.eqb ?a v] => destruct (String.eqb_spec a v) end;
        [intros [= <-]; by subst|]). done.
    - intros Hv. by destruct c; vm_compute in Hv; injection Hv as <-. }
  unfold parse_broker_command. split.
  - destruct arguments as [|v [|]]; try done. rewrite Hverb. by exists v.
  - intros (v & Hv & ->). by apply Hverb.
Qed.

(** ** A package with a concrete digest function *)

#[export] Instance example_sha256 : Sha256 := {
  sha256 bytes := replicate 32 (ascii_of_N (bytes_len bytes mod 256));
  sha256_length bytes := length_replicate _ _
}.

Definition example_package : gmap string (list ascii) :=
  list_to_map (map (λ name, (name, str_bytes name)) IMMUTABLE_RUNTIME_FILES).

Definition example_manifest : RuntimeManifest :=
  {| schema := 1; manifest_version := "1.0.0"; manifest_files := sha256_digest <$> example_package |}.

Lemma generation_id_binds_contents_witness :
  ∃ id, runtime_generation_id example_package = Ok id ∧ canonical_generation_id id = true.
Proof.
  destruct (runtime_generation_id example_package) as [id|] eqn:E; [|by vm_compute in E].
  exists id. split; [reflexivity|].
  exact (proj1 (generation_id_binds_contents example_package example_package id E)).
Defined.

Lemma verified_manifest_exact_witness :
  ∃ v, verify_runtime_manifest (λ _, Some example_manifest) [] example_package = Ok v ∧
    dom example_package = runtime_file_names.
Proof.
  destruct (verify_runtime_manifest (λ _, Some example_manifest) [] example_package) as [v|] eqn:E;
    [|by vm_compute in E].
  exists v. split; [reflexivity|].
  destruct (proj1 (verified_manifest_exact (λ _, Some example_manifest) [] example_package v) E)
    as (m & _ & _ & _ & _ & Hd & _). exact Hd.
Defined.
