(* ===== verification/Activation.v ===== *)
(** * Runtime activation receipts

    [service-runtime/contract/src/runtime_activation.rs] and [paths.rs]: the
    pointer that names the active runtime generation, the receipt that journals an
    activation, and the files they live in.  The JSON codecs derived by serde are
    parameters: [ActivationJson] lists them and [ActivationJsonLaws] states that a
    value written is the value read back. *)

From S2P Require Export Manifest.

Definition RUNTIME_POINTER_SCHEMA : N := 1.
Definition LEGACY_RUNTIME_ACTIVATION_SCHEMA : N := 1.
Definition UNCOMMITTED_RUNTIME_ACTIVATION_SCHEMA : N := 2.
Definition RUNTIME_ACTIVATION_SCHEMA : N := 3.
Definition MAX_RUNTIME_ACTIVATION_RECEIPT_BYTES : N := 16 * 1024.
Definition MAX_RUNTIME_POINTER_BYTES : N := 64 * 1024.

Record RuntimeGenerationPointer := {
  pointer_schema : N;
  version : string
}.

Inductive RuntimeActivationPhase := Candidate | Committed | RollbackRequired.

Record RuntimeActivationReceipt := {
  receipt_schema : N;
  phase : RuntimeActivationPhase;
  previous : option RuntimeGenerationPointer;
  activated : RuntimeGenerationPointer
}.

#[export] Instance RuntimeGenerationPointer_eq_dec : EqDecision RuntimeGenerationPointer.
Proof. solve_decision. Defined.
#[export] Instance RuntimeActivationPhase_eq_dec : EqDecision RuntimeActivationPhase.
Proof. solve_decision. Defined.
#[export] Instance RuntimeActivationReceipt_eq_dec : EqDecision RuntimeActivationReceipt.
Proof. solve_decision. Defined.

(** [RuntimeActivationContractError], which carries nothing. *)
Definition ContractError : Type := unit.

Inductive ParsedRuntimeActivationReceipt :=
| Legacy (previous : option RuntimeGenerationPointer)
| Uncommitted (previous : option RuntimeGenerationPointer) (activated : RuntimeGenerationPointer)
| Current (receipt : RuntimeActivationReceipt).

Record LegacyRuntimeActivationReceipt := {
  legacy_schema : N;
  legacy_previous : option RuntimeGenerationPointer
}.

Record UncommittedRuntimeActivationReceipt := {
  uncommitted_schema : N;
  uncommitted_previous : option RuntimeGenerationPointer;
  uncommitted_activated : RuntimeGenerationPointer
}.

Definition pointer_validate (p : RuntimeGenerationPointer) : bool :=
  (pointer_schema p =? RUNTIME_POINTER_SCHEMA)%N && valid_runtime_version_component (version p).

Definition new_pointer (v : string) : result RuntimeGenerationPointer ContractError :=
  let p := {| pointer_schema := RUNTIME_POINTER_SCHEMA; version := v |} in
  if pointer_validate p then Ok p else Err tt.

Definition candidate (prev : option RuntimeGenerationPointer) (act : RuntimeGenerationPointer)
    : RuntimeActivationReceipt :=
  {| receipt_schema := RUNTIME_ACTIVATION_SCHEMA; phase := Candidate; previous := prev;
     activated := act |}.

Definition with_phase (r : RuntimeActivationReceipt) (p : RuntimeActivationPhase)
    : RuntimeActivationReceipt :=
  {| receipt_schema := RUNTIME_ACTIVATION_SCHEMA; phase := p; previous := previous r;
     activated := activated r |}.

(** [previous.is_some_and(|pointer| pointer.validate().is_err())] *)
Definition optional_pointer_invalid (p : option RuntimeGenerationPointer) : bool :=
  match p with Some p => negb (pointer_validate p) | None => false end.

Definition receipt_validate (r : RuntimeActivationReceipt) : bool :=
  negb (negb (receipt_schema r =? RUNTIME_ACTIVATION_SCHEMA)%N
        || negb (pointer_validate (activated r))
        || optional_pointer_invalid (previous r)).

Definition parsed_previous (r : ParsedRuntimeActivationReceipt) : option RuntimeGenerationPointer :=
  match r with Legacy p | Uncommitted p _ => p | Current receipt => previous receipt end.

Definition parsed_activated (r : ParsedRuntimeActivationReceipt) : option RuntimeGenerationPointer :=
  match r with
  | Legacy _ => None
  | Uncommitted _ a => Some a
  | Current receipt => Some (activated receipt)
  end.

Definition parsed_phase (r : ParsedRuntimeActivationReceipt) : option RuntimeActivationPhase :=
  match r with Current receipt => Some (phase receipt) | Legacy _ | Uncommitted _ _ => None end.

(** [serde_json] and the codecs serde derives. *)
Class ActivationJson := {
  Json : Type;
  json_from_slice : list ascii → option Json;
  json_schema : Json → option N;
  current_from_value : Json → option RuntimeActivationReceipt;
  uncommitted_from_value : Json → option UncommittedRuntimeActivationReceipt;
  legacy_from_value : Json → option LegacyRuntimeActivationReceipt;
  pointer_from_slice : list ascii → option RuntimeGenerationPointer;
  pointer_to_vec : RuntimeGenerationPointer → option (list ascii);
  receipt_to_vec : RuntimeActivationReceipt → option (list ascii)
}.

(** What serde documents of them: a value that is written is read back as it was,
    and a valid value can be written, within a kilobyte. *)
Class ActivationJsonLaws `{ActivationJson} : Prop := {
  pointer_readback p bytes : pointer_to_vec p = Some bytes → pointer_from_slice bytes = Some p;
  pointer_writes p : pointer_validate p = true →
    ∃ bytes, pointer_to_vec p = Some bytes ∧ (0 < bytes_len bytes <= 1024)%N;
  receipt_readback r bytes : receipt_to_vec r = Some bytes →
    ∃ value, json_from_slice bytes = Some value ∧ json_schema value = Some (receipt_schema r) ∧
      current_from_value value = Some r;
  receipt_writes r : receipt_validate r = true →
    ∃ bytes, receipt_to_vec r = Some bytes ∧ (0 < bytes_len bytes <= 1024)%N
}.

Section Codec.
Context `{ActivationJson}.

Definition pointer_to_bytes (p : RuntimeGenerationPointer) : result (list ascii) ContractError :=
  ok_or (pointer_to_vec p) tt.

Definition receipt_to_bytes (r : RuntimeActivationReceipt) : result (list ascii) ContractError :=
  ok_or (receipt_to_vec r) tt.

Definition pointer_parse (bytes : list ascii) : result RuntimeGenerationPointer ContractError :=
  if (bytes_len bytes =? 0)%N || (MAX_RUNTIME_POINTER_BYTES <? bytes_len bytes)%N then Err tt
  else
    let-? p := ok_or (pointer_from_slice bytes) tt in
    if pointer_validate p then Ok p else Err tt.

Definition parse_runtime_activation_receipt (bytes : list ascii)
    : result ParsedRuntimeActivationReceipt ContractError :=
  if (bytes_len bytes =? 0)%N || (MAX_RUNTIME_ACTIVATION_RECEIPT_BYTES <? bytes_len bytes)%N then Err tt
  else
    let-? value := ok_or (json_from_slice bytes) tt in
    let-? schema := ok_or (json_schema value) tt in
    (* [schema as u32], then the guard of the match arm *)
    let truncated := as_u32 (Z.of_N schema) in
    if (truncated =? RUNTIME_ACTIVATION_SCHEMA)%N && (schema =? RUNTIME_ACTIVATION_SCHEMA)%N then
      let-? receipt := ok_or (current_from_value value) tt in
      if receipt_validate receipt then Ok (Current receipt) else Err tt
    else if (truncated =? UNCOMMITTED_RUNTIME_ACTIVATION_SCHEMA)%N &&
            (schema =? UNCOMMITTED_RUNTIME_ACTIVATION_SCHEMA)%N then
      let-? receipt := ok_or (uncommitted_from_value value) tt in
      if negb (uncommitted_schema receipt =? UNCOMMITTED_RUNTIME_ACTIVATION_SCHEMA)%N
         || negb (pointer_validate (uncommitted_activated receipt))
         || optional_pointer_invalid (uncommitted_previous receipt)
      then Err tt
      else Ok (Uncommitted (uncommitted_previous receipt) (uncommitted_activated receipt))
    else if (truncated =? LEGACY_RUNTIME_ACTIVATION_SCHEMA)%N &&
            (schema =? LEGACY_RUNTIME_ACTIVATION_SCHEMA)%N then
      let-? receipt := ok_or (legacy_from_value value) tt in
      if negb (legacy_schema receipt =? LEGACY_RUNTIME_ACTIVATION_SCHEMA)%N
         || optional_pointer_invalid (legacy_previous receipt)
      then Err tt
      else Ok (Legacy (legacy_previous receipt))
    else Err tt.
End Codec.

(** ** Where the files live ([paths.rs])

    The fixed layout below the two machine roots; whether a root is acceptable is
    decided by [validate_protected_root] from the text of a Windows path, which is
    not modelled. *)

Record MachinePaths := {
  service_root : Path;
  runtime_versions : Path;
  runtime_pointer : Path;
  runtime_activation_journal : Path;
  profile_generations : Path;
  active_profile : Path;
  previous_profile : Path;
  profile_activation_journal : Path;
  event_log_dir : Path;
  service_host_event_log : Path;
  service_setup_event_log : Path
}.

Definition machine_layout (program_files program_data : Path) : MachinePaths :=
  let service_root := path_join (path_join program_files "MacType Control Center") "Service" in
  let data_root := path_join (path_join program_data "MacType") "ControlCenter" in
  let event_log_dir := path_join data_root "logs" in
  {| service_root := service_root;
     runtime_versions := path_join service_root "bin";
     runtime_pointer := path_join service_root "current.json";
     runtime_activation_journal := path_join service_root "runtime-activation.json";
     profile_generations := path_join data_root "generations";
     active_profile := path_join data_root "active.json";
     previous_profile := path_join data_root "previous.json";
     profile_activation_journal := path_join data_root "profile-activation.json";
     event_log_dir := event_log_dir;
     service_host_event_log := path_join event_log_dir "service-host.log";
     service_setup_event_log := path_join event_log_dir "service-setup.log" |}.

(** ** What a parsed receipt is *)

(** The schema number a receipt of each kind carries. *)
Definition parsed_schema (r : ParsedRuntimeActivationReceipt) : N :=
  match r with
  | Legacy _ => LEGACY_RUNTIME_ACTIVATION_SCHEMA
  | Uncommitted _ _ => UNCOMMITTED_RUNTIME_ACTIVATION_SCHEMA
  | Current _ => RUNTIME_ACTIVATION_SCHEMA
  end.

(** Every pointer of the receipt names a version that is one path component. *)
Definition parsed_pointers_valid (r : ParsedRuntimeActivationReceipt) : Prop :=
  (∀ p, parsed_previous r = Some p → pointer_validate p = true) ∧
  (∀ p, parsed_activated r = Some p → pointer_validate p = true).

Lemma optional_pointer_valid o :
  optional_pointer_invalid o = false ↔ ∀ p, o = Some p → pointer_validate p = true.
Proof.
  destruct o as [p|]; simpl; [rewrite negb_false_iff|]; [|naive_solver].
  split; [by intros ? ? [= <-]|auto].
Qed.

Lemma receipt_validate_spec r :
  receipt_validate r = true ↔
  receipt_schema r = RUNTIME_ACTIVATION_SCHEMA ∧ parsed_pointers_valid (Current r).
Proof.
  unfold receipt_validate, parsed_pointers_valid. cbn [parsed_previous parsed_activated].
  rewrite negb_true_iff, !orb_false_iff, !negb_false_iff, N.eqb_eq, optional_pointer_valid.
  split.
  - intros [[??]?]. split_and!; auto. by intros ? [= <-].
  - intros (?&?&Ha). split_and!; auto.
Qed.

Lemma new_pointer_valid v p :
  new_pointer v = Ok p ↔ version p = v ∧ pointer_validate p = true.
Proof.
  unfold new_pointer. cbn zeta. split.
  - destruct (pointer_validate _) eqn:E; [|done]. by intros <-%(inj Ok).
  - destruct p as [s w]. unfold pointer_validate. cbn [pointer_schema version].
    intros [<- H]. andb_split. subst s. by rewrite H0.
Qed.

Lemma candidate_valid prev act :
  optional_pointer_invalid prev = false → pointer_validate act = true →
  receipt_validate (candidate prev act) = true.
Proof. unfold receipt_validate, candidate. simpl. by intros -> ->. Qed.

Lemma with_phase_valid r ph :
  receipt_validate r = true → receipt_validate (with_phase r ph) = true.
Proof. rewrite !receipt_validate_spec. by intros [_ ?]. Qed.

Lemma schema_arm :
  (as_u32 (Z.of_N RUNTIME_ACTIVATION_SCHEMA) =? RUNTIME_ACTIVATION_SCHEMA)%N &&
  (RUNTIME_ACTIVATION_SCHEMA =? RUNTIME_ACTIVATION_SCHEMA)%N = true.
Proof. done. Qed.

Section CodecFacts.
Context `{ActivationJsonLaws}.

Lemma pointer_parse_valid bytes p : pointer_parse bytes = Ok p → pointer_validate p = true.
Proof.
  unfold pointer_parse. destruct (_ || _); [done|].
  destruct (pointer_from_slice bytes) as [q|]; [|done]. cbn [ok_or result_bind].
  destruct (pointer_validate q) eqn:E; [|done]. by intros <-%(inj Ok).
Qed.

Lemma pointer_parse_written p bytes :
  pointer_validate p = true → pointer_to_bytes p = Ok bytes → pointer_parse bytes = Ok p.
Proof.
  intros Hv Hw. destruct (pointer_writes p Hv) as (b & Hb & Hlen).
  unfold pointer_to_bytes in Hw. rewrite Hb in Hw. apply (inj Ok) in Hw as <-.
  unfold pointer_parse, MAX_RUNTIME_POINTER_BYTES.
  rewrite (proj2 (N.eqb_neq _ _)), (proj2 (N.ltb_ge _ _)) by lia.
  rewrite (pointer_readback p b Hb). cbn. by rewrite Hv.
Qed.

Lemma receipt_parse_written r bytes :
  receipt_validate r = true → receipt_to_bytes r = Ok bytes →
  parse_runtime_activation_receipt bytes = Ok (Current r).
Proof.
  intros Hv Hw. destruct (receipt_writes r Hv) as (b & Hb & Hlen).
  unfold receipt_to_bytes in Hw. rewrite Hb in Hw. apply (inj Ok) in Hw as <-.
  unfold parse_runtime_activation_receipt, MAX_RUNTIME_ACTIVATION_RECEIPT_BYTES.
  rewrite (proj2 (N.eqb_neq _ _)), (proj2 (N.ltb_ge _ _)) by lia.
  destruct (receipt_readback r b Hb) as (value & -> & Hs & Hc). cbn [ok_or result_bind orb].
  apply receipt_validate_spec in Hv as Hspec. destruct Hspec as [Hschema _].
  rewrite Hs, Hschema. cbn [ok_or result_bind]. rewrite schema_arm. rewrite Hc. cbn [ok_or result_bind]. by rewrite Hv.
Qed.

Lemma receipt_written r :
  receipt_validate r = true →
  ∃ bytes, receipt_to_bytes r = Ok bytes ∧ parse_runtime_activation_receipt bytes = Ok (Current r).
Proof.
  intros Hv. destruct (receipt_writes r Hv) as (b & Hb & _).
  assert (receipt_to_bytes r = Ok b) as Hw by (unfold receipt_to_bytes; by rewrite Hb).
  exists b. split; [done|]. by apply receipt_parse_written.
Qed.
End CodecFacts.

Lemma parse_receipt_arm `{ActivationJson} bytes r :
  parse_runtime_activation_receipt bytes = Ok r →
  (0 < bytes_len bytes <= MAX_RUNTIME_ACTIVATION_RECEIPT_BYTES)%N ∧
  (∃ value, json_from_slice bytes = Some value ∧ json_schema value = Some (parsed_schema r)) ∧
  parsed_pointers_valid r.
Proof.
  unfold parse_runtime_activation_receipt. destruct (_ || _) eqn:Elen; [done|].
  destruct (json_from_slice bytes) as [value|] eqn:Ej; [|done]. cbn [ok_or result_bind].
  destruct (json_schema value) as [schema|] eqn:Es; [|done]. cbn [ok_or result_bind].
  intros Hr. split; [andb_split; lia|].
  assert (schema = parsed_schema r ∧ parsed_pointers_valid r) as [-> ?]; [|eauto].
  destruct (_ && (schema =? RUNTIME_ACTIVATION_SCHEMA)%N) eqn:E3.
  { destruct (current_from_value value) as [c|]; [|done]. cbn [ok_or result_bind] in Hr.
    destruct (receipt_validate c) eqn:Ev; [|done]. apply (inj Ok) in Hr as <-.
    andb_split. split; [done|]. by apply receipt_validate_spec. }
  destruct (_ && (schema =? UNCOMMITTED_RUNTIME_ACTIVATION_SCHEMA)%N) eqn:E2.
  { destruct (uncommitted_from_value value) as [c|]; [|done]. cbn [ok_or result_bind] in Hr.
    destruct (_ || _) eqn:Ev in Hr; [done|]. apply (inj Ok) in Hr as <-.
    apply orb_false_elim in Ev as [[? Hact%negb_false_iff]%orb_false_elim Hprev].
    andb_split. split; [done|]. rewrite optional_pointer_valid in Hprev.
    split; [done|]. by intros ? [= <-]. }
  destruct (_ && (schema =? LEGACY_RUNTIME_ACTIVATION_SCHEMA)%N) eqn:E1; [|done].
  destruct (legacy_from_value value) as [c|]; [|done]. cbn [ok_or result_bind] in Hr.
  destruct (_ || _) eqn:Ev in Hr; [done|]. apply (inj Ok) in Hr as <-.
  apply orb_false_elim in Ev as [? Hprev].
  andb_split. split; [done|]. rewrite optional_pointer_valid in Hprev. by split.
Qed.

(** A JSON codec for examples: a pointer is written as its version, a receipt as
    its phase, the length of the previous version or a marker, and the versions. *)
Section ExampleJson.
Definition phase_byte (p : RuntimeActivationPhase) : ascii :=
  match p with Candidate => "c" | Committed => "k" | RollbackRequired => "r" end%char.

Definition byte_phase (b : ascii) : option RuntimeActivationPhase :=
  if (b =? "c")%char then Some Candidate
  else if (b =? "k")%char then Some Committed
  else if (b =? "r")%char then Some RollbackRequired else None.

Definition example_pointer_from (bytes : list ascii) : RuntimeGenerationPointer :=
  {| pointer_schema := RUNTIME_POINTER_SCHEMA; version := bytes_str bytes |}.

Definition example_receipt_bytes (r : RuntimeActivationReceipt) : list ascii :=
  phase_byte (phase r) ::
  match previous r with
  | Some p => ascii_of_nat (String.length (version p)) :: str_bytes (version p)
  | None => [ascii_of_nat 255]
  end ++ str_bytes (version (activated r)).

Definition example_receipt_from (bytes : list ascii) : option RuntimeActivationReceipt :=
  match bytes with
  | b :: n :: rest =>
      ph ← byte_phase b;
      let n := nat_of_ascii n in
      Some (with_phase (if n =? 255
                        then candidate None (example_pointer_from rest)
                        else candidate (Some (example_pointer_from (take n rest)))
                                       (example_pointer_from (drop n rest))) ph)
  | _ => None
  end.

#[export] Instance example_json : ActivationJson := {
  Json := list ascii;
  json_from_slice := Some;
  json_schema _ := Some 3%N;
  current_from_value := example_receipt_from;
  uncommitted_from_value _ := None;
  legacy_from_value _ := None;
  pointer_from_slice bytes := Some (example_pointer_from bytes);
  pointer_to_vec p := if pointer_validate p then Some (str_bytes (version p)) else None;
  receipt_to_vec r := if receipt_validate r then Some (example_receipt_bytes r) else None
}.
End ExampleJson.

Lemma valid_version_length v :
  valid_runtime_version_component v = true → 0 < String.length v ≤ 64.
Proof.
  unfold valid_runtime_version_component, str_is_empty, str_len. intros H. andb_split. lia.
Qed.

Lemma str_bytes_length s : length (str_bytes s) = String.length s.
Proof. induction s; [done|]. simpl. by f_equal. Qed.

Lemma pointer_eta p : pointer_validate p = true → example_pointer_from (str_bytes (version p)) = p.
Proof.
  destruct p as [s v]. unfold pointer_validate, example_pointer_from, bytes_str, str_bytes.
  cbn [pointer_schema version]. intros H. andb_split. subst s.
  by rewrite string_of_list_ascii_of_string.
Qed.

Lemma example_receipt_readback r :
  receipt_validate r = true → example_receipt_from (example_receipt_bytes r) = Some r.
Proof.
  rewrite receipt_validate_spec. intros (Hs & Hprev & Hact). destruct r as [s ph prev act].
  cbn in Hs, Hprev, Hact. subst s. specialize (Hact act eq_refl).
  unfold example_receipt_bytes, example_receipt_from. cbn [phase previous activated].
  assert (byte_phase (phase_byte ph) = Some ph) as Hph by (by destruct ph).
  destruct prev as [p|].
  - specialize (Hprev p eq_refl). cbn [app]. rewrite Hph. cbn [mbind option_bind].
    assert (0 < String.length (version p) ≤ 64).
    { apply valid_version_length. unfold pointer_validate in Hprev. by andb_split. }
    rewrite nat_ascii_embedding by lia.
    rewrite (proj2 (Nat.eqb_neq _ _)) by lia.
    rewrite take_app_length' by (by rewrite str_bytes_length).
    rewrite drop_app_length' by (by rewrite str_bytes_length).
    by rewrite !pointer_eta.
  - cbn [app]. rewrite Hph. cbn [mbind option_bind].
    rewrite nat_ascii_embedding by lia. simpl. by rewrite pointer_eta.
Qed.

#[export] Instance example_json_laws : ActivationJsonLaws.
Proof.
  assert (∀ p, pointer_validate p = true → 0 < String.length (version p) ≤ 64) as Hlen.
  { intros p H. apply valid_version_length. unfold pointer_validate in H. by andb_split. }
  split; cbn [pointer_to_vec pointer_from_slice receipt_to_vec json_from_slice json_schema
              current_from_value example_json].
  - intros p bytes. destruct (pointer_validate p) eqn:E; [|done]. intros [= <-].
    by rewrite pointer_eta.
  - intros p Hp. rewrite Hp. eexists; split; [done|]. unfold bytes_len.
    rewrite str_bytes_length. specialize (Hlen p Hp). lia.
  - intros r bytes. destruct (receipt_validate r) eqn:E; [|done]. intros [= <-].
    eexists; split; [done|]. apply receipt_validate_spec in E as Hs. destruct Hs as [-> _].
    split; [done|]. by apply example_receipt_readback.
  - intros r Hr. rewrite Hr. eexists; split; [done|].
    apply receipt_validate_spec in Hr as (_ & Hprev & Hact). cbn in Hprev, Hact.
    pose proof (Hlen _ (Hact _ eq_refl)). unfold bytes_len, example_receipt_bytes.
    cbn [length]. rewrite length_app, str_bytes_length.
    destruct (previous r) as [p|]; cbn [length]; [|lia].
    specialize (Hlen p (Hprev p eq_refl)). rewrite str_bytes_length. lia.
Qed.

(** ** Properties *)

(** C37. A receipt is only accepted from 1 to 16 KiB of text whose 64-bit schema
    number is exactly the number of the receipt's kind, although the code compares
    the number cut to 32 bits: 1 for a legacy, 2 for an uncommitted, 3 for a current
    receipt.  Every pointer of an accepted receipt has schema 1 and names a version
    that is a single path component; a phase is known exactly for a current receipt. *)
Theorem parse_receipt_sound `{ActivationJson} bytes r
  (Hparse : parse_runtime_activation_receipt bytes = Ok r) :
  (0 < bytes_len bytes <= MAX_RUNTIME_ACTIVATION_RECEIPT_BYTES)%N ∧
  (∃ value, json_from_slice bytes = Some value ∧ json_schema value = Some (parsed_schema r)) ∧
  (∀ p, parsed_previous r = Some p ∨ parsed_activated r = Some p →
    pointer_schema p = RUNTIME_POINTER_SCHEMA ∧
    valid_runtime_version_component (version p) = true) ∧
  (is_Some (parsed_phase r) ↔ parsed_schema r = RUNTIME_ACTIVATION_SCHEMA).
Proof.
  destruct (parse_receipt_arm bytes r Hparse) as (? & ? & Hp & Ha).
  split_and!; [lia|lia|done| |].
  - intros p Hin. assert (pointer_validate p = true) as Hv by (destruct Hin; auto).
    unfold pointer_validate in Hv. by andb_split.
  - destruct r; split; try done. by intros [? ?]. by intros [? ?].
Qed.

Lemma parse_receipt_sound_witness :
  let bytes := [("k"%char); ascii_of_nat 5] ++ str_bytes "1.0.0" ++ str_bytes "1.1.0" in
  (0 < bytes_len bytes <= MAX_RUNTIME_ACTIVATION_RECEIPT_BYTES)%N.
Proof.
  refine (proj1 (parse_receipt_sound _
    (Current (with_phase (candidate (Some (example_pointer_from (str_bytes "1.0.0")))
                                    (example_pointer_from (str_bytes "1.1.0"))) Committed)) _)).
  vm_compute. reflexivity.
Defined.

(** A receipt and a pointer that are written are read back as they were: every
    phase change of a valid candidate receipt is written, parses to a current receipt
    with the same previous and activated generation and the new phase, and no other
    receipt has the same text; a pointer for a valid version round-trips too. *)
Theorem activation_files_roundtrip `{ActivationJsonLaws} prev v act
  (Hprev : optional_pointer_invalid prev = false) (Hact : new_pointer v = Ok act) :
  (∀ ph, ∃ bytes,
    receipt_to_bytes (with_phase (candidate prev act) ph) = Ok bytes ∧
    parse_runtime_activation_receipt bytes =
      Ok (Current {| receipt_schema := RUNTIME_ACTIVATION_SCHEMA; phase := ph;
                     previous := prev; activated := act |}) ∧
    ∀ r, receipt_validate r = true → receipt_to_bytes r = Ok bytes →
      r = with_phase (candidate prev act) ph) ∧
  (∃ bytes, pointer_to_bytes act = Ok bytes ∧ pointer_parse bytes = Ok act).
Proof.
  apply new_pointer_valid in Hact as [_ Hact]. split.
  - intros ph. pose proof (with_phase_valid _ ph (candidate_valid _ _ Hprev Hact)) as Hv.
    destruct (receipt_written _ Hv) as (bytes & Hw & Hr). exists bytes. split_and!; [done..|].
    intros r Hvr Hwr. rewrite (receipt_parse_written r bytes Hvr Hwr) in Hr.
    apply (inj Ok) in Hr. by injection Hr.
  - destruct (pointer_writes act Hact) as (b & Hb & _).
    assert (pointer_to_bytes act = Ok b) as Hw by (unfold pointer_to_bytes; by rewrite Hb).
    exists b. split; [done|]. by apply pointer_parse_written.
Qed.

Lemma activation_files_roundtrip_witness :
  ∃ bytes, pointer_to_bytes (example_pointer_from (str_bytes "1.2.0")) = Ok bytes ∧
    pointer_parse bytes = Ok (example_pointer_from (str_bytes "1.2.0")).
Proof.
  refine (proj2 (activation_files_roundtrip (Some (example_pointer_from (str_bytes "1.1.0")))
                   "1.2.0" (example_pointer_from (str_bytes "1.2.0")) _ _));
    vm_compute; reflexivity.
Defined.
