(* ===== verification/Profile.v ===== *)
(** * Machine profiles

    [service-runtime/contract/src/profile.rs]: the text a profile may be, the
    generation it is published as, the pointer that names a generation and the
    catalog of the published, the active and the previous one.  A [GenerationId] is
    the string it wraps; the decoder serde derives for the pointer is a parameter. *)

From S2P Require Export Manifest.

Definition MAX_PROFILE_BYTES : N := 4 * 1024 * 1024.
Definition MAX_PROFILE_POINTER_BYTES : N := 64 * 1024.
Definition PROFILE_POINTER_SCHEMA : N := 1.

Notation GenerationId := string (only parsing).

Inductive ProfileError :=
| InvalidSize | InvalidIni | InvalidGenerationId | UnknownGeneration | NoPreviousGeneration.

#[export] Instance ProfileError_eq_dec : EqDecision ProfileError.
Proof. solve_decision. Defined.

Definition profile_error_debug (e : ProfileError) : string :=
  match e with
  | InvalidSize => "InvalidSize"
  | InvalidIni => "InvalidIni"
  | InvalidGenerationId => "InvalidGenerationId"
  | UnknownGeneration => "UnknownGeneration"
  | NoPreviousGeneration => "NoPreviousGeneration"
  end.

Definition profile_error_display (e : ProfileError) : string :=
  "profile generation operation failed: " ++ profile_error_debug e.

Definition canonical_digest (value : string) : bool :=
  (str_len value =? 71)%N && starts_with "sha256:" value &&
  forallb (λ b, is_ascii_digit b || byte_in "a" "f" b) (drop 7 (str_bytes value)).

Definition generation_parse (value : string) : result GenerationId ProfileError :=
  if canonical_digest value then Ok value else Err InvalidGenerationId.

(** [&self.0[7..]] *)
Definition directory_name (g : GenerationId) : string := bytes_str (drop 7 (str_bytes g)).

(** [GenerationPointer]; its schema is always [PROFILE_POINTER_SCHEMA]. *)
Record GenerationPointer := { generation_schema : N; generation : GenerationId }.

#[export] Instance GenerationPointer_eq_dec : EqDecision GenerationPointer.
Proof. solve_decision. Defined.

Definition new_generation_pointer (g : GenerationId) : GenerationPointer :=
  {| generation_schema := PROFILE_POINTER_SCHEMA; generation := g |}.

(** The decoder of [RawPointer], whose [generation] is any text, and the encoder of
    the pointer. *)
Class PointerJson := {
  raw_pointer_from_slice : list ascii → option (N * string);
  generation_pointer_to_vec : GenerationPointer → option (list ascii)
}.

(** [GenerationPointer::deserialize]; [GenerationId::deserialize] parses the text. *)
Definition generation_pointer_from_slice `{PointerJson} (bytes : list ascii)
    : option GenerationPointer :=
  match raw_pointer_from_slice bytes with
  | Some (schema, text) =>
      match generation_parse text with
      | Ok g =>
          if negb (schema =? PROFILE_POINTER_SCHEMA)%N then None
          else Some (new_generation_pointer g)
      | Err _ => None
      end
  | None => None
  end.

(** ** The text of a profile *)

Fixpoint trim_start (l : list ascii) : list ascii :=
  match l with
  | b :: l' => if is_ascii_whitespace b then trim_start l' else l
  | [] => []
  end.

(** The two loops of [trim_ascii]: the first byte while it is white, then the last. *)
Definition trim_ascii (l : list ascii) : list ascii := rev (trim_start (rev (trim_start l))).

Definition is_mactype_list_section (line : list ascii) : bool :=
  let name := take (length line - 2) (drop 1 line) in
  existsb (λ candidate, bytes_eq_ignore_ascii_case name (str_bytes candidate))
    ["Exclude"; "Include"; "ExcludeModule"; "IncludeModule"; "UnloadDLL"; "ExcludeSub"].

Record IniState := {
  saw_section : bool;
  saw_assignment : bool;
  accepts_bare_entries : bool
}.

Definition first_is (b : ascii) (line : list ascii) : bool :=
  match head line with Some a => (a =? b)%char | None => false end.
Definition last_is (b : ascii) (line : list ascii) : bool :=
  match last line with Some a => (a =? b)%char | None => false end.

(** The body of the loop of [validate_ini_structure]. *)
Definition ini_line (raw_line : list ascii) (s : IniState) : result IniState ProfileError :=
  let line := trim_ascii raw_line in
  if (bytes_len line =? 0)%N || first_is ";" line || first_is "#" line then Ok s
  else if (3 <=? bytes_len line)%N && first_is "[" line && last_is "]" line then
    Ok {| saw_section := true; saw_assignment := saw_assignment s;
          accepts_bare_entries := is_mactype_list_section line |}
  else
    match position (λ b, (b =? "=")%char) line with
    | None => if saw_section s && accepts_bare_entries s then Ok s else Err InvalidIni
    | Some separator =>
        if negb (saw_section s) || (bytes_len (trim_ascii (take separator line)) =? 0)%N
        then Err InvalidIni
        else Ok {| saw_section := saw_section s; saw_assignment := true;
                   accepts_bare_entries := accepts_bare_entries s |}
    end.

Fixpoint ini_lines (lines : list (list ascii)) (s : IniState) : result IniState ProfileError :=
  match lines with
  | [] => Ok s
  | line :: lines' => let-? s' := ini_line line s in ini_lines lines' s'
  end.

Definition ini_start : IniState :=
  {| saw_section := false; saw_assignment := false; accepts_bare_entries := false |}.

Definition LF : ascii := ascii_of_N 10.

Definition validate_ini_structure (bytes : list ascii) : result unit ProfileError :=
  let-? s := ini_lines (split_on (λ b, (b =? LF)%char) bytes) ini_start in
  if saw_section s && saw_assignment s then Ok tt else Err InvalidIni.

(** *** UTF-16, as [String::from_utf16] and [as_bytes] treat it *)

(** [as_chunks::<2>().0] *)
Fixpoint chunks2 (l : list ascii) : list (ascii * ascii) :=
  match l with a :: b :: l' => (a, b) :: chunks2 l' | _ => [] end.

Definition from_le_bytes (a b : ascii) : N := N_of_ascii a + 256 * N_of_ascii b.
Definition from_be_bytes (a b : ascii) : N := 256 * N_of_ascii a + N_of_ascii b.

Definition is_high_surrogate (u : N) : bool := (0xD800 <=? u)%N && (u <=? 0xDBFF)%N.
Definition is_low_surrogate (u : N) : bool := (0xDC00 <=? u)%N && (u <=? 0xDFFF)%N.

(** The scalar values a list of units stands for; an unpaired surrogate is an error. *)
Fixpoint from_utf16 (units : list N) : option (list N) :=
  match units with
  | [] => Some []
  | u :: us =>
      if is_high_surrogate u then
        match us with
        | v :: us' =>
            if is_low_surrogate v
            then (cons (0x10000 + (u - 0xD800) * 0x400 + (v - 0xDC00))%N) <$> from_utf16 us'
            else None
        | [] => None
        end
      else if is_low_surrogate u then None
      else cons u <$> from_utf16 us
  end.

(** The UTF-8 encoding of one scalar value. *)
Definition utf8_char (c : N) : list ascii :=
  map ascii_of_N
    (if (c <? 0x80)%N then [c]
     else if (c <? 0x800)%N then [0xC0 + c / 64; 0x80 + c mod 64]
     else if (c <? 0x10000)%N then [0xE0 + c / 4096; 0x80 + c / 64 mod 64; 0x80 + c mod 64]
     else [0xF0 + c / 262144; 0x80 + c / 4096 mod 64; 0x80 + c / 64 mod 64; 0x80 + c mod 64])%N.

Definition utf8 (text : list N) : list ascii := concat (map utf8_char text).

Definition BOM_LE : list ascii := map ascii_of_N [0xFF; 0xFE]%N.
Definition BOM_BE : list ascii := map ascii_of_N [0xFE; 0xFF]%N.
Definition BOM_UTF8 : list ascii := map ascii_of_N [0xEF; 0xBB; 0xBF]%N.

Definition validate_profile (bytes : list ascii) : result unit ProfileError :=
  if (bytes_len bytes =? 0)%N || (MAX_PROFILE_BYTES <? bytes_len bytes)%N then Err InvalidSize
  else if bytes_starts_with BOM_LE bytes || bytes_starts_with BOM_BE bytes then
    let little_endian := bytes_starts_with BOM_LE bytes in
    let body := drop 2 bytes in
    if negb (bytes_len body mod 2 =? 0)%N then Err InvalidIni
    else
      let units := map (λ pair, if little_endian then from_le_bytes pair.1 pair.2
                                else from_be_bytes pair.1 pair.2) (chunks2 body) in
      let-? decoded := ok_or (from_utf16 units) InvalidIni in
      validate_ini_structure (utf8 decoded)
  else
    let structure_bytes := default bytes (bytes_strip_prefix BOM_UTF8 bytes) in
    if existsb (λ b, (b =? zero)%char) structure_bytes then Err InvalidIni
    else validate_ini_structure structure_bytes.

(** ** The catalog *)

Record SourceMetadata := { display_name : string }.

Record PublishedProfile := { profile_bytes : list ascii; source : SourceMetadata }.

Record ProfileCatalog := {
  generations : gmap GenerationId PublishedProfile;
  active : option GenerationId;
  previous_generation : option GenerationId
}.

Definition new_catalog : ProfileCatalog :=
  {| generations := ∅; active := None; previous_generation := None |}.

Section Catalog.
Context `{Sha256}.

Definition from_profile_bytes (bytes : list ascii) : GenerationId := sha256_digest bytes.

(** Every operation returns its answer and the catalog it leaves. *)
Definition publish_machine_profile (bytes : list ascii) (metadata : SourceMetadata)
    (c : ProfileCatalog) : result GenerationId ProfileError * ProfileCatalog :=
  match validate_profile bytes with
  | Err e => (Err e, c)
  | Ok _ =>
      let g := from_profile_bytes bytes in
      (Ok g,
       {| generations :=
            match generations c !! g with
            | Some _ => generations c
            | None => <[g := {| profile_bytes := bytes; source := metadata |}]> (generations c)
            end;
          active := active c;
          previous_generation := previous_generation c |})
  end.
End Catalog.

Definition activate_machine_generation (g : GenerationId) (c : ProfileCatalog)
    : result unit ProfileError * ProfileCatalog :=
  if negb (contains_key (generations c) g) then (Err UnknownGeneration, c)
  else if bool_decide (active c = Some g) then (Ok tt, c)
  else (Ok tt, {| generations := generations c; active := Some g;
                  previous_generation := active c |}).

Definition rollback_machine_generation (c : ProfileCatalog)
    : result GenerationId ProfileError * ProfileCatalog :=
  match previous_generation c with
  | None => (Err NoPreviousGeneration, c)
  | Some p => (Ok p, {| generations := generations c; active := Some p;
                        previous_generation := active c |})
  end.

Definition catalog_profile_bytes (c : ProfileCatalog) (g : GenerationId) : option (list ascii) :=
  profile_bytes <$> generations c !! g.

Definition catalog_source_metadata (c : ProfileCatalog) (g : GenerationId) : option SourceMetadata :=
  source <$> generations c !! g.

(** ** Encodings of a text *)

Definition scalar_value (c : N) : Prop :=
  (c <= 0x10FFFF)%N ∧ is_high_surrogate c = false ∧ is_low_surrogate c = false.

Definition utf16_units (c : N) : list N :=
  if (c <? 0x10000)%N then [c]
  else [0xD800 + (c - 0x10000) / 0x400; 0xDC00 + (c - 0x10000) mod 0x400]%N.

Definition to_le_bytes (u : N) : list ascii := [ascii_of_N (u mod 256); ascii_of_N (u / 256)].
Definition to_be_bytes (u : N) : list ascii := [ascii_of_N (u / 256); ascii_of_N (u mod 256)].

Definition utf16 (to_bytes : N → list ascii) (text : list N) : list ascii :=
  concat (map to_bytes (concat (map utf16_units text))).

Ltac bool_arith :=
  repeat match goal with
  | |- andb _ _ = true => apply andb_true_intro; split
  | |- andb _ _ = false => apply andb_false_intro1
  | |- (_ <=? _)%N = true => apply N.leb_le
  | |- (_ <? _)%N = true => apply N.ltb_lt
  | |- (_ <? _)%N = false => apply N.ltb_ge
  | |- (_ =? _)%N = true => apply N.eqb_eq
  | |- (_ =? _)%N = false => apply N.eqb_neq
  end.

Ltac div_mod_lia := zify; Z.to_euclidean_division_equations; lia.

Lemma utf8_char_nonzero c :
  scalar_value c → c ≠ 0%N → existsb (λ b, (b =? zero)%char) (utf8_char c) = false.
Proof.
  intros [Hmax _] Hc. unfold utf8_char.
  assert (∀ n, (0 < n < 256)%N → (ascii_of_N n =? zero)%char = false) as Hz.
  { intros n Hn. apply Ascii.eqb_neq. intros E. apply (f_equal N_of_ascii) in E.
    rewrite N_ascii_embedding in E by lia. change (N_of_ascii zero) with 0%N in E. lia. }
  destruct (c <? 0x80)%N eqn:E1; [|destruct (c <? 0x800)%N eqn:E2; [|destruct (c <? 0x10000)%N eqn:E3]];
    andb_split; cbn [map existsb]; rewrite !Hz by div_mod_lia; done.
Qed.

Lemma utf8_nonzero text :
  Forall scalar_value text → 0%N ∉ text → existsb (λ b, (b =? zero)%char) (utf8 text) = false.
Proof.
  induction 1 as [|c text Hc _ IH]; [done|]. rewrite not_elem_of_cons. intros [? ?].
  unfold utf8. cbn [map concat]. rewrite existsb_app, utf8_char_nonzero by done. by apply IH.
Qed.

Lemma from_utf16_units c rest :
  scalar_value c → from_utf16 (utf16_units c ++ rest) = cons c <$> from_utf16 rest.
Proof.
  intros (Hmax & Hh & Hl). unfold utf16_units. destruct (c <? 0x10000)%N eqn:E; andb_split; simpl.
  - by rewrite Hh, Hl.
  - assert (is_high_surrogate (0xD800 + (c - 0x10000) / 0x400) = true) as ->.
    { unfold is_high_surrogate. bool_arith; div_mod_lia. }
    assert (is_low_surrogate (0xDC00 + (c - 0x10000) mod 0x400) = true) as ->.
    { unfold is_low_surrogate. bool_arith; div_mod_lia. }
    do 2 f_equal. div_mod_lia.
Qed.

Lemma from_utf16_text text :
  Forall scalar_value text → from_utf16 (concat (map utf16_units text)) = Some text.
Proof.
  induction 1 as [|c text Hc _ IH]; [done|]. cbn [map concat].
  by rewrite from_utf16_units, IH.
Qed.

Lemma utf16_units_small text :
  Forall scalar_value text → Forall (λ u, (u < 65536)%N) (concat (map utf16_units text)).
Proof.
  induction 1 as [|c text (Hmax & _) _ IH]; [done|]. cbn [map concat]. apply Forall_app. split; [|done].
  unfold utf16_units. destruct (c <? 0x10000)%N eqn:E; andb_split;
    repeat constructor; div_mod_lia.
Qed.

Section Endian.
Context (to_bytes : N → list ascii) (from : ascii → ascii → N).
Context (Hunit : ∀ u, (u < 65536)%N → ∃ a b, to_bytes u = [a; b] ∧ from a b = u).

Lemma chunks2_units units :
  Forall (λ u, (u < 65536)%N) units →
  map (λ pair, from pair.1 pair.2) (chunks2 (concat (map to_bytes units))) = units ∧
  (bytes_len (concat (map to_bytes units)) mod 2 =? 0)%N = true.
Proof.
  induction 1 as [|u units Hu _ [IH1 IH2]]; [done|]. cbn [map concat].
  destruct (Hunit u Hu) as (a & b & -> & Hab). simpl. split; [by rewrite Hab, IH1|].
  unfold bytes_len in *. cbn [length]. andb_split. bool_arith. div_mod_lia.
Qed.
End Endian.

Lemma le_unit u : (u < 65536)%N → ∃ a b, to_le_bytes u = [a; b] ∧ from_le_bytes a b = u.
Proof.
  intros Hu. do 2 eexists. split; [done|]. unfold from_le_bytes.
  rewrite !N_ascii_embedding by div_mod_lia. div_mod_lia.
Qed.

Lemma be_unit u : (u < 65536)%N → ∃ a b, to_be_bytes u = [a; b] ∧ from_be_bytes a b = u.
Proof.
  intros Hu. do 2 eexists. split; [done|]. unfold from_be_bytes.
  rewrite !N_ascii_embedding by div_mod_lia. div_mod_lia.
Qed.

Definition size_fits (bytes : list ascii) : Prop := (bytes_len bytes <= MAX_PROFILE_BYTES)%N.

Lemma size_guard bytes :
  bytes ≠ [] → size_fits bytes →
  (bytes_len bytes =? 0)%N || (MAX_PROFILE_BYTES <? bytes_len bytes)%N = false.
Proof.
  unfold size_fits, bytes_len. intros Hne H. apply orb_false_intro; bool_arith; [|done].
  destruct bytes; [done|]. cbn [length]. lia.
Qed.

Lemma starts_le_le l : bytes_starts_with BOM_LE (BOM_LE ++ l) = true.
Proof. done. Qed.
Lemma starts_le_be l : bytes_starts_with BOM_LE (BOM_BE ++ l) = false.
Proof. done. Qed.
Lemma starts_be_be l : bytes_starts_with BOM_BE (BOM_BE ++ l) = true.
Proof. done. Qed.
Lemma starts_le_utf8 l : bytes_starts_with BOM_LE (BOM_UTF8 ++ l) = false.
Proof. done. Qed.
Lemma starts_be_utf8 l : bytes_starts_with BOM_BE (BOM_UTF8 ++ l) = false.
Proof. done. Qed.
Lemma strip_utf8 l : bytes_strip_prefix BOM_UTF8 (BOM_UTF8 ++ l) = Some l.
Proof. done. Qed.

Lemma validate_le text :
  Forall scalar_value text → size_fits (BOM_LE ++ utf16 to_le_bytes text) →
  validate_profile (BOM_LE ++ utf16 to_le_bytes text) = validate_ini_structure (utf8 text).
Proof.
  intros Ht Hs. unfold validate_profile. rewrite size_guard, starts_le_le by done.
  cbn [orb]. change (drop 2 (BOM_LE ++ ?l)) with l.
  destruct (chunks2_units _ _ le_unit _ (utf16_units_small _ Ht)) as [Hc Hl].
  unfold utf16. rewrite Hl. cbn [negb]. rewrite Hc. by rewrite from_utf16_text.
Qed.

Lemma validate_be text :
  Forall scalar_value text → size_fits (BOM_BE ++ utf16 to_be_bytes text) →
  validate_profile (BOM_BE ++ utf16 to_be_bytes text) = validate_ini_structure (utf8 text).
Proof.
  intros Ht Hs. unfold validate_profile. rewrite size_guard, starts_le_be, starts_be_be by done.
  cbn [orb]. change (drop 2 (BOM_BE ++ ?l)) with l.
  destruct (chunks2_units _ _ be_unit _ (utf16_units_small _ Ht)) as [Hc Hl].
  unfold utf16. rewrite Hl. cbn [negb]. rewrite Hc. by rewrite from_utf16_text.
Qed.

Lemma validate_utf8 text :
  Forall scalar_value text → 0%N ∉ text → size_fits (BOM_UTF8 ++ utf8 text) →
  validate_profile (BOM_UTF8 ++ utf8 text) = validate_ini_structure (utf8 text).
Proof.
  intros Ht H0 Hs. unfold validate_profile.
  rewrite size_guard, starts_le_utf8, starts_be_utf8, strip_utf8 by done.
  cbn [orb from_option id]. by rewrite utf8_nonzero.
Qed.

(** ** The lines of an accepted text *)

(** Empty, or a comment. *)
Definition is_skipped (raw : list ascii) : bool :=
  let line := trim_ascii raw in (bytes_len line =? 0)%N || first_is ";" line || first_is "#" line.

(** [[name]] *)
Definition is_header (raw : list ascii) : bool :=
  let line := trim_ascii raw in
  negb (is_skipped raw) && ((3 <=? bytes_len line)%N && first_is "[" line && last_is "]" line).

(** [key=value], the key possibly empty. *)
Definition is_assignment (raw : list ascii) : bool :=
  negb (is_skipped raw) && negb (is_header raw) &&
  existsb (λ b, (b =? "=")%char) (trim_ascii raw).

(** The text before the first equals sign, if any. *)
Definition key_of (raw : list ascii) : list ascii :=
  match position (λ b, (b =? "=")%char) (trim_ascii raw) with
  | Some separator => trim_ascii (take separator (trim_ascii raw))
  | None => []
  end.

(** The section a line is in is the last header before it. *)
Definition section_of (before : list (list ascii)) : option (list ascii) :=
  last (List.filter is_header before).

Definition opens_list (header : list ascii) : bool := is_mactype_list_section (trim_ascii header).

Definition line_accepted (before : list (list ascii)) (raw : list ascii) : Prop :=
  is_skipped raw = true ∨ is_header raw = true ∨
  ∃ header, section_of before = Some header ∧
    if is_assignment raw then key_of raw ≠ [] else opens_list header = true.

Definition section_state (before : list (list ascii)) : IniState :=
  {| saw_section := match section_of before with Some _ => true | None => false end;
     saw_assignment := existsb is_assignment before;
     accepts_bare_entries := match section_of before with Some h => opens_list h | None => false end |}.

Lemma position_existsb {A} (p : A → bool) l :
  existsb p l = match position p l with Some _ => true | None => false end.
Proof. induction l as [|x l IH]; [done|]. simpl. destruct (p x); [done|]. rewrite IH. by destruct (position p l). Qed.

Lemma section_of_snoc before raw :
  section_of (before ++ [raw]) = if is_header raw then Some raw else section_of before.
Proof.
  unfold section_of. rewrite List.filter_app. cbn [List.filter]. destruct (is_header raw).
  - by rewrite last_snoc.
  - by rewrite app_nil_r.
Qed.

Lemma bytes_len_zero l : (bytes_len l =? 0)%N = true ↔ l = [].
Proof. unfold bytes_len. rewrite N.eqb_eq. destruct l; naive_solver lia. Qed.

Lemma skipped_not_assignment raw : is_skipped raw = true → is_assignment raw = false.
Proof. unfold is_assignment. by intros ->. Qed.

Lemma header_not_assignment raw : is_header raw = true → is_assignment raw = false.
Proof. unfold is_assignment. intros ->. by rewrite andb_false_r. Qed.

Lemma section_state_unchanged before raw :
  is_header raw = false → is_assignment raw = false →
  section_state (before ++ [raw]) = section_state before.
Proof.
  unfold section_state. intros Hh Ha. rewrite section_of_snoc, Hh, existsb_app. cbn [existsb].
  by rewrite Ha, !orb_false_r.
Qed.

(** One line more: the body of the loop, by what the line is. *)
Lemma ini_line_spec before raw :
  (line_accepted before raw ∧
   ini_line raw (section_state before) = Ok (section_state (before ++ [raw]))) ∨
  (¬ line_accepted before raw ∧ ini_line raw (section_state before) = Err InvalidIni).
Proof.
  unfold line_accepted. unfold ini_line. cbn zeta.
  change ((bytes_len (trim_ascii raw) =? 0)%N || _ || _) with (is_skipped raw).
  destruct (is_skipped raw) eqn:Hskip.
  { left. assert (is_header raw = false) as Hh by (unfold is_header; by rewrite Hskip).
    split; [by left|]. by rewrite section_state_unchanged by auto using skipped_not_assignment. }
  assert (is_header raw = (3 <=? bytes_len (trim_ascii raw))%N && first_is "[" (trim_ascii raw) &&
            last_is "]" (trim_ascii raw)) as Hhead by (unfold is_header; by rewrite Hskip).
  rewrite <- Hhead. destruct (is_header raw) eqn:Hh.
  { left. split; [by right; left|]. unfold section_state. rewrite section_of_snoc, Hh, existsb_app.
    cbn [existsb saw_assignment]. by rewrite header_not_assignment, !orb_false_r. }
  assert (is_assignment raw = existsb (λ b, (b =? "=")%char) (trim_ascii raw)) as Ha.
  { unfold is_assignment. by rewrite Hskip, Hh. }
  unfold key_of. rewrite Ha, position_existsb.
  destruct (position _ (trim_ascii raw)) as [separator|] eqn:Hp.
  - rewrite position_existsb, Hp in Ha. cbn [section_state saw_section saw_assignment accepts_bare_entries].
    destruct (section_of before) as [h|] eqn:Hsec; cbn [negb orb].
    + destruct (_ =? 0)%N eqn:Hkey.
      * right. apply bytes_len_zero in Hkey. split; [|done]. rewrite Hkey. naive_solver.
      * left. split.
        -- right; right. exists h. split; [done|]. intros Hk. by rewrite Hk in Hkey.
        -- unfold section_state. rewrite section_of_snoc, Hh, existsb_app, Hsec. cbn [existsb].
           by rewrite Ha, orb_true_r.
    + right. split; [naive_solver|done].
  - rewrite position_existsb, Hp in Ha. cbn [section_state saw_section accepts_bare_entries].
    destruct (section_of before) as [h|] eqn:Hsec; cbn [andb].
    + destruct (opens_list h) eqn:Hl.
      * left. split; [naive_solver|]. by rewrite section_state_unchanged.
      * right. split; [intros [?|[?|(h' & Eh & ?)]]; congruence|done].
    + right. split; [naive_solver|done].
Qed.

Lemma ini_lines_app l1 l2 s : ini_lines (l1 ++ l2) s = let-? s' := ini_lines l1 s in ini_lines l2 s'.
Proof. revert s. induction l1 as [|x l1 IH]; intros s; [done|]. simpl. by destruct (ini_line x s); simpl. Qed.

Lemma ini_lines_spec lines :
  ini_lines lines ini_start = Ok (section_state lines) ∧
    (∀ before raw after, lines = before ++ raw :: after → line_accepted before raw) ∨
  ini_lines lines ini_start = Err InvalidIni ∧
    (∃ before raw after, lines = before ++ raw :: after ∧ ¬ line_accepted before raw).
Proof.
  induction lines as [|raw lines IH] using rev_ind.
  { left. split; [done|]. intros before raw after E. by destruct before. }
  rewrite ini_lines_app. destruct IH as [[-> IH]|[-> (before & bad & after & -> & Hbad)]].
  - cbn [result_bind ini_lines]. destruct (ini_line_spec lines raw) as [[Hok ->]|[Hno ->]].
    + left. split; [done|]. intros before x after E.
      destruct after as [|y after _] using rev_ind.
      * by apply app_inj_tail in E as [-> ->].
      * rewrite app_comm_cons, app_assoc in E. apply app_inj_tail in E as [-> _]. by apply (IH _ _ after).
    + right. split; [done|]. by exists lines, raw, [].
  - right. split; [done|]. exists before, bad, (after ++ [raw]). split; [|done]. by rewrite <- app_assoc.
Qed.

(** ** The catalog's invariant *)

Inductive CatalogOperation :=
| Publish (bytes : list ascii) (metadata : SourceMetadata)
| Activate (g : GenerationId)
| Rollback.

Section CatalogFacts.
Context `{Sha256}.
Implicit Types (c : ProfileCatalog) (g : GenerationId).

(** The catalog an operation leaves, whatever it answers. *)
Definition catalog_after (c : ProfileCatalog) (op : CatalogOperation) : ProfileCatalog :=
  match op with
  | Publish bytes metadata => snd (publish_machine_profile bytes metadata c)
  | Activate g => snd (activate_machine_generation g c)
  | Rollback => snd (rollback_machine_generation c)
  end.

Record catalog_sound (c : ProfileCatalog) : Prop := {
  (** a generation is the digest of its own, valid text *)
  generation_names_bytes : ∀ g p, generations c !! g = Some p →
    g = sha256_digest (profile_bytes p) ∧ validate_profile (profile_bytes p) = Ok tt;
  active_published : ∀ g, active c = Some g → is_Some (generations c !! g);
  previous_published : ∀ g, previous_generation c = Some g → is_Some (generations c !! g);
  (** there is a previous generation only besides an active one, another *)
  previous_differs : ∀ g, previous_generation c = Some g → ∃ a, active c = Some a ∧ a ≠ g
}.

Lemma new_catalog_sound : catalog_sound new_catalog.
Proof. by split. Qed.

Lemma publish_cases bytes metadata c :
  (∃ e, validate_profile bytes = Err e ∧ publish_machine_profile bytes metadata c = (Err e, c)) ∨
  (validate_profile bytes = Ok tt ∧
   ∃ gens, publish_machine_profile bytes metadata c =
      (Ok (sha256_digest bytes), {| generations := gens; active := active c;
                                    previous_generation := previous_generation c |}) ∧
    (∀ g p, generations c !! g = Some p → gens !! g = Some p) ∧
    (∀ g p, gens !! g = Some p → generations c !! g = Some p ∨
       g = sha256_digest bytes ∧ profile_bytes p = bytes) ∧
    is_Some (gens !! sha256_digest bytes)).
Proof.
  unfold publish_machine_profile, from_profile_bytes. cbn zeta.
  destruct (validate_profile bytes) as [[]|e] eqn:Ev; [right|left; by exists e].
  split; [done|]. destruct (generations c !! sha256_digest bytes) as [p|] eqn:Eg.
  - exists (generations c). split_and!; [done|auto|auto|]. by exists p.
  - eexists. split; [done|]. split_and!.
    + intros g p Hg. rewrite lookup_insert_ne; [done|]. intros <-. by rewrite Eg in Hg.
    + intros g p Hg. destruct (decide (sha256_digest bytes = g)) as [<-|Hne].
      * rewrite lookup_insert_eq in Hg. right. split; [done|]. by injection Hg as <-.
      * rewrite lookup_insert_ne in Hg by done. by left.
    + rewrite lookup_insert_eq. eauto.
Qed.

Lemma catalog_after_sound c op : catalog_sound c → catalog_sound (catalog_after c op).
Proof.
  intros Hc. pose proof Hc as [Hbytes Hact Hprev Hdiff]. destruct op as [bytes metadata|g|]; cbn [catalog_after].
  - destruct (publish_cases bytes metadata c) as [(e & _ & ->)|(Hv & gens & -> & Hkeep & Hnew & _)];
      [exact Hc|]. split; cbn [snd generations active previous_generation]; try done.
    + intros g p [Hg|[-> <-]]%Hnew; [by apply Hbytes|done].
    + intros g [p ?]%Hact. exists p. by apply Hkeep.
    + intros g [p ?]%Hprev. exists p. by apply Hkeep.
  - unfold activate_machine_generation. destruct (contains_key (generations c) g) eqn:Eg; [|by split].
    apply contains_key_true in Eg. cbn [negb]. case_bool_decide as Ea; [by split|].
    split; cbn [snd generations active previous_generation]; try done.
    + by intros ? [= <-].
    + intros g' Hg'. exists g. split; [done|]. intros ->. by apply Ea.
  - unfold rollback_machine_generation. destruct (previous_generation c) as [p|] eqn:Ep; [|exact Hc].
    destruct (Hdiff p eq_refl) as (a & Ha & Hne).
    split; cbn [snd generations active previous_generation]; try done.
    intros g Hg. rewrite Ha in Hg. injection Hg as <-. by exists p.
Qed.

Lemma catalog_keeps_profiles c op g p :
  generations c !! g = Some p → generations (catalog_after c op) !! g = Some p.
Proof.
  intros Hg. destruct op as [bytes metadata|g'|]; cbn [catalog_after].
  - destruct (publish_cases bytes metadata c) as [(e & _ & ->)|(Hv & gens & -> & Hkeep & _)]; [done|].
    by apply Hkeep.
  - unfold activate_machine_generation. by repeat case_match.
  - unfold rollback_machine_generation. by case_match.
Qed.

Lemma run_catalog_sound ops c : catalog_sound c → catalog_sound (fold_left catalog_after ops c).
Proof. revert c. induction ops as [|op ops IH]; intros c ?; [done|]. apply IH. by apply catalog_after_sound. Qed.

Lemma run_catalog_keeps ops c g p :
  generations c !! g = Some p → generations (fold_left catalog_after ops c) !! g = Some p.
Proof. revert c. induction ops as [|op ops IH]; intros c ?; [done|]. apply IH. by apply catalog_keeps_profiles. Qed.

Lemma catalog_bytes_of_digest c bytes :
  catalog_sound c → is_Some (generations c !! sha256_digest bytes) →
  catalog_profile_bytes c (sha256_digest bytes) = Some bytes ∨ collision.
Proof.
  intros Hc [p Hp]. destruct (generation_names_bytes c Hc _ _ Hp) as [Hd _].
  unfold catalog_profile_bytes. rewrite Hp. apply digest_inj in Hd as [->|?]; auto.
Qed.
End CatalogFacts.

(** ** Properties *)

(** The structure of an accepted profile: the text is accepted if and only if it
    has an assignment and every line is blank or a comment, a section header, or
    lies in a section and is either an assignment with a key or, in one of the six
    list sections, an entry without an equals sign.  Which section a line lies in is
    decided by the last header before it. *)
Theorem ini_structure_exact bytes :
  let lines := split_on (λ b, (b =? LF)%char) bytes in
  validate_ini_structure bytes = Ok tt ↔
  (∀ before raw after, lines = before ++ raw :: after →
     is_skipped raw = true ∨ is_header raw = true ∨
     ∃ header, section_of before = Some header ∧
       if is_assignment raw then key_of raw ≠ [] else opens_list header = true) ∧
  ∃ raw, raw ∈ lines ∧ is_assignment raw = true.
Proof.
  cbn zeta. unfold validate_ini_structure. set (lines := split_on _ _).
  destruct (ini_lines_spec lines) as [[-> Hok]|[-> (before & raw & after & E & Hbad)]].
  - cbn [result_bind section_state saw_section saw_assignment].
    assert (existsb is_assignment lines = true ↔ ∃ raw, raw ∈ lines ∧ is_assignment raw = true) as Hex.
    { rewrite existsb_exists. by setoid_rewrite list_elem_of_In. }
    destruct (existsb is_assignment lines) eqn:Ea.
    + assert (∃ h, section_of lines = Some h) as [h ->].
      { destruct (proj1 Hex eq_refl) as (raw & (before & after & ->)%list_elem_of_split & Har).
        destruct (Hok before raw after eq_refl) as [Hs|[Hh|(h & Hs & _)]].
        - by rewrite (skipped_not_assignment raw Hs) in Har.
        - by rewrite (header_not_assignment raw Hh) in Har.
        - unfold section_of in *. rewrite List.filter_app, last_app. rewrite Hs.
          destruct (last (List.filter is_header (raw :: after))); eauto. }
      split; [|done]. intros _. split; [exact Hok|]. by apply Hex.
    + rewrite andb_false_r. split; [done|]. by intros [_ ?%Hex].
  - cbn [result_bind]. split; [done|]. intros [Hall _]. by destruct Hbad; apply (Hall before raw after).
Qed.

(** A profile means the same in every encoding it may be saved in: for a text
    without NUL characters that fits, UTF-8 with a byte order mark and UTF-16 of
    either endianness, surrogate pairs included, get the same verdict, the verdict
    of the text's lines. *)
Theorem encodings_agree text
  (Htext : Forall scalar_value text) (Hnul : 0%N ∉ text)
  (Hutf8 : size_fits (BOM_UTF8 ++ utf8 text))
  (Hle : size_fits (BOM_LE ++ utf16 to_le_bytes text))
  (Hbe : size_fits (BOM_BE ++ utf16 to_be_bytes text)) :
  validate_profile (BOM_UTF8 ++ utf8 text) = validate_ini_structure (utf8 text) ∧
  validate_profile (BOM_LE ++ utf16 to_le_bytes text) = validate_ini_structure (utf8 text) ∧
  validate_profile (BOM_BE ++ utf16 to_be_bytes text) = validate_ini_structure (utf8 text).
Proof. by rewrite validate_utf8, validate_le, validate_be. Qed.

Definition example_text : list N :=
  map N_of_ascii (str_bytes "[General]") ++ [10%N] ++
  map N_of_ascii (str_bytes "Name=") ++ [0x1F600; 0x20AC; 0xE9; 10]%N.

Lemma encodings_agree_witness :
  validate_profile (BOM_LE ++ utf16 to_le_bytes example_text) = validate_ini_structure (utf8 example_text) ∧
  validate_ini_structure (utf8 example_text) = Ok tt.
Proof.
  split; [|vm_compute; reflexivity]. refine (proj1 (proj2 (encodings_agree example_text _ _ _ _ _))).
  - repeat (constructor; [by vm_compute|]). constructor.
  - apply (bool_decide_unpack (0%N ∉ example_text)). by vm_compute.
  - by vm_compute.
  - by vm_compute.
  - by vm_compute.
Defined.

(** Whatever is published, activated and rolled back, in any order, the catalog
    stays sound: a generation is named by the digest of its own valid bytes, the
    active and the previous generation are published and differ; no operation
    changes or forgets a published profile, and a rollback exchanges the two
    generations, so that a second one undoes it. *)
Theorem catalog_histories_sound `{Sha256} before after :
  let c := fold_left catalog_after before new_catalog in
  let c' := fold_left catalog_after after c in
  catalog_sound c ∧
  (∀ g p, generations c !! g = Some p → generations c' !! g = Some p) ∧
  (∀ bytes, is_ok (fst (publish_machine_profile bytes {| display_name := "" |} c)) = true ↔
     validate_profile bytes = Ok tt) ∧
  match rollback_machine_generation c with
  | (Ok g, back) => active back = Some g ∧ previous_generation back = active c ∧
      snd (rollback_machine_generation back) = c
  | (Err _, back) => back = c ∧ previous_generation c = None
  end.
Proof.
  cbn zeta. set (c := fold_left _ before _).
  assert (catalog_sound c) as Hc by apply run_catalog_sound, new_catalog_sound.
  split_and!; [done|by apply run_catalog_keeps| |].
  - intros bytes. destruct (publish_cases bytes {| display_name := "" |} c)
      as [(e & -> & ->)|(-> & gens & -> & _)]; by split.
  - unfold rollback_machine_generation. destruct (previous_generation c) as [p|] eqn:Ep; [|done].
    split_and!; [done..|]. cbn [previous_generation].
    destruct (previous_differs c Hc p Ep) as (a & Ha & _). rewrite Ha. cbn [snd].
    destruct c as [gens act prev]. cbn in *. by subst.
Qed.

(** Publishing a valid text and activating the generation it answers makes the
    text the active profile: the activation succeeds, the generation is canonical
    and the bytes kept under it are the bytes published, unless SHA-256 collides. *)
Theorem published_text_is_active `{Sha256} bytes metadata c
  (Hc : catalog_sound c) (Hvalid : validate_profile bytes = Ok tt) :
  ∃ g published,
    publish_machine_profile bytes metadata c = (Ok g, published) ∧
    generation_parse g = Ok g ∧
    let activated := activate_machine_generation g published in
    fst activated = Ok tt ∧ active (snd activated) = Some g ∧
    (catalog_profile_bytes (snd activated) g = Some bytes ∨ collision).
Proof.
  destruct (publish_cases bytes metadata c) as [(e & He & _)|(_ & gens & Hpub & Hkeep & Hnew & Hin)];
    [congruence|].
  do 2 eexists. split; [exact Hpub|]. split.
  { unfold generation_parse. by rewrite (digest_canonical bytes : canonical_digest _ = true). }
  assert (catalog_sound (snd (publish_machine_profile bytes metadata c))) as Hs
    by (by apply (catalog_after_sound c (Publish bytes metadata))).
  rewrite Hpub in Hs. cbn [snd] in Hs. set (published := Build_ProfileCatalog _ _ _) in *.
  cbn zeta. unfold activate_machine_generation.
  rewrite (proj2 (contains_key_true (generations published) _)) by done. cbn [negb].
  case_bool_decide; cbn [fst snd active]; (split_and!; [done|done|]);
    by apply (catalog_bytes_of_digest published).
Qed.

Lemma published_text_is_active_witness :
  ∃ g published,
    publish_machine_profile (utf8 example_text) {| display_name := "Example" |} new_catalog =
      (Ok g, published).
Proof.
  destruct (published_text_is_active (utf8 example_text) {| display_name := "Example" |} new_catalog)
    as (g & published & Hp & _); [apply new_catalog_sound|vm_compute; reflexivity|].
  exists g, published. exact Hp.
Defined.
