(* ===== verification/WindowsCalls.v ===== *)
(** * Calls of Windows

    What the setup program asks of the service control manager, of a process and of a
    pipe, at the boundary where [service-runtime/platform/src/] calls Windows.  A call is
    data, with its answer in its type; a disk ([Storage]) remembers the calls that were
    made and what was answered, the latest last. *)

From S2P Require Export Prelude.

(** [std::io::Error], by the kind the code tests, the code it carries and its text. *)
Record IoError := { not_found : bool; raw_os_error : option N; io_text : string }.

#[export] Instance IoError_eq_dec : EqDecision IoError.
Proof. solve_decision. Defined.

(** An open handle. *)
Definition Handle : Type := N.

(** [platform/src/handle.rs]: what a wait ended with. *)
Inductive WaitOutcome := Signaled | TimedOut | Abandoned.

#[export] Instance WaitOutcome_eq_dec : EqDecision WaitOutcome.
Proof. solve_decision. Defined.

Record SERVICE_STATUS_PROCESS := {
  dwCurrentState : N;
  dwProcessId : N;
  dwWin32ExitCode : N;
  dwServiceSpecificExitCode : N
}.

(** The texts are as [String::from_utf16_lossy] decodes them; [None] is a null pointer. *)
Record QUERY_SERVICE_CONFIGW := {
  dwServiceType : N;
  dwStartType : N;
  dwErrorControl : N;
  lpBinaryPathName : option string;
  lpLoadOrderGroup : option string;
  dwTagId : N;
  lpDependencies : list string;
  lpServiceStartName : option string;
  lpDisplayName : option string
}.

(** The structures given to [ChangeServiceConfig2W]; an action is its type and its delay. *)
Inductive ServiceInformation :=
| SERVICE_DESCRIPTION (text : option string)
| SERVICE_FAILURE_ACTIONS (reset_period : N) (reboot_message command : option string) (actions : list (Z * N))
| SERVICE_FAILURE_ACTIONS_FLAG (on_non_crash_failures : Z)
| SERVICE_DELAYED_AUTO_START_INFO (delayed : Z)
| SERVICE_SID_INFO (sid_type : N)
| SERVICE_REQUIRED_PRIVILEGES_INFO (privileges : list string)
| SERVICE_PRESHUTDOWN_INFO (milliseconds : N)
| SERVICE_TRIGGER_INFO.

(** What [QueryServiceConfig2W] answers, by its level.  A text is the UTF-16 units before
    its terminator, and [None] is a null pointer. *)
Record FailureActionsAnswer := {
  dwResetPeriod : N;
  lpRebootMsg : option (list N);
  lpCommand : option (list N);
  lpsaActions : list (Z * N)
}.

Record TriggerAnswer := { cTriggers : N; pTriggers : bool; pReserved : bool }.

Inductive ConfigLevel : Type → Type :=
| SERVICE_CONFIG_DESCRIPTION : ConfigLevel (option (list N))
| SERVICE_CONFIG_FAILURE_ACTIONS : ConfigLevel FailureActionsAnswer
| SERVICE_CONFIG_FAILURE_ACTIONS_FLAG : ConfigLevel Z
| SERVICE_CONFIG_DELAYED_AUTO_START_INFO : ConfigLevel Z
| SERVICE_CONFIG_SERVICE_SID_INFO : ConfigLevel N
| SERVICE_CONFIG_REQUIRED_PRIVILEGES_INFO : ConfigLevel (list (list N))
| SERVICE_CONFIG_PRESHUTDOWN_INFO : ConfigLevel N
| SERVICE_CONFIG_TRIGGER_INFO : ConfigLevel TriggerAnswer.

Inductive WindowsCall : Type → Type :=
| OpenSCManagerW (rights : N) : WindowsCall (result unit IoError)
| OpenServiceW (name : string) (rights : N) : WindowsCall (result Handle IoError)
| CreateServiceW (name display_name : string) (rights service_type start_type error_control : N)
    (image_path : string) (load_order_group : option string) (dependencies : option (list string))
    (account : option string) : WindowsCall (result Handle IoError)
| QueryServiceStatusEx (service : Handle) : WindowsCall (result SERVICE_STATUS_PROCESS IoError)
| QueryServiceConfigW (service : Handle) : WindowsCall (result QUERY_SERVICE_CONFIGW IoError)
| StartServiceW (service : Handle) : WindowsCall (result unit IoError)
| ControlService (service : Handle) (control : N) : WindowsCall (result unit IoError)
| DeleteService (service : Handle) : WindowsCall (result unit IoError)
| ChangeServiceConfigW (service : Handle) (service_type start_type error_control : N)
    (image_path load_order_group : option string) (dependencies : option (list string))
    (account display_name : option string) : WindowsCall (result unit IoError)
| ChangeServiceConfig2W (service : Handle) (information : ServiceInformation) : WindowsCall (result unit IoError)
| QueryServiceConfig2W {A : Type} (service : Handle) (level : ConfigLevel A) : WindowsCall (result A IoError)
| QueryServiceObjectSecurity (service : Handle) (information : N) : WindowsCall (result (list ascii) IoError)
| SetServiceObjectSecurity (service : Handle) (information : N) (descriptor : list ascii) : WindowsCall (result unit IoError)
| OpenProcess (rights pid : N) : WindowsCall (result Handle IoError)
| WaitForSingleObject (object : Handle) (milliseconds : N) : WindowsCall (result N IoError)
| OpenPipe (name : string) : WindowsCall (result Handle IoError)
| GetNamedPipeServerProcessId (pipe : Handle) : WindowsCall (result N IoError)
| ReadPipe (pipe : Handle) (capacity : N) : WindowsCall (result (list ascii) IoError).

(** A call that was made, with its answer. *)
Inductive Answered :=
| Called (A : Type) (c : WindowsCall A) (a : A).
Arguments Called {A} c a.

(** What [std::io::Error::raw_os_error] of [e] is. *)
Definition has_code (e : IoError) (code : N) : bool := bool_decide (raw_os_error e = Some code).
