(* ===== verification/Storage.v ===== *)
(** * Machine storage

    [service-runtime/setup/src/storage.rs]: the errors of the setup program and the
    file operations every part of it goes through.  The disk is a map from paths to
    nodes; each call of the operating system takes one step of a [World], which
    decides whether the call fails, whether a failed write was applied anyway, what
    time it takes, and in which order a directory is listed.  A disk remembers the
    states it went through, so that a theorem can speak of a crash at any of them. *)

From stdpp Require Import pretty.
From S2P Require Export WindowsCalls Profile.

(** ** Errors *)

Inductive SetupError :=
| Io (error : IoError)
| MachineOperation (operation : string) (path : Path) (source : SetupError)
| InvalidProfile (error : ProfileError)
| InvalidMetadata
| InvalidPointer
| TamperedGeneration
| ReparsePoint (path : Path)
| NoPreviousGenerationAvailable
| CleanupUnknown (message : string)
| RollbackFailed (operation restoration : string)
| Manifest (message : string)
| Runtime (message : string).

(** [impl Display for SetupError] *)
Fixpoint display (e : SetupError) : string :=
  match e with
  | Io error => "machine storage I/O failed: " ++ io_text error
  | MachineOperation operation path source =>
      "machine operation '" ++ operation ++ "' failed at " ++ path_display path ++ ": " ++ display source
  | InvalidProfile error => "profile validation failed: " ++ profile_error_display error
  | InvalidMetadata => "source metadata is invalid"
  | InvalidPointer => "generation pointer is invalid"
  | TamperedGeneration => "profile generation hash does not match"
  | ReparsePoint path => "reparse points are forbidden in machine storage: " ++ path_display path
  | NoPreviousGenerationAvailable => "no previous generation is available"
  | CleanupUnknown message => "machine cleanup state is unknown: " ++ message
  | RollbackFailed operation restoration =>
      "machine cleanup state is unknown: " ++ operation ++ "; " ++ restoration
  | Manifest message => "runtime manifest is invalid: " ++ message
  | Runtime message => "machine runtime operation failed: " ++ message
  end.

Definition at_machine_path (operation : string) (path : Path) (e : SetupError) : SetupError :=
  MachineOperation operation path e.

(** ** The disk *)

Inductive LinkTarget := ToFile (bytes : list ascii) | ToDirectory | Dangling.

Inductive Node := File (bytes : list ascii) | Directory | Link (target : LinkTarget).

#[export] Instance LinkTarget_eq_dec : EqDecision LinkTarget.
Proof. solve_decision. Defined.
#[export] Instance Node_eq_dec : EqDecision Node.
Proof. solve_decision. Defined.

Notation Nodes := (gmap Path Node).

Record Disk := {
  nodes : Nodes;
  history : list Nodes;   (* the states since the program started, the latest first *)
  calls : nat;
  clock : N;              (* nanoseconds *)
  sequence : N;           (* [TEMPORARY_SEQUENCE] *)
  answered : list Answered; (* the calls of Windows so far, the latest last *)
  captured : bool         (* a variable of the caller that a closure sets *)
}.

(** How a call of the operating system can fail: without effect, or with an effect
    that is not reported, of which a write may have stored only the first bytes. *)
Inductive Fault := Refused (e : IoError) | Unconfirmed (e : IoError) (stored : nat).

(** Why a call fails on the disk as it is. *)
Inductive IoCause := Missing | Occupied | WrongKind | NotEmpty.

Class World := {
  fault : nat → option Fault;            (* of the n-th call *)
  blind : nat → bool;                    (* the n-th call, an [exists], cannot tell *)
  elapsed : nat → N;
  process_id : N;
  timestamp : N → N;                     (* the system time when a name is made *)
  dir_order : list string → list string; (* how a directory is listed *)
  io_error : IoCause → IoError;
  dir_order_perm : ∀ names, Permutation (dir_order names) names;
  io_error_not_found : ∀ c, not_found (io_error c) = true ↔ c = Missing
}.

Definition set_nodes (m : Nodes) (d : Disk) : Disk :=
  {| nodes := m; history := m :: history d; calls := calls d; clock := clock d;
     sequence := sequence d; answered := answered d; captured := captured d |}.

Definition pass_time (n : N) (d : Disk) : Disk :=
  {| nodes := nodes d; history := history d; calls := calls d; clock := clock d + n;
     sequence := sequence d; answered := answered d; captured := captured d |}.

Definition next_call (d : Disk) : Disk :=
  {| nodes := nodes d; history := history d; calls := S (calls d); clock := clock d;
     sequence := sequence d; answered := answered d; captured := captured d |}.

Definition next_sequence (d : Disk) : Disk :=
  {| nodes := nodes d; history := history d; calls := calls d; clock := clock d;
     sequence := (sequence d + 1) mod 2 ^ 64; answered := answered d; captured := captured d |}.

Definition set_captured (b : bool) (d : Disk) : Disk :=
  {| nodes := nodes d; history := history d; calls := calls d; clock := clock d;
     sequence := sequence d; answered := answered d; captured := b |}.

(** [path.ancestors()], the path first; the root has one component. *)
Definition ancestors (p : Path) : list Path := map (λ n, take n p) (rev (seq 1 (length p))).

Definition file_name (p : Path) : option string := last p.

Definition node_exists (m : Nodes) (p : Path) : bool :=
  match m !! p with Some (Link Dangling) | None => false | Some _ => true end.

(** What [fs::metadata] tells of a node, links followed. *)
Inductive Metadata := RegularFile (len : N) | DirectoryMetadata.

Section Calls.
Context `{World}.

Definition tick : M Disk (option Fault) :=
  λ d, Some (fault (calls d), pass_time (elapsed (calls d)) (next_call d)).

(** A call that reads. *)
Definition os_read {A : Type} (f : Nodes → result A IoError) : M Disk (result A IoError) :=
  let! failed := tick in
  match failed with
  | Some (Refused e) | Some (Unconfirmed e _) => ret (Err e)
  | None => gets (λ d, f (nodes d))
  end.

(** A call that writes; [f (Some n)] is its effect when it failed after [n] bytes. *)
Definition os_write (f : option nat → Nodes → result Nodes IoError) : M Disk (result unit IoError) :=
  let! failed := tick in
  match failed with
  | Some (Refused e) => ret (Err e)
  | Some (Unconfirmed e n) =>
      let! m := gets nodes in
      match f (Some n) m with
      | Ok m' => let! _ := modify (set_nodes m') in ret (Err e)
      | Err _ => ret (Err e)
      end
  | None =>
      let! m := gets nodes in
      match f None m with
      | Ok m' => let! _ := modify (set_nodes m') in ret (Ok tt)
      | Err e => ret (Err e)
      end
  end.

Definition lift_io {A : Type} (m : M Disk (result A IoError)) : M Disk (result A SetupError) :=
  let! r := m in ret (map_err Io r).

(** [Path::exists]: false as well when the call fails. *)
Definition path_exists (p : Path) : M Disk bool :=
  let! d := get in
  let! _ := tick in
  ret (if blind (calls d) then false else node_exists (nodes d) p).

Definition fs_symlink_metadata (p : Path) : M Disk (result Node IoError) :=
  os_read (λ m, match m !! p with Some n => Ok n | None => Err (io_error Missing) end).

Definition node_metadata (n : Node) : result Metadata IoError :=
  match n with
  | File bytes | Link (ToFile bytes) => Ok (RegularFile (bytes_len bytes))
  | Directory | Link ToDirectory => Ok DirectoryMetadata
  | Link Dangling => Err (io_error Missing)
  end.

Definition fs_metadata (p : Path) : M Disk (result Metadata IoError) :=
  os_read (λ m, match m !! p with Some n => node_metadata n | None => Err (io_error Missing) end).

(** [Path::is_file] and [Path::is_dir]: false as well when the call fails. *)
Definition is_file (p : Path) : M Disk bool :=
  let! r := fs_metadata p in ret (match r with Ok (RegularFile _) => true | _ => false end).

Definition is_dir (p : Path) : M Disk bool :=
  let! r := fs_metadata p in ret (match r with Ok DirectoryMetadata => true | _ => false end).

Definition readable (m : Nodes) (p : Path) : result (list ascii) IoError :=
  match m !! p with
  | Some (File bytes) | Some (Link (ToFile bytes)) => Ok bytes
  | Some (Link Dangling) | None => Err (io_error Missing)
  | Some _ => Err (io_error WrongKind)
  end.

(** [OpenOptions::new().read(true).open(path)] *)
Definition open_read (p : Path) : M Disk (result unit IoError) :=
  os_read (λ m, let-? _ := readable m p in Ok tt).

(** The first bytes of a text; one that is short enough is left as it is. *)
Definition take_bytes (limit : N) (bytes : list ascii) : list ascii :=
  if (bytes_len bytes <=? limit)%N then bytes else take (N.to_nat limit) bytes.

Lemma take_bytes_eq limit bytes : take_bytes limit bytes = take (N.to_nat limit) bytes.
Proof.
  unfold take_bytes, bytes_len. destruct (_ <=? _)%N eqn:E; [|done].
  apply N.leb_le in E. rewrite take_ge; [done|lia].
Qed.

(** [file.take(limit).read_to_end] on the file that [open_read] opened. *)
Definition read_to_end (limit : N) (p : Path) : M Disk (result (list ascii) IoError) :=
  os_read (λ m, let-? bytes := readable m p in Ok (take_bytes limit bytes)).

Definition create_new (p : Path) : M Disk (result unit IoError) :=
  os_write (λ _ m, match m !! p with
                   | Some _ => Err (io_error Occupied)
                   | None => Ok (<[p := File []]> m)
                   end).

Definition write_all (p : Path) (bytes : list ascii) : M Disk (result unit IoError) :=
  os_write (λ partial m,
    match m !! p with
    | Some (File old) =>
        Ok (<[p := File (old ++ match partial with Some n => take n bytes | None => bytes end)]> m)
    | _ => Err (io_error WrongKind)
    end).

(** [write_all] at the end of a file, links followed. *)
Definition append_all (p : Path) (bytes : list ascii) : M Disk (result unit IoError) :=
  os_write (λ partial m,
    let written := match partial with Some n => take n bytes | None => bytes end in
    match m !! p with
    | Some (File old) => Ok (<[p := File (old ++ written)]> m)
    | Some (Link (ToFile old)) => Ok (<[p := Link (ToFile (old ++ written))]> m)
    | _ => Err (io_error WrongKind)
    end).

Definition sync_all (p : Path) : M Disk (result unit IoError) := os_read (λ _, Ok tt).

Definition remove_file (p : Path) : M Disk (result unit IoError) :=
  os_write (λ _ m, match m !! p with
                   | Some (File _) | Some (Link _) => Ok (delete p m)
                   | Some Directory => Err (io_error WrongKind)
                   | None => Err (io_error Missing)
                   end).

(** The platform's [replace_file]: the source takes the place of the destination. *)
Definition platform_replace_file (source destination : Path) : M Disk (result unit IoError) :=
  os_write (λ _ m, match m !! source, m !! destination with
                   | None, _ => Err (io_error Missing)
                   | Some _, Some Directory => Err (io_error WrongKind)
                   | Some n, _ => Ok (<[destination := n]> (delete source m))
                   end).

(** [fs::create_dir_all] *)
Definition make_directory (m : Nodes) (p : Path) : Nodes :=
  match m !! p with Some _ => m | None => <[p := Directory]> m end.

Definition directory_or_absent (m : Nodes) (p : Path) : bool :=
  match m !! p with None | Some Directory | Some (Link ToDirectory) => true | Some _ => false end.

Definition create_dir_all (p : Path) : M Disk (result unit IoError) :=
  os_write (λ _ m, if forallb (directory_or_absent m) (ancestors p)
                   then Ok (fold_left make_directory (rev (ancestors p)) m)
                   else Err (io_error WrongKind)).

(** The names in a directory, in the order [fs::read_dir] yields them. *)
Definition entry_name (p q : Path) : option string :=
  match rev q with
  | name :: parent => if bool_decide (rev parent = p) then Some name else None
  | [] => None
  end.

Definition entry_names (m : Nodes) (p : Path) : list string :=
  dir_order (omap (entry_name p) (map_to_list m).*1).

Definition fs_read_dir (p : Path) : M Disk (result (list string) IoError) :=
  os_read (λ m, match m !! p with
                | Some Directory | Some (Link ToDirectory) => Ok (entry_names m p)
                | Some _ => Err (io_error WrongKind)
                | None => Err (io_error Missing)
                end).

Definition is_reparse_point (p : Path) : M Disk (result bool IoError) :=
  os_read (λ m, match m !! p with
                | Some (Link _) => Ok true
                | Some _ => Ok false
                | None => Err (io_error Missing)
                end).

Definition instant_now : M Disk N := gets clock.
Definition sleep (n : N) : M Disk unit := modify (pass_time n).
End Calls.

(** ** The operations of [storage.rs] *)

Definition PROFILE_FILE_RETRY_BUDGET : N := from_secs 2.
Definition PROFILE_FILE_INITIAL_BACKOFF : N := from_millis 5.
Definition PROFILE_FILE_MAX_BACKOFF : N := from_millis 100.

Definition ERROR_ACCESS_DENIED : N := 5.
Definition ERROR_SHARING_VIOLATION : N := 32.
Definition ERROR_LOCK_VIOLATION : N := 33.

Definition transient (e : IoError) : bool :=
  match raw_os_error e with
  | Some code => ((code =? ERROR_ACCESS_DENIED) || (code =? ERROR_SHARING_VIOLATION)
                  || (code =? ERROR_LOCK_VIOLATION))%N
  | None => false
  end.

(** The loop of [retry_profile_file_operation_until].  A round that is repeated has
    slept five milliseconds at least, so a budget of two seconds is spent before
    [RETRY_FUEL] rounds. *)
Fixpoint retry_until {T : Type} (fuel : nat) (deadline backoff : N)
    (operation : M Disk (result T IoError)) : M Disk (result T IoError) :=
  match fuel with
  | 0 => no_answer
  | S fuel =>
      let! r := operation in
      match r with
      | Ok value => ret (Ok value)
      | Err error =>
          if transient error then
            let! now := instant_now in
            let remaining := saturating_sub deadline now in
            if (remaining =? 0)%N then ret (Err error)
            else if (remaining <=? backoff)%N then
              let! _ := sleep remaining in ret (Err error)
            else
              let! _ := sleep backoff in
              retry_until fuel deadline (N.min (backoff * 2) PROFILE_FILE_MAX_BACKOFF) operation
          else ret (Err error)
      end
  end.

Definition RETRY_FUEL : nat := 402.

Definition retry_profile_file_operation {T : Type} (operation : M Disk (result T IoError))
    : M Disk (result T IoError) :=
  let! now := instant_now in
  retry_until RETRY_FUEL (now + PROFILE_FILE_RETRY_BUDGET) PROFILE_FILE_INITIAL_BACKOFF operation.

Section Operations.
Context `{World}.

Definition replace_file (source destination : Path) : M Disk (result unit SetupError) :=
  lift_io (retry_profile_file_operation (platform_replace_file source destination)).

Fixpoint reject_reparse (candidates : list Path) : M Disk (result unit SetupError) :=
  match candidates with
  | [] => ret (Ok tt)
  | ancestor :: candidates' =>
      let! present := path_exists ancestor in
      if present then
        let? reparse := lift_io (is_reparse_point ancestor) in
        if reparse then ret (Err (ReparsePoint ancestor)) else reject_reparse candidates'
      else reject_reparse candidates'
  end.

Definition reject_reparse_ancestors (p : Path) : M Disk (result unit SetupError) :=
  reject_reparse (ancestors p).

Definition create_protected_directory (p : Path) : M Disk (result unit SetupError) :=
  let? _ := reject_reparse_ancestors p in
  let? _ := lift_io (create_dir_all p) in
  reject_reparse_ancestors p.

Definition temporary_nonce : M Disk string :=
  let! n := gets sequence in
  let! _ := modify next_sequence in
  ret (pretty process_id ++ "-" ++ pretty (timestamp n) ++ "-" ++ pretty n)%string.

Definition atomic_write_with_replace (p : Path) (bytes : list ascii)
    (replace : Path → Path → M Disk (result unit SetupError)) : M Disk (result unit SetupError) :=
  match path_parent p with
  | None => ret (Err (Runtime "destination has no parent"))
  | Some parent =>
      let? _ := create_protected_directory parent in
      let? _ := reject_reparse_ancestors p in
      let! nonce := temporary_nonce in
      let temporary := path_join parent ("." ++ default "pointer" (file_name p) ++ ".new-" ++ nonce) in
      let! r :=
        (let? _ := lift_io (create_new temporary) in
         let? _ := lift_io (write_all temporary bytes) in
         let? _ := lift_io (sync_all temporary) in
         replace temporary p) in
      match r with
      | Err error =>
          let! _ := remove_file temporary in
          ret (Err error)
      | Ok _ => ret (Ok tt)
      end
  end.

Definition atomic_write (p : Path) (bytes : list ascii) : M Disk (result unit SetupError) :=
  atomic_write_with_replace p bytes replace_file.

Definition read_bounded_regular_file (p : Path) (maximum_bytes : N) (description : string)
    : M Disk (result (list ascii) SetupError) :=
  let? _ := reject_reparse_ancestors p in
  let? metadata := lift_io (fs_metadata p) in
  let refusal := Runtime (description ++ " is not a bounded regular file") in
  match metadata with
  | RegularFile len =>
      if (len =? 0)%N || (maximum_bytes <? len)%N then ret (Err refusal)
      else
        let? _ := lift_io (open_read p) in
        let? bytes := lift_io (read_to_end (maximum_bytes + 1) p) in
        if (bytes_len bytes =? 0)%N || (maximum_bytes <? bytes_len bytes)%N then ret (Err refusal)
        else ret (Ok bytes)
  | DirectoryMetadata => ret (Err refusal)
  end.

(** The loop over [fs::read_dir]; each entry is an entry of the directory's name. *)
Fixpoint bounded_entries (room : nat) (description : string) (names : list string)
    : M Disk (result (list string) SetupError) :=
  match names with
  | [] => ret (Ok [])
  | name :: names' =>
      match room with
      | 0 => ret (Err (Runtime (description ++ " exceeds the fixed limit")))
      | S room' =>
          let? _ := lift_io (os_read (λ _, Ok tt)) in
          let? rest := bounded_entries room' description names' in
          ret (Ok (name :: rest))
      end
  end.

Definition read_bounded_directory (p : Path) (maximum_entries : nat) (description : string)
    : M Disk (result (list string) SetupError) :=
  let? _ := reject_reparse_ancestors p in
  let? metadata := lift_io (fs_metadata p) in
  match metadata with
  | RegularFile _ => ret (Err (Runtime (description ++ " is not a regular directory")))
  | DirectoryMetadata =>
      let? names := lift_io (fs_read_dir p) in
      bounded_entries maximum_entries description names
  end.
End Operations.

(** ** Runs

    [run P d d']: from [d] to [d'] the disk only went through states that satisfy
    [P], and neither time nor an answer was lost.  [spec P m Q d]: run from [d], [m]
    gives an answer, its run satisfies [P] and the answer and the last state satisfy
    [Q]. *)

(** [d'] is a later moment of the same program. *)
Definition later (d d' : Disk) : Prop :=
  (clock d <= clock d')%N ∧ calls d ≤ calls d' ∧ answered d `prefix_of` answered d'.

#[export] Instance later_preorder : PreOrder later.
Proof.
  split.
  - intros d. by split_and!.
  - intros d d' d'' (? & ? & ?) (? & ? & ?). split_and!; [lia|lia|by etrans].
Qed.

(** A step: time passes, calls are made, an answer is remembered. *)
Ltac later := split_and!; cbn; [lia|lia|first [reflexivity|by apply prefix_app_r]].

Definition run (P : Nodes → Prop) (d d' : Disk) : Prop :=
  ∃ visited, history d' = visited ++ history d ∧ Forall P visited ∧
    nodes d' = default (nodes d) (head visited) ∧ later d d'.

Definition spec {A : Type} (P : Nodes → Prop) (m : M Disk A) (Q : A → Disk → Prop) (d : Disk) : Prop :=
  wp m (λ a d', run P d d' ∧ Q a d') d.

Lemma run_refl P d : run P d d.
Proof. exists []. by split_and!; [|constructor| |]. Qed.

(** A step that leaves the disk as it is. *)
Lemma run_still P d d' : history d' = history d → nodes d' = nodes d → later d d' → run P d d'.
Proof. intros ? ? ?. exists []. by split_and!; [|constructor| |]. Qed.

(** A step to another state. *)
Lemma run_change P d d' m : history d' = m :: history d → nodes d' = m → P m → later d d' → run P d d'.
Proof. intros ? ? ? ?. exists [m]. split_and!; [done|by constructor|done|done]. Qed.

Lemma run_trans P d d' d'' : run P d d' → run P d' d'' → run P d d''.
Proof.
  intros (v1 & H1 & F1 & N1 & C1) (v2 & H2 & F2 & N2 & C2). exists (v2 ++ v1). split_and!.
  - by rewrite H2, H1, app_assoc.
  - by apply Forall_app.
  - rewrite N2, N1. by destruct v2.
  - by etrans.
Qed.

Lemma run_mono (P P' : Nodes → Prop) d d' : run P d d' → (∀ m, P m → P' m) → run P' d d'.
Proof. intros (v & ? & F & ?) HP. exists v. split; [done|]. split; [by eapply Forall_impl|done]. Qed.

Lemma run_nodes P d d' : run P d d' → P (nodes d) → P (nodes d').
Proof. intros (v & _ & F & -> & _) HP. destruct v; [done|]. by apply Forall_cons in F as [? _]. Qed.

Lemma run_later P d d' : run P d d' → later d d'.
Proof. by intros (? & _ & _ & _ & ?). Qed.

Lemma run_clock P d d' : run P d d' → (clock d <= clock d')%N.
Proof. by intros [? _]%run_later. Qed.

Lemma run_history P d d' : run P d d' → Forall P (history d) → Forall P (history d').
Proof. intros (v & -> & F & _) HP. by apply Forall_app. Qed.

#[export] Instance run_preorder P : PreOrder (run P).
Proof. split; [exact (run_refl P)|exact (run_trans P)]. Qed.

(** The states a run passed through. *)
Definition visited (d d' : Disk) (m : Nodes) : Prop :=
  ∃ states, history d' = states ++ history d ∧ m ∈ states.

Lemma run_visited P d d' m : run P d d' → visited d d' m → P m.
Proof.
  intros (states & Hh & HF & _) (states' & Hh' & Hin). rewrite Hh in Hh'.
  apply app_inv_tail in Hh' as ->. rewrite Forall_forall in HF. by apply HF.
Qed.

Section Specs.
Context {A B : Type}.
Implicit Types (P : Nodes → Prop) (d : Disk).

Lemma spec_bind P (m : M Disk A) (k : A → M Disk B) Q R d :
  spec P m Q d → (∀ a d', run P d d' → Q a d' → spec P (k a) R d') → spec P (bind m k) R d.
Proof.
  intros Hm Hk. apply wp_bind. eapply wp_mono; [exact Hm|]. intros a d' [Hr Hq]. cbv beta.
  eapply wp_mono; [by apply Hk|]. intros b d'' [Hr' ?]. split; [by eapply run_trans|done].
Qed.

Lemma spec_ret P (a : A) Q d : Q a d → spec P (ret a) Q d.
Proof. split; [apply run_refl|done]. Qed.

Lemma spec_gets P (f : Disk → A) Q d : Q (f d) d → spec P (gets f) Q d.
Proof. split; [apply run_refl|done]. Qed.

Lemma spec_mono P P' (m : M Disk A) Q Q' d :
  spec P m Q d → (∀ n, P n → P' n) → (∀ a d', run P d d' → Q a d' → Q' a d') → spec P' m Q' d.
Proof.
  intros Hm HP HQ. eapply wp_mono; [exact Hm|]. intros a d' [Hr ?]. split; [by eapply run_mono|by apply HQ].
Qed.

Lemma spec_post P (m : M Disk A) Q Q' d :
  spec P m Q d → (∀ a d', run P d d' → Q a d' → Q' a d') → spec P m Q' d.
Proof. intros. by eapply spec_mono. Qed.

Lemma spec_sleep P n (Q : unit → Disk → Prop) d : Q tt (pass_time n d) → spec P (sleep n) Q d.
Proof.
  split; [|done]. apply run_still; [done|done|later].
Qed.
End Specs.

Lemma spec_runs {A} P (m : M Disk A) Q d :
  spec P m Q d → ∃ a d', m d = Some (a, d') ∧ run P d d' ∧ Q a d'.
Proof. apply wp_run. Qed.

Lemma spec_result {A} P (m : M Disk A) Q d a d' :
  spec P m Q d → m d = Some (a, d') → run P d d' ∧ Q a d'.
Proof. intros Hm. apply (wp_elim _ _ _ _ _ Hm). Qed.

Section Errors.
Context {A B E : Type}.
Implicit Types (P : Nodes → Prop) (d : Disk).

Lemma spec_try P (m : M Disk (result A E)) (k : A → M Disk (result B E)) Q R d :
  spec P m Q d → (∀ a d', run P d d' → Q (Ok a) d' → spec P (k a) R d') →
  (∀ e d', run P d d' → Q (Err e) d' → R (Err e) d') → spec P (let? x := m in k x) R d.
Proof.
  intros Hm Hk He. eapply spec_bind; [exact Hm|]. intros [a|e] d' Hr Hq; [by apply Hk|].
  split; [apply run_refl|by apply He].
Qed.

Lemma spec_lift P (m : M Disk (result A IoError)) Q d :
  spec P m (λ r, Q (map_err Io r)) d → spec P (lift_io m) Q d.
Proof. intros Hm. eapply spec_bind; [exact Hm|]. intros r d' _ ?. by apply spec_ret. Qed.
End Errors.

Section CallSpecs.
Context `{World}.
Implicit Types (P : Nodes → Prop) (d : Disk).

Lemma tick_spec P Q d :
  (∀ d', nodes d' = nodes d → Q (fault (calls d)) d') → spec P tick Q d.
Proof.
  intros HQ. split; [|by apply HQ]. apply run_still; [done|done|later].
Qed.

(** The error of a call that failed whatever is on the disk. *)
Definition faulty (e : IoError) : Prop :=
  ∃ n, fault n = Some (Refused e) ∨ ∃ k, fault n = Some (Unconfirmed e k).

(** A world that answers truthfully whether something is there: an [exists] can tell,
    and a call only fails with the kind "not found" when there is nothing. *)
Record truthful : Prop := {
  sees : ∀ n, blind n = false;
  finds : ∀ e, faulty e → not_found e = false
}.

Lemma os_read_spec {A} P (f : Nodes → result A IoError) d :
  spec P (os_read f) (λ r d', nodes d' = nodes d ∧
    (r = f (nodes d) ∨ ∃ e, r = Err e ∧ faulty e)) d.
Proof.
  eapply spec_bind; [apply (tick_spec P (λ o d', o = fault (calls d) ∧ nodes d' = nodes d)); auto|].
  intros failed d' _ [Ho Hn]. destruct failed as [[e|e n]|].
  - apply spec_ret. split; [done|]. right. exists e. split; [done|]. exists (calls d). by left.
  - apply spec_ret. split; [done|]. right. exists e. split; [done|]. exists (calls d). eauto.
  - apply spec_gets. rewrite Hn. auto.
Qed.

Lemma lift_read_spec {A} P (f : Nodes → result A IoError) d :
  spec P (lift_io (os_read f)) (λ r d', nodes d' = nodes d ∧
    ∀ a, r = Ok a → f (nodes d) = Ok a) d.
Proof.
  apply spec_lift. eapply spec_post; [apply os_read_spec|]. intros r d' _ [Hn Hr].
  split; [done|]. intros a Ha. destruct Hr as [->|(e & -> & _)]; [|done].
  destruct (f (nodes d)); cbn [map_err] in Ha; [|done]. by apply (inj Ok) in Ha as ->.
Qed.

Lemma set_nodes_spec P m' (Q : unit → Disk → Prop) d :
  P m' → Q tt (set_nodes m' d) → spec P (modify (set_nodes m')) Q d.
Proof. split; [|done]. eapply run_change; [done|done|done|later]. Qed.

Lemma os_write_spec P f d :
  (∀ partial m', f partial (nodes d) = Ok m' → P m') →
  spec P (os_write f) (λ r d',
    match r with
    | Ok _ => f None (nodes d) = Ok (nodes d')
    | Err _ => nodes d' = nodes d ∨ ∃ partial, f partial (nodes d) = Ok (nodes d')
    end) d.
Proof.
  intros HP. eapply spec_bind; [apply (tick_spec P (λ _ d', nodes d' = nodes d)); auto|].
  intros failed d' _ Hn. destruct failed as [[e|e n]|].
  - apply spec_ret. auto.
  - eapply spec_bind; [apply (spec_gets P nodes (λ m d'', m = nodes d ∧ nodes d'' = nodes d)); auto|].
    intros m d'' _ [-> Hn']. destruct (f (Some n) (nodes d)) as [m'|] eqn:Ef; [|by apply spec_ret; auto].
    eapply spec_bind; [eapply (set_nodes_spec P m' (λ _ d3, nodes d3 = m')); eauto|].
    intros [] d3 ? Hn3. apply spec_ret. rewrite Hn3. eauto.
  - eapply spec_bind; [apply (spec_gets P nodes (λ m d'', m = nodes d ∧ nodes d'' = nodes d)); auto|].
    intros m d'' _ [-> Hn']. destruct (f None (nodes d)) as [m'|] eqn:Ef; [|by apply spec_ret; auto].
    eapply spec_bind; [eapply (set_nodes_spec P m' (λ _ d3, nodes d3 = m')); eauto|].
    intros [] d3 ? Hn3. apply spec_ret. by rewrite Hn3.
Qed.

Lemma lift_write_spec P f d :
  (∀ partial m', f partial (nodes d) = Ok m' → P m') →
  spec P (lift_io (os_write f)) (λ r d',
    match r with
    | Ok _ => f None (nodes d) = Ok (nodes d')
    | Err _ => nodes d' = nodes d ∨ ∃ partial, f partial (nodes d) = Ok (nodes d')
    end) d.
Proof.
  intros HP. apply spec_lift. eapply spec_post; [by apply os_write_spec|].
  intros r d' _ Hr. by destruct r.
Qed.

Lemma path_exists_spec P p d :
  spec P (path_exists p) (λ b d', nodes d' = nodes d ∧
    (b = true → node_exists (nodes d) p = true) ∧
    ((∀ n, blind n = false) → b = node_exists (nodes d) p)) d.
Proof.
  unfold path_exists, get. eapply spec_bind; [by apply (spec_gets P id (λ d1 d2, d1 = d ∧ d2 = d))|].
  intros d1 d2 ? [-> ->].
  eapply spec_bind; [apply (tick_spec P (λ _ d', nodes d' = nodes d)); auto|].
  intros failed d' ? Hn. apply spec_ret. split; [exact Hn|].
  destruct (blind (calls d)) eqn:Eb; [|done]. split; [done|]. intros Hb. by rewrite Hb in Eb.
Qed.
End CallSpecs.

(** Prove a [spec] of a sequence: the first computation by the lemma at hand. *)
Tactic Notation "spec_then" uconstr(L) := eapply spec_bind; [eapply L|cbv beta].
Tactic Notation "try_then" uconstr(L) := eapply spec_try; [eapply L|cbv beta|cbv beta].

(** ** Reading *)

Section Reading.
Context `{World}.
Implicit Types (P : Nodes → Prop) (d : Disk).

(** No ancestor of the path that exists is a link. *)
Definition no_reparse (m : Nodes) (candidates : list Path) : Prop :=
  ∀ a, a ∈ candidates → node_exists m a = true → ∀ t, m !! a ≠ Some (Link t).

Lemma reject_reparse_spec P candidates d :
  spec P (reject_reparse candidates) (λ r d', nodes d' = nodes d ∧
    ((∀ n, blind n = false) → r = Ok tt → no_reparse (nodes d) candidates)) d.
Proof.
  revert d. induction candidates as [|a candidates IH]; intros d.
  { apply spec_ret. split; [done|]. intros _ _ a Ha. by apply not_elem_of_nil in Ha. }
  cbn [reject_reparse]. spec_then path_exists_spec. intros present d1 _ (Hn1 & _ & Hex).
  destruct present.
  - try_then lift_read_spec.
    + intros reparse d2 _ [Hn2 Hr]. destruct reparse.
      { apply spec_ret. split; [by rewrite Hn2|done]. }
      eapply spec_post; [apply IH|]. intros r d3 _ [Hn3 Hrest]. split; [by rewrite Hn3, Hn2|].
      intros Hb Hok b [->|Hin]%elem_of_cons Hne t Ht.
      * specialize (Hr _ eq_refl). cbv beta in Hr. by rewrite Hn1, Ht in Hr.
      * specialize (Hrest Hb Hok). rewrite Hn2, Hn1 in Hrest. by apply (Hrest b Hin Hne t).
    + intros e d2 _ [Hn2 _]. split; [by rewrite Hn2|done].
  - eapply spec_post; [apply IH|]. intros r d3 _ [Hn3 Hrest]. split; [by rewrite Hn3|].
    intros Hb Hok b [->|Hin]%elem_of_cons Hne t Ht.
    + rewrite <- (Hex Hb) in Hne. done.
    + specialize (Hrest Hb Hok). rewrite Hn1 in Hrest. by apply (Hrest b Hin Hne t).
Qed.

Lemma reject_reparse_quiet P p d :
  spec P (reject_reparse_ancestors p) (λ _ d', nodes d' = nodes d) d.
Proof. eapply spec_post; [apply reject_reparse_spec|]. by intros ??? [? _]. Qed.

(** What [read_bounded_regular_file] returns. *)
Lemma read_bounded_spec P p maximum description d :
  spec P (read_bounded_regular_file p maximum description) (λ r d', nodes d' = nodes d ∧
    ∀ bytes, r = Ok bytes →
      (0 < bytes_len bytes <= maximum)%N ∧ readable (nodes d) p = Ok bytes ∧
      ((∀ n, blind n = false) → no_reparse (nodes d) (ancestors p))) d.
Proof.
  unfold read_bounded_regular_file. try_then reject_reparse_spec; [|by intros e d1 _ [? _]].
  intros [] d1 _ (Hn1 & Hlink). try_then lift_read_spec.
  2: { intros e d2 _ [Hn2 _]. split; [by rewrite Hn2|done]. }
  intros metadata d2 _ [Hn2 Hmeta]. cbn zeta.
  destruct metadata as [len|]; [|apply spec_ret; split; [by rewrite Hn2|done]].
  destruct (_ || _) eqn:Elen; [apply spec_ret; split; [by rewrite Hn2|done]|].
  try_then lift_read_spec.
  2: { intros e d3 _ [Hn3 _]. split; [by rewrite Hn3, Hn2|done]. }
  intros [] d3 _ [Hn3 Hopen]. try_then lift_read_spec.
  2: { intros e d4 _ [Hn4 _]. split; [by rewrite Hn4, Hn3, Hn2|done]. }
  intros bytes d4 _ [Hn4 Hread].
  destruct ((bytes_len bytes =? 0)%N || _) eqn:Eb; apply spec_ret; (split; [by rewrite Hn4, Hn3, Hn2|]); [done|].
  intros b <-%(inj Ok). specialize (Hread _ eq_refl). rewrite Hn3, Hn2, Hn1 in Hread.
  destruct (readable (nodes d) p) as [full|] eqn:Efull; [|done].
  cbn [result_bind] in Hread. rewrite take_bytes_eq in Hread. apply (inj Ok) in Hread as <-.
  andb_split. split_and!; [lia|lia| |].
  - f_equal. symmetry. apply take_ge. unfold bytes_len in *. rewrite length_take in *. lia.
  - intros Hb. by apply Hlink.
Qed.

Lemma read_bounded_quiet P p maximum description d :
  spec P (read_bounded_regular_file p maximum description) (λ r d', nodes d' = nodes d ∧
    ∀ bytes, r = Ok bytes → (0 < bytes_len bytes <= maximum)%N ∧ readable (nodes d) p = Ok bytes) d.
Proof. eapply spec_post; [apply read_bounded_spec|]. intros r d' _ [? Hr]. naive_solver. Qed.
End Reading.

(** ** Retries *)

Lemma retry_until_spec {T : Type} (I P : Nodes → Prop) (G : T → Nodes → Prop)
    (operation : M Disk (result T IoError)) deadline :
  (∀ d, I (nodes d) → spec P operation (λ r d', I (nodes d') ∧ ∀ v, r = Ok v → G v (nodes d')) d) →
  ∀ fuel backoff d, I (nodes d) → 0 < fuel → (PROFILE_FILE_INITIAL_BACKOFF <= backoff)%N →
  (deadline < clock d + N.of_nat fuel * PROFILE_FILE_INITIAL_BACKOFF)%N →
  spec P (retry_until fuel deadline backoff operation)
    (λ r d', I (nodes d') ∧ ∀ v, r = Ok v → G v (nodes d')) d.
Proof.
  intros Hop. unfold PROFILE_FILE_INITIAL_BACKOFF, from_millis.
  induction fuel as [|fuel IH]; intros backoff d HI Hpos Hback Hfuel; [lia|].
  cbn [retry_until]. eapply spec_bind; [by apply Hop|]. intros [v|e] d1 Hr1 [HI1 HG]; [by apply spec_ret|].
  destruct (transient e); [|by apply spec_ret]. apply run_clock in Hr1.
  unfold instant_now. eapply spec_bind; [by apply (spec_gets P clock (λ n d2, n = clock d1 ∧ d2 = d1))|].
  intros now d2 ? [-> ->]. cbn zeta. unfold saturating_sub.
  destruct (_ =? 0)%N eqn:E0; [by apply spec_ret|]. destruct (_ <=? backoff)%N eqn:Eb.
  - eapply spec_bind; [by apply (spec_sleep P _ (λ _ d3, I (nodes d3)))|].
    intros [] d3 ? HI3. by apply spec_ret.
  - andb_split.
    eapply spec_bind; [by apply (spec_sleep P _ (λ _ d3, I (nodes d3) ∧ clock d3 = (clock d1 + backoff)%N))|].
    intros [] d3 ? [HI3 Hclock]. apply IH; [done|lia| |lia].
    unfold PROFILE_FILE_MAX_BACKOFF, from_millis. lia.
Qed.

(** The retried operation gives an answer: the budget ends the loop. *)
Lemma retry_spec {T : Type} (I P : Nodes → Prop) (G : T → Nodes → Prop)
    (operation : M Disk (result T IoError)) d :
  (∀ d, I (nodes d) → spec P operation (λ r d', I (nodes d') ∧ ∀ v, r = Ok v → G v (nodes d')) d) →
  I (nodes d) →
  spec P (retry_profile_file_operation operation)
    (λ r d', I (nodes d') ∧ ∀ v, r = Ok v → G v (nodes d')) d.
Proof.
  intros Hop HI. unfold retry_profile_file_operation, instant_now.
  eapply spec_bind; [by apply (spec_gets P clock (λ n d2, n = clock d ∧ d2 = d))|].
  intros now d2 ? [-> ->]. apply (retry_until_spec I P G); [done|done|unfold RETRY_FUEL; lia|done|].
  unfold PROFILE_FILE_RETRY_BUDGET, PROFILE_FILE_INITIAL_BACKOFF, from_secs, from_millis, RETRY_FUEL. lia.
Qed.

(** ** Writing *)

(** A name that starts with a dot: the temporary files are hidden. *)
Definition hidden (p : Path) : bool :=
  match file_name p with Some name => starts_with "." name | None => false end.

(** The paths that writing [p] leaves alone. *)
Definition untouched (p q : Path) : Prop :=
  q ≠ p ∧ hidden q = false ∧ ∀ n, n < length p → take n p ≠ q.

(** The states a write of [bytes] to [p] goes through. *)
Definition writing (before : Nodes) (p : Path) (bytes : list ascii) (m : Nodes) : Prop :=
  (m !! p = before !! p ∨ m !! p = Some (File bytes)) ∧
  ∀ q, untouched p q → m !! q = before !! q.

Lemma ancestors_elem p q : q ∈ ancestors p ↔ ∃ n, 1 ≤ n ≤ length p ∧ q = take n p.
Proof.
  unfold ancestors. rewrite list_elem_of_fmap. setoid_rewrite list_elem_of_In.
  setoid_rewrite <- in_rev. setoid_rewrite in_seq. split.
  - intros (n & -> & ?). exists n. split; [lia|done].
  - intros (n & ? & ->). exists n. split; [done|lia].
Qed.

Lemma make_directories_lookup candidates m q :
  q ∉ candidates → fold_left make_directory candidates m !! q = m !! q.
Proof.
  revert m. induction candidates as [|a candidates IH]; intros m Hq; [done|].
  apply not_elem_of_cons in Hq as [Hne Hq]. simpl. rewrite IH by done.
  unfold make_directory. destruct (m !! a); [done|]. by rewrite lookup_insert_ne.
Qed.

Lemma path_parent_spec p parent : path_parent p = Some parent → ∃ name, p = parent ++ [name].
Proof.
  unfold path_parent. destruct (rev p) as [|name rest] eqn:E; [done|]. intros [= <-].
  exists name. by rewrite <- (rev_involutive p), E.
Qed.

Lemma parent_ancestor parent name q :
  q ∈ ancestors parent → ∃ n, n < length (parent ++ [name]) ∧ q = take n (parent ++ [name]).
Proof.
  intros (n & Hn & ->)%ancestors_elem. exists n. rewrite length_app. simpl. split; [lia|].
  by rewrite take_app_le by lia.
Qed.

Lemma siblings_untouched root a b :
  a ≠ b → starts_with "." b = false → untouched (path_join root a) (path_join root b).
Proof.
  unfold path_join. intros Hne Hdot. split_and!.
  - intros [_ [= E]]%app_inj_tail. by apply Hne.
  - unfold hidden, file_name. by rewrite last_snoc.
  - intros n Hn E. apply (f_equal length) in E. rewrite length_take, !length_app in E.
    rewrite length_app in Hn. simpl in Hn, E. lia.
Qed.

Lemma hidden_temporary parent suffix : hidden (path_join parent ("." ++ suffix)) = true.
Proof. unfold hidden, file_name, path_join. rewrite last_snoc. done. Qed.

Lemma temporary_differs parent name nonce :
  path_join parent ("." ++ name ++ ".new-" ++ nonce) ≠ parent ++ [name].
Proof.
  unfold path_join. intros [_ [= E]]%app_inj_tail. apply (f_equal String.length) in E.
  assert (∀ a b, String.length (a +:+ b) = String.length a + String.length b) as Hlen.
  { intros a b. induction a as [|x a IH]; [done|]. simpl. by rewrite IH. }
  rewrite !Hlen in E. simpl in E. lia.
Qed.

Section Writing.
Context `{World}.
Implicit Types (P : Nodes → Prop) (d : Disk).

Lemma create_protected_spec P parent name d :
  (∀ m, (∀ q, q ∉ ancestors parent → m !! q = nodes d !! q) → P m) →
  spec P (create_protected_directory parent) (λ _ d',
    ∀ q, (∀ n, n < length (parent ++ [name]) → take n (parent ++ [name]) ≠ q) →
      nodes d' !! q = nodes d !! q) d.
Proof.
  intros HP. unfold create_protected_directory.
  try_then reject_reparse_quiet; [|by intros e d1 _ ->]. intros [] d1 _ Hn1.
  assert (∀ m q, q ∉ ancestors parent →
    fold_left make_directory (rev (ancestors parent)) m !! q = m !! q) as Hdirs.
  { intros m q Hq. apply make_directories_lookup.
    by rewrite list_elem_of_In, <- in_rev, <- list_elem_of_In. }
  assert (∀ q, (∀ n, n < length (parent ++ [name]) → take n (parent ++ [name]) ≠ q) →
    q ∉ ancestors parent) as Hout.
  { intros q Hq (n & Hn & ->)%(parent_ancestor _ name). by apply (Hq n). }
  try_then lift_write_spec.
  - intros partial m'. destruct (forallb _ _); [|done]. intros <-%(inj Ok). apply HP. intros q Hq.
    by rewrite Hdirs, Hn1.
  - intros [] d2 _ Hw. eapply spec_post; [apply reject_reparse_quiet|]. intros r d3 _ Hn3 q Hq.
    destruct (forallb _ _); [|done]. apply (inj Ok) in Hw. rewrite Hn3, <- Hw, Hdirs by auto. by rewrite Hn1.
  - intros e d2 _ Hw q Hq. destruct Hw as [->|[_ Hw]]; [by rewrite Hn1|].
    destruct (forallb _ _); [|done]. apply (inj Ok) in Hw. rewrite <- Hw, Hdirs by auto. by rewrite Hn1.
Qed.

Lemma replace_spec before p bytes temporary d :
  temporary ≠ p → hidden temporary = true →
  let source_is m := ∀ n, m !! temporary = Some n → n = File bytes in
  writing before p bytes (nodes d) → source_is (nodes d) →
  spec (writing before p bytes) (replace_file temporary p) (λ r d',
    writing before p bytes (nodes d') ∧ (r = Ok tt → nodes d' !! p = Some (File bytes))) d.
Proof.
  cbn zeta. intros Hne Hhid Hwrite Hsource. unfold replace_file. apply spec_lift.
  eapply spec_post;
    [apply (retry_spec (λ m, writing before p bytes m ∧ ∀ n, m !! temporary = Some n → n = File bytes)
              _ (λ _ m, m !! p = Some (File bytes))); [|done]|].
  - clear d Hwrite Hsource. intros d [[Hp Hrest] Hsource].
    assert (∀ m', match nodes d !! temporary, nodes d !! p with
                  | None, _ => Err (io_error Missing)
                  | Some _, Some Directory => Err (io_error WrongKind)
                  | Some n, _ => Ok (<[p := n]> (delete temporary (nodes d)))
                  end = Ok m' →
              writing before p bytes m' ∧ m' !! p = Some (File bytes) ∧ m' !! temporary = None) as Heff.
    { intros m' E. destruct (nodes d !! temporary) as [n|] eqn:Et; [|done].
      rewrite (Hsource n eq_refl) in E.
      assert (m' = <[p := File bytes]> (delete temporary (nodes d))) as ->
        by (destruct (nodes d !! p) as [[]|]; by inversion E).
      rewrite lookup_insert_eq, lookup_insert_ne, lookup_delete_eq by done.
      split_and!; [|done|done]. split; [right; apply lookup_insert_eq|]. intros q Hq.
      rewrite lookup_insert_ne by (destruct Hq as [? _]; congruence).
      rewrite lookup_delete_ne; [by apply Hrest|]. intros ->. destruct Hq as (_ & Hh & _). congruence. }
    eapply spec_post; [apply os_write_spec|].
    + intros _ m' E. by apply Heff.
    + intros r d' _ Hr. destruct r as [[]|e].
      * apply Heff in Hr as (? & ? & Hnone). split; [split; [done|]|done]. intros n. by rewrite Hnone.
      * split; [|done]. destruct Hr as [->|[_ Hr]]; [by split|].
        apply Heff in Hr as (? & ? & Hnone). split; [done|]. intros n. by rewrite Hnone.
  - intros r d' _ [[Hw _] HG]. split; [done|]. destruct r as [[]|]; [|done]. intros _. by apply (HG tt).
Qed.

Lemma nonce_spec P d : spec P temporary_nonce (λ _ d', nodes d' = nodes d) d.
Proof.
  unfold temporary_nonce. eapply spec_bind; [by apply (spec_gets P sequence (λ _ d', nodes d' = nodes d))|].
  intros n d1 _ Hn1. cbv beta in Hn1.
  apply (spec_bind _ _ _ (λ _ d2, nodes d2 = nodes d)).
  - split; [|done]. apply run_still; [done|done|later].
  - intros u d2 _ Hn2. by apply spec_ret.
Qed.

(** The temporary file is filled and takes the place of the destination. *)
Lemma fill_temporary_spec before p bytes temporary d :
  temporary ≠ p → hidden temporary = true →
  (∀ m : Nodes, (∀ q, q ≠ temporary → m !! q = nodes d !! q) → writing before p bytes m) →
  spec (writing before p bytes)
    (let? _ := lift_io (create_new temporary) in
     let? _ := lift_io (write_all temporary bytes) in
     let? _ := lift_io (sync_all temporary) in
     replace_file temporary p)
    (λ r d', writing before p bytes (nodes d') ∧ (r = Ok tt → nodes d' !! p = Some (File bytes))) d.
Proof.
  intros Hne Hhid Hw.
  assert (∀ (n : Node) (m : Nodes), (∀ q, q ≠ temporary → m !! q = nodes d !! q) →
    ∀ q, q ≠ temporary → <[temporary := n]> m !! q = nodes d !! q) as Hins.
  { intros n m Hm q Hq. rewrite lookup_insert_ne by done. by apply Hm. }
  try_then lift_write_spec.
  - intros _ m'. destruct (nodes d !! temporary); [done|]. intros <-%(inj Ok). apply Hw. by apply Hins.
  - intros [] d1 _ Hc. destruct (nodes d !! temporary); [done|]. apply (inj Ok) in Hc.
    assert (∀ q, q ≠ temporary → nodes d1 !! q = nodes d !! q) as Hd1 by (rewrite <- Hc; by apply Hins).
    assert (nodes d1 !! temporary = Some (File [])) as Ht1 by (rewrite <- Hc; apply lookup_insert_eq).
    try_then lift_write_spec.
    + intros partial m'. rewrite Ht1. intros <-%(inj Ok). apply Hw. by apply Hins.
    + intros [] d2 _ Hc2. rewrite Ht1 in Hc2. apply (inj Ok) in Hc2.
      try_then lift_read_spec.
      * intros [] d3 _ [Hn3 _]. rewrite <- Hc2 in Hn3. apply replace_spec; [done|done| |].
        -- rewrite Hn3. apply Hw. by apply Hins.
        -- rewrite Hn3, lookup_insert_eq. by intros n [= <-].
      * intros e d3 _ [Hn3 _]. split; [|done]. rewrite Hn3, <- Hc2. apply Hw. by apply Hins.
    + intros e d2 _ Hc2. split; [|done]. rewrite Ht1 in Hc2.
      destruct Hc2 as [->|[partial <-%(inj Ok)]]; apply Hw; [done|]. by apply Hins.
  - intros e d1 _ Hc. split; [|done]. destruct Hc as [->|[_ Hc]]; [by apply Hw|].
    destruct (nodes d !! temporary); [done|]. apply (inj Ok) in Hc as <-. apply Hw. by apply Hins.
Qed.

(** [atomic_write]: at every moment the file is the old one or the new one, whole,
    and on success it is the new one. *)
Lemma atomic_write_spec p bytes d :
  spec (writing (nodes d) p bytes) (atomic_write p bytes) (λ r d',
    writing (nodes d) p bytes (nodes d') ∧ (r = Ok tt → nodes d' !! p = Some (File bytes))) d.
Proof.
  unfold atomic_write, atomic_write_with_replace. destruct (path_parent p) as [parent|] eqn:Ep.
  2: { apply spec_ret. split; [|done]. split; [by left|done]. }
  apply path_parent_spec in Ep as [name ->].
  set (outside q := ∀ n, n < length (parent ++ [name]) → take n (parent ++ [name]) ≠ q).
  assert (outside (parent ++ [name])) as Hself.
  { intros n Hn E. apply (f_equal length) in E. rewrite length_take in E. lia. }
  assert (∀ m : Nodes, (∀ q, outside q → m !! q = nodes d !! q) → writing (nodes d) (parent ++ [name]) bytes m) as Hdirs.
  { intros m Hm. split; [left; by apply Hm|]. intros q (_ & _ & Hq). by apply Hm. }
  try_then (create_protected_spec _ parent name).
  { intros m Hm. apply Hdirs. intros q Hq. apply Hm.
    intros (n & Hn & ->)%(parent_ancestor _ name). by apply (Hq n). }
  2: { intros e d1 _ Hn1. split; [by apply Hdirs|done]. }
  intros [] d1 _ Hn1. try_then reject_reparse_quiet.
  2: { intros e d2 _ ->. split; [by apply Hdirs|done]. }
  intros [] d2 _ Hn2. spec_then nonce_spec. intros nonce d3 _ Hn3. rewrite Hn2 in Hn3.
  unfold file_name. rewrite last_snoc. cbn [from_option id]. cbn zeta.
  pose proof (temporary_differs parent name nonce) as Hne.
  pose proof (hidden_temporary parent (name ++ ".new-" ++ nonce)) as Hhid.
  set (temporary := path_join parent _) in *.
  assert (∀ m : Nodes, (∀ q, q ≠ temporary → m !! q = nodes d3 !! q) →
    writing (nodes d) (parent ++ [name]) bytes m) as Hearly.
  { intros m Hm. split.
    - left. rewrite Hm by done. rewrite Hn3. by apply Hn1.
    - intros q (Hq1 & Hq2 & Hq3). rewrite Hm by (intros ->; congruence). rewrite Hn3. by apply Hn1. }
  eapply spec_bind; [by apply fill_temporary_spec|].
  intros [[]|e] d4 _ [Hw Hok]; [by apply spec_ret; auto|].
  assert (∀ m : Nodes, (∀ q, q ≠ temporary → m !! q = nodes d4 !! q) →
    writing (nodes d) (parent ++ [name]) bytes m) as Hlate.
  { intros m Hm. destruct Hw as [Hp Hrest]. split; [by rewrite Hm|].
    intros q Hq. rewrite Hm; [by apply Hrest|]. destruct Hq as (_ & Hh & _). intros ->. congruence. }
  assert (∀ m', match nodes d4 !! temporary with
                | Some (File _) | Some (Link _) => Ok (delete temporary (nodes d4))
                | Some Directory => Err (io_error WrongKind)
                | None => Err (io_error Missing)
                end = Ok m' → writing (nodes d) (parent ++ [name]) bytes m') as Hdel.
  { intros m' E. apply Hlate. assert (m' = delete temporary (nodes d4)) as ->
      by (destruct (nodes d4 !! temporary) as [[]|]; by inversion E).
    intros q Hq. by rewrite lookup_delete_ne. }
  eapply spec_bind; [apply os_write_spec; by intros _|].
  intros r d5 _ Hr. apply spec_ret. split; [|done]. destruct r as [[]|e']; [by apply Hdel|].
  destruct Hr as [->|[_ Hr]]; [done|by apply Hdel].
Qed.
End Writing.

Section Budget.
Context {T : Type} (operation : M Disk (result T IoError)).

Lemma retry_until_budget deadline :
  (∀ d, wp operation (λ _ d', (clock d <= clock d')%N) d) →
  ∀ fuel backoff d, 0 < fuel → (PROFILE_FILE_INITIAL_BACKOFF <= backoff)%N →
  (deadline < clock d + N.of_nat fuel * PROFILE_FILE_INITIAL_BACKOFF)%N →
  wp (retry_until fuel deadline backoff operation) (λ r d', (clock d <= clock d')%N ∧
    ∀ e, r = Err e → transient e = true → (deadline <= clock d')%N) d.
Proof.
  intros Hop. unfold PROFILE_FILE_INITIAL_BACKOFF, from_millis.
  induction fuel as [|fuel IH]; intros backoff d Hpos Hback Hfuel; [lia|].
  cbn [retry_until]. apply wp_bind. eapply wp_mono; [apply Hop|]. intros [v|e] d1 H1; cbv beta.
  { by apply wp_ret. }
  destruct (transient e) eqn:Et; [|apply wp_ret; split; [done|]; intros ? <-%(inj Err); congruence].
  unfold instant_now. wp_steps. cbn zeta. unfold saturating_sub.
  destruct (_ =? 0)%N eqn:E0; [wp_steps; andb_split; split; [lia|]; intros; lia|].
  destruct (_ <=? backoff)%N eqn:Eb; unfold sleep; wp_steps; andb_split.
  - cbn [pass_time clock]. split; [lia|]. intros. lia.
  - eapply wp_mono.
    + apply IH; [lia| |cbn [pass_time clock]; lia]. unfold PROFILE_FILE_MAX_BACKOFF, from_millis. lia.
    + cbn [pass_time clock]. intros r d2 [? ?]. split; [lia|done].
Qed.
End Budget.

(** ** An example world *)

#[export] Instance example_world : World.
Proof.
  refine {|
    fault := λ _, None;
    blind := λ _, false;
    elapsed := λ _, 1%N;
    process_id := 7%N;
    timestamp := λ n, (1000 + n)%N;
    dir_order := λ names, names;
    io_error := λ c, {| not_found := match c with Missing => true | _ => false end;
                        raw_os_error := None; io_text := "i/o" |}
  |}.
  - done.
  - by intros [].
Defined.

Definition disk_of (m : Nodes) : Disk :=
  {| nodes := m; history := [m]; calls := 0; clock := 0; sequence := 1; answered := []; captured := false |}.

(** ** Properties *)

(** C35. Writing a file is atomic: whatever calls fail, the write ends with an answer,
    and in every state the disk passes through, so after a crash at any moment, the
    file is the whole old one or the whole new one and every other file is as it
    was, but for missing parent directories and hidden temporary files; a write that
    reports success has put the new bytes in place. *)
Theorem atomic_write_is_atomic `{World} p bytes d :
  ∃ r d' visited,
    atomic_write p bytes d = Some (r, d') ∧
    history d' = visited ++ history d ∧ nodes d' = default (nodes d) (head visited) ∧
    (∀ m, m ∈ visited →
      (m !! p = nodes d !! p ∨ m !! p = Some (File bytes)) ∧
      ∀ q, untouched p q → m !! q = nodes d !! q) ∧
    (r = Ok tt → nodes d' !! p = Some (File bytes)).
Proof.
  destruct (wp_run _ _ _ (atomic_write_spec p bytes d)) as (r & d' & E & (v & Hh & Hv & Hn & _) & _ & Hok).
  exists r, d', v. split_and!; try done. by apply Forall_forall.
Qed.

(** What is read as a bounded regular file is the content of a regular file of the
    path, neither empty nor longer than the bound, and reading changes nothing; when
    the existence of the ancestors could be told, none of them was a link, so no
    link was followed. *)
Theorem bounded_read_is_safe `{World} p maximum description d bytes d'
  (Hpath : p ≠ [])
  (Hread : read_bounded_regular_file p maximum description d = Some (Ok bytes, d')) :
  nodes d' = nodes d ∧
  (0 < bytes_len bytes <= maximum)%N ∧
  ((∀ n, blind n = false) → nodes d !! p = Some (File bytes) ∧ no_reparse (nodes d) (ancestors p)).
Proof.
  destruct (wp_elim _ _ _ _ _ (read_bounded_spec (λ _, True) p maximum description d) Hread)
    as (_ & Hn & Hok).
  destruct (Hok bytes eq_refl) as (Hlen & Hr & Hlink). split_and!; [done|lia|lia|].
  intros Hb. specialize (Hlink Hb). split; [|done]. unfold readable in Hr.
  revert Hr. destruct (nodes d !! p) as [[b| |[b| |]]|] eqn:Ep; try done; intros ->%(inj Ok); [done|].
  exfalso. apply (Hlink p) with (ToFile bytes); [|by unfold node_exists; rewrite Ep|done].
  apply ancestors_elem. exists (length p). split; [|by rewrite firstn_all].
  destruct p; [done|]. simpl. lia.
Qed.

Definition example_pointer_disk : Disk :=
  disk_of {[ ["C:"; "current.json"] := File (str_bytes "1.0.0") ]}.

Lemma bounded_read_is_safe_witness :
  ∃ d', read_bounded_regular_file ["C:"; "current.json"] 64 "pointer" example_pointer_disk =
          Some (Ok (str_bytes "1.0.0"), d') ∧ nodes d' = nodes example_pointer_disk.
Proof.
  eexists. split; [vm_compute; reflexivity|].
  refine (proj1 (bounded_read_is_safe (H := example_world) ["C:"; "current.json"] 64 "pointer"
    example_pointer_disk (str_bytes "1.0.0") _ _ _)).
  - discriminate.
  - vm_compute. reflexivity.
Defined.

(** Retrying ends: whatever an operation answers, as long as it ends and the clock
    does not go back, the retried operation ends, and it only reports one of the
    three errors worth a retry after its budget of two seconds has passed. *)
Theorem retries_spend_their_budget {T} (operation : M Disk (result T IoError)) d
  (Hop : ∀ d, wp operation (λ _ d', (clock d <= clock d')%N) d) :
  ∃ r d', retry_profile_file_operation operation d = Some (r, d') ∧
    ∀ e, r = Err e → transient e = true → (clock d + from_secs 2 <= clock d')%N.
Proof.
  unfold retry_profile_file_operation, instant_now.
  apply (wp_run _ (λ r d', ∀ e, r = Err e → transient e = true → (clock d + from_secs 2 <= clock d')%N)).
  wp_steps. eapply wp_mono.
  - apply retry_until_budget; [exact Hop|unfold RETRY_FUEL; lia|done|].
    unfold PROFILE_FILE_RETRY_BUDGET, PROFILE_FILE_INITIAL_BACKOFF, from_secs, from_millis, RETRY_FUEL. lia.
  - intros r d' [_ Hr]. exact Hr.
Qed.

Definition sharing_violation : IoError :=
  {| not_found := false; raw_os_error := Some ERROR_SHARING_VIOLATION; io_text := "in use" |}.

Lemma retries_spend_their_budget_witness :
  ∃ r d', retry_profile_file_operation (ret (Err sharing_violation : result unit IoError)) (disk_of ∅)
            = Some (r, d') ∧
    ∀ e, r = Err e → transient e = true → (0 + from_secs 2 <= clock d')%N.
Proof.
  apply (retries_spend_their_budget (ret (Err sharing_violation : result unit IoError)) (disk_of ∅)).
  intros d. apply wp_ret. reflexivity.
Defined.
