(* ===== verification/ActivationTransaction.v ===== *)
(** * Activating a runtime generation

    [service-runtime/setup/src/runtime_installer/activation_transaction.rs] and
    [journal.rs], [journal/transition.rs], [journal/recovery.rs]: the journaled
    transaction that makes a staged generation the active one, and the recovery
    from an interruption.  What the transaction asks of the store of generations
    and of the profile bridge is the class [RuntimeServices]. *)

From S2P Require Export Activation Storage.

Notation RuntimePointer := RuntimeGenerationPointer (only parsing).

Definition MAX_ACTIVATION_JOURNAL_BYTES : N := MAX_RUNTIME_ACTIVATION_RECEIPT_BYTES.
Definition MAX_POINTER_BYTES : N := MAX_RUNTIME_POINTER_BYTES.

Record InstalledRuntime := { installed_version : string; service_binary : Path }.

Inductive RuntimeServiceBinding := CandidateBinding | PreviousBinding | AbsentBinding.

#[export] Instance RuntimeServiceBinding_eq_dec : EqDecision RuntimeServiceBinding.
Proof. solve_decision. Defined.

(** [RuntimeGenerationStore::verify] and [retain], [ProfileRuntimeBridge::materialize_active]. *)
Class RuntimeServices := {
  verify : string → Path → M Disk (result unit SetupError);
  retain : option RuntimePointer → string → M Disk (result unit SetupError);
  materialize_active : M Disk (result (option GenerationId) SetupError)
}.

Record ActivatedRuntime (T : Type) := {
  previous_pointer : option RuntimePointer;
  activated_pointer : RuntimePointer;
  prepared : T
}.
Arguments previous_pointer {T}.
Arguments activated_pointer {T}.
Arguments prepared {T}.

(** [result.map_err(f)] on the answer of a computation. *)
Definition with_err {A : Type} (f : SetupError → SetupError) (m : M Disk (result A SetupError))
    : M Disk (result A SetupError) :=
  let! r := m in ret (map_err f r).

(** [format!("...{error}")] *)
Definition unknown (text : string) (e : SetupError) : SetupError := CleanupUnknown (text ++ display e).

Definition phase_debug (p : RuntimeActivationPhase) : string :=
  match p with
  | Candidate => "Candidate"
  | Committed => "Committed"
  | RollbackRequired => "RollbackRequired"
  end.

Section Transaction.
Context `{World, ActivationJson, RuntimeServices} (paths : MachinePaths).

Definition validate_runtime_pointer (bytes : list ascii) : result RuntimePointer SetupError :=
  map_err (λ _, Runtime "active runtime pointer is invalid") (pointer_parse bytes).

Definition activation_receipt_bytes (r : RuntimeActivationReceipt) : result (list ascii) SetupError :=
  map_err (λ _, Runtime "runtime activation journal is invalid") (receipt_to_bytes r).

Definition pointer_bytes (p : RuntimePointer) : result (list ascii) SetupError :=
  map_err (λ _, Runtime "active runtime pointer is invalid") (pointer_to_bytes p).

(** ** [journal/transition.rs] *)

Definition activation_journal_path : Path := runtime_activation_journal paths.

Definition read_journal : M Disk (result (list ascii) SetupError) :=
  read_bounded_regular_file activation_journal_path MAX_ACTIVATION_JOURNAL_BYTES
    "runtime activation journal".

Definition write_activation_journal (previous : option RuntimePointer) (activated : RuntimePointer)
    : M Disk (result unit SetupError) :=
  let? bytes := ret (activation_receipt_bytes (candidate previous activated)) in
  atomic_write activation_journal_path bytes.

Definition verify_exact_activation_receipt (expected : list ascii) (phase : RuntimeActivationPhase)
    : M Disk (result unit SetupError) :=
  let? actual := read_journal in
  if bool_decide (actual ≠ expected) then
    ret (Err (CleanupUnknown ("runtime activation receipt changed before the " ++ phase_debug phase ++
                              " phase could transition")))
  else ret (Ok tt).

Definition persist_activation_phase (receipt : RuntimeActivationReceipt) (phase : RuntimeActivationPhase)
    : M Disk (result unit SetupError) :=
  let? transitioned := ret (activation_receipt_bytes (with_phase receipt phase)) in
  let? _ := atomic_write activation_journal_path transitioned in
  let? persisted := read_journal in
  if bool_decide (persisted ≠ transitioned) then
    ret (Err (CleanupUnknown ("the " ++ phase_debug phase ++
                              " runtime activation receipt could not be verified")))
  else ret (Ok tt).

Definition read_active_pointer : M Disk (result (list ascii) SetupError) :=
  read_bounded_regular_file (runtime_pointer paths) MAX_POINTER_BYTES "active runtime pointer".

Definition commit_activation_journal (previous : option RuntimePointer) (activated : RuntimePointer)
    : M Disk (result unit SetupError) :=
  let receipt := candidate previous activated in
  let? expected := ret (activation_receipt_bytes receipt) in
  let? _ := verify_exact_activation_receipt expected Candidate in
  let? bytes := read_active_pointer in
  let? pointer := ret (validate_runtime_pointer bytes) in
  if bool_decide (pointer ≠ activated) then
    ret (Err (CleanupUnknown
      "active runtime pointer changed before the candidate phase could commit"))
  else persist_activation_phase receipt Committed.

Definition require_activation_rollback (previous : option RuntimePointer) (activated : RuntimePointer)
    : M Disk (result unit SetupError) :=
  let receipt := candidate previous activated in
  let? candidate_bytes := ret (activation_receipt_bytes receipt) in
  let? committed_bytes := ret (activation_receipt_bytes (with_phase receipt Committed)) in
  let? rollback_bytes := ret (activation_receipt_bytes (with_phase receipt RollbackRequired)) in
  let? actual := read_journal in
  if bool_decide (actual = rollback_bytes) then ret (Ok tt)
  else if bool_decide (actual ≠ candidate_bytes) && bool_decide (actual ≠ committed_bytes) then
    ret (Err (CleanupUnknown
      "runtime activation receipt changed before rollback could be required"))
  else persist_activation_phase receipt RollbackRequired.

Definition remove_activation_journal : M Disk (result unit SetupError) :=
  let! present := path_exists activation_journal_path in
  if present then
    let? _ := reject_reparse_ancestors activation_journal_path in
    let? _ := lift_io (remove_file activation_journal_path) in
    ret (Ok tt)
  else ret (Ok tt).

Definition finalize_committed_activation (previous : option RuntimePointer) (activated : RuntimePointer)
    : M Disk (result bool SetupError) :=
  let? committed_bytes :=
    ret (activation_receipt_bytes (with_phase (candidate previous activated) Committed)) in
  let? _ := verify_exact_activation_receipt committed_bytes Committed in
  let! removal := remove_activation_journal in
  match removal with
  | Ok _ => ret (Ok true)
  | Err removal =>
      let? _ := with_err (λ verification, CleanupUnknown
        ("Ready activation receipt cleanup failed (" ++ display removal ++
         ") and the committed receipt could not be reverified (" ++ display verification ++ ")"))
        (verify_exact_activation_receipt committed_bytes Committed) in
      ret (Ok false)
  end.

(** ** [RuntimeActivationTransaction::current] *)

Definition service_binary_of (version : string) : Path :=
  path_join (path_join (runtime_versions paths) version) "mactype-service.exe".

Definition current : M Disk (result (option InstalledRuntime) SetupError) :=
  let! present := path_exists (runtime_pointer paths) in
  if present then
    let? bytes := read_active_pointer in
    let? pointer := ret (validate_runtime_pointer bytes) in
    let binary := service_binary_of (version pointer) in
    let? _ := reject_reparse_ancestors binary in
    let! regular := is_file binary in
    if regular then
      ret (Ok (Some {| installed_version := version pointer; service_binary := binary |}))
    else ret (Err (Runtime "active service binary is missing"))
  else ret (Ok None).

(** ** [journal/recovery.rs] *)

(** The Windows variant of [remove_exact_runtime_pointer]: the opened file is the link
    itself, if it is one, and is marked for deletion while it is open. *)
Definition open_link_itself (p : Path) : M Disk (result Node IoError) := fs_symlink_metadata p.

Definition mark_open_file_for_deletion (p : Path) : M Disk (result unit IoError) := remove_file p.

Definition remove_exact_runtime_pointer (p : Path) (expected : list ascii)
    : M Disk (result unit SetupError) :=
  let? _ := with_err (unknown "owned runtime pointer could not be opened for exact deletion: ")
    (lift_io (open_link_itself p)) in
  let? node := with_err (unknown "owned runtime pointer metadata could not be verified: ")
    (lift_io (fs_symlink_metadata p)) in
  match node with
  | File content =>
      if (bytes_len content =? 0)%N || (MAX_POINTER_BYTES <? bytes_len content)%N then
        ret (Err (CleanupUnknown
          "owned runtime pointer became non-regular, reparse, empty, or oversized"))
      else
        let? actual := with_err (unknown "owned runtime pointer bytes could not be verified: ")
          (lift_io (read_to_end (MAX_POINTER_BYTES + 1) p)) in
        if bool_decide (actual ≠ expected) then
          ret (Err (CleanupUnknown "owned runtime pointer changed before exact deletion"))
        else
          with_err (unknown "owned runtime pointer exact deletion result is unknown: ")
            (lift_io (mark_open_file_for_deletion p))
  | Directory | Link _ =>
      ret (Err (CleanupUnknown
        "owned runtime pointer became non-regular, reparse, empty, or oversized"))
  end.

(** [option.map(f).transpose()] *)
Definition transpose_map {A B E : Type} (f : A → result B E) (o : option A) : result (option B) E :=
  match o with Some a => let-? b := f a in Ok (Some b) | None => Ok None end.

(** The bytes of the pointer file during a rollback, [None] when there is none. *)
Definition inspect_pointer_for_rollback : M Disk (result (option (list ascii)) SetupError) :=
  let! found := fs_symlink_metadata (runtime_pointer paths) in
  match found with
  | Err error =>
      if not_found error then ret (Ok None)
      else ret (Err (CleanupUnknown
        ("active runtime pointer could not be inspected during rollback: " ++ io_text error)))
  | Ok (File _) =>
      let? bytes := with_err (unknown "active runtime pointer could not be verified during rollback: ")
        read_active_pointer in
      ret (Ok (Some bytes))
  | Ok _ =>
      ret (Err (CleanupUnknown
        "active runtime pointer became a non-regular path during rollback"))
  end.

Definition restore_runtime_pointer (previous activated : option RuntimePointer)
    : M Disk (result unit SetupError) :=
  let? actual := inspect_pointer_for_rollback in
  let? previous_bytes := ret (transpose_map pointer_bytes previous) in
  let? activated_bytes := ret (transpose_map pointer_bytes activated) in
  let refuse := ret (Err (CleanupUnknown
    "active runtime pointer no longer matches the activation transaction receipt")) in
  match actual, previous_bytes, activated_bytes with
  | None, Some previous, _ => atomic_write (runtime_pointer paths) previous
  | None, None, _ => ret (Ok tt)
  | Some actual, Some previous, activated =>
      if bool_decide (actual = previous) then ret (Ok tt)
      else
        match activated with
        | Some activated =>
            if bool_decide (actual = activated) then atomic_write (runtime_pointer paths) previous
            else refuse
        | None => refuse
        end
  | Some actual, None, Some activated =>
      if bool_decide (actual = activated)
      then remove_exact_runtime_pointer (runtime_pointer paths) activated
      else refuse
  | Some _, None, None => refuse
  end.

Definition current_pointer_for_committed_recovery : M Disk (result (option RuntimePointer) SetupError) :=
  let! found := fs_symlink_metadata (runtime_pointer paths) in
  match found with
  | Err error =>
      if not_found error then ret (Ok None)
      else ret (Err (CleanupUnknown
        ("active runtime pointer could not be inspected during committed recovery: " ++ io_text error)))
  | Ok (File _) =>
      let? bytes := with_err
        (unknown "active runtime pointer could not be read during committed recovery: ")
        read_active_pointer in
      let? pointer := with_err
        (unknown "active runtime pointer is invalid during committed recovery: ")
        (ret (validate_runtime_pointer bytes)) in
      ret (Ok (Some pointer))
  | Ok _ =>
      ret (Err (CleanupUnknown "active runtime pointer became non-regular during committed recovery"))
  end.

Definition verify_and_materialize_committed_runtime (role : string) : M Disk (result unit SetupError) :=
  let? found := current in
  match found with
  | None => ret (Err (CleanupUnknown
      ("committed runtime activation " ++ role ++ " disappeared during recovery")))
  | Some installed =>
      match path_parent (service_binary installed) with
      | None => ret (Err (CleanupUnknown
          ("committed runtime activation " ++ role ++ " has no generation directory")))
      | Some directory =>
          let? _ := with_err
            (unknown ("committed runtime activation " ++ role ++ " could not be verified: "))
            (verify (installed_version installed) directory) in
          let? _ := materialize_active in
          ret (Ok tt)
      end
  end.

Definition finish_committed_activation_recovery (journal : ParsedRuntimeActivationReceipt)
    : M Disk (result unit SetupError) :=
  match parsed_activated journal with
  | None => ret (Err (CleanupUnknown
      "committed runtime activation receipt has no candidate pointer"))
  | Some activated =>
      let? actual := current_pointer_for_committed_recovery in
      if bool_decide (actual = Some activated) then
        verify_and_materialize_committed_runtime "candidate"
      else if bool_decide (actual = parsed_previous journal) then
        match parsed_previous journal with
        | Some _ => verify_and_materialize_committed_runtime "previous generation"
        | None => ret (Ok tt)
        end
      else ret (Err (CleanupUnknown
        "active runtime pointer matches neither side of the committed activation receipt"))
  end.

Definition rollback_activation_pointer_and_profile (previous activated : option RuntimePointer)
    : M Disk (result unit SetupError) :=
  let? _ := restore_runtime_pointer previous activated in
  match previous with
  | Some _ => let? _ := materialize_active in ret (Ok tt)
  | None => ret (Ok tt)
  end.

Definition parse_journal (bytes : list ascii) : result ParsedRuntimeActivationReceipt SetupError :=
  map_err (λ _, Runtime "runtime activation journal is invalid") (parse_runtime_activation_receipt bytes).

(** [RuntimeActivationTransaction::recover] *)
Definition recover : M Disk (result (option InstalledRuntime) SetupError) :=
  let! present := path_exists activation_journal_path in
  if negb present then current
  else
    let? bytes := read_journal in
    let? journal := ret (parse_journal bytes) in
    let? _ := (if bool_decide (parsed_phase journal = Some Committed)
               then finish_committed_activation_recovery journal
               else rollback_activation_pointer_and_profile (parsed_previous journal)
                      (parsed_activated journal)) in
    let? recovered := current in
    let? _ := remove_activation_journal in
    ret (Ok recovered).
(** *** Recovery with the service binding *)

Definition verified_activation_service_binary (pointer : RuntimePointer) (role : string)
    : M Disk (result Path SetupError) :=
  let directory := path_join (runtime_versions paths) (version pointer) in
  let? _ := with_err
    (unknown ("runtime activation " ++ role ++ " generation could not be verified for SCM recovery: "))
    (verify (version pointer) directory) in
  ret (Ok (path_join directory "mactype-service.exe")).

Definition derive_legacy_candidate (journal : ParsedRuntimeActivationReceipt)
    : M Disk (result (option RuntimePointer) SetupError) :=
  let? active := current_pointer_for_committed_recovery in
  match active, parsed_previous journal with
  | Some active, Some previous =>
      if bool_decide (active = previous) then ret (Ok None) else ret (Ok (Some active))
  | Some active, None => ret (Ok (Some active))
  | None, None => ret (Ok None)
  | None, Some _ => ret (Err (CleanupUnknown
      "legacy runtime activation lost its active pointer after a possible switch"))
  end.

Definition require_activation_pointer (expected : RuntimePointer) (role : string)
    : M Disk (result unit SetupError) :=
  let? actual := current_pointer_for_committed_recovery in
  if bool_decide (actual = Some expected) then ret (Ok tt)
  else ret (Err (CleanupUnknown ("runtime activation pointer does not match the " ++ role))).

(** [pointer.map(|p| self.verified_activation_service_binary(p, role)).transpose()?] *)
Definition verified_binary_of (pointer : option RuntimePointer) (role : string)
    : M Disk (result (option Path) SetupError) :=
  match pointer with
  | Some p => let? binary := verified_activation_service_binary p role in ret (Ok (Some binary))
  | None => ret (Ok None)
  end.

(** The arm of an activation that was not committed: the service binding is put back
    first, then the pointer. *)
Definition recover_uncommitted
    (inspect_service_binding : option Path → option Path → M Disk (result RuntimeServiceBinding SetupError))
    (restore_previous_service_binding : Path → option Path → M Disk (result unit SetupError))
    (candidate_binary previous_binary : option Path) (binding : RuntimeServiceBinding)
    (previous activated : option RuntimePointer) : M Disk (result unit SetupError) :=
  let binding :=
    if bool_decide (binding = CandidateBinding) && bool_decide (candidate_binary ≠ None) &&
       bool_decide (candidate_binary = previous_binary)
    then PreviousBinding else binding in
  let? binding :=
    (if bool_decide (binding = CandidateBinding) then
       match candidate_binary with
       | None => ret (Err (CleanupUnknown
           "uncommitted runtime activation has a candidate service binding but no candidate pointer"))
       | Some candidate_binary =>
           let? _ := with_err (unknown "SCM rollback did not complete before pointer recovery: ")
             (restore_previous_service_binding candidate_binary previous_binary) in
           with_err (unknown "SCM rollback result could not be verified: ")
             (inspect_service_binding (Some candidate_binary) previous_binary)
       end
     else ret (Ok binding)) in
  let previous_binding_is_exact :=
    match binding, previous_binary with
    | PreviousBinding, Some _ | AbsentBinding, None => true
    | _, _ => false
    end in
  if negb previous_binding_is_exact then
    ret (Err (CleanupUnknown
      "uncommitted runtime activation did not reach the exact previous SCM binding"))
  else rollback_activation_pointer_and_profile previous activated.

(** [RuntimeActivationTransaction::recover_with_service_binding] *)
Definition recover_with_service_binding
    (inspect_service_binding : option Path → option Path → M Disk (result RuntimeServiceBinding SetupError))
    (restore_previous_service_binding : Path → option Path → M Disk (result unit SetupError))
    : M Disk (result (option InstalledRuntime) SetupError) :=
  let! present := path_exists activation_journal_path in
  if negb present then current
  else
    let? bytes := read_journal in
    let? journal := ret (parse_journal bytes) in
    let? activated := match parsed_activated journal with
                      | Some activated => ret (Ok (Some activated))
                      | None => derive_legacy_candidate journal
                      end in
    let? candidate_binary := verified_binary_of activated "candidate" in
    let? previous_binary := verified_binary_of (parsed_previous journal) "previous" in
    let? binding := with_err (unknown "SCM binding could not be classified during runtime recovery: ")
      (inspect_service_binding candidate_binary previous_binary) in
    let? _ :=
      match parsed_phase journal with
      | Some Committed =>
          match activated with
          | None => ret (Err (CleanupUnknown
              "committed runtime activation has no candidate pointer"))
          | Some activated =>
              let? _ := require_activation_pointer activated "committed candidate" in
              if bool_decide (binding ≠ CandidateBinding) then
                ret (Err (CleanupUnknown
                  "committed runtime activation is not bound to the candidate SCM image"))
              else finish_committed_activation_recovery journal
          end
      | Some Candidate | Some RollbackRequired | None =>
          recover_uncommitted inspect_service_binding restore_previous_service_binding
            candidate_binary previous_binary binding (parsed_previous journal) activated
      end in
    let? recovered := current in
    let? _ := remove_activation_journal in
    ret (Ok recovered).

(** ** [activation_transaction.rs] *)

(** What is undone in place when the rollback is not left to the caller. *)
Definition roll_back_activation (error : SetupError) (old_pointer : option RuntimePointer)
    (activated : RuntimePointer) : M Disk SetupError :=
  let! restored := restore_runtime_pointer old_pointer (Some activated) in
  let! failures :=
    match restored with
    | Ok _ =>
        let! materialized := materialize_active in
        match materialized with
        | Ok _ => ret []
        | Err rollback_error => ret ["profile rematerialization failed: " ++ display rollback_error]%string
        end
    | Err rollback_error =>
        ret ["pointer restoration failed: " ++ display rollback_error;
             "profile rematerialization was skipped because pointer ownership was unknown"]%string
    end in
  let! failures :=
    match failures with
    | [] =>
        let! removed := remove_activation_journal in
        match removed with
        | Ok _ => ret []
        | Err rollback_error => ret ["activation journal cleanup failed: " ++ display rollback_error]%string
        end
    | _ :: _ => ret failures
    end in
  match failures with
  | [] => ret error
  | _ :: _ =>
      ret (RollbackFailed ("runtime activation failed (" ++ display error ++ ")")
             ("rollback remained incomplete: " ++ String.concat "; " failures ++
              ". The activation journal was retained"))
  end%string.

(** From the switched pointer to the health check. *)
Definition attempt_activation {T : Type} (old_pointer : option RuntimePointer) (activated : RuntimePointer)
    (service_binary : Path) (prepare : Path → M Disk (result T SetupError))
    (health_check : Path → T → M Disk (result unit SetupError)) : M Disk (result T SetupError) :=
  let runtime_profile := with_file_name service_binary "MacType.ini" in
  let? _ := with_err (at_machine_path "materialize active runtime profile" runtime_profile)
    materialize_active in
  let? prepared := with_err (at_machine_path "prepare runtime activation" service_binary)
    (prepare service_binary) in
  let? _ := with_err (at_machine_path "commit runtime activation receipt"
                        (runtime_activation_journal paths))
    (commit_activation_journal old_pointer activated) in
  let? _ := with_err (at_machine_path "run runtime activation health check" service_binary)
    (health_check service_binary prepared) in
  ret (Ok prepared).

(** The arm of an activation that failed with [error]; it answers the error to return. *)
Definition abandon_activation (error : SetupError) (old_pointer : option RuntimePointer)
    (activated : RuntimePointer) (defer_external_rollback : bool) : M Disk SetupError :=
  let! receipt := require_activation_rollback old_pointer activated in
  match receipt with
  | Err rollback_receipt_error =>
      ret (CleanupUnknown
        ("runtime activation failed (" ++ display error ++
         "); rollback was not attempted because its fail-closed receipt could not be persisted (" ++
         display rollback_receipt_error ++ ")"))
  | Ok _ =>
      if defer_external_rollback then ret error
      else roll_back_activation error old_pointer activated
  end.

Definition activate {T : Type} (version : string) (service_binary : Path)
    (prepare : Path → M Disk (result T SetupError))
    (health_check : Path → T → M Disk (result unit SetupError))
    (defer_external_rollback : bool) : M Disk (result (ActivatedRuntime T) SetupError) :=
  let cannot_form := Runtime "verified runtime version cannot form a pointer" in
  let! present := path_exists (runtime_pointer paths) in
  let? old_pointer :=
    (if present then
       let? bytes := read_active_pointer in
       let? pointer := ret (validate_runtime_pointer bytes) in
       ret (Ok (Some pointer))
     else ret (Ok None)) in
  let? activated := ret (map_err (λ _, cannot_form) (new_pointer version)) in
  let? pointer := ret (map_err (λ _, cannot_form) (pointer_to_bytes activated)) in
  let? _ := with_err (at_machine_path "write candidate runtime activation receipt"
                        (runtime_activation_journal paths))
    (write_activation_journal old_pointer activated) in
  let? _ := with_err (at_machine_path "switch active runtime pointer" (runtime_pointer paths))
    (atomic_write (runtime_pointer paths) pointer) in
  let! activation := attempt_activation old_pointer activated service_binary prepare health_check in
  match activation with
  | Ok prepared =>
      ret (Ok {| previous_pointer := old_pointer; activated_pointer := activated;
                 prepared := prepared |})
  | Err error =>
      let! error := abandon_activation error old_pointer activated defer_external_rollback in
      ret (Err error)
  end.

Definition finalize {T : Type} (activation : ActivatedRuntime T) : M Disk (result T SetupError) :=
  let? receipt_removed :=
    finalize_committed_activation (previous_pointer activation) (activated_pointer activation) in
  if receipt_removed then
    (* a failed retention is only reported on standard error *)
    let! _ := retain (previous_pointer activation) (version (activated_pointer activation)) in
    ret (Ok (prepared activation))
  else ret (Ok (prepared activation)).
End Transaction.
