(* ===== verification/ActivationFacts.v ===== *)
(** * The steps of an activation, by what they do to the two files

    How the operations of [ActivationTransaction.v] move between the states of the
    pointer file and of the receipt file.  [at_view d X Y]: on disk [d] the node of
    the pointer is [X] and that of the receipt is [Y]; a set of such views is the
    bound [in_view] of the states a run may pass through. *)

From S2P Require Export ActivationTransaction.

Notation View := (option Node → option Node → Prop) (only parsing).

Section Views.
Context `{World, ActivationJsonLaws, RuntimeServices} (program_files program_data : Path).
Notation paths := (machine_layout program_files program_data).
Notation pointer_path := (runtime_pointer paths).
Notation journal_path := (runtime_activation_journal paths).

Definition at_view (d : Disk) (X Y : option Node) : Prop :=
  nodes d !! pointer_path = X ∧ nodes d !! journal_path = Y.

Definition in_view (S : View) (m : Nodes) : Prop := S (m !! pointer_path) (m !! journal_path).

(** An operation that leaves both files alone, whatever else it does. *)
Definition framed {A : Type} (m : M Disk A) : Prop :=
  ∀ d X Y, at_view d X Y → spec (in_view (λ X' Y', X' = X ∧ Y' = Y)) m (λ _ _, True) d.

Lemma pointer_untouched : untouched journal_path pointer_path.
Proof. by apply siblings_untouched. Qed.

Lemma journal_untouched : untouched pointer_path journal_path.
Proof. by apply siblings_untouched. Qed.

Lemma at_view_nodes d d' X Y : nodes d' = nodes d → at_view d X Y → at_view d' X Y.
Proof. unfold at_view. by intros ->. Qed.

Lemma framed_at {A} (m : M Disk A) (S : View) d X Y :
  framed m → at_view d X Y → S X Y → spec (in_view S) m (λ _ d', at_view d' X Y) d.
Proof.
  intros Hm Hd HS. eapply spec_mono; [by apply Hm| |].
  - intros n Hn. unfold in_view in *. destruct Hn as [-> ->]. exact HS.
  - intros a d' Hr _. apply (run_nodes _ _ _ Hr). exact Hd.
Qed.

(** ** Reading *)

Lemma read_file_at p b maximum description P d :
  nodes d !! p = Some (File b) →
  spec P (read_bounded_regular_file p maximum description)
    (λ r d', nodes d' = nodes d ∧ ∀ bytes, r = Ok bytes → bytes = b) d.
Proof.
  intros Hp. eapply spec_post; [apply read_bounded_quiet|]. intros r d' _ [Hn Hr]. split; [done|].
  intros bytes [_ Hread]%Hr. unfold readable in Hread. rewrite Hp in Hread. by apply (inj Ok) in Hread.
Qed.

Lemma read_journal_at P d X b :
  at_view d X (Some (File b)) →
  spec P (read_journal paths) (λ r d', at_view d' X (Some (File b)) ∧ ∀ bytes, r = Ok bytes → bytes = b) d.
Proof.
  intros [Hx Hy]. eapply spec_post; [by apply read_file_at|]. intros r d' _ [Hn Hr].
  split; [by apply (at_view_nodes d)|done].
Qed.

Lemma read_pointer_at P d b Y :
  at_view d (Some (File b)) Y →
  spec P (read_active_pointer paths) (λ r d', at_view d' (Some (File b)) Y ∧ ∀ bytes, r = Ok bytes → bytes = b) d.
Proof.
  intros [Hx Hy]. eapply spec_post; [by apply read_file_at|]. intros r d' _ [Hn Hr].
  split; [by apply (at_view_nodes d)|done].
Qed.

Lemma read_pointer_quiet P d X Y :
  at_view d X Y →
  spec P (read_active_pointer paths) (λ r d', at_view d' X Y ∧
    ∀ bytes, r = Ok bytes → ∃ n, X = Some n ∧ (n = File bytes ∨ ∃ t, n = Link t)) d.
Proof.
  intros Hd. eapply spec_post; [apply read_bounded_quiet|]. intros r d' _ [Hn Hr].
  split; [by apply (at_view_nodes d)|]. intros bytes [_ Hread]%Hr. destruct Hd as [Hx _].
  unfold readable in Hread. rewrite Hx in Hread.
  destruct X as [[b| |t]|]; try done; [|by eauto]. apply (inj Ok) in Hread as ->. eauto.
Qed.

Lemma with_err_spec {A} P f (m : M Disk (result A SetupError)) Q d :
  spec P m (λ r, Q (map_err f r)) d → spec P (with_err f m) Q d.
Proof. intros Hm. eapply spec_bind; [exact Hm|]. intros r d' _ ?. by apply spec_ret. Qed.

(** ** Writing *)

Lemma write_journal_at (S : View) b d X Y :
  at_view d X Y → S X Y → S X (Some (File b)) →
  spec (in_view S) (atomic_write journal_path b) (λ r d',
    match r with
    | Ok _ => at_view d' X (Some (File b))
    | Err _ => at_view d' X Y ∨ at_view d' X (Some (File b))
    end) d.
Proof.
  intros [Hx Hy] HS HSb.
  assert (∀ m, writing (nodes d) journal_path b m →
    m !! pointer_path = X ∧ (m !! journal_path = Y ∨ m !! journal_path = Some (File b))) as Hw.
  { intros m [Hj Hrest]. rewrite (Hrest _ pointer_untouched), Hx. split; [done|]. by rewrite Hy in Hj. }
  eapply spec_mono; [apply atomic_write_spec| |].
  - intros m [Hp [Hj|Hj]]%Hw; unfold in_view; by rewrite Hp, Hj.
  - intros r d' _ [[Hp Hj]%Hw Hok]. unfold at_view. destruct r as [[]|e]; [auto|naive_solver].
Qed.

Lemma write_pointer_at (S : View) b d X Y :
  at_view d X Y → S X Y → S (Some (File b)) Y →
  spec (in_view S) (atomic_write pointer_path b) (λ r d',
    match r with
    | Ok _ => at_view d' (Some (File b)) Y
    | Err _ => at_view d' X Y ∨ at_view d' (Some (File b)) Y
    end) d.
Proof.
  intros [Hx Hy] HS HSb.
  assert (∀ m, writing (nodes d) pointer_path b m →
    m !! journal_path = Y ∧ (m !! pointer_path = X ∨ m !! pointer_path = Some (File b))) as Hw.
  { intros m [Hj Hrest]. rewrite (Hrest _ journal_untouched), Hy. split; [done|]. by rewrite Hx in Hj. }
  eapply spec_mono; [apply atomic_write_spec| |].
  - intros m [Hp [Hj|Hj]]%Hw; unfold in_view; by rewrite Hp, Hj.
  - intros r d' _ [[Hp Hj]%Hw Hok]. unfold at_view. destruct r as [[]|e]; [auto|naive_solver].
Qed.

Lemma delete_file_at (S : View) p d b (Q : result unit IoError → Disk → Prop) :
  nodes d !! p = Some (File b) →
  (∀ m, m = delete p (nodes d) → in_view S m) →
  (∀ d', nodes d' = delete p (nodes d) → ∀ r, Q r d') →
  (∀ d', nodes d' = nodes d → ∀ e, Q (Err e) d') →
  spec (in_view S) (remove_file p) Q d.
Proof.
  intros Hp HS Hok Herr. eapply spec_post; [apply os_write_spec|].
  - intros _ m'. cbv beta. rewrite Hp. intros E%(inj Ok). by apply HS.
  - intros r d' _. cbv beta. rewrite Hp. destruct r as [[]|e].
    + intros E%(inj Ok). by apply Hok.
    + intros [E|[_ E%(inj Ok)]]; [by apply Herr|by apply Hok].
Qed.

Lemma remove_journal_at (S : View) b d X :
  truthful →
  at_view d X (Some (File b)) → S X (Some (File b)) → S X None →
  spec (in_view S) (remove_activation_journal paths) (λ r d',
    match r with
    | Ok _ => at_view d' X None
    | Err _ => at_view d' X (Some (File b)) ∨ at_view d' X None
    end) d.
Proof.
  intros Hsight Hd HS HSn. unfold remove_activation_journal, activation_journal_path.
  spec_then path_exists_spec. intros present d1 _ (Hn1 & _ & Hp). rewrite (Hp (sees Hsight)).
  assert (node_exists (nodes d) journal_path = true) as ->.
  { unfold node_exists. destruct Hd as [_ Hy]. by rewrite Hy. }
  try_then reject_reparse_quiet.
  2: { intros e d2 _ Hn2. left. apply (at_view_nodes d); [|done]. by rewrite Hn2. }
  intros [] d2 _ Hn2.
  assert (at_view d2 X (Some (File b))) as [Hx2 Hy2]
    by (apply (at_view_nodes d); [by rewrite Hn2|done]).
  assert (∀ m : Nodes, m = delete journal_path (nodes d2) →
    m !! pointer_path = X ∧ m !! journal_path = None) as Hgone.
  { intros m ->. rewrite lookup_delete_eq, lookup_delete_ne; [done|].
    apply not_eq_sym, pointer_untouched. }
  apply (spec_try _ _ _ (λ (r : result unit SetupError) d',
    match r with
    | Ok _ => at_view d' X None
    | Err _ => at_view d' X (Some (File b)) ∨ at_view d' X None
    end)).
  - apply spec_lift. eapply delete_file_at; [done| | |].
    + intros m Hm. unfold in_view. by destruct (Hgone m Hm) as [-> ->].
    + intros d' Hn' [|]; [by apply Hgone|right; by apply Hgone].
    + intros d' Hn' e. left. by apply (at_view_nodes d2).
  - intros [] d3 _ Hd3. by apply spec_ret.
  - by intros e d3 _ Hd3.
Qed.
(** Quiet operations keep the view. *)
Lemma quiet_at {A} P (m : M Disk A) (Q : A → Prop) d X Y :
  spec P m (λ a d', nodes d' = nodes d ∧ Q a) d → at_view d X Y →
  spec P m (λ a d', at_view d' X Y ∧ Q a) d.
Proof. intros Hm Hd. eapply spec_post; [exact Hm|]. intros a d' _ [Hn ?]. split; [by apply (at_view_nodes d)|done]. Qed.

Lemma with_err_at {A : Type} (P : Nodes → Prop) (g : SetupError → SetupError) (m : M Disk (result A SetupError)) (R : Disk → Prop) (G : A → Prop) d :
  spec P m (λ r d', R d' ∧ ∀ a, r = Ok a → G a) d →
  spec P (with_err g m) (λ r d', R d' ∧ ∀ a, r = Ok a → G a) d.
Proof.
  intros Hm. apply with_err_spec. eapply spec_post; [exact Hm|]. intros r d' _ [? Hr].
  split; [done|]. intros a Ha. apply Hr. destruct r; [|done]. by apply (inj Ok) in Ha as ->.
Qed.

Lemma guarded_read_at {A : Type} (P : Nodes → Prop) (g : SetupError → SetupError) (f : Nodes → result A IoError) d X Y :
  at_view d X Y →
  spec P (with_err g (lift_io (os_read f)))
    (λ r d', at_view d' X Y ∧ ∀ a, r = Ok a → f (nodes d) = Ok a) d.
Proof.
  intros Hd. apply with_err_at. eapply spec_post; [apply lift_read_spec|]. intros r d' _ [Hn Hr].
  split; [by apply (at_view_nodes d)|done].
Qed.

Lemma remove_exact_at (S : View) b expected d Y :
  at_view d (Some (File b)) Y → S (Some (File b)) Y → (b = expected → S None Y) →
  spec (in_view S) (remove_exact_runtime_pointer pointer_path expected) (λ r d',
    match r with
    | Ok _ => at_view d' None Y
    | Err _ => at_view d' (Some (File b)) Y ∨ at_view d' None Y ∧ b = expected
    end) d.
Proof.
  intros Hd HS HSn. unfold remove_exact_runtime_pointer, open_link_itself, fs_symlink_metadata.
  try_then guarded_read_at; [exact Hd| |by intros e d1 _ [? _]; left].
  intros node1 d1 _ [Hd1 _].
  try_then guarded_read_at; [exact Hd1| |by intros e d2 _ [? _]; left].
  intros node2 d2 _ [Hd2 Hnode]. specialize (Hnode _ eq_refl). cbv beta in Hnode.
  destruct Hd1 as [Hx1 Hy1]. rewrite Hx1 in Hnode. apply (inj Ok) in Hnode as <-.
  destruct (_ || _) eqn:Elen; [by apply spec_ret; left|]. andb_split.
  try_then guarded_read_at; [exact Hd2| |by intros e d3 _ [? _]; left].
  intros actual d3 _ [Hd3 Hactual]. specialize (Hactual _ eq_refl). cbv beta in Hactual.
  case_bool_decide as Hne; [by apply spec_ret; left|].
  assert (readable (nodes d2) pointer_path = Ok b) as Hread
    by (unfold readable; destruct Hd2 as [-> _]; done).
  rewrite Hread in Hactual. cbn [result_bind] in Hactual. apply (inj Ok) in Hactual.
  rewrite ?take_bytes_eq in Hactual. rewrite take_ge in Hactual by (unfold bytes_len in *; lia).
  assert (b = expected) as Hb by (subst actual; by destruct (decide (b = expected))).
  assert (∀ m : Nodes, m = delete pointer_path (nodes d3) →
    m !! pointer_path = None ∧ m !! journal_path = Y) as Hgone.
  { intros m ->. rewrite lookup_delete_eq, lookup_delete_ne; [by destruct Hd3|].
    apply not_eq_sym, journal_untouched. }
  apply with_err_spec, spec_lift. unfold mark_open_file_for_deletion.
  eapply delete_file_at; [apply Hd3| | |].
  - intros m Hm. unfold in_view. destruct (Hgone m Hm) as [-> ->]. by apply HSn.
  - intros d' Hn' [|]; [by apply Hgone|right; split; [by apply Hgone|done]].
  - intros d' Hn' e. left. by apply (at_view_nodes d3).
Qed.

(** ** The pointer and the receipt of one activation *)

Section Activation.
Context (old : option RuntimePointer) (new : RuntimePointer).
Context (Hold : optional_pointer_invalid old = false) (Hnew : pointer_validate new = true).
Context (Hsight : truthful).

Definition receipt (ph : RuntimeActivationPhase) : RuntimeActivationReceipt :=
  with_phase (candidate old new) ph.

(** The node is the pointer file of [o], absent for [None]. *)
Definition pointer_is (o : option RuntimePointer) (X : option Node) : Prop :=
  match o with
  | None => X = None
  | Some p => ∃ b, X = Some (File b) ∧ pointer_parse b = Ok p
  end.

(** The node is the receipt file of the phase. *)
Definition journal_is (ph : RuntimeActivationPhase) (Y : option Node) : Prop :=
  ∃ b, receipt_to_bytes (receipt ph) = Ok b ∧ Y = Some (File b).

Definition settled (o : option RuntimePointer) : View := λ X Y, Y = None ∧ pointer_is o X.

Definition pending (ph : RuntimeActivationPhase) : View := λ X Y,
  journal_is ph Y ∧ (pointer_is (Some new) X ∨ ph ≠ Committed ∧ pointer_is old X).

(** The views an activation passes through. *)
Definition in_transaction : View := λ X Y, settled old X Y ∨ ∃ ph, pending ph X Y.

Lemma receipt_valid ph : receipt_validate (receipt ph) = true.
Proof. by apply with_phase_valid, candidate_valid. Qed.

Lemma receipt_bytes ph : ∃ b, receipt_to_bytes (receipt ph) = Ok b.
Proof. destruct (receipt_written _ (receipt_valid ph)) as (b & ? & _). eauto. Qed.

Lemma receipt_bytes_inj ph ph' b :
  receipt_to_bytes (receipt ph) = Ok b → receipt_to_bytes (receipt ph') = Ok b → ph = ph'.
Proof.
  intros H1' H2'. apply receipt_parse_written in H1'; [|apply receipt_valid].
  apply receipt_parse_written in H2'; [|apply receipt_valid].
  rewrite H1' in H2'. apply (inj Ok) in H2'. by injection H2'.
Qed.

Lemma journal_is_inj ph ph' Y : journal_is ph Y → journal_is ph' Y → ph = ph'.
Proof. intros (b & Hb & ->) (b' & Hb' & [= <-]). by apply (receipt_bytes_inj _ _ b). Qed.

Lemma activation_receipt_bytes_Ok ph b :
  activation_receipt_bytes (receipt ph) = Ok b → receipt_to_bytes (receipt ph) = Ok b.
Proof. unfold activation_receipt_bytes. destruct (receipt_to_bytes _); [|done]. by intros ->%(inj Ok). Qed.

Lemma pointer_bytes_Ok p b :
  pointer_validate p = true → pointer_bytes p = Ok b → pointer_parse b = Ok p.
Proof.
  intros Hp. unfold pointer_bytes. destruct (pointer_to_bytes p) as [b'|] eqn:E; [|done].
  intros <-%(inj Ok). by apply pointer_parse_written.
Qed.

Lemma old_valid p : old = Some p → pointer_validate p = true.
Proof. intros ->. by apply negb_false_iff in Hold. Qed.
(** *** Changing the phase *)

Lemma try_pure {A B : Type} P (r : result A SetupError) (k : A → M Disk (result B SetupError)) Q d :
  (∀ a, r = Ok a → spec P (k a) Q d) → (∀ e, r = Err e → Q (Err e) d) →
  spec P (let? x := ret r in k x) Q d.
Proof. intros Hk He. destruct r as [a|e]; [by apply Hk|]. apply (spec_ret P (Err e)). by apply He. Qed.

Lemma persist_at (S : View) ph b d X Y :
  at_view d X Y → receipt_to_bytes (receipt ph) = Ok b → S X Y → S X (Some (File b)) →
  spec (in_view S) (persist_activation_phase paths (candidate old new) ph) (λ r d',
    match r with
    | Ok _ => at_view d' X (Some (File b))
    | Err _ => at_view d' X Y ∨ at_view d' X (Some (File b))
    end) d.
Proof.
  intros Hd Hb HS HSb. unfold persist_activation_phase.
  apply try_pure; [|intros; by left]. intros b' Hb'%activation_receipt_bytes_Ok.
  rewrite Hb in Hb'. apply (inj Ok) in Hb' as <-.
  try_then (write_journal_at S); [exact Hd|done|done| |by intros].
  intros [] d1 _ Hd1. try_then read_journal_at; [exact Hd1| |].
  2: { intros e d2 _ [? _]. by right. }
  intros bytes d2 _ [Hd2 Hbytes]. specialize (Hbytes bytes eq_refl) as ->.
  rewrite bool_decide_false by auto. by apply spec_ret.
Qed.

Lemma verify_exact_at P expected ph d X b :
  at_view d X (Some (File b)) →
  spec P (verify_exact_activation_receipt paths expected ph) (λ r d',
    at_view d' X (Some (File b)) ∧ (r = Ok tt → b = expected)) d.
Proof.
  intros Hd. unfold verify_exact_activation_receipt.
  try_then read_journal_at; [exact Hd| |by intros e d1 _ [? _]].
  intros bytes d1 _ [Hd1 Hbytes]. specialize (Hbytes bytes eq_refl) as ->.
  case_bool_decide as Hne; apply spec_ret; [done|]. split; [done|]. intros _.
  by destruct (decide (b = expected)).
Qed.

(** The commit reads the pointer again and only succeeds on the new one. *)
Lemma commit_at (S : View) d x Y c :
  at_view d (Some (File x)) Y → journal_is Candidate Y → S (Some (File x)) Y →
  receipt_to_bytes (receipt Committed) = Ok c →
  (pointer_parse x = Ok new → S (Some (File x)) (Some (File c))) →
  spec (in_view S) (commit_activation_journal paths old new) (λ r d',
    match r with
    | Ok _ => at_view d' (Some (File x)) (Some (File c))
    | Err _ => at_view d' (Some (File x)) Y ∨ at_view d' (Some (File x)) (Some (File c))
    end) d.
Proof.
  intros Hd (b & Hb & ->) HS Hc HSc. unfold commit_activation_journal. cbn zeta.
  apply try_pure; [|intros; by left]. intros b' _.
  try_then verify_exact_at; [exact Hd| |by intros e d1 _ [? _]; left].
  intros [] d1 _ [Hd1 _]. try_then read_pointer_at; [exact Hd1| |by intros e d2 _ [? _]; left].
  intros bytes d2 _ [Hd2 Hbytes]. specialize (Hbytes bytes eq_refl) as ->.
  apply try_pure; [|intros; by left].
  intros p Hp. case_bool_decide as Hne; [by apply spec_ret; left|].
  assert (p = new) as -> by (by destruct (decide (p = new))).
  apply persist_at; [done..|]. apply HSc. unfold validate_runtime_pointer in Hp.
  destruct (pointer_parse x); [|done]. by apply (inj Ok) in Hp as ->.
Qed.

(** Requiring the rollback succeeds only from a receipt of this activation. *)
Lemma require_rollback_at (S : View) d X y c :
  at_view d X (Some (File y)) → S X (Some (File y)) →
  receipt_to_bytes (receipt RollbackRequired) = Ok c → S X (Some (File c)) →
  spec (in_view S) (require_activation_rollback paths old new) (λ r d',
    match r with
    | Ok _ => at_view d' X (Some (File c))
    | Err _ => at_view d' X (Some (File y)) ∨ at_view d' X (Some (File c))
    end) d.
Proof.
  intros Hd HS Hc HSc. unfold require_activation_rollback. cbn zeta.
  apply try_pure; [|intros; by left]. intros b1 _. apply try_pure; [|intros; by left]. intros b2 _.
  apply try_pure; [|intros; by left]. intros b3 Hb3%activation_receipt_bytes_Ok.
  rewrite Hc in Hb3. apply (inj Ok) in Hb3 as <-.
  try_then read_journal_at; [exact Hd| |by intros e d1 _ [? _]; left].
  intros bytes d1 _ [Hd1 Hbytes]. specialize (Hbytes bytes eq_refl) as ->.
  case_bool_decide as Heq; [subst; by apply spec_ret|].
  destruct (_ && _); [by apply spec_ret; left|]. by apply persist_at.
Qed.

(** *** Restoring the pointer *)

Lemma transpose_pointer o b :
  transpose_map pointer_bytes o = Ok b →
  match o with None => b = None | Some p => ∃ x, b = Some x ∧ pointer_bytes p = Ok x end.
Proof.
  destruct o as [p|]; cbn [transpose_map]; [|by intros <-%(inj Ok)].
  destruct (pointer_bytes p) as [x|]; [|done]. intros <-%(inj Ok). eauto.
Qed.

Lemma symlink_metadata_at P p d n :
  truthful → nodes d !! p = n →
  spec P (fs_symlink_metadata p) (λ r d', nodes d' = nodes d ∧
    match r with
    | Ok x => n = Some x
    | Err e => not_found e = true → n = None
    end) d.
Proof.
  intros Ht Hp. eapply spec_post; [apply os_read_spec|]. intros r d' _ [Hn Hr]. split; [done|].
  destruct Hr as [->|(e & -> & Hf)]; rewrite ?Hp; [by destruct n|].
  intros Hnf. by rewrite (finds Ht e Hf) in Hnf.
Qed.

Lemma inspect_rollback_at P d X Y :
  at_view d X Y →
  spec P (inspect_pointer_for_rollback paths) (λ r d', at_view d' X Y ∧
    ∀ o, r = Ok o → X = match o with None => None | Some b => Some (File b) end) d.
Proof.
  intros Hd. unfold inspect_pointer_for_rollback.
  eapply spec_bind; [eapply quiet_at; [by apply symlink_metadata_at|exact Hd]|].
  intros [n|e] d1 _ [Hd1 Hx]; rewrite (proj1 Hd) in Hx; clear Hd.
  - destruct n as [b| |]; [|by apply spec_ret..]. subst X.
    try_then with_err_at; [eapply read_pointer_at, Hd1| |by intros e d2 _ [? _]].
    intros bytes d2 _ [Hd2 Hb]. specialize (Hb bytes eq_refl) as ->.
    apply spec_ret. split; [done|]. by intros o <-%(inj Ok).
  - destruct (not_found e) eqn:Enf; apply spec_ret; (split; [done|]); [|done].
    intros o <-%(inj Ok). by apply Hx.
Qed.

(** What the pointer is after a rollback was tried: what it was, or the old one, and
    the old one for sure on success. *)
Lemma restore_at (S : View) d X Y activated :
  at_view d X Y → S X Y → (∀ X', pointer_is old X' → S X' Y) →
  spec (in_view S) (restore_runtime_pointer paths old activated) (λ r d',
    (∃ X', pointer_is old X' ∧ at_view d' X' Y) ∨ r ≠ Ok tt ∧ at_view d' X Y) d.
Proof.
  intros Hd HS HSo. unfold restore_runtime_pointer.
  try_then inspect_rollback_at; [exact Hd| |by intros e d1 _ [? _]; right].
  intros actual d1 _ [Hd1 HX]. specialize (HX actual eq_refl).
  apply try_pure; [|by right]. intros pb Hpb%transpose_pointer.
  apply try_pure; [|by right]. intros ab _. cbn zeta.
  assert (∀ p x, old = Some p → pointer_bytes p = Ok x → pointer_is old (Some (File x))) as His.
  { intros p x Ho Hx. rewrite Ho. exists x. split; [done|]. apply pointer_bytes_Ok; [|done]. by apply old_valid. }
  assert (∀ p x, old = Some p → pointer_bytes p = Ok x →
    spec (in_view S) (atomic_write pointer_path x) (λ r d',
      (∃ X', pointer_is old X' ∧ at_view d' X' Y) ∨ r ≠ Ok tt ∧ at_view d' X Y) d1) as Hwrite.
  { intros p x Ho Hx. eapply spec_post; [apply (write_pointer_at S); [exact Hd1|done|by apply HSo, (His p)]|].
    intros [[]|e] d2 _ Hd2; [left|destruct Hd2; [by right|left]]; exists (Some (File x)); eauto. }
  destruct old as [p|] eqn:Eo; [destruct Hpb as (x & -> & Hx)|subst pb].
  - destruct actual as [a|].
    + case_bool_decide as Ea.
      { apply spec_ret. left. exists X. split; [|done]. subst. by apply (His p). }
      destruct ab as [ab|]; [|by apply spec_ret; right].
      case_bool_decide; [|by apply spec_ret; right]. by apply (Hwrite p).
    + by apply (Hwrite p).
  - destruct actual as [a|]; [|by apply spec_ret; left; exists X].
    destruct ab as [ab|]; [|by apply spec_ret; right].
    case_bool_decide; [|by apply spec_ret; right]. subst X.
    eapply spec_post; [apply (remove_exact_at S); [exact Hd1|done|]|].
    + intros _. by apply HSo.
    + intros [[]|e] d2 _ Hd2; [left|destruct Hd2 as [?|[? _]]; [by right|left]]; by exists None.
Qed.
(** *** The whole activation *)

Lemma framed_run {A} (m : M Disk A) (S : View) d X Y :
  framed m → at_view d X Y → S X Y →
  spec (in_view S) m (λ a d', at_view d' X Y ∧ m d = Some (a, d')) d.
Proof.
  intros Hm Hd HS. pose proof (framed_at m S d X Y Hm Hd HS) as Hs. unfold spec, wp in *.
  destruct (m d) as [[a d']|]; [|done]. destruct Hs. auto.
Qed.

Lemma roll_back_at error d x c :
  framed materialize_active →
  at_view d (Some (File x)) (Some (File c)) → pointer_parse x = Ok new →
  receipt_to_bytes (receipt RollbackRequired) = Ok c →
  ∀ S : View, (∀ X Y, settled old X Y → S X Y) → (∀ X Y, pending RollbackRequired X Y → S X Y) →
  spec (in_view S) (roll_back_activation paths error old new) (λ e d',
    ∃ X Y, at_view d' X Y ∧
      (settled old X Y ∨ pending RollbackRequired X Y ∧ ∃ a b, e = RollbackFailed a b)) d.
Proof.
  intros Hmat Hd Hx Hc S HSs HSp.
  assert (journal_is RollbackRequired (Some (File c))) as Hj by (by exists c).
  assert (∀ X, pointer_is old X → pending RollbackRequired X (Some (File c))) as Hback.
  { intros X HX. split; [done|]. right. by split. }
  assert (pending RollbackRequired (Some (File x)) (Some (File c))) as Hhere.
  { split; [done|]. left. by exists x. }
  unfold roll_back_activation.
  eapply spec_bind; [apply (restore_at S); [exact Hd|by apply HSp|by intros; apply HSp, Hback]|].
  intros restored d1 _ Hd1.
  assert (∃ X, at_view d1 X (Some (File c)) ∧ pending RollbackRequired X (Some (File c)) ∧
    (restored = Ok tt → pointer_is old X)) as (X & HdX & HpX & HoX).
  { destruct Hd1 as [(X & ? & ?)|[? ?]]; [exists X; auto|]. eexists. split_and!; [done|done|]. by intros. }
  clear Hd1. apply (spec_bind _ _ _ (λ failures d2, at_view d2 X (Some (File c)) ∧
    (failures = [] → pointer_is old X))).
  { destruct restored as [[]|re].
    - eapply spec_bind; [apply (framed_at _ S); [done|exact HdX|by apply HSp]|].
      intros [g|me] d2 _ Hd2; by apply spec_ret; auto.
    - by apply spec_ret. }
  intros failures d2 _ [Hd2 Hf]. destruct failures as [|f fs].
  - specialize (Hf eq_refl).
    assert (settled old X None) as Hsettled by done.
    eapply spec_bind.
    { eapply spec_bind; [apply (remove_journal_at S); [done|exact Hd2|by apply HSp|by apply HSs]|].
      intros [[]|re] d3 _ Hd3; apply (spec_ret _ _ (λ fs d', ∃ Y, at_view d' X Y ∧
        (settled old X Y ∨ pending RollbackRequired X Y ∧ fs ≠ []))).
      - exists None. auto.
      - destruct Hd3; [eexists; split; [done|]; by right|exists None; auto]. }
    intros fs d3 _ (Y & Hd3 & HY). destruct fs as [|f fs].
    + apply spec_ret. exists X, Y. split; [done|]. left. by destruct HY as [?|[_ []]].
    + apply spec_ret. exists X, Y. split; [done|]. destruct HY as [?|[? _]]; eauto 6.
  - eapply spec_bind; [by apply (spec_ret _ _ (λ l d', l = f :: fs ∧ at_view d' X (Some (File c))))|].
    intros l d3 _ [-> Hd3]. apply spec_ret. exists X, (Some (File c)). eauto 6.
Qed.
Section Attempt.
Context {T : Type} (binary : Path) (prepare : Path → M Disk (result T SetupError))
  (health_check : Path → T → M Disk (result unit SetupError)).
Context (Hmat : framed materialize_active) (Hprep : framed (prepare binary))
  (Hhealth : ∀ t, framed (health_check binary t)).

(** The preparation succeeded, with the new pointer in place and the candidate receipt
    on the disk. *)
Definition was_prepared : Prop := ∃ d t d' X Y,
  prepare binary d = Some (Ok t, d') ∧ at_view d X Y ∧ pointer_is (Some new) X ∧ journal_is Candidate Y.

(** The health check passed, with the commitment on the disk. *)
Definition was_healthy : Prop := ∃ d t d' X Y,
  health_check binary t d = Some (Ok tt, d') ∧ at_view d X Y ∧ pending Committed X Y.

(** Both happened between two moments, the preparation first. *)
Definition went_through (d d' : Disk) : Prop := ∃ d1 t d2 d3 d4,
  later d d1 ∧ prepare binary d1 = Some (Ok t, d2) ∧ later d2 d3 ∧
  health_check binary t d3 = Some (Ok tt, d4) ∧ later d4 d'.

Lemma went_through_later d0 d d' d'' : later d0 d → went_through d d' → later d' d'' → went_through d0 d''.
Proof.
  intros Hl (d1 & t & d2 & d3 & d4 & Hl1 & Hp & Hl2 & Hh & Hl3) Hl'. exists d1, t, d2, d3, d4.
  split_and!; [by etrans|done|done|done|by etrans].
Qed.

Definition guarded_transaction : View := λ X Y,
  in_transaction X Y ∧ (journal_is Committed Y → was_prepared).

Lemma settled_guarded X Y : settled old X Y → guarded_transaction X Y.
Proof. intros HS. split; [by left|]. destruct HS as [-> _]. by intros (? & _ & [=]). Qed.

Lemma pending_guarded ph X Y : ph ≠ Committed → pending ph X Y → guarded_transaction X Y.
Proof.
  intros Hne HS. split; [by right; exists ph|]. destruct HS as [Hj _]. intros Hc.
  by destruct Hne; apply (journal_is_inj _ _ Y).
Qed.

Lemma committed_guarded X Y : was_prepared → pending Committed X Y → guarded_transaction X Y.
Proof. intros Hw HS. split; [by right; exists Committed|done]. Qed.

(** A failed attempt leaves the candidate or, prepared, the committed receipt. *)
Definition attempted (d : Disk) (x : list ascii) : Prop :=
  ∃ ph y, at_view d (Some (File x)) (Some (File y)) ∧ receipt_to_bytes (receipt ph) = Ok y ∧
    (ph = Committed → was_prepared) ∧ ph ≠ RollbackRequired.

Lemma attempt_at d x y :
  at_view d (Some (File x)) (Some (File y)) → pointer_parse x = Ok new →
  receipt_to_bytes (receipt Candidate) = Ok y →
  spec (in_view guarded_transaction) (attempt_activation paths old new binary prepare health_check)
    (λ r d', attempted d' x ∧
      (is_ok r = true → was_healthy ∧ went_through d d' ∧
         ∃ Y, at_view d' (Some (File x)) Y ∧ journal_is Committed Y)) d.
Proof.
  intros Hd Hx Hy. unfold attempt_activation. cbn zeta.
  assert (pointer_is (Some new) (Some (File x))) as Hp by (by exists x).
  assert (journal_is Candidate (Some (File y))) as Hj by (by exists y).
  assert (guarded_transaction (Some (File x)) (Some (File y))) as HS.
  { apply (pending_guarded Candidate); [done|]. split; [done|by left]. }
  assert (∀ d', at_view d' (Some (File x)) (Some (File y)) → attempted d' x) as Hcand.
  { intros d' Hd'. exists Candidate, y. by split_and!. }
  apply (spec_try _ _ _ (λ r d1, at_view d1 (Some (File x)) (Some (File y)))).
  { apply with_err_spec. eapply spec_post; [by apply framed_at|]. by intros. }
  2: { intros e d1 _ Hd1. split; [by apply Hcand|done]. }
  intros g d1 Hl1%run_later Hd1.
  apply (spec_try _ _ _ (λ (r : result T SetupError) d2, at_view d2 (Some (File x)) (Some (File y)) ∧
    ∀ t, r = Ok t → was_prepared ∧ prepare binary d1 = Some (Ok t, d2))).
  { apply with_err_spec. eapply spec_post; [by apply framed_run|]. intros r d2 _ [Hd2 Hr].
    split; [done|]. destruct r as [t|]; [|done]. intros t' [= <-]. split; [|done].
    by exists d1, t, d2, (Some (File x)), (Some (File y)). }
  2: { intros e d2 _ [Hd2 _]. split; [by apply Hcand|done]. }
  intros t d2 _ [Hd2 Hw]. destruct (Hw t eq_refl) as [Hw' Hprepared]. clear Hw. rename Hw' into Hw. destruct (receipt_bytes Committed) as (c & Hc).
  assert (pending Committed (Some (File x)) (Some (File c))) as Hpc by (split; [by exists c|by left]).
  assert (∀ d', at_view d' (Some (File x)) (Some (File c)) → attempted d' x) as Hcomm.
  { intros d' Hd'. exists Committed, c. by split_and!. }
  apply (spec_try _ _ _ (λ (r : result unit SetupError) d3,
    match r with
    | Ok _ => at_view d3 (Some (File x)) (Some (File c))
    | Err _ => at_view d3 (Some (File x)) (Some (File y)) ∨ at_view d3 (Some (File x)) (Some (File c))
    end)).
  { apply with_err_spec. eapply spec_post.
    - apply (commit_at guarded_transaction); [exact Hd2|done|done|exact Hc|]. intros _.
      by apply committed_guarded.
    - by intros [[]|e] d3 _ Hd3. }
  2: { intros e d3 _ [Hd3|Hd3]; (split; [auto|done]). }
  intros [] d3 Hl3%run_later Hd3.
  apply (spec_try _ _ _ (λ (r : result unit SetupError) d4, at_view d4 (Some (File x)) (Some (File c)) ∧
    (is_ok r = true → was_healthy ∧ health_check binary t d3 = Some (Ok tt, d4)))).
  { apply with_err_spec. eapply spec_post.
    - apply (framed_run _ guarded_transaction); [apply Hhealth|exact Hd3|by apply committed_guarded].
    - intros r d4 _ [Hd4 Hr]. split; [done|]. destruct r as [[]|]; [|done]. intros _.
      split; [|done]. by exists d3, t, d4, (Some (File x)), (Some (File c)). }
  2: { intros e d4 _ [Hd4 _]. split; [by apply Hcomm|done]. }
  intros [] d4 _ [Hd4 Hh]. destruct (Hh eq_refl) as [Hhealthy Hchecked].
  apply spec_ret. split; [by apply Hcomm|]. intros _. split; [done|]. split; [by exists d1, t, d2, d3, d4|].
  exists (Some (File c)). split; [done|]. by exists c.
Qed.

(** How a failed activation ends. *)
Definition failed_with (e : SetupError) (defer : bool) (d : Disk) : Prop := ∃ X Y, at_view d X Y ∧
  (settled old X Y ∨ pending Candidate X Y ∨
   pending RollbackRequired X Y ∧ (defer = true ∨ ∃ a b, e = RollbackFailed a b) ∨
   ∃ message, e = CleanupUnknown message).

Lemma abandon_at error defer d x :
  attempted d x → pointer_parse x = Ok new →
  spec (in_view guarded_transaction) (abandon_activation paths error old new defer)
    (λ e d', failed_with e defer d') d.
Proof.
  intros (ph & y & Hd & Hy & Hw & Hne) Hx. unfold abandon_activation.
  destruct (receipt_bytes RollbackRequired) as (c & Hc).
  assert (∀ ph' b, receipt_to_bytes (receipt ph') = Ok b → pending ph' (Some (File x)) (Some (File b))) as Hpend.
  { intros ph' b Hb. split; [by exists b|left; by exists x]. }
  assert (guarded_transaction (Some (File x)) (Some (File y))) as HS.
  { split; [right; exists ph; auto|]. intros Hcom. apply Hw. by apply (journal_is_inj _ _ (Some (File y))); [exists y|]. }
  assert (guarded_transaction (Some (File x)) (Some (File c))) as HSc
    by (by apply (pending_guarded RollbackRequired); auto).
  eapply spec_bind; [by apply (require_rollback_at guarded_transaction)|].
  intros [[]|re] d1 _ Hd1.
  - destruct defer.
    + apply spec_ret. exists (Some (File x)), (Some (File c)). split; [done|]. right; right; left. auto.
    + eapply spec_post; [apply (roll_back_at error d1 x c Hmat Hd1 Hx Hc)|].
      * apply settled_guarded.
      * intros X Y. by apply pending_guarded.
      * intros e d2 _ (X & Y & Hd2 & HXY). exists X, Y. split; [done|].
        destruct HXY as [?|[? ?]]; [by left|right; right; left; auto].
  - apply spec_ret. destruct Hd1 as [Hd1|Hd1]; eexists _, _; (split; [exact Hd1|]); right; right; right; eauto.
Qed.

Definition activation_outcome (start : Disk) (r : result (ActivatedRuntime T) SetupError) (defer : bool) (d : Disk) : Prop :=
  match r with
  | Ok a => previous_pointer a = old ∧ activated_pointer a = new ∧ was_prepared ∧ was_healthy ∧ went_through start d ∧
      ∃ X Y, at_view d X Y ∧ pointer_is (Some new) X ∧ journal_is Committed Y
  | Err e => failed_with e defer d
  end.

Lemma activate_at defer d X :
  new_pointer (version new) = Ok new → at_view d X None → pointer_is old X →
  spec (in_view guarded_transaction)
    (activate paths (version new) binary prepare health_check defer)
    (λ r d', activation_outcome d r defer d') d.
Proof.
  intros Hver Hd HX. unfold activate. cbn zeta.
  assert (settled old X None) as Hset by done.
  assert (∀ e d', at_view d' X None → activation_outcome d (Err e) defer d') as Hundone.
  { intros e d' Hd'. exists X, None. split; [done|]. by left. }
  apply (spec_bind _ _ _ (λ present d1, at_view d1 X None ∧ present = match old with Some _ => true | None => false end)).
  { eapply spec_post; [apply path_exists_spec|]. intros b d1 _ (Hn & _ & Hb).
    split; [by apply (at_view_nodes d)|]. rewrite (Hb (sees Hsight)). destruct Hd as [Hxd _].
    unfold node_exists. rewrite Hxd. destruct old as [p|]; [by destruct HX as (b' & -> & _)|by rewrite HX]. }
  intros present d1 Hl1%run_later [Hd1 ->].
  apply (spec_try _ _ _ (λ r d2, at_view d2 X None ∧ ∀ o, r = Ok o → o = old)).
  { destruct old as [p|]; [|apply spec_ret; split; [done|]; by intros o <-%(inj Ok)].
    destruct HX as (b & -> & Hb).
    try_then read_pointer_at; [exact Hd1| |by intros e d2 _ [? _]].
    intros bytes d2 _ [Hd2 Hbytes]. specialize (Hbytes bytes eq_refl) as ->.
    unfold validate_runtime_pointer. rewrite Hb. cbn [map_err].
    apply try_pure; [|done]. intros q <-%(inj Ok). apply spec_ret. split; [done|]. by intros o <-%(inj Ok). }
  2: { intros e d2 _ [Hd2 _]. by apply Hundone. }
  intros o d2 Hl2%run_later [Hd2 Ho]. specialize (Ho o eq_refl) as ->.
  rewrite Hver. cbn [map_err]. apply try_pure; [|done]. intros a <-%(inj Ok).
  apply try_pure; [|intros e _; by apply Hundone]. intros x Hx.
  assert (pointer_parse x = Ok new) as Hpx.
  { destruct (pointer_to_bytes new) as [x'|] eqn:E; [|done]. apply (inj Ok) in Hx as <-.
    by apply pointer_parse_written. }
  clear Hx. destruct (receipt_bytes Candidate) as (y & Hy).
  assert (journal_is Candidate (Some (File y))) as Hj by (by exists y).
  assert (pending Candidate X (Some (File y))) as Hpend by (split; [done|by right]).
  assert (pending Candidate (Some (File x)) (Some (File y))) as Hpend'
    by (split; [done|left; by exists x]).
  assert (∀ e d' X', at_view d' X' (Some (File y)) → pending Candidate X' (Some (File y)) →
    activation_outcome d (Err e) defer d') as Hleft.
  { intros e d' X' Hd' HX'. exists X', (Some (File y)). auto. }
  apply (spec_try _ _ _ (λ (r : result unit SetupError) d3,
    match r with Ok _ => at_view d3 X (Some (File y)) | Err _ => at_view d3 X None ∨ at_view d3 X (Some (File y)) end)).
  { apply with_err_spec. unfold write_activation_journal.
    apply try_pure; [|by left]. intros b Hb%(activation_receipt_bytes_Ok Candidate).
    rewrite Hy in Hb. apply (inj Ok) in Hb as <-.
    eapply spec_post; [apply (write_journal_at guarded_transaction); [exact Hd2|by apply settled_guarded|]|].
    - by apply (pending_guarded Candidate).
    - by intros [[]|e] d3 _ Hd3. }
  2: { intros e d3 _ [Hd3|Hd3]; [by apply Hundone|by apply (Hleft e d3 X)]. }
  intros [] d3 Hl3%run_later Hd3.
  apply (spec_try _ _ _ (λ (r : result unit SetupError) d4,
    match r with Ok _ => at_view d4 (Some (File x)) (Some (File y))
    | Err _ => at_view d4 X (Some (File y)) ∨ at_view d4 (Some (File x)) (Some (File y)) end)).
  { apply with_err_spec.
    eapply spec_post; [apply (write_pointer_at guarded_transaction); [exact Hd3|..]|].
    - by apply (pending_guarded Candidate).
    - by apply (pending_guarded Candidate).
    - by intros [[]|e] d4 _ Hd4. }
  2: { intros e d4 _ [Hd4|Hd4]; by eapply Hleft. }
  intros [] d4 Hl4%run_later Hd4.
  eapply spec_bind; [by apply (attempt_at d4 x y)|].
  intros [t|error] d5 _ [Hatt Hok].
  - destruct (Hok eq_refl) as (Hh & (e1 & t' & e2 & e3 & e4 & Hl & Hgone) & Y & Hd5 & HY). apply spec_ret. cbn.
    split_and!; [done|done| |done| |].
    + destruct Hatt as (ph & c & Hd5' & Hc & Hw & _). apply Hw.
      apply (journal_is_inj _ _ Y); [|done]. exists c. split; [done|].
      destruct Hd5 as [_ <-]. by destruct Hd5' as [_ ->].
    + exists e1, t', e2, e3, e4. split; [|done]. do 4 (etrans; [eassumption|]). exact Hl.
    + exists (Some (File x)), Y. split_and!; [done|by exists x|done].
  - eapply spec_bind; [by apply (abandon_at error defer d5 x)|].
    intros e d6 _ Hd6. by apply spec_ret.
Qed.
End Attempt.
(** *** Recovery *)

Section Recovery.
Context (Hmat : framed materialize_active) (Hverify : ∀ v directory, framed (verify v directory)).

(** The activation can only be undone, or only be finished. *)
Definition uncommitted : View := λ X Y, settled old X Y ∨ ∃ ph, ph ≠ Committed ∧ pending ph X Y.
Definition committed : View := λ X Y, pending Committed X Y ∨ settled (Some new) X Y.

Definition installed (p : RuntimePointer) : InstalledRuntime :=
  {| installed_version := version p; service_binary := service_binary_of paths (version p) |}.

Lemma in_transaction_split X Y : in_transaction X Y → uncommitted X Y ∨ pending Committed X Y.
Proof.
  intros [HS|[ph HS]]; [by left; left|]. destruct (decide (ph = Committed)) as [->|Hne].
  - by right.
  - left; right. by exists ph.
Qed.

Lemma validate_pointer_Ok b p : pointer_parse b = Ok p → validate_runtime_pointer b = Ok p.
Proof. unfold validate_runtime_pointer. by intros ->. Qed.

(** [current] answers the runtime the pointer names. *)
Lemma current_at P d o X Y :
  pointer_is o X → at_view d X Y →
  spec P (current paths) (λ r d', at_view d' X Y ∧ ∀ i, r = Ok i → i = option_map installed o) d.
Proof.
  intros HX Hd. unfold current. spec_then path_exists_spec. intros present d1 _ (Hn1 & _ & Hp).
  rewrite (Hp (sees Hsight)). unfold node_exists. rewrite (proj1 Hd).
  assert (at_view d1 X Y) as Hd1 by (by apply (at_view_nodes d)).
  destruct o as [p|]; [destruct HX as (b & -> & Hb)|cbn in HX; subst X].
  - try_then read_pointer_at; [exact Hd1| |by intros e d2 _ [? _]].
    intros bytes d2 _ [Hd2 Hbytes]. specialize (Hbytes bytes eq_refl) as ->.
    rewrite (validate_pointer_Ok _ _ Hb). apply try_pure; [|done]. intros q <-%(inj Ok). cbn zeta.
    try_then reject_reparse_quiet; [|by intros e d3 _ Hn3; split; [apply (at_view_nodes d2)|]].
    intros [] d3 _ Hn3. unfold is_file, fs_metadata.
    eapply spec_bind; [eapply spec_bind; [apply os_read_spec|]|].
    + intros m d4 _ [Hn4 _]. by apply (spec_ret _ _ (λ _ d', nodes d' = nodes d3)).
    + intros regular d4 _ Hn4. cbv beta in Hn4.
      assert (at_view d4 (Some (File b)) Y) by (apply (at_view_nodes d2); [by rewrite Hn4|done]).
      destruct regular; apply spec_ret; (split; [done|]); [|done]. by intros i <-%(inj Ok).
  - apply spec_ret. split; [done|]. by intros i <-%(inj Ok).
Qed.

Lemma current_quiet_at P d X Y : at_view d X Y → spec P (current paths) (λ r d', at_view d' X Y) d.
Proof.
  intros Hd. unfold current. spec_then path_exists_spec. intros present d1 _ (Hn1 & _).
  assert (at_view d1 X Y) as Hd1 by (by apply (at_view_nodes d)).
  destruct present; [|by apply spec_ret].
  try_then read_pointer_quiet; [exact Hd1| |by intros e d2 _ [? _]].
  intros bytes d2 _ [Hd2 _]. apply try_pure; [|done]. intros q _. cbn zeta.
  try_then reject_reparse_quiet; [|by intros e d3 _ Hn3; apply (at_view_nodes d2)].
  intros [] d3 _ Hn3. unfold is_file, fs_metadata.
  eapply spec_bind; [eapply spec_bind; [apply os_read_spec|]|].
  + intros m d4 _ [Hn4 _]. by apply (spec_ret _ _ (λ _ d', nodes d' = nodes d3)).
  + intros regular d4 _ Hn4. cbv beta in Hn4.
    assert (at_view d4 X Y) by (apply (at_view_nodes d2); [by rewrite Hn4|done]).
    by destruct regular; apply spec_ret.
Qed.

Lemma materialize_at S d X Y :
  at_view d X Y → (S : View) X Y → spec (in_view S) materialize_active (λ _ d', at_view d' X Y) d.
Proof. by apply framed_at. Qed.

Lemma verify_and_materialize_at (S : View) role d X Y :
  at_view d X Y → S X Y →
  spec (in_view S) (verify_and_materialize_committed_runtime paths role) (λ _ d', at_view d' X Y) d.
Proof.
  intros Hd HS. unfold verify_and_materialize_committed_runtime.
  try_then current_quiet_at; [exact Hd| |by intros].
  intros [i|] d1 _ Hd1; [|by apply spec_ret].
  destruct (path_parent _) as [directory|]; [|by apply spec_ret].
  apply (spec_try _ _ _ (λ _ d2, at_view d2 X Y)); [|intros [] d2 _ Hd2|by intros].
  - apply with_err_spec. by apply framed_at.
  - try_then materialize_at; [exact Hd2|done| |by intros].
    intros o d3 _ Hd3. by apply spec_ret.
Qed.

Lemma committed_pointer_at P d o X Y :
  pointer_is o X → at_view d X Y →
  spec P (current_pointer_for_committed_recovery paths) (λ r d', at_view d' X Y ∧ ∀ i, r = Ok i → i = o) d.
Proof.
  intros HX Hd. unfold current_pointer_for_committed_recovery.
  eapply spec_bind; [eapply quiet_at; [by apply symlink_metadata_at|exact Hd]|].
  intros [n|e] d1 _ [Hd1 Hx]; rewrite (proj1 Hd) in Hx; clear Hd.
  - subst X. destruct o as [p|]; [destruct HX as (b & [= ->] & Hb)|done].
    try_then with_err_at; [eapply read_pointer_at, Hd1| |by intros e d2 _ [? _]].
    intros bytes d2 _ [Hd2 Hbytes]. specialize (Hbytes bytes eq_refl) as ->.
    rewrite (validate_pointer_Ok _ _ Hb).
    apply (spec_try _ _ _ (λ r d3, at_view d3 (Some (File b)) Y ∧ ∀ q, r = Ok q → q = p)).
    { apply with_err_spec, spec_ret. split; [done|]. by intros q <-%(inj Ok). }
    2: { by intros e d3 _ [? _]. }
    intros q d3 _ [Hd3 Hq]. specialize (Hq q eq_refl) as ->. apply spec_ret. split; [done|].
    by intros i <-%(inj Ok).
  - destruct (not_found e) eqn:Enf; apply spec_ret; (split; [done|]); [|done].
    intros i <-%(inj Ok). specialize (Hx eq_refl) as ->.
    destruct o; [by destruct HX as (? & ? & _)|done].
Qed.

Lemma parsed_receipt ph y :
  receipt_to_bytes (receipt ph) = Ok y → parse_journal y = Ok (Current (receipt ph)).
Proof.
  intros Hy. unfold parse_journal. rewrite (receipt_parse_written (receipt ph)); [done| |done].
  apply receipt_valid.
Qed.

Lemma finish_at (S : View) d X Y :
  at_view d X Y → S X Y → pointer_is (Some new) X →
  spec (in_view S) (finish_committed_activation_recovery paths (Current (receipt Committed)))
    (λ _ d', at_view d' X Y) d.
Proof.
  intros Hd HS HX. unfold finish_committed_activation_recovery. cbn [parsed_activated activated receipt].
  try_then committed_pointer_at; [exact HX|exact Hd| |by intros e d1 _ [? _]].
  intros actual d1 _ [Hd1 Ha]. specialize (Ha actual eq_refl) as ->.
  case_bool_decide; [by apply verify_and_materialize_at|done].
Qed.

Lemma rollback_pointer_at ph d X Y :
  at_view d X Y → pending ph X Y → ph ≠ Committed →
  spec (in_view uncommitted) (rollback_activation_pointer_and_profile paths old (Some new))
    (λ r d', ∃ X', at_view d' X' Y ∧ pending ph X' Y ∧ (r = Ok tt → pointer_is old X')) d.
Proof.
  intros Hd HP Hne. unfold rollback_activation_pointer_and_profile.
  assert (∀ X', pointer_is old X' → pending ph X' Y) as Hback.
  { intros X' HX'. split; [by destruct HP|]. by right. }
  assert (∀ X', pending ph X' Y → uncommitted X' Y) as Hun by (intros X' ?; right; by exists ph).
  apply (spec_try _ _ _ (λ r d1, ∃ X', at_view d1 X' Y ∧ pending ph X' Y ∧ (r = Ok tt → pointer_is old X'))).
  { eapply spec_post; [apply (restore_at uncommitted); [exact Hd|by apply Hun|by auto]|].
    intros r d1 _ [(X' & ? & ?)|[? ?]]; [exists X'; auto|by exists X]. }
  2: { intros e d1 _ (X' & ? & ? & _). by exists X'. }
  intros [] d1 _ (X' & Hd1 & HP' & HX'). specialize (HX' eq_refl).
  destruct old as [p|] eqn:Eo; [rewrite <- Eo in *|by apply spec_ret; exists X'].
  apply (spec_try _ _ _ (λ _ d2, at_view d2 X' Y)).
  - apply framed_at; [done|done|]. by apply Hun.
  - intros o d2 _ Hd2. apply spec_ret. by exists X'.
  - intros e d2 _ Hd2. by exists X'.
Qed.
Lemma finish_recovery_at (S : View) o ph d X Y :
  at_view d X Y → pointer_is o X → journal_is ph Y → S X Y → S X None →
  spec (in_view S)
    (let? recovered := current paths in
     let? _ := remove_activation_journal paths in
     ret (Ok recovered))
    (λ r d', ∀ i, r = Ok i → i = option_map installed o ∧ at_view d' X None) d.
Proof.
  intros Hd HX (y & _ & ->) HS HSn. try_then current_at; [exact HX|exact Hd| |by intros].
  intros i d1 _ [Hd1 Hi]. specialize (Hi i eq_refl).
  try_then (remove_journal_at S); [done|exact Hd1|done|done| |by intros].
  intros [] d2 _ Hd2. apply spec_ret. by intros ? <-%(inj Ok).
Qed.

(** The answer of a recovery that found the old and the new pointer. *)
Definition recovered (o : option RuntimePointer) (r : result (option InstalledRuntime) SetupError)
    (d : Disk) : Prop :=
  ∀ i, r = Ok i → i = option_map installed o ∧ ∃ X, at_view d X None ∧ pointer_is o X.

Lemma journal_exists_at P d X Y :
  at_view d X Y →
  spec P (path_exists journal_path) (λ present d', at_view d' X Y ∧
    present = match Y with Some (Link Dangling) | None => false | Some _ => true end) d.
Proof.
  intros Hd. eapply spec_post; [apply path_exists_spec|]. intros b d' _ (Hn & _ & Hb).
  split; [by apply (at_view_nodes d)|]. rewrite (Hb (sees Hsight)). unfold node_exists.
  by rewrite (proj2 Hd).
Qed.

Lemma recover_settled P o d X :
  at_view d X None → pointer_is o X → spec P (recover paths) (recovered o) d.
Proof.
  intros Hd HX. unfold recover, activation_journal_path.
  spec_then journal_exists_at; [exact Hd|]. intros present d1 _ [Hd1 ->]. cbn [negb].
  eapply spec_post; [by apply (current_at _ _ o X None)|]. intros r d2 _ [Hd2 Hr] i Hi.
  split; [by apply Hr|]. by exists X.
Qed.

(** The receipt is read back as the one that was written. *)
Lemma read_receipt_at P ph d X Y :
  at_view d X Y → journal_is ph Y →
  spec P (let? bytes := read_journal paths in ret (parse_journal bytes))
    (λ r d', at_view d' X Y ∧ ∀ j, r = Ok j → j = Current (receipt ph)) d.
Proof.
  intros Hd (y & Hy & ->). try_then read_journal_at; [exact Hd| |by intros e d1 _ [? _]].
  intros bytes d1 _ [Hd1 Hb]. specialize (Hb bytes eq_refl) as ->. apply spec_ret.
  split; [done|]. rewrite (parsed_receipt ph y Hy). by intros j <-%(inj Ok).
Qed.

Lemma recover_pending (S : View) ph o d X Y :
  at_view d X Y → pending ph X Y →
  (∀ d1, at_view d1 X Y →
    spec (in_view S)
      (if bool_decide (Some ph = Some Committed)
       then finish_committed_activation_recovery paths (Current (receipt ph))
       else rollback_activation_pointer_and_profile paths old (Some new))
      (λ r d', r = Ok tt → ∃ X', at_view d' X' Y ∧ pointer_is o X' ∧ S X' Y ∧ S X' None) d1) →
  spec (in_view S) (recover paths) (recovered o) d.
Proof.
  intros Hd HP Hstep. unfold recover, activation_journal_path. destruct HP as [HJ _].
  spec_then journal_exists_at; [exact Hd|]. intros present d1 _ [Hd1 ->].
  destruct (HJ) as (y & Hy & EY). rewrite EY in Hd1 |- *. cbn [negb].
  try_then read_journal_at; [exact Hd1| |by intros].
  intros bytes d2 _ [Hd2 Hb]. specialize (Hb bytes eq_refl) as ->.
  rewrite (parsed_receipt ph y Hy). apply try_pure; [|by intros]. intros j <-%(inj Ok).
  cbn [parsed_phase parsed_previous parsed_activated receipt with_phase candidate phase previous activated].
  rewrite <- EY in Hd2.
  eapply spec_try; [by apply Hstep|cbv beta|by intros]. intros [] d3 _ (X' & Hd3 & HX' & HS & HSn)%(λ H, H eq_refl).
  eapply spec_post; [by apply (finish_recovery_at S o ph d3 X' Y)|]. intros r d4 _ Hr i Hi.
  destruct (Hr i Hi) as [? ?]. split; [done|]. by exists X'.
Qed.

(** Recovery of an activation that was not committed undoes it, and until it does
    nothing it passes through was committed. *)
Lemma recover_uncommitted_at d X Y :
  at_view d X Y → uncommitted X Y → spec (in_view uncommitted) (recover paths) (recovered old) d.
Proof.
  intros Hd [[-> HX]|(ph & Hne & HP)]; [by apply (recover_settled _ old d X)|].
  apply (recover_pending _ ph _ d X Y Hd HP). intros d1 Hd1.
  rewrite bool_decide_false by congruence.
  eapply spec_post; [by apply (rollback_pointer_at ph d1 X Y)|]. intros r d2 _ (X' & Hd2 & HP' & HX') Hr.
  specialize (HX' Hr). exists X'. split_and!; [done|done|right; by exists ph|by left].
Qed.

(** Recovery of a committed one finishes it. *)
Lemma recover_committed_at d X Y :
  at_view d X Y → committed X Y → spec (in_view committed) (recover paths) (recovered (Some new)) d.
Proof.
  intros Hd [HP|[-> HX]]; [|by apply (recover_settled _ (Some new) d X)].
  apply (recover_pending _ Committed _ d X Y Hd HP). intros d1 Hd1. cbn [bool_decide].
  assert (pointer_is (Some new) X) as HX by (by destruct HP as [_ [?|[? _]]]).
  rewrite bool_decide_true by done.
  eapply spec_post; [apply (finish_at committed d1 X Y); [done|by left|done]|].
  intros r d2 _ Hd2 _. exists X. split_and!; [done|done|by left|by right].
Qed.
(** *** Recovery with the service binding *)

Section Binding.
Context (inspect : option Path → option Path → M Disk (result RuntimeServiceBinding SetupError))
  (restore_binding : Path → option Path → M Disk (result unit SetupError)).
Context (Hinspect : ∀ c p, framed (inspect c p)) (Hrestore : ∀ c p, framed (restore_binding c p)).

Definition binary_of (p : RuntimePointer) : Path := service_binary_of paths (version p).

(** The service control manager answered that the service runs the old binary, or that
    there is no service when there was no old generation. *)
Definition bound_to_old : Prop := ∃ d b d',
  inspect (Some (binary_of new)) (option_map binary_of old) d = Some (Ok b, d') ∧
  (b = PreviousBinding ∧ is_Some old ∨ b = AbsentBinding ∧ old = None ∨
   b = CandidateBinding ∧ option_map binary_of old = Some (binary_of new)).

Definition bound_to_new : Prop := ∃ d d',
  inspect (Some (binary_of new)) (option_map binary_of old) d = Some (Ok CandidateBinding, d').

(** The two files as they were, or the rollback, once the service is bound to the old binary. *)
Definition rolling_back (X0 Y0 : option Node) : View := λ X Y,
  X = X0 ∧ Y = Y0 ∨ uncommitted X Y ∧ bound_to_old.

Lemma verified_binary_at (S : View) o role d X Y :
  at_view d X Y → S X Y →
  spec (in_view S) (verified_binary_of paths o role)
    (λ r d', at_view d' X Y ∧ ∀ b, r = Ok b → b = option_map binary_of o) d.
Proof.
  intros Hd HS. destruct o as [p|]; cbn [verified_binary_of].
  - apply (spec_try _ _ _ (λ r d', at_view d' X Y ∧ ∀ b, r = Ok b → b = binary_of p)).
    + unfold verified_activation_service_binary. cbn zeta.
      apply (spec_try _ _ _ (λ _ d', at_view d' X Y)).
      * apply with_err_spec. by apply framed_at.
      * intros u d1 _ Hd1. apply spec_ret. split; [done|]. by intros b <-%(inj Ok).
      * by intros e d1 _ Hd1.
    + intros b d1 _ [Hd1 Hb]. apply spec_ret. split; [done|]. intros ? <-%(inj Ok). by rewrite (Hb b).
    + by intros e d1 _ [? _].
  - apply spec_ret. split; [done|]. by intros b <-%(inj Ok).
Qed.

Lemma inspect_at (S : View) g c p d X Y :
  at_view d X Y → S X Y →
  spec (in_view S) (with_err g (inspect c p)) (λ r d', at_view d' X Y ∧
    ∀ b, r = Ok b → inspect c p d = Some (Ok b, d')) d.
Proof.
  intros Hd HS. apply with_err_spec. eapply spec_post; [by apply (framed_run _ S)|].
  intros r d' _ [? Hr]. split; [done|]. intros b Hb. destruct r; [|done]. by apply (inj Ok) in Hb as ->.
Qed.

Lemma recover_uncommitted_binding_at ph binding d0 d1 d X Y :
  at_view d X Y → pending ph X Y → ph ≠ Committed →
  inspect (Some (binary_of new)) (option_map binary_of old) d0 = Some (Ok binding, d1) →
  spec (in_view (rolling_back X Y))
    (recover_uncommitted paths inspect restore_binding (Some (binary_of new)) (option_map binary_of old)
       binding old (Some new))
    (λ r d', ∃ X', at_view d' X' Y ∧ pending ph X' Y ∧ (r = Ok tt → pointer_is old X' ∧ bound_to_old)) d.
Proof.
  intros Hd HP Hph Hbinding. unfold recover_uncommitted. cbn zeta.
  set (same := bool_decide (binding = CandidateBinding) && _ && _).
  assert (rolling_back X Y X Y) as Hhere by (by left).
  apply (spec_try _ _ _ (λ (r : result RuntimeServiceBinding SetupError) d2, at_view d2 X Y ∧
    ∀ b, r = Ok b → b = PreviousBinding ∧ is_Some old ∨ b = AbsentBinding ∧ old = None → bound_to_old)).
  - destruct same eqn:Esame.
    { apply spec_ret. split; [done|]. intros b <-%(inj Ok) _. unfold same in Esame.
      apply andb_true_iff in Esame as [[Hb%bool_decide_eq_true _]%andb_true_iff Hsame%bool_decide_eq_true].
      exists d0, binding, d1. split; [done|]. right; right. by rewrite Hb, <- Hsame. }
    case_bool_decide as Hb.
    + apply (spec_try _ _ _ (λ _ d2, at_view d2 X Y)).
      * apply with_err_spec. by apply framed_at.
      * intros [] d2 _ Hd2. eapply spec_post; [by apply (inspect_at (rolling_back X Y))|].
        intros r d3 _ [Hd3 Hr]. split; [done|]. intros b Hb' Hexact. exists d2, b, d3.
        split; [by apply Hr|]. tauto.
      * by intros e d2 _ Hd2.
    + apply spec_ret. split; [done|]. intros b <-%(inj Ok) Hexact. exists d0, binding, d1. split; [done|]. tauto.
  - intros b d2 _ [Hd2 Hbound]. specialize (Hbound b eq_refl).
    assert (match b, option_map binary_of old with
      | PreviousBinding, Some _ | AbsentBinding, None => true | _, _ => false end = true → bound_to_old) as Hexact.
    { destruct b, old; cbn [option_map]; try done; intros _; apply Hbound; eauto. }
    destruct (match b, option_map binary_of old with
      | PreviousBinding, Some _ | AbsentBinding, None => true | _, _ => false end); cbn [negb].
    + specialize (Hexact eq_refl).
      eapply spec_mono; [by apply (rollback_pointer_at ph d2 X Y)| |].
      * intros n Hn. right. by split.
      * intros r d3 _ (X' & ? & ? & HX'). exists X'. split_and!; [done|done|]. intros Hr. by split; [apply HX'|].
    + apply spec_ret. by exists X.
  - intros e d2 _ [Hd2 _]. by exists X.
Qed.

Lemma recover_binding_settled P o d X :
  at_view d X None → pointer_is o X →
  spec P (recover_with_service_binding paths inspect restore_binding) (recovered o) d.
Proof.
  intros Hd HX. unfold recover_with_service_binding, activation_journal_path.
  spec_then journal_exists_at; [exact Hd|]. intros present d1 _ [Hd1 ->]. cbn [negb].
  eapply spec_post; [by apply (current_at _ _ o X None)|]. intros r d2 _ [Hd2 Hr] i Hi.
  split; [by apply Hr|]. by exists X.
Qed.

Lemma require_pointer_at P o role d X Y :
  pointer_is o X → at_view d X Y →
  spec P (require_activation_pointer paths new role) (λ _ d', at_view d' X Y) d.
Proof.
  intros HX Hd. unfold require_activation_pointer.
  try_then committed_pointer_at; [exact HX|exact Hd| |by intros e d1 _ [? _]].
  intros a d1 _ [Hd1 _]. by case_bool_decide; apply spec_ret.
Qed.

(** The common beginning: the receipt is read, both generations verified and the
    service inspected; [S] then holds of the rest. *)
Lemma recover_binding_pending (S : View) ph o (Q : Prop) d X Y :
  at_view d X Y → pending ph X Y → S X Y →
  (∀ d0 d1 d2 binding, at_view d2 X Y →
    inspect (Some (binary_of new)) (option_map binary_of old) d0 = Some (Ok binding, d1) →
    spec (in_view S)
      (match ph with
       | Committed =>
           let? _ := require_activation_pointer paths new "committed candidate" in
           if bool_decide (binding ≠ CandidateBinding) then
             ret (Err (CleanupUnknown
               "committed runtime activation is not bound to the candidate SCM image"))
           else finish_committed_activation_recovery paths (Current (receipt ph))
       | Candidate | RollbackRequired =>
           recover_uncommitted paths inspect restore_binding (Some (binary_of new))
             (option_map binary_of old) binding old (Some new)
       end)
      (λ r d', r = Ok tt → ∃ X', at_view d' X' Y ∧ pointer_is o X' ∧ S X' Y ∧ S X' None ∧ Q) d2) →
  spec (in_view S) (recover_with_service_binding paths inspect restore_binding)
    (λ r d', recovered o r d' ∧ (is_ok r = true → Q)) d.
Proof.
  intros Hd HP HS Hstep. unfold recover_with_service_binding, activation_journal_path. destruct HP as [HJ _].
  spec_then journal_exists_at; [exact Hd|]. intros present d1 _ [Hd1 ->].
  destruct (HJ) as (y & Hy & EY). rewrite EY in Hd1 |- *. cbn [negb].
  try_then read_journal_at; [exact Hd1| |by intros; split].
  intros bytes d2 _ [Hd2 Hb]. specialize (Hb bytes eq_refl) as ->.
  rewrite (parsed_receipt ph y Hy). apply try_pure; [|by intros; split]. intros j <-%(inj Ok).
  cbn [parsed_phase parsed_previous parsed_activated receipt with_phase candidate phase previous activated].
  apply try_pure; [|by intros; split]. intros a <-%(inj Ok). rewrite <- EY in Hd2.
  try_then (verified_binary_at S (Some new)); [exact Hd2|done| |by intros; split].
  intros c d3 _ [Hd3 Hc]. specialize (Hc c eq_refl) as ->.
  try_then (verified_binary_at S old); [exact Hd3|done| |by intros; split].
  intros p d4 _ [Hd4 Hp]. specialize (Hp p eq_refl) as ->.
  try_then (inspect_at S); [exact Hd4|done| |by intros; split].
  intros binding d5 _ [Hd5 Hbinding]. specialize (Hbinding binding eq_refl).
  eapply spec_try; [|cbv beta|by intros; split].
  { specialize (Hstep d4 d5 d5 binding Hd5 Hbinding). destruct ph; exact Hstep. }
  intros [] d6 _ (X' & Hd6 & HX' & HS1 & HS2 & HQ)%(λ H, H eq_refl).
  eapply spec_post; [by apply (finish_recovery_at S o ph d6 X' Y)|]. intros r d7 _ Hr. split; [|done].
  intros i Hi. destruct (Hr i Hi) as [? ?]. split; [done|]. by exists X'.
Qed.

(** Undoing waits for the service: nothing changes before it is bound to the old binary. *)
Lemma recover_binding_uncommitted_at d X Y :
  at_view d X Y → uncommitted X Y →
  spec (in_view (λ X' Y', rolling_back X Y X' Y'))
    (recover_with_service_binding paths inspect restore_binding)
    (λ r d', recovered old r d' ∧ (is_ok r = true → settled old X Y ∨ bound_to_old)) d.
Proof.
  intros Hd [HS|(ph & Hne & HP)].
  - eapply spec_post; [by destruct HS as [-> HX]; apply (recover_binding_settled _ old d X)|].
    intros r d' _ ?. split; [done|]. by left.
  - apply (recover_binding_pending _ ph _ _ d X Y Hd HP); [by left|].
    intros d0 d1 d2 binding Hd2 Hbinding.
    assert (spec (in_view (rolling_back X Y))
      (recover_uncommitted paths inspect restore_binding (Some (binary_of new)) (option_map binary_of old)
         binding old (Some new))
      (λ r d', r = Ok tt → ∃ X', at_view d' X' Y ∧ pointer_is old X' ∧ rolling_back X Y X' Y ∧
         rolling_back X Y X' None ∧ (settled old X Y ∨ bound_to_old)) d2) as Hspec.
    { eapply spec_post; [by apply (recover_uncommitted_binding_at ph binding d0 d1 d2 X Y)|].
      intros r d3 _ (X' & Hd3 & HP' & HX') Hr. destruct (HX' Hr) as [Ho Hbo]. exists X'.
      split_and!; [done|done| | |by right].
      - right. split; [|done]. right. by exists ph.
      - right. split; [|done]. by left. }
    by destruct ph.
Qed.

Lemma recover_binding_committed_at d X Y :
  at_view d X Y → committed X Y →
  spec (in_view committed) (recover_with_service_binding paths inspect restore_binding)
    (λ r d', recovered (Some new) r d' ∧ (is_ok r = true → Y = None ∨ bound_to_new)) d.
Proof.
  intros Hd [HP|[-> HX]].
  2: { eapply spec_post; [by apply (recover_binding_settled _ (Some new) d X)|].
       intros r d' _ ?. split; [done|]. by left. }
  assert (pointer_is (Some new) X) as HX by (by destruct HP as [_ [?|[? _]]]).
  apply (recover_binding_pending _ Committed _ _ d X Y Hd HP); [by left|].
  intros d0 d1 d2 binding Hd2 Hbinding.
  apply (spec_try _ _ _ (λ _ d3, at_view d3 X Y)); [by apply (require_pointer_at _ (Some new))| |by intros].
  intros [] d3 _ Hd3. case_bool_decide as Hb; [by apply spec_ret|].
  assert (binding = CandidateBinding) as -> by (by destruct (decide (binding = CandidateBinding))).
  eapply spec_post; [apply (finish_at committed d3 X Y); [done|by left|done]|].
  intros r d4 _ Hd4 _. exists X. split_and!; [done|done|by left|by right|right; by exists d0, d1].
Qed.
End Binding.

(** *** Finalizing *)

Lemma finalize_at {T : Type} (t : T) d X Y :
  (∀ o v, framed (retain o v)) →
  at_view d X Y → pointer_is (Some new) X → journal_is Committed Y →
  spec (in_view committed)
    (finalize paths {| previous_pointer := old; activated_pointer := new; prepared := t |})
    (λ r d', ∃ Y', at_view d' X Y' ∧ committed X Y' ∧ ∀ t', r = Ok t' → t' = t) d.
Proof.
  intros Hretain Hd HX HJ. unfold finalize, finalize_committed_activation.
  cbn [previous_pointer activated_pointer prepared].
  assert (committed X Y) as HC by (left; split; [done|by left]).
  assert (committed X None) as HN by (by right).
  destruct (HJ) as (y & Hy & EY).
  apply (spec_try _ _ _ (λ r d1, (r = Ok true ∧ at_view d1 X None) ∨ (r ≠ Ok true ∧ ∃ Y', at_view d1 X Y' ∧ committed X Y'))).
  - apply try_pure; [|intros e _; right; split; [done|by exists Y]].
    intros b Hb%(activation_receipt_bytes_Ok Committed). rewrite Hy in Hb. apply (inj Ok) in Hb as <-.
    subst Y. try_then verify_exact_at; [exact Hd| |intros e d1 _ [? _]; right; split; [done|]; by eexists].
    intros [] d1 _ [Hd1 _]. eapply spec_bind; [by apply (remove_journal_at committed)|].
    intros [[]|e] d2 _ Hd2; [apply spec_ret; by left|].
    apply (spec_try _ _ _ (λ _ d3, ∃ Y', at_view d3 X Y' ∧ committed X Y')).
    + apply with_err_spec. destruct Hd2 as [Hd2|Hd2].
      * eapply spec_post; [by eapply verify_exact_at|]. intros r d3 _ [? _]. by eexists.
      * unfold verify_exact_activation_receipt.
        apply (spec_try _ _ _ (λ _ d3, at_view d3 X None)).
        -- eapply spec_post; [apply read_bounded_quiet|]. intros r d3 _ [? _]. by apply (at_view_nodes d2).
        -- intros bytes d3 _ ?. by case_bool_decide; apply spec_ret; exists None.
        -- intros e' d3 _ ?. by exists None.
    + intros [] d3 _ ?. apply spec_ret. by right.
    + intros e' d3 _ ?. by right.
  - intros removed d1 _ [[[= ->] Hd1]|[Hr (Y' & Hd1 & HC1)]].
    + eapply spec_bind; [by apply (framed_at _ committed)|]. intros u d2 _ Hd2. apply spec_ret.
      exists None. split_and!; [done|done|]. by intros t' <-%(inj Ok).
    + destruct removed; [done|]. apply spec_ret. exists Y'. split_and!; [done|done|]. by intros t' <-%(inj Ok).
  - intros e d1 _ [[? _]|[_ (Y' & ? & ?)]]; [done|]. by exists Y'.
Qed.
End Recovery.
End Activation.
End Views.
