(* ===== verification/ActivationSafety.v ===== *)
(** * Interrupted and failed activations

    What [activation_transaction.rs] and [journal/recovery.rs] promise together: an
    activation that is cut off anywhere, and whose recovery is cut off anywhere any
    number of times, ends at the old generation or at a prepared and committed new
    one.  The store of generations and the profile bridge are [RuntimeServices] that
    leave the pointer and the receipt alone ([framed]). *)

From S2P Require Export ActivationFacts.

Section Interruptions.
Context `{ActivationJsonLaws} (program_files program_data : Path).
Notation paths := (machine_layout program_files program_data).

(** Each run is in a world of its own, which also decides what the store of
    generations and the profile bridge do. *)
Context (services : World → RuntimeServices).

Definition truthful_world (w : World) : Prop := @truthful w.

Definition services_framed : Prop := ∀ w, truthful_world w →
  framed program_files program_data (@materialize_active (services w)) ∧
  (∀ v directory, framed program_files program_data (@verify (services w) v directory)) ∧
  (∀ o v, framed program_files program_data (@retain (services w) o v)).

(** One activation. *)
Context (old : option RuntimePointer) (new : RuntimePointer).
Context (first : World) {T : Type} (binary : Path) (prepare : Path → M Disk (result T SetupError))
  (health_check : Path → T → M Disk (result unit SetupError)) (defer : bool).

Definition activation : M Disk (result (ActivatedRuntime T) SetupError) :=
  @activate first _ (services first) paths T (version new) binary prepare health_check defer.

Record activation_setting : Prop := {
  setting_world : truthful_world first;
  setting_services : services_framed;
  setting_prepare : framed program_files program_data (prepare binary);
  setting_health : ∀ t, framed program_files program_data (health_check binary t);
  setting_old : optional_pointer_invalid old = false;
  setting_new : new_pointer (version new) = Ok new
}.

Notation view_of S := (in_view program_files program_data S).
Notation prepared_before := (was_prepared program_files program_data old new binary prepare).
Notation healthy_before := (was_healthy program_files program_data old new binary health_check).

(** The disk states that interruptions of the activation from [start] leave: those of
    the activation, of the finalizing after its success, and of any number of
    recoveries that are cut off in their turn. *)
Inductive reached (start : Nodes) : Nodes → Prop :=
| reached_start : reached start start
| reached_activation d r d' m :
    nodes d = start → activation d = Some (r, d') → visited d d' m → reached start m
| reached_finalize d a d1 r d' m :
    nodes d = start → activation d = Some (Ok a, d1) →
    @finalize first _ (services first) paths T a d1 = Some (r, d') → visited d1 d' m → reached start m
| reached_recovery (w : World) m d r d' m' :
    reached start m → truthful_world w → nodes d = m →
    @recover w _ (services w) paths d = Some (r, d') → visited d d' m' → reached start m'.

Context (Hsetting : activation_setting).

Lemma setting_new_valid : pointer_validate new = true.
Proof. apply (new_pointer_valid (version new)), Hsetting. Qed.

Definition decided : View := λ X Y,
  uncommitted old new X Y ∨ committed old new X Y ∧ prepared_before.

Lemma guarded_decided X Y :
  guarded_transaction program_files program_data old new binary prepare X Y → decided X Y.
Proof.
  intros [HS Hw]. apply in_transaction_split in HS as [?|HP]; [by left|].
  right. split; [by left|]. apply Hw, HP.
Qed.

Lemma activation_spec d :
  view_of (settled old) (nodes d) →
  spec (view_of (guarded_transaction program_files program_data old new binary prepare)) activation
    (λ r d', activation_outcome program_files program_data old new binary prepare health_check d r defer d') d.
Proof.
  intros [HJ HX]. destruct Hsetting as [Hw Hs Hp Hh Ho Hn]. destruct (Hs first Hw) as (? & ? & ?).
  eapply (@activate_at first _ _ (services first)); try eassumption; [apply setting_new_valid|by split].
Qed.

Lemma finalize_spec d a d1 :
  view_of (settled old) (nodes d) → activation d = Some (Ok a, d1) →
  spec (view_of (committed old new)) (@finalize first _ (services first) paths T a)
    (λ r d', ∃ X, pointer_is (Some new) X ∧ (∃ Y, at_view program_files program_data d' X Y ∧ committed old new X Y) ∧
       ∀ t, r = Ok t → t = prepared a) d1.
Proof.
  intros Hd Ha. destruct (spec_result _ _ _ _ _ _ (activation_spec d Hd) Ha) as [_ Hout].
  destruct Hsetting as [Hw Hs Hp Hh Ho Hn]. destruct (Hs first Hw) as (Hm & Hv & Hr).
  destruct a as [o n t]. cbn in Hout. destruct Hout as (-> & -> & _ & _ & _ & X & Y & Hd1 & HX & HJ).
  eapply spec_post; [by eapply (@finalize_at first _ (services first))|].
  intros r d' _ (Y' & ? & ? & ?). exists X. split_and!; [done|by exists Y'|done].
Qed.

(** Every state is still, or finally, on one side. *)
Lemma reached_decided start m :
  view_of (settled old) start → reached start m → view_of decided m.
Proof.
  intros Hstart. induction 1 as [|d r d' m Hd Ha Hm|d a d1 r d' m Hd Ha Hf Hm|w m d r d' m' Hreach IH Hw Hd Hr Hm].
  - by left; left.
  - apply guarded_decided. subst start.
    destruct (spec_result _ _ _ _ _ _ (activation_spec d Hstart) Ha) as [Hrun _].
    by apply (run_visited _ _ _ _ Hrun).
  - subst start. right. split.
    + destruct (spec_result _ _ _ _ _ _ (finalize_spec d a d1 Hstart Ha) Hf) as [Hrun _].
      by apply (run_visited _ _ _ _ Hrun).
    + destruct (spec_result _ _ _ _ _ _ (activation_spec d Hstart) Ha) as [_ Hout].
      by apply Hout.
  - destruct Hsetting as [_ Hs _ _ Ho _]. destruct (Hs w Hw) as (Hmat & Hver & _). subst m.
    destruct IH as [HU|[HC Hprep]].
    + left. assert (spec (view_of (uncommitted old new)) (@recover w _ (services w) paths)
        (recovered program_files program_data old) d) as Hspec
        by (eapply (@recover_uncommitted_at w _ _ (services w)); try done; apply setting_new_valid).
      destruct (spec_result _ _ _ _ _ _ Hspec Hr) as [Hrun _]. by apply (run_visited _ _ _ _ Hrun).
    + right. split; [|done].
      assert (spec (view_of (committed old new)) (@recover w _ (services w) paths)
        (recovered program_files program_data (Some new)) d) as Hspec
        by (eapply (@recover_committed_at w _ _ (services w)); try done; apply setting_new_valid).
      destruct (spec_result _ _ _ _ _ _ Hspec Hr) as [Hrun _]. by apply (run_visited _ _ _ _ Hrun).
Qed.

Lemma recovery_spec (w : World) d :
  truthful_world w → view_of decided (nodes d) →
  ∃ r d', @recover w _ (services w) paths d = Some (r, d') ∧
    (view_of (uncommitted old new) (nodes d) ∧ recovered program_files program_data old r d' ∨
     prepared_before ∧ recovered program_files program_data (Some new) r d').
Proof.
  intros Hw HD. destruct Hsetting as [_ Hs _ _ Ho _]. destruct (Hs w Hw) as (Hmat & Hver & _).
  destruct HD as [HU|[HC Hprep]].
  - assert (spec (view_of (uncommitted old new)) (@recover w _ (services w) paths)
      (recovered program_files program_data old) d) as Hspec
      by (eapply (@recover_uncommitted_at w _ _ (services w)); try done; apply setting_new_valid).
    destruct (spec_runs _ _ _ _ Hspec) as (r & d' & E & _ & HQ). exists r, d'. auto.
  - assert (spec (view_of (committed old new)) (@recover w _ (services w) paths)
      (recovered program_files program_data (Some new)) d) as Hspec
      by (eapply (@recover_committed_at w _ _ (services w)); try done; apply setting_new_valid).
    destruct (spec_runs _ _ _ _ Hspec) as (r & d' & E & _ & HQ). exists r, d'. auto.
Qed.

Lemma both_sides X Y : uncommitted old new X Y → committed old new X Y → old = Some new.
Proof.
  assert (∀ ph o, journal_is old new ph Y → settled o X Y → False) as Hsep.
  { intros ph o (b & _ & Hb) [HY _]. by rewrite HY in Hb. }
  intros [HS|(ph & Hph & HP)] [HC|HC].
  - destruct (Hsep Committed old); [apply HC|done].
  - destruct HS as [_ HX], HC as [_ HX']. destruct HX' as (b & -> & Hb). destruct old as [p|].
    + destruct HX as (b' & [= <-] & Hb'). rewrite Hb in Hb'. by apply (inj Ok) in Hb' as ->.
    + discriminate HX.
  - destruct Hph. destruct HP as [HJ _], HC as [HJ' _].
    apply (journal_is_inj old new) with Y; [apply Hsetting|apply setting_new_valid|done|done].
  - destruct (Hsep ph (Some new)); [apply HP|done].
Qed.
End Interruptions.

(** ** An example *)

Lemma framed_ret {A} program_files program_data (a : A) : framed program_files program_data (ret a).
Proof. intros d X Y _. by apply spec_ret. Qed.

Definition example_services : RuntimeServices := {|
  verify _ _ := ret (Ok tt);
  retain _ _ := ret (Ok tt);
  materialize_active := ret (Ok None)
|}.

Definition example_old : RuntimePointer := {| pointer_schema := 1; version := "1.0.0" |}.
Definition example_new : RuntimePointer := {| pointer_schema := 1; version := "1.1.0" |}.
Definition example_files : Path := ["C:"; "Program Files"].
Definition example_data : Path := ["C:"; "ProgramData"].

Definition example_binary : Path :=
  service_binary_of (machine_layout example_files example_data) "1.1.0".

(** The old generation is active; the binaries of both are in place. *)
Definition example_start : Nodes :=
  let paths := machine_layout example_files example_data in
  <[ runtime_pointer paths := File (str_bytes "1.0.0") ]>
  (<[ service_binary_of paths "1.0.0" := File (str_bytes "MZ") ]>
   {[ example_binary := File (str_bytes "MZ") ]}).

Lemma example_truthful : truthful_world example_world.
Proof. split; [done|]. by intros e (n & [?|(k & ?)]). Qed.

Lemma example_setting :
  activation_setting example_files example_data (λ _, example_services) (Some example_old) example_new
    example_world example_binary (λ _, ret (Ok 5)) (λ _ _, ret (Ok tt)).
Proof.
  split; [exact example_truthful| |apply framed_ret|intros; apply framed_ret|done|done].
  intros w _. split_and!; intros; apply framed_ret.
Qed.

Lemma example_settled :
  in_view example_files example_data (settled (Some example_old)) example_start.
Proof. split; [by vm_compute|]. exists (str_bytes "1.0.0"). split; by vm_compute. Qed.

(** ** Properties *)

Section Properties.
Context `{ActivationJsonLaws} (program_files program_data : Path) (services : World → RuntimeServices).
Context (old : option RuntimePointer) (new : RuntimePointer) (first : World) {T : Type} (binary : Path).
Context (prepare : Path → M Disk (result T SetupError)).
Context (health_check : Path → T → M Disk (result unit SetupError)) (defer : bool).
Notation paths := (machine_layout program_files program_data).
Notation view_of S := (in_view program_files program_data S).

(** The transaction that activates a runtime generation always ends, and whatever
    fails on the way, every state it passes through has either no receipt and the
    old pointer, or a receipt with both generations; a committed receipt stands next
    to the new pointer and only after the preparation succeeded.  Success means that
    the health check passed while the commitment was on the disk, and leaves it
    there.  A failure leaves the old generation without a receipt, or a candidate or
    rollback-required receipt for the recovery; when the rollback was not deferred
    the latter is reported as a failed rollback, and only the error "cleanup
    unknown" can leave anything else. *)
Theorem activation_is_journaled d
  (Hsetting : activation_setting program_files program_data services old new first binary prepare health_check)
  (Hstart : view_of (settled old) (nodes d)) :
  ∃ r d',
    @activate first _ (services first) paths T (version new) binary prepare health_check defer d =
      Some (r, d') ∧
    (∀ m, visited d d' m →
      view_of (λ X Y, settled old X Y ∨ ∃ ph, journal_is old new ph Y ∧
        (pointer_is (Some new) X ∨ ph ≠ Committed ∧ pointer_is old X) ∧
        (ph = Committed → was_prepared program_files program_data old new binary prepare)) m) ∧
    match r with
    | Ok a =>
        previous_pointer a = old ∧ activated_pointer a = new ∧
        was_healthy program_files program_data old new binary health_check ∧
        view_of (λ X Y, pointer_is (Some new) X ∧ journal_is old new Committed Y) (nodes d')
    | Err e =>
        view_of (λ X Y, settled old X Y ∨ pending old new Candidate X Y ∨
          (pending old new RollbackRequired X Y ∧ (defer = true ∨ ∃ a b, e = RollbackFailed a b)) ∨
          ∃ message, e = CleanupUnknown message) (nodes d')
    end.
Proof.
  destruct (spec_runs _ _ _ _ (activation_spec _ _ services old new first binary prepare health_check
    defer Hsetting d Hstart)) as (r & d' & E & Hrun & Hout).
  exists r, d'. split_and!; [exact E| |].
  - intros m Hm. destruct (run_visited _ _ _ _ Hrun Hm) as [[HS|[ph [HJ HX]]] Hc]; [by left|].
    right. exists ph. split_and!; [done|done|]. intros ->. by apply Hc.
  - destruct r as [a|e].
    + destruct Hout as (? & ? & _ & ? & _ & X & Y & [<- <-] & ? & ?). by split_and!.
    + destruct Hout as (X & Y & [<- <-] & Hout). exact Hout.
Qed.

(** C2. However an activation is interrupted, recovery resolves it: from every state
    the activation, its finalizing or any number of interrupted recoveries passed
    through, recovery ends, and when it reports success the receipt is gone and the
    pointer names either the old generation or the new one, the new one only if its
    preparation had succeeded; the answer is the runtime the pointer names.  A
    commitment is never undone.  No look at the disk is taken to say by mistake that
    something is missing. *)
Theorem interrupted_activation_resolves start m (w : World) d
  (Hsetting : activation_setting program_files program_data services old new first binary prepare health_check)
  (Hstart : view_of (settled old) start)
  (Hreached : reached program_files program_data services new first binary prepare health_check defer
                start m)
  (Hw : truthful_world w) (Hd : nodes d = m) :
  ∃ r d', @recover w _ (services w) paths d = Some (r, d') ∧
    ∀ i, r = Ok i → ∃ o,
      (o = old ∨ o = Some new ∧ was_prepared program_files program_data old new binary prepare) ∧
      (view_of (committed old new) m → o = Some new) ∧
      i = option_map (installed program_files program_data) o ∧
      view_of (λ X Y, pointer_is o X ∧ Y = None) (nodes d').
Proof.
  subst m. pose proof (reached_decided _ _ services old new first binary prepare health_check defer
    Hsetting start (nodes d) Hstart Hreached) as HD.
  destruct (recovery_spec _ _ services old new first binary prepare health_check Hsetting w d Hw HD)
    as (r & d' & E & Hout).
  exists r, d'. split; [exact E|]. intros i Hi. destruct Hout as [[HU Hout]|[Hprep Hout]];
    destruct (Hout i Hi) as (? & X & [<- <-] & ?).
  - exists old. split; [by left|]. split; [|by split_and!]. intros HC.
    by apply (both_sides _ _ services old new first binary prepare health_check Hsetting _ _ HU HC).
  - exists (Some new). split; [by right|]. by split_and!.
Qed.
(** C3. Recovery with the service binding: from every state an interrupted activation
    left, it ends.  If the activation was not committed, neither file changes before
    the service control manager has answered that the service runs the old binary (or
    that there is none, when there was no old generation), and success means just
    that, the old pointer and no receipt.  If it was committed, success means that the
    service was found running the new binary, the new pointer and no receipt, and no
    state on the way has any other pointer.  No look at the disk is taken to say by
    mistake that something is missing. *)
Theorem binding_recovery_is_ordered start d (w : World)
  (inspect : option Path → option Path → M Disk (result RuntimeServiceBinding SetupError))
  (restore : Path → option Path → M Disk (result unit SetupError))
  (Hsetting : activation_setting program_files program_data services old new first binary prepare health_check)
  (Hstart : view_of (settled old) start)
  (Hreached : reached program_files program_data services new first binary prepare health_check defer
                start (nodes d))
  (Hw : truthful_world w)
  (Hinspect : ∀ c p, framed program_files program_data (inspect c p))
  (Hrestore : ∀ c p, framed program_files program_data (restore c p)) :
  let bound_old := bound_to_old program_files program_data old new inspect in
  let bound_new := bound_to_new program_files program_data old new inspect in
  let X := nodes d !! runtime_pointer paths in
  let Y := nodes d !! runtime_activation_journal paths in
  ∃ r d', @recover_with_service_binding w _ (services w) paths inspect restore d = Some (r, d') ∧
    ((uncommitted old new X Y ∧
      (∀ m, visited d d' m → view_of (λ X' Y', X' = X ∧ Y' = Y ∨ uncommitted old new X' Y' ∧ bound_old) m) ∧
      (is_ok r = true → (settled old X Y ∨ bound_old) ∧ view_of (settled old) (nodes d')))
     ∨ (committed old new X Y ∧ was_prepared program_files program_data old new binary prepare ∧
        (∀ m, visited d d' m → view_of (committed old new) m) ∧
        (is_ok r = true → (Y = None ∨ bound_new) ∧ view_of (settled (Some new)) (nodes d')))).
Proof.
  cbn zeta. pose proof (reached_decided _ _ services old new first binary prepare health_check defer
    Hsetting start (nodes d) Hstart Hreached) as HD.
  pose proof (setting_new_valid _ _ _ _ _ _ _ _ _ Hsetting) as Hnew.
  destruct Hsetting as [_ Hs _ _ Ho _]. destruct (Hs w Hw) as (Hmat & Hver & _).
  assert (∀ o (r : result (option InstalledRuntime) SetupError) d', is_ok r = true →
    recovered program_files program_data o r d' → view_of (settled o) (nodes d')) as Hsettled.
  { intros o [i|] d' Hok Hr; [|done]. destruct (Hr i eq_refl) as (_ & X & [<- Hnone] & HX). by split. }
  destruct HD as [HU|[HC Hprep]].
  - assert (spec (view_of (rolling_back program_files program_data old new inspect _ _))
      (@recover_with_service_binding w _ (services w) paths inspect restore) _ d) as Hspec
      by (eapply (@recover_binding_uncommitted_at w); try done; by split).
    destruct (spec_runs _ _ _ _ Hspec) as (r & d' & E & Hrun & Hout). exists r, d'. split; [exact E|]. left.
    split_and!; [done|intros m Hm; by apply (run_visited _ _ _ _ Hrun)|].
    intros Hok. split; [by apply Hout|]. by apply (Hsettled old r); [|apply Hout].
  - assert (spec (view_of (committed old new))
      (@recover_with_service_binding w _ (services w) paths inspect restore) _ d) as Hspec
      by (eapply (@recover_binding_committed_at w); try done; by split).
    destruct (spec_runs _ _ _ _ Hspec) as (r & d' & E & Hrun & Hout). exists r, d'. split; [exact E|]. right.
    split_and!; [done|done|intros m Hm; by apply (run_visited _ _ _ _ Hrun)|].
    intros Hok. split; [by apply Hout|]. by apply (Hsettled (Some new) r); [|apply Hout].
Qed.
End Properties.

Definition example_activation : M Disk (result (ActivatedRuntime nat) SetupError) :=
  @activate example_world _ example_services (machine_layout example_files example_data) nat
    "1.1.0" example_binary (λ _, ret (Ok 5)) (λ _ _, ret (Ok tt)) false.

Lemma example_activation_succeeds :
  option_map (λ x, is_ok (fst x)) (example_activation (disk_of example_start)) = Some true.
Proof. vm_compute. reflexivity. Qed.

Lemma activation_is_journaled_witness :
  ∃ r d', example_activation (disk_of example_start) = Some (r, d') ∧ is_ok r = true.
Proof.
  destruct (activation_is_journaled example_files example_data (λ _, example_services)
    (Some example_old) example_new example_world example_binary (λ _, ret (Ok 5)) (λ _ _, ret (Ok tt))
    false (disk_of example_start) example_setting example_settled) as (r & d' & E & _).
  exists r, d'. split; [exact E|]. pose proof example_activation_succeeds as Hok.
  unfold example_activation in Hok. cbn [version example_new] in E. rewrite E in Hok. by injection Hok.
Defined.

Definition example_recovery : M Disk (result (option InstalledRuntime) SetupError) :=
  @recover example_world _ example_services (machine_layout example_files example_data).

(** An activation whose preparation fails and whose rollback is left to the recovery. *)
Definition failing_activation : M Disk (result (ActivatedRuntime nat) SetupError) :=
  activation example_files example_data (λ _, example_services) example_new example_world example_binary
    (λ _, ret (Err InvalidMetadata)) (λ _ _, ret (Ok tt)) true.

Lemma failing_setting :
  activation_setting example_files example_data (λ _, example_services) (Some example_old) example_new
    example_world example_binary (λ _, ret (Err InvalidMetadata) : M Disk (result nat SetupError))
    (λ _ _, ret (Ok tt)).
Proof.
  split; [exact example_truthful| |apply framed_ret|intros; apply framed_ret|done|done].
  intros w _. split_and!; intros; apply framed_ret.
Qed.

Definition recovered_version (x : option (result (ActivatedRuntime nat) SetupError * Disk)) : option string :=
  match x with
  | Some (Err _, d) =>
      if length (history d) =? 1 then None
      else match example_recovery (disk_of (nodes d)) with
           | Some (Ok (Some i), _) => Some (installed_version i)
           | _ => None
           end
  | _ => None
  end.

Lemma example_recovery_restores :
  recovered_version (failing_activation (disk_of example_start)) = Some "1.0.0".
Proof. vm_compute. reflexivity. Qed.

Lemma run_ends P d d' : run P d d' → length (history d') ≠ length (history d) → visited d d' (nodes d').
Proof.
  intros (states & Hh & _ & Hn & _) Hlen. exists states. split; [done|]. rewrite Hn.
  destruct states; [by rewrite Hh in Hlen|]. left.
Qed.

Lemma failing_activation_reached e d :
  failing_activation (disk_of example_start) = Some (Err e, d) → (length (history d) =? 1) = false →
  reached example_files example_data (λ _, example_services) example_new example_world example_binary
    (λ _, ret (Err InvalidMetadata) : M Disk (result nat SetupError)) (λ _ _, ret (Ok tt)) true example_start (nodes d).
Proof.
  intros E Elen. unfold failing_activation in E.
  pose proof (activation_spec example_files example_data (λ _, example_services)
    (Some example_old) example_new example_world example_binary (λ _, ret (Err InvalidMetadata) : M Disk (result nat SetupError))
    (λ _ _, ret (Ok tt)) true failing_setting (disk_of example_start) example_settled) as Hspec.
  destruct (spec_result _ _ _ _ _ _ Hspec E) as [Hrun _].
  refine (reached_activation _ _ _ _ _ _ _ _ _ _ _ _ _ _ eq_refl E (run_ends _ _ _ Hrun _)).
  by apply Nat.eqb_neq.
Qed.

Lemma interrupted_activation_resolves_witness :
  ∃ e d r d', failing_activation (disk_of example_start) = Some (Err e, d) ∧
    example_recovery (disk_of (nodes d)) = Some (r, d') ∧ is_ok r = true.
Proof.
  pose proof example_recovery_restores as Hok.
  destruct (failing_activation (disk_of example_start)) as [[[|e] d]|] eqn:E; try discriminate Hok.
  cbn [recovered_version] in Hok. destruct (length (history d) =? 1) eqn:Elen; [discriminate Hok|].
  destruct (interrupted_activation_resolves example_files example_data (λ _, example_services)
    (Some example_old) example_new example_world example_binary (λ _, ret (Err InvalidMetadata))
    (λ _ _, ret (Ok tt)) true
    example_start (nodes d) example_world (disk_of (nodes d)) failing_setting example_settled
    (failing_activation_reached e d E Elen) example_truthful eq_refl) as (r & d' & E' & _).
  exists e, d, r, d'. split; [reflexivity|]. split; [exact E'|].
  fold example_recovery in E'. rewrite E' in Hok. destruct r as [[i|]|]; [reflexivity|discriminate Hok..].
Defined.

Definition example_inspect : option Path → option Path → M Disk (result RuntimeServiceBinding SetupError) :=
  λ _ _, ret (Ok PreviousBinding).

Lemma binding_recovery_is_ordered_witness :
  ∃ r d', @recover_with_service_binding example_world _ example_services
    (machine_layout example_files example_data) example_inspect (λ _ _, ret (Ok tt))
    (disk_of example_start) = Some (r, d').
Proof.
  destruct (binding_recovery_is_ordered example_files example_data (λ _, example_services)
    (Some example_old) example_new example_world example_binary (λ _, ret (Ok 5)) (λ _ _, ret (Ok tt))
    false example_start (disk_of example_start) example_world example_inspect (λ _ _, ret (Ok tt))
    example_setting example_settled (reached_start _ _ _ _ _ _ _ _ _ _) example_truthful
    (λ _ _, framed_ret _ _ _) (λ _ _, framed_ret _ _ _)) as (r & d' & E & _).
  exists r, d'. exact E.
Defined.
