(* ===== verification/Frames.v ===== *)
(** * Directories, and what a run leaves alone

    The calls of the operating system on directories that the transactions of the
    setup program use beside those of [Storage.v], and a logic for frames: [leaves Q m]
    says that [m] ends with an answer and that no state it passes through differs from
    the first one in a path of [Q].  The rules are hints, so that the frame of an
    operation follows from the shape of its code. *)

From S2P Require Export ActivationTransaction.

(** ** Calls on directories *)

Section DirectoryCalls.
Context `{World}.

(** [DirEntry::metadata], which does not follow links: the length of a regular file. *)
Definition entry_file_len (p : Path) : M Disk (result (option N) IoError) :=
  let! r := fs_symlink_metadata p in
  ret (match r with
       | Ok (File bytes) => Ok (Some (bytes_len bytes))
       | Ok (Directory | Link _) => Ok None
       | Err e => Err e
       end).

(** [fs::remove_dir]: only an empty directory. *)
Definition fs_remove_dir (p : Path) : M Disk (result unit IoError) :=
  os_write (λ _ m, match m !! p with
                   | Some Directory =>
                       if bool_decide (entry_names m p = []) then Ok (delete p m)
                       else Err (io_error NotEmpty)
                   | Some _ => Err (io_error WrongKind)
                   | None => Err (io_error Missing)
                   end).

(** The paths at and below [p]. *)
Definition below (p q : Path) : bool := bool_decide (p `prefix_of` q).

Definition tree (m : Nodes) (p : Path) : list Path :=
  list_retain (below p) (map_to_list m).*1.

(** [fs::remove_dir_all]: when it fails it may have removed a part of the tree. *)
Definition fs_remove_dir_all (p : Path) : M Disk (result unit IoError) :=
  os_write (λ partial m,
    match m !! p with
    | Some Directory =>
        let doomed := match partial with Some n => take n (rev (tree m p)) | None => tree m p end in
        Ok (fold_right delete m doomed)
    | Some _ => Err (io_error WrongKind)
    | None => Err (io_error Missing)
    end).

(** [fs::rename] of a directory with all that is below it. *)
Definition moved (source destination q : Path) : Path := destination ++ drop (length source) q.

Definition move_node (source destination : Path) (before m : Nodes) (q : Path) : Nodes :=
  match before !! q with
  | Some n => <[moved source destination q := n]> (delete q m)
  | None => m
  end.

Definition fs_rename_directory (source destination : Path) : M Disk (result unit IoError) :=
  os_write (λ _ m,
    match m !! source, m !! destination with
    | Some Directory, None =>
        Ok (fold_left (move_node source destination m) (tree m source) m)
    | Some Directory, Some _ => Err (io_error Occupied)
    | Some _, _ => Err (io_error WrongKind)
    | None, _ => Err (io_error Missing)
    end).
End DirectoryCalls.

(** ** More rules for [spec] *)

Section MoreRules.
Implicit Types (P : Nodes → Prop) (d : Disk).

(** [let? a := ret r in ..]: a pure result. *)
Lemma spec_try_ret {A B E : Type} P (r : result A E) (k : A → M Disk (result B E)) R d :
  (∀ a, r = Ok a → spec P (k a) R d) → (∀ e, r = Err e → R (Err e) d) →
  spec P (let? a := ret r in k a) R d.
Proof.
  intros Hk He. eapply spec_bind; [by apply (spec_ret P r (λ r' d', r' = r ∧ d' = d))|].
  intros r' d' _ [-> ->]. destruct r as [a|e]; [by apply Hk|by apply spec_ret, He].
Qed.

(** A change of the error does not change what an answer means. *)
Lemma spec_map_err {A E F : Type} P (f : E → F) (m : M Disk (result A E)) (R : Disk → Prop) (G : A → Disk → Prop) d :
  spec P m (λ r d', R d' ∧ ∀ a, r = Ok a → G a d') d →
  spec P (let! r := m in ret (map_err f r)) (λ r d', R d' ∧ ∀ a, r = Ok a → G a d') d.
Proof.
  intros Hm. eapply spec_bind; [exact Hm|]. intros r d' _ [HR HG]. apply spec_ret. split; [done|].
  intros a Ha. apply HG. destruct r; [|done]. by apply (inj Ok) in Ha as ->.
Qed.

(** Two facts about the same run. *)
Lemma spec_conj {A : Type} P P' (m : M Disk A) Q Q' d :
  spec P m Q d → spec P' m Q' d →
  spec (λ n, P n ∧ P' n) m (λ a d', Q a d' ∧ Q' a d') d.
Proof.
  unfold spec, wp. destruct (m d) as [[a d']|]; [|done].
  intros [(v & Hv & F & N1 & C1) HQ] [(v' & Hv' & F' & _ & _) HQ']. split; [|done].
  exists v. assert (v' = v) as -> by (rewrite Hv' in Hv; by apply app_inv_tail in Hv).
  split_and!; [done| |done|done]. apply Forall_and. done.
Qed.
End MoreRules.

(** A call that changes no file and makes no call of Windows on a service. *)
Definition quiet_call {A : Type} (m : M Disk A) : Prop :=
  ∀ P d, spec P m (λ _ d', nodes d' = nodes d ∧ answered d' = answered d) d.

(** The failing branch of a quiet step: the nodes are the first ones, and an error
    promises nothing else. *)
Ltac quiet_error :=
  cbv beta; intros; repeat match goal with H : _ ∧ _ |- _ => destruct H end;
  split_and?; intros; first [congruence|done|discriminate].

(** ** Listing a directory *)

Section Listing.
Context `{World}.
Implicit Types (P : Nodes → Prop) (d : Disk).

Lemma entry_name_spec p q name : entry_name p q = Some name ↔ q = path_join p name.
Proof.
  unfold entry_name, path_join. destruct (rev q) as [|last parent] eqn:E.
  - split; [done|]. intros ->. by rewrite rev_app_distr in E.
  - assert (q = rev parent ++ [last]) as -> by (by rewrite <- (rev_involutive q), E).
    case_bool_decide as Hp.
    + rewrite Hp. split; [by intros [= ->]|]. by intros [_ [= ->]]%app_inj_tail.
    + split; [done|]. intros [Heq _]%app_inj_tail. done.
Qed.

(** The names in a directory are those of the nodes in it, each once. *)
Lemma entry_names_elem m p name : name ∈ entry_names m p ↔ is_Some (m !! path_join p name).
Proof.
  unfold entry_names. rewrite (dir_order_perm _), list_elem_of_omap.
  setoid_rewrite entry_name_spec. setoid_rewrite list_elem_of_fmap. split.
  - intros (q & ([q' n] & -> & Hn%elem_of_map_to_list) & Hq). simpl in Hq. subst q'. by exists n.
  - intros [n Hn]. exists (path_join p name). split; [|done]. exists (path_join p name, n).
    split; [done|]. by apply elem_of_map_to_list.
Qed.

Lemma entry_names_nodup m p : NoDup (entry_names m p).
Proof.
  unfold entry_names. rewrite (dir_order_perm _).
  pose proof (NoDup_fst_map_to_list m) as Hnd. induction Hnd as [|q qs Hq _ IH]; simpl; [constructor|].
  destruct (entry_name p q) as [name|] eqn:E; [|done]. constructor; [|done].
  intros (q' & Hq' & Hname)%list_elem_of_omap. apply entry_name_spec in E, Hname. by subst.
Qed.

Lemma bounded_entries_spec P room text names d :
  spec P (bounded_entries room text names) (λ r d', nodes d' = nodes d ∧
    ∀ l, r = Ok l → l = names ∧ length names ≤ room) d.
Proof.
  revert room d. induction names as [|name names IH]; intros [|room] d; cbn [bounded_entries].
  1, 2: apply spec_ret; split; [done|]; intros l <-%(inj Ok); split; [done|simpl; lia].
  { apply spec_ret. quiet_error. }
  try_then lift_read_spec; [|quiet_error]. intros _ d1 _ [Hn1 _].
  try_then IH; [|quiet_error]. intros rest d2 _ [Hn2 Hrest]. destruct (Hrest _ eq_refl) as [-> Hlen].
  apply spec_ret. split; [congruence|]. intros l <-%(inj Ok). split; [done|simpl; lia].
Qed.

(** What [read_bounded_directory] lists. *)
Lemma read_bounded_directory_spec P p maximum text d :
  spec P (read_bounded_directory p maximum text) (λ r d', nodes d' = nodes d ∧
    ∀ names, r = Ok names → names = entry_names (nodes d) p ∧ length names ≤ maximum ∧
      (nodes d !! p = Some Directory ∨ nodes d !! p = Some (Link ToDirectory))) d.
Proof.
  unfold read_bounded_directory. try_then reject_reparse_quiet; [|quiet_error]. intros [] d1 _ Hn1.
  try_then lift_read_spec; [|quiet_error]. intros metadata d2 _ [Hn2 _].
  destruct metadata; [apply spec_ret; quiet_error|].
  try_then lift_read_spec; [|quiet_error]. intros names d3 _ [Hn3 Hl]. specialize (Hl _ eq_refl).
  cbv beta in Hl. rewrite Hn2, Hn1 in Hl.
  eapply spec_post; [apply bounded_entries_spec|]. intros r d4 _ [Hn4 Hr]. split; [congruence|].
  intros l Hl'. destruct (Hr l Hl') as [-> ?].
  destruct (nodes d !! p) as [[| |[| |]]|]; try done; apply (inj Ok) in Hl as <-; auto.
Qed.

(** [DirEntry::metadata] of an entry. *)
Lemma entry_file_len_spec P p d :
  spec P (lift_io (entry_file_len p)) (λ r d', nodes d' = nodes d ∧
    ∀ len, r = Ok (Some len) → ∃ bytes, nodes d !! p = Some (File bytes) ∧ len = bytes_len bytes) d.
Proof.
  apply spec_lift. unfold entry_file_len, fs_symlink_metadata. spec_then os_read_spec.
  intros r d1 _ [Hn1 Hr]. apply spec_ret. split; [done|]. intros len Hlen.
  destruct Hr as [->|(e & -> & _)]; [|done].
  destruct (nodes d !! p) as [[bytes| |]|]; cbn in Hlen; try done. exists bytes. split; [done|].
  by injection Hlen.
Qed.
End Listing.

(** ** A world in which every call works *)

Section Working.
Context `{World}.
Implicit Types (P : Nodes → Prop) (d : Disk).

Record working : Prop := {
  never_fails : ∀ n, fault n = None;
  always_sees : ∀ n, blind n = false
}.

Context (Hworks : working).

Lemma os_read_works {A} P (f : Nodes → result A IoError) d :
  spec P (os_read f) (λ r d', nodes d' = nodes d ∧ r = f (nodes d)) d.
Proof.
  eapply spec_post; [apply os_read_spec|]. intros r d' _ [Hn [Hr|(e & _ & n & Hf)]]; [done|].
  rewrite (never_fails Hworks) in Hf. by destruct Hf as [|[]].
Qed.

Lemma lift_works {A} P (f : Nodes → result A IoError) a d :
  f (nodes d) = Ok a → spec P (lift_io (os_read f)) (λ r d', nodes d' = nodes d ∧ r = Ok a) d.
Proof.
  intros Hf. apply spec_lift. eapply spec_post; [apply os_read_works|].
  intros r d' _ [Hn ->]. by rewrite Hf.
Qed.

Lemma reject_reparse_works P candidates d :
  no_reparse (nodes d) candidates →
  spec P (reject_reparse candidates) (λ r d', nodes d' = nodes d ∧ r = Ok tt) d.
Proof.
  revert d. induction candidates as [|a candidates IH]; intros d Hno; cbn [reject_reparse]; [by apply spec_ret|].
  assert (no_reparse (nodes d) candidates) as Hrest by (intros b Hb; apply Hno; by right).
  spec_then path_exists_spec. intros present d1 _ (Hn1 & Hp & _). destruct present.
  - assert (match nodes d !! a with Some (Link _) => Ok true | Some _ => Ok false
            | None => Err (io_error Missing) end = Ok false) as Hf.
    { specialize (Hno a (list_elem_of_here _ _) (Hp eq_refl)). specialize (Hp eq_refl).
      unfold node_exists in Hp. destruct (nodes d !! a) as [[]|]; try done. by destruct (Hno target). }
    try_then (lift_works P _ false).
    + by rewrite Hn1.
    + intros reparse d2 _ [Hn2 ->%(inj Ok)].
      eapply spec_post; [apply IH; by rewrite Hn2, Hn1|]. intros r d3 _ [Hn3 ->]. split; congruence.
    + by intros e d2 _ [_ ?].
  - eapply spec_post; [apply IH; by rewrite Hn1|]. intros r d3 _ [Hn3 ->]. split; congruence.
Qed.

Lemma read_bounded_works P p maximum text bytes d :
  no_reparse (nodes d) (ancestors p) → readable (nodes d) p = Ok bytes →
  (0 < bytes_len bytes <= maximum)%N →
  spec P (read_bounded_regular_file p maximum text) (λ r d', nodes d' = nodes d ∧ r = Ok bytes) d.
Proof.
  intros Hno Hread Hlen. unfold read_bounded_regular_file.
  try_then reject_reparse_works; [done| |by intros e d1 _ [_ ?]]. intros [] d1 _ [Hn1 _].
  try_then (lift_works P _ (RegularFile (bytes_len bytes))); [| |by intros e d2 _ [_ ?]].
  { rewrite Hn1. unfold readable in Hread.
    destruct (nodes d !! p) as [[b| |[b| |]]|]; try done; by apply (inj Ok) in Hread as ->. }
  intros metadata d2 _ [Hn2 ->%(inj Ok)]. cbv zeta.
  destruct (_ || _) eqn:E; [apply orb_true_iff in E as [E|E]; andb_split; lia|]. clear E.
  try_then (lift_works P _ tt); [| |by intros e d3 _ [_ ?]].
  { by rewrite Hn2, Hn1, Hread. }
  intros [] d3 _ [Hn3 _].
  try_then (lift_works P _ bytes); [| |by intros e d4 _ [_ ?]].
  { rewrite Hn3, Hn2, Hn1, Hread. cbn [result_bind]. f_equal. rewrite take_bytes_eq. apply take_ge. unfold bytes_len in Hlen. lia. }
  intros actual d4 _ [Hn4 ->%(inj Ok)]. destruct (_ || _) eqn:E; [apply orb_true_iff in E as [E|E]; andb_split; lia|].
  apply spec_ret. split; [congruence|done].
Qed.

Lemma bounded_entries_works P room text names d :
  length names ≤ room →
  spec P (bounded_entries room text names) (λ r d', nodes d' = nodes d ∧ r = Ok names) d.
Proof.
  revert room d. induction names as [|name names IH]; intros [|room] d Hlen; cbn [bounded_entries];
    [by apply spec_ret|by apply spec_ret|simpl in Hlen; lia|]. simpl in Hlen.
  try_then (lift_works P _ tt); [done| |by intros e d1 _ [_ ?]]. intros _ d1 _ [Hn1 _].
  try_then IH; [lia| |by intros e d2 _ [_ ?]]. intros rest d2 _ [Hn2 ->%(inj Ok)].
  apply spec_ret. split; [congruence|done].
Qed.

Lemma read_bounded_directory_works P p maximum text d :
  no_reparse (nodes d) (ancestors p) → nodes d !! p = Some Directory →
  length (entry_names (nodes d) p) ≤ maximum →
  spec P (read_bounded_directory p maximum text)
    (λ r d', nodes d' = nodes d ∧ r = Ok (entry_names (nodes d) p)) d.
Proof.
  intros Hno Hdir Hlen. unfold read_bounded_directory.
  try_then reject_reparse_works; [done| |by intros e d1 _ [_ ?]]. intros [] d1 _ [Hn1 _].
  try_then (lift_works P _ DirectoryMetadata); [by rewrite Hn1, Hdir| |by intros e d2 _ [_ ?]].
  intros metadata d2 _ [Hn2 ->%(inj Ok)].
  try_then (lift_works P _ (entry_names (nodes d) p)); [by rewrite Hn2, Hn1, Hdir| |by intros e d3 _ [_ ?]].
  intros names d3 _ [Hn3 ->%(inj Ok)].
  eapply spec_post; [by apply bounded_entries_works|]. intros r d4 _ [Hn4 ->]. split; [congruence|done].
Qed.

Lemma entry_file_len_works P p bytes d :
  nodes d !! p = Some (File bytes) →
  spec P (lift_io (entry_file_len p)) (λ r d', nodes d' = nodes d ∧ r = Ok (Some (bytes_len bytes))) d.
Proof.
  intros Hp. apply spec_lift. unfold entry_file_len, fs_symlink_metadata. spec_then os_read_works.
  intros r d1 _ [Hn1 ->]. apply spec_ret. by rewrite Hp.
Qed.
End Working.

(** ** Frames *)

Definition agree (Q : Path → Prop) (m m' : Nodes) : Prop := ∀ q, Q q → m' !! q = m !! q.

#[export] Instance agree_preorder Q : PreOrder (agree Q).
Proof. split; [by intros m q|]. intros m1 m2 m3 H12 H23 q Hq. by rewrite H23, H12. Qed.

Definition leaves {A : Type} (Q : Path → Prop) (m : M Disk A) : Prop :=
  ∀ d, spec (agree Q (nodes d)) m (λ _ d', agree Q (nodes d) (nodes d')) d.

Create HintDb frame.

(** What writing [p] leaves alone: whatever is not hidden, nor [p], nor above it. *)
Lemma untouched_spec p q : untouched p q ↔ hidden q = false ∧ ¬ q `prefix_of` p.
Proof.
  unfold untouched. split.
  - intros (Hne & Hh & Htake). split; [done|]. intros [k ->]. destruct k as [|x k].
    + by rewrite app_nil_r in Hne.
    + apply (Htake (length q)); [rewrite length_app; simpl; lia|by rewrite take_app_length].
  - intros [Hh Hp]. split_and!; [intros ->; by apply Hp|done|].
    intros n _ <-. apply Hp. exists (drop n p). by rewrite take_drop.
Qed.

(** Two paths that part ways: neither is above the other. *)
Lemma parted_not_prefix (root r s : Path) a b : a ≠ b → ¬ (root ++ a :: r) `prefix_of` (root ++ b :: s).
Proof. intros Hab Hp%prefix_app_inv. by apply prefix_cons_inv_1 in Hp. Qed.

Lemma siblings_not_prefix (root : Path) a b s : a ≠ b → ¬ path_join root a `prefix_of` path_join root b ++ s.
Proof. intros Hab. unfold path_join. rewrite <- app_assoc. by apply (parted_not_prefix root []). Qed.

(** What is in one directory is not above what is in another next to it. *)
Lemma cousins_not_prefix (root : Path) x a y s :
  x ≠ y → ¬ path_join (path_join root x) a `prefix_of` path_join root y ++ s.
Proof. intros Hxy. unfold path_join. rewrite <- !app_assoc. by apply parted_not_prefix. Qed.

Lemma child_not_prefix (root : Path) a : ¬ path_join root a `prefix_of` root.
Proof. intros Hp%prefix_length. unfold path_join in Hp. rewrite length_app in Hp. simpl in Hp. lia. Qed.

(** Two paths neither of which is above the other. *)
Definition unrelated (p q : Path) : Prop := ¬ p `prefix_of` q ∧ ¬ q `prefix_of` p.

Lemma unrelated_below p q s t : unrelated p q → p ++ s ≠ q ++ t.
Proof.
  intros [Hpq Hqp] E. destruct (app_eq_inv _ _ _ _ E) as [(k & -> & _)|(k & -> & _)].
  - apply Hqp. by eexists.
  - apply Hpq. by eexists.
Qed.

Lemma siblings_unrelated root a b : a ≠ b → unrelated (path_join root a) (path_join root b).
Proof. intros Hab. unfold path_join. split; by apply (parted_not_prefix root [] []). Qed.

Lemma unrelated_app p q s t : unrelated p q → unrelated (p ++ s) (q ++ t).
Proof.
  intros Hun. split; intros [k E].
  - symmetry in E. rewrite <- app_assoc in E. by apply (unrelated_below p q (s ++ k) t Hun).
  - rewrite <- app_assoc in E. by apply (unrelated_below p q s (t ++ k) Hun).
Qed.

Lemma hidden_join root name : hidden (path_join root name) = starts_with "." name.
Proof. unfold hidden, file_name, path_join. by rewrite last_snoc. Qed.

Lemma ancestors_above parent name q : q ∈ ancestors parent → q ∈ ancestors (parent ++ [name]).
Proof.
  intros (n & Hn & ->)%ancestors_elem. apply ancestors_elem. exists n. rewrite length_app. simpl.
  split; [lia|]. by rewrite take_app_le by lia.
Qed.

Lemma path_parent_join p name : path_parent (path_join p name) = Some p.
Proof. unfold path_parent, path_join. by rewrite rev_app_distr; simpl; rewrite rev_involutive. Qed.

Section Leaves.
Context `{World} (Q : Path → Prop).

Lemma leaves_ret {A : Type} (a : A) : leaves Q (ret a).
Proof. intros d. by apply spec_ret. Qed.

Lemma leaves_bind {A B : Type} (m : M Disk A) (k : A → M Disk B) :
  leaves Q m → (∀ a, leaves Q (k a)) → leaves Q (bind m k).
Proof.
  intros Hm Hk d. eapply spec_bind; [apply Hm|]. intros a d' _ Hd'.
  eapply spec_mono; [apply Hk| |]; [intros n Hn|intros b d'' _ Hn]; cbv beta in *; by rewrite Hd'.
Qed.

Lemma leaves_try {A B E : Type} (m : M Disk (result A E)) (k : A → M Disk (result B E)) :
  leaves Q m → (∀ a, leaves Q (k a)) → leaves Q (let? x := m in k x).
Proof. intros Hm Hk. apply leaves_bind; [done|]. intros [a|e]; [apply Hk|apply leaves_ret]. Qed.

(** A computation that changes nothing. *)
Lemma leaves_quiet {A : Type} (m : M Disk A) :
  (∀ P d, spec P m (λ _ d', nodes d' = nodes d) d) → leaves Q m.
Proof. intros Hm d. eapply spec_post; [apply Hm|]. by intros a d' _ ->. Qed.

(** What a step that changes nothing answered may be used after it. *)
Lemma leaves_quiet_try {A B E : Type} (G : A → Prop) (m : M Disk (result A E)) (k : A → M Disk (result B E)) :
  (∀ P d, spec P m (λ r d', nodes d' = nodes d ∧ ∀ a, r = Ok a → G a) d) →
  (∀ a, G a → leaves Q (k a)) → leaves Q (let? x := m in k x).
Proof.
  intros Hm Hk d. eapply spec_try; [apply Hm|cbv beta..].
  - intros a d1 _ [Hn Ha]. specialize (Hk a (Ha a eq_refl) d1). by rewrite Hn in Hk.
  - by intros e d1 _ [-> _].
Qed.

Lemma leaves_read {A : Type} (f : Nodes → result A IoError) : leaves Q (os_read f).
Proof. apply leaves_quiet. intros P d. eapply spec_post; [apply os_read_spec|]. by intros ??? [? _]. Qed.

Lemma leaves_write f :
  (∀ partial m m', f partial m = Ok m' → agree Q m m') → leaves Q (os_write f).
Proof.
  intros Hf d. eapply spec_post; [apply os_write_spec; by intros; eapply Hf|].
  intros [[]|e] d' _ Hr; [by eapply Hf|]. destruct Hr as [->|[partial Hr]]; [done|by eapply Hf].
Qed.

Lemma leaves_lift {A : Type} (m : M Disk (result A IoError)) : leaves Q m → leaves Q (lift_io m).
Proof. intros. apply leaves_bind; [done|]. intros. apply leaves_ret. Qed.

Lemma leaves_with_err {A : Type} f (m : M Disk (result A SetupError)) : leaves Q m → leaves Q (with_err f m).
Proof. intros. apply leaves_bind; [done|]. intros. apply leaves_ret. Qed.

Lemma leaves_exists p : leaves Q (path_exists p).
Proof. apply leaves_quiet. intros P d. eapply spec_post; [apply path_exists_spec|]. by intros ??? [? _]. Qed.

Lemma leaves_reject p : leaves Q (reject_reparse_ancestors p).
Proof. apply leaves_quiet. intros P d. apply reject_reparse_quiet. Qed.

Lemma leaves_bounded_read p n text : leaves Q (read_bounded_regular_file p n text).
Proof. apply leaves_quiet. intros P d. eapply spec_post; [apply read_bounded_quiet|]. by intros ??? [? _]. Qed.

Lemma leaves_nonce : leaves Q temporary_nonce.
Proof. apply leaves_quiet. intros P d. apply nonce_spec. Qed.

Lemma leaves_entries room text names : leaves Q (bounded_entries room text names).
Proof.
  revert room. induction names as [|name names IH]; intros [|room]; cbn [bounded_entries];
    try apply leaves_ret. apply leaves_try; [apply leaves_lift, leaves_read|]. intros _.
  apply leaves_try; [apply IH|]. intros. apply leaves_ret.
Qed.

Lemma leaves_bounded_directory p n text : leaves Q (read_bounded_directory p n text).
Proof.
  apply leaves_try; [apply leaves_reject|]. intros _.
  apply leaves_try; [apply leaves_lift, leaves_read|]. intros [len|]; [apply leaves_ret|].
  apply leaves_try; [apply leaves_lift, leaves_read|]. intros names. apply leaves_entries.
Qed.

Lemma leaves_atomic_write p bytes : (∀ q, Q q → untouched p q) → leaves Q (atomic_write p bytes).
Proof.
  intros HQ d. eapply spec_mono; [apply atomic_write_spec| |].
  - intros m [_ Hm] q Hq. by apply Hm, HQ.
  - intros r d' _ [[_ Hm] _] q Hq. by apply Hm, HQ.
Qed.

Lemma leaves_remove_file p : ¬ Q p → leaves Q (remove_file p).
Proof.
  intros HQ. apply leaves_write. intros _ m m' E.
  assert (m' = delete p m) as -> by (destruct (m !! p) as [[]|]; by inversion E).
  intros q Hq. rewrite lookup_delete_ne; [done|]. by intros ->.
Qed.

Lemma leaves_create_new p : ¬ Q p → leaves Q (create_new p).
Proof.
  intros HQ. apply leaves_write. intros _ m m' E. destruct (m !! p); [done|].
  apply (inj Ok) in E as <-. intros q Hq. rewrite lookup_insert_ne; [done|]. by intros ->.
Qed.

Lemma leaves_write_all p bytes : ¬ Q p → leaves Q (write_all p bytes).
Proof.
  intros HQ. apply leaves_write. intros partial m m' E. destruct (m !! p) as [[]|]; try done.
  apply (inj Ok) in E as <-. intros q Hq. rewrite lookup_insert_ne; [done|]. by intros ->.
Qed.

Lemma leaves_remove_dir p : ¬ Q p → leaves Q (fs_remove_dir p).
Proof.
  intros HQ. apply leaves_write. intros _ m m' E.
  destruct (m !! p) as [[]|]; try done. case_bool_decide; [|done]. apply (inj Ok) in E as <-.
  intros q Hq. rewrite lookup_delete_ne; [done|]. by intros ->.
Qed.

Lemma leaves_retry {T : Type} (m : M Disk (result T IoError)) :
  leaves Q m → leaves Q (retry_profile_file_operation m).
Proof.
  intros Hm d. eapply spec_post;
    [apply (retry_spec (agree Q (nodes d)) (agree Q (nodes d)) (λ _ _, True)); [|done]|by intros ??? [? _]].
  intros d1 Hd1. eapply spec_mono; [apply Hm| |]; cbv beta.
  - intros n Hn. by rewrite Hd1.
  - intros a d2 _ Hd2. split; [by rewrite Hd1|done].
Qed.

Lemma leaves_protected_directory p : (∀ q, Q q → q ∉ ancestors p) → leaves Q (create_protected_directory p).
Proof.
  intros HQ d. unfold create_protected_directory.
  assert (∀ m q, Q q → fold_left make_directory (rev (ancestors p)) m !! q = m !! q) as Hdirs.
  { intros m q Hq. apply make_directories_lookup.
    by rewrite list_elem_of_In, <- in_rev, <- list_elem_of_In; apply HQ. }
  revert d. apply leaves_try; [apply leaves_reject|]. intros _.
  apply leaves_try; [|intros _; apply leaves_reject].
  apply leaves_lift, leaves_write. intros _ m m' E. destruct (forallb _ _); [|done].
  apply (inj Ok) in E as <-. intros q Hq. by apply Hdirs.
Qed.

Lemma leaves_replace_file source destination :
  ¬ Q source → ¬ Q destination → leaves Q (replace_file source destination).
Proof.
  intros Hs Hd. apply leaves_lift, leaves_retry, leaves_write. intros _ m m' E q Hq.
  assert (∀ n : Node, <[destination := n]> (delete source m) !! q = m !! q) as Hsame.
  { intros n. rewrite lookup_insert_ne by (by intros ->). by rewrite lookup_delete_ne by (by intros ->). }
  destruct (m !! source); [|done].
  destruct (m !! destination) as [[]|]; try done; apply (inj Ok) in E as <-; apply Hsame.
Qed.

(** Only hidden files next to the destination, and nothing elsewhere. *)
Lemma leaves_atomic_write_near p bytes :
  (∀ q, Q q → q ∉ ancestors p ∧ (path_parent q = path_parent p → hidden q = false)) →
  leaves Q (atomic_write p bytes).
Proof.
  intros HQ. unfold atomic_write, atomic_write_with_replace.
  destruct (path_parent p) as [parent|] eqn:Ep; [|apply leaves_ret].
  destruct (path_parent_spec _ _ Ep) as [name Hp].
  assert (¬ Q p) as Hown.
  { intros [Hq _]%HQ. apply Hq, ancestors_elem. exists (length p).
    rewrite take_ge by lia. subst p. rewrite length_app. simpl. split; [lia|done]. }
  apply leaves_try; [|intros _].
  { apply leaves_protected_directory. intros q [Hq _]%HQ Hin. apply Hq. rewrite Hp. by apply ancestors_above. }
  apply leaves_try; [apply leaves_reject|intros _]. apply leaves_bind; [apply leaves_nonce|intros nonce].
  cbv zeta. set (temporary := path_join parent _).
  assert (¬ Q temporary) as Htemp.
  { intros [_ Hq]%HQ. unfold temporary in Hq. rewrite path_parent_join, hidden_temporary in Hq.
    by specialize (Hq eq_refl). }
  apply leaves_bind; [|by intros [[]|e];
    [apply leaves_ret|apply leaves_bind; [by apply leaves_remove_file|intros; apply leaves_ret]]].
  apply leaves_try; [by apply leaves_lift, leaves_create_new|intros _].
  apply leaves_try; [by apply leaves_lift, leaves_write_all|intros _].
  apply leaves_try; [apply leaves_lift, leaves_read|intros _]. by apply leaves_replace_file.
Qed.

Lemma fold_delete_lookup (doomed : list Path) (m : Nodes) q :
  q ∉ doomed → fold_right delete m doomed !! q = m !! q.
Proof.
  induction doomed as [|p doomed IH]; [done|]. intros [? ?]%not_elem_of_cons. simpl.
  rewrite lookup_delete_ne by done. by apply IH.
Qed.

Lemma tree_below m p q : q ∈ tree m p → below p q = true.
Proof. unfold tree. by intros [? _]%list_retain_elem. Qed.

Lemma leaves_remove_dir_all p : (∀ q, Q q → below p q = false) → leaves Q (fs_remove_dir_all p).
Proof.
  intros HQ. apply leaves_write. intros partial m m' E. destruct (m !! p) as [[]|]; try done.
  apply (inj Ok) in E as <-. intros q Hq. apply fold_delete_lookup. intros Hin.
  assert (q ∈ tree m p) as Ht%tree_below; [|by rewrite HQ in Ht].
  destruct partial as [n|]; [|done].
  apply elem_of_take in Hin as (i & Hi & _). apply list_elem_of_lookup_2 in Hi.
  by rewrite list_elem_of_In, <- in_rev, <- list_elem_of_In in Hi.
Qed.

Lemma move_nodes_lookup source destination before qs m q :
  q ∉ qs → (∀ p, p ∈ qs → moved source destination p ≠ q) →
  fold_left (move_node source destination before) qs m !! q = m !! q.
Proof.
  revert m. induction qs as [|p qs IH]; intros m; [done|].
  intros [Hne Hout]%not_elem_of_cons Hmoved. simpl. rewrite IH; [|done|set_solver].
  unfold move_node. destruct (before !! p); [|done].
  rewrite lookup_insert_ne by (apply Hmoved; set_solver). by rewrite lookup_delete_ne.
Qed.

Lemma leaves_rename_directory source destination :
  (∀ q, Q q → below source q = false ∧ below destination q = false) →
  leaves Q (fs_rename_directory source destination).
Proof.
  intros HQ. apply leaves_write. intros _ m m' E.
  destruct (m !! source) as [[]|]; try done; destruct (m !! destination); try done.
  apply (inj Ok) in E as <-. intros q Hq. destruct (HQ q Hq) as [Hs Hd].
  apply move_nodes_lookup; [by intros Ht%tree_below; rewrite Ht in Hs|].
  intros p _ <-. unfold below, moved in Hd. apply bool_decide_eq_false in Hd. apply Hd. by eexists.
Qed.
End Leaves.

(** What a framed run keeps, together with what it answers. *)
Lemma spec_frame {A : Type} (Q : Path → Prop) (S : Nodes → Prop) (m : M Disk A) (R : A → Disk → Prop) d :
  leaves Q m → spec (λ _, True) m R d → (∀ n, agree Q (nodes d) n → S n) →
  spec S m (λ a d', agree Q (nodes d) (nodes d') ∧ R a d') d.
Proof.
  intros Hl Hm HS. eapply spec_mono; [eapply spec_conj; [apply Hl|apply Hm]| |]; cbv beta.
  - intros n [Hn _]. by apply HS.
  - by intros a d' _ ?.
Qed.

(** The rules as hints: [frame] decides the frame of an operation. *)
#[export] Hint Resolve leaves_ret leaves_read leaves_exists leaves_reject leaves_bounded_read leaves_nonce
  leaves_bounded_directory leaves_atomic_write leaves_remove_file leaves_create_new leaves_write_all
  leaves_remove_dir leaves_remove_dir_all leaves_rename_directory leaves_protected_directory : frame.
#[export] Hint Extern 1 (leaves _ (lift_io _)) => apply leaves_lift : frame.
#[export] Hint Extern 1 (leaves _ (with_err _ _)) => apply leaves_with_err : frame.

(** One step of a frame proof: under a bind, through a branch, or by a hint. *)
Ltac frame_step :=
  match goal with
  | |- leaves _ (let _ := _ in _) => cbv zeta
  | |- leaves _ (match ?x with _ => _ end) => destruct x eqn:?
  | |- leaves _ (bind _ _) => apply leaves_bind; [|intros ?]
  | |- leaves _ (lift_io _) => apply leaves_lift
  | |- leaves _ (retry_profile_file_operation _) => apply leaves_retry
  | |- leaves _ (with_err _ _) => apply leaves_with_err
  | |- leaves _ _ => solve [eauto with frame]
  end.
Ltac frame := repeat frame_step.
