(* ===== verification/ProfileBridge.v ===== *)
(** * The profile next to the runtime

    [service-runtime/setup/src/profile_bridge.rs], [profile_bridge/runtime.rs] and
    [profile_bridge/cleanup.rs]: the copy of a profile generation that is laid next to
    the active runtime, its exact removal, and the removal of writes that were
    interrupted.  The names of a directory are Unicode here, so the branches for other
    names do not appear. *)

From stdpp Require Import pretty.
From S2P Require Export Frames Profile.

Definition GENERATED_PROFILE_NAME : string := "MacType.ini".
Definition GENERATED_PROFILE_TEMP_PREFIX : string := ".MacType.ini.new-".
Definition MAX_RUNTIME_ENTRIES_DURING_PROFILE_RECOVERY : nat := 16.

Inductive MaterializedProfileClearError :=
| ClearUnchanged (error : SetupError)
| ClearUnknown (error : SetupError).

Inductive MaterializedProfileObservation := MaterializedAbsent | ExactGeneration.

Definition into_setup_error (e : MaterializedProfileClearError) : SetupError :=
  match e with ClearUnchanged error | ClearUnknown error => error end.

(** [result.map_err(MaterializedProfileClearError::Unchanged)] *)
Definition or_unchanged {A : Type} (m : M Disk (result A SetupError))
    : M Disk (result A MaterializedProfileClearError) :=
  let! r := m in ret (map_err ClearUnchanged r).

(** [From<ProfileError> for SetupError] *)
Definition profile_checked {A : Type} (r : result A ProfileError) : result A SetupError :=
  map_err InvalidProfile r.

(** What follows the prefix of an interrupted write: two or three numbers. *)
Definition owned_suffix (suffix : string) : bool :=
  let components := split_on (λ b, (b =? "-")%char) (str_bytes suffix) in
  ((length components =? 2) || (length components =? 3))%nat
  && forallb (λ c, negb (bool_decide (c = [])) && forallb is_ascii_digit c) components.

Section Bridge.
Context `{World, Sha256, ActivationJson, PointerJson} (paths : MachinePaths).

(** [cleanup_unknown_io] *)
Definition cleanup_unknown_io (e : IoError) : SetupError :=
  CleanupUnknown ("generated runtime profile could not be exclusively inspected: " ++ io_text e).

Definition inspecting {A : Type} (m : M Disk (result A IoError)) : M Disk (result A SetupError) :=
  let! r := m in ret (map_err cleanup_unknown_io r).

(** ** [runtime.rs] *)

Definition active_runtime_root : M Disk (result (option Path) SetupError) :=
  let! present := path_exists (runtime_pointer paths) in
  if negb present then ret (Ok None)
  else
    let? _ := reject_reparse_ancestors (runtime_pointer paths) in
    let? bytes := read_bounded_regular_file (runtime_pointer paths) MAX_RUNTIME_POINTER_BYTES
                    "active runtime pointer" in
    let? pointer := ret (ok_or (pointer_from_slice bytes) (Runtime "active runtime pointer is invalid")) in
    if negb (pointer_schema pointer =? 1)%N || negb (valid_runtime_version_component (version pointer))
    then ret (Err (Runtime "active runtime pointer has an unsupported value"))
    else
      let root := path_join (runtime_versions paths) (version pointer) in
      let? _ := reject_reparse_ancestors root in
      let! directory := is_dir root in
      if negb directory then ret (Err (Runtime "active runtime generation is unavailable"))
      else ret (Ok (Some root)).

(** ** [cleanup.rs] *)

(** The loop of [remove_interrupted_generated_profile_writes]. *)
Fixpoint remove_interrupted (runtime_root : Path) (names : list string)
    : M Disk (result unit SetupError) :=
  match names with
  | [] => ret (Ok tt)
  | name :: names' =>
      match strip_prefix GENERATED_PROFILE_TEMP_PREFIX name with
      | None => remove_interrupted runtime_root names'
      | Some suffix =>
          if negb (owned_suffix suffix) then
            ret (Err (Runtime "generated runtime profile temporary entry is not owned by setup"))
          else
            let path := path_join runtime_root name in
            let? _ := reject_reparse_ancestors path in
            let? len := lift_io (entry_file_len path) in
            match len with
            | None =>
                ret (Err (Runtime "generated runtime profile temporary path is not a regular file"))
            | Some _ =>
                let? _ := lift_io (retry_profile_file_operation (remove_file path)) in
                remove_interrupted runtime_root names'
            end
      end
  end.

Definition remove_interrupted_generated_profile_writes (runtime_root : Path)
    : M Disk (result unit SetupError) :=
  let? names := read_bounded_directory runtime_root MAX_RUNTIME_ENTRIES_DURING_PROFILE_RECOVERY
                  "runtime profile recovery entry count" in
  remove_interrupted runtime_root names.

(** ** [profile_bridge.rs] *)

Definition generation_profile (g : GenerationId) : Path :=
  path_join (path_join (profile_generations paths) (directory_name g)) "profile.ini".

Definition verified_generation_bytes (g : GenerationId) : M Disk (result (list ascii) SetupError) :=
  let? _ := reject_reparse_ancestors (generation_profile g) in
  let? bytes := with_err (λ _, TamperedGeneration)
    (read_bounded_regular_file (generation_profile g) MAX_PROFILE_BYTES "profile generation") in
  let? calculated := ret (profile_checked (fst (publish_machine_profile bytes
    {| display_name := "runtime materialization verification" |} new_catalog))) in
  if bool_decide (calculated ≠ g) then ret (Err TamperedGeneration) else ret (Ok bytes).

Definition materialize_generation (g : GenerationId) : M Disk (result bool SetupError) :=
  let? root := active_runtime_root in
  match root with
  | None => ret (Ok false)
  | Some runtime_root =>
      let? _ := remove_interrupted_generated_profile_writes runtime_root in
      let? bytes := verified_generation_bytes g in
      let destination := path_join runtime_root GENERATED_PROFILE_NAME in
      let write := (let? _ := atomic_write destination bytes in ret (Ok true)) in
      let! present := path_exists destination in
      if present then
        let? _ := reject_reparse_ancestors destination in
        let? actual := read_bounded_regular_file destination MAX_PROFILE_BYTES
                         "generated runtime profile" in
        if bool_decide (actual = bytes) then ret (Ok true) else write
      else write
  end.

Definition bridge_materialize_active : M Disk (result (option GenerationId) SetupError) :=
  let! present := path_exists (active_profile paths) in
  if negb present then ret (Ok None)
  else
    let? bytes := read_bounded_regular_file (active_profile paths) MAX_PROFILE_POINTER_BYTES
                    "active profile pointer" in
    let? pointer := ret (ok_or (generation_pointer_from_slice bytes) InvalidPointer) in
    let? _ := materialize_generation (generation pointer) in
    ret (Ok (Some (generation pointer))).

(** ** Exact removal and restoration ([cleanup.rs]) *)

Definition read_materialized_profile (p : Path) : M Disk (result (list ascii) SetupError) :=
  let? len := inspecting (entry_file_len p) in
  let refusal := CleanupUnknown "generated runtime profile is not a bounded regular file" in
  match len with
  | None => ret (Err refusal)
  | Some len =>
      if (len =? 0)%N || (MAX_PROFILE_BYTES <? len)%N then ret (Err refusal)
      else
        let? bytes := inspecting (read_to_end (MAX_PROFILE_BYTES + 1) p) in
        if (bytes_len bytes =? 0)%N || (MAX_PROFILE_BYTES <? bytes_len bytes)%N then
          ret (Err (CleanupUnknown "generated runtime profile changed while it was inspected"))
        else ret (Ok bytes)
  end.

(** The Windows variant; the file is opened without following a link. *)
Definition remove_exact_materialized_profile (p : Path) (expected : list ascii)
    : M Disk (result unit MaterializedProfileClearError) :=
  let? _ := or_unchanged (inspecting (retry_profile_file_operation (open_link_itself p))) in
  let? node := or_unchanged (inspecting (open_link_itself p)) in
  match node with
  | Link _ =>
      ret (Err (ClearUnchanged (CleanupUnknown "generated runtime profile became a reparse point")))
  | File _ | Directory =>
      let? actual := or_unchanged (read_materialized_profile p) in
      if bool_decide (actual ≠ expected) then
        ret (Err (ClearUnchanged
          (CleanupUnknown "generated runtime profile differs from the active generation")))
      else
        let! removed := mark_open_file_for_deletion p in
        ret (map_err (λ e, ClearUnknown (cleanup_unknown_io e)) removed)
  end.

Definition clear_materialized_generation (g : GenerationId)
    : M Disk (result bool MaterializedProfileClearError) :=
  let? root := or_unchanged active_runtime_root in
  match root with
  | None => ret (Ok false)
  | Some runtime_root =>
      let path := path_join runtime_root GENERATED_PROFILE_NAME in
      let! found := fs_symlink_metadata path in
      match found with
      | Err error =>
          if not_found error then ret (Ok false)
          else ret (Err (ClearUnchanged (cleanup_unknown_io error)))
      | Ok _ =>
          let? _ := or_unchanged (reject_reparse_ancestors path) in
          let? expected := or_unchanged (verified_generation_bytes g) in
          let? _ := remove_exact_materialized_profile path expected in
          ret (Ok true)
      end
  end.

Definition ensure_materialized_profile_absent : M Disk (result unit SetupError) :=
  let? root := active_runtime_root in
  match root with
  | None => ret (Ok tt)
  | Some runtime_root =>
      let! found := fs_symlink_metadata (path_join runtime_root GENERATED_PROFILE_NAME) in
      match found with
      | Err error =>
          if not_found error then ret (Ok tt)
          else ret (Err (CleanupUnknown
            ("generated runtime profile could not be inspected: " ++ io_text error)))
      | Ok _ => ret (Err (CleanupUnknown
          "generated runtime profile exists without a verified generation identity"))
      end
  end.

(** The destination compared with the expected bytes: the regular-file arm that
    [observe_materialized_generation] and [restore_generation_after_confirmed_clear]
    share, with the words of each. *)
Definition compare_destination (context description : string) (p : Path) (expected : list ascii)
    : M Disk (result unit SetupError) :=
  let? _ := with_err (unknown (context ++ " found an unsafe destination: ")) (reject_reparse_ancestors p) in
  let? actual := with_err (unknown (context ++ " could not verify its destination: "))
    (read_bounded_regular_file p MAX_PROFILE_BYTES description) in
  if bool_decide (actual ≠ expected) then
    ret (Err (CleanupUnknown (context ++ " found foreign destination bytes")))
  else ret (Ok tt).

Definition observe_materialized_generation (g : GenerationId)
    : M Disk (result MaterializedProfileObservation SetupError) :=
  let? root := active_runtime_root in
  match root with
  | None => ret (Ok MaterializedAbsent)
  | Some runtime_root =>
      let? expected := verified_generation_bytes g in
      let path := path_join runtime_root GENERATED_PROFILE_NAME in
      let! found := fs_symlink_metadata path in
      match found with
      | Err error =>
          if not_found error then ret (Ok MaterializedAbsent)
          else ret (Err (CleanupUnknown
            ("uncertain profile cleanup could not inspect its destination: " ++ io_text error)))
      | Ok (File _) =>
          let? _ := compare_destination "uncertain profile cleanup" "uncertain generated runtime profile"
                      path expected in
          ret (Ok ExactGeneration)
      | Ok (Directory | Link _) =>
          ret (Err (CleanupUnknown "uncertain profile cleanup found a non-regular destination"))
      end
  end.

Definition restore_generation_after_confirmed_clear (g : GenerationId)
    : M Disk (result bool SetupError) :=
  let? root := active_runtime_root in
  match root with
  | None => ret (Ok false)
  | Some runtime_root =>
      let? expected := verified_generation_bytes g in
      let path := path_join runtime_root GENERATED_PROFILE_NAME in
      let failing text {A : Type} (m : M Disk (result A IoError)) :=
        (let! r := m in ret (map_err (λ e, CleanupUnknown (text ++ io_text e)) r)) in
      let! found := fs_symlink_metadata path in
      match found with
      | Err error =>
          if not_found error then
            let? _ := failing
              "confirmed profile restoration could not exclusively create its destination: "%string
              (create_new path) in
            let? _ := failing "confirmed profile restoration did not write exact bytes: "%string
              (write_all path expected) in
            let? _ := failing "confirmed profile restoration could not persist exact bytes: "%string
              (sync_all path) in
            ret (Ok true)
          else ret (Err (CleanupUnknown
            ("confirmed profile restoration could not inspect its destination: " ++ io_text error)))
      | Ok (File _) =>
          let? _ := compare_destination "confirmed profile restoration"
                      "confirmed generated runtime profile" path expected in
          ret (Ok true)
      | Ok (Directory | Link _) =>
          ret (Err (CleanupUnknown "confirmed profile restoration found a non-regular destination"))
      end
  end.
End Bridge.

(** ** What the bridge reads *)

Section BridgeFacts.
Context `{World, Sha256, ActivationJson, PointerJson} (paths : MachinePaths).
Implicit Types (P : Nodes → Prop) (d : Disk).

(** The bytes are a valid profile and the generation is named after them. *)
Definition vouches (g : GenerationId) (bytes : list ascii) : Prop :=
  validate_profile bytes = Ok tt ∧ sha256_digest bytes = g ∧ (0 < bytes_len bytes <= MAX_PROFILE_BYTES)%N.

(** The active pointer names the version [v]. *)
Definition runtime_active (m : Nodes) (v : string) : Prop :=
  valid_runtime_version_component v = true ∧
  ∃ bytes p, readable m (runtime_pointer paths) = Ok bytes ∧ pointer_from_slice bytes = Some p ∧
    version p = v.

Lemma is_dir_spec P p d : spec P (is_dir p) (λ _ d', nodes d' = nodes d) d.
Proof.
  unfold is_dir, fs_metadata. spec_then os_read_spec. intros r d1 _ [Hn _]. by apply spec_ret.
Qed.

Lemma active_runtime_root_spec P d :
  spec P (active_runtime_root paths) (λ r d', nodes d' = nodes d ∧
    (∀ root, r = Ok (Some root) →
       ∃ v, root = path_join (runtime_versions paths) v ∧ runtime_active (nodes d) v) ∧
    ((∀ n, blind n = false) → r = Ok None → node_exists (nodes d) (runtime_pointer paths) = false)) d.
Proof.
  unfold active_runtime_root. spec_then path_exists_spec. intros present d1 _ (Hn1 & _ & Hsee).
  destruct present; cbn [negb].
  2: { apply spec_ret. split; [done|]. split; [done|]. intros Hb _. by rewrite <- (Hsee Hb). }
  try_then reject_reparse_quiet; [|quiet_error]. intros [] d2 _ Hn2.
  try_then read_bounded_quiet; [|quiet_error]. intros bytes d3 _ [Hn3 Hread].
  destruct (Hread _ eq_refl) as [_ Hbytes]. apply spec_try_ret; [|quiet_error].
  intros p Hp. destruct (pointer_from_slice bytes) as [p'|] eqn:Ep; [|done].
  cbn [ok_or] in Hp. apply (inj Ok) in Hp as ->.
  destruct (_ || _) eqn:Ev; [apply spec_ret; quiet_error|]. andb_split.
  try_then reject_reparse_quiet; [|quiet_error]. intros [] d5 _ Hn5.
  spec_then is_dir_spec. intros directory d6 _ Hn6.
  assert (nodes d6 = nodes d) as Hn by congruence.
  destruct directory; apply spec_ret; (split; [done|split; [|done]]); [|done].
  intros root [= <-]. exists (version p). split; [done|].
  split; [done|]. exists bytes, p. by rewrite Hn2, Hn1 in Hbytes.
Qed.

Lemma verified_generation_spec P g d :
  spec P (verified_generation_bytes paths g) (λ r d', nodes d' = nodes d ∧
    ∀ bytes, r = Ok bytes → vouches g bytes ∧ readable (nodes d) (generation_profile paths g) = Ok bytes) d.
Proof.
  unfold verified_generation_bytes. try_then reject_reparse_quiet; [|quiet_error]. intros [] d1 _ Hn1.
  eapply spec_try; [apply (spec_map_err P (λ _, TamperedGeneration) _ (λ d', nodes d' = nodes d1)
    (λ bytes _, (0 < bytes_len bytes <= MAX_PROFILE_BYTES)%N ∧
       readable (nodes d1) (generation_profile paths g) = Ok bytes)), read_bounded_quiet|cbv beta|quiet_error].
  intros bytes d2 _ [Hn2 Hread]. destruct (Hread _ eq_refl) as [Hlen Hb]. rewrite Hn1 in Hb.
  apply spec_try_ret; [|quiet_error]. intros g' Hg'. unfold profile_checked, publish_machine_profile in Hg'.
  destruct (validate_profile bytes) as [[]|] eqn:Evalid; [|done]. apply (inj Ok) in Hg'. cbn [fst] in Hg'.
  case_bool_decide as Hne; apply spec_ret; (split; [congruence|]); [done|].
  intros b <-%(inj Ok). split; [|done]. split; [done|]. split; [|done].
  destruct (decide (g' = g)) as [<-|]; [done|by destruct Hne].
Qed.

(** ** What materializing does *)

Definition generated (v : string) : Path :=
  path_join (path_join (runtime_versions paths) v) GENERATED_PROFILE_NAME.

(** From [before], the copy next to each runtime is as it was or a whole profile of
    the generation; hidden files and missing directories above a copy apart, nothing
    else changes. *)
Record materializing (g : GenerationId) (before m : Nodes) : Prop := {
  others_kept q : hidden q = false → (∀ v, ¬ q `prefix_of` generated v) → m !! q = before !! q;
  generated_whole v : m !! generated v = before !! generated v ∨
    ∃ bytes, m !! generated v = Some (File bytes) ∧ vouches g bytes
}.

Definition not_hidden (q : Path) : Prop := hidden q = false.

Lemma generated_not_hidden v : not_hidden (generated v).
Proof. unfold not_hidden, generated. by rewrite hidden_join. Qed.

Lemma agree_materializing g before m : agree not_hidden before m → materializing g before m.
Proof. intros Hm. split; [intros; by apply Hm|]. intros v. left. apply Hm, generated_not_hidden. Qed.

Lemma materializing_agree g before m m' :
  agree not_hidden before m → materializing g m m' → materializing g before m'.
Proof.
  intros Hm [Ho Hg]. split.
  - intros q Hq Hv. rewrite Ho by done. by apply Hm.
  - intros v. rewrite <- (Hm (generated v)) by apply generated_not_hidden. apply Hg.
Qed.

Lemma writing_materializing g v bytes before m :
  vouches g bytes → writing before (generated v) bytes m → materializing g before m.
Proof.
  intros Hb [Hp Hrest]. split.
  - intros q Hq Hv. apply Hrest, untouched_spec. auto.
  - intros v'. destruct (decide (v' = v)) as [->|Hne].
    + destruct Hp as [Hp|Hp]; rewrite Hp; eauto.
    + left. apply Hrest, untouched_spec. split; [apply generated_not_hidden|].
      unfold generated, path_join. rewrite <- !app_assoc. by apply parted_not_prefix.
Qed.

Lemma remove_interrupted_leaves root names : leaves not_hidden (remove_interrupted root names).
Proof.
  induction names as [|name names IH]; cbn [remove_interrupted]; [apply leaves_ret|].
  destruct (strip_prefix _ name) as [suffix|] eqn:E; [|done].
  assert (¬ not_hidden (path_join root name)) as Hh.
  { unfold not_hidden. rewrite hidden_join. apply not_false_iff_true.
    unfold strip_prefix in E. destruct (bytes_strip_prefix _ _) eqn:Es; [|done].
    exact (bytes_strip_prefix_first "." (str_bytes "MacType.ini.new-") _ _ Es). }
  unfold entry_file_len, fs_symlink_metadata. frame.
Qed.

Lemma remove_interrupted_writes_leaves root :
  leaves not_hidden (remove_interrupted_generated_profile_writes root).
Proof. unfold remove_interrupted_generated_profile_writes. frame. apply remove_interrupted_leaves. Qed.

Lemma materialize_spec g d :
  spec (materializing g (nodes d)) (materialize_generation paths g) (λ r d',
    materializing g (nodes d) (nodes d') ∧
    (r = Ok true → ∃ v bytes, runtime_active (nodes d) v ∧ vouches g bytes ∧
       readable (nodes d') (generated v) = Ok bytes) ∧
    ((∀ n, blind n = false) → r = Ok false → node_exists (nodes d) (runtime_pointer paths) = false)) d.
Proof.
  assert (∀ m : Nodes, m = nodes d → materializing g (nodes d) m) as Hsame
    by (intros m ->; by apply agree_materializing).
  unfold materialize_generation. try_then active_runtime_root_spec.
  2: { intros e d1 _ [Hn1 _]. split; [by apply Hsame|done]. }
  intros root d1 _ (Hn1 & Hroot & Hnone). destruct root as [root|].
  2: { apply spec_ret. split; [by apply Hsame|]. split; [done|]. intros Hb _. by apply Hnone. }
  destruct (Hroot root eq_refl) as (v & -> & Hv).
  eapply spec_try; [eapply spec_mono; [apply remove_interrupted_writes_leaves| |]|cbv beta..].
  { intros n Hn. apply agree_materializing. by rewrite <- Hn1. }
  { by intros a d2 _ Hd2; exact Hd2. }
  2: { intros e d2 _ Hd2. split; [|done]. apply agree_materializing. by rewrite <- Hn1. }
  intros [] d2 _ Hd2. cbv beta in Hd2. rewrite Hn1 in Hd2.
  try_then verified_generation_spec.
  2: { intros e d3 _ [Hn3 _]. split; [|done]. apply agree_materializing. by rewrite Hn3. }
  intros bytes d3 _ [Hn3 Hbytes]. destruct (Hbytes bytes eq_refl) as [Hvouch _].
  assert (∀ d4 : Disk, nodes d4 = nodes d3 →
    spec (materializing g (nodes d))
      (let? _ := atomic_write (generated v) bytes in ret (Ok true))
      (λ r d', materializing g (nodes d) (nodes d') ∧
        (r = Ok true → ∃ v bytes, runtime_active (nodes d) v ∧ vouches g bytes ∧
           readable (nodes d') (generated v) = Ok bytes) ∧
        ((∀ n, blind n = false) → r = Ok false →
           node_exists (nodes d) (runtime_pointer paths) = false)) d4) as Hwrite.
  { intros d4 Hn4.
    assert (∀ m : Nodes, writing (nodes d4) (generated v) bytes m → materializing g (nodes d) m) as Hw.
    { intros m Hm. eapply materializing_agree; [exact Hd2|]. rewrite <- Hn3, <- Hn4.
      by eapply writing_materializing. }
    eapply spec_try; [eapply spec_mono; [apply atomic_write_spec|exact Hw|]|cbv beta..].
    { by intros r d5 _ Hr; exact Hr. }
    - intros [] d5 _ [Hm Hok]. apply spec_ret. split; [by apply Hw|]. split; [|done].
      intros _. exists v, bytes. split; [done|]. split; [done|]. unfold readable. by rewrite Hok.
    - intros e d5 _ [Hm _]. split; [by apply Hw|done]. }
  assert (∀ m : Nodes, m = nodes d3 → materializing g (nodes d) m) as Hlater.
  { intros m ->. apply agree_materializing. by rewrite Hn3. }
  cbv zeta. spec_then path_exists_spec. intros present d4 _ (Hn4 & _ & _). destruct present.
  2: { by apply Hwrite. }
  try_then reject_reparse_quiet.
  2: { intros e d5 _ Hn5. split; [apply Hlater; congruence|done]. }
  intros [] d5 _ Hn5. try_then read_bounded_quiet.
  2: { intros e d6 _ [Hn6 _]. split; [apply Hlater; congruence|done]. }
  intros actual d6 _ [Hn6 Hread]. destruct (Hread actual eq_refl) as [_ Hactual].
  case_bool_decide as Heq; [|apply Hwrite; congruence]. subst actual.
  apply spec_ret. split; [apply Hlater; congruence|]. split; [|done].
  intros _. exists v, bytes. split; [done|]. split; [done|]. by rewrite Hn6.
Qed.
End BridgeFacts.

(** ** The names of interrupted writes *)

Lemma split_on_join {A : Type} (p : A → bool) (first rest : list A) c :
  forallb (negb ∘ p) first = true → p c = true →
  split_on p (first ++ c :: rest) = first :: split_on p rest.
Proof.
  induction first as [|b first IH]; simpl; intros Hf Hc; [by rewrite Hc|].
  apply andb_prop in Hf as [Hb Hf]. unfold compose in Hb. apply negb_true_iff in Hb.
  by rewrite Hb, IH.
Qed.

Lemma digits_have_no_dash l :
  forallb is_ascii_digit l = true → forallb (negb ∘ (λ b, (b =? "-")%char)) l = true.
Proof.
  rewrite !forallb_forall. intros Hl b Hb. unfold compose. apply negb_true_iff, Ascii.eqb_neq.
  intros ->. by apply Hl in Hb.
Qed.

(** A number as it is written, and numbers with dashes between them. *)
Definition is_number (c : list ascii) : Prop := c ≠ [] ∧ forallb is_ascii_digit c = true.

Fixpoint dashed (numbers : list (list ascii)) : list ascii :=
  match numbers with
  | [] => []
  | [last] => last
  | number :: numbers' => number ++ "-"%char :: dashed numbers'
  end.

Lemma split_on_dashed numbers :
  numbers ≠ [] → Forall is_number numbers → split_on (λ b, (b =? "-")%char) (dashed numbers) = numbers.
Proof.
  intros Hne Hn. destruct numbers as [|number numbers]; [done|]. clear Hne.
  revert number Hn. induction numbers as [|next numbers IH]; intros number [[_ Hd] Hn]%Forall_cons.
  - by apply split_on_free, digits_have_no_dash.
  - cbn [dashed]. rewrite split_on_join; [|by apply digits_have_no_dash|done]. f_equal. by apply IH.
Qed.

Lemma dashed_split_on (l : list ascii) : dashed (split_on (λ b, (b =? "-")%char) l) = l.
Proof.
  induction l as [|b l IH]; [done|]. cbn [split_on].
  pose proof (split_on_first (λ b, (b =? "-")%char) l) as (first & _ & Hs).
  destruct (Ascii.eqb_spec b "-") as [->|].
  - destruct Hs as [[_ Hs]|(c & rest & _ & _ & Hs)]; rewrite Hs in *; cbn; by f_equal.
  - destruct Hs as [[_ Hs]|(c & rest & _ & _ & Hs)]; rewrite Hs in *; cbn [dashed] in *; [by f_equal|].
    destruct (split_on _ rest); cbn in *; by f_equal.
Qed.

Lemma owned_suffix_spec suffix :
  owned_suffix suffix = true ↔ ∃ numbers, str_bytes suffix = dashed numbers ∧
    (length numbers = 2 ∨ length numbers = 3) ∧ Forall is_number numbers.
Proof.
  unfold owned_suffix. cbv zeta. rewrite andb_true_iff, orb_true_iff, !Nat.eqb_eq, forallb_forall.
  split.
  - intros [Hl Hd]. eexists. rewrite dashed_split_on. split; [done|]. split; [done|].
    apply Forall_forall. intros c Hc. apply list_elem_of_In, Hd, andb_prop in Hc as [Hc ?].
    split; [|done]. by case_bool_decide.
  - intros (numbers & -> & Hl & Hn). rewrite split_on_dashed; [|by intros ->; destruct Hl|done].
    split; [done|]. intros c Hc%list_elem_of_In. rewrite Forall_forall in Hn.
    destruct (Hn c Hc) as [Hne ->]. by rewrite bool_decide_eq_false_2.
Qed.

Lemma temporary_nonce_spec `{World} (d : Disk) :
  ∃ numbers d', temporary_nonce d = Some (bytes_str (dashed numbers), d') ∧
    length numbers = 3 ∧ Forall is_number numbers.
Proof.
  eexists [str_bytes (pretty process_id); str_bytes (pretty (timestamp (sequence d)));
           str_bytes (pretty (sequence d))], _.
  split; [|split; [done|repeat constructor; apply pretty_N_digits]].
  unfold temporary_nonce. cbn. f_equal. f_equal.
  rewrite <- (string_of_list_ascii_of_string (_ ++ _ ++ _)). unfold bytes_str. f_equal.
  by rewrite !str_bytes_app.
Qed.

Lemma prefixed_suffix (nonce : string) :
  strip_prefix GENERATED_PROFILE_TEMP_PREFIX
    ("." ++ GENERATED_PROFILE_NAME ++ ".new-" ++ nonce) = Some nonce.
Proof.
  unfold strip_prefix. change ("." ++ GENERATED_PROFILE_NAME ++ ".new-" ++ nonce)%string
    with (GENERATED_PROFILE_TEMP_PREFIX ++ nonce)%string.
  rewrite str_bytes_app, bytes_strip_prefix_of. cbn [option_map]. f_equal.
  apply string_of_list_ascii_of_string.
Qed.

(** ** Properties *)

(** The copy of the profile next to a runtime is the active generation, whole:
    materializing ends whatever fails, and in every state it passes through each copy
    is the one it was or a valid profile whose digest is the generation, and nothing
    else changed but hidden files and missing directories above a copy.  A success
    leaves such a profile next to the runtime the pointer names; without a runtime
    the answer is that there is none, and only then. *)
Theorem materialized_profile_is_the_generation `{World, Sha256, ActivationJson, PointerJson} paths g d :
  ∃ r d', materialize_generation paths g d = Some (r, d') ∧
    (∀ m, visited d d' m → materializing paths g (nodes d) m) ∧
    (r = Ok true → ∃ v bytes, runtime_active paths (nodes d) v ∧ vouches g bytes ∧
       readable (nodes d') (generated paths v) = Ok bytes) ∧
    ((∀ n, blind n = false) → r = Ok false → node_exists (nodes d) (runtime_pointer paths) = false).
Proof.
  destruct (spec_runs _ _ _ _ (materialize_spec paths g d)) as (r & d' & E & Hrun & _ & Hok & Hnone).
  exists r, d'. split; [exact E|]. split; [|done]. intros m. by apply (run_visited _ _ _ _ Hrun).
Qed.

(** The clean-up knows every name a write of the profile leaves behind when it is
    interrupted: the temporary name made of any process number, time and sequence
    starts with the prefix the clean-up looks for, and what follows passes as its
    own; and what passes are exactly two or three numbers with dashes between. *)
Theorem interrupted_writes_are_recognised `{World} d :
  (∃ nonce d' suffix, temporary_nonce d = Some (nonce, d') ∧
    strip_prefix GENERATED_PROFILE_TEMP_PREFIX
      ("." ++ GENERATED_PROFILE_NAME ++ ".new-" ++ nonce) = Some suffix ∧
    owned_suffix suffix = true) ∧
  ∀ suffix, owned_suffix suffix = true ↔ ∃ numbers, str_bytes suffix = dashed numbers ∧
    (length numbers = 2 ∨ length numbers = 3) ∧ Forall is_number numbers.
Proof.
  split; [|apply owned_suffix_spec].
  destruct (temporary_nonce_spec d) as (numbers & d' & E & Hlen & Hnum).
  exists (bytes_str (dashed numbers)), d', (bytes_str (dashed numbers)).
  split; [done|]. split; [apply prefixed_suffix|].
  apply owned_suffix_spec. exists numbers. split; [apply str_bytes_str|]. by split; [right|].
Qed.
