(* ===== verification/GenerationStore.v ===== *)
(** * The store of runtime generations

    [service-runtime/setup/src/runtime_installer/deployment.rs], [retention.rs],
    [retention/receipt.rs], [retention/pins.rs] and [deferred_delete.rs]: how a payload
    is loaded and staged as a generation, how a generation is verified against its
    receipt, and which generations retention removes.  The names of a directory are
    Unicode here, so the branches for other names do not appear; what is reported on
    standard error is not kept. *)

From stdpp Require Import pretty.
From S2P Require Export ProfileBridge.

Definition MAX_MANIFEST_BYTES : N := 64 * 1024.
Definition RUNTIME_RECEIPT_SCHEMA : N := 1.
Definition MAX_RUNTIME_RECEIPT_BYTES : N := 16 * 1024.
Definition MAX_MIGRATION_RUNTIME_PIN_BYTES : N := 64 * 1024.
Definition MIGRATION_RUNTIME_PINS_DIRECTORY : string := "migration-runtime-pins".

Record RuntimeReceipt := {
  runtime_receipt_schema : N;
  receipt_version : string;
  receipt_files : gmap string string
}.

#[export] Instance MigrationPinnedRuntime_eq_dec : EqDecision MigrationPinnedRuntime.
Proof. solve_decision. Defined.

(** What serde_json makes of manifests, receipts and pins. *)
Class StoreJson := {
  manifest_from_slice : list ascii → option RuntimeManifest;
  runtime_receipt_from_slice : list ascii → option RuntimeReceipt;
  runtime_receipt_to_vec : RuntimeReceipt → result (list ascii) string;
  pin_from_slice : list ascii → option MigrationRuntimePin
}.

(** [delay_delete_until_reboot] of the platform, which calls [MoveFileExW]. *)
Class DeferredDelete := { delay_delete_until_reboot : Path → M Disk (result unit IoError) }.

(** [impl Display for ManifestError] *)
Definition manifest_error_display (e : ManifestError) : string :=
  "runtime manifest verification failed: " ++
  match e with
  | InvalidJson => "InvalidJson"
  | UnsupportedSchema => "UnsupportedSchema"
  | InvalidVersion => "InvalidVersion"
  | InvalidFileSet => "InvalidFileSet"
  | InvalidHash => "InvalidHash"
  | HashMismatch => "HashMismatch"
  | FileEmpty => "FileEmpty"
  | FileTooLarge => "FileTooLarge"
  end.

Definition is_valid_for (r : RuntimeReceipt) (version : string) : bool :=
  (runtime_receipt_schema r =? RUNTIME_RECEIPT_SCHEMA)%N
  && (receipt_version r =? version)%string
  && valid_runtime_version_component (receipt_version r)
  && (size (receipt_files r) =? length IMMUTABLE_RUNTIME_FILES)
  && forallb (contains_key (receipt_files r)) IMMUTABLE_RUNTIME_FILES
  && forallb (λ '(name, digest),
       one_of IMMUTABLE_RUNTIME_FILES name
       && (str_len digest =? 71)%N && starts_with "sha256:" digest
       && forallb is_lower_hex (drop 7 (str_bytes digest))) (map_to_list (receipt_files r)).

(** The entries of a [BTreeMap] as it is iterated. *)
Definition entries_in_order {V : Type} (m : gmap string V) : list (string * V) :=
  omap (λ k, option_map (pair k) (m !! k)) (keys_in_order m).

Section Store.
Context `{World, Sha256, ActivationJson, StoreJson, DeferredDelete} (paths : MachinePaths).

(** ** [retention/receipt.rs] *)

Definition runtime_receipts_root : Path := path_join (service_root paths) "runtime-receipts".
Definition runtime_receipt_path (version : string) : Path :=
  path_join runtime_receipts_root (version ++ ".json").

(** [metadata.is_file() && metadata.len() != 0 && metadata.len() <= limit] *)
Definition bounded_file (len : option N) (limit : N) : bool :=
  match len with Some len => negb ((len =? 0) || (limit <? len))%N | None => false end.

(** The loop of [verify]; it answers the names it has verified. *)
Fixpoint verify_signed_files (receipt : RuntimeReceipt) (directory : Path) (names : list string)
    (verified : gset string) : M Disk (result (gset string) SetupError) :=
  match names with
  | [] => ret (Ok verified)
  | name :: names' =>
      let path := path_join directory name in
      let? _ := reject_reparse_ancestors path in
      if (name =? GENERATED_PROFILE_NAME)%string then
        let? len := lift_io (entry_file_len path) in
        if bounded_file len MAX_PROFILE_BYTES then verify_signed_files receipt directory names' verified
        else ret (Err (Runtime "generated profile is not a bounded regular file"))
      else
        match receipt_files receipt !! name with
        | None => ret (Err (Runtime "runtime generation contains an unsigned file"))
        | Some expected =>
            let? bytes := read_bounded_regular_file path MAX_RUNTIME_FILE_BYTES
                            "runtime generation file" in
            if bool_decide (sha256_digest bytes ≠ expected) then
              ret (Err (Runtime "runtime generation file differs from its receipt"))
            else verify_signed_files receipt directory names' ({[ name ]} ∪ verified)
        end
  end.

Definition store_verify (version : string) (directory : Path) : M Disk (result unit SetupError) :=
  let? _ := reject_reparse_ancestors directory in
  let? metadata := lift_io (fs_metadata directory) in
  match metadata with
  | RegularFile _ => ret (Err (Runtime "runtime generation is not a regular directory"))
  | DirectoryMetadata =>
      let? receipt_bytes := read_bounded_regular_file (runtime_receipt_path version)
                              MAX_RUNTIME_RECEIPT_BYTES "runtime generation receipt" in
      let? receipt := ret (ok_or (runtime_receipt_from_slice receipt_bytes)
                             (Runtime "runtime generation receipt is invalid")) in
      if negb (is_valid_for receipt version) then
        ret (Err (Runtime "runtime generation receipt violates the fixed manifest contract"))
      else
        let? entries := read_bounded_directory directory (length IMMUTABLE_RUNTIME_FILES + 1)
                          "runtime generation entry count" in
        if length entries <? length IMMUTABLE_RUNTIME_FILES then
          ret (Err (Runtime "runtime generation contains an unexpected file set"))
        else
          let? verified := verify_signed_files receipt directory entries ∅ in
          if negb (size verified =? length IMMUTABLE_RUNTIME_FILES) then
            ret (Err (Runtime "runtime generation is missing a receipt file"))
          else ret (Ok tt)
  end.

(** ** [deployment.rs] *)

Record FixedPayload := { payload_root : Path }.

Record LoadedPayload := {
  verified : VerifiedRuntimeManifest;
  payload_files : gmap string (list ascii)
}.

Definition write_runtime_receipt (payload : LoadedPayload) : M Disk (result unit SetupError) :=
  let? _ := create_protected_directory runtime_receipts_root in
  let files := sha256_digest <$> payload_files payload in
  let? bytes := ret (map_err Manifest (runtime_receipt_to_vec
    {| runtime_receipt_schema := RUNTIME_RECEIPT_SCHEMA;
       receipt_version := verified_version (verified payload);
       receipt_files := files |})) in
  atomic_write (runtime_receipt_path (verified_version (verified payload))) bytes.

(** The loop of [FixedPayload::load] over the entries of the payload. *)
Fixpoint load_files (files_root : Path) (names : list string) (files : gmap string (list ascii))
    : M Disk (result (gmap string (list ascii)) SetupError) :=
  match names with
  | [] => ret (Ok files)
  | name :: names' =>
      let path := path_join files_root name in
      let? _ := reject_reparse_ancestors path in
      let? len := lift_io (entry_file_len path) in
      match len with
      | Some len =>
          if (MAX_RUNTIME_FILE_BYTES <? len)%N then
            ret (Err (Manifest "payload entry is not a bounded regular file"))
          else
            let? _ := lift_io (open_read path) in
            let? bytes := lift_io (read_to_end (MAX_RUNTIME_FILE_BYTES + 1) path) in
            if (MAX_RUNTIME_FILE_BYTES <? bytes_len bytes)%N then
              ret (Err (Manifest "payload file is too large"))
            else load_files files_root names' (<[name := bytes]> files)
      | None => ret (Err (Manifest "payload entry is not a bounded regular file"))
      end
  end.

Definition payload_load (payload : FixedPayload) : M Disk (result LoadedPayload SetupError) :=
  let manifest_path := path_join (payload_root payload) "manifest.json" in
  let files_root := path_join (payload_root payload) "files" in
  let? _ := reject_reparse_ancestors (payload_root payload) in
  let? _ := reject_reparse_ancestors manifest_path in
  let? _ := reject_reparse_ancestors files_root in
  let? manifest := with_err (λ error, Manifest (display error))
    (read_bounded_regular_file manifest_path MAX_MANIFEST_BYTES "runtime manifest") in
  let? names := read_bounded_directory files_root (length IMMUTABLE_RUNTIME_FILES)
                  "payload entry count" in
  let? files := load_files files_root names ∅ in
  let? verified := ret (map_err (λ error, Manifest (manifest_error_display error))
    (verify_runtime_manifest manifest_from_slice manifest files)) in
  ret (Ok {| verified := verified; payload_files := files |}).

Definition write_synced (p : Path) (bytes : list ascii) : M Disk (result unit SetupError) :=
  let? _ := lift_io (create_new p) in
  let? _ := lift_io (write_all p bytes) in
  let? _ := lift_io (sync_all p) in
  ret (Ok tt).

(** The loop of [verify_existing_payload]; it answers how many files it has verified. *)
Fixpoint verify_installed_files (directory : Path) (expected : gmap string (list ascii))
    (names : list string) (count : nat) : M Disk (result nat SetupError) :=
  match names with
  | [] => ret (Ok count)
  | name :: names' =>
      let path := path_join directory name in
      let? _ := reject_reparse_ancestors path in
      if (name =? GENERATED_PROFILE_NAME)%string then
        let? len := lift_io (entry_file_len path) in
        if bounded_file len MAX_PROFILE_BYTES then verify_installed_files directory expected names' count
        else ret (Err (Runtime "generated runtime profile is not a bounded regular file"))
      else
        match expected !! name with
        | None => ret (Err (Runtime "runtime contains an unsigned file"))
        | Some bytes =>
            let? actual := read_bounded_regular_file path MAX_RUNTIME_FILE_BYTES
                             "installed runtime file" in
            if bool_decide (actual ≠ bytes) then
              ret (Err (Runtime "installed runtime hash verification failed"))
            else verify_installed_files directory expected names' (S count)
        end
  end.

Definition verify_existing_payload (directory : Path) (expected : gmap string (list ascii))
    : M Disk (result unit SetupError) :=
  let? _ := reject_reparse_ancestors directory in
  let? entries := read_bounded_directory directory (size expected + 1)
                    "installed runtime entry count" in
  if length entries <? size expected then
    ret (Err (Runtime "installed runtime contains an unexpected file set"))
  else
    let? verified_manifest_files := verify_installed_files directory expected entries 0 in
    if negb (verified_manifest_files =? size expected) then
      ret (Err (Runtime "installed runtime is missing a manifest file"))
    else ret (Ok tt).

(** The first loop of [remove_legacy_staging_collision]: the files it may remove. *)
Fixpoint staged_files (staging : Path) (expected : gmap string (list ascii)) (names : list string)
    : M Disk (result (list Path) SetupError) :=
  match names with
  | [] => ret (Ok [])
  | name :: names' =>
      if negb (contains_key expected name) then
        ret (Err (Runtime "runtime staging collision contains an unexpected entry"))
      else
        let path := path_join staging name in
        let? _ := reject_reparse_ancestors path in
        let? len := lift_io (entry_file_len path) in
        let refusal := Runtime "runtime staging collision contains a non-regular entry" in
        match len with
        | Some len =>
            if (MAX_RUNTIME_FILE_BYTES <? len)%N then ret (Err refusal)
            else
              let? rest := staged_files staging expected names' in
              ret (Ok (path :: rest))
        | None => ret (Err refusal)
        end
  end.

(** [for path in files { fs::remove_file(path)?; }] *)
Fixpoint remove_files (files : list Path) : M Disk (result unit SetupError) :=
  match files with
  | [] => ret (Ok tt)
  | path :: files' =>
      let? _ := lift_io (remove_file path) in
      remove_files files'
  end.

Definition remove_legacy_staging_collision (root : Path) (version : string)
    (expected : gmap string (list ascii)) : M Disk (result unit SetupError) :=
  let staging := path_join root (".staging-" ++ version ++ "-" ++ pretty process_id) in
  let! present := path_exists staging in
  if negb present then ret (Ok tt)
  else
    let? _ := reject_reparse_ancestors staging in
    let? metadata := lift_io (fs_metadata staging) in
    match metadata with
    | RegularFile _ => ret (Err (Runtime "runtime staging collision is not a protected directory"))
    | DirectoryMetadata =>
        let? names := read_bounded_directory staging (size expected) "runtime staging entry count" in
        let? files := staged_files staging expected names in
        let? _ := remove_files files in
        let? _ := lift_io (fs_remove_dir staging) in
        ret (Ok tt)
    end.

(** [for (name, bytes) in &payload.files { write_synced(&staging.join(name), bytes)?; }] *)
Fixpoint write_payload (staging : Path) (files : list (string * list ascii))
    : M Disk (result unit SetupError) :=
  match files with
  | [] => ret (Ok tt)
  | (name, bytes) :: files' =>
      let? _ := write_synced (path_join staging name) bytes in
      write_payload staging files'
  end.

Definition stage_payload (payload : LoadedPayload) (destination : Path) (replace_invalid : bool)
    (replace_invalid_payload : Path → LoadedPayload → M Disk (result unit SetupError))
    : M Disk (result unit SetupError) :=
  let? _ := create_protected_directory (runtime_versions paths) in
  let? _ := remove_legacy_staging_collision (runtime_versions paths)
              (verified_version (verified payload)) (payload_files payload) in
  let! present := path_exists destination in
  if present then
    let? _ := reject_reparse_ancestors destination in
    let! existing := verify_existing_payload destination (payload_files payload) in
    match existing with
    | Ok _ => ret (Ok tt)
    | Err error =>
        if negb replace_invalid then ret (Err error) else replace_invalid_payload destination payload
    end
  else
    let! nonce := temporary_nonce in
    let staging := path_join (runtime_versions paths)
                     (".staging-" ++ verified_version (verified payload) ++ "-" ++ nonce) in
    let! collides := path_exists staging in
    if collides then ret (Err (Runtime "runtime staging directory already exists"))
    else
      let? _ := create_protected_directory staging in
      let! result :=
        (let? _ := write_payload staging (entries_in_order (payload_files payload)) in
         let? _ := lift_io (fs_rename_directory staging destination) in
         verify_existing_payload destination (payload_files payload)) in
      match result with
      | Ok _ => ret (Ok tt)
      | Err error =>
          let! left_over := path_exists staging in
          if left_over then
            let! _ := fs_remove_dir_all staging in
            ret (Err error)
          else ret (Err error)
      end.

Definition stage (payload : LoadedPayload) (replace_invalid : bool)
    (replace_invalid_payload : Path → LoadedPayload → M Disk (result unit SetupError))
    : M Disk (result Path SetupError) :=
  let version := verified_version (verified payload) in
  let destination := path_join (runtime_versions paths) version in
  let? _ := with_err (at_machine_path "stage verified runtime payload" destination)
    (stage_payload payload destination replace_invalid replace_invalid_payload) in
  let? _ := with_err (at_machine_path "write runtime generation receipt" (runtime_receipt_path version))
    (write_runtime_receipt payload) in
  ret (Ok destination).

(** ** [retention/pins.rs] *)

Definition migration_runtime_pins_root : Path :=
  path_join (service_root paths) MIGRATION_RUNTIME_PINS_DIRECTORY.

Definition invalid_pin : SetupError :=
  Runtime "migration runtime pin is invalid: migration runtime pin violates the fixed contract".

(** [for (name, expected) in runtime.files()] *)
Fixpoint verify_pinned_files (root : Path) (files : list (string * string))
    : M Disk (result unit SetupError) :=
  match files with
  | [] => ret (Ok tt)
  | (name, expected) :: files' =>
      let? bytes := read_bounded_regular_file (path_join root name) MAX_RUNTIME_FILE_BYTES
                      "pinned runtime file" in
      if bool_decide (sha256_digest bytes ≠ expected) then
        ret (Err (Runtime "pinned runtime file differs from its migration hash"))
      else verify_pinned_files root files'
  end.

Definition verify_pinned_runtime (runtime : MigrationPinnedRuntime) : M Disk (result unit SetupError) :=
  if negb (pinned_runtime_validate runtime) then ret (Err invalid_pin)
  else
    let root := path_join (runtime_versions paths) (pinned_version runtime) in
    let? _ := reject_reparse_ancestors root in
    let? metadata := lift_io (fs_metadata root) in
    match metadata with
    | RegularFile _ => ret (Err (Runtime "pinned runtime generation is unavailable"))
    | DirectoryMetadata =>
        let expected_count := length IMMUTABLE_RUNTIME_FILES +
          match generated_profile runtime with Some _ => 1 | None => 0 end in
        let? entries := read_bounded_directory root expected_count "pinned runtime entry count" in
        if negb (length entries =? expected_count) then
          ret (Err (Runtime "pinned runtime contains an unexpected file set"))
        else
          let? _ := verify_pinned_files root (entries_in_order (pinned_files runtime)) in
          match generated_profile runtime with
          | None => ret (Ok tt)
          | Some expected =>
              let? bytes := read_bounded_regular_file (path_join root GENERATED_PROFILE_NAME)
                              MAX_PROFILE_BYTES "pinned generated profile" in
              if bool_decide (sha256_digest bytes ≠ expected) then
                ret (Err (Runtime "pinned generated profile differs from its migration hash"))
              else ret (Ok tt)
          end
    end.

(** [for runtime in pin.runtimes()] *)
Fixpoint collect_pinned (rs : list MigrationPinnedRuntime) (pinned : gmap string MigrationPinnedRuntime)
    : M Disk (result (gmap string MigrationPinnedRuntime) SetupError) :=
  match rs with
  | [] => ret (Ok pinned)
  | runtime :: rs' =>
      let? _ := verify_pinned_runtime runtime in
      match pinned !! pinned_version runtime with
      | Some existing =>
          if bool_decide (existing ≠ runtime) then
            ret (Err (Runtime "migration pins disagree about a runtime generation"))
          else collect_pinned rs' pinned
      | None =>
          let pinned := <[pinned_version runtime := runtime]> pinned in
          if (MAX_PINNED_RUNTIMES <? N.of_nat (size pinned))%N then
            ret (Err (Runtime "migration pinned runtime count exceeds the fixed limit"))
          else collect_pinned rs' pinned
      end
  end.

Definition pin_nonce (name : string) : option string :=
  match strip_suffix ".json" name with
  | Some nonce =>
      if (str_len nonce =? 32)%N && forallb is_lower_hex (str_bytes nonce) then Some nonce else None
  | None => None
  end.

(** [for entry in entries] *)
Fixpoint load_pins (root : Path) (names : list string) (pinned : gmap string MigrationPinnedRuntime)
    : M Disk (result (gmap string MigrationPinnedRuntime) SetupError) :=
  match names with
  | [] => ret (Ok pinned)
  | name :: names' =>
      match pin_nonce name with
      | None => ret (Err (Runtime "migration pin filename is not canonical"))
      | Some expected =>
          let? bytes := read_bounded_regular_file (path_join root name) MAX_MIGRATION_RUNTIME_PIN_BYTES
                          "migration runtime pin" in
          let? pin := ret (ok_or (pin_from_slice bytes) (Runtime "migration runtime pin is invalid")) in
          if negb (pin_validate pin) then ret (Err invalid_pin)
          else if negb (nonce pin =? expected)%string then
            ret (Err (Runtime "migration runtime pin nonce does not match its filename"))
          else
            let? pinned := collect_pinned (runtimes pin) pinned in
            load_pins root names' pinned
      end
  end.

Definition load_verified_migration_pins
    : M Disk (result (gmap string MigrationPinnedRuntime) SetupError) :=
  let root := migration_runtime_pins_root in
  let! present := path_exists root in
  if negb present then ret (Ok ∅)
  else
    let? _ := reject_reparse_ancestors root in
    let? metadata := lift_io (fs_metadata root) in
    match metadata with
    | RegularFile _ => ret (Err (Runtime "migration runtime pin root is not a directory"))
    | DirectoryMetadata =>
        let? entries := read_bounded_directory root (N.to_nat MAX_PINNED_RUNTIMES)
                          "migration runtime pin count" in
        load_pins root entries ∅
    end.

Definition verify_pinned (version : string) : M Disk (result bool SetupError) :=
  let? pinned := load_verified_migration_pins in
  ret (Ok (contains_key pinned version)).

(** ** [deferred_delete.rs] *)

Definition remove_or_defer (p : Path) (directory : bool) : M Disk (result unit SetupError) :=
  let! removal := (if directory then fs_remove_dir p else remove_file p) in
  match removal with
  | Ok _ => ret (Ok tt)
  | Err removal_error =>
      let! deferred := delay_delete_until_reboot p in
      ret (map_err (λ defer_error, CleanupUnknown
        ("verified runtime removal failed (" ++ io_text removal_error ++
         ") and could not be deferred until reboot (" ++ io_text defer_error ++ ")")) deferred)
  end.

Definition remove_file_or_defer (p : Path) (operation : string) : M Disk (result unit SetupError) :=
  with_err (at_machine_path operation p) (remove_or_defer p false).

Definition remove_directory_or_defer (p : Path) (operation : string) : M Disk (result unit SetupError) :=
  with_err (at_machine_path operation p) (remove_or_defer p true).

Definition defer_directory (p : Path) (operation : string) : M Disk (result unit SetupError) :=
  with_err (at_machine_path operation p) (lift_io (delay_delete_until_reboot p)).

(** ** [retention.rs] *)

Definition previous_runtime_pointer_path : Path := path_join (service_root paths) "previous-runtime.json".

(** The first loop of [remove_manifest_verified_generation_with_policy]: the files to
    remove and the immutable names among them. *)
Fixpoint removable_files (directory : Path) (names : list string)
    : M Disk (result (list Path * gset string) SetupError) :=
  match names with
  | [] => ret (Ok ([], ∅))
  | name :: names' =>
      let path := path_join directory name in
      if negb (name =? GENERATED_PROFILE_NAME)%string && negb (one_of IMMUTABLE_RUNTIME_FILES name) then
        ret (Err (Runtime "runtime removal found an unsigned file after verification"))
      else
        let? _ := reject_reparse_ancestors path in
        let? len := lift_io (entry_file_len path) in
        match len with
        | None => ret (Err (Runtime "runtime removal found a non-regular file after verification"))
        | Some _ =>
            let? rest := removable_files directory names' in
            let '(files, immutable_names) := rest in
            ret (Ok (path :: files,
              if (name =? GENERATED_PROFILE_NAME)%string then immutable_names
              else {[ name ]} ∪ immutable_names))
        end
  end.

Definition remove_generation_file (defer_locked_files : bool) (path : Path)
    : M Disk (result unit SetupError) :=
  if defer_locked_files then remove_file_or_defer path "remove verified runtime file"
  else with_err (at_machine_path "remove stale runtime file" path) (lift_io (remove_file path)).

Fixpoint remove_generation_files (defer_locked_files : bool) (files : list Path)
    : M Disk (result unit SetupError) :=
  match files with
  | [] => ret (Ok tt)
  | path :: files' =>
      let? _ := remove_generation_file defer_locked_files path in
      remove_generation_files defer_locked_files files'
  end.

Definition remove_manifest_verified_generation_with_policy (version : string) (directory : Path)
    (defer_locked_files : bool) : M Disk (result unit SetupError) :=
  let? _ := store_verify version directory in
  let? removable := read_bounded_directory directory (length IMMUTABLE_RUNTIME_FILES + 1)
                      "runtime removal entry count" in
  let? found := removable_files directory removable in
  let '(files, immutable_names) := found in
  if negb (size immutable_names =? length IMMUTABLE_RUNTIME_FILES) then
    ret (Err (Runtime "runtime removal file set changed after verification"))
  else
    let? _ := remove_generation_files defer_locked_files files in
    let? _ :=
      (if defer_locked_files
       then remove_directory_or_defer directory "remove verified runtime generation"
       else with_err (at_machine_path "remove stale runtime generation" directory)
              (lift_io (fs_remove_dir directory))) in
    let receipt := runtime_receipt_path version in
    if defer_locked_files then remove_file_or_defer receipt "remove verified runtime receipt"
    else with_err (at_machine_path "remove stale runtime receipt" receipt) (lift_io (remove_file receipt)).

Definition remove_manifest_verified_generation (version : string) (directory : Path)
    : M Disk (result unit SetupError) :=
  remove_manifest_verified_generation_with_policy version directory false.

Definition remove_manifest_verified_generation_for_uninstall (version : string) (directory : Path)
    : M Disk (result unit SetupError) :=
  remove_manifest_verified_generation_with_policy version directory true.

(** The loop of [cleanup_stale_generations]. *)
Fixpoint cleanup_generations (retained : gset string) (names : list string) : M Disk unit :=
  match names with
  | [] => ret tt
  | version :: names' =>
      if bool_decide (version ∈ retained) || negb (valid_runtime_version_component version) then
        cleanup_generations retained names'
      else
        let! _ := remove_manifest_verified_generation version
                    (path_join (runtime_versions paths) version) in
        cleanup_generations retained names'
  end.

Definition cleanup_stale_generations (retained : gset string) : M Disk (result unit SetupError) :=
  let! directory := is_dir (runtime_versions paths) in
  if negb directory then ret (Ok tt)
  else
    let? _ := reject_reparse_ancestors (runtime_versions paths) in
    let? names := read_bounded_directory (runtime_versions paths) (N.to_nat MAX_PINNED_RUNTIMES + 2)
                    "runtime retention generation count" in
    let! _ := cleanup_generations retained names in
    ret (Ok tt).

Definition store_retain (old_pointer : option RuntimePointer) (current_version : string)
    : M Disk (result unit SetupError) :=
  let read_previous :=
    (let! present := path_exists previous_runtime_pointer_path in
     if present then
       let? bytes := read_bounded_regular_file previous_runtime_pointer_path MAX_POINTER_BYTES
                       "previous runtime pointer" in
       let? pointer := ret (validate_runtime_pointer bytes) in
       ret (Ok (Some pointer))
     else ret (Ok None)) in
  let? previous :=
    match old_pointer with
    | Some previous =>
        if (version previous =? current_version)%string then read_previous
        else
          let? bytes := ret (map_err (λ _, Runtime "previous runtime pointer is invalid")
                               (pointer_to_bytes previous)) in
          let? _ := atomic_write previous_runtime_pointer_path bytes in
          ret (Ok (Some previous))
    | None => read_previous
    end in
  let retained : gset string := {[ current_version ]} ∪
    match previous with Some previous => {[ version previous ]} | None => ∅ end in
  let? pins := load_verified_migration_pins in
  cleanup_stale_generations (retained ∪ dom pins).
End Store.

(** The store and the profile bridge as the services the activation calls. *)
#[export] Instance store_services `{World, Sha256, ActivationJson, PointerJson, StoreJson, DeferredDelete}
    (paths : MachinePaths) : RuntimeServices := {|
  verify := store_verify paths;
  retain := store_retain paths;
  materialize_active := bridge_materialize_active paths
|}.
