(* ===== verification/GenerationFacts.v ===== *)
(** * What the store of generations promises

    Verification accepts a generation exactly when it is the five files of its receipt
    and perhaps the copy of a profile; retention removes only whole, verified, stale
    generations; a staged generation is one that verification accepts; and the store
    and the profile bridge keep the contract under which the activation is proved. *)

From S2P Require Export GenerationStore ActivationSafety.

(** ** Verification *)

Section Verification.
Context `{World, Sha256, ActivationJson, PointerJson, StoreJson, DeferredDelete} (paths : MachinePaths).
Implicit Types (P : Nodes → Prop) (d : Disk) (m : Nodes).

(** An entry of a generation that its receipt answers for. *)
Definition signed m (receipt : RuntimeReceipt) (directory : Path) (name : string) : Prop :=
  let path := path_join directory name in
  if decide (name = GENERATED_PROFILE_NAME) then
    ∃ bytes, m !! path = Some (File bytes) ∧ (0 < bytes_len bytes <= MAX_PROFILE_BYTES)%N
  else
    ∃ bytes, readable m path = Ok bytes ∧ (0 < bytes_len bytes <= MAX_RUNTIME_FILE_BYTES)%N ∧
      receipt_files receipt !! name = Some (sha256_digest bytes).

(** The generation in the directory is what its receipt says, and nothing more. *)
Definition sound_generation m (version : string) (directory : Path) : Prop :=
  ∃ bytes receipt,
    readable m (runtime_receipt_path paths version) = Ok bytes ∧
    (0 < bytes_len bytes <= MAX_RUNTIME_RECEIPT_BYTES)%N ∧
    runtime_receipt_from_slice bytes = Some receipt ∧ is_valid_for receipt version = true ∧
    (m !! directory = Some Directory ∨ m !! directory = Some (Link ToDirectory)) ∧
    (∀ name, is_Some (m !! path_join directory name) → signed m receipt directory name) ∧
    (∀ name, name ∈ IMMUTABLE_RUNTIME_FILES → is_Some (m !! path_join directory name)).

(** No link on the way to the directory, its entries and its receipt. *)
Definition unlinked m (version : string) (directory : Path) : Prop :=
  no_reparse m (ancestors (runtime_receipt_path paths version)) ∧
  no_reparse m (ancestors directory) ∧
  ∀ name, no_reparse m (ancestors (path_join directory name)).

(** A valid receipt names the five files, each with a canonical digest. *)
Lemma valid_receipt_files receipt version :
  is_valid_for receipt version = true → dom (receipt_files receipt) = runtime_file_names.
Proof.
  unfold is_valid_for. intros Hv. andb_split. apply set_eq_subseteq. split.
  - intros k [digest Hk]%elem_of_dom.
    match goal with Hd : forallb (λ '(_, _), _) _ = true |- _ => rewrite forallb_elem in Hd;
      specialize (Hd (k, digest)); rewrite elem_of_map_to_list in Hd; specialize (Hd Hk) end.
    cbv beta iota in *. andb_split. by apply elem_of_list_to_set, one_of_elem.
  - by apply required_keys.
Qed.

Lemma verify_signed_files_spec P receipt directory names verified d :
  spec P (verify_signed_files receipt directory names verified) (λ r d', nodes d' = nodes d ∧
    ∀ s, r = Ok s →
      (∀ name, name ∈ s ↔ name ∈ verified ∨ name ∈ names ∧ name ≠ GENERATED_PROFILE_NAME) ∧
      (∀ name, name ∈ names → signed (nodes d) receipt directory name)) d.
Proof.
  revert verified d. induction names as [|name names IH]; intros verified d; cbn [verify_signed_files].
  { apply spec_ret. split; [done|]. intros s <-%(inj Ok). set_solver. }
  cbv zeta. try_then reject_reparse_quiet; [|quiet_error]. intros [] d1 _ Hn1.
  destruct (String.eqb_spec name GENERATED_PROFILE_NAME) as [Hname|Hname].
  - try_then entry_file_len_spec; [|quiet_error]. intros len d2 _ [Hn2 Hlen].
    destruct (bounded_file len MAX_PROFILE_BYTES) eqn:Eb; [|apply spec_ret; quiet_error].
    destruct len as [len|]; [|done]. destruct (Hlen len eq_refl) as (bytes & Hb & ->).
    unfold bounded_file in Eb. andb_split.
    eapply spec_post; [apply IH|]. intros r d3 _ [Hn3 Hr]. split; [congruence|]. intros s Hs.
    destruct (Hr s Hs) as [Hin Hsigned]. split; [set_solver|].
    intros name' [->|Hin']%elem_of_cons; [|rewrite <- Hn1, <- Hn2; by apply Hsigned].
    unfold signed. rewrite decide_True by done. exists bytes. rewrite <- Hn1. split; [done|lia].
  - destruct (receipt_files receipt !! name) as [expected|] eqn:Er; [|apply spec_ret; quiet_error].
    try_then read_bounded_quiet; [|quiet_error]. intros bytes d2 _ [Hn2 Hb].
    destruct (Hb bytes eq_refl) as [Hlen Hread].
    case_bool_decide as Hd; [apply spec_ret; quiet_error|].
    eapply spec_post; [apply IH|]. intros r d3 _ [Hn3 Hr]. split; [congruence|]. intros s Hs.
    destruct (Hr s Hs) as [Hin Hsigned]. split; [set_solver|].
    intros name' [->|Hin']%elem_of_cons; [|rewrite <- Hn1, <- Hn2; by apply Hsigned].
    unfold signed. rewrite decide_False by done. exists bytes. rewrite <- Hn1. split; [done|]. split; [done|].
    by rewrite Er, Hd.
Qed.

(** A set of names of the receipt that has their number has them all. *)
Lemma all_verified (s : gset string) :
  s ⊆ runtime_file_names → size s = length IMMUTABLE_RUNTIME_FILES →
  ∀ name, name ∈ IMMUTABLE_RUNTIME_FILES → name ∈ s.
Proof.
  intros Hsub Hsize name Hname. assert (s = runtime_file_names) as ->; [|by apply elem_of_list_to_set].
  apply set_eq_subseteq. split; [done|]. intros x Hx. destruct (decide (x ∈ s)) as [|Hn]; [done|].
  exfalso. assert (size ({[x]} ∪ s) ≤ size runtime_file_names) as Hle by (apply subseteq_size; set_solver).
  rewrite size_union in Hle by set_solver. rewrite size_singleton, Hsize in Hle.
  change (size runtime_file_names) with 5 in Hle. simpl in Hle. lia.
Qed.

Lemma store_verify_spec P version directory d :
  spec P (store_verify paths version directory) (λ r d', nodes d' = nodes d ∧
    (r = Ok tt → sound_generation (nodes d) version directory)) d.
Proof.
  unfold store_verify. try_then reject_reparse_quiet; [|quiet_error]. intros [] d1 _ Hn1.
  try_then lift_read_spec; [|quiet_error]. intros metadata d2 _ [Hn2 _].
  destruct metadata; [apply spec_ret; quiet_error|].
  try_then read_bounded_quiet; [|quiet_error]. intros bytes d3 _ [Hn3 Hb].
  destruct (Hb bytes eq_refl) as [Hlen Hread].
  apply spec_try_ret; [|quiet_error]. intros receipt Hreceipt.
  destruct (is_valid_for receipt version) eqn:Ev; [|apply spec_ret; quiet_error]. cbn [negb].
  try_then read_bounded_directory_spec; [|quiet_error]. intros names d4 _ [Hn4 Hl].
  destruct (Hl names eq_refl) as (-> & _ & Hdir).
  destruct (_ <? _) eqn:Ecount; [apply spec_ret; quiet_error|].
  try_then verify_signed_files_spec; [|quiet_error]. intros s d5 _ [Hn5 Hs].
  destruct (Hs s eq_refl) as [Hin Hsigned].
  destruct (size s =? _) eqn:Esize; cbn [negb]; apply spec_ret; (split; [congruence|]); [|done]. intros _.
  assert (nodes d4 = nodes d) as Hnd by congruence. assert (nodes d3 = nodes d) as Hnd3 by congruence.
  assert (nodes d2 = nodes d) as Hnd2 by congruence.
  rewrite Hnd in Hsigned. rewrite Hnd3 in Hdir, Hin, Hsigned. rewrite Hnd2 in Hread.
  exists bytes, receipt. split; [done|]. split; [done|].
  split; [by destruct (runtime_receipt_from_slice bytes); [apply (inj Ok) in Hreceipt as ->|]|].
  split; [done|]. split; [done|]. split.
  - intros name Hname. by apply Hsigned, entry_names_elem.
  - intros name Hname. apply entry_names_elem.
    apply (all_verified s) in Hname; [by apply Hin in Hname as [?|[? _]]; [set_solver|]| |by apply Nat.eqb_eq].
    intros x [?|[Hx Hne]]%Hin; [set_solver|]. rewrite <- (valid_receipt_files receipt version Ev).
    specialize (Hsigned x Hx). unfold signed in Hsigned. rewrite decide_False in Hsigned by done.
    destruct Hsigned as (b & _ & _ & Hx'). by apply elem_of_dom.
Qed.

(** *** The other direction *)

Context (Hworks : working).

Lemma entry_signed_name m receipt version directory name :
  is_valid_for receipt version = true → signed m receipt directory name →
  name ∈ GENERATED_PROFILE_NAME :: IMMUTABLE_RUNTIME_FILES.
Proof.
  intros Hv. unfold signed. destruct (decide _) as [->|]; [by left|]. intros (bytes & _ & _ & Hd). right.
  apply (elem_of_list_to_set (C := gset string)). fold runtime_file_names.
  rewrite <- (valid_receipt_files receipt version Hv). by apply elem_of_dom.
Qed.

Lemma generation_count m version directory bytes receipt :
  is_valid_for receipt version = true →
  (∀ name, is_Some (m !! path_join directory name) → signed m receipt directory name) →
  (∀ name, name ∈ IMMUTABLE_RUNTIME_FILES → is_Some (m !! path_join directory name)) →
  readable m (runtime_receipt_path paths version) = Ok bytes →
  length IMMUTABLE_RUNTIME_FILES ≤ length (entry_names m directory) ≤ length IMMUTABLE_RUNTIME_FILES + 1.
Proof.
  intros Hv Hsigned Hall _. split.
  - apply submseteq_length, NoDup_submseteq; [by apply (bool_decide_unpack _); vm_compute|].
    intros name Hname. by apply entry_names_elem, Hall.
  - change (length IMMUTABLE_RUNTIME_FILES + 1)
      with (length (GENERATED_PROFILE_NAME :: IMMUTABLE_RUNTIME_FILES)).
    apply submseteq_length, NoDup_submseteq; [apply entry_names_nodup|].
    intros name Hname%entry_names_elem. eapply entry_signed_name; [done|by apply Hsigned].
Qed.

Lemma verify_signed_files_works P receipt directory names verified d :
  (∀ name, name ∈ names → signed (nodes d) receipt directory name ∧
     no_reparse (nodes d) (ancestors (path_join directory name))) →
  spec P (verify_signed_files receipt directory names verified)
    (λ r d', nodes d' = nodes d ∧ is_ok r = true) d.
Proof.
  revert verified d. induction names as [|name names IH]; intros verified d Hall; cbn [verify_signed_files].
  { by apply spec_ret. }
  destruct (Hall name (list_elem_of_here _ _)) as [Hsigned Hno].
  assert (∀ name', name' ∈ names → signed (nodes d) receipt directory name' ∧
    no_reparse (nodes d) (ancestors (path_join directory name'))) as Hrest by (intros; apply Hall; by right).
  cbv zeta. try_then reject_reparse_works; [done|done| |by intros e d1 _ [_ ?]]. intros [] d1 _ [Hn1 _].
  unfold signed in Hsigned. destruct (String.eqb_spec name GENERATED_PROFILE_NAME) as [Hname|Hname].
  - rewrite decide_True in Hsigned by done. destruct Hsigned as (bytes & Hb & Hlen).
    try_then entry_file_len_works; [done|by rewrite Hn1| |by intros e d2 _ [_ ?]].
    intros len d2 _ [Hn2 ->%(inj Ok)].
    assert (bounded_file (Some (bytes_len bytes)) MAX_PROFILE_BYTES = true) as ->
      by (unfold bounded_file; destruct (_ || _) eqn:E; [apply orb_true_iff in E as [E|E]; andb_split; lia|done]).
    eapply spec_post; [apply IH; by rewrite Hn2, Hn1|]. intros r d3 _ [Hn3 ?]. split; congruence.
  - rewrite decide_False in Hsigned by done. destruct Hsigned as (bytes & Hb & Hlen & ->).
    try_then read_bounded_works; [done|by rewrite Hn1|by rewrite Hn1|done| |by intros e d2 _ [_ ?]].
    intros actual d2 _ [Hn2 ->%(inj Ok)]. rewrite bool_decide_eq_false_2 by auto.
    eapply spec_post; [apply IH; by rewrite Hn2, Hn1|]. intros r d3 _ [Hn3 ?]. split; congruence.
Qed.

Lemma own_ancestor p : p ≠ [] → p ∈ ancestors p.
Proof.
  intros Hp. apply ancestors_elem. exists (length p). rewrite take_ge by lia. split; [|done].
  destruct p; [done|simpl; lia].
Qed.

Lemma store_verify_works P version directory d :
  directory ≠ [] → sound_generation (nodes d) version directory → unlinked (nodes d) version directory →
  spec P (store_verify paths version directory) (λ r d', nodes d' = nodes d ∧ r = Ok tt) d.
Proof.
  intros Hne (bytes & receipt & Hread & Hlen & Hreceipt & Hv & Hdir & Hsigned & Hall) (Hno1 & Hno2 & Hno3).
  assert (nodes d !! directory = Some Directory) as Hdirectory.
  { destruct Hdir as [|Hlink]; [done|]. exfalso.
    apply (Hno2 directory) with (t := ToDirectory); [by apply own_ancestor| |done].
    unfold node_exists. by rewrite Hlink. }
  unfold store_verify. try_then reject_reparse_works; [done|done| |by intros e d1 _ [_ ?]].
  intros [] d1 _ [Hn1 _].
  try_then (lift_works Hworks P _ DirectoryMetadata); [by rewrite Hn1, Hdirectory| |by intros e d2 _ [_ ?]].
  intros metadata d2 _ [Hn2 ->%(inj Ok)]. assert (nodes d2 = nodes d) as Hnd2 by congruence.
  try_then read_bounded_works; [done|by rewrite Hnd2|by rewrite Hnd2|done| |by intros e d3 _ [_ ?]].
  intros actual d3 _ [Hn3 ->%(inj Ok)]. assert (nodes d3 = nodes d) as Hnd3 by congruence.
  apply spec_try_ret; [|by rewrite Hreceipt]. intros receipt'. rewrite Hreceipt. intros <-%(inj Ok).
  rewrite Hv. cbn [negb]. pose proof (generation_count _ _ _ _ _ Hv Hsigned Hall Hread) as [Hmin Hmax].
  try_then read_bounded_directory_works; [done|by rewrite Hnd3..| |by intros e d4 _ [_ ?]].
  intros names d4 _ [Hn4 ->%(inj Ok)]. assert (nodes d4 = nodes d) as Hnd4 by congruence. rewrite Hnd3.
  destruct (_ <? _) eqn:Ecount; [apply Nat.ltb_lt in Ecount; lia|].
  eapply spec_try; [eapply (spec_mono (λ n, P n ∧ P n)); [eapply spec_conj;
    [apply verify_signed_files_spec|apply verify_signed_files_works]|tauto|intros r d' _ Hr; exact Hr]|cbv beta..].
  { intros name Hname%entry_names_elem. rewrite Hnd4. auto. }
  2: { by intros e d5 _ [_ [_ ?]]. }
  intros s d5 _ [[Hn5 Hs] _]. destruct (Hs s eq_refl) as [Hin _].
  assert (s = runtime_file_names) as ->.
  { apply set_eq. intros name. rewrite Hin, entry_names_elem. unfold runtime_file_names.
    rewrite elem_of_list_to_set. split.
    - intros [?|[Hname Hne']]; [set_solver|].
      pose proof (entry_signed_name _ _ _ _ _ Hv (Hsigned name Hname)) as Hcase.
      by apply elem_of_cons in Hcase as [Hcase|Hcase].
    - intros Hname. right. split; [by apply Hall|]. intros ->.
      revert Hname. apply (bool_decide_unpack _). by vm_compute. }
  apply spec_ret. split; [congruence|done].
Qed.
End Verification.

(** ** Removing a generation *)

Section Retention.
Context `{World, Sha256, ActivationJson, PointerJson, StoreJson, DeferredDelete}
  (program_files program_data : Path).
Notation paths := (machine_layout program_files program_data).
Implicit Types (P : Nodes → Prop) (d : Disk) (m : Nodes).

Definition generation_directory (version : string) : Path := path_join (runtime_versions paths) version.

(** The paths that make up a generation. *)
Definition part_of (version : string) (q : Path) : Prop :=
  generation_directory version `prefix_of` q ∨ q = runtime_receipt_path paths version.

#[export] Instance part_of_dec version q : Decision (part_of version q).
Proof. unfold part_of. apply _. Defined.

Lemma string_app_inj_r (a b s : string) : (a ++ s)%string = (b ++ s)%string → a = b.
Proof.
  intros E. apply str_bytes_inj. apply (f_equal str_bytes) in E. rewrite !str_bytes_app in E.
  by apply app_inv_tail in E.
Qed.

Lemma path_join_inj p a b : path_join p a = path_join p b → a = b.
Proof. unfold path_join. by intros [_ [= ->]]%app_inj_tail. Qed.

(** Generations are apart. *)
Lemma part_of_apart v v' q : part_of v q → part_of v' q → v = v'.
Proof.
  assert (∀ a b, ¬ generation_directory a `prefix_of` runtime_receipt_path paths b) as Hapart.
  { intros a b. by apply cousins_not_prefix. }
  unfold part_of. intros [Hv|Hr] [Hv'|Hq].
  - destruct Hv as [k ->], Hv' as [k' Hk]. unfold generation_directory, path_join in Hk.
    rewrite <- !app_assoc in Hk. apply app_inv_head in Hk. by injection Hk.
  - subst. by apply Hapart in Hv.
  - subst. by apply Hapart in Hv'.
  - subst. apply path_join_inj in Hq. by apply string_app_inj_r in Hq.
Qed.

Lemma child_part_of v name : part_of v (path_join (generation_directory v) name).
Proof. left. by eexists. Qed.

(** Soundness of a generation is about its parts. *)
Lemma sound_generation_agree m m' v :
  agree (part_of v) m m' → sound_generation paths m' v (generation_directory v) →
  sound_generation paths m v (generation_directory v).
Proof.
  intros Hagree (bytes & receipt & Hread & Hlen & Hreceipt & Hv & Hdir & Hsigned & Hall).
  assert (∀ name, m' !! path_join (generation_directory v) name =
                  m !! path_join (generation_directory v) name) as Hchild
    by (intros; apply Hagree, child_part_of).
  exists bytes, receipt. split; [by rewrite <- Hread; unfold readable; rewrite Hagree by by right|].
  do 3 (split; [done|]). split; [by rewrite <- Hagree by (left; reflexivity)|]. split.
  - intros name Hname. rewrite <- Hchild in Hname. specialize (Hsigned name Hname).
    unfold signed, readable in *. by rewrite Hchild in Hsigned.
  - intros name Hname. rewrite <- Hchild. by apply Hall.
Qed.

Lemma removable_files_spec P directory names d :
  spec P (removable_files directory names) (λ r d', nodes d' = nodes d ∧
    ∀ x, r = Ok x → ∀ q, q ∈ fst x → ∃ name, q = path_join directory name) d.
Proof.
  revert d. induction names as [|name names IH]; intros d; cbn [removable_files].
  { apply spec_ret. split; [done|]. intros x <-%(inj Ok) q Hq. set_solver. }
  cbv zeta. destruct (_ && _); [apply spec_ret; quiet_error|].
  try_then reject_reparse_quiet; [|quiet_error]. intros [] d1 _ Hn1.
  try_then entry_file_len_spec; [|quiet_error]. intros len d2 _ [Hn2 _].
  destruct len; [|apply spec_ret; quiet_error]. try_then IH; [|quiet_error].
  intros [files immutable] d3 _ [Hn3 Hfiles]. apply spec_ret. split; [congruence|].
  intros x <-%(inj Ok) q [->|Hq]%elem_of_cons; [by exists name|]. by apply (Hfiles _ eq_refl).
Qed.

Lemma remove_generation_files_leaves (Q : Path → Prop) files :
  (∀ q, q ∈ files → ¬ Q q) → leaves Q (remove_generation_files false files).
Proof.
  induction files as [|q files IH]; intros HQ; cbn [remove_generation_files remove_generation_file];
    [apply leaves_ret|]. apply leaves_try; [|intros _; apply IH; set_solver].
  apply leaves_with_err, leaves_lift, leaves_remove_file, HQ. by left.
Qed.

(** A generation is removed only when it verifies, and nothing beside it. *)
Lemma remove_generation_spec v d :
  let gone m := m = nodes d ∨
    sound_generation paths (nodes d) v (generation_directory v) ∧ agree (λ q, ¬ part_of v q) (nodes d) m in
  spec gone (remove_manifest_verified_generation paths v (generation_directory v))
    (λ _ d', gone (nodes d')) d.
Proof.
  intros gone. unfold remove_manifest_verified_generation, remove_manifest_verified_generation_with_policy.
  try_then store_verify_spec; [|by intros e d1 _ [Hn1 _]; left]. intros [] d1 _ [Hn1 Hsound].
  specialize (Hsound eq_refl).
  match goal with |- spec _ ?m _ _ => assert (leaves (λ q, ¬ part_of v q) m) as Hleaves end.
  { assert (∀ q, part_of v q → ¬ ¬ part_of v q) as Hpart by auto.
    apply leaves_try; [apply leaves_bounded_directory|]. intros names.
    eapply leaves_quiet_try; [intros; apply removable_files_spec|]. intros [files immutable] Hfiles.
    destruct (negb _); [apply leaves_ret|]. apply leaves_try.
    { apply remove_generation_files_leaves. intros q Hq. apply Hpart.
      destruct (Hfiles q Hq) as [name ->]. apply child_part_of. }
    intros _. apply leaves_try.
    - apply leaves_with_err, leaves_lift, leaves_remove_dir, Hpart. left. reflexivity.
    - intros _. apply leaves_with_err, leaves_lift, leaves_remove_file, Hpart. by right. }
  eapply spec_mono; [apply Hleaves| |]; [intros m Hm|intros r d2 _ Hm]; right; rewrite Hn1 in Hm; by split.
Qed.

(** ** Cleaning up *)

(** From [before] some generations are gone, all of them stale, valid and sound. *)
Definition cleaned (stale : string → Prop) (before m : Nodes) : Prop :=
  ∃ removed : list string,
    (∀ v, v ∈ removed → stale v ∧ sound_generation paths before v (generation_directory v)) ∧
    ∀ q, (∀ v, v ∈ removed → ¬ part_of v q) → m !! q = before !! q.

Lemma cleaned_refl stale m : cleaned stale m m.
Proof. exists []. split; [by intros v ?%elem_of_nil|done]. Qed.

Lemma cleaned_step (stale : string → Prop) before m m' v :
  cleaned stale before m → stale v →
  (m' = m ∨ sound_generation paths m v (generation_directory v) ∧ agree (λ q, ¬ part_of v q) m m') →
  cleaned stale before m'.
Proof.
  intros (removed & Hremoved & Hm) Hv [->|[Hsound Hm']]; [by exists removed|].
  destruct (decide (v ∈ removed)) as [Hin|Hnin].
  - exists removed. split; [done|]. intros q Hq. rewrite Hm'; [by apply Hm|]. by apply Hq.
  - exists (v :: removed). split.
    + intros v' [->|Hv']%elem_of_cons; [|by apply Hremoved]. split; [done|].
      eapply sound_generation_agree; [|done]. intros q Hq. apply Hm. intros v' Hv' Hq'.
      by rewrite (part_of_apart v v' q) in Hnin.
    + intros q Hq. rewrite Hm'; [|apply Hq; by left]. apply Hm. intros v' Hv'. apply Hq. by right.
Qed.

Definition may_remove (retained : gset string) (v : string) : Prop :=
  v ∉ retained ∧ valid_runtime_version_component v = true.

Lemma cleanup_generations_spec retained names before d :
  cleaned (may_remove retained) before (nodes d) →
  spec (cleaned (may_remove retained) before) (cleanup_generations paths retained names)
    (λ _ d', cleaned (may_remove retained) before (nodes d')) d.
Proof.
  revert d. induction names as [|v names IH]; intros d Hd; cbn [cleanup_generations]; [by apply spec_ret|].
  case_bool_decide as Hin; [by apply IH|]. cbn [orb].
  destruct (valid_runtime_version_component v) eqn:Ev; cbn [negb]; [|by apply IH].
  eapply spec_bind; [eapply spec_mono; [apply remove_generation_spec| |]|cbv beta].
  - intros m Hm. by eapply cleaned_step.
  - intros a d' _ Hd'. exact Hd'.
  - intros a d1 _ Hd1. apply IH. by eapply cleaned_step.
Qed.

(** ** What retention keeps *)

(** A migration pin on the disk names the version. *)
Definition pinned_in m (v : string) : Prop :=
  node_exists m (migration_runtime_pins_root paths) = true ∧
  ∃ name bytes pin runtime, readable m (path_join (migration_runtime_pins_root paths) name) = Ok bytes ∧
    pin_from_slice bytes = Some pin ∧ runtime ∈ runtimes pin ∧ pinned_version runtime = v.

(** The record of the previous runtime names the version. *)
Definition previous_in m (v : string) : Prop :=
  ∃ bytes p, readable m (previous_runtime_pointer_path paths) = Ok bytes ∧
    validate_runtime_pointer bytes = Ok p ∧ version p = v.

(** A generation that a pin names is there, with the files the pin tells of. *)
Definition pinned_sound m (runtime : MigrationPinnedRuntime) : Prop :=
  let root := path_join (runtime_versions paths) (pinned_version runtime) in
  let holds name digest := ∃ bytes, readable m (path_join root name) = Ok bytes ∧ sha256_digest bytes = digest in
  pinned_runtime_validate runtime = true ∧
  length (entry_names m root) =
    length IMMUTABLE_RUNTIME_FILES + match generated_profile runtime with Some _ => 1 | None => 0 end ∧
  (∀ name digest, pinned_files runtime !! name = Some digest → holds name digest) ∧
  (∀ digest, generated_profile runtime = Some digest → holds GENERATED_PROFILE_NAME digest).

(** The file of the name is a valid migration pin, named after its nonce, and every
    generation it names is sound. *)
Definition verified_pin m (name : string) : Prop :=
  ∃ stem bytes pin, pin_nonce name = Some stem ∧
    readable m (path_join (migration_runtime_pins_root paths) name) = Ok bytes ∧
    pin_from_slice bytes = Some pin ∧ pin_validate pin = true ∧ nonce pin = stem ∧
    ∀ runtime, runtime ∈ runtimes pin → pinned_sound m runtime.

Lemma elem_of_entries_in_order {V : Type} (m : gmap string V) name v :
  m !! name = Some v → (name, v) ∈ entries_in_order m.
Proof.
  intros Hv. unfold entries_in_order. apply list_elem_of_omap. exists name. split; [|by rewrite Hv].
  apply elem_of_keys_in_order. by rewrite Hv.
Qed.

Lemma verify_pinned_files_spec P root files d :
  spec P (verify_pinned_files root files) (λ r d', nodes d' = nodes d ∧
    (r = Ok tt → ∀ name digest, (name, digest) ∈ files →
       ∃ bytes, readable (nodes d) (path_join root name) = Ok bytes ∧ sha256_digest bytes = digest)) d.
Proof.
  revert d. induction files as [|[name expected] files IH]; intros d; cbn [verify_pinned_files].
  { apply spec_ret. split; [done|]. by intros _ ?? ?%elem_of_nil. }
  try_then read_bounded_quiet; [|quiet_error]. intros bytes d1 _ [Hn1 Hb]. destruct (Hb bytes eq_refl) as [_ Hread].
  case_bool_decide as Hsha; [apply spec_ret; quiet_error|]. eapply spec_post; [apply IH|]. intros r d2 _ [Hn2 Hr].
  split; [congruence|]. intros Hok name' digest [[= -> ->]|Hin]%elem_of_cons; [|rewrite <- Hn1; by apply Hr].
  exists bytes. split; [done|]. by destruct (decide (sha256_digest bytes = expected)).
Qed.

Lemma verify_pinned_runtime_spec P runtime d :
  spec P (verify_pinned_runtime paths runtime) (λ r d', nodes d' = nodes d ∧ (r = Ok tt → pinned_sound (nodes d) runtime)) d.
Proof.
  unfold verify_pinned_runtime. destruct (pinned_runtime_validate runtime) eqn:Ev; cbn [negb]; [|apply spec_ret; quiet_error].
  cbv zeta. try_then reject_reparse_quiet; [|quiet_error]. intros [] d1 _ Hn1. cbv beta in Hn1.
  try_then lift_read_spec; [|quiet_error]. intros [len|] d2 _ [Hn2 _]; [apply spec_ret; quiet_error|].
  try_then read_bounded_directory_spec; [|quiet_error]. intros names d3 _ [Hn3 Hl].
  destruct (Hl names eq_refl) as (-> & _ & _). clear Hl.
  destruct (_ =? _) eqn:Elen; cbn [negb]; [|apply spec_ret; quiet_error]. apply Nat.eqb_eq in Elen.
  try_then verify_pinned_files_spec; [|quiet_error]. intros [] d4 _ [Hn4 Hfiles]. specialize (Hfiles eq_refl).
  assert (nodes d2 = nodes d) as E2 by congruence. assert (nodes d3 = nodes d) as E3 by congruence.
  rewrite E2 in Elen. rewrite E3 in Hfiles.
  assert (∀ name digest, pinned_files runtime !! name = Some digest → ∃ bytes, readable (nodes d)
    (path_join (path_join (runtime_versions paths) (pinned_version runtime)) name) = Ok bytes ∧ sha256_digest bytes = digest)
    as Hall by (intros; by apply Hfiles, elem_of_entries_in_order).
  unfold pinned_sound. destruct (generated_profile runtime) as [expected|].
  2: { apply spec_ret. split; [congruence|]. intros _. by split_and!. }
  try_then read_bounded_quiet; [|quiet_error]. intros bytes d5 _ [Hn5 Hb]. destruct (Hb bytes eq_refl) as [_ Hread].
  case_bool_decide as Hsha; apply spec_ret; [quiet_error|]. split; [congruence|]. intros _. split_and!; [done..|].
  intros digest [= <-]. exists bytes. assert (nodes d4 = nodes d) as <- by congruence. split; [done|].
  by destruct (decide (sha256_digest bytes = expected)).
Qed.

Lemma collect_pinned_spec P rs pinned d :
  spec P (collect_pinned paths rs pinned) (λ r d', nodes d' = nodes d ∧
    ∀ all, r = Ok all → dom pinned ⊆ dom all ∧
      ∀ runtime, runtime ∈ rs → pinned_version runtime ∈ dom all ∧ pinned_sound (nodes d) runtime) d.
Proof.
  revert pinned d. induction rs as [|runtime rs IH]; intros pinned d; cbn [collect_pinned].
  { apply spec_ret. split; [done|]. intros all <-%(inj Ok). set_solver. }
  try_then verify_pinned_runtime_spec; [|quiet_error]. intros [] d1 _ [Hn1 Hsound]. specialize (Hsound eq_refl).
  destruct (pinned !! pinned_version runtime) as [existing|] eqn:E.
  - case_bool_decide; [apply spec_ret; quiet_error|]. apply elem_of_dom_2 in E.
    eapply spec_post; [apply IH|]. intros r d2 _ [Hn2 Hr]. split; [congruence|].
    intros all Hall. destruct (Hr all Hall) as [Hdom Hin]. split; [done|]. rewrite Hn1 in Hin.
    intros runtime' [->|?]%elem_of_cons; [|by apply Hin]. split; [set_solver|done].
  - cbv zeta. destruct (_ <? _)%N; [apply spec_ret; quiet_error|].
    eapply spec_post; [apply IH|]. intros r d2 _ [Hn2 Hr]. split; [congruence|].
    intros all Hall. destruct (Hr all Hall) as [Hdom Hin]. rewrite dom_insert in Hdom. split; [set_solver|]. rewrite Hn1 in Hin.
    intros runtime' [->|?]%elem_of_cons; [|by apply Hin]. split; [set_solver|done].
Qed.

Lemma load_pins_spec P names pinned d :
  spec P (load_pins paths (migration_runtime_pins_root paths) names pinned) (λ r d', nodes d' = nodes d ∧
    ∀ all, r = Ok all → dom pinned ⊆ dom all ∧ ∀ name, name ∈ names → verified_pin (nodes d) name ∧
      ∃ bytes pin, readable (nodes d) (path_join (migration_runtime_pins_root paths) name) = Ok bytes ∧
        pin_from_slice bytes = Some pin ∧ ∀ runtime, runtime ∈ runtimes pin → pinned_version runtime ∈ dom all) d.
Proof.
  revert pinned d. induction names as [|name names IH]; intros pinned d; cbn [load_pins].
  { apply spec_ret. split; [done|]. intros all <-%(inj Ok). set_solver. }
  destruct (pin_nonce name) as [stem|] eqn:Estem; [|apply spec_ret; quiet_error].
  try_then read_bounded_quiet; [|quiet_error]. intros bytes d1 _ [Hn1 Hb].
  destruct (Hb bytes eq_refl) as [_ Hread].
  apply spec_try_ret; [|quiet_error]. intros pin Hpin.
  assert (pin_from_slice bytes = Some pin) as Hslice by (by destruct (pin_from_slice bytes); [apply (inj Ok) in Hpin as ->|]).
  destruct (pin_validate pin) eqn:Evalid; [|apply spec_ret; quiet_error]. cbn [negb].
  destruct (nonce pin =? stem)%string eqn:Enonce; [|apply spec_ret; quiet_error]. cbn [negb].
  try_then collect_pinned_spec; [|quiet_error]. intros some d2 _ [Hn2 Hsome].
  destruct (Hsome some eq_refl) as [Hdom Hruntimes]. rewrite Hn1 in Hruntimes.
  eapply spec_post; [apply IH|]. intros r d3 _ [Hn3 Hr]. split; [congruence|].
  intros all Hall. destruct (Hr all Hall) as [Hdom' Hnames]. split; [set_solver|].
  intros name' [->|Hname]%elem_of_cons; [|rewrite <- Hn1, <- Hn2; by apply Hnames]. split.
  - exists stem, bytes, pin. split_and!; [done..|by apply String.eqb_eq|]. intros runtime Hin. by apply Hruntimes.
  - exists bytes, pin. split_and!; [done..|]. intros runtime Hin. destruct (Hruntimes runtime Hin). set_solver.
Qed.

Lemma load_verified_pins_spec P d :
  spec P (load_verified_migration_pins paths) (λ r d', nodes d' = nodes d ∧
    ∀ all, r = Ok all → (∀ n, blind n = false) → (∀ v, pinned_in (nodes d) v → v ∈ dom all) ∧
      (node_exists (nodes d) (migration_runtime_pins_root paths) = true → ∀ name,
         is_Some (nodes d !! path_join (migration_runtime_pins_root paths) name) → verified_pin (nodes d) name)) d.
Proof.
  unfold load_verified_migration_pins. cbv zeta. spec_then path_exists_spec.
  intros present d1 _ (Hn1 & _ & Hsee). destruct present; cbn [negb].
  2: { apply spec_ret. split; [done|]. intros all _ Hb. specialize (Hsee Hb).
       split; [intros v [Hroot _]|intros Hroot]; by rewrite <- Hsee in Hroot. }
  try_then reject_reparse_quiet; [|quiet_error]. intros [] d2 _ Hn2. cbv beta in Hn2.
  try_then lift_read_spec; [|quiet_error]. intros [len|] d3 _ [Hn3 _]; [apply spec_ret; quiet_error|].
  try_then read_bounded_directory_spec; [|quiet_error]. intros names d4 _ [Hn4 Hl].
  destruct (Hl names eq_refl) as (-> & _ & _).
  assert (nodes d4 = nodes d) as Hnd4 by congruence. assert (nodes d3 = nodes d) as Hnd3 by congruence.
  eapply spec_post; [apply load_pins_spec|]. intros r d5 _ [Hn5 Hr]. split; [congruence|].
  intros all Hall _. destruct (Hr all Hall) as [_ Hnames]. rewrite Hnd3, Hnd4 in Hnames. split.
  - intros v [_ (name & bytes & pin & runtime & Hread & Hpin & Hin & <-)].
    destruct (Hnames name) as (_ & bytes' & pin' & Hread' & Hpin' & Hruntimes).
    { apply entry_names_elem. unfold readable in Hread. by destruct (nodes d !! _). }
    rewrite Hread in Hread'. apply (inj Ok) in Hread' as <-. rewrite Hpin in Hpin'.
    injection Hpin' as <-. by apply Hruntimes.
  - intros _ name Hname. by apply Hnames, entry_names_elem.
Qed.

(** The versions retention keeps: the current one, the pinned ones, and the previous
    one, which is the one replaced now or else the one on record. *)
Definition kept m (old : option RuntimePointer) (current v : string) : Prop :=
  v = current ∨ pinned_in m v ∨
  match old with
  | Some p => if (version p =? current)%string then previous_in m v else v = version p
  | None => previous_in m v
  end.

(** What is kept whatever the disk shows: the current version, and the one it replaces. *)
Definition named (old : option RuntimePointer) (current v : string) : Prop :=
  v = current ∨ ∃ p, old = Some p ∧ version p ≠ current ∧ v = version p.

(** Not the record of the previous runtime, nor above it, nor hidden next to it. *)
Definition off_record (q : Path) : Prop :=
  q ∉ ancestors (previous_runtime_pointer_path paths) ∧
  (path_parent q = Some (service_root paths) → hidden q = false).

Lemma ancestors_prefix p q : q ∈ ancestors p → q `prefix_of` p.
Proof. intros (n & _ & ->)%ancestors_elem. apply prefix_take. Qed.

Lemma grandchild_off_record x a s :
  x ≠ "previous-runtime.json" → off_record (path_join (path_join (service_root paths) x) a ++ s).
Proof.
  intros Hx. split.
  - intros Hq%ancestors_prefix.
    apply (cousins_not_prefix (service_root paths) x a "previous-runtime.json" [] Hx). rewrite app_nil_r.
    etrans; [|exact Hq]. by eexists.
  - intros Hq. exfalso. apply path_parent_spec in Hq as [name Hq]. apply (f_equal length) in Hq.
    unfold path_join in Hq. rewrite !length_app in Hq. simpl in Hq. lia.
Qed.

Lemma part_off_record v q : part_of v q → off_record q.
Proof.
  intros [[s ->]|Hq].
  - by apply grandchild_off_record.
  - subst q. rewrite <- (app_nil_r (runtime_receipt_path paths v)). by apply grandchild_off_record.
Qed.

Lemma pins_off_record : off_record (migration_runtime_pins_root paths).
Proof.
  split; [|intros _; unfold migration_runtime_pins_root; by rewrite hidden_join]. intros Hq%ancestors_prefix. revert Hq. unfold migration_runtime_pins_root, path_join.
  by apply (parted_not_prefix _ [] []).
Qed.

Lemma pinned_in_agree m m' v : agree off_record m m' → pinned_in m v → pinned_in m' v.
Proof.
  intros Hagree (Hroot & name & bytes & pin & runtime & Hread & Hrest). split.
  - unfold node_exists in *. by rewrite (Hagree _ pins_off_record).
  - exists name, bytes, pin, runtime. split; [|done]. rewrite <- Hread. unfold readable.
    rewrite Hagree; [done|]. rewrite <- (app_nil_r (path_join _ name)). by apply grandchild_off_record.
Qed.

(** From [before], what is gone are parts of sound generations that are not kept. *)
Definition retaining before (old : option RuntimePointer) (current : string) m : Prop :=
  ∀ q, off_record q → m !! q ≠ before !! q → ∃ v,
    part_of v q ∧ sound_generation paths before v (generation_directory v) ∧
    valid_runtime_version_component v = true ∧ ¬ named old current v ∧
    ((∀ n, blind n = false) → ¬ kept before old current v).

Lemma agree_retaining before old current m : agree off_record before m → retaining before old current m.
Proof. intros Hm q Hq Hne. by destruct Hne; apply Hm. Qed.

Lemma cleaned_retaining retained before old current m1 m :
  agree off_record before m1 → cleaned (may_remove retained) m1 m →
  (∀ v, named old current v → v ∈ retained) →
  ((∀ n, blind n = false) → ∀ v, kept before old current v → v ∈ retained) →
  retaining before old current m.
Proof.
  intros Hm1 (removed & Hremoved & Hm) Hnamed Hkept q Hq Hne.
  destruct (decide (Exists (λ v, part_of v q) removed)) as [Hex|Hnex].
  - apply Exists_exists in Hex as (v & Hv & Hpart). exists v. destruct (Hremoved v Hv) as [[Hnin Hvalid] Hsound].
    split; [done|]. split; [|split; [done|split; [by intros ?%Hnamed|]]].
    + eapply sound_generation_agree; [|done]. intros q' Hq'. by apply Hm1, (part_off_record v).
    + intros Hb Hk. by apply Hnin, Hkept.
  - exfalso. apply Hne. rewrite Hm; [by apply Hm1|]. intros v Hv Hpart. apply Hnex, Exists_exists. by exists v.
Qed.

Lemma record_write_leaves bytes : leaves off_record (atomic_write (previous_runtime_pointer_path paths) bytes).
Proof.
  apply leaves_atomic_write_near. intros q [Hq Hh]. split; [done|].
  unfold previous_runtime_pointer_path. by rewrite path_parent_join.
Qed.

Lemma cleanup_spec retained old current before d :
  agree off_record before (nodes d) →
  (∀ v, named old current v → v ∈ retained) →
  ((∀ n, blind n = false) → ∀ v, kept before old current v → v ∈ retained) →
  spec (retaining before old current) (cleanup_stale_generations paths retained) (λ _ _, True) d.
Proof.
  intros Hd Hnamed Hkept. unfold cleanup_stale_generations. spec_then is_dir_spec. intros directory d1 _ Hn1.
  cbv beta in Hn1. destruct directory; [|by apply spec_ret]. cbn [negb].
  try_then reject_reparse_quiet; [|done]. intros [] d2 _ Hn2. cbv beta in Hn2.
  try_then read_bounded_directory_spec; [|done]. intros names d3 _ [Hn3 _].
  assert (agree off_record before (nodes d3)) as Hd3 by (by rewrite Hn3, Hn2, Hn1).
  eapply spec_bind; [eapply spec_mono; [apply (cleanup_generations_spec retained names (nodes d3)),
    cleaned_refl| |by intros; exact I]|].
  - intros m Hm. by eapply cleaned_retaining.
  - intros [] d4 _ _. by apply spec_ret.
Qed.

Lemma store_retain_spec old current d :
  spec (retaining (nodes d) old current) (store_retain paths old current) (λ _ _, True) d.
Proof.
  unfold store_retain. cbv zeta.
  apply (spec_try _ _ _ (λ (r : result (option RuntimePointer) SetupError) d1,
    agree off_record (nodes d) (nodes d1) ∧
    (∀ previous, r = Ok previous → ∀ p, old = Some p → version p ≠ current → previous = Some p) ∧
    ∀ previous, r = Ok previous → (∀ n, blind n = false) → ∀ v, kept (nodes d) old current v →
      v = current ∨ pinned_in (nodes d) v ∨ ∃ p, previous = Some p ∧ v = version p)); [| |done].
  - assert (∀ Kept : string → Prop, (∀ v, Kept v → v = current ∨ pinned_in (nodes d) v ∨ previous_in (nodes d) v) →
      spec (retaining (nodes d) old current)
        (let! present := path_exists (previous_runtime_pointer_path paths) in
         if present then
           let? bytes := read_bounded_regular_file (previous_runtime_pointer_path paths) MAX_POINTER_BYTES
                           "previous runtime pointer" in
           let? pointer := ret (validate_runtime_pointer bytes) in
           ret (Ok (Some pointer))
         else ret (Ok None)) (λ (r : result (option RuntimePointer) SetupError) d1,
          agree off_record (nodes d) (nodes d1) ∧
          ∀ previous, r = Ok previous → (∀ n, blind n = false) → ∀ v, Kept v →
            v = current ∨ pinned_in (nodes d) v ∨ ∃ p, previous = Some p ∧ v = version p) d) as Hread.
    { intros Kept Hkept. spec_then path_exists_spec. intros present d1 _ (Hn1 & _ & Hsee). destruct present.
      - try_then read_bounded_quiet; [|by intros e d2 _ [Hn2 _]; split; [rewrite Hn2, Hn1|]].
        intros bytes d2 _ [Hn2 Hb]. destruct (Hb bytes eq_refl) as [_ Hbytes]. rewrite Hn1 in Hbytes.
        apply spec_try_ret; [|by intros e _; split; [rewrite Hn2, Hn1|]].
        intros pointer Hpointer. apply spec_ret. split; [by rewrite Hn2, Hn1|].
        intros previous <-%(inj Ok) _ v [Hv|[Hv|Hv]]%Hkept; [by left|by right; left|]. right. right.
        destruct Hv as (bytes' & p & Hbytes' & Hp & <-). rewrite Hbytes in Hbytes'.
        apply (inj Ok) in Hbytes' as <-. rewrite Hpointer in Hp. apply (inj Ok) in Hp as <-. by exists pointer.
      - apply spec_ret. split; [by rewrite Hn1|]. intros previous <-%(inj Ok) Hb v [Hv|[Hv|Hv]]%Hkept;
          [by left|by right; left|]. exfalso. destruct Hv as (bytes & p & Hbytes & _).
        specialize (Hsee Hb). symmetry in Hsee. unfold node_exists in Hsee. unfold readable in Hbytes.
        by destruct (nodes d !! _) as [[| |[]]|]. }
    destruct old as [p|].
    2: { eapply spec_post; [apply (Hread (kept (nodes d) None current)); by intros v [?|[?|?]]; auto|].
         by intros r d1 _ [??]. }
    destruct (version p =? current)%string eqn:E.
    { eapply spec_post; [apply (Hread (kept (nodes d) (Some p) current))|].
      - intros v [?|[?|Hv]]; auto. rewrite E in Hv. auto.
      - intros r d1 _ [??]. split_and!; [done| |done]. intros previous _ p' [= <-] Hp. by apply String.eqb_eq in E. }
    apply spec_try_ret; [|by intros e _; split_and!]. intros bytes _.
    eapply spec_try; [eapply spec_mono; [apply record_write_leaves|apply agree_retaining|
      intros r d1 _ Hd1; exact Hd1]|cbv beta|by intros e d1 _ Hd1].
    intros [] d1 _ Hd1. apply spec_ret. split; [done|]. split; [by intros previous <-%(inj Ok) p' [= <-] _|].
    intros previous <-%(inj Ok) _ v [?|[?|Hv]]; auto. rewrite E in Hv. right. right. by exists p.
  - intros previous d1 _ (Hd1 & Hnamed & Hkept). try_then load_verified_pins_spec; [|done].
    intros pins d2 _ [Hn2 Hpins]. apply cleanup_spec; [by rewrite Hn2| |].
    { intros v [->|(p & Hp & Hne & ->)]; [set_solver|]. rewrite (Hnamed previous eq_refl p Hp Hne). set_solver. }
    intros Hb v Hv.
    destruct (Hkept previous eq_refl Hb v Hv) as [->|[Hp|(p & -> & ->)]]; [set_solver| |set_solver].
    apply elem_of_union_r, (proj1 (Hpins pins eq_refl Hb)). by eapply pinned_in_agree.
Qed.
End Retention.

(** ** The contract of the services *)

Section Contract.
Context `{Sha256, ActivationJson, PointerJson, StoreJson, DeferredDelete} (program_files program_data : Path).
Notation paths := (machine_layout program_files program_data).

Lemma framed_agree `{World} {A : Type} (m : M Disk A) :
  (∀ d, spec (agree (λ q, q = runtime_pointer paths ∨ q = runtime_activation_journal paths) (nodes d)) m
     (λ _ _, True) d) → framed program_files program_data m.
Proof.
  intros Hm d X Y [Hx Hy]. eapply spec_mono; [apply Hm| |done].
  intros n Hn. unfold in_view. rewrite !Hn by auto. by split.
Qed.

(** Neither file is a part of a generation, or a copy of a profile. *)
Lemma direct_not_part `{World} v name :
  name ≠ "bin" → name ≠ "runtime-receipts" → ¬ part_of program_files program_data v (path_join (service_root paths) name).
Proof.
  intros Hbin Hreceipts [Hq|Hq].
  - revert Hq. unfold generation_directory. rewrite <- (app_nil_r (path_join (service_root paths) name)).
    by apply cousins_not_prefix.
  - apply (f_equal length) in Hq. unfold runtime_receipt_path, runtime_receipts_root, path_join in Hq.
    rewrite !length_app in Hq. simpl in Hq. lia.
Qed.

Lemma direct_off_record name :
  name ≠ "previous-runtime.json" → starts_with "." name = false →
  off_record program_files program_data (path_join (service_root paths) name).
Proof.
  intros Hname Hdot. split; [|intros _; by rewrite hidden_join].
  intros Hq%ancestors_prefix. revert Hq. unfold previous_runtime_pointer_path, path_join.
  by apply (parted_not_prefix _ [] []).
Qed.

Lemma direct_not_generated name v :
  name ≠ "bin" → ¬ path_join (service_root paths) name `prefix_of` generated paths v.
Proof.
  intros Hname.
  assert (generated paths v = path_join (service_root paths) "bin" ++ [v; GENERATED_PROFILE_NAME]) as ->
    by (unfold generated; change (runtime_versions paths) with (path_join (service_root paths) "bin");
        generalize (service_root paths); intros root; unfold path_join; by rewrite <- !app_assoc).
  by apply siblings_not_prefix.
Qed.

Lemma retain_framed `{World} old current :
  framed program_files program_data (store_retain paths old current).
Proof.
  apply framed_agree. intros d. eapply spec_mono; [apply store_retain_spec| |done].
  intros n Hn q Hq. destruct (decide (n !! q = nodes d !! q)) as [|Hne]; [done|]. exfalso.
  assert (off_record program_files program_data q ∧ ∀ v, ¬ part_of program_files program_data v q) as [Hoff Hpart].
  { destruct Hq as [-> | ->]; (split; [by apply direct_off_record|intros v; by apply direct_not_part]). }
  destruct (Hn q Hoff Hne) as (v & Hv & _). by apply (Hpart v).
Qed.

Lemma verify_framed `{World} v directory : framed program_files program_data (store_verify paths v directory).
Proof.
  apply framed_agree. intros d. eapply spec_post; [apply store_verify_spec|done].
Qed.

Lemma materialize_framed `{World} : framed program_files program_data (bridge_materialize_active paths).
Proof.
  apply framed_agree. intros d. unfold bridge_materialize_active.
  spec_then path_exists_spec. intros present d1 _ (Hn1 & _). destruct present; cbn [negb]; [|by apply spec_ret].
  try_then read_bounded_quiet; [|done]. intros bytes d2 _ [Hn2 _].
  apply spec_try_ret; [|done]. intros p _.
  eapply spec_try; [eapply spec_mono; [apply materialize_spec| |intros r d3 _ Hr; exact Hr]|cbv beta..|done].
  - intros n [Hn _] q Hq. rewrite <- Hn1, <- Hn2.
    assert (∀ name, starts_with "." name = false → hidden (path_join (service_root paths) name) = false)
      as Hhidden by (intros; by rewrite hidden_join).
    destruct Hq as [-> | ->]; (apply Hn; [by apply Hhidden|intros v; by apply direct_not_generated]).
  - intros a d3 _ _. by apply spec_ret.
Qed.
End Contract.

(** ** Concrete parameters *)

#[export] Instance RuntimeReceipt_eq_dec : EqDecision RuntimeReceipt.
Proof. solve_decision. Defined.

Definition example_signed : RuntimeReceipt :=
  {| runtime_receipt_schema := RUNTIME_RECEIPT_SCHEMA; receipt_version := "1.0.0";
     receipt_files := sha256_digest <$> example_package |}.

(** A codec that knows one receipt. *)
#[export] Instance example_store_json : StoreJson := {
  manifest_from_slice _ := Some example_manifest;
  runtime_receipt_from_slice bytes :=
    if decide (bytes = str_bytes "receipt") then Some example_signed else None;
  runtime_receipt_to_vec r :=
    if decide (r = example_signed) then Ok (str_bytes "receipt") else Err "unknown"%string;
  pin_from_slice _ := None
}.

#[export] Instance example_deferred : DeferredDelete := {
  delay_delete_until_reboot _ := ret (Ok tt)
}.

#[export] Instance example_pointer_json : PointerJson := {
  raw_pointer_from_slice bytes := Some (1%N, bytes_str bytes);
  generation_pointer_to_vec p := Some (str_bytes (generation p))
}.

(** ** Properties *)

(** C21. Verification is exact: it ends, changes nothing, and accepts a generation only if
    its receipt is valid for the version, the directory holds each of the five files
    with the digest of the receipt, and nothing else but the copy of a profile; and
    where no call fails and no link is in the way, it accepts every such generation. *)
Theorem verified_generation_exact `{World, Sha256, StoreJson} paths version root name d :
  let directory := path_join root name in
  ∃ r d', store_verify paths version directory d = Some (r, d') ∧ nodes d' = nodes d ∧
    (r = Ok tt → sound_generation paths (nodes d) version directory) ∧
    (working → unlinked paths (nodes d) version directory →
       sound_generation paths (nodes d) version directory → r = Ok tt).
Proof.
  intros directory.
  destruct (spec_runs _ _ _ _ (store_verify_spec paths (λ _, True) version directory d))
    as (r & d' & E & _ & Hn & Hsound).
  exists r, d'. split; [exact E|]. split; [exact Hn|]. split; [exact Hsound|].
  intros Hworks Hno Hgeneration.
  assert (directory ≠ []) as Hne by (unfold directory, path_join; by destruct root).
  destruct (spec_result _ _ _ _ _ _ (store_verify_works paths Hworks (λ _, True) version directory d
    Hne Hgeneration Hno) E) as [_ [_ Hr]]. exact Hr.
Qed.

(** C20. Retention removes only what it may: it ends, and in every state it passes
    through, whatever has changed apart from the record of the previous runtime (and
    hidden files next to it, and missing directories above it) is a part of a
    generation that verification would have accepted when retention began, under a
    valid version that is neither the current one nor the one it replaces, whatever
    fails.  Where no look for a file is taken for its absence because it failed, the
    version is also not the previous one on record, and not pinned by a migration; the
    code finds both by such a look, and without that condition it may remove them. *)
Theorem retention_removes_only_stale `{World, Sha256, ActivationJson, StoreJson, DeferredDelete}
    program_files program_data old current d :
  let paths := machine_layout program_files program_data in
  ∃ r d', store_retain paths old current d = Some (r, d') ∧
    ∀ m, visited d d' m → ∀ q, off_record program_files program_data q → m !! q ≠ nodes d !! q →
      ∃ v, part_of program_files program_data v q ∧
        sound_generation paths (nodes d) v (generation_directory program_files program_data v) ∧
        valid_runtime_version_component v = true ∧ ¬ named old current v ∧
        ((∀ n, blind n = false) → ¬ kept program_files program_data (nodes d) old current v).
Proof.
  intros paths. destruct (spec_runs _ _ _ _ (store_retain_spec program_files program_data old current d))
    as (r & d' & E & Hrun & _).
  exists r, d'. split; [exact E|]. intros m Hm. apply (run_visited _ _ _ _ Hrun Hm).
Qed.

(** C8. The store of generations and the profile bridge keep the contract under which the
    activation transaction is proved: in every truthful world, verifying a generation,
    retaining generations and materializing the active profile never touch the pointer
    of the active runtime nor the receipt of the activation, in no state they pass
    through, whatever fails. *)
Theorem store_keeps_the_contract `{Sha256, ActivationJson, PointerJson, StoreJson, DeferredDelete}
    program_files program_data :
  services_framed program_files program_data
    (λ w, @store_services w _ _ _ _ _ (machine_layout program_files program_data)).
Proof.
  intros w _. split_and!; [apply materialize_framed|intros; apply verify_framed|intros; apply retain_framed].
Qed.

(** What follows the name of the profile in a temporary file that was left behind. *)
Definition left_over (directory : Path) (nonce : string) : Path :=
  path_join directory ("." ++ GENERATED_PROFILE_NAME ++ ".new-" ++ nonce).

Lemma left_over_unsound `{World, Sha256, StoreJson} paths m version directory nonce :
  is_Some (m !! left_over directory nonce) → ¬ sound_generation paths m version directory.
Proof.
  intros Hleft (bytes & receipt & _ & _ & _ & Hv & _ & Hsigned & _).
  apply Hsigned, (entry_signed_name m receipt version) in Hleft; [|done].
  apply elem_of_cons in Hleft as [Hname|Hname]; [done|].
  apply (elem_of_list_to_set (C := gset string)), elem_of_list_to_set in Hname.
  repeat (apply elem_of_cons in Hname as [Hname|Hname]; [done|]). by apply not_elem_of_nil in Hname.
Qed.

(** A step that only fails. *)
Lemma spec_fails {A B E : Type} P (m : M Disk (result A E)) (k : A → M Disk (result B E)) (R : Disk → Prop) d :
  spec P m (λ r d', R d' ∧ is_ok r = false) d →
  spec P (let? x := m in k x) (λ r d', R d' ∧ is_ok r = false) d.
Proof. intros Hm. eapply spec_try; [exact Hm|by intros a d' _ [_ ?]|by intros e d' _ [? _]]. Qed.

Lemma left_over_binary `{World, Sha256, ActivationJson, PointerJson, StoreJson, DeferredDelete}
    program_files program_data new role nonce d :
  let paths := machine_layout program_files program_data in
  is_Some (nodes d !! left_over (generation_directory program_files program_data (version new)) nonce) →
  spec (λ m, m = nodes d) (@verified_binary_of (store_services paths) paths (Some new) role)
    (λ r d', nodes d' = nodes d ∧ is_ok r = false) d.
Proof.
  intros paths Hleft. unfold verified_binary_of, verified_activation_service_binary. cbv zeta.
  do 2 apply spec_fails. unfold with_err. spec_then store_verify_spec.
  intros r d1 _ [Hn1 Hr]. apply spec_ret. split; [done|]. destruct r as [[]|]; [|done].
  by destruct (left_over_unsound paths (nodes d) (version new) _ nonce Hleft (Hr eq_refl)).
Qed.

(** C38. A crash while the profile is copied next to a new runtime stalls the recovery:
    as long as the temporary file of that write is in the directory of the candidate of
    the pending activation, the recovery with the service binding refuses and changes
    nothing, so that repeating it does not help.  (Only materializing the profile
    removes such files, and the recovery verifies the generation before that.)  A look
    at whether a file is there is taken to be answered truthfully. *)
Theorem interrupted_write_stalls_recovery
    `{World, Sha256, ActivationJson, PointerJson, StoreJson, DeferredDelete}
    program_files program_data inspect restore bytes journal new nonce d
  (Hsee : ∀ n, blind n = false)
  (Hjournal : nodes d !! runtime_activation_journal (machine_layout program_files program_data) =
              Some (File bytes))
  (Hparse : parse_journal bytes = Ok journal) (Hnew : parsed_activated journal = Some new)
  (Hleft : is_Some (nodes d !!
     left_over (generation_directory program_files program_data (version new)) nonce)) :
  let paths := machine_layout program_files program_data in
  ∃ e d', @recover_with_service_binding _ _ (store_services paths) paths inspect restore d = Some (Err e, d') ∧
    (∀ m, visited d d' m → m = nodes d) ∧ nodes d' = nodes d.
Proof.
  intros paths.
  assert (spec (λ m, m = nodes d)
    (@recover_with_service_binding _ _ (store_services paths) paths inspect restore)
    (λ r d', nodes d' = nodes d ∧ is_ok r = false) d) as Hspec.
  { unfold recover_with_service_binding. spec_then path_exists_spec. intros present d1 _ (Hn1 & _ & Hex).
    assert (present = true) as ->.
    { rewrite (Hex Hsee). unfold node_exists, activation_journal_path, paths. by rewrite Hjournal. }
    cbn [negb]. try_then read_bounded_quiet; [|by intros e d2 _ [Hn2 _]; split; [rewrite Hn2|]].
    intros actual d2 _ [Hn2 Hread]. destruct (Hread actual eq_refl) as [_ Hactual].
    unfold readable, activation_journal_path, paths in Hactual. rewrite Hn1, Hjournal in Hactual.
    apply (inj Ok) in Hactual as <-. apply spec_try_ret; [|by intros e He; rewrite Hparse in He].
    intros journal' Hj. rewrite Hparse in Hj. apply (inj Ok) in Hj as <-. rewrite Hnew.
    apply spec_try_ret; [|done]. intros activated <-%(inj Ok).
    assert (nodes d2 = nodes d) as Hnd by congruence. apply spec_fails.
    eapply spec_mono; [apply (left_over_binary program_files program_data new _ nonce)| |].
    - by rewrite Hnd.
    - intros n ->. exact Hnd.
    - intros r d3 _ [Hn3 Hr]. split; [congruence|done]. }
  destruct (spec_runs _ _ _ _ Hspec) as (r & d' & E & Hrun & Hn & Hr). destruct r as [|e]; [done|].
  exists e, d'. split; [exact E|]. split; [|exact Hn]. intros m. by apply (run_visited _ _ _ _ Hrun).
Qed.

(** The recovery of an activation that was cut off while the profile was copied. *)
Definition stalled_bytes : list ascii := example_receipt_bytes (Activation.candidate (Some example_old) example_new).

Definition stalled_disk : Nodes :=
  let paths := machine_layout example_files example_data in
  <[ runtime_activation_journal paths := File stalled_bytes ]>
    (<[ left_over (generation_directory example_files example_data (version example_new)) "4-133-7" :=
        File [] ]> example_start).

Lemma interrupted_write_stalls_recovery_witness :
  ∃ e d', @recover_with_service_binding _ _ (store_services (machine_layout example_files example_data))
      (machine_layout example_files example_data) example_inspect (λ _ _, ret (Ok tt)) (disk_of stalled_disk) =
      Some (Err e, d') ∧ nodes d' = stalled_disk.
Proof.
  destruct (parse_journal stalled_bytes) as [journal|] eqn:E; [|by vm_compute in E].
  assert (parsed_activated journal = Some example_new) as Hnew
    by (apply (inj Ok) in E as <-; vm_compute; reflexivity).
  assert (∀ n, @blind example_world n = false) as Hsee by done.
  destruct (interrupted_write_stalls_recovery example_files example_data example_inspect (λ _ _, ret (Ok tt))
    stalled_bytes journal example_new "4-133-7" (disk_of stalled_disk) Hsee
    ltac:(vm_compute; reflexivity) E Hnew ltac:(vm_compute; by eexists)) as (e & d' & Hr & _ & Hn).
  exists e, d'. split; [exact Hr|exact Hn].
Defined.
