(* ===== verification/Staging.v ===== *)
(** * Staging a generation

    What [stage] of [runtime_installer/deployment.rs] promises: the directory of the
    generation appears whole or not at all, and what a success leaves is a generation
    that verification accepts. *)

From stdpp Require Import sorting pretty.
From S2P Require Export GenerationFacts.

(** ** Staging *)

Class StoreJsonLaws `{StoreJson} : Prop := {
  receipt_roundtrip r bytes :
    runtime_receipt_to_vec r = Ok bytes → runtime_receipt_from_slice bytes = Some r;
  receipt_fits r bytes : is_valid_for r (receipt_version r) = true → runtime_receipt_to_vec r = Ok bytes →
    (0 < bytes_len bytes <= MAX_RUNTIME_RECEIPT_BYTES)%N
}.

Section Staging.
Context `{World, Sha256, ActivationJson, PointerJson, StoreJson, DeferredDelete}
  (program_files program_data : Path).
Notation paths := (machine_layout program_files program_data).
Notation directory_of := (generation_directory program_files program_data).
Implicit Types (P : Nodes → Prop) (d : Disk) (m : Nodes).

(** The directory holds the files, and perhaps the copy of a profile. *)
Definition installed_files m (directory : Path) (expected : gmap string (list ascii)) : Prop :=
  (∀ name, is_Some (m !! path_join directory name) →
     if decide (name = GENERATED_PROFILE_NAME) then
       ∃ bytes, m !! path_join directory name = Some (File bytes) ∧ (0 < bytes_len bytes <= MAX_PROFILE_BYTES)%N
     else ∃ bytes, readable m (path_join directory name) = Ok bytes ∧ expected !! name = Some bytes) ∧
  (∀ name, name ∈ dom expected → is_Some (m !! path_join directory name)) ∧
  (m !! directory = Some Directory ∨ m !! directory = Some (Link ToDirectory)).

Definition not_generated (name : string) : Prop := name ≠ GENERATED_PROFILE_NAME.

Lemma verify_installed_files_spec P directory expected names count d :
  spec P (verify_installed_files directory expected names count) (λ r d', nodes d' = nodes d ∧
    ∀ total, r = Ok total → total = count + length (filter not_generated names) ∧
      ∀ name, name ∈ names →
        if decide (name = GENERATED_PROFILE_NAME) then
          ∃ bytes, nodes d !! path_join directory name = Some (File bytes) ∧
            (0 < bytes_len bytes <= MAX_PROFILE_BYTES)%N
        else ∃ bytes, readable (nodes d) (path_join directory name) = Ok bytes ∧
          expected !! name = Some bytes) d.
Proof.
  revert count d. induction names as [|name names IH]; intros count d; cbn [verify_installed_files].
  { apply spec_ret. split; [done|]. intros total <-%(inj Ok). split; [simpl; lia|set_solver]. }
  cbv zeta. try_then reject_reparse_quiet; [|quiet_error]. intros [] d1 _ Hn1. cbv beta in Hn1.
  destruct (String.eqb_spec name GENERATED_PROFILE_NAME) as [Hname|Hname].
  - rewrite filter_cons_False by auto.
    try_then entry_file_len_spec; [|quiet_error]. intros len d2 _ [Hn2 Hlen].
    destruct (bounded_file len MAX_PROFILE_BYTES) eqn:Eb; [|apply spec_ret; quiet_error].
    destruct len as [len|]; [|done]. destruct (Hlen len eq_refl) as (bytes & Hb & ->).
    unfold bounded_file in Eb. andb_split.
    eapply spec_post; [apply IH|]. intros r d3 _ [Hn3 Hr]. split; [congruence|]. intros total Ht.
    destruct (Hr total Ht) as [-> Hall]. split; [done|].
    intros name' [->|Hin']%elem_of_cons; [|rewrite <- Hn1, <- Hn2; by apply Hall].
    rewrite decide_True by done. exists bytes. rewrite <- Hn1. split; [done|lia].
  - rewrite filter_cons_True by done.
    destruct (expected !! name) as [bytes|] eqn:Ee; [|apply spec_ret; quiet_error].
    try_then read_bounded_quiet; [|quiet_error]. intros actual d2 _ [Hn2 Hb].
    destruct (Hb actual eq_refl) as [_ Hread].
    case_bool_decide as Hd; [apply spec_ret; quiet_error|].
    eapply spec_post; [apply IH|]. intros r d3 _ [Hn3 Hr]. split; [congruence|]. intros total Ht.
    destruct (Hr total Ht) as [-> Hall]. split; [simpl; lia|].
    intros name' [->|Hin']%elem_of_cons; [|rewrite <- Hn1, <- Hn2; by apply Hall].
    rewrite decide_False by done. exists bytes. rewrite <- Hn1. split; [congruence|done].
Qed.

Lemma verify_existing_payload_spec P directory expected d :
  spec P (verify_existing_payload directory expected) (λ r d', nodes d' = nodes d ∧
    (r = Ok tt → installed_files (nodes d) directory expected)) d.
Proof.
  unfold verify_existing_payload. try_then reject_reparse_quiet; [|quiet_error]. intros [] d1 _ Hn1.
  cbv beta in Hn1. try_then read_bounded_directory_spec; [|quiet_error]. intros names d2 _ [Hn2 Hl].
  destruct (Hl names eq_refl) as (-> & _ & Hdir).
  destruct (_ <? _); [apply spec_ret; quiet_error|].
  try_then verify_installed_files_spec; [|quiet_error]. intros total d3 _ [Hn3 Htotal].
  destruct (Htotal total eq_refl) as [-> Hall].
  destruct (_ =? _) eqn:Ecount; cbn [negb]; apply spec_ret; (split; [congruence|]); [|done]. intros _.
  assert (nodes d2 = nodes d) as Hnd2 by congruence.
  rewrite Hnd2, Hn1 in Hall. rewrite Hn1 in Hdir, Ecount. split; [|split; [|done]].
  - intros name Hname. by apply Hall, entry_names_elem.
  - intros name Hname. apply Nat.eqb_eq in Ecount. simpl in Ecount.
    set (found := filter not_generated (entry_names (nodes d) directory)) in *.
    assert (NoDup found) as Hnd by apply NoDup_filter, entry_names_nodup.
    assert (list_to_set (C := gset string) found = dom expected) as Hset.
    { assert (list_to_set (C := gset string) found ⊆ dom expected) as Hsub.
      { intros x Hx%elem_of_list_to_set. apply list_elem_of_filter in Hx as [Hx Hin].
        specialize (Hall x Hin). rewrite decide_False in Hall by done.
        destruct Hall as (bytes & _ & Hb). by apply elem_of_dom_2 in Hb. }
      apply set_subseteq_size_eq; [done|].
      rewrite size_list_to_set, size_dom by done. lia. }
    rewrite <- Hset in Hname. apply elem_of_list_to_set, list_elem_of_filter in Hname as [_ Hname].
    by apply entry_names_elem.
Qed.
End Staging.

(** ** The new directory *)

(** What a payload is below its directory. *)
Definition payload_nodes (files : gmap string (list ascii)) (s : Path) : option Node :=
  match s with
  | [] => Some Directory
  | [name] => File <$> files !! name
  | _ => None
  end.

Definition holds_payload (files : gmap string (list ascii)) (root : Path) (m : Nodes) : Prop :=
  ∀ s, m !! (root ++ s) = payload_nodes files s.

(** Whatever is in a directory is in one that exists. *)
Definition orphanless (m : Nodes) : Prop :=
  map_Forall (λ q _, Forall (λ a, is_Some (m !! a)) (ancestors q)) m.

Lemma orphanless_below m p s : orphanless m → p ≠ [] → m !! p = None → m !! (p ++ s) = None.
Proof.
  intros Ho Hp Hnone. destruct (m !! (p ++ s)) eqn:E; [|done]. exfalso.
  apply Ho in E. rewrite Forall_forall in E. destruct (E p) as [n' Hn]; [|by rewrite Hn in Hnone].
  apply ancestors_elem. exists (length p). rewrite length_app, take_app_length.
  split; [|done]. destruct p; [done|simpl; lia].
Qed.

Section NewDirectory.
Context `{World}.
Implicit Types (d : Disk) (m : Nodes).

Lemma holds_insert files root m name bytes :
  holds_payload files root m →
  holds_payload (<[name := bytes]> files) root (<[path_join root name := File bytes]> m).
Proof.
  intros Hm s. destruct (decide (s = [name])) as [->|Hne].
  - unfold path_join. rewrite lookup_insert_eq. simpl. by rewrite lookup_insert_eq.
  - rewrite lookup_insert_ne by (intros E; apply app_inv_head in E; done). rewrite Hm.
    destruct s as [|x [|]]; simpl; [done| |done]. rewrite lookup_insert_ne by (by intros ->). done.
Qed.

Lemma write_synced_spec files root name bytes d :
  files !! name = None → holds_payload files root (nodes d) →
  spec (λ _, True) (write_synced (path_join root name) bytes) (λ r d',
    r = Ok tt → holds_payload (<[name := bytes]> files) root (nodes d')) d.
Proof.
  intros Hfresh Hd. unfold write_synced, create_new, write_all, sync_all.
  try_then lift_write_spec; [done| |done]. intros [] d1 _ Hc. cbv beta in Hc.
  assert (nodes d !! path_join root name = None) as Hnone by (unfold path_join; rewrite Hd; simpl; by rewrite Hfresh).
  rewrite Hnone in Hc. apply (inj Ok) in Hc.
  try_then lift_write_spec; [done| |done]. intros [] d2 _ Hw. cbv beta in Hw.
  rewrite <- Hc, lookup_insert_eq in Hw. apply (inj Ok) in Hw. simpl in Hw.
  try_then lift_read_spec; [|done]. intros [] d3 _ [Hn3 _]. apply spec_ret. intros _.
  rewrite Hn3, <- Hw, insert_insert_eq. by apply holds_insert.
Qed.

Lemma write_payload_spec root entries files d :
  NoDup entries.*1 → (∀ name, name ∈ entries.*1 → files !! name = None) →
  holds_payload files root (nodes d) →
  spec (λ _, True) (write_payload root entries) (λ r d',
    r = Ok tt → holds_payload (list_to_map entries ∪ files) root (nodes d')) d.
Proof.
  revert files d. induction entries as [|[name bytes] entries IH]; intros files d Hnd Hfresh Hd;
    cbn [write_payload].
  { apply spec_ret. intros _. simpl. by rewrite (left_id_L (∅ : gmap string (list ascii)) (∪)). }
  apply NoDup_cons in Hnd as [Hnin Hnd]. simpl in Hnin, Hfresh.
  try_then write_synced_spec; [apply Hfresh; by left|done| |done]. intros [] d1 _ Hd1.
  eapply spec_post; [apply (IH (<[name := bytes]> files)); [done| |by apply Hd1]|].
  - intros name' Hin. rewrite lookup_insert_ne by (by intros ->). apply Hfresh. by right.
  - intros r d2 _ Hr Hok. specialize (Hr Hok). simpl.
    rewrite <- insert_union_l. rewrite insert_union_r in *; [done|]. by apply not_elem_of_list_to_map_1.
Qed.

Lemma entries_in_order_map (files : gmap string (list ascii)) :
  NoDup (entries_in_order files).*1 ∧ list_to_map (entries_in_order files) = files.
Proof.
  assert (∀ name bytes, (name, bytes) ∈ entries_in_order files ↔ files !! name = Some bytes) as Hin.
  { intros name bytes. unfold entries_in_order. rewrite list_elem_of_omap. split.
    - intros (k & _ & Hk). destruct (files !! k) eqn:E; [|done]. simpl in Hk. by injection Hk as -> ->.
    - intros Hb. exists name. rewrite elem_of_keys_in_order, Hb. by split; [eexists|]. }
  assert (NoDup (entries_in_order files).*1) as Hnd.
  { unfold entries_in_order. assert (NoDup (keys_in_order files)) as Hkeys.
    { unfold keys_in_order. rewrite merge_sort_Permutation. apply NoDup_fst_map_to_list. }
    induction Hkeys as [|k ks Hk _ IH]; [constructor|]. cbn [omap list_omap].
    destruct (files !! k); [|done]. simpl. constructor; [|done]. intros ([a b] & -> & Hab)%list_elem_of_fmap.
    apply list_elem_of_omap in Hab as (k' & Hk' & E). destruct (files !! k'); [|done].
    simpl in E. injection E as <- <-. done. }
  split; [done|]. apply map_eq. intros name. apply option_eq. intros bytes.
  by rewrite <- elem_of_list_to_map, Hin.
Qed.

(** *** The directory is made, and moved *)

Lemma make_directories_keep candidates m q n :
  m !! q = Some n → fold_left make_directory candidates m !! q = Some n.
Proof.
  revert m. induction candidates as [|a candidates IH]; intros m Hq; [done|]. simpl. apply IH.
  unfold make_directory. destruct (m !! a) eqn:E; [done|]. rewrite lookup_insert_ne; [done|]. by intros ->; congruence.
Qed.

Lemma make_directories_create candidates m q :
  q ∈ candidates → m !! q = None → fold_left make_directory candidates m !! q = Some Directory.
Proof.
  revert m. induction candidates as [|a candidates IH]; intros m Hin Hq; [by apply not_elem_of_nil in Hin|]. simpl.
  apply elem_of_cons in Hin as [Ha|Hin].
  - subst a. apply make_directories_keep. unfold make_directory. rewrite Hq. by rewrite lookup_insert_eq.
  - unfold make_directory at 2. destruct (m !! a) eqn:E; [by apply IH|].
    destruct (decide (a = q)) as [->|Hne].
    + apply make_directories_keep. by rewrite lookup_insert_eq.
    + apply IH; [done|]. by rewrite lookup_insert_ne.
Qed.

(** A directory that is made where nothing was. *)
Lemma create_directory_spec P p d :
  p ≠ [] → node_exists (nodes d) p = false →
  (∀ m, (∀ q, q ∉ ancestors p → m !! q = nodes d !! q) → P m) →
  spec P (create_protected_directory p) (λ r d',
    r = Ok tt → nodes d !! p = None ∧ nodes d' !! p = Some Directory ∧
      ∀ q, q ∉ ancestors p → nodes d' !! q = nodes d !! q) d.
Proof.
  intros Hp Hnone HP. unfold create_protected_directory.
  assert (∀ m q, q ∉ ancestors p → fold_left make_directory (rev (ancestors p)) m !! q = m !! q) as Hdirs.
  { intros m q Hq. apply make_directories_lookup. by rewrite list_elem_of_In, <- in_rev, <- list_elem_of_In. }
  try_then reject_reparse_quiet; [|done]. intros [] d1 _ Hn1. cbv beta in Hn1.
  try_then lift_write_spec; [| |done].
  { intros _ m'. cbv beta. destruct (forallb _ _); [|done]. intros <-%(inj Ok). apply HP. intros q Hq.
    by rewrite Hdirs, Hn1. }
  intros [] d2 _ Hc. cbv beta in Hc. destruct (forallb _ _) eqn:Eall; [|done]. apply (inj Ok) in Hc.
  eapply spec_post; [apply reject_reparse_quiet|]. intros r d3 _ Hn3 _. cbv beta in Hn3.
  assert (p ∈ ancestors p) as Hin by by apply own_ancestor.
  assert (nodes d !! p = None) as Hfree.
  { rewrite forallb_elem in Eall. specialize (Eall p Hin). unfold directory_or_absent in Eall.
    rewrite Hn1 in Eall. unfold node_exists in Hnone. by destruct (nodes d !! p) as [[| |[]]|]. }
  split; [done|]. rewrite Hn3, <- Hc, Hn1. split; [|intros q Hq; by apply Hdirs].
  apply make_directories_create; [|done]. by rewrite list_elem_of_In, <- in_rev, <- list_elem_of_In.
Qed.

Lemma move_nodes_moved source destination before qs m s :
  unrelated source destination → NoDup qs →
  (∀ q, q ∈ qs → source `prefix_of` q ∧ is_Some (before !! q)) →
  fold_left (move_node source destination before) qs m !! (destination ++ s) =
    if decide (source ++ s ∈ qs) then before !! (source ++ s) else m !! (destination ++ s).
Proof.
  intros Hun. revert m. induction qs as [|q qs IH]; intros m Hnd Hqs; simpl.
  { done. }
  apply NoDup_cons in Hnd as [Hnin Hnd]. rewrite IH; [|done|intros; apply Hqs; by right].
  destruct (Hqs q (list_elem_of_here _ _)) as [[t ->] [n Hn]].
  destruct (decide (t = s)) as [->|Hne].
  - rewrite decide_False by done. rewrite decide_True by left. unfold move_node. rewrite Hn. unfold moved.
    by rewrite drop_app_length, lookup_insert_eq.
  - destruct (decide (source ++ s ∈ qs)) as [Hin|Hout].
    + rewrite decide_True by (by right). done.
    + rewrite decide_False.
      2: { intros [E|?]%elem_of_cons; [|done]. apply app_inv_head in E. by subst. }
      unfold move_node. rewrite Hn. unfold moved. rewrite drop_app_length.
      rewrite lookup_insert_ne by (intros E; apply app_inv_head in E; by subst).
      rewrite lookup_delete_ne; [done|]. by apply unrelated_below.
Qed.

Lemma tree_elem m p q : q ∈ tree m p ↔ p `prefix_of` q ∧ is_Some (m !! q).
Proof.
  unfold tree. rewrite list_retain_elem. unfold below. rewrite bool_decide_eq_true, list_elem_of_fmap.
  split; intros [? Hq]; (split; [done|]).
  - destruct Hq as ([q' n] & -> & Hn%elem_of_map_to_list). by exists n.
  - destruct Hq as [n Hn]. exists (q, n). split; [done|]. by apply elem_of_map_to_list.
Qed.

Lemma tree_nodup m p : NoDup (tree m p).
Proof. unfold tree. unfold list_retain. apply NoDup_filter, NoDup_fst_map_to_list. Qed.

(** The tree that is moved is found below the destination, which was free. *)
Lemma renamed_lookup source destination m s :
  unrelated source destination → (∀ t, m !! (destination ++ t) = None) →
  fold_left (move_node source destination m) (tree m source) m !! (destination ++ s) = m !! (source ++ s).
Proof.
  intros Hun Hfree. rewrite move_nodes_moved; [|done|apply tree_nodup|by intros q Hq%tree_elem].
  case_decide as Hin; [done|]. rewrite Hfree. destruct (m !! (source ++ s)) eqn:E; [|done].
  destruct Hin. apply tree_elem. split; [by eexists|by rewrite E].
Qed.
End NewDirectory.

(** ** Loading a payload *)

Section Load.
Context `{World, Sha256, StoreJson}.
Implicit Types (P : Nodes → Prop) (d : Disk).

Lemma load_files_spec P root names files d :
  spec P (load_files root names files) (λ r d', nodes d' = nodes d ∧
    ∀ all, r = Ok all →
      (∀ name, name ∈ names → ∃ bytes, readable (nodes d) (path_join root name) = Ok bytes ∧
         all !! name = Some bytes) ∧
      (∀ name, name ∉ names → all !! name = files !! name)) d.
Proof.
  revert files d. induction names as [|name names IH]; intros files d; cbn [load_files].
  { apply spec_ret. split; [done|]. intros all <-%(inj Ok). split; [set_solver|done]. }
  cbv zeta. try_then reject_reparse_quiet; [|quiet_error]. intros [] d1 _ Hn1. cbv beta in Hn1.
  try_then entry_file_len_spec; [|quiet_error]. intros [len|] d2 _ [Hn2 _]; [|apply spec_ret; quiet_error].
  destruct (_ <? len)%N; [apply spec_ret; quiet_error|].
  try_then lift_read_spec; [|quiet_error]. intros [] d3 _ [Hn3 _].
  try_then lift_read_spec; [|quiet_error]. intros bytes d4 _ [Hn4 Hread].
  specialize (Hread _ eq_refl). cbv beta in Hread. rewrite Hn3, Hn2, Hn1 in Hread.
  destruct (readable (nodes d) (path_join root name)) as [full|] eqn:Efull; [|done].
  cbn [result_bind] in Hread. rewrite take_bytes_eq in Hread. apply (inj Ok) in Hread.
  destruct (_ <? bytes_len bytes)%N eqn:Elen; [apply spec_ret; quiet_error|]. andb_split.
  assert (bytes = full) as ->.
  { rewrite <- Hread. apply take_ge. rewrite <- Hread in Elen. unfold bytes_len in Elen.
    rewrite length_take in Elen. lia. }
  eapply spec_post; [apply IH|]. intros r d5 _ [Hn5 Hr].
  assert (nodes d4 = nodes d) as Hnd by congruence. split; [congruence|]. intros all Hall.
  destruct (Hr all Hall) as [Hin Hout]. rewrite Hnd in Hin. split.
  - intros name' [->|Hname]%elem_of_cons; [|by apply Hin].
    destruct (decide (name ∈ names)) as [Hname|Hname]; [by apply Hin|].
    exists full. split; [done|]. rewrite (Hout name Hname). apply lookup_insert_eq.
  - intros name' [Hne Hname]%not_elem_of_cons. rewrite (Hout name' Hname).
    by rewrite lookup_insert_ne.
Qed.

(** A payload that was loaded is what the package holds, and its manifest vouches for it. *)
Lemma payload_load_spec P package d :
  spec P (payload_load package) (λ r d', nodes d' = nodes d ∧ ∀ payload, r = Ok payload →
    (∃ json, verify_runtime_manifest manifest_from_slice json (payload_files payload) = Ok (verified payload)) ∧
    ∀ name bytes, payload_files payload !! name = Some bytes ↔
      readable (nodes d) (path_join (path_join (payload_root package) "files") name) = Ok bytes) d.
Proof.
  unfold payload_load. cbv zeta. try_then reject_reparse_quiet; [|quiet_error]. intros [] d1 _ Hn1.
  cbv beta in Hn1. try_then reject_reparse_quiet; [|quiet_error]. intros [] d2 _ Hn2. cbv beta in Hn2.
  try_then reject_reparse_quiet; [|quiet_error]. intros [] d3 _ Hn3. cbv beta in Hn3.
  eapply spec_try; [apply (spec_map_err P _ _ (λ d', nodes d' = nodes d3) (λ _ _, True));
    eapply spec_post; [apply read_bounded_quiet|by intros r d' _ [? _]]|cbv beta|quiet_error].
  intros json d4 _ [Hn4 _].
  try_then read_bounded_directory_spec; [|quiet_error]. intros names d5 _ [Hn5 Hl].
  destruct (Hl names eq_refl) as (-> & _ & _).
  try_then load_files_spec; [|quiet_error]. intros files d6 _ [Hn6 Hfiles].
  destruct (Hfiles files eq_refl) as [Hin Hout].
  assert (nodes d5 = nodes d) as Hnd5 by congruence. assert (nodes d4 = nodes d) as Hnd4 by congruence.
  rewrite Hnd5, Hnd4 in Hin. rewrite Hnd4 in Hout.
  apply spec_try_ret; [|quiet_error]. intros v Hv. apply spec_ret. split; [congruence|].
  intros payload <-%(inj Ok). cbn [payload_files verified]. split.
  - exists json. destruct (verify_runtime_manifest _ _ _); [|done]. by apply (inj Ok) in Hv as ->.
  - intros name bytes. destruct (decide (name ∈ entry_names (nodes d)
      (path_join (payload_root package) "files"))) as [Hname|Hname].
    + destruct (Hin name Hname) as (full & -> & ->). split; [by intros [= ->]|by intros ->%(inj Ok)].
    + rewrite (Hout name Hname), lookup_empty. split; [done|]. intros Hread. destruct Hname.
      apply entry_names_elem. unfold readable in Hread. by destruct (nodes d !! _).
Qed.
End Load.

(** ** Staging a payload *)

Section Stage.
Context `{World, Sha256, ActivationJson, PointerJson, StoreJson, DeferredDelete}
  (program_files program_data : Path).
Notation paths := (machine_layout program_files program_data).
Notation directory_of := (generation_directory program_files program_data).
Implicit Types (P : Nodes → Prop) (d : Disk) (m : Nodes).

Context (payload : LoadedPayload).
Notation staged_version := (verified_version (verified payload)).
Notation files := (payload_files payload).
Notation destination := (directory_of staged_version).

(** The directory of the generation is as before, or it is new and holds the payload. *)
Definition appears_whole (before m : Nodes) : Prop :=
  (∀ s, m !! (destination ++ s) = before !! (destination ++ s)) ∨
  (before !! destination = None ∧ holds_payload files destination m).

Definition in_destination (q : Path) : Prop := destination `prefix_of` q.

Lemma appears_whole_agree (before m m' : Nodes) :
  appears_whole before m → agree in_destination m m' → appears_whole before m'.
Proof.
  intros Hm Hagree. assert (∀ s, m' !! (destination ++ s) = m !! (destination ++ s)) as Hs
    by (intros s; apply Hagree; by eexists).
  destruct Hm as [Hm|[Hnone Hm]]; [left|right].
  - intros s. by rewrite Hs.
  - split; [done|]. intros s. by rewrite Hs.
Qed.

Lemma appears_whole_kept before m : agree in_destination before m → appears_whole before m.
Proof. intros Hm. left. intros s. apply Hm. by eexists. Qed.

Lemma destination_not_above q : q ∈ ancestors (runtime_versions paths) → ¬ in_destination q.
Proof.
  intros Hq%ancestors_prefix Hd. apply (child_not_prefix (runtime_versions paths) staged_version).
  by etrans.
Qed.

Lemma string_length_app a b : String.length (a ++ b) = String.length a + String.length b.
Proof. induction a as [|c a IH]; simpl; [done|]. by rewrite IH. Qed.

(** Names of staging directories are longer than the version. *)
Definition staging_path (nonce : string) : Path :=
  path_join (runtime_versions paths) (".staging-" ++ staged_version ++ "-" ++ nonce).

Lemma staging_unrelated nonce : unrelated (staging_path nonce) destination.
Proof.
  apply siblings_unrelated. intros E. apply (f_equal String.length) in E.
  rewrite !string_length_app in E. simpl in E. lia.
Qed.

Lemma staging_apart a b : String.length a ≠ String.length b → unrelated (staging_path a) (staging_path b).
Proof.
  intros Hab. apply siblings_unrelated. intros E. apply (f_equal String.length) in E.
  rewrite !string_length_app in E. simpl in E. lia.
Qed.

Lemma nonce_longer P d :
  spec P temporary_nonce (λ nonce d', nodes d' = nodes d ∧
    String.length (pretty process_id) < String.length nonce) d.
Proof.
  unfold temporary_nonce. eapply spec_bind; [by apply (spec_gets P sequence (λ _ d', nodes d' = nodes d))|].
  intros n d1 _ Hn1. cbv beta in Hn1.
  apply (spec_bind _ _ _ (λ _ d2, nodes d2 = nodes d)).
  - split; [|by rewrite <- Hn1]. apply run_still; [done|done|later].
  - intros [] d2 _ Hn2. apply spec_ret. split; [done|]. rewrite !string_length_app. simpl. lia.
Qed.

Lemma staged_files_spec P staging names d :
  spec P (staged_files staging files names) (λ r d', nodes d' = nodes d ∧
    ∀ qs, r = Ok qs → ∀ q, q ∈ qs → staging `prefix_of` q) d.
Proof.
  revert d. induction names as [|name names IH]; intros d; cbn [staged_files].
  { apply spec_ret. split; [done|]. intros qs <-%(inj Ok) q Hq. set_solver. }
  destruct (negb _); [apply spec_ret; quiet_error|]. cbv zeta.
  try_then reject_reparse_quiet; [|quiet_error]. intros [] d1 _ Hn1. cbv beta in Hn1.
  try_then entry_file_len_spec; [|quiet_error]. intros [len|] d2 _ [Hn2 _]; [|apply spec_ret; quiet_error].
  destruct (_ <? _)%N; [apply spec_ret; quiet_error|]. try_then IH; [|quiet_error].
  intros rest d3 _ [Hn3 Hrest]. apply spec_ret. split; [congruence|].
  intros qs <-%(inj Ok) q [->|Hq]%elem_of_cons; [by eexists|]. by apply (Hrest _ eq_refl).
Qed.

Lemma remove_files_leaves (Q : Path → Prop) qs : (∀ q, q ∈ qs → ¬ Q q) → leaves Q (remove_files qs).
Proof.
  induction qs as [|q qs IH]; intros HQ; cbn [remove_files]; [apply leaves_ret|].
  apply leaves_try; [apply leaves_lift, leaves_remove_file, HQ; by left|]. intros _. apply IH. set_solver.
Qed.

Lemma legacy_collision_leaves :
  leaves (λ q, ¬ staging_path (pretty process_id) `prefix_of` q)
    (remove_legacy_staging_collision (runtime_versions paths) staged_version files).
Proof.
  unfold remove_legacy_staging_collision. fold (staging_path (pretty process_id)). cbv zeta.
  apply leaves_bind; [apply leaves_exists|]. intros [|]; cbn [negb]; [|apply leaves_ret].
  apply leaves_try; [apply leaves_reject|]. intros _.
  apply leaves_try; [apply leaves_lift, leaves_read|]. intros [len|]; [apply leaves_ret|].
  apply leaves_try; [apply leaves_bounded_directory|]. intros names.
  eapply leaves_quiet_try; [intros; apply staged_files_spec|]. intros qs Hqs.
  apply leaves_try; [apply remove_files_leaves; intros q Hq Hn; by apply Hn, Hqs|]. intros _.
  apply leaves_try; [|intros; apply leaves_ret]. apply leaves_lift, leaves_remove_dir. intros Hn. by apply Hn.
Qed.

Lemma write_payload_leaves (Q : Path → Prop) staging entries :
  (∀ name, ¬ Q (path_join staging name)) → leaves Q (write_payload staging entries).
Proof.
  intros HQ. induction entries as [|[name bytes] entries IH]; cbn [write_payload]; [apply leaves_ret|].
  apply leaves_try; [|by intros _]. unfold write_synced.
  apply leaves_try; [by apply leaves_lift, leaves_create_new|]. intros _.
  apply leaves_try; [by apply leaves_lift, leaves_write_all|]. intros _.
  apply leaves_try; [apply leaves_lift, leaves_read|]. intros; apply leaves_ret.
Qed.

Lemma in_destination_off_staging nonce q : in_destination q → ¬ staging_path nonce `prefix_of` q.
Proof. intros [s ->] [t E]. by apply (unrelated_below _ _ t s (staging_unrelated nonce)). Qed.

(** From the rename on: the staged tree becomes the destination, or nothing does. *)
Lemma rename_and_verify before nonce d :
  agree in_destination before (nodes d) → orphanless before →
  holds_payload files (staging_path nonce) (nodes d) →
  spec (appears_whole before)
    (let? _ := lift_io (fs_rename_directory (staging_path nonce) destination) in
     verify_existing_payload destination files)
    (λ r d', appears_whole before (nodes d') ∧
       (r = Ok tt → installed_files (nodes d') destination files)) d.
Proof.
  intros Hd Ho Hstaged. pose proof (staging_unrelated nonce) as Hun.
  assert (∀ partial m', match nodes d !! staging_path nonce, nodes d !! destination with
      | Some Directory, None => Ok (fold_left (move_node (staging_path nonce) destination (nodes d))
          (tree (nodes d) (staging_path nonce)) (nodes d))
      | Some Directory, Some _ => Err (io_error Occupied)
      | Some _, _ => Err (io_error WrongKind)
      | None, _ => Err (io_error Missing)
      end = Ok m' → (λ _ : option nat, appears_whole before m') partial) as Hmoved.
  { intros _ m' E. cbv beta. destruct (nodes d !! staging_path nonce) as [[]|]; try done;
      destruct (nodes d !! destination) eqn:Efree; try done. apply (inj Ok) in E as <-.
    assert (before !! destination = None) as Hfree by (rewrite <- (Hd destination); [done|unfold in_destination; reflexivity]).
    right. split; [done|]. intros s. rewrite renamed_lookup; [apply Hstaged|done|].
    intros t. rewrite (Hd (destination ++ t)) by (by eexists). apply orphanless_below; [done| |done].
    unfold generation_directory, path_join. by destruct (runtime_versions paths). }
  unfold fs_rename_directory. try_then lift_write_spec.
  - intros partial m' E. by apply (Hmoved partial).
  - intros [] d1 _ Hc. cbv beta in Hc. pose proof (Hmoved None _ Hc) as Hd1. cbv beta in Hd1.
    eapply spec_post; [apply verify_existing_payload_spec|]. intros r d2 _ [Hn2 Hr].
    rewrite Hn2. by split.
  - intros e d1 _ [Hn1|[partial Hc]]; (split; [|done]); [|by apply (Hmoved partial)].
    rewrite Hn1. by apply appears_whole_kept.
Qed.

(** Where staging may work: neither above the versions nor in an old staging directory. *)
Definition off_staging (q : Path) : Prop :=
  q ∉ ancestors (runtime_versions paths) ∧ ¬ staging_path (pretty process_id) `prefix_of` q.

Lemma destination_off_staging q : in_destination q → off_staging q.
Proof.
  intros Hq. split; [|by apply (in_destination_off_staging (pretty process_id))].
  intros Hin. by apply (destination_not_above q).
Qed.

Lemma fresh_staging_off_staging nonce s :
  String.length (pretty process_id) < String.length nonce → off_staging (staging_path nonce ++ s).
Proof.
  intros Hlen. split.
  - intros Hin%ancestors_prefix. apply (child_not_prefix (runtime_versions paths)
      (".staging-" ++ staged_version ++ "-" ++ nonce)). etrans; [|exact Hin]. by eexists.
  - intros [t E]. symmetry in E. revert E. apply unrelated_below, staging_apart. lia.
Qed.

(** A staging directory that was made is empty. *)
Lemma fresh_staging before nonce d d' :
  orphanless before → agree off_staging before (nodes d) →
  String.length (pretty process_id) < String.length nonce →
  nodes d !! staging_path nonce = None → nodes d' !! staging_path nonce = Some Directory →
  (∀ q, q ∉ ancestors (staging_path nonce) → nodes d' !! q = nodes d !! q) →
  holds_payload ∅ (staging_path nonce) (nodes d').
Proof.
  intros Ho Hd Hlen Hnone Hmade Hrest s. destruct s as [|x s]; [by rewrite app_nil_r|].
  rewrite Hrest.
  2: { intros Hin%ancestors_prefix%prefix_length. rewrite length_app in Hin. simpl in Hin. lia. }
  rewrite Hd by by apply fresh_staging_off_staging.
  rewrite orphanless_below; [by destruct s|done| |].
  - unfold staging_path, path_join. by destruct (runtime_versions paths).
  - rewrite <- Hnone. symmetry. rewrite <- (app_nil_r (staging_path nonce)).
    by apply Hd, fresh_staging_off_staging.
Qed.

Lemma stage_fresh_spec before d :
  orphanless before → (∀ n, blind n = false) → agree off_staging before (nodes d) →
  spec (appears_whole before)
    (let! nonce := temporary_nonce in
     let staging := path_join (runtime_versions paths) (".staging-" ++ staged_version ++ "-" ++ nonce) in
     let! collides := path_exists staging in
     if collides then ret (Err (Runtime "runtime staging directory already exists"))
     else
       let? _ := create_protected_directory staging in
       let! result :=
         (let? _ := write_payload staging (entries_in_order files) in
          let? _ := lift_io (fs_rename_directory staging destination) in
          verify_existing_payload destination files) in
       match result with
       | Ok _ => ret (Ok tt)
       | Err error =>
           let! left_over := path_exists staging in
           if left_over then
             let! _ := fs_remove_dir_all staging in
             ret (Err error)
           else ret (Err error)
       end)
    (λ r d', appears_whole before (nodes d') ∧
       (r = Ok tt → installed_files (nodes d') destination files)) d.
Proof.
  intros Ho Hsee Hd.
  assert (∀ m : Nodes, agree off_staging before m → agree in_destination before m) as Hoff
    by (intros m Hm q Hq; by apply Hm, destination_off_staging).
  spec_then nonce_longer. intros nonce d1 _ [Hn1 Hlen]. fold (staging_path nonce). cbv zeta.
  spec_then path_exists_spec. intros collides d2 _ (Hn2 & _ & Hex). specialize (Hex Hsee).
  assert (agree off_staging before (nodes d2)) as Hd2 by (by rewrite Hn2, Hn1).
  destruct collides; [apply spec_ret; split; [by apply appears_whole_kept, Hoff|done]|].
  eapply spec_try; [eapply (spec_frame in_destination); [apply leaves_protected_directory|
    apply create_directory_spec; [|by rewrite Hn2|done]|]|cbv beta..].
  { intros q Hq Hin%ancestors_prefix. apply (destination_not_above q); [|done].
    pose proof Hin as Hprefix. destruct Hin as [t Ht]. exfalso.
    destruct Hq as [s ->]. rewrite <- app_assoc in Ht.
    rewrite <- (app_nil_r (staging_path nonce)) in Ht. revert Ht. apply unrelated_below, staging_unrelated. }
  { unfold staging_path, path_join. by destruct (runtime_versions paths). }
  { intros n Hn. apply appears_whole_kept. by rewrite (Hoff _ Hd2). }
  2: { intros e d3 _ [Hd3 _]. split; [|done]. apply appears_whole_kept. by rewrite (Hoff _ Hd2). }
  intros [] d3 _ [Hd3 Hmade]. destruct (Hmade eq_refl) as (Hnone & Hdir & Hrest).
  pose proof (fresh_staging before nonce d2 d3 Ho Hd2 Hlen Hnone Hdir Hrest) as Hempty.
  assert (agree in_destination before (nodes d3)) as Hagree by (by rewrite (Hoff _ Hd2)).
  destruct (entries_in_order_map files) as [Hnd Hmap].
  apply (spec_bind _ _ _ (λ r d', appears_whole before (nodes d') ∧
       (r = Ok tt → installed_files (nodes d') destination files))).
  - eapply spec_try; [eapply (spec_frame in_destination); [apply write_payload_leaves|
      apply (write_payload_spec _ _ ∅); [done|done|exact Hempty]|]|cbv beta..].
    + intros name Hname. apply (in_destination_off_staging nonce _ Hname). by eexists.
    + intros n Hn. apply appears_whole_kept. by rewrite Hagree.
    + intros [] d4 _ [Hd4 Hwritten]. specialize (Hwritten eq_refl).
      rewrite Hmap, (right_id_L (∅ : gmap string (list ascii)) (∪)) in Hwritten.
      apply (rename_and_verify before nonce); [by rewrite Hagree|done|done].
    + intros e d4 _ [Hd4 _]. split; [|done]. apply appears_whole_kept. by rewrite Hagree.
  - intros [[]|e] d4 _ [Hd4 Hinstalled]; [by apply spec_ret|].
    spec_then path_exists_spec. intros left_over d5 _ (Hn5 & _).
    assert (appears_whole before (nodes d5)) as Hd5 by by rewrite Hn5.
    destruct left_over; [|by apply spec_ret].
    eapply spec_bind; [eapply spec_mono; [apply (leaves_remove_dir_all in_destination)|
      intros n Hn; by eapply appears_whole_agree|intros a d6 _ Hd6; exact Hd6]|cbv beta].
    + intros q Hq. apply bool_decide_eq_false. by apply in_destination_off_staging.
    + intros a d6 _ Hd6. apply spec_ret. split; [|done]. by eapply appears_whole_agree.
Qed.

Lemma stage_payload_spec replace_invalid replace d :
  orphanless (nodes d) → (∀ n, blind n = false) → (replace_invalid = true → nodes d !! destination = None) →
  spec (appears_whole (nodes d)) (stage_payload paths payload destination replace_invalid replace)
    (λ r d', appears_whole (nodes d) (nodes d') ∧
       (r = Ok tt → installed_files (nodes d') destination files)) d.
Proof.
  intros Ho Hsee Hfree. unfold stage_payload.
  assert (∀ m : Nodes, agree off_staging (nodes d) m → appears_whole (nodes d) m) as Hoff
    by (intros m Hm; apply appears_whole_kept; intros q Hq; by apply Hm, destination_off_staging).
  eapply spec_try; [eapply spec_mono; [apply (leaves_protected_directory off_staging)|exact Hoff|
    intros r d1 _ Hd1; exact Hd1]|cbv beta..]; [by intros q [Hq _]| |by intros e d1 _ Hd1; split; [apply Hoff|]].
  intros [] d1 _ Hd1.
  eapply spec_try; [eapply (spec_mono (agree off_staging (nodes d1)) _ _
    (λ _ d', agree off_staging (nodes d1) (nodes d')))|cbv beta..].
  { eapply spec_mono; [apply legacy_collision_leaves| |];
      [intros n Hn q Hq|intros r d2 _ Hn q Hq]; apply Hn, Hq. }
  { intros n Hn. apply Hoff. by rewrite Hd1. }
  { intros r d2 _ Hd2. exact Hd2. }
  2: { intros e d2 _ Hd2. split; [|done]. apply Hoff. by rewrite Hd1. }
  intros [] d2 _ Hd2. spec_then path_exists_spec. intros present d3 _ (Hn3 & _ & Hpresent).
  assert (agree off_staging (nodes d) (nodes d3)) as Hd3 by (by rewrite Hn3, Hd1).
  assert (present = true → replace_invalid = false) as Hnew.
  { intros ->. destruct replace_invalid; [|done]. specialize (Hpresent Hsee). rewrite <- Hn3 in Hpresent.
    unfold node_exists in Hpresent. rewrite (Hd3 destination), Hfree in Hpresent; [done|done|].
    apply destination_off_staging. unfold in_destination. reflexivity. }
  destruct present; [|by apply stage_fresh_spec].
  try_then reject_reparse_quiet; [|by intros e d4 _ Hn4; cbv beta in Hn4; split; [apply Hoff; rewrite Hn4|]].
  intros [] d4 _ Hn4. cbv beta in Hn4. spec_then verify_existing_payload_spec.
  intros r d5 _ [Hn5 Hr]. assert (appears_whole (nodes d) (nodes d5)) as Hd5 by (apply Hoff; by rewrite Hn5, Hn4).
  rewrite (Hnew eq_refl). destruct r as [[]|e]; cbn [negb]; apply spec_ret; (split; [done|]); [|done].
  intros _. rewrite Hn5. by apply Hr.
Qed.

(** *** What staging leaves verifies *)

Context `{!StoreJsonLaws}.

Definition staged_receipt : RuntimeReceipt :=
  {| runtime_receipt_schema := RUNTIME_RECEIPT_SCHEMA;
     receipt_version := staged_version;
     receipt_files := sha256_digest <$> files |}.

Lemma write_runtime_receipt_spec d :
  spec (agree in_destination (nodes d)) (write_runtime_receipt paths payload) (λ r d',
    agree in_destination (nodes d) (nodes d') ∧
    (r = Ok tt → ∃ bytes, runtime_receipt_to_vec staged_receipt = Ok bytes ∧
       nodes d' !! runtime_receipt_path paths staged_version = Some (File bytes))) d.
Proof.
  unfold write_runtime_receipt. fold staged_receipt. cbv zeta.
  assert (∀ q, in_destination q → off_record program_files program_data q) as Hgrand.
  { intros q [s ->]. by apply grandchild_off_record. }
  assert (∀ q, in_destination q → ¬ q `prefix_of` runtime_receipt_path paths staged_version) as Hapart.
  { intros q [s ->] Hq. apply (cousins_not_prefix (service_root paths) "bin" staged_version "runtime-receipts"
      [(staged_version ++ ".json")%string]); [done|]. etrans; [|exact Hq]. by eexists. }
  eapply spec_try; [apply (leaves_protected_directory in_destination)|cbv beta..].
  { intros q Hq Hin. apply (Hapart q Hq). apply ancestors_prefix in Hin. etrans; [exact Hin|]. by eexists. }
  2: { by intros e d1 _ Hd1. }
  intros [] d1 _ Hd1. apply spec_try_ret; [|by intros e _; split].
  intros bytes Hbytes. destruct (runtime_receipt_to_vec staged_receipt) as [bytes'|] eqn:Ev; [|done].
  apply (inj Ok) in Hbytes as ->.
  eapply spec_mono; [eapply spec_frame; [apply (leaves_atomic_write_near in_destination)|
    eapply spec_mono; [apply atomic_write_spec|done|]|intros n Hn; exact Hn]| |]; cbv beta.
  - intros q Hq. split; [by intros Hin%ancestors_prefix; apply (Hapart q)|].
    destruct Hq as [s ->]. unfold runtime_receipt_path. rewrite path_parent_join. intros Hp.
    exfalso. apply path_parent_spec in Hp as [name Hp].
    apply (cousins_not_prefix (service_root paths) "bin" staged_version "runtime-receipts" [name]);
      [done|]. exists s. by symmetry.
  - intros r d2 _ [_ Hr]. exact Hr.
  - intros n Hn. by rewrite Hd1.
  - intros r d2 _ [Hd2 Hr]. split; [by rewrite Hd1|]. intros ->. exists bytes. split; [done|by apply Hr].
Qed.

Lemma staged_receipt_valid json manifest_json :
  verify_runtime_manifest json manifest_json files = Ok (verified payload) →
  is_valid_for staged_receipt staged_version = true ∧ dom files = runtime_file_names ∧
  ∀ name bytes, files !! name = Some bytes → (0 < bytes_len bytes <= MAX_RUNTIME_FILE_BYTES)%N.
Proof.
  intros (manifest & _ & _ & Hversion & _ & Hdom & Hfiles & Hv)%verify_runtime_manifest_spec.
  assert (staged_version = manifest_version manifest) as Hsv by by rewrite Hv.
  split; [|split; [done|by intros name bytes Hb; apply Hfiles in Hb as [? _]]].
  assert (dom (receipt_files staged_receipt) = runtime_file_names) as Hd
    by (unfold staged_receipt; cbn [receipt_files]; by rewrite dom_fmap_L).
  pose proof (proj2 (exact_runtime_file_set_spec _) Hd) as Hexact.
  unfold exact_runtime_file_set in Hexact. andb_split.
  unfold is_valid_for. cbn [runtime_receipt_schema receipt_version staged_receipt].
  rewrite String.eqb_refl, Hsv, valid_version_is_component by done. cbn [andb].
  rewrite !andb_true_iff. split_and!; [done|done|done| |done|].
  - apply Nat.eqb_eq. rewrite <- (size_dom (D := gset string)). fold staged_receipt. rewrite Hd. by vm_compute.
  - apply forallb_elem. intros [name digest] Hin%elem_of_map_to_list.
    assert (name ∈ dom (receipt_files staged_receipt)) as Hname by by eapply elem_of_dom_2.
    rewrite Hd in Hname. apply elem_of_list_to_set in Hname. rewrite (proj2 (one_of_elem _ _)) by done.
    cbn [receipt_files staged_receipt] in Hin. rewrite lookup_fmap in Hin.
    destruct (files !! name); [|done]. simpl in Hin. injection Hin as <-. apply digest_canonical.
Qed.

Lemma stage_spec json manifest_json replace_invalid replace d :
  verify_runtime_manifest json manifest_json files = Ok (verified payload) →
  orphanless (nodes d) → (∀ n, blind n = false) → (replace_invalid = true → nodes d !! destination = None) →
  spec (appears_whole (nodes d)) (stage paths payload replace_invalid replace) (λ r d',
    ∀ directory, r = Ok directory →
      directory = destination ∧ installed_files (nodes d') directory files ∧
      sound_generation paths (nodes d') staged_version directory) d.
Proof.
  intros Hload Ho Hsee Hfree. destruct (staged_receipt_valid _ _ Hload) as (Hvalid & Hdom & Hsizes).
  unfold stage. cbv zeta. fold (directory_of staged_version).
  assert (∀ (f : SetupError → SetupError) {A : Type} (m : M Disk (result A SetupError)) P Q d,
    spec P m Q d → spec P (with_err f m) (λ r d', ∃ r', Q r' d' ∧ r = map_err f r') d) as Herr.
  { intros f A m P Q d0 Hm. unfold with_err. eapply spec_bind; [exact Hm|]. intros r d' _ HQ.
    apply spec_ret. by exists r. }
  eapply spec_try; [by apply Herr, stage_payload_spec|cbv beta|done].
  intros [] d1 _ (r1 & [Hd1 Hinst] & Hr1). destruct r1 as [[]|]; [|done].
  destruct (Hinst eq_refl) as (Hentries & Hpresent & Hdir).
  eapply spec_try; [apply Herr; eapply spec_mono; [apply write_runtime_receipt_spec| |
    intros r d2 _ Hr; exact Hr]|cbv beta|done].
  { intros n Hn. by eapply appears_whole_agree. }
  intros [] d2 _ (r2 & [Hd2 Hreceipt] & Hr2). destruct r2 as [[]|]; [|done].
  destruct (Hreceipt eq_refl) as (bytes & Hvec & Hfile). apply spec_ret.
  intros directory <-%(inj Ok). split; [done|].
  assert (∀ name, nodes d2 !! path_join destination name = nodes d1 !! path_join destination name) as Hchild
    by (intros name; apply Hd2; by eexists).
  split.
  { split_and!.
    - intros name Hname. rewrite Hchild in Hname. specialize (Hentries name Hname). unfold readable in *. by rewrite Hchild.
    - intros name Hname. rewrite Hchild. by apply Hpresent.
    - by rewrite (Hd2 destination) by (unfold in_destination; reflexivity). }
  exists bytes, staged_receipt.
  split; [unfold readable; by rewrite Hfile|]. split; [by apply (receipt_fits staged_receipt)|].
  split; [by apply receipt_roundtrip|]. split; [done|].
  split; [by rewrite (Hd2 destination) by (unfold in_destination; reflexivity)|]. split.
  - intros name Hname. rewrite Hchild in Hname. specialize (Hentries name Hname).
    unfold signed, readable in *. rewrite Hchild.
    destruct (decide _); [done|]. destruct Hentries as (b & Hb & Hfiles). exists b. split; [done|].
    split; [by eapply Hsizes|]. cbn [receipt_files staged_receipt]. by rewrite lookup_fmap, Hfiles.
  - intros name Hname. rewrite Hchild. apply Hpresent. rewrite Hdom. by apply elem_of_list_to_set.
Qed.
End Stage.

(** ** Properties *)

(** C9. A runtime generation is staged whole or not at all.  On a disk without files
    outside directories, where no look for a file is taken for its absence because it
    failed, and when an invalid generation may not be replaced or there is none (the
    exchange of an invalid one is the repair), staging a package that was loaded ends; in
    every state it passes through, the directory of the generation is as it was before
    or, if there was none, holds exactly the files of the package; and what a success
    leaves, also where there was a directory, is the generation of the package: the
    directory holds each of its files with its bytes, and besides them at most the copy
    of a profile, and verification accepts it under the version of the manifest. *)
Theorem staging_is_all_or_nothing
    `{World, Sha256, StoreJson, !StoreJsonLaws}
    program_files program_data package replace_invalid replace d0 payload d
  (Hload : payload_load package d0 = Some (Ok payload, d))
  (Hsound : orphanless (nodes d0)) (Hsee : ∀ n, blind n = false)
  (Hnew : replace_invalid = true →
    nodes d0 !! generation_directory program_files program_data (verified_version (verified payload)) = None) :
  let paths := machine_layout program_files program_data in
  let version := verified_version (verified payload) in
  let directory := generation_directory program_files program_data version in
  nodes d = nodes d0 ∧
  (∀ name bytes, payload_files payload !! name = Some bytes ↔
     readable (nodes d0) (path_join (path_join (payload_root package) "files") name) = Ok bytes) ∧
  ∃ r d', stage paths payload replace_invalid replace d = Some (r, d') ∧
    (∀ m, visited d d' m →
      (∀ s, m !! (directory ++ s) = nodes d0 !! (directory ++ s)) ∨
      (nodes d0 !! directory = None ∧ holds_payload (payload_files payload) directory m)) ∧
    (∀ destination, r = Ok destination →
       destination = directory ∧ installed_files (nodes d') directory (payload_files payload) ∧
       (∀ name bytes, payload_files payload !! name = Some bytes → name ≠ GENERATED_PROFILE_NAME →
          readable (nodes d') (path_join directory name) = Ok bytes) ∧
       sound_generation paths (nodes d') version directory).
Proof.
  destruct (spec_result _ _ _ _ _ _ (payload_load_spec (λ _, True) package d0) Hload) as [_ [Hn Hpayload]].
  destruct (Hpayload payload eq_refl) as [[json Hverified] Hfiles]. rewrite <- Hn in Hsound, Hnew |- *.
  destruct (spec_runs _ _ _ _ (stage_spec program_files program_data payload _ json replace_invalid replace d Hverified
    Hsound Hsee Hnew)) as (r & d' & E & Hrun & Hok).
  split; [done|]. split; [by rewrite Hn|]. exists r, d'. split; [exact E|]. split.
  - intros m. by apply (run_visited _ _ _ _ Hrun).
  - intros destination Hr. destruct (Hok destination Hr) as (-> & Hin & Hg). split_and!; [done|done| |done].
    intros name bytes Hb Hname. destruct Hin as (Hentries & Hall & _).
    specialize (Hentries name (Hall name (elem_of_dom_2 _ _ _ Hb))). rewrite decide_False in Hentries by done.
    destruct Hentries as (b & Hread & Hb'). rewrite Hb in Hb'. by injection Hb' as <-.
Qed.

(** ** A package that is staged *)

#[export] Instance example_store_json_laws : StoreJsonLaws.
Proof.
  split.
  - intros r bytes. cbn. destruct (decide (r = example_signed)) as [->|]; [|done]. by intros <-%(inj Ok).
  - intros r bytes _. cbn. destruct (decide (r = example_signed)); [|done]. by intros <-%(inj Ok).
Qed.

Definition example_package_root : FixedPayload := {| payload_root := ["D:"; "payload"] |}.

Definition example_package_disk : Nodes :=
  let root := payload_root example_package_root in
  <[ ["D:"] := Directory ]> (<[ root := Directory ]> (<[ path_join root "manifest.json" := File (str_bytes "{}") ]>
    (<[ path_join root "files" := Directory ]>
      (kmap (λ name, path_join (path_join root "files") name) (File <$> example_package))))).

Lemma example_disk_sound : orphanless example_package_disk.
Proof. apply (bool_decide_unpack _). vm_compute. exact I. Qed.

Definition loaded_example : option (result LoadedPayload SetupError * Disk) :=
  payload_load example_package_root (disk_of example_package_disk).

Definition staged_example : option (result Path SetupError) :=
  match loaded_example with
  | Some (Ok payload, d) =>
      option_map fst (stage (machine_layout ["C:"; "Program Files"] ["C:"; "ProgramData"]) payload false
        (λ _ _, ret (Ok tt)) d)
  | _ => None
  end.

Lemma example_is_staged :
  option_map is_ok staged_example = Some true.
Proof. vm_compute. reflexivity. Qed.

Lemma staging_is_all_or_nothing_witness :
  ∃ payload d directory d', loaded_example = Some (Ok payload, d) ∧
    stage (machine_layout ["C:"; "Program Files"] ["C:"; "ProgramData"]) payload false
      (λ _ _, ret (Ok tt)) d = Some (Ok directory, d') ∧
    installed_files (nodes d') directory (payload_files payload) ∧
    sound_generation (machine_layout ["C:"; "Program Files"] ["C:"; "ProgramData"]) (nodes d')
      (verified_version (verified payload)) directory.
Proof.
  pose proof example_is_staged as Hok. unfold staged_example in Hok.
  destruct loaded_example as [[[payload|] d]|] eqn:E; [|discriminate Hok..].
  destruct (staging_is_all_or_nothing ["C:"; "Program Files"] ["C:"; "ProgramData"] example_package_root
    false (λ _ _, ret (Ok tt)) (disk_of example_package_disk) payload d E example_disk_sound (λ _, eq_refl)
    ltac:(discriminate))
    as (_ & _ & r & d' & Hstage & _ & Hsound).
  rewrite Hstage in Hok. destruct r as [directory|]; [|discriminate Hok].
  exists payload, d, directory, d'. destruct (Hsound directory eq_refl) as (-> & Hin & _ & Hgeneration).
  split; [reflexivity|]. split; [exact Hstage|]. split; [exact Hin|exact Hgeneration].
Defined.
