(* ===== verification/InstallBootstrap.v ===== *)
(** * The installer's decisions

    [service-runtime/setup/src/install_bootstrap.rs]: which setup command a command
    line means, whether an installation may touch the machine at all, what it then
    plans, and which answers of the machine it accepts.  The machine behind the two
    backend traits is any type with their operations.
    [protected_installer_broker_layout] is in [WindowsPath]. *)

From S2P Require Export Manifest Storage.

(** ** Commands *)

Inductive BootstrapStartPolicy := EnsureRunning | PreserveObservedState.

Definition policy_verb (p : BootstrapStartPolicy) : string :=
  match p with
  | EnsureRunning => "bootstrap-install"
  | PreserveObservedState => "bootstrap-install-preserve-run-state"
  end.

Inductive SetupCommand :=
| BrokerVerb (c : BrokerCommand)
| BootstrapInstall (p : BootstrapStartPolicy)
| UninstallOwned.

Definition parse_setup_command (arguments : list string) : option SetupCommand :=
  match arguments with
  | [v] =>
      match List.find (λ p, (v =? policy_verb p)%string) [EnsureRunning; PreserveObservedState] with
      | Some p => Some (BootstrapInstall p)
      | None =>
          if (v =? "uninstall-owned")%string then Some UninstallOwned
          else option_map BrokerVerb (parse_broker_command [v])
      end
  | _ => None
  end.

(** ** What is observed, planned and answered *)

Inductive ConflictObservation := Clear | Detected | ConflictUnknown.

Inductive OpenServiceObservation :=
| ServiceAbsent | OwnedStopped | OwnedRunning | Foreign | ServiceUnknown.

Inductive ProtectedProfileObservation := ProfileAbsent | ProfileActive (g : string) | ProfileUnknown.

Inductive ProtectedRuntimeObservation := RuntimeAbsent | RuntimeActive | RuntimeUnknown.

#[export] Instance ConflictObservation_eq_dec : EqDecision ConflictObservation.
Proof. solve_decision. Defined.
#[export] Instance OpenServiceObservation_eq_dec : EqDecision OpenServiceObservation.
Proof. solve_decision. Defined.
#[export] Instance ProtectedProfileObservation_eq_dec : EqDecision ProtectedProfileObservation.
Proof. solve_decision. Defined.
#[export] Instance ProtectedRuntimeObservation_eq_dec : EqDecision ProtectedRuntimeObservation.
Proof. solve_decision. Defined.

Record BootstrapPreflight := {
  open_service : OpenServiceObservation;
  protected_profile : ProtectedProfileObservation;
  protected_runtime : ProtectedRuntimeObservation;
  legacy_service : ConflictObservation;
  legacy_tray : ConflictObservation;
  appinit : ConflictObservation
}.

Inductive BootstrapProfileMode :=
| PublishBundledDefault
| PreserveExisting (g : string)
| LeaveUnpublished.

Record BootstrapPlan := { plan_profile : BootstrapProfileMode; start_service : bool }.

Inductive BootstrapBlocker :=
| LegacyService | LegacyTrayMode | AppInit | ForeignOpenService | UnknownMachineState
| InconsistentOwnedState.

Inductive BootstrapOutcome :=
| Applied (active_digest : option string) (preserved_existing_profile service_started : bool)
| SkippedBlocked (reason : BootstrapBlocker).

Inductive UninstallOutcome :=
| Removed
| AlreadyAbsent
| UninstallBlocked (reason : BootstrapBlocker).

Class InstallBootstrapBackend (B : Type) := {
  inspect_machine : B → BootstrapPreflight * B;
  apply_atomically : BootstrapPlan → B → result (option string) SetupError * B
}.

Class UninstallBackend (B : Type) := {
  inspect_open_service : B → OpenServiceObservation * B;
  remove_owned_installation : OpenServiceObservation → B → result bool SetupError * B
}.

(** ** The two runs *)

Section Runs.
Context {B : Type}.

Definition run_uninstall_owned_with `{UninstallBackend B} (b : B)
    : result UninstallOutcome SetupError * B :=
  let '(observation, b) := inspect_open_service b in
  match observation with
  | ServiceAbsent | OwnedStopped | OwnedRunning =>
      let '(r, b) := remove_owned_installation observation b in
      match r with
      | Err error => (Err (Runtime ("owned installation removal failed: " ++ display error)), b)
      | Ok runtime_removed =>
          if bool_decide (observation = ServiceAbsent) && negb runtime_removed
          then (Ok AlreadyAbsent, b) else (Ok Removed, b)
      end
  | Foreign => (Ok (UninstallBlocked ForeignOpenService), b)
  | ServiceUnknown => (Ok (UninstallBlocked UnknownMachineState), b)
  end.

(** The guards in front of the plan, in the order of the code. *)
Definition bootstrap_blocker (p : BootstrapPreflight) : option BootstrapBlocker :=
  if bool_decide (legacy_service p = Detected) then Some LegacyService
  else if bool_decide (legacy_tray p = Detected) then Some LegacyTrayMode
  else if bool_decide (appinit p = Detected) then Some AppInit
  else if bool_decide (open_service p = Foreign) then Some ForeignOpenService
  else if bool_decide (open_service p = ServiceUnknown)
       || bool_decide (protected_profile p = ProfileUnknown)
       || bool_decide (protected_runtime p = RuntimeUnknown)
       || bool_decide (legacy_service p = ConflictUnknown)
       || bool_decide (legacy_tray p = ConflictUnknown)
       || bool_decide (appinit p = ConflictUnknown) then Some UnknownMachineState
  else
    let service_is_owned :=
      match open_service p with OwnedStopped | OwnedRunning => true | _ => false end in
    if (service_is_owned && bool_decide (protected_runtime p = RuntimeAbsent))
       || (bool_decide (open_service p = OwnedRunning)
           && bool_decide (protected_profile p = ProfileAbsent))
    then Some InconsistentOwnedState else None.

Definition bootstrap_plan (policy : BootstrapStartPolicy) (p : BootstrapPreflight)
    : BootstrapPlan * bool :=
  let start := match policy with
               | EnsureRunning => true
               | PreserveObservedState => bool_decide (open_service p = OwnedRunning)
               end in
  let '(mode, preserved) :=
    match protected_profile p with
    | ProfileActive g => (PreserveExisting g, true)
    | ProfileAbsent | ProfileUnknown =>
        if start then (PublishBundledDefault, false) else (LeaveUnpublished, false)
    end in
  ({| plan_profile := mode; start_service := start |}, preserved).

(** The digest the machine answered, checked against the plan. *)
Definition accepted_digest (mode : BootstrapProfileMode) (digest : option string)
    : result (option string) SetupError :=
  match mode, digest with
  | PreserveExisting g, Some d =>
      let expected := ("sha256:" ++ g)%string in
      if negb (d =? expected)%string then
        Err (Runtime ("Ready profile digest mismatch: expected " ++ expected ++ ", received " ++ d))
      else Ok (Some d)
  | PublishBundledDefault, Some d => Ok (Some d)
  | LeaveUnpublished, None => Ok None
  | LeaveUnpublished, Some d =>
      Err (Runtime ("bootstrap left the profile unpublished but reported digest " ++ d))
  | PreserveExisting _, None | PublishBundledDefault, None =>
      Err (Runtime "bootstrap published a profile but reported no Ready digest")
  end.

Definition run_install_bootstrap_with `{InstallBootstrapBackend B} (policy : BootstrapStartPolicy)
    (b : B) : result BootstrapOutcome SetupError * B :=
  let '(preflight, b) := inspect_machine b in
  match bootstrap_blocker preflight with
  | Some reason => (Ok (SkippedBlocked reason), b)
  | None =>
      let '(plan, preserved) := bootstrap_plan policy preflight in
      let '(r, b) := apply_atomically plan b in
      (let-? digest := r in
       let-? active := accepted_digest (plan_profile plan) digest in
       Ok (Applied active preserved (start_service plan)), b)
  end.
End Runs.

(** ** When an installation may touch the machine *)

(** Nothing competes with the service, nothing is unknown, the service is ours or
    absent, and what belongs to it is complete. *)
Record may_install (p : BootstrapPreflight) : Prop := {
  no_conflict : legacy_service p = Clear ∧ legacy_tray p = Clear ∧ appinit p = Clear;
  not_foreign : open_service p ≠ Foreign;
  all_known : open_service p ≠ ServiceUnknown ∧ protected_profile p ≠ ProfileUnknown ∧
              protected_runtime p ≠ RuntimeUnknown;
  owned_complete : open_service p = OwnedStopped ∨ open_service p = OwnedRunning →
                   protected_runtime p = RuntimeActive;
  running_has_profile : open_service p = OwnedRunning → ∃ g, protected_profile p = ProfileActive g
}.

(** What a reported reason says about the machine. *)
Definition blocked_by (p : BootstrapPreflight) (r : BootstrapBlocker) : Prop :=
  let conflict := legacy_service p = Detected ∨ legacy_tray p = Detected ∨ appinit p = Detected in
  match r with
  | LegacyService => legacy_service p = Detected
  | LegacyTrayMode => legacy_tray p = Detected
  | AppInit => appinit p = Detected
  | ForeignOpenService => open_service p = Foreign ∧ ¬ conflict
  | UnknownMachineState =>
      open_service p ≠ Foreign ∧ ¬ conflict ∧
      (open_service p = ServiceUnknown ∨ protected_profile p = ProfileUnknown ∨
       protected_runtime p = RuntimeUnknown ∨ legacy_service p = ConflictUnknown ∨
       legacy_tray p = ConflictUnknown ∨ appinit p = ConflictUnknown)
  | InconsistentOwnedState =>
      legacy_service p = Clear ∧ legacy_tray p = Clear ∧ appinit p = Clear ∧
      (open_service p = OwnedStopped ∨ open_service p = OwnedRunning) ∧
      (protected_runtime p = RuntimeAbsent ∨
       open_service p = OwnedRunning ∧ protected_profile p = ProfileAbsent)
  end.

Lemma bootstrap_blocker_spec p :
  match bootstrap_blocker p with
  | Some r => blocked_by p r ∧ ¬ may_install p
  | None => may_install p
  end.
Proof.
  destruct p as [s f r l t a]. unfold bootstrap_blocker. simpl.
  destruct l, t, a, s, f, r; simpl;
    try (split; [naive_solver|intros [(? & ? & ?) ? (? & ? & ?) ? ?]; naive_solver]);
    constructor; naive_solver.
Qed.

Lemma accepted_digest_ok mode digest active :
  accepted_digest mode digest = Ok active →
  active = digest ∧ (∀ g, mode = PreserveExisting g → digest = Some ("sha256:" ++ g)%string) ∧
  (mode = LeaveUnpublished ↔ digest = None).
Proof.
  destruct mode as [|g|], digest as [d|]; simpl; intros H; simplify_eq; try naive_solver.
  destruct (String.eqb_spec d ("sha256:" ++ g)) as [->|]; simpl in H; [|done].
  apply (inj Ok) in H as <-. naive_solver.
Qed.

(** What the plan must be. *)
Definition planned (policy : BootstrapStartPolicy) (p : BootstrapPreflight) (plan : BootstrapPlan)
    : Prop :=
  (start_service plan = true ↔ policy = EnsureRunning ∨ open_service p = OwnedRunning) ∧
  match plan_profile plan with
  | PreserveExisting g => protected_profile p = ProfileActive g
  | PublishBundledDefault => protected_profile p = ProfileAbsent ∧ start_service plan = true
  | LeaveUnpublished => protected_profile p = ProfileAbsent ∧ start_service plan = false
  end.

Lemma bootstrap_plan_spec policy p :
  may_install p →
  planned policy p (fst (bootstrap_plan policy p)) ∧
  (snd (bootstrap_plan policy p) = true ↔ ∃ g, protected_profile p = ProfileActive g).
Proof.
  intros [? ? (? & Hp & ?) ? ?]. unfold bootstrap_plan, planned.
  destruct p as [s f r l t a]; simpl in *.
  destruct f, policy, s; simpl; naive_solver.
Qed.

(** What the machine answered contradicts the plan. *)
Definition contradicts (mode : BootstrapProfileMode) (digest : option string) : Prop :=
  match mode with
  | PreserveExisting g => digest ≠ Some ("sha256:" ++ g)%string
  | PublishBundledDefault => digest = None
  | LeaveUnpublished => digest ≠ None
  end.

Lemma accepted_digest_err mode digest e :
  accepted_digest mode digest = Err e → contradicts mode digest.
Proof.
  destruct mode as [|g|], digest as [d|]; simpl; intros H; simplify_eq; try done.
  destruct (String.eqb_spec d ("sha256:" ++ g)) as [->|]; simpl in H; [done|congruence].
Qed.

(** ** The commands as a table *)

Definition setup_verb (c : SetupCommand) : option string :=
  match c with
  | BrokerVerb c => verb c
  | BootstrapInstall p => Some (policy_verb p)
  | UninstallOwned => Some "uninstall-owned"%string
  end.

Lemma broker_verb_cases c v :
  verb c = Some v → v ≠ "uninstall-owned"%string ∧ ∀ p, v ≠ policy_verb p.
Proof.
  intros Hv. destruct c; vm_compute in Hv; injection Hv as <-;
    (split; [discriminate|intros []; discriminate]).
Qed.

(** The setup program understands exactly its thirteen verbs: a command line means
    a command if and only if it is that command's one verb without further arguments;
    every command has a verb, and no verb stands for two commands. *)
Theorem setup_command_exact arguments c :
  (parse_setup_command arguments = Some c ↔ ∃ v, setup_verb c = Some v ∧ arguments = [v]) ∧
  is_Some (setup_verb c) ∧
  ∀ c', setup_verb c = setup_verb c' → c = c'.
Proof.
  assert (∀ a c, parse_setup_command a = Some c ↔ ∃ v, setup_verb c = Some v ∧ a = [v]) as Hparse.
  { clear. intros a c. destruct a as [|v [|v' a]]; cbn [parse_setup_command].
    1, 3: split; [done|intros (? & ? & ?); done].
    transitivity (setup_verb c = Some v); [|split; [by exists v|by intros (? & ? & [= ->])]].
    cbn [List.find].
    destruct (String.eqb_spec v (policy_verb EnsureRunning)) as [->|H1];
      [|destruct (String.eqb_spec v (policy_verb PreserveObservedState)) as [->|H2];
        [|destruct (String.eqb_spec v "uninstall-owned") as [->|H3]]].
    1-3: split; [by intros [= <-]|];
      destruct c as [c|[]|]; cbn [setup_verb]; intros Hv; try done;
      destruct (broker_verb_cases _ _ Hv) as [Hu Hp]; first [by destruct Hu | by destruct (Hp EnsureRunning) | by destruct (Hp PreserveObservedState)].
    assert (∀ c, parse_broker_command [v] = Some c ↔ verb c = Some v) as Hv.
    { intros c'. rewrite broker_command_exact. split; [by intros (? & ? & [= <-])|by exists v]. }
    destruct c as [c|[]|]; cbn [setup_verb];
      destruct (parse_broker_command [v]) as [c'|] eqn:Ec; cbn [option_map];
      try (split; [done|congruence]); rewrite <- Hv; split; congruence. }
  assert (∀ c, is_Some (setup_verb c)) as Hall.
  { intros [[]|p|]; vm_compute; eauto. }
  split; [apply Hparse|split; [apply Hall|]].
  intros c' Heq. destruct (Hall c) as [v Hv].
  pose proof (proj2 (Hparse [v] c) (ex_intro _ v (conj Hv eq_refl))) as Hc.
  rewrite Heq in Hv. pose proof (proj2 (Hparse [v] c') (ex_intro _ v (conj Hv eq_refl))). congruence.
Qed.

Section Promises.
Context {B : Type}.

(** The installer changes a machine only when that is safe, and claims only what
    the machine confirmed.  If anything competes with the service, is unknown, foreign
    or incomplete, the run ends after the inspection with a reason that is true of the
    machine and with nothing applied.  Otherwise one plan is applied: it starts the
    service exactly when asked to or when it was running, keeps an active profile, and
    publishes the bundled one exactly when the service will start without a profile.
    A success carries the digest the machine answered - the very digest of a preserved
    profile, and some digest whenever the service was started; an error is the
    machine's own or an answer that contradicts the plan. *)
Theorem bootstrap_installs_only_when_safe `{InstallBootstrapBackend B} policy (b : B) :
  let '(p, b1) := inspect_machine b in
  let '(r, b') := run_install_bootstrap_with policy b in
  match r with
  | Ok (SkippedBlocked reason) => b' = b1 ∧ blocked_by p reason ∧ ¬ may_install p
  | Ok (Applied digest preserved started) =>
      may_install p ∧
      ∃ plan, planned policy p plan ∧ apply_atomically plan b1 = (Ok digest, b') ∧
        started = start_service plan ∧ (started = true → is_Some digest) ∧
        (preserved = true ↔ ∃ g, protected_profile p = ProfileActive g) ∧
        ∀ g, protected_profile p = ProfileActive g → digest = Some ("sha256:" ++ g)%string
  | Err e =>
      may_install p ∧
      ∃ plan, planned policy p plan ∧
        (apply_atomically plan b1 = (Err e, b') ∨
         ∃ digest, apply_atomically plan b1 = (Ok digest, b') ∧ contradicts (plan_profile plan) digest)
  end.
Proof.
  unfold run_install_bootstrap_with. destruct (inspect_machine b) as [p b1].
  pose proof (bootstrap_blocker_spec p) as Hb.
  destruct (bootstrap_blocker p) as [reason|]; [naive_solver|].
  destruct (bootstrap_plan_spec policy p Hb) as [Hplan Hpres].
  destruct (bootstrap_plan policy p) as [plan preserved]; cbn [fst snd] in *.
  destruct (apply_atomically plan b1) as [[digest|e] b'] eqn:E; cbn [result_bind]; [|eauto 10].
  destruct (accepted_digest (plan_profile plan) digest) as [active|e] eqn:Ea; cbn [result_bind].
  - destruct (accepted_digest_ok _ _ _ Ea) as (-> & Hkeep & Hleave). split; [done|]. exists plan.
    split; [done|]. split; [done|]. split; [done|]. destruct Hplan as [_ Hm].
    split; [|split; [done|]].
    + intros Hs. destruct digest as [d|]; [by eexists|].
      rewrite (proj2 Hleave eq_refl) in Hm. destruct Hm as [_ Hm]. congruence.
    + intros g Hg. apply Hkeep. destruct (plan_profile plan) as [|g'|]; [|congruence|];
        destruct Hm; congruence.
  - apply accepted_digest_err in Ea. split; [done|]. exists plan. split; [done|]. right. eauto.
Qed.

(** The uninstaller removes nothing it does not own: a service that is foreign or
    unknown is left as it is and named as the reason; otherwise one removal is asked
    for with the state that was observed, its failure is passed on, and "already
    absent" is answered exactly when there was no service and nothing was removed. *)
Theorem uninstall_removes_only_owned `{UninstallBackend B} (b : B) :
  let '(observed, b1) := inspect_open_service b in
  let '(r, b') := run_uninstall_owned_with b in
  match r with
  | Ok (UninstallBlocked reason) =>
      b' = b1 ∧ (observed = Foreign ∧ reason = ForeignOpenService ∨
                 observed = ServiceUnknown ∧ reason = UnknownMachineState)
  | Ok answer =>
      observed ≠ Foreign ∧ observed ≠ ServiceUnknown ∧
      ∃ removed, remove_owned_installation observed b1 = (Ok removed, b') ∧
        (answer = AlreadyAbsent ↔ observed = ServiceAbsent ∧ removed = false)
  | Err _ =>
      observed ≠ Foreign ∧ observed ≠ ServiceUnknown ∧
      ∃ e, remove_owned_installation observed b1 = (Err e, b')
  end.
Proof.
  unfold run_uninstall_owned_with. destruct (inspect_open_service b) as [observed b1].
  destruct observed; simpl; try naive_solver;
    destruct (remove_owned_installation _ b1) as [[[]|e] b'] eqn:E; simpl; naive_solver.
Qed.
End Promises.
