(* ===== verification/WindowsPath.v ===== *)
(** * Windows paths as text

    [std::path] on Windows, as far as the source asks for it: the prefix of a path, its
    components, whether it is absolute.  Elsewhere a [Path] is the list of its names; here
    a path is the text that a service, an executable or the system hands over, and the
    layout checks take it apart. *)

From S2P Require Export InstallBootstrap.

Inductive Component :=
| PrefixComponent (raw : list ascii)
| RootDir
| CurDir
| ParentDir
| NormalComponent (name : list ascii).

#[export] Instance Component_eq_dec : EqDecision Component.
Proof. solve_decision. Defined.

(** [std::path::Prefix], by its length and what the components depend on. *)
Record WindowsPrefix := {
  prefix_len : nat;
  prefix_is_verbatim : bool;
  prefix_has_implicit_root : bool     (* every prefix but a drive *)
}.

Definition is_windows_separator (b : ascii) : bool := (b =? "\")%char || (b =? "/")%char.
Definition is_verbatim_separator (b : ascii) : bool := (b =? "\")%char.

Definition is_ascii_alphabetic (b : ascii) : bool := is_ascii_lowercase b || is_ascii_uppercase b.

(** [C:] in front of the path *)
Definition starts_with_drive (path : list ascii) : bool :=
  match path with
  | drive :: colon :: _ => is_ascii_alphabetic drive && (colon =? ":")%char
  | _ => false
  end.

(** The part in front of the first separator, and what follows it. *)
Definition next_component (separator : ascii → bool) (path : list ascii) : list ascii * list ascii :=
  match position separator path with
  | Some i => (take i path, drop (S i) path)
  | None => (path, [])
  end.

(** The length of two names with a separator between them, if there is a second. *)
Definition two_names (first second : list ascii) : nat :=
  length first + match second with [] => 0 | _ => 1 + length second end.

(** [/] counts as [\] in the introducing separators of a prefix. *)
Definition normalized (b : ascii) : ascii := if (b =? "/")%char then "\"%char else b.

Definition strip_introducer (introducer : string) (path : list ascii) : option (list ascii) :=
  let n := String.length introducer in
  if bool_decide (map normalized (take n path) = str_bytes introducer) then Some (drop n path) else None.

Definition parse_prefix (path : list ascii) : option WindowsPrefix :=
  match strip_introducer "\\" path with
  | Some after =>
      match strip_introducer "?\" after with
      | Some rest =>
          if forallb (λ b, negb (b =? "/")%char) (take 4 path) then
            match strip_introducer "UNC\" rest with
            | Some unc =>
                let '(server, others) := next_component is_verbatim_separator unc in
                let '(share, _) := next_component is_verbatim_separator others in
                Some {| prefix_len := 8 + two_names server share; prefix_is_verbatim := true; prefix_has_implicit_root := true |}
            | None =>
                if starts_with_drive rest && match rest !! 2 with Some b => is_windows_separator b | None => true end
                then Some {| prefix_len := 6; prefix_is_verbatim := true; prefix_has_implicit_root := true |}
                else
                  let '(name, _) := next_component is_verbatim_separator rest in
                  Some {| prefix_len := 4 + length name; prefix_is_verbatim := true; prefix_has_implicit_root := true |}
            end
          else
            let '(server, others) := next_component is_windows_separator after in
            let '(share, _) := next_component is_windows_separator others in
            if negb (bool_decide (server = [])) && negb (bool_decide (share = []))
            then Some {| prefix_len := 2 + two_names server share; prefix_is_verbatim := false; prefix_has_implicit_root := true |}
            else None
      | None =>
          match strip_introducer ".\" after with
          | Some device =>
              let '(name, _) := next_component is_windows_separator device in
              Some {| prefix_len := 4 + length name; prefix_is_verbatim := false; prefix_has_implicit_root := true |}
          | None =>
              let '(server, others) := next_component is_windows_separator after in
              let '(share, _) := next_component is_windows_separator others in
              if negb (bool_decide (server = [])) && negb (bool_decide (share = []))
              then Some {| prefix_len := 2 + two_names server share; prefix_is_verbatim := false; prefix_has_implicit_root := true |}
              else None
          end
      end
  | None =>
      if starts_with_drive path
      then Some {| prefix_len := 2; prefix_is_verbatim := false; prefix_has_implicit_root := false |}
      else None
  end.

(** One piece of the body; a piece that says nothing is no component. *)
Definition single_component (verbatim : bool) (piece : list ascii) : option Component :=
  if bool_decide (piece = []) then None
  else if bool_decide (piece = str_bytes ".") then if verbatim then Some CurDir else None
  else if bool_decide (piece = str_bytes "..") then Some ParentDir
  else Some (NormalComponent piece).

Definition body_components (verbatim : bool) (body : list ascii) : list Component :=
  omap (single_component verbatim)
    (split_on (if verbatim then is_verbatim_separator else is_windows_separator) body).

(** A leading [.] counts when nothing stands in front of it. *)
Definition leading_cur_dir (path : list ascii) : bool :=
  match path with
  | dot :: rest => (dot =? ".")%char && match rest with [] => true | b :: _ => is_windows_separator b end
  | [] => false
  end.

(** [Path::components] *)
Definition path_components (path : list ascii) : list Component :=
  let prefix := parse_prefix path in
  let verbatim := match prefix with Some p => prefix_is_verbatim p | None => false end in
  let n := match prefix with Some p => prefix_len p | None => 0 end in
  let rest := drop n path in
  let front := match prefix with Some _ => [PrefixComponent (take n path)] | None => [] end in
  match rest with
  | b :: body =>
      if is_windows_separator b then front ++ [RootDir] ++ body_components verbatim body
      else match prefix with
           | Some p =>
               front ++ (if prefix_has_implicit_root p && negb verbatim then [RootDir] else []) ++ body_components verbatim rest
           | None =>
               if leading_cur_dir rest then [CurDir] ++ body_components false body else body_components false rest
           end
  | [] =>
      match prefix with
      | Some p => front ++ (if prefix_has_implicit_root p && negb verbatim then [RootDir] else [])
      | None => []
      end
  end.

(** [Path::is_absolute]: a prefix and a root. *)
Definition is_absolute (path : list ascii) : bool :=
  match parse_prefix path with
  | Some p =>
      prefix_has_implicit_root p ||
      match drop (prefix_len p) path with b :: _ => is_windows_separator b | [] => false end
  | None => false
  end.

(** [Component::as_os_str] *)
Definition component_os_str (c : Component) : list ascii :=
  match c with
  | PrefixComponent raw => raw
  | RootDir => str_bytes "\"
  | CurDir => str_bytes "."
  | ParentDir => str_bytes ".."
  | NormalComponent name => name
  end.

Definition is_relative_component (c : Component) : bool :=
  match c with CurDir | ParentDir => true | _ => false end.

(** A verbatim path is put together again from its components. *)
Fixpoint verbatim_text (need_separator : bool) (components : list Component) : list ascii :=
  match components with
  | [] => []
  | c :: rest =>
      (if need_separator && negb (bool_decide (c = RootDir)) then str_bytes "\" else []) ++ component_os_str c
      ++ verbatim_text (negb (bool_decide (c = RootDir))) rest
  end.

(** [Path::join] of a plain name. *)
Definition join_text (path : list ascii) (name : string) : list ascii :=
  match parse_prefix path with
  | Some p =>
      if prefix_is_verbatim p then verbatim_text false (path_components path ++ [NormalComponent (str_bytes name)])
      else if negb (prefix_has_implicit_root p) && (prefix_len p =? length path)%nat then path ++ str_bytes name
      else if match last path with Some b => is_windows_separator b | None => true end
      then path ++ str_bytes name else path ++ str_bytes "\" ++ str_bytes name
  | None =>
      if match last path with Some b => is_windows_separator b | None => true end
      then path ++ str_bytes name else path ++ str_bytes "\" ++ str_bytes name
  end.

(** [protected_installer_broker_layout] of [install_bootstrap.rs] *)
Definition protected_installer_broker_layout (program_files executable : list ascii) : bool :=
  if negb (is_absolute program_files) || negb (is_absolute executable)
     || existsb is_relative_component (path_components program_files ++ path_components executable)
  then false
  else
    let expected :=
      join_text (join_text (join_text program_files "MacType Control Center") "service-runtime") "mactype-service-setup.exe" in
    bytes_eq_ignore_ascii_case expected executable.

(** [paths.rs], [validate_protected_root]; [lower] is [str::to_lowercase] of the library
    of the language, in any version of Unicode. *)
Section ProtectedRoot.
Context (to_lowercase : list ascii → list ascii).

Fixpoint bytes_contains (pattern text : list ascii) : bool :=
  bytes_starts_with pattern text ||
  match text with [] => false | _ :: rest => bytes_contains pattern rest end.

Definition validate_protected_root (path : list ascii) : bool :=
  if negb (is_absolute path) || existsb is_relative_component (path_components path) then false
  else
    let text := to_lowercase (map normalized path) in
    negb (bytes_contains (str_bytes "\users\") text || bytes_contains (str_bytes "\appdata\") text
          || bytes_contains (str_bytes "\localappdata\") text).
End ProtectedRoot.

Example components_of_a_service_path :
  path_components (str_bytes "C:\Program Files\.\x//y\..\z") =
    [PrefixComponent (str_bytes "C:"); RootDir; NormalComponent (str_bytes "Program Files");
     NormalComponent (str_bytes "x"); NormalComponent (str_bytes "y"); ParentDir; NormalComponent (str_bytes "z")].
Proof. reflexivity. Qed.

Example components_of_a_share :
  path_components (str_bytes "\\server\share\x") =
    [PrefixComponent (str_bytes "\\server\share"); RootDir; NormalComponent (str_bytes "x")].
Proof. reflexivity. Qed.

Example components_of_a_verbatim_path :
  path_components (str_bytes "\\?\C:\x\.") =
    [PrefixComponent (str_bytes "\\?\C:"); RootDir; NormalComponent (str_bytes "x"); CurDir].
Proof. reflexivity. Qed.

Example drive_without_root_is_relative :
  is_absolute (str_bytes "C:x") = false ∧ is_absolute (str_bytes "C:\x") = true ∧ is_absolute (str_bytes "\x") = false.
Proof. done. Qed.

Example joined_paths :
  join_text (str_bytes "C:\Program Files") "x" = str_bytes "C:\Program Files\x" ∧
  join_text (str_bytes "C:\") "x" = str_bytes "C:\x" ∧ join_text (str_bytes "C:") "x" = str_bytes "C:x" ∧
  join_text (str_bytes "\\?\C:\a\\b") "x" = str_bytes "\\?\C:\a\b\x".
Proof. done. Qed.
