(* ===== verification/ServiceConfiguration.v ===== *)
(** * The configuration of the service

    [service-runtime/contract/src/service_configuration.rs] and, of
    [setup/src/windows/scm/configuration.rs], what is decided about a configuration: which
    service is the installer's own, what has drifted from the fixed contract, and which
    program an image path starts. *)

From S2P Require Export WindowsPath.

Definition FIXED_SERVICE_TYPE : N := 16.
Definition FIXED_START_TYPE : N := 2.
Definition FIXED_ERROR_CONTROL : N := 1.
Definition FIXED_ACCOUNT : string := "LocalSystem".
Definition SERVICE_DISPLAY_NAME : string := "MacType Control Center Service".

(** [ServiceConfig] of [platform/src/scm.rs] and [ObservedServiceConfiguration], which
    borrows every field of it. *)
Record ServiceConfig := {
  service_type : N;
  start_type : N;
  error_control : N;
  image_path : string;
  account : string;
  service_display_name : string;
  load_order_group : string;
  tag_id : N;
  dependencies : list string
}.

#[export] Instance ServiceConfig_eq_dec : EqDecision ServiceConfig.
Proof. solve_decision. Defined.

Record ServiceConfigurationDrift := {
  start_type_drift : bool;
  error_control_drift : bool;
  display_name_drift : bool;
  load_order_group_drift : bool;
  tag_drift : bool;
  dependencies_drift : bool
}.

Definition is_drifted (d : ServiceConfigurationDrift) : bool :=
  start_type_drift d || error_control_drift d || display_name_drift d
  || load_order_group_drift d || tag_drift d || dependencies_drift d.

Definition named_if (b : bool) (name : string) : list string := if b then [name] else [].

Definition field_names (d : ServiceConfigurationDrift) : list string :=
  named_if (start_type_drift d) "start-type" ++ named_if (error_control_drift d) "error-control"
  ++ named_if (display_name_drift d) "display-name" ++ named_if (load_order_group_drift d) "load-order-group"
  ++ named_if (tag_drift d) "tag" ++ named_if (dependencies_drift d) "dependencies".

Definition service_configuration_drift (observed : ServiceConfig) : ServiceConfigurationDrift :=
  {| start_type_drift := negb (start_type observed =? FIXED_START_TYPE)%N;
     error_control_drift := negb (error_control observed =? FIXED_ERROR_CONTROL)%N;
     display_name_drift := negb (service_display_name observed =? SERVICE_DISPLAY_NAME)%string;
     load_order_group_drift := negb (str_is_empty (load_order_group observed));
     tag_drift := negb (tag_id observed =? 0)%N && negb (str_is_empty (load_order_group observed));
     dependencies_drift := match dependencies observed with [] => false | _ => true end |}.

(** ** The image path *)

Definition DOUBLE_QUOTE : ascii := "034"%char.

Definition is_quote (b : ascii) : bool := (b =? DOUBLE_QUOTE)%char.

(** The quoted program of an image path that has no argument but [--service]. *)
Definition service_binary_from_image_path (image : string) : option (list ascii) :=
  match str_bytes image with
  | quote :: rest =>
      if is_quote quote then
        match position is_quote rest with
        | Some end_quote =>
            if bool_decide (drop (S end_quote) rest = str_bytes " --service") then Some (take end_quote rest) else None
        | None => None
        end
      else None
  | [] => None
  end.

Definition components_equal (expected observed : Component) : bool :=
  bytes_eq_ignore_ascii_case (component_os_str expected) (component_os_str observed).

Definition component_text (c : Component) : option string :=
  match c with NormalComponent name => Some (bytes_str name) | _ => None end.

(** [root.iter().zip(binary.iter()).all(..)]: as far as both go. *)
Fixpoint zip_equal (root binary : list Component) : bool :=
  match root, binary with
  | expected :: root, observed :: binary => components_equal expected observed && zip_equal root binary
  | _, _ => true
  end.

Definition service_binary_matches_protected_layout (protected_root binary : list ascii) : bool :=
  if negb (is_absolute protected_root) || negb (is_absolute binary) then false
  else
    let root := path_components protected_root in
    let binary := path_components binary in
    if negb (length binary =? length root + 3)%nat || negb (zip_equal root binary) then false
    else
      match drop (length root) binary with
      | [bin; version; executable] =>
          is_some_and (component_text bin) (λ value, eq_ignore_ascii_case value "bin")
          && is_some_and (component_text version) valid_runtime_version_component
          && is_some_and (component_text executable) (λ value, eq_ignore_ascii_case value "mactype-service.exe")
      | _ => false
      end.

(** A [Path] as the text that names it. *)
Definition path_text (p : Path) : list ascii := str_bytes (path_display p).

Definition service_image_matches_protected_layout (protected_root : Path) (image : string) : bool :=
  match service_binary_from_image_path image with
  | Some binary => service_binary_matches_protected_layout (path_text protected_root) binary
  | None => false
  end.

Definition owned_service_identity (observed : ServiceConfig) (protected_root : Path) : bool :=
  (service_type observed =? FIXED_SERVICE_TYPE)%N && eq_ignore_ascii_case (account observed) FIXED_ACCOUNT
  && service_image_matches_protected_layout protected_root (image_path observed).

Definition service_configuration_matches_owned_contract (protected_root : Path) (observed : ServiceConfig) : bool :=
  owned_service_identity observed protected_root && negb (is_drifted (service_configuration_drift observed)).

Definition quoted (binary : list ascii) : string :=
  bytes_str (DOUBLE_QUOTE :: binary ++ DOUBLE_QUOTE :: str_bytes " --service").

Definition quoted_image_path (service_binary : Path) : result string SetupError :=
  if existsb is_quote (path_text service_binary) then Err (Runtime "service binary path contains a quote")
  else Ok (quoted (path_text service_binary)).

(** ** A path and its text *)

(** A name that is one component, whatever stands around it. *)
Definition plain_name (name : string) : bool :=
  let name := str_bytes name in
  forallb (negb ∘ is_windows_separator) name
  && negb (bool_decide (name = [])) && negb (bool_decide (name = str_bytes ".")) && negb (bool_decide (name = str_bytes "..")).

(** A drive with at least one directory below it. *)
Definition plain_path (p : Path) : bool :=
  match p with
  | drive :: (_ :: _) as names =>
      match str_bytes drive with [letter; colon] => is_ascii_alphabetic letter && (colon =? ":")%char | _ => false end
      && forallb plain_name names
  | _ => false
  end.

(** The [Path] a text names. *)
Definition named_path (text : list ascii) : Path :=
  omap (λ c, match c with RootDir => None | c => Some (bytes_str (component_os_str c)) end) (path_components text).

Lemma bytes_str_bytes s : bytes_str (str_bytes s) = s.
Proof. apply string_of_list_ascii_of_string. Qed.


(** ** What an image path starts *)

Lemma position_free {A : Type} (p : A → bool) (before : list A) c after :
  forallb (negb ∘ p) before = true → p c = true → position p (before ++ c :: after) = Some (length before).
Proof.
  induction before as [|b before IH]; simpl; intros Hb Hc; [by rewrite Hc|].
  apply andb_prop in Hb as [Hb Hbs]. unfold compose in Hb. apply negb_true_iff in Hb. rewrite Hb.
  by rewrite (IH Hbs Hc).
Qed.

Lemma position_split {A : Type} (p : A → bool) (l : list A) i :
  position p l = Some i → ∃ c, l = take i l ++ c :: drop (S i) l ∧ p c = true ∧ forallb (negb ∘ p) (take i l) = true.
Proof.
  revert i. induction l as [|b l IH]; intros i; simpl; [done|].
  destruct (p b) eqn:Eb; [by intros [= <-]; exists b|].
  destruct (position p l) as [j|] eqn:Ej; simpl; [|done]. intros [= <-].
  destruct (IH j eq_refl) as (c & El & Hc & Hf). exists c. split; [|split; [done|]].
  - simpl. f_equal. exact El.
  - simpl. unfold compose at 1. by rewrite Eb.
Qed.

(** The program of an image path is found exactly when the image path quotes it. *)
Lemma binary_from_image_path_spec image binary :
  service_binary_from_image_path image = Some binary ↔
    image = quoted binary ∧ forallb (negb ∘ is_quote) binary = true.
Proof.
  unfold service_binary_from_image_path, quoted. split.
  - destruct (str_bytes image) as [|b rest] eqn:Ei; [done|].
    destruct (is_quote b) eqn:Eb; [|done]. unfold is_quote in Eb. apply Ascii.eqb_eq in Eb as ->.
    destruct (position is_quote rest) as [i|] eqn:Ep; [|done]. case_bool_decide as Ed; [|done].
    intros [= <-]. destruct (position_split _ _ _ Ep) as (c & Er & Hc & Hf). split; [|done].
    unfold is_quote in Hc. apply Ascii.eqb_eq in Hc as ->. rewrite Ed in Er.
    apply str_bytes_inj. rewrite Ei, str_bytes_str. f_equal. exact Er.
  - intros [-> Hf]. rewrite str_bytes_str. change (is_quote DOUBLE_QUOTE) with true. cbv iota.
    rewrite (position_free is_quote binary DOUBLE_QUOTE (str_bytes " --service") Hf eq_refl).
    replace (drop (S (length binary)) (binary ++ DOUBLE_QUOTE :: str_bytes " --service")) with (str_bytes " --service").
    + rewrite bool_decide_true by done. by rewrite take_app_length.
    + change (S (length binary)) with (1 + length binary). rewrite Nat.add_comm, <- drop_drop. by rewrite drop_app_length.
Qed.

(** ** The components of a plain path *)

Definition joined (names : list string) : list ascii := concat (map (λ n, str_bytes "\" ++ str_bytes n) names).

Lemma path_text_cons drive names : path_text (drive :: names) = str_bytes drive ++ joined names.
Proof.
  unfold path_text, path_display. revert drive. induction names as [|n names IH]; intros drive; [by rewrite app_nil_r|].
  change (String.concat "\" (drive :: n :: names)) with (drive ++ "\" ++ String.concat "\" (n :: names))%string.
  rewrite !str_bytes_app, IH. by unfold joined; cbn [map concat]; rewrite <- !app_assoc.
Qed.

Lemma plain_name_free name : plain_name name = true → forallb (negb ∘ is_windows_separator) (str_bytes name) = true.
Proof. unfold plain_name. intros H. by andb_split. Qed.

Lemma plain_component name : plain_name name = true →
  single_component false (str_bytes name) = Some (NormalComponent (str_bytes name)).
Proof.
  unfold plain_name, single_component. intros H. andb_split.
  by repeat (case_bool_decide; [done|]).
Qed.

Lemma body_of_plain n names :
  forallb plain_name (n :: names) = true →
  body_components false (str_bytes n ++ joined names) = map (NormalComponent ∘ str_bytes) (n :: names).
Proof.
  unfold body_components. revert n. induction names as [|m names IH]; intros n H; cbn [forallb] in H; andb_split.
  - unfold joined. simpl. rewrite app_nil_r, (split_on_free _ _ (plain_name_free n ltac:(done))). simpl.
    by rewrite (plain_component n ltac:(done)).
  - change (joined (m :: names)) with ("\"%char :: (str_bytes m ++ joined names)).
    rewrite split_on_cut by done. rewrite (split_on_free _ _ (plain_name_free n ltac:(done))).
    cbn [app omap list_omap]. rewrite (plain_component n ltac:(done)). cbn [map]. f_equal.
    apply IH. cbn [forallb]. by apply andb_true_intro.
Qed.

(** The text of a plain path starts with its drive and the root. *)
Lemma plain_path_text p : plain_path p = true → ∃ drive letter n names,
  p = drive :: n :: names ∧ str_bytes drive = [letter; ":"%char] ∧ is_ascii_alphabetic letter = true ∧
  forallb plain_name (n :: names) = true ∧
  path_text p = letter :: ":"%char :: "\"%char :: (str_bytes n ++ joined names).
Proof.
  unfold plain_path. destruct p as [|drive [|n names]]; [done..|]. intros H. apply andb_prop in H as [Hd Hn].
  destruct (str_bytes drive) as [|letter [|colon [|? ?]]] eqn:Ed; [done..| |done]. andb_split.
  match goal with H : (_ =? _)%char = true |- _ => apply Ascii.eqb_eq in H as -> end.
  exists drive, letter, n, names. split_and!; [done..|]. by rewrite path_text_cons, Ed.
Qed.

Lemma letter_prefix letter rest :
  is_ascii_alphabetic letter = true →
  parse_prefix (letter :: ":"%char :: rest) =
    Some {| prefix_len := 2; prefix_is_verbatim := false; prefix_has_implicit_root := false |}.
Proof.
  intros Hl. unfold parse_prefix, strip_introducer. rewrite bool_decide_false.
  - simpl. by rewrite Hl.
  - simpl. by intros [=].
Qed.

Lemma components_of_plain p : plain_path p = true → ∃ drive names,
  p = drive :: names ∧ is_absolute (path_text p) = true ∧
  path_components (path_text p) = PrefixComponent (str_bytes drive) :: RootDir :: map (NormalComponent ∘ str_bytes) names.
Proof.
  intros Hp. destruct (plain_path_text p Hp) as (drive & letter & n & names & -> & Ed & Hl & Hn & ->).
  exists drive, (n :: names). split; [done|]. unfold is_absolute, path_components.
  rewrite !(letter_prefix _ _ Hl). cbn [prefix_len prefix_has_implicit_root prefix_is_verbatim drop orb take].
  change (is_windows_separator "\"%char) with true. split; [done|]. cbv iota. rewrite (body_of_plain n names Hn).
  by rewrite Ed.
Qed.

Lemma named_plain p : plain_path p = true → named_path (path_text p) = p.
Proof.
  intros Hp. destruct (components_of_plain p Hp) as (drive & names & -> & _ & E). unfold named_path. rewrite E.
  cbn [omap list_omap component_os_str]. rewrite bytes_str_bytes. f_equal.
  clear Hp E. induction names as [|n names IH]; [done|]. cbn. rewrite bytes_str_bytes. f_equal. exact IH.
Qed.

Lemma alphabetic_lowercase b : is_ascii_alphabetic (to_ascii_lowercase b) = is_ascii_alphabetic b.
Proof. by destruct b as [[] [] [] [] [] [] [] []]. Qed.

Lemma separator_lowercase b : (to_ascii_lowercase b =? "\")%char = (b =? "\")%char.
Proof. by destruct b as [[] [] [] [] [] [] [] []]. Qed.

Lemma letter_not_introducer b rest : is_ascii_alphabetic b = true → strip_introducer "\\" (b :: rest) = None.
Proof.
  intros Hb. unfold strip_introducer. rewrite bool_decide_false; [done|]. cbn. intros [= E _]. revert E.
  unfold normalized. destruct (b =? "/")%char eqn:Eb; [by apply Ascii.eqb_eq in Eb as ->|]. by intros ->.
Qed.

(** An absolute path whose first component starts with a letter is on a drive. *)
Lemma drive_text b raw rest l raw' :
  is_absolute b = true → path_components b = PrefixComponent raw :: rest → raw = l :: raw' →
  is_ascii_alphabetic l = true →
  ∃ s body, b = l :: ":"%char :: s :: body ∧
    path_components b = PrefixComponent [l; ":"%char] :: RootDir :: body_components false body.
Proof.
  intros Ha E -> Hl.
  assert (∃ b', b = l :: b') as [b' ->].
  { unfold is_absolute in Ha. destruct (parse_prefix b) as [p|] eqn:Ep; [|done].
    assert (take (prefix_len p) b = l :: raw') as Et.
    { unfold path_components in E. rewrite Ep in E. by break_in E. }
    destruct b; [by rewrite take_nil in Et|]. destruct (prefix_len p); [done|]. injection Et as -> _. by eexists. }
  unfold is_absolute, parse_prefix in Ha. rewrite (letter_not_introducer _ _ Hl) in Ha.
  destruct (starts_with_drive (l :: b')) eqn:Ed; [|done].
  destruct b' as [|colon rest']; [done|]. cbn in Ed. andb_split. apply Ascii.eqb_eq in H0 as ->.
  cbn in Ha. rewrite drop_0 in Ha. destruct rest' as [|s body]; [done|]. exists s, body. split; [done|].
  unfold path_components. rewrite (letter_prefix _ _ Hl). cbn. by rewrite Ha.
Qed.

Lemma absolute_components b : is_absolute b = true → ∃ raw rest, path_components b = PrefixComponent raw :: rest.
Proof.
  unfold is_absolute, path_components. destruct (parse_prefix b) as [p|]; [|done]. intros _.
  destruct (drop (prefix_len p) b) as [|c rest]; [by eexists _, _|]. by case_match; eexists _, _.
Qed.

Definition lower_names (p : Path) : list string := map str_to_ascii_lowercase p.

Lemma eq_ignore_lower a b : eq_ignore_ascii_case a b = true ↔ str_to_ascii_lowercase a = str_to_ascii_lowercase b.
Proof.
  unfold eq_ignore_ascii_case, bytes_eq_ignore_ascii_case, str_to_ascii_lowercase. rewrite bool_decide_eq_true.
  split; [by intros ->|]. intros E%(f_equal str_bytes). by rewrite !str_bytes_str in E.
Qed.

Lemma lower_os_str a b :
  components_equal a b = true ↔
    str_to_ascii_lowercase (bytes_str (component_os_str a)) = str_to_ascii_lowercase (bytes_str (component_os_str b)).
Proof. rewrite <- eq_ignore_lower. unfold eq_ignore_ascii_case. by rewrite !str_bytes_str. Qed.

Lemma zip_equal_app root observed tail :
  length observed = length root → zip_equal root (observed ++ tail) = true ↔ Forall2 (λ a b, components_equal a b = true) root observed.
Proof.
  revert observed. induction root as [|a root IH]; intros [|b observed] Hl; try discriminate Hl; cbn; [by split|].
  rewrite andb_true_iff, Forall2_cons, IH by (injection Hl; done). done.
Qed.

Definition text_of (c : Component) : string := bytes_str (component_os_str c).

(** What the body of a drive path is made of. *)
Lemma body_kinds body c : c ∈ body_components false body → c = ParentDir ∨ ∃ name, c = NormalComponent name.
Proof.
  unfold body_components. intros (piece & _ & E)%list_elem_of_omap. unfold single_component in E. break_in E; eauto.
Qed.

Lemma named_path_drive b l body :
  path_components b = PrefixComponent [l; ":"%char] :: RootDir :: body_components false body →
  named_path b = bytes_str [l; ":"%char] :: map text_of (body_components false body).
Proof.
  intros E. unfold named_path. rewrite E. cbn [omap list_omap component_os_str]. f_equal.
  assert (∀ c, c ∈ body_components false body → c ≠ RootDir) as Hne
    by (intros c Hc ->; destruct (body_kinds _ _ Hc) as [|[? ?]]; done).
  clear E. revert Hne. generalize (body_components false body). intros cs. induction cs as [|c cs IH]; intros Hne; [done|].
  assert (omap (λ c, match c with RootDir => None | c => Some (bytes_str (component_os_str c)) end) cs = map text_of cs) as E
    by (apply IH; intros x Hx; apply Hne; by apply list_elem_of_further).
  specialize (Hne c (list_elem_of_here _ _)). cbn. destruct c; try (f_equal; exact E). done.
Qed.

Lemma lower_head_alphabetic a b l rest :
  str_to_ascii_lowercase a = str_to_ascii_lowercase b → str_bytes b = l :: rest → is_ascii_alphabetic l = true →
  ∃ l' rest', str_bytes a = l' :: rest' ∧ is_ascii_alphabetic l' = true.
Proof.
  unfold str_to_ascii_lowercase. intros E%(f_equal str_bytes) Eb Hl. rewrite !str_bytes_str, Eb in E.
  destruct (str_bytes a) as [|l' rest']; [done|]. injection E as El _. exists l', rest'. split; [done|].
  by rewrite <- alphabetic_lowercase, El, alphabetic_lowercase.
Qed.

(** A component of a body whose text is an ordinary name is that name. *)
Lemma normal_text body c (ok : string → bool) :
  c ∈ body_components false body → ok ".." = false →
  is_some_and (component_text c) ok = ok (text_of c).
Proof. intros Hc Hp. destruct (body_kinds _ _ Hc) as [->|[name ->]]; [symmetry; exact Hp|reflexivity]. Qed.

Section Layout.
Context (root : Path) (Hroot : plain_path root = true).

Definition below_root (binary : list ascii) : Prop :=
  ∃ observed bin version executable,
    named_path binary = observed ++ [bin; version; executable] ∧ lower_names observed = lower_names root ∧
    str_to_ascii_lowercase bin = "bin" ∧ valid_runtime_version_component version = true ∧
    str_to_ascii_lowercase executable = "mactype-service.exe".

(** Both sides start with a drive. *)
Lemma same_drive b raw rest drive names :
  root = drive :: names → is_absolute b = true → path_components b = PrefixComponent raw :: rest →
  str_to_ascii_lowercase (bytes_str raw) = str_to_ascii_lowercase drive →
  ∃ l body, path_components b = PrefixComponent [l; ":"%char] :: RootDir :: body_components false body ∧ raw = [l; ":"%char].
Proof.
  intros -> Ha E Ed. destruct (plain_path_text _ Hroot) as (drive' & letter & n & names' & [= <- ->] & Hd & Hl & _).
  destruct (lower_head_alphabetic _ _ _ _ Ed Hd Hl) as (l & raw' & Er & Hl'). rewrite str_bytes_str in Er.
  destruct (drive_text _ _ _ _ _ Ha E Er Hl') as (s & body & _ & E'). exists l, body. split; [done|].
  rewrite E in E'. by injection E' as ->.
Qed.

Lemma lower_map_text cs names :
  Forall2 (λ a b, components_equal a b = true) (map (NormalComponent ∘ str_bytes) names) cs ↔
  lower_names (map text_of cs) = lower_names names.
Proof.
  revert cs. induction names as [|n names IH]; intros [|c cs]; cbn; try (by split; inversion 1).
  rewrite Forall2_cons, IH, lower_os_str. cbn [compose component_os_str]. rewrite bytes_str_bytes.
  split; [intros [E1 E2]; f_equal; [by symmetry|exact E2]|].
  intros E. split; [symmetry; by apply (f_equal head), Some_inj in E|exact (f_equal tail E)].
Qed.

Lemma layout_exact binary :
  service_binary_matches_protected_layout (path_text root) binary = true ↔ is_absolute binary = true ∧ below_root binary.
Proof.
  destruct (components_of_plain _ Hroot) as (drive & names & Er & Ha & Ec).
  unfold service_binary_matches_protected_layout. rewrite Ha, Ec. cbn [negb orb].
  destruct (is_absolute binary) eqn:Eb; [|by split; [|intros [? _]]]. cbn [negb].
  destruct (absolute_components _ Eb) as (raw & rest & Ep). rewrite Ep. split.
  - cbn [length zip_equal]. intros H.
    destruct (negb _ || negb _) eqn:Ez in H; [done|]. apply orb_false_elim in Ez as [El Ez].
    apply negb_false_iff, Nat.eqb_eq in El. apply negb_false_iff, andb_prop in Ez as [Ed Ez].
    apply lower_os_str in Ed. cbn [component_os_str] in Ed. rewrite bytes_str_bytes in Ed.
    destruct (same_drive _ _ _ _ _ Er Eb Ep (eq_sym Ed)) as (l & body & E & ->). rewrite E in Ep. injection Ep as <-.
    cbn [zip_equal] in Ez. cbn [drop length] in H. rewrite length_map in H, El. cbn [length] in El.
    split; [done|]. apply andb_prop in Ez as [_ Ez].
    destruct (drop (length names) (body_components false body)) as [|b [|v [|x [|]]]] eqn:Ex; [done..| |done].
    assert (body_components false body = take (length names) (body_components false body) ++ [b; v; x]) as Eapp
      by (by rewrite <- Ex, take_drop).
    assert (∀ c, c ∈ [b; v; x] → c ∈ body_components false body) as Hin by (intros c Hc; rewrite Eapp; set_solver).
    rewrite !(normal_text body) in H by (first [apply Hin; set_solver|done]). apply andb_prop in H as [[Hb Hv]%andb_prop Hx].
    apply eq_ignore_lower in Hb, Hx.
    exists (bytes_str [l; ":"%char] :: map text_of (take (length names) (body_components false body))), (text_of b), (text_of v), (text_of x).
    split_and!; [|  |exact Hb|exact Hv|exact Hx].
    + rewrite (named_path_drive _ _ _ E), Eapp at 1. by rewrite map_app.
    + rewrite Er. unfold lower_names at 1 2. cbn [map]. f_equal; [by symmetry|].
      apply lower_map_text. rewrite Eapp in Ez. apply zip_equal_app in Ez; [done|].
      rewrite length_map, length_take. lia.
  - intros [_ (observed & bin & version & executable & En & Eo & Hb & Hv & Hx)].
    rewrite Er in Eo. destruct observed as [|d obs]; [done|]. pose proof (f_equal tail Eo : lower_names obs = lower_names names) as Eobs.
    apply (f_equal head), Some_inj in Eo.
    assert (d = bytes_str raw) as ->.
    { unfold named_path in En. rewrite Ep in En. cbn [omap list_omap component_os_str app] in En.
      by apply (f_equal head), Some_inj in En. }
    destruct (same_drive _ _ _ _ _ Er Eb Ep Eo) as (l & body & E & ->). rewrite E in Ep. injection Ep as <-.
    rewrite (named_path_drive _ _ _ E) in En. apply (f_equal tail) in En. cbn [tail app] in En.
    apply map_eq_app in En as (cs & tail & Ebody & <- & Et).
    destruct tail as [|b [|v [|x [|]]]]; try discriminate Et. cbn [map] in Et.
    assert (text_of b = bin ∧ text_of v = version ∧ text_of x = executable) as (<- & <- & <-) by (by simplify_list_eq).
    assert (∀ c, c ∈ [b; v; x] → c ∈ body_components false body) as Hin by (intros c Hc; rewrite Ebody; set_solver).
    assert (length cs = length names) as Hlen by (by apply (f_equal length) in Eobs; unfold lower_names in Eobs; rewrite !length_map in Eobs).
    apply lower_map_text in Eobs. rewrite Ebody.
    assert (zip_equal (map (NormalComponent ∘ str_bytes) names) (cs ++ [b; v; x]) = true) as Hz
      by (apply zip_equal_app; [by rewrite length_map|done]).
    assert (components_equal (PrefixComponent (str_bytes drive)) (PrefixComponent [l; ":"%char]) = true) as Hd
      by (apply lower_os_str; cbn [component_os_str]; by rewrite bytes_str_bytes).
    cbn [length zip_equal drop]. rewrite Hd, Hz, length_map, length_app, Hlen. cbn [length].
    replace (S (S (length names + 3)) =? S (S (length names)) + 3) with true by (symmetry; apply Nat.eqb_eq; lia).
    change (components_equal RootDir RootDir) with true. cbn [andb negb orb].
    rewrite <- Hlen, drop_app_length.
    rewrite !(normal_text body) by (first [apply Hin; set_solver|done]).
    rewrite Hv, !(proj2 (eq_ignore_lower _ _)) by (first [exact Hb|exact Hx]). done.
Qed.
End Layout.

Lemma quoted_inj a b : quoted a = quoted b → a = b.
Proof.
  unfold quoted. intros E%(f_equal str_bytes). rewrite !str_bytes_str in E. injection E as E. by apply app_inv_tail in E.
Qed.

Lemma accepted_image_exact root image :
  plain_path root = true →
  (service_image_matches_protected_layout root image = true ↔
   ∃ binary, image = quoted binary ∧ forallb (negb ∘ is_quote) binary = true ∧ is_absolute binary = true ∧
     below_root root binary).
Proof.
  intros Hroot. unfold service_image_matches_protected_layout. split.
  - destruct (service_binary_from_image_path image) as [binary|] eqn:E; [|done].
    apply binary_from_image_path_spec in E as [-> Hq]. intros [Ha Hb]%(layout_exact root Hroot). by exists binary.
  - intros (binary & -> & Hq & Ha & Hb).
    rewrite (proj2 (binary_from_image_path_spec _ binary) (conj eq_refl Hq)). by apply layout_exact.
Qed.

(** C18. The service that the installer calls its own starts a program of the protected
    directory: an image path is accepted exactly when it quotes, with no argument but
    [--service], an absolute path whose names are, in any case of letters, those of the
    protected root and below it [bin], one valid version and [mactype-service.exe].  The
    root is a [plain_path], as the installer's is: a drive with directories below it,
    whose names are not empty, have no separator and are not a dot or two. *)
Theorem accepted_image_is_below_the_root root image :
  plain_path root = true →
  (service_image_matches_protected_layout root image = true ↔
   ∃ binary, image = quoted binary ∧ forallb (negb ∘ is_quote) binary = true ∧ is_absolute binary = true ∧
     below_root root binary).
Proof. apply accepted_image_exact. Qed.

Definition example_root : Path := ["C:"; "Program Files"; "MacType Control Center"; "Service"].

Example accepted_image_is_below_the_root_witness :
  service_image_matches_protected_layout example_root
    (quoted (str_bytes "c:\program files\MacType Control Center\Service\bin\0.2.0\mactype-service.exe")) = true ∧
  below_root example_root (str_bytes "c:\program files\MacType Control Center\Service\bin\0.2.0\mactype-service.exe").
Proof.
  split; [vm_compute; reflexivity|].
  destruct (proj1 (accepted_image_is_below_the_root example_root
    (quoted (str_bytes "c:\program files\MacType Control Center\Service\bin\0.2.0\mactype-service.exe")) eq_refl)
    ltac:(vm_compute; reflexivity)) as (binary & E & _ & _ & H).
  enough (binary = str_bytes "c:\program files\MacType Control Center\Service\bin\0.2.0\mactype-service.exe") as <- by done.
  by apply quoted_inj in E.
Defined.

(** The path that is built for a generation is accepted. *)
Lemma valid_version_plain v : valid_runtime_version_component v = true → plain_name v = true.
Proof.
  unfold valid_runtime_version_component, plain_name. intros H. andb_split.
  match goal with H : forallb _ (str_bytes v) = true |- _ => rename H into Hv end.
  rewrite !andb_true_iff, !negb_true_iff, !bool_decide_eq_false. split_and!.
  - apply forallb_forall. intros b Hb. rewrite forallb_forall in Hv. specialize (Hv b Hb).
    unfold compose, is_windows_separator. by destruct b as [[] [] [] [] [] [] [] []].
  - intros E. apply (f_equal bytes_str) in E. rewrite bytes_str_bytes in E. by subst v.
  - intros E%str_bytes_inj. by subst v.
  - intros E%str_bytes_inj. by subst v.
Qed.

Definition generation_binary (root : Path) (version : string) : Path := root ++ ["bin"; version; "mactype-service.exe"].

Lemma generation_plain root version :
  plain_path root = true → valid_runtime_version_component version = true → plain_path (generation_binary root version) = true.
Proof.
  unfold plain_path, generation_binary. intros Hr Hv. destruct root as [|drive [|n names]]; [done..|].
  cbn [app]. apply andb_prop in Hr as [Hd Hn]. rewrite Hd. cbn [andb]. cbn [forallb] in Hn |- *. rewrite forallb_app.
  apply andb_prop in Hn as [-> ->]. cbn [forallb andb]. by rewrite (valid_version_plain _ Hv).
Qed.

Lemma generation_image_accepted root version image :
  plain_path root = true → valid_runtime_version_component version = true →
  quoted_image_path (generation_binary root version) = Ok image →
  service_image_matches_protected_layout root image = true.
Proof.
  intros Hr Hv. unfold quoted_image_path. destruct (existsb is_quote _) eqn:Eq; [done|]. intros E. apply (inj Ok) in E as <-.
  pose proof (generation_plain _ _ Hr Hv) as Hp. apply (accepted_image_exact root _ Hr).
  exists (path_text (generation_binary root version)). split; [done|]. split.
  { apply forallb_forall. intros b Hb. unfold compose. apply negb_true_iff. destruct (is_quote b) eqn:E; [|done].
    rewrite <- not_true_iff_false in Eq. destruct Eq. apply existsb_exists. by exists b. }
  destruct (components_of_plain _ Hp) as (_ & _ & _ & Ha & _). split; [done|].
  exists root, "bin", version, "mactype-service.exe". by rewrite named_plain.
Qed.

(** What the fixed contract asks of a configuration. *)
Lemma owned_contract_exact root c :
  service_configuration_matches_owned_contract root c = true ↔
    service_type c = FIXED_SERVICE_TYPE ∧ start_type c = FIXED_START_TYPE ∧ error_control c = FIXED_ERROR_CONTROL ∧
    service_display_name c = SERVICE_DISPLAY_NAME ∧ load_order_group c = "" ∧ dependencies c = [] ∧
    eq_ignore_ascii_case (account c) FIXED_ACCOUNT = true ∧
    service_image_matches_protected_layout root (image_path c) = true.
Proof.
  unfold service_configuration_matches_owned_contract, owned_service_identity, is_drifted, service_configuration_drift.
  cbn [start_type_drift error_control_drift display_name_drift load_order_group_drift tag_drift dependencies_drift].
  rewrite !andb_true_iff, !negb_true_iff, !orb_false_iff, !negb_false_iff, !N.eqb_eq, String.eqb_eq.
  assert (str_is_empty (load_order_group c) = true ↔ load_order_group c = "") as Hg.
  { unfold str_is_empty, str_len. rewrite N.eqb_eq. by destruct (load_order_group c). }
  destruct (str_is_empty (load_order_group c)); [|naive_solver].
  rewrite andb_false_r. destruct (dependencies c); naive_solver.
Qed.

(** The drift has a name for every field that is not as it should be. *)
Lemma field_names_empty d : field_names d = [] ↔ is_drifted d = false.
Proof. destruct d as [[] [] [] [] [] []]; by vm_compute. Qed.
