(* ===== verification/Scm.v ===== *)
(** * Services, processes and pipes

    [service-runtime/platform/src/scm.rs], [handle.rs], and of [process.rs] and [pipe.rs]
    what the setup program uses: the operations on a service in terms of the calls of
    Windows.  Every answer comes from the class [Windows], which knows all that happened
    before; every call takes its time and is remembered. *)

From S2P Require Export ServiceConfiguration.

Class Windows := {
  reply : ∀ {A : Type}, Disk → WindowsCall A → A;
  canonical : Disk → Path → result Path IoError
}.

(** ** Access rights and states *)

Inductive ServiceAccess :=
| QueryStatusAccess | QueryConfigAccess | QueryStatusAndConfigAccess | InspectAccess | StartAccess | StopAccess
| ReconfigureAccess | ChangeStartTypeAccess | RestoreAccess | DeleteAccess.

Definition SERVICE_QUERY_CONFIG : N := 1.
Definition SERVICE_CHANGE_CONFIG : N := 2.
Definition SERVICE_QUERY_STATUS : N := 4.
Definition SERVICE_START : N := 16.
Definition SERVICE_STOP : N := 32.
Definition SERVICE_ALL_ACCESS : N := 983551.
Definition SERVICE_DELETE : N := 65536.
Definition READ_CONTROL : N := 131072.
Definition WRITE_DAC : N := 262144.
Definition WRITE_OWNER : N := 524288.

Definition union (rights : list N) : N := fold_right N.lor 0%N rights.

Definition service_rights (access : ServiceAccess) : N :=
  match access with
  | QueryStatusAccess => SERVICE_QUERY_STATUS
  | QueryConfigAccess => SERVICE_QUERY_CONFIG
  | QueryStatusAndConfigAccess => union [SERVICE_QUERY_STATUS; SERVICE_QUERY_CONFIG]
  | InspectAccess => union [SERVICE_QUERY_STATUS; SERVICE_QUERY_CONFIG; READ_CONTROL]
  | StartAccess => union [SERVICE_START; SERVICE_QUERY_STATUS; SERVICE_QUERY_CONFIG]
  | StopAccess => union [SERVICE_STOP; SERVICE_QUERY_STATUS; SERVICE_QUERY_CONFIG]
  | ReconfigureAccess => union [SERVICE_CHANGE_CONFIG; SERVICE_QUERY_STATUS; SERVICE_QUERY_CONFIG; SERVICE_START]
  | ChangeStartTypeAccess => union [SERVICE_CHANGE_CONFIG; SERVICE_QUERY_STATUS]
  | RestoreAccess => union [SERVICE_CHANGE_CONFIG; SERVICE_QUERY_CONFIG; READ_CONTROL; WRITE_DAC; WRITE_OWNER]
  | DeleteAccess => union [SERVICE_DELETE; SERVICE_QUERY_STATUS; SERVICE_QUERY_CONFIG]
  end.

Inductive ServiceState :=
| StateStopped | StateStartPending | StateStopPending | StateRunning | StateContinuePending | StatePausePending
| StatePaused | StateOther (raw : N).

#[export] Instance ServiceState_eq_dec : EqDecision ServiceState.
Proof. solve_decision. Defined.

Definition state_from_raw (value : N) : ServiceState :=
  match value with
  | 1 => StateStopped
  | 2 => StateStartPending
  | 3 => StateStopPending
  | 4 => StateRunning
  | 5 => StateContinuePending
  | 6 => StatePausePending
  | 7 => StatePaused
  | other => StateOther other
  end%N.

Definition state_as_raw (state : ServiceState) : N :=
  match state with
  | StateStopped => 1
  | StateStartPending => 2
  | StateStopPending => 3
  | StateRunning => 4
  | StateContinuePending => 5
  | StatePausePending => 6
  | StatePaused => 7
  | StateOther value => value
  end.

Record ServiceStatusSnapshot := {
  state : ServiceState;
  snapshot_process_id : N;
  win32_exit_code : N;
  service_specific_exit_code : N
}.

Inductive StartOutcome := Started | AlreadyRunning.
Inductive StopOutcome := StopRequested | NotActive.

(** ** The codes of Windows *)

Definition ERROR_INVALID_PARAMETER : N := 87.
Definition ERROR_SERVICE_ALREADY_RUNNING : N := 1056.
Definition ERROR_SERVICE_DOES_NOT_EXIST : N := 1060.
Definition ERROR_SERVICE_NOT_ACTIVE : N := 1062.
Definition ERROR_SERVICE_MARKED_FOR_DELETE : N := 1072.
Definition SERVICE_NO_CHANGE : N := U32_MAX.
Definition SERVICE_CONTROL_STOP : N := 1.
Definition SERVICE_WIN32_OWN_PROCESS : N := 16.
Definition SERVICE_AUTO_START : N := 2.
Definition SERVICE_ERROR_NORMAL : N := 1.
Definition SC_ACTION_RESTART : Z := 1.
Definition SYNCHRONIZE : N := 1048576.
Definition WAIT_OBJECT_0 : N := 0.
Definition WAIT_ABANDONED : N := 128.
Definition WAIT_TIMEOUT : N := 258.
Definition MAX_SERVICE_DEPENDENCIES : nat := 256.

Definition plain_error (text : string) : IoError :=
  {| not_found := false; raw_os_error := None; io_text := text |}.

(** [{value:#x}] of a [u32] *)
Fixpoint hex_digits (fuel : nat) (value : N) : list ascii :=
  match fuel with
  | 0 => []
  | S fuel => (if (value <? 16)%N then [] else hex_digits fuel (value / 16)) ++ [hex_digit (value mod 16)]
  end.

Definition hex_text (value : N) : string := "0x" ++ bytes_str (hex_digits 8 value).

Example hex_of_a_wait_result : hex_text 258 = "0x102" ∧ hex_text 0 = "0x0" ∧ hex_text U32_MAX = "0xffffffff".
Proof. done. Qed.

Definition remember (e : Answered) (d : Disk) : Disk :=
  {| nodes := nodes d; history := history d; calls := calls d; clock := clock d; sequence := sequence d;
     answered := answered d ++ [e]; captured := captured d |}.

Section Services.
Context `{World, Windows}.

(** One call of Windows. *)
Definition windows {A : Type} (c : WindowsCall A) : M Disk A :=
  let! _ := tick in
  let! a := gets (λ d, reply d c) in
  let! _ := modify (remember (Called c a)) in
  ret a.

Definition scm_open (name : string) (access : ServiceAccess) : M Disk (result (option Handle) IoError) :=
  let! handle := windows (OpenServiceW name (service_rights access)) in
  ret (match handle with
       | Ok handle => Ok (Some handle)
       | Err error => if has_code error ERROR_SERVICE_DOES_NOT_EXIST then Ok None else Err error
       end).

Definition create_own_process_auto_start (name display_name image_path : string) : M Disk (result Handle IoError) :=
  windows (CreateServiceW name display_name SERVICE_ALL_ACCESS SERVICE_WIN32_OWN_PROCESS SERVICE_AUTO_START
    SERVICE_ERROR_NORMAL image_path None None None).

Definition snapshot (status : SERVICE_STATUS_PROCESS) : ServiceStatusSnapshot :=
  {| state := state_from_raw (dwCurrentState status); snapshot_process_id := dwProcessId status;
     win32_exit_code := dwWin32ExitCode status; service_specific_exit_code := dwServiceSpecificExitCode status |}.

Definition service_status (service : Handle) : M Disk (result ServiceStatusSnapshot IoError) :=
  let! r := windows (QueryServiceStatusEx service) in
  ret (match r with Ok status => Ok (snapshot status) | Err e => Err e end).

(** [parse_config] *)
Definition parse_config (config : QUERY_SERVICE_CONFIGW) : result ServiceConfig IoError :=
  if (MAX_SERVICE_DEPENDENCIES <? length (lpDependencies config))%nat
  then Err (plain_error "MULTI_SZ has too many entries")
  else Ok {| service_type := dwServiceType config; start_type := dwStartType config;
             error_control := dwErrorControl config; image_path := default "" (lpBinaryPathName config);
             account := default "" (lpServiceStartName config);
             service_display_name := default "" (lpDisplayName config);
             load_order_group := default "" (lpLoadOrderGroup config); tag_id := dwTagId config;
             dependencies := lpDependencies config |}.

Definition service_config (service : Handle) : M Disk (result ServiceConfig IoError) :=
  let! r := windows (QueryServiceConfigW service) in ret (result_bind r parse_config).

Definition service_start (service : Handle) : M Disk (result StartOutcome IoError) :=
  let! r := windows (StartServiceW service) in
  ret (match r with
       | Ok _ => Ok Started
       | Err error => if has_code error ERROR_SERVICE_ALREADY_RUNNING then Ok AlreadyRunning else Err error
       end).

Definition service_stop (service : Handle) : M Disk (result StopOutcome IoError) :=
  let! r := windows (ControlService service SERVICE_CONTROL_STOP) in
  ret (match r with
       | Ok _ => Ok StopRequested
       | Err error => if has_code error ERROR_SERVICE_NOT_ACTIVE then Ok NotActive else Err error
       end).

Definition service_delete (service : Handle) : M Disk (result unit IoError) := windows (DeleteService service).

Definition set_image_and_display_name (service : Handle) (image_path display_name : string) : M Disk (result unit IoError) :=
  windows (ChangeServiceConfigW service SERVICE_NO_CHANGE SERVICE_AUTO_START SERVICE_NO_CHANGE
    (Some image_path) None None None (Some display_name)).

Definition restore_owned_mutable_configuration (service : Handle) : M Disk (result unit IoError) :=
  windows (ChangeServiceConfigW service SERVICE_NO_CHANGE SERVICE_NO_CHANGE SERVICE_ERROR_NORMAL
    None (Some ""%string) (Some []) None None).

Definition validate_strings (values : list string) : result unit IoError :=
  if existsb (λ value, existsb (λ b, (b =? "000")%char) (str_bytes value)) values
  then Err (plain_error "service configuration string contains a NUL") else Ok tt.

Definition set_description (service : Handle) (text : string) : M Disk (result unit IoError) :=
  let? _ := ret (validate_strings [text]) in
  windows (ChangeServiceConfig2W service (SERVICE_DESCRIPTION (Some text))).

Definition set_restart_actions (service : Handle) (reset_period_seconds : N) (delays : list N) : M Disk (result unit IoError) :=
  windows (ChangeServiceConfig2W service
    (SERVICE_FAILURE_ACTIONS reset_period_seconds None None (map (λ delay, (SC_ACTION_RESTART, delay)) delays))).

Definition set_failure_actions_on_non_crash_failures (service : Handle) (enabled : bool) : M Disk (result unit IoError) :=
  windows (ChangeServiceConfig2W service (SERVICE_FAILURE_ACTIONS_FLAG (if enabled then 1 else 0))).

(** ** Processes and pipes *)

(** [Process::open] with the right to wait. *)
Definition open_process_synchronize (pid : N) : M Disk (result Handle IoError) := windows (OpenProcess SYNCHRONIZE pid).

(** A timeout in whole milliseconds; the largest number means forever and is not reached. *)
Definition clamp_timeout (timeout : N) : N := N.min (timeout / 1000000) (U32_MAX - 1).

Definition handle_wait (object : Handle) (timeout : N) : M Disk (result WaitOutcome IoError) :=
  let! r := windows (WaitForSingleObject object (clamp_timeout timeout)) in
  ret (match r with
       | Ok value =>
           if (value =? WAIT_OBJECT_0)%N then Ok Signaled
           else if (value =? WAIT_TIMEOUT)%N then Ok TimedOut
           else if (value =? WAIT_ABANDONED)%N then Ok Abandoned
           else Err (plain_error ("unexpected wait result " ++ hex_text value))
       | Err e => Err e
       end).

Definition pipe_open_read (name : string) : M Disk (result Handle IoError) := windows (OpenPipe name).

Definition named_pipe_server_process_id (pipe : Handle) : M Disk (result N IoError) :=
  let! r := windows (GetNamedPipeServerProcessId pipe) in
  ret (match r with
       | Ok pid => if (pid =? 0)%N then Err (plain_error "named pipe server returned process ID zero") else Ok pid
       | Err e => Err e
       end).

Definition pipe_read (pipe : Handle) (capacity : N) : M Disk (result (list ascii) IoError) :=
  let! r := windows (ReadPipe pipe capacity) in
  ret (match r with Ok bytes => Ok (take (N.to_nat capacity) bytes) | Err e => Err e end).

(** [Path::canonicalize] *)
Definition canonicalize (p : Path) : M Disk (result Path IoError) :=
  let! d := get in
  let! _ := tick in
  ret (canonical d p).
End Services.

Lemma state_raw_roundtrip n : state_as_raw (state_from_raw n) = n.
Proof. by destruct n as [|[[[]|[]|]|[[]|[]|]|]]. Qed.

Lemma reconfigure_can_start : N.land (service_rights ReconfigureAccess) SERVICE_START = SERVICE_START.
Proof. reflexivity. Qed.
