(* ===== verification/ScmConfiguration.v ===== *)
(** * The whole configuration of a service

    The rest of [service-runtime/platform/src/scm.rs], and of [scm_response.rs] and
    [security.rs] what it uses: reading and restoring every setting of a service.  The
    control center reads them before it replaces the older service. *)

From S2P Require Export Scm.

(** ** Security descriptors *)

(** What Windows tells of a security descriptor. *)
Class SecurityDescriptors := {
  IsValidSecurityDescriptor : list ascii → bool;
  GetSecurityDescriptorControl : list ascii → result N IoError;
  GetSecurityDescriptorLength : list ascii → N
}.

Definition SE_DACL_PROTECTED : N := 4096.
Definition SE_SELF_RELATIVE : N := 32768.
Definition OWNER_SECURITY_INFORMATION : N := 1.
Definition GROUP_SECURITY_INFORMATION : N := 2.
Definition DACL_SECURITY_INFORMATION : N := 4.
Definition UNPROTECTED_DACL_SECURITY_INFORMATION : N := 536870912.
Definition PROTECTED_DACL_SECURITY_INFORMATION : N := 2147483648.

Definition MAX_FAILURE_ACTIONS : nat := 64.
Definition MAX_REQUIRED_PRIVILEGES : nat := 64.
Definition MAX_SECURITY_DESCRIPTOR_BYTES : N := 64 * 1024.

Record SelfRelativeSecurityDescriptor := { descriptor_bytes : list ascii }.

Section Descriptors.
Context `{SecurityDescriptors}.

Definition from_bytes (bytes : list ascii) (maximum_bytes : N) : result SelfRelativeSecurityDescriptor IoError :=
  if (bytes_len bytes =? 0)%N || (maximum_bytes <? bytes_len bytes)%N
  then Err (plain_error "security descriptor size is out of range")
  else if negb (IsValidSecurityDescriptor bytes) then Err (plain_error "security descriptor is invalid")
  else
    let-? control := GetSecurityDescriptorControl bytes in
    if (N.land control SE_SELF_RELATIVE =? 0)%N then Err (plain_error "security descriptor is not self-relative")
    else if negb (GetSecurityDescriptorLength bytes =? bytes_len bytes)%N
    then Err (plain_error "security descriptor length does not match its buffer")
    else Ok {| descriptor_bytes := bytes |}.

Definition dacl_protected (descriptor : SelfRelativeSecurityDescriptor) : result bool IoError :=
  let-? control := GetSecurityDescriptorControl (descriptor_bytes descriptor) in
  Ok (negb (N.land control SE_DACL_PROTECTED =? 0)%N).

Lemma from_bytes_exact bytes maximum descriptor : from_bytes bytes maximum = Ok descriptor → descriptor_bytes descriptor = bytes.
Proof.
  unfold from_bytes. destruct (_ || _); [done|]. destruct (negb _); [done|].
  destruct (GetSecurityDescriptorControl bytes); [cbn|done]. destruct (_ =? 0)%N; [done|]. destruct (negb _); [done|]. by intros [= <-].
Qed.
End Descriptors.

(** ** The settings *)

Inductive FailureActionKind := ActionNone | ActionRestart | ActionReboot | ActionRunCommand | ActionOwnRestart.

Definition failure_action_from_raw (value : Z) : option FailureActionKind :=
  match value with
  | 0 => Some ActionNone
  | 1 => Some ActionRestart
  | 2 => Some ActionReboot
  | 3 => Some ActionRunCommand
  | 4 => Some ActionOwnRestart
  | _ => None
  end%Z.

Definition failure_action_as_raw (kind : FailureActionKind) : Z :=
  match kind with
  | ActionNone => 0
  | ActionRestart => 1
  | ActionReboot => 2
  | ActionRunCommand => 3
  | ActionOwnRestart => 4
  end.

Lemma failure_action_roundtrip value kind : failure_action_from_raw value = Some kind → failure_action_as_raw kind = value.
Proof.
  unfold failure_action_from_raw. destruct value as [|[[[]| |]|[[]|[]|]|]|]; cbn; intros E; try done; by injection E as <-.
Qed.

Record PlatformFailureAction := { action_kind : FailureActionKind; action_delay_ms : N }.

Record PlatformFailureActions := {
  reset_period : N;
  reboot : option string;
  run_command : option string;
  failure_action_list : list PlatformFailureAction
}.

Record TriggerInfo := { trigger_count : N; has_trigger_data : bool; has_reserved_data : bool }.

Record ServiceCreation := {
  creation_display_name : string;
  creation_service_type : N;
  creation_start_type : N;
  creation_error_control : N;
  creation_image_path : string;
  creation_load_order_group : option string;
  creation_dependencies : list string;
  creation_account : string
}.

(** An error of the kind [InvalidData]; these carry no code of Windows. *)
Definition invalid_data (text : string) : IoError := plain_error text.

Fixpoint failure_actions_of (actions : list (Z * N)) : result (list PlatformFailureAction) IoError :=
  match actions with
  | [] => Ok []
  | (type, delay) :: actions =>
      match failure_action_from_raw type with
      | None => Err (invalid_data "unsupported failure action")
      | Some kind => let-? rest := failure_actions_of actions in Ok ({| action_kind := kind; action_delay_ms := delay |} :: rest)
      end
  end.

(** [String::from_utf16] *)
Definition text_of_units (units : list N) : option string := (λ text, bytes_str (utf8 text)) <$> from_utf16 units.

Definition strict_optional_text (text : option (list N)) : result (option string) IoError :=
  match text with
  | None | Some [] => Ok None
  | Some units =>
      match text_of_units units with
      | Some text => Ok (Some text)
      | None => Err (invalid_data "service configuration string is not valid UTF-16")
      end
  end.

Fixpoint privileges_of (entries : list (list N)) : result (list string) IoError :=
  match entries with
  | [] => Ok []
  | units :: entries =>
      match text_of_units units with
      | None => Err (invalid_data "required privilege is not valid UTF-16")
      | Some privilege => let-? rest := privileges_of entries in Ok (privilege :: rest)
      end
  end.

Section Configuration.
Context `{World, Windows, SecurityDescriptors}.

Definition config2 {A : Type} (service : Handle) (level : ConfigLevel A) : M Disk (result A IoError) :=
  windows (QueryServiceConfig2W service level).

Definition service_description (service : Handle) : M Disk (result (option string) IoError) :=
  let? description := config2 service SERVICE_CONFIG_DESCRIPTION in
  ret (strict_optional_text description).

Definition service_failure_actions (service : Handle) : M Disk (result PlatformFailureActions IoError) :=
  let? failure := config2 service SERVICE_CONFIG_FAILURE_ACTIONS in
  ret (if (MAX_FAILURE_ACTIONS <? length (lpsaActions failure))%nat
       then Err (invalid_data "SCM response array is invalid")
       else
         let-? actions := failure_actions_of (lpsaActions failure) in
         let-? reboot_message := strict_optional_text (lpRebootMsg failure) in
         let-? command := strict_optional_text (lpCommand failure) in
         Ok {| reset_period := dwResetPeriod failure; reboot := reboot_message; run_command := command;
               failure_action_list := actions |}).

Definition failure_actions_on_non_crash_failures (service : Handle) : M Disk (result bool IoError) :=
  let? flag := config2 service SERVICE_CONFIG_FAILURE_ACTIONS_FLAG in
  ret (Ok (negb (flag =? 0)%Z)).

Definition delayed_auto_start (service : Handle) : M Disk (result bool IoError) :=
  let? delayed := config2 service SERVICE_CONFIG_DELAYED_AUTO_START_INFO in
  ret (Ok (negb (delayed =? 0)%Z)).

Definition service_sid_type (service : Handle) : M Disk (result N IoError) :=
  config2 service SERVICE_CONFIG_SERVICE_SID_INFO.

Definition required_privileges (service : Handle) : M Disk (result (list string) IoError) :=
  let? privileges := config2 service SERVICE_CONFIG_REQUIRED_PRIVILEGES_INFO in
  ret (if (MAX_REQUIRED_PRIVILEGES <? length privileges)%nat
       then Err (invalid_data "MULTI_SZ has too many entries")
       else privileges_of privileges).

Definition preshutdown_timeout_ms (service : Handle) : M Disk (result N IoError) :=
  config2 service SERVICE_CONFIG_PRESHUTDOWN_INFO.

Definition trigger_info (service : Handle) : M Disk (result TriggerInfo IoError) :=
  let? trigger := config2 service SERVICE_CONFIG_TRIGGER_INFO in
  ret (Ok {| trigger_count := cTriggers trigger; has_trigger_data := pTriggers trigger; has_reserved_data := pReserved trigger |}).

Definition object_security (service : Handle) : M Disk (result SelfRelativeSecurityDescriptor IoError) :=
  let? descriptor := windows (QueryServiceObjectSecurity service
    (union [OWNER_SECURITY_INFORMATION; GROUP_SECURITY_INFORMATION; DACL_SECURITY_INFORMATION])) in
  ret (from_bytes descriptor MAX_SECURITY_DESCRIPTOR_BYTES).

(** ** Changes *)

Definition create_service (name : string) (creation : ServiceCreation) (access : ServiceAccess) : M Disk (result Handle IoError) :=
  let? _ := ret (validate_strings ([name; creation_display_name creation; creation_image_path creation; creation_account creation]
                   ++ option_list (creation_load_order_group creation) ++ creation_dependencies creation)) in
  windows (CreateServiceW name (creation_display_name creation) (service_rights access) (creation_service_type creation)
    (creation_start_type creation) (creation_error_control creation) (creation_image_path creation)
    (creation_load_order_group creation) (Some (creation_dependencies creation)) (Some (creation_account creation))).

Definition set_config (service : Handle) (config : ServiceConfig) : M Disk (result unit IoError) :=
  let? _ := ret (validate_strings ([image_path config; account config; service_display_name config; load_order_group config]
                   ++ dependencies config)) in
  windows (ChangeServiceConfigW service (service_type config) (start_type config) (error_control config)
    (Some (image_path config)) (if (load_order_group config =? "")%string then None else Some (load_order_group config))
    (Some (dependencies config)) (Some (account config)) (Some (service_display_name config))).

Definition service_set_start_type (service : Handle) (start_type : N) : M Disk (result unit IoError) :=
  windows (ChangeServiceConfigW service SERVICE_NO_CHANGE start_type SERVICE_NO_CHANGE None None None None None).

Definition set_optional_description (service : Handle) (description : option string) : M Disk (result unit IoError) :=
  let? _ := ret (validate_strings (option_list description)) in
  windows (ChangeServiceConfig2W service (SERVICE_DESCRIPTION description)).

Definition set_failure_actions (service : Handle) (actions : PlatformFailureActions) : M Disk (result unit IoError) :=
  let? _ := ret (validate_strings (option_list (reboot actions) ++ option_list (run_command actions))) in
  windows (ChangeServiceConfig2W service (SERVICE_FAILURE_ACTIONS (reset_period actions) (reboot actions) (run_command actions)
    (map (λ action, (failure_action_as_raw (action_kind action), action_delay_ms action)) (failure_action_list actions)))).

Definition set_delayed_auto_start (service : Handle) (enabled : bool) : M Disk (result unit IoError) :=
  windows (ChangeServiceConfig2W service (SERVICE_DELAYED_AUTO_START_INFO (if enabled then 1 else 0))).

Definition set_service_sid_type (service : Handle) (sid_type : N) : M Disk (result unit IoError) :=
  windows (ChangeServiceConfig2W service (SERVICE_SID_INFO sid_type)).

Definition set_required_privileges (service : Handle) (privileges : list string) : M Disk (result unit IoError) :=
  let? _ := ret (validate_strings privileges) in
  windows (ChangeServiceConfig2W service (SERVICE_REQUIRED_PRIVILEGES_INFO privileges)).

Definition set_preshutdown_timeout_ms (service : Handle) (timeout_ms : N) : M Disk (result unit IoError) :=
  windows (ChangeServiceConfig2W service (SERVICE_PRESHUTDOWN_INFO timeout_ms)).

Definition clear_triggers (service : Handle) : M Disk (result unit IoError) :=
  windows (ChangeServiceConfig2W service SERVICE_TRIGGER_INFO).

Definition set_object_security (service : Handle) (descriptor : SelfRelativeSecurityDescriptor) : M Disk (result unit IoError) :=
  let? protected := ret (dacl_protected descriptor) in
  let protection := if protected then PROTECTED_DACL_SECURITY_INFORMATION else UNPROTECTED_DACL_SECURITY_INFORMATION in
  windows (SetServiceObjectSecurity service
    (union [OWNER_SECURITY_INFORMATION; GROUP_SECURITY_INFORMATION; DACL_SECURITY_INFORMATION; protection]) (descriptor_bytes descriptor)).
End Configuration.
