(* ===== verification/AppInit.v ===== *)
(** * The AppInit_DLLs conflict

    [service-runtime/contract/src/appinit.rs]: whether the [AppInit_DLLs] value of the
    registry, a list of UTF-16 units with its terminating zero, loads a MacType module
    into every process.  A text is the list of its scalar values. *)

From S2P Require Export Profile.

(** [char::is_whitespace]: the characters with the Unicode property White_Space. *)
Definition is_whitespace (c : N) : bool :=
  ((9 <=? c) && (c <=? 13) || (c =? 0x20) || (c =? 0x85) || (c =? 0xA0) || (c =? 0x1680)
   || (0x2000 <=? c) && (c <=? 0x200A) || (c =? 0x2028) || (c =? 0x2029) || (c =? 0x202F)
   || (c =? 0x205F) || (c =? 0x3000))%N.

Definition char (a : ascii) : N := N_of_ascii a.
Definition chars (s : string) : list N := map char (str_bytes s).

Definition char_lowercase (c : N) : N :=
  if ((char "A" <=? c) && (c <=? char "Z"))%N then (c + 32)%N else c.

Definition is_token_separator (c : N) : bool :=
  is_whitespace c || (c =? char ",")%N || (c =? char ";")%N || (c =? 34)%N || (c =? char "'")%N.

Definition is_slash (c : N) : bool := (c =? char "\")%N || (c =? char "/")%N.

Definition has_prefix (p l : list N) : bool := bool_decide (p `prefix_of` l).
Definition has_suffix (p l : list N) : bool := bool_decide (p `suffix_of` l).

Definition is_mactype_module (basename : list N) : bool :=
  let basename := map char_lowercase basename in
  has_prefix (chars "mactype") basename && has_suffix (chars ".dll") basename.

Definition decoded_conflict (decoded : list N) : bool :=
  existsb (λ token,
    match last (split_on is_slash token) with
    | Some basename => is_mactype_module basename
    | None => false
    end)
    (list_retain (λ token, negb (bool_decide (token = []))) (split_on is_token_separator decoded)).

(** [value.split_last()] with a last unit of zero *)
Definition without_terminator (value : list N) : option (list N) :=
  match last value with
  | Some 0%N => Some (removelast value)
  | Some _ | None => None
  end.

Definition appinit_mactype_conflict (enabled : bool) (value : option (list N)) : result bool unit :=
  if negb enabled then Ok false
  else
    match value with
    | None => Ok false
    | Some value =>
        match without_terminator value with
        | None => Err tt
        | Some content =>
            if existsb (λ u, (u =? 0)%N) content then Err tt
            else
              match from_utf16 content with
              | None => Err tt
              | Some decoded => Ok (decoded_conflict decoded)
              end
        end
    end.

(** ** What counts as a conflict *)

(** The text names a file [base] whose name starts with "mactype" and ends in ".dll",
    in any case: what stands before it is the start of the text, a separator or a
    slash, what stands after it the end or a separator. *)
Definition names_module (text : list N) : Prop :=
  ∃ before base after, text = before ++ base ++ after ∧
    delimited (λ c, is_token_separator c || is_slash c) before base [] ∧
    (∀ c, head after = Some c → is_token_separator c = true) ∧
    ∃ middle, map char_lowercase base = chars "mactype" ++ middle ++ chars ".dll".

Lemma is_mactype_module_spec base :
  is_mactype_module base = true ↔
  ∃ middle, map char_lowercase base = chars "mactype" ++ middle ++ chars ".dll".
Proof.
  unfold is_mactype_module, has_prefix, has_suffix. rewrite andb_true_iff, !bool_decide_eq_true.
  set (l := map char_lowercase base). clearbody l. split.
  - intros [[k ->] [k' Hk]]. destruct (app_eq_inv _ _ _ _ Hk) as [(m & Hm & Hd)|(m & -> & ->)];
      [|by exists m].
    destruct m as [|x m].
    + exists []. simpl in Hd. by subst k.
    + assert (x ∈ chars "mactype") as Hin by (rewrite Hm; set_solver).
      change (chars ".dll") with (char "." :: chars "dll") in Hd. injection Hd as <- _.
      assert (Forall (λ c, c ≠ char ".") (chars "mactype")) as Hno
        by (repeat constructor; vm_compute; discriminate).
      rewrite Forall_forall in Hno. by destruct (Hno _ Hin).
  - intros [m ->]. split; [by eexists|]. by exists (chars "mactype" ++ m); rewrite <- app_assoc.
Qed.

Lemma free_or (text : list N) :
  forallb (negb ∘ (λ c, is_token_separator c || is_slash c)) text = true ↔
  forallb (negb ∘ is_token_separator) text = true ∧ forallb (negb ∘ is_slash) text = true.
Proof.
  induction text as [|c text IH]; [done|]. cbn [forallb]. rewrite !andb_true_iff, IH.
  unfold compose. rewrite negb_orb, andb_true_iff. naive_solver.
Qed.

Lemma decoded_conflict_spec text : decoded_conflict text = true ↔ names_module text.
Proof.
  unfold decoded_conflict. rewrite existsb_exists. split.
  - intros (token & Hin & Hm). apply list_elem_of_In, list_retain_elem in Hin as [_ Hin].
    apply split_on_elem in Hin as (before & after & -> & [Hfree Hstart Hend]).
    destruct (split_on_last is_slash token) as (base & pre & Hl & -> & [Hbase Hpre _]).
    rewrite Hl in Hm. apply is_mactype_module_spec in Hm.
    rewrite forallb_app in Hfree. apply andb_prop in Hfree as [_ Hfree].
    exists (before ++ pre), base, after. rewrite <- !app_assoc. split; [done|]. split; [|done].
    split; [by apply free_or| |done].
    intros c Hc. rewrite last_app in Hc. apply orb_true_iff.
    destruct (last pre) as [d|] eqn:E; [simplify_eq; auto|auto].
  - intros (before & base & after & -> & [Hbase Hstart _] & Hend & Hm).
    apply free_or in Hbase as [Htok Hslash].
    destruct (split_on_last is_token_separator before) as (pre & front & Hl & -> & [Hpre Hfront _]).
    exists (pre ++ base). split.
    + apply list_elem_of_In, list_retain_elem. split.
      * apply negb_true_iff, bool_decide_eq_false. intros Hnil%app_eq_nil. destruct Hnil as [-> ->].
        by destruct Hm.
      * apply split_on_elem. exists front, after. rewrite <- !app_assoc. split; [done|].
        split; [by rewrite forallb_app, Hpre|done|done].
    + rewrite (split_on_last_eq is_slash pre base).
      * by apply is_mactype_module_spec.
      * split; [done| |done]. intros c Hc. specialize (Hstart c).
        rewrite last_app, Hc in Hstart. specialize (Hstart eq_refl).
        rewrite (free_not_separator _ _ c Hpre) in Hstart; [done|]. by apply last_Some_elem_of.
Qed.

Lemma without_terminator_spec value content :
  without_terminator value = Some content ↔ value = content ++ [0%N].
Proof.
  unfold without_terminator. destruct value as [|u value _] using rev_ind; simpl.
  - split; [done|]. by destruct content.
  - rewrite last_snoc, removelast_last. split.
    + destruct u; [|done]. by intros [= ->].
    + intros H. apply app_inj_tail in H as [-> ->]. done.
Qed.

Lemma no_zero_unit content : existsb (λ u, (u =? 0)%N) content = false ↔ 0%N ∉ content.
Proof.
  rewrite <- not_true_iff_false, existsb_exists. split.
  - intros Hn Hin. apply Hn. exists 0%N. split; [by apply list_elem_of_In|done].
  - intros Hn (u & Hin & ->%N.eqb_eq). by apply Hn, list_elem_of_In.
Qed.

(** The service refuses to share the machine with a MacType that is loaded through
    AppInit, and never guesses: a disabled or absent value is no conflict; an enabled
    one is an error exactly when it is not UTF-16 text with one zero, at its end; and
    otherwise a conflict exactly when the text names a module "mactype*.dll", in any
    case, alone or at the end of a path, among entries separated by white space,
    commas, semicolons or quotes. *)
Theorem appinit_conflict_exact enabled value :
  match appinit_mactype_conflict enabled value with
  | Ok b =>
      (enabled = false ∨ value = None) ∧ b = false ∨
      ∃ content text, enabled = true ∧ value = Some (content ++ [0%N]) ∧ 0%N ∉ content ∧
        from_utf16 content = Some text ∧ (b = true ↔ names_module text)
  | Err _ =>
      enabled = true ∧ ∃ v, value = Some v ∧
        ∀ content, v = content ++ [0%N] → 0%N ∈ content ∨ from_utf16 content = None
  end.
Proof.
  unfold appinit_mactype_conflict. destruct enabled, value as [v|]; cbn [negb]; auto.
  destruct (without_terminator v) as [content|] eqn:Et.
  - apply without_terminator_spec in Et as ->.
    assert (∀ c, content ++ [0%N] = c ++ [0%N] → content = c) as Huniq.
    { intros c H. by apply app_inj_tail in H as [-> _]. }
    destruct (existsb _ content) eqn:Ez.
    + split; [done|]. eexists. split; [done|]. intros c ->%Huniq. left.
      destruct (decide (0%N ∈ c)) as [|Hn]; [done|]. apply no_zero_unit in Hn. congruence.
    + apply no_zero_unit in Ez. destruct (from_utf16 content) as [text|] eqn:Eu.
      * right. exists content, text. by rewrite decoded_conflict_spec.
      * split; [done|]. eexists. split; [done|]. intros c <-%Huniq. by right.
  - split; [done|]. exists v. split; [done|]. intros c Hc.
    by rewrite (proj2 (without_terminator_spec v c) Hc) in Et.
Qed.

(** The value [C:\MacType\MacType64.dll, other.dll] is a conflict, a directory of the
    name is not. *)
Example conflicting_value :
  appinit_mactype_conflict true (Some (chars "C:\MacType\MacType64.dll, other.dll" ++ [0%N])) = Ok true ∧
  appinit_mactype_conflict true (Some (chars "C:\mactype.dll\other.dll" ++ [0%N])) = Ok false ∧
  appinit_mactype_conflict true (Some (chars "mactype.dll")) = Err tt.
Proof. by vm_compute. Qed.
