(* ===== verification/ProfileStore.v ===== *)
(** * The store of machine profiles

    [service-runtime/setup/src/profile_store.rs], [profile_store/generation.rs],
    [profile_store/journal.rs] and [profile_store/pointer.rs]: publishing a profile as a
    generation, the journaled switch between generations and its rollback, and the
    recovery of a switch that was interrupted.  The hooks of the test adapter do
    nothing in the program, so they do not appear. *)

From stdpp Require Import pretty.
From S2P Require Export GenerationStore AppInit.

Definition LEGACY_PROFILE_ACTIVATION_SCHEMA : N := 1.
Definition PROFILE_ACTIVATION_SCHEMA : N := 2.
Definition MAX_PROFILE_JOURNAL_BYTES : N := 16 * 1024.

Inductive ProfileActivationPhase :=
| PointerTransition | FirstRollbackDeletePending | FirstRollbackDeleteConfirmed.

#[export] Instance ProfileActivationPhase_eq_dec : EqDecision ProfileActivationPhase.
Proof. solve_decision. Defined.

Record ProfileActivationJournal := {
  journal_schema : N;
  journal_phase : ProfileActivationPhase;
  active_before : option GenerationPointer;
  previous_before : option GenerationPointer
}.

Record LegacyProfileActivationJournal := {
  legacy_journal_schema : N;
  legacy_active_before : option GenerationPointer;
  legacy_previous_before : option GenerationPointer
}.

(** What serde_json makes of the journal and of the stored metadata.  A pointer inside
    a journal is deserialized like a pointer of its own, so it is canonical. *)
Class ProfileStoreJson := {
  JournalValue : Type;
  journal_value_from_slice : list ascii → option JournalValue;
  journal_value_schema : JournalValue → option N;
  journal_from_value : JournalValue → option ProfileActivationJournal;
  legacy_journal_from_value : JournalValue → option LegacyProfileActivationJournal;
  journal_to_vec : ProfileActivationJournal → result (list ascii) string;
  metadata_to_vec : SourceMetadata → result (list ascii) string
}.

(** The characters of a UTF-8 text. *)
Fixpoint utf8_decode (l : list ascii) : list N :=
  match l with
  | [] => []
  | b :: l' =>
      let b := N_of_ascii b in
      let tail c := (N_of_ascii c mod 64)%N in
      if (b <? 0x80)%N then b :: utf8_decode l'
      else match l' with
           | c1 :: l1 =>
               if (b <? 0xE0)%N then (b mod 32 * 64 + tail c1)%N :: utf8_decode l1
               else match l1 with
                    | c2 :: l2 =>
                        if (b <? 0xF0)%N
                        then ((b mod 16 * 64 + tail c1) * 64 + tail c2)%N :: utf8_decode l2
                        else match l2 with
                             | c3 :: l3 =>
                                 (((b mod 8 * 64 + tail c1) * 64 + tail c2) * 64 + tail c3)%N
                                   :: utf8_decode l3
                             | [] => []
                             end
                    | [] => []
                    end
           | [] => []
           end
  end.

(** [text.trim().is_empty()] *)
Definition is_blank (text : string) : bool := forallb is_whitespace (utf8_decode (str_bytes text)).

(** [parse_activation_journal] *)
Definition parse_activation_journal `{ProfileStoreJson} (bytes : list ascii)
    : result ProfileActivationJournal SetupError :=
  let invalid := Runtime "profile activation journal is invalid" in
  let unsupported := Runtime "profile activation journal has an unsupported schema" in
  let-? value := ok_or (journal_value_from_slice bytes) invalid in
  let-? schema := ok_or (journal_value_schema value) invalid in
  if (schema =? PROFILE_ACTIVATION_SCHEMA)%N then ok_or (journal_from_value value) invalid
  else if (schema =? LEGACY_PROFILE_ACTIVATION_SCHEMA)%N then
    let-? legacy := ok_or (legacy_journal_from_value value) invalid in
    if negb (legacy_journal_schema legacy =? LEGACY_PROFILE_ACTIVATION_SCHEMA)%N then Err unsupported
    else Ok {| journal_schema := PROFILE_ACTIVATION_SCHEMA; journal_phase := PointerTransition;
               active_before := legacy_active_before legacy;
               previous_before := legacy_previous_before legacy |}
  else Err unsupported.

Section ProfileStore.
Context `{World, Sha256, ActivationJson, PointerJson, ProfileStoreJson} (paths : MachinePaths).

(** ** [profile_store/pointer.rs] *)

Definition read_optional_pointer (p : Path) : M Disk (result (option GenerationPointer) SetupError) :=
  let! present := path_exists p in
  if negb present then ret (Ok None)
  else
    let? bytes := read_bounded_regular_file p MAX_PROFILE_POINTER_BYTES "profile pointer" in
    let? pointer := ret (ok_or (generation_pointer_from_slice bytes) InvalidPointer) in
    ret (Ok (Some pointer)).

(** The error of an encoder; for a pointer it cannot happen. *)
Definition write_pointer (p : Path) (g : GenerationId) : M Disk (result unit SetupError) :=
  let? bytes := ret (ok_or (generation_pointer_to_vec (new_generation_pointer g)) (Manifest "")) in
  atomic_write p bytes.

Definition restore_pointer (p : Path) (pointer : option GenerationPointer)
    : M Disk (result unit SetupError) :=
  match pointer with
  | Some pointer => write_pointer p (generation pointer)
  | None =>
      let! present := path_exists p in
      if present then
        let? _ := reject_reparse_ancestors p in
        lift_io (remove_file p)
      else ret (Ok tt)
  end.

(** ** [profile_store/generation.rs] *)

Definition profile_directory (g : GenerationId) : Path :=
  path_join (profile_generations paths) (directory_name g).

Definition verify_generation (g : GenerationId) : M Disk (result unit SetupError) :=
  let? _ := reject_reparse_ancestors (profile_directory g) in
  let? bytes := with_err (λ _, TamperedGeneration)
    (read_bounded_regular_file (path_join (profile_directory g) "profile.ini") MAX_PROFILE_BYTES
       "profile generation") in
  let? calculated := ret (profile_checked (fst (publish_machine_profile bytes
    {| display_name := "verification" |} new_catalog))) in
  if bool_decide (calculated ≠ g) then ret (Err TamperedGeneration) else ret (Ok tt).

(** The loop of [remove_legacy_staging_collision]: the files it may remove. *)
Fixpoint staged_profile_files (staging : Path) (names : list string)
    : M Disk (result (list Path) SetupError) :=
  match names with
  | [] => ret (Ok [])
  | name :: names' =>
      if negb (name =? "profile.ini")%string && negb (name =? "metadata.json")%string then
        ret (Err (Runtime "profile staging collision contains an unexpected entry"))
      else
        let path := path_join staging name in
        let? _ := reject_reparse_ancestors path in
        let? len := lift_io (entry_file_len path) in
        match len with
        | Some _ =>
            let? rest := staged_profile_files staging names' in
            ret (Ok (path :: rest))
        | None => ret (Err (Runtime "profile staging collision contains a non-regular entry"))
        end
  end.

Definition remove_profile_staging_collision (root : Path) (g : GenerationId)
    : M Disk (result unit SetupError) :=
  let staging := path_join root (".staging-" ++ directory_name g ++ "-" ++ pretty process_id) in
  let! present := path_exists staging in
  if negb present then ret (Ok tt)
  else
    let? _ := reject_reparse_ancestors staging in
    let? metadata := lift_io (fs_metadata staging) in
    match metadata with
    | RegularFile _ => ret (Err (Runtime "profile staging collision is not a protected directory"))
    | DirectoryMetadata =>
        let? names := read_bounded_directory staging 2 "profile staging entry count" in
        let? files := staged_profile_files staging names in
        let? _ := remove_files files in
        let? _ := lift_io (fs_remove_dir staging) in
        ret (Ok tt)
    end.

Definition publish_generation (g : GenerationId) (bytes : list ascii) (metadata : SourceMetadata)
    : M Disk (result unit SetupError) :=
  let root := profile_generations paths in
  let destination := profile_directory g in
  let? _ := create_protected_directory root in
  let? _ := remove_profile_staging_collision root g in
  let! present := path_exists destination in
  if present then
    let? _ := verify_generation g in
    let? actual := read_bounded_regular_file (path_join destination "profile.ini") MAX_PROFILE_BYTES
                     "profile generation" in
    if bool_decide (actual ≠ bytes) then ret (Err TamperedGeneration) else ret (Ok tt)
  else
    let! nonce := temporary_nonce in
    let staging := path_join root (".staging-" ++ directory_name g ++ "-" ++ nonce) in
    let! collides := path_exists staging in
    if collides then ret (Err (Runtime "profile staging directory already exists"))
    else
      let? _ := create_protected_directory staging in
      let! result :=
        (let? _ := write_synced (path_join staging "profile.ini") bytes in
         let? encoded := ret (map_err Manifest (metadata_to_vec metadata)) in
         let? _ := write_synced (path_join staging "metadata.json") encoded in
         let? _ := lift_io (fs_rename_directory staging destination) in
         verify_generation g) in
      match result with
      | Ok _ => ret (Ok tt)
      | Err error =>
          let! left_over := path_exists staging in
          if left_over then
            let! _ := fs_remove_dir_all staging in
            ret (Err error)
          else ret (Err error)
      end.

(** ** [profile_store/journal.rs] *)

Definition profile_journal_path : Path := profile_activation_journal paths.

Definition write_profile_journal (phase : ProfileActivationPhase)
    (active_before previous_before : option GenerationPointer) : M Disk (result unit SetupError) :=
  let? bytes := ret (map_err Manifest (journal_to_vec
    {| journal_schema := PROFILE_ACTIVATION_SCHEMA; journal_phase := phase;
       active_before := active_before; previous_before := previous_before |})) in
  atomic_write profile_journal_path bytes.

Definition remove_profile_journal : M Disk (result unit SetupError) :=
  let! present := path_exists profile_journal_path in
  if present then
    let? _ := reject_reparse_ancestors profile_journal_path in
    lift_io (remove_file profile_journal_path)
  else ret (Ok tt).

(** [if let Some(pointer) = &pointer { self.verify_generation(pointer.generation())?; }] *)
Definition verify_optional (pointer : option GenerationPointer) : M Disk (result unit SetupError) :=
  match pointer with
  | Some pointer => verify_generation (generation pointer)
  | None => ret (Ok tt)
  end.

(** The arm of a first rollback whose deletion may or may not have happened. *)
Definition recover_uncertain_deletion (journal : ProfileActivationJournal)
    : M Disk (result bool SetupError) :=
  match active_before journal with
  | None => ret (Err (CleanupUnknown
      "uncertain first-profile rollback journal has no active generation"))
  | Some before =>
      let? active_now := read_optional_pointer (active_profile paths) in
      let? previous_now := read_optional_pointer (previous_profile paths) in
      if bool_decide (active_now ≠ Some before) || bool_decide (previous_now ≠ previous_before journal)
      then ret (Err (CleanupUnknown
        "profile pointers changed while first-profile deletion was uncertain"))
      else
        let? observation := observe_materialized_generation paths (generation before) in
        let? _ :=
          match observation with
          | ExactGeneration => ret (Ok tt)
          | MaterializedAbsent =>
              let? _ := restore_generation_after_confirmed_clear paths (generation before) in
              ret (Ok tt)
          end in
        let? _ := remove_profile_journal in
        ret (Ok true)
  end.

(** The arm of a transition between pointers, before they are restored. *)
Definition undo_materialization (journal : ProfileActivationJournal) : M Disk (result unit SetupError) :=
  let? active_after := read_optional_pointer (active_profile paths) in
  let? _ := verify_optional active_after in
  match active_before journal with
  | Some _ => ret (Ok tt)
  | None =>
      match active_after with
      | Some active_after =>
          let! cleared := clear_materialized_generation paths (generation active_after) in
          ret (let-? _ := map_err into_setup_error cleared in Ok tt)
      | None => ensure_materialized_profile_absent paths
      end
  end.

Definition restore_both_pointers (journal : ProfileActivationJournal) : M Disk (result bool SetupError) :=
  let? _ := restore_pointer (active_profile paths) (active_before journal) in
  let? _ := restore_pointer (previous_profile paths) (previous_before journal) in
  let? _ :=
    match active_before journal with
    | Some before =>
        let? _ :=
          (if bool_decide (journal_phase journal = FirstRollbackDeleteConfirmed)
           then restore_generation_after_confirmed_clear paths (generation before)
           else materialize_generation paths (generation before)) in
        ret (Ok tt)
    | None => ret (Ok tt)
    end in
  let? _ := remove_profile_journal in
  ret (Ok true).

Definition recover_interrupted_activation : M Disk (result bool SetupError) :=
  let! present := path_exists profile_journal_path in
  if negb present then ret (Ok false)
  else
    let? bytes := read_bounded_regular_file profile_journal_path MAX_PROFILE_JOURNAL_BYTES
                    "profile activation journal" in
    let? journal := ret (parse_activation_journal bytes) in
    let? _ := verify_optional (active_before journal) in
    let? _ := verify_optional (previous_before journal) in
    match journal_phase journal with
    | FirstRollbackDeletePending => recover_uncertain_deletion journal
    | PointerTransition =>
        let? _ := undo_materialization journal in
        restore_both_pointers journal
    | FirstRollbackDeleteConfirmed => restore_both_pointers journal
    end.

Definition finish_activation_transaction (transition : result unit SetupError)
    : M Disk (result unit SetupError) :=
  match transition with
  | Ok _ => remove_profile_journal
  | Err error =>
      let! recovered := recover_interrupted_activation in
      match recovered with
      | Ok _ => ret (Err error)
      | Err recovery_error =>
          ret (Err (Runtime ("profile transition failed (" ++ display error ++
                             ") and journal recovery failed (" ++ display recovery_error ++ ")")))
      end
  end.

(** ** [profile_store.rs] *)

(** From the recorded to the new active generation. *)
Definition switch_generation (active : option GenerationPointer) (g : GenerationId)
    : M Disk (result unit SetupError) :=
  let? _ :=
    match active with
    | Some active =>
        let? _ := verify_generation (generation active) in
        write_pointer (previous_profile paths) (generation active)
    | None => ret (Ok tt)
    end in
  let? _ := write_pointer (active_profile paths) g in
  let? _ := materialize_generation paths g in
  ret (Ok tt).

Definition store_activate (g : GenerationId) : M Disk (result unit SetupError) :=
  let? _ := recover_interrupted_activation in
  let? _ := verify_generation g in
  let? active := read_optional_pointer (active_profile paths) in
  if bool_decide (generation <$> active = Some g) then
    let? _ := materialize_generation paths g in
    ret (Ok tt)
  else
    let? previous := read_optional_pointer (previous_profile paths) in
    let? _ := write_profile_journal PointerTransition active previous in
    let! transition := switch_generation active g in
    finish_activation_transaction transition.

Definition publish_and_activate (bytes : list ascii) (metadata : SourceMetadata)
    : M Disk (result GenerationId SetupError) :=
  let? _ := recover_interrupted_activation in
  if is_blank (display_name metadata) || (256 <? str_len (display_name metadata))%N
  then ret (Err InvalidMetadata)
  else
    let? g := ret (profile_checked (fst (publish_machine_profile bytes metadata new_catalog))) in
    let? _ := publish_generation g bytes metadata in
    let? _ := store_activate g in
    ret (Ok g).

(** The deletion of the copy of the profile in a first rollback; it answers whether the
    rollback goes on, or the error it ends with. *)
Definition confirm_first_rollback (active : GenerationPointer) : M Disk (result unit SetupError) :=
  let! cleared := clear_materialized_generation paths (generation active) in
  match cleared with
  | Err (ClearUnchanged error) =>
      let? _ := with_err (λ journal_error, CleanupUnknown
        ("profile was unchanged after cleanup rejection (" ++ display error ++
         "), but the activation journal could not be removed (" ++ display journal_error ++ ")"))
        remove_profile_journal in
      ret (Err error)
  | Err (ClearUnknown error) => ret (Err error)
  | Ok _ =>
      let? _ := ensure_materialized_profile_absent paths in
      with_err (unknown
        "generated profile was deleted, but its confirmed rollback phase could not be persisted: ")
        (write_profile_journal FirstRollbackDeleteConfirmed (Some active) None)
  end.

Definition switch_back (active : GenerationPointer) (previous : option GenerationPointer)
    : M Disk (result unit SetupError) :=
  match previous with
  | Some previous =>
      let? _ := write_pointer (previous_profile paths) (generation active) in
      let? _ := write_pointer (active_profile paths) (generation previous) in
      let? _ := materialize_generation paths (generation previous) in
      ret (Ok tt)
  | None =>
      let? _ := restore_pointer (active_profile paths) None in
      restore_pointer (previous_profile paths) None
  end.

Definition store_rollback : M Disk (result (option GenerationId) SetupError) :=
  let? _ := recover_interrupted_activation in
  let? active := read_optional_pointer (active_profile paths) in
  let? active := ret (ok_or active InvalidPointer) in
  let? previous := read_optional_pointer (previous_profile paths) in
  let? _ := verify_generation (generation active) in
  let? _ := verify_optional previous in
  let? _ := write_profile_journal
    match previous with None => FirstRollbackDeletePending | Some _ => PointerTransition end
    (Some active) previous in
  let? _ := match previous with None => confirm_first_rollback active | Some _ => ret (Ok tt) end in
  let! transition := switch_back active previous in
  let? _ := finish_activation_transaction transition in
  ret (Ok (generation <$> previous)).

Definition active_generation : M Disk (result (option GenerationId) SetupError) :=
  let? _ := recover_interrupted_activation in
  let? pointer := read_optional_pointer (active_profile paths) in
  let? _ := verify_optional pointer in
  ret (Ok (generation <$> pointer)).

Definition inspect_active_generation_stable : M Disk (result (option GenerationId) SetupError) :=
  let pending := Runtime "a profile transaction is pending" in
  let! before := path_exists profile_journal_path in
  if before then
    let? _ := reject_reparse_ancestors profile_journal_path in
    ret (Err pending)
  else
    let? pointer := read_optional_pointer (active_profile paths) in
    let! after := path_exists profile_journal_path in
    if after then ret (Err pending)
    else
      let? _ := verify_optional pointer in
      ret (Ok (generation <$> pointer)).

Definition synchronize_active_runtime : M Disk (result GenerationId SetupError) :=
  let? found := active_generation in
  let? g := ret (ok_or found (Runtime "no active machine profile exists")) in
  let? materialized := materialize_generation paths g in
  if negb materialized then ret (Err (Runtime "no active protected runtime is installed"))
  else ret (Ok g).
End ProfileStore.
