(* ===== verification/ProfileStoreFrames.v ===== *)
(** * What the profile store leaves alone

    The operations of [ProfileStore] and of the profile bridge on anything but the files of
    the store itself: whatever is outside of the generations of profiles and is not the
    copy of a profile next to a runtime stays as it is, in every state on the way. *)

From stdpp Require Import pretty.
From S2P Require Export Staging ProfileStore.

Section Outside.
Context `{World, Sha256, ActivationJson, PointerJson, ProfileStoreJson} {paths : MachinePaths}.

Lemma verify_generation_spec Q g d :
  spec Q (verify_generation paths g) (λ r d', nodes d' = nodes d ∧
    (r = Ok tt → canonical_digest g = true ∧
       ∃ bytes, vouches g bytes ∧ readable (nodes d) (generation_profile paths g) = Ok bytes)) d.
Proof.
  unfold verify_generation. try_then reject_reparse_quiet; [|quiet_error]. intros [] d1 _ Hn1. cbv beta in Hn1.
  eapply spec_try; [apply (spec_map_err Q (λ _, TamperedGeneration) _ (λ d', nodes d' = nodes d1)
    (λ bytes _, (0 < bytes_len bytes <= MAX_PROFILE_BYTES)%N ∧
       readable (nodes d1) (generation_profile paths g) = Ok bytes)), read_bounded_quiet|cbv beta|quiet_error].
  intros bytes d2 _ [Hn2 Hread]. destruct (Hread _ eq_refl) as [Hlen Hb]. rewrite Hn1 in Hb.
  apply spec_try_ret; [|quiet_error]. intros g' Hg'. unfold profile_checked, publish_machine_profile in Hg'.
  destruct (validate_profile bytes) as [[]|] eqn:Evalid; [|done]. apply (inj Ok) in Hg'. cbn [fst] in Hg'.
  case_bool_decide as Hne; apply spec_ret; (split; [congruence|]); [done|]. intros _.
  assert (g' = g) as -> by (destruct (decide (g' = g)) as [|Hc]; [done|by destruct Hne]). split.
  - rewrite <- Hg'. apply digest_canonical.
  - exists bytes. by split.
Qed.

Lemma verify_optional_quiet Q o d : spec Q (verify_optional paths o) (λ _ d', nodes d' = nodes d) d.
Proof.
  destruct o; cbn [verify_optional]; [|by apply spec_ret].
  eapply spec_post; [apply verify_generation_spec|]. by intros r d' _ [? _].
Qed.

(** The runtime next to which a copy lies, when there is one. *)
Definition of_a_runtime (root : option Path) : Prop :=
  ∀ r, root = Some r → ∃ v, path_join r GENERATED_PROFILE_NAME = generated paths v.

Lemma active_runtime_root_quiet Q d :
  spec Q (active_runtime_root paths) (λ r d', nodes d' = nodes d ∧ ∀ root, r = Ok root → of_a_runtime root) d.
Proof.
  eapply spec_post; [apply active_runtime_root_spec|]. intros r d' _ (Hn & Hroot & _). split; [done|].
  intros root Hr p ->. destruct (Hroot p Hr) as (v & -> & _). by exists v.
Qed.

Lemma verified_bytes_quiet Q g d :
  spec Q (verified_generation_bytes paths g) (λ r d', nodes d' = nodes d ∧ ∀ b, r = Ok b → True) d.
Proof. eapply spec_post; [apply verified_generation_spec|]. by intros r d' _ [? _]. Qed.

Lemma leaves_or_unchanged {T : Type} (Q : Path → Prop) (m : M Disk (result T SetupError)) :
  leaves Q m → leaves Q (or_unchanged m).
Proof. intros. apply leaves_bind; [done|]. intros. apply leaves_ret. Qed.

Lemma leaves_inspecting {T : Type} (Q : Path → Prop) (m : M Disk (result T IoError)) :
  leaves Q m → leaves Q (inspecting m).
Proof. intros. apply leaves_bind; [done|]. intros. apply leaves_ret. Qed.

Lemma leaves_entry_file_len (Q : Path → Prop) p : leaves Q (entry_file_len p).
Proof. unfold entry_file_len, fs_symlink_metadata. frame. Qed.

Lemma or_unchanged_quiet {T : Type} Q (m : M Disk (result T SetupError)) (G : T → Prop) d :
  spec Q m (λ r d', nodes d' = nodes d ∧ ∀ a, r = Ok a → G a) d →
  spec Q (or_unchanged m) (λ r d', nodes d' = nodes d ∧ ∀ a, r = Ok a → G a) d.
Proof.
  intros Hm. unfold or_unchanged. eapply spec_bind; [exact Hm|]. intros r d' _ [Hn HG]. apply spec_ret.
  split; [done|]. intros a Ha. apply HG. destruct r; [|done]. by apply (inj Ok) in Ha as ->.
Qed.


Lemma leaves_verify (Q : Path → Prop) g : leaves Q (verify_generation paths g).
Proof. apply leaves_quiet. intros R d. eapply spec_post; [apply verify_generation_spec|]. by intros r d' _ [? _]. Qed.

Lemma leaves_verify_optional (Q : Path → Prop) o : leaves Q (verify_optional paths o).
Proof. apply leaves_quiet. intros R d. apply verify_optional_quiet. Qed.

Lemma leaves_read_pointer (Q : Path → Prop) q : leaves Q (read_optional_pointer q).
Proof. unfold read_optional_pointer. frame. Qed.

Lemma leaves_verified_bytes (R : Path → Prop) g : leaves R (verified_generation_bytes paths g).
Proof. apply leaves_quiet. intros R' d. eapply spec_post; [apply verified_generation_spec|]. by intros r d' _ [? _]. Qed.

Lemma compare_leaves (R : Path → Prop) context text p expected : leaves R (compare_destination context text p expected).
Proof. unfold compare_destination. frame. Qed.

Lemma staged_profile_files_spec Q staging names d :
  spec Q (staged_profile_files staging names) (λ r d', nodes d' = nodes d ∧
    ∀ qs, r = Ok qs → ∀ q, q ∈ qs → staging `prefix_of` q) d.
Proof.
  revert d. induction names as [|name names IH]; intros d; cbn [staged_profile_files].
  { apply spec_ret. split; [done|]. intros qs <-%(inj Ok) q Hq. set_solver. }
  destruct (_ && _); [apply spec_ret; quiet_error|]. cbv zeta.
  try_then reject_reparse_quiet; [|quiet_error]. intros [] d1 _ Hn1. cbv beta in Hn1.
  try_then entry_file_len_spec; [|quiet_error]. intros [len|] d2 _ [Hn2 _]; [|apply spec_ret; quiet_error].
  try_then IH; [|quiet_error]. intros rest d3 _ [Hn3 Hrest]. apply spec_ret. split; [congruence|].
  intros qs <-%(inj Ok) q [->|Hq]%elem_of_cons; [by eexists|]. by apply (Hrest _ eq_refl).
Qed.

Lemma leaves_write_synced (Q : Path → Prop) q bytes : ¬ Q q → leaves Q (write_synced q bytes).
Proof.
  intros HQ. unfold write_synced. apply leaves_try; [by apply leaves_lift, leaves_create_new|]. intros _.
  apply leaves_try; [by apply leaves_lift, leaves_write_all|]. intros _.
  apply leaves_try; [apply leaves_lift, leaves_read|]. intros; apply leaves_ret.
Qed.

(** Neither hidden, nor above a copy of a profile, nor in or above the generations. *)
Definition outside (q : Path) : Prop :=
  hidden q = false ∧ (∀ v, ¬ q `prefix_of` generated paths v) ∧
  ∀ t, ¬ profile_generations paths `prefix_of` q ∧ ¬ q `prefix_of` profile_generations paths ++ t.

Context (Q : Path → Prop) (HQ : ∀ q, Q q → outside q).

Lemma materialize_outside g : leaves Q (materialize_generation paths g).
Proof.
  intros d. eapply spec_mono; [apply materialize_spec| |].
  - intros n [Hn _] q Hq. apply Hn; [by apply HQ|]. by apply HQ.
  - intros r d' _ [[Hn _] _] q Hq. apply Hn; [by apply HQ|]. by apply HQ.
Qed.

Lemma not_outside_generated r v : path_join r GENERATED_PROFILE_NAME = generated paths v →
  ¬ Q (path_join r GENERATED_PROFILE_NAME).
Proof. intros -> Hs. by apply HQ in Hs as (_ & Hs & _); apply (Hs v). Qed.

Lemma clear_outside g : leaves Q (clear_materialized_generation paths g).
Proof.
  unfold clear_materialized_generation. eapply leaves_quiet_try.
  { intros R d. apply or_unchanged_quiet, active_runtime_root_quiet. }
  intros [root|] Hroot; [|apply leaves_ret]. destruct (Hroot root eq_refl) as [v Hv].
  pose proof (not_outside_generated root v Hv) as Hnot. cbv zeta.
  apply leaves_bind; [apply leaves_read|]. intros [node|error]; [|destruct (not_found error); apply leaves_ret].
  apply leaves_try; [apply leaves_or_unchanged, leaves_reject|]. intros _.
  apply leaves_try; [apply leaves_or_unchanged, leaves_verified_bytes|]. intros expected.
  apply leaves_try; [|intros; apply leaves_ret]. unfold remove_exact_materialized_profile, open_link_itself.
  apply leaves_try; [apply leaves_or_unchanged, leaves_inspecting, leaves_retry, leaves_read|]. intros _.
  apply leaves_try; [apply leaves_or_unchanged, leaves_inspecting, leaves_read|]. intros [bytes| |target];
    [| |apply leaves_ret]; (apply leaves_try; [apply leaves_or_unchanged|intros actual;
      destruct (bool_decide _); [apply leaves_ret|]; apply leaves_bind; [by apply leaves_remove_file|intros; apply leaves_ret]]).
  all: unfold read_materialized_profile; apply leaves_try; [apply leaves_inspecting, leaves_entry_file_len|].
  all: intros [len|]; cbv zeta; [|apply leaves_ret]; destruct (_ || _); [apply leaves_ret|].
  all: apply leaves_try; [apply leaves_inspecting, leaves_read|]; intros b; destruct (_ || _); apply leaves_ret.
Qed.

Lemma ensure_absent_outside : leaves Q (ensure_materialized_profile_absent paths).
Proof.
  unfold ensure_materialized_profile_absent. apply leaves_try.
  { apply leaves_quiet. intros R d. eapply spec_post; [apply active_runtime_root_quiet|]. by intros r d' _ [? _]. }
  intros [root|]; [|apply leaves_ret]. apply leaves_bind; [apply leaves_read|].
  intros [node|error]; [|destruct (not_found error)]; apply leaves_ret.
Qed.

Lemma observe_outside g : leaves Q (observe_materialized_generation paths g).
Proof.
  unfold observe_materialized_generation. apply leaves_try.
  { apply leaves_quiet. intros R d. eapply spec_post; [apply active_runtime_root_quiet|]. by intros r d' _ [? _]. }
  intros [root|]; [|apply leaves_ret]. apply leaves_try; [apply leaves_verified_bytes|]. intros expected. cbv zeta.
  apply leaves_bind; [apply leaves_read|]. intros [[bytes| |target]|error]; try apply leaves_ret.
  - apply leaves_try; [apply compare_leaves|]. intros; apply leaves_ret.
  - destruct (not_found error); apply leaves_ret.
Qed.

Lemma restore_outside g : leaves Q (restore_generation_after_confirmed_clear paths g).
Proof.
  unfold restore_generation_after_confirmed_clear. eapply leaves_quiet_try; [apply active_runtime_root_quiet|].
  intros [root|] Hroot; [|apply leaves_ret]. destruct (Hroot root eq_refl) as [v Hv].
  pose proof (not_outside_generated root v Hv) as Hnot.
  apply leaves_try; [apply leaves_verified_bytes|]. intros expected. cbv zeta.
  apply leaves_bind; [apply leaves_read|]. intros [[bytes| |target]|error]; try apply leaves_ret.
  - apply leaves_try; [apply compare_leaves|]. intros; apply leaves_ret.
  - destruct (not_found error); [|apply leaves_ret].
    apply leaves_try; [apply leaves_bind; [by apply leaves_create_new|intros; apply leaves_ret]|]. intros _.
    apply leaves_try; [apply leaves_bind; [by apply leaves_write_all|intros; apply leaves_ret]|]. intros _.
    apply leaves_try; [apply leaves_bind; [apply leaves_read|intros; apply leaves_ret]|]. intros _. apply leaves_ret.
Qed.

Lemma undo_outside j : leaves Q (undo_materialization paths j).
Proof.
  unfold undo_materialization. apply leaves_try; [apply leaves_read_pointer|]. intros after.
  apply leaves_try; [apply leaves_verify_optional|]. intros _.
  destruct (active_before j); [apply leaves_ret|]. destruct after; [|apply ensure_absent_outside].
  apply leaves_bind; [apply clear_outside|]. intros; apply leaves_ret.
Qed.

Lemma generations_outside q t :
  Q q → ¬ profile_generations paths `prefix_of` q ∧ ¬ q `prefix_of` profile_generations paths ++ t.
Proof. intros Hq. by apply HQ. Qed.

Lemma in_generations_not_outside q : profile_generations paths `prefix_of` q → ¬ Q q.
Proof. intros Hp Hs. by apply (generations_outside q []) in Hs as [? _]. Qed.

Lemma generations_child name : profile_generations paths `prefix_of` path_join (profile_generations paths) name.
Proof. by eexists. Qed.

Lemma generations_grandchild name name' :
  profile_generations paths `prefix_of` path_join (path_join (profile_generations paths) name) name'.
Proof. unfold path_join. rewrite <- app_assoc. by eexists. Qed.

Lemma outside_not_ancestor q t : Q q → q ∉ ancestors (profile_generations paths ++ t).
Proof.
  intros Hs (n & _ & ->)%ancestors_elem. apply (generations_outside _ t) in Hs as [_ Hs]. apply Hs.
  exists (drop n (profile_generations paths ++ t)). by rewrite take_drop.
Qed.

Lemma outside_not_below q name : Q q → below (path_join (profile_generations paths) name) q = false.
Proof.
  intros Hs. apply bool_decide_eq_false. intros Hp. eapply in_generations_not_outside; [|exact Hs].
  etrans; [|exact Hp]. apply generations_child.
Qed.

Lemma collision_outside g : leaves Q (remove_profile_staging_collision (profile_generations paths) g).
Proof.
  unfold remove_profile_staging_collision. cbv zeta. set (staging := path_join _ _).
  assert (∀ q, staging `prefix_of` q → ¬ Q q) as Hout.
  { intros q Hq. apply in_generations_not_outside. etrans; [|exact Hq]. apply generations_child. }
  apply leaves_bind; [apply leaves_exists|]. intros [|]; cbn [negb]; [|apply leaves_ret].
  apply leaves_try; [apply leaves_reject|]. intros _.
  apply leaves_try; [apply leaves_lift, leaves_read|]. intros [len|]; [apply leaves_ret|].
  apply leaves_try; [apply leaves_bounded_directory|]. intros names.
  eapply leaves_quiet_try; [intros; apply staged_profile_files_spec|]. intros qs Hqs.
  apply leaves_try; [apply remove_files_leaves; intros q Hq; by eapply Hout, Hqs|]. intros _.
  apply leaves_try; [|intros; apply leaves_ret]. apply leaves_lift, leaves_remove_dir. by apply Hout.
Qed.

Lemma publish_generation_outside g bytes metadata : leaves Q (publish_generation paths g bytes metadata).
Proof.
  unfold publish_generation, profile_directory. cbv zeta.
  apply leaves_try; [apply leaves_protected_directory; intros q Hq;
    rewrite <- (app_nil_r (profile_generations paths)); by apply outside_not_ancestor|]. intros _.
  apply leaves_try; [apply collision_outside|]. intros _. apply leaves_bind; [apply leaves_exists|]. intros [|].
  { apply leaves_try; [apply leaves_verify|]. intros _. apply leaves_try; [apply leaves_bounded_read|]. intros actual.
    destruct (bool_decide _); apply leaves_ret. }
  apply leaves_bind; [apply leaves_nonce|]. intros nonce. apply leaves_bind; [apply leaves_exists|].
  intros [|]; [apply leaves_ret|].
  apply leaves_try; [apply leaves_protected_directory; intros q; by apply outside_not_ancestor|]. intros _.
  apply leaves_bind.
  - apply leaves_try; [apply leaves_write_synced, in_generations_not_outside, generations_grandchild|]. intros _.
    apply leaves_try; [apply leaves_ret|]. intros encoded.
    apply leaves_try; [apply leaves_write_synced, in_generations_not_outside, generations_grandchild|]. intros _.
    apply leaves_try; [|intros _; apply leaves_verify].
    apply leaves_lift, leaves_rename_directory. intros q Hq. by rewrite !outside_not_below.
  - intros [[]|e]; [apply leaves_ret|]. apply leaves_bind; [apply leaves_exists|]. intros [|]; [|apply leaves_ret].
    apply leaves_bind; [|intros; apply leaves_ret]. apply leaves_remove_dir_all. intros q Hq. by apply outside_not_below.
Qed.


(** ** The whole store, but for its own files *)

Definition store_files : list Path := [active_profile paths; previous_profile paths; profile_activation_journal paths].

Context (Hfiles : ∀ p q, p ∈ store_files → Q q → untouched p q).

Lemma leaves_store_write p bytes : p ∈ store_files → leaves Q (atomic_write p bytes).
Proof. intros Hp. apply leaves_atomic_write. intros q. by apply Hfiles. Qed.

Lemma not_store_file p : p ∈ store_files → ¬ Q p.
Proof. intros Hp Hq. by destruct (Hfiles p p Hp Hq). Qed.

Lemma leaves_write_pointer p g : p ∈ store_files → leaves Q (write_pointer p g).
Proof. intros Hp. unfold write_pointer. apply leaves_try; [apply leaves_ret|]. intros bytes. by apply leaves_store_write. Qed.

Lemma leaves_restore_pointer p o : p ∈ store_files → leaves Q (restore_pointer p o).
Proof.
  intros Hp. destruct o; cbn [restore_pointer]; [by apply leaves_write_pointer|]. pose proof (not_store_file p Hp). frame.
Qed.

Lemma store_files_elem :
  active_profile paths ∈ store_files ∧ previous_profile paths ∈ store_files ∧ profile_activation_journal paths ∈ store_files.
Proof. unfold store_files. set_solver. Qed.

Lemma active_in : active_profile paths ∈ store_files. Proof. apply store_files_elem. Qed.
Lemma previous_in : previous_profile paths ∈ store_files. Proof. apply store_files_elem. Qed.
Lemma journal_in : profile_activation_journal paths ∈ store_files. Proof. apply store_files_elem. Qed.
#[local] Hint Resolve active_in previous_in journal_in leaves_write_pointer leaves_restore_pointer leaves_store_write
  leaves_verify leaves_verify_optional leaves_read_pointer materialize_outside clear_outside ensure_absent_outside
  observe_outside restore_outside undo_outside publish_generation_outside : frame.

Lemma leaves_write_profile_journal phase a p : leaves Q (write_profile_journal paths phase a p).
Proof. unfold write_profile_journal, profile_journal_path. frame. Qed.

Lemma leaves_remove_profile_journal : leaves Q (remove_profile_journal paths).
Proof. unfold remove_profile_journal, profile_journal_path. pose proof (not_store_file _ journal_in). frame. Qed.
#[local] Hint Resolve leaves_write_profile_journal leaves_remove_profile_journal : frame.

Lemma leaves_recover_uncertain j : leaves Q (recover_uncertain_deletion paths j).
Proof. unfold recover_uncertain_deletion. frame. Qed.

Lemma leaves_restore_both j : leaves Q (restore_both_pointers paths j).
Proof. unfold restore_both_pointers. frame. Qed.
#[local] Hint Resolve leaves_recover_uncertain leaves_restore_both : frame.

Lemma leaves_recover_profile : leaves Q (recover_interrupted_activation paths).
Proof. unfold recover_interrupted_activation. frame. Qed.
#[local] Hint Resolve leaves_recover_profile : frame.

Lemma leaves_finish_activation transition : leaves Q (finish_activation_transaction paths transition).
Proof. unfold finish_activation_transaction. frame. Qed.
#[local] Hint Resolve leaves_finish_activation : frame.

Lemma leaves_store_activate g : leaves Q (store_activate paths g).
Proof. unfold store_activate, switch_generation. frame. Qed.
#[local] Hint Resolve leaves_store_activate : frame.

Lemma leaves_publish bytes metadata : leaves Q (publish_and_activate paths bytes metadata).
Proof. unfold publish_and_activate. frame. Qed.

Lemma leaves_confirm_first active : leaves Q (confirm_first_rollback paths active).
Proof. unfold confirm_first_rollback. frame. Qed.
#[local] Hint Resolve leaves_confirm_first : frame.

Lemma leaves_store_rollback : leaves Q (store_rollback paths).
Proof. unfold store_rollback, switch_back. frame. Qed.

Lemma leaves_inspect_profile : leaves Q (inspect_active_generation_stable paths).
Proof. unfold inspect_active_generation_stable. frame. Qed.

Lemma leaves_synchronize : leaves Q (synchronize_active_runtime paths).
Proof. unfold synchronize_active_runtime, active_generation. frame. Qed.
End Outside.
