(* ===== verification/ProfileStoreFacts.v ===== *)
(** * What the store of profiles promises

    The two pointers and the journal of the store, as one transition system: a switch
    between generations that is cut off anywhere is resolved by the recovery, and a
    switch that succeeds is the one of the catalog of generations in [Profile.v]. *)

From S2P Require Export ProfileStoreFrames.

(** The laws of the encoders: what is written is read back. *)
Definition canonical_optional (o : option GenerationPointer) : Prop :=
  ∀ p, o = Some p → p = new_generation_pointer (generation p) ∧ canonical_digest (generation p) = true.

Class ProfileJsonLaws `{PointerJson, ProfileStoreJson} : Prop := {
  generation_pointer_roundtrip g bytes : canonical_digest g = true →
    generation_pointer_to_vec (new_generation_pointer g) = Some bytes →
    generation_pointer_from_slice bytes = Some (new_generation_pointer g);
  journal_roundtrip j bytes : journal_schema j = PROFILE_ACTIVATION_SCHEMA →
    canonical_optional (active_before j) → canonical_optional (previous_before j) →
    journal_to_vec j = Ok bytes → parse_activation_journal bytes = Ok j
}.

Section Files.
Context `{World, Sha256, ActivationJson, ProfileJsonLaws} (program_files program_data : Path).
Notation paths := (machine_layout program_files program_data).
Notation A := (active_profile (machine_layout program_files program_data)).
Notation P := (previous_profile (machine_layout program_files program_data)).
Notation J := (profile_activation_journal (machine_layout program_files program_data)).
Implicit Types (S : Nodes → Prop) (d : Disk) (m : Nodes).

Definition data_root : Path := path_join (path_join program_data "MacType") "ControlCenter".

(** The files of the store. *)
Definition store_file (q : Path) : Prop := q = A ∨ q = P ∨ q = J.

Lemma store_files_apart : A ≠ P ∧ A ≠ J ∧ P ≠ J.
Proof. split_and!; intros E; by apply path_join_inj in E. Qed.

Lemma store_file_child q : store_file q → ∃ name, q = path_join data_root name ∧ starts_with "." name = false ∧
  name ≠ "generations".
Proof.
  intros [Hq|[Hq|Hq]]; subst; [exists "active.json"|exists "previous.json"|exists "profile-activation.json"];
    by split_and!.
Qed.

Lemma store_untouched q q' : store_file q → store_file q' → q ≠ q' → untouched q q'.
Proof.
  intros (a & -> & _)%store_file_child (b & -> & Hb & _)%store_file_child Hne.
  apply siblings_untouched; [|done]. by intros ->.
Qed.

(** One of the files is written or removed, the others stay. *)
Definition others (p : Path) (q : Path) : Prop := store_file q ∧ q ≠ p.

Definition one_written (p : Path) (b : list ascii) (before m : Nodes) : Prop :=
  agree (others p) before m ∧ (m !! p = before !! p ∨ m !! p = Some (File b)).

Definition one_removed (p : Path) (before m : Nodes) : Prop :=
  agree (others p) before m ∧ (m !! p = before !! p ∨ m !! p = None).

Lemma write_one S p b d :
  store_file p → (∀ m, one_written p b (nodes d) m → S m) →
  spec S (atomic_write p b) (λ r d', one_written p b (nodes d) (nodes d') ∧
    (r = Ok tt → nodes d' !! p = Some (File b))) d.
Proof.
  intros Hp HS. assert (∀ m, writing (nodes d) p b m → one_written p b (nodes d) m) as Hone.
  { intros m [Hm Hrest]. split; [|done]. intros q [Hq Hne]. apply Hrest. by apply store_untouched. }
  eapply spec_mono; [apply atomic_write_spec| |].
  - intros m Hm. by apply HS, Hone.
  - intros r d' _ [Hw Hok]. split; [by apply Hone|done].
Qed.

Lemma remove_one S p d :
  (∀ m, one_removed p (nodes d) m → S m) →
  spec S (lift_io (remove_file p)) (λ r d', one_removed p (nodes d) (nodes d') ∧
    (r = Ok tt → nodes d' !! p = None)) d.
Proof.
  intros HS. assert (one_removed p (nodes d) (delete p (nodes d))) as Hdel.
  { split; [|right; apply lookup_delete_eq]. intros q [_ Hne]. by rewrite lookup_delete_ne. }
  assert (one_removed p (nodes d) (nodes d)) as Hsame by (split; [done|by left]).
  assert (∀ m', match nodes d !! p with
    | Some (File _) | Some (Link _) => Ok (delete p (nodes d))
    | Some Directory => Err (io_error WrongKind)
    | None => Err (io_error Missing) end = Ok m' → m' = delete p (nodes d)) as Heff.
  { intros m' E. destruct (nodes d !! p) as [[]|]; try done; by apply (inj Ok) in E. }
  eapply spec_post; [apply lift_write_spec|].
  - intros partial m' ->%Heff. by apply HS.
  - intros r d' _ Hr. destruct r as [[]|e].
    + apply Heff in Hr. rewrite Hr. split; [done|]. intros _. apply lookup_delete_eq.
    + destruct Hr as [Hr|[partial Hr]]; [rewrite Hr|apply Heff in Hr; rewrite Hr]; by split.
Qed.

(** ** Operations that leave the files alone *)

Context (Hroots : unrelated program_files program_data).

Lemma generated_apart v q : store_file q → ¬ q `prefix_of` generated paths v.
Proof.
  intros (name & -> & _)%store_file_child [t E]. revert E. unfold generated, data_root, path_join. cbn.
  unfold path_join. rewrite <- !app_assoc. by apply unrelated_below.
Qed.

Lemma store_not_hidden q : store_file q → hidden q = false.
Proof. intros (name & -> & Hname & _)%store_file_child. by rewrite hidden_join. Qed.

Lemma generations_apart q t :
  store_file q → ¬ profile_generations paths `prefix_of` q ∧ ¬ q `prefix_of` profile_generations paths ++ t.
Proof.
  intros (name & -> & _ & Hne)%store_file_child. split.
  - intros Hp. by apply (siblings_not_prefix data_root "generations" name []); [|rewrite app_nil_r].
  - by apply (siblings_not_prefix data_root name "generations").
Qed.

Lemma store_outside q : store_file q → outside (paths := paths) q.
Proof.
  intros Hq. split_and!; [by apply store_not_hidden|intros v; by apply generated_apart|intros t; by apply generations_apart].
Qed.

Definition materialize_store := materialize_outside (paths := paths) store_file store_outside.
Definition clear_store := clear_outside (paths := paths) store_file store_outside.
Definition restore_store := restore_outside (paths := paths) store_file store_outside.
Definition undo_store := undo_outside (paths := paths) store_file store_outside.
Definition publish_generation_store := publish_generation_outside (paths := paths) store_file store_outside.

(** ** States of a switch *)

(** The pointer file says which generation, or there is none. *)
Definition points_to (o : option GenerationId) (X : option Node) : Prop :=
  match o with
  | None => X = None
  | Some g => canonical_digest g = true ∧
      ∃ b, X = Some (File b) ∧ generation_pointer_from_slice b = Some (new_generation_pointer g)
  end.

Definition pointers_are (a p : option GenerationId) m : Prop :=
  points_to a (m !! A) ∧ points_to p (m !! P).

(** No switch is under way. *)
Definition stands (a p : option GenerationId) m : Prop := pointers_are a p m ∧ m !! J = None.

Definition plain (X : option Node) : Prop := X = None ∨ ∃ b, X = Some (File b).

Definition journal_says (ph : ProfileActivationPhase) (a p : option GenerationId) (X : option Node) : Prop :=
  ∃ b j, X = Some (File b) ∧ parse_activation_journal b = Ok j ∧ journal_phase j = ph ∧
    active_before j = new_generation_pointer <$> a ∧ previous_before j = new_generation_pointer <$> p.

(** A switch from [a] and [p] is under way: while the deletion of a first rollback is
    uncertain, the pointers still stand. *)
Definition under_way (a p : option GenerationId) m : Prop :=
  plain (m !! A) ∧ plain (m !! P) ∧
  ∃ ph, journal_says ph a p (m !! J) ∧ (ph = FirstRollbackDeletePending → pointers_are a p m).

(** What a switch from [a] and [p] passes through. *)
Definition unsettled (a p : option GenerationId) m : Prop := stands a p m ∨ under_way a p m.

Lemma points_plain o X : points_to o X → plain X.
Proof. destruct o; [intros (_ & b & -> & _); right; by exists b|intros ->; by left]. Qed.

Lemma stands_agree a p m m' : agree store_file m m' → stands a p m → stands a p m'.
Proof.
  intros Hag [[Ha Hp] Hj]. split; [split|]; rewrite Hag; try done;
    unfold store_file; auto.
Qed.

Lemma pointers_agree a p m m' : agree store_file m m' → pointers_are a p m → pointers_are a p m'.
Proof. intros Hag [Ha Hp]. split; rewrite Hag; try done; unfold store_file; auto. Qed.

Lemma under_way_agree a p m m' : agree store_file m m' → under_way a p m → under_way a p m'.
Proof.
  intros Hag (Ha & Hp & ph & Hj & Hpend). unfold under_way.
  rewrite (Hag A), (Hag P), (Hag J) by (unfold store_file; auto).
  split; [done|]. split; [done|]. exists ph. split; [done|]. intros Hph. by eapply pointers_agree, Hpend.
Qed.

Lemma unsettled_agree a p m m' : agree store_file m m' → unsettled a p m → unsettled a p m'.
Proof. intros Hag [Hs|Hu]; [left; by eapply stands_agree|right; by eapply under_way_agree]. Qed.

(** ** Reading and writing the files *)

Context (Htruth : truthful).

Lemma pointer_from_slice_canonical b q :
  generation_pointer_from_slice b = Some q →
  canonical_digest (generation q) = true ∧ q = new_generation_pointer (generation q).
Proof.
  unfold generation_pointer_from_slice, generation_parse.
  destruct (raw_pointer_from_slice b) as [[schema text]|]; [|done].
  destruct (canonical_digest text) eqn:E; [|done]. destruct (negb _); [done|]. by intros [= <-].
Qed.

Lemma points_to_unique o o' X : points_to o X → points_to o' X → o = o'.
Proof.
  destruct o as [g|], o' as [g'|]; [|intros (_ & b & -> & _); done|intros ->; by intros (_ & ? & ? & _)|done].
  intros (_ & b & -> & Hb) (_ & b' & [= <-] & Hb'). rewrite Hb in Hb'. by injection Hb' as ->.
Qed.

Lemma plain_absent X : plain X → match X with Some (Link Dangling) | None => false | Some _ => true end = false → X = None.
Proof. by intros [->|[b ->]]. Qed.

Lemma read_pointer_spec Q p d :
  plain (nodes d !! p) →
  spec Q (read_optional_pointer p) (λ r d', nodes d' = nodes d ∧
    ∀ o, r = Ok o → ∃ g, o = new_generation_pointer <$> g ∧ points_to g (nodes d !! p)) d.
Proof.
  intros Hplain. unfold read_optional_pointer. spec_then path_exists_spec. intros present d1 _ (Hn1 & _ & Hex).
  specialize (Hex (sees Htruth)). destruct present; cbn [negb].
  - try_then read_bounded_quiet; [|quiet_error]. intros bytes d2 _ [Hn2 Hb].
    destruct (Hb bytes eq_refl) as [_ Hread]. rewrite Hn1 in Hread.
    apply spec_try_ret; [|quiet_error]. intros q Hq.
    destruct (generation_pointer_from_slice bytes) as [q'|] eqn:E; [|done]. apply (inj Ok) in Hq as ->.
    apply spec_ret. split; [congruence|]. intros o <-%(inj Ok).
    destruct (pointer_from_slice_canonical _ _ E) as [Hcan Heq]. exists (Some (generation q)).
    split; [simpl; by rewrite <- Heq|]. split; [done|]. exists bytes. rewrite <- Heq. split; [|done].
    unfold readable in Hread. destruct Hplain as [Hnone|[b Hfile]]; [by rewrite Hnone in Hread|].
    rewrite Hfile in Hread |- *. by apply (inj Ok) in Hread as ->.
  - apply spec_ret. split; [done|]. intros o <-%(inj Ok). exists None. split; [done|].
    by apply plain_absent.
Qed.

(** A pointer file is as before or says the new thing. *)
Definition one_pointed (p : Path) (o : option GenerationId) (before m : Nodes) : Prop :=
  agree (others p) before m ∧ (m !! p = before !! p ∨ points_to o (m !! p)).

Lemma write_pointer_spec S p g d :
  store_file p → canonical_digest g = true → (∀ m, one_pointed p (Some g) (nodes d) m → S m) →
  spec S (write_pointer p g) (λ r d', one_pointed p (Some g) (nodes d) (nodes d') ∧
    (r = Ok tt → points_to (Some g) (nodes d' !! p))) d.
Proof.
  intros Hp Hg HS. unfold write_pointer.
  assert (one_pointed p (Some g) (nodes d) (nodes d)) as Hsame by (split; [done|by left]).
  apply spec_try_ret; [|by intros e _; split]. intros b Hb.
  destruct (generation_pointer_to_vec _) as [b'|] eqn:E; [|done]. apply (inj Ok) in Hb as ->.
  assert (points_to (Some g) (Some (File b))) as Hpoint.
  { split; [done|]. exists b. split; [done|]. by apply generation_pointer_roundtrip. }
  assert (∀ m, one_written p b (nodes d) m → one_pointed p (Some g) (nodes d) m) as Hone.
  { intros m [Hag [Hm|Hm]]; (split; [done|]); [by left|right; by rewrite Hm]. }
  eapply spec_post; [apply write_one; [done|]|].
  - intros m Hm. by apply HS, Hone.
  - intros r d' _ [Hw Hok]. split; [by apply Hone|]. intros Hr. by rewrite (Hok Hr).
Qed.

Lemma restore_pointer_spec S p o d :
  store_file p → plain (nodes d !! p) → (∀ g, o = Some g → canonical_digest g = true) →
  (∀ m, one_pointed p o (nodes d) m → S m) →
  spec S (restore_pointer p (new_generation_pointer <$> o)) (λ r d', one_pointed p o (nodes d) (nodes d') ∧
    (r = Ok tt → points_to o (nodes d' !! p))) d.
Proof.
  intros Hp Hplain Ho HS. assert (one_pointed p o (nodes d) (nodes d)) as Hsame by (split; [done|by left]).
  destruct o as [g|]; cbn [fmap option_fmap option_map restore_pointer].
  { apply write_pointer_spec; [done|by apply Ho|done]. }
  spec_then path_exists_spec. intros present d1 _ (Hn1 & _ & Hex). specialize (Hex (sees Htruth)).
  destruct present.
  - try_then reject_reparse_quiet; [|by intros e d2 _ Hn2; cbv beta in Hn2; rewrite Hn2, Hn1].
    intros [] d2 _ Hn2. cbv beta in Hn2.
    assert (∀ m, one_removed p (nodes d2) m → one_pointed p None (nodes d) m) as Hone.
    { intros m [Hag Hm]. rewrite Hn2, Hn1 in Hag, Hm. split; [done|]. destruct Hm as [Hm|Hm]; [by left|by right]. }
    eapply spec_post; [apply remove_one|].
    + intros m Hm. by apply HS, Hone.
    + intros r d3 _ [Hw Hok]. split; [by apply Hone|]. intros Hr. by apply Hok.
  - apply spec_ret. rewrite Hn1. split; [done|]. intros _. by apply plain_absent.
Qed.

Lemma remove_journal_spec S d :
  plain (nodes d !! J) → (∀ m, one_removed J (nodes d) m → S m) →
  spec S (remove_profile_journal paths) (λ r d', one_removed J (nodes d) (nodes d') ∧
    (r = Ok tt → nodes d' !! J = None)) d.
Proof.
  intros Hplain HS. assert (one_removed J (nodes d) (nodes d)) as Hsame by (split; [done|by left]).
  unfold remove_profile_journal, profile_journal_path.
  spec_then path_exists_spec. intros present d1 _ (Hn1 & _ & Hex). specialize (Hex (sees Htruth)).
  destruct present.
  - try_then reject_reparse_quiet; [|by intros e d2 _ Hn2; cbv beta in Hn2; rewrite Hn2, Hn1].
    intros [] d2 _ Hn2. cbv beta in Hn2. assert (nodes d2 = nodes d) as Hnd by congruence.
    eapply spec_post; [apply remove_one|]; rewrite Hnd; [done|]. by intros r d3 _ ?.
  - apply spec_ret. rewrite Hn1. split; [done|]. intros _. by apply plain_absent.
Qed.

(** The journal is as before or says the new thing. *)
Definition one_journaled (ph : ProfileActivationPhase) (a p : option GenerationId) (before m : Nodes) : Prop :=
  agree (others J) before m ∧ (m !! J = before !! J ∨ journal_says ph a p (m !! J)).

Lemma canonical_fmap (o : option GenerationId) :
  (∀ g, o = Some g → canonical_digest g = true) → canonical_optional (new_generation_pointer <$> o).
Proof. intros Ho q. destruct o as [g|]; [|done]. intros [= <-]. split; [done|]. by apply Ho. Qed.

Lemma write_journal_spec S ph a p d :
  (∀ g, a = Some g → canonical_digest g = true) → (∀ g, p = Some g → canonical_digest g = true) →
  (∀ m, one_journaled ph a p (nodes d) m → S m) →
  spec S (write_profile_journal paths ph (new_generation_pointer <$> a) (new_generation_pointer <$> p))
    (λ r d', one_journaled ph a p (nodes d) (nodes d') ∧ (r = Ok tt → journal_says ph a p (nodes d' !! J))) d.
Proof.
  intros Ha Hp HS. unfold write_profile_journal, profile_journal_path.
  assert (one_journaled ph a p (nodes d) (nodes d)) as Hsame by (split; [done|by left]).
  apply spec_try_ret; [|by intros e _; split]. intros b Hb.
  set (j := {| journal_schema := PROFILE_ACTIVATION_SCHEMA |}) in *.
  destruct (journal_to_vec j) as [b'|] eqn:E; [|done]. apply (inj Ok) in Hb as ->.
  assert (journal_says ph a p (Some (File b))) as Hsays.
  { exists b, j. split; [done|]. split; [|done].
    apply journal_roundtrip; [done|by apply canonical_fmap|by apply canonical_fmap|done]. }
  assert (∀ m, one_written J b (nodes d) m → one_journaled ph a p (nodes d) m) as Hone.
  { intros m [Hag [Hm|Hm]]; (split; [done|]); [by left|right; by rewrite Hm]. }
  eapply spec_post; [apply write_one; [by right; right|]|].
  - intros m Hm. by apply HS, Hone.
  - intros r d' _ [Hw Hok]. split; [by apply Hone|]. intros Hr. by rewrite (Hok Hr).
Qed.

(** ** Recovery *)

(** The pointers are being moved: the recovery will put them back. *)
Definition moving (a p : option GenerationId) m : Prop :=
  plain (m !! A) ∧ plain (m !! P) ∧ ∃ ph, journal_says ph a p (m !! J) ∧ ph ≠ FirstRollbackDeletePending.

Lemma moving_under_way a p m : moving a p m → under_way a p m.
Proof. intros (? & ? & ph & Hj & Hne). split; [done|]. split; [done|]. by exists ph. Qed.

Lemma moving_agree a p m m' : agree store_file m m' → moving a p m → moving a p m'.
Proof.
  intros Hag (Ha & Hp & Hj). unfold moving.
  by rewrite (Hag A), (Hag P), (Hag J) by (unfold store_file; auto).
Qed.

Lemma others_store p q : store_file q → q ≠ p → others p q.
Proof. done. Qed.

Lemma moving_pointed a p o q m m' :
  q = A ∨ q = P → moving a p m → one_pointed q o m m' → moving a p m'.
Proof.
  destruct store_files_apart as (HAP & HAJ & HPJ). intros Hq (Ha & Hp & Hj) [Hag Hm].
  assert (∀ X, plain (m !! X) → X = A ∨ X = P → plain (m' !! X)) as Hplain.
  { intros X HX Hin. destruct (decide (X = q)) as [->|Hne].
    - destruct Hm as [->|Hm]; [done|by eapply points_plain].
    - rewrite Hag; [done|]. apply others_store; [|done]. unfold store_file. tauto. }
  split; [by apply Hplain; auto|]. split; [by apply Hplain; auto|].
  rewrite (Hag J); [done|]. apply others_store; [by right; right|]. by destruct Hq as [-> | ->].
Qed.

Lemma journal_plain ph a p X : journal_says ph a p X → plain X.
Proof. intros (b & j & -> & _). right. by exists b. Qed.

(** The journal is removed while the pointers stand. *)
Lemma removal_settles a p a' p' m m' ph :
  pointers_are a' p' m → journal_says ph a p (m !! J) →
  (ph = FirstRollbackDeletePending → pointers_are a p m) → one_removed J m m' →
  (under_way a p m' ∨ stands a' p' m') ∧ (m' !! J = None → stands a' p' m').
Proof.
  destruct store_files_apart as (HAP & HAJ & HPJ). intros [Ha Hp] Hj Hph [Hag Hm].
  assert (m' !! A = m !! A) as EA by (apply Hag, others_store; [by left|done]).
  assert (m' !! P = m !! P) as EP by (apply Hag, others_store; [by right; left|done]).
  assert (m' !! J = None → stands a' p' m') as Hnone.
  { intros HN. split; [|done]. unfold pointers_are. by rewrite EA, EP. }
  split; [|done]. destruct Hm as [Hm|Hm]; [left|right; by apply Hnone].
  unfold under_way, pointers_are in *. rewrite EA, EP, Hm.
  split; [by eapply points_plain|]. split; [by eapply points_plain|]. by exists ph.
Qed.

Lemma remove_journal_settles (S : Nodes → Prop) a p a' p' d ph :
  pointers_are a' p' (nodes d) → journal_says ph a p (nodes d !! J) →
  (ph = FirstRollbackDeletePending → pointers_are a p (nodes d)) →
  (∀ m, under_way a p m ∨ stands a' p' m → S m) →
  spec S (remove_profile_journal paths) (λ r d', S (nodes d') ∧ (r = Ok tt → stands a' p' (nodes d'))) d.
Proof.
  intros Hpointers Hj Hph HS. eapply spec_post; [apply remove_journal_spec|].
  - by eapply journal_plain.
  - intros m Hm. apply HS. by eapply removal_settles.
  - intros r d' _ [Hone Hok]. destruct (removal_settles a p a' p' _ _ ph Hpointers Hj Hph Hone) as [Hu Hn].
    split; [by apply HS|]. intros Hr. by apply Hn, Hok.
Qed.

(** A step that leaves the files alone. *)
Lemma store_step {T U : Type} S (m : M Disk (result T SetupError)) (k : T → M Disk (result U SetupError)) R d :
  leaves store_file m → (∀ n, agree store_file (nodes d) n → S n) →
  (∀ t d', agree store_file (nodes d) (nodes d') → spec S (k t) R d') →
  (∀ e d', agree store_file (nodes d) (nodes d') → R (Err e) d') →
  spec S (let? x := m in k x) R d.
Proof.
  intros Hl HS Hk He. eapply spec_try; [eapply spec_mono; [apply Hl|exact HS|intros r d' _ Hd'; exact Hd']|cbv beta..].
  - intros t d' _ Hd'. by apply Hk.
  - intros e d' _ Hd'. by apply He.
Qed.


Definition canonical_pair (a p : option GenerationId) : Prop :=
  (∀ g, a = Some g → canonical_digest g = true) ∧ (∀ g, p = Some g → canonical_digest g = true).

Lemma restore_both_spec a p j d :
  canonical_pair a p → active_before j = new_generation_pointer <$> a →
  previous_before j = new_generation_pointer <$> p → moving a p (nodes d) →
  spec (unsettled a p) (restore_both_pointers paths j)
    (λ r d', unsettled a p (nodes d') ∧ ∀ b, r = Ok b → stands a p (nodes d')) d.
Proof.
  intros [Hca Hcp] Ha Hp Hd. destruct store_files_apart as (HAP & HAJ & HPJ).
  assert (∀ m, moving a p m → unsettled a p m) as Hun by (intros; right; by apply moving_under_way).
  unfold restore_both_pointers. rewrite Ha, Hp. pose proof Hd as (HpA & HpP & _).
  try_then restore_pointer_spec; [by left|done|done| | |].
  { intros m Hm. by eapply Hun, moving_pointed; [left| |]. }
  2: { intros e d1 _ [Hm _]. split; [|done]. by eapply Hun, moving_pointed; [left| |]. }
  intros [] d1 _ [Hm1 Hok1]. specialize (Hok1 eq_refl).
  assert (moving a p (nodes d1)) as Hd1 by (by eapply moving_pointed; [left| |]).
  pose proof Hd1 as (_ & HpP1 & _).
  try_then restore_pointer_spec; [by right; left|done|done| | |].
  { intros m Hm. by eapply Hun, moving_pointed; [right| |]. }
  2: { intros e d2 _ [Hm _]. split; [|done]. by eapply Hun, moving_pointed; [right| |]. }
  intros [] d2 _ [Hm2 Hok2]. specialize (Hok2 eq_refl).
  assert (moving a p (nodes d2)) as Hd2 by (by eapply moving_pointed; [right| |]).
  assert (pointers_are a p (nodes d2)) as Hpointers.
  { split; [|done]. destruct Hm2 as [Hag _]. rewrite Hag; [done|]. apply others_store; [by left|done]. }
  apply store_step.
  - destruct a as [g|]; cbn [fmap option_fmap option_map]; [|apply leaves_ret].
    apply leaves_try; [|intros; apply leaves_ret].
    destruct (bool_decide _); [apply restore_store|apply materialize_store].
  - intros n Hn. eapply Hun, moving_agree; [exact Hn|done].
  - intros _ d3 Hd3. pose proof (moving_agree a p _ _ Hd3 Hd2) as (_ & _ & ph & Hj & Hne).
    eapply spec_try; [eapply (remove_journal_settles (unsettled a p) a p a p); [by eapply pointers_agree|exact Hj|done|]|cbv beta..].
    + intros m [Hu|Hs]; [by right|by left].
    + intros [] d4 _ [Hu Hs]. apply spec_ret. split; [done|]. intros b _. by apply Hs.
    + intros e d4 _ [Hu _]. by split.
  - intros e d3 Hd3. split; [|done]. eapply Hun, moving_agree; [exact Hd3|done].
Qed.

(** Recovery of an uncertain deletion: the pointers never moved. *)
Lemma recover_uncertain_spec a p j d :
  active_before j = new_generation_pointer <$> a → previous_before j = new_generation_pointer <$> p →
  pointers_are a p (nodes d) → journal_says FirstRollbackDeletePending a p (nodes d !! J) →
  spec (unsettled a p) (recover_uncertain_deletion paths j)
    (λ r d', unsettled a p (nodes d') ∧ ∀ b, r = Ok b → stands a p (nodes d')) d.
Proof.
  intros Ha Hp Hpointers Hj.
  assert (∀ m, agree store_file (nodes d) m → under_way a p m) as Hway.
  { intros m Hag. eapply under_way_agree; [exact Hag|]. destruct Hpointers as [HA HP]. split; [by eapply points_plain|].
    split; [by eapply points_plain|]. by exists FirstRollbackDeletePending. }
  assert (∀ (e : SetupError) m, agree store_file (nodes d) m →
    unsettled a p m ∧ ∀ b : bool, Err e = Ok b → stands a p m) as Hfail by (intros; split; [right; by apply Hway|done]).
  unfold recover_uncertain_deletion. destruct (active_before j) as [before|]; [|apply spec_ret; by apply Hfail].
  apply store_step; [apply leaves_read_pointer|by right; apply Hway| |by eauto]. intros now d1 Hd1.
  apply store_step; [apply leaves_read_pointer|intros; right; apply Hway; by etrans| |intros; apply Hfail; by etrans].
  intros then_ d2 Hd2. assert (agree store_file (nodes d) (nodes d2)) as Hd02 by by etrans.
  destruct (_ || _); [apply spec_ret; by apply Hfail|].
  apply store_step; [apply (observe_outside store_file)|intros; right; apply Hway; by etrans| |intros; apply Hfail; by etrans].
  intros observation d3 Hd3. assert (agree store_file (nodes d) (nodes d3)) as Hd03 by by etrans.
  apply store_step; [|intros; right; apply Hway; by etrans| |intros; apply Hfail; by etrans].
  { destruct observation; [|apply leaves_ret]. apply leaves_try; [apply restore_store|intros; apply leaves_ret]. }
  intros _ d4 Hd4. assert (agree store_file (nodes d) (nodes d4)) as Hd04 by by etrans.
  eapply spec_try; [eapply (remove_journal_settles (unsettled a p) a p a p)|cbv beta..].
  - by eapply pointers_agree.
  - rewrite (Hd04 J); [exact Hj|by right; right].
  - intros _. by eapply pointers_agree.
  - intros m [Hu|Hs]; [by right|by left].
  - intros [] d5 _ [Hu Hs]. apply spec_ret. split; [done|]. intros b _. by apply Hs.
  - intros e d5 _ [Hu _]. by split.
Qed.

Lemma recover_spec a p d :
  canonical_pair a p → unsettled a p (nodes d) →
  spec (unsettled a p) (recover_interrupted_activation paths)
    (λ r d', unsettled a p (nodes d') ∧ ∀ b, r = Ok b → stands a p (nodes d')) d.
Proof.
  intros Hcan Hd. unfold recover_interrupted_activation, profile_journal_path.
  spec_then path_exists_spec. intros present d1 _ (Hn1 & _ & Hex). specialize (Hex (sees Htruth)). unfold node_exists in Hex.
  destruct Hd as [Hs|Hu].
  { destruct Hs as [Hp HJ]. rewrite HJ in Hex. subst present. cbn [negb]. apply spec_ret. rewrite Hn1.
    assert (stands a p (nodes d)) by by split. split; [by left|done]. }
  pose proof Hu as (HA & HP & ph & (b & j & HJ & Hparse & Hph & Ha & Hp) & Hpend).
  rewrite HJ in Hex. subst present. cbn [negb].
  try_then read_bounded_quiet; [|intros e d2 _ [Hn2 _]; rewrite Hn2, Hn1; split; [by right|done]].
  intros bytes d2 _ [Hn2 Hread]. destruct (Hread bytes eq_refl) as [_ Hb].
  unfold readable in Hb. rewrite Hn1, HJ in Hb. apply (inj Ok) in Hb as <-.
  assert (nodes d2 = nodes d) as Hnd by congruence. clear Hn1 Hn2 Hread.
  apply spec_try_ret; [|intros e He; rewrite Hnd; split; [by right|done]]. intros j' Hj'.
  rewrite Hparse in Hj'. apply (inj Ok) in Hj' as <-.
  assert (∀ n, agree store_file (nodes d) n → unsettled a p n) as Hun.
  { intros n Hn. right. by eapply under_way_agree. }
  apply store_step; [apply leaves_verify_optional|rewrite Hnd; exact Hun| |].
  2: { intros e d3 Hd3. rewrite Hnd in Hd3. split; [by apply Hun|done]. }
  intros _ d3 Hd3. rewrite Hnd in Hd3.
  apply store_step; [apply leaves_verify_optional|intros n Hn; apply Hun; by etrans| |].
  2: { intros e d4 Hd4. split; [apply Hun; by etrans|done]. }
  intros _ d4 Hd4. assert (agree store_file (nodes d) (nodes d4)) as Hd04 by by etrans.
  assert (journal_says ph a p (nodes d4 !! J)) as Hsays.
  { rewrite (Hd04 J) by by right; right. by exists b, j. }
  assert (ph ≠ FirstRollbackDeletePending → moving a p (nodes d4)) as Hmoving.
  { intros Hne. eapply moving_agree; [exact Hd04|]. split; [done|]. split; [done|]. exists ph.
    split; [|done]. by exists b, j. }
  rewrite Hph. destruct ph.
  - apply store_step; [apply undo_store|intros n Hn; apply Hun; by etrans| |].
    + intros _ d5 Hd5. apply restore_both_spec; [done..|]. eapply moving_agree; [exact Hd5|by apply Hmoving].
    + intros e d5 Hd5. split; [apply Hun; by etrans|done].
  - apply recover_uncertain_spec; [done..| |done]. eapply pointers_agree; [exact Hd04|by apply Hpend].
  - apply restore_both_spec; [done..|by apply Hmoving].
Qed.

(** ** Switching *)

Lemma stands_canonical a p m : stands a p m → canonical_pair a p.
Proof. intros [[Ha Hp] _]. split; intros g ->; [by destruct Ha|by destruct Hp]. Qed.

(** Reading the pointers of a settled store. *)
Lemma read_settled Q q o d :
  points_to o (nodes d !! q) →
  spec Q (read_optional_pointer q) (λ r d', nodes d' = nodes d ∧ ∀ x, r = Ok x → x = new_generation_pointer <$> o) d.
Proof.
  intros Ho. eapply spec_post; [apply read_pointer_spec; by eapply points_plain|].
  intros r d' _ [Hn Hr]. split; [done|]. intros x Hx. destruct (Hr x Hx) as (g & -> & Hg).
  by rewrite (points_to_unique _ _ _ Hg Ho).
Qed.

(** Beginning a switch: the journal is written while the pointers stand. *)
Lemma begin_spec S ph a p d :
  stands a p (nodes d) → (∀ m, unsettled a p m → S m) →
  spec S (write_profile_journal paths ph (new_generation_pointer <$> a) (new_generation_pointer <$> p))
    (λ r d', unsettled a p (nodes d') ∧
      (r = Ok tt → pointers_are a p (nodes d') ∧ journal_says ph a p (nodes d' !! J))) d.
Proof.
  intros Hd HS. destruct store_files_apart as (HAP & HAJ & HPJ). destruct (stands_canonical _ _ _ Hd) as [Ha Hp].
  assert (∀ m, one_journaled ph a p (nodes d) m → pointers_are a p m) as Hpoint.
  { intros m [Hag _]. destruct Hd as [[HA HP] _].
    split; rewrite Hag; try done; apply others_store; unfold store_file; auto. }
  assert (∀ m, one_journaled ph a p (nodes d) m → unsettled a p m) as Hun.
  { intros m Hm. pose proof (Hpoint m Hm) as HAP'. destruct Hm as [_ [Hm|Hm]].
    - left. split; [done|]. rewrite Hm. apply Hd.
    - right. destruct HAP'. split; [by eapply points_plain|]. split; [by eapply points_plain|]. by exists ph. }
  eapply spec_post; [apply write_journal_spec; [done|done|]|].
  - intros m Hm. by eapply HS, Hun.
  - intros r d' _ [Hone Hok]. split; [by apply Hun|]. intros Hr. split; [by apply Hpoint|by apply Hok].
Qed.

(** Both pointers are being moved to [a'] and [p']. *)
Definition moved_to (a p a' p' : option GenerationId) m : Prop := moving a p m ∧ pointers_are a' p' m.

Lemma moving_begun ph a p m :
  ph ≠ FirstRollbackDeletePending → pointers_are a p m → journal_says ph a p (m !! J) → moving a p m.
Proof.
  intros Hne [HA HP] Hj. split; [by eapply points_plain|]. split; [by eapply points_plain|]. by exists ph.
Qed.

(** The end of a switch: the journal goes, or the recovery puts the pointers back. *)
Lemma finish_spec a p a' p' (transition : result unit SetupError) d :
  canonical_pair a p → moving a p (nodes d) →
  (transition = Ok tt → pointers_are a' p' (nodes d)) →
  spec (λ m, unsettled a p m ∨ stands a' p' m) (finish_activation_transaction paths transition)
    (λ r d', (unsettled a p (nodes d') ∨ stands a' p' (nodes d')) ∧ (r = Ok tt → stands a' p' (nodes d'))) d.
Proof.
  intros Hcan Hm Ht. destruct transition as [[]|error]; cbn [finish_activation_transaction].
  - destruct (Hm) as (_ & _ & ph & Hj & Hne).
    eapply (remove_journal_settles (λ m, unsettled a p m ∨ stands a' p' m) a p a' p' d ph); [by apply Ht|done|done|].
    intros m [Hu|Hs]; [left; by right|by right].
  - eapply spec_bind.
    + eapply spec_mono; [apply (recover_spec a p); [done|right; by apply moving_under_way]| |].
      * intros n Hn. by left.
      * intros r d' _ Hr. exact Hr.
    + intros [b|e] d' _ [Hu _]; apply spec_ret; (split; [by left|done]).
Qed.

(** A move of one pointer among others. *)
Lemma move_spec S a p q g d :
  q = A ∨ q = P → canonical_digest g = true → moving a p (nodes d) → (∀ m, moving a p m → S m) →
  spec S (write_pointer q g) (λ r d', moving a p (nodes d') ∧ agree (others q) (nodes d) (nodes d') ∧
    (r = Ok tt → points_to (Some g) (nodes d' !! q))) d.
Proof.
  intros Hq Hg Hd HS. assert (store_file q) as Hs by (unfold store_file; tauto).
  eapply spec_post; [apply write_pointer_spec; [done|done|]|].
  - intros m Hm. by eapply HS, moving_pointed.
  - intros r d' _ [Hone Hok]. split; [by eapply moving_pointed|]. split; [apply Hone|done].
Qed.

(** The pointers after an activation. *)
Definition displaced (a p : option GenerationId) : option GenerationId :=
  match a with Some _ => a | None => p end.

Lemma pointed q o m m' : agree (others q) m m' → ∀ q', store_file q' → q' ≠ q → points_to o (m !! q') → points_to o (m' !! q').
Proof. intros Hag q' Hs Hne Ho. by rewrite Hag. Qed.

Lemma switch_generation_spec a p g d :
  canonical_pair a p → canonical_digest g = true → moving a p (nodes d) → pointers_are a p (nodes d) →
  spec (moving a p) (switch_generation paths (new_generation_pointer <$> a) g)
    (λ r d', moving a p (nodes d') ∧ (r = Ok tt → pointers_are (Some g) (displaced a p) (nodes d'))) d.
Proof.
  destruct store_files_apart as (HAP & HAJ & HPJ). intros [Ha Hp] Hg Hd Hat. unfold switch_generation.
  eapply (spec_try _ _ _ (λ r d', moving a p (nodes d') ∧ (r = Ok tt → points_to (displaced a p) (nodes d' !! P)))).
  { destruct a as [x|]; cbn [fmap option_fmap option_map displaced].
    - apply store_step; [apply leaves_verify|intros n Hn; by eapply moving_agree| |].
      + intros [] d1 Hd1. cbn [generation new_generation_pointer].
        eapply spec_post; [apply move_spec; [by right|by apply Ha|by eapply moving_agree|done]|].
        intros r d2 _ (Hm & _ & Hok). by split.
      + intros e d1 Hd1. split; [by eapply moving_agree|done].
    - apply spec_ret. split; [done|]. intros _. apply Hat. }
  - intros [] d1 _ [Hm1 HP1]. specialize (HP1 eq_refl).
    try_then move_spec; [by left|done|done|done| |].
    2: { intros e d2 _ (Hm2 & _). by split. }
    intros [] d2 _ (Hm2 & Hag & HA2). specialize (HA2 eq_refl).
    assert (pointers_are (Some g) (displaced a p) (nodes d2)) as Hpoint.
    { split; [done|]. eapply pointed; [exact Hag|by right; left|done|done]. }
    apply store_step; [apply materialize_store|intros n Hn; by eapply moving_agree| |].
    + intros b d3 Hd3. apply spec_ret. split; [by eapply moving_agree|]. intros _. by eapply pointers_agree.
    + intros e d3 Hd3. split; [by eapply moving_agree|done].
  - intros e d1 _ [Hm1 _]. by split.
Qed.

(** A computation takes the store from the pointers [a] and [p], or a switch from them
    that was interrupted, to [a'] and [p']. *)
Definition settles {T : Type} (a p a' p' : option GenerationId) (m : M Disk (result T SetupError))
    (G : T → Prop) d : Prop :=
  spec (λ n, unsettled a p n ∨ stands a' p' n) m
    (λ r d', (unsettled a p (nodes d') ∨ stands a' p' (nodes d')) ∧
       ∀ t, r = Ok t → stands a' p' (nodes d') ∧ G t) d.

(** Every operation begins with the recovery. *)
Lemma settles_recovered {T : Type} a p a' p' (k : bool → M Disk (result T SetupError)) G d :
  canonical_pair a p → unsettled a p (nodes d) →
  (∀ b d', stands a p (nodes d') → settles a p a' p' (k b) G d') →
  settles a p a' p' (let? b := recover_interrupted_activation paths in k b) G d.
Proof.
  intros Hcan Hd Hk. eapply spec_try; [eapply spec_mono; [by apply (recover_spec a p)| |intros r d' _ Hr; exact Hr]|cbv beta..].
  - intros n Hn. by left.
  - intros b d' _ [_ Hs]. by eapply Hk, Hs.
  - intros e d' _ [Hu _]. split; [by left|done].
Qed.

(** A step that changes nothing, before the switch. *)
Lemma settles_quiet {T U : Type} a p a' p' (m : M Disk (result U SetupError)) (k : U → M Disk (result T SetupError))
    (F : U → Prop) G d :
  stands a p (nodes d) →
  (∀ Q, spec Q m (λ r d', nodes d' = nodes d ∧ ∀ x, r = Ok x → F x) d) →
  (∀ x d', stands a p (nodes d') → F x → settles a p a' p' (k x) G d') →
  settles a p a' p' (let? x := m in k x) G d.
Proof.
  intros Hd Hm Hk. eapply spec_try; [apply Hm|cbv beta..].
  - intros x d' _ [Hn Hx]. eapply Hk; [by rewrite Hn|by apply Hx].
  - intros e d' _ [Hn _]. rewrite Hn. split; [by left; left|done].
Qed.

(** A step that leaves the files alone, before the switch. *)
Lemma settles_leaving {T U : Type} a p a' p' (m : M Disk (result U SetupError)) (k : U → M Disk (result T SetupError)) G d :
  stands a p (nodes d) → leaves store_file m →
  (∀ x d', stands a p (nodes d') → settles a p a' p' (k x) G d') →
  settles a p a' p' (let? x := m in k x) G d.
Proof.
  intros Hd Hm Hk. apply store_step; [done|intros n Hn; left; left; by eapply stands_agree| |].
  - intros x d' Hd'. eapply Hk. by eapply stands_agree.
  - intros e d' Hd'. split; [left; left; by eapply stands_agree|done].
Qed.

(** The moves of a switch, and its end. *)
Lemma settles_switch {T : Type} a p a' p' (transition : M Disk (result unit SetupError))
    (ending : M Disk (result unit SetupError) → M Disk (result T SetupError)) (G : T → Prop) d :
  canonical_pair a p →
  (∀ e d', settles a p a' p' e (λ _, True) d' → settles a p a' p' (ending e) G d') →
  spec (moving a p) transition
    (λ r d', moving a p (nodes d') ∧ (r = Ok tt → pointers_are a' p' (nodes d'))) d →
  settles a p a' p' (let! r := transition in ending (finish_activation_transaction paths r)) G d.
Proof.
  intros Hcan Hend Ht. unfold settles. eapply spec_bind.
  - eapply spec_mono; [exact Ht| |intros r d' _ Hr; exact Hr]. intros n Hn. left. right. by apply moving_under_way.
  - cbv beta. intros r d1 _ [Hm Hok]. apply Hend. eapply spec_post; [by apply (finish_spec a p a' p')|].
    intros [[]|e] d2 _ [Hu Hs]; (split; [done|]); [intros t Ht'; split; [by apply Hs|done]|done].
Qed.

Definition displaced_by (g : GenerationId) (a p : option GenerationId) : option GenerationId :=
  if bool_decide (a = Some g) then p else displaced a p.

Lemma generation_fmap (a : option GenerationId) : generation <$> (new_generation_pointer <$> a) = a.
Proof. by destruct a. Qed.

Lemma stands_pointers a p m : stands a p m → pointers_are a p m.
Proof. by intros []. Qed.

Lemma activate_settles a p g d :
  canonical_pair a p → unsettled a p (nodes d) →
  settles a p (Some g) (displaced_by g a p) (store_activate paths g) (λ _, True) d.
Proof.
  intros Hcan Hd. unfold store_activate. apply settles_recovered; [done..|]. intros _ d1 Hd1.
  eapply (settles_quiet _ _ _ _ _ _ (λ _, canonical_digest g = true)); [done| |].
  { intros Q. eapply spec_post; [apply verify_generation_spec|]. intros r d' _ [Hn Hr]. split; [done|].
    intros [] Hx. by apply Hr. }
  intros _ d2 Hd2 Hg. eapply settles_quiet; [done|intros Q; apply read_settled, Hd2|].
  intros x d3 Hd3 ->. rewrite generation_fmap. unfold displaced_by. case_bool_decide as Heq.
  { apply settles_leaving; [done|apply materialize_store|]. intros b d4 Hd4. apply spec_ret. subst a.
    split; [by right|]. by intros t. }
  eapply settles_quiet; [done|intros Q; apply read_settled, Hd3|]. intros x d4 Hd4 ->.
  eapply spec_try; [apply (begin_spec _ _ a p); [done|intros n Hn; by left]|cbv beta..].
  2: { intros e d5 _ [Hu _]. split; [by left|done]. }
  intros [] d5 _ [_ Hok]. destruct (Hok eq_refl) as [Hpoint Hj].
  apply (settles_switch _ _ _ _ _ (λ e, e)); [done|done|].
  apply switch_generation_spec; [done|done| |done]. by eapply moving_begun; [|exact Hpoint|exact Hj].
Qed.

(** Rolling back. *)

Lemma pending_under_way a p m :
  pointers_are a p m → journal_says FirstRollbackDeletePending a p (m !! J) → under_way a p m.
Proof.
  intros [HA HP] Hj. split; [by eapply points_plain|]. split; [by eapply points_plain|]. by eexists.
Qed.

Lemma confirm_spec (x : GenerationId) d :
  canonical_digest x = true → pointers_are (Some x) None (nodes d) →
  journal_says FirstRollbackDeletePending (Some x) None (nodes d !! J) →
  spec (unsettled (Some x) None) (confirm_first_rollback paths (new_generation_pointer x))
    (λ r d', unsettled (Some x) None (nodes d') ∧
       (r = Ok tt → moving (Some x) None (nodes d') ∧ pointers_are (Some x) None (nodes d'))) d.
Proof.
  destruct store_files_apart as (HAP & HAJ & HPJ). intros Hx Hpoint Hj. unfold confirm_first_rollback.
  assert (∀ n, agree store_file (nodes d) n → pointers_are (Some x) None n ∧
    journal_says FirstRollbackDeletePending (Some x) None (n !! J)) as Hkeep.
  { intros n Hn. split; [by eapply pointers_agree|]. by rewrite (Hn J) by by right; right. }
  assert (∀ n, agree store_file (nodes d) n → unsettled (Some x) None n) as Hun.
  { intros n Hn. right. by apply pending_under_way; apply Hkeep. }
  eapply spec_bind; [eapply spec_mono; [apply clear_store|exact Hun|intros r d' _ Hr; exact Hr]|].
  cbv beta. intros cleared d1 _ Hd1. destruct (Hkeep _ Hd1) as [Hpoint1 Hj1].
  destruct cleared as [b|[error|error]].
  - apply store_step; [apply (ensure_absent_outside store_file)|intros n Hn; apply Hun; by etrans| |].
    2: { intros e d2 Hd2. split; [apply Hun; by etrans|done]. }
    intros _ d2 Hd2. assert (agree store_file (nodes d) (nodes d2)) as Hd02 by by etrans.
    destruct (Hkeep _ Hd02) as [Hpoint2 Hj2]. apply with_err_spec.
    assert (∀ m, one_journaled FirstRollbackDeleteConfirmed (Some x) None (nodes d2) m →
      pointers_are (Some x) None m) as Hp.
    { intros m [Hag _]. destruct Hpoint2. split; rewrite Hag; try done; apply others_store; unfold store_file; auto. }
    assert (∀ m, one_journaled FirstRollbackDeleteConfirmed (Some x) None (nodes d2) m →
      unsettled (Some x) None m) as Hu.
    { intros m Hm. right. pose proof (Hp m Hm) as Hpm. destruct Hm as [_ [Hm|Hm]].
      - apply pending_under_way; [done|by rewrite Hm].
      - apply moving_under_way. by eapply moving_begun; [|exact Hpm|exact Hm]. }
    eapply spec_post; [apply (write_journal_spec _ _ (Some x) None); [by intros g [= <-]|done|exact Hu]|].
    intros r d3 _ [Hone Hok]. cbv beta. split; [by apply Hu|]. intros Hr. apply Hp in Hone. split; [|done].
    eapply moving_begun; [|done|]; [|apply Hok]; [done|by destruct r].
  - eapply (spec_try _ _ _ (λ _ d', unsettled (Some x) None (nodes d'))).
    + apply with_err_spec. eapply spec_post;
        [eapply (remove_journal_settles (unsettled (Some x) None) (Some x) None (Some x) None);
          [done|exact Hj1|done|]|].
      * intros m [Hu|Hs]; [by right|by left].
      * by intros r d2 _ [Hu _].
    + intros [] d2 _ Hu. by apply spec_ret.
    + intros e d2 _ Hu. by split.
  - apply spec_ret. split; [by apply Hun|done].
Qed.

(** The pointers after a rollback: exchanged, or both gone. *)
Definition rolled_back (a p : option GenerationId) : option GenerationId :=
  match p with Some _ => a | None => None end.

Lemma switch_back_spec (x : GenerationId) p d :
  canonical_pair (Some x) p → moving (Some x) p (nodes d) → pointers_are (Some x) p (nodes d) →
  spec (moving (Some x) p) (switch_back paths (new_generation_pointer x) (new_generation_pointer <$> p))
    (λ r d', moving (Some x) p (nodes d') ∧ (r = Ok tt → pointers_are p (rolled_back (Some x) p) (nodes d'))) d.
Proof.
  destruct store_files_apart as (HAP & HAJ & HPJ). intros [Hx Hp] Hd [HA HP].
  destruct p as [y|]; cbn [fmap option_fmap option_map switch_back rolled_back generation new_generation_pointer].
  - try_then move_spec; [by right|by apply Hx|done|done| |].
    2: { intros e d1 _ (Hm1 & _). by split. }
    intros [] d1 _ (Hm1 & _ & HP1). specialize (HP1 eq_refl).
    try_then move_spec; [by left|by apply Hp|done|done| |].
    2: { intros e d2 _ (Hm2 & _). by split. }
    intros [] d2 _ (Hm2 & Hag2 & HA2). specialize (HA2 eq_refl).
    assert (pointers_are (Some y) (Some x) (nodes d2)) as Hpoint.
    { split; [done|]. eapply pointed; [exact Hag2|by right; left|done|done]. }
    apply store_step; [apply materialize_store|intros n Hn; by eapply moving_agree| |].
    + intros b d3 Hd3. apply spec_ret. split; [by eapply moving_agree|]. intros _. by eapply pointers_agree.
    + intros e d3 Hd3. split; [by eapply moving_agree|done].
  - pose proof Hd as (HplainA & HplainP & _).
    try_then (restore_pointer_spec (moving (Some x) None) A None); [by left|done|done| | |].
    { intros m Hm. by eapply moving_pointed; [left| |]. }
    2: { intros e d1 _ [Hm _]. split; [|done]. by eapply moving_pointed; [left| |]. }
    intros [] d1 _ [Hone1 HA1]. specialize (HA1 eq_refl).
    assert (moving (Some x) None (nodes d1)) as Hm1 by (by eapply moving_pointed; [left| |]).
    pose proof Hm1 as (_ & HplainP1 & _).
    eapply spec_post; [apply (restore_pointer_spec (moving (Some x) None) P None); [by right; left|done|done|]|].
    + intros m Hm. by eapply moving_pointed; [right| |].
    + intros r d2 _ [Hone2 HP2]. split; [by eapply moving_pointed; [right| |]|]. intros Hr. split; [|by apply HP2].
      destruct Hone2 as [Hag2 _]. eapply pointed; [exact Hag2|by left|done|done].
Qed.

Lemma rollback_settles (x : GenerationId) p d :
  canonical_pair (Some x) p → unsettled (Some x) p (nodes d) →
  settles (Some x) p p (rolled_back (Some x) p) (store_rollback paths) (λ answer, answer = p) d.
Proof.
  intros Hcan Hd. unfold store_rollback. apply settles_recovered; [done..|]. intros _ d1 Hd1.
  eapply settles_quiet; [done|intros Q; apply read_settled, Hd1|]. intros o d2 Hd2 ->.
  eapply (settles_quiet _ _ _ _ _ _ (λ q, q = new_generation_pointer x)); [done| |].
  { intros Q. apply spec_ret. split; [done|]. by intros q [= ->]. }
  intros q d3 Hd3 ->. eapply settles_quiet; [done|intros Q; apply read_settled, Hd3|]. intros o d4 Hd4 ->.
  apply settles_leaving; [done|apply leaves_verify|]. intros _ d5 Hd5.
  apply settles_leaving; [done|apply leaves_verify_optional|]. intros _ d6 Hd6.
  set (ph := match new_generation_pointer <$> p with None => FirstRollbackDeletePending | Some _ => PointerTransition end).
  eapply spec_try; [apply (begin_spec _ ph (Some x) p); [done|intros n Hn; by left]|cbv beta..].
  2: { intros e d7 _ [Hu _]. split; [by left|done]. }
  intros [] d7 _ [Hu7 Hok]. destruct (Hok eq_refl) as [Hpoint Hj].
  eapply (spec_try _ _ _ (λ r d', unsettled (Some x) p (nodes d') ∧
    (r = Ok tt → moving (Some x) p (nodes d') ∧ pointers_are (Some x) p (nodes d')))).
  - destruct p as [y|].
    + apply spec_ret. split; [done|]. intros _. split; [|done]. by eapply moving_begun; [|exact Hpoint|exact Hj].
    + eapply spec_mono; [apply confirm_spec; [by apply (proj1 Hcan)|done|exact Hj]| |by intros r d' _ Hr].
      intros n Hn. by left.
  - intros [] d8 _ [_ Hmove]. destruct (Hmove eq_refl) as [Hm8 Hp8].
    apply (settles_switch _ _ _ _ _ (λ e, let? _ := e in ret (Ok (generation <$> (new_generation_pointer <$> p)))));
      [done| |by apply switch_back_spec].
    intros e d9 He. eapply spec_try; [exact He|cbv beta..].
    + intros [] d' _ [Hs Hr]. apply spec_ret. split; [done|]. intros t <-%(inj Ok). rewrite generation_fmap.
      split; [by apply (Hr tt)|done].
    + intros e' d' _ [Hs _]. by split.
  - intros e d8 _ [Hu _]. split; [by left|done].
Qed.

(** ** Publishing *)


Lemma publish_settles bytes metadata a p a' p' d :
  canonical_pair a p → unsettled a p (nodes d) →
  let g := from_profile_bytes bytes in
  (validate_profile bytes = Ok tt → a' = Some g ∧ p' = displaced_by g a p) →
  settles a p a' p' (publish_and_activate paths bytes metadata)
    (λ answer, answer = g ∧ validate_profile bytes = Ok tt) d.
Proof.
  intros Hcan Hd g Htarget. unfold publish_and_activate. apply settles_recovered; [done..|]. intros _ d1 Hd1.
  destruct (_ || _); [apply spec_ret; split; [by left; left|done]|].
  eapply (settles_quiet _ _ _ _ _ _ (λ x, x = g ∧ validate_profile bytes = Ok tt)); [done| |].
  { intros Q. apply spec_ret. split; [done|]. intros x. unfold profile_checked, publish_machine_profile.
    destruct (validate_profile bytes) as [[]|]; [|done]. by intros <-%(inj Ok). }
  intros _ d2 Hd2 [-> Hvalid]. destruct (Htarget Hvalid) as [-> ->]. apply settles_leaving; [done|apply publish_generation_store|]. intros _ d3 Hd3.
  eapply spec_try; [apply activate_settles; [done|by left]|cbv beta..].
  - intros [] d4 _ [Hu Hs]. apply spec_ret. split; [done|]. intros t <-%(inj Ok). split; [by apply (Hs tt)|done].
  - intros e d4 _ [Hu _]. by split.
Qed.

(** ** The catalog as the specification *)

(** The pointers of the store are those of the catalog. *)
Definition represents (c : ProfileCatalog) m : Prop := stands (active c) (previous_generation c) m.

(** The same, or a switch from them that was interrupted. *)
Definition interrupted (c : ProfileCatalog) m : Prop := unsettled (active c) (previous_generation c) m.

(** A computation ends, passes only through states the recovery resolves to [c], or in
    which the switch to [c'] is complete, and when it succeeds the switch is complete. *)
Definition carries_out {T : Type} (c c' : ProfileCatalog) (e : M Disk (result T SetupError)) (G : T → Prop) d : Prop :=
  ∃ r d', e d = Some (r, d') ∧
    (∀ m, m = nodes d' ∨ visited d d' m → interrupted c m ∨ represents c' m) ∧
    ∀ t, r = Ok t → represents c' (nodes d') ∧ G t.

Lemma settles_carries_out {T : Type} c c' (e : M Disk (result T SetupError)) (G G' : T → Prop) d :
  settles (active c) (previous_generation c) (active c') (previous_generation c') e G d →
  (∀ t, G t → G' t) → carries_out c c' e G' d.
Proof.
  intros Hs HG. destruct (spec_runs _ _ _ _ Hs) as (r & d' & E & Hrun & Hend & Hok).
  exists r, d'. split; [exact E|]. split.
  - intros m [->|Hm]; [done|]. by apply (run_visited _ _ _ _ Hrun Hm).
  - intros t Ht. destruct (Hok t Ht) as [? Ht']. split; [done|]. by apply HG.
Qed.

Lemma sound_canonical c : catalog_sound c → canonical_pair (active c) (previous_generation c).
Proof.
  intros Hc. assert (∀ g, is_Some (generations c !! g) → canonical_digest g = true) as Hg.
  { intros g [q Hq]. destruct (generation_names_bytes c Hc g q Hq) as [-> _]. apply digest_canonical. }
  split; intros g E; apply Hg; [by apply (active_published c)|by apply (previous_published c)].
Qed.

(** The activation of the catalog moves the pointers as that of the store does. *)
Lemma activate_catalog c g :
  catalog_sound c → is_Some (generations c !! g) →
  let c' := snd (activate_machine_generation g c) in
  active c' = Some g ∧ previous_generation c' = displaced_by g (active c) (previous_generation c).
Proof.
  intros Hc [q Hq]. unfold activate_machine_generation, contains_key. rewrite Hq. cbn [negb].
  unfold displaced_by. case_bool_decide as E; [done|]. cbn [snd active previous_generation]. split; [done|].
  destruct (active c) as [x|] eqn:Ea; [done|]. cbn [displaced].
  destruct (previous_generation c) as [y|] eqn:Ep; [|done].
  destruct (previous_differs c Hc y Ep) as (z & Hz & _). congruence.
Qed.

Lemma publish_catalog c bytes metadata :
  catalog_sound c →
  let c' := snd (publish_machine_profile bytes metadata c) in
  catalog_sound c' ∧ active c' = active c ∧ previous_generation c' = previous_generation c ∧
  (validate_profile bytes = Ok tt → is_Some (generations c' !! from_profile_bytes bytes)).
Proof.
  intros Hc c'. split; [by apply (catalog_after_sound c (Publish bytes metadata))|].
  unfold c', publish_machine_profile. destruct (validate_profile bytes) as [[]|]; [|done].
  split; [done|]. split; [done|]. intros _. cbn [snd generations].
  destruct (generations c !! from_profile_bytes bytes) eqn:E; [by rewrite E|]. rewrite lookup_insert_eq. by eexists.
Qed.

Lemma rollback_catalog c x y :
  active c = Some x → previous_generation c = Some y →
  rollback_machine_generation c =
    (Ok y, {| generations := generations c; active := Some y; previous_generation := Some x |}).
Proof. intros Hx Hy. unfold rollback_machine_generation. by rewrite Hy, Hx. Qed.

(** C19. The store of profiles refines the catalog of generations: on any disk whose
    pointers are those of a sound catalog [c], or that a switch from them left half
    done, whatever calls fail, activating a published generation, publishing and
    activating a text, and rolling back each end; every state on the way is one from
    which the recovery restores the pointers of [c], or has those of the catalog the
    operation of [profile.rs] leaves; and a success means the latter and gives the same
    answer.  Only where nothing precedes the active generation do they differ: the
    catalog refuses to roll back, while the store deactivates the profile.  No look
    at the disk is taken to say by mistake that something is missing. *)
Theorem profile_switch_refines_catalog c d
  (Hc : catalog_sound c) (Hd : interrupted c (nodes d)) :
  (∀ g, is_Some (generations c !! g) →
     carries_out c (snd (activate_machine_generation g c)) (store_activate paths g) (λ _, True) d) ∧
  (∀ bytes metadata, let published := publish_machine_profile bytes metadata c in
     carries_out c (snd (activate_machine_generation (from_profile_bytes bytes) (snd published)))
       (publish_and_activate paths bytes metadata) (λ g, fst published = Ok g) d) ∧
  (∀ g c', rollback_machine_generation c = (Ok g, c') →
     carries_out c c' (store_rollback paths) (λ answer, answer = Some g) d) ∧
  (∀ x, active c = Some x → previous_generation c = None →
     carries_out c {| generations := generations c; active := None; previous_generation := None |}
       (store_rollback paths) (λ answer, answer = None) d).
Proof.
  pose proof (sound_canonical c Hc) as Hcan. split_and!.
  - intros g Hg. destruct (activate_catalog c g Hc Hg) as [Ea Ep].
    eapply settles_carries_out; [|done]. rewrite Ea, Ep. by apply activate_settles.
  - intros bytes metadata published. destruct (publish_catalog c bytes metadata Hc) as (Hsound & Ea & Ep & Hin).
    eapply settles_carries_out; [apply publish_settles; [done|done|]|].
    + intros Hvalid. destruct (activate_catalog _ _ Hsound (Hin Hvalid)) as [Ea' Ep'].
      unfold published. rewrite Ea', Ep', Ea, Ep. done.
    + intros g [-> Hvalid]. unfold published, publish_machine_profile. by rewrite Hvalid.
  - intros g c' E. unfold rollback_machine_generation in E.
    destruct (previous_generation c) as [y|] eqn:Ep; [|done].
    destruct (previous_differs c Hc y Ep) as (x & Ex & _). injection E as <- <-.
    eapply (settles_carries_out _ _ _ (λ answer, answer = Some y)); [|done].
    cbn [active previous_generation]. unfold interrupted in Hd. rewrite Ex, Ep in *. by apply (rollback_settles x (Some y)).
  - intros x Ex Ep. eapply (settles_carries_out _ _ _ (λ answer, answer = None)); [|done].
    cbn [active previous_generation]. unfold interrupted in Hd. rewrite Ex, Ep in *. by apply (rollback_settles x None).
Qed.

(** An interrupted switch of the profile is undone: from any state a switch from the
    pointers of [c] can leave, whatever calls fail, the recovery ends, passes only
    through states that it would resolve in the same way, and when it succeeds the two
    pointers are those of [c] and the journal is gone; so it may itself be cut off and
    repeated.  Reading the active generation recovers first, and answers the one of [c]. *)
Theorem profile_recovery_restores c d
  (Hc : catalog_sound c) (Hd : interrupted c (nodes d)) :
  carries_out c c (recover_interrupted_activation paths) (λ _, True) d ∧
  carries_out c c (active_generation paths) (λ answer, answer = active c) d.
Proof.
  pose proof (sound_canonical c Hc) as Hcan. split.
  - eapply (settles_carries_out _ _ _ (λ _, True)); [|done].
    eapply spec_mono; [by apply recover_spec| |].
    + intros m Hm. by left.
    + intros r d' _ [Hu Hs]. split; [by left|]. intros b Hb. split; [by eapply Hs|done].
  - eapply (settles_carries_out _ _ _ (λ answer, answer = active c)); [|done].
    apply settles_recovered; [done..|]. intros _ d1 Hd1.
    eapply settles_quiet; [done|intros Q; apply read_settled, Hd1|]. intros o d2 Hd2 ->.
    apply settles_leaving; [done|apply leaves_verify_optional|]. intros _ d3 Hd3. apply spec_ret.
    rewrite generation_fmap. split; [by right|]. intros t <-%(inj Ok). by split.
Qed.
End Files.

(** ** Concrete parameters *)

Section ExampleJournal.
Definition phase_letter (ph : ProfileActivationPhase) : ascii :=
  match ph with PointerTransition => "t" | FirstRollbackDeletePending => "p" | FirstRollbackDeleteConfirmed => "c" end.

Definition letter_phase (c : ascii) : option ProfileActivationPhase :=
  if Ascii.eqb c "t" then Some PointerTransition
  else if Ascii.eqb c "p" then Some FirstRollbackDeletePending
  else if Ascii.eqb c "c" then Some FirstRollbackDeleteConfirmed else None.

Definition optional_bytes (o : option GenerationPointer) : list ascii :=
  match o with None => str_bytes "0" | Some p => "1"%char :: str_bytes (generation p) end.

Definition optional_from (bytes : list ascii) : option GenerationPointer * list ascii :=
  match bytes with
  | c :: rest =>
      if Ascii.eqb c "1" then (Some (new_generation_pointer (bytes_str (take 71 rest))), drop 71 rest)
      else (None, rest)
  | [] => (None, [])
  end.

Definition example_journal_bytes (j : ProfileActivationJournal) : list ascii :=
  phase_letter (journal_phase j) :: optional_bytes (active_before j) ++ optional_bytes (previous_before j).

Definition example_journal_from (bytes : list ascii) : option ProfileActivationJournal :=
  match bytes with
  | c :: rest =>
      ph ← letter_phase c;
      let '(a, rest) := optional_from rest in
      let '(p, _) := optional_from rest in
      Some {| journal_schema := PROFILE_ACTIVATION_SCHEMA; journal_phase := ph;
              active_before := a; previous_before := p |}
  | [] => None
  end.

#[export] Instance example_profile_json : ProfileStoreJson := {
  JournalValue := list ascii;
  journal_value_from_slice := Some;
  journal_value_schema _ := Some PROFILE_ACTIVATION_SCHEMA;
  journal_from_value := example_journal_from;
  legacy_journal_from_value _ := None;
  journal_to_vec j := Ok (example_journal_bytes j);
  metadata_to_vec m := Ok (str_bytes (display_name m))
}.
End ExampleJournal.

Lemma text_of_bytes s : bytes_str (str_bytes s) = s.
Proof. apply string_of_list_ascii_of_string. Qed.

Lemma optional_readback o rest :
  canonical_optional o → optional_from (optional_bytes o ++ rest) = (o, rest).
Proof.
  destruct o as [p|]; [|done]. intros Hc. destruct (Hc p eq_refl) as [Hp Hg]. cbn [optional_bytes app optional_from].
  assert (length (str_bytes (generation p)) = 71) as Hlen.
  { unfold canonical_digest, str_len in Hg. andb_split. rewrite str_bytes_length. lia. }
  cbn. rewrite take_app_length', drop_app_length' by done. rewrite text_of_bytes. by rewrite <- Hp.
Qed.

#[export] Instance example_profile_json_laws : ProfileJsonLaws.
Proof.
  split.
  - intros g bytes Hg [= <-]. unfold generation_pointer_from_slice. cbn [raw_pointer_from_slice example_pointer_json].
    rewrite text_of_bytes. unfold generation_parse. by rewrite Hg.
  - intros j bytes Hs Ha Hp [= <-]. unfold parse_activation_journal. cbn -[example_journal_from example_journal_bytes].
    assert (example_journal_from (example_journal_bytes j) = Some j) as ->; [|done].
    unfold example_journal_from, example_journal_bytes.
    assert (letter_phase (phase_letter (journal_phase j)) = Some (journal_phase j)) as -> by (by destruct (journal_phase j)).
    cbn [mbind option_bind]. rewrite optional_readback by done.
    rewrite <- (app_nil_r (optional_bytes (previous_before j))), optional_readback by done.
    by destruct j; cbn in Hs |- *; rewrite Hs.
Qed.

Definition example_start_catalog : ProfileCatalog :=
  snd (publish_machine_profile (utf8 example_text) {| display_name := "Example" |} new_catalog).

Definition example_generation : GenerationId := sha256_digest (utf8 example_text).

Lemma example_catalog_sound : catalog_sound example_start_catalog.
Proof. apply (catalog_after_sound new_catalog (Publish _ _)), new_catalog_sound. Qed.

(** The disk of a fresh installation with the example published and, with [journal], a
    switch to it that was cut off after the pointer was written. *)
Definition example_published_disk (switched : bool) : Nodes :=
  let paths := machine_layout example_files example_data in
  let directory := profile_directory paths example_generation in
  let files := <[ path_join directory "profile.ini" := File (utf8 example_text) ]> ∅ in
  if switched then
    <[ active_profile paths := File (str_bytes example_generation) ]>
      (<[ profile_activation_journal paths := File (str_bytes "t00") ]> files)
  else files.

Lemma example_roots_apart : unrelated example_files example_data.
Proof. apply siblings_unrelated with (root := ["C:"]). done. Qed.

Lemma example_disk_stands :
  interrupted example_files example_data example_start_catalog (example_published_disk false).
Proof. left. split; [split|]; vm_compute; reflexivity. Qed.

Lemma example_switch_interrupted :
  interrupted example_files example_data example_start_catalog (example_published_disk true).
Proof.
  right. split; [right; eexists; vm_compute; reflexivity|]. split; [left; vm_compute; reflexivity|].
  exists PointerTransition. split; [|done].
  exists (str_bytes "t00"), {| journal_schema := PROFILE_ACTIVATION_SCHEMA; journal_phase := PointerTransition;
    active_before := None; previous_before := None |}. by split_and!; [vm_compute; reflexivity..| |].
Qed.

Definition switched_example : option (result unit SetupError * Disk) :=
  store_activate (machine_layout example_files example_data) example_generation
    (disk_of (example_published_disk false)).

Lemma example_is_switched : option_map (λ x, is_ok (fst x)) switched_example = Some true.
Proof. vm_compute. reflexivity. Qed.

Lemma profile_switch_refines_catalog_witness :
  ∃ d', switched_example = Some (Ok tt, d') ∧
    represents example_files example_data
      (snd (activate_machine_generation example_generation example_start_catalog)) (nodes d').
Proof.
  pose proof example_is_switched as Hok.
  destruct (proj1 (profile_switch_refines_catalog example_files example_data example_roots_apart example_truthful
    example_start_catalog (disk_of (example_published_disk false)) example_catalog_sound example_disk_stands)
    example_generation) as (r & d' & E & _ & Hr); [vm_compute; by eexists|].
  unfold switched_example in *. rewrite E in Hok |- *. destruct r as [[]|]; [|discriminate Hok].
  exists d'. split; [reflexivity|]. exact (proj1 (Hr tt eq_refl)).
Defined.

Definition recovered_example : option (result bool SetupError * Disk) :=
  recover_interrupted_activation (machine_layout example_files example_data) (disk_of (example_published_disk true)).

Lemma example_is_recovered :
  option_map (λ x, match fst x with Ok recovered => recovered | Err _ => false end) recovered_example = Some true.
Proof. vm_compute. reflexivity. Qed.

Lemma profile_recovery_restores_witness :
  ∃ d', recovered_example = Some (Ok true, d') ∧
    represents example_files example_data example_start_catalog (nodes d').
Proof.
  pose proof example_is_recovered as Hok.
  destruct (proj1 (profile_recovery_restores example_files example_data example_roots_apart example_truthful
    example_start_catalog (disk_of (example_published_disk true)) example_catalog_sound example_switch_interrupted))
    as (r & d' & E & _ & Hr).
  unfold recovered_example in *. rewrite E in Hok |- *.
  destruct r as [[|]|]; [|discriminate Hok..]. exists d'. split; [reflexivity|]. exact (proj1 (Hr true eq_refl)).
Defined.
