(* ===== verification/Repair.v ===== *)
(** * Repairing a runtime in place

    [service-runtime/setup/src/runtime_installer/journal/repair.rs], [repair/receipt.rs]
    and [repair/recovery.rs]: the journaled exchange of an invalid generation for the
    same one, whole, and the recovery from an interruption.  The names of a directory are
    Unicode here, so the branches for other names do not appear. *)

From S2P Require Export GenerationStore.

Definition RUNTIME_REPAIR_SCHEMA : N := 2.
Definition MAX_REPAIR_JOURNAL_BYTES : N := 16 * 1024.

Inductive RuntimeRepairPhase := Prepared | OldMoved | NewPlacedUnverified | NewVerified.

(** [RuntimeDirectoryReceipt]: the digest of every file of a directory. *)
Notation RuntimeDirectoryReceipt := (gmap string string).

Record RuntimeRepairJournal := {
  repair_schema : N;
  repair_version : string;
  repair_staging : string;
  repair_backup : string;
  repair_phase : RuntimeRepairPhase;
  old_receipt : RuntimeDirectoryReceipt;
  new_receipt : RuntimeDirectoryReceipt
}.

(** [journal.phase = ph;] *)
Definition with_repair_phase (j : RuntimeRepairJournal) (ph : RuntimeRepairPhase) : RuntimeRepairJournal :=
  {| repair_schema := repair_schema j; repair_version := repair_version j;
     repair_staging := repair_staging j; repair_backup := repair_backup j; repair_phase := ph;
     old_receipt := old_receipt j; new_receipt := new_receipt j |}.

(** serde_json's codec of the journal. *)
Class RepairJson := {
  repair_from_slice : list ascii → option RuntimeRepairJournal;
  repair_to_vec : RuntimeRepairJournal → result (list ascii) string
}.

Section Repair.
Context `{World, Sha256, ActivationJson, StoreJson, DeferredDelete, RepairJson} (paths : MachinePaths).

(** ** [repair/receipt.rs] *)

(** [(name == GENERATED_PROFILE_NAME)] decides how long the file may be. *)
Definition entry_maximum (name : string) : N :=
  if (name =? GENERATED_PROFILE_NAME)%string then MAX_PROFILE_BYTES else MAX_RUNTIME_FILE_BYTES.

(** The names a runtime directory may hold. *)
Definition runtime_entry (name : string) : bool :=
  one_of IMMUTABLE_RUNTIME_FILES name || (name =? GENERATED_PROFILE_NAME)%string.

Definition valid_runtime_directory_receipt (receipt : RuntimeDirectoryReceipt) : bool :=
  negb (size receipt =? 0) && (size receipt <=? length IMMUTABLE_RUNTIME_FILES + 1) &&
  forallb (λ '(name, hash), runtime_entry name && canonical_digest hash) (map_to_list receipt).

(** The loop of [read_runtime_directory_receipt]. *)
Fixpoint read_receipt_entries (directory : Path) (names : list string) (files : RuntimeDirectoryReceipt)
    : M Disk (result RuntimeDirectoryReceipt SetupError) :=
  match names with
  | [] => ret (Ok files)
  | name :: names' =>
      if negb (runtime_entry name) then
        ret (Err (CleanupUnknown "runtime receipt found an unexpected entry"))
      else
        let path := path_join directory name in
        let? _ := reject_reparse_ancestors path in
        let? bytes := read_bounded_regular_file path (entry_maximum name) "runtime receipt entry" in
        read_receipt_entries directory names' (<[name := sha256_digest bytes]> files)
  end.

Definition read_runtime_directory_receipt (directory : Path)
    : M Disk (result RuntimeDirectoryReceipt SetupError) :=
  let? _ := reject_reparse_ancestors directory in
  let? names := read_bounded_directory directory (length IMMUTABLE_RUNTIME_FILES + 1)
                  "runtime repair receipt entry count" in
  let? receipt := read_receipt_entries directory names ∅ in
  if negb (valid_runtime_directory_receipt receipt) then
    ret (Err (CleanupUnknown "runtime directory does not have a valid bounded receipt"))
  else ret (Ok receipt).

Definition verify_runtime_directory_receipt (directory : Path) (expected : RuntimeDirectoryReceipt)
    : M Disk (result unit SetupError) :=
  let? actual := with_err (unknown "runtime directory receipt could not be verified: ")
    (read_runtime_directory_receipt directory) in
  if bool_decide (actual ≠ expected) then
    ret (Err (CleanupUnknown "runtime directory no longer matches its transaction receipt"))
  else ret (Ok tt).

Definition runtime_directory_matches (directory : Path) (expected : RuntimeDirectoryReceipt)
    : M Disk (result bool SetupError) :=
  let? actual := read_runtime_directory_receipt directory in
  ret (Ok (bool_decide (actual = expected))).

(** The first loop of [remove_repair_directory]: the files it may remove. *)
Fixpoint repair_files (directory : Path) (names : list string) : M Disk (result (list Path) SetupError) :=
  match names with
  | [] => ret (Ok [])
  | name :: names' =>
      if negb (runtime_entry name) then ret (Err (Runtime "runtime repair found an unexpected entry"))
      else
        let path := path_join directory name in
        let? _ := reject_reparse_ancestors path in
        let? len := lift_io (entry_file_len path) in
        let refusal := Runtime "runtime repair found a non-regular or oversized entry" in
        match len with
        | None => ret (Err refusal)
        | Some len =>
            if (entry_maximum name <? len)%N then ret (Err refusal)
            else
              let? rest := repair_files directory names' in
              ret (Ok (path :: rest))
        end
  end.

Definition remove_repair_directory (directory : Path) : M Disk (result unit SetupError) :=
  let? _ := reject_reparse_ancestors directory in
  let? names := read_bounded_directory directory (length IMMUTABLE_RUNTIME_FILES + 1)
                  "runtime repair removal entry count" in
  let? files := repair_files directory names in
  let? _ := remove_files files in
  let? _ := lift_io (fs_remove_dir directory) in
  ret (Ok tt).

Definition remove_receipted_runtime_directory (directory : Path) (expected : RuntimeDirectoryReceipt)
    : M Disk (result unit SetupError) :=
  let? _ := verify_runtime_directory_receipt directory expected in
  remove_repair_directory directory.

Definition remove_or_defer_after_reboot (p : Path) (directory : bool) : M Disk (result unit SetupError) :=
  let! removed := (if directory then fs_remove_dir p else remove_file p) in
  match removed with
  | Ok _ => ret (Ok tt)
  | Err removal_error =>
      let! deferred := delay_delete_until_reboot p in
      ret (map_err (λ defer_error, CleanupUnknown
        ("verified runtime repair cleanup failed (" ++ io_text removal_error ++
         ") and could not be deferred until reboot (" ++ io_text defer_error ++ ")")) deferred)
  end.

(** The first loop of [remove_verified_backup_directory]. *)
Fixpoint backup_files (directory : Path) (expected : RuntimeDirectoryReceipt) (names : list string)
    : M Disk (result (list Path) SetupError) :=
  match names with
  | [] => ret (Ok [])
  | name :: names' =>
      match expected !! name with
      | None => ret (Err (CleanupUnknown "verified runtime repair backup contains an unexpected entry"))
      | Some expected_hash =>
          let path := path_join directory name in
          let? _ := reject_reparse_ancestors path in
          let? bytes := read_bounded_regular_file path (entry_maximum name)
                          "verified runtime repair backup entry" in
          if bool_decide (sha256_digest bytes ≠ expected_hash) then
            ret (Err (CleanupUnknown "verified runtime repair backup entry no longer matches its receipt"))
          else
            let? rest := backup_files directory expected names' in
            ret (Ok (path :: rest))
      end
  end.

Fixpoint remove_backup_files (files : list Path) : M Disk (result unit SetupError) :=
  match files with
  | [] => ret (Ok tt)
  | path :: files' =>
      let? _ := remove_or_defer_after_reboot path false in
      remove_backup_files files'
  end.

Definition remove_verified_backup_directory (directory : Path) (expected : RuntimeDirectoryReceipt)
    : M Disk (result unit SetupError) :=
  let? _ := reject_reparse_ancestors directory in
  let? names := read_bounded_directory directory (length IMMUTABLE_RUNTIME_FILES + 1)
                  "verified runtime repair backup entry count" in
  let? files := backup_files directory expected names in
  let? _ := remove_backup_files files in
  remove_or_defer_after_reboot directory true.

(** ** [repair/recovery.rs] *)

(** [if staging.exists() { remove_receipted_runtime_directory(staging, new_receipt)?; }] *)
Definition remove_staging (staging : Path) (new_receipt : RuntimeDirectoryReceipt)
    : M Disk (result unit SetupError) :=
  let! present := path_exists staging in
  if present then remove_receipted_runtime_directory staging new_receipt else ret (Ok tt).

Definition recover_prepared_repair (destination staging backup : Path)
    (old_receipt new_receipt : RuntimeDirectoryReceipt) : M Disk (result unit SetupError) :=
  let! moved := path_exists backup in
  let? _ :=
    (if moved then
       let? _ := verify_runtime_directory_receipt backup old_receipt in
       let! present := path_exists destination in
       if present then ret (Err (CleanupUnknown "prepared repair has both destination and backup"))
       else lift_io (fs_rename_directory backup destination)
     else ret (Ok tt)) in
  let? _ := verify_runtime_directory_receipt destination old_receipt in
  remove_staging staging new_receipt.

Definition recover_unverified_repair (destination staging backup : Path)
    (old_receipt new_receipt : RuntimeDirectoryReceipt) : M Disk (result unit SetupError) :=
  let! present := path_exists destination in
  if negb present then
    let? _ := verify_runtime_directory_receipt backup old_receipt in
    let? _ := lift_io (fs_rename_directory backup destination) in
    let? _ := verify_runtime_directory_receipt destination old_receipt in
    remove_staging staging new_receipt
  else
    let? is_old := runtime_directory_matches destination old_receipt in
    if is_old then
      let! moved := path_exists backup in
      if moved then
        ret (Err (CleanupUnknown "unverified repair has duplicate old destination and backup"))
      else remove_staging staging new_receipt
    else
      let? is_new := runtime_directory_matches destination new_receipt in
      if negb is_new then
        ret (Err (CleanupUnknown "unverified repair destination matches neither old nor new receipt"))
      else
        let refusal := CleanupUnknown "unverified repair cannot safely restore its verified backup" in
        let! moved := path_exists backup in
        if negb moved then ret (Err refusal)
        else
          let! staged := path_exists staging in
          if staged then ret (Err refusal)
          else
            let? _ := verify_runtime_directory_receipt backup old_receipt in
            let? _ := lift_io (fs_rename_directory destination staging) in
            let? _ := verify_runtime_directory_receipt staging new_receipt in
            let! restored := fs_rename_directory backup destination in
            match restored with
            | Err error => ret (Err (CleanupUnknown
                ("verified repair backup could not be restored after quarantining new payload: " ++
                 io_text error)))
            | Ok _ =>
                let? _ := verify_runtime_directory_receipt destination old_receipt in
                remove_receipted_runtime_directory staging new_receipt
            end.

Definition recover_verified_repair (destination staging backup : Path)
    (old_receipt new_receipt : RuntimeDirectoryReceipt) : M Disk (result unit SetupError) :=
  let! staged := path_exists staging in
  if staged then
    ret (Err (CleanupUnknown "verified repair unexpectedly retained a staging directory"))
  else
    let? _ := verify_runtime_directory_receipt destination new_receipt in
    let! moved := path_exists backup in
    if moved then remove_verified_backup_directory backup old_receipt else ret (Ok tt).

(** ** [repair.rs] *)

Definition repair_journal_path : Path := path_join (service_root paths) "runtime-repair.json".

Definition write_repair_journal (journal : RuntimeRepairJournal) : M Disk (result unit SetupError) :=
  let? bytes := ret (map_err Manifest (repair_to_vec journal)) in
  atomic_write repair_journal_path bytes.

Definition safe_repair_entry (value prefix version : string) : bool :=
  let expected := (prefix ++ version ++ "-")%string in
  starts_with expected value && (str_len expected <? str_len value)%N && (str_len value <=? 192)%N &&
  forallb version_byte (str_bytes value).

Definition remove_repair_journal : M Disk (result unit SetupError) :=
  let? _ := reject_reparse_ancestors repair_journal_path in
  lift_io (remove_file repair_journal_path).

(** [for path in [..] { if path.exists() { reject_reparse_ancestors(path)?; } }] *)
Fixpoint reject_present (candidates : list Path) : M Disk (result unit SetupError) :=
  match candidates with
  | [] => ret (Ok tt)
  | p :: candidates' =>
      let! present := path_exists p in
      let? _ := (if present then reject_reparse_ancestors p else ret (Ok tt)) in
      reject_present candidates'
  end.

Definition journal_supported (journal : RuntimeRepairJournal) : bool :=
  (repair_schema journal =? RUNTIME_REPAIR_SCHEMA)%N &&
  valid_runtime_version_component (repair_version journal) &&
  safe_repair_entry (repair_staging journal) ".repair-new-" (repair_version journal) &&
  safe_repair_entry (repair_backup journal) ".repair-old-" (repair_version journal) &&
  negb (repair_staging journal =? repair_backup journal)%string &&
  valid_runtime_directory_receipt (old_receipt journal) &&
  valid_runtime_directory_receipt (new_receipt journal).

Definition recover_interrupted_repair : M Disk (result unit SetupError) :=
  let! present := path_exists repair_journal_path in
  if negb present then ret (Ok tt)
  else
    let? bytes := read_bounded_regular_file repair_journal_path MAX_REPAIR_JOURNAL_BYTES
                    "runtime repair journal" in
    let? journal := ret (ok_or (repair_from_slice bytes) (Runtime "runtime repair journal is invalid")) in
    if negb (journal_supported journal) then
      ret (Err (Runtime "runtime repair journal has an unsupported value"))
    else
      let destination := path_join (runtime_versions paths) (repair_version journal) in
      let staging := path_join (runtime_versions paths) (repair_staging journal) in
      let backup := path_join (runtime_versions paths) (repair_backup journal) in
      let? _ := reject_present [destination; staging; backup] in
      let? _ :=
        match repair_phase journal with
        | Prepared => recover_prepared_repair destination staging backup (old_receipt journal) (new_receipt journal)
        | OldMoved | NewPlacedUnverified =>
            recover_unverified_repair destination staging backup (old_receipt journal) (new_receipt journal)
        | NewVerified =>
            recover_verified_repair destination staging backup (old_receipt journal) (new_receipt journal)
        end in
      remove_repair_journal.

Definition fail_repair_and_recover (operation : SetupError) : M Disk (result unit SetupError) :=
  let! recovered := recover_interrupted_repair in
  match recovered with
  | Ok _ => ret (Err operation)
  | Err recovery => ret (Err (CleanupUnknown
      ("runtime repair failed (" ++ display operation ++ ") and rollback remained incomplete (" ++
       display recovery ++ "); the repair journal and verified backup were preserved")))
  end.

(** [if let Err(error) = step { return self.fail_repair_and_recover(error); }] *)
Definition or_recover (step : M Disk (result unit SetupError)) (rest : M Disk (result unit SetupError))
    : M Disk (result unit SetupError) :=
  let! r := step in
  match r with
  | Err error => fail_repair_and_recover error
  | Ok _ => rest
  end.

(** From the journal on. *)
Definition exchange_runtime (destination staging backup : Path) (payload : LoadedPayload)
    (journal : RuntimeRepairJournal) : M Disk (result unit SetupError) :=
  let? _ := write_repair_journal journal in
  or_recover (lift_io (fs_rename_directory destination backup)) (
  or_recover (write_repair_journal (with_repair_phase journal OldMoved)) (
  or_recover (lift_io (fs_rename_directory staging destination)) (
  or_recover (write_repair_journal (with_repair_phase journal NewPlacedUnverified)) (
  or_recover (verify_existing_payload destination (payload_files payload)) (
  or_recover (write_repair_journal (with_repair_phase journal NewVerified)) (
  let? _ := verify_runtime_directory_receipt backup (old_receipt journal) in
  let? _ := remove_verified_backup_directory backup (old_receipt journal) in
  remove_repair_journal)))))).

Definition replace_runtime_payload (destination : Path) (payload : LoadedPayload)
    : M Disk (result unit SetupError) :=
  let version := verified_version (verified payload) in
  let! nonce := temporary_nonce in
  let staging_name := (".repair-new-" ++ version ++ "-" ++ nonce)%string in
  let backup_name := (".repair-old-" ++ version ++ "-" ++ nonce)%string in
  let staging := path_join (runtime_versions paths) staging_name in
  let backup := path_join (runtime_versions paths) backup_name in
  let collision := Runtime "runtime repair staging collision" in
  let! staged := path_exists staging in
  if staged then ret (Err collision)
  else
    let! moved := path_exists backup in
    if moved then ret (Err collision)
    else
      let? _ := create_protected_directory staging in
      let! written :=
        (let? _ := write_payload staging (entries_in_order (payload_files payload)) in
         verify_existing_payload staging (payload_files payload)) in
      match written with
      | Err error =>
          let! _ := remove_repair_directory staging in
          ret (Err error)
      | Ok _ =>
          let? old := read_runtime_directory_receipt destination in
          exchange_runtime destination staging backup payload
            {| repair_schema := RUNTIME_REPAIR_SCHEMA; repair_version := version;
               repair_staging := staging_name; repair_backup := backup_name; repair_phase := Prepared;
               old_receipt := old; new_receipt := sha256_digest <$> payload_files payload |}
      end.
End Repair.
