(* ===== verification/RepairFacts.v ===== *)
(** * What the repair of a runtime promises

    The exchange of a generation for a new copy of it, as a transition system over its
    three directories and its journal: in every state a crash can leave, the old or the
    new generation is whole, and the recovery puts one of them in place. *)

From S2P Require Export Staging Repair.

(** What is written is read back. *)
Class RepairJsonLaws `{RepairJson} : Prop := {
  repair_roundtrip j bytes : repair_to_vec j = Ok bytes → repair_from_slice bytes = Some j
}.

(** Scheduling a deletion for the next start of the machine deletes nothing now. *)
Class DeferredDeleteLaws `{DeferredDelete} : Prop := {
  delay_is_quiet P p d : spec P (delay_delete_until_reboot p) (λ _ d', nodes d' = nodes d) d
}.

(** ** Subtrees *)

Notation Subtree := (Path → option Node).

Definition holds (t : Subtree) (p : Path) (m : Nodes) : Prop := ∀ s, m !! (p ++ s) = t s.

Definition gone (p : Path) (m : Nodes) : Prop := holds (λ _, None) p m.

(** Nothing that a rename would have to replace. *)
Definition vacant (p : Path) (m : Nodes) : Prop := gone p m ∨ m !! p = Some (Link Dangling).

Lemma holds_at t p m : holds t p m → m !! p = t [].
Proof. intros Hp. by rewrite <- (app_nil_r p) at 1. Qed.

Lemma vacant_absent p m : vacant p m → node_exists m p = false.
Proof. unfold node_exists. intros [Hp|Hp]; [by rewrite (holds_at _ _ _ Hp)|by rewrite Hp]. Qed.

Lemma holds_agree (Q : Path → Prop) t p m m' :
  agree Q m m' → (∀ s, Q (p ++ s)) → holds t p m → holds t p m'.
Proof. intros Hag HQ Hp s. by rewrite Hag. Qed.

Lemma vacant_agree (Q : Path → Prop) p m m' : agree Q m m' → (∀ s, Q (p ++ s)) → vacant p m → vacant p m'.
Proof.
  intros Hag HQ [Hp|Hp]; [left; by eapply holds_agree|right]. rewrite Hag; [done|].
  by rewrite <- (app_nil_r p).
Qed.

(** A tree was moved. *)
Definition moved_tree (source destination : Path) (before m : Nodes) : Prop :=
  (∀ s, m !! (destination ++ s) = before !! (source ++ s)) ∧ gone source m ∧
  ∀ q, ¬ source `prefix_of` q → ¬ destination `prefix_of` q → m !! q = before !! q.

Section Repair.
Context `{World, Sha256, ActivationJson, StoreJson, DeferredDelete, RepairJson}.
Implicit Types (P : Nodes → Prop) (d : Disk) (m : Nodes).

Lemma moved_away source destination before qs m s :
  unrelated source destination → (source ++ s) ∈ qs → (∀ q, q ∈ qs → source `prefix_of` q ∧ is_Some (before !! q)) →
  fold_left (move_node source destination before) qs m !! (source ++ s) = None.
Proof.
  intros Hun. revert m. induction qs as [|q qs IH]; intros m; [by intros ?%not_elem_of_nil|]. intros Hin Hqs. simpl.
  destruct (decide (source ++ s ∈ qs)) as [Hin'|Hout]; [apply IH; [done|intros; apply Hqs; by right]|].
  apply elem_of_cons in Hin as [Hq|]; [|done]. rewrite <- Hq.
  rewrite (move_nodes_lookup (λ _, True)); [|done|].
  - unfold move_node. destruct (Hqs q (list_elem_of_here _ _)) as [_ [n Hn]]. rewrite Hq, Hn.
    rewrite lookup_insert_ne; [by rewrite lookup_delete_eq|]. rewrite <- Hq. unfold moved. intros E. symmetry in E. revert E.
    apply unrelated_below. exact Hun.
  - intros p Hp E. destruct (Hqs p (list_elem_of_further _ _ _ Hp)) as [[t ->] _]. unfold moved in E. symmetry in E. revert E.
    apply unrelated_below. exact Hun.
Qed.

Lemma renamed_tree source destination m :
  unrelated source destination → gone destination m →
  moved_tree source destination m (fold_left (move_node source destination m) (tree m source) m).
Proof.
  intros Hun Hfree. split; [|split].
  - intros s. by apply renamed_lookup.
  - intros s. destruct (m !! (source ++ s)) eqn:E.
    + apply moved_away; [done| |by intros q Hq%tree_elem]. apply tree_elem. split; [by eexists|by rewrite E].
    + rewrite (move_nodes_lookup (λ _, True)); [done| |].
      * intros [_ Hs]%tree_elem. rewrite E in Hs. by destruct Hs.
      * intros p [[t ->] _]%tree_elem Ep. unfold moved in Ep. symmetry in Ep. by apply unrelated_below in Ep.
  - intros q Hs Hd. apply (move_nodes_lookup (λ _, True)); [by intros [? _]%tree_elem|].
    intros p _ <-. apply Hd. by eexists.
Qed.

Lemma rename_spec P source destination d :
  unrelated source destination → vacant destination (nodes d) →
  (∀ m, moved_tree source destination (nodes d) m → P m) →
  spec P (fs_rename_directory source destination) (λ r d',
    (r = Ok tt → moved_tree source destination (nodes d) (nodes d')) ∧
    (nodes d' = nodes d ∨ moved_tree source destination (nodes d) (nodes d'))) d.
Proof.
  intros Hun Hfree HP.
  assert (∀ m', match nodes d !! source, nodes d !! destination with
    | Some Directory, None => Ok (fold_left (move_node source destination (nodes d)) (tree (nodes d) source) (nodes d))
    | Some Directory, Some _ => Err (io_error Occupied)
    | Some _, _ => Err (io_error WrongKind)
    | None, _ => Err (io_error Missing) end = Ok m' → moved_tree source destination (nodes d) m') as Hmoved.
  { intros m' E. destruct (nodes d !! source) as [[]|]; try done; destruct (nodes d !! destination) eqn:Ed; try done.
    apply (inj Ok) in E as <-. apply renamed_tree; [done|]. destruct Hfree as [Hg|Hg]; [done|congruence]. }
  unfold fs_rename_directory. eapply spec_post; [apply os_write_spec; intros _ m' E; by apply HP, Hmoved|].
  intros [[]|e] d' _ Hr; cbv beta in Hr.
  - apply Hmoved in Hr. by split; [|right].
  - split; [done|]. destruct Hr as [Hr|[_ Hr]]; [by left|right; by apply Hmoved].
Qed.

(** Reading a directory changes nothing. *)

Lemma read_receipt_entries_quiet P directory names files d :
  spec P (read_receipt_entries directory names files) (λ r d', nodes d' = nodes d ∧
    ∀ receipt, r = Ok receipt → dom receipt = dom files ∪ list_to_set names) d.
Proof.
  revert files d. induction names as [|name names IH]; intros files d; cbn [read_receipt_entries].
  { apply spec_ret. split; [done|]. intros receipt <-%(inj Ok). set_solver. }
  destruct (negb _); [apply spec_ret; quiet_error|]. cbv zeta.
  try_then reject_reparse_quiet; [|quiet_error]. intros [] d1 _ Hn1. cbv beta in Hn1.
  try_then read_bounded_quiet; [|quiet_error]. intros bytes d2 _ [Hn2 _].
  eapply spec_post; [apply IH|]. intros r d3 _ [Hn3 Hr]. split; [congruence|].
  intros receipt Hreceipt. rewrite (Hr _ Hreceipt), dom_insert_L. set_solver.
Qed.

Lemma read_directory_receipt_quiet P directory d :
  spec P (read_runtime_directory_receipt directory) (λ r d', nodes d' = nodes d ∧
    ∀ receipt, r = Ok receipt → dom receipt = list_to_set (entry_names (nodes d) directory)) d.
Proof.
  unfold read_runtime_directory_receipt. try_then reject_reparse_quiet; [|quiet_error]. intros [] d1 _ Hn1.
  cbv beta in Hn1. try_then read_bounded_directory_spec; [|quiet_error]. intros names d2 _ [Hn2 Hnames].
  destruct (Hnames names eq_refl) as (-> & _).
  try_then read_receipt_entries_quiet; [|quiet_error]. intros receipt d3 _ [Hn3 Hdom].
  destruct (negb _); apply spec_ret; (split; [congruence|]); [done|]. intros receipt' <-%(inj Ok).
  rewrite (Hdom _ eq_refl), dom_empty_L, Hn1. set_solver.
Qed.

Lemma verify_directory_receipt_quiet P directory expected d :
  spec P (verify_runtime_directory_receipt directory expected) (λ r d', nodes d' = nodes d ∧
    (r = Ok tt → dom expected = list_to_set (entry_names (nodes d) directory))) d.
Proof.
  unfold verify_runtime_directory_receipt.
  eapply spec_try; [apply (spec_map_err P _ _ (λ d', nodes d' = nodes d)
    (λ receipt _, dom receipt = list_to_set (entry_names (nodes d) directory))), read_directory_receipt_quiet|cbv beta|quiet_error].
  intros receipt d1 _ [Hn1 Hdom]. case_bool_decide as Hne; apply spec_ret; (split; [done|]); [done|]. intros _.
  specialize (Hdom _ eq_refl). cbv beta in Hdom. by destruct (decide (receipt = expected)) as [<-|].
Qed.

Lemma directory_matches_quiet P directory expected d :
  spec P (runtime_directory_matches directory expected) (λ _ d', nodes d' = nodes d) d.
Proof.
  unfold runtime_directory_matches. try_then read_directory_receipt_quiet; [|quiet_error].
  intros receipt d1 _ [Hn1 _]. by apply spec_ret.
Qed.

(** ** Removing a directory touches only it *)

Definition off (p : Path) (q : Path) : Prop := ¬ p `prefix_of` q.

Lemma below_off p q : p `prefix_of` q → ¬ off p q.
Proof. by intros Hp Hn. Qed.

Lemma repair_files_quiet P directory names d :
  spec P (repair_files directory names) (λ r d', nodes d' = nodes d ∧
    ∀ qs, r = Ok qs → ∀ q, q ∈ qs → directory `prefix_of` q) d.
Proof.
  revert d. induction names as [|name names IH]; intros d; cbn [repair_files].
  { apply spec_ret. split; [done|]. intros qs <-%(inj Ok) q Hq. by apply not_elem_of_nil in Hq. }
  destruct (negb _); [apply spec_ret; quiet_error|]. cbv zeta.
  try_then reject_reparse_quiet; [|quiet_error]. intros [] d1 _ Hn1. cbv beta in Hn1.
  try_then entry_file_len_spec; [|quiet_error]. intros [len|] d2 _ [Hn2 _]; [|apply spec_ret; quiet_error].
  destruct (_ <? _)%N; [apply spec_ret; quiet_error|]. try_then IH; [|quiet_error].
  intros rest d3 _ [Hn3 Hrest]. apply spec_ret. split; [congruence|].
  intros qs <-%(inj Ok) q [->|Hq]%elem_of_cons; [by eexists|]. by apply (Hrest _ eq_refl).
Qed.

Lemma remove_repair_directory_leaves p : leaves (off p) (remove_repair_directory p).
Proof.
  unfold remove_repair_directory. apply leaves_try; [apply leaves_reject|]. intros _.
  apply leaves_try; [apply leaves_bounded_directory|]. intros names.
  eapply leaves_quiet_try; [intros; apply repair_files_quiet|]. intros qs Hqs.
  apply leaves_try; [apply remove_files_leaves; intros q Hq; by apply below_off, Hqs|]. intros _.
  apply leaves_try; [|intros; apply leaves_ret]. apply leaves_lift, leaves_remove_dir. by apply below_off.
Qed.

Lemma leaves_verify_receipt (Q : Path → Prop) p expected : leaves Q (verify_runtime_directory_receipt p expected).
Proof. apply leaves_quiet. intros P d. eapply spec_post; [apply verify_directory_receipt_quiet|]. by intros r d' _ [? _]. Qed.

Lemma remove_receipted_leaves p expected : leaves (off p) (remove_receipted_runtime_directory p expected).
Proof. apply leaves_try; [apply leaves_verify_receipt|]. intros _. apply remove_repair_directory_leaves. Qed.

Lemma remove_staging_leaves p expected : leaves (off p) (remove_staging p expected).
Proof.
  unfold remove_staging. apply leaves_bind; [apply leaves_exists|].
  intros [|]; [apply remove_receipted_leaves|apply leaves_ret].
Qed.

Lemma backup_files_quiet P directory expected names d :
  spec P (backup_files directory expected names) (λ r d', nodes d' = nodes d ∧
    ∀ qs, r = Ok qs → ∀ q, q ∈ qs → directory `prefix_of` q) d.
Proof.
  revert d. induction names as [|name names IH]; intros d; cbn [backup_files].
  { apply spec_ret. split; [done|]. intros qs <-%(inj Ok) q Hq. by apply not_elem_of_nil in Hq. }
  destruct (expected !! name); [|apply spec_ret; quiet_error]. cbv zeta.
  try_then reject_reparse_quiet; [|quiet_error]. intros [] d1 _ Hn1. cbv beta in Hn1.
  try_then read_bounded_quiet; [|quiet_error]. intros bytes d2 _ [Hn2 _].
  case_bool_decide; [apply spec_ret; quiet_error|]. try_then IH; [|quiet_error].
  intros rest d3 _ [Hn3 Hrest]. apply spec_ret. split; [congruence|].
  intros qs <-%(inj Ok) q [->|Hq]%elem_of_cons; [by eexists|]. by apply (Hrest _ eq_refl).
Qed.

Context `{!DeferredDeleteLaws}.

Lemma remove_or_defer_leaves (Q : Path → Prop) p directory : ¬ Q p → leaves Q (remove_or_defer_after_reboot p directory).
Proof.
  intros HQ. unfold remove_or_defer_after_reboot.
  apply leaves_bind; [destruct directory; [by apply leaves_remove_dir|by apply leaves_remove_file]|].
  intros [[]|e]; [apply leaves_ret|]. apply leaves_bind; [|intros; apply leaves_ret].
  apply leaves_quiet. intros P d. apply delay_is_quiet.
Qed.

Lemma remove_backup_leaves p expected : leaves (off p) (remove_verified_backup_directory p expected).
Proof.
  unfold remove_verified_backup_directory. apply leaves_try; [apply leaves_reject|]. intros _.
  apply leaves_try; [apply leaves_bounded_directory|]. intros names.
  eapply leaves_quiet_try; [intros; apply backup_files_quiet|]. intros qs Hqs.
  apply leaves_try; [|intros _; apply remove_or_defer_leaves; by apply below_off].
  assert (∀ q, q ∈ qs → ¬ off p q) as Hoff by (intros q Hq; by apply below_off, Hqs). clear Hqs.
  induction qs as [|q qs IH]; cbn [remove_backup_files]; [apply leaves_ret|].
  apply leaves_try; [apply remove_or_defer_leaves, Hoff; by left|]. intros _. apply IH. intros; apply Hoff. by right.
Qed.
End Repair.

(** ** The exchange as a transition system *)

Section Exchange.
Context `{World, Sha256, ActivationJson, StoreJson, DeferredDelete, RepairJson, !RepairJsonLaws, !DeferredDeleteLaws}
  (program_files program_data : Path).
Notation paths := (machine_layout program_files program_data).
Notation J := (repair_journal_path (machine_layout program_files program_data)).
Implicit Types (P : Nodes → Prop) (d : Disk) (m : Nodes).

Definition entry_of (name : string) : Path := path_join (runtime_versions paths) name.

Lemma entries_unrelated a b : a ≠ b → unrelated (entry_of a) (entry_of b).
Proof. apply siblings_unrelated. Qed.

Lemma entry_off a b s : a ≠ b → off (entry_of a) (entry_of b ++ s).
Proof. intros Hab [t E]. symmetry in E. revert E. by apply unrelated_below, entries_unrelated. Qed.

Lemma journal_off a : off (entry_of a) J.
Proof.
  intros [t E]. unfold entry_of, repair_journal_path, path_join in E. cbn in E. unfold path_join in E.
  rewrite <- !app_assoc in E. by repeat apply app_inv_head in E.
Qed.

(** The journal is in phase [ph], of a repair of [v] with these two directories. *)
Definition repair_says (v staging backup : string) (ph : RuntimeRepairPhase) (X : option Node) : Prop :=
  ∃ b j, X = Some (File b) ∧ repair_from_slice b = Some j ∧ repair_phase j = ph ∧
    repair_version j = v ∧ repair_staging j = staging ∧ repair_backup j = backup.

Section Names.
Context (v staging backup : string) (old new : Subtree).
Notation D := (entry_of v).
Notation S := (entry_of staging).
Notation B := (entry_of backup).

Record apart : Prop := {
  staging_apart_version : staging ≠ v;
  backup_apart_version : backup ≠ v;
  staging_apart_backup : staging ≠ backup
}.

Definition old_in_place m : Prop := holds old D m ∧ vacant B m.
Definition old_aside m : Prop := gone D m ∧ holds old B m.
Definition new_in_place m : Prop := holds new D m ∧ gone S m ∧ holds old B m.

(** Where the trees are in each phase of the journal. *)
Definition arranged (ph : RuntimeRepairPhase) m : Prop :=
  match ph with
  | Prepared => old_in_place m ∨ old_aside m
  | OldMoved | NewPlacedUnverified => old_in_place m ∨ old_aside m ∨ new_in_place m
  | NewVerified => holds new D m ∧ gone S m
  end.

Definition repairing (ph : RuntimeRepairPhase) m : Prop :=
  repair_says v staging backup ph (m !! J) ∧ arranged ph m.

Definition settled (t : Subtree) m : Prop := m !! J = None ∧ holds t D m.

(** What the recovery of each phase leaves. *)
Definition target (ph : RuntimeRepairPhase) : Subtree := match ph with NewVerified => new | _ => old end.

Definition in_repair m : Prop := settled old m ∨ settled new m ∨ ∃ ph, repairing ph m.

Context (Hapart : apart).

(** The three trees. *)
Definition in_trees (q : Path) : Prop := D `prefix_of` q ∨ S `prefix_of` q ∨ B `prefix_of` q.

Lemma in_trees_entry q : in_trees q → ∃ name s, q = entry_of name ++ s.
Proof. intros [[s ->]|[[s ->]|[s ->]]]; by eexists _, _. Qed.

Lemma trees_near_journal q : in_trees q → q ∉ ancestors J ∧ (path_parent q = path_parent J → hidden q = false).
Proof.
  intros (name & s & ->)%in_trees_entry. split.
  - intros (n & _ & E)%ancestors_elem. apply (journal_off name). exists (s ++ drop n J).
    by rewrite app_assoc, E, take_drop.
  - intros E. exfalso. unfold repair_journal_path in E. rewrite path_parent_join in E.
    apply path_parent_spec in E as [x E]. apply (f_equal length) in E. unfold entry_of, path_join in E. cbn in E.
    unfold path_join in E. rewrite !length_app in E. simpl in E. lia.
Qed.

Lemma trees_not_journal q : in_trees q → q ≠ J.
Proof. intros (name & s & ->)%in_trees_entry E. apply (journal_off name). exists s. by rewrite E. Qed.

Definition trees_kept m m' : Prop := agree in_trees m m'.

Lemma kept_tree m m' name s : trees_kept m m' → name = v ∨ name = staging ∨ name = backup →
  m' !! (entry_of name ++ s) = m !! (entry_of name ++ s).
Proof. intros Hk Hn. apply Hk. unfold in_trees. destruct Hn as [-> | [-> | ->]]; [left|right; left|right; right]; by eexists. Qed.

Lemma kept_holds t m m' name : trees_kept m m' → name = v ∨ name = staging ∨ name = backup →
  holds t (entry_of name) m → holds t (entry_of name) m'.
Proof. intros Hk Hn Ht s. by rewrite (kept_tree _ _ _ _ Hk Hn). Qed.

Lemma kept_vacant m m' name : trees_kept m m' → name = v ∨ name = staging ∨ name = backup →
  vacant (entry_of name) m → vacant (entry_of name) m'.
Proof.
  intros Hk Hn [Ht|Ht]; [left; by eapply kept_holds|right]. rewrite <- (app_nil_r (entry_of name)).
  rewrite (kept_tree _ _ _ _ Hk Hn). by rewrite app_nil_r.
Qed.

Lemma arranged_kept ph m m' : trees_kept m m' → arranged ph m → arranged ph m'.
Proof.
  intros Hk. assert (old_in_place m → old_in_place m') as Hplace.
  { intros [??]. split; [eapply kept_holds; eauto|eapply kept_vacant; eauto]. }
  assert (old_aside m → old_aside m') as Haside by (intros [??]; split; eapply kept_holds; eauto).
  assert (holds new D m → holds new D m') as Hnew by (intros ?; eapply kept_holds; eauto).
  assert (gone S m → gone S m') as Hgone by (intros ?; eapply kept_holds; eauto).
  assert (holds old B m → holds old B m') as Hback by (intros ?; eapply kept_holds; eauto).
  unfold arranged, new_in_place. destruct ph; tauto.
Qed.

(** Writing and removing the journal. *)
Lemma write_repair_spec P j ph d :
  repair_phase j = ph → repair_version j = v → repair_staging j = staging → repair_backup j = backup →
  (∀ m, trees_kept (nodes d) m → m !! J = nodes d !! J ∨ repair_says v staging backup ph (m !! J) → P m) →
  spec P (write_repair_journal paths j) (λ r d', trees_kept (nodes d) (nodes d') ∧
    (nodes d' !! J = nodes d !! J ∨ repair_says v staging backup ph (nodes d' !! J)) ∧
    (r = Ok tt → repair_says v staging backup ph (nodes d' !! J))) d.
Proof.
  intros Hph Hv Hs Hb HP. unfold write_repair_journal. apply spec_try_ret; [|by intros; split; [|split; [left|]]].
  intros b Eb. destruct (repair_to_vec j) as [b'|] eqn:E; [|done]. apply (inj Ok) in Eb as ->.
  assert (repair_says v staging backup ph (Some (File b))) as Hsays.
  { exists b, j. split; [done|]. split; [by apply repair_roundtrip|done]. }
  eapply spec_mono; [apply spec_conj; [apply (leaves_atomic_write_near in_trees), trees_near_journal|apply atomic_write_spec]| |].
  - intros m [Hk [Hm _]]. apply HP; [done|]. destruct Hm as [Hm|Hm]; [by left|right; by rewrite Hm].
  - intros r d' _ [Hk [[Hm _] Hok]]. split; [done|]. split.
    + destruct Hm as [Hm|Hm]; [by left|right; by rewrite Hm].
    + intros Hr. by rewrite (Hok Hr).
Qed.

Lemma remove_repair_journal_spec P d :
  (∀ m, trees_kept (nodes d) m → m !! J = nodes d !! J ∨ m !! J = None → P m) →
  spec P (remove_repair_journal paths) (λ r d', trees_kept (nodes d) (nodes d') ∧
    (nodes d' !! J = nodes d !! J ∨ nodes d' !! J = None) ∧ (r = Ok tt → nodes d' !! J = None)) d.
Proof.
  intros HP. unfold remove_repair_journal. try_then reject_reparse_quiet; [|by intros e d1 _ ->; split; [|split; [left|]]].
  intros [] d1 _ Hn1. cbv beta in Hn1. rewrite <- Hn1 in HP |- *.
  assert (trees_kept (nodes d1) (delete J (nodes d1))) as Hk.
  { intros q Hq. rewrite lookup_delete_ne; [done|]. intros <-. by apply trees_not_journal in Hq. }
  assert (∀ m', match nodes d1 !! J with
    | Some (File _) | Some (Link _) => Ok (delete J (nodes d1))
    | Some Directory => Err (io_error WrongKind)
    | None => Err (io_error Missing) end = Ok m' → m' = delete J (nodes d1)) as Heff.
  { intros m' E. destruct (nodes d1 !! J) as [[]|]; try done; by apply (inj Ok) in E. }
  eapply spec_post; [apply lift_write_spec|].
  - intros partial m' ->%Heff. apply HP; [done|]. right. apply lookup_delete_eq.
  - intros r d' _ Hr. destruct r as [[]|e].
    + apply Heff in Hr. rewrite Hr. split; [done|]. rewrite lookup_delete_eq. by split; [right|].
    + destruct Hr as [Hr|[partial Hr]]; [rewrite Hr; by split; [|split; [left|]]|].
      apply Heff in Hr. rewrite Hr. split; [done|]. rewrite lookup_delete_eq. by split; [right|].
Qed.

(** Steps that only touch one tree. *)
Lemma off_journal p m m' : agree (off (entry_of p)) m m' → m' !! J = m !! J.
Proof. intros Hag. apply Hag, journal_off. Qed.

Lemma off_holds p t name m m' : p ≠ name → agree (off (entry_of p)) m m' →
  holds t (entry_of name) m → holds t (entry_of name) m'.
Proof. intros Hne Hag Ht s. rewrite Hag; [apply Ht|]. by apply entry_off. Qed.

Lemma off_vacant p name m m' : p ≠ name → agree (off (entry_of p)) m m' →
  vacant (entry_of name) m → vacant (entry_of name) m'.
Proof.
  intros Hne Hag. apply (vacant_agree _ _ _ _ Hag). intros s. by apply entry_off.
Qed.

(** The old tree is safe: in place or aside, whatever is in the staging directory. *)
Definition old_safe (ph : RuntimeRepairPhase) m : Prop :=
  repair_says v staging backup ph (m !! J) ∧ (old_in_place m ∨ old_aside m).

Lemma old_safe_staging ph m m' : agree (off S) m m' → old_safe ph m → old_safe ph m'.
Proof.
  destruct Hapart as [Hsv Hbv Hsb]. intros Hag [Hj Hm]. split; [by rewrite (off_journal _ _ _ Hag)|].
  destruct Hm as [[HD HB]|[HD HB]]; [left|right]; (split; [by apply (off_holds staging old v m m') + by apply (off_holds staging _ v m m')|]).
  - by apply (off_vacant staging backup m m').
  - by apply (off_holds staging _ backup m m').
Qed.

Lemma old_safe_repairing ph m : ph ≠ NewVerified → old_safe ph m → repairing ph m.
Proof. intros Hne [Hj Hm]. split; [done|]. destruct ph; simpl; [done|tauto|tauto|done]. Qed.

(** ** Recovery *)

Context (Htruth : truthful) (Hold : old [] = Some Directory) (Hnew : new [] = Some Directory).

Lemma exists_spec P p d :
  spec P (path_exists p) (λ b d', nodes d' = nodes d ∧ b = node_exists (nodes d) p) d.
Proof.
  eapply spec_post; [apply path_exists_spec|]. intros b d' _ (Hn & _ & Hb). split; [done|].
  apply Hb, (sees Htruth).
Qed.

Lemma holds_exists t p m : holds t p m → t [] = Some Directory → node_exists m p = true.
Proof. intros Hp Ht. unfold node_exists. by rewrite (holds_at _ _ _ Hp), Ht. Qed.

(** The old tree is moved back. *)
Lemma restore_spec ph d :
  repair_says v staging backup ph (nodes d !! J) → old_aside (nodes d) →
  spec (old_safe ph) (fs_rename_directory B D) (λ r d', old_safe ph (nodes d') ∧
    (r = Ok tt → old_in_place (nodes d'))) d.
Proof.
  destruct Hapart as [Hsv Hbv Hsb]. intros Hj [HD HB].
  assert (∀ m, moved_tree B D (nodes d) m → repair_says v staging backup ph (m !! J) ∧ old_in_place m) as Hmoved.
  { intros m (Hm & Hgone & Hrest). split; [rewrite Hrest; [done|apply journal_off|apply journal_off]|].
    split; [|by left]. intros s. rewrite Hm. apply HB. }
  eapply spec_post; [apply rename_spec; [by apply entries_unrelated|by left|]|].
  - intros m []%Hmoved. split; [done|by left].
  - intros r d' _ [Hok [Hd'|Hd']].
    + split; [rewrite Hd'; split; [done|by right]|]. intros Hr. by apply Hmoved, Hok.
    + apply Hmoved in Hd' as []. split; [split; [done|by left]|done].
Qed.

(** What every recovery that restores the old tree ends with. *)
Lemma settle_old_spec ph o n d :
  repair_says v staging backup ph (nodes d !! J) → old_in_place (nodes d) →
  spec (old_safe ph) (remove_staging S n)
    (λ r d', old_safe ph (nodes d') ∧ (r = Ok tt → holds old D (nodes d'))) d ∧
  spec (old_safe ph) (let? _ := verify_runtime_directory_receipt D o in remove_staging S n)
    (λ r d', old_safe ph (nodes d') ∧ (r = Ok tt → holds old D (nodes d'))) d.
Proof.
  destruct Hapart as [Hsv Hbv Hsb]. intros Hj Hm.
  assert (∀ e, leaves (off S) e → spec (old_safe ph) e
    (λ (r : result unit SetupError) d', old_safe ph (nodes d') ∧ (r = Ok tt → holds old D (nodes d'))) d) as Hoff.
  { intros e He. assert (old_safe ph (nodes d)) as Hsafe by (split; [done|by left]). eapply spec_mono; [apply He| |].
    - intros m Hag. by eapply old_safe_staging.
    - intros r d' _ Hag. cbv beta in Hag. split; [by eapply old_safe_staging|]. intros _. by eapply off_holds; [exact Hsv|exact Hag|apply Hm]. }
  split; apply Hoff; [apply remove_staging_leaves|].
  apply leaves_try; [apply leaves_verify_receipt|]. intros _. apply remove_staging_leaves.
Qed.

Lemma recover_prepared_spec o n d :
  old_safe Prepared (nodes d) →
  spec (old_safe Prepared) (recover_prepared_repair D S B o n)
    (λ r d', old_safe Prepared (nodes d') ∧ (r = Ok tt → holds old D (nodes d'))) d.
Proof.
  intros Hd. pose proof Hd as [Hj Hm]. unfold recover_prepared_repair. spec_then exists_spec.
  intros moved d1 _ [Hn1 ->]. rewrite <- Hn1 in *.
  eapply (spec_try _ _ _ (λ r d', old_safe Prepared (nodes d') ∧ (r = Ok tt → old_in_place (nodes d')))).
  - destruct Hm as [Hm|Hm].
    + rewrite (vacant_absent _ _ (proj2 Hm)). by apply spec_ret.
    + rewrite (holds_exists _ _ _ (proj2 Hm) Hold). try_then verify_directory_receipt_quiet.
      2: { intros e d2 _ [-> _]. by split. }
      intros [] d2 _ [Hn2 _]. rewrite <- Hn2 in *. spec_then exists_spec. intros present d3 _ [Hn3 ->].
      rewrite <- Hn3 in *. rewrite (vacant_absent D) by (left; apply Hm). apply spec_lift.
      eapply spec_post; [by apply restore_spec|]. intros r d4 _ [Hs Hok]. split; [done|]. destruct r as [[]|]; [intros _; by apply Hok|done].
  - intros [] d2 _ [[Hj2 _] Hok]. by apply settle_old_spec; [|apply Hok].
  - intros e d2 _ [Hs _]. by split.
Qed.

(** The recovery of an exchange that was not verified. *)
Definition unverified (ph : RuntimeRepairPhase) : Prop := ph = OldMoved ∨ ph = NewPlacedUnverified.

Definition restores (ph : RuntimeRepairPhase) (e : M Disk (result unit SetupError)) d : Prop :=
  spec (repairing ph) e (λ r d', repairing ph (nodes d') ∧ (r = Ok tt → holds old D (nodes d'))) d.

Lemma safe_repairing ph m : unverified ph → old_safe ph m → repairing ph m.
Proof. intros Hph. apply old_safe_repairing. by destruct Hph; subst. Qed.

Lemma restores_safe ph e d :
  unverified ph →
  spec (old_safe ph) e (λ r d', old_safe ph (nodes d') ∧ (r = Ok tt → holds old D (nodes d'))) d →
  restores ph e d.
Proof.
  intros Hph He. eapply spec_mono; [exact He|intros m; by apply safe_repairing|].
  intros r d' _ [Hs Hok]. by split; [apply safe_repairing|].
Qed.

Lemma recover_unverified_old ph o n d :
  unverified ph → old_safe ph (nodes d) → restores ph (recover_unverified_repair D S B o n) d.
Proof.
  intros Hph Hsafe. unfold recover_unverified_repair.
  assert (repairing ph (nodes d)) as Hd by by apply safe_repairing.
  unfold restores. spec_then exists_spec. intros present d1 _ [Hn1 ->]. rewrite <- Hn1 in *.
  pose proof Hsafe as [Hj Hm]. destruct Hm as [Hm|Hm].
  + rewrite (holds_exists _ _ _ (proj1 Hm) Hold). cbn [negb]. try_then directory_matches_quiet.
    2: { intros e d2 _ ->. by split. }
    intros is_old d2 _ Hn2. rewrite <- Hn2 in *. destruct is_old.
    * spec_then exists_spec. intros moved d3 _ [Hn3 ->]. rewrite <- Hn3 in *.
      rewrite (vacant_absent _ _ (proj2 Hm)). apply restores_safe; [done|]. by apply (settle_old_spec ph o n).
    * try_then directory_matches_quiet; [|by intros e d3 _ ->]. intros is_new d3 _ Hn3. rewrite <- Hn3 in *.
      destruct is_new; cbn [negb]; [|by apply spec_ret]. spec_then exists_spec. intros moved d4 _ [Hn4 ->].
      rewrite <- Hn4 in *. rewrite (vacant_absent _ _ (proj2 Hm)). cbn [negb]. by apply spec_ret.
  + rewrite (vacant_absent D) by (left; apply Hm). cbn [negb]. try_then verify_directory_receipt_quiet.
    2: { intros e d2 _ [-> _]. by split. }
    intros [] d2 _ [Hn2 _]. rewrite <- Hn2 in *. apply restores_safe; [done|].
    eapply (spec_try _ _ _ (λ r d', old_safe ph (nodes d') ∧ (r = Ok tt → old_in_place (nodes d')))).
    * apply spec_lift. eapply spec_post; [by apply restore_spec|]. intros r d4 _ [Hs Hok]. split; [done|]. destruct r as [[]|]; [intros _; by apply Hok|done].
    * intros [] d3 _ [[Hj3 _] Hok]. by apply settle_old_spec; [|apply Hok].
    * intros e d3 _ [Hs _]. by split.
Qed.

(** The new tree is moved back to the staging directory. *)
Lemma quarantine_spec ph d :
  unverified ph → repairing ph (nodes d) → new_in_place (nodes d) →
  spec (repairing ph) (lift_io (fs_rename_directory D S)) (λ r d', repairing ph (nodes d') ∧
    (r = Ok tt → repair_says v staging backup ph (nodes d' !! J) ∧ old_aside (nodes d'))) d.
Proof.
  destruct Hapart as [Hsv Hbv Hsb]. intros Hph Hd (HD & HS & HB).
  assert (∀ m, moved_tree D S (nodes d) m → repair_says v staging backup ph (m !! J) ∧ old_aside m) as Hmoved.
  { intros m (Hm & Hgone & Hrest). split; [rewrite Hrest; [apply Hd|apply journal_off|apply journal_off]|].
    split; [done|]. intros s. rewrite Hrest; [apply HB|by apply entry_off|by apply entry_off]. }
  assert (∀ m, moved_tree D S (nodes d) m → repairing ph m) as Hrep.
  { intros m []%Hmoved. apply safe_repairing; [done|]. split; [done|by right]. }
  apply spec_lift. eapply spec_post; [apply rename_spec; [by apply entries_unrelated|by left|exact Hrep]|].
  intros r d' _ [Hok Hd']. split; [by destruct Hd' as [->|?%Hrep]|].
  destruct r as [[]|]; [intros _; by apply Hmoved, Hok|done].
Qed.

Lemma recover_unverified_new ph o n d :
  unverified ph → repairing ph (nodes d) → new_in_place (nodes d) →
  restores ph (recover_unverified_repair D S B o n) d.
Proof.
  destruct Hapart as [Hsv Hbv Hsb]. intros Hph Hd Hplace. pose proof Hplace as (HD & HS & HB).
  unfold restores, recover_unverified_repair. spec_then exists_spec. intros present d1 _ [Hn1 ->]. rewrite <- Hn1 in *.
  rewrite (holds_exists _ _ _ HD Hnew). cbn [negb].
  try_then directory_matches_quiet; [|by intros e d2 _ ->]. intros is_old d2 _ Hn2. rewrite <- Hn2 in *.
  destruct is_old.
  { spec_then exists_spec. intros moved d3 _ [Hn3 ->]. rewrite <- Hn3 in *.
    rewrite (holds_exists _ _ _ HB Hold). by apply spec_ret. }
  try_then directory_matches_quiet; [|by intros e d3 _ ->]. intros is_new d3 _ Hn3. rewrite <- Hn3 in *.
  destruct is_new; cbn [negb]; [|by apply spec_ret]. spec_then exists_spec. intros moved d4 _ [Hn4 ->].
  rewrite <- Hn4 in *. rewrite (holds_exists _ _ _ HB Hold). cbn [negb]. spec_then exists_spec.
  intros staged d5 _ [Hn5 ->]. rewrite <- Hn5 in *. rewrite (vacant_absent S) by (by left).
  try_then verify_directory_receipt_quiet; [|by intros e d6 _ [-> _]]. intros [] d6 _ [Hn6 _]. rewrite <- Hn6 in *.
  eapply spec_try; [by apply (quarantine_spec ph)|cbv beta..]; [|by intros e d7 _ [? _]].
  intros [] d7 _ [_ Hok]. destruct (Hok eq_refl) as [Hj7 Ha7]. apply restores_safe; [done|].
  assert (old_safe ph (nodes d7)) as Hsafe7 by (split; [done|by right]).
  try_then verify_directory_receipt_quiet; [|by intros e d8 _ [-> _]]. intros [] d8 _ [Hn8 _]. rewrite <- Hn8 in *.
  eapply spec_bind; [by apply restore_spec|]. intros r d9 _ [Hs9 Hok9]. destruct r as [[]|]; [|by apply spec_ret].
  specialize (Hok9 eq_refl).
  try_then verify_directory_receipt_quiet; [|by intros e d10 _ [-> _]]. intros [] d10 _ [Hn10 _]. rewrite <- Hn10 in *.
  eapply spec_mono; [apply remove_receipted_leaves|intros m Hag; by eapply old_safe_staging|].
  intros r d11 _ Hag. cbv beta in Hag. split; [by eapply old_safe_staging|].
  intros _. by eapply off_holds; [exact Hsv|exact Hag|apply Hok9].
Qed.

Lemma recover_unverified_spec ph o n d :
  unverified ph → repairing ph (nodes d) → restores ph (recover_unverified_repair D S B o n) d.
Proof.
  intros Hph Hd. pose proof Hd as [Hj Hm].
  assert (old_safe ph (nodes d) ∨ new_in_place (nodes d)) as [Hs|Hs].
  { unfold old_safe. destruct Hph; subst ph; simpl in Hm; tauto. }
  - by apply recover_unverified_old.
  - by apply recover_unverified_new.
Qed.

Lemma recover_verified_spec o n d :
  repairing NewVerified (nodes d) →
  spec (repairing NewVerified) (recover_verified_repair D S B o n)
    (λ r d', repairing NewVerified (nodes d') ∧ (r = Ok tt → holds new D (nodes d'))) d.
Proof.
  destruct Hapart as [Hsv Hbv Hsb]. intros Hd. pose proof Hd as [Hj [HD HS]].
  unfold recover_verified_repair. spec_then exists_spec. intros staged d1 _ [Hn1 ->]. rewrite <- Hn1 in *.
  rewrite (vacant_absent S) by (by left). try_then verify_directory_receipt_quiet; [|by intros e d2 _ [-> _]].
  intros [] d2 _ [Hn2 _]. rewrite <- Hn2 in *. spec_then exists_spec. intros moved d3 _ [Hn3 ->]. rewrite <- Hn3 in *.
  assert (∀ m, agree (off B) (nodes d3) m → repairing NewVerified m) as Hoff.
  { intros m Hag. split; [by rewrite (off_journal _ _ _ Hag)|].
    split; by eapply off_holds; [|exact Hag|]. }
  destruct (node_exists _ _); [|by apply spec_ret].
  eapply spec_mono; [apply remove_backup_leaves|exact Hoff|]. intros r d4 _ Hag. cbv beta in Hag. apply Hoff in Hag as Hrep.
  split; [done|]. intros _. apply Hrep.
Qed.

Lemma reject_present_quiet P candidates d :
  spec P (reject_present candidates) (λ _ d', nodes d' = nodes d) d.
Proof.
  revert d. induction candidates as [|p candidates IH]; intros d; cbn [reject_present]; [by apply spec_ret|].
  spec_then exists_spec. intros present d1 _ [Hn1 _].
  eapply (spec_try _ _ _ (λ _ d', nodes d' = nodes d)).
  - destruct present; [|by apply spec_ret]. eapply spec_post; [apply reject_reparse_quiet|]. intros r d2 _ Hn2.
    cbv beta in Hn2. congruence.
  - intros _ d2 _ Hn2. cbv beta in Hn2. eapply spec_post; [apply IH|]. intros r d3 _ Hn3. cbv beta in Hn3. congruence.
  - by intros e d2 _ Hn2.
Qed.

Lemma repairing_in_repair ph m : repairing ph m → in_repair m.
Proof. intros Hm. right. right. by exists ph. Qed.

(** The end of every recovery: the journal goes. *)
Lemma conclude_spec ph d :
  repairing ph (nodes d) → holds (target ph) D (nodes d) →
  spec in_repair (remove_repair_journal paths)
    (λ r d', in_repair (nodes d') ∧ (r = Ok tt → settled (target ph) (nodes d'))) d.
Proof.
  intros Hd Ht. assert (∀ m, settled (target ph) m → in_repair m) as Hset.
  { intros m Hm. destruct ph; simpl in Hm; unfold in_repair; tauto. }
  assert (∀ m, trees_kept (nodes d) m → m !! J = nodes d !! J ∨ m !! J = None →
    in_repair m ∧ (m !! J = None → settled (target ph) m)) as Hone.
  { intros m Hk Hm. assert (m !! J = None → settled (target ph) m) as Hnone.
    { intros HN. split; [done|]. eapply kept_holds; [exact Hk|by left|done]. }
    split; [|done]. destruct Hm as [Hm|Hm]; [|by apply Hset, Hnone]. apply (repairing_in_repair ph).
    destruct Hd as [Hj Ha]. split; [by rewrite Hm|by eapply arranged_kept]. }
  eapply spec_post; [apply remove_repair_journal_spec|].
  - intros m Hk Hm. by apply Hone.
  - intros r d' _ (Hk & Hm & Hok). destruct (Hone _ Hk Hm) as [Hin Hnone]. split; [done|].
    intros Hr. by apply Hnone, Hok.
Qed.

Lemma recover_repairing ph d :
  repairing ph (nodes d) →
  spec in_repair (recover_interrupted_repair paths)
    (λ r d', in_repair (nodes d') ∧ (r = Ok tt → settled (target ph) (nodes d'))) d.
Proof.
  intros Hd. pose proof Hd as [(b & j & HJ & Hfrom & Hph & Hv & Hs & Hb) Ha].
  assert (∀ (e : SetupError) d', nodes d' = nodes d →
    in_repair (nodes d') ∧ (Err e = Ok tt → settled (target ph) (nodes d'))) as Hfail.
  { intros e d' ->. split; [by eapply repairing_in_repair|done]. }
  unfold recover_interrupted_repair. spec_then exists_spec. intros present d1 _ [Hn1 ->].
  unfold node_exists. rewrite HJ. cbn [negb].
  try_then read_bounded_quiet; [|intros e d2 _ [Hn2 _]; apply Hfail; congruence]. intros bytes d2 _ [Hn2 Hread].
  destruct (Hread bytes eq_refl) as [_ Hbytes]. unfold readable in Hbytes. rewrite Hn1, HJ in Hbytes.
  apply (inj Ok) in Hbytes as <-. assert (nodes d2 = nodes d) as Hnd by congruence.
  apply spec_try_ret; [|intros; by apply Hfail]. intros j' Hj'. rewrite Hfrom in Hj'. apply (inj Ok) in Hj' as <-.
  destruct (negb (journal_supported j)); [apply spec_ret; by apply Hfail|]. cbv zeta. rewrite Hv, Hs, Hb, Hph.
  change (path_join (runtime_versions paths)) with entry_of.
  try_then reject_present_quiet; [|intros e d3 _ Hn3; apply Hfail; cbv beta in Hn3; congruence].
  intros [] d3 _ Hn3. cbv beta in Hn3. assert (nodes d3 = nodes d) as Hnd3 by congruence. rewrite <- Hnd3 in Hd.
  eapply (spec_try _ _ _ (λ r d', repairing ph (nodes d') ∧ (r = Ok tt → holds (target ph) D (nodes d')))).
  - assert (∀ (e : M Disk (result unit SetupError)) t,
      spec (repairing ph) e (λ r d', repairing ph (nodes d') ∧ (r = Ok tt → holds t D (nodes d'))) d3 →
      spec in_repair e (λ r d', repairing ph (nodes d') ∧ (r = Ok tt → holds t D (nodes d'))) d3) as Hweak.
    { intros e t He. eapply spec_mono; [exact He|intros m; apply repairing_in_repair|by intros r d' _ ?]. }
    destruct ph; cbn [target]; apply Hweak.
    + eapply spec_mono; [apply recover_prepared_spec; exact Hd| |].
      * intros m. by apply old_safe_repairing.
      * intros r d' _ [Hsafe Hok]. split; [by apply old_safe_repairing|done].
    + apply recover_unverified_spec; [by left|done].
    + apply recover_unverified_spec; [by right|done].
    + by apply recover_verified_spec.
  - intros [] d4 _ [Hr Hok]. apply conclude_spec; [done|by apply Hok].
  - intros e d4 _ [Hr _]. split; [by eapply repairing_in_repair|done].
Qed.

Lemma recover_repair_spec d :
  in_repair (nodes d) →
  spec in_repair (recover_interrupted_repair paths)
    (λ r d', in_repair (nodes d') ∧ (r = Ok tt → settled old (nodes d') ∨ settled new (nodes d'))) d.
Proof.
  assert (settled old (nodes d) ∨ settled new (nodes d) →
    spec in_repair (recover_interrupted_repair paths)
      (λ r d', in_repair (nodes d') ∧ (r = Ok tt → settled old (nodes d') ∨ settled new (nodes d'))) d) as Hsettled.
  { intros Hd. assert (nodes d !! J = None) as HJ by (by destruct Hd as [[]|[]]).
    unfold recover_interrupted_repair. spec_then exists_spec. intros present d1 _ [Hn1 ->].
    unfold node_exists. rewrite HJ. cbn [negb]. apply spec_ret. rewrite Hn1. split; [unfold in_repair; tauto|done]. }
  intros [Hd|[Hd|[ph Hd]]]; [auto|auto|]. eapply spec_post; [by apply (recover_repairing ph)|].
  intros r d' _ [Hin Hok]. split; [done|]. intros Hr. specialize (Hok Hr). destruct ph; simpl in Hok; auto.
Qed.

(** ** The exchange *)

Definition exchanges (e : M Disk (result unit SetupError)) d : Prop :=
  spec in_repair e (λ r d', in_repair (nodes d') ∧ (r = Ok tt → settled new (nodes d'))) d.

Lemma fail_and_recover_spec error d : in_repair (nodes d) → exchanges (fail_repair_and_recover paths error) d.
Proof.
  intros Hd. unfold exchanges, fail_repair_and_recover. eapply spec_bind; [by apply recover_repair_spec|cbv beta].
  intros [[]|e] d' _ [Hin _]; by apply spec_ret.
Qed.

(** A step whose failure is answered with the recovery. *)
Lemma or_recover_spec step rest (G : Disk → Prop) d :
  spec in_repair step (λ r d', in_repair (nodes d') ∧ (r = Ok tt → G d')) d →
  (∀ d', in_repair (nodes d') → G d' → exchanges rest d') →
  exchanges (or_recover paths step rest) d.
Proof.
  intros Hstep Hrest. unfold exchanges, or_recover. eapply spec_bind; [exact Hstep|cbv beta].
  intros [[]|e] d' _ [Hin HG]; [by apply Hrest; [|apply HG]|by apply fail_and_recover_spec].
Qed.

(** The journal moves from one phase to another while the trees allow both. *)
Lemma advance_spec ph ph' j d :
  repairing ph (nodes d) → arranged ph' (nodes d) →
  repair_version j = v → repair_staging j = staging → repair_backup j = backup →
  spec in_repair (write_repair_journal paths (with_repair_phase j ph'))
    (λ r d', in_repair (nodes d') ∧ (r = Ok tt → repairing ph' (nodes d') ∧ trees_kept (nodes d) (nodes d'))) d.
Proof.
  intros [Hj Ha] Ha' Hv Hs Hb.
  assert (∀ m, trees_kept (nodes d) m → m !! J = nodes d !! J ∨ repair_says v staging backup ph' (m !! J) → in_repair m) as Hone.
  { intros m Hk [Hm|Hm]; [apply (repairing_in_repair ph)|apply (repairing_in_repair ph')];
      (split; [by rewrite ?Hm|by eapply arranged_kept]). }
  eapply spec_post; [apply (write_repair_spec _ _ ph'); [done|done|done|done|exact Hone]|].
  intros r d' _ (Hk & Hm & Hok). split; [by apply Hone|]. intros Hr. split; [|done].
  split; [by apply Hok|by eapply arranged_kept].
Qed.

(** The old tree is moved aside, and the new one in place. *)
Lemma move_aside_spec d :
  repairing Prepared (nodes d) → old_in_place (nodes d) → holds new S (nodes d) →
  spec in_repair (lift_io (fs_rename_directory D B)) (λ r d', in_repair (nodes d') ∧
    (r = Ok tt → repairing Prepared (nodes d') ∧ old_aside (nodes d') ∧ holds new S (nodes d'))) d.
Proof.
  destruct Hapart as [Hsv Hbv Hsb]. intros Hd [HD HB] HS.
  assert (∀ m, moved_tree D B (nodes d) m → repairing Prepared m ∧ old_aside m ∧ holds new S m) as Hmoved.
  { intros m (Hm & Hgone & Hrest). assert (old_aside m) as Ha by (split; [done|]; intros s; rewrite Hm; apply HD).
    split; [split; [rewrite Hrest; [apply Hd|apply journal_off|apply journal_off]|by right]|].
    split; [done|]. intros s. rewrite Hrest; [apply HS|by apply entry_off|by apply entry_off]. }
  apply spec_lift. eapply spec_post; [apply rename_spec; [by apply entries_unrelated|done|]|].
  - intros m [Hr _]%Hmoved. by eapply repairing_in_repair.
  - intros r d' _ [Hok Hd']. split; [destruct Hd' as [->|[Hr _]%Hmoved]; by eapply repairing_in_repair|].
    destruct r as [[]|]; [intros _; by apply Hmoved, Hok|done].
Qed.

Lemma move_in_place_spec d :
  repairing OldMoved (nodes d) → old_aside (nodes d) → holds new S (nodes d) →
  spec in_repair (lift_io (fs_rename_directory S D)) (λ r d', in_repair (nodes d') ∧
    (r = Ok tt → repairing OldMoved (nodes d') ∧ new_in_place (nodes d'))) d.
Proof.
  destruct Hapart as [Hsv Hbv Hsb]. intros Hd [HD HB] HS.
  assert (∀ m, moved_tree S D (nodes d) m → repairing OldMoved m ∧ new_in_place m) as Hplaced.
  { intros m (Hm & Hgone & Hrest). assert (new_in_place m) as Hplace.
    { split; [intros s; rewrite Hm; apply HS|]. split; [done|]. intros s.
      rewrite Hrest; [apply HB|by apply entry_off|by apply entry_off]. }
    split; [|done]. split; [rewrite Hrest; [apply Hd|apply journal_off|apply journal_off]|]. right. by right. }
  apply spec_lift. eapply spec_post; [apply rename_spec; [by apply entries_unrelated|by left|]|].
  - intros m [Hr _]%Hplaced. by eapply repairing_in_repair.
  - intros r d' _ [Hok Hd']. split; [destruct Hd' as [->|[Hr _]%Hplaced]; by eapply repairing_in_repair|].
    destruct r as [[]|]; [intros _; by apply Hplaced, Hok|done].
Qed.

(** Once the new tree is verified, the old one goes and then the journal. *)
Lemma clean_up_spec o d :
  repairing NewVerified (nodes d) →
  exchanges (let? _ := verify_runtime_directory_receipt B o in
             let? _ := remove_verified_backup_directory B o in remove_repair_journal paths) d.
Proof.
  destruct Hapart as [Hsv Hbv Hsb]. intros Hd. apply repairing_in_repair in Hd as Hin. unfold exchanges.
  try_then verify_directory_receipt_quiet; [|by intros e d1 _ [-> _]]. intros [] d1 _ [Hn1 _]. rewrite <- Hn1 in *.
  assert (∀ m, agree (off B) (nodes d1) m → repairing NewVerified m) as Hoff.
  { intros m Hag. destruct Hd as [Hj [HD HS]]. split; [by rewrite (off_journal _ _ _ Hag)|].
    split; by eapply off_holds; [|exact Hag|]. }
  eapply spec_try; [eapply spec_mono; [apply remove_backup_leaves| |intros r d' _ Hr; exact Hr]|cbv beta..].
  - intros m Hag. by eapply repairing_in_repair, Hoff.
  - intros [] d2 _ Hag. apply Hoff in Hag. apply (conclude_spec NewVerified); [done|apply Hag].
  - intros e d2 _ Hag. split; [by eapply repairing_in_repair, Hoff|done].
Qed.

Lemma exchange_spec payload j d :
  repair_phase j = Prepared → repair_version j = v → repair_staging j = staging → repair_backup j = backup →
  nodes d !! J = None → old_in_place (nodes d) → holds new S (nodes d) →
  exchanges (exchange_runtime paths D S B payload j) d.
Proof.
  intros Hph Hv Hs Hb HJ Hd HS. unfold exchange_runtime.
  assert (∀ m, trees_kept (nodes d) m → m !! J = nodes d !! J ∨ repair_says v staging backup Prepared (m !! J) →
    in_repair m) as Hstart.
  { intros m Hk [Hm|Hm].
    - left. split; [congruence|]. eapply kept_holds; [exact Hk|by left|apply Hd].
    - apply (repairing_in_repair Prepared). split; [done|]. eapply arranged_kept; [exact Hk|by left]. }
  eapply spec_try; [apply (write_repair_spec _ _ Prepared); [done|done|done|done|exact Hstart]|cbv beta..].
  2: { intros e d1 _ (Hk & Hm & _). split; [by apply Hstart|done]. }
  intros [] d1 _ (Hk & _ & Hok). specialize (Hok eq_refl). assert (old_in_place (nodes d1)) as Hplace1.
  { destruct Hd. split; [eapply kept_holds; [exact Hk|by left|done]|eapply kept_vacant; [exact Hk|auto|done]]. }
  eapply or_recover_spec; [apply move_aside_spec; [split; [done|by left]|done|eapply kept_holds; [exact Hk|auto|done]]|cbv beta].
  intros d2 _ (Hr2 & Ha2 & HS2).
  eapply or_recover_spec; [apply (advance_spec Prepared); [done|right; by left|done..]|cbv beta].
  intros d3 _ [Hr3 Hk3]. destruct Ha2 as [HD2 HB2].
  eapply or_recover_spec; [apply move_in_place_spec; [done|split; eapply kept_holds; eauto|eapply kept_holds; eauto]|cbv beta].
  intros d4 _ [Hr4 Hn4].
  eapply or_recover_spec; [apply (advance_spec OldMoved); [done|right; by right|done..]|cbv beta].
  intros d5 Hin5 [Hr5 Hk5].
  apply (or_recover_spec _ _ (λ d', nodes d' = nodes d5)).
  { eapply spec_post; [apply verify_existing_payload_spec|]. intros r d6 _ [-> _]. by split. }
  intros d6 _ Hn6. rewrite <- Hn6 in *. destruct Hn4 as (HD4 & HS4 & HB4).
  eapply or_recover_spec; [apply (advance_spec NewPlacedUnverified); [done|split; eapply kept_holds; eauto|done..]|cbv beta].
  intros d7 _ [Hr7 _]. by apply clean_up_spec.
Qed.
End Names.

(** ** The whole repair *)

(** The state of a repair of version [v], whatever its two directories are called. *)
Definition repair_state (v : string) (old new : Subtree) m : Prop :=
  ∃ staging backup, apart v staging backup ∧ in_repair v staging backup old new m.

Definition subtree (p : Path) m : Subtree := λ s, m !! (p ++ s).

Lemma journal_not_ancestor name : J ∉ ancestors (entry_of name).
Proof.
  intros Hin%ancestors_prefix.
  by apply (siblings_not_prefix (service_root paths) "runtime-repair.json" "bin" [name]) in Hin.
Qed.

Lemma entry_not_ancestor a b s : a ≠ b → entry_of a ++ s ∉ ancestors (entry_of b).
Proof.
  intros Hab [t E]%ancestors_prefix. rewrite <- app_assoc, <- (app_nil_r (entry_of b)) in E. symmetry in E.
  revert E. by apply unrelated_below, entries_unrelated.
Qed.

Lemma repair_names_apart v nonce :
  apart v (".repair-new-" ++ v ++ "-" ++ nonce) (".repair-old-" ++ v ++ "-" ++ nonce).
Proof.
  split; intros E; [..|done]; apply (f_equal String.length) in E; rewrite !string_length_app in E; simpl in E; lia.
Qed.

Context (Htruth : truthful) (payload : LoadedPayload).
Notation version := (verified_version (verified payload)).
Notation files := (payload_files payload).

(** Staging the new tree leaves the old one, its place for the backup and the journal. *)
Definition aside_staging (backup : string) (q : Path) : Prop :=
  entry_of version `prefix_of` q ∨ entry_of backup `prefix_of` q ∨ q = J.

Lemma aside_off staging backup q :
  apart version staging backup → aside_staging backup q → off (entry_of staging) q.
Proof.
  intros [Hsv Hbv Hsb] [[s ->]|[[s ->]| ->]]; [by apply entry_off|by apply entry_off|apply journal_off].
Qed.

Lemma create_staging_spec staging backup P d :
  apart version staging backup → orphanless (nodes d) → node_exists (nodes d) (entry_of staging) = false →
  (∀ m, agree (aside_staging backup) (nodes d) m → P m) →
  spec P (create_protected_directory (entry_of staging)) (λ r d', agree (aside_staging backup) (nodes d) (nodes d') ∧
    (r = Ok tt → holds_payload ∅ (entry_of staging) (nodes d'))) d.
Proof.
  intros [Hsv Hbv Hsb] Ho Hfree HP. eapply spec_post; [eapply (spec_frame (aside_staging backup));
    [apply leaves_protected_directory|apply create_directory_spec; [|exact Hfree|done]|exact HP]|].
  - intros q [[s ->]|[[s ->]| ->]]; [by apply entry_not_ancestor|by apply entry_not_ancestor|apply journal_not_ancestor].
  - unfold entry_of, path_join. by destruct (runtime_versions paths).
  - intros r d' _ [Hk Hok]. split; [done|]. intros Hr. destruct (Hok Hr) as (Hnone & Hdir & Hrest).
    intros [|x s]; [by rewrite app_nil_r|]. rewrite Hrest.
    + rewrite orphanless_below; [by destruct s|done| |done]. unfold entry_of, path_join. by destruct (runtime_versions paths).
    + intros Hin%ancestors_prefix%prefix_length. rewrite length_app in Hin. simpl in Hin. lia.
Qed.

Lemma write_staging_spec staging backup P d :
  apart version staging backup → holds_payload ∅ (entry_of staging) (nodes d) →
  (∀ m, agree (aside_staging backup) (nodes d) m → P m) →
  spec P (let? _ := write_payload (entry_of staging) (entries_in_order files) in
          verify_existing_payload (entry_of staging) files)
    (λ r d', agree (aside_staging backup) (nodes d) (nodes d') ∧
       (r = Ok tt → holds (payload_nodes files) (entry_of staging) (nodes d'))) d.
Proof.
  intros Hapart Hempty HP. destruct (entries_in_order_map files) as [Hnd Hmap].
  eapply spec_try; [eapply (spec_frame (aside_staging backup));
    [apply write_payload_leaves|apply (write_payload_spec _ _ ∅); [done|done|exact Hempty]|exact HP]|cbv beta..].
  - intros name Hname. apply (aside_off staging backup) in Hname; [|done]. apply Hname. by eexists.
  - intros [] d1 _ [Hk Hok]. specialize (Hok eq_refl). rewrite Hmap, (right_id_L (∅ : gmap string (list ascii)) (∪)) in Hok.
    eapply spec_post; [apply verify_existing_payload_spec|]. intros r d2 _ [-> _]. split; [done|]. by intros _.
  - by intros e d1 _ [Hk _].
Qed.

Lemma replace_payload_spec d :
  orphanless (nodes d) → nodes d !! entry_of version = Some Directory → nodes d !! J = None →
  let old := subtree (entry_of version) (nodes d) in
  spec (repair_state version old (payload_nodes files)) (replace_runtime_payload paths (entry_of version) payload)
    (λ r d', repair_state version old (payload_nodes files) (nodes d') ∧
       (r = Ok tt → settled version (payload_nodes files) (nodes d'))) d.
Proof.
  intros Ho Hdir HJ old. set (state := repair_state version old (payload_nodes files)).
  assert (∀ backup m, agree (aside_staging backup) (nodes d) m → settled version old m) as Hsettled.
  { intros backup m Hk. split; [rewrite (Hk J) by (right; right; done); exact HJ|]. intros s. apply Hk. left. by eexists. }
  assert (∀ m, settled version old m → state m) as Hstate.
  { intros m Hm. exists (".repair-new-" ++ version ++ "-")%string, (".repair-old-" ++ version ++ "-")%string.
    split; [apply (repair_names_apart version "")|by left]. }
  unfold replace_runtime_payload. eapply spec_bind; [apply nonce_spec|cbv beta]. intros nonce d1 _ Hn1. cbv zeta.
  pose proof (repair_names_apart version nonce) as Hapart.
  set (staging := (".repair-new-" ++ version ++ "-" ++ nonce)%string) in *.
  set (backup := (".repair-old-" ++ version ++ "-" ++ nonce)%string) in *.
  change (path_join (runtime_versions paths)) with entry_of.
  assert (∀ m, agree (aside_staging backup) (nodes d) m → state m) as Hkeep by (intros; by eapply Hstate, Hsettled).
  spec_then (exists_spec Htruth). intros staged d2 _ [Hn2 ->].
  assert (agree (aside_staging backup) (nodes d) (nodes d2)) as Hd2 by (by rewrite Hn2, Hn1).
  destruct (node_exists _ _) eqn:Estaging; [apply spec_ret; split; [by apply Hkeep|done]|].
  spec_then (exists_spec Htruth). intros moved d3 _ [Hn3 ->].
  assert (nodes d3 = nodes d) as Hnd3 by congruence.
  destruct (node_exists (nodes d2) _) eqn:Ebackup; [apply spec_ret; split; [apply Hkeep; by rewrite Hnd3|done]|].
  assert (vacant (entry_of backup) (nodes d)) as Hvacant.
  { rewrite <- Hnd3, Hn3. unfold node_exists in Ebackup. destruct (nodes d2 !! entry_of backup) as [[| |[]]|] eqn:E; try done; [by right|].
    left. intros s. apply orphanless_below; [by rewrite Hn2, Hn1| |done]. unfold entry_of, path_join. by destruct (runtime_versions paths). }
  eapply spec_try; [apply (create_staging_spec staging backup); [done|by rewrite Hnd3|by rewrite Hnd3, <- Hn1|]|cbv beta..].
  { intros m Hm. apply Hkeep. by rewrite <- Hnd3. }
  2: { intros e d4 _ [Hk _]. split; [|done]. apply Hkeep. by rewrite <- Hnd3. }
  intros [] d4 _ [Hk4 Hempty]. specialize (Hempty eq_refl). rewrite Hnd3 in Hk4.
  eapply spec_bind; [apply (write_staging_spec staging backup); [done|done|]|cbv beta].
  { intros m Hm. apply Hkeep. by etrans. }
  intros written d5 _ [Hk5' Hwritten]. assert (agree (aside_staging backup) (nodes d) (nodes d5)) as Hk5 by by etrans. clear Hk5'. destruct written as [[]|e].
  - try_then read_directory_receipt_quiet; [|intros e d6 _ [Hn6 _]; split; [apply Hkeep; by rewrite Hn6|done]].
    intros receipt d6 _ [Hn6 _]. rewrite <- Hn6 in Hk5, Hwritten. specialize (Hwritten eq_refl).
    destruct (Hsettled _ _ Hk5) as [HJ6 HD6].
    eapply spec_mono; [apply (exchange_spec version staging backup old (payload_nodes files)); try done| |].
    + unfold old, subtree. by rewrite app_nil_r.
    + split; [done|]. eapply vacant_agree; [exact Hk5| |done]. intros s. right. left. by eexists.
    + intros m Hm. by exists staging, backup.
    + intros r d7 _ [Hin Hok]. split; [by exists staging, backup|done].
  - eapply spec_bind; [eapply spec_mono; [apply remove_repair_directory_leaves| |intros r d6 _ Hr; exact Hr]|cbv beta].
    + intros m Hm. apply Hkeep. etrans; [exact Hk5|]. intros q Hq. by apply Hm, (aside_off staging backup).
    + intros _ d6 _ Hm. apply spec_ret. split; [|done]. apply Hkeep. etrans; [exact Hk5|]. intros q Hq.
      by apply Hm, (aside_off staging backup).
Qed.
(** A generation is whole: the old or the new one in its place, or the old one in the
    backup that the journal names. *)
Definition generation_whole (v : string) (old new : Subtree) m : Prop :=
  holds old (entry_of v) m ∨ holds new (entry_of v) m ∨
  ∃ staging backup ph, repair_says v staging backup ph (m !! J) ∧ holds old (entry_of backup) m.

Lemma repair_state_whole v old new m : repair_state v old new m → generation_whole v old new m.
Proof.
  intros (staging & backup & _ & Hm). unfold generation_whole.
  destruct Hm as [[_ Hm]|[[_ Hm]|[ph [Hj Ha]]]]; [by left|by right; left|].
  unfold arranged, old_in_place, old_aside, new_in_place in Ha.
  destruct ph; destruct_or?; destruct_and?; eauto 10.
Qed.

(** The recovery of any such state. *)
Lemma recover_state_spec v old new d :
  old [] = Some Directory → new [] = Some Directory → repair_state v old new (nodes d) →
  spec (repair_state v old new) (recover_interrupted_repair paths)
    (λ r d', repair_state v old new (nodes d') ∧ (r = Ok tt → settled v old (nodes d') ∨ settled v new (nodes d'))) d.
Proof.
  intros Hold Hnew (staging & backup & Hapart & Hd).
  eapply spec_mono; [by apply (recover_repair_spec v staging backup old new)| |].
  - intros m Hm. by exists staging, backup.
  - intros r d' _ [Hin Hok]. split; [by exists staging, backup|done].
Qed.
End Exchange.

(** ** Properties *)


Section Stall.
Context `{World, Sha256, ActivationJson, StoreJson, DeferredDelete, RepairJson}.

(** A step that only fails and changes nothing. *)
Definition only_fails (e : M Disk (result unit SetupError)) (d : Disk) : Prop :=
  spec (λ m, m = nodes d) e (λ r d', nodes d' = nodes d ∧ is_ok r = false) d.

Lemma fails_after {A : Type} (e : M Disk (result A SetupError)) (k : A → M Disk (result unit SetupError)) d :
  (∀ P, spec P e (λ _ d', nodes d' = nodes d) d) → (∀ a d', nodes d' = nodes d → only_fails (k a) d') →
  only_fails (let? a := e in k a) d.
Proof.
  intros He Hk. eapply spec_try; [apply He|cbv beta..].
  - intros a d' _ Hn. rewrite <- Hn. by apply Hk.
  - by intros error d' _ Hn.
Qed.

Lemma fails_after_read {A : Type} (e : M Disk A) (k : A → M Disk (result unit SetupError)) (G : A → Prop) d :
  (∀ P, spec P e (λ a d', nodes d' = nodes d ∧ G a) d) →
  (∀ a d', nodes d' = nodes d → G a → only_fails (k a) d') → only_fails (let! a := e in k a) d.
Proof.
  intros He Hk. eapply spec_bind; [apply He|cbv beta]. intros a d' _ [Hn HG]. rewrite <- Hn. by apply Hk.
Qed.

Lemma incomplete_refused directory expected name d :
  name ∈ dom expected → nodes d !! path_join directory name = None →
  only_fails (remove_receipted_runtime_directory directory expected) d.
Proof.
  intros Hin Hnone. eapply spec_try; [apply verify_directory_receipt_quiet|cbv beta..].
  - intros [] d' _ [_ Hdom]. exfalso. rewrite (Hdom eq_refl) in Hin.
    apply elem_of_list_to_set, entry_names_elem in Hin as [n Hn]. congruence.
  - by intros e d' _ [Hn _].
Qed.

Context (Htruth : truthful) (destination staging backup : Path).

Definition half_removed (new : RuntimeDirectoryReceipt) (m : Nodes) : Prop :=
  m !! destination = Some Directory ∧ m !! backup = None ∧ m !! staging = Some Directory ∧
  ∃ name, name ∈ dom new ∧ m !! path_join staging name = None.

Lemma half_removed_refused new d : half_removed new (nodes d) → only_fails (remove_staging staging new) d.
Proof.
  intros (_ & _ & HS & name & Hin & Hnone). unfold remove_staging.
  apply (fails_after_read _ _ (λ b, b = node_exists (nodes d) staging)); [intros; by apply exists_spec|].
  intros present d1 Hn1 ->. unfold node_exists. rewrite HS.
  apply (incomplete_refused _ _ name); [done|by rewrite Hn1].
Qed.

Lemma half_removed_stalls ph old new d :
  ph ≠ NewVerified → half_removed new (nodes d) →
  only_fails
    match ph with
    | Prepared => recover_prepared_repair destination staging backup old new
    | OldMoved | NewPlacedUnverified => recover_unverified_repair destination staging backup old new
    | NewVerified => recover_verified_repair destination staging backup old new
    end d.
Proof.
  intros Hph Hd. pose proof Hd as (HD & HB & _). assert (node_exists (nodes d) backup = false) as Eb by (unfold node_exists; by rewrite HB).
  assert (node_exists (nodes d) destination = true) as Ed by (unfold node_exists; by rewrite HD).
  assert (only_fails (recover_prepared_repair destination staging backup old new) d ∧
          only_fails (recover_unverified_repair destination staging backup old new) d) as [Hp Hu]; [|by destruct ph].
  assert (∀ p d1, nodes d1 = nodes d → ∀ P, spec P (path_exists p) (λ b d', nodes d' = nodes d1 ∧ b = node_exists (nodes d) p) d1) as Hex.
  { intros p d1 Hn1 P. rewrite <- Hn1. by apply exists_spec. }
  split.
  - unfold recover_prepared_repair. eapply fails_after_read; [by apply Hex|]. intros moved d1 Hn1 ->. rewrite Eb.
    apply fails_after; [intros; by apply spec_ret|]. intros _ d2 Hn2.
    apply fails_after; [intros; eapply spec_post; [apply verify_directory_receipt_quiet|]; by intros r d' _ [? _]|].
    intros _ d3 Hn3. apply half_removed_refused. by rewrite Hn3, Hn2, Hn1.
  - unfold recover_unverified_repair. eapply fails_after_read; [by apply Hex|]. intros present d1 Hn1 ->. rewrite Ed.
    cbn [negb]. apply fails_after; [intros; apply directory_matches_quiet|]. intros is_old d2 Hn2. destruct is_old.
    + eapply fails_after_read; [apply Hex; congruence|]. intros moved d3 Hn3 ->. rewrite Eb.
      apply half_removed_refused. by rewrite Hn3, Hn2, Hn1.
    + apply fails_after; [intros; apply directory_matches_quiet|]. intros is_new d3 Hn3.
      destruct is_new; cbn [negb]; [|by apply spec_ret].
      eapply fails_after_read; [apply Hex; congruence|]. intros moved d4 Hn4 ->. rewrite Eb. by apply spec_ret.
Qed.
End Stall.

(** A recovery that is cut off while it removes the staged copy can never be repeated:
    when the journal is not in its last phase, the old generation is in its place and
    the staging directory has lost one of its files, the recovery refuses and changes
    nothing, because it removes that directory only while it matches its receipt.  (The
    removal of the backup does accept a part of its receipt.) *)
Theorem half_removed_staging_stalls_repair
    `{World, Sha256, ActivationJson, StoreJson, DeferredDelete, RepairJson} program_files program_data bytes j d
  (Htruth : truthful)
  (HJ : nodes d !! repair_journal_path (machine_layout program_files program_data) = Some (File bytes))
  (Hparse : repair_from_slice bytes = Some j) (Hphase : repair_phase j ≠ NewVerified)
  (Hhalf : half_removed (entry_of program_files program_data (repair_version j))
     (entry_of program_files program_data (repair_staging j)) (entry_of program_files program_data (repair_backup j))
     (new_receipt j) (nodes d)) :
  let paths := machine_layout program_files program_data in
  ∃ e d', recover_interrupted_repair paths d = Some (Err e, d') ∧ (∀ m, visited d d' m → m = nodes d) ∧ nodes d' = nodes d.
Proof.
  intros paths. assert (only_fails (recover_interrupted_repair paths) d) as Hspec.
  { unfold recover_interrupted_repair.
    eapply fails_after_read; [intros; by apply exists_spec|]. intros present d1 Hn1 ->.
    unfold node_exists, paths. rewrite HJ. cbn [negb].
    try_then read_bounded_quiet; [|by intros e d2 _ [Hn2 _]; split; [rewrite Hn2|]]. intros actual d2 _ [Hn2 Hread].
    destruct (Hread actual eq_refl) as [_ Hactual]. unfold readable in Hactual. rewrite Hn1, HJ in Hactual.
    apply (inj Ok) in Hactual as <-. rewrite <- Hn2. apply spec_try_ret; [|by intros].
    intros j' Hj'. rewrite Hparse in Hj'. apply (inj Ok) in Hj' as <-.
    destruct (negb (journal_supported j)); [by apply spec_ret|]. cbv zeta.
    apply fails_after; [intros; by apply reject_present_quiet|]. intros _ d3 Hn3.
    eapply spec_try; [apply half_removed_stalls; [done|exact Hphase|by rewrite Hn3, Hn2, Hn1]|cbv beta..].
    - by intros a d4 _ [_ ?].
    - by intros e d4 _ [? _]. }
  destruct (spec_runs _ _ _ _ Hspec) as (r & d' & E & Hrun & Hn & Hr). destruct r as [|e]; [done|].
  exists e, d'. split; [exact E|]. split; [|exact Hn]. intros m. by apply (run_visited _ _ _ _ Hrun).
Qed.

(** ** Concrete parameters *)

#[export] Instance RuntimeRepairPhase_eq_dec : EqDecision RuntimeRepairPhase.
Proof. solve_decision. Defined.
#[export] Instance RuntimeRepairJournal_eq_dec : EqDecision RuntimeRepairJournal.
Proof. solve_decision. Defined.

(** A payload of two files, and the runtime it repairs, whose DLL is damaged. *)
Definition small_package : gmap string (list ascii) :=
  {[ "MacType.dll" := str_bytes "fine"; "MacType64.dll" := str_bytes "64" ]}.

Definition repair_payload : LoadedPayload :=
  {| verified := {| verified_version := "1.0.0"; verified_files := ["MacType.dll"; "MacType64.dll"] |};
     payload_files := small_package |}.

Definition damaged_package : gmap string (list ascii) := <[ "MacType.dll" := str_bytes "damaged" ]> small_package.

Definition example_journal (ph : RuntimeRepairPhase) : RuntimeRepairJournal :=
  {| repair_schema := RUNTIME_REPAIR_SCHEMA; repair_version := "1.0.0";
     repair_staging := ".repair-new-1.0.0-7-1001-1"; repair_backup := ".repair-old-1.0.0-7-1001-1";
     repair_phase := ph; old_receipt := sha256_digest <$> damaged_package;
     new_receipt := sha256_digest <$> small_package |}.

Definition repair_letter (ph : RuntimeRepairPhase) : ascii :=
  match ph with Prepared => "p" | OldMoved => "o" | NewPlacedUnverified => "n" | NewVerified => "v" end.

Definition repair_of_letter (c : ascii) : RuntimeRepairPhase :=
  if Ascii.eqb c "p" then Prepared else if Ascii.eqb c "o" then OldMoved
  else if Ascii.eqb c "n" then NewPlacedUnverified else NewVerified.

(** A codec that knows the journal of one repair. *)
#[export] Instance example_repair_json : RepairJson := {
  repair_from_slice bytes :=
    match bytes with [c] => Some (example_journal (repair_of_letter c)) | _ => None end;
  repair_to_vec j :=
    if decide (j = example_journal (repair_phase j)) then Ok [repair_letter (repair_phase j)] else Err "unknown"%string
}.

#[export] Instance example_repair_json_laws : RepairJsonLaws.
Proof.
  split. intros j bytes. cbn. destruct (decide (j = _)) as [E|]; [|done]. intros <-%(inj Ok). rewrite E at 2.
  by destruct (repair_phase j).
Qed.

#[export] Instance example_deferred_laws : @DeferredDeleteLaws example_deferred.
Proof. split. intros P p d. by apply spec_ret. Qed.

Definition damaged_directory (name : string) (package : gmap string (list ascii)) (m : Nodes) : Nodes :=
  let directory := entry_of example_files example_data name in
  <[ directory := Directory ]> (kmap (λ file, path_join directory file) (File <$> package) ∪ m).

(** The directories above the generations. *)
Definition repair_roots : Nodes :=
  list_to_map (map (λ q, (q, Directory)) (ancestors (runtime_versions (machine_layout example_files example_data)))).

Definition damaged_disk : Nodes := damaged_directory "1.0.0" damaged_package repair_roots.

Definition repaired_example : option (result unit SetupError * Disk) :=
  replace_runtime_payload (machine_layout example_files example_data)
    (entry_of example_files example_data "1.0.0") repair_payload (disk_of damaged_disk).

Lemma damaged_disk_sound : orphanless damaged_disk.
Proof. apply (bool_decide_unpack _). vm_compute. exact I. Qed.

Lemma example_is_repaired : option_map (λ x, is_ok (fst x)) repaired_example = Some true.
Proof. vm_compute. reflexivity. Qed.


(** A repair that was cut off before the exchange: its recovery passes through a state
    in which the staging directory is half removed. *)
Definition staged_disk : Nodes :=
  <[ repair_journal_path (machine_layout example_files example_data) := File [repair_letter Prepared] ]>
    (damaged_directory ".repair-new-1.0.0-7-1001-1" small_package damaged_disk).

Definition half_removed_states : list Nodes :=
  match recover_interrupted_repair (machine_layout example_files example_data) (disk_of staged_disk) with
  | Some (_, d) => List.filter (λ m,
      let staging := entry_of example_files example_data ".repair-new-1.0.0-7-1001-1" in
      bool_decide (is_Some (m !! staging) ∧ m !! path_join staging "MacType.dll" = None)) (history d)
  | None => []
  end.

Definition half_removed_disk : Nodes := default ∅ (head half_removed_states).

Lemma half_removed_staging_stalls_repair_witness :
  ∃ e d', recover_interrupted_repair (machine_layout example_files example_data) (disk_of half_removed_disk) =
    Some (Err e, d') ∧ nodes d' = half_removed_disk.
Proof.
  destruct (half_removed_staging_stalls_repair example_files example_data [repair_letter Prepared]
    (example_journal Prepared) (disk_of half_removed_disk) example_truthful) as (e & d' & E & _ & Hn).
  - vm_compute. reflexivity.
  - reflexivity.
  - discriminate.
  - split; [vm_compute; reflexivity|]. split; [vm_compute; reflexivity|]. split; [vm_compute; reflexivity|].
    exists "MacType.dll". split; [apply elem_of_dom; vm_compute; by eexists|vm_compute; reflexivity].
  - exists e, d'. split; [exact E|exact Hn].
Defined.
