(* ===== verification/EventText.v ===== *)
(** * Event records

    The first half of [service-runtime/contract/src/event_log.rs]: what an event of the log
    is, how the texts it carries are sanitized, redacted and bounded, which records a
    reader accepts, and the throttle that keeps an event from being repeated.  A text is
    the list of its UTF-8 bytes where it is taken apart; the bytes of one character
    stay together, because none but the first could end a run of hexadecimal digits. *)

From S2P Require Export Storage.

Definition EVENT_LOG_SCHEMA_VERSION : N := 1.
Definition MAX_EVENT_LOG_BYTES : N := 512 * 1024.
Definition EVENT_LOG_BACKUPS : nat := 4.
Definition MAX_EVENT_CODE_BYTES : N := 64.
Definition MAX_EVENT_PARAMS : nat := 8.
Definition MAX_EVENT_PARAM_BYTES : N := 260.
Definition MAX_EVENT_DETAIL_BYTES : N := 24 * 1024.

Inductive EventSeverity := Info | Notice | Warning | Error.
Inductive EventArea :=
| AreaService | AreaSetup | AreaProfile | AreaPreview | AreaInjection | AreaControlCenter | AreaTray.
Inductive EventSource := ServiceHost | ServiceSetup | SourceControlCenter.

Record EventRecord := {
  event_v : N;
  ts : N;
  severity : EventSeverity;
  area : EventArea;
  event_code : string;
  params : gmap string string;
  event_detail : option string;
  event_source : EventSource
}.

#[export] Instance EventSeverity_eq_dec : EqDecision EventSeverity.
Proof. solve_decision. Defined.
#[export] Instance EventArea_eq_dec : EqDecision EventArea.
Proof. solve_decision. Defined.
#[export] Instance EventSource_eq_dec : EqDecision EventSource.
Proof. solve_decision. Defined.
#[export] Instance EventRecord_eq_dec : EqDecision EventRecord.
Proof. solve_decision. Defined.

Definition new_event (t : N) (s : EventSeverity) (a : EventArea) (code : string)
    (ps : gmap string string) (detail : option string) (source : EventSource) : EventRecord :=
  {| event_v := EVENT_LOG_SCHEMA_VERSION; ts := t; severity := s; area := a; event_code := code;
     params := ps; event_detail := detail; event_source := source |}.

(** ** Sanitizing *)

Definition is_newline (b : ascii) : bool := (b =? "013")%char || (b =? "010")%char.

(** [value.replace(['\r', '\n'], " ")] *)
Definition without_newlines (l : list ascii) : list ascii :=
  map (λ b, if is_newline b then " "%char else b) l.

(** [str::replace] for a pattern that is not empty: [skip] bytes are left of a match. *)
Fixpoint replace_from (pattern replacement : list ascii) (skip : nat) (l : list ascii) : list ascii :=
  match l with
  | [] => []
  | b :: l' =>
      match skip with
      | S skip' => replace_from pattern replacement skip' l'
      | O =>
          if bytes_starts_with pattern l
          then replacement ++ replace_from pattern replacement (length pattern - 1) l'
          else b :: replace_from pattern replacement 0 l'
      end
  end.

Definition str_replace (pattern replacement l : list ascii) : list ascii :=
  replace_from pattern replacement 0 l.

Definition REDACTED_PROFILE : list ascii := str_bytes "[redacted-profile]".
Definition REDACTED_NONCE : list ascii := str_bytes "[redacted-nonce]".

(** A run of digits, with what was found before: 32 of them are a nonce. *)
Definition redacted_run (run : list ascii) : list ascii :=
  if length run =? 32 then REDACTED_NONCE else run.

(** [redact_nonce_candidates]: [run] is the run of digits before the cursor. *)
Fixpoint redact_from (run l : list ascii) : list ascii :=
  match l with
  | [] => redacted_run run
  | b :: l' =>
      if is_ascii_hexdigit b then redact_from (run ++ [b]) l'
      else redacted_run run ++ b :: redact_from [] l'
  end.

Definition redact_nonce_candidates (l : list ascii) : list ascii := redact_from [] l.

(** [value.is_char_boundary(index)] *)
Definition is_char_boundary (l : list ascii) (index : nat) : bool :=
  match drop index l with
  | [] => index =? length l
  | b :: _ => (N_of_ascii b <? 0x80)%N || (0xC0 <=? N_of_ascii b)%N
  end.

(** [while !value.is_char_boundary(end) { end -= 1; }] *)
Fixpoint floor_char_boundary (l : list ascii) (index : nat) : nat :=
  match index with
  | O => O
  | S index' => if is_char_boundary l index then index else floor_char_boundary l index'
  end.

Definition TRUNCATED : list ascii := str_bytes " [truncated]".

Definition bounded_text (l : list ascii) (maximum_bytes : N) : list ascii :=
  if (bytes_len l <=? maximum_bytes)%N then l
  else if (maximum_bytes <=? bytes_len TRUNCATED)%N then take (N.to_nat maximum_bytes) TRUNCATED
  else take (floor_char_boundary l (N.to_nat (maximum_bytes - bytes_len TRUNCATED))) l ++ TRUNCATED.

(** [for secret in redactions.iter().filter(|secret| !secret.is_empty())] *)
Definition redact_secret (text : list ascii) (secret : string) : list ascii :=
  if str_is_empty secret then text
  else str_replace (without_newlines (str_bytes secret)) REDACTED_PROFILE text.

Definition sanitize_text (value : string) (redactions : list string) (maximum_bytes : N) : string :=
  bytes_str (bounded_text
    (redact_nonce_candidates
       (fold_left redact_secret redactions (without_newlines (str_bytes value)))) maximum_bytes).

(** [value.rsplit(['\\', '/']).next()] *)
Definition profile_file_name (value : string) : string :=
  let name := default [] (last (split_on (λ b, (b =? "\")%char || (b =? "/")%char) (str_bytes value))) in
  sanitize_text (bytes_str name) [] MAX_EVENT_PARAM_BYTES.

(** ** Validity *)

Definition code_byte (b : ascii) : bool := is_ascii_lowercase b || is_ascii_digit b || (b =? "-")%char.

Definition valid_code (code : string) : bool :=
  negb (str_is_empty code) && (str_len code <=? MAX_EVENT_CODE_BYTES)%N && forallb code_byte (str_bytes code).

Definition valid_record (r : EventRecord) : bool :=
  (event_v r =? EVENT_LOG_SCHEMA_VERSION)%N && valid_code (event_code r) &&
  (size (params r) <=? MAX_EVENT_PARAMS) &&
  forallb (λ '(key, value), (str_len key <=? MAX_EVENT_PARAM_BYTES)%N && (str_len value <=? MAX_EVENT_PARAM_BYTES)%N)
    (map_to_list (params r)) &&
  match event_detail r with Some detail => (str_len detail <=? MAX_EVENT_DETAIL_BYTES)%N | None => true end.

(** The sanitized parameters, in a [BTreeMap]: of two equal keys the later counts. *)
Definition sanitized_params (ps : list (string * string)) (redactions : list string) : gmap string string :=
  fold_left (λ m '(key, value),
    <[ sanitize_text key redactions MAX_EVENT_PARAM_BYTES :=
       sanitize_text value redactions MAX_EVENT_PARAM_BYTES ]> m) (take MAX_EVENT_PARAMS ps) ∅.

(** The record that [EventLogWriter::record] builds. *)
Definition sanitized_record (t : N) (source : EventSource) (s : EventSeverity) (a : EventArea) (code : string)
    (ps : list (string * string)) (detail : option string) (redactions : list string) : EventRecord :=
  new_event t s a (if valid_code code then code else "invalid-code") (sanitized_params ps redactions)
    ((λ value, sanitize_text value redactions MAX_EVENT_DETAIL_BYTES) <$> detail) source.

Definition invalid_data (text : string) : IoError :=
  {| not_found := false; raw_os_error := None; io_text := text |}.

(** [unix_time_ms] of an instant in nanoseconds since the epoch. *)
Definition unix_time_ms (now : Z) : result N IoError :=
  if (now <? 0)%Z then Err (invalid_data "second time provided was later than self")
  else ok_or (try_u64 (Z.to_N now / 1000000))
         (invalid_data "system timestamp exceeds the event-log format").

(** ** The throttle *)

(** The order in which a [HashMap] is iterated. *)
Class HashOrder := {
  hash_order : gmap string N → list (string * N);
  hash_order_perm m : Permutation (hash_order m) (map_to_list m)
}.

(** [min_by_key]: the first of the smallest. *)
Fixpoint min_by_instant (l : list (string * N)) : option (string * N) :=
  match l with
  | [] => None
  | (key, instant) :: l' =>
      match min_by_instant l' with
      | Some (key', instant') => if (instant <=? instant')%N then Some (key, instant) else Some (key', instant')
      | None => Some (key, instant)
      end
  end.

Definition THROTTLE_ENTRIES : nat := 256.

(** [EventThrottle::allow] on its map. *)
Definition allow `{HashOrder} (entries : gmap string N) (key : string) (now window : N) : bool * gmap string N :=
  let recent := match entries !! key with
                | Some previous => (saturating_sub now previous <? window)%N
                | None => false
                end in
  if recent then (false, entries)
  else
    let entries :=
      if negb (contains_key entries key) && (THROTTLE_ENTRIES <=? size entries) then
        match min_by_instant (hash_order entries) with
        | Some (oldest, _) => delete oldest entries
        | None => entries
        end
      else entries in
    (true, <[key := now]> entries).

(** ** What sanitizing does *)

Definition no_newline (l : list ascii) : Prop := Forall (λ b, is_newline b = false) l.

Lemma without_newlines_free l : no_newline (without_newlines l).
Proof. induction l as [|b l IH]; [constructor|]. simpl. constructor; [|done]. by destruct (is_newline b) eqn:E. Qed.

Lemma without_newlines_same l : no_newline l → without_newlines l = l.
Proof. induction 1 as [|b l Hb _ IH]; [done|]. simpl. by rewrite Hb, IH. Qed.

Lemma replace_free pattern replacement skip l :
  no_newline replacement → no_newline l → no_newline (replace_from pattern replacement skip l).
Proof.
  intros Hr. revert skip. induction l as [|b l IH]; intros skip Hl; [done|].
  apply Forall_cons in Hl as [Hb Hl]. cbn [replace_from]. destruct skip as [|skip]; [|by apply IH].
  destruct (bytes_starts_with _ _); [apply Forall_app; split; [done|by apply IH]|constructor; [done|by apply IH]].
Qed.

Lemma redacted_run_free run : no_newline run → no_newline (redacted_run run).
Proof. intros Hrun. unfold redacted_run. destruct (_ =? _); [|done]. by repeat constructor. Qed.

Lemma redact_free run l : no_newline run → no_newline l → no_newline (redact_from run l).
Proof.
  revert run. induction l as [|b l IH]; intros run Hrun Hl; [by apply redacted_run_free|].
  apply Forall_cons in Hl as [Hb Hl]. cbn [redact_from]. destruct (is_ascii_hexdigit b).
  - apply IH; [|done]. apply Forall_app. split; [done|by repeat constructor].
  - apply Forall_app. split; [by apply redacted_run_free|]. constructor; [done|]. apply IH; [constructor|done].
Qed.

Lemma truncated_free : no_newline TRUNCATED.
Proof. by repeat constructor. Qed.

Lemma bounded_free l maximum : no_newline l → no_newline (bounded_text l maximum).
Proof.
  intros Hl. unfold bounded_text. destruct (_ <=? _)%N; [done|].
  destruct (_ <=? _)%N; [apply Forall_take, truncated_free|].
  apply Forall_app. split; [by apply Forall_take|apply truncated_free].
Qed.

Lemma floor_char_boundary_le l index : floor_char_boundary l index ≤ index.
Proof. induction index as [|index IH]; [done|]. cbn [floor_char_boundary]. destruct (is_char_boundary _ _); lia. Qed.

Lemma bounded_length l maximum : (bytes_len (bounded_text l maximum) <= maximum)%N.
Proof.
  unfold bounded_text. destruct (_ <=? _)%N eqn:E; [by apply N.leb_le|].
  destruct (maximum <=? _)%N eqn:E'; unfold bytes_len in *; andb_split.
  - rewrite length_take. lia.
  - rewrite length_app, length_take.
    pose proof (floor_char_boundary_le l (N.to_nat (maximum - N.of_nat (length TRUNCATED)))). lia.
Qed.

Lemma redact_secrets_free redactions l : no_newline l → no_newline (fold_left redact_secret redactions l).
Proof.
  revert l. induction redactions as [|secret redactions IH]; intros l Hl; [done|]. simpl. apply IH.
  unfold redact_secret. destruct (str_is_empty secret); [done|]. apply replace_free; [by repeat constructor|done].
Qed.

Lemma sanitized_bytes value redactions maximum :
  str_bytes (sanitize_text value redactions maximum) = bounded_text (redact_nonce_candidates
    (fold_left redact_secret redactions (without_newlines (str_bytes value)))) maximum.
Proof. apply list_ascii_of_string_of_list_ascii. Qed.

Lemma sanitized_length value redactions maximum : (str_len (sanitize_text value redactions maximum) <= maximum)%N.
Proof. rewrite str_len_bytes, sanitized_bytes. apply bounded_length. Qed.

Lemma sanitized_free value redactions maximum : no_newline (str_bytes (sanitize_text value redactions maximum)).
Proof.
  rewrite sanitized_bytes. apply bounded_free, redact_free; [constructor|].
  apply redact_secrets_free, without_newlines_free.
Qed.

(** *** Replacing a text *)

(** [pieces.join(separator)] *)
Fixpoint joined (separator : list ascii) (pieces : list (list ascii)) : list ascii :=
  match pieces with
  | [] => []
  | [piece] => piece
  | piece :: pieces' => piece ++ separator ++ joined separator pieces'
  end.

Definition occurs (pattern l : list ascii) : Prop := ∃ before after, l = before ++ pattern ++ after.

Lemma starts_with_spec pattern l : bytes_starts_with pattern l = true ↔ pattern `prefix_of` l.
Proof.
  unfold bytes_starts_with. split.
  - destruct (bytes_strip_prefix pattern l) as [k|] eqn:E; [|done]. intros _. exists k. by apply bytes_strip_prefix_app.
  - intros [k ->]. by rewrite bytes_strip_prefix_of.
Qed.

Lemma replace_skips pattern replacement skip l :
  replace_from pattern replacement skip l = replace_from pattern replacement 0 (drop skip l).
Proof.
  revert l. induction skip as [|skip IH]; intros l; [done|]. destruct l as [|b l]; [done|].
  cbn [replace_from drop]. apply IH.
Qed.

Lemma joined_cons separator piece pieces :
  pieces ≠ [] → joined separator (piece :: pieces) = piece ++ separator ++ joined separator pieces.
Proof. by destruct pieces. Qed.

Lemma joined_grow separator b piece pieces :
  joined separator ((b :: piece) :: pieces) = b :: joined separator (piece :: pieces).
Proof. by destruct pieces. Qed.

(** [str::replace] cuts a text at the pattern, from the left, and joins the pieces
    again: no piece holds the pattern. *)
Lemma replace_pieces pattern replacement l :
  pattern ≠ [] →
  ∃ pieces, pieces ≠ [] ∧ l = joined pattern pieces ∧ str_replace pattern replacement l = joined replacement pieces ∧
    Forall (λ piece, ¬ occurs pattern piece) pieces.
Proof.
  intros Hp. assert (¬ occurs pattern []) as Hempty.
  { intros (before & after & E). symmetry in E. apply app_eq_nil in E as [_ E]. by apply app_eq_nil in E as []. }
  remember (length l) as n eqn:Hn. revert l Hn. induction n as [n IH] using lt_wf_ind. intros l ->.
  destruct l as [|b l].
  { exists [[]]. split_and!; [done..|]. by constructor. }
  unfold str_replace. cbn [replace_from]. destruct (bytes_starts_with pattern (b :: l)) eqn:Es.
  - apply starts_with_spec in Es as [k Hk]. destruct pattern as [|c pattern]; [done|].
    injection Hk as -> Hk. rewrite replace_skips. replace (length (c :: pattern) - 1) with (length pattern) by (simpl; lia).
    rewrite Hk, drop_app_length.
    destruct (IH (length k)) with (l := k) as (pieces & Hne & Hjoin & Hrep & Hall); [rewrite Hk; simpl; rewrite length_app; lia|done|].
    exists ([] :: pieces). rewrite !joined_cons by done. split_and!; [done| | |by constructor].
    + simpl. by rewrite <- Hjoin.
    + simpl. by rewrite <- Hrep.
  - destruct (IH (length l)) with (l := l) as (pieces & Hne & Hjoin & Hrep & Hall); [simpl; lia|done|].
    destruct pieces as [|piece pieces]; [done|]. exists ((b :: piece) :: pieces). rewrite !joined_grow, <- Hjoin, <- Hrep.
    split_and!; [done..|]. apply Forall_cons in Hall as [Hpiece Hall]. constructor; [|done].
    intros (before & after & E). destruct before as [|c before].
    + simpl in E. apply not_true_iff_false in Es. apply Es, starts_with_spec. rewrite Hjoin, <- joined_grow, E.
      destruct pieces as [|x pieces]; [by eexists|]. rewrite joined_cons by done. rewrite <- app_assoc. by eexists.
    + injection E as _ E. apply Hpiece. by exists before, after.
Qed.

(** *** Redacting a nonce *)

Definition not_hex (b : ascii) : bool := negb (is_ascii_hexdigit b).

(** The runs of hexadecimal digits, between all other bytes. *)
Definition hex_runs (l : list ascii) : list (list ascii) := split_on not_hex l.

Lemma split_on_run run : Forall (λ b, is_ascii_hexdigit b = true) run → hex_runs run = [run].
Proof.
  induction 1 as [|b run Hb _ IH]; [done|]. unfold hex_runs in *. cbn [split_on]. unfold not_hex at 1. by rewrite Hb, IH.
Qed.

Definition not_a_nonce (run : list ascii) : Prop := length run ≠ 32.

Lemma redacted_run_runs run :
  Forall (λ b, is_ascii_hexdigit b = true) run → Forall not_a_nonce (hex_runs (redacted_run run)).
Proof.
  intros Hrun. unfold redacted_run. destruct (length run =? 32) eqn:E.
  - apply Forall_forall. intros piece Hpiece. vm_compute in Hpiece.
    repeat (apply elem_of_cons in Hpiece as [->|Hpiece]; [done|]). by apply not_elem_of_nil in Hpiece.
  - rewrite split_on_run by done. constructor; [|constructor]. by apply Nat.eqb_neq.
Qed.

Lemma redact_runs run l :
  Forall (λ b, is_ascii_hexdigit b = true) run → Forall not_a_nonce (hex_runs (redact_from run l)).
Proof.
  revert run. induction l as [|b l IH]; intros run Hrun; [by apply redacted_run_runs|]. cbn [redact_from].
  destruct (is_ascii_hexdigit b) eqn:Eb.
  - apply IH, Forall_app. by split; [|constructor].
  - unfold hex_runs. rewrite split_on_cut by (unfold not_hex; by rewrite Eb). apply Forall_app.
    split; [by apply redacted_run_runs|by apply IH].
Qed.

Lemma redact_unchanged run l :
  Forall not_a_nonce (hex_runs (run ++ l)) → Forall (λ b, is_ascii_hexdigit b = true) run → redact_from run l = run ++ l.
Proof.
  revert run. induction l as [|b l IH]; intros run Hruns Hrun.
  - rewrite app_nil_r in *. rewrite split_on_run in Hruns by done. rewrite Forall_singleton in Hruns.
    cbn [redact_from]. unfold redacted_run. by apply Nat.eqb_neq in Hruns as ->.
  - cbn [redact_from]. destruct (is_ascii_hexdigit b) eqn:Eb.
    + rewrite (IH (run ++ [b])); [by rewrite <- app_assoc|by rewrite <- app_assoc|]. apply Forall_app. by split; [|constructor].
    + unfold hex_runs in Hruns. rewrite split_on_cut in Hruns by (unfold not_hex; by rewrite Eb).
      apply Forall_app in Hruns as [Hfirst Hrest]. rewrite (IH []) by done. f_equal.
      change (hex_runs run) with (split_on not_hex run) in Hfirst. fold (hex_runs run) in Hfirst. rewrite split_on_run in Hfirst by done.
      rewrite Forall_singleton in Hfirst. unfold redacted_run. by apply Nat.eqb_neq in Hfirst as ->.
Qed.

Lemma redact_nonce_spec l :
  Forall not_a_nonce (hex_runs (redact_nonce_candidates l)) ∧
  (Forall not_a_nonce (hex_runs l) → redact_nonce_candidates l = l).
Proof. split; [by apply redact_runs|]. intros Hl. by apply redact_unchanged. Qed.

Lemma without_newlines_nil l : without_newlines l = [] → l = [].
Proof. by destruct l. Qed.

(** *** What sanitizing must do

    Said without the loops of the code: each of these relations has one text for each
    text, so together they say what is logged. *)

(** The secret is replaced where it stands first, and then in what follows it. *)
Inductive secret_hidden (pattern : list ascii) : list ascii → list ascii → Prop :=
| secret_absent text : ¬ occurs pattern text → secret_hidden pattern text text
| secret_first before after after' :
    (∀ before' rest, before ++ pattern ++ after = before' ++ pattern ++ rest → length before ≤ length before') →
    secret_hidden pattern after after' →
    secret_hidden pattern (before ++ pattern ++ after) (before ++ REDACTED_PROFILE ++ after').

(** One secret after the other; an empty one hides nothing. *)
Inductive secrets_hidden : list string → list ascii → list ascii → Prop :=
| no_secret text : secrets_hidden [] text text
| next_secret secret secrets text text' text'' :
    (if str_is_empty secret then text' = text else secret_hidden (without_newlines (str_bytes secret)) text text') →
    secrets_hidden secrets text' text'' → secrets_hidden (secret :: secrets) text text''.

Definition all_hex (run : list ascii) : Prop := Forall (λ b, is_ascii_hexdigit b = true) run.

(** A whole run of 32 hexadecimal digits is replaced, and nothing else. *)
Inductive nonces_hidden : list ascii → list ascii → Prop :=
| nonces_end : nonces_hidden [] []
| nonces_run run rest rest' :
    run ≠ [] → all_hex run → (∀ b, head rest = Some b → is_ascii_hexdigit b = false) → nonces_hidden rest rest' →
    nonces_hidden (run ++ rest) ((if decide (length run = 32) then REDACTED_NONCE else run) ++ rest')
| nonces_other b rest rest' :
    is_ascii_hexdigit b = false → nonces_hidden rest rest' → nonces_hidden (b :: rest) (b :: rest').

Definition boundary (l : list ascii) (n : nat) : Prop := n = 0 ∨ is_char_boundary l n = true.

(** A text that is too long keeps as many whole characters as the note leaves room for. *)
Definition bounded_to (maximum : N) (text text' : list ascii) : Prop :=
  if decide (bytes_len text ≤ maximum)%N then text' = text
  else if decide (maximum ≤ bytes_len TRUNCATED)%N then text' `prefix_of` TRUNCATED ∧ bytes_len text' = maximum
  else ∃ kept, text' = kept ++ TRUNCATED ∧ kept `prefix_of` text ∧ boundary text (length kept) ∧
         (bytes_len text' <= maximum)%N ∧
         ∀ n, boundary text n → (N.of_nat n + bytes_len TRUNCATED <= maximum)%N → n ≤ length kept.

Definition sanitized_to (redactions : list string) (maximum : N) (value text : list ascii) : Prop :=
  ∃ hidden nonceless, secrets_hidden redactions (without_newlines value) hidden ∧ nonces_hidden hidden nonceless ∧
    bounded_to maximum nonceless text.

Lemma first_occurrence pattern l :
  pattern ≠ [] →
  (¬ occurs pattern l ∧ str_replace pattern REDACTED_PROFILE l = l) ∨
  ∃ before after, l = before ++ pattern ++ after ∧
    (∀ before' rest, l = before' ++ pattern ++ rest → length before ≤ length before') ∧
    str_replace pattern REDACTED_PROFILE l = before ++ REDACTED_PROFILE ++ str_replace pattern REDACTED_PROFILE after.
Proof.
  intros Hp. induction l as [|b l IH].
  { left. split; [|done]. intros (before & after & E). symmetry in E. apply app_eq_nil in E as [_ E].
    by apply app_eq_nil in E as []. }
  unfold str_replace in *. cbn [replace_from]. destruct (bytes_starts_with pattern (b :: l)) eqn:Es.
  - right. apply starts_with_spec in Es as [k Hk]. exists [], k. split_and!; [done|simpl; lia|].
    rewrite replace_skips. destruct pattern as [|c pattern]; [done|]. injection Hk as -> ->.
    replace (length (c :: pattern) - 1) with (length pattern) by (simpl; lia). by rewrite drop_app_length.
  - assert (∀ rest, b :: l ≠ pattern ++ rest) as Hno.
    { intros rest E. assert (pattern `prefix_of` b :: l) as Hpre by (by exists rest).
      apply starts_with_spec in Hpre. congruence. }
    destruct IH as [[Hn Hr]|(before & after & -> & Hfirst & Hr)].
    + left. split; [|by rewrite Hr]. intros (before & after & E).
      destruct before as [|x before]; [by apply (Hno after)|]. injection E as -> E. apply Hn. by exists before, after.
    + right. exists (b :: before), after. split_and!; [done| |by rewrite Hr].
      intros [|x before'] rest E; [by destruct (Hno rest)|]. injection E as -> E. simpl. apply le_n_S, (Hfirst _ rest E).
Qed.

Lemma replace_hides pattern l : pattern ≠ [] → secret_hidden pattern l (str_replace pattern REDACTED_PROFILE l).
Proof.
  intros Hp. remember (length l) as n eqn:Hn. revert l Hn. induction n as [n IH] using lt_wf_ind. intros l ->.
  destruct (first_occurrence pattern l Hp) as [[Hno ->]|(before & after & E & Hfirst & ->)]; [by constructor|].
  rewrite E at 1. constructor; [by rewrite <- E|]. apply (IH (length after)); [|done].
  rewrite E, !length_app. destruct pattern; [done|]. simpl. lia.
Qed.

Lemma secret_hidden_det pattern l a b : secret_hidden pattern l a → secret_hidden pattern l b → a = b.
Proof.
  intros Ha. revert b. induction Ha as [l Hno|before after after' Hfirst _ IH]; intros b Hb.
  - inversion Hb as [|before after after' Hf Hh]; subst; [done|]. destruct Hno. by exists before, after.
  - inversion Hb as [l Hno|before2 after2 after2' Hf Hh E]; subst; [destruct Hno; by exists before, after|].
    assert (length before2 = length before) as Hlen.
    { pose proof (Hfirst _ _ (eq_sym E)). rewrite E in Hf. pose proof (Hf before after eq_refl). lia. }
    apply app_inj_1 in E as [-> E]; [|done]. apply app_inv_head in E as ->. by rewrite (IH after2').
Qed.

Lemma secrets_are_hidden redactions l l' :
  secrets_hidden redactions l l' ↔ fold_left redact_secret redactions l = l'.
Proof.
  revert l. induction redactions as [|secret redactions IH]; intros l.
  { split; [by inversion 1|intros <-; constructor]. }
  assert (if str_is_empty secret then redact_secret l secret = l
          else secret_hidden (without_newlines (str_bytes secret)) l (redact_secret l secret)) as Hs.
  { unfold redact_secret. destruct (str_is_empty secret) eqn:E; [done|]. apply replace_hides.
    intros Hnil%without_newlines_nil. by destruct secret. }
  cbn [fold_left]. split.
  - inversion 1 as [|s ss t t' t'' Hhere Hrest]; subst. apply IH. replace (redact_secret l secret) with t'; [done|].
    destruct (str_is_empty secret); [by rewrite Hhere|]. by eapply secret_hidden_det.
  - intros E. econstructor; [|by apply IH]. by destruct (str_is_empty secret).
Qed.

Lemma redacted_run_decide run : redacted_run run = if decide (length run = 32) then REDACTED_NONCE else run.
Proof. unfold redacted_run. case_decide as E; [by apply Nat.eqb_eq in E as ->|by apply Nat.eqb_neq in E as ->]. Qed.

Lemma redact_hides run l : all_hex run → nonces_hidden (run ++ l) (redact_from run l).
Proof.
  assert (∀ run rest rest', all_hex run → (∀ b, head rest = Some b → is_ascii_hexdigit b = false) →
    nonces_hidden rest rest' → nonces_hidden (run ++ rest) (redacted_run run ++ rest')) as Hcut.
  { intros [|x r] rest rest' Hr Hh Hn; [done|]. rewrite redacted_run_decide. by constructor. }
  revert run. induction l as [|b l IH]; intros run Hrun; cbn [redact_from].
  - rewrite <- (app_nil_r (redacted_run run)). apply Hcut; [done|done|constructor].
  - destruct (is_ascii_hexdigit b) eqn:Eb.
    + replace (run ++ b :: l) with ((run ++ [b]) ++ l) by by rewrite <- app_assoc.
      apply IH, Forall_app. split; [done|]. by constructor.
    + apply Hcut; [done|by intros c [= <-]|]. constructor; [done|]. apply (IH []). constructor.
Qed.

Lemma run_unique run run2 rest rest2 :
  all_hex run → all_hex run2 → (∀ b, head rest = Some b → is_ascii_hexdigit b = false) →
  (∀ b, head rest2 = Some b → is_ascii_hexdigit b = false) → run ++ rest = run2 ++ rest2 → run = run2 ∧ rest = rest2.
Proof.
  intros Hr. revert run2. induction Hr as [|b run Hb _ IH]; intros [|b2 run2] Hr2 Hh Hh2 E; simpl in E.
  - done.
  - subst rest. apply Forall_cons in Hr2 as [Hb2 _]. by rewrite (Hh b2 eq_refl) in Hb2.
  - subst rest2. by rewrite (Hh2 b eq_refl) in Hb.
  - injection E as -> E. apply Forall_cons in Hr2 as [_ Hr2]. by destruct (IH run2 Hr2 Hh Hh2 E) as [-> ->].
Qed.

(** The whole run a text begins with is hidden first. *)
Lemma nonces_hidden_run run rest b :
  run ≠ [] → all_hex run → (∀ c, head rest = Some c → is_ascii_hexdigit c = false) → nonces_hidden (run ++ rest) b →
  ∃ rest', nonces_hidden rest rest' ∧ b = (if decide (length run = 32) then REDACTED_NONCE else run) ++ rest'.
Proof.
  intros Hne Hrun Hhead Hb. remember (run ++ rest) as l eqn:E.
  destruct Hb as [|run2 rest2 rest2' Hne2 Hrun2 Hhead2 Hn|d rest2 rest2' Hd Hn]; destruct run as [|x run]; try done.
  - destruct (run_unique _ _ _ _ Hrun2 Hrun Hhead2 Hhead E) as [-> ->]. by exists rest2'.
  - injection E as -> _. apply Forall_cons in Hrun as [Hx _]. congruence.
Qed.

Lemma nonces_hidden_other c rest b :
  is_ascii_hexdigit c = false → nonces_hidden (c :: rest) b → ∃ rest', nonces_hidden rest rest' ∧ b = c :: rest'.
Proof.
  intros Hc Hb. remember (c :: rest) as l eqn:E. destruct Hb as [|run rest2 rest2' Hne Hrun Hhead Hn|d rest2 rest2' Hd Hn]; [done| |].
  - destruct run as [|x run]; [done|]. injection E as -> _. apply Forall_cons in Hrun as [Hx _]. congruence.
  - injection E as -> ->. by exists rest2'.
Qed.

Lemma nonces_hidden_det l a b : nonces_hidden l a → nonces_hidden l b → a = b.
Proof.
  intros Ha. revert b. induction Ha as [|run rest rest' Hne Hrun Hhead _ IH|c rest rest' Hc _ IH]; intros b Hb.
  - remember [] as l eqn:E. destruct Hb as [|[|]|]; done.
  - apply nonces_hidden_run in Hb as (r & Hr & ->); [|done..]. by rewrite (IH r).
  - apply nonces_hidden_other in Hb as (r & Hr & ->); [|done]. by rewrite (IH r).
Qed.

Lemma floor_is_largest l index n : boundary l n → n ≤ index → n ≤ floor_char_boundary l index.
Proof.
  intros Hn. induction index as [|index IH]; intros Hle; [done|]. cbn [floor_char_boundary].
  destruct (is_char_boundary l (S index)) eqn:E; [done|]. apply IH.
  destruct (decide (n = S index)) as [->|]; [|lia]. destruct Hn; [done|congruence].
Qed.

Lemma floor_is_boundary l index : boundary l (floor_char_boundary l index).
Proof.
  induction index as [|index IH]; [by left|]. cbn [floor_char_boundary].
  destruct (is_char_boundary l (S index)) eqn:E; [by right|done].
Qed.

Lemma take_prefix n (l : list ascii) : take n l `prefix_of` l.
Proof. exists (drop n l). by rewrite take_drop. Qed.

Lemma prefix_take (k l : list ascii) : k `prefix_of` l → k = take (length k) l.
Proof. intros [r ->]. by rewrite take_app_length. Qed.

Lemma bounded_is_bounded l maximum : bounded_to maximum l (bounded_text l maximum).
Proof.
  pose proof (bounded_length l maximum) as Hlen. unfold bounded_to, bounded_text in *.
  case_decide as E; [by apply N.leb_le in E as ->|]. apply N.leb_nle in E as E1. rewrite E1 in *.
  case_decide as E2.
  - apply N.leb_le in E2 as E3. rewrite E3. split; [apply take_prefix|].
    unfold bytes_len in *. rewrite length_take. lia.
  - apply N.leb_nle in E2 as E3. rewrite E3 in *. set (bound := N.to_nat _) in *.
    assert (floor_char_boundary l bound ≤ length l) as Hfit.
    { etrans; [apply floor_char_boundary_le|]. unfold bound, bytes_len in *. lia. }
    eexists. split; [done|]. rewrite length_take, Nat.min_l by done.
    split_and!; [apply take_prefix|apply floor_is_boundary|done|].
    intros n Hn Hroom. apply floor_is_largest; [done|]. unfold bound. lia.
Qed.

Lemma bounded_to_det maximum l a b : bounded_to maximum l a → bounded_to maximum l b → a = b.
Proof.
  unfold bounded_to. case_decide; [congruence|]. case_decide.
  - intros [Ha Hla] [Hb Hlb]. rewrite (prefix_take _ _ Ha), (prefix_take _ _ Hb). f_equal. unfold bytes_len in *. lia.
  - intros (ka & -> & Ha & Hba & Hla & Hma) (kb & -> & Hb & Hbb & Hlb & Hmb).
    rewrite (prefix_take _ _ Ha), (prefix_take _ _ Hb). f_equal. f_equal.
    unfold bytes_len in *. rewrite length_app in *. apply Nat.le_antisymm; [apply Hmb|apply Hma]; done || lia.
Qed.

Lemma sanitized_iff redactions maximum value text :
  sanitized_to redactions maximum value text ↔
  bounded_text (redact_nonce_candidates (fold_left redact_secret redactions (without_newlines value))) maximum = text.
Proof.
  unfold sanitized_to. split.
  - intros (hidden & nonceless & <-%secrets_are_hidden & Hn & Hb).
    rewrite (nonces_hidden_det _ _ _ Hn (redact_hides [] _ ltac:(constructor))) in Hb.
    by eapply bounded_to_det; [apply bounded_is_bounded|].
  - intros <-. eexists _, _. split_and!; [by apply secrets_are_hidden|apply (redact_hides []); constructor|apply bounded_is_bounded].
Qed.

(** C30. Sanitizing is exact: the logged text is the one, and the only one, that comes of
    these steps in this order.  Line breaks become spaces; then each secret that is not
    empty, in its order, is replaced by the mark where it stands first, and again in what
    follows; then every whole run of exactly 32 hexadecimal digits, and no other digit,
    is replaced; and a text that is longer than its bound keeps as many whole
    characters as leave room for the note that it was cut.  So the text holds no line
    break and fits its bound, hiding a secret leaves it in no piece between the marks,
    and hiding nonces leaves no run of 32 digits and a text without one as it is. *)
Theorem sanitizing_is_exact :
  (∀ value redactions maximum,
     let text := sanitize_text value redactions maximum in
     (∀ t, str_bytes text = t ↔ sanitized_to redactions maximum (str_bytes value) t) ∧
     (str_len text <= maximum)%N ∧ no_newline (str_bytes text)) ∧
  (∀ text secret,
     if str_is_empty secret then redact_secret text secret = text
     else let pattern := without_newlines (str_bytes secret) in
       ∃ pieces, text = joined pattern pieces ∧ redact_secret text secret = joined REDACTED_PROFILE pieces ∧
         Forall (λ piece, ¬ occurs pattern piece) pieces) ∧
  (∀ text,
     Forall not_a_nonce (hex_runs (redact_nonce_candidates text)) ∧
     (Forall not_a_nonce (hex_runs text) → redact_nonce_candidates text = text)).
Proof.
  split_and!.
  - intros value redactions maximum text. split; [|split; [apply sanitized_length|apply sanitized_free]].
    intros t. rewrite sanitized_iff. unfold text. by rewrite sanitized_bytes.
  - intros text secret. unfold redact_secret. destruct (str_is_empty secret) eqn:E; [done|].
    destruct (replace_pieces (without_newlines (str_bytes secret)) REDACTED_PROFILE text)
      as (pieces & _ & ? & ? & ?); [|by exists pieces].
    intros Hnil. apply without_newlines_nil in Hnil. by destruct secret.
  - apply redact_nonce_spec.
Qed.

(** ** The records that are written are valid *)

Lemma sanitized_params_spec ps redactions :
  size (sanitized_params ps redactions) ≤ MAX_EVENT_PARAMS ∧
  map_Forall (λ key value, (str_len key <= MAX_EVENT_PARAM_BYTES)%N ∧ (str_len value <= MAX_EVENT_PARAM_BYTES)%N)
    (sanitized_params ps redactions).
Proof.
  unfold sanitized_params. set (fits := λ (m : gmap string string), _).
  assert (∀ m : gmap string string, map_Forall (λ key value, (str_len key <= MAX_EVENT_PARAM_BYTES)%N ∧
      (str_len value <= MAX_EVENT_PARAM_BYTES)%N) m →
    let m' := fold_left fits (take MAX_EVENT_PARAMS ps) m in
    size m' ≤ size m + length (take MAX_EVENT_PARAMS ps) ∧
    map_Forall (λ key value, (str_len key <= MAX_EVENT_PARAM_BYTES)%N ∧ (str_len value <= MAX_EVENT_PARAM_BYTES)%N) m') as Hfold.
  { induction (take MAX_EVENT_PARAMS ps) as [|[key value] rest IH]; intros m Hm; [simpl; split; [lia|done]|].
    destruct (IH (fits m (key, value))) as [Hsize Hall].
    { apply map_Forall_insert_2; [split; apply sanitized_length|done]. }
    split; [|done]. simpl in *. etrans; [exact Hsize|]. unfold fits.
    rewrite map_size_insert. destruct (_ !! _); simpl; lia. }
  destruct (Hfold ∅ (map_Forall_empty _)) as [Hsize Hall]. split; [|done].
  etrans; [exact Hsize|]. rewrite map_size_empty, length_take. lia.
Qed.

Lemma sanitized_record_valid t source s a code ps detail redactions :
  valid_record (sanitized_record t source s a code ps detail redactions) = true.
Proof.
  destruct (sanitized_params_spec ps redactions) as [Hsize Hall].
  unfold valid_record, sanitized_record, new_event; cbn [event_v event_code params event_detail].
  assert (valid_code (if valid_code code then code else "invalid-code") = true) as ->.
  { by destruct (valid_code code) eqn:E. }
  rewrite (proj2 (Nat.leb_le _ _)) by exact Hsize. rewrite !andb_true_iff. split_and!; [done..| |].
  - apply forallb_forall. intros [key value] Hin. apply list_elem_of_In, elem_of_map_to_list in Hin.
    apply Hall in Hin as [??]. apply andb_true_iff. by split; apply N.leb_le.
  - destruct detail; [|done]. apply N.leb_le, sanitized_length.
Qed.

(** ** What the throttle lets through *)

Section Throttle.
Context `{HashOrder}.
Implicit Types (entries : gmap string N) (log : list (string * N)).

(** The throttles that calls lead to, with the calls that were admitted, the latest first. *)
Inductive throttled : gmap string N → list (string * N) → Prop :=
| throttle_new : throttled ∅ []
| throttle_denied entries log key now window entries' :
    throttled entries log → allow entries key now window = (false, entries') → throttled entries' log
| throttle_admitted entries log key now window entries' :
    throttled entries log → allow entries key now window = (true, entries') → throttled entries' ((key, now) :: log).

(** When a key was admitted last. *)
Fixpoint latest log (key : string) : option N :=
  match log with
  | [] => None
  | (key', now) :: log' => if bool_decide (key' = key) then Some now else latest log' key
  end.

Lemma latest_elem log key t : latest log key = Some t → (key, t) ∈ log.
Proof.
  induction log as [|[key' now] log IH]; [done|]. simpl. case_bool_decide as Ek; [|right; by apply IH].
  intros [= ->]. subst. by left.
Qed.

Lemma latest_is_Some log key : is_Some (latest log key) ↔ key ∈ log.*1.
Proof.
  induction log as [|[key' now] log IH]; simpl; [by rewrite is_Some_alt, elem_of_nil|].
  rewrite elem_of_cons. case_bool_decide as Ek; [subst; naive_solver|]. rewrite IH. naive_solver.
Qed.

Definition keys log : gset string := list_to_set log.*1.

Lemma min_by_instant_elem l : l ≠ [] → ∃ entry, min_by_instant l = Some entry ∧ entry ∈ l.
Proof.
  induction l as [|[key t] l IH]; [done|]. intros _. cbn [min_by_instant]. destruct l as [|e l].
  - eexists. split; [done|by left].
  - destruct IH as ([key' t'] & -> & Hin); [done|].
    destruct (_ <=? _)%N; eexists; (split; [done|]); [by left|by right].
Qed.

Lemma oldest_is_an_entry entries :
  entries ≠ ∅ → ∃ key t, min_by_instant (hash_order entries) = Some (key, t) ∧ entries !! key = Some t.
Proof.
  intros Hne. destruct (min_by_instant_elem (hash_order entries)) as ([key t] & Hmin & Hin).
  - intros Hnil. pose proof (hash_order_perm entries) as Hp. rewrite Hnil in Hp.
    apply Permutation_nil in Hp. by apply map_to_list_empty_iff in Hp.
  - exists key, t. split; [done|]. rewrite hash_order_perm in Hin. by apply elem_of_map_to_list in Hin.
Qed.

Record throttle_sound entries log : Prop := {
  throttle_bounded : size entries ≤ THROTTLE_ENTRIES;
  throttle_latest key t : entries !! key = Some t → latest log key = Some t;
  throttle_complete : size (keys log) ≤ THROTTLE_ENTRIES → ∀ key, entries !! key = latest log key
}.

(** What an admission does to the map: at most one other entry is forgotten, and none
    while there is room. *)
Lemma allow_true entries key now window entries' :
  allow entries key now window = (true, entries') → size entries ≤ THROTTLE_ENTRIES →
  ∃ kept, entries' = <[key := now]> kept ∧ kept ⊆ entries ∧ size entries' ≤ THROTTLE_ENTRIES ∧
    (is_Some (entries !! key) ∨ size entries < THROTTLE_ENTRIES → kept = entries).
Proof.
  unfold allow. destruct (match entries !! key with Some _ => _ | None => _ end); [done|].
  intros [_ <-]%pair_equal_spec Hsize. unfold contains_key. destruct (entries !! key) as [t|] eqn:Ek; [rewrite andb_false_l|rewrite andb_true_l].
  - exists entries. split_and!; [done..| |done]. by rewrite map_size_insert_Some by (by eexists).
  - destruct (THROTTLE_ENTRIES <=? size entries) eqn:Ef.
    + apply Nat.leb_le in Ef. destruct (oldest_is_an_entry entries) as (oldest & t & -> & Holdest).
      { intros ->. rewrite map_size_empty in Ef. unfold THROTTLE_ENTRIES in Ef. lia. }
      exists (delete oldest entries). split_and!; [done|apply delete_subseteq| |].
      * rewrite map_size_insert_None by (by rewrite lookup_delete_None; right).
        rewrite map_size_delete_Some by (by eexists). unfold THROTTLE_ENTRIES in *. lia.
      * intros [[??]|?]; [done|lia].
    + apply Nat.leb_gt in Ef. exists entries. split_and!; [done..| |done].
      rewrite map_size_insert_None by done. lia.
Qed.

Lemma keys_dom entries log : (∀ key, entries !! key = latest log key) → keys log = dom entries.
Proof.
  intros He. apply set_eq. intros key. unfold keys. rewrite elem_of_list_to_set, elem_of_dom, He. by rewrite latest_is_Some.
Qed.

Lemma throttled_sound entries log : throttled entries log → throttle_sound entries log.
Proof.
  induction 1 as [|entries log key now window entries' _ IH E|entries log key now window entries' _ IH E].
  - split; [by rewrite map_size_empty; apply Nat.le_0_l|done|done].
  - unfold allow in E. destruct (match entries !! key with Some _ => _ | None => _ end); [|done]. by apply pair_equal_spec in E as [_ <-].
  - destruct IH as [Hsize Hlatest Hcomplete].
    destruct (allow_true _ _ _ _ _ E Hsize) as (kept & -> & Hkept & Hsize' & Hall). split; [done| |].
    + intros k t. rewrite lookup_insert_Some. cbn [latest]. intros [[-> ->]|[Hne Hk]].
      * by rewrite bool_decide_true.
      * rewrite bool_decide_false by done. apply Hlatest. by eapply lookup_weaken.
    + intros Hroom.
      assert (kept = entries) as ->.
      { apply Hall. assert (keys ((key, now) :: log) = {[key]} ∪ keys log) as Hkeys by done. rewrite Hkeys in Hroom.
        assert (size (keys log) ≤ THROTTLE_ENTRIES) as Hlog.
        { etrans; [|exact Hroom]. apply subseteq_size. set_solver. }
        pose proof (keys_dom _ _ (Hcomplete Hlog)) as Hdom.
        destruct (entries !! key) as [t|] eqn:Ek; [by left; eexists|right].
        rewrite size_union, size_singleton, Hdom, size_dom in Hroom; [lia|].
        rewrite Hdom. apply disjoint_singleton_l. by apply not_elem_of_dom. }
      intros k. cbn [latest]. case_bool_decide as Ek; [subst; by rewrite lookup_insert_eq|].
      rewrite lookup_insert_ne by done. apply Hcomplete. etrans; [|exact Hroom]. apply subseteq_size. unfold keys. simpl. set_solver.
Qed.

(** Throttling.  However it is called, the throttle remembers at most 256 keys, and
    what it denies was admitted within the window.  While no more than 256
    keys were ever admitted it is exact: a call is admitted if, and only if, its key
    never was, or was admitted last at least a window before. *)
Theorem throttle_spaces_events entries log :
  throttled entries log →
  size entries ≤ THROTTLE_ENTRIES ∧
  (∀ key now window, (allow entries key now window).1 = false →
     ∃ t, (key, t) ∈ log ∧ (saturating_sub now t < window)%N) ∧
  (size (keys log) ≤ THROTTLE_ENTRIES → ∀ key now window,
     (allow entries key now window).1 = true ↔
     match latest log key with Some t => (window <= saturating_sub now t)%N | None => True end).
Proof.
  intros [Hsize Hlatest Hcomplete]%throttled_sound. split_and!; [done| |].
  - intros key now window. unfold allow. destruct (entries !! key) as [t|] eqn:Ek; [|done].
    destruct (_ <? _)%N eqn:Ew; [|done]. intros _. exists t. split; [|by apply N.ltb_lt].
    by apply latest_elem, Hlatest.
  - intros Hroom key now window. unfold allow. rewrite (Hcomplete Hroom). destruct (latest log key) as [t|]; [|done].
    destruct (_ <? _)%N eqn:Ew; simpl.
    + apply N.ltb_lt in Ew. split; [done|lia].
    + apply N.ltb_ge in Ew. done.
Qed.
End Throttle.

(** A hash map that is iterated in the order of its keys. *)
Definition key_order : HashOrder :=
  {| hash_order m := map_to_list m; hash_order_perm m := reflexivity (map_to_list m) |}.

Definition example_throttle : gmap string N := {["timeout" := 5000%N]}.

Lemma throttle_spaces_events_witness :
  let answer := (@allow key_order example_throttle "timeout" 5400%N 1000%N).1 in
  answer = false ∧ size example_throttle ≤ THROTTLE_ENTRIES ∧
  ∃ t, ("timeout", t) ∈ [("timeout", 5000%N)] ∧ (saturating_sub 5400 t < 1000)%N.
Proof.
  assert (@throttled key_order example_throttle [("timeout", 5000%N)]) as Hthrottled.
  { eapply (@throttle_admitted key_order ∅ [] "timeout" 5000%N 1000%N); [constructor|reflexivity]. }
  split; [vm_compute; reflexivity|]. destruct (@throttle_spaces_events key_order _ _ Hthrottled) as (Hsize & Hdenied & _).
  split; [exact Hsize|]. apply (Hdenied "timeout" 5400%N 1000%N). vm_compute. reflexivity.
Defined.

(** A note on the inputs a reader would try. *)
Example sanitize_example :
  sanitize_text "MacType.ini: nonce 0123456789abcdef0123456789ABCDEF, profile Office" ["Office"] 64 =
  "MacType.ini: nonce [redacted-nonce], profile [redacted-profile]".
Proof. vm_compute. reflexivity. Qed.

Example bounded_example : bytes_str (bounded_text (str_bytes "a line that is too long") 20) = "a line t [truncated]".
Proof. vm_compute. reflexivity. Qed.
