(* ===== verification/EventLogFile.v ===== *)
(** * The event log on disk

    The second half of [service-runtime/contract/src/event_log.rs]: a record is appended
    as one line to a file that is rotated through four backups, and a reader merges the
    lines of all of them by their time.  [serde_json] is the interface [EventJson]; the
    process-wide lock of [append] is not modelled, because a run of this model is one
    thread. *)

From stdpp Require Import sorting pretty.
From S2P Require Export Frames EventText.

(** What [serde_json] does with an event record. *)
Class EventJson := {
  event_to_vec : EventRecord → result (list ascii) string;
  event_from_slice : list ascii → option EventRecord;
  event_roundtrip r bytes : event_to_vec r = Ok bytes → event_from_slice bytes = Some r;
  event_one_line r bytes : event_to_vec r = Ok bytes → Forall (λ b, b ≠ "010"%char) bytes;
  event_from_nothing : event_from_slice [] = None
}.

Definition LF : ascii := "010"%char.

(** [backup_path]: the index is added to the name. *)
Definition backup_path (p : Path) (index : nat) : Path :=
  with_file_name p (default "" (file_name p) ++ "." ++ pretty (N.of_nat index)).

Section FileCalls.
Context `{World}.

(** [fs::rename]: a file takes the place of the file at the destination. *)
Definition fs_rename (source destination : Path) : M Disk (result unit IoError) :=
  os_write (λ _ m,
    match m !! source, m !! destination with
    | None, _ => Err (io_error Missing)
    | Some Directory, None => Ok (fold_left (move_node source destination m) (tree m source) m)
    | Some Directory, Some _ | Some _, Some Directory => Err (io_error Occupied)
    | Some n, _ => Ok (<[destination := n]> (delete source m))
    end).

(** [OpenOptions::new().create(true).append(true).open(path)] *)
Definition open_append (p : Path) : M Disk (result unit IoError) :=
  os_write (λ _ m,
    match m !! p with
    | None => Ok (<[p := File []]> m)
    | Some (Link Dangling) => Ok (<[p := Link (ToFile [])]> m)
    | Some (File _) | Some (Link (ToFile _)) => Ok m
    | Some Directory | Some (Link ToDirectory) => Err (io_error WrongKind)
    end).

Definition fs_read (p : Path) : M Disk (result (list ascii) IoError) := os_read (λ m, readable m p).

(** ** Writing *)

(** One turn of the loop in [rotate_if_needed]. *)
Definition rotate_backup (path : Path) (index : nat) : M Disk (result unit IoError) :=
  let destination := backup_path path index in
  let! present := path_exists destination in
  let? _ := if present then remove_file destination else ret (Ok tt) in
  let source := if index =? 1 then path else backup_path path (index - 1) in
  let! renamed := fs_rename source destination in
  match renamed with
  | Ok _ => ret (Ok tt)
  | Err e => if not_found e then ret (Ok tt) else ret (Err e)
  end.

Fixpoint rotate_backups (path : Path) (indices : list nat) : M Disk (result unit IoError) :=
  match indices with
  | [] => ret (Ok tt)
  | index :: indices' =>
      let? _ := rotate_backup path index in
      rotate_backups path indices'
  end.

Definition rotate_if_needed (path : Path) (incoming : N) : M Disk (result unit IoError) :=
  let? current_len :=
    let! metadata := fs_metadata path in
    ret (match metadata with
         | Ok (RegularFile len) => Ok len
         | Ok DirectoryMetadata => Ok 0%N
         | Err e => if not_found e then Ok 0%N else Err e
         end) in
  if (saturating_add U64_MAX current_len incoming <=? MAX_EVENT_LOG_BYTES)%N then ret (Ok tt)
  else rotate_backups path (rev (seq 1 EVENT_LOG_BACKUPS)).

Context `{EventJson}.

Definition append (path : Path) (record : EventRecord) : M Disk (result unit IoError) :=
  match event_to_vec record with
  | Err e => ret (Err (invalid_data e))
  | Ok bytes =>
      let line := bytes ++ [LF] in
      if (MAX_EVENT_LOG_BYTES <? bytes_len line)%N
      then ret (Err (invalid_data "event record exceeds the event-log byte limit"))
      else
        match path_parent path with
        | None => ret (Err (invalid_data "event log path has no parent directory"))
        | Some parent =>
            let? _ := create_dir_all parent in
            let? _ := rotate_if_needed path (bytes_len line) in
            let? _ := open_append path in
            let? _ := append_all path line in
            ret (Ok tt)
        end
  end.

(** [EventLogWriter::record]; [now] is [SystemTime::now()]. *)
Definition record_event (path : Path) (now : Z) (source : EventSource) (s : EventSeverity) (a : EventArea)
    (code : string) (ps : list (string * string)) (detail : option string) (redactions : list string) :
    M Disk (result unit IoError) :=
  let? t := ret (unix_time_ms now) in
  append path (sanitized_record t source s a code ps detail redactions).

(** ** Reading *)

(** The lines of one file, each with the number of lines before it. *)
Fixpoint collect_lines (lines : list (list ascii)) (order : N) (entries : list (EventRecord * N)) :
    list (EventRecord * N) * N :=
  match lines with
  | [] => (entries, order)
  | line :: lines' =>
      let entries := match event_from_slice line with
                     | Some record => if valid_record record then entries ++ [(record, order)] else entries
                     | None => entries
                     end in
      collect_lines lines' (saturating_add U64_MAX order 1) entries
  end.

Fixpoint collect_files (paths : list Path) (order : N) (entries : list (EventRecord * N)) :
    M Disk (list (EventRecord * N)) :=
  match paths with
  | [] => ret entries
  | p :: paths' =>
      let! bytes := fs_read p in
      match bytes with
      | Ok bytes =>
          if (bytes_len bytes <=? MAX_EVENT_LOG_BYTES)%N then
            let '(entries, order) := collect_lines (split_on (λ b, (b =? LF)%char) bytes) order entries in
            collect_files paths' order entries
          else collect_files paths' order entries
      | Err _ => collect_files paths' order entries
      end
  end.

(** A log and its backups, the oldest first. *)
Definition log_files (base : Path) : list Path :=
  map (backup_path base) (rev (seq 1 EVENT_LOG_BACKUPS)) ++ [base].

Definition before_or_with (a b : EventRecord * N) : bool :=
  (ts a.1 <? ts b.1)%N || ((ts a.1 =? ts b.1)%N && (a.2 <=? b.2)%N).

(** [sort_by_key], which is stable. *)
Fixpoint insert_entry (e : EventRecord * N) (l : list (EventRecord * N)) : list (EventRecord * N) :=
  match l with
  | [] => [e]
  | e' :: l' => if before_or_with e e' then e :: l else e' :: insert_entry e l'
  end.

Definition sort_entries (l : list (EventRecord * N)) : list (EventRecord * N) := fold_right insert_entry [] l.

Definition read_events (paths : list Path) (limit : nat) : M Disk (list EventRecord) :=
  if limit =? 0 then ret []
  else
    let! entries := collect_files (concat (map log_files paths)) 0 [] in
    ret (drop (length entries - limit) (sort_entries entries)).*1.
End FileCalls.

(** ** The files of a log *)

Definition log_file (path : Path) (index : nat) : Path :=
  match index with O => path | S _ => backup_path path index end.

Lemma backup_path_join parent name index :
  backup_path (path_join parent name) index = path_join parent (name ++ "." ++ pretty (N.of_nat index)).
Proof. unfold backup_path, with_file_name, file_name. rewrite path_parent_join. unfold path_join. by rewrite last_snoc. Qed.

Lemma str_app_nil s t : (s ++ t)%string = s → t = "".
Proof. induction s as [|c s IH]; [done|]. intros E. apply IH. by injection E. Qed.

Lemma log_file_inj parent name i j : log_file (path_join parent name) i = log_file (path_join parent name) j → i = j.
Proof.
  destruct i as [|i], j as [|j]; cbn [log_file]; rewrite ?backup_path_join; [done|..]; unfold path_join;
    intros [_ [= E]]%app_inj_tail.
  - by apply eq_sym, str_app_nil in E.
  - by apply str_app_nil in E.
  - apply (inj (String.append name)), (inj (String.append ".")), (inj pretty) in E. lia.
Qed.

Lemma log_file_not_above parent name i : log_file (path_join parent name) i ∉ ancestors parent.
Proof.
  intros (n & Hn & E)%ancestors_elem. destruct i; cbn [log_file] in E; rewrite ?backup_path_join in E;
    apply (f_equal length) in E; unfold path_join in E; rewrite length_app, length_take in E; simpl in E; lia.
Qed.

(** A write, with the reason when it failed. *)
Lemma os_write_exact `{World} P f d :
  (∀ partial m', f partial (nodes d) = Ok m' → P m') →
  spec P (os_write f) (λ r d',
    match r with
    | Ok _ => f None (nodes d) = Ok (nodes d')
    | Err e => (nodes d' = nodes d ∧ f None (nodes d) = Err e) ∨
        (faulty e ∧ (nodes d' = nodes d ∨ ∃ n, f (Some n) (nodes d) = Ok (nodes d')))
    end) d.
Proof.
  intros HP. unfold spec, wp, os_write, tick, bind, gets, modify, ret.
  assert (run P d (pass_time (elapsed (calls d)) (next_call d))) as Hquiet.
  { apply run_still; [done|done|later]. }
  assert (∀ m', P m' → run P d (set_nodes m' (pass_time (elapsed (calls d)) (next_call d)))) as Hwrite.
  { intros m' Hm'. by eapply run_change; [..|later]. }
  destruct (fault (calls d)) as [[e|e n]|] eqn:Ef; simpl.
  - split; [done|]. right. split; [|by left]. exists (calls d). by left.
  - assert (faulty e) by (exists (calls d); right; by exists n).
    destruct (f (Some n) (nodes d)) as [m'|e'] eqn:E; simpl; (split; [eauto|]); right; (split; [done|]); eauto.
  - destruct (f None (nodes d)) as [m'|e'] eqn:E; simpl; (split; [eauto|]); [done|]. by left.
Qed.

(** ** Rotation *)

Section Rotation.
Context `{World} (Htruth : truthful) (parent : Path) (name : string) (before : Nodes).
Implicit Types (m : Nodes) (d : Disk).

Local Notation path := (path_join parent name).
Local Notation F := (log_file path).

(** A file of the log, as this program makes them. *)
Definition log_node (n : option Node) : Prop :=
  n = None ∨ ∃ bytes, n = Some (File bytes) ∧ (bytes_len bytes <= MAX_EVENT_LOG_BYTES)%N.

Context (Hbefore : ∀ i, i ≤ EVENT_LOG_BACKUPS → log_node (before !! F i)).

(** The files from [index] on have moved to the next name; the others are where they were. *)
Record shifted (index : nat) m : Prop := {
  not_moved i : i < index → m !! F i = before !! F i;
  moved_on i : index < i ≤ EVENT_LOG_BACKUPS → m !! F i = before !! F (i - 1)
}.

(** The name that is free for the next move: the oldest backup may still be there. *)
Definition free (index : nat) m : Prop :=
  m !! F index = None ∨ (index = EVENT_LOG_BACKUPS ∧ m !! F index = before !! F index).

Definition rotating m : Prop := ∃ index, index ≤ EVENT_LOG_BACKUPS ∧ shifted index m ∧ free index m.

Lemma F_ne i j : i ≠ j → F i ≠ F j.
Proof. by intros Hne E%log_file_inj. Qed.

Lemma shifted_other index m m' :
  shifted index m → (∀ i, i ≠ index → m' !! F i = m !! F i) → shifted index m'.
Proof. intros [Hl Hu] Hm. split; intros i Hi; rewrite Hm by lia; auto. Qed.

Lemma shifted_next index m m' :
  shifted (S index) m → S index ≤ EVENT_LOG_BACKUPS → m' !! F (S index) = before !! F index →
  (∀ i, i ≠ index → i ≠ S index → m' !! F i = m !! F i) → shifted index m'.
Proof.
  intros [Hl Hu] Hle Hmoved Hm. split; intros i Hi.
  - rewrite Hm by lia. apply Hl. lia.
  - destruct (decide (i = S index)) as [->|]; [by rewrite Nat.sub_1_r|]. rewrite Hm by lia. apply Hu. lia.
Qed.

(** The source of a turn. *)
Lemma turn_source index : (if S index =? 1 then path else backup_path path (S index - 1)) = F index.
Proof. destruct index; [done|]. cbn [Nat.eqb]. by rewrite Nat.sub_1_r. Qed.

Lemma rename_turn index d :
  S index ≤ EVENT_LOG_BACKUPS → shifted (S index) (nodes d) → nodes d !! F (S index) = None →
  spec rotating (fs_rename (F index) (F (S index))) (λ r d',
    match r with
    | Ok _ => shifted index (nodes d') ∧ nodes d' !! F index = None
    | Err e => not_found e = true → shifted index (nodes d') ∧ nodes d' !! F index = None
    end) d.
Proof.
  intros Hle Hs Hfree. pose proof (not_moved _ _ Hs index (Nat.lt_succ_diag_r _)) as Hsource.
  assert (∀ b, nodes d !! F index = Some (File b) →
    let m' := <[F (S index) := File b]> (delete (F index) (nodes d)) in
    shifted index m' ∧ m' !! F index = None) as Hmove.
  { intros b Hb m'. pose proof (F_ne index (S index)). split.
    - eapply shifted_next; [exact Hs|done| |].
      + unfold m'. by rewrite lookup_insert_eq, <- Hsource, Hb.
      + intros i Hi Hi'. unfold m'. rewrite lookup_insert_ne by (apply F_ne; lia). apply lookup_delete_ne, F_ne. lia.
    - unfold m'. rewrite lookup_insert_ne by (apply F_ne; lia). by rewrite lookup_delete_eq. }
  eapply spec_post; [apply os_write_exact|].
  - intros partial m'. rewrite Hfree. destruct (Hbefore index) as [Hn|(b & Hb & _)]; [lia|by rewrite Hsource, Hn|].
    rewrite Hsource, Hb. intros <-%(inj Ok). exists index.
    destruct (Hmove b) as [??]; [by rewrite Hsource|]. split_and!; [lia|done|by left].
  - intros [u|e] d' _; rewrite Hfree; (destruct (Hbefore index) as [Hn|(b & Hb & _)]; [lia|rewrite Hsource, Hn|rewrite Hsource, Hb]).
    + done.
    + intros E%(inj Ok). rewrite <- E. apply Hmove. by rewrite Hsource.
    + intros [[-> _]|[He _]] Hnf; [|by rewrite (finds Htruth _ He) in Hnf]. split; [|by rewrite Hsource].
      eapply shifted_next; [exact Hs|done|by rewrite Hfree|done].
    + intros [[_ E]|[He _]] Hnf; [done|by rewrite (finds Htruth _ He) in Hnf].
Qed.

Lemma rotate_backup_spec index d :
  S index ≤ EVENT_LOG_BACKUPS → shifted (S index) (nodes d) → free (S index) (nodes d) →
  spec rotating (rotate_backup path (S index)) (λ r d',
    r = Ok tt → shifted index (nodes d') ∧ nodes d' !! F index = None) d.
Proof.
  intros Hle Hs Hfree. unfold rotate_backup. rewrite turn_source. fold (F (S index)).
  change (backup_path path (S index)) with (F (S index)).
  spec_then path_exists_spec. intros present d1 _ (Hn1 & _ & Hsees). specialize (Hsees (sees Htruth)).
  assert (shifted (S index) (delete (F (S index)) (nodes d))) as Hdeleted.
  { eapply shifted_other; [exact Hs|]. intros i Hi. apply lookup_delete_ne, F_ne. lia. }
  eapply (spec_try _ _ _ (λ r d', r = Ok tt → shifted (S index) (nodes d') ∧ nodes d' !! F (S index) = None)).
  - destruct present.
    + eapply spec_post; [apply os_write_spec|].
      * intros partial m'. rewrite Hn1. destruct (nodes d !! F (S index)) as [[]|]; try done;
          intros <-%(inj Ok); exists (S index); (split_and!; [done|done|left; apply lookup_delete_eq]).
      * intros [u|e] d2 _ Hw; [|done]. intros _. rewrite Hn1 in Hw.
        destruct (nodes d !! F (S index)) as [[]|]; try done; apply (inj Ok) in Hw; rewrite <- Hw;
          (split; [done|apply lookup_delete_eq]).
    + apply spec_ret. intros _. rewrite Hn1. split; [done|]. symmetry in Hsees. unfold node_exists in Hsees.
      destruct Hfree as [Hf|[_ Hf]]; [done|].
      destruct (Hbefore (S index) Hle) as [Hb|(b & Hb & _)]; rewrite Hf, Hb in *; done.
  - intros u d2 _ Hq. destruct u. destruct (Hq eq_refl) as [Hs2 Hnone].
    eapply spec_bind; [by apply rename_turn|]. intros [u|e] d3 _ Hr.
    + apply spec_ret. by intros _.
    + destruct (not_found e); apply spec_ret; [|done]. intros _. by apply Hr.
  - done.
Qed.

Lemma rotate_backups_spec index d :
  index ≤ EVENT_LOG_BACKUPS → shifted index (nodes d) → free index (nodes d) →
  spec rotating (rotate_backups path (rev (seq 1 index))) (λ r d',
    r = Ok tt → shifted 0 (nodes d') ∧ nodes d' !! path = None) d.
Proof.
  revert d. induction index as [|index IH]; intros d Hle Hs Hf.
  - apply spec_ret. intros _. split; [done|]. by destruct Hf as [|[]].
  - rewrite seq_S, rev_app_distr. cbn [rev app rotate_backups]. rewrite Nat.add_1_l.
    try_then rotate_backup_spec; [done..| |done]. intros [] d1 _ Hq. destruct (Hq eq_refl) as [Hs1 Hn1].
    apply IH; [lia|done|by left].
Qed.

(** *** One line *)

Lemma write_line_spec (P : Nodes → Prop) line old d :
  (nodes d !! path = None ∧ old = []) ∨ nodes d !! path = Some (File old) →
  (∀ m written, written `prefix_of` line → (∀ i, i ≠ 0 → m !! F i = nodes d !! F i) →
     m !! path = Some (File (old ++ written)) → P m) →
  spec P (let? _ := open_append path in let? _ := append_all path line in ret (Ok tt)) (λ r d',
    r = Ok tt → (∀ i, i ≠ 0 → nodes d' !! F i = nodes d !! F i) ∧ nodes d' !! path = Some (File (old ++ line))) d.
Proof.
  intros Hold HP.
  assert (∀ m n i, i ≠ 0 → <[path := n]> m !! F i = m !! F i) as Hother.
  { intros m n i Hi. apply lookup_insert_ne. by apply (F_ne 0). }
  eapply (spec_try _ _ _ (λ r d', r = Ok tt →
    (∀ i, i ≠ 0 → nodes d' !! F i = nodes d !! F i) ∧ nodes d' !! path = Some (File old))).
  - eapply spec_post; [apply os_write_spec|].
    + intros partial m'. destruct Hold as [[Hn ->]|Ho]; [rewrite Hn|rewrite Ho]; intros <-%(inj Ok).
      * apply (HP _ []); [apply prefix_nil|by intros; apply Hother|apply lookup_insert_eq].
      * apply (HP _ []); [apply prefix_nil|done|by rewrite app_nil_r].
    + intros [u|e] d1 _ Hw; [|done]. intros _. destruct Hold as [[Hn ->]|Ho]; [rewrite Hn in Hw|rewrite Ho in Hw];
        apply (inj Ok) in Hw; rewrite <- Hw; [|done]. split; [by intros; apply Hother|apply lookup_insert_eq].
  - intros [] d1 _ Hq. destruct (Hq eq_refl) as [Hn1 Hp1].
    eapply (spec_try _ _ _ (λ r d', r = Ok tt →
      (∀ i, i ≠ 0 → nodes d' !! F i = nodes d !! F i) ∧ nodes d' !! path = Some (File (old ++ line)))).
    + eapply spec_post; [apply os_write_spec|].
      * intros partial m'. rewrite Hp1. intros <-%(inj Ok).
        eapply HP; [|by intros; rewrite Hother; auto|by rewrite lookup_insert_eq].
        destruct partial as [n|]; [exists (drop n line); by rewrite take_drop|done].
      * intros [u|e] d2 _ Hw; [|done]. intros _. rewrite Hp1 in Hw. apply (inj Ok) in Hw. rewrite <- Hw.
        split; [by intros; rewrite Hother; auto|apply lookup_insert_eq].
    + intros [] d2 _ Hq2. by apply spec_ret.
    + done.
  - done.
Qed.

(** *** The whole append *)

Definition current_bytes : list ascii := match before !! path with Some (File bytes) => bytes | _ => [] end.

(** What appending a line means for a log and its backups. *)
Definition appended (line : list ascii) (index : nat) : option Node :=
  if (bytes_len current_bytes + bytes_len line <=? MAX_EVENT_LOG_BYTES)%N then
    match index with O => Some (File (current_bytes ++ line)) | S _ => before !! F index end
  else match index with O => Some (File line) | S index' => before !! F index' end.

(** What holds of the files at every moment of an append: they are within their bound, and each
    but the oldest backup is still there, under its name or the next one; the
    log itself may have been extended by a part of the line. *)
Definition preserved (line : list ascii) m : Prop :=
  (∀ i, i ≤ EVENT_LOG_BACKUPS → log_node (m !! F i)) ∧
  (∀ i bytes, i < EVENT_LOG_BACKUPS → before !! F i = Some (File bytes) →
     m !! F i = Some (File bytes) ∨ m !! F (S i) = Some (File bytes) ∨
     (i = 0 ∧ ∃ written, written `prefix_of` line ∧ m !! path = Some (File (bytes ++ written)))).

Lemma rotating_preserved line m : rotating m → preserved line m.
Proof.
  intros (index & Hle & [Hl Hu] & Hfree). split.
  - intros i Hi. destruct (lt_eq_lt_dec i index) as [[Hlt | ->]|Hlt].
    + rewrite Hl by done. by apply Hbefore.
    + destruct Hfree as [-> | [_ ->]]; [by left|by apply Hbefore].
    + rewrite Hu by lia. apply Hbefore. lia.
  - intros i bytes Hi Hb. destruct (decide (i < index)); [left; by rewrite Hl|].
    right. left. rewrite Hu by lia. by rewrite Nat.sub_1_r.
Qed.

Lemma unmoved_rotating m : (∀ i, i ≤ EVENT_LOG_BACKUPS → m !! F i = before !! F i) → rotating m.
Proof.
  intros Hm. exists EVENT_LOG_BACKUPS. split_and!; [done| |].
  - split; intros i Hi; [apply Hm; lia|lia].
  - right. split; [done|]. by apply Hm.
Qed.

Lemma current_cases : (before !! path = None ∧ current_bytes = []) ∨ before !! path = Some (File current_bytes).
Proof.
  unfold current_bytes. destruct (Hbefore 0) as [Hn|(b & Hb & _)]; [apply Nat.le_0_l| |]; cbn [log_file] in *.
  - left. by rewrite Hn.
  - right. by rewrite Hb.
Qed.

Lemma extended_preserved line m written :
  (bytes_len current_bytes + bytes_len line <= MAX_EVENT_LOG_BYTES)%N → written `prefix_of` line →
  (∀ i, i ≠ 0 → i ≤ EVENT_LOG_BACKUPS → m !! F i = before !! F i) → m !! path = Some (File (current_bytes ++ written)) →
  preserved line m.
Proof.
  intros Hlen Hw Hm Hp. split.
  - intros [|i] Hi; [|rewrite Hm by done; by apply Hbefore]. right. eexists. split; [exact Hp|].
    apply prefix_length in Hw. unfold bytes_len in *. rewrite length_app. lia.
  - intros [|i] bytes Hi Hb; [|left; rewrite Hm by lia; done]. right. right. split; [done|]. exists written. split; [done|].
    destruct current_cases as [[Hn _]|Hc]; cbn [log_file] in Hb; congruence.
Qed.

Lemma fresh_preserved line m written :
  (bytes_len line <= MAX_EVENT_LOG_BYTES)%N → written `prefix_of` line →
  (∀ i, i < EVENT_LOG_BACKUPS → m !! F (S i) = before !! F i) → m !! path = Some (File written) → preserved line m.
Proof.
  intros Hlen Hw Hm Hp. split.
  - intros [|i] Hi; [|rewrite Hm by lia; apply Hbefore; lia]. right. eexists. split; [exact Hp|].
    apply prefix_length in Hw. unfold bytes_len in *. lia.
  - intros i bytes Hi Hb. right. left. by rewrite Hm.
Qed.

Lemma rotation_spec incoming d :
  (∀ i, i ≤ EVENT_LOG_BACKUPS → nodes d !! F i = before !! F i) →
  (incoming <= MAX_EVENT_LOG_BYTES)%N →
  spec rotating (rotate_if_needed path incoming) (λ r d', r = Ok tt →
    if (bytes_len current_bytes + incoming <=? MAX_EVENT_LOG_BYTES)%N
    then ∀ i, i ≤ EVENT_LOG_BACKUPS → nodes d' !! F i = before !! F i
    else shifted 0 (nodes d') ∧ nodes d' !! path = None) d.
Proof.
  intros Hd Hin. unfold rotate_if_needed.
  eapply (spec_try _ _ _ (λ r d', nodes d' = nodes d ∧ ∀ len, r = Ok len → len = bytes_len current_bytes)).
  - spec_then os_read_spec. intros r d1 _ [Hn1 Hr]. apply spec_ret. split; [done|]. intros len.
    pose proof (Hd 0 (Nat.le_0_l _)) as H0. cbn [log_file] in H0. rewrite H0 in Hr.
    destruct current_cases as [[Hn ->]|Hc]; [rewrite Hn in Hr|rewrite Hc in Hr];
      destruct Hr as [->|(e & -> & He)]; rewrite ?(finds Htruth _ He); try done.
    + destruct (not_found (io_error Missing)); [|done]. by intros <-%(inj Ok).
    + cbn [node_metadata]. by intros <-%(inj Ok).
  - intros len d1 _ [Hn1 Hlen]. rewrite (Hlen _ eq_refl).
    assert (saturating_add U64_MAX (bytes_len current_bytes) incoming = (bytes_len current_bytes + incoming)%N) as ->.
    { unfold saturating_add. apply N.min_l.
      assert (bytes_len current_bytes <= MAX_EVENT_LOG_BYTES)%N as Hc.
      { destruct current_cases as [[_ ->]|Hc]; [done|]. destruct (Hbefore 0) as [Hn|(b & Hb & Hlen')]; [apply Nat.le_0_l|..];
          cbn [log_file] in *; [by rewrite Hn in Hc|]. rewrite Hb in Hc. by injection Hc as ->. }
      unfold MAX_EVENT_LOG_BYTES, U64_MAX in *. lia. }
    destruct (_ <=? _)%N; [apply spec_ret; intros _; by rewrite Hn1|].
    apply rotate_backups_spec; [done| |].
    + split; intros i Hi; [rewrite Hn1; apply Hd; lia|lia].
    + right. split; [done|]. rewrite Hn1. by apply Hd.
  - done.
Qed.
End Rotation.

(** ** Appending *)

Definition line_of `{EventJson} (record : EventRecord) : list ascii :=
  match event_to_vec record with Ok bytes => bytes ++ [LF] | Err _ => [] end.

Definition log_nodes (parent : Path) (name : string) (m : Nodes) : Prop :=
  ∀ i, i ≤ EVENT_LOG_BACKUPS → log_node (m !! log_file (path_join parent name) i).

Section Appending.
Context `{World} `{EventJson} (Htruth : truthful) (parent : Path) (name : string).
Implicit Types (m : Nodes) (d : Disk).

Local Notation path := (path_join parent name).
Local Notation F := (log_file path).

Lemma preserved_now before line : log_nodes parent name before → preserved parent name before line before.
Proof. intros Hb. split; [done|]. intros i bytes _ E. by left. Qed.

Lemma append_spec record d :
  log_nodes parent name (nodes d) →
  spec (preserved parent name (nodes d) (line_of record)) (append path record) (λ r d',
    r = Ok tt → (∃ bytes, event_to_vec record = Ok bytes) ∧
      ∀ i, i ≤ EVENT_LOG_BACKUPS → nodes d' !! F i = appended parent name (nodes d) (line_of record) i) d.
Proof.
  intros Hb. set (before := nodes d) in *. unfold append, line_of.
  destruct (event_to_vec record) as [bytes|e]; [|by apply spec_ret]. set (line := bytes ++ [LF]).
  destruct (_ <? _)%N eqn:Elen; [by apply spec_ret|]. apply N.ltb_ge in Elen. rewrite path_parent_join.
  assert (∀ m, rotating parent name before m → preserved parent name before line m) as Hrot.
  { intros m. by apply rotating_preserved. }
  eapply (spec_try _ _ _ (λ _ d', ∀ i, i ≤ EVENT_LOG_BACKUPS → nodes d' !! F i = before !! F i)).
  { assert (∀ m i, fold_left make_directory (rev (ancestors parent)) m !! F i = m !! F i) as Hdirs.
    { intros m i. apply make_directories_lookup. rewrite list_elem_of_In, <- in_rev, <- list_elem_of_In.
      apply log_file_not_above. }
    eapply spec_post; [apply os_write_spec|].
    - intros partial m'. destruct (forallb _ _); [|done]. intros <-%(inj Ok).
      apply Hrot. apply unmoved_rotating. intros i _. apply Hdirs.
    - intros r d1 _ Hw i _. destruct r as [u|e].
      + destruct (forallb _ _); [|done]. apply (inj Ok) in Hw. by rewrite <- Hw, Hdirs.
      + destruct Hw as [->|[_ Hw]]; [done|]. destruct (forallb _ _); [|done]. apply (inj Ok) in Hw.
        by rewrite <- Hw, Hdirs. }
  2: { intros e d1 _ _ ?. done. }
  intros [] d1 _ Hn1.
  eapply spec_try; [eapply spec_mono; [by apply (rotation_spec Htruth parent name before Hb)|exact Hrot|]| |].
  { intros r d2 _ Hr. exact Hr. }
  2: { done. }
  cbv beta. intros [] d2 _ Hr. specialize (Hr eq_refl).
  unfold appended. destruct (_ <=? _)%N eqn:Efit.
  - apply N.leb_le in Efit.
    eapply spec_post; [apply (write_line_spec parent name _ line (current_bytes parent name before))|].
    + pose proof (Hr 0 (Nat.le_0_l _)) as H2. cbn [log_file] in H2. rewrite H2. by apply current_cases.
    + intros m written Hw Hm Hp. eapply (extended_preserved parent name before Hb line m written); [done|done| |done].
      intros i Hi Hle. rewrite Hm by done. by apply Hr.
    + intros r d3 _ Hq Hok. destruct (Hq Hok) as [Hm Hp]. split; [eauto|]. intros [|i] Hi; [done|].
      rewrite Hm by done. by apply Hr.
  - destruct Hr as [[_ Hu] Hnone].
    eapply spec_post; [apply (write_line_spec parent name _ line [])|].
    + by left.
    + intros m written Hw Hm Hp. eapply (fresh_preserved parent name before Hb line m written); [done|done| |done].
      intros i Hi. rewrite Hm by done. rewrite Hu by lia. by rewrite Nat.sub_1_r.
    + intros r d3 _ Hq Hok. destruct (Hq Hok) as [Hm Hp]. split; [eauto|]. intros [|i] Hi; [done|].
      rewrite Hm by done. rewrite Hu by lia. by rewrite Nat.sub_1_r.
Qed.
End Appending.

(** ** Reading back *)

Definition is_lf (b : ascii) : bool := (b =? LF)%char.

Section ReadingBack.
Context `{World} `{EventJson}.
Implicit Types (m : Nodes) (d : Disk) (p : Path).

(** The records in the lines of a file that a reader accepts. *)
Definition records_of (lines : list (list ascii)) : list EventRecord :=
  list_retain valid_record (omap event_from_slice lines).

Definition file_events m p : list EventRecord :=
  match readable m p with
  | Ok bytes => if (bytes_len bytes <=? MAX_EVENT_LOG_BYTES)%N then records_of (split_on is_lf bytes) else []
  | Err _ => []
  end.

Definition older (a b : EventRecord) : Prop := (ts a <= ts b)%N.

(** The bytes that were not cut off: every line is whole. *)
Definition terminated (bytes : list ascii) : Prop := bytes = [] ∨ ∃ before, bytes = before ++ [LF].

Lemma collect_lines_spec lines order entries :
  ∃ found order', collect_lines lines order entries = (entries ++ found, order') ∧ found.*1 = records_of lines.
Proof.
  revert order entries. induction lines as [|line lines IH]; intros order entries; cbn [collect_lines].
  - exists [], order. by rewrite app_nil_r.
  - unfold records_of. cbn [omap list_omap].
    destruct (event_from_slice line) as [record|]; [|by apply IH]. rewrite list_retain_cons.
    destruct (valid_record record) eqn:Ev.
    + destruct (IH (saturating_add U64_MAX order 1) (entries ++ [(record, order)])) as (found & order' & -> & Hf).
      exists ((record, order) :: found), order'. rewrite <- app_assoc. split; [done|]. cbn [fmap list_fmap fst]. by f_equal.
    + destruct (IH (saturating_add U64_MAX order 1) entries) as (found & order' & -> & Hf).
      by exists found, order'.
Qed.

Lemma collect_files_spec P paths order entries d :
  working →
  spec P (collect_files paths order entries) (λ all d', nodes d' = nodes d ∧
    all.*1 = entries.*1 ++ concat (map (file_events (nodes d)) paths)) d.
Proof.
  intros Hworks. revert order entries d. induction paths as [|p paths IH]; intros order entries d; cbn [collect_files].
  - apply spec_ret. by rewrite app_nil_r.
  - eapply spec_bind; [by apply os_read_works|]. cbv beta. intros r d1 _ [Hn ->].
    cbn [map concat]. unfold file_events at 1. rewrite <- Hn.
    destruct (readable (nodes d1) p) as [bytes|e]; [|apply IH].
    destruct (_ <=? _)%N; [|apply IH].
    destruct (collect_lines_spec (split_on is_lf bytes) order entries) as (found & order' & E & Hf).
    change (λ b, (b =? LF)%char) with is_lf. rewrite E.
    eapply spec_post; [apply IH|]. intros all d2 _ [Hn2 ->]. split; [done|].
    by rewrite fmap_app, Hf, <- app_assoc.
Qed.

Lemma insert_entry_perm e l : insert_entry e l ≡ₚ e :: l.
Proof.
  induction l as [|e' l IH]; [done|]. cbn [insert_entry]. destruct (before_or_with e e'); [done|]. rewrite IH. apply Permutation_swap.
Qed.

Lemma sort_entries_perm l : sort_entries l ≡ₚ l.
Proof. induction l as [|e l IH]; [done|]. cbn [sort_entries fold_right]. by rewrite insert_entry_perm, IH. Qed.

Lemma insert_entry_sorted e l : StronglySorted older l.*1 → StronglySorted older (insert_entry e l).*1.
Proof.
  induction l as [|e' l IH]; cbn [insert_entry fmap list_fmap]; intros Hl; [by repeat constructor|].
  apply StronglySorted_inv in Hl as [Hl Hall]. unfold before_or_with. destruct (_ || _) eqn:E; cbn [fmap list_fmap].
  - assert (older e.1 e'.1) as He.
    { unfold older. apply orb_true_iff in E as [E|E]; andb_split; lia. }
    constructor; [by constructor|]. constructor; [done|]. eapply Forall_impl; [exact Hall|].
    unfold older in *. cbn. lia.
  - assert (older e'.1 e.1) as He.
    { unfold older. apply orb_false_iff in E as [E _]. apply N.ltb_ge in E. done. }
    constructor; [by apply IH|]. rewrite insert_entry_perm. by constructor.
Qed.

Lemma sort_entries_sorted l : StronglySorted older (sort_entries l).*1.
Proof. induction l as [|e l IH]; [constructor|]. by apply insert_entry_sorted. Qed.

Lemma read_events_spec P p limit d :
  working →
  spec P (read_events [p] limit) (λ events d', nodes d' = nodes d ∧
    ∃ all, all ≡ₚ concat (map (file_events (nodes d)) (log_files p)) ∧ StronglySorted older all ∧
      events = drop (length all - limit) all) d.
Proof.
  intros Hworks. unfold read_events. destruct (limit =? 0) eqn:El.
  - apply Nat.eqb_eq in El as ->. apply spec_ret. split; [done|].
    set (all := concat (map (file_events (nodes d)) (log_files p))).
    exists (sort_entries ((λ r, (r, 0%N)) <$> all)).*1. split_and!.
    + rewrite sort_entries_perm, <- list_fmap_compose. by rewrite list_fmap_id.
    + apply sort_entries_sorted.
    + by rewrite Nat.sub_0_r, drop_all.
  - eapply spec_bind; [by apply collect_files_spec|]. cbv beta. intros entries d1 _ [Hn He]. apply spec_ret.
    split; [done|]. exists (sort_entries entries).*1. cbn [map concat] in He. rewrite app_nil_r in He. split_and!.
    + by rewrite sort_entries_perm, He.
    + apply sort_entries_sorted.
    + rewrite fmap_drop, length_fmap. do 2 f_equal. symmetry. apply Permutation_length, sort_entries_perm.
Qed.

Lemma records_of_app lines lines' : records_of (lines ++ lines') = records_of lines ++ records_of lines'.
Proof. unfold records_of, list_retain. by rewrite omap_app, filter_app. Qed.

(** A line added to whole lines adds its record. *)
Lemma records_of_line old record bytes :
  terminated old → valid_record record = true → event_to_vec record = Ok bytes →
  records_of (split_on is_lf (old ++ bytes ++ [LF])) = records_of (split_on is_lf old) ++ [record].
Proof.
  intros Hold Hvalid Hbytes.
  assert (records_of (split_on is_lf (bytes ++ [LF])) = [record]) as Hline.
  { rewrite split_on_cut by done. rewrite split_on_free.
    - unfold records_of. simpl. rewrite (event_roundtrip _ _ Hbytes). rewrite event_from_nothing. by rewrite list_retain_cons, Hvalid.
    - apply forallb_forall. intros b Hb%list_elem_of_In. pose proof (event_one_line _ _ Hbytes) as Hall.
      rewrite Forall_forall in Hall. apply negb_true_iff, Ascii.eqb_neq. by apply Hall. }
  destruct Hold as [->|[before ->]].
  - rewrite app_nil_l, Hline. unfold records_of. simpl. by rewrite event_from_nothing.
  - rewrite <- (app_assoc before). change ([LF] ++ bytes ++ [LF]) with (LF :: (bytes ++ [LF])).
    rewrite !(split_on_cut is_lf before) by done. rewrite !records_of_app.
    rewrite Hline. f_equal. unfold records_of. simpl. rewrite event_from_nothing. by rewrite app_nil_r.
Qed.
End ReadingBack.

(** ** Properties *)

Section Properties.
Context `{World} `{EventJson}.
Implicit Types (m : Nodes) (d : Disk).

Lemma working_truthful : working → truthful.
Proof.
  intros Hworks. split; [apply (always_sees Hworks)|]. intros e (n & Hf). rewrite (never_fails Hworks) in Hf.
  by destruct Hf as [|[]].
Qed.

Lemma file_events_ext m m' p q : m !! p = m' !! q → file_events m p = file_events m' q.
Proof. intros E. unfold file_events, readable. by rewrite E. Qed.

(** The records a reader finds, in the order of the files. *)
Definition log_events m (path : Path) : list EventRecord := concat (map (file_events m) (log_files path)).

(** Those that are still there after [line] was appended. *)
Definition kept_events parent name m line : list EventRecord :=
  let path := path_join parent name in
  if (bytes_len (current_bytes parent name m) + bytes_len line <=? MAX_EVENT_LOG_BYTES)%N
  then log_events m path
  else concat (map (file_events m) (tail (log_files path))).

Lemma current_events parent name m :
  log_nodes parent name m →
  file_events m (path_join parent name) = records_of (split_on is_lf (current_bytes parent name m)).
Proof.
  intros Hm. unfold file_events, readable.
  destruct (current_cases parent name m Hm) as [[-> ->]|Hc].
  - unfold records_of. simpl. by rewrite event_from_nothing.
  - rewrite Hc. destruct (Hm 0) as [Hn|(b & Hb & Hlen)]; [apply Nat.le_0_l|..]; cbn [log_file] in *; [congruence|].
    rewrite Hc in Hb. assert (b = current_bytes parent name m) as -> by (by injection Hb).
    apply N.leb_le in Hlen. by rewrite Hlen.
Qed.

Lemma appended_events parent name m m' record bytes :
  log_nodes parent name m → terminated (current_bytes parent name m) →
  valid_record record = true → event_to_vec record = Ok bytes → (bytes_len (line_of record) <= MAX_EVENT_LOG_BYTES)%N →
  (∀ i, i ≤ EVENT_LOG_BACKUPS → m' !! log_file (path_join parent name) i = appended parent name m (line_of record) i) →
  log_events m' (path_join parent name) = kept_events parent name m (line_of record) ++ [record].
Proof.
  intros Hm Hterm Hvalid Hbytes Hlen Hm'. set (path := path_join parent name) in *.
  assert (file_events m' path = if (bytes_len (current_bytes parent name m) + bytes_len (line_of record) <=? MAX_EVENT_LOG_BYTES)%N
    then file_events m path ++ [record] else [record]) as Hlast.
  { pose proof (Hm' 0 (Nat.le_0_l _)) as Hf0. cbn [log_file] in Hf0. unfold appended in Hf0.
    unfold file_events at 1, readable. rewrite Hf0. subst path. destruct (_ <=? _)%N eqn:Efit.
    - assert (bytes_len (current_bytes parent name m ++ line_of record) <=? MAX_EVENT_LOG_BYTES = true)%N as ->.
      { apply N.leb_le in Efit. apply N.leb_le. unfold bytes_len in *. rewrite length_app. lia. }
      rewrite current_events by done. unfold line_of. rewrite Hbytes. by apply records_of_line.
    - rewrite (proj2 (N.leb_le _ _) Hlen). unfold line_of. rewrite Hbytes.
      rewrite <- (app_nil_l (bytes ++ [LF])). rewrite (records_of_line [] record bytes); [|by left|done..].
      unfold records_of. simpl. by rewrite event_from_nothing. }
  unfold kept_events, log_events, log_files. fold path.
  change (rev (seq 1 EVENT_LOG_BACKUPS)) with [4; 3; 2; 1]. cbn [map app tail concat]. rewrite Hlast.
  assert (∀ i, i < EVENT_LOG_BACKUPS → file_events m' (backup_path path (S i)) =
    if (bytes_len (current_bytes parent name m) + bytes_len (line_of record) <=? MAX_EVENT_LOG_BYTES)%N
    then file_events m (backup_path path (S i)) else file_events m (log_file path i)) as Hback.
  { intros i Hi. specialize (Hm' (S i)). unfold appended in Hm'. cbn [log_file] in Hm'.
    destruct (_ <=? _)%N; apply file_events_ext, Hm'; unfold EVENT_LOG_BACKUPS in *; lia. }
  rewrite !Hback by (unfold EVENT_LOG_BACKUPS; lia). destruct (_ <=? _)%N; cbn [log_file];
    rewrite ?app_nil_r, <- ?app_assoc; done.
Qed.

(** C29. An append is one step of the abstract log.  From files as this program makes
    them, appending always answers.  At every moment of it, so after a crash as
    well, every file is within its bound, and the content of each file but the oldest backup is still
    there, under its name or the next one.  When it succeeds, the line is at
    the end of the log, or, if that had no room left, it is the new log and every
    file has become the next backup.  No look at the disk is taken to say by mistake that
    something is missing, and no other append runs meanwhile. *)
Theorem append_refines_the_log parent name record d :
  truthful → log_nodes parent name (nodes d) →
  let path := path_join parent name in
  ∃ r d', append path record d = Some (r, d') ∧
    (∀ m, visited d d' m → preserved parent name (nodes d) (line_of record) m) ∧
    preserved parent name (nodes d) (line_of record) (nodes d') ∧
    (r = Ok tt → ∀ i, i ≤ EVENT_LOG_BACKUPS →
       nodes d' !! log_file path i = appended parent name (nodes d) (line_of record) i).
Proof.
  intros Htruth Hd path.
  destruct (spec_runs _ _ _ _ (append_spec Htruth parent name record d Hd)) as (r & d' & E & Hrun & Hr).
  exists r, d'. split_and!; [done| | |].
  - intros m. by apply run_visited.
  - apply (run_nodes _ _ _ Hrun). by apply preserved_now.
  - intros Hok. by apply Hr.
Qed.

(** What is recorded is read back.  After an event was recorded in a log of whole
    lines, a reader whose calls work gets the latest of the records that are kept and the
    new one, in the order of their times; the log still holds whole lines only. *)
Theorem recorded_event_is_read_back parent name now t source s a code ps detail redactions d d' limit
  (Hworks : working) (Htime : unix_time_ms now = Ok t)
  (Hlog : log_nodes parent name (nodes d)) (Hterm : terminated (current_bytes parent name (nodes d)))
  (Hrecord : record_event (path_join parent name) now source s a code ps detail redactions d = Some (Ok tt, d')) :
  let record := sanitized_record t source s a code ps detail redactions in
  ∃ events d'' all, read_events [path_join parent name] limit d' = Some (events, d'') ∧
    all ≡ₚ kept_events parent name (nodes d) (line_of record) ++ [record] ∧
    StronglySorted older all ∧ events = drop (length all - limit) all ∧
    log_nodes parent name (nodes d') ∧ terminated (current_bytes parent name (nodes d')).
Proof.
  intros record. pose proof (working_truthful Hworks) as Htruth.
  unfold record_event in Hrecord. rewrite Htime in Hrecord.
  change (append (path_join parent name) record d = Some (Ok tt, d')) in Hrecord.
  destruct (spec_result _ _ _ _ _ _ (append_spec Htruth parent name record d Hlog) Hrecord) as [Hrun Hok].
  destruct (Hok eq_refl) as [[bytes Hbytes] Hfiles].
  assert (preserved parent name (nodes d) (line_of record) (nodes d')) as [Hlog' _].
  { apply (run_nodes _ _ _ Hrun). by apply preserved_now. }
  assert (bytes_len (line_of record) <= MAX_EVENT_LOG_BYTES)%N as Hlen.
  { unfold append in Hrecord. unfold line_of. rewrite Hbytes in *. destruct (_ <? _)%N eqn:E; [done|]. by apply N.ltb_ge in E. }
  destruct (spec_runs _ _ _ _ (read_events_spec (λ _, True) (path_join parent name) limit d' Hworks))
    as (events & d'' & Eread & _ & _ & all & Hperm & Hsorted & ->).
  exists (drop (length all - limit) all), d'', all. split_and!; [done| |done|done|done|].
  - rewrite Hperm. fold (log_events (nodes d') (path_join parent name)).
    erewrite (appended_events _ _ (nodes d)); [done|done|done|apply sanitized_record_valid|done..].
  - pose proof (Hfiles 0 (Nat.le_0_l _)) as Hf0. unfold appended in Hf0. cbn [log_file] in Hf0.
    right. unfold current_bytes at 1. unfold line_of in *. rewrite Hbytes in *. destruct (_ <=? _)%N; rewrite Hf0.
    + exists (current_bytes parent name (nodes d) ++ bytes). by rewrite app_assoc.
    + by exists bytes.
Qed.
End Properties.

(** ** A log of one record *)

Definition example_event : EventRecord :=
  sanitized_record 7 ServiceHost Info AreaService "service-started" [("version", "1.0.0")] None [].

(** A codec that knows one record. *)
#[export] Instance example_event_json : EventJson.
Proof.
  refine {|
    event_to_vec r := if decide (r = example_event) then Ok (str_bytes "{}") else Err "unknown"%string;
    event_from_slice bytes := if decide (bytes = str_bytes "{}") then Some example_event else None
  |}.
  - intros r bytes. destruct (decide _) as [->|]; [|done]. by intros <-%(inj Ok).
  - intros r bytes. destruct (decide _); [|done]. intros <-%(inj Ok). by repeat constructor.
  - done.
Defined.

Lemma example_works : @working example_world.
Proof. by split. Qed.

Definition example_logs : Path := ["C:"; "logs"].

Definition logged : option (result unit IoError * Disk) :=
  record_event (path_join example_logs "host.log") 7000000 ServiceHost Info AreaService "service-started"
    [("version", "1.0.0")] None [] (disk_of ∅).

Lemma example_logs_empty : log_nodes example_logs "host.log" (nodes (disk_of ∅)).
Proof. intros i _. left. apply lookup_empty. Qed.

Lemma append_refines_the_log_witness :
  ∃ d', append (path_join example_logs "host.log") example_event (disk_of ∅) = Some (Ok tt, d') ∧
    nodes d' !! path_join example_logs "host.log" = Some (File (str_bytes "{}" ++ [LF])).
Proof.
  assert (option_map (λ x, is_ok (fst x)) (append (path_join example_logs "host.log") example_event (disk_of ∅)) = Some true)
    as Hok by (vm_compute; reflexivity).
  destruct (append_refines_the_log example_logs "host.log" example_event (disk_of ∅)
    (working_truthful example_works) example_logs_empty)
    as (r & d' & E & _ & _ & Hr).
  rewrite E in Hok |- *. destruct r as [[]|]; [|discriminate Hok]. exists d'. split; [reflexivity|].
  etrans; [apply (Hr eq_refl 0); apply Nat.le_0_l|]. vm_compute. reflexivity.
Defined.

Lemma recorded_event_is_read_back_witness :
  ∃ d' events d'', logged = Some (Ok tt, d') ∧
    read_events [path_join example_logs "host.log"] 20 d' = Some (events, d'') ∧ events = [example_event].
Proof.
  assert (option_map (λ x, is_ok (fst x)) logged = Some true) as Hok by (vm_compute; reflexivity).
  destruct logged as [[r d']|] eqn:E; [|discriminate Hok]. destruct r as [[]|]; [|discriminate Hok].
  destruct (recorded_event_is_read_back example_logs "host.log" 7000000 7 ServiceHost Info AreaService
    "service-started" [("version", "1.0.0")] None [] (disk_of ∅) d' 20)
    as (events & d'' & all & Hread & Hperm & _ & Hevents & _ & _).
  - exact example_works.
  - vm_compute. reflexivity.
  - exact example_logs_empty.
  - left. vm_compute. reflexivity.
  - exact E.
  - exists d', events, d''. split; [reflexivity|]. split; [exact Hread|].
    assert (kept_events example_logs "host.log" (nodes (disk_of ∅)) (line_of example_event) ++ [example_event] = [example_event])
      as Hkept by (vm_compute; reflexivity).
    change (sanitized_record 7 ServiceHost Info AreaService "service-started" [("version", "1.0.0")] None []) with example_event in Hperm.
    rewrite Hkept in Hperm. apply Permutation_singleton_r in Hperm. rewrite Hevents, Hperm. reflexivity.
Defined.
