(* ===== verification/HostEventLog.v ===== *)
(** * The event log of the host

    [service-runtime/host/src/event_log.rs]: the state machine that turns the events of
    the host into records.  Results of injections are counted and summarized once a
    minute, failures and broken helpers are throttled, and of the health reports only
    degradation, failure and recovery are written.  The writer of records and the
    error stream are the interface [EventWriter]; [EventLogFile] implements it on the disk. *)

From stdpp Require Import pretty.
From S2P Require Import Manifest Observer.
From S2P Require Export EventLogFile.

Definition SUMMARY_WINDOW : N := from_secs 60.
Definition DEDUPE_WINDOW : N := from_secs (10 * 60).

(** [EventLogWriter::record] and [eprintln!]. *)
Class EventWriter (W : Type) := {
  writer_record : Path → EventSource → EventSeverity → EventArea → string → list (string * string) →
    option string → list string → W → result unit IoError * W;
  write_stderr : string → W → W
}.

Definition observer_name (o : LiveObserver) : string := match o with Etw => "etw" | Wmi => "wmi" end.

(** ** State *)

Record InjectionCounts := { count_injected : N; count_failed : N; count_skipped : N }.

Definition default_counts : InjectionCounts :=
  {| count_injected := 0; count_failed := 0; count_skipped := 0 |}.

Record PipelineSamples := {
  count : N;
  millis_sum : N;
  millis_max : N;
  backlog_max : nat;
  age_count : N;
  age_sum : N;
  age_max : N
}.

Definition default_samples : PipelineSamples :=
  {| count := 0; millis_sum := 0; millis_max := 0; backlog_max := 0; age_count := 0; age_sum := 0; age_max := 0 |}.

Record InjectionSummary := {
  window_start : N;
  counts : InjectionCounts;
  skip_reasons : gmap string N;
  pipeline : PipelineSamples
}.

Record HostEventLoggerState := {
  writer : Path;
  write_error_reported : bool;
  logged_health : option HealthState;
  live_observer : option LiveObserver;
  summary : InjectionSummary;
  injection_throttle : gmap string N;
  helper_throttle : gmap string N
}.

Definition new_logger (path : Path) (now : N) : HostEventLoggerState :=
  {| writer := path; write_error_reported := false; logged_health := None; live_observer := None;
     summary := {| window_start := now; counts := default_counts; skip_reasons := ∅; pipeline := default_samples |};
     injection_throttle := ∅; helper_throttle := ∅ |}.

(** [x += 1] on a [u64], as compiled for release. *)
Definition increment (n : N) : N := (n + 1) mod 2 ^ 64.

(** [*reasons.entry(reason).or_default() += 1] *)
Definition tally (reason : string) (reasons : gmap string N) : gmap string N :=
  <[reason := increment (default 0%N (reasons !! reason))]> reasons.

Definition record_sample (millis : N) (backlog : nat) (age_millis : option N) (p : PipelineSamples) : PipelineSamples :=
  {| count := increment (count p);
     millis_sum := saturating_add U64_MAX (millis_sum p) millis;
     millis_max := N.max (millis_max p) millis;
     backlog_max := Nat.max (backlog_max p) backlog;
     age_count := match age_millis with Some _ => increment (age_count p) | None => age_count p end;
     age_sum := match age_millis with Some age => saturating_add U64_MAX (age_sum p) age | None => age_sum p end;
     age_max := match age_millis with Some age => N.max (age_max p) age | None => age_max p end |}.

(** [checked_div(..).unwrap_or(0)] *)
Definition average (sum n : N) : N := if (n =? 0)%N then 0 else sum / n.

Definition average_millis (p : PipelineSamples) : N := average (millis_sum p) (count p).
Definition average_age_millis (p : PipelineSamples) : N := average (age_sum p) (age_count p).

Definition set_error_reported (s : HostEventLoggerState) : HostEventLoggerState :=
  {| writer := writer s; write_error_reported := true; logged_health := logged_health s;
     live_observer := live_observer s; summary := summary s;
     injection_throttle := injection_throttle s; helper_throttle := helper_throttle s |}.

Definition set_health (h : HealthState) (s : HostEventLoggerState) : HostEventLoggerState :=
  {| writer := writer s; write_error_reported := write_error_reported s; logged_health := Some h;
     live_observer := live_observer s; summary := summary s;
     injection_throttle := injection_throttle s; helper_throttle := helper_throttle s |}.

Definition set_observer (o : LiveObserver) (s : HostEventLoggerState) : HostEventLoggerState :=
  {| writer := writer s; write_error_reported := write_error_reported s; logged_health := logged_health s;
     live_observer := Some o; summary := summary s;
     injection_throttle := injection_throttle s; helper_throttle := helper_throttle s |}.

Definition set_summary (x : InjectionSummary) (s : HostEventLoggerState) : HostEventLoggerState :=
  {| writer := writer s; write_error_reported := write_error_reported s; logged_health := logged_health s;
     live_observer := live_observer s; summary := x;
     injection_throttle := injection_throttle s; helper_throttle := helper_throttle s |}.

Definition set_throttles (i h : gmap string N) (s : HostEventLoggerState) : HostEventLoggerState :=
  {| writer := writer s; write_error_reported := write_error_reported s; logged_health := logged_health s;
     live_observer := live_observer s; summary := summary s;
     injection_throttle := i; helper_throttle := h |}.

Definition set_counts (c : InjectionCounts) (reasons : gmap string N) (s : HostEventLoggerState) : HostEventLoggerState :=
  set_summary {| window_start := window_start (summary s); counts := c; skip_reasons := reasons;
                 pipeline := pipeline (summary s) |} s.

(** ** Texts *)

Definition display_N (n : N) : string := pretty n.

Definition health_name (h : HealthState) : string :=
  match h with
  | HealthUnknown => "unknown"
  | HealthInitializing => "initializing"
  | HealthReady => "ready"
  | HealthDegraded => "degraded"
  | HealthFailed => "failed"
  end.

(** The order of the ranking: more often first, then by name. *)
Definition ranked_before (a b : string * N) : bool :=
  (b.2 <? a.2)%N || ((a.2 =? b.2)%N && string_leb a.1 b.1).

Fixpoint rank (a : string * N) (l : list (string * N)) : list (string * N) :=
  match l with
  | [] => [a]
  | b :: l' => if ranked_before a b then a :: l else b :: rank a l'
  end.

Definition ranked (reasons : gmap string N) : list (string * N) := fold_right rank [] (map_to_list reasons).

(** The text of [summary_detail], before it is bounded. *)
Definition summary_text (reasons : gmap string N) (p : PipelineSamples) (observer : option LiveObserver) : string :=
  let detail := (
    if (0 <? count p)%N then
      "handle_avg_ms=" ++ display_N (average_millis p) ++ " handle_max_ms=" ++ display_N (millis_max p) ++
      (if (0 <? age_count p)%N
       then " age_avg_ms=" ++ display_N (average_age_millis p) ++ " age_max_ms=" ++ display_N (age_max p)
       else "") ++
      " backlog_max=" ++ display_N (N.of_nat (backlog_max p)) ++ " n=" ++ display_N (count p)
    else "")%string in
  let detail := (match observer with
                 | Some o => detail ++ (if str_is_empty detail then "" else " ") ++ "observer=" ++ observer_name o
                 | None => detail
                 end)%string in
  (if bool_decide (reasons = ∅) then detail
  else detail ++ (if str_is_empty detail then "" else " | ") ++ "skip:" ++
       String.concat "" (map (λ '(reason, n), " " ++ reason ++ "=" ++ display_N n)%string (ranked reasons)))%string.

Definition summary_detail (reasons : gmap string N) (p : PipelineSamples) (observer : option LiveObserver) : option string :=
  let detail := summary_text reasons p observer in
  if str_is_empty detail then None
  else if (MAX_EVENT_DETAIL_BYTES <? str_len detail)%N then
    let cut := floor_char_boundary (str_bytes detail) (N.to_nat (MAX_EVENT_DETAIL_BYTES - str_len "...")) in
    Some (bytes_str (take cut (str_bytes detail)) ++ "...")%string
  else Some detail.

(** [{:?}] *)
Definition debug_outcome (o : ProcessOutcome) : string :=
  match o with
  | OutcomeInjected => "Injected"
  | OutcomeSkipped => "Skipped"
  | OutcomeDeferred => "Deferred"
  | OutcomeDuplicate => "Duplicate"
  | OutcomeRejected => "Rejected"
  | OutcomeRetryExhausted => "RetryExhausted"
  | OutcomeCancelled => "Cancelled"
  end.

Definition debug_option (o : option N) : string :=
  match o with Some n => "Some(" ++ display_N n ++ ")" | None => "None" end.

Definition diagnostic_detail (r : ProcessAttemptRecord) : string :=
  sanitize_text
    ("pid=" ++ display_N (pid (record_identity r)) ++
     " creation_time=" ++ display_N (creation_time (record_identity r)) ++
     " session_id=" ++ display_N (session_id (record_identity r)) ++
     " disposition=" ++ debug_outcome (record_outcome r) ++
     " attempts=" ++ display_N (record_attempts r) ++
     " reason=" ++ record_code r ++
     " win32=" ++ debug_option (record_win32_error r)) [] MAX_EVENT_DETAIL_BYTES.

(** The entries of a [BTreeMap], in order. *)
Definition map_iter (m : gmap string string) : list (string * string) :=
  map (λ k, (k, default ""%string (m !! k))) (keys_in_order m).

Definition params_of (l : list (string * string)) : gmap string string := list_to_map (rev l).

(** ** Operations *)

Section Operations.
Context {W : Type} `{EventWriter W} `{HashOrder}.

Local Notation St := (HostEventLoggerState * W)%type.

Definition write (s : EventSeverity) (a : EventArea) (code : string) (ps : gmap string string)
    (detail : option string) '((logger, w) : St) : St :=
  let '(r, w) := writer_record (writer logger) ServiceHost s a code (map_iter ps) detail [] w in
  match r with
  | Err e =>
      if write_error_reported logger then (logger, w)
      else
        let text := bytes_str (without_newlines (str_bytes (io_text e))) in
        (set_error_reported logger, write_stderr ("recording the service event log failed: " ++ text) w)
  | Ok _ => (logger, w)
  end.

Definition service_started (version : string) (st : St) : St :=
  let '(logger, w) := write Info AreaService "service-started" (params_of [("version", version)]) None st in
  (set_health HealthReady logger, w).

Definition service_start_skipped (error : StructuredServiceError) (st : St) : St :=
  write Info AreaService "service-start-skipped"
    (params_of [("message", error_message error); ("reason", error_code error)]) None st.

Definition alarming (h : HealthState) : bool :=
  match h with HealthDegraded | HealthFailed => true | _ => false end.

Definition health_changed (state : HealthState) (error : option StructuredServiceError) '((logger, w) : St) : St :=
  if bool_decide (logged_health logger = Some state) then (logger, w)
  else
    let recovered := bool_decide (state = HealthReady) &&
                     match logged_health logger with Some previous => alarming previous | None => false end in
    let st := (set_health state logger, w) in
    if negb (alarming state) && negb recovered then st
    else
      let ps := params_of [("state", health_name state)] in
      let ps := match error with
                | Some e => <["message" := error_message e]> (<["code" := error_code e]> ps)
                | None => ps
                end in
      match state with
      | HealthDegraded => write Notice AreaService "service-health-changed" ps None st
      | HealthFailed => write Error AreaService "service-health-changed" ps None st
      | HealthReady => write Info AreaService "service-health-changed" ps None st
      | _ => st
      end.

Definition flush_summary (now : N) '((logger, w) : St) : St :=
  let c := counts (summary logger) in
  let reasons := skip_reasons (summary logger) in
  let p := pipeline (summary logger) in
  let logger := set_summary {| window_start := now; counts := default_counts; skip_reasons := ∅;
                               pipeline := default_samples |} logger in
  if (count_injected c =? 0)%N && (count_failed c =? 0)%N && (count_skipped c =? 0)%N then (logger, w)
  else
    write Info AreaInjection "injection-summary"
      (params_of [("injected", display_N (count_injected c)); ("failed", display_N (count_failed c));
                  ("skipped", display_N (count_skipped c))])
      (summary_detail reasons p (live_observer logger)) (logger, w).

Definition flush_elapsed_summary (now : N) (st : St) : St :=
  if (SUMMARY_WINDOW <=? saturating_sub now (window_start (summary st.1)))%N then flush_summary now st else st.

(** A target was passed over for [reason]. *)
Definition count_skip (reason : string) (logger : HostEventLoggerState) : HostEventLoggerState :=
  let c := counts (summary logger) in
  set_counts {| count_injected := count_injected c; count_failed := count_failed c;
                count_skipped := increment (count_skipped c) |}
    (tally reason (skip_reasons (summary logger))) logger.

Definition count_success (logger : HostEventLoggerState) : HostEventLoggerState :=
  let c := counts (summary logger) in
  set_counts {| count_injected := increment (count_injected c); count_failed := count_failed c;
                count_skipped := count_skipped c |} (skip_reasons (summary logger)) logger.

Definition count_failure (logger : HostEventLoggerState) : HostEventLoggerState :=
  let c := counts (summary logger) in
  set_counts {| count_injected := count_injected c; count_failed := increment (count_failed c);
                count_skipped := count_skipped c |} (skip_reasons (summary logger)) logger.

Definition injection_skipped (reason : string) (now : N) (st : St) : St :=
  let '(logger, w) := flush_elapsed_summary now st in (count_skip reason logger, w).

Definition injection_pipeline_sample (millis : N) (backlog : nat) (age_millis : option N) '((logger, w) : St) : St :=
  (set_summary {| window_start := window_start (summary logger); counts := counts (summary logger);
                  skip_reasons := skip_reasons (summary logger);
                  pipeline := record_sample millis backlog age_millis (pipeline (summary logger)) |} logger, w).

Definition injection_result (r : ProcessAttemptRecord) (process detail : string) (now : N) (st : St) : St :=
  let '(logger, w) := flush_elapsed_summary now st in
  match record_outcome r with
  | OutcomeInjected => (count_success logger, w)
  | OutcomeSkipped => (count_skip (record_code r) logger, w)
  | OutcomeRejected | OutcomeRetryExhausted =>
      let logger := count_failure logger in
      let key := (process ++ "|" ++ record_code r)%string in
      let '(admitted, throttle) := allow (injection_throttle logger) key now DEDUPE_WINDOW in
      let logger := set_throttles throttle (helper_throttle logger) logger in
      if admitted then
        write Warning AreaInjection "injection-failed"
          (params_of [("process", process); ("reason", record_code r)]) (Some detail) (logger, w)
      else (logger, w)
  | OutcomeDeferred | OutcomeDuplicate | OutcomeCancelled => (logger, w)
  end.

Definition helper_broker_failed (arch : ProcessArchitecture) (code : string) (detail : option string)
    (now : N) '((logger, w) : St) : St :=
  let arch := match arch with X86 => "x86"%string | X64 => "x64"%string end in
  let '(admitted, throttle) := allow (helper_throttle logger) arch now DEDUPE_WINDOW in
  let logger := set_throttles (injection_throttle logger) throttle logger in
  if admitted then
    write Error AreaInjection "helper-broker-failed" (params_of [("architecture", arch); ("code", code)]) detail
      (logger, w)
  else (logger, w).

(** [HostEventLogger::record_at] *)
Definition record_at (event : HostEvent) (now : N) (st : St) : St :=
  match event with
  | ServiceStarted version => service_started version st
  | ServiceStartSkipped error => service_start_skipped error st
  | ServiceStopped => write Info AreaService "service-stopped" ∅ None (flush_summary now st)
  | HealthChanged state error => health_changed state error st
  | InjectionResult r process =>
      let detail := match record_outcome r with
                    | OutcomeRejected | OutcomeRetryExhausted => diagnostic_detail r
                    | _ => ""%string
                    end in
      injection_result r process detail now st
  | InjectionSkipped reason => injection_skipped reason now st
  | InjectionPipelineSample millis backlog age => injection_pipeline_sample millis backlog age st
  | LiveObserverSelected o => let '(logger, w) := st in (set_observer o logger, w)
  | FlushInjectionSummary => flush_elapsed_summary now st
  | HelperBrokerFailed arch code detail => helper_broker_failed arch code detail now st
  end.

Fixpoint record_all (events : list (HostEvent * N)) (st : St) : St :=
  match events with
  | [] => st
  | (event, now) :: events' => record_all events' (record_at event now st)
  end.
End Operations.

(** The writer on the disk; [system_time] is what [SystemTime::now] answers in a state. *)
Definition disk_writer `{World} `{EventJson} (system_time : Disk → Z) : EventWriter (Disk * list string) := {|
  writer_record path source s a code ps detail redactions '(d, messages) :=
    match EventLogFile.record_event path (system_time d) source s a code ps detail redactions d with
    | Some (r, d) => (r, (d, messages))
    | None => (Err (invalid_data "unreachable"), (d, messages))
    end;
  write_stderr message '(d, messages) := (d, message :: messages)
|}.

(** ** A writer that remembers

    Whatever it answers, it keeps what it was told to write, the latest first. *)

Record Written := {
  written_severity : EventSeverity;
  written_area : EventArea;
  written_code : string;
  written_params : list (string * string);
  written_detail : option string
}.

Record Journal := { written : list Written; messages : list string; answers : nat → result unit IoError }.

#[export] Instance journal_writer : EventWriter Journal := {
  writer_record path source s a code ps detail redactions j :=
    (answers j (length (written j)),
     {| written := {| written_severity := s; written_area := a; written_code := code; written_params := ps;
                      written_detail := detail |} :: written j;
        messages := messages j; answers := answers j |});
  write_stderr message j := {| written := written j; messages := message :: messages j; answers := answers j |}
}.

(** ** Every result is counted once *)

Definition add_counts (a b : InjectionCounts) : InjectionCounts :=
  {| count_injected := count_injected a + count_injected b; count_failed := count_failed a + count_failed b;
     count_skipped := count_skipped a + count_skipped b |}.

Definition one_injected : InjectionCounts := {| count_injected := 1; count_failed := 0; count_skipped := 0 |}.
Definition one_failed : InjectionCounts := {| count_injected := 0; count_failed := 1; count_skipped := 0 |}.
Definition one_skipped : InjectionCounts := {| count_injected := 0; count_failed := 0; count_skipped := 1 |}.

(** What one event adds to the results. *)
Definition result_of (event : HostEvent) : InjectionCounts :=
  match event with
  | InjectionResult r _ =>
      match record_outcome r with
      | OutcomeInjected => one_injected
      | OutcomeSkipped => one_skipped
      | OutcomeRejected | OutcomeRetryExhausted => one_failed
      | OutcomeDeferred | OutcomeDuplicate | OutcomeCancelled => default_counts
      end
  | InjectionSkipped _ => one_skipped
  | _ => default_counts
  end.

Definition results_of (events : list (HostEvent * N)) : InjectionCounts :=
  fold_right (λ event, add_counts (result_of event.1)) default_counts events.

Definition summary_params (c : InjectionCounts) : list (string * string) :=
  map_iter (params_of [("injected", display_N (count_injected c)); ("failed", display_N (count_failed c));
                       ("skipped", display_N (count_skipped c))]).

Definition is_summary (r : Written) : bool := bool_decide (written_code r = "injection-summary"%string).

Definition summaries (l : list Written) : list (list (string * string)) := map written_params (list_retain is_summary l).

Definition reasons_total (reasons : gmap string N) : N := map_fold (λ _ n sum, (n + sum)%N) 0%N reasons.

Definition fits (c : InjectionCounts) : Prop :=
  (count_injected c < 2 ^ 64 ∧ count_failed c < 2 ^ 64 ∧ count_skipped c < 2 ^ 64)%N.

(** [t] is the sum of the windows that were written and of the one that is open. *)
Record accounted (t : InjectionCounts) (st : HostEventLoggerState * Journal) : Prop := {
  windows : ∃ closed, summaries (written st.2) = map summary_params closed ∧
    Forall (λ c, c ≠ default_counts) closed ∧ t = fold_right add_counts (counts (summary st.1)) closed;
  reasons_add_up : reasons_total (skip_reasons (summary st.1)) = count_skipped (counts (summary st.1));
  one_message : length (messages st.2) ≤ if write_error_reported st.1 then 1 else 0;
  bounded_details : Forall (λ r, is_summary r = true → ∀ detail, written_detail r = Some detail →
    (str_len detail <= MAX_EVENT_DETAIL_BYTES)%N) (written st.2)
}.

Section Accounting.
Context `{HashOrder}.
Implicit Types (st : HostEventLoggerState * Journal).

Lemma summary_detail_bounded reasons p observer detail :
  summary_detail reasons p observer = Some detail → (str_len detail <= MAX_EVENT_DETAIL_BYTES)%N.
Proof.
  unfold summary_detail. destruct (str_is_empty _); [done|]. destruct (_ <? _)%N eqn:E; intros <-%(inj Some).
  - rewrite str_len_app, str_len_bytes. unfold str_bytes, bytes_str. rewrite list_ascii_of_string_of_list_ascii.
    unfold bytes_len. rewrite length_take.
    match goal with |- context [floor_char_boundary ?l ?n] => pose proof (floor_char_boundary_le l n) end.
    change (str_len "...") with 3%N in *. unfold MAX_EVENT_DETAIL_BYTES in *. lia.
  - by apply N.ltb_ge in E.
Qed.

Lemma increment_below n : (n + 1 < 2 ^ 64)%N → increment n = (n + 1)%N.
Proof. intros Hn. unfold increment. by apply N.mod_small. Qed.

Lemma reasons_total_insert reason n reasons :
  (reasons_total (<[reason := n]> reasons) + default 0 (reasons !! reason) = reasons_total reasons + n)%N.
Proof.
  unfold reasons_total.
  assert (∀ (m : gmap string N) k x, m !! k = None →
    map_fold (λ _ n sum, (n + sum)%N) 0%N (<[k := x]> m) = (x + map_fold (λ _ n sum, (n + sum)%N) 0%N m)%N) as Hinsert.
  { intros m k x Hk. apply map_fold_insert_L; [intros; lia|done]. }
  destruct (reasons !! reason) as [old|] eqn:E; cbn [default from_option id].
  - rewrite <- (insert_delete_id reasons reason old) at 2 by done. rewrite <- insert_delete_eq.
    rewrite !Hinsert by apply lookup_delete_eq. lia.
  - rewrite Hinsert by done. lia.
Qed.

Lemma tally_total reason reasons :
  (reasons_total reasons + 1 < 2 ^ 64)%N → reasons_total (tally reason reasons) = (reasons_total reasons + 1)%N.
Proof.
  intros Hsum. unfold tally. pose proof (reasons_total_insert reason (increment (default 0%N (reasons !! reason))) reasons) as E.
  assert (default 0 (reasons !! reason) <= reasons_total reasons)%N as Hle.
  { pose proof (reasons_total_insert reason 0 reasons). lia. }
  rewrite increment_below in E |- * by lia. lia.
Qed.

(** *** What each step keeps *)

Lemma add_counts_comm a b c : add_counts a (add_counts b c) = add_counts b (add_counts a c).
Proof. unfold add_counts; simpl. f_equal; lia. Qed.

Lemma add_default c : add_counts default_counts c = c.
Proof. by destruct c. Qed.

Lemma add_into_open one current closed :
  fold_right add_counts (add_counts one current) closed = add_counts one (fold_right add_counts current closed).
Proof. induction closed as [|c closed IH]; [done|]. simpl. by rewrite IH, add_counts_comm. Qed.

Lemma open_le current closed :
  let t := fold_right add_counts current closed in
  (count_injected current <= count_injected t ∧ count_failed current <= count_failed t ∧
   count_skipped current <= count_skipped t)%N.
Proof. induction closed as [|c closed IH]; simpl in *; lia. Qed.

(** Only these parts of the state are accounted for. *)
Lemma accounted_ext t logger logger' w :
  accounted t (logger, w) → counts (summary logger') = counts (summary logger) →
  skip_reasons (summary logger') = skip_reasons (summary logger) →
  write_error_reported logger' = write_error_reported logger → accounted t (logger', w).
Proof. intros [Hw Hr Hm Hd] Ec Er Ee. split; cbn [fst snd] in *; by rewrite ?Ec, ?Er, ?Ee. Qed.

Lemma write_summary_state s a code ps detail st : summary (write s a code ps detail st).1 = summary st.1.
Proof.
  destruct st as [logger w]. unfold write. destruct (writer_record _ _ _ _ _ _ _ _ _) as [[u|e] w']; [done|].
  by destruct (write_error_reported logger).
Qed.

Lemma written_cons s a code ps detail logger j :
  written (write s a code ps detail (logger, j)).2 =
  {| written_severity := s; written_area := a; written_code := code; written_params := map_iter ps;
     written_detail := detail |} :: written j.
Proof. unfold write. simpl. destruct (answers j _) as [u|e]; [done|]. by destruct (write_error_reported logger). Qed.

Lemma write_one_message s a code ps detail st :
  length (messages st.2) ≤ (if write_error_reported st.1 then 1 else 0) →
  length (messages (write s a code ps detail st).2) ≤ (if write_error_reported (write s a code ps detail st).1 then 1 else 0).
Proof.
  destruct st as [logger j]. unfold write. simpl. destruct (answers j _) as [u|e]; [done|].
  destruct (write_error_reported logger) eqn:E; simpl; [by rewrite E|]. lia.
Qed.

(** A record that is not a summary counts nothing. *)
Lemma write_accounted s a code ps detail t st :
  bool_decide (code = "injection-summary"%string) = false → accounted t st → accounted t (write s a code ps detail st).
Proof.
  intros Hcode [(closed & Hw & Hne & Ht) Hr Hm Hd]. split; rewrite ?write_summary_state; try done.
  - exists closed. split_and!; [|done..]. destruct st as [logger j]. rewrite written_cons. unfold summaries.
    rewrite list_retain_cons. unfold is_summary at 1. cbn [written_code]. by rewrite Hcode.
  - by apply write_one_message.
  - destruct st as [logger j]. rewrite written_cons. constructor; [|done]. unfold is_summary. cbn [written_code].
    by rewrite Hcode.
Qed.

Lemma flush_accounted now t st :
  accounted t st → accounted t (flush_summary now st) ∧ counts (summary (flush_summary now st).1) = default_counts.
Proof.
  destruct st as [logger j]. intros [(closed & Hw & Hne & Ht) Hr Hm Hd]. cbn [fst snd] in *. unfold flush_summary.
  destruct (counts (summary logger)) as [i f k] eqn:Ec. cbn [count_injected count_failed count_skipped] in *.
  destruct ((i =? 0)%N && (f =? 0)%N && (k =? 0)%N) eqn:Ez.
  - andb_split. subst. split; [|done]. split; cbn [fst snd set_summary summary counts skip_reasons]; [|done..].
    exists closed. split_and!; [done..|]. unfold default_counts. congruence.
  - rewrite write_summary_state. split; [|done]. split; rewrite ?write_summary_state;
      cbn [fst snd set_summary summary counts skip_reasons]; [| done | |].
    + exists ({| count_injected := i; count_failed := f; count_skipped := k |} :: closed). split_and!.
      * rewrite written_cons. unfold summaries. rewrite list_retain_cons. unfold is_summary at 1. cbn [written_code].
        rewrite bool_decide_true by done. cbn [map]. unfold summaries in Hw. by rewrite Hw.
      * constructor; [|done]. unfold default_counts. intros [= -> -> ->]. done.
      * rewrite Ht. cbn [fold_right]. rewrite <- add_into_open. f_equal. unfold add_counts; simpl. f_equal; lia.
    + by apply write_one_message.
    + rewrite written_cons. constructor; [|done]. cbn [written_detail]. intros _ detail. apply summary_detail_bounded.
Qed.

Lemma flush_elapsed_accounted now t st : accounted t st → accounted t (flush_elapsed_summary now st).
Proof. intros Ha. unfold flush_elapsed_summary. destruct (_ <=? _)%N; [by apply flush_accounted|done]. Qed.

(** One more result in the open window. *)
Lemma counted_accounted t logger logger' j one :
  accounted t (logger, j) → counts (summary logger') = add_counts one (counts (summary logger)) →
  reasons_total (skip_reasons (summary logger')) = (reasons_total (skip_reasons (summary logger)) + count_skipped one)%N →
  write_error_reported logger' = write_error_reported logger → accounted (add_counts one t) (logger', j).
Proof.
  intros [(closed & Hw & Hne & Ht) Hr Hm Hd] Ec Er Ee. cbn [fst snd] in *. split; cbn [fst snd].
  - exists closed. split_and!; [done..|]. by rewrite Ec, add_into_open, Ht.
  - rewrite Er, Ec, Hr. simpl. lia.
  - by rewrite Ee.
  - done.
Qed.

Lemma open_fits t logger j : accounted t (logger, j) →
  (count_injected (counts (summary logger)) <= count_injected t ∧ count_failed (counts (summary logger)) <= count_failed t ∧
   count_skipped (counts (summary logger)) <= count_skipped t)%N.
Proof. intros [(closed & _ & _ & ->) _ _ _]. apply (open_le _ closed). Qed.

Lemma success_accounted t logger j :
  accounted t (logger, j) → fits (add_counts one_injected t) →
  accounted (add_counts one_injected t) (count_success logger, j).
Proof.
  intros Ha (Hi & _ & _). pose proof (open_fits _ _ _ Ha). eapply counted_accounted; [exact Ha| | |done]; simpl in *.
  - unfold add_counts; simpl. rewrite increment_below by lia. f_equal; lia.
  - lia.
Qed.

Lemma failure_accounted t logger j :
  accounted t (logger, j) → fits (add_counts one_failed t) →
  accounted (add_counts one_failed t) (count_failure logger, j).
Proof.
  intros Ha (_ & Hf & _). pose proof (open_fits _ _ _ Ha). eapply counted_accounted; [exact Ha| | |done]; simpl in *.
  - unfold add_counts; simpl. rewrite increment_below by lia. f_equal; lia.
  - lia.
Qed.

Lemma skip_accounted t reason logger j :
  accounted t (logger, j) → fits (add_counts one_skipped t) →
  accounted (add_counts one_skipped t) (count_skip reason logger, j).
Proof.
  intros Ha (_ & _ & Hk). pose proof (open_fits _ _ _ Ha). pose proof (reasons_add_up _ _ Ha) as Hr.
  eapply counted_accounted; [exact Ha| | |done]; simpl in *.
  - unfold add_counts; simpl. rewrite increment_below by lia. f_equal; lia.
  - apply tally_total. lia.
Qed.

Lemma record_at_accounted event now t st :
  accounted t st → fits (add_counts (result_of event) t) →
  accounted (add_counts (result_of event) t) (record_at event now st).
Proof.
  intros Ha Hfits. destruct st as [logger j].
  destruct event as [version|error| |state error|r process|reason|millis backlog age|o| |arch code detail];
    cbn [record_at result_of] in *; rewrite ?add_default in *.
  - unfold service_started. pose proof (write_accounted Info AreaService "service-started" (params_of [("version", version)])
      None t (logger, j) eq_refl Ha) as Hw.
    destruct (write _ _ _ _ _ _) as [logger' j']. by eapply accounted_ext.
  - by apply write_accounted.
  - apply write_accounted; [done|]. by apply flush_accounted.
  - unfold health_changed. destruct (bool_decide _); [done|].
    assert (accounted t (set_health state logger, j)) by (by eapply accounted_ext).
    destruct (_ && _); [done|]. destruct state; try done; by apply write_accounted.
  - unfold injection_result. apply (flush_elapsed_accounted now) in Ha.
    destruct (flush_elapsed_summary now (logger, j)) as [logger' j'].
    destruct (record_outcome r); rewrite ?add_default in *; [by apply success_accounted|by apply skip_accounted|done|done| | |done];
      (destruct (allow _ _ _ _) as [admitted throttle];
       assert (accounted (add_counts one_failed t) (set_throttles throttle (helper_throttle (count_failure logger')) (count_failure logger'), j'))
         by (eapply accounted_ext; [by apply failure_accounted|done..]);
       destruct admitted; [by apply write_accounted|done]).
  - unfold injection_skipped. apply (flush_elapsed_accounted now) in Ha.
    destruct (flush_elapsed_summary now (logger, j)) as [logger' j']. by apply skip_accounted.
  - by eapply accounted_ext.
  - by eapply accounted_ext.
  - by apply flush_elapsed_accounted.
  - unfold helper_broker_failed. destruct (allow _ _ _ _) as [admitted throttle].
    destruct admitted; [apply write_accounted; [done|]|]; by eapply accounted_ext.
Qed.

Lemma record_all_accounted events t st :
  accounted t st → fits (add_counts (results_of events) t) →
  accounted (add_counts (results_of events) t) (record_all events st).
Proof.
  revert t st. induction events as [|[event now] events IH]; intros t st Ha Hfits; [by rewrite add_default in *|].
  unfold results_of in *. cbn [fold_right fst] in *. fold (results_of events) in *. cbn [record_all].
  assert (add_counts (add_counts (result_of event) (results_of events)) t =
    add_counts (results_of events) (add_counts (result_of event) t)) as E by (unfold add_counts; simpl; f_equal; lia).
  rewrite E in *. apply IH; [|done]. apply record_at_accounted; [done|].
  unfold fits, add_counts in *; simpl in *. lia.
Qed.

Lemma results_le events :
  (count_injected (results_of events) + count_failed (results_of events) + count_skipped (results_of events)
   <= N.of_nat (length events))%N.
Proof.
  induction events as [|[event now] events IH]; [done|]. unfold results_of in *. cbn [fold_right fst length].
  assert (count_injected (result_of event) + count_failed (result_of event) + count_skipped (result_of event) <= 1)%N.
  { destruct event; simpl; try lia. destruct (record_outcome record); simpl; lia. }
  rewrite Nat2N.inj_succ. cbn [add_counts count_injected count_failed count_skipped] in *. lia.
Qed.

(** Nothing is lost from the summaries.  Whatever sequence of events the logger gets, at
    whatever times, and whichever writes fail: the windows it summarized and the
    window that is open add up to the results that were reported, each counted once, as long as they are
    fewer than 2^64; no window that saw nothing is written, the reasons of the
    open window add up to its skipped targets, a summary fits its record, and the
    error stream hears of at most one failed write. *)
Theorem summaries_account_for_every_result path start answer events :
  (N.of_nat (length events) < 2 ^ 64)%N →
  accounted (results_of events)
    (record_all events (new_logger path start, {| written := []; messages := []; answers := answer |})).
Proof.
  intros Hlen. rewrite <- (add_default (results_of events)).
  assert (∀ a b, add_counts a b = add_counts b a) as Hcomm by (intros; unfold add_counts; simpl; f_equal; lia).
  rewrite Hcomm. apply record_all_accounted.
  - split; simpl; [|done|done|constructor]. by exists [].
  - rewrite Hcomm, add_default. pose proof (results_le events). unfold fits. lia.
Qed.
End Accounting.

(** The writer on the disk always answers. *)
Lemma record_event_answers `{World} `{EventJson} path now source s a code ps detail redactions d :
  ∃ r d', EventLogFile.record_event path now source s a code ps detail redactions d = Some (r, d').
Proof.
  assert (leaves (λ _, False) (EventLogFile.record_event path now source s a code ps detail redactions)) as Hl.
  { assert (∀ f, leaves (λ _, False) (os_write f)) as Hwrite by (intros f; apply leaves_write; by intros ? ? ? ? ?).
    assert (∀ indices, leaves (λ _, False) (rotate_backups path indices)) as Hrotate.
    { intros indices. induction indices as [|index indices IH]; cbn [rotate_backups]; [apply leaves_ret|].
      apply leaves_try; [|by intros]. unfold rotate_backup. cbv zeta. unfold fs_rename, remove_file.
      apply leaves_bind; [apply leaves_exists|intros present]. apply leaves_try; [destruct present; [apply Hwrite|apply leaves_ret]|].
      intros _. apply leaves_bind; [apply Hwrite|]. intros [|e]; [apply leaves_ret|]. destruct (not_found e); apply leaves_ret. }
    unfold EventLogFile.record_event. apply leaves_try; [apply leaves_ret|]. intros t. unfold append.
    destruct (event_to_vec _); [|apply leaves_ret]. destruct (_ <? _)%N; [apply leaves_ret|].
    destruct (path_parent path); [|apply leaves_ret]. apply leaves_try; [apply Hwrite|intros _].
    apply leaves_try; [|intros _; apply leaves_try; [apply Hwrite|intros _; apply leaves_try; [apply Hwrite|intros _; apply leaves_ret]]].
    unfold rotate_if_needed. apply leaves_try; [apply leaves_bind; [apply leaves_read|intros; apply leaves_ret]|].
    intros len. destruct (_ <=? _)%N; [apply leaves_ret|apply Hrotate]. }
  destruct (spec_runs _ _ _ _ (Hl d)) as (r & d' & E & _). by exists r, d'.
Qed.

(** ** A minute of a service *)

Definition example_record (o : ProcessOutcome) (code : string) : ProcessAttemptRecord :=
  {| record_identity := {| pid := 7; creation_time := 8; session_id := 9; architecture := X64; protected := false |};
     record_runtime_generation_id := ""; record_outcome := o; record_attempts := 1; record_code := code;
     record_win32_error := Some 5%N |}.

Definition example_minute : list (HostEvent * N) :=
  [(InjectionResult (example_record OutcomeInjected "ok") "a.exe", 0%N);
   (InjectionSkipped "session-zero", 1%N);
   (InjectionResult (example_record OutcomeSkipped "module-already-loaded") "b.exe", SUMMARY_WINDOW);
   (ServiceStopped, (SUMMARY_WINDOW + 1)%N)].

Lemma summaries_account_for_every_result_witness :
  let st := @record_all Journal journal_writer key_order example_minute
    (new_logger ["host.log"] 0, {| written := []; messages := []; answers := λ _, Ok tt |}) in
  accounted {| count_injected := 1; count_failed := 0; count_skipped := 2 |} st ∧
  length (summaries (written st.2)) = 2.
Proof.
  split; [|vm_compute; reflexivity].
  exact (@summaries_account_for_every_result key_order ["host.log"] 0 (λ _, Ok tt) example_minute
    ltac:(vm_compute; reflexivity)).
Defined.
