(* ===== verification/ProfileText.v ===== *)
(** * The encodings of an edited profile

    [control-center/src-tauri/src/profile/codec.rs]: how the bytes of a profile become a
    text and how a text becomes bytes again.  UTF-8 and UTF-16 are told by their byte
    order marks or by validity; for other bytes five legacy encodings compete by a
    score.  A text is the list of its scalar values; the legacy codecs are those of
    [encoding_rs], the interface [LegacyCodecs]. *)

From S2P Require Export Profile AppInit.

Abbreviation Text := (list N).

Inductive TextEncoding := Utf8 | Utf16Le | Utf16Be | EucKr | Gb18030 | Big5 | ShiftJis | Windows1252.
Inductive BomKind := BomNone | BomUtf8 | BomUtf16Le | BomUtf16Be.
Inductive LineEnding := CrLf | Lf | Cr.

#[export] Instance TextEncoding_eq_dec : EqDecision TextEncoding.
Proof. solve_decision. Defined.

(** What the codecs of [encoding_rs] answer: the text of some bytes, when they are
    valid, and the bytes of a text, with whether a character was replaced. *)
Class LegacyCodecs := {
  codec_decode : TextEncoding → list ascii → option Text;
  codec_encode : TextEncoding → Text → list ascii * bool
}.

(** ** UTF-8 and UTF-16 *)

Definition is_continuation (b : ascii) : bool := (0x80 <=? N_of_ascii b)%N && (N_of_ascii b <=? 0xBF)%N.
Definition low_bits (b : ascii) : N := N_of_ascii b - 0x80.
Definition is_surrogate (c : N) : bool := is_high_surrogate c || is_low_surrogate c.

(** [String::from_utf8] *)
Fixpoint from_utf8 (l : list ascii) : option Text :=
  match l with
  | [] => Some []
  | b :: l1 =>
      let x := N_of_ascii b in
      if (x <? 0x80)%N then cons x <$> from_utf8 l1
      else match l1 with
           | c1 :: l2 =>
               if negb (is_continuation c1) then None
               else if (0xC2 <=? x)%N && (x <=? 0xDF)%N
               then cons ((x - 0xC0) * 64 + low_bits c1)%N <$> from_utf8 l2
               else match l2 with
                    | c2 :: l3 =>
                        if negb (is_continuation c2) then None
                        else if (0xE0 <=? x)%N && (x <=? 0xEF)%N then
                          let c := (((x - 0xE0) * 64 + low_bits c1) * 64 + low_bits c2)%N in
                          if (0x800 <=? c)%N && negb (is_surrogate c) then cons c <$> from_utf8 l3 else None
                        else match l3 with
                             | c3 :: l4 =>
                                 if negb (is_continuation c3) then None
                                 else if (0xF0 <=? x)%N && (x <=? 0xF4)%N then
                                   let c := ((((x - 0xF0) * 64 + low_bits c1) * 64 + low_bits c2) * 64 + low_bits c3)%N in
                                   if (0x10000 <=? c)%N && (c <=? 0x10FFFF)%N then cons c <$> from_utf8 l4 else None
                                 else None
                             | [] => None
                             end
                    | [] => None
                    end
           | [] => None
           end
  end.

(** [text.encode_utf16()] *)
Definition encode_utf16 (text : Text) : list N := concat (map utf16_units text).

(** ** Lines *)

Definition CR : N := 13.
Definition NL : N := 10.

(** Whether a character ends its line, [l] being what follows: LF, or CR not before LF. *)
Definition ends_line (c : N) (l : Text) : bool :=
  (c =? NL)%N || ((c =? CR)%N && negb (match l with b :: _ => (b =? NL)%N | [] => false end)).

Fixpoint split_lines (l : Text) : list Text :=
  match l with
  | [] => []
  | c :: l' =>
      if ends_line c l' then [c] :: split_lines l'
      else match split_lines l' with
           | line :: lines => (c :: line) :: lines
           | [] => [[c]]
           end
  end.

Definition byte_ends_line (c : ascii) (l : list ascii) : bool :=
  (c =? "010")%char || ((c =? "013")%char && negb (match l with b :: _ => (b =? "010")%char | [] => false end)).

Fixpoint split_byte_lines (l : list ascii) : list (list ascii) :=
  match l with
  | [] => []
  | c :: l' =>
      if byte_ends_line c l' then [c] :: split_byte_lines l'
      else match split_byte_lines l' with
           | line :: lines => (c :: line) :: lines
           | [] => [[c]]
           end
  end.

Definition contains_crlf (l : Text) : bool :=
  existsb (λ p, (p.1 =? CR)%N && (p.2 =? NL)%N) (zip l (tail l)).

Definition detect_line_ending (text : Text) : LineEnding :=
  if contains_crlf text then CrLf
  else if existsb (N.eqb NL) text then Lf
  else Cr.

(** ** Guessing a legacy encoding *)

Definition strip_cr (line : Text) : Text :=
  match rev line with c :: rest => if (c =? CR)%N then rev rest else line | [] => line end.

(** [str::lines]: the last piece counts only if it is not empty, and keeps a CR. *)
Fixpoint lines_of_pieces (pieces : list Text) : list Text :=
  match pieces with
  | [] => []
  | [piece] => if bool_decide (piece = []) then [] else [piece]
  | piece :: pieces' => strip_cr piece :: lines_of_pieces pieces'
  end.

Definition str_lines (text : Text) : list Text := lines_of_pieces (split_on (N.eqb NL) text).

Fixpoint trim_text_start (l : Text) : Text :=
  match l with c :: l' => if is_whitespace c then trim_text_start l' else l | [] => [] end.
Definition trim_text_end (l : Text) : Text := rev (trim_text_start (rev l)).
Definition trim (l : Text) : Text := trim_text_end (trim_text_start l).

Definition text_starts_with (c : N) (l : Text) : bool := match l with b :: _ => (b =? c)%N | [] => false end.
Definition text_ends_with (c : N) (l : Text) : bool := text_starts_with c (rev l).

Definition in_range (lo hi c : N) : bool := (lo <=? c)%N && (c <=? hi)%N.

Definition is_control (c : N) : bool := in_range 0 0x1F c || in_range 0x7F 0x9F c.

Definition SIMPLIFIED : Text :=
  [0x7B80; 0x4F53; 0x6C49; 0x8BED; 0x914D; 0x7F6E; 0x8BBE; 0x7F6E; 0x9ED8; 0x8BA4; 0x542F; 0x7528; 0x5173; 0x95ED;
   0x5B57; 0x4F53; 0x8FDB; 0x7A0B; 0x7F13; 0x5B58; 0x8BD5; 0x9A8C; 0x6743; 0x91CD; 0x8FC7; 0x6EE4; 0x9634; 0x5F71]%N.

Definition TRADITIONAL : Text :=
  [0x7C21; 0x9AD4; 0x6F22; 0x8A9E; 0x8A2D; 0x5B9A; 0x9810; 0x8A2D; 0x555F; 0x7528; 0x95DC; 0x9589; 0x5B57; 0x578B;
   0x7A0B; 0x5E8F; 0x5FEB; 0x53D6; 0x8A66; 0x9A57; 0x6B0A; 0x91CD; 0x904E; 0x6FFE; 0x9670; 0x5F71]%N.

Definition GB18030_AMBIGUITY_BIAS : Z := 75.

(** How many characters satisfy [p]. *)
Definition counted (p : N → bool) (text : Text) : Z := Z.of_nat (length (List.filter p text)).

Definition is_hangul (c : N) : bool := in_range 0xAC00 0xD7AF c.
Definition is_kana (c : N) : bool := in_range 0x3040 0x30FF c.
Definition is_han (c : N) : bool := in_range 0x3400 0x9FFF c.

Definition legacy_score (text : Text) (encoding : TextEncoding) : Z :=
  let sections := Z.of_nat (length (List.filter
    (λ line, let line := trim line in text_starts_with 91 line && text_ends_with 93 line) (str_lines text))) in
  let assignments := Z.of_nat (length (List.filter (existsb (N.eqb 61)) (str_lines text))) in
  let non_ascii := counted (λ c, negb (c <? 0x80)%N) text in
  let hangul := counted is_hangul text in
  let kana := counted is_kana text in
  let han := counted is_han text in
  let controls := counted (λ c, is_control c && negb ((c =? CR)%N || (c =? NL)%N || (c =? 9)%N)) text in
  let simplified := counted (λ c, existsb (N.eqb c) SIMPLIFIED) text in
  let traditional := counted (λ c, existsb (N.eqb c) TRADITIONAL) text in
  let some n := (if (0 <? n)%Z then 10 else 0)%Z in
  let structure := (sections * 100 + assignments * 12 - controls * 200)%Z in
  (structure +
   match encoding with
   | Gb18030 => han * 3 + simplified * 18 - traditional * 3 - hangul * 12 - kana * 12 + some han + GB18030_AMBIGUITY_BIAS
   | Big5 => han * 3 + traditional * 18 - simplified * 3 - hangul * 12 - kana * 12 + some han
   | ShiftJis => kana * 20 + han * 2 - hangul * 12 + some kana
   | EucKr => hangul * 20 + han - kana * 12 + some hangul
   | Windows1252 => - non_ascii * 8 - (hangul + kana + han) * 8
   | Utf8 | Utf16Le | Utf16Be => 0
   end)%Z.

(** [max_by_key]: of equal ones the last. *)
Fixpoint max_by_score (best : option (Z * Text * TextEncoding)) (l : list (Z * Text * TextEncoding)) :
    option (Z * Text * TextEncoding) :=
  match l with
  | [] => best
  | candidate :: l' =>
      match best with
      | Some b => max_by_score (if (b.1.1 <=? candidate.1.1)%Z then Some candidate else best) l'
      | None => max_by_score (Some candidate) l'
      end
  end.

Section Codecs.
Context `{LegacyCodecs}.

Definition legacy_candidates : list TextEncoding := [Gb18030; Big5; ShiftJis; EucKr; Windows1252].

(** A candidate counts when its text is encoded as these bytes again. *)
Definition legacy_candidate (bytes : list ascii) (encoding : TextEncoding) : option (Z * Text * TextEncoding) :=
  match codec_decode encoding bytes with
  | None => None
  | Some text =>
      let '(round_trip, encode_errors) := codec_encode encoding text in
      if encode_errors || negb (bool_decide (round_trip = bytes)) then None
      else Some (legacy_score text encoding, text, encoding)
  end.

Definition decode_utf16 (from : ascii → ascii → N) (name : string) (encoding : TextEncoding) (bom : BomKind)
    (body : list ascii) : result (Text * TextEncoding * BomKind) string :=
  if negb (bytes_len body mod 2 =? 0)%N then Err (name ++ " profile has an odd byte length")%string
  else
    match from_utf16 (map (λ pair, from pair.1 pair.2) (chunks2 body)) with
    | Some text => Ok (text, encoding, bom)
    | None => Err "invalid utf-16: lone surrogate found"
    end.

(** The positions in the errors of [String::from_utf8] and [from_utf16] are left out. *)
Definition decode (bytes : list ascii) : result (Text * TextEncoding * BomKind) string :=
  match bytes_strip_prefix BOM_UTF8 bytes with
  | Some body =>
      match from_utf8 body with
      | Some text => Ok (text, Utf8, BomUtf8)
      | None => Err "invalid utf-8 sequence"
      end
  | None =>
      match bytes_strip_prefix BOM_LE bytes with
      | Some body => decode_utf16 from_le_bytes "UTF-16LE" Utf16Le BomUtf16Le body
      | None =>
          match bytes_strip_prefix BOM_BE bytes with
          | Some body => decode_utf16 from_be_bytes "UTF-16BE" Utf16Be BomUtf16Be body
          | None =>
              match from_utf8 bytes with
              | Some text => Ok (text, Utf8, BomNone)
              | None =>
                  match max_by_score None (omap (legacy_candidate bytes) legacy_candidates) with
                  | Some (_, text, encoding) => Ok (text, encoding, BomNone)
                  | None => Err "profile is not valid UTF-8, UTF-16, GB18030, Big5, Shift-JIS, EUC-KR, or Windows-1252"
                  end
              end
          end
      end
  end.

(** [legacy_codec]: the encodings that [encoding_rs] serves. *)
Definition is_legacy (encoding : TextEncoding) : bool :=
  match encoding with Utf8 | Utf16Le | Utf16Be => false | _ => true end.

Definition UNREPRESENTABLE : string := "profile contains text that cannot be represented in its original encoding".

Definition encode (text : Text) (encoding : TextEncoding) (bom : BomKind) : result (list ascii) string :=
  match encoding with
  | Utf8 => Ok ((match bom with BomUtf8 => BOM_UTF8 | _ => [] end) ++ utf8 text)
  | Utf16Le | Utf16Be =>
      let mark := match bom with BomUtf16Le => BOM_LE | BomUtf16Be => BOM_BE | _ => [] end in
      let to_bytes := match encoding with Utf16Le => to_le_bytes | _ => to_be_bytes end in
      Ok (mark ++ concat (map to_bytes (encode_utf16 text)))
  | _ =>
      let '(encoded, had_errors) := codec_encode encoding text in
      if had_errors then Err UNREPRESENTABLE else Ok encoded
  end.

(** *** The lines of a legacy profile as they were *)

Definition original_legacy_lines (bytes : list ascii) (text : Text) (encoding : TextEncoding) :
    option (list (Text * list ascii)) :=
  if negb (is_legacy encoding) then None
  else
    let text_lines := split_lines text in
    let byte_lines := split_byte_lines bytes in
    if length text_lines =? length byte_lines then Some (zip text_lines byte_lines) else None.

(** The first line that is equal and not used yet, which is then used. *)
Fixpoint use_line (raw : Text) (lines : list (bool * (Text * list ascii))) :
    option (list ascii * list (bool * (Text * list ascii))) :=
  match lines with
  | [] => None
  | (used, (line, bytes)) :: lines' =>
      if negb used && bool_decide (line = raw) then Some (bytes, (true, (line, bytes)) :: lines')
      else
        match use_line raw lines' with
        | Some (found, lines') => Some (found, (used, (line, bytes)) :: lines')
        | None => None
        end
  end.

Fixpoint encode_lines (lines : list Text) (original : list (bool * (Text * list ascii))) (encoding : TextEncoding)
    (output : list ascii) : result (list ascii) string :=
  match lines with
  | [] => Ok output
  | raw :: lines' =>
      match use_line raw original with
      | Some (bytes, original) => encode_lines lines' original encoding (output ++ bytes)
      | None =>
          let '(encoded, had_errors) := codec_encode encoding raw in
          if had_errors then Err UNREPRESENTABLE else encode_lines lines' original encoding (output ++ encoded)
      end
  end.

Definition encode_preserving_legacy_lines (lines : list Text) (original : list (Text * list ascii))
    (encoding : TextEncoding) : result (list ascii) string :=
  encode_lines lines (map (pair false) original) encoding [].
End Codecs.

(** ** Texts and their bytes *)

Lemma ascii_below b : (N_of_ascii b < 256)%N.
Proof. apply N_ascii_bounded. Qed.

(** One byte of an encoding, by its number. *)
Lemma ascii_number n b : n = N_of_ascii b → ascii_of_N n = b.
Proof. intros ->. apply ascii_N_embedding. Qed.

Lemma continuation_range b : is_continuation b = true → (0x80 <= N_of_ascii b <= 0xBF)%N.
Proof. unfold is_continuation. intros E. andb_split. lia. Qed.

Lemma utf8_one b : (N_of_ascii b < 0x80)%N → utf8_char (N_of_ascii b) = [b].
Proof.
  intros Hb. unfold utf8_char. rewrite (proj2 (N.ltb_lt _ _) Hb). cbn [map]. by rewrite ascii_N_embedding.
Qed.

Lemma utf8_two b c1 :
  (0xC2 <= N_of_ascii b <= 0xDF)%N → (0x80 <= N_of_ascii c1 <= 0xBF)%N →
  let c := ((N_of_ascii b - 0xC0) * 64 + low_bits c1)%N in utf8_char c = [b; c1] ∧ scalar_value c.
Proof.
  intros Hb H1 c. subst c. unfold low_bits. split.
  - unfold utf8_char. rewrite (proj2 (N.ltb_ge _ 0x80)) by lia. rewrite (proj2 (N.ltb_lt _ 0x800)) by lia.
    cbn [map]. rewrite (ascii_number _ b) by div_mod_lia. by rewrite (ascii_number _ c1) by div_mod_lia.
  - unfold scalar_value, is_high_surrogate, is_low_surrogate. split_and!; [lia|apply andb_false_intro1, N.leb_gt; lia..].
Qed.

Lemma utf8_three b c1 c2 :
  (0xE0 <= N_of_ascii b <= 0xEF)%N → (0x80 <= N_of_ascii c1 <= 0xBF)%N → (0x80 <= N_of_ascii c2 <= 0xBF)%N →
  let c := (((N_of_ascii b - 0xE0) * 64 + low_bits c1) * 64 + low_bits c2)%N in
  (0x800 <= c)%N → utf8_char c = [b; c1; c2] ∧ (c <= 0x10FFFF)%N.
Proof.
  intros Hb H1 H2 c Hc. subst c. unfold low_bits in *. split; [|lia].
  unfold utf8_char. rewrite (proj2 (N.ltb_ge _ 0x80)) by lia. rewrite (proj2 (N.ltb_ge _ 0x800)) by lia.
  rewrite (proj2 (N.ltb_lt _ 0x10000)) by lia. cbn [map].
  rewrite (ascii_number _ b) by div_mod_lia. rewrite (ascii_number _ c1) by div_mod_lia.
  by rewrite (ascii_number _ c2) by div_mod_lia.
Qed.

Lemma utf8_four b c1 c2 c3 :
  (0xF0 <= N_of_ascii b <= 0xF4)%N → (0x80 <= N_of_ascii c1 <= 0xBF)%N → (0x80 <= N_of_ascii c2 <= 0xBF)%N →
  (0x80 <= N_of_ascii c3 <= 0xBF)%N →
  let c := ((((N_of_ascii b - 0xF0) * 64 + low_bits c1) * 64 + low_bits c2) * 64 + low_bits c3)%N in
  (0x10000 <= c)%N → utf8_char c = [b; c1; c2; c3].
Proof.
  intros Hb H1 H2 H3 c Hc. subst c. unfold low_bits in *.
  unfold utf8_char. rewrite (proj2 (N.ltb_ge _ 0x80)) by lia. rewrite (proj2 (N.ltb_ge _ 0x800)) by lia.
  rewrite (proj2 (N.ltb_ge _ 0x10000)) by lia. cbn [map].
  rewrite (ascii_number _ b) by div_mod_lia. rewrite (ascii_number _ c1) by div_mod_lia.
  rewrite (ascii_number _ c2) by div_mod_lia. by rewrite (ascii_number _ c3) by div_mod_lia.
Qed.

Lemma from_utf8_sound l text : from_utf8 l = Some text → utf8 text = l ∧ Forall scalar_value text.
Proof.
  assert (∀ c k pieces rest bytes, (cons c <$> from_utf8 rest) = Some k →
    (∀ t, from_utf8 rest = Some t → utf8 t = rest ∧ Forall scalar_value t) →
    utf8_char c = pieces → scalar_value c → bytes = pieces ++ rest → utf8 k = bytes ∧ Forall scalar_value k) as Hstep.
  { intros c k pieces rest bytes E IH Hc Hs ->. destruct (from_utf8 rest) as [t|]; [|done]. injection E as <-.
    destruct (IH t eq_refl) as [Ht Hall]. unfold utf8 in *. cbn [map concat]. rewrite Hc, Ht. split; [done|by constructor]. }
  remember (length l) as n eqn:Hn. revert l text Hn. induction n as [n IH] using lt_wf_ind. intros l text -> E.
  assert (∀ rest, length rest < length l → ∀ t, from_utf8 rest = Some t → utf8 t = rest ∧ Forall scalar_value t) as IH'.
  { intros rest Hr t. by eapply IH. }
  clear IH. destruct l as [|b l1]; [injection E as <-; done|]. cbn [from_utf8] in E. pose proof (ascii_below b) as Hb.
  destruct (N_of_ascii b <? 0x80)%N eqn:E0.
  { apply N.ltb_lt in E0. eapply Hstep; [exact E|apply IH'; simpl; lia|by apply utf8_one| |done].
    unfold scalar_value, is_high_surrogate, is_low_surrogate. split_and!; [lia|apply andb_false_intro1, N.leb_gt; lia..]. }
  destruct l1 as [|c1 l2]; [done|]. destruct (is_continuation c1) eqn:E1; [|done]. cbn [negb] in E.
  apply continuation_range in E1.
  destruct ((0xC2 <=? N_of_ascii b) && (N_of_ascii b <=? 0xDF))%N eqn:E2.
  { andb_split. destruct (utf8_two b c1) as [??]; [lia|done|].
    eapply Hstep; [exact E|apply IH'; simpl; lia|done|done|done]. }
  destruct l2 as [|c2 l3]; [done|]. destruct (is_continuation c2) eqn:E3; [|done]. cbn [negb] in E.
  apply continuation_range in E3.
  destruct ((0xE0 <=? N_of_ascii b) && (N_of_ascii b <=? 0xEF))%N eqn:E4.
  { destruct (_ && _) eqn:E5 in E; [|done]. apply andb_true_iff in E5 as [E5 E6]. andb_split.
    destruct (utf8_three b c1 c2) as [??]; [lia|done|done|exact E5|].
    eapply Hstep; [exact E|apply IH'; simpl; lia|done| |done].
    apply orb_false_iff in E6 as [??]. done. }
  destruct l3 as [|c3 l4]; [done|]. destruct (is_continuation c3) eqn:E5; [|done]. cbn [negb] in E.
  apply continuation_range in E5.
  destruct ((0xF0 <=? N_of_ascii b) && (N_of_ascii b <=? 0xF4))%N eqn:E6; [|done].
  destruct (_ && _) eqn:E7 in E; [|done]. apply andb_true_iff in E7 as [E7 E8].
  apply N.leb_le in E7, E8. andb_split.
  eapply Hstep; [exact E|apply IH'; simpl; lia|apply utf8_four; lia| |done].
  unfold scalar_value, is_high_surrogate, is_low_surrogate. split_and!; [done|apply andb_false_intro2, N.leb_gt; lia..].
Qed.

Lemma continuation_of n : (n < 64)%N → is_continuation (ascii_of_N (0x80 + n)) = true ∧ low_bits (ascii_of_N (0x80 + n)) = n.
Proof.
  intros Hn. unfold is_continuation, low_bits. rewrite N_ascii_embedding by lia. split; [bool_arith; lia|lia].
Qed.

Lemma from_utf8_char c rest : scalar_value c → from_utf8 (utf8_char c ++ rest) = cons c <$> from_utf8 rest.
Proof.
  intros (Hmax & Hh & Hl). unfold utf8_char.
  destruct (c <? 0x80)%N eqn:E1; [|destruct (c <? 0x800)%N eqn:E2; [|destruct (c <? 0x10000)%N eqn:E3]];
    cbn [map app from_utf8].
  - andb_split. rewrite N_ascii_embedding by lia. by rewrite (proj2 (N.ltb_lt _ _)) by lia.
  - andb_split. rewrite N_ascii_embedding by div_mod_lia. rewrite (proj2 (N.ltb_ge _ _)) by div_mod_lia.
    destruct (continuation_of (c mod 64)) as [-> ->]; [div_mod_lia|]. cbn [negb].
    rewrite (proj2 (N.leb_le _ _)) by div_mod_lia. rewrite (proj2 (N.leb_le _ _)) by div_mod_lia. cbn [andb].
    do 2 f_equal. div_mod_lia.
  - andb_split. rewrite N_ascii_embedding by div_mod_lia. rewrite (proj2 (N.ltb_ge _ _)) by div_mod_lia.
    destruct (continuation_of (c / 64 mod 64)) as [-> ->]; [div_mod_lia|]. cbn [negb].
    rewrite (proj2 (N.leb_le _ _)) by div_mod_lia. rewrite (proj2 (N.leb_gt _ _)) by div_mod_lia. cbn [andb].
    destruct (continuation_of (c mod 64)) as [-> ->]; [div_mod_lia|]. cbn [negb].
    rewrite (proj2 (N.leb_le 0xE0 _)) by div_mod_lia. rewrite (proj2 (N.leb_le _ 0xEF)) by div_mod_lia. cbn [andb].
    assert (((0xE0 + c / 4096 - 0xE0) * 64 + c / 64 mod 64) * 64 + c mod 64 = c)%N as -> by div_mod_lia.
    rewrite (proj2 (N.leb_le _ _)) by done. unfold is_surrogate. by rewrite Hh, Hl.
  - andb_split. rewrite N_ascii_embedding by div_mod_lia. rewrite (proj2 (N.ltb_ge _ _)) by div_mod_lia.
    destruct (continuation_of (c / 4096 mod 64)) as [-> ->]; [div_mod_lia|]. cbn [negb].
    rewrite (proj2 (N.leb_le _ _)) by div_mod_lia. rewrite (proj2 (N.leb_gt _ _)) by div_mod_lia. cbn [andb].
    destruct (continuation_of (c / 64 mod 64)) as [-> ->]; [div_mod_lia|]. cbn [negb].
    rewrite (proj2 (N.leb_le _ _)) by div_mod_lia. rewrite (proj2 (N.leb_gt _ 0xEF)) by div_mod_lia. cbn [andb].
    destruct (continuation_of (c mod 64)) as [-> ->]; [div_mod_lia|]. cbn [negb].
    rewrite (proj2 (N.leb_le 0xF0 _)) by div_mod_lia. rewrite (proj2 (N.leb_le _ 0xF4)) by div_mod_lia. cbn [andb].
    assert ((((0xF0 + c / 262144 - 0xF0) * 64 + c / 4096 mod 64) * 64 + c / 64 mod 64) * 64 + c mod 64 = c)%N as -> by div_mod_lia.
    rewrite (proj2 (N.leb_le _ _)) by done. by rewrite (proj2 (N.leb_le _ _)) by done.
Qed.

Lemma from_utf8_complete text : Forall scalar_value text → from_utf8 (utf8 text) = Some text.
Proof.
  induction 1 as [|c text Hc _ IH]; [done|]. unfold utf8 in *. cbn [map concat]. by rewrite from_utf8_char, IH.
Qed.

(** *** UTF-16 *)

Lemma from_utf16_sound units text :
  Forall (λ u, (u < 65536)%N) units → from_utf16 units = Some text →
  encode_utf16 text = units ∧ Forall scalar_value text.
Proof.
  remember (length units) as n eqn:Hn. revert units text Hn. induction n as [n IH] using lt_wf_ind.
  intros units text -> Hall E. destruct units as [|u us]; [by injection E as <-|]. cbn [from_utf16] in E.
  apply Forall_cons in Hall as [Hu Hall].
  destruct (is_high_surrogate u) eqn:Eh.
  - destruct us as [|v us']; [done|]. destruct (is_low_surrogate v) eqn:El; [|done].
    apply Forall_cons in Hall as [Hv Hall]. destruct (from_utf16 us') as [t|] eqn:Et; [|done]. injection E as <-.
    destruct (IH (length us')) with (units := us') (text := t) as [Ht Hs]; [simpl; lia|done..|].
    unfold is_high_surrogate in Eh. unfold is_low_surrogate in El. andb_split.
    unfold encode_utf16 in *. cbn [map concat]. rewrite Ht. split.
    + unfold utf16_units. rewrite (proj2 (N.ltb_ge _ _)) by lia. cbn [app]. do 2 f_equal; [div_mod_lia|]. f_equal. div_mod_lia.
    + constructor; [|done]. unfold scalar_value, is_high_surrogate, is_low_surrogate.
      split_and!; [lia|apply andb_false_intro2, N.leb_gt; lia..].
  - destruct (is_low_surrogate u) eqn:El; [done|]. destruct (from_utf16 us) as [t|] eqn:Et; [|done]. injection E as <-.
    destruct (IH (length us)) with (units := us) (text := t) as [Ht Hs]; [simpl; lia|done..|].
    unfold encode_utf16 in *. cbn [map concat]. rewrite Ht. split.
    + unfold utf16_units. by rewrite (proj2 (N.ltb_lt _ _)) by lia.
    + constructor; [|done]. split_and!; [lia|done|done].
Qed.

Section Units.
Context (to_bytes : N → list ascii) (from : ascii → ascii → N).
Context (Hfrom : ∀ a b, (from a b < 65536)%N ∧ to_bytes (from a b) = [a; b]).

Lemma chunks2_bytes body :
  (bytes_len body mod 2 =? 0)%N = true →
  concat (map to_bytes (map (λ pair, from pair.1 pair.2) (chunks2 body))) = body ∧
  Forall (λ u, (u < 65536)%N) (map (λ pair, from pair.1 pair.2) (chunks2 body)).
Proof.
  remember (length body) as n eqn:Hn. revert body Hn. induction n as [n IH] using lt_wf_ind. intros body -> Heven.
  destruct body as [|a [|b body]]; [done|done|]. cbn [chunks2 map fst snd concat]. destruct (Hfrom a b) as [Hlt ->].
  destruct (IH (length body)) with (body := body) as [Hb Hall]; [simpl; lia|done| |].
  { unfold bytes_len in *. cbn [length] in Heven. apply N.eqb_eq in Heven. apply N.eqb_eq. div_mod_lia. }
  rewrite Hb. split; [done|by constructor].
Qed.
End Units.

Lemma le_bytes a b : (from_le_bytes a b < 65536)%N ∧ to_le_bytes (from_le_bytes a b) = [a; b].
Proof.
  pose proof (ascii_below a). pose proof (ascii_below b). unfold from_le_bytes, to_le_bytes.
  split; [lia|]. f_equal; [|f_equal]; apply ascii_number; div_mod_lia.
Qed.

Lemma be_bytes a b : (from_be_bytes a b < 65536)%N ∧ to_be_bytes (from_be_bytes a b) = [a; b].
Proof.
  pose proof (ascii_below a). pose proof (ascii_below b). unfold from_be_bytes, to_be_bytes.
  split; [lia|]. f_equal; [|f_equal]; apply ascii_number; div_mod_lia.
Qed.

Section DecodeEncode.
Context `{LegacyCodecs}.

Lemma decode_utf16_sound to_bytes from name encoding bom body text encoding' bom' :
  (∀ a b, (from a b < 65536)%N ∧ to_bytes (from a b) = [a; b]) →
  decode_utf16 from name encoding bom body = Ok (text, encoding', bom') →
  concat (map to_bytes (encode_utf16 text)) = body ∧ Forall scalar_value text ∧ encoding' = encoding ∧ bom' = bom.
Proof.
  intros Hfrom. unfold decode_utf16. destruct (_ =? 0)%N eqn:Eeven; [|done]. cbn [negb].
  destruct (chunks2_bytes to_bytes from Hfrom body Eeven) as [Hb Hall].
  destruct (from_utf16 _) as [t|] eqn:Et; [|done]. intros [= -> -> ->].
  destruct (from_utf16_sound _ _ Hall Et) as [-> Hs]. done.
Qed.

Lemma legacy_candidate_sound bytes encoding score text encoding' :
  legacy_candidate bytes encoding = Some (score, text, encoding') →
  encoding' = encoding ∧ codec_decode encoding bytes = Some text ∧ codec_encode encoding text = (bytes, false).
Proof.
  unfold legacy_candidate. destruct (codec_decode encoding bytes) as [t|]; [|done].
  destruct (codec_encode encoding t) as [round errors] eqn:E. destruct (errors || _) eqn:Eg; [done|].
  intros [= _ <- <-]. apply orb_false_iff in Eg as [-> Eg]. apply negb_false_iff, bool_decide_eq_true in Eg as ->. done.
Qed.

Lemma max_by_score_elem best l candidate :
  max_by_score best l = Some candidate → best = Some candidate ∨ candidate ∈ l.
Proof.
  revert best. induction l as [|x l IH]; intros best; [by left|]. cbn [max_by_score].
  destruct best as [b|]; [destruct (_ <=? _)%Z|]; intros [E|E]%IH; try (by left); try (by right; right).
  - injection E as ->. right. by left.
  - injection E as ->. right. by left.
Qed.

(** What [decode] answers is encoded as the same bytes. *)
Lemma decode_encode bytes text encoding bom :
  decode bytes = Ok (text, encoding, bom) → encode text encoding bom = Ok bytes ∧
  (is_legacy encoding = false → Forall scalar_value text).
Proof.
  unfold decode. destruct (bytes_strip_prefix BOM_UTF8 bytes) as [body|] eqn:E1.
  { destruct (from_utf8 body) as [t|] eqn:Et; [|done]. intros [= <- <- <-]. apply from_utf8_sound in Et as [Ht Hs].
    apply bytes_strip_prefix_app in E1 as ->. split; [|done]. cbn [encode]. by rewrite Ht. }
  destruct (bytes_strip_prefix BOM_LE bytes) as [body|] eqn:E2.
  { intros Hd. destruct (decode_utf16_sound _ _ _ _ _ _ _ _ _ le_bytes Hd) as (Hb & Hs & -> & ->).
    apply bytes_strip_prefix_app in E2 as ->. split; [|done]. cbn [encode]. by rewrite Hb. }
  destruct (bytes_strip_prefix BOM_BE bytes) as [body|] eqn:E3.
  { intros Hd. destruct (decode_utf16_sound _ _ _ _ _ _ _ _ _ be_bytes Hd) as (Hb & Hs & -> & ->).
    apply bytes_strip_prefix_app in E3 as ->. split; [|done]. cbn [encode]. by rewrite Hb. }
  destruct (from_utf8 bytes) as [t|] eqn:E4.
  { intros [= <- <- <-]. apply from_utf8_sound in E4 as [Ht Hs]. split; [|done]. cbn [encode app]. by rewrite Ht. }
  destruct (max_by_score _ _) as [[[score t] enc]|] eqn:E5; [|done]. intros [= <- <- <-].
  apply max_by_score_elem in E5 as [E5|E5]; [done|]. apply list_elem_of_omap in E5 as (candidate & Hin & Hc).
  apply legacy_candidate_sound in Hc as (-> & _ & Henc).
  assert (is_legacy candidate = true) as Hl.
  { clear -Hin. unfold legacy_candidates in Hin. repeat (apply elem_of_cons in Hin as [->|Hin]; [done|]). by apply not_elem_of_nil in Hin. }
  split; [|by rewrite Hl]. destruct candidate; try done; cbn [encode]; by rewrite Henc.
Qed.
End DecodeEncode.

(** ** Lines and their bytes *)

Lemma split_lines_concat l : concat (split_lines l) = l.
Proof.
  induction l as [|c l IH]; [done|]. cbn [split_lines]. destruct (ends_line c l); [by cbn [concat]; rewrite IH|].
  destruct (split_lines l) as [|line lines]; cbn [concat] in *; by rewrite <- IH.
Qed.

Lemma split_byte_lines_concat l : concat (split_byte_lines l) = l.
Proof.
  induction l as [|c l IH]; [done|]. cbn [split_byte_lines]. destruct (byte_ends_line c l); [by cbn [concat]; rewrite IH|].
  destruct (split_byte_lines l) as [|line lines]; cbn [concat] in *; by rewrite <- IH.
Qed.

Section LegacyLines.
Context `{LegacyCodecs}.

Lemma use_line_next (before after : list (Text * list ascii)) raw bytes :
  use_line raw (map (pair true) before ++ (false, (raw, bytes)) :: map (pair false) after) =
  Some (bytes, map (pair true) (before ++ [(raw, bytes)]) ++ map (pair false) after).
Proof.
  induction before as [|[line b] before IH]; cbn [map app use_line negb andb].
  - by rewrite bool_decide_true.
  - by rewrite IH.
Qed.

Lemma encode_lines_exact before after encoding output :
  encode_lines (after.*1) (map (pair true) before ++ map (pair false) after) encoding output =
  Ok (output ++ concat after.*2).
Proof.
  revert before output. induction after as [|[raw bytes] after IH]; intros before output; cbn [fmap list_fmap encode_lines fst snd concat map].
  - by rewrite app_nil_r.
  - rewrite use_line_next. etrans; [apply IH|]. by rewrite <- app_assoc.
Qed.

Lemma legacy_lines_exact bytes text encoding original :
  original_legacy_lines bytes text encoding = Some original →
  encode_preserving_legacy_lines (split_lines text) original encoding = Ok bytes.
Proof.
  unfold original_legacy_lines, encode_preserving_legacy_lines. destruct (is_legacy encoding); [|done]. cbn [negb].
  destruct (_ =? _) eqn:E; [|done]. apply Nat.eqb_eq in E. intros [= <-].
  pose proof (encode_lines_exact [] (zip (split_lines text) (split_byte_lines bytes)) encoding []) as He.
  rewrite fst_zip, snd_zip in He by lia. cbn [map app] in He. rewrite He. by rewrite split_byte_lines_concat.
Qed.
End LegacyLines.
