(* ===== verification/Float64.v ===== *)
(** * 64-bit floating point numbers

    What the profile editor uses of [f64]: reading a decimal, comparing, telling an
    integer, converting to [i64] and writing six decimals.  A number is a binary64
    number of the Standard Library's [SpecFloat]: reading rounds to the nearest, ties to
    even, and writing rounds the exact value, ties to even. *)

From Stdlib Require Import SpecFloat.
From stdpp Require Import pretty.
From S2P Require Export ProfileText.

Definition F64 : Type := spec_float.

Definition prec : Z := 53.
Definition emax : Z := 1024.

#[export] Instance F64_eq_dec : EqDecision F64.
Proof. solve_decision. Defined.

(** [m * 10^e], rounded. *)
Definition of_decimal (negative : bool) (m : N) (e : Z) : F64 :=
  match m with
  | 0%N => S754_zero negative
  | Npos p =>
      if (0 <=? e)%Z then binary_normalize prec emax (if negative then - (Zpos p * 10 ^ e) else Zpos p * 10 ^ e) 0 negative
      else
        match Z.to_pos (10 ^ (- e)) with
        | q => let '(mz, ez, lz) := SFdiv_core_binary prec emax (Zpos p) 0 (Zpos q) 0 in
               binary_round_aux prec emax negative mz ez lz
        end
  end.

(** An integer. *)
Definition of_integer (z : Z) : F64 := of_decimal (z <? 0)%Z (Z.abs_N z) 0.

Definition is_finite (x : F64) : bool := match x with S754_zero _ | S754_finite _ _ _ => true | _ => false end.
Definition f64_lt (x y : F64) : bool := SFltb x y.
Definition f64_eq (x y : F64) : bool := SFeqb x y.

(** The exact value of a finite number: [signed_mantissa * 2^exponent]. *)
Definition parts (x : F64) : Z * Z :=
  match x with S754_finite s m e => (if s then Zneg m else Zpos m, e) | _ => (0, 0)%Z end.

(** [x.fract() != 0.0] of a finite number. *)
Definition has_fraction (x : F64) : bool :=
  let '(m, e) := parts x in if (0 <=? e)%Z then false else negb (m mod 2 ^ (- e) =? 0)%Z.

Definition I64_MIN : Z := - 2 ^ 63.
Definition I64_MAX : Z := 2 ^ 63 - 1.

(** [x as i64] of a finite number: towards zero, saturating. *)
Definition as_i64 (x : F64) : Z :=
  let '(m, e) := parts x in
  Z.max I64_MIN (Z.min I64_MAX (if (0 <=? e)%Z then m * 2 ^ e else Z.quot m (2 ^ (- e)))).

(** ** Reading a decimal *)

Definition digit_of (c : N) : option N := if (48 <=? c)%N && (c <=? 57)%N then Some (c - 48)%N else None.

(** The digits at the start of a text: their value, their number and the rest. *)
Fixpoint read_digits (l : Text) (value : N) (n : nat) : N * nat * Text :=
  match l with
  | c :: l' => match digit_of c with Some d => read_digits l' (value * 10 + d) (S n) | None => (value, n, l) end
  | [] => (value, n, [])
  end.

Definition read_sign (l : Text) : bool * Text :=
  match l with
  | c :: l' => if (c =? 45)%N then (true, l') else if (c =? 43)%N then (false, l') else (false, l)
  | [] => (false, [])
  end.

(** The exponent, when the rest of a number is one. *)
Definition read_exponent (l : Text) : option Z :=
  match l with
  | [] => Some 0%Z
  | c :: l' =>
      if (c =? 101)%N || (c =? 69)%N then
        let '(negative, l') := read_sign l' in
        match read_digits l' 0 0 with
        | (value, S _, []) => Some (if negative then - Z.of_N value else Z.of_N value)%Z
        | _ => None
        end
      else None
  end.

(** [str::parse::<f64>] *)
Definition parse_f64 (l : Text) : option F64 :=
  let '(negative, body) := read_sign l in
  let lower := map char_lowercase body in
  if bool_decide (lower = chars "inf") || bool_decide (lower = chars "infinity") then Some (S754_infinity negative)
  else if bool_decide (lower = chars "nan") then Some S754_nan
  else
    let '(whole, n, rest) := read_digits body 0 0 in
    let '(value, decimals, rest) :=
      match rest with
      | c :: rest' => if (c =? 46)%N then let '(value, k, rest) := read_digits rest' whole 0 in (value, Some k, rest)
                      else (whole, None, rest)
      | [] => (whole, None, rest)
      end in
    if (n + default 0 decimals =? 0) then None
    else option_map (λ e, of_decimal negative value (e - Z.of_nat (default 0%nat decimals))%Z) (read_exponent rest).

(** ** Writing six decimals *)

(** [n / d] rounded to the nearest integer, ties to even. *)
Definition round_even (n d : N) : N :=
  let q := (n / d)%N in
  let r := (n mod d)%N in
  match (2 * r ?= d)%N with
  | Lt => q
  | Gt => (q + 1)%N
  | Eq => if N.even q then q else (q + 1)%N
  end.

(** The number in units of 10^-6. *)
Definition micros (x : F64) : N :=
  let '(m, e) := parts x in
  if (0 <=? e)%Z then Z.abs_N m * 2 ^ Z.to_N e * 1000000 else round_even (Z.abs_N m * 1000000) (2 ^ Z.to_N (- e)).

Definition is_negative (x : F64) : bool :=
  match x with S754_zero s | S754_infinity s | S754_finite s _ _ => s | S754_nan => false end.

Definition decimal (n : N) : Text := chars (pretty n).

(** Six digits of a fraction. *)
Fixpoint digits (k : nat) (n : N) : Text :=
  match k with O => [] | S k' => digits k' (n / 10) ++ [48 + n mod 10]%N end.

(** [format!("{x:.6}")] of a finite number *)
Definition format_6 (x : F64) : Text :=
  let n := micros x in
  (if is_negative x then [45%N] else []) ++ decimal (n / 1000000) ++ [46%N] ++ digits 6 (n mod 1000000).

(** [format!("{}", n)] of an [i64] or [i32] *)
Definition format_int (z : Z) : Text :=
  (if (z <? 0)%Z then [45%N] else []) ++ decimal (Z.abs_N z).

(** A few values. *)
Example parses_a_tenth : parse_f64 (chars "0.1") = Some (S754_finite false 7205759403792794 (-56)).
Proof. vm_compute. reflexivity. Qed.

Example reads_back : option_map format_6 (parse_f64 (chars "-1.50e0")) = Some (chars "-1.500000").
Proof. vm_compute. reflexivity. Qed.
