(* ===== verification/ProfileDocument.v ===== *)
(** * The profile document

    [control-center/src-tauri/src/profile/document.rs] and the data of
    [profile.rs]: a profile is parsed into nodes, one per line, that keep the line as it
    was written; settings, lists and the structured values are read from the nodes.
    The table of settings is generated, so it is the interface [SettingTable]. *)

From S2P Require Export Float64.

(** ** Data *)

Inductive IniNode :=
| Blank (raw : Text)
| Comment (raw : Text)
| SectionNode (name raw : Text)
| KeyValue (section key value prefix separator suffix raw : Text)
| Unknown (section raw : Text).

#[export] Instance IniNode_eq_dec : EqDecision IniNode.
Proof. solve_decision. Defined.

Definition node_raw (n : IniNode) : Text :=
  match n with
  | Blank raw | Comment raw | SectionNode _ raw | KeyValue _ _ _ _ _ _ raw | Unknown _ raw => raw
  end.

Record ProfileRevision := { revision_nodes : list IniNode; revision_dirty : gset string }.

#[export] Instance ProfileRevision_eq_dec : EqDecision ProfileRevision.
Proof. solve_decision. Defined.

Record ProfileDocument := {
  path : Path;
  encoding : TextEncoding;
  bom : BomKind;
  line_ending : LineEnding;
  nodes : list IniNode;
  original_hash : list ascii;
  legacy_lines : option (list (Text * list ascii));
  saved_values : gmap string F64;
  dirty_keys : gset string;
  undo_history : list ProfileRevision;
  redo_history : list ProfileRevision
}.

Record IndividualSetting := { font_face : Text; values : list (option Z) }.

Record ShadowSetting := {
  offset_x : Z;
  offset_y : Z;
  dark_alpha : Z;
  dark_color : Z;
  light_alpha : Z;
  light_color : Z
}.

Record AdvancedProfile := {
  shadow : option ShadowSetting;
  lcd_filter_weight : option (list Z);
  pixel_layout : option (list Z);
  font_substitutes : list Text
}.

Inductive SettingValueType := SettingInteger | SettingFloat.

(** What a document uses of a setting; [previewable] and [ordinal] serve the interface. *)
Record SettingDefinition := {
  id : string;
  setting_section : string;
  setting_key : string;
  value_type : SettingValueType;
  setting_min : F64;
  setting_max : F64;
  setting_default : F64;
  setting_factory : F64
}.

(** The generated table. *)
Class SettingTable := { SETTINGS : list SettingDefinition }.

(** ** Parsing *)

Definition is_line_break (c : N) : bool := (c =? CR)%N || (c =? NL)%N.

Fixpoint drop_breaks (l : Text) : Text :=
  match l with c :: l' => if is_line_break c then drop_breaks l' else l | [] => [] end.

(** [line.trim_end_matches(['\r', '\n'])] *)
Definition line_body (line : Text) : Text := rev (drop_breaks (rev line)).

Definition without_ends (l : Text) : Text := rev (tail (rev (tail l))).

Definition text_eq_ignore_case (a b : Text) : bool := bool_decide (map char_lowercase a = map char_lowercase b).

(** The whitespace a text begins with. *)
Fixpoint leading_space (l : Text) : Text :=
  match l with c :: l' => if is_whitespace c then c :: leading_space l' else [] | [] => [] end.

Definition trailing_space (l : Text) : Text := rev (leading_space (rev l)).

Definition is_comment (trimmed : Text) : bool := text_starts_with 59 trimmed || text_starts_with 35 trimmed.
Definition is_header (trimmed : Text) : bool := text_starts_with 91 trimmed && text_ends_with 93 trimmed.

(** One line, in the section that was opened last. *)
Definition parse_line (section : Text) (line : Text) : IniNode :=
  let body := line_body line in
  let trimmed := trim body in
  match trimmed with
  | [] => Blank line
  | _ =>
      if is_comment trimmed then Comment line
      else if is_header trimmed then SectionNode (trim (without_ends trimmed)) line
      else
        match position (N.eqb 61) body with
        | None => Unknown section line
        | Some separator =>
            let prefix := take separator body in
            match trim prefix with
            | [] => Unknown section line
            | key =>
                let after_separator := drop (S separator) body in
                let value_with_suffix := trim_text_start after_separator in
                KeyValue section key (trim_text_end value_with_suffix) prefix
                  (61%N :: leading_space after_separator)
                  (trailing_space value_with_suffix ++ drop (length body) line) line
            end
        end
  end.

Fixpoint parse_lines (section : Text) (lines : list Text) : list IniNode :=
  match lines with
  | [] => []
  | line :: lines' =>
      let node := parse_line section line in
      node :: parse_lines (match node with SectionNode name _ => name | _ => section end) lines'
  end.

Definition parse_nodes (text : Text) : list IniNode := parse_lines [] (split_lines text).

Definition text_of (l : list IniNode) : Text := concat (map node_raw l).

Definition validate_entry (value : Text) (label : string) : result unit string :=
  if bool_decide (trim value = []) || existsb is_line_break value
     || text_starts_with 91 value || text_starts_with 59 value || text_starts_with 35 value
  then Err (label ++ " is empty or contains an unsupported character")%string
  else Ok tt.

(** ** Reading values *)

(** The sections a name stands for: the older [FreeType] is read before [General]. *)
Definition target_sections (section_name : Text) : list Text :=
  if text_eq_ignore_case section_name (chars "General") then [chars "FreeType"; chars "General"] else [section_name].

Definition is_value_of (section_name key_name : Text) (n : IniNode) : bool :=
  match n with
  | KeyValue section key _ _ _ _ _ => text_eq_ignore_case section section_name && text_eq_ignore_case key key_name
  | _ => false
  end.

Definition node_value (n : IniNode) : Text := match n with KeyValue _ _ value _ _ _ _ => value | _ => [] end.

(** The last value of a key in one section. *)
Definition value_in (l : list IniNode) (section_name key_name : Text) : option Text :=
  node_value <$> last (List.filter (is_value_of section_name key_name) l).

Fixpoint find_value (l : list IniNode) (sections : list Text) (key_name : Text) : option Text :=
  match sections with
  | [] => None
  | target :: sections' =>
      match value_in l target key_name with
      | Some value => Some value
      | None => find_value l sections' key_name
      end
  end.

Definition raw_value_of (l : list IniNode) (section_name key_name : Text) : option Text :=
  find_value l (target_sections section_name) key_name.

Definition raw_value (document : ProfileDocument) (section_name key_name : Text) : option Text :=
  raw_value_of (nodes document) section_name key_name.

(** [char::to_digit] for the radices 10 and 16 *)
Definition to_digit (radix c : N) : option N :=
  let d := if in_range 48 57 c then Some (c - 48)%N
           else if in_range 97 122 c then Some (c - 87)%N
           else if in_range 65 90 c then Some (c - 55)%N else None in
  match d with Some d => if (d <? radix)%N then Some d else None | None => None end.

Fixpoint parse_digits (radix : N) (l : Text) (value : N) : option N :=
  match l with
  | [] => Some value
  | c :: l' => match to_digit radix c with Some d => parse_digits radix l' (value * radix + d)%N | None => None end
  end.

(** [str::parse] of an integer type: a sign is allowed, a minus only where the type is signed. *)
Definition parse_integer (radix : N) (lowest highest : Z) (l : Text) : option Z :=
  let '(negative, body) := match l with
                           | c :: l' => if (c =? 43)%N then (false, l')
                                        else if (c =? 45)%N && (lowest <? 0)%Z then (true, l') else (false, l)
                           | [] => (false, [])
                           end in
  match body with
  | [] => None
  | _ =>
      match parse_digits radix body 0 with
      | Some n =>
          let z := if negative then (- Z.of_N n)%Z else Z.of_N n in
          if (lowest <=? z)%Z && (z <=? highest)%Z then Some z else None
      | None => None
      end
  end.

Definition I32_MIN : Z := - 2 ^ 31.
Definition I32_MAX : Z := 2 ^ 31 - 1.

Definition parse_i32 (l : Text) : option Z := parse_integer 10 I32_MIN I32_MAX l.
Definition parse_hex_u32 (l : Text) : option Z := parse_integer 16 0 (2 ^ 32 - 1) l.

Definition is_vector_separator (c : N) : bool := (c =? 44)%N || is_whitespace c.

Definition vector_parts (raw : Text) : list Text :=
  List.filter (λ part, negb (bool_decide (part = []))) (split_on is_vector_separator raw).

(** [collect::<Option<Vec<_>>>()] *)
Fixpoint collect_options {A : Type} (l : list (option A)) : option (list A) :=
  match l with
  | [] => Some []
  | Some a :: l' => cons a <$> collect_options l'
  | None :: _ => None
  end.

Definition parse_vector (l : list IniNode) (section key : Text) (len : nat) : option (list Z) :=
  match raw_value_of l section key with
  | None => None
  | Some raw =>
      match collect_options (map (λ part, parse_i32 (trim part)) (vector_parts raw)) with
      | Some values => if length values =? len then Some values else None
      | None => None
      end
  end.

(** [trim_start_matches("0x")] *)
Fixpoint trim_0x (fuel : nat) (l : Text) : Text :=
  match fuel, l with
  | S fuel', a :: b :: l' => if (a =? 48)%N && (b =? 120)%N then trim_0x fuel' l' else l
  | _, _ => l
  end.

Definition parse_color (part : option Text) : Z :=
  default 0%Z (match part with Some value => parse_hex_u32 (trim_0x (length value) value) | None => None end).

Definition read_shadow (l : list IniNode) : option ShadowSetting :=
  match raw_value_of l (chars "General") (chars "Shadow") with
  | None => None
  | Some raw =>
      let parts := vector_parts raw in
      match parts with
      | x :: y :: alpha :: _ =>
          match parse_i32 alpha, parse_i32 x, parse_i32 y with
          | Some alpha, Some x, Some y =>
              Some {| offset_x := x; offset_y := y; dark_alpha := alpha; dark_color := parse_color (parts !! 3);
                      light_alpha := default alpha (match parts !! 4 with Some value => parse_i32 value | None => None end);
                      light_color := parse_color (parts !! 5) |}
          | _, _, _ => None
          end
      | _ => None
      end
  end.

Definition list_entry (target : Text) (n : IniNode) : option Text :=
  match n with
  | Unknown section raw =>
      if text_eq_ignore_case section target then
        let value := trim raw in if bool_decide (value = []) then None else Some value
      else None
  | KeyValue section key value _ _ _ _ =>
      if text_eq_ignore_case section target then Some (key ++ [61%N] ++ value) else None
  | _ => None
  end.

Definition list_entries (l : list IniNode) (target : Text) : list Text := omap (list_entry target) l.

Definition advanced (l : list IniNode) : AdvancedProfile :=
  {| shadow := read_shadow l;
     lcd_filter_weight := parse_vector l (chars "General") (chars "LcdFilterWeight") 5;
     pixel_layout := parse_vector l (chars "General") (chars "PixelLayout") 6;
     font_substitutes := list_entries l (chars "FontSubstitutes") |}.

Definition individual_value (part : Text) : option Z :=
  let trimmed := trim part in if bool_decide (trimmed = []) then None else parse_i32 trimmed.

Definition individual_values (value : Text) : list (option Z) :=
  take 6 (map individual_value (take 6 (split_on (N.eqb 44) value)) ++ repeat None 6).

Definition individual_of (n : IniNode) : option IndividualSetting :=
  match n with
  | KeyValue section key value _ _ _ _ =>
      if text_eq_ignore_case section (chars "Individual")
      then Some {| font_face := key; values := individual_values value |} else None
  | _ => None
  end.

Definition individuals (l : list IniNode) : list IndividualSetting := omap individual_of l.

Definition ending (document : ProfileDocument) : Text :=
  match line_ending document with CrLf => [CR; NL] | Lf => [NL] | Cr => [CR] end.

(** ** Opening *)

Section Opening.
Context `{LegacyCodecs} `{SettingTable} `{Sha256}.

Definition setting_value (l : list IniNode) (setting : SettingDefinition) : F64 :=
  default (setting_default setting)
    (match raw_value_of l (chars (setting_section setting)) (chars (setting_key setting)) with
     | Some value => parse_f64 value
     | None => None
     end).

(** [setting_values]: one entry per setting, of equal ids the later. *)
Definition setting_values (l : list IniNode) : gmap string F64 :=
  fold_left (λ m setting, <[id setting := setting_value l setting]> m) SETTINGS ∅.

Definition from_bytes (p : Path) (bytes : list ascii) : result ProfileDocument string :=
  match decode bytes with
  | Err e => Err e
  | Ok (text, enc, mark) =>
      let parsed := parse_nodes text in
      Ok {| path := p; encoding := enc; bom := mark; line_ending := detect_line_ending text; nodes := parsed;
            original_hash := sha256 bytes; legacy_lines := original_legacy_lines bytes text enc;
            saved_values := setting_values parsed; dirty_keys := ∅; undo_history := []; redo_history := [] |}
  end.

Definition encoded (document : ProfileDocument) : result (list ascii) string :=
  let-? bytes :=
    match legacy_lines document with
    | Some original => encode_preserving_legacy_lines (map node_raw (nodes document)) original (encoding document)
    | None => encode (text_of (nodes document)) (encoding document) (bom document)
    end in
  if (MAX_PROFILE_BYTES <? bytes_len bytes)%N then Err "profile exceeds its 4194304-byte limit" else Ok bytes.
End Opening.
