(* ===== verification/ProfileEditing.v ===== *)
(** * Editing a profile

    [control-center/src-tauri/src/profile/mutation.rs] and
    [mutation/validated_input.rs]: settings, lists and per-font values are validated,
    rendered and written into the nodes of a document, each edit is recorded, and
    edits are undone and redone.  An operation that changes the document in place takes it
    and returns it, also when it fails. *)

From S2P Require Export ProfileDocument.

(** [str::to_lowercase], by the tables of Unicode. *)
Class Lowercase := {
  to_lowercase : Text → Text;
  to_lowercase_ascii l : Forall (λ c, (c < 128)%N) l → to_lowercase l = map char_lowercase l
}.

(** A text in an error message. *)
Definition shown (l : Text) : string := bytes_str (utf8 l).

(** ** Changing the record *)

Definition set_nodes_of (l : list IniNode) (d : ProfileDocument) : ProfileDocument :=
  {| path := path d; encoding := encoding d; bom := bom d; line_ending := line_ending d; nodes := l;
     original_hash := original_hash d; legacy_lines := legacy_lines d; saved_values := saved_values d;
     dirty_keys := dirty_keys d; undo_history := undo_history d; redo_history := redo_history d |}.

Definition mark_dirty (key : string) (d : ProfileDocument) : ProfileDocument :=
  {| path := path d; encoding := encoding d; bom := bom d; line_ending := line_ending d; nodes := nodes d;
     original_hash := original_hash d; legacy_lines := legacy_lines d; saved_values := saved_values d;
     dirty_keys := {[key]} ∪ dirty_keys d; undo_history := undo_history d; redo_history := redo_history d |}.

Definition set_histories (undo redo : list ProfileRevision) (d : ProfileDocument) : ProfileDocument :=
  {| path := path d; encoding := encoding d; bom := bom d; line_ending := line_ending d; nodes := nodes d;
     original_hash := original_hash d; legacy_lines := legacy_lines d; saved_values := saved_values d;
     dirty_keys := dirty_keys d; undo_history := undo; redo_history := redo |}.

(** ** Revisions *)

Definition revision (d : ProfileDocument) : ProfileRevision :=
  {| revision_nodes := nodes d; revision_dirty := dirty_keys d |}.

Definition restore_revision (r : ProfileRevision) (d : ProfileDocument) : ProfileDocument :=
  {| path := path d; encoding := encoding d; bom := bom d; line_ending := line_ending d; nodes := revision_nodes r;
     original_hash := original_hash d; legacy_lines := legacy_lines d; saved_values := saved_values d;
     dirty_keys := revision_dirty r; undo_history := undo_history d; redo_history := redo_history d |}.

Definition HISTORY_LIMIT : nat := 100.

Definition Edit : Type := ProfileDocument → ProfileDocument * result unit string.

Definition record_edit (edit : Edit) (d : ProfileDocument) : ProfileDocument * result unit string :=
  let previous := revision d in
  match edit d with
  | (d, Err e) => (d, Err e)
  | (d, Ok _) =>
      if bool_decide (revision d = previous) then (d, Ok tt)
      else
        let history := if length (undo_history d) =? HISTORY_LIMIT then tail (undo_history d) else undo_history d in
        (set_histories (history ++ [previous]) [] d, Ok tt)
  end.

Definition undo (d : ProfileDocument) : ProfileDocument * bool :=
  match last (undo_history d) with
  | None => (d, false)
  | Some previous =>
      (restore_revision previous (set_histories (removelast (undo_history d)) (redo_history d ++ [revision d]) d), true)
  end.

Definition redo (d : ProfileDocument) : ProfileDocument * bool :=
  match last (redo_history d) with
  | None => (d, false)
  | Some next =>
      (restore_revision next (set_histories (undo_history d ++ [revision d]) (removelast (redo_history d)) d), true)
  end.

(** ** One value *)

(** The node with a new value, its line rewritten around it. *)
Definition with_value (rendered : Text) (n : IniNode) : IniNode :=
  match n with
  | KeyValue section key _ prefix separator suffix _ =>
      KeyValue section key rendered prefix separator suffix (prefix ++ separator ++ rendered ++ suffix)
  | _ => n
  end.

Definition is_section_named (target : Text) (n : IniNode) : bool :=
  match n with SectionNode name _ => text_eq_ignore_case name target | _ => false end.

(** A node after which a value of the section can stand. *)
Definition in_section (target : Text) (n : IniNode) : bool :=
  match n with
  | SectionNode name _ => text_eq_ignore_case name target
  | KeyValue section _ _ _ _ _ _ | Unknown section _ => text_eq_ignore_case section target
  | _ => false
  end.

Definition section_node (target e : Text) : IniNode := SectionNode target ([91%N] ++ target ++ [93%N] ++ e).

Definition value_node (target key rendered e : Text) : IniNode :=
  KeyValue target key rendered key [61%N] e (key ++ [61%N] ++ rendered ++ e).

Definition insert_node (i : nat) (n : IniNode) (l : list IniNode) : list IniNode := take i l ++ n :: drop i l.

(** The section that holds the key already, or the one that was named. *)
Definition target_section (l : list IniNode) (section_name key_name : Text) : Text :=
  default section_name (List.find (λ target, existsb (is_value_of target key_name) l) (target_sections section_name)).

(** A new line for the key, behind the last node of its section. *)
Definition insert_value (e target key_name rendered : Text) (l : list IniNode) : list IniNode :=
  let l := if existsb (is_section_named target) l then l else l ++ [section_node target e] in
  let insert_at := match rposition (in_section target) l with Some i => S i | None => length l end in
  insert_node insert_at (value_node target key_name rendered e) l.

Definition set_nodes_value (e section_name key_name : Text) (value : option Text) (l : list IniNode) : list IniNode :=
  match value with
  | None => List.filter (λ n, negb (existsb (λ target, is_value_of target key_name n) (target_sections section_name))) l
  | Some rendered =>
      let target := target_section l section_name key_name in
      match rposition (is_value_of target key_name) l with
      | Some i => alter (with_value rendered) i l
      | None => insert_value e target key_name rendered l
      end
  end.

Definition set_raw_value (section_name key_name : Text) (value : option Text) (dirty_key : string)
    (d : ProfileDocument) : ProfileDocument :=
  mark_dirty dirty_key (set_nodes_of (set_nodes_value (ending d) section_name key_name value (nodes d)) d).

(** ** Whole sections *)

Definition is_section (n : IniNode) : bool := match n with SectionNode _ _ => true | _ => false end.

(** [section_range]: the nodes, with the section if it was missing, and the range of
    what follows its first header. *)
Definition section_range (e section : Text) (l : list IniNode) : list IniNode * nat * nat :=
  let '(l, start) := match position (is_section_named section) l with
                     | Some start => (l, start)
                     | None => (l ++ [section_node section e], length l)
                     end in
  let range_end := match position is_section (drop (S start) l) with
                   | Some offset => S start + offset
                   | None => length l
                   end in
  (l, S start, range_end).

(** The nodes of the range that stay are followed by the new ones. *)
Definition replace_range (e section : Text) (keep : IniNode → bool) (added l : list IniNode) : list IniNode :=
  let '(l, start, range_end) := section_range e section l in
  take start l ++ (List.filter keep (drop start (take range_end l)) ++ added) ++ drop range_end l.

Definition of_other_section (section : Text) (n : IniNode) : bool :=
  match n with
  | Unknown item _ | KeyValue item _ _ _ _ _ _ => negb (text_eq_ignore_case item section)
  | _ => true
  end.

Definition replace_list_section (section : string) (normalized : list Text) (d : ProfileDocument) : ProfileDocument :=
  let target := chars section in
  mark_dirty ("section:" ++ section) (set_nodes_of
    (replace_range (ending d) target (of_other_section target)
       (map (λ entry, Unknown target (entry ++ ending d)) normalized) (nodes d)) d).

(** ** Input *)

Section Input.
Context `{Lowercase} `{SettingTable}.

Fixpoint normalize_entries (entries : list Text) (seen : list Text) : result (list Text) string :=
  match entries with
  | [] => Ok []
  | entry :: entries' =>
      let entry := trim entry in
      let-? _ := validate_entry entry "list entry" in
      if bool_decide (to_lowercase entry ∈ seen) then normalize_entries entries' seen
      else
        let-? rest := normalize_entries entries' (to_lowercase entry :: seen) in
        Ok (entry :: rest)
  end.

Definition normalize_list_entries (entries : list Text) : result (list Text) string := normalize_entries entries [].

Definition individual_bounds : list (Z * Z) := [(0, 2); (-1, 6); (-64, 64); (-32, 32); (-32, 32); (0, 1)]%Z.

(** A number in an error message. *)
Definition shown_int (z : Z) : string := shown (format_int z).

(** The values of a font, each between its bounds if it is there. *)
Fixpoint check_values (face : Text) (index : nat) (vs : list (option Z)) (bounds : list (Z * Z)) : result unit string :=
  match vs, bounds with
  | value :: vs', (minimum, maximum) :: bounds' =>
      match value with
      | Some v =>
          if (v <? minimum)%Z || (maximum <? v)%Z
          then Err (shown face ++ " value " ++ shown_int (Z.of_nat (S index)) ++ " must be between " ++ shown_int minimum
                    ++ " and " ++ shown_int maximum)%string
          else check_values face (S index) vs' bounds'
      | None => check_values face (S index) vs' bounds'
      end
  | _, _ => Ok tt
  end.

Fixpoint check_individuals (entries : list IndividualSetting) (seen : list Text) : result unit string :=
  match entries with
  | [] => Ok tt
  | entry :: entries' =>
      let-? _ := validate_entry (font_face entry) "font face" in
      if existsb (N.eqb 61) (font_face entry) then Err "font face cannot contain '='"
      else if bool_decide (to_lowercase (font_face entry) ∈ seen)
      then Err ("duplicate font face: " ++ shown (font_face entry))%string
      else if negb (length (values entry) =? 6) then Err "individual font settings require exactly six values"
      else
        let-? _ := check_values (font_face entry) 0 (values entry) individual_bounds in
        check_individuals entries' (to_lowercase (font_face entry) :: seen)
  end.

Definition validate_individuals (entries : list IndividualSetting) : result unit string := check_individuals entries [].

Definition schema (setting_id : string) : result SettingDefinition string :=
  ok_or (List.find (λ item, bool_decide (id item = setting_id)) SETTINGS) ("unknown setting id: " ++ setting_id)%string.

Fixpoint drop_zeros (l : Text) : Text := match l with c :: l' => if (c =? 48)%N then drop_zeros l' else l | [] => [] end.

Definition render_float (x : F64) : Text :=
  let result := rev (drop_zeros (rev (format_6 x))) in
  if text_ends_with 46 result then result ++ [48%N] else result.

(** In the message for a value out of its bounds the bounds are left out, which [format!]
    writes with the fewest digits that tell an [f64] from others. *)
Definition render_setting_value (setting_id : string) (value : F64) : result (SettingDefinition * Text) string :=
  let-? setting := schema setting_id in
  if negb (is_finite value) || f64_lt value (setting_min setting) || f64_lt (setting_max setting) value
  then Err (setting_id ++ " is out of its bounds")%string
  else
    match value_type setting with
    | SettingInteger =>
        if has_fraction value then Err (setting_id ++ " requires an integer")%string
        else Ok (setting, format_int (as_i64 value))
    | SettingFloat => Ok (setting, render_float value)
    end.

Definition joined_with (separator : Text) (parts : list Text) : Text :=
  match parts with [] => [] | part :: parts' => part ++ concat (map (app separator) parts') end.

Definition render_vector (values : list Z) (len : nat) (minimum maximum : Z) (name : string) : result Text string :=
  if negb (length values =? len) || existsb (λ v, (v <? minimum)%Z || (maximum <? v)%Z) values
  then Err (name ++ " requires " ++ shown_int (Z.of_nat len) ++ " values between " ++ shown_int minimum ++ " and " ++ shown_int maximum)%string
  else Ok (joined_with [44%N] (map format_int values)).

(** [format!("{:06X}", n)] *)
Definition hex_upper (d : N) : N := if (d <? 10)%N then (48 + d)%N else (55 + d)%N.

Fixpoint hex_digits (k : nat) (n : N) : Text :=
  match k with O => [] | S k' => hex_digits k' (n / 16) ++ [hex_upper (n mod 16)] end.

Definition alpha_fits (z : Z) : bool := (0 <=? z)%Z && (z <=? 255)%Z.

Definition render_shadow (v : ShadowSetting) : result Text string :=
  if negb (alpha_fits (dark_alpha v)) || negb (alpha_fits (light_alpha v))
     || (0xFFFFFF <? dark_color v)%Z || (0xFFFFFF <? light_color v)%Z
  then Err "shadow alpha or color is outside its supported range"
  else Ok (joined_with [44%N] [format_int (offset_x v); format_int (offset_y v); format_int (dark_alpha v);
                               hex_digits 6 (Z.to_N (dark_color v)); format_int (light_alpha v);
                               hex_digits 6 (Z.to_N (light_color v))]).

Fixpoint validate_font_substitutions (entries : list Text) : result unit string :=
  match entries with
  | [] => Ok tt
  | mapping :: entries' =>
      match position (N.eqb 61) mapping with
      | None => Err "font substitutions must use Source font=Replacement font"
      | Some i =>
          if bool_decide (trim (take i mapping) = []) || bool_decide (trim (drop (S i) mapping) = [])
          then Err "font substitutions require both source and replacement fonts"
          else validate_font_substitutions entries'
      end
  end.

Record RenderedAdvancedProfile := {
  rendered_shadow : option Text;
  rendered_filter : option Text;
  rendered_layout : option Text;
  rendered_substitutes : list Text
}.

(** [option.map(f).transpose()] *)
Definition transpose {A B : Type} (f : A → result B string) (o : option A) : result (option B) string :=
  match o with Some a => let-? b := f a in Ok (Some b) | None => Ok None end.

Definition render_advanced_profile (p : AdvancedProfile) : result RenderedAdvancedProfile string :=
  let-? rs := transpose render_shadow (shadow p) in
  let-? rf := transpose (λ v, render_vector v 5 0 255 "LCD filter weight") (lcd_filter_weight p) in
  let-? rl := transpose (λ v, render_vector v 6 (-128) 127 "pixel layout") (pixel_layout p) in
  let-? rb := normalize_list_entries (font_substitutes p) in
  let-? _ := validate_font_substitutions rb in
  Ok {| rendered_shadow := rs; rendered_filter := rf; rendered_layout := rl; rendered_substitutes := rb |}.

(** ** The edits *)

Definition set_value (setting_id : string) (value : F64) : Edit := λ d,
  match render_setting_value setting_id value with
  | Err e => (d, Err e)
  | Ok (setting, rendered) =>
      (set_raw_value (chars (setting_section setting)) (chars (setting_key setting)) (Some rendered) setting_id d, Ok tt)
  end.

Definition individual_node (e : Text) (entry : IndividualSetting) : IniNode :=
  value_node (chars "Individual") (font_face entry)
    (joined_with [44%N] (map (λ v, match v with Some z => format_int z | None => [] end) (values entry))) e.

Definition not_individual (n : IniNode) : bool :=
  match n with KeyValue section _ _ _ _ _ _ => negb (text_eq_ignore_case section (chars "Individual")) | _ => true end.

Definition set_individuals (entries : list IndividualSetting) : Edit := λ d,
  match validate_individuals entries with
  | Err e => (d, Err e)
  | Ok _ =>
      (mark_dirty "section:Individual" (set_nodes_of
         (replace_range (ending d) (chars "Individual") not_individual (map (individual_node (ending d)) entries) (nodes d)) d),
       Ok tt)
  end.

Definition list_section (kind : string) : option string :=
  if String.eqb kind "excludeFonts" then Some "Exclude"%string
  else if String.eqb kind "includeFonts" then Some "Include"%string
  else if String.eqb kind "excludeModules" then Some "ExcludeModule"%string
  else if String.eqb kind "includeModules" then Some "IncludeModule"%string
  else if String.eqb kind "unloadDlls" then Some "UnloadDLL"%string
  else if String.eqb kind "excludeSubstitutionModules" then Some "ExcludeSub"%string
  else if String.eqb kind "fontSubstitutes" then Some "FontSubstitutes"%string
  else None.

Definition set_list (kind : string) (entries : list Text) : Edit := λ d,
  match list_section kind with
  | None => (d, Err ("unknown profile list: " ++ kind)%string)
  | Some section =>
      match normalize_list_entries entries with
      | Err e => (d, Err e)
      | Ok normalized => (replace_list_section section normalized d, Ok tt)
      end
  end.

Definition set_advanced (p : AdvancedProfile) : Edit := λ d,
  match render_advanced_profile p with
  | Err e => (d, Err e)
  | Ok r =>
      let d := set_raw_value (chars "General") (chars "Shadow") (rendered_shadow r) "advanced:shadow" d in
      let d := set_raw_value (chars "General") (chars "LcdFilterWeight") (rendered_filter r) "advanced:lcdFilterWeight" d in
      let d := set_raw_value (chars "General") (chars "PixelLayout") (rendered_layout r) "advanced:pixelLayout" d in
      (replace_list_section "FontSubstitutes" (rendered_substitutes r) d, Ok tt)
  end.

Fixpoint reset_settings (settings : list SettingDefinition) : Edit := λ d,
  match settings with
  | [] => (d, Ok tt)
  | setting :: settings' =>
      match render_setting_value (id setting) (setting_factory setting) with
      | Err e => (d, Err e)
      | Ok (schema, rendered) =>
          let section := chars (setting_section schema) in
          let key := chars (setting_key schema) in
          let unchanged := match raw_value d section key with
                           | Some value => bool_decide (value = rendered)
                           | None => f64_eq (setting_factory setting) (setting_default setting)
                           end in
          reset_settings settings'
            (if unchanged then d else set_raw_value section key (Some rendered) (id setting) d)
      end
  end.

Definition update_value (setting_id : string) (value : F64) : Edit := record_edit (set_value setting_id value).
Definition update_individuals (entries : list IndividualSetting) : Edit := record_edit (set_individuals entries).
Definition update_list (kind : string) (entries : list Text) : Edit := record_edit (set_list kind entries).
Definition update_advanced (p : AdvancedProfile) : Edit := record_edit (set_advanced p).
Definition reset_settings_to_defaults : Edit := record_edit (reset_settings SETTINGS).
End Input.
