(* ===== verification/ProfileEditingFacts.v ===== *)
(** * What editing a profile keeps and changes

    The theorems about [ProfileDocument] and [ProfileEditing]: an unedited profile is
    written as the bytes it was read from, an edit changes what it names and nothing else,
    undoing and redoing move along one line of revisions, and what is edited survives
    saving, unless the last line of the profile has no line break. *)

From S2P Require Export ProfileEditing.

(** ** Parsing is lossless *)

Lemma parse_line_raw section line : node_raw (parse_line section line) = line.
Proof.
  unfold parse_line. destruct (trim (line_body line)); [done|]. destruct (is_comment _); [done|].
  destruct (is_header _); [done|]. destruct (position _ _); [|done]. cbv zeta. by destruct (trim _).
Qed.

Lemma parse_lines_raw section lines : map node_raw (parse_lines section lines) = lines.
Proof.
  revert section. induction lines as [|line lines IH]; intros section; [done|]. cbn [parse_lines map].
  by rewrite parse_line_raw, IH.
Qed.

Lemma parse_nodes_text text : text_of (parse_nodes text) = text.
Proof. unfold text_of, parse_nodes. by rewrite parse_lines_raw, split_lines_concat. Qed.

(** A profile that is not edited is written as it was read, byte for byte, in every
    encoding: with its byte order mark, its line breaks, its comments, its blanks and,
    in a legacy encoding, the bytes of each line. *)
Theorem unedited_profile_is_unchanged `{LegacyCodecs} `{SettingTable} `{Sha256} p bytes d :
  from_bytes p bytes = Ok d → (bytes_len bytes <= MAX_PROFILE_BYTES)%N → encoded d = Ok bytes.
Proof.
  unfold from_bytes. destruct (decode bytes) as [[[text enc] mark]|e] eqn:Ed; [|done]. cbv zeta.
  intros <-%(inj Ok) Hlen. apply decode_encode in Ed as [Henc _]. unfold encoded. cbn [legacy_lines nodes encoding bom].
  assert ((MAX_PROFILE_BYTES <? bytes_len bytes)%N = false) as Hfits by by apply N.ltb_ge.
  destruct (original_legacy_lines bytes text enc) as [original|] eqn:El.
  - unfold parse_nodes. rewrite parse_lines_raw. rewrite (legacy_lines_exact bytes text enc original El).
    cbn [result_bind]. by rewrite Hfits.
  - rewrite parse_nodes_text, Henc. cbn [result_bind]. by rewrite Hfits.
Qed.

(** ** Texts up to case *)

Definition lower (l : Text) : Text := map char_lowercase l.

Lemma ignore_case_spec a b : text_eq_ignore_case a b = true ↔ lower a = lower b.
Proof. apply bool_decide_eq_true. Qed.

Lemma ignore_case_lower a b c : lower b = lower c → text_eq_ignore_case a b = text_eq_ignore_case a c.
Proof. intros E. unfold text_eq_ignore_case, lower in *. by rewrite E. Qed.

Lemma ignore_case_refl a : text_eq_ignore_case a a = true.
Proof. by apply ignore_case_spec. Qed.

(** ** Reading what was set *)

Lemma existsb_rev {A : Type} (p : A → bool) (l : list A) : existsb p (rev l) = existsb p l.
Proof. induction l as [|a l IH]; [done|]. simpl. rewrite existsb_app, IH. simpl. by rewrite orb_false_r, orb_comm. Qed.

(** The first position splits a list. *)
Lemma position_some {A : Type} (p : A → bool) (l : list A) i :
  position p l = Some i → ∃ before x after, l = before ++ x :: after ∧ length before = i ∧ p x = true ∧
    existsb p before = false.
Proof.
  revert i. induction l as [|a l IH]; intros i; cbn [position]; [done|]. destruct (p a) eqn:Ea.
  - intros [= <-]. by exists [], a, l.
  - destruct (position p l) as [j|]; cbn [option_map]; [|done]. intros [= <-].
    destruct (IH j eq_refl) as (before & x & after & -> & <- & Hp & Hb). exists (a :: before), x, after.
    split_and!; [done..|]. simpl. by rewrite Ea.
Qed.

Lemma position_none {A : Type} (p : A → bool) (l : list A) : position p l = None ↔ existsb p l = false.
Proof.
  induction l as [|a l IH]; cbn [position existsb]; [done|]. destruct (p a); [done|].
  destruct (position p l); cbn [option_map orb]; rewrite <- IH; done.
Qed.

(** The last position splits a list. *)
Lemma rposition_some {A : Type} (p : A → bool) (l : list A) i :
  rposition p l = Some i → ∃ before x after, l = before ++ x :: after ∧ length before = i ∧ p x = true ∧
    existsb p after = false.
Proof.
  unfold rposition. destruct (position p (rev l)) as [k|] eqn:Ek; [|done]. cbn [option_map]. intros [= <-].
  apply position_some in Ek as (before & x & after & El & <- & Hp & Hb).
  apply (f_equal (@rev A)) in El. rewrite rev_involutive, rev_app_distr in El. cbn [rev] in El. rewrite <- app_assoc in El.
  exists (rev after), x, (rev before). rewrite existsb_rev. split_and!; [done| |done..].
  rewrite El, length_app. cbn [app length]. rewrite !length_rev. lia.
Qed.

Lemma rposition_none {A : Type} (p : A → bool) (l : list A) : rposition p l = None ↔ existsb p l = false.
Proof.
  unfold rposition. rewrite <- (existsb_rev p l), <- position_none. by destruct (position p (rev l)).
Qed.

(** *** The last value of a key *)

Lemma filter_none {A : Type} (p : A → bool) l : existsb p l = false → List.filter p l = [].
Proof. induction l as [|a l IH]; [done|]. simpl. destruct (p a); [done|]. by apply IH. Qed.

Lemma value_in_split before x after section key :
  is_value_of section key x = true → existsb (is_value_of section key) after = false →
  value_in (before ++ x :: after) section key = Some (node_value x).
Proof.
  intros Hx Ha. unfold value_in. rewrite List.filter_app. simpl. rewrite Hx, (filter_none _ after Ha).
  by rewrite last_snoc.
Qed.

Lemma value_in_none l section key : value_in l section key = None ↔ existsb (is_value_of section key) l = false.
Proof.
  unfold value_in. split.
  - intros E. destruct (existsb _ l) eqn:Ex; [|done]. apply existsb_exists in Ex as (x & Hin & Hx).
    assert (x ∈ List.filter (is_value_of section key) l) as Hf by (apply list_elem_of_In, filter_In; done).
    destruct (last (List.filter _ l)) eqn:El; [done|]. apply last_None in El. rewrite El in Hf. by apply not_elem_of_nil in Hf.
  - intros E. by rewrite (filter_none _ _ E).
Qed.

Lemma value_in_same l l' section key :
  List.filter (is_value_of section key) l = List.filter (is_value_of section key) l' →
  value_in l section key = value_in l' section key.
Proof. unfold value_in. by intros ->. Qed.

Lemma find_value_same l l' sections key :
  (∀ target, target ∈ sections → value_in l target key = value_in l' target key) →
  find_value l sections key = find_value l' sections key.
Proof.
  induction sections as [|target sections IH]; intros Hs; [done|]. cbn [find_value].
  rewrite (Hs target) by by left. destruct (value_in l' target key); [done|]. apply IH. intros t Ht. apply Hs. by right.
Qed.

Lemma is_value_with section key rendered x : is_value_of section key (with_value rendered x) = is_value_of section key x.
Proof. by destruct x. Qed.

(** *** What one edit does to the nodes *)

(** Every write of a value is one of these: the last line of the key is rewritten, or a
    line is added, behind its section, which may be added as well. *)
Inductive written (e target key rendered : Text) (l : list IniNode) : list IniNode → Prop :=
| written_in_place before x after :
    l = before ++ x :: after → is_value_of target key x = true → existsb (is_value_of target key) after = false →
    written e target key rendered l (before ++ with_value rendered x :: after)
| written_below before x after :
    l = before ++ x :: after → in_section target x = true → existsb (in_section target) after = false →
    existsb (is_value_of target key) l = false →
    written e target key rendered l (before ++ x :: value_node target key rendered e :: after)
| written_at_end :
    existsb (is_section_named target) l = false → existsb (is_value_of target key) l = false →
    written e target key rendered l (l ++ [section_node target e; value_node target key rendered e]).

Lemma insert_behind {A : Type} (before : list A) x y after :
  take (S (length before)) (before ++ x :: after) ++ y :: drop (S (length before)) (before ++ x :: after) =
  before ++ x :: y :: after.
Proof.
  rewrite (cons_middle x before after), app_assoc. rewrite take_app_length', drop_app_length' by (rewrite length_app; simpl; lia).
  by rewrite <- app_assoc.
Qed.

Lemma in_section_of_named target n : is_section_named target n = true → in_section target n = true.
Proof. by destruct n. Qed.

Lemma set_nodes_written e section key rendered l :
  written e (target_section l section key) key rendered l (set_nodes_value e section key (Some rendered) l).
Proof.
  unfold set_nodes_value. set (target := target_section l section key).
  destruct (rposition (is_value_of target key) l) as [i|] eqn:Er.
  - apply rposition_some in Er as (before & x & after & -> & <- & Hx & Ha).
    rewrite alter_app_r_alt by lia. rewrite Nat.sub_diag. cbn [alter list_alter]. by eapply written_in_place.
  - apply rposition_none in Er. unfold insert_value. destruct (existsb (is_section_named target) l) eqn:Es.
    + destruct (rposition (in_section target) l) as [i|] eqn:Ei.
      * apply rposition_some in Ei as (before & x & after & -> & <- & Hx & Ha). unfold insert_node.
        rewrite insert_behind. by eapply written_below.
      * exfalso. apply rposition_none in Ei. apply existsb_exists in Es as (x & Hin & Hx).
        apply in_section_of_named in Hx. assert (existsb (in_section target) l = true) by (apply existsb_exists; eauto). congruence.
    + set (l' := l ++ [section_node target e]).
      assert (rposition (in_section target) l' = Some (length l)) as ->.
      { unfold rposition, l'. rewrite rev_app_distr. cbn [rev app position section_node in_section].
        rewrite ignore_case_refl. cbn [option_map]. f_equal. rewrite length_app. simpl. lia. }
      unfold insert_node, l'. rewrite take_ge, drop_ge by (rewrite length_app; simpl; lia).
      rewrite <- app_assoc. by apply written_at_end.
Qed.

Definition same_key (section key section' key' : Text) : Prop := lower section = lower section' ∧ lower key = lower key'.

Lemma is_value_same section key section' key' n :
  lower section = lower section' → lower key = lower key' → is_value_of section key n = is_value_of section' key' n.
Proof. intros Es Ek. destruct n; try done. cbn. f_equal; by apply ignore_case_lower. Qed.

Lemma is_value_apart section key section' key' n :
  ¬ same_key section key section' key' → is_value_of section key n = true → is_value_of section' key' n = false.
Proof.
  intros Hne. destruct n; try done. cbn. intros [Hs Hk]%andb_true_iff. apply ignore_case_spec in Hs, Hk.
  apply not_true_iff_false. intros [Hs' Hk']%andb_true_iff. apply ignore_case_spec in Hs', Hk'. apply Hne. split; congruence.
Qed.

Lemma value_node_is target key v e : is_value_of target key (value_node target key v e) = true.
Proof. unfold value_node. cbn. by rewrite !ignore_case_refl. Qed.

Lemma written_value e target key v l l' : written e target key v l l' → value_in l' target key = Some v.
Proof.
  intros [before x after -> Hx Ha|before x after -> Hx Ha Hl|Hs Hl].
  - rewrite value_in_split; [|by rewrite is_value_with|done]. by destruct x.
  - rewrite existsb_app in Hl. cbn [existsb] in Hl. apply orb_false_iff in Hl as [_ [_ Hafter]%orb_false_iff].
    rewrite (cons_middle x), app_assoc. by rewrite value_in_split; [|apply value_node_is|].
  - rewrite (cons_middle (section_node target e)), app_assoc. by rewrite value_in_split; [|apply value_node_is|].
Qed.

Lemma filter_split {A : Type} (p : A → bool) before x after :
  List.filter p (before ++ x :: after) = List.filter p before ++ (if p x then [x] else []) ++ List.filter p after.
Proof. rewrite List.filter_app. simpl. by destruct (p x). Qed.

Lemma written_elsewhere e target key v l l' target' key' :
  written e target key v l l' → ¬ same_key target key target' key' → value_in l' target' key' = value_in l target' key'.
Proof.
  intros Hw Hne. assert (∀ x, is_value_of target key x = true → is_value_of target' key' x = false) as Hoff.
  { intros x. by apply is_value_apart. }
  apply value_in_same. destruct Hw as [before x after -> Hx Ha|before x after -> Hx Ha Hl|Hs Hl].
  - rewrite !filter_split, is_value_with. by rewrite (Hoff x Hx).
  - rewrite (cons_middle x before after), app_assoc, (cons_middle x before (_ :: _)), (app_assoc before).
    rewrite filter_split, (List.filter_app _ (before ++ [x]) after).
    by rewrite (Hoff (value_node target key v e)) by apply value_node_is.
  - rewrite (cons_middle (section_node target e)), app_assoc, filter_split.
    rewrite (Hoff (value_node target key v e)) by apply value_node_is.
    rewrite List.filter_app. simpl. by rewrite !app_nil_r.
Qed.

Lemma find_value_in l section key value :
  value_in l section key = Some value → find_value l [section] key = Some value.
Proof. intros E. cbn [find_value]. by rewrite E. Qed.

Lemma target_section_cases l section key :
  let target := target_section l section key in
  (target_sections section = [section] ∧ target = section) ∨
  (target_sections section = [chars "FreeType"; chars "General"] ∧
   (target = chars "FreeType" ∨
    (lower target = lower (chars "General") ∧ existsb (is_value_of (chars "FreeType") key) l = false))).
Proof.
  cbv zeta. unfold target_section, target_sections. destruct (text_eq_ignore_case section (chars "General")) eqn:Eg.
  - right. split; [done|]. apply ignore_case_spec in Eg. cbn [List.find].
    destruct (existsb (is_value_of (chars "FreeType") key) l) eqn:E1; [by left|right].
    destruct (existsb (is_value_of (chars "General") key) l) eqn:E2; [done|]. done.
  - left. split; [done|]. cbn [List.find]. by destruct (existsb _ l).
Qed.

Lemma general_is_not_freetype : lower (chars "General") ≠ lower (chars "FreeType").
Proof. intros E. vm_compute in E. discriminate E. Qed.

Lemma target_sections_lower section section' :
  lower section = lower section' → Forall2 (λ t t', lower t = lower t') (target_sections section) (target_sections section').
Proof.
  intros E. unfold target_sections, text_eq_ignore_case. fold (lower section) (lower section'). rewrite E.
  destruct (bool_decide _); repeat constructor. done.
Qed.

Lemma removed_value l section key target :
  target ∈ target_sections section →
  value_in (set_nodes_value [] section key None l) target key = None.
Proof.
  intros Ht. apply value_in_none. cbn [set_nodes_value]. apply not_true_iff_false. intros E.
  apply existsb_exists in E as (x & Hin & Hx). apply filter_In in Hin as [_ Hin]. apply negb_true_iff in Hin.
  apply not_true_iff_false in Hin. apply Hin, existsb_exists. exists target. split; [by apply list_elem_of_In|done].
Qed.

Lemma kept_value e l section key target' key' :
  (∀ target, target ∈ target_sections section → ¬ same_key target key target' key') →
  value_in (set_nodes_value e section key None l) target' key' = value_in l target' key'.
Proof.
  intros Hne. apply value_in_same. cbn [set_nodes_value]. induction l as [|x l IH]; [done|]. cbn [List.filter].
  destruct (existsb _ _) eqn:Ex; cbn [negb].
  - apply existsb_exists in Ex as (target & Hin & Hx). apply list_elem_of_In in Hin.
    by rewrite (is_value_apart target key target' key' x (Hne target Hin) Hx).
  - cbn [List.filter]. by rewrite IH.
Qed.

(** A setting is what it was set to, and nothing else changes.  After a value was
    written, its key reads as that value, and after it was removed it reads as absent;
    every other key, and the same key of a section that the name does not
    stand for, reads as before. *)
Theorem setting_is_what_was_set section key value dirty d :
  raw_value (set_raw_value section key value dirty d) section key = value ∧
  ∀ section' key',
    (∀ t t', t ∈ target_section (nodes d) section key :: target_sections section → t' ∈ target_sections section' → ¬ same_key t key t' key') →
    raw_value (set_raw_value section key value dirty d) section' key' = raw_value d section' key'.
Proof.
  unfold raw_value, raw_value_of, set_raw_value. cbn [nodes mark_dirty set_nodes_of]. set (l := nodes d). split.
  - destruct value as [v|].
    + pose proof (set_nodes_written (ending d) section key v l) as Hw.
      pose proof (written_value _ _ _ _ _ _ Hw) as Hv. set (l' := set_nodes_value _ _ _ _ _) in *.
      destruct (target_section_cases l section key) as [[Hts Ht]|[Hts Ht]]; rewrite Hts.
      * apply find_value_in. by rewrite <- Ht at 1.
      * cbn [find_value]. destruct Ht as [Ht|[Ht Hfree]].
        -- rewrite Ht in Hv. by rewrite Hv.
        -- assert (value_in l' (chars "FreeType") key = None) as ->.
           { erewrite written_elsewhere; [|exact Hw|intros [E _]; rewrite Ht in E; by apply general_is_not_freetype].
             by apply value_in_none. }
           assert (value_in l' (chars "General") key = value_in l' (target_section l section key) key) as ->; [|by rewrite Hv].
           unfold value_in. do 2 f_equal. apply List.filter_ext. intros n. by apply is_value_same.
    + assert (∀ target, target ∈ target_sections section → value_in (set_nodes_value (ending d) section key None l) target key = None)
        as Hnone by (intros target Ht; by apply (removed_value l section key target)).
      induction (target_sections section) as [|t ts IH]; [done|]. cbn [find_value]. rewrite Hnone by by left.
      apply IH. intros target Ht. apply Hnone. by right.
  - intros section' key' Hne. apply find_value_same. intros t' Ht'. destruct value as [v|].
    + eapply written_elsewhere; [apply set_nodes_written|]. apply Hne; [by left|done].
    + apply kept_value. intros t Ht. apply Hne; [by right|done].
Qed.

(** ** Revisions *)

(** All revisions, from the oldest that can be reached by undoing to the newest that can
    be reached by redoing; the document shows the one behind the undo history. *)
Definition timeline (d : ProfileDocument) : list ProfileRevision :=
  undo_history d ++ [revision d] ++ rev (redo_history d).

Definition cursor (d : ProfileDocument) : nat := length (undo_history d).

Lemma last_split {A : Type} (l : list A) x : last l = Some x → l = removelast l ++ [x].
Proof.
  intros E. destruct l as [|a l] using rev_ind; [done|]. rewrite last_snoc in E. injection E as ->. by rewrite removelast_last.
Qed.

Lemma undo_moves d d' :
  undo d = (d', true) → timeline d' = timeline d ∧ S (cursor d') = cursor d.
Proof.
  unfold undo. destruct (last (undo_history d)) as [previous|] eqn:El; [|done]. intros [= <-].
  apply last_split in El. unfold timeline, cursor, revision, restore_revision, set_histories; cbn.
  split.
  - rewrite El at 2. rewrite rev_app_distr. cbn [rev app]. rewrite <- !app_assoc. by destruct previous.
  - rewrite El at 2. rewrite length_app. simpl. lia.
Qed.

Lemma redo_moves d d' :
  redo d = (d', true) → timeline d' = timeline d ∧ cursor d' = S (cursor d).
Proof.
  unfold redo. destruct (last (redo_history d)) as [next|] eqn:El; [|done]. intros [= <-].
  apply last_split in El. unfold timeline, cursor, revision, restore_revision, set_histories; cbn.
  split.
  - rewrite El at 2. rewrite rev_app_distr. cbn [rev app]. rewrite <- !app_assoc. by destruct next.
  - rewrite length_app. simpl. lia.
Qed.

(** Edits that leave the histories alone, as all of them do. *)
Definition keeps_histories (edit : Edit) : Prop :=
  ∀ d, undo_history (edit d).1 = undo_history d ∧ redo_history (edit d).1 = redo_history d.

Section Edits.
Context `{Lowercase} `{SettingTable}.

Lemma set_value_keeps i v : keeps_histories (set_value i v).
Proof. intros d. unfold set_value. by destruct (render_setting_value i v) as [[setting rendered]|]. Qed.

Lemma set_individuals_keeps entries : keeps_histories (set_individuals entries).
Proof. intros d. unfold set_individuals. by destruct (validate_individuals entries). Qed.

Lemma set_list_keeps kind entries : keeps_histories (set_list kind entries).
Proof. intros d. unfold set_list. destruct (list_section kind); [|done]. by destruct (normalize_list_entries entries). Qed.

Lemma set_advanced_keeps p : keeps_histories (set_advanced p).
Proof. intros d. unfold set_advanced. by destruct (render_advanced_profile p). Qed.

Lemma reset_settings_keeps settings : keeps_histories (reset_settings settings).
Proof.
  induction settings as [|setting settings IH]; intros d; [done|]. cbn [reset_settings].
  destruct (render_setting_value _ _) as [[s rendered]|]; [|done].
  match goal with |- context [reset_settings settings ?x] => destruct (IH x) as [Hu Hr]; rewrite Hu, Hr end. by case_match.
Qed.

(** The operations of the editor. *)
Inductive EditorStep :=
| UpdateValue (setting_id : string) (value : F64)
| UpdateIndividuals (entries : list IndividualSetting)
| UpdateList (kind : string) (entries : list Text)
| UpdateAdvanced (p : AdvancedProfile)
| ResetSettings
| Undo
| Redo.

(** The edit that a step records, if it does. *)
Definition step_edit (step : EditorStep) : option Edit :=
  match step with
  | UpdateValue i v => Some (set_value i v)
  | UpdateIndividuals entries => Some (set_individuals entries)
  | UpdateList kind entries => Some (set_list kind entries)
  | UpdateAdvanced p => Some (set_advanced p)
  | ResetSettings => Some (reset_settings SETTINGS)
  | Undo | Redo => None
  end.

Definition editor_step (d : ProfileDocument) (step : EditorStep) : ProfileDocument :=
  match step with
  | UpdateValue i v => (update_value i v d).1
  | UpdateIndividuals entries => (update_individuals entries d).1
  | UpdateList kind entries => (update_list kind entries d).1
  | UpdateAdvanced p => (update_advanced p d).1
  | ResetSettings => (reset_settings_to_defaults d).1
  | Undo => (undo d).1
  | Redo => (redo d).1
  end.

Lemma step_edit_keeps step edit : step_edit step = Some edit → keeps_histories edit.
Proof.
  destruct step; intros [= <-].
  - apply set_value_keeps.
  - apply set_individuals_keeps.
  - apply set_list_keeps.
  - apply set_advanced_keeps.
  - apply reset_settings_keeps.
Qed.

Lemma editor_step_edit step edit d : step_edit step = Some edit → editor_step d step = (record_edit edit d).1.
Proof. by destruct step; intros [= <-]. Qed.

(** The histories and the current revision take at most one place more than the limit. *)
Definition bounded (d : ProfileDocument) : Prop := length (undo_history d) + length (redo_history d) ≤ HISTORY_LIMIT.

Lemma record_edit_bounded edit d : keeps_histories edit → bounded d → bounded (record_edit edit d).1.
Proof.
  intros Hedit Hd. unfold record_edit, bounded in *. specialize (Hedit d). destruct (edit d) as [d1 [u|e]]; destruct Hedit as [Hu Hr]; cbn [fst] in *;
    [|by rewrite Hu, Hr]. destruct (bool_decide _); cbn [fst]; [by rewrite Hu, Hr|].
  cbn [undo_history redo_history set_histories length]. rewrite Hu.
  destruct (length (undo_history d) =? HISTORY_LIMIT) eqn:En; rewrite length_app; cbn [length].
  - apply Nat.eqb_eq in En. destruct (undo_history d); [done|]. cbn [tail length] in *. lia.
  - apply Nat.eqb_neq in En. lia.
Qed.

Lemma undo_bounded d : bounded d → bounded (undo d).1.
Proof.
  unfold undo, bounded. destruct (last (undo_history d)) as [previous|] eqn:El; [|done]. cbn. apply last_split in El.
  rewrite El at 1. rewrite !length_app. simpl. lia.
Qed.

Lemma redo_bounded d : bounded d → bounded (redo d).1.
Proof.
  unfold redo, bounded. destruct (last (redo_history d)) as [next|] eqn:El; [|done]. cbn. apply last_split in El.
  rewrite El at 1. rewrite !length_app. simpl. lia.
Qed.

Lemma steps_bounded steps d : bounded d → bounded (fold_left editor_step steps d).
Proof.
  revert d. induction steps as [|step steps IH]; intros d Hd; [done|]. apply IH. destruct (step_edit step) as [edit|] eqn:Es.
  - rewrite (editor_step_edit step edit) by done. apply record_edit_bounded; [by eapply step_edit_keeps|done].
  - destruct step; try done; [by apply undo_bounded|by apply redo_bounded].
Qed.

Lemma undo_redo d d' : undo d = (d', true) → redo d' = (d, true).
Proof.
  unfold undo. destruct (last (undo_history d)) as [previous|] eqn:El; [|done]. intros [= <-]. apply last_split in El.
  unfold redo. cbn. rewrite last_snoc, removelast_last. unfold restore_revision, revision, set_histories. cbn.
  f_equal. destruct previous. cbn. rewrite <- El. by destruct d.
Qed.

Lemma redo_undo d d' : redo d = (d', true) → undo d' = (d, true).
Proof.
  unfold redo. destruct (last (redo_history d)) as [next|] eqn:El; [|done]. intros [= <-]. apply last_split in El.
  unfold undo. cbn. rewrite last_snoc, removelast_last. unfold restore_revision, revision, set_histories. cbn.
  f_equal. destruct next. cbn. rewrite <- El. by destruct d.
Qed.

Lemma edit_undone edit d d1 :
  keeps_histories edit → record_edit edit d = (d1, Ok tt) → revision d1 ≠ revision d →
  ∃ d2, undo d1 = (d2, true) ∧ revision d2 = revision d.
Proof.
  intros _. unfold record_edit. destruct (edit d) as [d' [u|e]]; [|done]. destruct (bool_decide _) eqn:Eq.
  - apply bool_decide_eq_true in Eq. by intros [= <-] ?.
  - intros [= <-] _. unfold undo. cbn. rewrite last_snoc. eexists. split; [done|].
    unfold revision, restore_revision. by cbn.
Qed.

(** Undo and redo move along one line of revisions.  However a document was edited, it
    remembers at most a hundred other revisions; undoing and redoing undo each
    other exactly and keep the line as it is; and undoing an edit that changed
    something brings back the revision before it. *)
Theorem edits_can_be_undone steps d0
  (Hundo : undo_history d0 = []) (Hredo : redo_history d0 = []) :
  let d := fold_left editor_step steps d0 in
  length (timeline d) ≤ S HISTORY_LIMIT ∧
  (∀ d', undo d = (d', true) → timeline d' = timeline d ∧ redo d' = (d, true)) ∧
  (∀ d', redo d = (d', true) → timeline d' = timeline d ∧ undo d' = (d, true)) ∧
  (∀ step edit d1, step_edit step = Some edit → record_edit edit d = (d1, Ok tt) → revision d1 ≠ revision d →
     ∃ d2, undo d1 = (d2, true) ∧ revision d2 = revision d).
Proof.
  intros d. split_and!.
  - assert (bounded d) as Hb by (apply steps_bounded; unfold bounded; rewrite Hundo, Hredo; apply Nat.le_0_l).
    unfold timeline, bounded in *. rewrite !length_app, length_rev. cbn [length]. lia.
  - intros d' E. split; [by apply undo_moves|by apply undo_redo].
  - intros d' E. split; [by apply redo_moves|by apply redo_undo].
  - intros step edit d1 Hs He Hne. eapply edit_undone; [by eapply step_edit_keeps|done|done].
Qed.

(** A rejected edit leaves the document as it was. *)
Lemma rejected_edit edit d d' e :
  (∃ i v, edit = set_value i v) ∨ (∃ l, edit = set_individuals l) ∨ (∃ k l, edit = set_list k l) ∨ (∃ p, edit = set_advanced p) →
  record_edit edit d = (d', Err e) → d' = d.
Proof.
  intros Hedit. unfold record_edit.
  destruct Hedit as [(i & v & ->)|[(l & ->)|[(k & l & ->)|(p & ->)]]].
  - unfold set_value. destruct (render_setting_value i v) as [[s r]|]; [by destruct (bool_decide _)|by intros [= <- _]].
  - unfold set_individuals. destruct (validate_individuals l); [by destruct (bool_decide _)|by intros [= <- _]].
  - unfold set_list. destruct (list_section k); [|by intros [= <- _]].
    destruct (normalize_list_entries l); [by destruct (bool_decide _)|by intros [= <- _]].
  - unfold set_advanced. destruct (render_advanced_profile p); [by destruct (bool_decide _)|by intros [= <- _]].
Qed.
End Edits.
