(* ===== verification/ProfileRoundtrip.v ===== *)
(** * Edited profiles are read back

    The nodes of a document are what parsing its text gives, and stay so when a value is
    written, as long as the last line of the text is closed by a line break: what the
    editor shows after an edit is what it shows when the saved profile is opened
    again.  When the last line is not closed, a new line is joined to it and both
    settings are lost. *)

From stdpp Require Import pretty.
From S2P Require Export ProfileEditingFacts.

(** ** Whitespace and breaks *)

Definition spaces (l : Text) : Prop := Forall (λ c, is_whitespace c = true) l.
Definition no_breaks (l : Text) : Prop := Forall (λ c, is_line_break c = false) l.

(** A text that trimming leaves as it is, with something in it. *)
Definition tight (l : Text) : Prop :=
  l ≠ [] ∧ (∀ c, head l = Some c → is_whitespace c = false) ∧ (∀ c, last l = Some c → is_whitespace c = false).

Lemma trim_start_spaces ws l : spaces ws → trim_text_start (ws ++ l) = trim_text_start l.
Proof. induction 1 as [|c ws Hc _ IH]; [done|]. simpl. by rewrite Hc. Qed.

Lemma trim_start_tight l : (∀ c, head l = Some c → is_whitespace c = false) → trim_text_start l = l.
Proof. destruct l as [|c l]; [done|]. intros Hc. simpl. by rewrite (Hc c eq_refl). Qed.

Lemma leading_space_app ws l :
  spaces ws → (∀ c, head l = Some c → is_whitespace c = false) → leading_space (ws ++ l) = ws.
Proof.
  induction 1 as [|c ws Hc _ IH]; intros Hl; simpl.
  - destruct l as [|c l]; [done|]. simpl. by rewrite (Hl c eq_refl).
  - rewrite Hc. f_equal. by apply IH.
Qed.

Lemma leading_space_split l : l = leading_space l ++ trim_text_start l ∧ spaces (leading_space l).
Proof.
  induction l as [|c l [IH1 IH2]]; [split; [done|constructor]|]. simpl. destruct (is_whitespace c) eqn:Ec.
  - split; [simpl; by f_equal|by constructor].
  - split; [done|constructor].
Qed.

Lemma trim_start_head l c : head (trim_text_start l) = Some c → is_whitespace c = false.
Proof. induction l as [|b l IH]; [done|]. simpl. destruct (is_whitespace b) eqn:Eb; [done|]. by intros [= <-]. Qed.

Lemma head_rev {A : Type} (l : list A) : head (rev l) = last l.
Proof. destruct l as [|a l] using rev_ind; [done|]. by rewrite rev_app_distr, last_snoc. Qed.

Lemma spaces_rev ws : spaces ws → spaces (rev ws).
Proof. unfold spaces. rewrite !Forall_forall. intros H c Hc. apply H. rewrite list_elem_of_In in *. by apply in_rev. Qed.

Lemma trim_end_spaces l ws : spaces ws → trim_text_end (l ++ ws) = trim_text_end l.
Proof. intros Hws. unfold trim_text_end. rewrite rev_app_distr, trim_start_spaces; [done|by apply spaces_rev]. Qed.

Lemma trim_end_tight l : (∀ c, last l = Some c → is_whitespace c = false) → trim_text_end l = l.
Proof.
  intros Hl. unfold trim_text_end. rewrite trim_start_tight; [apply rev_involutive|]. intros c. rewrite head_rev. apply Hl.
Qed.

Lemma trailing_space_app l ws :
  spaces ws → (∀ c, last l = Some c → is_whitespace c = false) → trailing_space (l ++ ws) = ws.
Proof.
  intros Hws Hl. unfold trailing_space. rewrite rev_app_distr, leading_space_app; [apply rev_involutive|by apply spaces_rev|].
  intros c. rewrite head_rev. apply Hl.
Qed.

Lemma trim_tight l : tight l → trim l = l.
Proof. intros (_ & Hh & Hl). unfold trim. rewrite trim_start_tight by done. by apply trim_end_tight. Qed.

Lemma trailing_space_split l : l = trim_text_end l ++ trailing_space l ∧ spaces (trailing_space l).
Proof.
  destruct (leading_space_split (rev l)) as [E Hs]. unfold trim_text_end, trailing_space. split; [|by apply spaces_rev].
  rewrite <- rev_app_distr, <- E. by rewrite rev_involutive.
Qed.

Lemma trim_end_last l c : last (trim_text_end l) = Some c → is_whitespace c = false.
Proof. unfold trim_text_end. rewrite <- head_rev, rev_involutive. apply trim_start_head. Qed.

(** Whether something that is not whitespace follows does not matter to the start. *)
Lemma trim_start_app l k : trim_text_start l ≠ [] → trim_text_start (l ++ k) = trim_text_start l ++ k.
Proof. induction l as [|c l IH]; [done|]. simpl. destruct (is_whitespace c); [apply IH|done]. Qed.

Lemma trim_nonempty_start l : trim l ≠ [] → trim_text_start l ≠ [].
Proof. intros H E. apply H. unfold trim. by rewrite E. Qed.

Lemma existsb_no_breaks l : existsb is_line_break l = false ↔ no_breaks l.
Proof.
  unfold no_breaks. induction l as [|c l IH]; simpl; [split; [constructor|done]|]. rewrite orb_false_iff, IH, Forall_cons. done.
Qed.

(** ** Lines *)

Lemma drop_breaks_app brk l :
  Forall (λ c, is_line_break c = true) brk → (∀ c, head l = Some c → is_line_break c = false) → drop_breaks (brk ++ l) = l.
Proof.
  induction 1 as [|c brk Hc _ IH]; intros Hl; simpl; [destruct l as [|c l]; [done|]; simpl; by rewrite (Hl c eq_refl)|].
  rewrite Hc. by apply IH.
Qed.

Lemma line_body_app body brk :
  no_breaks body → Forall (λ c, is_line_break c = true) brk → line_body (body ++ brk) = body.
Proof.
  intros Hb Hk. unfold line_body. rewrite rev_app_distr, drop_breaks_app; [apply rev_involutive| |].
  - apply Forall_forall. intros c Hc. rewrite Forall_forall in Hk. apply Hk. rewrite list_elem_of_In in *. by apply in_rev.
  - intros c. rewrite head_rev. intros Hl. apply last_split in Hl. unfold no_breaks in Hb. rewrite Hl, Forall_app in Hb.
    by destruct Hb as [_ [Hc _]%Forall_cons].
Qed.

Definition breaks (brk : Text) : Prop := brk = [NL] ∨ brk = [CR; NL] ∨ brk = [CR].

Lemma breaks_all brk : breaks brk → Forall (λ c, is_line_break c = true) brk.
Proof. intros [->|[->| ->]]; by repeat constructor. Qed.

(** Text [a] ends at a line's end when [b] follows. *)
Definition closes (a b : Text) : Prop :=
  a = [] ∨ (∃ c, last a = Some c ∧ (c = NL ∨ (c = CR ∧ head b ≠ Some NL))).

Lemma ends_line_same c d l k : ends_line c (d :: l) = ends_line c (d :: l ++ k).
Proof. done. Qed.

Lemma split_lines_app a b : closes a b → split_lines (a ++ b) = split_lines a ++ split_lines b.
Proof.
  induction a as [|c a IH]; intros Hc; [done|]. destruct Hc as [Hc|(x & Hx & Hc)]; [done|].
  destruct a as [|d a].
  - injection Hx as ->. cbn [app split_lines]. assert (ends_line x b = true) as ->.
    { unfold ends_line. destruct Hc as [->|[-> Hb]]; [done|]. destruct b as [|y b]; [done|].
      apply orb_true_iff. right. apply andb_true_iff. split; [done|]. apply negb_true_iff, N.eqb_neq. intros ->. by apply Hb. }
    assert (ends_line x [] = true) as ->; [|done]. by destruct Hc as [->|[-> _]].
  - cbn [app]. cbn [split_lines]. rewrite <- (ends_line_same c d a b).
    assert (split_lines (d :: a ++ b) = split_lines (d :: a) ++ split_lines b) as E by (apply IH; right; by exists x).
    cbn [split_lines app] in E. destruct (ends_line c (d :: a)).
    + cbn [app]. f_equal. exact E.
    + rewrite E. destruct (ends_line d a); [done|]. by destruct (split_lines a).
Qed.

Lemma split_lines_line body brk :
  no_breaks body → brk = [] ∨ breaks brk → body ++ brk ≠ [] → split_lines (body ++ brk) = [body ++ brk].
Proof.
  intros Hb Hk. induction Hb as [|c body Hc Hb IH]; intros Hne.
  - destruct Hk as [->|[->|[->| ->]]]; done.
  - cbn [app split_lines]. unfold ends_line. unfold is_line_break in Hc. apply orb_false_iff in Hc as [Hcr Hnl].
    rewrite Hnl, Hcr. cbn [orb andb]. destruct (decide (body ++ brk = [])) as [E|Hne']; [by rewrite E|]. by rewrite IH.
Qed.

(** The first line of a text. *)
Lemma split_lines_first l :
  l ≠ [] → ∃ body brk rest, l = (body ++ brk) ++ rest ∧ no_breaks body ∧ (brk = [] ∨ breaks brk) ∧
    body ++ brk ≠ [] ∧ (brk = [] → rest = []) ∧ (brk ≠ [] → closes (body ++ brk) rest).
Proof.
  induction l as [|c l IH]; [done|]. intros _.
  destruct (c =? NL)%N eqn:Enl.
  { apply N.eqb_eq in Enl as ->. exists [], [NL], l. split_and!; [done|constructor|right; by left|done|done|].
    intros _. right. exists NL. split; [done|by left]. }
  destruct (c =? CR)%N eqn:Ecr.
  { apply N.eqb_eq in Ecr as ->. destruct l as [|b l].
    - exists [], [CR], []. split_and!; [done|constructor|right; right; by right|done|done|].
      intros _. right. exists CR. split; [done|]. by right.
    - destruct (b =? NL)%N eqn:Eb.
      + apply N.eqb_eq in Eb as ->. exists [], [CR; NL], l. split_and!; [done|constructor|right; right; by left|done|done|].
        intros _. right. exists NL. split; [done|by left].
      + exists [], [CR], (b :: l). split_and!; [done|constructor|right; right; by right|done|done|].
        intros _. right. exists CR. split; [done|]. right. split; [done|]. intros [= ->]. by rewrite N.eqb_refl in Eb. }
  assert (is_line_break c = false) as Hc by (unfold is_line_break; by rewrite Ecr, Enl).
  destruct (decide (l = [])) as [->|Hne].
  { exists [c], [], []. split_and!; [done|by repeat constructor|by left|done|done|done]. }
  destruct (IH Hne) as (body & brk & rest & -> & Hb & Hk & Hn & He & Hcl). exists (c :: body), brk, rest.
  split_and!; [done|by constructor|done|done|done|]. intros Hbrk. right. destruct (Hcl Hbrk) as [E|(x & Hx & Hor)]; [done|].
  exists x. split; [|done]. cbn [app]. rewrite last_cons. by rewrite Hx.
Qed.

Lemma first_line_split body brk rest :
  no_breaks body → (brk = [] ∨ breaks brk) → body ++ brk ≠ [] → (brk = [] → rest = []) → (brk ≠ [] → closes (body ++ brk) rest) →
  split_lines ((body ++ brk) ++ rest) = (body ++ brk) :: split_lines rest.
Proof.
  intros Hb Hk Hne He Hcl. destruct (decide (brk = [])) as [->|Hbrk].
  - rewrite (He eq_refl), app_nil_r. by rewrite split_lines_line by auto.
  - rewrite split_lines_app by auto. by rewrite split_lines_line by auto.
Qed.

(** The lines of a text: each is one line, and closed unless it is the last. *)
Definition is_line (line : Text) : Prop :=
  ∃ body brk, line = body ++ brk ∧ no_breaks body ∧ (brk = [] ∨ breaks brk) ∧ line ≠ [].

Fixpoint lined (lines : list Text) : Prop :=
  match lines with
  | [] => True
  | line :: lines' => is_line line ∧ (lines' = [] ∨ closes line (concat lines')) ∧ lined lines'
  end.

Lemma lined_split lines : lined lines → split_lines (concat lines) = lines.
Proof.
  induction lines as [|line lines IH]; [done|]. intros ((body & brk & -> & Hb & Hk & Hne) & Hc & Hl). cbn [concat].
  destruct Hc as [->|Hc].
  - cbn [concat]. rewrite app_nil_r. by apply split_lines_line.
  - rewrite split_lines_app by done. rewrite split_lines_line by done. cbn [app]. by rewrite IH.
Qed.

Lemma split_lined text : lined (split_lines text).
Proof.
  remember (length text) as n eqn:Hn. revert text Hn. induction n as [n IH] using lt_wf_ind. intros text ->.
  destruct (decide (text = [])) as [->|Ht]; [done|].
  destruct (split_lines_first text Ht) as (body & brk & rest & -> & Hb & Hk & Hne & He & Hcl).
  rewrite first_line_split by done. cbn [lined]. split_and!.
  - by exists body, brk.
  - destruct (decide (brk = [])) as [Hbrk|Hbrk]; [left; by rewrite (He Hbrk)|right]. rewrite split_lines_concat. by apply Hcl.
  - eapply IH; [|done]. rewrite (length_app (body ++ brk)). destruct (body ++ brk); [done|]. cbn [length]. lia.
Qed.

Lemma is_line_nonempty line : is_line line → line ≠ [].
Proof. by intros (body & brk & _ & _ & _ & Hne). Qed.

Lemma lined_nonempty lines : lined lines → concat lines = [] → lines = [].
Proof. destruct lines as [|line lines]; [done|]. intros (Hl & _) [E _]%app_nil. by apply is_line_nonempty in Hl. Qed.

Lemma closes_app a b c : closes b c → b ≠ [] → closes (a ++ b) c.
Proof. intros [->|(x & Hx & Hc)] Hb; [done|]. right. exists x. split; [|done]. by rewrite last_app, Hx. Qed.

Lemma closes_app_inv a b c : closes (a ++ b) c → b ≠ [] → closes b c.
Proof.
  intros [E|(x & Hx & Hc)] Hb; [by apply app_nil in E as [_ ?]|]. right. exists x. split; [|done].
  rewrite last_app in Hx. destruct (last b) eqn:E; [done|]. by apply last_None in E.
Qed.

(** What follows matters only by how it starts. *)
Lemma closes_head a b b' : closes a b → (head b ≠ Some NL → head b' ≠ Some NL) → closes a b'.
Proof.
  intros [->|(x & Hx & [->|[-> Hb]])] H; [by left|right..].
  - exists NL. split; [done|by left].
  - exists CR. split; [done|right]. auto.
Qed.

Lemma lined_app l1 l2 :
  lined (l1 ++ l2) ↔ lined l1 ∧ lined l2 ∧ (l2 = [] ∨ closes (concat l1) (concat l2)).
Proof.
  induction l1 as [|line l1 IH]; cbn [app lined concat].
  - split; [intros H; split_and!; [done..|right; by left]|by intros (_ & H & _)].
  - rewrite IH. split.
    + intros (Hl & Hc & H1 & H2 & H12). split_and!; [done| |done|done|].
      * destruct (decide (l1 = [])) as [|Hne]; [by left|right]. destruct Hc as [E|Hc]; [by apply app_nil in E as [-> _]|].
        rewrite concat_app in Hc. eapply closes_head; [done|]. intros Hh. destruct (concat l1) eqn:E; [|done].
        by apply (lined_nonempty l1) in H1.
      * destruct H12 as [|H12]; [by left|]. destruct (decide (l1 = [])) as [->|Hne].
        -- cbn [concat app] in *. rewrite app_nil_r. by destruct Hc as [E|Hc]; [left|right].
        -- right. apply closes_app; [done|]. intros E. by apply Hne, lined_nonempty.
    + intros ((Hl & Hc & H1) & H2 & H12). split_and!; [done| |done|done|].
      * destruct (decide (l2 = [])) as [->|Hne2]; [rewrite app_nil_r; by destruct Hc; [left|right]|right].
        destruct H12 as [|H12]; [done|]. rewrite concat_app. destruct (decide (l1 = [])) as [->|Hne1].
        -- cbn [concat app] in *. by rewrite app_nil_r in H12.
        -- destruct Hc as [|Hc]; [done|]. eapply closes_head; [done|]. destruct (concat l1) eqn:E; [|done].
           by apply (lined_nonempty l1) in H1.
      * destruct H12 as [|H12]; [by left|right]. destruct (decide (l1 = [])) as [->|Hne1]; [by left|].
        eapply closes_app_inv; [done|]. intros E. by apply Hne1, lined_nonempty.
Qed.

(** ** The shape of a line with a value *)

(** The parts of such a line. *)
Record value_line (prefix lead value trail brk : Text) : Prop := {
  no_equals : 61%N ∉ prefix;
  has_key : trim prefix ≠ [];
  not_comment : is_comment (trim_text_start prefix) = false;
  lead_spaces : spaces lead;
  trail_spaces : spaces trail;
  value_tight : tight value;
  not_header : text_starts_with 91 (trim_text_start prefix) = true → text_ends_with 93 value = false;
  one_line : no_breaks (prefix ++ [61%N] ++ lead ++ value ++ trail);
  all_breaks : Forall (λ c, is_line_break c = true) brk
}.

Lemma position_here (prefix rest : Text) : 61%N ∉ prefix → position (N.eqb 61) (prefix ++ 61%N :: rest) = Some (length prefix).
Proof.
  induction prefix as [|c prefix IH]; intros Hn; [done|]. apply not_elem_of_cons in Hn as [Hne Hn]. cbn [app position length].
  rewrite (proj2 (N.eqb_neq 61 c)) by done. by rewrite IH.
Qed.

Lemma starts_with_app c l k : l ≠ [] → text_starts_with c (l ++ k) = text_starts_with c l.
Proof. by destruct l. Qed.

Lemma ends_with_app c l k : k ≠ [] → text_ends_with c (l ++ k) = text_ends_with c k.
Proof.
  intros Hk. unfold text_ends_with. rewrite rev_app_distr. apply starts_with_app. intros E. apply Hk.
  apply (f_equal (@rev N)) in E. by rewrite rev_involutive in E.
Qed.

Lemma last_tight (l k : Text) : tight k → last (l ++ k) = last k.
Proof. intros (Hne & _). rewrite last_app. destruct (last k) eqn:E; [done|]. by apply last_None in E. Qed.

Lemma is_comment_app l k : l ≠ [] → is_comment (l ++ k) = is_comment l.
Proof. by destruct l. Qed.

(** The line of a value is parsed into its parts. *)
Lemma parse_value_line section prefix lead value trail brk :
  value_line prefix lead value trail brk →
  parse_line section (prefix ++ [61%N] ++ lead ++ value ++ trail ++ brk) =
  KeyValue section (trim prefix) value prefix (61%N :: lead) (trail ++ brk)
    (prefix ++ [61%N] ++ lead ++ value ++ trail ++ brk).
Proof.
  intros [Heq Hkey Hcom Hlead Htrail Hv Hhead Hone Hbrk]. set (body := prefix ++ [61%N] ++ lead ++ value ++ trail) in *.
  set (line := prefix ++ [61%N] ++ lead ++ value ++ trail ++ brk).
  assert (line = body ++ brk) as El by (unfold line, body; by rewrite <- !app_assoc).
  unfold parse_line. rewrite El, line_body_app by done.
  pose proof (trim_nonempty_start prefix Hkey) as Hstart.
  assert (trim body = trim_text_start prefix ++ [61%N] ++ lead ++ value) as Htrim.
  { unfold trim, body. rewrite trim_start_app by done.
    assert (trim_text_start prefix ++ [61%N] ++ lead ++ value ++ trail = (trim_text_start prefix ++ [61%N] ++ lead ++ value) ++ trail)
      as -> by (by rewrite <- !app_assoc).
    rewrite trim_end_spaces by done. apply trim_end_tight. intros c. rewrite !app_assoc, last_tight by done. apply Hv. }
  rewrite Htrim. destruct (trim_text_start prefix ++ [61%N] ++ lead ++ value) as [|c0 rest0] eqn:Ene.
  { apply app_nil in Ene as [E _]. done. }
  rewrite <- Ene. rewrite is_comment_app, Hcom by done.
  assert (is_header (trim_text_start prefix ++ [61%N] ++ lead ++ value) = false) as ->.
  { unfold is_header. rewrite starts_with_app by done. destruct (text_starts_with 91 _) eqn:E91; [|done]. cbn [andb].
    rewrite !app_assoc, ends_with_app by apply Hv. by apply Hhead. }
  unfold body at 1. cbn [app]. rewrite position_here by done.
  assert (take (length prefix) body = prefix) as -> by (unfold body; by rewrite take_app_length).
  assert (drop (S (length prefix)) body = lead ++ value ++ trail) as ->.
  { unfold body. rewrite <- Nat.add_1_r, <- drop_drop. by rewrite drop_app_length. }
  cbv zeta. destruct (trim prefix) as [|k0 key] eqn:Ekey; [done|]. rewrite trim_start_spaces by done.
  assert (∀ c, head (value ++ trail) = Some c → is_whitespace c = false) as Hvh.
  { intros c. destruct Hv as (Hne & Hh & _). destruct value; [done|]. apply Hh. }
  rewrite (trim_start_tight (value ++ trail)) by done. rewrite trim_end_spaces by done.
  rewrite (trim_end_tight value) by apply Hv. rewrite leading_space_app by done.
  rewrite trailing_space_app by (done || apply Hv). by rewrite drop_app_length.
Qed.

(** What parsing tells of a line with a value. *)
Lemma parse_line_value section line s key value prefix separator suffix raw :
  parse_line section line = KeyValue s key value prefix separator suffix raw →
  s = section ∧ raw = line ∧ key = trim prefix ∧ key ≠ [] ∧ 61%N ∉ prefix ∧
  is_comment (trim_text_start prefix) = false ∧
  ∃ lead trail, separator = 61%N :: lead ∧ suffix = trail ++ drop (length (line_body line)) line ∧ spaces lead ∧ spaces trail ∧
    line_body line = prefix ++ [61%N] ++ lead ++ value ++ trail.
Proof.
  unfold parse_line. destruct (trim (line_body line)) as [|t0 trimmed] eqn:Et; [done|].
  destruct (is_comment (t0 :: trimmed)) eqn:Ec; [done|]. destruct (is_header _); [done|].
  destruct (position (N.eqb 61) (line_body line)) as [i|] eqn:Ei; [|done]. cbv zeta.
  apply position_some in Ei as (before & x & after & Eb & <- & Hx & Hbefore). apply N.eqb_eq in Hx as <-.
  rewrite Eb in *. rewrite take_app_length. rewrite <- Nat.add_1_r, <- drop_drop, drop_app_length. cbn [drop].
  destruct (trim before) as [|k0 key0] eqn:Ek; [done|]. intros [= <- <- <- <- <- <- <-].
  assert (trim before ≠ []) as Hkey by by rewrite Ek.
  pose proof (trim_nonempty_start before Hkey) as Hstart.
  split_and!; [done|done|done|done| | |].
  - intros Hin. apply not_true_iff_false in Hbefore. apply Hbefore, existsb_exists. exists 61%N. split; [by apply list_elem_of_In|done].
  - rewrite <- Ec, <- Et. unfold trim. rewrite trim_start_app by done.
    destruct (trailing_space_split (trim_text_start before ++ 61%N :: after)) as [E _].
    destruct (trim_text_end (trim_text_start before ++ 61%N :: after)) as [|c0 rest] eqn:Ee.
    { exfalso. assert (trim (before ++ 61%N :: after) = []) as E0; [|congruence]. unfold trim. by rewrite trim_start_app. }
    apply (f_equal is_comment) in E. rewrite is_comment_app in E by done. rewrite is_comment_app in E by done. done.
  - destruct (leading_space_split after) as [E1 Hs1]. destruct (trailing_space_split (trim_text_start after)) as [E2 Hs2].
    exists (leading_space after), (trailing_space (trim_text_start after)). split_and!; [done| |done|done|].
    + done.
    + change (drop 0 after) with after. cbn [app]. by rewrite <- E2, <- E1.
Qed.

(** ** Nodes that are what their lines say *)

(** Nodes that differ at most in the case of the section they are in. *)
Definition similar (n m : IniNode) : Prop :=
  match n, m with
  | KeyValue s key value prefix separator suffix raw, KeyValue s' key' value' prefix' separator' suffix' raw' =>
      lower s = lower s' ∧ key = key' ∧ value = value' ∧ prefix = prefix' ∧ separator = separator' ∧ suffix = suffix' ∧ raw = raw'
  | Unknown s raw, Unknown s' raw' => lower s = lower s' ∧ raw = raw'
  | _, _ => n = m
  end.

Lemma similar_refl n : similar n n.
Proof. by destruct n. Qed.

Lemma similar_trans n m k : similar n m → similar m k → similar n k.
Proof.
  destruct n, m; try done; destruct k; try done; cbn; intros H1 H2; destruct_and?; subst; split_and?; congruence || by etrans.
Qed.

Definition next_section (section : Text) (n : IniNode) : Text :=
  match n with SectionNode name _ => name | _ => section end.

Definition section_after (section : Text) (l : list IniNode) : Text := fold_left next_section l section.

Lemma similar_next s s' n m : lower s = lower s' → similar n m → lower (next_section s n) = lower (next_section s' m).
Proof. intros Hs. by destruct n, m; try done; cbn; intros; simplify_eq. Qed.

Lemma similar_section section section' line :
  lower section = lower section' → similar (parse_line section line) (parse_line section' line).
Proof.
  intros Hs. unfold parse_line. destruct (trim (line_body line)); [done|]. destruct (is_comment _); [done|].
  destruct (is_header _); [done|]. destruct (position _ _); [|done]. cbv zeta. by destruct (trim _).
Qed.

(** Each node is what its line says, in the section it stands in. *)
Fixpoint reads (section : Text) (l : list IniNode) : Prop :=
  match l with
  | [] => True
  | n :: l' => similar (parse_line section (node_raw n)) n ∧ reads (next_section section n) l'
  end.

Lemma reads_lower s s' l : lower s = lower s' → reads s l → reads s' l.
Proof.
  revert s s'. induction l as [|n l IH]; intros s s' Hs; [done|]. intros [Hn Hl]. split.
  - eapply similar_trans; [by apply similar_section|exact Hn].
  - eapply IH; [|exact Hl]. by apply similar_next; [|apply similar_refl].
Qed.

Lemma reads_app s l1 l2 : reads s (l1 ++ l2) ↔ reads s l1 ∧ reads (section_after s l1) l2.
Proof.
  revert s. induction l1 as [|n l1 IH]; intros s; cbn [app reads section_after fold_left].
  - split; [by split|by intros [_ H]].
  - unfold section_after in IH. rewrite IH, (and_assoc (similar _ _)). done.
Qed.

Lemma parse_lines_reads s lines : reads s (parse_lines s lines).
Proof.
  revert s. induction lines as [|line lines IH]; intros s; [done|]. cbn [parse_lines reads]. rewrite parse_line_raw. split.
  - apply similar_refl.
  - apply IH.
Qed.

Lemma reads_parse s l : reads s l → Forall2 similar (parse_lines s (map node_raw l)) l.
Proof.
  revert s. induction l as [|n l IH]; intros s; [constructor|]. intros [Hn Hl]. cbn [map parse_lines]. constructor; [done|].
  apply IH. eapply reads_lower; [|exact Hl]. change (lower (next_section s n) = lower (next_section s (parse_line s (node_raw n)))).
  symmetry. by apply similar_next.
Qed.

Lemma similar_is_value section key n m : similar n m → is_value_of section key n = is_value_of section key m.
Proof.
  destruct n, m; try done. cbn. intros (Hs & -> & _). f_equal. unfold text_eq_ignore_case.
  unfold lower in Hs. by rewrite Hs.
Qed.

Lemma similar_node_value n m : similar n m → node_value n = node_value m.
Proof. destruct n, m; try done. by intros (_ & _ & -> & _). Qed.

Lemma similar_values l l' section key : Forall2 similar l l' → value_in l section key = value_in l' section key.
Proof.
  intros Hl. unfold value_in.
  assert (Forall2 similar (List.filter (is_value_of section key) l) (List.filter (is_value_of section key) l')) as Hf.
  { induction Hl as [|n m l l' Hn _ IH]; [constructor|]. cbn [List.filter]. rewrite (similar_is_value section key n m) by done.
    destruct (is_value_of section key m); [by constructor|done]. }
  clear Hl. induction Hf as [|n m k k' Hn Hk IH]; [done|]. rewrite !last_cons.
  destruct Hk as [|n' m' k k' Hn' Hk]; [cbn; f_equal; by apply similar_node_value|].
  rewrite !last_cons in *. destruct (last k), (last k'); cbn in *; done.
Qed.

Lemma similar_raw_value l l' section key : Forall2 similar l l' → raw_value_of l section key = raw_value_of l' section key.
Proof. intros Hl. apply find_value_same. intros target _. by apply similar_values. Qed.

(** ** Writing a value *)

(** What the editor is asked to write: names and values that fit on a line and are read
    as they are written. *)
Record clean_entry (section key value : Text) : Prop := {
  clean_section : tight section ∧ no_breaks section;
  clean_key : tight key ∧ no_breaks key ∧ 61%N ∉ key;
  plain_key : is_comment key = false ∧ text_starts_with 91 key = false;
  clean_value : tight value ∧ no_breaks value
}.

Lemma not_break_nl l : no_breaks l → NL ∉ l.
Proof. unfold no_breaks. rewrite Forall_forall. intros H Hin. by specialize (H NL Hin). Qed.

Lemma header_line s target brk :
  tight target → no_breaks target → breaks brk →
  parse_line s ([91%N] ++ target ++ [93%N] ++ brk) = SectionNode target ([91%N] ++ target ++ [93%N] ++ brk).
Proof.
  intros Ht Hn Hk. set (body := [91%N] ++ target ++ [93%N]). set (line := [91%N] ++ target ++ [93%N] ++ brk).
  assert (line = body ++ brk) as El by (unfold line, body; by rewrite <- !app_assoc). unfold parse_line.
  rewrite El, line_body_app; [|unfold body, no_breaks; rewrite !Forall_app; split_and!; [by repeat constructor|done|by repeat constructor]|by apply breaks_all].
  assert (trim body = body) as ->.
  { apply trim_tight. split_and!; [done|by intros c [= <-]|]. unfold body. intros c. rewrite app_assoc, last_snoc. by intros [= <-]. }
  assert (is_comment body = false) as -> by done.
  assert (is_header body = true) as ->.
  { unfold is_header. apply andb_true_iff. split; [done|]. unfold body. by rewrite app_assoc, ends_with_app. }
  assert (without_ends body = target) as ->.
  { unfold without_ends, body. cbn [app tail]. rewrite rev_app_distr. cbn [rev app tail]. apply rev_involutive. }
  rewrite trim_tight by done. done.
Qed.

Lemma new_value_line s section key value brk :
  clean_entry section key value → breaks brk →
  parse_line s (key ++ [61%N] ++ value ++ brk) = KeyValue s key value key [61%N] brk (key ++ [61%N] ++ value ++ brk).
Proof.
  intros [_ (Hkt & Hkn & Hk61) [Hkc Hkh] (Hvt & Hvn)] Hk.
  assert (trim_text_start key = key) as Hts by (apply trim_start_tight, Hkt).
  pose proof (parse_value_line s key [] value [] brk) as Hp. cbn [app] in Hp. rewrite (trim_tight key Hkt) in Hp. apply Hp.
  split; [done| | |constructor|constructor|done| | |by apply breaks_all].
  - rewrite trim_tight by done. apply Hkt.
  - by rewrite Hts.
  - rewrite Hts. congruence.
  - unfold no_breaks in *. cbn [app]. rewrite app_nil_r, Forall_app, Forall_cons. done.
Qed.

Lemma lowercase_bracket c : char_lowercase c = char_lowercase 91 → c = 91%N.
Proof.
  change (char_lowercase 91) with 91%N. unfold char_lowercase. case_match eqn:E; [|done].
  change (char "A") with 65%N in E. intros Ec. andb_split. lia.
Qed.

Lemma starts_with_bracket key key' :
  lower key = lower key' → text_starts_with 91 key = false → text_starts_with 91 key' = false.
Proof.
  intros E. destruct key as [|c key], key' as [|c' key']; try done. injection E as E _. cbn. rewrite !N.eqb_neq. intros Hc ->.
  by apply Hc, lowercase_bracket.
Qed.

Lemma starts_with_trim l : text_starts_with 91 (trim l) = false → trim l ≠ [] → text_starts_with 91 (trim_text_start l) = false.
Proof.
  unfold trim. intros Hs Hne. destruct (trailing_space_split (trim_text_start l)) as [E _].
  apply (f_equal (text_starts_with 91)) in E. rewrite starts_with_app in E by done. congruence.
Qed.

(** The line of a key with a new value. *)
Lemma rewritten_line s section key value old name prefix separator suffix raw line_section :
  clean_entry section key value → is_line raw →
  similar (parse_line s raw) (KeyValue line_section name old prefix separator suffix raw) → lower name = lower key →
  let raw' := prefix ++ separator ++ value ++ suffix in
  similar (parse_line s raw') (KeyValue line_section name value prefix separator suffix raw') ∧
  is_line raw' ∧ head raw' = head raw ∧ (∀ b, closes raw b → closes raw' b) ∧
  (∀ P : N → Prop, Forall P raw → Forall P value → Forall P raw').
Proof.
  intros Hclean Hline Hsim Hname raw'. destruct (parse_line s raw) as [| | |s0 k0 v0 p0 se0 su0 r0|] eqn:Ep; try done.
  destruct Hsim as (Hs & -> & -> & -> & -> & -> & ->). apply parse_line_value in Ep as (-> & _ & -> & Hk & Heq & Hcom & Hparts).
  destruct Hline as (body & brk & -> & Hb & Hbrk & Hne). destruct Hparts as (lead & trail & -> & Hsuf & Hlead & Htrail & Hbody).
  assert (Forall (λ c, is_line_break c = true) brk) as Hall by (destruct Hbrk as [->|]; [constructor|by apply breaks_all]).
  rewrite line_body_app in Hbody, Hsuf by done. rewrite drop_app_length in Hsuf. subst body suffix.
  pose proof Hb as Hb'. unfold no_breaks in Hb'. rewrite !Forall_app in Hb'. destruct Hb' as (Hb1 & Hb2 & Hb3 & Hb4 & Hb5).
  destruct Hclean as [_ _ [_ Hkh] [Hvt Hvn]].
  assert (no_breaks (prefix ++ [61%N] ++ lead ++ value ++ trail)) as Hnb by (unfold no_breaks in *; rewrite !Forall_app; by split_and!).
  assert (raw' = (prefix ++ [61%N] ++ lead ++ value ++ trail) ++ brk) as Eraw by (unfold raw'; by rewrite <- !app_assoc).
  split_and!.
  - assert (raw' = prefix ++ [61%N] ++ lead ++ value ++ trail ++ brk) as -> by (rewrite Eraw; by rewrite <- !app_assoc).
    rewrite parse_value_line; [done|]. split; try done.
    rewrite starts_with_trim; [done| |done]. by eapply starts_with_bracket.
  - eexists _, brk. split_and!; [exact Eraw|done|done|]. rewrite Eraw. by destruct prefix.
  - unfold raw'. by destruct prefix.
  - intros b Hc. rewrite Eraw. destruct (decide (brk = [])) as [->|Hnil].
    + exfalso. rewrite app_nil_r in Hc. destruct Hc as [E|(x & Hx & Hor)]; [by destruct prefix|].
      apply last_split in Hx. rewrite Hx in Hb. unfold no_breaks in Hb. rewrite Forall_app, Forall_singleton in Hb.
      destruct Hb as [_ Hb]. destruct Hor as [->|[-> _]]; by vm_compute in Hb.
    + eapply closes_app; [|done]. by eapply closes_app_inv.
  - intros P Hraw Hv. rewrite Eraw. rewrite !Forall_app in *. destruct_and?. by split_and!.
Qed.

(** *** Lines that are replaced and added *)

Lemma lined_replace b x x' a :
  is_line x' → head x' = head x → (∀ k, closes x k → closes x' k) → lined (b ++ x :: a) → lined (b ++ x' :: a).
Proof.
  intros Hx Hh Hc. rewrite !lined_app. intros (Hb & (_ & Hxa & Ha) & Hba). split_and!; [done| |].
  - split_and!; [done| |done]. destruct Hxa as [|Hxa]; [by left|right; by apply Hc].
  - right. destruct Hba as [|Hba]; [done|]. eapply closes_head; [done|]. cbn [concat].
    assert (x ≠ []) by (intros ->; destruct x'; [by apply is_line_nonempty in Hx|done]). apply is_line_nonempty in Hx.
    destruct x, x'; try done. cbn in *. congruence.
Qed.

Lemma lined_insert b y a :
  is_line y → head y ≠ Some NL → closes y (concat a) → closes (concat b) [] ∨ a ≠ [] → lined (b ++ a) → lined (b ++ y :: a).
Proof.
  intros Hy Hh Hc Hend. rewrite !lined_app. intros (Hb & Ha & Hba). split_and!; [done| |].
  - split_and!; [done|by right|done].
  - right. apply is_line_nonempty in Hy as Hne. destruct y as [|c y]; [done|]. destruct Hend as [Hend|Hend].
    + eapply closes_head; [done|]. done.
    + destruct Hba as [|Hba]; [done|]. by eapply closes_head.
Qed.

Lemma closes_breaks body brk b : breaks brk → (brk = [CR] → head b ≠ Some NL) → closes (body ++ brk) b.
Proof.
  intros Hk Hcr. right. destruct Hk as [->|[->| ->]].
  - exists NL. rewrite last_app. split; [done|by left].
  - exists NL. rewrite last_app. split; [done|by left].
  - exists CR. rewrite last_app. split; [done|right]. auto.
Qed.

(** The lines the editor adds. *)
Lemma value_line_added section key value e :
  clean_entry section key value → breaks e →
  let line := key ++ [61%N] ++ value ++ e in
  is_line line ∧ head line ≠ Some NL ∧ (∀ b, (e = [CR] → head b ≠ Some NL) → closes line b) ∧ (e = [CR] → NL ∉ line).
Proof.
  intros [_ (Hkt & Hkn & _) _ (Hvt & Hvn)] He line.
  assert (no_breaks (key ++ [61%N] ++ value)) as Hn by (unfold no_breaks in *; rewrite !Forall_app; split_and!; by repeat constructor).
  assert (line = (key ++ [61%N] ++ value) ++ e) as El by (unfold line; by rewrite <- !app_assoc).
  destruct key as [|c key]; [by destruct Hkt|]. split_and!.
  - exists ((c :: key) ++ [61%N] ++ value), e. split_and!; [done|done|by right|done].
  - cbn. intros [= ->]. unfold no_breaks in Hkn. rewrite Forall_cons in Hkn. destruct Hkn as [Hc _]. by vm_compute in Hc.
  - intros b Hb. rewrite El. by apply closes_breaks.
  - intros ->. rewrite El, not_elem_of_app. split; [by apply not_break_nl|]. rewrite list_elem_of_singleton. done.
Qed.

Lemma header_added target e :
  tight target → no_breaks target → breaks e →
  let line := [91%N] ++ target ++ [93%N] ++ e in
  is_line line ∧ head line ≠ Some NL ∧ (∀ b, (e = [CR] → head b ≠ Some NL) → closes line b) ∧ (e = [CR] → NL ∉ line).
Proof.
  intros Ht Hn He line.
  assert (no_breaks ([91%N] ++ target ++ [93%N])) as Hb by (unfold no_breaks in *; rewrite !Forall_app; split_and!; by repeat constructor).
  assert (line = ([91%N] ++ target ++ [93%N]) ++ e) as El by (unfold line; by rewrite <- !app_assoc). split_and!.
  - exists ([91%N] ++ target ++ [93%N]), e. split_and!; [done|done|by right|done].
  - done.
  - intros b Hc. rewrite El. by apply closes_breaks.
  - intros ->. rewrite El, not_elem_of_app. split; [by apply not_break_nl|]. by rewrite list_elem_of_singleton.
Qed.

(** *** Nodes that can be saved and read again *)

Record rereads (e : Text) (l : list IniNode) : Prop := {
  readable_lines : lined (map node_raw l);
  readable_nodes : reads [] l;
  readable_cr : e = [CR] → NL ∉ text_of l;
  readable_closed : closes (text_of l) []
}.

Lemma text_of_app l1 l2 : text_of (l1 ++ l2) = text_of l1 ++ text_of l2.
Proof. unfold text_of. by rewrite map_app, concat_app. Qed.

Lemma text_of_cons n l : text_of (n :: l) = node_raw n ++ text_of l.
Proof. done. Qed.

Lemma section_after_app s l1 l2 : section_after s (l1 ++ l2) = section_after (section_after s l1) l2.
Proof. apply fold_left_app. Qed.

(** The section behind a node that stands in it. *)
Lemma in_section_after s target n :
  similar (parse_line s (node_raw n)) n → in_section target n = true → lower (next_section s n) = lower target.
Proof.
  destruct n; cbn [node_raw in_section next_section]; try done.
  - intros _. by rewrite ignore_case_spec.
  - rewrite ignore_case_spec. destruct (parse_line s raw) eqn:Ep; try done. intros (Hs & _) Ht.
    apply parse_line_value in Ep as (-> & _). congruence.
  - rewrite ignore_case_spec. intros Hsim Ht. unfold parse_line in Hsim. destruct (trim (line_body raw)); [done|].
    destruct (is_comment _); [done|]. destruct (is_header _); [done|]. destruct (position _ _).
    + cbv zeta in Hsim. destruct (trim (take _ _)); [|done]. destruct Hsim. congruence.
    + destruct Hsim. congruence.
Qed.

Lemma head_app_nonempty (a b : Text) : a ≠ [] → head (a ++ b) = head a.
Proof. by destruct a. Qed.

Lemma lines_nonempty l : lined (map node_raw l) → text_of l = [] → l = [].
Proof. intros Hl E. apply lined_nonempty in E; [|done]. by destruct l. Qed.

Lemma no_newline l : NL ∉ l ↔ Forall (λ c, c ≠ NL) l.
Proof. rewrite Forall_forall. split; [by intros H c Hc ->|]. intros H Hin. by apply (H NL Hin). Qed.

Lemma closes_middle b x x' a :
  x ≠ [] → x' ≠ [] → (closes x [] → closes x' []) → closes (b ++ x ++ a) [] → closes (b ++ x' ++ a) [].
Proof.
  intros Hx Hx' H Hc. destruct (decide (a = [])) as [->|Ha].
  - rewrite app_nil_r in *. apply closes_app; [|done]. apply H. by eapply closes_app_inv.
  - rewrite app_assoc in *. apply closes_app; [|done]. by eapply closes_app_inv.
Qed.

Lemma replaced_readable e target key v before x after :
  clean_entry target key v → rereads e (before ++ x :: after) → is_value_of target key x = true →
  rereads e (before ++ with_value v x :: after) ∧
  head (text_of (before ++ with_value v x :: after)) = head (text_of (before ++ x :: after)) ∧
  (∀ P : N → Prop, Forall P (text_of (before ++ x :: after)) → Forall P v → Forall P (text_of (before ++ with_value v x :: after))).
Proof.
  intros Hclean [Hl Hr Hcr Hcl] Hx. destruct x as [| | |xs xk xv prefix separator suffix raw|]; try done.
  cbn in Hx. apply andb_true_iff in Hx as [_ Hk%ignore_case_spec]. apply reads_app in Hr as [Hr1 [Hsim Hr2]].
  rewrite map_app in Hl. cbn [map node_raw] in *. pose proof Hl as Hl'. apply lined_app in Hl' as (_ & (Hline & _) & _).
  destruct (rewritten_line _ _ _ _ _ _ _ _ _ _ _ Hclean Hline Hsim Hk) as (Hs' & Hl' & Hh & Hc & HP).
  cbn [with_value]. set (raw' := prefix ++ separator ++ v ++ suffix) in *.
  apply is_line_nonempty in Hline as Hne. apply is_line_nonempty in Hl' as Hne'.
  assert (∀ P : N → Prop, Forall P (text_of (before ++ KeyValue xs xk xv prefix separator suffix raw :: after)) → Forall P v →
    Forall P (text_of (before ++ KeyValue xs xk v prefix separator suffix raw' :: after))) as Hall.
  { intros P. rewrite !text_of_app, !text_of_cons, !Forall_app. intros (H1 & H2 & H3) Hv. cbn [node_raw] in *.
    split_and!; [done|by apply HP|done]. }
  split_and!; [split| |done].
  - rewrite map_app. cbn [map node_raw]. by eapply lined_replace.
  - apply reads_app. split; [done|]. split; done.
  - intros He. apply no_newline, Hall; [by apply no_newline, Hcr|]. apply no_newline, not_break_nl, Hclean.
  - rewrite text_of_app, text_of_cons in Hcl |- *. cbn [node_raw] in *. apply (closes_middle _ raw); [done|done|apply Hc|done].
  - rewrite !text_of_app, !text_of_cons. cbn [node_raw]. destruct (text_of before); [|done]. cbn [app].
    by rewrite !head_app_nonempty.
Qed.

(** A node that is added behind [before]: its line is one of the file's, and it is what it
    says there. *)
Lemma added_readable e before n after :
  is_line (node_raw n) → head (node_raw n) ≠ Some NL → (∀ b, (e = [CR] → head b ≠ Some NL) → closes (node_raw n) b) →
  (e = [CR] → NL ∉ node_raw n) → similar (parse_line (section_after [] before) (node_raw n)) n →
  (after = [] ∨ lower (next_section (section_after [] before) n) = lower (section_after [] before)) →
  rereads e (before ++ after) → rereads e (before ++ n :: after).
Proof.
  intros Hline Hhead Hc Hnl Hsim Hnext [Hl Hr Hcr Hcl]. rewrite text_of_app in *. rewrite map_app in Hl.
  apply reads_app in Hr as [Hr1 Hr2].
  assert (e = [CR] → head (text_of after) ≠ Some NL) as Hafter.
  { intros He Hh. apply (Hcr He). apply elem_of_app. right. destruct (text_of after); [done|]. injection Hh as ->. by left. }
  split.
  - rewrite map_app. cbn [map]. apply lined_insert; [done|done| | |done].
    + by apply Hc.
    + destruct after; [left|by right]. cbn in Hcl. by rewrite app_nil_r in Hcl.
  - apply reads_app. split; [done|]. split; [done|]. destruct Hnext as [->|Hnext]; [done|].
    by eapply reads_lower.
  - intros He. rewrite text_of_app, text_of_cons, !not_elem_of_app. specialize (Hcr He). apply not_elem_of_app in Hcr as [? ?]. auto.
  - rewrite text_of_app, text_of_cons. destruct (decide (text_of after = [])) as [E|Hne].
    + rewrite E, app_nil_r. apply closes_app; [by apply Hc|by apply is_line_nonempty].
    + rewrite app_assoc. apply closes_app; [|done]. by eapply closes_app_inv.
Qed.

Definition all_scalars (l : Text) : Prop := Forall scalar_value l.

Lemma break_scalars e : breaks e → all_scalars e.
Proof. by intros [->|[->| ->]]; repeat constructor. Qed.

Lemma value_line_scalars key v e :
  all_scalars key → all_scalars v → breaks e → all_scalars (key ++ [61%N] ++ v ++ e).
Proof.
  unfold all_scalars. intros Hk Hv He%break_scalars. rewrite !Forall_app. split_and!; [done| |done|done]. by repeat constructor.
Qed.

Lemma header_scalars target e : all_scalars target → breaks e → all_scalars ([91%N] ++ target ++ [93%N] ++ e).
Proof.
  unfold all_scalars. intros Ht He%break_scalars. rewrite !Forall_app. split_and!; [|done| |done]; by repeat constructor.
Qed.

Lemma all_scalars_nodes l1 l2 : all_scalars (text_of (l1 ++ l2)) ↔ all_scalars (text_of l1) ∧ all_scalars (text_of l2).
Proof. unfold all_scalars. by rewrite text_of_app, Forall_app. Qed.

Lemma added_scalars before n after :
  all_scalars (node_raw n) → all_scalars (text_of (before ++ after)) → all_scalars (text_of (before ++ n :: after)).
Proof. rewrite !all_scalars_nodes, text_of_cons. unfold all_scalars. rewrite Forall_app. tauto. Qed.

Lemma reads_in_section s target before x after :
  reads s (before ++ x :: after) → in_section target x = true → lower (section_after s (before ++ [x])) = lower target.
Proof.
  intros [_ [Hsim _]]%reads_app Hx. rewrite section_after_app. unfold section_after at 1. cbn [fold_left].
  by apply in_section_after.
Qed.

Lemma write_readable e target key v l l' :
  breaks e → clean_entry target key v → rereads e l → written e target key v l l' →
  rereads e l' ∧ head (text_of l') = (if decide (l = []) then Some 91%N else head (text_of l)) ∧
  (all_scalars target → all_scalars key → all_scalars v → all_scalars (text_of l) → all_scalars (text_of l')).
Proof.
  intros He Hclean Hl Hw. destruct (value_line_added _ _ _ _ Hclean He) as (Hv1 & Hv2 & Hv3 & Hv4).
  assert (∀ s, similar (parse_line s (node_raw (value_node target key v e))) (KeyValue s key v key [61%N] e (key ++ [61%N] ++ v ++ e))) as Hp.
  { intros s. cbn [node_raw value_node]. erewrite new_value_line by done. apply similar_refl. }
  destruct Hw as [before x after -> Hx Ha|before x after -> Hx Ha Hn|Hs Hn].
  - destruct (replaced_readable _ _ _ _ _ _ _ Hclean Hl Hx) as (H1 & H2 & H3). split_and!; [done| |intros _ _ Hv Hs; by apply H3].
    rewrite H2. destruct (decide _) as [E|]; [by apply app_nil in E as [_ ?]|done].
  - assert (lower (section_after [] (before ++ [x])) = lower target) as Hsec by (eapply reads_in_section; [apply Hl|done]).
    rewrite (cons_middle x before after), app_assoc in Hl |- *. rewrite (cons_middle x before (value_node _ _ _ _ :: _)), (app_assoc before).
    split_and!.
    + apply added_readable; [done..| |by right|done]. eapply similar_trans; [apply Hp|]. split_and!; done.
    + destruct (decide _) as [E|_]; [by destruct before|]. rewrite !(text_of_app (before ++ [x])).
      destruct (text_of (before ++ [x])) eqn:E; [|done]. destruct Hl as [Hl _ _ _]. rewrite map_app in Hl. apply lined_app in Hl as [Hl _].
      apply lines_nonempty in E; [|done]. by destruct before.
    + intros _ Hk Hv Hs. apply added_scalars; [by apply value_line_scalars|done].
  - destruct (header_added target e) as (Hh1 & Hh2 & Hh3 & Hh4); [apply Hclean|apply Hclean|done|].
    assert (rereads e (l ++ [section_node target e])) as Hl1.
    { apply added_readable; [done..| |by left|by rewrite app_nil_r]. cbn [node_raw section_node].
      rewrite header_line by (done || apply Hclean). done. }
    rewrite (cons_middle (section_node target e)), app_assoc. split_and!.
    + apply added_readable; [done..| |by left|by rewrite app_nil_r]. eapply similar_trans; [apply Hp|].
      rewrite section_after_app. split_and!; done.
    + rewrite <- app_assoc, text_of_app. destruct (decide (l = [])) as [->|Hne]; [done|]. destruct (text_of l) eqn:E; [|done].
      apply lines_nonempty in E; [done|apply Hl].
    + intros Ht Hk Hv Hsc. apply added_scalars; [by apply value_line_scalars|]. rewrite app_nil_r.
      apply added_scalars; [by apply header_scalars|]. by rewrite app_nil_r.
Qed.

(** ** What the editor writes for a setting *)

(** Letters, digits, the sign and the point stand for themselves wherever they are. *)
Definition plain_char (c : N) : bool :=
  (c =? 45)%N || (c =? 46)%N || in_range 48 57 c || in_range 65 90 c || in_range 97 122 c.

Definition stands_for_itself (c : N) : bool :=
  negb (is_whitespace c) && negb (is_line_break c) && negb (c =? 61)%N && negb (c =? 59)%N && negb (c =? 35)%N &&
  negb (c =? 91)%N && negb (is_surrogate c) && (c <=? 0x10FFFF)%N.

Lemma plain_char_itself c : plain_char c = true → stands_for_itself c = true.
Proof.
  intros Hc. assert (forallb (λ c, implb (plain_char c) (stands_for_itself c)) (map N.of_nat (seq 0 128)) = true) as Hall by (vm_compute; reflexivity).
  rewrite forallb_forall in Hall. specialize (Hall c). rewrite Hc in Hall. apply Hall. apply in_map_iff. exists (N.to_nat c).
  rewrite N2Nat.id. split; [done|]. apply in_seq. unfold plain_char, in_range in Hc.
  repeat (apply orb_true_iff in Hc as [Hc|Hc]); andb_split; lia.
Qed.

Definition plain (l : Text) : Prop := l ≠ [] ∧ Forall (λ c, plain_char c = true) l.

Lemma plain_text l :
  plain l → tight l ∧ no_breaks l ∧ all_scalars l ∧ 61%N ∉ l ∧ is_comment l = false ∧ text_starts_with 91 l = false.
Proof.
  intros [Hne Hl]. assert (Forall (λ c, stands_for_itself c = true) l) as Hall by (eapply Forall_impl; [done|apply plain_char_itself]).
  unfold stands_for_itself in Hall. clear Hl. split_and!.
  - split_and!; [done| |]; intros c Hc.
    + destruct Hall; [done|]. injection Hc as <-. by andb_split.
    + apply last_split in Hc. rewrite Hc, Forall_app, Forall_singleton in Hall. destruct Hall as [_ Hall]. by andb_split.
  - eapply Forall_impl; [done|]. intros c Hc. cbv beta in Hc. by andb_split.
  - eapply Forall_impl; [done|]. intros c Hc. cbv beta in Hc. unfold is_surrogate in Hc. andb_split. by split_and!.
  - intros Hin. rewrite Forall_forall in Hall. specialize (Hall _ Hin). by vm_compute in Hall.
  - destruct Hall as [|c l Hc]; [done|]. unfold is_comment. cbn. andb_split. apply orb_false_iff. rewrite !N.eqb_neq. done.
  - destruct Hall as [|c l Hc]; [done|]. cbn. andb_split. by apply N.eqb_neq.
Qed.

Lemma plain_entry section key v : plain section → plain key → plain v → clean_entry section key v.
Proof.
  intros (? & ? & ? & ? & ? & ?)%plain_text (? & ? & ? & ? & ? & ?)%plain_text (? & ? & ? & ? & ? & ?)%plain_text.
  by split.
Qed.

Definition numeral_char (c : N) : bool := (c =? 45)%N || (c =? 46)%N || in_range 48 57 c.

Lemma numeral_text l : l ≠ [] → Forall (λ c, numeral_char c = true) l → plain l.
Proof.
  intros Hne Hl. split; [done|]. eapply Forall_impl; [done|]. intros c Hc. cbv beta in Hc. unfold plain_char. fold (numeral_char c). by rewrite Hc.
Qed.

Definition numeral (l : Text) : Prop := Forall (λ c, numeral_char c = true) l.

Lemma decimal_numeral n : decimal n ≠ [] ∧ numeral (decimal n).
Proof.
  destruct (pretty_N_digits n) as [Hne Hd]. unfold decimal, chars. split; [by destruct (str_bytes (pretty n))|].
  unfold numeral. rewrite Forall_map. clear Hne. induction (str_bytes (pretty n)) as [|b l IH]; [constructor|].
  cbn in Hd. apply andb_true_iff in Hd as [Hb Hl]. constructor; [|by apply IH].
  unfold is_ascii_digit, byte_in in Hb. unfold numeral_char, in_range, char. change (N_of_ascii "0") with 48%N in Hb.
  change (N_of_ascii "9") with 57%N in Hb. rewrite Hb. by rewrite orb_true_r.
Qed.

Lemma digits_numeral k n : numeral (digits k n).
Proof.
  revert n. induction k as [|k IH]; intros n; [constructor|]. cbn [digits]. apply Forall_app. split; [apply IH|].
  apply Forall_singleton. unfold numeral_char, in_range. apply orb_true_iff. right.
  apply andb_true_iff. rewrite !N.leb_le. div_mod_lia.
Qed.

Lemma format_int_numeral z : format_int z ≠ [] ∧ numeral (format_int z).
Proof.
  unfold format_int. destruct (decimal_numeral (Z.abs_N z)) as [Hne Hd]. split; [by intros [_ E]%app_nil|].
  apply Forall_app. split; [|done]. destruct (_ <? _)%Z; repeat constructor.
Qed.

Lemma drop_zeros_numeral l : numeral l → numeral (drop_zeros l).
Proof. induction 1 as [|c l Hc Hl IH]; [constructor|]. cbn [drop_zeros]. destruct (_ =? _)%N; [done|by constructor]. Qed.

Lemma numeral_rev l : numeral l → numeral (rev l).
Proof. unfold numeral. rewrite !Forall_forall. intros H c Hc. apply H. rewrite list_elem_of_In in *. by apply in_rev. Qed.

(** Zeros are dropped up to the decimal point at most. *)
Lemma drop_zeros_point a b : drop_zeros (a ++ 46%N :: b) ≠ [].
Proof. induction a as [|c a IH]; [done|]. cbn. by destruct (c =? 48)%N. Qed.

Lemma render_float_numeral x : render_float x ≠ [] ∧ numeral (render_float x).
Proof.
  unfold render_float. set (result := rev (drop_zeros (rev (format_6 x)))).
  assert (numeral (format_6 x)) as Hf.
  { unfold format_6, numeral. rewrite !Forall_app. split_and!; [destruct (is_negative x); repeat constructor|apply decimal_numeral|by repeat constructor|apply digits_numeral]. }
  assert (numeral result) as Hr by (by apply numeral_rev, drop_zeros_numeral, numeral_rev).
  assert (result ≠ []) as Hne.
  { unfold result, format_6. rewrite !rev_app_distr, <- !app_assoc. cbn [rev app]. intros E. apply (f_equal (@rev N)) in E.
    rewrite rev_involutive in E. by apply drop_zeros_point in E. }
  destruct (text_ends_with 46 result); [|done]. split; [by destruct result|]. apply Forall_app. split; [done|by repeat constructor].
Qed.

Lemma rendered_numeral `{SettingTable} setting_id value setting rendered :
  render_setting_value setting_id value = Ok (setting, rendered) →
  setting ∈ SETTINGS ∧ rendered ≠ [] ∧ numeral rendered.
Proof.
  unfold render_setting_value, schema, ok_or. destruct (List.find _ SETTINGS) as [found|] eqn:Ef; [|done]. cbn [result_bind].
  apply find_some in Ef as [Hin _]. apply list_elem_of_In in Hin. destruct (_ || _); [done|].
  assert (∀ l, @Ok _ string (found, l) = Ok (setting, rendered) → l ≠ [] ∧ numeral l → setting ∈ SETTINGS ∧ rendered ≠ [] ∧ numeral rendered) as Hok.
  { intros l E%(inj Ok) Hl. apply pair_equal_spec in E as [<- <-]. done. }
  destruct (value_type found); [destruct (has_fraction value); [done|]|]; intros E; apply (Hok _ E).
  - apply format_int_numeral.
  - apply render_float_numeral.
Qed.

(** ** What was encoded is decoded *)

(** The marks that go with an encoding. *)
Definition mark_fits (encoding : TextEncoding) (bom : BomKind) (text : Text) : Prop :=
  match encoding, bom with
  | Utf8, BomUtf8 | Utf16Le, BomUtf16Le | Utf16Be, BomUtf16Be => True
  | Utf8, BomNone => head text ≠ Some 0xFEFF%N
  | _, _ => False
  end.

Lemma decode_utf16_units to_bytes from name encoding bom text :
  (∀ u, (u < 65536)%N → ∃ a b, to_bytes u = [a; b] ∧ from a b = u) → all_scalars text →
  decode_utf16 from name encoding bom (concat (map to_bytes (encode_utf16 text))) = Ok (text, encoding, bom).
Proof.
  intros Hunit Hs. unfold decode_utf16. pose proof (utf16_units_small text Hs) as Hsmall.
  destruct (chunks2_units to_bytes from Hunit _ Hsmall) as [Hc He]. unfold encode_utf16. rewrite He, Hc. cbn [negb].
  by rewrite from_utf16_text.
Qed.

Lemma utf8_not_marked text mark :
  all_scalars text → head text ≠ Some 0xFEFF%N → mark ∈ [BOM_UTF8; BOM_LE; BOM_BE] →
  bytes_strip_prefix mark (utf8 text) = None.
Proof.
  intros Hs Hh Hm. destruct (bytes_strip_prefix mark (utf8 text)) as [body|] eqn:E; [|done]. exfalso.
  apply bytes_strip_prefix_app in E. pose proof (from_utf8_complete text Hs) as Hf. rewrite E in Hf.
  repeat (apply elem_of_cons in Hm as [->|Hm]); [| | |by apply not_elem_of_nil in Hm].
  - change (from_utf8 (BOM_UTF8 ++ body)) with (cons 0xFEFF%N <$> from_utf8 body) in Hf.
    destruct (from_utf8 body); [|done]. injection Hf as <-. by apply Hh.
  - by vm_compute in Hf.
  - by vm_compute in Hf.
Qed.

Lemma encoded_is_decoded `{LegacyCodecs} text encoding bom bytes :
  all_scalars text → mark_fits encoding bom text → encode text encoding bom = Ok bytes →
  decode bytes = Ok (text, encoding, bom).
Proof.
  intros Hs Hm. unfold decode. destruct encoding, bom; try done; cbn [encode].
  - intros <-%(inj Ok). cbn [app]. rewrite !utf8_not_marked by (done || set_solver). by rewrite from_utf8_complete.
  - intros <-%(inj Ok). rewrite bytes_strip_prefix_of. by rewrite from_utf8_complete.
  - intros <-%(inj Ok). change (bytes_strip_prefix BOM_UTF8 (BOM_LE ++ _)) with (@None (list ascii)).
    rewrite bytes_strip_prefix_of. apply decode_utf16_units; [apply le_unit|done].
  - intros <-%(inj Ok). change (bytes_strip_prefix BOM_UTF8 (BOM_BE ++ _)) with (@None (list ascii)).
    change (bytes_strip_prefix BOM_LE (BOM_BE ++ _)) with (@None (list ascii)).
    rewrite bytes_strip_prefix_of. apply decode_utf16_units; [apply be_unit|done].
Qed.

Lemma decoded_mark `{LegacyCodecs} bytes text encoding bom :
  decode bytes = Ok (text, encoding, bom) → is_legacy encoding = false → mark_fits encoding bom text.
Proof.
  intros Hd Hl. pose proof (decode_encode _ _ _ _ Hd) as [He Hs]. specialize (Hs Hl). revert Hd. unfold decode.
  destruct (bytes_strip_prefix BOM_UTF8 bytes) as [body|] eqn:E1; [by destruct (from_utf8 body); intros [= <- <- <-]|].
  destruct (bytes_strip_prefix BOM_LE bytes) as [body|] eqn:E2.
  { unfold decode_utf16. destruct (negb _); [done|]. by destruct (from_utf16 _); intros [= <- <- <-]. }
  destruct (bytes_strip_prefix BOM_BE bytes) as [body|] eqn:E3.
  { unfold decode_utf16. destruct (negb _); [done|]. by destruct (from_utf16 _); intros [= <- <- <-]. }
  destruct (from_utf8 bytes) as [t|] eqn:E4.
  - intros E. apply (inj Ok), pair_equal_spec in E as [[-> <-]%pair_equal_spec <-]. intros Hh. cbn [encode app] in He.
    apply (inj Ok) in He. destruct text as [|c text]; [done|]. injection Hh as ->. rewrite <- He in E1.
    change (utf8 (0xFEFF%N :: text)) with (BOM_UTF8 ++ utf8 text) in E1. by rewrite bytes_strip_prefix_of in E1.
  - destruct (max_by_score _ _) as [[[score t] enc]|] eqn:E5; [|done]. intros E.
    apply (inj Ok), pair_equal_spec in E as [[-> ->]%pair_equal_spec <-].
    apply max_by_score_elem in E5 as [E5|E5]; [done|]. apply list_elem_of_omap in E5 as (candidate & Hin & Hc).
    apply legacy_candidate_sound in Hc as (-> & _). exfalso. clear -Hin Hl. unfold legacy_candidates in Hin.
    repeat (apply elem_of_cons in Hin as [->|Hin]; [done|]). by apply not_elem_of_nil in Hin.
Qed.

(** ** Documents that can be saved *)

Record savable (d : ProfileDocument) : Prop := {
  savable_lines : legacy_lines d = None;
  savable_nodes : rereads (ending d) (nodes d);
  savable_scalars : all_scalars (text_of (nodes d));
  savable_mark : mark_fits (encoding d) (bom d) (text_of (nodes d))
}.

Lemma ending_breaks d : breaks (ending d).
Proof. unfold ending, breaks. destruct (line_ending d); auto. Qed.

(** A setting whose names fit on a line: it can be written as [key=0]. *)
Definition plain_setting (s : SettingDefinition) : Prop :=
  clean_entry (chars (setting_section s)) (chars (setting_key s)) [48%N] ∧
  all_scalars (chars (setting_section s)) ∧ all_scalars (chars (setting_key s)).

Lemma clean_target section key v l : clean_entry section key v → clean_entry (target_section l section key) key v.
Proof.
  intros [Hs Hk Hp Hv]. split; try done. unfold target_section. destruct (List.find _ _) as [t|] eqn:Ef; [|done].
  apply find_some in Ef as [Hin _]. apply list_elem_of_In in Hin. unfold target_sections in Hin.
  destruct (text_eq_ignore_case section (chars "General")); [|by apply list_elem_of_singleton in Hin as ->].
  repeat (apply elem_of_cons in Hin as [->|Hin]; [split; [split_and!; [done|by intros c [= <-]|by intros c [= <-]]|by repeat constructor]|]).
  by apply not_elem_of_nil in Hin.
Qed.

Lemma target_scalars section key l : all_scalars section → all_scalars (target_section l section key).
Proof.
  intros Hs. unfold target_section. destruct (List.find _ _) as [t|] eqn:Ef; [|done].
  apply find_some in Ef as [Hin _]. apply list_elem_of_In in Hin. unfold target_sections in Hin.
  destruct (text_eq_ignore_case section (chars "General")); [|by apply list_elem_of_singleton in Hin as ->].
  repeat (apply elem_of_cons in Hin as [->|Hin]; [by repeat constructor|]). by apply not_elem_of_nil in Hin.
Qed.

Lemma mark_fits_head encoding bom text text' :
  head text' = head text ∨ head text' = Some 91%N → mark_fits encoding bom text → mark_fits encoding bom text'.
Proof. destruct encoding, bom; try done. cbn. by intros [-> | ->]. Qed.

Lemma set_raw_value_savable section key v dirty d :
  clean_entry section key v → all_scalars section → all_scalars key → all_scalars v →
  savable d → savable (set_raw_value section key (Some v) dirty d).
Proof.
  intros Hc Hs Hk Hv [Hl Hr Ha Hm].
  destruct (write_readable _ _ _ _ _ _ (ending_breaks d) (clean_target _ _ _ (nodes d) Hc) Hr (set_nodes_written _ section key v _))
    as (Hr' & Hh & Ha'). split; [done|done| |].
  - apply Ha'; [by apply target_scalars|done..].
  - eapply mark_fits_head; [|exact Hm]. unfold set_raw_value, mark_dirty, set_nodes_of. cbn [nodes]. rewrite Hh.
    destruct (decide _); [by right|by left].
Qed.

Lemma update_value_savable `{SettingTable} setting_id value d :
  Forall plain_setting SETTINGS → savable d → savable (update_value setting_id value d).1.
Proof.
  intros Htable Hd. unfold update_value, record_edit, set_value.
  destruct (render_setting_value setting_id value) as [[setting rendered]|e] eqn:Er; [|done].
  apply rendered_numeral in Er as (Hin & Hne & Hnum). rewrite Forall_forall in Htable. destruct (Htable _ Hin) as (Hc & Hs & Hk).
  destruct (plain_text rendered (numeral_text rendered Hne Hnum)) as (Ht & Hn & Ha & _).
  assert (clean_entry (chars (setting_section setting)) (chars (setting_key setting)) rendered) as Hc'.
  { destruct Hc as [H1 H2 H3 _]. by split. }
  pose proof (set_raw_value_savable _ _ _ setting_id d Hc' Hs Hk Ha Hd) as [H1 H2 H3 H4].
  destruct (bool_decide _); by split.
Qed.

Lemma detected_cr text : detect_line_ending text = Cr → NL ∉ text.
Proof.
  unfold detect_line_ending. destruct (contains_crlf text); [done|]. destruct (existsb (N.eqb NL) text) eqn:E; [done|]. intros _ Hin.
  apply not_true_iff_false in E. apply E, existsb_exists. exists NL. split; [by apply list_elem_of_In|done].
Qed.

Section Saving.
Context `{LegacyCodecs} `{SettingTable} `{Sha256}.

Lemma opened_savable p bytes d :
  from_bytes p bytes = Ok d → is_legacy (encoding d) = false → closes (text_of (nodes d)) [] → savable d.
Proof.
  unfold from_bytes. destruct (decode bytes) as [[[text enc] mark]|e] eqn:Ed; [|done]. cbv zeta.
  intros <-%(inj Ok). cbn [encoding nodes]. rewrite parse_nodes_text. intros Hlegacy Hclosed.
  split; unfold ending; cbn [legacy_lines line_ending nodes encoding bom]; rewrite ?parse_nodes_text.
  - unfold original_legacy_lines. by rewrite Hlegacy.
  - split; rewrite ?parse_nodes_text.
    + unfold parse_nodes. rewrite parse_lines_raw. apply split_lined.
    + apply parse_lines_reads.
    + destruct (detect_line_ending text) eqn:E; [done..|]. intros _. by apply detected_cr.
    + done.
  - by eapply decode_encode.
  - by eapply decoded_mark.
Qed.

Lemma savable_read p d bytes :
  savable d → encoded d = Ok bytes → ∃ d', from_bytes p bytes = Ok d' ∧ Forall2 similar (nodes d') (nodes d).
Proof.
  intros [Hl [Hlines Hreads _ _] Ha Hm]. unfold encoded. rewrite Hl.
  destruct (encode _ _ _) as [bs|e] eqn:Ee; [|done]. cbn [result_bind]. destruct (_ <? _)%N; [done|]. intros <-%(inj Ok).
  unfold from_bytes. rewrite (encoded_is_decoded _ _ _ _ Ha Hm Ee). eexists. split; [done|]. cbn [nodes].
  unfold parse_nodes, text_of. rewrite lined_split by done. by apply reads_parse.
Qed.

Lemma similar_settings l l' : Forall2 similar l l' → setting_values l = setting_values l'.
Proof.
  intros Hl. unfold setting_values. generalize (∅ : gmap string F64). induction SETTINGS as [|s settings IH]; intros m; [done|].
  cbn [fold_left]. rewrite IH. do 2 f_equal. unfold setting_value. by rewrite (similar_raw_value l l').
Qed.

Lemma opened_values p bytes d : from_bytes p bytes = Ok d → saved_values d = setting_values (nodes d).
Proof. unfold from_bytes. destruct (decode bytes) as [[[text enc] mark]|e]; [|done]. by intros <-%(inj Ok). Qed.

(** C27. What was edited is what is read back.  A profile in UTF-8 or UTF-16 whose last line
    is closed is opened, any settings are updated, and the result is encoded: opening
    these bytes succeeds, and every value of every key, and so every setting, is what the
    editor showed before saving.  The settings of the table are plain, as those of the
    program are: their names fit on a line and are read as they are written. *)
Theorem edits_survive_saving p bytes d updates bytes'
  (Htable : Forall plain_setting SETTINGS)
  (Hopen : from_bytes p bytes = Ok d)
  (Hmodern : is_legacy (encoding d) = false)
  (Hclosed : closes (text_of (nodes d)) []) :
  let edited := fold_left (λ d update, (update_value update.1 update.2 d).1) updates d in
  encoded edited = Ok bytes' →
  ∃ d', from_bytes p bytes' = Ok d' ∧
    (∀ section key, raw_value d' section key = raw_value edited section key) ∧
    saved_values d' = setting_values (nodes edited).
Proof.
  intros edited He. assert (savable edited) as Hs.
  { unfold edited. pose proof (opened_savable p bytes d Hopen Hmodern Hclosed) as Hd. clear -Htable Hd. revert d Hd.
    induction updates as [|u updates IH]; intros d Hd; [done|]. apply IH. by apply update_value_savable. }
  destruct (savable_read p edited bytes' Hs He) as (d' & Hd' & Hsim). exists d'. split_and!; [done| |].
  - intros section key. by apply similar_raw_value.
  - rewrite (opened_values _ _ _ Hd'). by apply similar_settings.
Qed.
End Saving.

(** ** A last line that is not closed *)

Lemma parse_lines_app s l1 l2 :
  parse_lines s (l1 ++ l2) = parse_lines s l1 ++ parse_lines (section_after s (parse_lines s l1)) l2.
Proof. revert s. induction l1 as [|line l1 IH]; intros s; [done|]. cbn [app parse_lines]. by rewrite IH. Qed.

(** What stands between the separator and the break begins with no blank. *)
Lemma parse_line_value_head section line s key value prefix separator suffix raw :
  parse_line section line = KeyValue s key value prefix separator suffix raw → no_breaks line →
  ∀ c, head (value ++ suffix) = Some c → is_whitespace c = false.
Proof.
  intros Hp Hn. assert (line_body line = line) as Hb by (rewrite <- (app_nil_r line) at 1; by apply line_body_app).
  unfold parse_line in Hp. destruct (trim (line_body line)) as [|t0 trimmed] eqn:Et; [done|].
  destruct (is_comment (t0 :: trimmed)); [done|]. destruct (is_header _); [done|].
  destruct (position (N.eqb 61) (line_body line)) as [i|]; [|done]. cbv zeta in Hp.
  destruct (trim (take i (line_body line))); [done|]. injection Hp as _ _ <- _ _ <- _.
  rewrite Hb, drop_all, app_nil_r. intros c. set (after := drop (S i) line).
  destruct (trailing_space_split (trim_text_start after)) as [E _]. rewrite <- E. apply trim_start_head.
Qed.

Lemma unset_everywhere l section key : raw_value_of l section key = None ↔
  ∀ target, target ∈ target_sections section → existsb (is_value_of target key) l = false.
Proof.
  unfold raw_value_of. induction (target_sections section) as [|t ts IH]; cbn [find_value].
  - split; [|done]. intros _ t Ht. by apply not_elem_of_nil in Ht.
  - destruct (value_in l t key) eqn:Ev.
    + split; [done|]. intros Hall. rewrite (proj2 (value_in_none l t key)) in Ev by (apply Hall; by left). done.
    + rewrite IH. apply value_in_none in Ev. split; [|intros Hall t' Ht'; apply Hall; by right].
      by intros Hall t' [->|Ht']%elem_of_cons; [|apply Hall].
Qed.

(** The sections in which a key is looked for, the named one among them. *)
Lemma named_section section : ∃ target, target ∈ target_sections section ∧ lower target = lower section.
Proof.
  unfold target_sections. destruct (text_eq_ignore_case section (chars "General")) eqn:E.
  - apply ignore_case_spec in E. exists (chars "General"). split; [by right; left|done].
  - exists section. split; [by left|done].
Qed.

Section Unclosed.
Context `{LegacyCodecs} `{SettingTable} `{Sha256}.
Context (p : Path) (bytes : list ascii) (d : ProfileDocument) (front : list IniNode).
Context (section key value prefix separator suffix raw section' key' value' : Text).
Notation last_node := (KeyValue section key value prefix separator suffix raw).
Context (Hopen : from_bytes p bytes = Ok d) (Hmodern : is_legacy (encoding d) = false).
Context (Hlast : nodes d = front ++ [last_node]) (Hunclosed : no_breaks raw).
Context (Hsame : lower section' = lower section) (Hnamed : existsb (is_section_named section') (nodes d) = true).
Context (Hunset : raw_value d section' key' = None) (Hbracket : text_starts_with 91 key = false).
Context (Hclean : clean_entry section' key' value').

(** The last value with the new line behind it. *)
Definition joined_value : Text := value ++ suffix ++ key' ++ [61%N] ++ value'.

Lemma opened_lines : parse_lines [] (map node_raw front) = front ∧
  parse_line (section_after [] front) raw = last_node ∧ lined (map node_raw front ++ [raw]) ∧
  all_scalars (text_of (nodes d)) ∧ mark_fits (encoding d) (bom d) (text_of (nodes d)) ∧ legacy_lines d = None.
Proof.
  pose proof Hopen as Ho. unfold from_bytes in Ho. destruct (decode bytes) as [[[text enc] mark]|e] eqn:Ed; [|done].
  cbv zeta in Ho. apply (inj Ok) in Ho. assert (nodes d = parse_nodes text) as Hn by by rewrite <- Ho.
  assert (encoding d = enc ∧ bom d = mark) as [Ee Em] by by rewrite <- Ho. rewrite Ee in Hmodern.
  assert (legacy_lines d = None) as Hl by (rewrite <- Ho; cbn; unfold original_legacy_lines; by rewrite Hmodern).
  assert (map node_raw front ++ [raw] = split_lines text) as Hlines.
  { transitivity (map node_raw (nodes d)); [by rewrite Hlast, map_app|]. rewrite Hn. apply parse_lines_raw. }
  assert (parse_lines [] (map node_raw front) ++ [parse_line (section_after [] (parse_lines [] (map node_raw front))) raw] = front ++ [last_node]) as E.
  { rewrite <- Hlast, Hn. unfold parse_nodes. by rewrite <- Hlines, parse_lines_app. }
  apply app_inj_tail in E as [E1 E2]. rewrite E1 in E2. rewrite Hlines, Hn, parse_nodes_text, Ee, Em.
  split_and!; [done|done|apply split_lined|by eapply decode_encode|by eapply decoded_mark|done].
Qed.

(** The key is not that of the last line, and nowhere among the others. *)
Lemma unset_parts : lower key ≠ lower key' ∧ ∀ target, target ∈ target_sections section' → existsb (is_value_of target key') front = false.
Proof.
  pose proof Hunset as Hu. unfold raw_value in Hu. rewrite unset_everywhere, Hlast in Hu. split.
  - intros Ek. destruct (named_section section') as (target & Hin & Ht). specialize (Hu target Hin).
    rewrite existsb_app in Hu. apply orb_false_iff in Hu as [_ Hu]. cbn in Hu.
    assert (text_eq_ignore_case section target = true) as E1 by (apply ignore_case_spec; congruence).
    assert (text_eq_ignore_case key key' = true) as E2 by by apply ignore_case_spec. by rewrite E1, E2 in Hu.
  - intros target Hin. specialize (Hu target Hin). rewrite existsb_app in Hu. by apply orb_false_iff in Hu as [? _].
Qed.

(** The editor adds its line behind the last one. *)
Lemma appended e : set_nodes_value e section' key' (Some value') (nodes d) = front ++ [last_node; value_node section' key' value' e].
Proof.
  pose proof (set_nodes_written e section' key' value' (nodes d)) as Hw.
  pose proof (proj1 (unset_everywhere (nodes d) section' key') Hunset) as Hu.
  assert (target_section (nodes d) section' key' = section') as Et.
  { unfold target_section. destruct (List.find _ _) as [t|] eqn:Ef; [|done]. apply find_some in Ef as [Hin Ht].
    apply list_elem_of_In in Hin. by rewrite Hu in Ht. }
  rewrite Et in Hw. assert (existsb (is_value_of section' key') (nodes d) = false) as Hfree.
  { destruct (named_section section') as (target & Hin & Hl). rewrite <- (Hu target Hin). clear -Hl.
    induction (nodes d) as [|n l IH]; [done|]. cbn [existsb]. rewrite IH. f_equal. destruct n; try done. cbn. f_equal.
    unfold text_eq_ignore_case, lower in *. by rewrite Hl. }
  inversion Hw as [before x after E Hx Ha|before x after E Hx Ha Hn|Hs Hn]; [|clear Hw|congruence].
  - rewrite E, existsb_app in Hfree. cbn [existsb] in Hfree. by rewrite Hx, orb_true_r in Hfree.
  - rewrite Hlast in E. destruct after as [|y after] using rev_ind.
    + apply app_inj_tail in E as [-> ->]. done.
    + exfalso. rewrite app_comm_cons, app_assoc in E. apply app_inj_tail in E as [_ <-].
      rewrite existsb_app in Ha. apply orb_false_iff in Ha as [_ Ha]. cbn in Ha.
      by rewrite (proj2 (ignore_case_spec section section')) in Ha.
Qed.

(** What the parser makes of the joined line. *)
Lemma joined_line e : breaks e →
  let line := raw ++ key' ++ [61%N] ++ value' ++ e in
  parse_line (section_after [] front) line = KeyValue section key joined_value prefix separator e line ∧ is_line line ∧ head line = head raw ∧
  raw ≠ [].
Proof.
  intros He line. destruct opened_lines as (_ & Hp & Hl & _). pose proof (parse_line_value_head _ _ _ _ _ _ _ _ _ Hp Hunclosed) as Hh.
  destruct Hclean as [_ (Hkt & Hkn & _) _ (Hvt & Hvn)].
  apply parse_line_value in Hp as (-> & _ & Hk & Hne & Heq & Hcom & lead & trail & -> & Es & Hlead & Htrail & Hbody).
  assert (line_body raw = raw) as Eb by (rewrite <- (app_nil_r raw) at 1; by apply line_body_app).
  rewrite Eb, drop_all, app_nil_r in Es. rewrite Eb in Hbody. subst trail.
  assert (raw ≠ []) as Hraw by (rewrite Hbody; by destruct prefix).
  assert (no_breaks (raw ++ key' ++ [61%N] ++ value')) as Hnb.
  { unfold no_breaks in *. rewrite !Forall_app. split_and!; by repeat constructor. }
  assert (line = prefix ++ [61%N] ++ lead ++ joined_value ++ [] ++ e) as El.
  { unfold line, joined_value. rewrite Hbody. by rewrite <- !app_assoc. }
  split_and!; [| |by apply head_app_nonempty|done].
  - rewrite El at 1. rewrite parse_value_line; [by rewrite <- Hk, <- El|]. split; [done|by rewrite <- Hk|done|done|constructor| | | |by apply breaks_all].
    + unfold joined_value. split_and!.
      * destruct value; [|done]. destruct suffix; [|done]. by destruct key' as [|]; [destruct Hkt|].
      * intros c. rewrite app_assoc. destruct (value ++ suffix) as [|x l] eqn:Ev; [|by intros [= <-]; apply Hh].
        cbn [app]. rewrite head_app_nonempty by apply Hkt. apply Hkt.
      * intros c. rewrite !app_assoc, last_tight by done. apply Hvt.
    + rewrite starts_with_trim; [done|by rewrite <- Hk|by rewrite <- Hk].
    + rewrite app_nil_r. unfold joined_value. rewrite Hbody in Hnb. by rewrite <- !app_assoc in Hnb.
  - exists (raw ++ key' ++ [61%N] ++ value'), e. split_and!; [unfold line; by rewrite <- !app_assoc|done|by right|]. unfold line. by destruct raw.
Qed.
(** The edited profile, and what it is when its bytes are opened. *)
Lemma reopened dirty bytes' d' : all_scalars key' → all_scalars value' →
  let edited := set_raw_value section' key' (Some value') dirty d in
  encoded edited = Ok bytes' → from_bytes p bytes' = Ok d' →
  nodes edited = front ++ [last_node; value_node section' key' value' (ending d)] ∧
  ∃ e line, nodes d' = front ++ [KeyValue section key joined_value prefix separator e line].
Proof.
  intros Hsk Hsv edited He Ho. pose proof (ending_breaks d) as Hbreaks. set (e := ending d) in *.
  destruct opened_lines as (Hfront & _ & Hlined & Ha & Hm & Hlegacy).
  destruct (joined_line e Hbreaks) as (Hp & Hline & Hhead & Hraw). cbv zeta in *.
  set (line := raw ++ key' ++ [61%N] ++ value' ++ e) in *.
  assert (nodes edited = front ++ [last_node; value_node section' key' value' e]) as Hn by apply appended. split; [done|].
  assert (text_of (nodes edited) = text_of front ++ line) as Htext.
  { rewrite Hn, text_of_app. unfold line, text_of. cbn. by rewrite app_nil_r. }
  assert (all_scalars (text_of (nodes edited))) as Ha'.
  { rewrite Htext. rewrite Hlast, text_of_app in Ha. unfold all_scalars, line, text_of in *. cbn in Ha. rewrite app_nil_r in Ha.
    pose proof (break_scalars _ Hbreaks). rewrite !Forall_app in *. destruct Ha. split_and!; try done. by repeat constructor. }
  assert (mark_fits (encoding d) (bom d) (text_of (nodes edited))) as Hm'.
  { eapply mark_fits_head; [|exact Hm]. left. rewrite Htext, Hlast, text_of_app. destruct (text_of front); [|done].
    cbn [app]. unfold text_of. cbn. by rewrite app_nil_r. }
  assert (encoding edited = encoding d ∧ bom edited = bom d ∧ legacy_lines edited = None) as (E1 & E2 & E3) by done.
  unfold encoded in He. rewrite E1, E2, E3 in He. destruct (encode _ _ _) as [bs|] eqn:Ee; [|done].
  cbn [result_bind] in He. destruct (_ <? _)%N; [done|]. apply (inj Ok) in He as <-.
  unfold from_bytes in Ho. rewrite (encoded_is_decoded _ _ _ _ Ha' Hm' Ee) in Ho. cbv zeta in Ho. apply (inj Ok) in Ho as <-. cbn [nodes].
  exists e, line. rewrite Htext. unfold parse_nodes. assert (text_of front ++ line = concat (map node_raw front ++ [line])) as ->
    by (rewrite concat_app; unfold text_of; cbn; by rewrite app_nil_r).
  rewrite lined_split, parse_lines_app, Hfront; [cbn [parse_lines]; by rewrite Hp|].
  apply lined_app in Hlined as (Hl1 & _ & Hc). apply lined_app. split_and!; [done|cbn [lined]; split_and!; [done|by left|done]|].
  right. destruct Hc as [|Hc]; [done|]. eapply closes_head; [done|]. cbn [concat]. rewrite !app_nil_r. by rewrite Hhead.
Qed.
End Unclosed.

(** C39. A value written behind a last line without a line break is lost, with the value
    before it.  A profile in UTF-8 or UTF-16 ends in a line [key=value] that no line break
    closes, of a key that begins with no bracket; the editor is given a value for a key
    that has none yet, in the same section, whose header is in the profile.  The editor
    shows both values; but in the saved bytes the new line is joined to the last one, so
    that on opening the last value of [key] is the old one with everything behind it up to
    the end of [key'=value'], and [key'] has none. *)
Theorem unclosed_line_joins_the_next `{LegacyCodecs} `{SettingTable} `{Sha256}
  p bytes d front section key value prefix separator suffix raw section' key' value' dirty bytes' d'
  (Hopen : from_bytes p bytes = Ok d)
  (Hmodern : is_legacy (encoding d) = false)
  (Hlast : nodes d = front ++ [KeyValue section key value prefix separator suffix raw])
  (Hunclosed : no_breaks raw)
  (Hsame : lower section' = lower section)
  (Hnamed : existsb (is_section_named section') (nodes d) = true)
  (Hunset : raw_value d section' key' = None)
  (Hbracket : text_starts_with 91 key = false)
  (Hclean : clean_entry section' key' value')
  (Hscalars : all_scalars key' ∧ all_scalars value') :
  let edited := set_raw_value section' key' (Some value') dirty d in
  encoded edited = Ok bytes' → from_bytes p bytes' = Ok d' →
  (value_in (nodes edited) section key = Some value ∧ raw_value edited section' key' = Some value') ∧
  value_in (nodes d') section key = Some (value ++ suffix ++ key' ++ [61%N] ++ value') ∧
  raw_value d' section' key' = None.
Proof.
  destruct Hscalars as [Hsk Hsv]. intros edited He Hd'.
  destruct (unset_parts d front section key value prefix separator suffix raw section' key' Hlast Hsame Hunset) as [Hne Hfree].
  destruct (reopened p bytes d front section key value prefix separator suffix raw section' key' value' Hopen Hmodern Hlast
    Hunclosed Hsame Hnamed Hunset Hbracket Hclean dirty bytes' d' Hsk Hsv He Hd') as (Hn & e & line & Hn').
  assert (text_eq_ignore_case key key' = false ∧ text_eq_ignore_case key' key = false) as [Ek Ek'].
  { split; apply not_true_iff_false; rewrite ignore_case_spec; congruence. }
  split_and!.
  - fold edited in Hn. rewrite Hn. apply value_in_split; cbn; [by rewrite !ignore_case_refl|by rewrite Ek', andb_false_r].
  - apply setting_is_what_was_set.
  - rewrite Hn'. apply value_in_split; [cbn; by rewrite !ignore_case_refl|done].
  - unfold raw_value. apply unset_everywhere. intros target Hin. rewrite Hn', existsb_app, (Hfree target Hin). cbn.
    by rewrite Ek, andb_false_r.
Qed.

(** ** A profile *)

Definition example_codecs : LegacyCodecs := {| codec_decode := λ _ _, None; codec_encode := λ _ _, ([], true) |}.

Definition example_table : SettingTable :=
  {| SETTINGS := [{| id := "gamma"; setting_section := "General"; setting_key := "GammaValue"; value_type := SettingFloat;
       setting_min := of_integer 0; setting_max := of_integer 64; setting_default := of_integer 1;
       setting_factory := of_decimal false 14 (-1) |}] |}.

Definition example_lowercase : Lowercase := {| to_lowercase := map char_lowercase; to_lowercase_ascii := λ _ _, eq_refl |}.

#[local] Existing Instances example_codecs example_table example_lowercase.

Definition example_profile : list ascii := utf8 (chars "[General]" ++ [NL] ++ chars "GammaValue = 1.2" ++ [NL]).

Definition example_path : Path := [].

Definition example_document : ProfileDocument :=
  match from_bytes example_path example_profile with
  | Ok d => d
  | Err _ => {| path := []; encoding := Utf8; bom := BomNone; line_ending := Lf; nodes := []; original_hash := [];
                legacy_lines := None; saved_values := ∅; dirty_keys := ∅; undo_history := []; redo_history := [] |}
  end.

Lemma example_opens : from_bytes example_path example_profile = Ok example_document.
Proof. vm_compute. reflexivity. Qed.


Lemma example_table_plain : Forall plain_setting SETTINGS.
Proof.
  apply Forall_singleton. split; [|split]; [apply plain_entry|apply plain_text|apply plain_text]; (split; [done|]);
    by repeat constructor.
Defined.

(** Changed, saved and opened again. *)
Definition example_updates : list (string * F64) := [("gamma"%string, of_integer 2); ("missing"%string, of_integer 1)].

Lemma edits_survive_saving_witness :
  let opened := from_bytes example_path in
  let edited := fold_left (λ d update, (update_value update.1 update.2 d).1) example_updates example_document in
  encoded edited = Ok (utf8 (chars "[General]" ++ [NL] ++ chars "GammaValue = 2.0" ++ [NL])) ∧
  ∃ d', opened (utf8 (chars "[General]" ++ [NL] ++ chars "GammaValue = 2.0" ++ [NL])) = Ok d' ∧
    (∀ section key, raw_value d' section key = raw_value edited section key) ∧
    saved_values d' = setting_values (nodes edited).
Proof.
  intros opened edited. assert (encoded edited = Ok (utf8 (chars "[General]" ++ [NL] ++ chars "GammaValue = 2.0" ++ [NL]))) as He
    by (vm_compute; reflexivity).
  split; [exact He|]. refine (edits_survive_saving example_path example_profile example_document example_updates _ example_table_plain example_opens _ _ He).
  - vm_compute. reflexivity.
  - right. exists NL. split; [vm_compute; reflexivity|by left].
Defined.

(** A last line that is not closed, and another value written behind it. *)
Definition unclosed_profile : list ascii := utf8 (chars "[General]" ++ [NL] ++ chars "B=3" ++ [NL] ++ chars "A = 1 ").

Definition opened_or_example (r : result ProfileDocument string) : ProfileDocument :=
  match r with Ok d => d | Err _ => example_document end.

Definition unclosed_document : ProfileDocument := opened_or_example (from_bytes example_path unclosed_profile).

Definition joined_profile : list ascii :=
  utf8 (chars "[General]" ++ [NL] ++ chars "B=3" ++ [NL] ++ chars "A = 1 C=2" ++ [NL]).

Lemma unclosed_line_joins_the_next_witness :
  let edited := set_raw_value (chars "general") (chars "C") (Some (chars "2")) "c" unclosed_document in
  let d' := opened_or_example (from_bytes example_path joined_profile) in
  encoded edited = Ok joined_profile ∧
  (value_in (nodes edited) (chars "General") (chars "A") = Some (chars "1") ∧
   raw_value edited (chars "general") (chars "C") = Some (chars "2")) ∧
  value_in (nodes d') (chars "General") (chars "A") = Some (chars "1 C=2") ∧
  raw_value d' (chars "general") (chars "C") = None.
Proof.
  intros edited d'. assert (encoded edited = Ok joined_profile) as He by (vm_compute; reflexivity). split; [exact He|].
  refine (unclosed_line_joins_the_next example_path unclosed_profile unclosed_document (take 2 (nodes unclosed_document))
    (chars "General") (chars "A") (chars "1") (chars "A ") (chars "= ") (chars " ") (chars "A = 1 ")
    (chars "general") (chars "C") (chars "2") "c" joined_profile d' _ _ _ _ _ _ _ _ _ _ He _).
  all: try (vm_compute; reflexivity).
  - by repeat constructor.
  - apply plain_entry; (split; [done|by repeat constructor]).
  - split; by repeat constructor.
Defined.

Lemma unedited_profile_is_unchanged_witness :
  encoded example_document = Ok example_profile.
Proof.
  apply (unedited_profile_is_unchanged example_path example_profile example_document example_opens).
  vm_compute. intros E. discriminate E.
Defined.

Lemma edits_can_be_undone_witness :
  let step := editor_step in
  let d := step example_document (UpdateValue "gamma" (of_integer 2)) in
  ∃ d', undo d = (d', true) ∧ revision d' = revision example_document ∧ redo d' = (d, true).
Proof.
  intros step d. destruct (edits_can_be_undone [UpdateValue "gamma" (of_integer 2)] example_document
    ltac:(vm_compute; reflexivity) ltac:(vm_compute; reflexivity)) as (_ & Hundo & _ & _).
  assert (undo_history d = [revision example_document]) as Eh by (vm_compute; reflexivity).
  assert (∃ d', undo d = (d', true) ∧ revision d' = revision example_document) as (d' & Hd' & Hr).
  { unfold undo. rewrite Eh. eexists. split; [reflexivity|reflexivity]. }
  exists d'. split; [exact Hd'|]. split; [exact Hr|]. apply (Hundo d' Hd').
Defined.
