(* ===== verification/ProfileSaving.v ===== *)
(** * Saving, exporting and duplicating a profile

    [control-center/src-tauri/src/bounded_io.rs] and
    [control-center/src-tauri/src/profile/storage.rs]: a profile is read with a bound, and
    saved through a temporary file that takes the place of the old one, of which a backup
    is kept. *)

From stdpp Require Import pretty.
From S2P Require Export Storage ProfileRoundtrip.

(** The files of a disk; [nodes] is that of a document here. *)
Abbreviation files := Storage.nodes.

(** [.map_err(|error| error.to_string())] *)
Definition in_words {A : Type} (m : M Disk (result A IoError)) : M Disk (result A string) :=
  let! r := m in ret (map_err io_text r).

(** ** Names *)

(** The name before and behind its last dot, if it does not start there. *)
Definition split_extension (name : string) : string * option string :=
  match position (λ b, (b =? ".")%char) (rev (str_bytes name)) with
  | None => (name, None)
  | Some i =>
      let stem := take (length (str_bytes name) - S i) (str_bytes name) in
      if bool_decide (stem = []) then (name, None)
      else (bytes_str stem, Some (bytes_str (drop (S (length stem)) (str_bytes name))))
  end.

Definition file_stem (p : Path) : option string := option_map (λ name, (split_extension name).1) (file_name p).
Definition path_extension (p : Path) : option string :=
  match file_name p with Some name => (split_extension name).2 | None => None end.

(** [path.with_extension(e)] *)
Definition with_extension (p : Path) (e : string) : Path :=
  match file_stem p with Some stem => with_file_name p (stem ++ "." ++ e) | None => p end.

Section Files.
Context `{World}.

(** ** Reading with a bound *)

Definition read_bounded_file (p : Path) (maximum_bytes : N) (allow_empty : bool) (description : string) :
    M Disk (result (list ascii) string) :=
  let? _ := in_words (open_read p) in
  let? metadata := in_words (fs_metadata p) in
  let limit := (description ++ " exceeds its " ++ pretty maximum_bytes ++ "-byte limit")%string in
  match metadata with
  | DirectoryMetadata => ret (Err (description ++ " is not a regular file")%string)
  | RegularFile len =>
      if (maximum_bytes <? len)%N then ret (Err limit)
      else
        let? bytes := in_words (read_to_end (maximum_bytes + 1) p) in
        if (maximum_bytes <? bytes_len bytes)%N then ret (Err limit)
        else if negb allow_empty && bool_decide (bytes = []) then ret (Err (description ++ " must not be empty")%string)
        else ret (Ok bytes)
  end.

(** [File::create(p)], and opening to write with [create] and [truncate]. *)
Definition create_truncated (p : Path) : M Disk (result unit IoError) :=
  os_write (λ _ m,
    match m !! p with
    | None | Some (File _) => Ok (<[p := File []]> m)
    | Some (Link (ToFile _)) | Some (Link Dangling) => Ok (<[p := Link (ToFile [])]> m)
    | Some Directory | Some (Link ToDirectory) => Err (io_error WrongKind)
    end).

(** The platform's [replace_file_preserving_attributes], the function [ReplaceFileW]: the
    replacement takes the place of the file, which becomes the backup.  It can fail in
    between: the file is then found under the name of the backup, and the replacement
    under its own. *)
Definition replace_keeping_backup (replaced replacement backup : Path) : M Disk (result unit IoError) :=
  os_write (λ partial m,
    match m !! replaced, m !! replacement, m !! backup with
    | _, _, Some Directory => Err (io_error WrongKind)
    | Some (File old), Some (File new), _ =>
        match partial with
        | Some 0 => Ok (<[backup := File old]> (delete replaced m))
        | _ => Ok (<[replaced := File new]> (<[backup := File old]> (delete replacement m)))
        end
    | None, _, _ | _, None, _ => Err (io_error Missing)
    | _, _, _ => Err (io_error WrongKind)
    end).

Context `{LegacyCodecs} `{SettingTable} `{Sha256}.

(** [ProfileDocument::open] *)
Definition open_document (p : Path) : M Disk (result ProfileDocument string) :=
  let? bytes := read_bounded_file p MAX_PROFILE_BYTES true "profile" in
  ret (from_bytes p bytes).

Definition is_dirty (d : ProfileDocument) : bool := negb (bool_decide (dirty_keys d = ∅)).

(** *** Saving *)

Definition temporary_path (p : Path) : Path :=
  with_file_name p ("." ++ default "profile.ini" (file_name p) ++ ".mactype-" ++ pretty process_id ++ ".tmp").

Definition backup_of (p : Path) : Path := with_extension p "ini.bak".

(** The document after its bytes were saved. *)
Definition saved_document (bytes : list ascii) (d : ProfileDocument) : ProfileDocument :=
  {| path := path d; encoding := encoding d; bom := bom d; line_ending := line_ending d; nodes := nodes d;
     original_hash := sha256 bytes; legacy_lines := original_legacy_lines bytes (text_of (nodes d)) (encoding d);
     saved_values := setting_values (nodes d); dirty_keys := ∅; undo_history := []; redo_history := [] |}.

(** What is written before the old file is touched. *)
Definition write_temporary (temporary : Path) (bytes : list ascii) : M Disk (result unit IoError) :=
  let? _ := create_truncated temporary in
  let? _ := append_all temporary bytes in
  sync_all temporary.

Definition save (d : ProfileDocument) : M Disk (ProfileDocument * result unit string) :=
  let! disk := read_bounded_file (path d) MAX_PROFILE_BYTES true "profile on disk" in
  match disk with
  | Err e => ret (d, Err e)
  | Ok disk =>
      if negb (bool_decide (sha256 disk = original_hash d))
      then ret (d, Err "profile changed on disk; reload before saving")
      else
        match encoded d with
        | Err e => ret (d, Err e)
        | Ok bytes =>
            let temporary := temporary_path (path d) in
            let! written := write_temporary temporary bytes in
            match written with
            | Err e => ret (d, Err (io_text e))
            | Ok _ =>
                let! replaced := replace_keeping_backup (path d) temporary (backup_of (path d)) in
                match replaced with
                | Err e => let! _ := remove_file temporary in ret (d, Err (io_text e))
                | Ok _ => ret (saved_document bytes d, Ok tt)
                end
            end
        end
  end.

(** *** Exporting and duplicating *)

Definition export_to (d : ProfileDocument) (destination : Path) : M Disk (result unit string) :=
  let missing := Err "export destination directory does not exist" in
  match path_parent destination with
  | None => ret missing
  | Some parent =>
      let! present := is_dir parent in
      if negb present then ret missing
      else if bool_decide (file_name destination = None) || bool_decide (parent = destination)
      then ret (Err "export destination must be an INI file")
      else
        match encoded d with
        | Err e => ret (Err e)
        | Ok bytes => in_words (write_temporary destination bytes)
        end
  end.

(** [trim_end_matches(".ini")] *)
Fixpoint strip_ini (fuel : nat) (l : Text) : Text :=
  match fuel with
  | O => l
  | S fuel' =>
      match rev l with
      | i2 :: n :: i1 :: dot :: rest =>
          if bool_decide ([dot; i1; n; i2] = chars ".ini") then strip_ini fuel' (rev rest) else l
      | _ => l
      end
  end.

Definition reserved_characters : Text := [60; 62; 58; 34; 47; 92; 124; 63; 42]%N.

Definition duplicate_in (d : ProfileDocument) (directory : Path) (name : Text) : M Disk (result ProfileDocument string) :=
  let trimmed := trim name in
  let stem := strip_ini (length trimmed) trimmed in
  match validate_entry stem "profile name" with
  | Err e => ret (Err e)
  | Ok _ =>
      if existsb (λ c, existsb (N.eqb c) reserved_characters) stem
      then ret (Err "profile name contains a Windows-reserved character")
      else
        let? _ := in_words (create_dir_all directory) in
        let destination := path_join directory (shown stem ++ ".ini") in
        let! present := path_exists destination in
        if present then ret (Err "a profile with that name already exists")
        else
          match encoded d with
          | Err e => ret (Err e)
          | Ok bytes =>
              let? _ := in_words (create_new destination) in
              let? _ := in_words (write_all destination bytes) in
              let? _ := in_words (sync_all destination) in
              open_document destination
          end
  end.
End Files.

(** ** The names of a save are different *)

Lemma with_file_name_snoc parent old new : with_file_name (parent ++ [old]) new = parent ++ [new].
Proof. unfold with_file_name, path_parent, path_join. rewrite rev_app_distr. cbn. by rewrite rev_involutive. Qed.

Lemma file_name_snoc parent name : file_name (parent ++ [name]) = Some name.
Proof. apply last_snoc. Qed.

Lemma names_differ parent a b : str_bytes a ≠ str_bytes b → parent ++ [a] ≠ parent ++ [b].
Proof. intros Hne [_ E]%app_inj_tail. by apply Hne; f_equal. Qed.

Lemma split_extension_ext stem : stem ≠ [] → split_extension (bytes_str (stem ++ str_bytes ".bak")) = (bytes_str stem, Some "bak"%string).
Proof.
  intros Hne. unfold split_extension. rewrite str_bytes_str, rev_app_distr. cbn [rev app str_bytes list_ascii_of_string position option_map].
  cbn [Ascii.eqb Bool.eqb option_map]. set (whole := stem ++ _). assert (length whole - 4 = length stem) as -> by (unfold whole; rewrite length_app; cbn; lia).
  assert (take (length stem) whole = stem) as -> by apply take_app_length.
  assert (drop (S (length stem)) whole = str_bytes "bak") as -> by (unfold whole; by rewrite <- Nat.add_1_r, drop_app_add).
  rewrite bool_decide_false by done. done.
Qed.

Lemma backup_differs parent name : backup_of (parent ++ [name]) ≠ parent ++ [name].
Proof.
  unfold backup_of, with_extension, file_stem. rewrite file_name_snoc. cbn [option_map]. rewrite with_file_name_snoc. intros E.
  apply app_inj_tail in E as [_ E]. assert (str_bytes name = (str_bytes (split_extension name).1 ++ str_bytes ".ini") ++ str_bytes ".bak") as En.
  { rewrite <- E at 1. by rewrite !str_bytes_app, <- app_assoc. }
  set (stem := str_bytes (split_extension name).1) in *.
  assert (name = bytes_str ((stem ++ str_bytes ".ini") ++ str_bytes ".bak")) as Hname by (apply str_bytes_inj; by rewrite str_bytes_str).
  pose proof (split_extension_ext (stem ++ str_bytes ".ini")) as Hs. rewrite <- Hname in Hs. unfold stem at 2 in Hs.
  assert (stem = stem ++ str_bytes ".ini") as E2.
  { unfold stem at 1. rewrite Hs; [|by destruct stem]. cbn [fst]. by rewrite str_bytes_str. }
  apply (f_equal length) in E2. rewrite length_app in E2. cbn in E2. lia.
Qed.

Section Names.
Context `{World}.

Lemma temporary_path_differs parent name : temporary_path (parent ++ [name]) ≠ parent ++ [name].
Proof.
  unfold temporary_path. rewrite with_file_name_snoc, file_name_snoc. cbn [default from_option]. apply names_differ.
  rewrite !str_bytes_app. intros E. apply (f_equal length) in E. rewrite !length_app in E. cbn in E. unfold str_bytes in E. lia.
Qed.

Lemma temporary_is_not_backup parent name : temporary_path (parent ++ [name]) ≠ backup_of (parent ++ [name]).
Proof.
  unfold temporary_path, backup_of, with_extension, file_stem. rewrite file_name_snoc. cbn [option_map]. rewrite !with_file_name_snoc.
  apply names_differ. cbn [default from_option]. rewrite !str_bytes_app. intros E. apply (f_equal last) in E.
  change (str_bytes ".tmp") with (str_bytes ".tm" ++ ["p"%char]) in E. change (str_bytes "ini.bak") with (str_bytes "ini.ba" ++ ["k"%char]) in E.
  rewrite !app_assoc, !last_snoc in E. discriminate E.
Qed.
End Names.

(** ** What a save goes through *)

Section SaveSpec.
Context `{World} `{LegacyCodecs} `{SettingTable} `{Sha256}.

Lemma in_words_spec {A : Type} (P : Nodes → Prop) (m : M Disk (result A IoError)) Q d :
  spec P m (λ r, Q (map_err io_text r)) d → spec P (in_words m) Q d.
Proof. intros Hm. eapply spec_bind; [exact Hm|]. intros r d' _ ?. by apply spec_ret. Qed.

Lemma words_read_spec {A : Type} (P : Nodes → Prop) (f : Nodes → result A IoError) (d : Disk) :
  spec P (in_words (os_read f)) (λ r d', files d' = files d ∧ ∀ a, r = Ok a → f (files d) = Ok a) d.
Proof.
  apply in_words_spec. eapply spec_post; [apply os_read_spec|]. intros r d' _ [Hn Hr].
  split; [done|]. intros a Ha. destruct Hr as [->|(e & -> & _)]; [|done].
  destruct (f (files d)); cbn [map_err] in Ha; [|done]. by apply (inj Ok) in Ha as ->.
Qed.

(** What a bounded read gives. *)
Lemma bounded_read_spec (P : Nodes → Prop) p maximum allow_empty description (d : Disk) :
  spec P (read_bounded_file p maximum allow_empty description) (λ r d', files d' = files d ∧
    ∀ bytes, r = Ok bytes → readable (files d) p = Ok bytes ∧ (bytes_len bytes <= maximum)%N) d.
Proof.
  unfold read_bounded_file. try_then words_read_spec; [|by intros e d1 _ [? _]].
  intros [] d1 _ [Hn1 _]. try_then words_read_spec.
  2: { intros e d2 _ [Hn2 _]. split; [by rewrite Hn2|done]. }
  intros metadata d2 _ [Hn2 _]. cbv zeta. destruct metadata as [len|]; [|apply spec_ret; split; [by rewrite Hn2|done]].
  destruct (maximum <? len)%N; [apply spec_ret; split; [by rewrite Hn2|done]|]. try_then words_read_spec.
  2: { intros e d3 _ [Hn3 _]. split; [by rewrite Hn3, Hn2|done]. }
  intros bytes d3 _ [Hn3 Hread]. specialize (Hread _ eq_refl).
  destruct (_ <? bytes_len bytes)%N eqn:El; [apply spec_ret; split; [by rewrite Hn3, Hn2|done]|].
  destruct (negb allow_empty && _); apply spec_ret; (split; [by rewrite Hn3, Hn2|]); [done|].
  intros b <-%(inj Ok). rewrite Hn2, Hn1 in Hread. destruct (readable (files d) p) as [full|]; [|done].
  cbn [result_bind] in Hread. rewrite take_bytes_eq in Hread. apply (inj Ok) in Hread as <-. andb_split.
  split; [|done]. f_equal. symmetry. apply take_ge. unfold bytes_len in *. rewrite length_take in *. lia.
Qed.

Context (parent : Path) (name : string).
Notation p := (parent ++ [name]).
Notation temporary := (temporary_path p).
Notation backup := (backup_of p).
Context (before : Nodes) (old new : list ascii).

(** The old profile is in its place, or the new one is and the old one is the backup; or
    the replacement was interrupted, and the old profile is only the backup.  No other
    file was touched. *)
Definition kept (m : Nodes) : Prop :=
  (m !! p = Some (File old) ∨
   m !! backup = Some (File old) ∧ (m !! p = Some (File new) ∨ m !! p = None)) ∧
  ∀ q, q ≠ p → q ≠ temporary → q ≠ backup → m !! q = before !! q.

Lemma kept_temporary m m' : kept m → (∀ q, q ≠ temporary → m' !! q = m !! q) → kept m'.
Proof.
  intros [Hm Hrest] Heq. pose proof (temporary_path_differs parent name). pose proof (temporary_is_not_backup parent name).
  split; [rewrite !Heq by done; exact Hm|]. intros q Hp Ht Hb. rewrite Heq by done. by apply Hrest.
Qed.

Lemma write_temporary_spec d :
  kept (files d) →
  spec kept (write_temporary temporary new) (λ r d',
    kept (files d') ∧ (∀ q, q ≠ temporary → files d' !! q = files d !! q) ∧
    (r = Ok tt → ∃ n, files d' !! temporary = Some n ∧ readable (files d') temporary = Ok new)) d.
Proof.
  intros Hk. unfold write_temporary, create_truncated.
  assert (∀ m', match files d !! temporary with
      | None | Some (File _) => Ok (<[temporary := File []]> (files d))
      | Some (Link (ToFile _)) | Some (Link Dangling) => Ok (<[temporary := Link (ToFile [])]> (files d))
      | Some Directory | Some (Link ToDirectory) => Err (io_error WrongKind)
      end = Ok m' → (∃ n, m' = <[temporary := n]> (files d) ∧ readable m' temporary = Ok [])) as Hcreate.
  { intros m'. destruct (files d !! temporary) as [[bytes| |[bytes| |]]|]; try done; intros <-%(inj Ok);
      (eexists; split; [done|]; unfold readable; by rewrite lookup_insert_eq). }
  assert (∀ n, kept (<[temporary := n]> (files d))) as Hkn by (intros n; eapply kept_temporary; [done|]; intros q Hq; by rewrite lookup_insert_ne).
  try_then os_write_spec.
  { intros _ m' (n & -> & _)%Hcreate. apply Hkn. }
  2: { intros e d1 _ Hd1. destruct Hd1 as [->|[_ (n & -> & _)%Hcreate]]; [done|]. split_and!; [apply Hkn| |done].
       intros q Hq. by rewrite lookup_insert_ne. }
  intros [] d1 _ Hd1. apply Hcreate in Hd1 as (n & Hd1 & Hr1). unfold append_all.
  assert (∀ partial m', (let written := match partial with Some k => take k new | None => new end in
      match files d1 !! temporary with
      | Some (File old) => Ok (<[temporary := File (old ++ written)]> (files d1))
      | Some (Link (ToFile old)) => Ok (<[temporary := Link (ToFile (old ++ written))]> (files d1))
      | _ => Err (io_error WrongKind)
      end) = Ok m' → (∃ n, m' = <[temporary := n]> (files d)) ∧ readable m' temporary = Ok (match partial with Some k => take k new | None => new end)) as Happend.
  { intros partial m'. cbv zeta. unfold readable in Hr1. destruct (files d1 !! temporary) as [[bytes| |[bytes| |]]|] eqn:Et; try done;
      apply (inj Ok) in Hr1 as ->; intros <-%(inj Ok); rewrite Hd1, insert_insert_eq; (split; [by eexists|]);
      unfold readable; by rewrite lookup_insert_eq. }
  try_then os_write_spec.
  { intros partial m' Hm'. destruct (Happend partial m' Hm') as [[k ->] _]. apply Hkn. }
  2: { intros e d2 _ Hd2. assert (∃ k, files d2 = <[temporary := k]> (files d)) as [k ->].
       { destruct Hd2 as [->|[partial Hd2]]; [by eexists|]. by destruct (Happend partial _ Hd2) as [Hk2 _]. }
       split_and!; [apply Hkn| |done]. intros q Hq. by rewrite lookup_insert_ne. }
  intros [] d2 _ Hd2. destruct (Happend None _ Hd2) as [[k Hk2] Hr2]. unfold sync_all.
  eapply spec_post; [apply os_read_spec|]. intros r d3 _ [-> _]. rewrite Hk2 in *. split_and!; [apply Hkn| |].
  - intros q Hq. by rewrite lookup_insert_ne.
  - intros _. exists k. split; [by rewrite lookup_insert_eq|done].
Qed.

(** The replacement, from a state in which the old profile is in its place. *)
Lemma replacement_spec d :
  kept (files d) → files d !! p = Some (File old) → readable (files d) temporary = Ok new →
  spec kept (replace_keeping_backup p temporary backup) (λ r d',
    kept (files d') ∧ (r = Ok tt → files d' !! p = Some (File new) ∧ files d' !! backup = Some (File old))) d.
Proof.
  intros Hk Hp Ht. unfold replace_keeping_backup.
  pose proof (temporary_path_differs parent name) as Htp. pose proof (temporary_is_not_backup parent name) as Htb.
  pose proof (backup_differs parent name) as Hbp.
  set (step partial := match files d !! p, files d !! temporary, files d !! backup with
    | _, _, Some Directory => Err (io_error WrongKind)
    | Some (File old), Some (File new), _ =>
        match partial with
        | Some 0 => Ok (<[backup := File old]> (delete p (files d)))
        | _ => Ok (<[p := File new]> (<[backup := File old]> (delete temporary (files d))))
        end
    | None, _, _ | _, None, _ => Err (io_error Missing)
    | _, _, _ => Err (io_error WrongKind)
    end).
  assert (∀ partial m', step partial = Ok m' → kept m' ∧ (partial = None → m' !! p = Some (File new) ∧ m' !! backup = Some (File old))) as Hstep.
  { intros partial m'. unfold step. rewrite Hp. unfold readable in Ht. destruct Hk as [_ Hrest].
    assert (∀ m1, kept (<[p := File new]> (<[backup := File old]> m1)) ↔ (∀ q, q ≠ p → q ≠ temporary → q ≠ backup → m1 !! q = before !! q)) as Hfull.
    { intros m1. unfold kept. rewrite lookup_insert_eq, lookup_insert_ne, lookup_insert_eq by done. split.
      - intros [_ H4] q H5 H6 H7. specialize (H4 q H5 H6 H7). by rewrite !lookup_insert_ne in H4.
      - intros H4. split; [right; split; [done|by left]|]. intros q H5 H6 H7. rewrite !lookup_insert_ne by done. by apply H4. }
    destruct (files d !! temporary) as [[bytes| |[bytes| |]]|] eqn:Et; try done; [|by destruct (files d !! backup) as [[]|]].
    apply (inj Ok) in Ht as ->.
    assert ((match partial with
        | Some 0 => Ok (<[backup := File old]> (delete p (files d)))
        | _ => Ok (<[p := File new]> (<[backup := File old]> (delete temporary (files d)))) end : result Nodes IoError) = Ok m' →
      kept m' ∧ (partial = None → m' !! p = Some (File new) ∧ m' !! backup = Some (File old))) as Hcase.
    { destruct partial as [[|n]|]; intros <-%(inj Ok).
      - split; [|done]. split; [right; split; [by rewrite lookup_insert_eq|right]|].
        + by rewrite lookup_insert_ne, lookup_delete_eq.
        + intros q H4 H5 H6. rewrite lookup_insert_ne, lookup_delete_ne by done. by apply Hrest.
      - split; [|done]. apply Hfull. intros q H4 H5 H6. rewrite lookup_delete_ne by done. by apply Hrest.
      - split; [apply Hfull; intros q H4 H5 H6; rewrite lookup_delete_ne by done; by apply Hrest|]. intros _.
        rewrite lookup_insert_eq, lookup_insert_ne, lookup_insert_eq by done. done. }
    intros E. apply Hcase. destruct (files d !! backup) as [[]|]; done. }
  eapply spec_post; [apply os_write_spec; intros partial m' Hm'; by apply (Hstep partial)|].
  intros r d' _ Hr. destruct r as [[]|e].
  - destruct (Hstep None _ Hr) as [H4 H5]. split; [done|]. intros _. by apply H5.
  - split; [|done]. destruct Hr as [->|[partial Hr]]; [done|]. by destruct (Hstep partial _ Hr).
Qed.

Lemma remove_temporary_spec d : kept (files d) → spec kept (remove_file temporary) (λ _ d', kept (files d')) d.
Proof.
  intros Hk. unfold remove_file.
  assert (∀ m', match files d !! temporary with
      | Some (File _) | Some (Link _) => Ok (delete temporary (files d))
      | Some Directory => Err (io_error WrongKind)
      | None => Err (io_error Missing)
      end = Ok m' → kept m') as Hm.
  { intros m' E. eapply kept_temporary; [exact Hk|]. intros q Hq.
    assert (m' = delete temporary (files d)) as -> by (destruct (files d !! temporary) as [[]|]; by inversion E).
    by rewrite lookup_delete_ne. }
  eapply spec_post; [apply os_write_spec; by intros _|]. intros r d' _ Hr. destruct r as [[]|e]; [by apply Hm|].
  destruct Hr as [->|[_ Hr]]; [done|by apply Hm].
Qed.
End SaveSpec.

Section Save.
Context `{World} `{LegacyCodecs} `{SettingTable} `{Sha256}.

Lemma save_spec (d : ProfileDocument) parent name old disk :
  path d = parent ++ [name] → files disk !! path d = Some (File old) →
  let new := match encoded d with Ok bytes => bytes | Err _ => [] end in
  spec (kept parent name (files disk) old new) (save d) (λ a disk',
    kept parent name (files disk) old new (files disk') ∧
    match a.2 with
    | Ok _ => sha256 old = original_hash d ∧ encoded d = Ok new ∧ a.1 = saved_document new d ∧
        files disk' !! path d = Some (File new) ∧ files disk' !! backup_of (path d) = Some (File old)
    | Err _ => a.1 = d
    end) disk.
Proof.
  intros Hpath Hold new. unfold save. rewrite Hpath in *.
  assert (kept parent name (files disk) old new (files disk)) as Hk by (split; [by left|done]).
  spec_then bounded_read_spec. intros [bytes|e] d1 _ [Hn1 Hread]; [|apply spec_ret; rewrite Hn1; done].
  destruct (Hread bytes eq_refl) as [Hb _]. unfold readable in Hb. rewrite Hold in Hb. apply (inj Ok) in Hb as <-.
  destruct (bool_decide (sha256 old = original_hash d)) eqn:Eh; cbn [negb]; [|apply spec_ret; rewrite Hn1; done].
  apply bool_decide_eq_true in Eh. destruct (encoded d) as [bytes|e] eqn:Ee; [|apply spec_ret; rewrite Hn1; done]. cbv zeta. subst new.
  eapply spec_bind; [apply (write_temporary_spec parent name (files disk) old); by rewrite Hn1|].
  intros [[]|e] d2 _ (Hk2 & Hsame & Hok); [|by apply spec_ret].
  destruct (Hok eq_refl) as (n & Ht & Hr).
  eapply spec_bind; [apply (replacement_spec parent name (files disk) old bytes); [done| |done]|].
  { rewrite Hsame by (apply not_eq_sym, temporary_path_differs). by rewrite Hn1. }
  intros [[]|e] d3 _ [Hk3 Hdone].
  - apply spec_ret. split; [done|]. destruct (Hdone eq_refl). done.
  - eapply spec_bind; [by apply (remove_temporary_spec parent name (files disk) old bytes)|]. intros r d4 _ Hk4. by apply spec_ret.
Qed.

(** C28. Saving never loses the profile.  Whatever call fails and wherever a save stops, in
    every state it goes through the old profile is in its place, or the new one is and
    the old one is the backup, or, after an interrupted replacement, the old one is the
    backup alone; no other file but the temporary one is touched.  When the save succeeds
    the profile was not changed by others, it holds what the document encodes, the backup
    holds what it held, and the document has nothing left to save; when it fails the
    document is as it was, with its edits. *)
Theorem saving_never_loses_the_profile (d : ProfileDocument) parent name old disk
  (Hpath : path d = parent ++ [name]) (Hold : files disk !! path d = Some (File old)) :
  let new := match encoded d with Ok bytes => bytes | Err _ => [] end in
  ∃ d' r disk', save d disk = Some ((d', r), disk') ∧
    (∀ m, visited disk disk' m → kept parent name (files disk) old new m) ∧
    match r with
    | Ok _ => sha256 old = original_hash d ∧ encoded d = Ok new ∧
        files disk' !! path d = Some (File new) ∧ files disk' !! backup_of (path d) = Some (File old) ∧
        nodes d' = nodes d ∧ original_hash d' = sha256 new ∧ saved_values d' = setting_values (nodes d) ∧
        is_dirty d' = false ∧ undo d' = (d', false)
    | Err _ => d' = d
    end.
Proof.
  intros new. destruct (spec_runs _ _ _ _ (save_spec d parent name old disk Hpath Hold)) as ([d' r] & disk' & E & Hrun & _ & Hr).
  exists d', r, disk'. split_and!; [done| |].
  - intros m Hm. by eapply run_visited.
  - cbn [fst snd] in Hr. destruct r; [|done]. destruct Hr as (Hh & He & -> & Hf & Hb). split_and!; try done.
Qed.

(** What a save wrote is what the next opening shows. *)
Lemma saved_is_opened (d : ProfileDocument) bytes disk :
  savable d → encoded d = Ok bytes → (bytes_len bytes <= MAX_PROFILE_BYTES)%N → files disk !! path d = Some (File bytes) →
  spec (λ m, m = files disk) (open_document (path d)) (λ r _, ∀ d', r = Ok d' → Forall2 similar (nodes d') (nodes d)) disk.
Proof.
  intros Hs He Hlen Hf. unfold open_document. try_then bounded_read_spec; [|done].
  intros b d1 _ [_ Hread]. apply spec_ret. intros d'. destruct (Hread b eq_refl) as [Hb _]. unfold readable in Hb.
  rewrite Hf in Hb. apply (inj Ok) in Hb as <-. destruct (savable_read (path d) d bytes Hs He) as (d2 & -> & Hsim).
  by intros <-%(inj Ok).
Qed.
End Save.

(** ** A save *)

#[local] Existing Instances example_world example_codecs example_table example_lowercase.

Definition example_ini : Path := ["C:"; "Profiles"; "mine.ini"].

Definition example_edited : ProfileDocument :=
  match from_bytes example_ini example_profile with
  | Ok d => (update_value "gamma" (of_integer 2) d).1
  | Err _ => example_document
  end.

Definition example_edited_bytes : list ascii := utf8 (chars "[General]" ++ [NL] ++ chars "GammaValue = 2.0" ++ [NL]).

Lemma saving_never_loses_the_profile_witness :
  let before := disk_of {[ example_ini := File example_profile ]} in
  ∃ d' disk', save example_edited before = Some ((d', Ok tt), disk') ∧
    files disk' !! example_ini = Some (File example_edited_bytes) ∧
    files disk' !! ["C:"; "Profiles"; "mine.ini.bak"] = Some (File example_profile) ∧ is_dirty d' = false.
Proof.
  intros before. assert (path example_edited = ["C:"; "Profiles"] ++ ["mine.ini"]) as Hp by (vm_compute; reflexivity).
  assert (encoded example_edited = Ok example_edited_bytes) as He by (vm_compute; reflexivity).
  assert (files before !! path example_edited = Some (File example_profile)) as Hf by (vm_compute; reflexivity).
  destruct (saving_never_loses_the_profile example_edited ["C:"; "Profiles"] "mine.ini" example_profile before Hp Hf)
    as (d' & r & disk' & E & _ & Hr).
  assert (match save example_edited before with Some ((_, Ok _), _) => true | _ => false end = true) as Hok by (vm_compute; reflexivity).
  rewrite E in Hok. destruct r as [[]|]; [|discriminate Hok]. rewrite He in Hr. destruct Hr as (_ & _ & Hnew & Hbackup & _ & _ & _ & Hclean & _).
  exists d', disk'. split_and!; [exact E|exact Hnew| |exact Hclean].
  assert (backup_of (path example_edited) = ["C:"; "Profiles"; "mine.ini.bak"]) as Hb by (vm_compute; reflexivity).
  rewrite <- Hb. exact Hbackup.
Defined.
