(* ===== verification/ProfileCommands.v ===== *)
(** * The commands of the profile editor

    [control-center/src-tauri/src/profile/state.rs], [commands.rs], [identity.rs] and
    [legacy.rs] below [control-center/src-tauri/src/profile/], and [installation_root] of
    [lib.rs]: the one open document behind its lock, and what the interface can ask for.
    The environment variables, the location of the executable, the resolution of links and
    the read-only attribute are those of the process, the interface [ProfileEnvironment]. *)

From stdpp Require Import pretty.
From S2P Require Export ProfileSaving.

Class ProfileEnvironment := {
  env_var : string → option Path;
  current_exe : option Path;
  canonicalize : Nodes → Path → result Path IoError;
  read_only : Path → bool
}.

Inductive ProfileLocation := Installation | Personal | External.

#[export] Instance ProfileLocation_eq_dec : EqDecision ProfileLocation.
Proof. solve_decision. Defined.

Record ProfileIdentity := { identity_display_path : string; identity_location : ProfileLocation; identity_can_save : bool }.

Record ProfileEntry := { entry_file_name : string; entry_path : string; entry_display_path : string }.

Record ProfileLists := {
  exclude_fonts : list Text;
  include_fonts : list Text;
  exclude_modules : list Text;
  include_modules : list Text;
  unload_dlls : list Text;
  exclude_substitution_modules : list Text
}.

Record ProfileSnapshot := {
  snapshot_path : string;
  display_path : string;
  location : ProfileLocation;
  can_save : bool;
  snapshot_encoding : TextEncoding;
  snapshot_bom : BomKind;
  snapshot_line_ending : LineEnding;
  snapshot_hash : string;
  snapshot_values : gmap string F64;
  snapshot_saved_values : gmap string F64;
  snapshot_dirty_keys : gset string;
  can_undo : bool;
  can_redo : bool;
  snapshot_individuals : list IndividualSetting;
  lists : ProfileLists;
  snapshot_advanced : AdvancedProfile
}.

(** The lock and what it guards. *)
Record ProfileState := { poisoned : bool; document : option ProfileDocument }.

Definition Command (A : Type) : Type := ProfileState → M Disk (ProfileState * result A string).

Definition MAX_PROFILE_DIRECTORY_ENTRIES : nat := 512.

Definition LOCK_POISONED : string := "profile lock is poisoned".
Definition NOTHING_OPEN : string := "no profile is open".

Definition with_document (d : ProfileDocument) (s : ProfileState) : ProfileState :=
  {| poisoned := poisoned s; document := Some d |}.

(** ** The state *)

Definition set_document (d : ProfileDocument) (s : ProfileState) : ProfileState * result unit string :=
  if poisoned s then (s, Err LOCK_POISONED) else (with_document d s, Ok tt).

Definition read_state {A : Type} (operation : ProfileDocument → M Disk (result A string)) : Command A := λ s,
  if poisoned s then ret (s, Err LOCK_POISONED)
  else
    match document s with
    | None => ret (s, Err NOTHING_OPEN)
    | Some d => let! r := operation d in ret (s, r)
    end.

Definition edit {A : Type} (operation : ProfileDocument → M Disk (ProfileDocument * result A string)) : Command A := λ s,
  if poisoned s then ret (s, Err LOCK_POISONED)
  else
    match document s with
    | None => ret (s, Err NOTHING_OPEN)
    | Some d => let! r := operation d in ret (with_document r.1 s, r.2)
    end.

Definition replace_from {A : Type} (operation : ProfileDocument → M Disk (result (ProfileDocument * A) string)) : Command A := λ s,
  if poisoned s then ret (s, Err LOCK_POISONED)
  else
    match document s with
    | None => ret (s, Err NOTHING_OPEN)
    | Some d =>
        let! r := operation d in
        match r with
        | Err e => ret (s, Err e)
        | Ok (replacement, a) => ret (with_document replacement s, Ok a)
        end
    end.

(** ** Where a profile is *)

Fixpoint strip_components (root p : Path) : option Path :=
  match root, p with
  | [], _ => Some p
  | a :: root', b :: p' => if String.eqb a b then strip_components root' p' else None
  | _, [] => None
  end.

Definition relative_suffix (p root : Path) : option Path :=
  match strip_components root p with
  | Some relative => if forallb (λ c, negb (String.eqb c "..")) relative then Some relative else None
  | None => None
  end.

(** A current-directory component is not part of a name. *)
Definition windows_relative (p : Path) : string :=
  String.concat "\" (List.filter (λ c, negb (String.eqb c "." || String.eqb c "..")) p).

Section Commands.
Context `{World} `{ProfileEnvironment}.

Definition installation_root : M Disk (option Path) :=
  match env_var "MACTYPE_HOME" with
  | Some p => ret (Some p)
  | None =>
      let program_files := option_map (λ p, path_join p "MacType") (env_var "ProgramFiles") in
      match current_exe with
      | None => ret program_files
      | Some executable =>
          match path_parent executable with
          | None => ret program_files
          | Some p =>
              let! present := is_file (path_join p "MacType.dll") in
              ret (if present then Some p else program_files)
          end
      end
  end.

Definition user_profile_root : option Path :=
  option_map (λ p, p ++ ["MacType"; "ControlCenter"; "profiles"]) (env_var "LOCALAPPDATA").

Definition fs_canonicalize (p : Path) : M Disk (result Path IoError) := os_read (λ m, canonicalize m p).

Definition relative_to (p root : Path) : M Disk (option Path) :=
  match relative_suffix p root with
  | Some relative => ret (Some relative)
  | None =>
      let! resolved_path := fs_canonicalize p in
      match resolved_path with
      | Err _ => ret None
      | Ok resolved_path =>
          let! resolved_root := fs_canonicalize root in
          match resolved_root with
          | Err _ => ret None
          | Ok resolved_root => ret (relative_suffix resolved_path resolved_root)
          end
      end
  end.

Definition relative_to_option (p : Path) (root : option Path) : M Disk (option Path) :=
  match root with Some root => relative_to p root | None => ret None end.

Definition profile_reference_at (p : Path) (installation personal : option Path) : M Disk (string * ProfileLocation) :=
  let! relative := relative_to_option p installation in
  match relative with
  | Some relative => ret (windows_relative relative, Installation)
  | None =>
      let! relative := relative_to_option p personal in
      match relative with
      | Some relative =>
          let relative := windows_relative relative in
          ret (if String.eqb relative "" then "Profiles" else "Profiles\" ++ relative, Personal)%string
      | None => ret (path_display p, External)
      end
  end.

(** [OpenOptions::new().write(true).open(p)] *)
Definition open_write (p : Path) : M Disk (result unit IoError) := os_read (λ m, let-? _ := readable m p in Ok tt).

Definition can_write_file (p : Path) : M Disk bool :=
  let! metadata := fs_metadata p in
  match metadata with
  | Ok (RegularFile _) =>
      if read_only p then ret false
      else let! opened := open_write p in ret (match opened with Ok _ => true | Err _ => false end)
  | _ => ret false
  end.

Definition identify_profile_at (p : Path) (installation personal : option Path) : M Disk ProfileIdentity :=
  let! reference := profile_reference_at p installation personal in
  let! writable := (if bool_decide (reference.2 = External) then ret false else can_write_file p) in
  ret {| identity_display_path := reference.1; identity_location := reference.2; identity_can_save := writable |}.

Definition identify_profile (p : Path) : M Disk ProfileIdentity :=
  let! root := installation_root in
  identify_profile_at p root user_profile_root.

Definition source_profile_reference (installation p : Path) : M Disk string :=
  let! reference := profile_reference_at p (Some installation) user_profile_root in
  ret reference.1.

Definition is_ini (p : Path) : bool :=
  match path_extension p with Some e => eq_ignore_ascii_case e "ini" | None => false end.

(** ** Listing *)

(** The entries of one directory, counted over all of them; one that cannot be read is
    left out. *)
Fixpoint append_entries (directory : Path) (names : list string) (paths : list Path) (entry_count : nat) :
    M Disk (result (list Path * nat) string) :=
  match names with
  | [] => ret (Ok (paths, entry_count))
  | name :: names' =>
      let! entry := os_read (λ _, Ok tt) in
      match entry with
      | Err _ => append_entries directory names' paths entry_count
      | Ok _ =>
          if (MAX_PROFILE_DIRECTORY_ENTRIES <? S entry_count)
          then ret (Err ("profile directories contain more than " ++ pretty (N.of_nat MAX_PROFILE_DIRECTORY_ENTRIES) ++ " entries")%string)
          else append_entries directory names' (paths ++ [path_join directory name]) (S entry_count)
      end
  end.

Definition append_profile_directory (directory : Path) (paths : list Path) (entry_count : nat) :
    M Disk (result (list Path * nat) string) :=
  let! names := fs_read_dir directory in
  match names with
  | Err _ => ret (Ok (paths, entry_count))
  | Ok names => append_entries directory names paths entry_count
  end.

Definition list_profile_paths_from (installation : Path) (user_root : option Path) : M Disk (result (list Path) string) :=
  let? listed := append_profile_directory (path_join installation "ini") [] 0 in
  let root_profile := path_join installation "MacType.ini" in
  let! add := (if bool_decide (listed.1 = []) then is_file root_profile else ret false) in
  let paths := if add : bool then listed.1 ++ [root_profile] else listed.1 in
  match user_root with
  | None => ret (Ok paths)
  | Some user_root =>
      let? listed := append_profile_directory user_root paths listed.2 in
      ret (Ok listed.1)
  end.

Context `{Lowercase}.

(** [str::to_lowercase], in bytes *)
Definition str_to_lowercase (s : string) : list ascii :=
  match from_utf8 (str_bytes s) with Some l => utf8 (to_lowercase l) | None => str_bytes s end.

(** [sort_by_key], which is stable: among the entries with the same key the first stays first. *)
Fixpoint insert_profile (entry : ProfileEntry) (l : list ProfileEntry) : list ProfileEntry :=
  match l with
  | [] => [entry]
  | other :: l' =>
      if String.leb (bytes_str (str_to_lowercase (entry_file_name entry))) (bytes_str (str_to_lowercase (entry_file_name other)))
      then entry :: l else other :: insert_profile entry l'
  end.

Definition sort_profiles (l : list ProfileEntry) : list ProfileEntry := fold_right insert_profile [] l.

Fixpoint profile_entries (paths : list Path) : M Disk (list ProfileEntry) :=
  match paths with
  | [] => ret []
  | p :: paths' =>
      if is_ini p then
        let! identity := identify_profile p in
        let! entries := profile_entries paths' in
        ret ({| entry_file_name := default "" (file_stem p); entry_path := path_display p;
                entry_display_path := identity_display_path identity |} :: entries)
      else profile_entries paths'
  end.

Definition list_profiles : M Disk (result (list ProfileEntry) string) :=
  let! root := installation_root in
  match root with
  | None => ret (Err "MacType installation was not found")
  | Some root =>
      let? paths := list_profile_paths_from root user_profile_root in
      let! entries := profile_entries paths in
      ret (Ok (sort_profiles entries))
  end.

(** ** The default profile *)

Fixpoint default_candidates (directory : Path) (names : list string) (index : nat) (candidates : list Path) :
    M Disk (result (list Path) string) :=
  match names with
  | [] => ret (Ok candidates)
  | name :: names' =>
      let! entry := os_read (λ _, Ok tt) in
      if index =? MAX_PROFILE_DIRECTORY_ENTRIES
      then ret (Err ("profile directory contains more than " ++ pretty (N.of_nat MAX_PROFILE_DIRECTORY_ENTRIES) ++ " entries")%string)
      else
        let p := path_join directory name in
        default_candidates directory names' (S index)
          (match entry with Ok _ => if is_ini p then candidates ++ [p] else candidates | Err _ => candidates end)
  end.

(** [min_by_key] by the lower-cased file name: of equal ones the first. *)
Definition lower_name (p : Path) : string := bytes_str (str_to_lowercase (default "" (file_name p))).

Fixpoint least_name (best : option Path) (l : list Path) : option Path :=
  match l with
  | [] => best
  | p :: l' =>
      least_name (match best with
                  | Some b => if String.leb (lower_name b) (lower_name p) then Some b else Some p
                  | None => Some p
                  end) l'
  end.

Definition find_default_profile_at (root : Path) : M Disk (result (option Path) string) :=
  let profile_root := path_join root "ini" in
  let default_profile := path_join profile_root "Default.ini" in
  let! present := is_file default_profile in
  if present then ret (Ok (Some default_profile))
  else
    let! names := fs_read_dir profile_root in
    let? candidates := match names with
                       | Err _ => ret (Ok [])
                       | Ok names => default_candidates profile_root names 0 []
                       end in
    match least_name None candidates with
    | Some fallback => ret (Ok (Some fallback))
    | None =>
        let! present := is_file (path_join root "MacType.ini") in
        ret (Ok (if present then Some (path_join root "MacType.ini") else None))
    end.

Definition find_default_profile : M Disk (result (option Path) string) :=
  let! root := installation_root in
  match root with
  | None => ret (Ok None)
  | Some root => find_default_profile_at root
  end.

Context `{LegacyCodecs} `{SettingTable} `{Sha256}.

Definition default_profile_payload_from (p : Path) : M Disk (result (Path * list ascii) string) :=
  let? bytes := read_bounded_file p MAX_PROFILE_BYTES true "default profile" in
  match from_bytes p bytes with
  | Err e => ret (Err e)
  | Ok _ => ret (Ok (p, bytes))
  end.

Definition bundled_default_profile_at (installation : Path) : M Disk (result (option (Path * list ascii)) string) :=
  let p := installation ++ ["ini"; "Default.ini"] in
  let! present := is_file p in
  if present then let? payload := default_profile_payload_from p in ret (Ok (Some payload)) else ret (Ok None).

(** ** Importing *)

(** The loop over the suffixes: a name that is taken is passed over. *)
Fixpoint import_as (directory : Path) (stem : string) (bytes : list ascii) (suffixes : list nat) :
    M Disk (result ProfileDocument string) :=
  match suffixes with
  | [] => ret (Err "too many profiles have the same name")
  | suffix :: suffixes' =>
      let name := (if Nat.eqb suffix 1 then stem ++ ".ini" else stem ++ " (" ++ pretty (N.of_nat suffix) ++ ").ini")%string in
      let destination := path_join directory name in
      let! created := create_new destination in
      match created with
      | Err e => if bool_decide (e = io_error Occupied) then import_as directory stem bytes suffixes' else ret (Err (io_text e))
      | Ok _ =>
          let! written := (let? _ := write_all destination bytes in sync_all destination) in
          match written with
          | Err e => let! _ := remove_file destination in ret (Err (io_text e))
          | Ok _ => open_document destination
          end
      end
  end.

Definition import_profile_to (source directory : Path) : M Disk (result ProfileDocument string) :=
  let! present := is_file source in
  if negb (present && is_ini source) then ret (Err "select an existing INI profile")
  else
    let? source := in_words (fs_canonicalize source) in
    let? bytes := read_bounded_file source MAX_PROFILE_BYTES true "imported profile" in
    match from_bytes source bytes with
    | Err e => ret (Err e)
    | Ok _ =>
        match file_stem source with
        | None => ret (Err "profile has no file name")
        | Some stem =>
            match validate_entry (default [] (from_utf8 (str_bytes stem))) "profile name" with
            | Err e => ret (Err e)
            | Ok _ =>
                let? _ := in_words (create_dir_all directory) in
                import_as directory stem bytes (seq 1 999)
            end
        end
    end.

(** ** Snapshots *)

Definition snapshot (d : ProfileDocument) : M Disk ProfileSnapshot :=
  let! identity := identify_profile (path d) in
  ret {| snapshot_path := path_display (path d);
         display_path := identity_display_path identity;
         location := identity_location identity;
         can_save := identity_can_save identity;
         snapshot_encoding := encoding d;
         snapshot_bom := bom d;
         snapshot_line_ending := line_ending d;
         snapshot_hash := bytes_str (hex (original_hash d));
         snapshot_values := setting_values (nodes d);
         snapshot_saved_values := saved_values d;
         snapshot_dirty_keys := dirty_keys d;
         can_undo := negb (bool_decide (undo_history d = []));
         can_redo := negb (bool_decide (redo_history d = []));
         snapshot_individuals := individuals (nodes d);
         lists := {| exclude_fonts := list_entries (nodes d) (chars "Exclude");
                     include_fonts := list_entries (nodes d) (chars "Include");
                     exclude_modules := list_entries (nodes d) (chars "ExcludeModule");
                     include_modules := list_entries (nodes d) (chars "IncludeModule");
                     unload_dlls := list_entries (nodes d) (chars "UnloadDLL");
                     exclude_substitution_modules := list_entries (nodes d) (chars "ExcludeSub") |};
         snapshot_advanced := advanced (nodes d) |}.

(** ** The commands *)

(** A document that is opened takes the place of the one before. *)
Definition show_document (d : ProfileDocument) : Command ProfileSnapshot := λ s,
  let! shown := snapshot d in
  let '(s, r) := set_document d s in
  ret (s, match r with Ok _ => Ok shown | Err e => Err e end).

Definition open_profile (p : Path) : Command ProfileSnapshot := λ s,
  let! d := open_document p in
  match d with
  | Err e => ret (s, Err e)
  | Ok d => show_document d s
  end.

Definition open_default_profile : Command (option ProfileSnapshot) := λ s,
  let! found := find_default_profile in
  match found with
  | Err e => ret (s, Err e)
  | Ok None => ret (s, Ok None)
  | Ok (Some p) =>
      let! r := open_profile p s in
      ret (r.1, match r.2 with Ok shown => Ok (Some shown) | Err e => Err e end)
  end.

Definition current_profile : Command (option ProfileSnapshot) := λ s,
  if poisoned s then ret (s, Err LOCK_POISONED)
  else
    match document s with
    | None => ret (s, Ok None)
    | Some d => let! shown := snapshot d in ret (s, Ok (Some shown))
    end.

Definition import_profile (p : Path) : Command ProfileSnapshot := λ s,
  match user_profile_root with
  | None => ret (s, Err "LOCALAPPDATA is not available")
  | Some directory =>
      let! d := import_profile_to p directory in
      match d with
      | Err e => ret (s, Err e)
      | Ok d => show_document d s
      end
  end.

(** An edit of the document, and what it shows then. *)
Definition edit_and_show (change : Edit) : Command ProfileSnapshot :=
  edit (λ d, match change d with
             | (d, Err e) => ret (d, Err e)
             | (d, Ok _) => let! shown := snapshot d in ret (d, Ok shown)
             end).

Definition update_profile_setting (setting_id : string) (value : F64) : Command ProfileSnapshot :=
  edit_and_show (update_value setting_id value).
Definition update_profile_individuals (entries : list IndividualSetting) : Command ProfileSnapshot :=
  edit_and_show (update_individuals entries).
Definition update_profile_list (kind : string) (entries : list Text) : Command ProfileSnapshot :=
  edit_and_show (update_list kind entries).
Definition update_profile_advanced (p : AdvancedProfile) : Command ProfileSnapshot := edit_and_show (update_advanced p).
Definition reset_profile_defaults : Command ProfileSnapshot := edit_and_show reset_settings_to_defaults.
Definition undo_profile : Command ProfileSnapshot := edit_and_show (λ d, ((undo d).1, Ok tt)).
Definition redo_profile : Command ProfileSnapshot := edit_and_show (λ d, ((redo d).1, Ok tt)).

Definition duplicate_profile (name : Text) : Command ProfileSnapshot := λ s,
  match user_profile_root with
  | None => ret (s, Err "LOCALAPPDATA is not available")
  | Some directory =>
      replace_from (λ current,
        let? duplicate := duplicate_in current directory name in
        let! shown := snapshot duplicate in
        ret (Ok (duplicate, shown))) s
  end.

Definition save_profile : Command ProfileSnapshot :=
  edit (λ d,
    let! identity := identify_profile (path d) in
    if negb (identity_can_save identity) then
      ret (d, Err (match identity_location identity with
                   | External => "external profiles must be imported or saved as a managed profile before saving"
                   | Installation | Personal => "the original profile is read-only; use Save As before saving changes"
                   end))
    else
      let! r := save d in
      match r with
      | (d, Err e) => ret (d, Err e)
      | (d, Ok _) => let! shown := snapshot d in ret (d, Ok shown)
      end).

Definition discard_profile_changes : Command ProfileSnapshot :=
  replace_from (λ current,
    let? d := open_document (path current) in
    let! shown := snapshot d in
    ret (Ok (d, shown))).

Definition export_profile (destination : Path) : Command string := λ s,
  let! r := read_state (λ d, export_to d destination) s in
  ret (r.1, match r.2 with Ok _ => Ok (path_display destination) | Err e => Err e end).

(** [ProfileState::active_payload]: what is applied to MacType. *)
Definition active_payload : Command (Path * list ascii) :=
  read_state (λ d,
    if is_dirty d then ret (Err "save profile changes before applying them to MacType")
    else
      match encoded d with
      | Err e => ret (Err e)
      | Ok bytes => ret (Ok (path d, bytes))
      end).
End Commands.
