(* ===== verification/ProfileCommandFacts.v ===== *)
(** * What the commands of the profile editor guarantee

    A command that fails leaves the open document as it was, and what is applied to
    MacType is what the profile's file holds as far as the editor knows. *)

From S2P Require Export ProfileCommands.

(** ** Computations that always answer *)

(** Run from any disk, [m] gives an answer that satisfies [Q]. *)
Definition always {A : Type} (Q : A → Prop) (m : M Disk A) : Prop := ∀ disk, wp m (λ a _, Q a) disk.

Section Always.
Context `{World}.

Lemma always_ret {A} (Q : A → Prop) a : Q a → always Q (ret a).
Proof. intros Ha disk. by apply wp_ret. Qed.

Lemma always_bind {A B} (Q : A → Prop) (R : B → Prop) m k :
  always Q m → (∀ a, Q a → always R (k a)) → always R (bind m k).
Proof. intros Hm Hk disk. apply wp_bind. eapply wp_mono; [apply Hm|]. intros a disk' Ha. by apply Hk. Qed.

Lemma always_mono {A} (Q R : A → Prop) m : always Q m → (∀ a, Q a → R a) → always R m.
Proof. intros Hm HQR disk. eapply wp_mono; [apply Hm|]. auto. Qed.

Lemma always_spec {A} (Q : A → Prop) m : (∀ disk, spec (λ _, True) m (λ a _, Q a) disk) → always Q m.
Proof. intros Hm disk. eapply wp_mono; [apply Hm|]. by intros a disk' [_ Ha]. Qed.

Lemma always_read {A} (f : Nodes → result A IoError) : always (λ _, True) (os_read f).
Proof. apply always_spec. intros disk. eapply spec_post; [apply os_read_spec|done]. Qed.

Lemma always_write f : always (λ _, True) (os_write f).
Proof. apply always_spec. intros disk. eapply spec_post; [by apply os_write_spec|done]. Qed.

Lemma always_exists p : always (λ _, True) (path_exists p).
Proof. apply always_spec. intros disk. eapply spec_post; [apply path_exists_spec|done]. Qed.

Lemma always_words {A} (m : M Disk (result A IoError)) : always (λ _, True) m → always (λ _, True) (in_words m).
Proof. intros Hm. eapply always_bind; [exact Hm|]. intros r _. by apply always_ret. Qed.

(** After a computation of which nothing needs to be known. *)
Lemma always_then {A B} (R : B → Prop) (m : M Disk A) k :
  always (λ _, True) m → (∀ a, always R (k a)) → always R (bind m k).
Proof. intros Hm Hk. eapply always_bind; [exact Hm|]. intros a _. apply Hk. Qed.
End Always.

Create HintDb answers.
#[export] Hint Resolve always_read always_write always_exists always_words : answers.

(** One step through a computation of which only the answer matters. *)
Ltac answer :=
  match goal with
  | |- always _ (ret _) => apply always_ret
  | |- always _ (bind _ _) => apply always_then; [auto with answers|intros ?; cbv beta]
  | |- always _ (match ?x with _ => _ end) => destruct x
  | |- always _ (if ?x then _ else _) => destruct x
  end.
Ltac answers := repeat first [done | by auto with answers | answer].

Section Facts.
Context `{World} `{ProfileEnvironment}.

Lemma is_file_answers p : always (λ _, True) (is_file p).
Proof. unfold is_file, fs_metadata. answers. Qed.

Lemma is_dir_answers p : always (λ _, True) (is_dir p).
Proof. unfold is_dir, fs_metadata. answers. Qed.
#[local] Hint Resolve is_file_answers is_dir_answers : answers.

Lemma installation_root_answers : always (λ _, True) installation_root.
Proof. unfold installation_root. cbv zeta. answers. Qed.

Lemma relative_to_answers p root : always (λ _, True) (relative_to_option p root).
Proof. unfold relative_to_option, relative_to, fs_canonicalize. answers. Qed.

Lemma can_write_answers p : always (λ _, True) (can_write_file p).
Proof. unfold can_write_file, fs_metadata, open_write. answers. Qed.
#[local] Hint Resolve installation_root_answers relative_to_answers can_write_answers : answers.

Lemma identify_answers p : always (λ _, True) (identify_profile p).
Proof. unfold identify_profile, identify_profile_at, profile_reference_at. answers. Qed.
#[local] Hint Resolve identify_answers : answers.

Context `{Lowercase} `{LegacyCodecs} `{SettingTable} `{Sha256}.

Lemma snapshot_answers d : always (λ _, True) (snapshot d).
Proof. unfold snapshot. answers. Qed.

Lemma default_candidates_answers directory names index candidates :
  always (λ _, True) (default_candidates directory names index candidates).
Proof.
  revert index candidates. induction names as [|name names IH]; intros index candidates; cbn [default_candidates]; [answers|].
  answer. destruct (_ =? _); [answers|]. cbv zeta. apply IH.
Qed.

#[local] Hint Resolve snapshot_answers default_candidates_answers : answers.

Lemma find_default_answers : always (λ _, True) find_default_profile.
Proof. unfold find_default_profile, find_default_profile_at, fs_read_dir. cbv zeta. answers. Qed.
#[local] Hint Resolve find_default_answers : answers.

(** ** Documents that come from a file *)

Definition opened (d : ProfileDocument) : Prop :=
  ∃ p bytes, from_bytes p bytes = Ok d ∧ (bytes_len bytes <= MAX_PROFILE_BYTES)%N.

Definition opens (r : result ProfileDocument string) : Prop := ∀ d, r = Ok d → opened d.

Lemma bounded_read_answers p maximum allow_empty description :
  always (λ r, ∀ bytes, r = Ok bytes → (bytes_len bytes <= maximum)%N) (read_bounded_file p maximum allow_empty description).
Proof.
  apply always_spec. intros disk. eapply spec_post; [apply bounded_read_spec|]. intros r disk' _ [_ Hr] bytes Hb.
  by apply Hr.
Qed.

Lemma open_document_answers p : always opens (open_document p).
Proof.
  unfold open_document. eapply always_bind; [apply bounded_read_answers|]. intros [bytes|e] Hb; apply always_ret; [|done].
  intros d Hd. exists p, bytes. auto.
Qed.

Lemma import_as_answers directory stem bytes suffixes : always opens (import_as directory stem bytes suffixes).
Proof.
  induction suffixes as [|suffix suffixes IH]; cbn [import_as]; [by apply always_ret|]. cbv zeta. unfold create_new. answer.
  destruct a as [[]|e]; [|destruct (bool_decide _); [done|by apply always_ret]].
  apply always_then; [unfold write_all, sync_all; answers|]. intros [[]|e]; [apply open_document_answers|].
  unfold remove_file. answer. by apply always_ret.
Qed.

Lemma import_profile_to_answers source directory : always opens (import_profile_to source directory).
Proof.
  unfold import_profile_to. answer. destruct (negb _); [by apply always_ret|]. unfold fs_canonicalize. answer.
  destruct a0 as [source'|]; [|by apply always_ret].
  eapply always_bind; [apply bounded_read_answers|]. intros [bytes|e] _; [|by apply always_ret].
  destruct (from_bytes _ _); [|by apply always_ret]. destruct (file_stem _); [|by apply always_ret].
  destruct (validate_entry _ _); [|by apply always_ret]. unfold create_dir_all. answer.
  destruct a2; [apply import_as_answers|by apply always_ret].
Qed.

Lemma duplicate_in_answers d directory name : always opens (duplicate_in d directory name).
Proof.
  unfold duplicate_in. cbv zeta. destruct (validate_entry _ _); [|by apply always_ret].
  destruct (existsb _ _); [by apply always_ret|]. unfold create_dir_all, create_new, write_all, sync_all. answer.
  destruct a0 as [[]|]; [|by apply always_ret]. answer. destruct a0; [by apply always_ret|].
  destruct (encoded d); [|by apply always_ret]. answer. destruct a1 as [[]|]; [|by apply always_ret].
  answer. destruct a1 as [[]|]; [|by apply always_ret]. answer. destruct a1; [apply open_document_answers|by apply always_ret].
Qed.

Lemma save_answers d :
  always (λ a, match a.2 with
               | Ok _ => ∃ bytes, encoded d = Ok bytes ∧ a.1 = saved_document bytes d
               | Err _ => a.1 = d
               end) (save d).
Proof.
  unfold save. eapply always_bind; [apply bounded_read_answers|]. intros [bytes|e] _; [|by apply always_ret].
  destruct (negb _); [by apply always_ret|]. destruct (encoded d) as [new|e] eqn:Ee; [|by apply always_ret]. cbv zeta.
  apply always_then; [unfold write_temporary, create_truncated, append_all, sync_all; answers|].
  intros [[]|e]; [|by apply always_ret]. unfold replace_keeping_backup, remove_file. answer.
  destruct a as [[]|e]; [|answers]. apply always_ret. by exists new.
Qed.

(** ** The commands as one *)

Inductive EditorCommand :=
| OpenProfile (p : Path)
| OpenDefaultProfile
| ImportProfile (p : Path)
| EditProfile (step : EditorStep)
| DuplicateProfile (name : Text)
| SaveProfile
| DiscardProfileChanges.

(** A command, and whether it succeeded. *)
Definition and_success {A : Type} (command : Command A) : ProfileState → M Disk (ProfileState * bool) := λ s,
  let! r := command s in ret (r.1, match r.2 with Ok _ => true | Err _ => false end).

Definition edit_command (step : EditorStep) : Command ProfileSnapshot :=
  match step with
  | UpdateValue setting_id value => update_profile_setting setting_id value
  | UpdateIndividuals entries => update_profile_individuals entries
  | UpdateList kind entries => update_profile_list kind entries
  | UpdateAdvanced p => update_profile_advanced p
  | ResetSettings => reset_profile_defaults
  | Undo => undo_profile
  | Redo => redo_profile
  end.

Definition run_command (command : EditorCommand) : ProfileState → M Disk (ProfileState * bool) :=
  match command with
  | OpenProfile p => and_success (open_profile p)
  | OpenDefaultProfile => and_success open_default_profile
  | ImportProfile p => and_success (import_profile p)
  | EditProfile step => and_success (edit_command step)
  | DuplicateProfile name => and_success (duplicate_profile name)
  | SaveProfile => and_success save_profile
  | DiscardProfileChanges => and_success discard_profile_changes
  end.

(** What a command does to the open document. *)
Inductive changed : ProfileDocument → ProfileDocument → Prop :=
| changed_edit step d : changed d (editor_step d step)
| changed_save d bytes : encoded d = Ok bytes → changed d (saved_document bytes d).

Definition resets (command : EditorCommand) : bool :=
  match command with EditProfile ResetSettings => true | _ => false end.

(** The state after a command: the same, a document of a file, or the document changed;
    resetting can be stopped half-way. *)
Definition outcome (resetting : bool) (s s' : ProfileState) (ok : bool) : Prop :=
  s' = s ∨
  (ok = true ∧ ∃ d', s' = with_document d' s ∧
    (opened d' ∨ ∃ d, document s = Some d ∧ changed d d')) ∨
  (ok = false ∧ resetting = true ∧ ∃ d, document s = Some d ∧ s' = with_document (editor_step d ResetSettings) s).

Definition leads {A : Type} (resetting : bool) (command : Command A) : Prop :=
  ∀ s, always (λ a, outcome resetting s a.1 (match a.2 with Ok _ => true | Err _ => false end)) (command s).

Lemma show_leads d s : opened d → always (λ a, outcome false s a.1 (match a.2 with Ok _ => true | Err _ => false end)) (show_document d s).
Proof.
  intros Hd. unfold show_document. apply always_then; [answers|]. intros shown. unfold set_document.
  destruct (poisoned s); apply always_ret; [by left|]. right. left. split; [done|]. exists d. auto.
Qed.

Lemma open_leads p : leads false (open_profile p).
Proof.
  intros s. unfold open_profile. eapply always_bind; [apply open_document_answers|]. intros [d|e] Hd; [|by apply always_ret; left].
  apply show_leads. by apply Hd.
Qed.

Lemma open_default_leads : leads false open_default_profile.
Proof.
  intros s. unfold open_default_profile. apply always_then; [answers|]. intros [[p|]|e]; [|by apply always_ret; left..].
  eapply always_bind; [apply open_leads|]. intros [s' r] Hr. apply always_ret. cbn [fst snd] in *. by destruct r.
Qed.

Lemma import_leads p : leads false (import_profile p).
Proof.
  intros s. unfold import_profile. destruct user_profile_root as [directory|]; [|by apply always_ret; left].
  eapply always_bind; [apply import_profile_to_answers|]. intros [d|e] Hd; [|by apply always_ret; left]. apply show_leads. by apply Hd.
Qed.

Lemma replace_leads {A : Type} (operation : ProfileDocument → M Disk (result (ProfileDocument * A) string)) :
  (∀ d, always (λ r, ∀ d' a, r = Ok (d', a) → opened d') (operation d)) → leads false (replace_from operation).
Proof.
  intros Hop s. unfold replace_from. destruct (poisoned s); [by apply always_ret; left|].
  destruct (document s) as [d|]; [|by apply always_ret; left]. eapply always_bind; [apply Hop|].
  intros [[d' a]|e] Hd; apply always_ret; [|by left]. right. left. split; [done|]. exists d'. split; [done|]. left. by eapply Hd.
Qed.

Lemma show_replacement {A : Type} (m : M Disk (result ProfileDocument string)) (show : ProfileDocument → M Disk A) :
  always opens m → (∀ d, always (λ _, True) (show d)) →
  always (λ r, ∀ d' a, r = Ok (d', a) → opened d') (let? d := m in let! shown := show d in ret (Ok (d, shown))).
Proof.
  intros Hm Hs. eapply always_bind; [exact Hm|]. intros [d|e] Hd; [|by apply always_ret].
  apply always_then; [apply Hs|]. intros shown. apply always_ret. intros d' a E. apply (inj Ok), pair_equal_spec in E as [<- _].
  by apply Hd.
Qed.

Lemma duplicate_leads name : leads false (duplicate_profile name).
Proof.
  unfold duplicate_profile. destruct user_profile_root as [directory|]; [|by intros s; apply always_ret; left].
  apply replace_leads. intros d. apply show_replacement; [apply duplicate_in_answers|apply snapshot_answers].
Qed.

Lemma discard_leads : leads false discard_profile_changes.
Proof. apply replace_leads. intros d. apply show_replacement; [apply open_document_answers|apply snapshot_answers]. Qed.

Lemma save_leads : leads false save_profile.
Proof.
  intros s. unfold save_profile, edit. destruct (poisoned s); [by apply always_ret; left|].
  destruct (document s) as [d|] eqn:Ed; [|by apply always_ret; left].
  assert (with_document d s = s) as Hsame by (destruct s; cbn in *; unfold with_document; cbn; by rewrite Ed).
  eapply (always_bind (λ a, match a.2 with
      | Ok _ => ∃ bytes, encoded d = Ok bytes ∧ a.1 = saved_document bytes d | Err _ => a.1 = d end)).
  - apply always_then; [answers|]. intros identity. destruct (negb _); [by apply always_ret|].
    eapply always_bind; [apply save_answers|]. intros [d' [[]|e]] Hd; cbn [fst snd] in Hd; [|by apply always_ret].
    apply always_then; [answers|]. intros shown. by apply always_ret.
  - intros [d' [shown|e]] Hd; apply always_ret; cbn [fst snd] in *.
    + right. left. split; [done|]. exists d'. split; [done|]. right. destruct Hd as (bytes & He & ->). exists d. split; [done|]. by constructor.
    + left. by rewrite Hd.
Qed.

Lemma edit_leads step : leads (resets (EditProfile step)) (edit_command step).
Proof.
  assert (∀ change : Edit, (∀ d, (change d).1 = editor_step d step) →
    (∀ d e, (change d).2 = Err e → (change d).1 = d ∨ step = ResetSettings) → leads (resets (EditProfile step)) (edit_and_show change)) as Hleads.
  { intros change Hstep Herr s. unfold edit_and_show, edit. destruct (poisoned s); [by apply always_ret; left|].
    destruct (document s) as [d|] eqn:Ed; [|by apply always_ret; left].
    assert (with_document d s = s) as Hsame by (destruct s; cbn in *; unfold with_document; cbn; by rewrite Ed).
    specialize (Hstep d). specialize (Herr d). destruct (change d) as [d' [[]|e]]; cbn [fst snd] in *.
    - eapply (always_bind (λ a, a.1 = d' ∧ ∃ shown, a.2 = Ok shown)).
      + apply always_then; [answers|]. intros shown. apply always_ret. split; [done|]. by exists shown.
      + intros [d2 r] [-> [shown ->]]. apply always_ret. right. left. split; [done|]. exists d'. split; [done|]. right.
        exists d. split; [done|]. rewrite Hstep. constructor.
    - eapply (always_bind (λ a, a = (d', Err e))); [by apply always_ret|]. intros a ->. apply always_ret. cbn [fst snd].
      destruct (Herr e eq_refl) as [->| ->]; [by left|]. right. right. split_and!; [done|done|]. exists d. by rewrite Hstep. }
  assert (∀ change, step_edit step = Some change → step ≠ ResetSettings → ∀ d e,
    (record_edit change d).2 = Err e → (record_edit change d).1 = d ∨ step = ResetSettings) as Hrejected.
  { intros change Hs Hne d e He. left. destruct (record_edit change d) as [d' r] eqn:Er. cbn [fst snd] in *. subst r.
    eapply rejected_edit; [|exact Er]. destruct step; try done; injection Hs as <-; [left|right; left|right; right; left|right; right; right]; eauto. }
  destruct step; cbn [edit_command]; apply Hleads; try done.
  - by apply Hrejected.
  - by apply Hrejected.
  - by apply Hrejected.
  - by apply Hrejected.
  - intros d e _. by right.
Qed.

Lemma and_success_leads {A : Type} resetting (command : Command A) s :
  leads resetting command → always (λ a, outcome resetting s a.1 a.2) (and_success command s).
Proof. intros Hc. unfold and_success. eapply always_bind; [apply Hc|]. intros a Ha. by apply always_ret. Qed.

Lemma run_command_leads command s : always (λ a, outcome (resets command) s a.1 a.2) (run_command command s).
Proof.
  destruct command; apply and_success_leads; [apply open_leads|apply open_default_leads|apply import_leads|apply edit_leads
    |apply duplicate_leads|apply save_leads|apply discard_leads].
Qed.

(** Every command of the editor answers, and one that fails changes nothing.  Whatever
    calls of the operating system fail, after a command that reports an error the open
    document, its edits and its history are as they were; only resetting the
    settings, if the generated table held a factory value out of its bounds, could stop
    half-way. *)
Theorem failed_commands_change_nothing command s disk :
  ∃ s' ok disk', run_command command s disk = Some ((s', ok), disk') ∧
    (ok = false → command ≠ EditProfile ResetSettings → s' = s).
Proof.
  destruct (wp_run _ _ _ (run_command_leads command s disk)) as ([s' ok] & disk' & E & Ho). exists s', ok, disk'. split; [done|].
  intros -> Hne. cbn [fst snd] in Ho. destruct Ho as [->|[[? _]|(_ & Hr & _)]]; [done|done|].
  destruct command as [| | |step| | |]; try done. by destruct step.
Qed.
End Facts.

(** ** What is applied is what was saved *)

Section Applied.
Context `{World} `{ProfileEnvironment} `{Lowercase} `{LegacyCodecs} `{SettingTable} `{Sha256}.

(** Two documents of the same file, as it was read or saved last. *)
Definition same_file (d d' : ProfileDocument) : Prop :=
  path d' = path d ∧ encoding d' = encoding d ∧ bom d' = bom d ∧ legacy_lines d' = legacy_lines d ∧
  original_hash d' = original_hash d.

(** The revisions without changes are the one that the file holds. *)
Definition settled (d : ProfileDocument) : Prop :=
  is_legacy (encoding d) = false →
  legacy_lines d = None ∧
  ∃ clean bytes, encoded (set_nodes_of clean d) = Ok bytes ∧ sha256 bytes = original_hash d ∧
    ∀ r, r ∈ timeline d → revision_dirty r = ∅ → revision_nodes r = clean.

Lemma same_file_encoded d d' l : same_file d d' → encoded (set_nodes_of l d') = encoded (set_nodes_of l d).
Proof. intros (_ & He & Hb & Hl & _). unfold encoded. cbn [legacy_lines set_nodes_of nodes encoding bom]. by rewrite He, Hb, Hl. Qed.

Lemma settled_same d d' :
  same_file d d' → (∀ r, r ∈ timeline d' → r ∈ timeline d ∨ revision_dirty r ≠ ∅) → settled d → settled d'.
Proof.
  intros Hsame Hr Hd Hmodern. destruct Hsame as (Hp & He & Hb & Hl & Hh) eqn:Es. rewrite He in Hmodern.
  destruct (Hd Hmodern) as (Hn & clean & bytes & Henc & Hsha & Hclean). split; [by rewrite Hl|]. exists clean, bytes.
  split_and!; [by rewrite (same_file_encoded d d')|by rewrite Hh|]. intros r Hin Hdirty. destruct (Hr r Hin) as [Hin'|]; [by apply Hclean|done].
Qed.

(** An edit is of the same file, and changes nothing or leaves something to save. *)
Definition marks (edit : Edit) : Prop :=
  ∀ d, same_file d (edit d).1 ∧ ((edit d).1 = d ∨ dirty_keys (edit d).1 ≠ ∅).

Lemma same_file_refl d : same_file d d.
Proof. by split_and!. Qed.

Lemma marked_dirty key d : dirty_keys (mark_dirty key d) ≠ ∅.
Proof. cbn. set_solver. Qed.

Lemma set_value_marks i v : marks (set_value i v).
Proof.
  intros d. unfold set_value. destruct (render_setting_value i v) as [[setting rendered]|]; [|split; [apply same_file_refl|by left]].
  split; [by split_and!|]. right. apply marked_dirty.
Qed.

Lemma set_individuals_marks entries : marks (set_individuals entries).
Proof.
  intros d. unfold set_individuals. destruct (validate_individuals entries); [|split; [apply same_file_refl|by left]].
  split; [by split_and!|]. right. apply marked_dirty.
Qed.

Lemma set_list_marks kind entries : marks (set_list kind entries).
Proof.
  intros d. unfold set_list. destruct (list_section kind); [|split; [apply same_file_refl|by left]].
  destruct (normalize_list_entries entries); [|split; [apply same_file_refl|by left]]. split; [by split_and!|]. right. apply marked_dirty.
Qed.

Lemma set_advanced_marks p : marks (set_advanced p).
Proof.
  intros d. unfold set_advanced. destruct (render_advanced_profile p); [|split; [apply same_file_refl|by left]].
  split; [by split_and!|]. right. apply marked_dirty.
Qed.

Lemma same_file_trans d1 d2 d3 : same_file d1 d2 → same_file d2 d3 → same_file d1 d3.
Proof. intros (? & ? & ? & ? & ?) (? & ? & ? & ? & ?). split_and!; congruence. Qed.

Lemma reset_settings_marks settings : marks (reset_settings settings).
Proof.
  induction settings as [|setting settings IH]; intros d; cbn [reset_settings]; [split; [apply same_file_refl|by left]|].
  destruct (render_setting_value _ _) as [[schema rendered]|]; [|split; [apply same_file_refl|by left]]. cbv zeta.
  match goal with |- context [reset_settings settings (if ?b then _ else ?x)] => destruct b; [apply IH|]; destruct (IH x) as [Hs Hd];
    pose proof (marked_dirty (id setting) (set_nodes_of (nodes x) d)) as Hx; assert (dirty_keys x ≠ ∅) as Hx' by exact Hx end.
  split; [exact Hs|]. right. destruct Hd as [->|]; done.
Qed.

Lemma step_edit_marks step edit : step_edit step = Some edit → marks edit.
Proof.
  destruct step; intros [= <-].
  - apply set_value_marks.
  - apply set_individuals_marks.
  - apply set_list_marks.
  - apply set_advanced_marks.
  - apply reset_settings_marks.
Qed.

Lemma record_edit_settled edit d : keeps_histories edit → marks edit → settled d → settled (record_edit edit d).1.
Proof.
  intros Hkeep Hmark Hd. unfold record_edit. specialize (Hkeep d). specialize (Hmark d).
  destruct (edit d) as [d' [u|e]]; cbn [fst] in *; destruct Hkeep as [Hu Hr]; destruct Hmark as [Hsame Hdirty].
  - destruct (bool_decide (revision d' = revision d)) eqn:Eq; cbn [fst].
    + apply bool_decide_eq_true in Eq. eapply settled_same; [exact Hsame| |exact Hd]. unfold timeline. rewrite Hu, Hr, Eq. by left.
    + apply bool_decide_eq_false in Eq. destruct Hdirty as [->|Hdirty]; [done|].
      eapply settled_same; [| |exact Hd]; [by destruct Hsame as (? & ? & ? & ? & ?); split_and!|].
      intros r. unfold timeline. cbn [undo_history redo_history set_histories rev app]. rewrite Hu.
      rewrite !elem_of_app. intros [[Hin|Hin]|Hin].
      * left. left. by destruct (length (undo_history d) =? HISTORY_LIMIT); [destruct (undo_history d); [done|by right]|].
      * left. right. apply list_elem_of_singleton in Hin as ->. by left.
      * right. apply list_elem_of_singleton in Hin as ->. exact Hdirty.
  - eapply settled_same; [exact Hsame| |exact Hd]. intros r. unfold timeline. rewrite Hu, Hr, !elem_of_app.
    intros [Hin|[Hin|Hin]]; [by left; left| |by left; right; right]. apply list_elem_of_singleton in Hin as ->.
    destruct Hdirty as [->|Hdirty]; [left; right; left; by left|by right].
Qed.

Lemma undo_settled d : settled d → settled (undo d).1.
Proof.
  intros Hd. destruct (undo d) as [d' b] eqn:Eu. cbn [fst]. destruct b.
  - pose proof (undo_moves d d' Eu) as [Ht _]. eapply settled_same; [|rewrite Ht; by left|exact Hd].
    unfold undo in Eu. destruct (last (undo_history d)); [|done]. injection Eu as <-. by split_and!.
  - unfold undo in Eu. destruct (last (undo_history d)); [done|]. by injection Eu as <-.
Qed.

Lemma redo_settled d : settled d → settled (redo d).1.
Proof.
  intros Hd. destruct (redo d) as [d' b] eqn:Eu. cbn [fst]. destruct b.
  - pose proof (redo_moves d d' Eu) as [Ht _]. eapply settled_same; [|rewrite Ht; by left|exact Hd].
    unfold redo in Eu. destruct (last (redo_history d)); [|done]. injection Eu as <-. by split_and!.
  - unfold redo in Eu. destruct (last (redo_history d)); [done|]. by injection Eu as <-.
Qed.

Lemma editor_step_settled step d : settled d → settled (editor_step d step).
Proof.
  intros Hd. destruct (step_edit step) as [edit|] eqn:Es.
  - rewrite (editor_step_edit step edit) by done. apply record_edit_settled; [by eapply step_edit_keeps|by eapply step_edit_marks|done].
  - destruct step; try done; [by apply undo_settled|by apply redo_settled].
Qed.

Lemma modern_lines bytes text encoding : is_legacy encoding = false → original_legacy_lines bytes text encoding = None.
Proof. unfold original_legacy_lines. by intros ->. Qed.

Lemma same_nodes d : set_nodes_of (nodes d) d = d.
Proof. by destruct d. Qed.

Lemma saved_settled d bytes : settled d → encoded d = Ok bytes → settled (saved_document bytes d).
Proof.
  intros Hd He Hmodern. destruct (Hd Hmodern) as [Hl _]. split; [by apply modern_lines|].
  exists (nodes d), bytes. split_and!; [|done|].
  - rewrite <- He. unfold encoded. cbn [legacy_lines set_nodes_of nodes encoding bom saved_document]. by rewrite Hl, modern_lines.
  - intros r Hin _. unfold timeline in Hin. cbn in Hin. by apply list_elem_of_singleton in Hin as ->.
Qed.

Lemma opened_settled d : opened d → settled d.
Proof.
  intros (p & bytes & Hopen & Hlen) Hmodern. pose proof Hopen as Ho. unfold from_bytes in Ho.
  destruct (decode bytes) as [[[text enc] mark]|e]; [|done]. apply (inj Ok) in Ho. split; [subst d; by apply modern_lines|].
  exists (nodes d), bytes. split_and!.
  - rewrite same_nodes. by eapply unedited_profile_is_unchanged.
  - by subst d.
  - subst d. intros r Hin _. unfold timeline in Hin. cbn in Hin. by apply list_elem_of_singleton in Hin as ->.
Qed.

(** What the editor can come to, from nothing open. *)
Inductive reached : ProfileState → Prop :=
| reached_start : reached {| poisoned := false; document := None |}
| reached_command s command disk s' ok disk' :
    reached s → run_command command s disk = Some ((s', ok), disk') → reached s'.

Lemma reached_settled s : reached s → ∀ d, document s = Some d → settled d.
Proof.
  induction 1 as [|s command disk s' ok disk' _ IH Hrun]; [done|]. intros d Hd.
  pose proof (wp_elim _ _ _ _ _ (run_command_leads command s disk) Hrun) as Ho. cbn [fst snd] in Ho.
  destruct Ho as [->|[(_ & d' & -> & Hor)|(_ & _ & d1 & Hd1 & ->)]].
  - by apply IH.
  - injection Hd as <-. destruct Hor as [Ho|(d1 & Hd1 & Hc)]; [by apply opened_settled|].
    destruct Hc as [step d1|d1 bytes He]; [apply editor_step_settled; by apply IH|by apply saved_settled; [apply IH|]].
  - injection Hd as <-. exact (editor_step_settled ResetSettings d1 (IH d1 Hd1)).
Qed.

(** What is applied to MacType is what the profile's file holds.  After any
    sequence of commands, with whatever edits, undone and redone edits, failed and
    successful saves, the bytes that are handed out to be applied belong to the
    document's own path and have the digest under which its file was last read or saved;
    edits that are not saved are never applied. *)
Theorem applied_profile_is_the_saved_one s disk s' p bytes disk' d
  (Hreached : reached s) (Hdocument : document s = Some d) (Hmodern : is_legacy (encoding d) = false)
  (Hpayload : active_payload s disk = Some ((s', Ok (p, bytes)), disk')) :
  s' = s ∧ disk' = disk ∧ p = path d ∧ dirty_keys d = ∅ ∧ sha256 bytes = original_hash d.
Proof.
  unfold active_payload, read_state in Hpayload. rewrite Hdocument in Hpayload. destruct (poisoned s); [done|].
  destruct (is_dirty d) eqn:Edirty; [done|]. apply negb_false_iff, bool_decide_eq_true in Edirty.
  destruct (encoded d) as [b|] eqn:Ee; [|done]. unfold ret, bind in Hpayload. injection Hpayload as Hs Hp Hb Hk. subst s' p b disk'.
  destruct (reached_settled s Hreached d Hdocument Hmodern) as (_ & clean & known & Henc & Hsha & Hclean).
  split_and!; [done..|]. assert (nodes d = clean) as Hn.
  { apply (Hclean (revision d)); [|done]. unfold timeline. apply elem_of_app. right. by left. }
  rewrite <- Hn, same_nodes, Ee in Henc. by apply (inj Ok) in Henc as ->.
Qed.
End Applied.

(** ** A session *)

Definition example_environment : ProfileEnvironment :=
  {| env_var := λ name, if String.eqb name "LOCALAPPDATA" then Some ["C:"; "Users"] else None;
     current_exe := None; canonicalize := λ _ p, Ok p; read_only := λ _, false |}.

#[local] Existing Instances example_world example_environment example_codecs example_table example_lowercase.

Definition example_personal : Path := ["C:"; "Users"; "MacType"; "ControlCenter"; "profiles"; "mine.ini"].

(** Run some commands, from nothing open. *)
Fixpoint run_commands (commands : list EditorCommand) (s : ProfileState) (disk : Disk) : option (ProfileState * Disk) :=
  match commands with
  | [] => Some (s, disk)
  | command :: commands' =>
      match run_command command s disk with
      | Some ((s', _), disk') => run_commands commands' s' disk'
      | None => None
      end
  end.

Lemma run_commands_reached commands s disk s' disk' : reached s → run_commands commands s disk = Some (s', disk') → reached s'.
Proof.
  revert s disk. induction commands as [|command commands IH]; intros s disk Hs; cbn [run_commands]; [by intros [= <- _]|].
  destruct (run_command command s disk) as [[[s1 ok] disk1]|] eqn:E; [|done]. apply IH. by eapply reached_command.
Qed.

Definition example_session : list EditorCommand :=
  [OpenProfile example_personal; EditProfile (UpdateValue "gamma" (of_integer 2)); EditProfile Undo; EditProfile Redo;
   SaveProfile; EditProfile (UpdateValue "gamma" (of_integer 3)); EditProfile Undo].

Definition example_payload (a : option (ProfileState * Disk)) : bool :=
  match a with
  | Some (s, disk) =>
      match document s, active_payload s disk with
      | Some d, Some ((_, Ok (p, bytes)), _) =>
          negb (is_legacy (encoding d)) && bool_decide (p = example_personal) && bool_decide (bytes = example_edited_bytes)
      | _, _ => false
      end
  | None => false
  end.

Lemma applied_profile_is_the_saved_one_witness :
  ∃ s disk d, run_commands example_session {| poisoned := false; document := None |} (disk_of {[ example_personal := File example_profile ]}) = Some (s, disk) ∧
    document s = Some d ∧ active_payload s disk = Some ((s, Ok (example_personal, example_edited_bytes)), disk) ∧
    sha256 example_edited_bytes = original_hash d.
Proof.
  assert (example_payload (run_commands example_session {| poisoned := false; document := None |}
    (disk_of {[ example_personal := File example_profile ]})) = true) as Hpayload by (vm_compute; reflexivity).
  destruct (run_commands _ _ _) as [[s disk]|] eqn:E; [|discriminate Hpayload].
  pose proof (run_commands_reached _ _ _ _ _ reached_start E) as Hr. cbn [example_payload] in Hpayload.
  destruct (document s) as [d|] eqn:Ed; [|discriminate Hpayload].
  destruct (active_payload s disk) as [[[s' [[p bytes]|e]] disk']|] eqn:Ep; [|discriminate Hpayload..].
  apply andb_prop in Hpayload as [[Hm Hp%bool_decide_eq_true]%andb_prop Hb%bool_decide_eq_true].
  apply negb_true_iff in Hm. exists s, disk, d. subst p bytes.
  destruct (applied_profile_is_the_saved_one s disk s' example_personal example_edited_bytes disk' d Hr Ed Hm Ep) as (-> & -> & _ & _ & Hsha).
  split_and!; [reflexivity|exact Ed|exact Ep|exact Hsha].
Defined.
