(* ===== verification/Uninstall.v ===== *)
(** * Removing the runtime

    [service-runtime/setup/src/runtime_installer/uninstall.rs]: the whole runtime tree is
    removed, but only when every file of it can be proved to belong to the installer, and
    only when it is the same before and after the service was taken down. *)

From stdpp Require Import sorting.
From S2P Require Export RepairFacts.

Definition MAX_HEALTH_SNAPSHOT_BYTES : N := 16 * 1024.
Definition MAX_RUNTIME_GENERATIONS : N := MAX_PINNED_RUNTIMES + 2.
Definition MAX_SERVICE_RUNTIME_ROOT_ENTRIES : nat := 8.

Record OwnedRemovalPlan := {
  root_exists : bool;
  versions : list string;
  migration_pins : list Path;
  remove_current : bool;
  remove_previous : bool;
  remove_health : bool;
  remove_versions_root : bool;
  remove_receipts_root : bool;
  remove_migration_pins_root : bool
}.

#[export] Instance OwnedRemovalPlan_eq_dec : EqDecision OwnedRemovalPlan.
Proof. solve_decision. Defined.

Definition default_plan : OwnedRemovalPlan :=
  {| root_exists := false; versions := []; migration_pins := []; remove_current := false; remove_previous := false;
     remove_health := false; remove_versions_root := false; remove_receipts_root := false;
     remove_migration_pins_root := false |}.

(** The entries of the root that are there. *)
Definition plan_of (names : list string) : OwnedRemovalPlan :=
  {| root_exists := true; versions := []; migration_pins := [];
     remove_current := one_of names "current.json";
     remove_previous := one_of names "previous-runtime.json";
     remove_health := one_of names "health.json";
     remove_versions_root := one_of names "bin";
     remove_receipts_root := one_of names "runtime-receipts";
     remove_migration_pins_root := one_of names "migration-runtime-pins" |}.

Definition owned_entry (name : string) : bool :=
  one_of ["bin"; "runtime-receipts"; "current.json"; "previous-runtime.json"; "health.json"; "migration-runtime-pins"] name.

(** A [BTreeSet] as it is iterated. *)
Definition in_order (s : gset string) : list string := merge_sort string_le (elements s).

Section Uninstall.
Context `{World, Sha256, ActivationJson, PointerJson, StoreJson, DeferredDelete, HealthJson} (paths : MachinePaths).

(** The loop over the entries of the root. *)
Fixpoint classify_entries (names : list string) : M Disk (result unit SetupError) :=
  match names with
  | [] => ret (Ok tt)
  | name :: names' =>
      let? _ := reject_reparse_ancestors (path_join (service_root paths) name) in
      if owned_entry name then classify_entries names'
      else if one_of ["runtime-activation.json"; "runtime-repair.json"] name
      then ret (Err (Runtime "a runtime transaction is pending during uninstall"))
      else ret (Err (Runtime ("unexpected service runtime entry blocks uninstall: " ++ name)))
  end.

Fixpoint verify_versions (names : list string) (versions : gset string) : M Disk (result (gset string) SetupError) :=
  match names with
  | [] => ret (Ok versions)
  | version :: names' =>
      if negb (valid_runtime_version_component version)
      then ret (Err (Runtime "runtime generation name is not canonical"))
      else
        let? _ := store_verify paths version (path_join (runtime_versions paths) version) in
        verify_versions names' ({[version]} ∪ versions)
  end.

Fixpoint collect_receipts (names : list string) (receipts : gset string) : M Disk (result (gset string) SetupError) :=
  match names with
  | [] => ret (Ok receipts)
  | name :: names' =>
      let? _ := reject_reparse_ancestors (path_join (runtime_receipts_root paths) name) in
      match strip_suffix ".json" name with
      | None => ret (Err (Runtime "runtime receipt name is not canonical"))
      | Some version =>
          if negb (valid_runtime_version_component version)
          then ret (Err (Runtime "runtime receipt name is not canonical"))
          else collect_receipts names' ({[version]} ∪ receipts)
      end
  end.

Definition is_directory (p : Path) : M Disk (result bool SetupError) :=
  let? metadata := lift_io (fs_metadata p) in
  ret (Ok (match metadata with DirectoryMetadata => true | RegularFile _ => false end)).

Definition verify_removable_generations (plan : OwnedRemovalPlan) : M Disk (result (gset string) SetupError) :=
  if negb (Bool.eqb (remove_versions_root plan) (remove_receipts_root plan))
  then ret (Err (Runtime "runtime generations and receipts are not a complete owned pair"))
  else if negb (remove_versions_root plan) then ret (Ok ∅)
  else
    let? _ := reject_reparse_ancestors (runtime_versions paths) in
    let irregular := Runtime "runtime generation storage is not a regular directory" in
    let? versions_root := is_directory (runtime_versions paths) in
    if negb versions_root then ret (Err irregular)
    else
      let? receipts_root := is_directory (runtime_receipts_root paths) in
      if negb receipts_root then ret (Err irregular)
      else
        let? names := read_bounded_directory (runtime_versions paths) (N.to_nat MAX_RUNTIME_GENERATIONS) "runtime generation count" in
        let? versions := verify_versions names ∅ in
        let? names := read_bounded_directory (runtime_receipts_root paths) (N.to_nat MAX_RUNTIME_GENERATIONS) "runtime receipt count" in
        let? receipts := collect_receipts names ∅ in
        if bool_decide (receipts ≠ versions)
        then ret (Err (Runtime "runtime receipt set does not exactly match installed generations"))
        else ret (Ok versions).

Definition verify_runtime_pointer_for_removal (p : Path) (description : string) (there : bool) (versions : gset string) :
    M Disk (result unit SetupError) :=
  if negb there then ret (Ok tt)
  else
    let? bytes := read_bounded_regular_file p MAX_POINTER_BYTES description in
    let? pointer := ret (validate_runtime_pointer bytes) in
    if bool_decide (version pointer ∉ versions)
    then ret (Err (Runtime (description ++ " does not name a receipted runtime generation")))
    else ret (Ok tt).

Definition health_path : Path := path_join (service_root paths) "health.json".

Definition verify_health_for_removal (there : bool) : M Disk (result unit SetupError) :=
  if negb there then ret (Ok tt)
  else
    let? bytes := read_bounded_regular_file health_path MAX_HEALTH_SNAPSHOT_BYTES "persisted service health" in
    let invalid := Err (Runtime "persisted service health is invalid") in
    match health_from_slice bytes with
    | None => ret invalid
    | Some report => ret (if report_validate report then Ok tt else invalid)
    end.

Fixpoint reject_pins (names : list string) : M Disk (result unit SetupError) :=
  match names with
  | [] => ret (Ok tt)
  | name :: names' =>
      let? _ := reject_reparse_ancestors (path_join (migration_runtime_pins_root paths) name) in
      reject_pins names'
  end.

(** The paths are sorted; they differ in their names only. *)
Definition verify_migration_pins_for_removal (plan : OwnedRemovalPlan) : M Disk (result (list Path) SetupError) :=
  if negb (remove_migration_pins_root plan) then ret (Ok [])
  else
    let? _ := load_verified_migration_pins paths in
    let root := migration_runtime_pins_root paths in
    let? names := read_bounded_directory root (N.to_nat MAX_PINNED_RUNTIMES) "migration runtime pin count" in
    let? _ := reject_pins names in
    ret (Ok (map (path_join root) (merge_sort string_le names))).

Definition complete_plan (plan : OwnedRemovalPlan) (pins : list Path) (installed : gset string) : OwnedRemovalPlan :=
  {| root_exists := root_exists plan; versions := in_order installed; migration_pins := pins;
     remove_current := remove_current plan; remove_previous := remove_previous plan; remove_health := remove_health plan;
     remove_versions_root := remove_versions_root plan; remove_receipts_root := remove_receipts_root plan;
     remove_migration_pins_root := remove_migration_pins_root plan |}.

Definition prepare_owned_removal : M Disk (result OwnedRemovalPlan SetupError) :=
  let root := service_root paths in
  let! present := path_exists root in
  if negb present then ret (Ok default_plan)
  else
    let? _ := reject_reparse_ancestors root in
    let? directory := is_directory root in
    if negb directory then ret (Err (Runtime "service runtime root is not a regular directory"))
    else
      let? names := read_bounded_directory root MAX_SERVICE_RUNTIME_ROOT_ENTRIES "service runtime root entry count" in
      let? _ := classify_entries names in
      let plan := plan_of names in
      let? installed := verify_removable_generations plan in
      let? _ := verify_runtime_pointer_for_removal (runtime_pointer paths) "active runtime pointer" (remove_current plan) installed in
      let? _ := verify_runtime_pointer_for_removal (previous_runtime_pointer_path paths) "previous runtime pointer"
                  (remove_previous plan) installed in
      let? _ := verify_health_for_removal (remove_health plan) in
      let? pins := verify_migration_pins_for_removal plan in
      ret (Ok (complete_plan plan pins installed)).

(** ** Removing *)

Fixpoint remove_generations (versions : list string) : M Disk (result unit SetupError) :=
  match versions with
  | [] => ret (Ok tt)
  | version :: versions' =>
      let? _ := remove_manifest_verified_generation_for_uninstall paths version (path_join (runtime_versions paths) version) in
      remove_generations versions'
  end.

Fixpoint remove_pins (pins : list Path) : M Disk (result unit SetupError) :=
  match pins with
  | [] => ret (Ok tt)
  | pin :: pins' =>
      let? _ := remove_file_or_defer pin "remove verified migration runtime pin" in
      remove_pins pins'
  end.

Fixpoint remove_state_files (files : list (bool * Path)) : M Disk (result unit SetupError) :=
  match files with
  | [] => ret (Ok tt)
  | (there, p) :: files' =>
      let? _ := (if there : bool then remove_file_or_defer p "remove verified runtime state file" else ret (Ok tt)) in
      remove_state_files files'
  end.

Definition state_files (plan : OwnedRemovalPlan) : list (bool * Path) :=
  [(remove_current plan, runtime_pointer paths); (remove_previous plan, previous_runtime_pointer_path paths);
   (remove_health plan, health_path)].

(** [if there { remove_directory_or_defer(p, operation)? }] *)
Definition remove_root (there : bool) (p : Path) (operation : string) : M Disk (result unit SetupError) :=
  if there then remove_directory_or_defer p operation else ret (Ok tt).

Definition execute_owned_removal (plan : OwnedRemovalPlan) : M Disk (result bool SetupError) :=
  if negb (root_exists plan) then ret (Ok false)
  else
    let? _ := remove_generations (versions plan) in
    let? _ := remove_root (remove_versions_root plan) (runtime_versions paths) "remove verified runtime versions directory" in
    let? _ := remove_root (remove_receipts_root plan) (runtime_receipts_root paths) "remove verified runtime receipts directory" in
    let? _ := remove_pins (migration_pins plan) in
    let? _ := remove_root (remove_migration_pins_root plan) (migration_runtime_pins_root paths)
                "remove verified migration runtime pins directory" in
    let? _ := remove_state_files (state_files plan) in
    let? _ := remove_directory_or_defer (service_root paths) "remove verified service runtime directory" in
    let! remains := path_exists (service_root paths) in
    if remains then
      match path_parent (service_root paths) with
      | None => ret (Err (CleanupUnknown "fixed service runtime directory has no application parent"))
      | Some application_root =>
          let? _ := defer_directory application_root "defer empty application directory cleanup until reboot" in
          ret (Ok true)
      end
    else ret (Ok true).

(** [remove_owned]; [before_cleanup] takes the service down. *)
Definition remove_owned (before_cleanup : M Disk (result unit SetupError)) : M Disk (result bool SetupError) :=
  let? before := prepare_owned_removal in
  let? _ := before_cleanup in
  let? after := prepare_owned_removal in
  if bool_decide (before ≠ after)
  then ret (Err (CleanupUnknown "service runtime changed while uninstalling; no runtime files were removed"))
  else execute_owned_removal after.

Definition remove_receipted_installation : M Disk (result bool SetupError) := remove_owned (ret (Ok tt)).

Definition remove_receipted_installation_after (before_cleanup : M Disk (result unit SetupError)) :
    M Disk (result bool SetupError) := remove_owned before_cleanup.
End Uninstall.
