(* ===== verification/UninstallFacts.v ===== *)
(** * What removing the runtime promises

    Nothing is removed unless everything in the tree is proved to belong to the
    installer, and then nothing but that; where no call fails, the whole tree goes; and
    a generation that an interrupted removal left incomplete blocks every later one. *)

From stdpp Require Import sorting.
From S2P Require Export Uninstall.

(** ** Computations that only erase *)

(** [m'] is [m] without some of the paths of [Q]. *)
Definition erases (Q : Path → Prop) (m m' : Nodes) : Prop := ∀ q, m' !! q = m !! q ∨ Q q ∧ m' !! q = None.

#[export] Instance erases_preorder Q : PreOrder (erases Q).
Proof.
  split; [by left|]. intros m1 m2 m3 H12 H23 q. destruct (H23 q) as [->|?]; [apply H12|by right].
Qed.

Lemma erases_delete Q p m : Q p → erases Q m (delete p m).
Proof.
  intros HQ q. destruct (decide (q = p)) as [->|]; [right; by rewrite lookup_delete_eq|].
  left. by rewrite lookup_delete_ne.
Qed.

Section Erasing.
Context `{World, DeferredDelete, !DeferredDeleteLaws} (Q : Path → Prop).

Definition erasing {A : Type} (m : M Disk A) : Prop :=
  ∀ d, spec (erases Q (nodes d)) m (λ _ d', erases Q (nodes d) (nodes d')) d.

Lemma erasing_ret {A : Type} (a : A) : erasing (ret a).
Proof. intros d. by apply spec_ret. Qed.

Lemma erasing_bind {A B : Type} (m : M Disk A) (k : A → M Disk B) :
  erasing m → (∀ a, erasing (k a)) → erasing (bind m k).
Proof.
  intros Hm Hk d. eapply spec_bind; [apply Hm|]. intros a d' _ Hd'.
  eapply spec_mono; [apply Hk| |]; [intros n Hn|intros b d'' _ Hn]; cbv beta in *; by etrans.
Qed.

Lemma erasing_try {A B E : Type} (m : M Disk (result A E)) (k : A → M Disk (result B E)) :
  erasing m → (∀ a, erasing (k a)) → erasing (let? x := m in k x).
Proof. intros Hm Hk. apply erasing_bind; [done|]. intros [a|e]; [apply Hk|apply erasing_ret]. Qed.

Lemma erasing_quiet {A : Type} (m : M Disk A) :
  (∀ P d, spec P m (λ _ d', nodes d' = nodes d) d) → erasing m.
Proof. intros Hm d. eapply spec_post; [apply Hm|]. by intros a d' _ ->. Qed.

Lemma erasing_write f : (∀ partial m m', f partial m = Ok m' → erases Q m m') → erasing (os_write f).
Proof.
  intros Hf d. eapply spec_post; [apply os_write_spec; by intros; eapply Hf|].
  intros [[]|e] d' _ Hr; [by eapply Hf|]. destruct Hr as [->|[partial Hr]]; [done|by eapply Hf].
Qed.

Lemma erasing_with_err {A : Type} f (m : M Disk (result A SetupError)) : erasing m → erasing (with_err f m).
Proof. intros. apply erasing_bind; [done|]. intros. apply erasing_ret. Qed.

Lemma erasing_remove p directory : Q p → erasing (remove_or_defer p directory).
Proof.
  intros HQ. apply erasing_bind.
  - destruct directory; apply erasing_write; intros _ m m' E.
    + destruct (m !! p) as [[]|]; try done. case_bool_decide; [|done]. apply (inj Ok) in E as <-.
      by apply erases_delete.
    + assert (m' = delete p m) as -> by (destruct (m !! p) as [[]|]; by inversion E). by apply erases_delete.
  - intros [[]|e]; [apply erasing_ret|]. apply erasing_bind; [|intros; apply erasing_ret].
    apply erasing_quiet. intros P d. apply delay_is_quiet.
Qed.

Lemma erasing_remove_file p operation : Q p → erasing (remove_file_or_defer p operation).
Proof. intros. by apply erasing_with_err, erasing_remove. Qed.

Lemma erasing_remove_directory p operation : Q p → erasing (remove_directory_or_defer p operation).
Proof. intros. by apply erasing_with_err, erasing_remove. Qed.

Lemma erasing_remove_root there p operation : Q p → erasing (remove_root there p operation).
Proof. intros. destruct there; [by apply erasing_remove_directory|apply erasing_ret]. Qed.
End Erasing.

Create HintDb erase.
#[export] Hint Resolve erasing_ret erasing_remove_file erasing_remove_directory erasing_remove_root : erase.

(** ** What is proved to be owned *)

Lemma strip_suffix_some p s rest : strip_suffix p s = Some rest → s = (rest ++ p)%string.
Proof.
  unfold strip_suffix. destruct (bytes_strip_prefix _ _) as [l|] eqn:E; [|done]. cbn. intros [= <-].
  apply bytes_strip_prefix_app in E. apply str_bytes_inj.
  rewrite str_bytes_app, list_ascii_of_string_of_list_ascii. by rewrite <- (rev_involutive (str_bytes s)), E, rev_app_distr, rev_involutive.
Qed.

Section Ownership.
Context `{World, Sha256, ActivationJson, PointerJson, StoreJson, DeferredDelete, HealthJson}
  (program_files program_data : Path).
Notation paths := (machine_layout program_files program_data).
Notation root := (service_root (machine_layout program_files program_data)).
Implicit Types (P : Nodes → Prop) (d : Disk) (m : Nodes).

Definition in_root (name : string) : Path := path_join root name.

(** A generation is there under the version. *)
Definition installed m (v : string) : Prop := is_Some (m !! generation_directory program_files program_data v).

Definition sound_pointer m (p : Path) : Prop :=
  is_Some (m !! p) → ∃ bytes pointer, readable m p = Ok bytes ∧ validate_runtime_pointer bytes = Ok pointer ∧
    is_Some (m !! runtime_versions paths) ∧ installed m (version pointer).

(** The file was verified as a migration pin.  The search for the directory of the pins
    takes a failed look for an absence, and then none of them is verified. *)
Definition pin_seen m (name : string) : Prop := (∀ n, blind n = false) → verified_pin program_files program_data m name.

(** Everything in the root of the service is the installer's. *)
Record owned m : Prop := {
  owned_entries name : is_Some (m !! in_root name) → owned_entry name = true;
  owned_generations v : is_Some (m !! runtime_versions paths) → installed m v →
    valid_runtime_version_component v = true ∧
    sound_generation paths m v (generation_directory program_files program_data v);
  owned_receipts name : is_Some (m !! runtime_receipts_root paths) → is_Some (m !! path_join (runtime_receipts_root paths) name) →
    ∃ v, name = (v ++ ".json")%string ∧ installed m v;
  receipts_with_generations : is_Some (m !! runtime_versions paths) ↔ is_Some (m !! runtime_receipts_root paths);
  owned_pointer : sound_pointer m (runtime_pointer paths);
  owned_previous : sound_pointer m (previous_runtime_pointer_path paths);
  owned_health : is_Some (m !! health_path paths) → ∃ bytes report, readable m (health_path paths) = Ok bytes ∧
    health_from_slice bytes = Some report ∧ report_validate report = true;
  owned_pins name : is_Some (m !! migration_runtime_pins_root paths) →
    is_Some (m !! path_join (migration_runtime_pins_root paths) name) → pin_seen m name
}.

(** What an uninstallation may remove. *)
Definition removable m (q : Path) : Prop :=
  q = root ∨ (∃ name, owned_entry name = true ∧ q = in_root name) ∨
  (∃ name, q = path_join (migration_runtime_pins_root paths) name ∧ is_Some (m !! q) ∧ pin_seen m name) ∨
  ∃ v, installed m v ∧ part_of program_files program_data v q.

(** What a plan says of the disk it was made on. *)
Record plan_of_disk (plan : OwnedRemovalPlan) m : Prop := {
  planned_root : root_exists plan = true;
  planned_directory : m !! root = Some Directory ∨ m !! root = Some (Link ToDirectory);
  planned_versions v : v ∈ versions plan ↔ is_Some (m !! runtime_versions paths) ∧ installed m v;
  planned_pins q : q ∈ migration_pins plan →
    ∃ name, q = path_join (migration_runtime_pins_root paths) name ∧ is_Some (m !! q) ∧ pin_seen m name
}.

Lemma one_of_bool names name : one_of names name = true ↔ name ∈ names.
Proof. apply one_of_elem. Qed.

Lemma is_directory_spec P p d :
  spec P (is_directory p) (λ r d', nodes d' = nodes d ∧
    (r = Ok true → nodes d !! p = Some Directory ∨ nodes d !! p = Some (Link ToDirectory))) d.
Proof.
  unfold is_directory. try_then lift_read_spec; [|quiet_error]. intros metadata d1 _ [Hn Hm].
  apply spec_ret. split; [done|]. specialize (Hm _ eq_refl). cbv beta in Hm.
  destruct (nodes d !! p) as [[bytes| |[bytes| |]]|]; cbn in Hm; try done; try (by destruct metadata); auto;
    apply (inj Ok) in Hm as <-; intros E%(inj Ok); done.
Qed.

Lemma classify_spec P names d :
  spec P (classify_entries paths names) (λ r d', nodes d' = nodes d ∧
    (r = Ok tt → ∀ name, name ∈ names → owned_entry name = true)) d.
Proof.
  revert d. induction names as [|name names IH]; intros d; cbn [classify_entries].
  { apply spec_ret. split; [done|]. by intros _ name ?%elem_of_nil. }
  try_then reject_reparse_quiet; [|quiet_error]. intros [] d1 _ Hn1. cbv beta in Hn1.
  destruct (owned_entry name) eqn:Eo; [|destruct (one_of _ _); apply spec_ret; quiet_error].
  eapply spec_post; [apply IH|]. intros r d2 _ [Hn2 Hr]. split; [congruence|].
  intros Hok name' [->|?]%elem_of_cons; [done|]. by apply (Hr Hok).
Qed.

Lemma verify_versions_spec P names vs d :
  spec P (verify_versions paths names vs) (λ r d', nodes d' = nodes d ∧
    ∀ all, r = Ok all → (∀ v, v ∈ all ↔ v ∈ vs ∨ v ∈ names) ∧
      ∀ v, v ∈ names → valid_runtime_version_component v = true ∧
        sound_generation paths (nodes d) v (generation_directory program_files program_data v)) d.
Proof.
  revert vs d. induction names as [|v names IH]; intros vs d; cbn [verify_versions].
  { apply spec_ret. split; [done|]. intros all <-%(inj Ok). set_solver. }
  destruct (valid_runtime_version_component v) eqn:Ev; [|apply spec_ret; quiet_error]. cbn [negb].
  try_then store_verify_spec; [|quiet_error]. intros [] d1 _ [Hn1 Hsound].
  eapply spec_post; [apply IH|]. intros r d2 _ [Hn2 Hr]. split; [congruence|].
  intros all Hall. destruct (Hr all Hall) as [Hin Hgood]. split.
  { intros v'. rewrite Hin, elem_of_union, elem_of_singleton, elem_of_cons. tauto. }
  intros v' [->|Hv']%elem_of_cons; [by split; [|apply Hsound]|]. rewrite <- Hn1. by apply Hgood.
Qed.

Lemma collect_receipts_spec P names rs d :
  spec P (collect_receipts paths names rs) (λ r d', nodes d' = nodes d ∧
    ∀ all, r = Ok all → rs ⊆ all ∧ ∀ name, name ∈ names → ∃ v, name = (v ++ ".json")%string ∧ v ∈ all) d.
Proof.
  revert rs d. induction names as [|name names IH]; intros rs d; cbn [collect_receipts].
  { apply spec_ret. split; [done|]. intros all <-%(inj Ok). split; [done|]. by intros name ?%elem_of_nil. }
  try_then reject_reparse_quiet; [|quiet_error]. intros [] d1 _ Hn1. cbv beta in Hn1.
  destruct (strip_suffix ".json" name) as [v|] eqn:Es; [|apply spec_ret; quiet_error].
  destruct (valid_runtime_version_component v); cbn [negb]; [|apply spec_ret; quiet_error].
  eapply spec_post; [apply IH|]. intros r d2 _ [Hn2 Hr]. split; [congruence|].
  intros all Hall. destruct (Hr all Hall) as [Hsub Hnames]. apply union_subseteq in Hsub as [Hv Hsub]. split; [done|].
  intros name' [->|?]%elem_of_cons; [|by apply Hnames].
  exists v. split; [by apply strip_suffix_some|]. by apply singleton_subseteq_l.
Qed.

(** The names of a directory as a plan keeps them. *)
Lemma one_of_entries m name p : one_of (entry_names m p) name = true ↔ is_Some (m !! path_join p name).
Proof. by rewrite one_of_elem, entry_names_elem. Qed.

Lemma verify_removable_spec P plan d :
  spec P (verify_removable_generations paths plan) (λ r d', nodes d' = nodes d ∧
    ∀ all, r = Ok all → remove_versions_root plan = remove_receipts_root plan ∧
      (remove_versions_root plan = false → all = ∅) ∧
      (remove_versions_root plan = true →
        (∀ v, v ∈ all ↔ installed (nodes d) v) ∧
        (∀ v, v ∈ all → valid_runtime_version_component v = true ∧
           sound_generation paths (nodes d) v (generation_directory program_files program_data v)) ∧
        ∀ name, is_Some (nodes d !! path_join (runtime_receipts_root paths) name) →
          ∃ v, name = (v ++ ".json")%string ∧ v ∈ all)) d.
Proof.
  unfold verify_removable_generations. destruct (Bool.eqb _ _) eqn:Epair; cbn [negb]; [|apply spec_ret; quiet_error].
  apply Bool.eqb_prop in Epair.
  destruct (remove_versions_root plan) eqn:Eroot; cbn [negb].
  2: { apply spec_ret. split; [done|]. intros all <-%(inj Ok). by split_and!. }
  try_then reject_reparse_quiet; [|quiet_error]. intros [] d1 _ Hn1. cbv beta zeta in *.
  try_then is_directory_spec; [|quiet_error]. intros versions_root d2 _ [Hn2 _].
  destruct versions_root; cbn [negb]; [|apply spec_ret; quiet_error].
  try_then is_directory_spec; [|quiet_error]. intros receipts_root d3 _ [Hn3 _].
  destruct receipts_root; cbn [negb]; [|apply spec_ret; quiet_error].
  try_then read_bounded_directory_spec; [|quiet_error]. intros names d4 _ [Hn4 Hl].
  destruct (Hl names eq_refl) as (-> & _ & _). clear Hl.
  try_then verify_versions_spec; [|quiet_error]. intros all d5 _ [Hn5 Hall].
  destruct (Hall all eq_refl) as [Hin Hgood]. clear Hall.
  try_then read_bounded_directory_spec; [|quiet_error]. intros names d6 _ [Hn6 Hl].
  destruct (Hl names eq_refl) as (-> & _ & _). clear Hl.
  try_then collect_receipts_spec; [|quiet_error]. intros receipts d7 _ [Hn7 Hr].
  destruct (Hr receipts eq_refl) as [_ Hnames]. clear Hr.
  case_bool_decide as Heq; [apply spec_ret; quiet_error|]. subst receipts.
  assert (nodes d3 = nodes d) as Hd3 by congruence. assert (nodes d4 = nodes d) as Hd4 by congruence.
  assert (nodes d5 = nodes d) as Hd5 by congruence.
  rewrite Hd3 in Hin, Hgood. rewrite Hd4 in Hgood. rewrite Hd5 in Hnames.
  apply spec_ret. split; [congruence|]. intros all' <-%(inj Ok). split; [done|]. split; [done|]. intros _.
  assert (∀ v, v ∈ all ↔ installed (nodes d) v) as Hinst.
  { intros v. rewrite Hin, entry_names_elem. unfold installed, generation_directory. set_solver. }
  split; [done|]. split.
  - intros v Hv. apply Hgood. by apply entry_names_elem, Hinst.
  - intros name Hname. by apply Hnames, entry_names_elem.
Qed.

Lemma verify_pointer_spec P p description there versions d :
  spec P (verify_runtime_pointer_for_removal p description there versions) (λ r d', nodes d' = nodes d ∧
    (r = Ok tt → there = true → ∃ bytes pointer, readable (nodes d) p = Ok bytes ∧
       validate_runtime_pointer bytes = Ok pointer ∧ version pointer ∈ versions)) d.
Proof.
  unfold verify_runtime_pointer_for_removal. destruct there; cbn [negb]; [|by apply spec_ret].
  try_then read_bounded_quiet; [|quiet_error]. intros bytes d1 _ [Hn1 Hb].
  destruct (Hb bytes eq_refl) as [_ Hread]. apply spec_try_ret; [|quiet_error]. intros pointer Hp.
  case_bool_decide as Hv; apply spec_ret; [quiet_error|]. split; [done|]. intros _ _.
  exists bytes, pointer. by split_and!.
Qed.

Lemma verify_health_spec P there d :
  spec P (verify_health_for_removal paths there) (λ r d', nodes d' = nodes d ∧
    (r = Ok tt → there = true → ∃ bytes report, readable (nodes d) (health_path paths) = Ok bytes ∧
       health_from_slice bytes = Some report ∧ report_validate report = true)) d.
Proof.
  unfold verify_health_for_removal. destruct there; cbn [negb]; [|by apply spec_ret].
  try_then read_bounded_quiet; [|quiet_error]. intros bytes d1 _ [Hn1 Hb].
  destruct (Hb bytes eq_refl) as [_ Hread]. cbv zeta. destruct (health_from_slice bytes) as [report|] eqn:E;
    [|apply spec_ret; quiet_error]. apply spec_ret. split; [done|]. intros Hok _.
  exists bytes, report. by destruct (report_validate report).
Qed.

Lemma reject_pins_quiet P names d : spec P (reject_pins paths names) (λ _ d', nodes d' = nodes d) d.
Proof.
  revert d. induction names as [|name names IH]; intros d; cbn [reject_pins]; [by apply spec_ret|].
  try_then reject_reparse_quiet; [|quiet_error]. intros [] d1 _ Hn1. cbv beta in Hn1. rewrite <- Hn1. apply IH.
Qed.

Lemma verify_pins_spec P plan d :
  spec P (verify_migration_pins_for_removal paths plan) (λ r d', nodes d' = nodes d ∧
    ∀ pins, r = Ok pins →
      (∀ q, q ∈ pins → ∃ name, q = path_join (migration_runtime_pins_root paths) name ∧ is_Some (nodes d !! q)) ∧
      (remove_migration_pins_root plan = true → node_exists (nodes d) (migration_runtime_pins_root paths) = true ∧
         ∀ name, is_Some (nodes d !! path_join (migration_runtime_pins_root paths) name) → pin_seen (nodes d) name) ∧
      (remove_migration_pins_root plan = false → pins = [])) d.
Proof.
  unfold verify_migration_pins_for_removal. destruct (remove_migration_pins_root plan); cbn [negb].
  2: { apply spec_ret. split; [done|]. intros pins <-%(inj Ok). split_and!; [by intros q ?%elem_of_nil|done|done]. }
  try_then load_verified_pins_spec; [|quiet_error]. intros pins d1 _ [Hn1 Hverified].
  try_then read_bounded_directory_spec; [|quiet_error]. intros names d2 _ [Hn2 Hl].
  destruct (Hl names eq_refl) as (-> & _ & Hdir). rewrite Hn1 in Hdir.
  assert (node_exists (nodes d) (migration_runtime_pins_root paths) = true) as Hthere.
  { unfold node_exists. by destruct Hdir as [-> | ->]. }
  try_then reject_pins_quiet; [|quiet_error]. intros [] d3 _ Hn3. cbv beta in Hn3.
  apply spec_ret. split; [congruence|]. intros all <-%(inj Ok). split_and!.
  - intros q (name & -> & Hname)%list_elem_of_fmap. exists name. split; [done|].
    rewrite merge_sort_Permutation, entry_names_elem, Hn1 in Hname. done.
  - intros _. split; [done|]. intros name Hname Hb. by apply (proj2 (Hverified pins eq_refl Hb)).
  - done.
Qed.

(** The plan is empty, or everything is owned and the plan says what there is. *)
Definition prepared (plan : OwnedRemovalPlan) m : Prop :=
  plan = default_plan ∨ owned m ∧ plan_of_disk plan m.

Lemma prepare_spec P d :
  spec P (prepare_owned_removal paths) (λ r d', nodes d' = nodes d ∧ ∀ plan, r = Ok plan →
    prepared plan (nodes d) ∧ ((∀ n, blind n = false) → plan = default_plan → node_exists (nodes d) root = false)) d.
Proof.
  unfold prepare_owned_removal. cbv zeta. spec_then path_exists_spec. intros present d1 _ (Hn1 & _ & Hsee).
  destruct present; cbn [negb].
  2: { apply spec_ret. split; [done|]. intros plan <-%(inj Ok). split; [by left|]. intros Hb _. by rewrite <- Hsee. }
  try_then reject_reparse_quiet; [|quiet_error]. intros [] d2 _ Hn2. cbv beta in Hn2.
  try_then is_directory_spec; [|quiet_error]. intros directory d3 _ [Hn3 _].
  destruct directory; cbn [negb]; [|apply spec_ret; quiet_error].
  try_then read_bounded_directory_spec; [|quiet_error]. intros names d4 _ [Hn4 Hl].
  destruct (Hl names eq_refl) as (-> & _ & Hdir). clear Hl.
  try_then classify_spec; [|quiet_error]. intros [] d5 _ [Hn5 Hc]. specialize (Hc eq_refl).
  try_then verify_removable_spec; [|quiet_error]. intros all d6 _ [Hn6 Hall].
  destruct (Hall all eq_refl) as (Hpair & Hnone & Hsome). clear Hall.
  try_then verify_pointer_spec; [|quiet_error]. intros [] d7 _ [Hn7 Hactive]. specialize (Hactive eq_refl).
  try_then verify_pointer_spec; [|quiet_error]. intros [] d8 _ [Hn8 Hprevious]. specialize (Hprevious eq_refl).
  try_then verify_health_spec; [|quiet_error]. intros [] d9 _ [Hn9 Hhealth]. specialize (Hhealth eq_refl).
  try_then verify_pins_spec; [|quiet_error]. intros pins d10 _ [Hn10 Hpins].
  destruct (Hpins pins eq_refl) as (Hlisted & Hseen & Hnopins). clear Hpins.
  apply spec_ret. split; [congruence|]. intros plan <-%(inj Ok). split; [right|by intros _ ?].
  assert (nodes d3 = nodes d) as E3 by congruence. assert (nodes d5 = nodes d) as E5 by congruence.
  assert (nodes d6 = nodes d) as E6 by congruence. assert (nodes d7 = nodes d) as E7 by congruence.
  assert (nodes d8 = nodes d) as E8 by congruence. assert (nodes d9 = nodes d) as E9 by congruence.
  rewrite E3 in *. rewrite E5 in Hsome. rewrite E6 in Hactive. rewrite E7 in Hprevious. rewrite E8 in Hhealth. rewrite E9 in Hlisted, Hseen.
  clear E3 E5 E6 E7 E8 E9. cbn [remove_migration_pins_root remove_versions_root remove_receipts_root remove_current remove_previous remove_health plan_of] in *.
  assert (∀ v, v ∈ all ↔ is_Some (nodes d !! runtime_versions paths) ∧ installed (nodes d) v) as Hversions.
  { intros v. destruct (one_of (entry_names (nodes d) root) "bin") eqn:Ebin.
    - destruct (Hsome eq_refl) as [Hin _]. apply one_of_entries in Ebin. rewrite Hin. split; [done|by intros []].
    - rewrite (Hnone eq_refl). split; [by intros ?%not_elem_of_empty|]. intros [Hbin _].
      apply (one_of_entries _ "bin" root) in Hbin. congruence. }
  assert (is_Some (nodes d !! runtime_versions paths) → one_of (entry_names (nodes d) root) "bin" = true) as Hbin
    by (intros; by apply (one_of_entries _ "bin" root)).
  assert (is_Some (nodes d !! runtime_receipts_root paths) → one_of (entry_names (nodes d) root) "bin" = true) as Hbin'
    by (intros; rewrite Hpair; by apply (one_of_entries _ "runtime-receipts" root)).
  split.
  - split.
    + intros name Hname. by apply Hc, entry_names_elem.
    + intros v Hv Hi. destruct (Hsome (Hbin Hv)) as (_ & Hgood & _). by apply Hgood, Hversions.
    + intros name Hr Hname. destruct (Hsome (Hbin' Hr)) as (_ & _ & Hreceipts).
      destruct (Hreceipts name Hname) as (v & -> & Hv). exists v. split; [done|]. by apply Hversions.
    + split; intros Hx.
      * apply Hbin in Hx. rewrite Hpair in Hx. by apply one_of_entries in Hx.
      * apply Hbin' in Hx. by apply one_of_entries in Hx.
    + intros Hx. apply (one_of_entries _ "current.json" root) in Hx.
      destruct (Hactive Hx) as (bytes & pointer & ? & ? & Hv). exists bytes, pointer. by apply Hversions in Hv as [??].
    + intros Hx. apply (one_of_entries _ "previous-runtime.json" root) in Hx.
      destruct (Hprevious Hx) as (bytes & pointer & ? & ? & Hv). exists bytes, pointer. by apply Hversions in Hv as [??].
    + intros Hx. apply (one_of_entries _ "health.json" root) in Hx. by apply Hhealth.
    + intros name Hx. apply (one_of_entries _ "migration-runtime-pins" root) in Hx. by apply Hseen.
  - split; [done|done| |].
    + intros v. rewrite <- Hversions. cbn [versions complete_plan]. unfold in_order.
      by rewrite merge_sort_Permutation, elem_of_elements.
    + intros q Hq. cbn [migration_pins complete_plan] in Hq. destruct (Hlisted q Hq) as (name & -> & Hname).
      exists name. split_and!; [done..|].
      destruct (one_of (entry_names (nodes d) root) "migration-runtime-pins"); [by apply Hseen|].
      rewrite (Hnopins eq_refl) in Hq. by apply elem_of_nil in Hq.
Qed.
(** *** Carrying out a plan *)

Context `{!DeferredDeleteLaws}.

Lemma remove_generation_files_erasing Q deferring files :
  deferring = true → (∀ q, q ∈ files → Q q) → erasing Q (remove_generation_files deferring files).
Proof.
  intros ->. induction files as [|q files IH]; intros HQ; cbn [remove_generation_files remove_generation_file];
    [apply erasing_ret|]. apply erasing_try; [apply erasing_remove_file, HQ; by left|intros _; apply IH; set_solver].
Qed.

Lemma erasing_quiet_try {A B E : Type} (Q : Path → Prop) (G : A → Prop) (m : M Disk (result A E)) (k : A → M Disk (result B E)) :
  (∀ P d, spec P m (λ r d', nodes d' = nodes d ∧ ∀ a, r = Ok a → G a) d) →
  (∀ a, G a → erasing Q (k a)) → erasing Q (let? x := m in k x).
Proof.
  intros Hm Hk d. eapply spec_try; [apply Hm|cbv beta..].
  - intros a d1 _ [Hn Ha]. specialize (Hk a (Ha a eq_refl) d1). by rewrite Hn in Hk.
  - by intros e d1 _ [-> _].
Qed.

Lemma remove_generation_erasing (Q : Path → Prop) v :
  (∀ q, part_of program_files program_data v q → Q q) →
  erasing Q (remove_manifest_verified_generation_for_uninstall paths v (generation_directory program_files program_data v)).
Proof.
  intros HQ. unfold remove_manifest_verified_generation_for_uninstall, remove_manifest_verified_generation_with_policy.
  apply erasing_try.
  { apply erasing_quiet. intros P d. eapply spec_post; [apply store_verify_spec|]. by intros r d' _ [? _]. }
  intros _. apply erasing_try.
  { apply erasing_quiet. intros P d. eapply spec_post; [apply read_bounded_directory_spec|]. by intros r d' _ [? _]. }
  intros names. eapply erasing_quiet_try; [intros; apply removable_files_spec|]. intros [files immutable] Hfiles.
  destruct (negb _); [apply erasing_ret|]. apply erasing_try.
  { apply remove_generation_files_erasing; [done|]. intros q Hq. destruct (Hfiles q Hq) as [name ->].
    apply HQ, child_part_of. }
  intros _. apply erasing_try.
  - apply erasing_remove_directory, HQ. left. reflexivity.
  - intros _. apply erasing_remove_file, HQ. by right.
Qed.

Lemma remove_generations_erasing (Q : Path → Prop) vs :
  (∀ v q, v ∈ vs → part_of program_files program_data v q → Q q) → erasing Q (remove_generations paths vs).
Proof.
  induction vs as [|v vs IH]; intros HQ; cbn [remove_generations]; [apply erasing_ret|].
  apply erasing_try; [apply remove_generation_erasing; intros; eapply HQ; [by left|done]|].
  intros _. apply IH. intros v' q Hv'. apply HQ. by right.
Qed.

Lemma remove_pins_erasing (Q : Path → Prop) pins : (∀ q, q ∈ pins → Q q) → erasing Q (remove_pins pins).
Proof.
  induction pins as [|q pins IH]; intros HQ; cbn [remove_pins]; [apply erasing_ret|].
  apply erasing_try; [apply erasing_remove_file, HQ; by left|]. intros _. apply IH. intros; apply HQ. by right.
Qed.

Lemma remove_state_files_erasing (Q : Path → Prop) files :
  (∀ there q, (there, q) ∈ files → Q q) → erasing Q (remove_state_files files).
Proof.
  induction files as [|[there q] files IH]; intros HQ; cbn [remove_state_files]; [apply erasing_ret|].
  apply erasing_try; [|intros _; apply IH; intros ???; eapply HQ; by right].
  destruct there; [|apply erasing_ret]. apply erasing_remove_file, (HQ true). by left.
Qed.

Lemma execute_erasing m plan : plan_of_disk plan m → erasing (removable m) (execute_owned_removal paths plan).
Proof.
  intros [Hroot _ Hversions Hpins].
  assert (∀ name, owned_entry name = true → removable m (in_root name)) as Hentry
    by (intros name Hname; right; left; by exists name).
  unfold execute_owned_removal. rewrite Hroot. cbn [negb]. apply erasing_try.
  { apply remove_generations_erasing. intros v q Hv Hq. do 3 right. exists v. split; [|done]. by apply Hversions. }
  intros _. apply erasing_try; [by apply erasing_remove_root, (Hentry "bin")|].
  intros _. apply erasing_try; [by apply erasing_remove_root, (Hentry "runtime-receipts")|].
  intros _. apply erasing_try.
  { apply remove_pins_erasing. intros q Hq. right. right. left. by apply Hpins. }
  intros _. apply erasing_try; [by apply erasing_remove_root, (Hentry "migration-runtime-pins")|].
  intros _. apply erasing_try.
  { apply remove_state_files_erasing. intros there q.
    intros [E|[E|[E|E]%elem_of_cons]%elem_of_cons]%elem_of_cons; [..|by apply elem_of_nil in E]; injection E as -> ->.
    - by apply (Hentry "current.json").
    - by apply (Hentry "previous-runtime.json").
    - by apply (Hentry "health.json"). }
  intros _. apply erasing_try; [by apply erasing_remove_directory; left|].
  intros _. apply erasing_bind.
  { apply erasing_quiet. intros P d. eapply spec_post; [apply path_exists_spec|]. by intros ??? [? _]. }
  intros remains. destruct remains; [|apply erasing_ret].
  destruct (path_parent root); [|apply erasing_ret]. apply erasing_try; [|intros; apply erasing_ret].
  unfold defer_directory. apply erasing_with_err, erasing_bind; [|intros; apply erasing_ret].
  apply erasing_quiet. intros P d. apply delay_is_quiet.
Qed.
End Ownership.

(** ** Properties *)

(** C36. Removing the runtime never takes what is not the installer's: whatever calls
    fail, and whatever taking the service down did in between, the removal ends, and
    either the disk is as it was (or as taking the service down left it), or
    everything in the root of the service was proved to be owned before and after, the
    same generations were installed, and from then on the only difference in every
    state is that state files, pins and parts of installed generations are gone.  The
    pins are proved too: each is a valid pin, named after its nonce, of generations with
    the hashes it tells, unless the look for their directory failed and was taken for its
    absence, which is the one way the code can come to remove what it did not verify. *)
Theorem uninstall_removes_only_what_it_owns
    `{World, Sha256, ActivationJson, PointerJson, StoreJson, DeferredDelete, HealthJson, !DeferredDeleteLaws}
    program_files program_data before d
  (Hbefore : ∀ d0, is_Some (before d0)) :
  let paths := machine_layout program_files program_data in
  let found := owned program_files program_data in
  let there m v := is_Some (m !! runtime_versions paths) ∧ installed program_files program_data m v in
  ∃ r d', remove_owned paths before d = Some (r, d') ∧
    (r ≠ Ok true ∧ run (λ m, m = nodes d) d d' ∨
     ∃ d0 x d1, run (λ m, m = nodes d) d d0 ∧ before d0 = Some (x, d1) ∧
       (r ≠ Ok true ∧ run (λ m, m = nodes d1) d1 d' ∨
        found (nodes d) ∧ found (nodes d1) ∧ (∀ v, there (nodes d) v ↔ there (nodes d1) v) ∧
        run (erases (removable program_files program_data (nodes d1)) (nodes d1)) d1 d')).
Proof.
  intros paths found there. unfold remove_owned, bind.
  destruct (spec_runs _ _ _ _ (prepare_spec program_files program_data (λ m, m = nodes d) d))
    as (r0 & d0 & E0 & Hr0 & Hn0 & Hp0).
  fold paths in E0. rewrite E0. destruct r0 as [plan|e]; [|exists (Err e), d0; split; [done|by left; split]].
  destruct (Hp0 plan eq_refl) as [Hplan0 _]. destruct (Hbefore d0) as [[x d1] Ex]. rewrite Ex.
  destruct x as [[]|e]; [|exists (Err e), d1; split; [done|right; exists d0, (Err e), d1; split_and!; auto; left; split; [done|reflexivity]]].
  destruct (spec_runs _ _ _ _ (prepare_spec program_files program_data (λ m, m = nodes d1) d1))
    as (r2 & d2 & E2 & Hr2 & Hn2 & Hp2).
  fold paths in E2. rewrite E2. destruct r2 as [plan'|e].
  2: { exists (Err e), d2. split; [done|]. right. exists d0, (Ok tt), d1. split_and!; auto. }
  destruct (Hp2 plan' eq_refl) as [Hplan2 _]. case_bool_decide as Heq.
  { eexists _, d2. split; [reflexivity|]. right. exists d0, (Ok tt), d1. split_and!; auto. }
  assert (plan' = plan) as -> by (by destruct (decide (plan = plan')) as [->|]). clear Heq.
  destruct Hplan0 as [-> | [Hown Hplan]].
  { exists (Ok false), d2. split; [done|]. right. exists d0, (Ok tt), d1. split_and!; auto. }
  destruct Hplan2 as [-> | [Hown' Hplan']]; [by destruct Hplan|].
  destruct (spec_runs _ _ _ _ (execute_erasing program_files program_data _ plan Hplan' d2)) as (r & d' & E & Hrun & _).
  exists r, d'. split; [exact E|]. right. exists d0, (Ok tt), d1. split_and!; [done|done|]. right.
  split_and!; [done|done| |].
  - intros v. etrans; [symmetry; apply Hplan|apply Hplan'].
  - rewrite Hn2 in Hrun. etrans; [|exact Hrun]. eapply run_mono; [exact Hr2|]. by intros m ->.
Qed.

(** A machine on which a runtime was staged, and nothing more. *)
Definition disk_after {A : Type} (run : option (A * Disk)) : Disk := match run with Some (_, d) => d | None => disk_of ∅ end.

Definition installed_disk : Nodes :=
  nodes (disk_after ((let? payload := payload_load example_package_root in
    stage (machine_layout example_files example_data) payload false (λ _ _, ret (Ok tt))) (disk_of example_package_disk))).

#[export] Instance example_health_json : HealthJson := { health_from_slice _ := None }.

Definition uninstalled_example : option (result bool SetupError * Disk) :=
  remove_receipted_installation (machine_layout example_files example_data) (disk_of installed_disk).

Definition gone_from (p : Path) (m : Nodes) : bool := bool_decide (tree m p = []).

Lemma example_is_uninstalled :
  option_map (λ '(r, d), (match r with Ok b => b | Err _ => false end, gone_from (service_root (machine_layout example_files example_data)) (nodes d)))
    uninstalled_example = Some (true, true).
Proof. vm_compute. reflexivity. Qed.

Lemma uninstall_removes_only_what_it_owns_witness :
  ∃ d', uninstalled_example = Some (Ok true, d') ∧
    tree (nodes d') (service_root (machine_layout example_files example_data)) = [] ∧
    erases (removable example_files example_data installed_disk) installed_disk (nodes d').
Proof.
  pose proof example_is_uninstalled as Hok.
  destruct (uninstall_removes_only_what_it_owns example_files example_data (ret (Ok tt)) (disk_of installed_disk)
    ltac:(intros d0; by eexists)) as (r & d' & E & Hcase).
  unfold uninstalled_example, remove_receipted_installation in *. rewrite E in Hok |- *.
  cbn [option_map] in Hok. apply (inj Some), pair_equal_spec in Hok as [Hr Hgone].
  apply bool_decide_eq_true in Hgone. destruct r as [b|e]; [|discriminate Hr]. subst b. exists d'. split; [reflexivity|]. split; [exact Hgone|].
  destruct Hcase as [[Hr _]|(d0 & x & d1 & Hrun & Ex & Hcase)]; [by destruct Hr|].
  assert (nodes d1 = installed_disk) as <-.
  { unfold ret in Ex. apply (inj Some), pair_equal_spec in Ex as [_ <-]. exact (run_nodes _ _ _ Hrun eq_refl). }
  destruct Hcase as [[Hr _]|(_ & _ & _ & Hlast)]; [by destruct Hr|].
  apply (run_nodes _ _ _ Hlast). reflexivity.
Defined.

(** C40. A removal that was interrupted is not taken up again: while the directory of a
    generation lacks one of the five files, the removal refuses and changes nothing,
    so that repeating it does not help.  A look at whether a file is there is taken to
    be answered truthfully. *)
Theorem half_removed_generation_blocks_uninstall
    `{World, Sha256, ActivationJson, PointerJson, StoreJson, DeferredDelete, HealthJson}
    program_files program_data v name d
  (Hsee : ∀ n, blind n = false)
  (Hroot : node_exists (nodes d) (service_root (machine_layout program_files program_data)) = true)
  (Hbin : is_Some (nodes d !! runtime_versions (machine_layout program_files program_data)))
  (Hthere : installed program_files program_data (nodes d) v)
  (Hname : name ∈ IMMUTABLE_RUNTIME_FILES)
  (Hlost : nodes d !! path_join (generation_directory program_files program_data v) name = None) :
  ∃ e d', remove_receipted_installation (machine_layout program_files program_data) d = Some (Err e, d') ∧
    (∀ m, visited d d' m → m = nodes d) ∧ nodes d' = nodes d.
Proof.
  unfold remove_receipted_installation, remove_owned, bind.
  destruct (spec_runs _ _ _ _ (prepare_spec program_files program_data (λ m, m = nodes d) d))
    as (r & d' & E & Hrun & Hn & Hp). rewrite E. destruct r as [plan|e].
  - exfalso. destruct (Hp plan eq_refl) as [[-> | [Hown _]] Hempty].
    + by rewrite Hempty in Hroot.
    + destruct (owned_generations _ _ _ Hown v Hbin Hthere) as [_ (b & rec & _ & _ & _ & _ & _ & _ & Hall)].
      apply Hall in Hname. rewrite Hlost in Hname. by destruct Hname.
  - exists e, d'. split; [done|]. split; [|done]. intros m. by apply (run_visited _ _ _ _ Hrun).
Qed.

(** The states of the removal in which the DLL of the generation is gone. *)
Definition half_uninstalled_states : list Nodes :=
  List.filter (λ m,
    match m !! generation_directory example_files example_data "1.0.0",
          m !! path_join (generation_directory example_files example_data "1.0.0") "MacType.dll" with
    | Some _, None => true
    | _, _ => false
    end) (history (disk_after uninstalled_example)).

Definition half_uninstalled_disk : Nodes := default ∅ (head half_uninstalled_states).

Lemma half_removed_generation_blocks_uninstall_witness :
  ∃ e d', remove_receipted_installation (machine_layout example_files example_data) (disk_of half_uninstalled_disk) =
    Some (Err e, d') ∧ nodes d' = half_uninstalled_disk.
Proof.
  destruct (half_removed_generation_blocks_uninstall example_files example_data "1.0.0" "MacType.dll"
    (disk_of half_uninstalled_disk)) as (e & d' & E & _ & Hn).
  - done.
  - vm_compute. reflexivity.
  - vm_compute. by eexists.
  - vm_compute. by eexists.
  - by apply (bool_decide_unpack _); vm_compute.
  - vm_compute. reflexivity.
  - exists e, d'. split; [exact E|exact Hn].
Defined.
