(* ===== verification/Deployment.v ===== *)
(** * Deploying a runtime

    [service-runtime/setup/src/runtime_installer.rs]: how the store of generations, the
    exchange of a damaged one and the activation transaction are put together to deploy,
    repair, recover and inspect the runtime. *)

From S2P Require Export Repair.

Section Deployment.
Context `{World, Sha256, ActivationJson, PointerJson, StoreJson, DeferredDelete, RepairJson} (paths : MachinePaths).

#[local] Hint Extern 0 RuntimeServices => exact (store_services paths) : typeclass_instances.

(** The journal of an activation and that of a repair, with the name errors give them. *)
Definition transaction_journals : list (Path * string) :=
  [(runtime_activation_journal paths, "activation"%string); (repair_journal_path paths, "repair"%string)].

(** The loop of [reject_pending_runtime_transaction]. *)
Fixpoint reject_pending (journals : list (Path * string)) : M Disk (result unit SetupError) :=
  match journals with
  | [] => ret (Ok tt)
  | (path, label) :: journals =>
      let! metadata := fs_symlink_metadata path in
      match metadata with
      | Ok _ => ret (Err (Runtime ("a pending runtime " ++ label ++
                  " transaction requires exact service-binding recovery")))
      | Err error =>
          if not_found error then reject_pending journals
          else ret (Err (CleanupUnknown ("pending runtime " ++ label ++ " transaction could not be inspected at "
                 ++ path_display path ++ ": " ++ io_text error)))
      end
  end.

Definition reject_pending_runtime_transaction : M Disk (result unit SetupError) :=
  reject_pending transaction_journals.

Definition recover_runtime : M Disk (result (option InstalledRuntime) SetupError) :=
  let? _ := recover_interrupted_repair paths in
  recover paths.

Definition recover_runtime_with_service_binding
    (inspect_service_binding : option Path → option Path → M Disk (result RuntimeServiceBinding SetupError))
    (restore_previous_service_binding : Path → option Path → M Disk (result unit SetupError))
    : M Disk (result (option InstalledRuntime) SetupError) :=
  let? _ := recover_interrupted_repair paths in
  recover_with_service_binding paths inspect_service_binding restore_previous_service_binding.

Definition no_active_runtime : SetupError := Runtime "no active protected runtime is installed".

(** The path of the new service binary within its generation. *)
Definition SERVICE_BINARY : string := "mactype-service.exe".

Definition deploy {T : Type} (payload : FixedPayload) (prepare : Path → M Disk (result T SetupError))
    (health_check : Path → T → M Disk (result unit SetupError)) (replace_invalid defer_external_rollback : bool)
    : M Disk (result (InstalledRuntime * T) SetupError) :=
  let? _ := (if defer_external_rollback then reject_pending_runtime_transaction
             else let? _ := recover_runtime in ret (Ok tt)) in
  let? payload := payload_load payload in
  let version := verified_version (verified payload) in
  let? destination := stage paths payload replace_invalid (replace_runtime_payload paths) in
  let service_binary := path_join destination SERVICE_BINARY in
  let? activation := activate paths version service_binary prepare health_check defer_external_rollback in
  let? prepared := finalize paths activation in
  ret (Ok ({| installed_version := version; service_binary := service_binary |}, prepared)).

(** [.map(|(installed, ())| installed)] *)
Definition installed_of (m : M Disk (result (InstalledRuntime * unit) SetupError)) : M Disk (result InstalledRuntime SetupError) :=
  let? deployed := m in ret (Ok (fst deployed)).

Definition deploy_with_health_check (payload : FixedPayload) (health_check : Path → M Disk (result unit SetupError))
    : M Disk (result InstalledRuntime SetupError) :=
  installed_of (deploy payload (λ _, ret (Ok tt)) (λ binary _, health_check binary) false false).

Definition deploy_with_prepare_and_health_check {T : Type} (payload : FixedPayload)
    (prepare : Path → M Disk (result T SetupError)) (health_check : Path → T → M Disk (result unit SetupError))
    : M Disk (result (InstalledRuntime * T) SetupError) :=
  deploy payload prepare health_check false true.

Definition validate_repair_payload (payload : FixedPayload) (allow_generic_recovery : bool)
    : M Disk (result unit SetupError) :=
  let? found :=
    (if allow_generic_recovery then recover_runtime
     else let? _ := reject_pending_runtime_transaction in current paths) in
  let? installed := ret (ok_or found no_active_runtime) in
  let? payload := payload_load payload in
  if negb (installed_version installed =? verified_version (verified payload))%string
  then ret (Err (Runtime "repair cannot replace an outdated runtime; use upgrade"))
  else ret (Ok tt).

Definition repair_current_with_health_check (payload : FixedPayload) (health_check : Path → M Disk (result unit SetupError))
    : M Disk (result InstalledRuntime SetupError) :=
  let? _ := validate_repair_payload payload true in
  installed_of (deploy payload (λ _, ret (Ok tt)) (λ binary _, health_check binary) true false).

Definition repair_current_with_prepare_and_health_check {T : Type} (payload : FixedPayload)
    (prepare : Path → M Disk (result T SetupError)) (health_check : Path → T → M Disk (result unit SetupError))
    : M Disk (result (InstalledRuntime * T) SetupError) :=
  let? _ := validate_repair_payload payload false in
  deploy payload prepare health_check true true.

Definition restore_pinned_current_with_health_check (health_check : Path → M Disk (result unit SetupError))
    : M Disk (result InstalledRuntime SetupError) :=
  let? _ := recover_runtime in
  let? found := current paths in
  let? installed := ret (ok_or found no_active_runtime) in
  let? pinned := verify_pinned paths (installed_version installed) in
  if negb pinned then ret (Err (Runtime "the active runtime is not protected by a migration pin"))
  else
    let? _ := health_check (service_binary installed) in
    ret (Ok installed).

(** [self.paths.runtime_activation_journal().exists() || repair_journal.exists()] *)
Definition transaction_pending : M Disk bool :=
  let! activation := path_exists (runtime_activation_journal paths) in
  if activation then ret true else path_exists (repair_journal_path paths).

Definition inspect_current_stable : M Disk (result (option InstalledRuntime) SetupError) :=
  let refusal := Runtime "a runtime transaction is pending" in
  let! pending := transaction_pending in
  if pending then ret (Err refusal)
  else
    let? found := current paths in
    let? _ :=
      match found with
      | None => ret (Ok tt)
      | Some installed =>
          match path_parent (service_binary installed) with
          | None => ret (Err (Runtime "active runtime has no generation directory"))
          | Some directory => store_verify paths (installed_version installed) directory
          end
      end in
    let! pending := transaction_pending in
    if pending then ret (Err refusal) else ret (Ok found).
End Deployment.
