(* ===== verification/Silent.v ===== *)
(** * Computations that ask Windows for nothing about services

    The file operations of the setup program make none of the calls that a disk
    remembers.  [silent m] says so of [m]; the rules are hints, and [hush] goes through a
    computation that has no loop of its own. *)

From S2P Require Export EventLogFile Frames.

Definition silent {A : Type} (m : M Disk A) : Prop := ∀ d a d', m d = Some (a, d') → answered d' = answered d.

Create HintDb silent.

Lemma silent_pure {A} (a : A) : silent (ret a).
Proof. by intros d b d' [= _ ->]. Qed.

Lemma silent_none {A} : silent (no_answer (A := A)).
Proof. done. Qed.

Lemma silent_gets {A} (f : Disk → A) : silent (gets f).
Proof. by intros d b d' [= _ ->]. Qed.

Lemma silent_get : silent get.
Proof. by intros d b d' [= _ ->]. Qed.

Lemma silent_bind {A B} (m : M Disk A) (k : A → M Disk B) : silent m → (∀ a, silent (k a)) → silent (bind m k).
Proof.
  intros Hm Hk d b d' E. unfold bind in E. destruct (m d) as [[a d1]|] eqn:E1; [|done].
  rewrite (Hk _ _ _ _ E). by eapply Hm.
Qed.

Lemma silent_modify (f : Disk → Disk) : (∀ d, answered (f d) = answered d) → silent (modify f).
Proof. intros Hf d b d' E. injection E as _ <-. apply Hf. Qed.

Lemma silent_sleep n : silent (sleep n).
Proof. by apply silent_modify. Qed.

Lemma silent_now : silent instant_now.
Proof. apply silent_gets. Qed.

#[export] Hint Resolve silent_pure silent_none silent_gets silent_get silent_sleep silent_now : silent.
#[export] Hint Extern 2 (silent (modify _)) => (apply silent_modify; done) : silent.

Ltac hush :=
  repeat first
    [ solve [auto with silent]
    | apply silent_bind; [|intros]
    | match goal with |- silent (let _ := _ in _) => cbv zeta end
    | case_match ].

Section Files.
Context `{World}.

Lemma silent_tick : silent tick.
Proof. by intros d a d' [= _ <-]. Qed.
#[local] Hint Resolve silent_tick : silent.

Lemma silent_read {A} (f : Nodes → result A IoError) : silent (os_read f).
Proof. unfold os_read. hush. Qed.

Lemma silent_write f : silent (os_write f).
Proof. unfold os_write. hush. Qed.
#[local] Hint Resolve silent_read silent_write : silent.

Lemma silent_lift {A} (m : M Disk (result A IoError)) : silent m → silent (lift_io m).
Proof. intros. unfold lift_io. hush. Qed.

Lemma silent_with_err {A} f (m : M Disk (result A SetupError)) : silent m → silent (with_err f m).
Proof. intros. unfold with_err. hush. Qed.
#[local] Hint Resolve silent_lift silent_with_err : silent.

Lemma silent_exists p : silent (path_exists p).
Proof. unfold path_exists. hush. Qed.

Lemma silent_nonce : silent temporary_nonce.
Proof. unfold temporary_nonce. hush. Qed.
#[local] Hint Resolve silent_exists silent_nonce : silent.

Lemma silent_reject l : silent (reject_reparse l).
Proof. induction l as [|p l IH]; cbn [reject_reparse]; [apply silent_pure|]. unfold is_reparse_point. hush. Qed.

Lemma silent_reject_ancestors p : silent (reject_reparse_ancestors p).
Proof. apply silent_reject. Qed.
#[local] Hint Resolve silent_reject_ancestors : silent.

Lemma silent_protected p : silent (create_protected_directory p).
Proof. unfold create_protected_directory, create_dir_all. hush. Qed.

Lemma silent_bounded_read p n text : silent (read_bounded_regular_file p n text).
Proof. unfold read_bounded_regular_file, fs_metadata, open_read, read_to_end. hush. Qed.

Lemma silent_entries room text names : silent (bounded_entries room text names).
Proof. revert room. induction names as [|name names IH]; intros [|room]; cbn [bounded_entries]; hush. Qed.
#[local] Hint Resolve silent_entries : silent.

Lemma silent_bounded_directory p n text : silent (read_bounded_directory p n text).
Proof. unfold read_bounded_directory, fs_metadata, fs_read_dir. hush. Qed.

Lemma silent_is_file p : silent (is_file p).
Proof. unfold is_file, fs_metadata. hush. Qed.

Lemma silent_is_dir p : silent (is_dir p).
Proof. unfold is_dir, fs_metadata. hush. Qed.

Lemma silent_rotate path indices : silent (rotate_backups path indices).
Proof.
  induction indices as [|index indices IH]; cbn [rotate_backups]; [apply silent_pure|].
  unfold rotate_backup, fs_rename, remove_file. hush.
Qed.
#[local] Hint Resolve silent_rotate : silent.

Lemma silent_append_record `{EventJson} path now source s a code ps detail redactions :
  silent (record_event path now source s a code ps detail redactions).
Proof.
  unfold record_event, EventLogFile.append, rotate_if_needed, open_append, append_all, create_dir_all, fs_metadata. hush.
Qed.
End Files.

#[export] Hint Resolve silent_tick silent_read silent_write silent_lift silent_with_err silent_exists silent_nonce
  silent_reject silent_reject_ancestors silent_protected silent_bounded_read silent_entries silent_bounded_directory
  silent_is_file silent_is_dir silent_append_record : silent.
