(* ===== verification/SetupEvents.v ===== *)
(** * What the setup program asks of the machine, and tells

    [service-runtime/setup/src/event_log.rs] and, of [setup/src/windows/mod.rs], the
    directory of its event log.  The access control of a directory ([windows/acl.rs]), the
    folders of the machine ([windows/known_folders.rs]) and the place of the executable
    are the class [Setup]: none of them changes what is in a file. *)

From S2P Require Export Scm Silent.

Inductive KnownFolder := ProgramFilesFolder | ProgramDataFolder.

Class Setup `{World} := {
  harden_machine_directory : Path → M Disk (result unit SetupError);
  known_folder_path : KnownFolder → M Disk (result Path IoError);
  current_executable : M Disk (result (list ascii) IoError);
  system_time : Disk → Z;
  lowercase : list ascii → list ascii;    (* [str::to_lowercase] *)
  lossy_text : list ascii → string;       (* [String::from_utf8_lossy] *)
  machine_folder : KnownFolder → Path;    (* a folder of the machine does not move *)
  harden_quiet p P d :
    spec P (harden_machine_directory p) (λ _ d', nodes d' = nodes d ∧ answered d' = answered d) d;
  known_quiet k P d :
    spec P (known_folder_path k) (λ r d', nodes d' = nodes d ∧ answered d' = answered d ∧
      ∀ p, r = Ok p → p = machine_folder k) d;
  executable_quiet P d : spec P current_executable (λ _ d', nodes d' = nodes d ∧ answered d' = answered d) d
}.

(** [MachinePaths::from_trusted_os_roots] of [contract/src/paths.rs] *)
Definition from_trusted_os_roots (lower : list ascii → list ascii) (program_files program_data : Path)
    : result MachinePaths SetupError :=
  if validate_protected_root lower (path_text program_files) && validate_protected_root lower (path_text program_data)
  then Ok (machine_layout program_files program_data)
  else Err (Runtime "machine roots must be absolute protected Windows roots").

Section Events.
Context `{World, EventJson, !Setup}.

(** [windows/known_folders.rs] *)
Definition known_machine_paths : M Disk (result MachinePaths SetupError) :=
  let? program_files := lift_io (known_folder_path ProgramFilesFolder) in
  let? program_data := lift_io (known_folder_path ProgramDataFolder) in
  ret (from_trusted_os_roots lowercase program_files program_data).

Definition prepare_event_log_directory (paths : MachinePaths) : M Disk (result unit SetupError) :=
  match path_parent (event_log_dir paths) with
  | None => ret (Err (Runtime "protected event-log root is unavailable"))
  | Some data_root =>
      let? _ := create_protected_directory data_root in
      let? _ := harden_machine_directory data_root in
      let? _ := create_protected_directory (event_log_dir paths) in
      harden_machine_directory data_root
  end.

Definition event_log_path : M Disk (result Path SetupError) :=
  let? paths := known_machine_paths in
  let? _ := prepare_event_log_directory paths in
  ret (Ok (service_setup_event_log paths)).

(** [write]: a failure is only mentioned on standard error, and only once. *)
Definition write_event (severity : EventSeverity) (code : string) (ps : list (string * string))
    (detail : option string) (redactions : list string) : M Disk unit :=
  let! path := event_log_path in
  match path with
  | Err _ => ret tt
  | Ok path =>
      let! now := gets system_time in
      let! _ := record_event path now ServiceSetup severity AreaSetup code ps detail redactions in
      ret tt
  end.

Definition rollback_completed (command : string) : M Disk unit :=
  write_event Notice "setup-rollback-completed" [("command"%string, command)] None [].

Definition service_configuration_repaired (fields : list string) : M Disk unit :=
  write_event Notice "service-configuration-repaired" [("fields"%string, String.concat "," fields)] None [].

Definition command_verb (c : SetupCommand) : string :=
  match c with
  | BrokerVerb c => default ""%string (verb c)
  | BootstrapInstall p => policy_verb p
  | UninstallOwned => "uninstall-owned"
  end.

(** The text up to the first colon. *)
Definition stage_of (text : string) : string :=
  match position (λ b, (b =? ":")%char) (str_bytes text) with
  | Some i => bytes_str (take i (str_bytes text))
  | None => text
  end.

Definition command_failed (c : SetupCommand) (error : SetupError) (profile : option (list ascii)) : M Disk unit :=
  let text := display error in
  write_event Error "setup-command-failed" [("command"%string, command_verb c); ("stage"%string, stage_of text)]
    (Some text) (match profile with Some bytes => [lossy_text bytes] | None => [] end).
End Events.

(** ** Telling leaves the services alone *)

Lemma silent_spec {A} (m : M Disk A) :
  (∀ d, spec (λ _, True) m (λ _ d', answered d' = answered d) d) → silent m.
Proof. intros Hm d a d' E. by destruct (spec_result _ _ _ _ _ _ (Hm d) E). Qed.

Section Silence.
Context `{World, EventJson, !Setup}.

Lemma silent_harden p : silent (harden_machine_directory p).
Proof. apply silent_spec. intros d. eapply spec_post; [apply harden_quiet|]. by intros ??? [_ ?]. Qed.

Lemma silent_folder k : silent (known_folder_path k).
Proof. apply silent_spec. intros d. eapply spec_post; [apply known_quiet|]. by intros ??? (_ & ? & _). Qed.
#[local] Hint Resolve silent_folder : silent.

Lemma silent_known : silent known_machine_paths.
Proof. unfold known_machine_paths. hush. Qed.

Lemma silent_executable : silent current_executable.
Proof. apply silent_spec. intros d. eapply spec_post; [apply executable_quiet|]. by intros ??? [_ ?]. Qed.
#[local] Hint Resolve silent_harden silent_known silent_executable : silent.

Lemma silent_prepare_log paths : silent (prepare_event_log_directory paths).
Proof. unfold prepare_event_log_directory. hush. Qed.
#[local] Hint Resolve silent_prepare_log : silent.

Lemma silent_write_event severity code ps detail redactions : silent (write_event severity code ps detail redactions).
Proof. unfold write_event, event_log_path. hush. Qed.
#[local] Hint Resolve silent_write_event : silent.

Lemma silent_rollback_completed command : silent (rollback_completed command).
Proof. apply silent_write_event. Qed.

Lemma silent_repaired fields : silent (service_configuration_repaired fields).
Proof. apply silent_write_event. Qed.
End Silence.

#[export] Hint Resolve silent_harden silent_known silent_executable silent_prepare_log silent_write_event
  silent_rollback_completed silent_repaired : silent.

(** ** Telling changes nothing but the log *)

Section LogFrame.
Context `{World, EventJson, !Setup} (Q : Path → Prop).

(** [q] is neither below the directory of the log, nor above it. *)
Definition apart (directory q : Path) : Prop := q ∉ ancestors directory ∧ below directory q = false.

Lemma leaves_create_dir_all p : (∀ q, Q q → q ∉ ancestors p) → leaves Q (create_dir_all p).
Proof.
  intros HQ. apply leaves_write. intros _ m m' E. destruct (forallb _ _); [|done]. apply (inj Ok) in E as <-.
  intros q Hq. apply make_directories_lookup. by rewrite list_elem_of_In, <- in_rev, <- list_elem_of_In; apply HQ.
Qed.

Lemma leaves_insert (p : Path) (f : option nat → Nodes → result Nodes IoError) :
  ¬ Q p → (∀ partial m m', f partial m = Ok m' → m' = m ∨ ∃ n, m' = <[p := n]> m) → leaves Q (os_write f).
Proof.
  intros HQ Hf. apply leaves_write. intros partial m m' E. destruct (Hf _ _ _ E) as [->|[n ->]]; [done|].
  intros q Hq. rewrite lookup_insert_ne; [done|]. by intros ->.
Qed.

Lemma leaves_rename source destination :
  (∀ q, Q q → below source q = false ∧ below destination q = false) → leaves Q (fs_rename source destination).
Proof.
  intros HQ. apply leaves_write. intros _ m m' E q Hq. destruct (HQ q Hq) as [Hs Hd].
  assert (q ≠ source ∧ q ≠ destination) as [Hns Hnd]
    by (split; intros ->; [unfold below in Hs|unfold below in Hd]; by rewrite bool_decide_true in *).
  assert (∀ n : Node, <[destination := n]> (delete source m) !! q = m !! q) as Hsame
    by (intros n; rewrite lookup_insert_ne by done; by rewrite lookup_delete_ne).
  repeat case_match; try done; apply (inj Ok) in E as <-; try apply Hsame.
  apply (move_nodes_lookup Q); [by intros Ht%tree_below; rewrite Ht in Hs|].
  intros p _ <-. unfold below, moved in Hd. apply bool_decide_eq_false in Hd. apply Hd. by eexists.
Qed.

Context (directory : Path) (name : string) (HQ : ∀ q, Q q → apart directory q).

Lemma log_below n q : Q q → below (path_join directory n) q = false.
Proof.
  intros [_ Hp]%HQ. unfold below in *. apply bool_decide_eq_false in Hp. apply bool_decide_eq_false. intros [k ->].
  apply Hp. exists (n :: k). unfold path_join. by rewrite <- app_assoc.
Qed.

Lemma log_not_framed n : ¬ Q (path_join directory n).
Proof. intros Hq%(log_below n). unfold below in Hq. by rewrite bool_decide_true in Hq. Qed.

Lemma backup_join index : ∃ n, backup_path (path_join directory name) index = path_join directory n.
Proof. unfold backup_path, with_file_name. rewrite path_parent_join. by eexists. Qed.

Lemma leaves_rotate indices : leaves Q (rotate_backups (path_join directory name) indices).
Proof.
  induction indices as [|index indices IH]; cbn [rotate_backups]; [apply leaves_ret|].
  apply leaves_try; [|by intros _]. unfold rotate_backup. destruct (backup_join index) as [n ->]. cbv zeta.
  pose proof log_not_framed as Hn. apply leaves_bind; [apply leaves_exists|intros present].
  apply leaves_try; [destruct present; [by apply leaves_remove_file|apply leaves_ret]|intros _].
  apply leaves_bind; [|intros [[]|e]; frame].
  destruct (index =? 1); [by apply leaves_rename; auto using log_below|].
  destruct (backup_join (index - 1)) as [n' ->]. by apply leaves_rename; auto using log_below.
Qed.

Lemma leaves_record now source s a code ps detail redactions :
  leaves Q (record_event (path_join directory name) now source s a code ps detail redactions).
Proof.
  pose proof log_not_framed as Hn. unfold record_event. apply leaves_try; [apply leaves_ret|intros t].
  unfold EventLogFile.append. destruct (event_to_vec _) as [bytes|e]; [|apply leaves_ret]. cbv zeta.
  destruct (_ <? _)%N; [apply leaves_ret|]. rewrite path_parent_join.
  apply leaves_try; [apply leaves_create_dir_all; by intros q [Hq _]%HQ|intros _].
  apply leaves_try; [|intros _].
  { unfold rotate_if_needed. apply leaves_try; [|intros len; destruct (_ <=? _)%N; [apply leaves_ret|apply leaves_rotate]].
    unfold fs_metadata. frame. }
  apply leaves_try; [|intros _; apply leaves_try; [|intros _; apply leaves_ret]].
  - apply (leaves_insert (path_join directory name)); [apply Hn|]. intros _ m m' E.
    destruct (m !! _) as [[| |[| |]]|]; try done; apply (inj Ok) in E as <-; eauto.
  - apply (leaves_insert (path_join directory name)); [apply Hn|]. intros partial m m' E.
    destruct (m !! _) as [[| |[| |]]|]; try done; apply (inj Ok) in E as <-; eauto.
Qed.
End LogFrame.

Section TellFrame.
Context `{World, EventJson, !Setup} (Q : Path → Prop).

(** The layout of this machine. *)
Definition machine_here : MachinePaths := machine_layout (machine_folder ProgramFilesFolder) (machine_folder ProgramDataFolder).

Context (HQ : ∀ q, Q q → apart (event_log_dir machine_here) q).

Lemma folder_spec k P d :
  spec P (lift_io (known_folder_path k)) (λ r d', nodes d' = nodes d ∧ ∀ p, r = Ok p → p = machine_folder k) d.
Proof.
  apply spec_lift. eapply spec_post; [apply known_quiet|]. intros r d' _ (Hn & _ & Hp). split; [done|].
  intros p E. apply Hp. by destruct r; [apply (inj Ok) in E as ->|].
Qed.

Lemma known_machine_spec P d :
  spec P known_machine_paths (λ r d', nodes d' = nodes d ∧ ∀ paths, r = Ok paths → paths = machine_here) d.
Proof.
  unfold known_machine_paths. eapply spec_try; [apply folder_spec|cbv beta..]; [|by intros e d1 _ [Hn _]].
  intros program_files d1 _ [Hn1 Hp1].
  eapply spec_try; [apply folder_spec|cbv beta..]; [|intros e d2 _ [Hn _]; split; [congruence|done]].
  intros program_data d2 _ [Hn2 Hp2]. apply spec_ret. split; [congruence|].
  intros paths. unfold from_trusted_os_roots. destruct (_ && _); [|done]. intros <-%(inj Ok). unfold machine_here. f_equal; auto.
Qed.

Lemma leaves_harden p : leaves Q (harden_machine_directory p).
Proof. apply leaves_quiet. intros P d. eapply spec_post; [apply harden_quiet|]. by intros ??? [? _]. Qed.

Lemma leaves_prepare_log : leaves Q (prepare_event_log_directory machine_here).
Proof.
  unfold prepare_event_log_directory. destruct (path_parent _) as [data_root|] eqn:Ep; [|apply leaves_ret].
  destruct (path_parent_spec _ _ Ep) as [name Hname].
  apply leaves_try; [|intros _; apply leaves_try; [apply leaves_harden|intros _; apply leaves_try; [|intros _; apply leaves_harden]]].
  - apply leaves_protected_directory. intros q [Hq _]%HQ Hin. apply Hq. rewrite Hname. by apply ancestors_above.
  - apply leaves_protected_directory. by intros q [Hq _]%HQ.
Qed.

Lemma leaves_write_event severity code ps detail redactions : leaves Q (write_event severity code ps detail redactions).
Proof.
  unfold write_event, event_log_path.
  intros d. eapply (spec_bind _ _ _ (λ r d', agree Q (nodes d) (nodes d') ∧ ∀ path, r = Ok path → path = service_setup_event_log machine_here)).
  - eapply spec_try; [apply known_machine_spec|cbv beta..].
    + intros paths d1 _ [Hn Hp]. rewrite (Hp _ eq_refl). eapply spec_try.
      * eapply spec_mono; [apply leaves_prepare_log| |]; [intros n; by rewrite Hn|]. intros r d2 _ Ha. exact Ha.
      * intros [] d2 _ Ha. apply spec_ret. rewrite Hn in Ha. split; [done|]. by intros path <-%(inj Ok).
      * intros e d2 _ Ha. rewrite Hn in Ha. by split.
    + intros e d1 _ [-> _]. split; [done|]. done.
  - intros [path|e] d1 _ [Ha Hp]; [|by apply spec_ret]. rewrite (Hp _ eq_refl).
    change (service_setup_event_log machine_here) with (path_join (event_log_dir machine_here) "service-setup.log").
    eapply spec_bind; [by apply (spec_gets _ _ (λ _ d', nodes d' = nodes d1))|]. intros now d2 _ Hn.
    eapply spec_bind.
    + eapply spec_mono; [apply (leaves_record Q _ _ HQ)| |]; cbv beta; rewrite Hn; [by intros n <-|]. intros r d3 _ Ha3. exact Ha3.
    + intros r d3 _ Ha3. apply spec_ret. by rewrite Ha.
Qed.
End TellFrame.
