(* ===== verification/Conflicts.v ===== *)
(** * Other installations on the machine

    [service-runtime/setup/src/windows/appinit.rs] and [windows/legacy_tray.rs]: whether an
    AppInit value or the older tray program would compete with the service.  The registry,
    the list of processes, shortcuts and the folder of the start menu are the class
    [Desktop]; the files are those of [Storage]. *)

From S2P Require Export AppInit ProfileStore SetupEvents.

(** ** Texts that may not be well-formed *)

Definition REPLACEMENT : N := 0xFFFD.

Definition continuation (b : N) : bool := (128 <=? b)%N && (b <=? 191)%N.

(** What may follow a leading byte, and how many bytes follow in all. *)
Definition utf8_lead (b : N) : option ((N → bool) * nat) :=
  if (b =? 0xE0)%N then Some (λ c, (0xA0 <=? c)%N && (c <=? 0xBF)%N, 2)
  else if (b =? 0xED)%N then Some (λ c, (0x80 <=? c)%N && (c <=? 0x9F)%N, 2)
  else if (b =? 0xF0)%N then Some (λ c, (0x90 <=? c)%N && (c <=? 0xBF)%N, 3)
  else if (b =? 0xF4)%N then Some (λ c, (0x80 <=? c)%N && (c <=? 0x8F)%N, 3)
  else if (0xC2 <=? b)%N && (b <=? 0xDF)%N then Some (continuation, 1)
  else if (0xE1 <=? b)%N && (b <=? 0xEF)%N then Some (continuation, 2)
  else if (0xF1 <=? b)%N && (b <=? 0xF3)%N then Some (continuation, 3)
  else None.

(** The rest of a sequence that began with [code]: its character, or nothing when it
    breaks off, and what has not been consumed. *)
Fixpoint utf8_rest (wanted : nat) (allowed : N → bool) (code : N) (l : list ascii) : option N * list ascii :=
  match wanted, l with
  | 0, _ => (Some code, l)
  | S wanted', c :: l' =>
      if allowed (N_of_ascii c) then utf8_rest wanted' continuation (code * 64 + N_of_ascii c mod 64)%N l' else (None, l)
  | S _, [] => (None, [])
  end.

(** [String::from_utf8_lossy]: a sequence that breaks off becomes one replacement. *)
Fixpoint utf8_lossy (fuel : nat) (l : list ascii) : list N :=
  match fuel, l with
  | S fuel, b :: l =>
      let b := N_of_ascii b in
      if (b <? 128)%N then b :: utf8_lossy fuel l
      else
        match utf8_lead b with
        | None => REPLACEMENT :: utf8_lossy fuel l
        | Some (allowed, wanted) =>
            let '(code, l) := utf8_rest wanted allowed (b mod (2 ^ N.of_nat (6 - wanted)))%N l in
            default REPLACEMENT code :: utf8_lossy fuel l
        end
  | _, _ => []
  end.

Definition from_utf8_lossy (l : list ascii) : list N := utf8_lossy (length l) l.

Definition high_surrogate (u : N) : bool := (0xD800 <=? u)%N && (u <=? 0xDBFF)%N.
Definition low_surrogate (u : N) : bool := (0xDC00 <=? u)%N && (u <=? 0xDFFF)%N.

(** [String::from_utf16_lossy] *)
Fixpoint from_utf16_lossy (units : list N) : list N :=
  match units with
  | [] => []
  | u :: units' =>
      if high_surrogate u then
        match units' with
        | v :: units'' =>
            if low_surrogate v
            then (0x10000 + (u - 0xD800) * 0x400 + (v - 0xDC00))%N :: from_utf16_lossy units''
            else REPLACEMENT :: from_utf16_lossy units'
        | [] => [REPLACEMENT]
        end
      else if low_surrogate u then REPLACEMENT :: from_utf16_lossy units'
      else u :: from_utf16_lossy units'
  end.

(** [bytes.as_chunks::<2>().0] as little-endian units. *)
Fixpoint little_endian_units (bytes : list ascii) : list N :=
  match bytes with
  | a :: b :: bytes => (N_of_ascii a + 256 * N_of_ascii b)%N :: little_endian_units bytes
  | _ => []
  end.

(** ** The name of the tray program in a text *)

Definition char_of (c : ascii) : N := N_of_ascii c.

Definition chars (s : string) : list N := utf8_decode (str_bytes s).

Definition lower_char (c : N) : N := if (65 <=? c)%N && (c <=? 90)%N then (c + 32)%N else c.

Definition target_boundary (character : N) : bool :=
  is_whitespace character || bool_decide (character ∈ map char_of (str_bytes "\/=,;()'") ++ [34%N]).

Definition MACTRAY : list N := chars "mactray.exe".

(** The name begins here, and a boundary, or the end, follows it. *)
Definition target_here (text : list N) : bool :=
  bool_decide (take (length MACTRAY) text = MACTRAY)
  && match drop (length MACTRAY) text with [] => true | after :: _ => target_boundary after end.

(** [match_indices(needle).any(..)]: the name does not overlap itself. *)
Fixpoint target_after (before : option N) (text : list N) : bool :=
  (match before with None => true | Some c => target_boundary c end && target_here text)
  || match text with [] => false | c :: text => target_after (Some c) text end.

Definition contains_mactray_target (value : list N) : bool := target_after None (map lower_char value).

Definition is_direct_mactray_executable_name (value : string) : bool := eq_ignore_ascii_case value "MacTray.exe".

(** [Path::extension]: what follows the last dot, unless the name begins with it. *)
Definition extension (name : string) : string :=
  let dot := λ c, (c =? ".")%char in
  match rposition dot (str_bytes name) with
  | Some (S i) => if (name =? "..")%string then "" else bytes_str (drop (S (S i)) (str_bytes name))
  | _ => ""
  end.

(** ** What is asked of the machine *)

Inductive RegistryRoot := LocalMachine | CurrentUser.
Inductive RegistryView := Native32 | Native64.
Inductive RegistryValueData := RegistryString (text : option string) | RegistryDword (value : N) | RegistryOther (kind : N).
Record RegistryValue := { registry_name : string; registry_data : RegistryValueData }.
Record SessionProcess := { process_pid : N; process_session : N; process_name : option string }.
Record ShortcutTarget := { shortcut_path : string; shortcut_arguments : string }.

Class Desktop `{World} := {
  registry_open : RegistryRoot → string → RegistryView → M Disk (result (option Handle) IoError);
  registry_values : Handle → M Disk (result (list RegistryValue) IoError);
  registry_dword : Handle → string → M Disk (result (option N) IoError);
  registry_units : Handle → string → M Disk (result (option (list N)) IoError);
  interactive_processes : M Disk (result (list SessionProcess) IoError);
  process_session_id : N → M Disk (result N IoError);
  com_initialize : M Disk (result unit Z);
  startup_folder : M Disk (result Path IoError);
  read_shortcut : Path → M Disk (option ShortcutTarget);
  link_target : Path → M Disk (result Path IoError);      (* [fs::canonicalize] *)
  registry_open_quiet root key view : quiet_call (registry_open root key view);
  registry_values_quiet key : quiet_call (registry_values key);
  registry_dword_quiet key name : quiet_call (registry_dword key name);
  registry_units_quiet key name : quiet_call (registry_units key name);
  processes_quiet : quiet_call interactive_processes;
  session_quiet pid : quiet_call (process_session_id pid);
  apartment_quiet : quiet_call com_initialize;
  startup_quiet : quiet_call startup_folder;
  shortcut_quiet p : quiet_call (read_shortcut p);
  link_quiet p : quiet_call (link_target p)
}.

(** ** AppInit *)

Section Conflicts.
Context `{World, !Desktop}.

Definition APPINIT_KEY : string := "SOFTWARE\Microsoft\Windows NT\CurrentVersion\Windows".
Definition MAX_APPINIT_BYTES : nat := 64 * 1024.

(** [.map_err(|_| ())] *)
Definition or_unknown {A E : Type} (m : M Disk (result A E)) : M Disk (result A unit) :=
  let! r := m in ret (map_err (λ _, tt) r).

Definition open_appinit_key (view : RegistryView) : M Disk (result (option Handle) unit) :=
  or_unknown (registry_open LocalMachine APPINIT_KEY view).

Definition read_enabled (view : RegistryView) : M Disk (result bool unit) :=
  let? opened := open_appinit_key view in
  match opened with
  | None => ret (Ok false)
  | Some key =>
      let? enabled := or_unknown (registry_dword key "LoadAppInit_DLLs") in
      ret (Ok match enabled with Some enabled => negb (enabled =? 0)%N | None => false end)
  end.

(** The parser of the contract expects a terminator. *)
Definition terminated (units : list N) : list N :=
  if bool_decide (last units = Some 0%N) then units else units ++ [0%N].

Definition read_dlls (view : RegistryView) : M Disk (result (option (list N)) unit) :=
  let? opened := open_appinit_key view in
  match opened with
  | None => ret (Ok None)
  | Some key =>
      let? found := or_unknown (registry_units key "AppInit_DLLs") in
      match found with
      | None => ret (Ok None)
      | Some units =>
          let units := terminated units in
          if MAX_APPINIT_BYTES <? length units * 2 then ret (Err tt) else ret (Ok (Some units))
      end
  end.

Definition observe_view_with (enabled : result bool unit) (read_dlls : M Disk (result (option (list N)) unit))
    : M Disk (result bool unit) :=
  let? enabled := ret enabled in
  if negb enabled then ret (Ok false)
  else
    let? value := read_dlls in
    ret (appinit_mactype_conflict true value).

(** The [try_fold] over the views. *)
Fixpoint observe_views (conflict : bool) (views : list RegistryView) : M Disk (result bool unit) :=
  match views with
  | [] => ret (Ok conflict)
  | view :: views =>
      let! enabled := read_enabled view in
      let? current := observe_view_with enabled (read_dlls view) in
      observe_views (conflict || current) views
  end.

Definition observe_appinit_conflict : M Disk ConflictObservation :=
  let! observed := observe_views false [Native64; Native32] in
  ret match observed with Ok true => Detected | Ok false => Clear | Err _ => ConflictUnknown end.

(** ** The older tray program *)

Definition RUN_KEY : string := "SOFTWARE\Microsoft\Windows\CurrentVersion\Run".
Definition MAX_STARTUP_TEXT_BYTES : N := 1048576.

Fixpoint combine_from (unknown : bool) (observations : list ConflictObservation) : ConflictObservation :=
  match observations with
  | [] => if unknown then ConflictUnknown else Clear
  | Detected :: _ => Detected
  | ConflictUnknown :: observations => combine_from true observations
  | Clear :: observations => combine_from unknown observations
  end.

Definition combine (observations : list ConflictObservation) : ConflictObservation := combine_from false observations.

(** The loop of [observe_interactive_processes]. *)
Fixpoint observe_processes (processes : list SessionProcess) : M Disk ConflictObservation :=
  match processes with
  | [] => ret Clear
  | entry :: processes =>
      match process_name entry with
      | None => ret ConflictUnknown
      | Some name =>
          if negb (eq_ignore_ascii_case name "MacTray.exe") then observe_processes processes
          else
            let! confirmed := process_session_id (process_pid entry) in
            match confirmed with
            | Err _ => ret ConflictUnknown
            | Ok confirmed_session =>
                if negb (confirmed_session =? process_session entry)%N then ret ConflictUnknown
                else if negb (confirmed_session =? 0)%N then ret Detected
                else observe_processes processes
            end
      end
  end.

Definition observe_interactive_processes : M Disk ConflictObservation :=
  let! processes := interactive_processes in
  match processes with
  | Err _ => ret ConflictUnknown
  | Ok processes => observe_processes processes
  end.

Definition classify_run_value (value_name : string) (data : RegistryValueData) : ConflictObservation :=
  match data with
  | RegistryString (Some command) => if contains_mactray_target (chars command) then Detected else Clear
  | RegistryString None => ConflictUnknown
  | RegistryDword _ | RegistryOther _ =>
      if bytes_contains (str_bytes "mactray") (map to_ascii_lowercase (str_bytes value_name))
      then ConflictUnknown else Clear
  end.

(** The first value that is not clear decides. *)
Fixpoint classify_run_values (values : list RegistryValue) : ConflictObservation :=
  match values with
  | [] => Clear
  | value :: values =>
      match classify_run_value (registry_name value) (registry_data value) with
      | Clear => classify_run_values values
      | observation => observation
      end
  end.

Definition observe_run_view (root : RegistryRoot) (view : RegistryView) : M Disk ConflictObservation :=
  let! opened := registry_open root RUN_KEY view in
  match opened with
  | Ok None => ret Clear
  | Err _ => ret ConflictUnknown
  | Ok (Some key) =>
      let! values := registry_values key in
      ret match values with Err _ => ConflictUnknown | Ok values => classify_run_values values end
  end.

Definition observe_run_entries : M Disk ConflictObservation :=
  let! user32 := observe_run_view CurrentUser Native32 in
  let! user64 := observe_run_view CurrentUser Native64 in
  let! machine32 := observe_run_view LocalMachine Native32 in
  let! machine64 := observe_run_view LocalMachine Native64 in
  ret (combine [user32; user64; machine32; machine64]).

(** [None] is [Err(())]. *)
Definition inspect_shortcut (path : Path) : M Disk (option bool) :=
  let! target := read_shortcut path in
  ret match target with
      | None => None
      | Some target =>
          if is_blank (shortcut_path target) then None
          else Some (contains_mactray_target (chars (shortcut_path target))
                     || contains_mactray_target (chars (shortcut_arguments target)))
      end.

Definition startup_text_might_launch_mactray (path : Path) (name : string) : M Disk ConflictObservation :=
  if negb (existsb (eq_ignore_ascii_case (extension name)) ["bat"; "cmd"; "js"; "ps1"; "url"; "vbs"]%string)
  then ret Clear
  else
    let! metadata := fs_metadata path in
    match metadata with
    | Err _ => ret ConflictUnknown
    | Ok metadata =>
        if (MAX_STARTUP_TEXT_BYTES <? match metadata with RegularFile len => len | DirectoryMetadata => 0 end)%N
        then ret ConflictUnknown
        else
          let! bytes := os_read (λ m, readable m path) in
          match bytes with
          | Err _ => ret ConflictUnknown
          | Ok bytes =>
              if contains_mactray_target (from_utf8_lossy bytes) then ret Detected
              else if (bytes_len bytes mod 2 =? 0)%N
                   && contains_mactray_target (from_utf16_lossy (little_endian_units bytes))
              then ret Detected
              else ret Clear
          end
    end.

(** One entry of the folder; [Clear] goes on to the next one. *)
Definition observe_startup_entry (path : Path) (name : string) : M Disk ConflictObservation :=
  let! file_type := fs_symlink_metadata path in
  match file_type with
  | Err _ => ret ConflictUnknown
  | Ok Directory => ret Clear
  | Ok (File _ as node) | Ok (Link _ as node) =>
      let! linked :=
        match node with
        | Link _ =>
            let! target := link_target path in
            ret match target with
                | Err _ => ConflictUnknown
                | Ok target =>
                    match file_name target with
                    | Some name => if eq_ignore_ascii_case name "MacTray.exe" then Detected else Clear
                    | None => Clear
                    end
                end
        | _ => ret (if is_direct_mactray_executable_name name then Detected else Clear)
        end in
      match linked with
      | Detected | ConflictUnknown => ret linked
      | Clear =>
          if eq_ignore_ascii_case (extension name) "lnk" then
            let! shortcut := inspect_shortcut path in
            ret match shortcut with Some true => Detected | Some false => Clear | None => ConflictUnknown end
          else startup_text_might_launch_mactray path name
      end
  end.

Fixpoint observe_startup_entries (folder : Path) (names : list string) : M Disk ConflictObservation :=
  match names with
  | [] => ret Clear
  | name :: names =>
      let! observation := observe_startup_entry (path_join folder name) name in
      match observation with
      | Clear => observe_startup_entries folder names
      | Detected | ConflictUnknown => ret observation
      end
  end.

Definition observe_startup_folders : M Disk ConflictObservation :=
  let! apartment := com_initialize in
  match apartment with
  | Err _ => ret ConflictUnknown
  | Ok _ =>
      let! folder := startup_folder in
      match folder with
      | Err _ => ret ConflictUnknown
      | Ok folder =>
          let! entries := fs_read_dir folder in
          match entries with
          | Err _ => ret ConflictUnknown
          | Ok names => observe_startup_entries folder names
          end
      end
  end.

Definition observe_tray_conflict : M Disk ConflictObservation :=
  let! processes := observe_interactive_processes in
  let! run_entries := observe_run_entries in
  let! startup := observe_startup_folders in
  ret (combine [processes; run_entries; startup]).
End Conflicts.

(** ** What an observation rests on *)

(** A look at the machine: it answers, and on the way nothing changes on the disk. *)
Definition looks {A : Type} (m : M Disk A) : Prop := ∀ d, spec (λ _, False) m (λ _ _, True) d.

Create HintDb look.

Lemma looks_ret {A : Type} (a : A) : looks (ret a).
Proof. intros d. by apply spec_ret. Qed.

Lemma looks_bind {A B : Type} (m : M Disk A) (k : A → M Disk B) : looks m → (∀ a, looks (k a)) → looks (bind m k).
Proof. intros Hm Hk d. eapply spec_bind; [apply Hm|]. intros a d' _ _. apply Hk. Qed.

Lemma looks_try {A B E : Type} (m : M Disk (result A E)) (k : A → M Disk (result B E)) :
  looks m → (∀ a, looks (k a)) → looks (let? a := m in k a).
Proof. intros Hm Hk. apply looks_bind; [done|]. intros [a|e]; [apply Hk|apply looks_ret]. Qed.

Lemma looks_quiet {A : Type} (m : M Disk A) : quiet_call m → looks m.
Proof. intros Hm d. eapply spec_post; [apply Hm|]. done. Qed.

Lemma looks_read `{World} {A : Type} (f : Nodes → result A IoError) : looks (os_read f).
Proof. intros d. eapply spec_post; [apply os_read_spec|]. done. Qed.

Ltac look_step :=
  match goal with
  | |- looks (match ?x with _ => _ end) => destruct x
  | |- looks (bind _ _) => apply looks_bind; [|intros ?]
  | |- looks (ret _) => apply looks_ret
  | |- looks (os_read _) => apply looks_read
  | |- looks _ => solve [auto with look]
  end.
Ltac look := repeat look_step.

(** At some moment of the run from [start] to [finish], in which nothing changed on the
    disk, [m] was asked and gave the answer [a]. *)
Definition saw (start finish : Disk) {A : Type} (m : M Disk A) (a : A) : Prop :=
  ∃ d d', run (λ _, False) start d ∧ m d = Some (a, d') ∧ run (λ _, False) d' finish.

Section Saw.
Context (start finish : Disk).

Lemma saw_bind {A B : Type} (m : M Disk A) (k : A → M Disk B) b :
  looks m → (∀ a, looks (k a)) → saw start finish (bind m k) b → ∃ a, saw start finish m a ∧ saw start finish (k a) b.
Proof.
  intros Hm Hk (d & d' & Hs & E & Hf). unfold bind in E. destruct (m d) as [[a d1]|] eqn:Em; [|done].
  destruct (spec_result _ _ _ _ _ _ (Hm d) Em) as [H1 _]. destruct (spec_result _ _ _ _ _ _ (Hk a d1) E) as [H2 _].
  exists a. split; eexists _, _; (split; [|split; [eassumption|]]); [done|by etrans|by etrans|done].
Qed.

Lemma saw_ret {A : Type} (a b : A) : saw start finish (ret a) b → b = a.
Proof. by intros (d & d' & _ & [= -> _] & _). Qed.

Lemma saw_try {A B E : Type} (m : M Disk (result A E)) (k : A → M Disk (result B E)) b :
  looks m → (∀ a, looks (k a)) → saw start finish (let? a := m in k a) (Ok b) →
  ∃ a, saw start finish m (Ok a) ∧ saw start finish (k a) (Ok b).
Proof.
  intros Hm Hk ([a|e] & Hsm & Hsk)%saw_bind; [by exists a|by apply saw_ret in Hsk|done|].
  intros [a|e]; [apply Hk|apply looks_ret].
Qed.

(** What was read is on the disk. *)
Lemma saw_read `{World} {A : Type} (f : Nodes → result A IoError) a :
  saw start finish (os_read f) (Ok a) → f (nodes start) = Ok a.
Proof.
  intros (d & d' & (v & _ & Hv & Hn & _) & E & _). destruct v; [|by apply Forall_cons in Hv as []]. cbn in Hn.
  destruct (spec_result _ _ _ _ _ _ (os_read_spec (λ _, False) f d) E) as [_ [_ [E'|(e & ? & _)]]]; [by rewrite E', Hn|done].
Qed.
End Saw.

(** Going through a look that gave an answer. *)
Ltac given :=
  repeat match goal with
  | H : saw _ _ (bind _ _) _ |- _ => apply saw_bind in H as (? & ? & ?); [|look|by intros; look]
  | H : saw _ _ (ret _) _ |- _ => apply saw_ret in H
  | H : saw _ _ _ _ |- _ => progress cbn [negb] in H
  end.

Lemma last_map {A B : Type} (f : A → B) (l : list A) : last (map f l) = option_map f (last l).
Proof. induction l as [|x [|y l] IH]; [done..|exact IH]. Qed.

Lemma head_map {A B : Type} (f : A → B) (l : list A) : head (map f l) = option_map f (head l).
Proof. by destruct l. Qed.

Section Evidence.
Context `{World, !Desktop}.

(** The name of the tray program stands in the text, whatever its case, between
    characters that can end a path or a command. *)
Definition names_mactray (text : list N) : Prop :=
  ∃ before name after, text = before ++ name ++ after ∧ map lower_char name = MACTRAY ∧
    (∀ c, last before = Some c → target_boundary (lower_char c) = true) ∧
    (∀ c, head after = Some c → target_boundary (lower_char c) = true).

Lemma target_here_spec text :
  target_here text = true ↔ ∃ after, text = MACTRAY ++ after ∧ ∀ c, head after = Some c → target_boundary c = true.
Proof.
  unfold target_here. rewrite andb_true_iff, bool_decide_eq_true. split.
  - intros [Ht Ha]. exists (drop (length MACTRAY) text). split; [by rewrite <- Ht at 1; rewrite take_drop|].
    intros c Hc. destruct (drop _ _); [done|]. by injection Hc as ->.
  - intros (after & -> & Ha). rewrite take_app_length, drop_app_length. split; [done|].
    destruct after; [done|]. by apply Ha.
Qed.

Lemma target_after_spec b text :
  target_after b text = true ↔ ∃ before after, text = before ++ MACTRAY ++ after ∧
    (∀ c, last (option_list b ++ before) = Some c → target_boundary c = true) ∧
    (∀ c, head after = Some c → target_boundary c = true).
Proof.
  revert b. induction text as [|x text IH]; intros b; cbn [target_after].
  - rewrite orb_false_r, andb_true_iff, target_here_spec. split.
    + intros [_ (after & E & _)]. done.
    + intros ([|? ?] & after & E & _); done.
  - rewrite orb_true_iff, andb_true_iff, target_here_spec, IH. split.
    + intros [[Hb (after & E & Ha)]|(before & after & E & Hb & Ha)].
      * exists [], after. split_and!; [done| |done]. rewrite app_nil_r. destruct b as [y|]; [|done].
        by intros c [= <-].
      * exists (x :: before), after. split_and!; [by rewrite E| |done].
        intros c. rewrite last_app. cbn [option_list app] in Hb. destruct (last (x :: before)) eqn:El; [|by apply last_None in El].
        intros [= <-]. by apply Hb.
    + intros ([|y before] & after & E & Hb & Ha).
      * left. split; [|by exists after]. destruct b as [y|]; [|done]. by apply Hb.
      * right. injection E as -> E. exists before, after. split_and!; [done| |done].
        intros c Hc. apply Hb. rewrite last_app. change (last (y :: before) = Some c) in Hc. by rewrite Hc.
Qed.

Lemma contains_mactray_target_spec text : contains_mactray_target text = true ↔ names_mactray text.
Proof.
  unfold contains_mactray_target. rewrite target_after_spec. cbn [option_list option_rect app]. split.
  - intros (before & after & E & Hb & Ha). apply map_eq_app in E as (l1 & rest & -> & <- & E).
    apply map_eq_app in E as (name & l2 & -> & En & <-).
    exists l1, name, l2. split_and!; [done|done| |].
    + intros c Hc. apply Hb. by rewrite last_map, Hc.
    + intros c Hc. apply Ha. by rewrite head_map, Hc.
  - intros (before & name & after & -> & En & Hb & Ha). exists (map lower_char before), (map lower_char after).
    rewrite !map_app, En. split_and!; [done| |].
    + intros c. rewrite last_map. destruct (last before) as [x|]; [|done]. intros [= <-]. by apply Hb.
    + intros c. rewrite head_map. destruct (head after) as [x|]; [|done]. intros [= <-]. by apply Ha.
Qed.
End Evidence.

(** *** What clears a machine *)

Section Clearing.
Context `{World, !Desktop} (start finish : Disk).
Notation saw := (saw start finish).
#[local] Hint Extern 1 (looks _) => (apply looks_quiet; first
  [apply registry_open_quiet|apply registry_values_quiet|apply registry_dword_quiet|apply registry_units_quiet
  |apply processes_quiet|apply session_quiet|apply apartment_quiet|apply startup_quiet|apply shortcut_quiet
  |apply link_quiet]) : look.

Definition process_clear (entry : SessionProcess) : Prop :=
  ∃ name, process_name entry = Some name ∧
    (eq_ignore_ascii_case name "MacTray.exe" = true →
     process_session entry = 0%N ∧ saw (process_session_id (process_pid entry)) (Ok 0%N)).

Definition value_clear (v : RegistryValue) : Prop :=
  match registry_data v with
  | RegistryString text => ∃ command, text = Some command ∧ ¬ names_mactray (chars command)
  | _ => bytes_contains (str_bytes "mactray") (map to_ascii_lowercase (str_bytes (registry_name v))) = false
  end.

Definition shortcut_clear (path : Path) : Prop :=
  ∃ target, saw (read_shortcut path) (Some target) ∧ is_blank (shortcut_path target) = false ∧
    ¬ names_mactray (chars (shortcut_path target)) ∧ ¬ names_mactray (chars (shortcut_arguments target)).

Definition is_script (name : string) : bool :=
  existsb (eq_ignore_ascii_case (extension name)) ["bat"; "cmd"; "js"; "ps1"; "url"; "vbs"]%string.

Definition text_clear (path : Path) : Prop :=
  ∃ bytes, readable (nodes start) path = Ok bytes ∧ ¬ names_mactray (from_utf8_lossy bytes) ∧
    ((bytes_len bytes mod 2)%N = 0%N → ¬ names_mactray (from_utf16_lossy (little_endian_units bytes))).

Definition file_clear (path : Path) (name : string) : Prop :=
  if eq_ignore_ascii_case (extension name) "lnk" then shortcut_clear path
  else is_script name = true → text_clear path.

Definition entry_clear (folder : Path) (name : string) : Prop :=
  let path := path_join folder name in
  ∃ node, nodes start !! path = Some node ∧
    match node with
    | Directory => True
    | File _ => is_direct_mactray_executable_name name = false ∧ file_clear path name
    | Link _ =>
        (∃ target, saw (link_target path) (Ok target) ∧
           ∀ n, file_name target = Some n → eq_ignore_ascii_case n "MacTray.exe" = false) ∧
        file_clear path name
    end.

Definition view_clear (root : RegistryRoot) (view : RegistryView) : Prop :=
  ∃ key, saw (registry_open root RUN_KEY view) (Ok key) ∧
    ∀ k, key = Some k → ∃ values, saw (registry_values k) (Ok values) ∧ Forall value_clear values.

Definition appinit_view_clear (view : RegistryView) : Prop :=
  ∃ key, saw (registry_open LocalMachine APPINIT_KEY view) (Ok key) ∧
    ∀ k, key = Some k → ∃ enabled, saw (registry_dword k "LoadAppInit_DLLs") (Ok enabled) ∧
      ∀ n, enabled = Some n → n ≠ 0%N →
        ∃ key', saw (registry_open LocalMachine APPINIT_KEY view) (Ok key') ∧
          ∀ k', key' = Some k' → ∃ units, saw (registry_units k' "AppInit_DLLs") (Ok units) ∧
            ∀ u, units = Some u → length (terminated u) * 2 ≤ MAX_APPINIT_BYTES ∧
              appinit_mactype_conflict true (Some (terminated u)) = Ok false.

Lemma combine_clear observations : combine observations = Clear ↔ Forall (λ o, o = Clear) observations.
Proof.
  assert (∀ unknown, combine_from unknown observations = Clear ↔ unknown = false ∧ Forall (λ o, o = Clear) observations) as Hc.
  { induction observations as [|o l IH]; intros unknown; cbn [combine_from].
    - destruct unknown; [split; [done|by intros []]|]. split; [|done]. split; [done|constructor].
    - rewrite Forall_cons. destruct o; [rewrite IH; naive_solver|naive_solver|rewrite IH; naive_solver]. }
  unfold combine. rewrite Hc. naive_solver.
Qed.

Lemma not_named text : contains_mactray_target text = false → ¬ names_mactray text.
Proof. intros E Hn%contains_mactray_target_spec. by rewrite E in Hn. Qed.

(** Every step of the observations is a look. *)
Lemma looks_processes ps : looks (observe_processes ps).
Proof. induction ps as [|e ps IH]; cbn [observe_processes]; look. Qed.

Lemma looks_run_view root view : looks (observe_run_view root view).
Proof. unfold observe_run_view. look. Qed.

Lemma looks_shortcut path : looks (inspect_shortcut path).
Proof. unfold inspect_shortcut. look. Qed.

Lemma looks_text path name : looks (startup_text_might_launch_mactray path name).
Proof. unfold startup_text_might_launch_mactray, fs_metadata. look. Qed.
#[local] Hint Resolve looks_processes looks_run_view looks_shortcut looks_text : look.

Lemma looks_entry path name : looks (observe_startup_entry path name).
Proof. unfold observe_startup_entry, fs_symlink_metadata. look. Qed.
#[local] Hint Resolve looks_entry : look.

Lemma looks_entries folder names : looks (observe_startup_entries folder names).
Proof. induction names as [|name names IH]; cbn [observe_startup_entries]; look. Qed.
#[local] Hint Resolve looks_entries : look.

Lemma looks_open view : looks (open_appinit_key view).
Proof. unfold open_appinit_key, or_unknown. look. Qed.
#[local] Hint Resolve looks_open : look.

Lemma looks_enabled view : looks (read_enabled view).
Proof. unfold read_enabled, or_unknown. look. Qed.

Lemma looks_dlls view : looks (read_dlls view).
Proof. unfold read_dlls, or_unknown. look. Qed.
#[local] Hint Resolve looks_enabled looks_dlls : look.

Lemma looks_views conflict views : looks (observe_views conflict views).
Proof. revert conflict. induction views as [|view views IH]; intros conflict; cbn [observe_views]; unfold observe_view_with; look. Qed.

Lemma looks_interactive : looks observe_interactive_processes.
Proof. unfold observe_interactive_processes. look. Qed.

Lemma looks_entries_run : looks observe_run_entries.
Proof. unfold observe_run_entries. look. Qed.

Lemma looks_folders : looks observe_startup_folders.
Proof. unfold observe_startup_folders, fs_read_dir. look. Qed.
#[local] Hint Resolve looks_views looks_interactive looks_entries_run looks_folders : look.

Lemma looks_tray : looks observe_tray_conflict.
Proof. unfold observe_tray_conflict. look. Qed.

Lemma looks_appinit : looks observe_appinit_conflict.
Proof. unfold observe_appinit_conflict. look. Qed.

Lemma processes_clear ps : saw (observe_processes ps) Clear → Forall process_clear ps.
Proof.
  induction ps as [|e ps IH]; intros Hm; [constructor|]. cbn [observe_processes] in Hm.
  destruct (process_name e) as [name|] eqn:En; [|by given].
  destruct (eq_ignore_ascii_case name "MacTray.exe") eqn:Em; cbn [negb] in Hm.
  2: { constructor; [|auto]. exists name. split; [done|]. by rewrite Em. }
  given. destruct x as [session|]; [|by given]. destruct (session =? process_session e)%N eqn:Es; [|by given].
  destruct (session =? 0)%N eqn:Ez; [|by given]. apply N.eqb_eq in Es, Ez.
  constructor; [|auto]. exists name. split; [done|]. intros _. by rewrite <- Es, <- Ez.
Qed.

Lemma values_clear values : classify_run_values values = Clear → Forall value_clear values.
Proof.
  induction values as [|v values IH]; intros E; [constructor|]. cbn [classify_run_values] in E.
  destruct (classify_run_value _ _) eqn:Ev; try done. constructor; [|auto]. unfold classify_run_value in Ev. unfold value_clear.
  destruct (registry_data v) as [[command|]|value|kind]; try done; [|by destruct (bytes_contains _ _)..].
  exists command. split; [done|]. apply not_named. by destruct (contains_mactray_target _).
Qed.

Lemma run_view_clear root view : saw (observe_run_view root view) Clear → view_clear root view.
Proof.
  unfold observe_run_view. intros Hm. given. destruct x as [[key|]|]; given; [|exists None; by split|done].
  exists (Some key). split; [done|]. intros k [= <-]. destruct x as [values|]; [|done].
  exists values. split; [done|by apply values_clear].
Qed.

Lemma shortcut_is_clear path : saw (inspect_shortcut path) (Some false) → shortcut_clear path.
Proof.
  unfold inspect_shortcut. intros Hm. given. destruct x as [target|]; [|done].
  destruct (is_blank _) eqn:Eb; [done|]. match goal with H : Some false = Some _ |- _ => injection H as E end.
  symmetry in E. apply orb_false_iff in E as [? ?]. exists target. split_and!; [done|done|by apply not_named..].
Qed.

Lemma text_is_clear path name : saw (startup_text_might_launch_mactray path name) Clear → is_script name = true → text_clear path.
Proof.
  unfold startup_text_might_launch_mactray. fold (is_script name). intros Hm Hs. rewrite Hs in Hm. cbn [negb] in Hm.
  unfold fs_metadata in Hm. given.
  destruct x as [metadata|]; [|by given]. destruct (_ <? _)%N; [by given|]. given.
  destruct x as [bytes|]; [|by given]. destruct (contains_mactray_target (from_utf8_lossy bytes)) eqn:E8; [by given|].
  exists bytes. split_and!; [by apply (saw_read start finish (λ m, readable m path))|by apply not_named|]. intros Ez. rewrite Ez, N.eqb_refl in *. cbn [andb] in *. apply not_named.
  by destruct (contains_mactray_target (from_utf16_lossy _)); [given|].
Qed.

Lemma file_is_clear path name :
  saw (if eq_ignore_ascii_case (extension name) "lnk"
       then let! shortcut := inspect_shortcut path in
            ret match shortcut with Some true => Detected | Some false => Clear | None => ConflictUnknown end
       else startup_text_might_launch_mactray path name) Clear → file_clear path name.
Proof.
  unfold file_clear. destruct (eq_ignore_ascii_case _ _); intros Hm; [|by apply text_is_clear].
  given. destruct x as [[]|]; try done. by apply shortcut_is_clear.
Qed.

Lemma entry_is_clear folder name : saw (observe_startup_entry (path_join folder name) name) Clear → entry_clear folder name.
Proof.
  unfold observe_startup_entry, fs_symlink_metadata. intros Hm. given. destruct x as [node|]; [|by given].
  exists node. split.
  { match goal with H : saw (os_read _) _ |- _ => apply saw_read in H; destruct (nodes start !! _); by inversion H end. }
  destruct node as [bytes| |target]; [|done|].
  - given. destruct (is_direct_mactray_executable_name name); subst; [by given|]. split; [done|by apply file_is_clear].
  - given. subst. destruct x0 as [p|]; [|by given]. split.
    + exists p. split; [done|]. intros n Hn. rewrite Hn in *. destruct (eq_ignore_ascii_case n "MacTray.exe"); [by given|done].
    + destruct (file_name p) as [n|]; [destruct (eq_ignore_ascii_case n _); [by given|]|]; by apply file_is_clear.
Qed.

Lemma entries_clear folder names : saw (observe_startup_entries folder names) Clear → Forall (entry_clear folder) names.
Proof.
  induction names as [|name names IH]; intros Hm; [constructor|]. cbn [observe_startup_entries] in Hm. given.
  destruct x; [|by given..]. constructor; [by apply entry_is_clear|auto].
Qed.

(** The listing of the folder has every entry of it. *)
Lemma folder_clear folder names : saw (fs_read_dir folder) (Ok names) → Forall (entry_clear folder) names →
  (nodes start !! folder = Some Directory ∨ nodes start !! folder = Some (Link ToDirectory)) ∧
  ∀ name, is_Some (nodes start !! path_join folder name) → entry_clear folder name.
Proof.
  intros Hs%saw_read Hf. split.
  - destruct (nodes start !! folder) as [[| |[]]|]; try done; auto.
  - intros name Hname. rewrite Forall_forall in Hf. apply Hf.
    assert (names = entry_names (nodes start) folder) as ->.
    { destruct (nodes start !! folder) as [[| |[]]|]; by inversion Hs. }
    by apply entry_names_elem.
Qed.

Lemma appinit_clear view enabled : saw (read_enabled view) (Ok enabled) →
  (enabled = true → ∃ value, saw (read_dlls view) (Ok value) ∧ appinit_mactype_conflict true value = Ok false) →
  appinit_view_clear view.
Proof.
  assert (∀ A (m : M Disk (result A IoError)) a, looks m → saw (or_unknown m) (Ok a) → saw m (Ok a)) as Hknown.
  { intros A m a Hm Hs. unfold or_unknown in Hs. apply saw_bind in Hs as ([b|e] & ? & E%saw_ret); [|done|done|intros; look].
    by apply (inj Ok) in E as ->. }
  unfold read_enabled, read_dlls, open_appinit_key. intros He Hd.
  apply saw_try in He as (key & Hkey%Hknown & He); [|by intros; unfold or_unknown; look..].
  exists key. split; [done|]. intros k ->.
  apply saw_try in He as (on & Hon%Hknown & E%saw_ret); [|by intros; unfold or_unknown; look..].
  exists on. split; [done|]. intros n -> Hn. apply (inj Ok) in E as ->.
  destruct Hd as (value & Hv & Hc); [by apply negb_true_iff, N.eqb_neq|].
  apply saw_try in Hv as (key' & Hkey'%Hknown & Hv); [|by intros; unfold or_unknown; look..].
  exists key'. split; [done|]. intros k' ->.
  apply saw_try in Hv as (units & Hunits%Hknown & Hv); [|by intros; unfold or_unknown; look..].
  exists units. split; [done|]. intros u ->. destruct (MAX_APPINIT_BYTES <? _) eqn:El; apply saw_ret in Hv; [done|].
  apply (inj Ok) in Hv as ->. apply Nat.ltb_ge in El. done.
Qed.

Lemma appinit_views_clear views conflict : saw (observe_views conflict views) (Ok false) →
  conflict = false ∧ Forall appinit_view_clear views.
Proof.
  revert conflict. induction views as [|view views IH]; intros conflict Hm; cbn [observe_views] in Hm.
  { given. split; [congruence|constructor]. }
  apply saw_bind in Hm as (enabled & He & Hm); [|by intros; unfold observe_view_with; look..].
  apply saw_try in Hm as (current & Hc & Hm); [|by intros; unfold observe_view_with; look..].
  unfold observe_view_with in Hc. apply saw_try in Hc as (on & <-%saw_ret & Hc); [|by intros; look..].
  apply IH in Hm as [[-> ->]%orb_false_iff Hf]. split; [done|]. constructor; [|done]. eapply appinit_clear; [done|].
  intros ->. cbn [negb] in Hc. apply saw_try in Hc as (value & Hv & Hc%saw_ret); [by exists value|by intros; look..].
Qed.

Lemma tray_parts : saw observe_tray_conflict Clear →
  saw observe_interactive_processes Clear ∧ saw observe_run_entries Clear ∧ saw observe_startup_folders Clear.
Proof.
  unfold observe_tray_conflict. intros Hs. given. match goal with E : Clear = _ |- _ => symmetry in E; apply combine_clear in E end.
  by repeat match goal with H : Forall _ (_ :: _) |- _ => apply Forall_cons in H as [-> H] end.
Qed.

Lemma run_parts root view : saw observe_run_entries Clear → view_clear root view.
Proof.
  unfold observe_run_entries. intros Hs. given. match goal with E : Clear = _ |- _ => symmetry in E; apply combine_clear in E end.
  repeat match goal with H : Forall _ (_ :: _) |- _ => apply Forall_cons in H as [-> H] end.
  apply run_view_clear. by destruct root, view.
Qed.

(** What a clear answer for the tray program and for AppInit rests on. *)
Lemma tray_clear : saw observe_tray_conflict Clear →
  (∃ processes, saw interactive_processes (Ok processes) ∧ Forall process_clear processes) ∧
  (∀ root view, view_clear root view) ∧
  (∃ folder, saw startup_folder (Ok folder) ∧
     (nodes start !! folder = Some Directory ∨ nodes start !! folder = Some (Link ToDirectory)) ∧
     ∀ name, is_Some (nodes start !! path_join folder name) → entry_clear folder name).
Proof.
  intros (Hp & Hr & Hs)%tray_parts. split_and!.
  - unfold observe_interactive_processes in Hp. given. destruct x as [ps|]; [|by given].
    exists ps. split; [done|by apply processes_clear].
  - intros root view. by apply run_parts.
  - unfold observe_startup_folders, fs_read_dir in Hs. given. destruct x as [apartment|]; [|by given]. given.
    destruct x as [folder|]; [|by given]. given. destruct x as [names|]; [|by given].
    exists folder. split; [done|]. by eapply folder_clear, entries_clear.
Qed.

Lemma appinit_is_clear : saw observe_appinit_conflict Clear → ∀ view, appinit_view_clear view.
Proof.
  unfold observe_appinit_conflict. intros Hs. given. destruct x as [[]|]; try done.
  match goal with H : saw (observe_views _ _) _ |- _ => apply appinit_views_clear in H as [_ Hv] end.
  apply Forall_cons in Hv as [H64 Hv]. apply Forall_cons in Hv as [H32 _]. by intros [].
Qed.

(** A look ends, changes nothing on the disk, and saw what it answers. *)
Lemma looks_saw {A : Type} (m : M Disk A) : looks m → ∀ a, m start = Some (a, finish) →
  nodes finish = nodes start ∧ history finish = history start ∧ saw m a.
Proof.
  intros Hm a E. destruct (spec_result _ _ _ _ _ _ (Hm start) E) as [(v & Hh & Hv & Hn & _) _].
  destruct v; [|by apply Forall_cons in Hv as []]. split_and!; [done|done|]. by exists start, finish.
Qed.
End Clearing.

(** C7. A machine counts as free of the older installations only on evidence, seen in this
    very observation, in which nothing changes on the disk.  The older tray program: the
    processes were listed, and each has a readable name and is not the tray program of a
    user's session; all four Run keys were read or found missing, and no value in them
    names the program; and the folder of the start menu is a directory of the disk that
    was observed, in which no file, link, shortcut or script names the program, whatever
    it is called.  AppInit: in each view of the registry the key is missing, or it is
    off, or its list is missing, or was read, is not too long and has no module of
    MacType.  Whatever could not be seen leaves the machine unknown; both observations
    always end. *)
Theorem machine_is_cleared_by_evidence `{World, !Desktop} start :
  (∃ o finish, observe_tray_conflict start = Some (o, finish) ∧
     nodes finish = nodes start ∧ history finish = history start ∧
     (o = Clear →
        (∃ processes, saw start finish interactive_processes (Ok processes) ∧ Forall (process_clear start finish) processes) ∧
        (∀ root view, view_clear start finish root view) ∧
        (∃ folder, saw start finish startup_folder (Ok folder) ∧
           (nodes start !! folder = Some Directory ∨ nodes start !! folder = Some (Link ToDirectory)) ∧
           ∀ name, is_Some (nodes start !! path_join folder name) → entry_clear start finish folder name))) ∧
  (∃ o finish, observe_appinit_conflict start = Some (o, finish) ∧
     nodes finish = nodes start ∧ history finish = history start ∧
     (o = Clear → ∀ view, appinit_view_clear start finish view)).
Proof.
  split.
  - destruct (spec_runs _ _ _ _ (looks_tray start)) as (o & finish & E & _).
    destruct (looks_saw _ _ _ looks_tray _ E) as (? & ? & Hs). exists o, finish. split_and!; [done..|]. intros ->. by apply tray_clear.
  - destruct (spec_runs _ _ _ _ (looks_appinit start)) as (o & finish & E & _).
    destruct (looks_saw _ _ _ looks_appinit _ E) as (? & ? & Hs). exists o, finish. split_and!; [done..|]. intros ->. by apply appinit_is_clear.
Qed.

(** *** An example *)

Definition example_startup : Path := ["C:"; "Users"; "me"; "Startup"].

Lemma ret_quiet {A : Type} (a : A) : quiet_call (ret a).
Proof. intros P d. by apply spec_ret. Qed.

Definition clean_desktop `{World} : Desktop := {|
  registry_open _ _ _ := ret (Ok None);
  registry_values _ := ret (Ok []);
  registry_dword _ _ := ret (Ok None);
  registry_units _ _ := ret (Ok None);
  interactive_processes := ret (Ok [{| process_pid := 4; process_session := 0; process_name := Some "System"%string |}]);
  process_session_id _ := ret (Ok 0%N);
  com_initialize := ret (Ok tt);
  startup_folder := ret (Ok example_startup);
  read_shortcut _ := ret None;
  link_target p := ret (Ok p);
  registry_open_quiet _ _ _ := ret_quiet _;
  registry_values_quiet _ := ret_quiet _;
  registry_dword_quiet _ _ := ret_quiet _;
  registry_units_quiet _ _ := ret_quiet _;
  processes_quiet := ret_quiet _;
  session_quiet _ := ret_quiet _;
  apartment_quiet := ret_quiet _;
  startup_quiet := ret_quiet _;
  shortcut_quiet _ := ret_quiet _;
  link_quiet _ := ret_quiet _
|}.

Definition startup_disk : Disk :=
  disk_of (<[ path_join example_startup "notes.cmd" := File (str_bytes "echo mactray") ]> {[ example_startup := Directory ]}).

Example clean_machine_is_clear :
  option_map fst (@observe_tray_conflict example_world clean_desktop startup_disk) = Some Clear ∧
  option_map fst (@observe_appinit_conflict example_world clean_desktop startup_disk) = Some Clear.
Proof. by vm_compute. Qed.

Example script_is_detected :
  option_map fst (@observe_tray_conflict example_world clean_desktop
    (disk_of (<[ path_join example_startup "run.cmd" := File (str_bytes "start C:\MacType\MACTRAY.exe") ]>
      {[ example_startup := Directory ]}))) = Some Detected.
Proof. by vm_compute. Qed.

Lemma machine_is_cleared_by_evidence_witness :
  ∃ finish, @observe_tray_conflict example_world clean_desktop startup_disk = Some (Clear, finish) ∧
    @entry_clear _ clean_desktop startup_disk finish example_startup "notes.cmd".
Proof.
  destruct (machine_is_cleared_by_evidence (H := example_world) (H0 := clean_desktop) startup_disk)
    as [(o & finish & E & _ & _ & Hclear) _].
  pose proof (proj1 clean_machine_is_clear) as Hok. rewrite E in Hok. cbn [option_map fst] in Hok. injection Hok as ->.
  exists finish. split; [exact E|]. destruct (Hclear eq_refl) as (_ & _ & folder & Hf & _ & Hentries).
  destruct Hf as (d & d' & _ & Ef & _). cbn in Ef. injection Ef as <- _. apply Hentries. vm_compute. by eexists.
Defined.
