(* ===== verification/ServiceManager.v ===== *)
(** * Managing the service

    [service-runtime/setup/src/windows/scm.rs] and, of [scm/], [configuration.rs],
    [configuration/metadata.rs], [lifecycle.rs], [health.rs] and [observation.rs]: how the
    setup program installs, configures, starts, stops, removes and observes the service.
    Every loop polls against a deadline; its fuel is the number of polls that fit between
    the start and the deadline, and one more. *)

From stdpp Require Import pretty.
From S2P Require Export SetupEvents.

(** [{:?}] of a [Vec<String>], which no two lists share. *)
Class DebugFormat := {
  debug_strings : list string → string;
  debug_strings_inj :: Inj (=) (=) debug_strings
}.

(** The feature the crates are compiled with. *)
Class BuildFeatures := { ci_test_adapter : bool }.

Definition SERVICE_NAME : string := "MacTypeControlCenter".
Definition LEGACY_SERVICE_NAME : string := "MacType".
Definition CI_TEST_SERVICE_NAME : string := "MacTypeControlCenterTest".
Definition HEALTH_PIPE_NAME : string := "\\.\pipe\MacTypeControlCenter.health.v1".
Definition CI_TEST_HEALTH_PIPE_NAME : string := "\\.\pipe\MacTypeControlCenterTest.health.v1".

Definition effective_service_name `{BuildFeatures} : string :=
  if ci_test_adapter then CI_TEST_SERVICE_NAME else SERVICE_NAME.

Definition effective_health_pipe_name `{BuildFeatures} : string :=
  if ci_test_adapter then CI_TEST_HEALTH_PIPE_NAME else HEALTH_PIPE_NAME.

Definition DESCRIPTION : string := "Runs the open MacType machine integration runtime.".
Definition STATE_TIMEOUT : N := from_secs 30.
Definition HEALTH_TIMEOUT : N := from_secs 20.
Definition MAX_PERSISTED_HEALTH_BYTES : N := 16 * 1024.
Definition HEALTH_BUFFER_BYTES : N := 16 * 1024.

Definition SC_MANAGER_CONNECT_AND_CREATE : N := 3.

(** How often a loop can poll that sleeps so long until a deadline so far away. *)
Definition polls (timeout pause : N) : nat := N.to_nat (timeout / pause) + 2.

Definition CAPTURE_PAUSE : N := from_millis 10.
Definition POLL_PAUSE : N := from_millis 100.

(** ** Decisions *)

Inductive AbsenceObservation := NameAbsent | NamePresent | DeletePending.
Inductive AbsencePollAction := Complete | Retry.
Inductive ProcessCaptureTarget := AlreadyStopped | Pid (pid : N).
Inductive ProcessIdentityObservation := IdentityStopped | IdentitySame | IdentityChanged (pid : N).

#[export] Instance AbsenceObservation_eq_dec : EqDecision AbsenceObservation.
Proof. solve_decision. Defined.

Definition process_capture_target (status : ServiceStatusSnapshot) : result ProcessCaptureTarget SetupError :=
  if bool_decide (state status = StateStopped) then Ok AlreadyStopped
  else if (snapshot_process_id status =? 0)%N
  then Err (Runtime "SCM reported a non-stopped service without a process identity")
  else Ok (Pid (snapshot_process_id status)).

Definition observe_process_identity (captured_pid : N) (status : ServiceStatusSnapshot)
    : result ProcessIdentityObservation SetupError :=
  let-? target := process_capture_target status in
  match target with
  | AlreadyStopped => Ok IdentityStopped
  | Pid observed => if (observed =? captured_pid)%N then Ok IdentitySame else Ok (IdentityChanged observed)
  end.

Definition stopping_process_is_complete (captured_pid : N) (status : ServiceStatusSnapshot) : result bool SetupError :=
  let-? observation := observe_process_identity captured_pid status in
  match observation with
  | IdentityStopped => Ok true
  | IdentitySame => Ok false
  | IdentityChanged observed =>
      Err (Runtime ("service process identity changed while stopping (" ++ pretty captured_pid ++ " -> " ++ pretty observed ++ ")"))
  end.

Definition absence_poll_action (observation : AbsenceObservation) (timed_out : bool) : result AbsencePollAction SetupError :=
  if bool_decide (observation = NameAbsent) then Ok Complete
  else if timed_out then Err (Runtime "service name remained delete-pending or occupied until removal timeout")
  else Ok Retry.

Definition classify_fixed_service (identity_matches : bool) (state : option ServiceState) : OpenServiceObservation :=
  if negb identity_matches then Foreign
  else match state with
       | Some StateStopped => OwnedStopped
       | Some StateRunning => OwnedRunning
       | _ => ServiceUnknown
       end.

Definition health_server_matches_expected (expected_service_pid server_pid : N) : bool :=
  negb (expected_service_pid =? 0)%N && negb (server_pid =? 0)%N && (expected_service_pid =? server_pid)%N.

Definition health_report_matches_expected_profile (report : HealthReport) (expected_profile_digest : option string) : bool :=
  match expected_profile_digest with
  | Some expected => is_active_for report expected
  | None => report_validate report && bool_decide (health report = HealthReady)
  end.

(** [describe_configuration_difference]: [compare] adds a field that prints differently. *)
Definition compare_field (field expected actual : string) : list string :=
  if (expected =? actual)%string then []
  else [field ++ " changed (" ++ expected ++ " -> " ++ actual ++ ")"]%string.

Definition bracketed (s : string) : string := "[" ++ s ++ "]".

Definition configuration_differences `{DebugFormat} (expected actual : ServiceConfig) : list string :=
  compare_field "service_type" (pretty (service_type expected)) (pretty (service_type actual))
  ++ compare_field "start_type" (pretty (start_type expected)) (pretty (start_type actual))
  ++ compare_field "error_control" (pretty (error_control expected)) (pretty (error_control actual))
  ++ compare_field "image_path" (bracketed (image_path expected)) (bracketed (image_path actual))
  ++ compare_field "account" (bracketed (account expected)) (bracketed (account actual))
  ++ compare_field "display_name" (bracketed (service_display_name expected)) (bracketed (service_display_name actual))
  ++ compare_field "load_order_group" (bracketed (load_order_group expected)) (bracketed (load_order_group actual))
  ++ compare_field "tag_id" (pretty (tag_id expected)) (pretty (tag_id actual))
  ++ compare_field "dependencies" (debug_strings (dependencies expected)) (debug_strings (dependencies actual)).

Definition describe_configuration_difference `{DebugFormat} (expected actual : ServiceConfig) : option string :=
  match configuration_differences expected actual with
  | [] => None
  | differences => Some (String.concat ", " differences)
  end.

Definition ensure_captured_configuration_unchanged `{DebugFormat} (expected actual : ServiceConfig) : result unit SetupError :=
  match describe_configuration_difference expected actual with
  | None => Ok tt
  | Some difference =>
      Err (Runtime ("the fixed service configuration changed after ownership was verified: " ++ difference))
  end.

Definition not_installed : SetupError := Runtime "the open service is not installed".

(** [configuration/metadata.rs] *)
Inductive ServiceMetadataOperation :=
| Description (text : string)
| RestartOnFailure (reset_period_seconds : N) (delays_milliseconds : list N)
| IncludeNonCrashFailures (enabled : bool).

Definition service_metadata_plan : list ServiceMetadataOperation :=
  [Description DESCRIPTION; RestartOnFailure 86400 [5000%N; 30000%N]; IncludeNonCrashFailures true].

Section Manager.
Context `{World, Windows, EventJson, !Setup, HealthJson, DebugFormat, BuildFeatures} (protected_root : Path).

Definition connect : M Disk (result unit SetupError) := lift_io (windows (OpenSCManagerW SC_MANAGER_CONNECT_AND_CREATE)).

Definition open_named_service (name : string) (access : ServiceAccess) : M Disk (result (option Handle) IoError) :=
  scm_open name access.

Definition open_service (access : ServiceAccess) : M Disk (result (option Handle) IoError) :=
  open_named_service effective_service_name access.

(** [self.open_service(access)?.ok_or_else(..)?] *)
Definition open_installed (access : ServiceAccess) : M Disk (result Handle SetupError) :=
  let? service := lift_io (open_service access) in
  ret (ok_or service not_installed).

Definition ensure_owned (service : Handle) : M Disk (result unit SetupError) :=
  let? config := lift_io (service_config service) in
  if negb (owned_service_identity config protected_root)
  then ret (Err (Runtime "the fixed service name has a foreign identity; refusing to mutate it"))
  else ret (Ok tt).

(** ** Configuration *)

Definition service_image_matches_protected_contract (image : string) : M Disk bool :=
  if negb (service_image_matches_protected_layout protected_root image) then ret false
  else match service_binary_from_image_path image with
       | None => ret false
       | Some binary =>
           let! file := is_file (named_path binary) in
           if negb file then ret false
           else
             let! root := canonicalize protected_root in
             match root with
             | Err _ => ret false
             | Ok root =>
                 let! binary := canonicalize (named_path binary) in
                 ret (match binary with Err _ => false | Ok binary => bool_decide (root `prefix_of` binary) end)
             end
       end.

Definition validate_service_binary (path : Path) : M Disk (result unit SetupError) :=
  let? image := ret (quoted_image_path path) in
  let! matching := service_image_matches_protected_contract image in
  ret (if matching then Ok tt else Err (Runtime "service binary does not match the protected fixed layout")).

Definition apply_metadata (service : Handle) (operation : ServiceMetadataOperation) : M Disk (result unit SetupError) :=
  lift_io (match operation with
           | Description text => set_description service text
           | RestartOnFailure reset_period delays => set_restart_actions service reset_period delays
           | IncludeNonCrashFailures enabled => set_failure_actions_on_non_crash_failures service enabled
           end).

Fixpoint apply_metadata_configuration (service : Handle) (plan : list ServiceMetadataOperation)
    : M Disk (result unit SetupError) :=
  match plan with
  | [] => ret (Ok tt)
  | operation :: plan =>
      let? _ := apply_metadata service operation in
      apply_metadata_configuration service plan
  end.

Definition configure_metadata (service : Handle) : M Disk (result unit SetupError) :=
  apply_metadata_configuration service service_metadata_plan.

Definition install (service_binary : Path) : M Disk (result unit SetupError) :=
  let? _ := validate_service_binary service_binary in
  let? existing := lift_io (open_service QueryStatusAccess) in
  match existing with
  | Some _ => ret (Err (Runtime "the fixed service name already exists; refusing to replace it"))
  | None =>
      let? image := ret (quoted_image_path service_binary) in
      let? service := lift_io (create_own_process_auto_start effective_service_name SERVICE_DISPLAY_NAME image) in
      let! configured := configure_metadata service in
      match configured with
      | Err error => let! _ := service_delete service in ret (Err error)
      | Ok _ => ret (Ok tt)
      end
  end.

Definition reconfigure (service_binary : Path) : M Disk (result unit SetupError) :=
  let? _ := validate_service_binary service_binary in
  let? service := open_installed ReconfigureAccess in
  let? _ := ensure_owned service in
  let? before := lift_io (service_config service) in
  let repaired_fields := field_names (service_configuration_drift before) in
  let? image := ret (quoted_image_path service_binary) in
  let? _ := lift_io (set_image_and_display_name service image SERVICE_DISPLAY_NAME) in
  let? _ := lift_io (restore_owned_mutable_configuration service) in
  let? _ := with_err (at_machine_path "configure service recovery metadata" service_binary) (configure_metadata service) in
  let? after := lift_io (service_config service) in
  if negb (owned_service_identity after protected_root)
  then ret (Err (Runtime "service reconfiguration left an identity mismatch"))
  else if negb (service_configuration_matches_owned_contract protected_root after)
  then ret (Err (Runtime ("service reconfiguration left configuration drift: "
         ++ String.concat "," (field_names (service_configuration_drift after)))))
  else
    let! _ := match repaired_fields with [] => ret tt | _ => service_configuration_repaired repaired_fields end in
    ret (Ok tt).
(** ** Waiting *)

(** A deadline that has passed polls once; any time that is left waits a millisecond. *)
Definition wait_for_process_exit (process : Handle) (deadline : N) : M Disk (result unit SetupError) :=
  let! now := instant_now in
  let remaining := saturating_sub deadline now in
  let timeout := if (remaining =? 0)%N then 0%N else N.max remaining (from_millis 1) in
  let! outcome := handle_wait process timeout in
  ret (match outcome with
       | Ok Signaled => Ok tt
       | Ok TimedOut => Err (Runtime "service process did not exit before the stop timeout")
       | Ok Abandoned => Err (Runtime ("service process exit wait returned unknown result " ++ pretty WAIT_ABANDONED))
       | Err error => Err (Io error)
       end).

(** Sleep, but not past the deadline; a deadline that has passed is the error. *)
Definition wait_before_retry (deadline pause : N) (text : string) : M Disk (result unit SetupError) :=
  let! now := instant_now in
  let remaining := saturating_sub deadline now in
  if (remaining =? 0)%N then ret (Err (Runtime text))
  else let! _ := sleep (N.min remaining pause) in ret (Ok tt).

Definition wait_before_process_capture_retry (deadline : N) : M Disk (result unit SetupError) :=
  wait_before_retry deadline CAPTURE_PAUSE "service process identity could not be captured before the stop timeout".

Fixpoint capture_service_process (fuel : nat) (service : Handle) (deadline : N)
    : M Disk (result (option (N * Handle)) SetupError) :=
  match fuel with
  | 0 => no_answer
  | S fuel =>
      let? status := lift_io (service_status service) in
      let? target := ret (process_capture_target status) in
      match target with
      | AlreadyStopped => ret (Ok None)
      | Pid pid =>
          let! opened := open_process_synchronize pid in
          match opened with
          | Ok process =>
              let? again := lift_io (service_status service) in
              let? observation := ret (observe_process_identity pid again) in
              match observation with
              | IdentityStopped | IdentitySame => ret (Ok (Some (pid, process)))
              | IdentityChanged _ =>
                  let? _ := wait_before_process_capture_retry deadline in
                  capture_service_process fuel service deadline
              end
          | Err error =>
              if has_code error ERROR_INVALID_PARAMETER then
                let? again := lift_io (service_status service) in
                let? observation := ret (observe_process_identity pid again) in
                match observation with
                | IdentityStopped => ret (Ok None)
                | IdentitySame | IdentityChanged _ =>
                    let? _ := wait_before_process_capture_retry deadline in
                    capture_service_process fuel service deadline
                end
              else ret (Err (Runtime ("could not capture the service process identity before stopping: " ++ io_text error)))
          end
      end
  end.

Fixpoint wait_for_stopped_process (fuel : nat) (service : Handle) (captured_pid deadline : N)
    : M Disk (result unit SetupError) :=
  match fuel with
  | 0 => no_answer
  | S fuel =>
      let? status := lift_io (service_status service) in
      let? complete := ret (stopping_process_is_complete captured_pid status) in
      if complete then ret (Ok tt)
      else
        let? _ := wait_before_retry deadline POLL_PAUSE "service did not reach the stopped state before timeout" in
        wait_for_stopped_process fuel service captured_pid deadline
  end.

(** Once the delete succeeded, only the name is polled for. *)
Fixpoint wait_until_absent (fuel : nat) (deadline : N) : M Disk (result unit SetupError) :=
  match fuel with
  | 0 => no_answer
  | S fuel =>
      let! opened := open_service QueryStatusAccess in
      let? observation := ret (match opened with
                               | Ok None => Ok NameAbsent
                               | Ok (Some _) => Ok NamePresent
                               | Err error =>
                                   if has_code error ERROR_SERVICE_MARKED_FOR_DELETE then Ok DeletePending else Err (Io error)
                               end) in
      let! now := instant_now in
      let? action := ret (absence_poll_action observation (deadline <=? now)%N) in
      match action with
      | Complete => ret (Ok tt)
      | Retry =>
          let! _ := sleep POLL_PAUSE in
          wait_until_absent fuel deadline
      end
  end.

Definition persisted_failure_diagnostic (path : Path) : M Disk (option string) :=
  let! bytes := read_bounded_regular_file path MAX_PERSISTED_HEALTH_BYTES "persisted service health diagnostic" in
  ret (match bytes with
       | Err _ => None
       | Ok bytes =>
           match health_from_slice bytes with
           | None => None
           | Some report =>
               if negb (report_validate report) || negb (bool_decide (health report = HealthFailed)) then None
               else option_map (λ error,
                 match error_win32 error with
                 | Some code => error_code error ++ ": " ++ error_message error ++ " (win32=" ++ pretty code ++ ")"
                 | None => error_code error ++ ": " ++ error_message error
                 end)%string (last_error report)
           end
       end).

Definition stopped_before_expected_state_error (status : ServiceStatusSnapshot) (expected : ServiceState)
    (failure_health_path : option Path) : M Disk SetupError :=
  let message := ("service stopped before reaching state " ++ pretty (state_as_raw expected) ++ " (win32="
    ++ pretty (win32_exit_code status) ++ ", service=" ++ pretty (service_specific_exit_code status) ++ ")")%string in
  let! diagnostic := match failure_health_path with Some path => persisted_failure_diagnostic path | None => ret None end in
  ret (Runtime (match diagnostic with
                | Some diagnostic => message ++ "; persisted health failure: " ++ diagnostic
                | None => message
                end)).

Fixpoint wait_for_state (fuel : nat) (service : Handle) (expected : ServiceState) (deadline : N)
    (failure_health_path : option Path) : M Disk (result ServiceStatusSnapshot SetupError) :=
  match fuel with
  | 0 => no_answer
  | S fuel =>
      let? status := lift_io (service_status service) in
      if bool_decide (state status = expected) then ret (Ok status)
      else if bool_decide (state status = StateStopped) && negb (bool_decide (expected = StateStopped)) then
        let! error := stopped_before_expected_state_error status expected failure_health_path in ret (Err error)
      else
        let! now := instant_now in
        if (deadline <=? now)%N
        then ret (Err (Runtime ("service did not reach state " ++ pretty (state_as_raw expected) ++ " before timeout")))
        else
          let! _ := sleep POLL_PAUSE in
          wait_for_state fuel service expected deadline failure_health_path
  end.

(** One look at the pipe: [None] when there is a reason to poll again. *)
Definition look_at_health (expected_service_pid : N) (expected_profile_digest : option string)
    : M Disk (option (result unit SetupError)) :=
  let! opened := pipe_open_read effective_health_pipe_name in
  match opened with
  | Err _ => ret None
  | Ok client =>
      let! server := named_pipe_server_process_id client in
      match server with
      | Err e => ret (Some (Err (Io e)))
      | Ok server_pid =>
          if negb (health_server_matches_expected expected_service_pid server_pid)
          then ret (Some (Err (Runtime ("health pipe server PID " ++ pretty server_pid
                 ++ " does not match SCM service PID " ++ pretty expected_service_pid))))
          else
            let! read := pipe_read client HEALTH_BUFFER_BYTES in
            ret (match read with
                 | Err _ | Ok [] => None
                 | Ok bytes =>
                     match health_from_slice bytes with
                     | None => None
                     | Some report =>
                         if health_report_matches_expected_profile report expected_profile_digest then Some (Ok tt)
                         else if report_validate report && bool_decide (health report = HealthReady)
                         then Some (Err (Runtime "service Ready health reported a different active profile digest"))
                         else if bool_decide (health report = HealthFailed)
                         then Some (Err (Runtime "service reported failed health during start"))
                         else None
                     end
                 end)
      end
  end.

Fixpoint wait_for_ready_health (fuel : nat) (expected_service_pid : N) (expected_profile_digest : option string)
    (deadline : N) : M Disk (result unit SetupError) :=
  match fuel with
  | 0 => no_answer
  | S fuel =>
      let! now := instant_now in
      if (now <? deadline)%N then
        let! seen := look_at_health expected_service_pid expected_profile_digest in
        match seen with
        | Some r => ret r
        | None =>
            let! _ := sleep POLL_PAUSE in
            wait_for_ready_health fuel expected_service_pid expected_profile_digest deadline
        end
      else ret (Err (Runtime "service did not publish Ready health before timeout"))
  end.

(** ** Starting, stopping, removing *)

Definition start_and_wait_ready_for (expected_profile_digest : option string) : M Disk (result unit SetupError) :=
  let? service := open_installed StartAccess in
  let? _ := ensure_owned service in
  let? _ := lift_io (service_start service) in
  let! now := instant_now in
  let? status := wait_for_state (polls STATE_TIMEOUT POLL_PAUSE) service StateRunning (now + STATE_TIMEOUT)
                   (Some (path_join protected_root "health.json")) in
  if (snapshot_process_id status =? 0)%N
  then ret (Err (Runtime "SCM reported a running service without a process identity"))
  else
    let! now := instant_now in
    wait_for_ready_health (polls HEALTH_TIMEOUT POLL_PAUSE) (snapshot_process_id status) expected_profile_digest
      (now + HEALTH_TIMEOUT).

Definition start_and_wait_ready : M Disk (result unit SetupError) := start_and_wait_ready_for None.

Definition start_and_wait_ready_for_profile (digest : string) : M Disk (result unit SetupError) :=
  start_and_wait_ready_for (Some digest).

Definition is_running : M Disk (result bool SetupError) :=
  let? service := open_installed QueryStatusAndConfigAccess in
  let? _ := ensure_owned service in
  let? status := lift_io (service_status service) in
  ret (match state status with
       | StateRunning => Ok true
       | StateStopped => Ok false
       | _ => Err (Runtime "the open service is transitioning and cannot be repaired")
       end).

Definition stop : M Disk (result unit SetupError) :=
  let? opened := lift_io (open_service StopAccess) in
  match opened with
  | None => ret (Ok tt)
  | Some service =>
      let? _ := ensure_owned service in
      let! now := instant_now in
      let deadline := (now + STATE_TIMEOUT)%N in
      let? captured := capture_service_process (polls STATE_TIMEOUT CAPTURE_PAUSE) service deadline in
      match captured with
      | None => ret (Ok tt)
      | Some (captured_pid, process) =>
          let? _ := lift_io (service_stop service) in
          let? _ := wait_for_stopped_process (polls STATE_TIMEOUT POLL_PAUSE) service captured_pid deadline in
          wait_for_process_exit process deadline
      end
  end.

Definition remove : M Disk (result unit SetupError) :=
  let? opened := lift_io (open_service QueryStatusAndConfigAccess) in
  match opened with
  | None => ret (Ok tt)
  | Some service =>
      let? _ := ensure_owned service in
      let? expected := lift_io (service_config service) in
      let? _ := stop in
      let? opened := lift_io (open_service DeleteAccess) in
      match opened with
      | None => ret (Ok tt)
      | Some service =>
          let? actual := lift_io (service_config service) in
          let? _ := ret (ensure_captured_configuration_unchanged expected actual) in
          let? _ := lift_io (service_delete service) in
          let! now := instant_now in
          wait_until_absent (polls STATE_TIMEOUT POLL_PAUSE) (now + STATE_TIMEOUT)
      end
  end.

(** ** Observing *)

Definition observe_fixed_service : M Disk OpenServiceObservation :=
  let! opened := open_service QueryStatusAndConfigAccess in
  match opened with
  | Ok None => ret ServiceAbsent
  | Err _ => ret ServiceUnknown
  | Ok (Some service) =>
      let! config := service_config service in
      match config with
      | Err _ => ret ServiceUnknown
      | Ok config =>
          let! status := service_status service in
          ret (classify_fixed_service (owned_service_identity config protected_root)
            (match status with Ok status => Some (state status) | Err _ => None end))
      end
  end.

Definition observe_legacy_service : M Disk ConflictObservation :=
  let! opened := open_named_service LEGACY_SERVICE_NAME QueryStatusAccess in
  ret (match opened with Ok (Some _) => Detected | Ok None => Clear | Err _ => ConflictUnknown end).

Definition owned_service_points_to (expected_binary : Path) : M Disk (result bool SetupError) :=
  let? opened := lift_io (open_service QueryConfigAccess) in
  match opened with
  | None => ret (Ok false)
  | Some service =>
      let? _ := ensure_owned service in
      let? config := lift_io (service_config service) in
      let? image := ret (quoted_image_path expected_binary) in
      ret (Ok (eq_ignore_ascii_case (image_path config) image))
  end.
End Manager.
