(* ===== verification/ServiceManagerFacts.v ===== *)
(** * What the service manager does to services

    The calls of [ServiceManager], in any world: every operation ends, whatever the
    service control manager answers; no service is changed before its configuration
    proved it to be the installer's own; a service that is reported stopped, started or
    removed was seen to be so. *)

From stdpp Require Import pretty.
From S2P Require Export ServiceManager.

(** ** Calls of a computation that leaves the disk alone *)

Section Hears.
Context `{World, Windows} (P : Nodes → Prop).

(** [m] answers, leaves the disk as it is, and [Q] holds of its answer and its calls. *)
Definition hears {A : Type} (m : M Disk A) (Q : A → list Answered → Prop) (d : Disk) : Prop :=
  spec P m (λ a d', nodes d' = nodes d ∧ ∃ new, answered d' = answered d ++ new ∧ Q a new) d.

Lemma hears_ret {A} (a : A) Q d : Q a [] → hears (ret a) Q d.
Proof. intros HQ. apply spec_ret. split; [done|]. exists []. by rewrite app_nil_r. Qed.

Lemma hears_mono {A} (m : M Disk A) (Q Q' : A → list Answered → Prop) d :
  hears m Q d → (∀ a new, Q a new → Q' a new) → hears m Q' d.
Proof. intros Hm HQ. eapply spec_post; [exact Hm|]. intros a d' _ (Hn & new & E & ?). split; [done|]. exists new. auto. Qed.

Lemma hears_bind {A B} (m : M Disk A) (k : A → M Disk B) Q R d :
  hears m Q d →
  (∀ a new d', (clock d <= clock d')%N → Q a new → hears (k a) (λ b rest, R b (new ++ rest)) d') →
  hears (bind m k) R d.
Proof.
  intros Hm Hk. eapply spec_bind; [exact Hm|]. intros a d' Hr%run_clock (Hn & new & E & HQ).
  eapply spec_post; [by apply (Hk a new d')|]. intros b d'' _ (Hn' & rest & E' & HR).
  split; [congruence|]. exists (new ++ rest). by rewrite E', E, app_assoc.
Qed.

Lemma hears_try {A B E} (m : M Disk (result A E)) (k : A → M Disk (result B E)) Q R d :
  hears m Q d →
  (∀ a new d', (clock d <= clock d')%N → Q (Ok a) new → hears (k a) (λ b rest, R b (new ++ rest)) d') →
  (∀ e new, Q (Err e) new → R (Err e) new) → hears (let? x := m in k x) R d.
Proof.
  intros Hm Hk He. eapply hears_bind; [exact Hm|]. intros [a|e] new d' Hc HQ; [by apply Hk|].
  apply hears_ret. rewrite app_nil_r. by apply He.
Qed.

(** A step that is no call. *)
Lemma hears_pure {A B E} (r : result A E) (k : A → M Disk (result B E)) R d :
  (∀ a, r = Ok a → hears (k a) R d) → (∀ e, r = Err e → R (Err e) []) → hears (let? x := ret r in k x) R d.
Proof. intros Hk He. destruct r as [a|e]; [by apply Hk|by apply hears_ret, He]. Qed.

Lemma hears_lift {A} (m : M Disk (result A IoError)) Q d :
  hears m (λ r, Q (map_err Io r)) d → hears (lift_io m) Q d.
Proof.
  intros Hm. eapply hears_bind; [exact Hm|]. intros r new d' _ HQ. apply hears_ret. by rewrite app_nil_r.
Qed.

Lemma hears_now {B} (k : N → M Disk B) R d : hears (k (clock d)) R d → hears (bind instant_now k) R d.
Proof. intros Hk. exact Hk. Qed.

Lemma hears_sleep {B} n (k : unit → M Disk B) R d :
  hears (k tt) R (pass_time n d) → hears (bind (sleep n) k) R d.
Proof.
  intros Hk. eapply spec_bind; [by apply (spec_sleep P n (λ _ d', d' = pass_time n d))|].
  intros [] d' _ ->. exact Hk.
Qed.

Lemma hears_windows {A} (c : WindowsCall A) d : hears (windows c) (λ a new, new = [Called c a]) d.
Proof.
  split; [apply run_still; [done|done|later]|].
  split; [done|]. by eexists.
Qed.

Lemma hears_call {A B} (c : WindowsCall A) (k : A → M Disk B) R d :
  (∀ a d', (clock d <= clock d')%N → hears (k a) (λ b rest, R b (Called c a :: rest)) d') →
  hears (bind (windows c) k) R d.
Proof.
  intros Hk. eapply hears_bind; [apply hears_windows|]. intros a new d' Hc ->. by apply Hk.
Qed.

(** A computation that reads the disk and makes none of the calls. *)
Definition unheard {A : Type} (m : M Disk A) (Q : A → Prop) : Prop :=
  ∀ d, spec P m (λ a d', nodes d' = nodes d ∧ answered d' = answered d ∧ Q a) d.

Lemma hears_unheard {A} (m : M Disk A) Q d : unheard m Q → hears m (λ a new, new = [] ∧ Q a) d.
Proof.
  intros Hm. eapply spec_post; [apply Hm|]. intros a d' _ (Hn & E & HQ). split; [done|]. exists [].
  by rewrite app_nil_r.
Qed.
End Hears.

(** ** Which service may be changed *)

(** The service a call starts, controls or configures, and the one it deletes. *)
Definition deletes {A : Type} (c : WindowsCall A) : option Handle :=
  match c with DeleteService service => Some service | _ => None end.

Definition changes {A : Type} (c : WindowsCall A) : option Handle :=
  match c with
  | StartServiceW service | ControlService service _
  | ChangeServiceConfigW service _ _ _ _ _ _ _ _ | ChangeServiceConfig2W service _
  | SetServiceObjectSecurity service _ _ => Some service
  | _ => None
  end.

Section Guard.
Context (root : Path).

(** The handles of which an answer proves that the service is the installer's own. *)
Definition learn (e : Answered) : list Handle :=
  match e with
  | Called (QueryServiceConfigW service) (Ok raw) =>
      match parse_config raw with
      | Ok config => if owned_service_identity config root then [service] else []
      | Err _ => []
      end
  | Called (CreateServiceW _ _ _ _ _ _ _ _ _ _) (Ok service) => [service]
  | _ => []
  end.

Definition learned (known : list Handle) (calls : list Answered) : list Handle :=
  known ++ concat (map learn calls).

Definition allowed (known : list Handle) (e : Answered) : Prop :=
  match e with Called c _ => ∀ service, changes c = Some service → service ∈ known end.

(** Every change is made to a service that was proved to be owned before. *)
Fixpoint guarded (known : list Handle) (calls : list Answered) : Prop :=
  match calls with
  | [] => True
  | e :: calls => allowed known e ∧ guarded (known ++ learn e) calls
  end.

Lemma guarded_mono known known' calls : known ⊆ known' → guarded known calls → guarded known' calls.
Proof.
  revert known known'. induction calls as [|e calls IH]; intros known known' Hk; [done|]. intros [Ha Hg]. split.
  - destruct e as [A c a]. intros service Hs. by apply Hk, Ha.
  - eapply IH; [|exact Hg]. set_solver.
Qed.

Lemma guarded_app known new rest : guarded known new → guarded (learned known new) rest → guarded known (new ++ rest).
Proof.
  unfold learned. revert known. induction new as [|e new IH]; intros known; cbn [guarded map concat app].
  - by rewrite app_nil_r.
  - intros [Ha Hg] Hr. split; [done|]. apply IH; [done|]. by rewrite <- app_assoc.
Qed.

Lemma learned_app known new rest : learned known (new ++ rest) = learned (learned known new) rest.
Proof. unfold learned. by rewrite map_app, concat_app, app_assoc. Qed.

Lemma learned_mono known new : known ⊆ learned known new.
Proof. unfold learned. set_solver. Qed.

(** What the guard says, call by call. *)
Lemma guarded_spec known calls : guarded known calls ↔
  ∀ before A (c : WindowsCall A) a after service,
    calls = before ++ Called c a :: after → changes c = Some service → service ∈ learned known before.
Proof.
  unfold learned. revert known. induction calls as [|e calls IH]; intros known; cbn [guarded].
  { split; [|done]. intros _ [|] ? ? ? ? ? E; discriminate E. }
  rewrite IH. split.
  - intros [Ha Hg] [|e' before] A c a after service E Hs; cbn in E.
    + injection E as -> _. rewrite app_nil_r. by apply Ha.
    + injection E as <- E. cbn. rewrite app_assoc. by eapply Hg.
  - intros Hall. split.
    + destruct e as [A c a]. intros service Hs. specialize (Hall [] A c a calls service eq_refl Hs). by rewrite app_nil_r in Hall.
    + intros before A c a after service -> Hs. specialize (Hall (e :: before) A c a after service eq_refl Hs).
      cbn in Hall. by rewrite app_assoc in Hall.
Qed.
End Guard.

(** ** Computations that heed the guard *)

Section Heeds.
Context `{World, Windows} (P : Nodes → Prop) (root : Path).

(** From handles that are known to be ours, [m] changes only services that are ours. *)
Definition heeds {A : Type} (known : list Handle) (m : M Disk A) (Q : A → list Answered → Prop) (d : Disk) : Prop :=
  hears P m (λ a new, guarded root known new ∧ Q a new) d.

Lemma heeds_mono {A} known (m : M Disk A) (Q Q' : A → list Answered → Prop) d :
  heeds known m Q d → (∀ a new, Q a new → Q' a new) → heeds known m Q' d.
Proof. intros Hm HQ. eapply hears_mono; [exact Hm|]. intros a new [? ?]. auto. Qed.

Lemma heeds_known {A} known known' (m : M Disk A) Q d :
  known ⊆ known' → heeds known m Q d → heeds known' m Q d.
Proof. intros Hk Hm. eapply hears_mono; [exact Hm|]. intros a new [Hg ?]. split; [by eapply guarded_mono|done]. Qed.

Lemma heeds_ret {A} known (a : A) Q d : Q a [] → heeds known (ret a) Q d.
Proof. intros HQ. by apply hears_ret. Qed.

Lemma heeds_bind {A B} known (m : M Disk A) (k : A → M Disk B) Q R d :
  heeds known m Q d →
  (∀ a new d', (clock d <= clock d')%N → Q a new → heeds (learned root known new) (k a) (λ b rest, R b (new ++ rest)) d') →
  heeds known (bind m k) R d.
Proof.
  intros Hm Hk. eapply hears_bind; [exact Hm|]. intros a new d' Hc [Hg HQ].
  eapply hears_mono; [by apply (Hk a new d')|]. intros b rest [Hg' HR]. split; [by apply guarded_app|done].
Qed.

Lemma heeds_try {A B E} known (m : M Disk (result A E)) (k : A → M Disk (result B E)) Q R d :
  heeds known m Q d →
  (∀ a new d', (clock d <= clock d')%N → Q (Ok a) new → heeds (learned root known new) (k a) (λ b rest, R b (new ++ rest)) d') →
  (∀ e new, Q (Err e) new → R (Err e) new) → heeds known (let? x := m in k x) R d.
Proof.
  intros Hm Hk He. eapply heeds_bind; [exact Hm|]. intros [a|e] new d' Hc HQ; [by apply Hk|].
  apply heeds_ret. rewrite app_nil_r. by apply He.
Qed.

Lemma heeds_pure {A B E} known (r : result A E) (k : A → M Disk (result B E)) R d :
  (∀ a, r = Ok a → heeds known (k a) R d) → (∀ e, r = Err e → R (Err e) []) → heeds known (let? x := ret r in k x) R d.
Proof. intros Hk He. destruct r as [a|e]; [by apply Hk|by apply heeds_ret, He]. Qed.

Lemma heeds_now {B} known (k : N → M Disk B) R d : heeds known (k (clock d)) R d → heeds known (bind instant_now k) R d.
Proof. intros Hk. exact Hk. Qed.

Lemma heeds_sleep {B} known n (k : unit → M Disk B) R d :
  heeds known (k tt) R (pass_time n d) → heeds known (bind (sleep n) k) R d.
Proof. apply hears_sleep. Qed.

Lemma heeds_unheard {A B} known (m : M Disk A) (k : A → M Disk B) (G : A → Prop) R d :
  unheard P m G → (∀ a d', (clock d <= clock d')%N → G a → heeds known (k a) R d') → heeds known (bind m k) R d.
Proof.
  intros Hm Hk. eapply hears_bind; [by apply hears_unheard|]. intros a new d' Hc [-> HG]. by apply Hk.
Qed.

Lemma heeds_unheard_try {A B E} known (m : M Disk (result A E)) (k : A → M Disk (result B E)) (G : result A E → Prop) R d :
  unheard P m G → (∀ a d', (clock d <= clock d')%N → G (Ok a) → heeds known (k a) R d') →
  (∀ e, G (Err e) → R (Err e) []) → heeds known (let? x := m in k x) R d.
Proof. intros Hm Hk He. eapply heeds_unheard; [exact Hm|]. intros [a|e] d' Hc HG; [by apply Hk|by apply heeds_ret, He]. Qed.

Definition may_call {A} (known : list Handle) (c : WindowsCall A) : Prop :=
  ∀ service, changes c = Some service → service ∈ known.

Lemma heeds_call {A B} known (c : WindowsCall A) (k : A → M Disk B) R d :
  may_call known c →
  (∀ a d', (clock d <= clock d')%N → heeds (known ++ learn root (Called c a)) (k a) (λ b rest, R b (Called c a :: rest)) d') →
  heeds known (bind (windows c) k) R d.
Proof.
  intros Hc Hk. apply hears_call. intros a d' Hd. eapply hears_mono; [by apply (Hk a d')|].
  intros b rest [Hg HR]. done.
Qed.

(** A wrapper makes one call and reads its answer. *)
Lemma heeds_asked {A B C E} known (c : WindowsCall A) (f : A → result B E) (k : result B E → M Disk C) R d :
  may_call known c →
  (∀ a d', (clock d <= clock d')%N → heeds (known ++ learn root (Called c a)) (k (f a)) (λ b rest, R b (Called c a :: rest)) d') →
  heeds known (bind (bind (windows c) (λ r, ret (f r))) k) R d.
Proof.
  intros Hc Hk. eapply (heeds_bind _ _ _ (λ r new, ∃ a, new = [Called c a] ∧ r = f a)).
  - apply heeds_call; [done|]. intros a d' _. apply heeds_ret. by exists a.
  - intros r new d' Hd (a & -> & ->). unfold learned. cbn [map concat]. rewrite app_nil_r. by apply Hk.
Qed.

Lemma heeds_asked_try {A B C} known (c : WindowsCall A) (f : A → result B IoError) (k : B → M Disk (result C SetupError)) R d :
  may_call known c →
  (∀ a b d', (clock d <= clock d')%N → f a = Ok b →
     heeds (known ++ learn root (Called c a)) (k b) (λ r rest, R r (Called c a :: rest)) d') →
  (∀ a e, f a = Err e → R (Err (Io e)) [Called c a]) →
  heeds known (let? x := lift_io (bind (windows c) (λ r, ret (f r))) in k x) R d.
Proof.
  intros Hc Hk He. eapply (heeds_bind _ _ _ (λ r new, ∃ a, new = [Called c a] ∧ r = map_err Io (f a))).
  - unfold lift_io. apply heeds_asked; [done|]. intros a d' _. apply heeds_ret. by exists a.
  - intros r new d' Hd (a & -> & ->). unfold learned. cbn [map concat]. rewrite app_nil_r.
    destruct (f a) as [b|e] eqn:E; cbn [map_err]; [by apply Hk|]. apply heeds_ret. by apply He.
Qed.

Lemma heeds_call_try {A C} known (c : WindowsCall (result A IoError)) (k : A → M Disk (result C SetupError)) R d :
  may_call known c →
  (∀ a d', (clock d <= clock d')%N →
     heeds (known ++ learn root (Called c (Ok a))) (k a) (λ r rest, R r (Called c (Ok a) :: rest)) d') →
  (∀ e, R (Err (Io e)) [Called c (Err e)]) →
  heeds known (let? x := lift_io (windows c) in k x) R d.
Proof.
  intros Hc Hk He. eapply (heeds_bind _ _ _ (λ r new, ∃ a, new = [Called c a] ∧ r = map_err Io a)).
  - unfold lift_io. apply heeds_call; [done|]. intros a d' _. apply heeds_ret. by exists a.
  - intros r new d' Hd (a & -> & ->). unfold learned. cbn [map concat]. rewrite app_nil_r.
    destruct a as [b|e]; cbn [map_err]; [by apply Hk|]. by apply heeds_ret.
Qed.
End Heeds.

Create HintDb heed.

(** A call that changes nothing may always be made. *)
#[export] Hint Extern 1 (may_call _ _) => (intros ? [=]) : heed.
#[export] Hint Extern 2 (may_call _ _) => (intros ? [= <-]; set_solver) : heed.

(** ** Deadlines *)

(** So many polls are enough to reach the deadline. *)
Definition lasts (fuel : nat) (pause deadline : N) (d : Disk) : Prop :=
  ∃ n, fuel = S n ∧ (deadline <= clock d + pause * N.of_nat n)%N.

Lemma lasts_later fuel pause deadline d d' :
  (clock d <= clock d')%N → lasts fuel pause deadline d → lasts fuel pause deadline d'.
Proof. intros Hc (n & -> & Hn). exists n. split; [done|lia]. Qed.

Lemma lasts_polls timeout pause now d :
  (0 < pause)%N → (now <= clock d)%N → lasts (polls timeout pause) pause (now + timeout) d.
Proof.
  intros Hp Hn. unfold polls. exists (N.to_nat (timeout / pause) + 1)%nat. split; [lia|].
  pose proof (N.mul_succ_div_gt timeout pause ltac:(lia)). lia.
Qed.

(** After a pause within the deadline one poll less is enough. *)
Lemma lasts_next fuel pause deadline d :
  lasts (S fuel) pause deadline d → (clock d < deadline)%N →
  lasts fuel pause deadline (pass_time (N.min (saturating_sub deadline (clock d)) pause) d).
Proof.
  intros (n & [= <-] & Hn) Hd. unfold saturating_sub. destruct fuel as [|m]; [lia|]. exists m. split; [done|]. cbn [clock pass_time]. lia.
Qed.

Lemma lasts_pause fuel pause deadline d :
  lasts (S fuel) pause deadline d → (clock d < deadline)%N → lasts fuel pause deadline (pass_time pause d).
Proof. intros (n & [= <-] & Hn) Hd. destruct fuel as [|m]; [lia|]. exists m. split; [done|]. cbn [clock pass_time]. lia. Qed.

(** ** What the calls of an operation show *)

Definition asks (e : Answered) : Prop := match e with Called c _ => changes c = None ∧ deletes c = None end.

(** The last thing that was asked is the state of the service, and it is stopped. *)
Definition stopped_seen (service : Handle) (calls : list Answered) : Prop :=
  ∃ before raw, calls = before ++ [Called (QueryServiceStatusEx service) (Ok raw)] ∧ dwCurrentState raw = 1%N.

(** The service stands still, or runs in the process. *)
Definition still_in (pid : N) (raw : SERVICE_STATUS_PROCESS) : Prop := dwCurrentState raw = 1%N ∨ dwProcessId raw = pid.

(** The process was opened between two looks at the service: it ran in the process before,
    and is in no other one afterwards. *)
Definition process_seen (service : Handle) (pid : N) (process : Handle) (calls : list Answered) : Prop :=
  ∃ before raw again,
    calls = before ++ [Called (QueryServiceStatusEx service) (Ok raw); Called (OpenProcess SYNCHRONIZE pid) (Ok process);
                       Called (QueryServiceStatusEx service) (Ok again)] ∧
    dwCurrentState raw ≠ 1%N ∧ dwProcessId raw = pid ∧ pid ≠ 0%N ∧ still_in pid again.

(** Looks at the service find no other process than the given one. *)
Definition only_in (service : Handle) (pid : N) (calls : list Answered) : Prop :=
  Forall (λ e, ∃ a, e = Called (QueryServiceStatusEx service) a ∧ ∀ raw, a = Ok raw → still_in pid raw) calls.

Definition name_unknown (a : result Handle IoError) : Prop :=
  ∃ e, a = Err e ∧ has_code e ERROR_SERVICE_DOES_NOT_EXIST = true.

Lemma stopped_raw n : state_from_raw n = StateStopped ↔ n = 1%N.
Proof. split; [|by intros ->]. by destruct n as [|[[[]|[]|]|[[]|[]|]|]]. Qed.

Lemma running_raw n : state_from_raw n = StateRunning ↔ n = 4%N.
Proof. split; [|by intros ->]. by destruct n as [|[[[]|[]|]|[[]|[]|]|]]. Qed.

Lemma stopped_seen_cons service e calls : stopped_seen service calls → stopped_seen service (e :: calls).
Proof. intros (before & raw & -> & ?). by exists (e :: before), raw. Qed.

Lemma stopped_seen_app service calls more : stopped_seen service more → stopped_seen service (calls ++ more).
Proof. intros (before & raw & -> & ?). exists (calls ++ before), raw. by rewrite app_assoc. Qed.

Lemma process_seen_cons service pid process e calls :
  process_seen service pid process calls → process_seen service pid process (e :: calls).
Proof. intros (before & raw & again & -> & ?). by exists (e :: before), raw, again. Qed.

Lemma capture_target_stopped status : process_capture_target status = Ok AlreadyStopped ↔ state status = StateStopped.
Proof. unfold process_capture_target. case_bool_decide; [done|]. by destruct (_ =? _)%N. Qed.

Lemma identity_stopped pid status : observe_process_identity pid status = Ok IdentityStopped → state status = StateStopped.
Proof.
  unfold observe_process_identity. destruct (process_capture_target status) as [[|observed]|] eqn:E; cbn; [|by case_match|done].
  intros _. by apply capture_target_stopped.
Qed.

Lemma identity_kept pid raw observation :
  observe_process_identity pid (snapshot raw) = Ok observation →
  observation = IdentityStopped ∨ observation = IdentitySame → still_in pid raw.
Proof.
  unfold observe_process_identity. intros E Ho. destruct (process_capture_target (snapshot raw)) as [[|observed]|] eqn:Et; [| |done].
  - left. by apply capture_target_stopped, stopped_raw in Et.
  - right. cbn [result_bind] in E. destruct (observed =? pid)%N eqn:Ep.
    + apply N.eqb_eq in Ep as ->. unfold process_capture_target in Et. case_bool_decide; [done|].
      destruct (_ =? 0)%N; [done|]. by apply (inj Ok) in Et; injection Et.
    + apply (inj Ok) in E as <-. by destruct Ho.
Qed.

Lemma capture_target_pid raw pid :
  process_capture_target (snapshot raw) = Ok (Pid pid) → dwCurrentState raw ≠ 1%N ∧ dwProcessId raw = pid ∧ pid ≠ 0%N.
Proof.
  unfold process_capture_target. cbn [snapshot state snapshot_process_id]. case_bool_decide as Hs; [done|].
  destruct (dwProcessId raw =? 0)%N eqn:Ez; [done|]. intros E%(inj Ok). injection E as <-. apply N.eqb_neq in Ez.
  split_and!; [|done|done]. by rewrite <- stopped_raw.
Qed.

Section Loops.
Context `{World, Windows} (P : Nodes → Prop) (root : Path).

(** What capturing the process of a service shows. *)
Definition captured (service : Handle) (r : result (option (N * Handle)) SetupError) (calls : list Answered) : Prop :=
  Forall asks calls ∧
  match r with
  | Ok None => stopped_seen service calls
  | Ok (Some (pid, process)) => process_seen service pid process calls
  | Err _ => True
  end.

Lemma captured_cons service r e calls : asks e → captured service r calls → captured service r (e :: calls).
Proof.
  intros He [Ha Hr]. split; [by constructor|]. destruct r as [[[pid process]|]|]; [|by apply stopped_seen_cons|done].
  by apply process_seen_cons.
Qed.

Lemma retry_heeds known deadline pause text (B : Type) (k : unit → M Disk (result B SetupError)) R d :
  ((clock d < deadline)%N → heeds P root known (k tt) R (pass_time (N.min (saturating_sub deadline (clock d)) pause) d)) →
  R (Err (Runtime text)) [] →
  heeds P root known (let? x := wait_before_retry deadline pause text in k x) R d.
Proof.
  intros Hk He. unfold wait_before_retry. change (heeds P root known
    (let? x := if (saturating_sub deadline (clock d) =? 0)%N then ret (Err (Runtime text))
               else (let! _ := sleep (N.min (saturating_sub deadline (clock d)) pause) in ret (Ok tt)) in k x) R d).
  destruct (_ =? 0)%N eqn:E; [by apply heeds_ret|]. apply N.eqb_neq in E. unfold saturating_sub in E at 1.
  apply (heeds_sleep P root known _ (λ _, k tt)). apply Hk. lia.
Qed.

Lemma status_heeds known service (B : Type) (k : ServiceStatusSnapshot → M Disk (result B SetupError)) R d :
  (∀ raw d', (clock d <= clock d')%N → heeds P root known (k (snapshot raw))
     (λ b rest, R b (Called (QueryServiceStatusEx service) (Ok raw) :: rest)) d') →
  (∀ e, R (Err (Io e)) [Called (QueryServiceStatusEx service) (Err e)]) →
  heeds P root known (let? status := lift_io (service_status service) in k status) R d.
Proof.
  intros Hk He. apply heeds_asked_try; [auto with heed|..].
  - intros [raw|e] status d' Hc E; [|done]. apply (inj Ok) in E as <-. cbn [learn]. rewrite app_nil_r. by apply Hk.
  - intros [raw|e] e' E; [done|]. by apply (inj Err) in E as <-.
Qed.

Lemma capture_heeds known service deadline fuel d :
  lasts fuel CAPTURE_PAUSE deadline d →
  heeds P root known (capture_service_process fuel service deadline) (captured service) d.
Proof.
  revert d. induction fuel as [|fuel IH]; intros d Hlast; [by destruct Hlast as (n & ? & _)|].
  cbn [capture_service_process]. apply status_heeds; [|by split; [repeat constructor|]].
  intros raw d1 Hc1. apply heeds_pure; [|by split; [repeat constructor|]]. intros [|pid] Et.
  { apply heeds_ret. split; [repeat constructor|]. apply capture_target_stopped, stopped_raw in Et. by exists [], raw. }
  destruct (capture_target_pid _ _ Et) as (Hactive & Hpid & Hnonzero).
  unfold open_process_synchronize. apply heeds_call; [auto with heed|]. intros opened d2 Hc2. cbn [learn]. rewrite app_nil_r.
  assert (∀ again e d3, (clock d2 <= clock d3)%N → asks e →
    heeds P root known (let? _ := wait_before_process_capture_retry deadline in capture_service_process fuel service deadline)
      (λ b rest, captured service b (Called (QueryServiceStatusEx service) (Ok raw) :: e :: Called (QueryServiceStatusEx service) (Ok again) :: rest)) d3)
    as Hretry.
  { intros again e d3 Hc3 He. apply retry_heeds; [|by split; [repeat constructor|]]. intros Hd.
    eapply heeds_mono; [apply IH, lasts_next; [|done]; eapply lasts_later; [|exact Hlast]; lia|].
    intros b rest Hb. by do 3 (apply captured_cons; [done|]). }
  destruct opened as [process|error].
  - apply status_heeds; [|by split; [repeat constructor|]]. intros again d3 Hc3.
    apply heeds_pure; [|by split; [repeat constructor|]].
    intros [| |other] Eo; [..|by apply Hretry];
      apply heeds_ret; (split; [repeat constructor|]); exists [], raw, again; split_and!; try done;
      by eapply identity_kept; eauto.
  - destruct (has_code error _); [|by apply heeds_ret; split; [repeat constructor|]].
    apply status_heeds; [|by split; [repeat constructor|]]. intros again d3 Hc3.
    apply heeds_pure; [|by split; [repeat constructor|]].
    intros [| |other] Eo; [|by apply Hretry..].
    apply heeds_ret. split; [repeat constructor|]. apply identity_stopped, stopped_raw in Eo.
    by exists [Called (QueryServiceStatusEx service) (Ok raw); Called (OpenProcess SYNCHRONIZE pid) (Err error)], again.
Qed.
End Loops.

Section Waits.
Context `{World, Windows, EventJson, !Setup, HealthJson, DebugFormat, BuildFeatures} (P : Nodes → Prop) (root : Path).

Lemma unheard_quiet {A} (m : M Disk A) :
  (∀ d, spec P m (λ _ d', nodes d' = nodes d) d) → silent m → unheard P m (λ _, True).
Proof.
  intros Hm Hs d. specialize (Hm d). unfold spec, wp in *. destruct (m d) as [[a d']|] eqn:E; [|done].
  destruct Hm as [Hr Hn]. split_and!; [done|done|by eapply Hs|done].
Qed.

Lemma stopped_heeds known service pid deadline fuel d :
  lasts fuel POLL_PAUSE deadline d →
  heeds P root known (wait_for_stopped_process fuel service pid deadline)
    (λ r new, Forall asks new ∧ (r = Ok tt → stopped_seen service new ∧ only_in service pid new)) d.
Proof.
  revert d. induction fuel as [|fuel IH]; intros d Hlast; [by destruct Hlast as (n & ? & _)|].
  cbn [wait_for_stopped_process]. apply status_heeds; [|by split; [repeat constructor|]].
  intros raw d1 Hc1. apply heeds_pure; [|by split; [repeat constructor|]]. intros complete Ec. destruct complete.
  - unfold stopping_process_is_complete in Ec. destruct (observe_process_identity pid (snapshot raw)) as [[]|] eqn:Eo; try done.
    apply identity_stopped, stopped_raw in Eo. apply heeds_ret. split; [repeat constructor|]. intros _. split; [by exists [], raw|].
    constructor; [|constructor]. exists (Ok raw). split; [done|]. intros ? <-%(inj Ok). by left.
  - apply retry_heeds; [|by split; [repeat constructor|]]. intros Hd.
    eapply heeds_mono; [apply IH, lasts_next; [|done]; by eapply lasts_later|].
    intros b rest [Ha Hr]. split; [by constructor|]. intros Hb. destruct (Hr Hb) as [Hs Ho].
    split; [by apply stopped_seen_cons|]. constructor; [|done]. exists (Ok raw). split; [done|]. intros ? <-%(inj Ok).
    unfold stopping_process_is_complete in Ec. destruct (observe_process_identity pid (snapshot raw)) as [[]|] eqn:Eo; try done.
    eapply identity_kept; [exact Eo|]. by right.
Qed.

Lemma exit_heeds known process deadline d :
  heeds P root known (wait_for_process_exit process deadline)
    (λ r new, ∃ ms a, new = [Called (WaitForSingleObject process ms) a] ∧ (r = Ok tt → a = Ok WAIT_OBJECT_0)) d.
Proof.
  unfold wait_for_process_exit. apply heeds_now. cbv zeta. unfold handle_wait. apply heeds_asked; [auto with heed|].
  intros a d' _. apply heeds_ret. eexists _, a. split; [done|]. destruct a as [value|e]; [|done].
  destruct (value =? WAIT_OBJECT_0)%N eqn:E; [by apply N.eqb_eq in E as ->|]. by repeat case_match.
Qed.

(** The last thing that was asked about the name is that there is no such service. *)
Definition absent_seen (calls : list Answered) : Prop :=
  ∃ before a, calls = before ++ [Called (OpenServiceW effective_service_name (service_rights QueryStatusAccess)) a] ∧ name_unknown a.

Lemma absent_heeds known deadline fuel d :
  lasts fuel POLL_PAUSE deadline d →
  heeds P root known (wait_until_absent fuel deadline) (λ r new, Forall asks new ∧ (r = Ok tt → absent_seen new)) d.
Proof.
  revert d. induction fuel as [|fuel IH]; intros d Hlast; [by destruct Hlast as (n & ? & _)|].
  cbn [wait_until_absent]. unfold open_service, open_named_service, scm_open. apply heeds_asked; [auto with heed|].
  intros a d1 Hc1. cbn [learn]. rewrite app_nil_r. apply heeds_pure; [|by split; [repeat constructor|]].
  intros observation Eo. apply heeds_now. apply heeds_pure; [|by split; [repeat constructor|]].
  intros action Ea. destruct action.
  - apply heeds_ret. split; [repeat constructor|]. intros _. exists [], a. split; [done|].
    unfold absence_poll_action in Ea. case_bool_decide as Ho; [|by destruct (_ <=? _)%N]. rewrite Ho in Eo.
    destruct a as [service|e]; [done|]. exists e. split; [done|]. destruct (has_code e _) eqn:E; [done|]. by case_match.
  - apply heeds_sleep. eapply heeds_mono; [apply IH, lasts_pause; [by eapply lasts_later|]|].
    + unfold absence_poll_action in Ea. case_bool_decide; [done|]. by destruct (_ <=? _)%N eqn:E; [|apply N.leb_gt in E].
    + intros b rest [Hf Hr]. split; [by constructor|]. intros Hb. destruct (Hr Hb) as (before & a' & -> & Hn).
      by exists (Called (OpenServiceW effective_service_name (service_rights QueryStatusAccess)) a :: before), a'.
Qed.

Lemma diagnostic_unheard path : unheard P (persisted_failure_diagnostic path) (λ _, True).
Proof.
  apply unheard_quiet; [|unfold persisted_failure_diagnostic; hush]. intros d. unfold persisted_failure_diagnostic.
  eapply spec_bind; [apply read_bounded_quiet|]. intros r d' _ [Hn _]. by apply spec_ret.
Qed.

Lemma state_heeds known service expected deadline path fuel d :
  lasts fuel POLL_PAUSE deadline d →
  heeds P root known (wait_for_state fuel service expected deadline path)
    (λ r new, Forall asks new ∧ ∀ status, r = Ok status →
       ∃ raw, Called (QueryServiceStatusEx service) (Ok raw) ∈ new ∧ status = snapshot raw ∧ state status = expected) d.
Proof.
  revert d. induction fuel as [|fuel IH]; intros d Hlast; [by destruct Hlast as (n & ? & _)|].
  cbn [wait_for_state]. apply status_heeds; [|by split; [repeat constructor|]].
  intros raw d1 Hc1. case_bool_decide as Hs.
  { apply heeds_ret. split; [repeat constructor|]. intros status <-%(inj Ok). exists raw. split; [set_solver|done]. }
  destruct (_ && _).
  { apply (heeds_unheard _ _ _ _ _ (λ _, True)).
    - unfold stopped_before_expected_state_error. intros d2. destruct path as [path|]; [|by apply spec_ret].
      eapply spec_bind; [apply diagnostic_unheard|]. intros r d3 _ (Hn & Ha & _). by apply spec_ret.
    - intros e d2 _ _. apply heeds_ret. by split; [repeat constructor|]. }
  apply heeds_now. destruct (_ <=? _)%N eqn:E; [apply heeds_ret; by split; [repeat constructor|]|]. apply N.leb_gt in E.
  apply heeds_sleep. eapply heeds_mono; [apply IH, lasts_pause; [by eapply lasts_later|done]|].
  intros b rest [Ha Hr]. split; [by constructor|]. intros status Hb. destruct (Hr _ Hb) as (raw' & Hin & ?).
  exists raw'. split; [by apply list_elem_of_further|done].
Qed.
(** A valid report of readiness was read from the process of the service itself. *)
Definition ready_seen (pid : N) (digest : option string) (calls : list Answered) : Prop :=
  ∃ pipe bytes report,
    Called (GetNamedPipeServerProcessId pipe) (Ok pid) ∈ calls ∧
    Called (ReadPipe pipe HEALTH_BUFFER_BYTES) (Ok bytes) ∈ calls ∧
    health_from_slice (take (N.to_nat HEALTH_BUFFER_BYTES) bytes) = Some report ∧
    report_validate report = true ∧ health report = HealthReady ∧
    ∀ expected, digest = Some expected → active_profile_digest report = Some expected.

Lemma ready_seen_sub pid digest calls calls' : calls ⊆ calls' → ready_seen pid digest calls → ready_seen pid digest calls'.
Proof. intros Hs (pipe & bytes & report & Hp & Hb & Hr). exists pipe, bytes, report. auto. Qed.

Lemma matching_report report digest :
  health_report_matches_expected_profile report digest = true →
  report_validate report = true ∧ health report = HealthReady ∧
  ∀ expected, digest = Some expected → active_profile_digest report = Some expected.
Proof.
  unfold health_report_matches_expected_profile, is_active_for. destruct digest as [expected|]; intros H'; andb_split;
    repeat match goal with H : bool_decide _ = true |- _ => apply bool_decide_eq_true in H end; split_and!; try done.
  by intros ? [= <-].
Qed.

Lemma look_heeds known pid digest d :
  heeds P root known (look_at_health pid digest)
    (λ r new, Forall asks new ∧ (r = Some (Ok tt) → pid ≠ 0%N ∧ ready_seen pid digest new)) d.
Proof.
  unfold look_at_health, pipe_open_read. apply heeds_call; [auto with heed|]. intros [pipe|e] d1 _; cbn [learn];
    [|apply heeds_ret; by split; [repeat constructor|]].
  unfold named_pipe_server_process_id. apply heeds_asked; [auto with heed|]. intros server d2 _. cbn [learn].
  destruct server as [server|e]; [|apply heeds_ret; by split; [repeat constructor|]].
  destruct (server =? 0)%N; [apply heeds_ret; by split; [repeat constructor|]|].
  destruct (health_server_matches_expected pid server) eqn:Em; cbn [negb];
    [|apply heeds_ret; by split; [repeat constructor|]].
  unfold health_server_matches_expected in Em. andb_split. subst server.
  unfold pipe_read. apply heeds_asked; [auto with heed|]. intros read d3 _. cbn [learn].
  apply heeds_ret. split; [repeat constructor|].
  destruct read as [bytes|e]; [|done]. destruct (take _ bytes) as [|b bs] eqn:Et; [done|].
  destruct (health_from_slice (b :: bs)) as [report|] eqn:Er; [|done].
  destruct (health_report_matches_expected_profile report digest) eqn:Eh; [|by repeat case_match].
  intros _. split; [done|]. apply matching_report in Eh. exists pipe, bytes, report. rewrite Et. split_and!; [set_solver|set_solver|done|apply Eh|apply Eh|apply Eh].
Qed.

Lemma health_heeds known pid digest deadline fuel d :
  lasts fuel POLL_PAUSE deadline d →
  heeds P root known (wait_for_ready_health fuel pid digest deadline)
    (λ r new, Forall asks new ∧ (r = Ok tt → pid ≠ 0%N ∧ ready_seen pid digest new)) d.
Proof.
  revert known d. induction fuel as [|fuel IH]; intros known d Hlast; [by destruct Hlast as (n & ? & _)|].
  cbn [wait_for_ready_health]. apply heeds_now. destruct (clock d <? deadline)%N eqn:E; [|by apply heeds_ret].
  apply N.ltb_lt in E. eapply heeds_bind; [apply look_heeds|]. intros seen new d1 Hc [Ha Hs]. destruct seen as [r|].
  { apply heeds_ret. rewrite app_nil_r. split; [done|]. intros ->. by apply Hs. }
  apply heeds_sleep. eapply heeds_mono.
  - apply IH. destruct Hlast as (n & [= <-] & Hn). destruct fuel as [|m]; [lia|]. exists m. split; [done|]. cbn [clock pass_time]. lia.
  - intros b rest [Ha' Hr]. split; [by apply Forall_app|]. intros Hb. destruct (Hr Hb) as [Hp Hrd]. split; [done|].
    eapply ready_seen_sub; [|exact Hrd]. set_solver.
Qed.
End Waits.

(** ** Deletions *)

Definition deleted (e : Answered) : option Handle := match e with Called c _ => deletes c end.

Definition no_deletion (calls : list Answered) : Prop := Forall (λ e, deleted e = None) calls.

Lemma asks_no_deletion calls : Forall asks calls → no_deletion calls.
Proof. intros Ha. eapply Forall_impl; [exact Ha|]. by intros [A c a] [_ ?]. Qed.

Lemma no_deletion_split calls before service a after :
  no_deletion calls → calls ≠ before ++ Called (DeleteService service) a :: after.
Proof. intros Hn ->. apply Forall_app in Hn as [_ Hn]. by apply Forall_cons in Hn as [? _]. Qed.

Lemma one_deletion pre service a post before service' a' after :
  no_deletion pre → no_deletion post →
  pre ++ Called (DeleteService service) a :: post = before ++ Called (DeleteService service') a' :: after →
  before = pre ∧ service' = service.
Proof.
  revert before. induction pre as [|e pre IH]; intros [|e' before] Hpre Hpost E; cbn in E.
  - split; [done|]. by apply (f_equal (λ l, head l ≫= deleted)) in E; injection E as ->.
  - apply (f_equal tail) in E. cbn in E. by apply no_deletion_split in E.
  - apply (f_equal (λ l, head l ≫= deleted)) in E. cbn in E. apply Forall_cons in Hpre as [He _]. by rewrite He in E.
  - apply Forall_cons in Hpre as [He Hpre]. pose proof (f_equal head E) as Eh. cbn in Eh. apply Some_inj in Eh as <-.
    apply (f_equal tail) in E. cbn in E. by destruct (IH _ Hpre Hpost E) as [-> ->].
Qed.

(** ** The operations *)

Section Operations.
Context `{World, Windows, EventJson, !Setup, HealthJson, DebugFormat, BuildFeatures} (P : Nodes → Prop) (root : Path).

Notation opening access := (OpenServiceW effective_service_name (service_rights access)) (only parsing).

Lemma open_heeds known access (B : Type) (k : option Handle → M Disk (result B SetupError)) R d :
  (∀ a opened d', (clock d <= clock d')%N → (opened = None → name_unknown a) → (∀ h, opened = Some h → a = Ok h) →
     heeds P root known (k opened) (λ b rest, R b (Called (opening access) a :: rest)) d') →
  (∀ a e, R (Err e) [Called (opening access) a]) →
  heeds P root known (let? opened := lift_io (open_service access) in k opened) R d.
Proof.
  intros Hk He. unfold open_service, open_named_service, scm_open. apply heeds_asked_try; [auto with heed| |by intros; apply He].
  intros a opened d' Hc E. cbn [learn]. rewrite app_nil_r. apply Hk; [done|..].
  - intros ->. destruct a as [h|e]; [done|]. exists e. split; [done|]. by destruct (has_code e _).
  - intros h ->. destruct a as [h'|e]; [|by destruct (has_code e _)]. by apply (inj Ok) in E; simplify_eq.
Qed.

Lemma installed_heeds known access (B : Type) (k : Handle → M Disk (result B SetupError)) R d :
  (∀ a service d', (clock d <= clock d')%N →
     heeds P root known (k service) (λ b rest, R b (Called (opening access) a :: rest)) d') →
  (∀ a e, R (Err e) [Called (opening access) a]) →
  heeds P root known (let? service := open_installed access in k service) R d.
Proof.
  intros Hk He. unfold open_installed.
  eapply (heeds_try _ _ _ _ _ (λ r new, ∃ a, new = [Called (opening access) a])).
  - apply open_heeds; [|intros; by eexists]. intros a opened d' _ _ _. apply heeds_ret. by eexists.
  - intros service new d' Hc [a ->]. unfold learned. cbn. rewrite app_nil_r. by apply Hk.
  - intros e new [a ->]. apply He.
Qed.

Lemma config_heeds known service (B : Type) (k : ServiceConfig → M Disk (result B SetupError)) R d :
  (∀ raw config d', (clock d <= clock d')%N → parse_config raw = Ok config →
     heeds P root (known ++ learn root (Called (QueryServiceConfigW service) (Ok raw))) (k config)
       (λ b rest, R b (Called (QueryServiceConfigW service) (Ok raw) :: rest)) d') →
  (∀ a e, R (Err e) [Called (QueryServiceConfigW service) a]) →
  heeds P root known (let? config := lift_io (service_config service) in k config) R d.
Proof.
  intros Hk He. unfold service_config. apply heeds_asked_try; [auto with heed| |by intros; apply He].
  intros [raw|e] config d' Hc E; [|done]. by apply Hk.
Qed.

(** The service is owned: from here on it may be changed. *)
Lemma owned_heeds known service (B : Type) (k : unit → M Disk (result B SetupError)) R d :
  (∀ raw config d', (clock d <= clock d')%N → parse_config raw = Ok config → owned_service_identity config root = true →
     heeds P root (known ++ [service]) (k tt) (λ b rest, R b (Called (QueryServiceConfigW service) (Ok raw) :: rest)) d') →
  (∀ a e, R (Err e) [Called (QueryServiceConfigW service) a]) →
  heeds P root known (let? x := ensure_owned root service in k x) R d.
Proof.
  intros Hk He. unfold ensure_owned.
  eapply (heeds_try _ _ _ _ _ (λ r new, ∃ a, new = [Called (QueryServiceConfigW service) a] ∧
    (r = Ok tt → ∃ raw config, a = Ok raw ∧ parse_config raw = Ok config ∧ owned_service_identity config root = true))).
  - apply config_heeds; [|intros a e; by exists a]. intros raw config d' _ Ep.
    destruct (owned_service_identity config root) eqn:Eo; cbn [negb]; apply heeds_ret; eexists; (split; [done|]); [|done].
    by exists raw, config.
  - intros [] new d' Hc (a & -> & Ha). destruct (Ha eq_refl) as (raw & config & -> & Ep & Eo).
    unfold learned. cbn [map concat]. rewrite app_nil_r. cbn [learn]. rewrite Ep, Eo. by eapply Hk.
  - intros e new (a & -> & _). apply He.
Qed.

(** What a stop that succeeded has shown, call by call: there is no such service; or one
    was opened and proved to be owned, and then stood still already; or a look at it
    found a process, which was opened before the service was asked to stop, the looks
    that followed found it in no other process until it stood still, and last of all
    that process ended. *)
Definition stop_shown (calls : list Answered) : Prop :=
  (∃ a, calls = [Called (opening StopAccess) a] ∧ name_unknown a) ∨
  ∃ service raw config looks rest,
    calls = Called (opening StopAccess) (Ok service) :: Called (QueryServiceConfigW service) (Ok raw) :: looks ++ rest ∧
    parse_config raw = Ok config ∧ owned_service_identity config root = true ∧ Forall asks looks ∧
    (rest = [] ∧ stopped_seen service looks ∨
     ∃ pid process control waits ms, process_seen service pid process looks ∧
       rest = Called (ControlService service SERVICE_CONTROL_STOP) control :: waits
                ++ [Called (WaitForSingleObject process ms) (Ok WAIT_OBJECT_0)] ∧
       only_in service pid waits ∧ stopped_seen service waits).

Lemma stop_heeds known d :
  heeds P root known (stop root) (λ r new, no_deletion new ∧ (r = Ok tt → stop_shown new)) d.
Proof.
  unfold stop. apply open_heeds; [|by split; [repeat constructor|]]. intros a opened d1 Hc1 Hn Ha1. destruct opened as [service|].
  2: { apply heeds_ret. split; [repeat constructor|]. intros _. left. exists a. split; [done|by apply Hn]. }
  rewrite (Ha1 service eq_refl) in *. clear Hn Ha1 a.
  apply owned_heeds; [|by split; [repeat constructor|]]. intros raw config d2 Hc2 Ep Eo. apply heeds_now. cbv zeta.
  eapply heeds_try; [apply capture_heeds, lasts_polls; [done|reflexivity]| |].
  2: { intros e new [Ha _]. split; [by do 2 (constructor; [done|]); apply asks_no_deletion|done]. }
  intros [[pid process]|] new d3 Hc3 [Ha Hcap].
  2: { apply heeds_ret. split; [do 2 (constructor; [done|]); rewrite app_nil_r; by apply asks_no_deletion|]. intros _. right.
       exists service, raw, config, new, []. split_and!; try done. by left. }
  assert (∀ more, no_deletion more →
    no_deletion (Called (opening StopAccess) (Ok service) :: Called (QueryServiceConfigW service) (Ok raw) :: new ++ more)) as Hmore.
  { intros more Hd. do 2 (constructor; [done|]). apply Forall_app. split; [by apply asks_no_deletion|done]. }
  unfold service_stop. apply heeds_asked_try; [|..].
  { intros s [= <-]. apply learned_mono. set_solver. }
  2: { intros. split; [apply Hmore; repeat constructor|done]. }
  intros control outcome d4 Hc4 _. cbn [learn]. rewrite app_nil_r.
  eapply heeds_try; [apply stopped_heeds; eapply lasts_later; [|apply lasts_polls; [done|reflexivity]]; lia| |].
  2: { intros e new2 [Ha2 _]. split; [|done]. apply Hmore. constructor; [done|by apply asks_no_deletion]. }
  intros [] new2 d5 Hc5 [Ha2 Hstop]. destruct (Hstop eq_refl) as [Hstopped Honly]. eapply heeds_mono; [apply exit_heeds|].
  intros r rest (ms & w & -> & Hw). split.
  { apply Hmore. constructor; [done|]. apply Forall_app. split; [by apply asks_no_deletion|repeat constructor]. }
  intros ->. rewrite (Hw eq_refl). right. eexists service, raw, config, new, _. split_and!; [done..|]. right.
  by exists pid, process, control, new2, ms.
Qed.

(** Configurations that print alike are alike. *)
Lemma compare_field_nil field expected actual : compare_field field expected actual = [] ↔ expected = actual.
Proof. unfold compare_field. destruct (String.eqb_spec expected actual); naive_solver. Qed.

Lemma bracketed_inj a b : bracketed a = bracketed b → a = b.
Proof.
  unfold bracketed. intros E%(f_equal str_bytes). rewrite !str_bytes_app in E. apply app_inv_head, app_inv_tail in E.
  by apply str_bytes_inj.
Qed.

Lemma unchanged_equal expected actual :
  ensure_captured_configuration_unchanged expected actual = Ok tt ↔ expected = actual.
Proof.
  unfold ensure_captured_configuration_unchanged, describe_configuration_difference.
  assert (configuration_differences expected actual = [] ↔ expected = actual) as Hd.
  { unfold configuration_differences. split.
    - intros E. repeat (apply app_eq_nil in E as [? E]).
      repeat match goal with H : compare_field _ _ _ = [] |- _ => apply compare_field_nil in H end.
      repeat match goal with
      | H : pretty _ = pretty _ |- _ => apply (inj pretty) in H
      | H : bracketed _ = bracketed _ |- _ => apply bracketed_inj in H
      | H : debug_strings _ = debug_strings _ |- _ => apply (inj debug_strings) in H
      end.
      destruct expected, actual. cbn in *. congruence.
    - intros ->. unfold compare_field. by rewrite !String.eqb_refl. }
  rewrite <- Hd. by destruct (configuration_differences expected actual).
Qed.

(** What stands before a deletion: a configuration that was read from a service right
    after it proved to be owned, the stop, and the same configuration again. *)
Definition deletion_shown (service : Handle) (before : list Answered) : Prop :=
  ∃ first owned_raw owned_config expected_raw actual_raw config stopping,
    before = Called (opening QueryStatusAndConfigAccess) (Ok first)
      :: Called (QueryServiceConfigW first) (Ok owned_raw) :: Called (QueryServiceConfigW first) (Ok expected_raw)
      :: stopping ++ [Called (opening DeleteAccess) (Ok service); Called (QueryServiceConfigW service) (Ok actual_raw)] ∧
    parse_config owned_raw = Ok owned_config ∧ owned_service_identity owned_config root = true ∧
    parse_config expected_raw = Ok config ∧ parse_config actual_raw = Ok config ∧ stop_shown stopping.

(** What a removal shows: every deletion is justified, and a success is the sight that
    there is no service of the name. *)
Definition removal_shown (r : result unit SetupError) (calls : list Answered) : Prop :=
  (∀ before service a after, calls = before ++ Called (DeleteService service) a :: after → deletion_shown service before) ∧
  (r = Ok tt → ∃ access a, Called (opening access) a ∈ calls ∧ name_unknown a).

Lemma undeleted_removal r calls :
  no_deletion calls → (r = Ok tt → ∃ access a, Called (opening access) a ∈ calls ∧ name_unknown a) → removal_shown r calls.
Proof. intros Hn Hr. split; [|done]. intros before service a after E. by eapply no_deletion_split in E. Qed.

Lemma remove_heeds known d : heeds P root known (remove root) removal_shown d.
Proof.
  unfold remove. apply open_heeds; [|by intros; apply undeleted_removal; [repeat constructor|]].
  intros a opened d1 Hc1 Hn Hfirst. destruct opened as [first|].
  2: { apply heeds_ret, undeleted_removal; [repeat constructor|]. intros _. exists QueryStatusAndConfigAccess, a. split; [set_solver|by apply Hn]. }
  apply owned_heeds; [|by intros; apply undeleted_removal; [repeat constructor|]]. intros owned_raw owned_config d2 _ Eowned Hown.
  apply config_heeds; [|by intros; apply undeleted_removal; [repeat constructor|]]. intros expected_raw config d3 _ Eexp.
  eapply heeds_try; [apply stop_heeds| |].
  2: { intros e new [Hd _]. apply undeleted_removal; [|done]. by repeat (constructor; [done|]). }
  intros [] stopping d4 _ [Hd Hstop]. specialize (Hstop eq_refl).
  assert (∀ more, no_deletion more → no_deletion (Called (opening QueryStatusAndConfigAccess) a
      :: Called (QueryServiceConfigW first) (Ok owned_raw) :: Called (QueryServiceConfigW first) (Ok expected_raw) :: stopping ++ more)) as Hmore.
  { intros more Hm. do 3 (constructor; [done|]). by apply Forall_app. }
  apply open_heeds; [|by intros; apply undeleted_removal; [apply Hmore; repeat constructor|]].
  intros a2 opened2 d5 _ Hn2 Hsecond. destruct opened2 as [service|].
  2: { apply heeds_ret, undeleted_removal; [apply Hmore; repeat constructor|]. intros _. exists DeleteAccess, a2.
       split; [set_solver|by apply Hn2]. }
  apply config_heeds; [|by intros; apply undeleted_removal; [apply Hmore; repeat constructor|]].
  intros actual_raw actual d6 _ Eact.
  apply heeds_pure; [|by intros; apply undeleted_removal; [apply Hmore; repeat constructor|]].
  intros [] Esame%unchanged_equal. subst actual.
  rewrite (Hfirst first eq_refl), (Hsecond service eq_refl) in *. clear Hfirst Hsecond Hn Hn2.
  assert (∀ x more before' service' a' after, no_deletion more →
    Called (opening QueryStatusAndConfigAccess) (Ok first) :: Called (QueryServiceConfigW first) (Ok owned_raw)
      :: Called (QueryServiceConfigW first) (Ok expected_raw)
      :: stopping ++ Called (opening DeleteAccess) (Ok service) :: Called (QueryServiceConfigW service) (Ok actual_raw)
      :: Called (DeleteService service) x :: more = before' ++ Called (DeleteService service') a' :: after →
    deletion_shown service' before') as Hdel.
  { intros x more before' service' a' after Hm E.
    assert (stopping ++ Called (opening DeleteAccess) (Ok service) :: Called (QueryServiceConfigW service) (Ok actual_raw)
      :: Called (DeleteService service) x :: more
      = (stopping ++ [Called (opening DeleteAccess) (Ok service); Called (QueryServiceConfigW service) (Ok actual_raw)])
        ++ Called (DeleteService service) x :: more) as Es by (by rewrite <- app_assoc).
    rewrite Es, 3 app_comm_cons in E. apply one_deletion in E as [-> ->]; [|apply Hmore; repeat constructor|done].
    by exists first, owned_raw, owned_config, expected_raw, actual_raw, config, stopping. }
  unfold service_delete. apply heeds_call_try; [auto with heed|..].
  2: { intros e. split; [|done]. intros. eapply (Hdel _ []); [by constructor|done]. }
  intros x d7 _. cbn [learn]. apply heeds_now.
  eapply heeds_mono; [apply absent_heeds, lasts_polls; [done|reflexivity]|].
  intros r rest [Ha Hr]. split.
  - intros. eapply Hdel; [by apply asks_no_deletion|done].
  - intros Hr'. destruct (Hr Hr') as (pre & a3 & -> & Hn3). exists QueryStatusAccess, a3. split; [|done].
    do 3 apply list_elem_of_further. apply elem_of_app. right. do 3 apply list_elem_of_further. apply elem_of_app. right. set_solver.
Qed.

(** What a start that succeeded has shown. *)
Definition start_shown (digest : option string) (calls : list Answered) : Prop :=
  ∃ service raw,
    Called (QueryServiceStatusEx service) (Ok raw) ∈ calls ∧ dwCurrentState raw = 4%N ∧ dwProcessId raw ≠ 0%N ∧
    ready_seen (dwProcessId raw) digest calls.

Lemma start_heeds known digest d :
  heeds P root known (start_and_wait_ready_for root digest)
    (λ r new, no_deletion new ∧ (r = Ok tt → start_shown digest new)) d.
Proof.
  unfold start_and_wait_ready_for. apply installed_heeds; [|by split; [repeat constructor|]]. intros a service d1 Hc1.
  apply owned_heeds; [|by split; [repeat constructor|]]. intros raw config d2 _ _ _.
  unfold service_start. apply heeds_asked_try; [|..].
  { intros s [= <-]. set_solver. }
  2: { intros. by split; [repeat constructor|]. }
  intros started outcome d3 _ _. cbn [learn]. rewrite app_nil_r. apply heeds_now.
  eapply heeds_try; [apply state_heeds, lasts_polls; [done|reflexivity]| |].
  2: { intros e new [Ha _]. split; [|done]. do 3 (constructor; [done|]). by apply asks_no_deletion. }
  intros status new d4 _ [Ha Hs]. destruct (Hs _ eq_refl) as (raw' & Hin & -> & Est). cbn [snapshot state snapshot_process_id] in *.
  apply running_raw in Est. destruct (dwProcessId raw' =? 0)%N eqn:E0.
  { apply heeds_ret. split; [|done]. rewrite app_nil_r. do 3 (constructor; [done|]). by apply asks_no_deletion. }
  apply N.eqb_neq in E0. apply heeds_now. eapply heeds_mono; [apply health_heeds, lasts_polls; [done|reflexivity]|].
  intros r rest [Ha' Hr]. split.
  { do 3 (constructor; [done|]). apply Forall_app. split; by apply asks_no_deletion. }
  intros Hok. destruct (Hr Hok) as [_ Hready]. exists service, raw'. split_and!; [set_solver|done|done|].
  eapply ready_seen_sub; [|exact Hready]. set_solver.
Qed.

(** The last call told whether the service runs or is stopped. *)
Definition state_seen (running : bool) (calls : list Answered) : Prop :=
  ∃ service raw, last calls = Some (Called (QueryServiceStatusEx service) (Ok raw)) ∧
    dwCurrentState raw = if running then 4%N else 1%N.

Lemma running_heeds known d :
  heeds P root known (is_running root)
    (λ r new, Forall asks new ∧ ∀ b, r = Ok b → state_seen b new) d.
Proof.
  unfold is_running. apply installed_heeds; [|by split; [repeat constructor|]]. intros a service d1 _.
  apply owned_heeds; [|by split; [repeat constructor|]]. intros raw config d2 _ _ _.
  apply status_heeds; [|by split; [repeat constructor|]]. intros status d3 _. apply heeds_ret. split; [repeat constructor|].
  intros b E. exists service, status. split; [done|]. cbn [snapshot state] in E.
  destruct (state_from_raw (dwCurrentState status)) eqn:Es; try done; apply (inj Ok) in E as <-.
  - by apply stopped_raw.
  - by apply running_raw.
Qed.

Lemma fixed_heeds known d :
  heeds P root known (observe_fixed_service root) (λ r new, Forall asks new ∧
    (r = ServiceAbsent → ∃ a, new = [Called (opening QueryStatusAndConfigAccess) a] ∧ name_unknown a) ∧
    (r = OwnedRunning ∨ r = OwnedStopped → ∃ service raw config,
       Called (QueryServiceConfigW service) (Ok raw) ∈ new ∧ parse_config raw = Ok config ∧
       owned_service_identity config root = true)) d.
Proof.
  unfold observe_fixed_service, open_service, open_named_service, scm_open. apply heeds_asked; [auto with heed|].
  intros a d1 _. cbn [learn]. destruct a as [service|e].
  2: { destruct (has_code e _) eqn:E; apply heeds_ret; (split; [repeat constructor|split; [|by intros [|]]]); [|done].
       intros _. eexists. split; [done|]. by exists e. }
  unfold service_config. apply heeds_asked; [auto with heed|]. intros a d2 _.
  destruct (result_bind a parse_config) as [config|e] eqn:Ec;
    [|apply heeds_ret; split; [repeat constructor|split; [done|by intros [|]]]].
  unfold service_status. apply heeds_asked; [auto with heed|]. intros status d3 _. apply heeds_ret.
  split; [repeat constructor|]. unfold classify_fixed_service.
  destruct (owned_service_identity config root) eqn:Eo; cbn [negb]; [|split; [done|by intros [|]]].
  destruct a as [raw|]; [|done]. split; [by repeat case_match|]. intros _. exists service, raw, config. split; [set_solver|done].
Qed.

Lemma legacy_heeds known d :
  heeds P root known observe_legacy_service (λ r new, Forall asks new ∧
    (r = Clear → ∃ a, Called (OpenServiceW LEGACY_SERVICE_NAME (service_rights QueryStatusAccess)) a ∈ new ∧ name_unknown a)) d.
Proof.
  unfold observe_legacy_service, open_named_service, scm_open. apply heeds_asked; [auto with heed|]. intros a d1 _.
  apply heeds_ret. split; [repeat constructor|]. destruct a as [service|e]; [done|].
  destruct (has_code e _) eqn:E; [|done]. intros _. exists (Err e). split; [apply list_elem_of_here|]. by exists e.
Qed.

Lemma points_heeds known binary d :
  heeds P root known (owned_service_points_to root binary) (λ r new, Forall asks new ∧
    (r = Ok true → ∃ service raw config image, Called (QueryServiceConfigW service) (Ok raw) ∈ new ∧
       parse_config raw = Ok config ∧ quoted_image_path binary = Ok image ∧
       eq_ignore_ascii_case (image_path config) image = true)) d.
Proof.
  unfold owned_service_points_to. apply open_heeds; [|by split; [repeat constructor|]]. intros a opened d1 _ _ _.
  destruct opened as [service|]; [|by apply heeds_ret; split; [repeat constructor|]].
  apply owned_heeds; [|by split; [repeat constructor|]]. intros raw config d2 _ _ _.
  apply config_heeds; [|by split; [repeat constructor|]]. intros raw2 config2 d3 _ Ec.
  apply heeds_pure; [|by split; [repeat constructor|]]. intros image Ei. apply heeds_ret. split; [repeat constructor|].
  intros E%(inj Ok). exists service, raw2, config2, image. split; [set_solver|done].
Qed.

(** ** Installing and configuring *)

Lemma unheard_bind {A B} (m : M Disk A) (k : A → M Disk B) Q R :
  unheard P m Q → (∀ a, Q a → unheard P (k a) R) → unheard P (bind m k) R.
Proof.
  intros Hm Hk d. eapply spec_bind; [apply Hm|]. intros a d' _ (Hn & Ha & HQ).
  eapply spec_post; [by apply Hk|]. intros b d'' _ (Hn' & Ha' & HR). split_and!; [congruence|congruence|done].
Qed.

Lemma unheard_ret {A} (a : A) (Q : A → Prop) : Q a → unheard P (ret a) Q.
Proof. intros HQ d. by apply spec_ret. Qed.

Lemma canonicalize_unheard p : unheard P (canonicalize p) (λ _, True).
Proof. intros d. split; [|done]. apply run_still; [done|done|later]. Qed.

Lemma is_file_unheard p : unheard P (is_file p) (λ _, True).
Proof.
  apply unheard_quiet; [|apply silent_is_file]. intros d. unfold is_file, fs_metadata.
  eapply spec_bind; [apply os_read_spec|]. intros r d' _ [Hn _]. by apply spec_ret.
Qed.

(** A program that is accepted is quoted, and below the protected root. *)
Lemma validate_unheard binary :
  unheard P (validate_service_binary root binary) (λ r, r = Ok tt → ∃ image,
    quoted_image_path binary = Ok image ∧ service_image_matches_protected_layout root image = true).
Proof.
  unfold validate_service_binary. apply (unheard_bind _ _ (λ r, r = quoted_image_path binary)); [by apply unheard_ret|].
  intros r ->. destruct (quoted_image_path binary) as [image|e]; [|by apply unheard_ret].
  apply (unheard_bind _ _ (λ b, b = true → service_image_matches_protected_layout root image = true)).
  - unfold service_image_matches_protected_contract.
    destruct (service_image_matches_protected_layout root image) eqn:El; cbn [negb]; [|by apply unheard_ret].
    destruct (service_binary_from_image_path image) as [text|]; [|by apply unheard_ret].
    eapply unheard_bind; [apply is_file_unheard|]. intros [] _; cbn [negb]; [|by apply unheard_ret].
    eapply unheard_bind; [apply canonicalize_unheard|]. intros [top|e] _; [|by apply unheard_ret].
    eapply unheard_bind; [apply canonicalize_unheard|]. intros c _. by apply unheard_ret.
  - intros b Hb. apply unheard_ret. destruct b; [|done]. intros _. exists image. auto.
Qed.

Lemma metadata_heeds known service plan d :
  service ∈ known →
  heeds P root known (apply_metadata_configuration service plan) (λ r new, no_deletion new) d.
Proof.
  intros Hk. revert known Hk d. induction plan as [|operation plan IH]; intros known Hk d; cbn [apply_metadata_configuration].
  { apply heeds_ret. constructor. }
  eapply (heeds_try _ _ _ _ _ (λ _ new, no_deletion new)).
  - unfold apply_metadata. destruct operation as [text|reset_period delays|enabled].
    + unfold lift_io, set_description.
      eapply (heeds_bind _ _ _ _ _ (λ _ new, no_deletion new)); [|intros r new d' _ Hn; apply heeds_ret; by rewrite app_nil_r].
      apply heeds_pure; [|constructor]. intros [] _. unfold heeds.
      eapply hears_mono; [apply hears_windows|]. intros r new ->. split; [split; [by intros s [= <-]|done]|by repeat constructor].
    + unfold lift_io, set_restart_actions. apply heeds_call; [by intros s [= <-]|]. intros r d' _. apply heeds_ret. by repeat constructor.
    + unfold lift_io, set_failure_actions_on_non_crash_failures. apply heeds_call; [by intros s [= <-]|]. intros r d' _. apply heeds_ret. by repeat constructor.
  - intros [] new d' _ Hn. eapply heeds_mono; [apply IH; by apply learned_mono|]. intros r rest Hr. by apply Forall_app.
  - done.
Qed.

(** Only a service that was created a moment ago is deleted by an installation. *)
Definition install_shown (binary : Path) (r : result unit SetupError) (calls : list Answered) : Prop :=
  (∀ service a, Called (DeleteService service) a ∈ calls → ∃ image,
     quoted_image_path binary = Ok image ∧ service_image_matches_protected_layout root image = true ∧
     Called (CreateServiceW effective_service_name SERVICE_DISPLAY_NAME SERVICE_ALL_ACCESS SERVICE_WIN32_OWN_PROCESS
       SERVICE_AUTO_START SERVICE_ERROR_NORMAL image None None None) (Ok service) ∈ calls).

Lemma no_deletion_installed binary r calls : no_deletion calls → install_shown binary r calls.
Proof. intros Hn service a (before & after & ->)%list_elem_of_split. by eapply no_deletion_split in Hn. Qed.

Lemma install_heeds known binary d : heeds P root known (install root binary) (install_shown binary) d.
Proof.
  unfold install. eapply heeds_unheard_try; [apply validate_unheard| |by intros; apply no_deletion_installed; constructor].
  intros [] d1 _ Hv. destruct (Hv eq_refl) as (image & Ei & El).
  apply open_heeds; [|by intros; apply no_deletion_installed; repeat constructor]. intros a opened d2 _ _ _.
  destruct opened as [service|]; [by apply heeds_ret; apply no_deletion_installed; repeat constructor|].
  apply heeds_pure; [|by intros; apply no_deletion_installed; repeat constructor]. intros image' Ei'.
  rewrite Ei in Ei'. apply (inj Ok) in Ei' as <-.
  unfold create_own_process_auto_start. apply heeds_call_try; [auto with heed| |by intros; apply no_deletion_installed; repeat constructor].
  intros service d3 _. cbn [learn]. eapply heeds_bind; [apply metadata_heeds; set_solver|]. intros configured new d4 _ Hn.
  destruct configured as [[]|e].
  { apply heeds_ret. rewrite app_nil_r. apply no_deletion_installed. by do 2 (constructor; [done|]). }
  unfold service_delete. apply heeds_call; [auto with heed|]. intros a' d5 _. apply heeds_ret.
  intros service' a'' (before & after & E)%list_elem_of_split.
  change (?x :: ?y :: ?l) with ([x; y] ++ l) in E. rewrite app_assoc in E.
  apply one_deletion in E as [_ ->]; [|apply Forall_app; split; [repeat constructor|done]|constructor].
  exists image. split_and!; [done|done|set_solver].
Qed.

(** Configuring up to the note in the event log: the fields that had to be repaired. *)
Definition configure_owned (service_binary : Path) : M Disk (result (list string) SetupError) :=
  let? _ := validate_service_binary root service_binary in
  let? service := open_installed ReconfigureAccess in
  let? _ := ensure_owned root service in
  let? before := lift_io (service_config service) in
  let? image := ret (quoted_image_path service_binary) in
  let? _ := lift_io (set_image_and_display_name service image SERVICE_DISPLAY_NAME) in
  let? _ := lift_io (restore_owned_mutable_configuration service) in
  let? _ := with_err (at_machine_path "configure service recovery metadata" service_binary) (configure_metadata service) in
  let? after := lift_io (service_config service) in
  ret (if negb (owned_service_identity after root)
       then Err (Runtime "service reconfiguration left an identity mismatch")
       else if negb (service_configuration_matches_owned_contract root after)
       then Err (Runtime ("service reconfiguration left configuration drift: "
              ++ String.concat "," (field_names (service_configuration_drift after))))
       else Ok (field_names (service_configuration_drift before))).

Lemma try_cong {A B E} (m : M Disk (result A E)) (k k' : A → M Disk (result B E)) d :
  (∀ a d', k a d' = k' a d') → (let? x := m in k x) d = (let? x := m in k' x) d.
Proof. intros Hk. unfold bind. destruct (m d) as [[[a|e] d']|]; [apply Hk|done|done]. Qed.

Lemma try_assoc {A B C E} (m : M Disk (result A E)) (k : A → M Disk (result B E)) (f : B → M Disk (result C E)) d :
  (let? y := (let? x := m in k x) in f y) d = (let? x := m in let? y := k x in f y) d.
Proof. unfold bind. by destruct (m d) as [[[a|e] d']|]. Qed.

Lemma reconfigure_eq binary d :
  reconfigure root binary d =
  (let? fields := configure_owned binary in
   let! _ := match fields with [] => ret tt | _ => service_configuration_repaired fields end in ret (Ok tt)) d.
Proof.
  unfold reconfigure, configure_owned. do 8 (rewrite try_assoc; apply try_cong; intros ? ?).
  rewrite try_assoc. apply try_cong. intros after d1.
  destruct (negb (owned_service_identity after root)); [done|].
  by destruct (negb (service_configuration_matches_owned_contract root after)).
Qed.

Definition configure_shown (binary : Path) (ok : bool) (calls : list Answered) : Prop :=
  no_deletion calls ∧ (ok = true → ∃ service image raw config,
    quoted_image_path binary = Ok image ∧ service_image_matches_protected_layout root image = true ∧
    Called (ChangeServiceConfigW service SERVICE_NO_CHANGE SERVICE_AUTO_START SERVICE_NO_CHANGE
      (Some image) None None None (Some SERVICE_DISPLAY_NAME)) (Ok tt) ∈ calls ∧
    last calls = Some (Called (QueryServiceConfigW service) (Ok raw)) ∧ parse_config raw = Ok config ∧
    service_configuration_matches_owned_contract root config = true).

Lemma undeleted_configure binary calls : no_deletion calls → configure_shown binary false calls.
Proof. by split. Qed.

Lemma configure_heeds known binary d :
  heeds P root known (configure_owned binary) (λ r, configure_shown binary (is_ok r)) d.
Proof.
  unfold configure_owned. eapply heeds_unheard_try; [apply validate_unheard| |by intros; apply undeleted_configure; constructor].
  intros [] d1 _ Hv. destruct (Hv eq_refl) as (image & Ei & El).
  apply installed_heeds; [|by intros; apply undeleted_configure; repeat constructor]. intros a service d2 _.
  apply owned_heeds; [|by intros; apply undeleted_configure; repeat constructor]. intros raw config d3 _ _ _.
  apply config_heeds; [|by intros; apply undeleted_configure; repeat constructor]. intros raw2 before d4 _ _.
  apply heeds_pure; [|by intros; apply undeleted_configure; repeat constructor]. intros image' Ei'.
  rewrite Ei in Ei'. apply (inj Ok) in Ei' as <-.
  unfold set_image_and_display_name. apply heeds_call_try; [intros s [= <-]; set_solver| |by intros; apply undeleted_configure; repeat constructor].
  intros [] d5 _. unfold restore_owned_mutable_configuration.
  apply heeds_call_try; [intros s [= <-]; set_solver| |by intros; apply undeleted_configure; repeat constructor]. intros [] d6 _.
  eapply (heeds_try _ _ _ _ _ (λ _ new, no_deletion new)).
  { unfold with_err. eapply heeds_bind; [apply metadata_heeds; set_solver|]. intros r new d' _ Hn. apply heeds_ret. by rewrite app_nil_r. }
  2: { intros e new Hn. apply undeleted_configure. by do 5 (constructor; [done|]). }
  intros [] new d7 _ Hn. unfold service_config. unfold lift_io at 1.
  apply config_heeds.
  2: { intros. apply undeleted_configure. do 5 (constructor; [done|]). apply Forall_app. split; [done|repeat constructor]. }
  intros raw3 after d8 _ Ep. apply heeds_ret.
  assert (no_deletion (Called (OpenServiceW effective_service_name (service_rights ReconfigureAccess)) a
    :: Called (QueryServiceConfigW service) (Ok raw) :: Called (QueryServiceConfigW service) (Ok raw2)
    :: Called (ChangeServiceConfigW service SERVICE_NO_CHANGE SERVICE_AUTO_START SERVICE_NO_CHANGE
         (Some image) None None None (Some SERVICE_DISPLAY_NAME)) (Ok tt)
    :: Called (ChangeServiceConfigW service SERVICE_NO_CHANGE SERVICE_NO_CHANGE SERVICE_ERROR_NORMAL None
         (Some "") (Some []) None None) (Ok tt)
    :: new ++ [Called (QueryServiceConfigW service) (Ok raw3)])) as Hnd.
  { do 5 (constructor; [done|]). apply Forall_app. split; [done|repeat constructor]. }
  destruct (negb (owned_service_identity after root)); [by apply undeleted_configure|].
  destruct (service_configuration_matches_owned_contract root after) eqn:Em; cbn [negb]; [|by apply undeleted_configure].
  split; [done|]. intros _. exists service, image, raw3, after. split_and!; try done.
  - do 3 apply list_elem_of_further. apply list_elem_of_here.
  - by rewrite !app_comm_cons, last_snoc.
Qed.
End Operations.
