(* ===== verification/ServiceManagerSafety.v ===== *)
(** * What the service manager guarantees

    The theorems on [ServiceManager]: in any world, whatever the service control manager
    answers, every sequence of operations ends and changes no service that did not prove
    to be the installer's own; a stop, a start, a removal and a reconfiguration that
    succeed were seen to have happened; and a service that does stop in time is stopped. *)

From S2P Require Export ServiceManagerFacts.

(** ** Sequences of operations *)

Inductive Operation :=
| Install (binary : Path)
| Reconfigure (binary : Path)
| StartReady (digest : option string)
| AskRunning
| Stop
| Remove
| ObserveFixed
| ObserveLegacy
| AskPointsTo (binary : Path).

Definition ends {A : Type} (m : M Disk A) : M Disk unit := let! _ := m in ret tt.

Section Guarantees.
Context `{World, Windows, EventJson, !Setup, HealthJson, DebugFormat, BuildFeatures} (root : Path).

Definition perform (op : Operation) : M Disk unit :=
  match op with
  | Install binary => ends (install root binary)
  | Reconfigure binary => ends (reconfigure root binary)
  | StartReady digest => ends (start_and_wait_ready_for root digest)
  | AskRunning => ends (is_running root)
  | Stop => ends (stop root)
  | Remove => ends (remove root)
  | ObserveFixed => ends (observe_fixed_service root)
  | ObserveLegacy => ends observe_legacy_service
  | AskPointsTo binary => ends (owned_service_points_to root binary)
  end.

Fixpoint perform_all (ops : list Operation) : M Disk unit :=
  match ops with
  | [] => ret tt
  | op :: ops => let! _ := perform op in perform_all ops
  end.

(** [m] ends, whatever is answered; [Q] holds of its answer and its calls, which heed
    the guard. *)
Definition obeys {A : Type} (known : list Handle) (m : M Disk A) (Q : A → list Answered → Prop) (d : Disk) : Prop :=
  spec (λ _, True) m (λ a d', ∃ new, answered d' = answered d ++ new ∧ guarded root known new ∧ Q a new) d.

Lemma heeds_obeys {A} known (m : M Disk A) Q d : heeds (λ _, True) root known m Q d → obeys known m Q d.
Proof. intros Hm. eapply spec_post; [exact Hm|]. by intros a d' _ (_ & new & E & ? & ?); exists new. Qed.

Lemma obeys_mono {A} known (m : M Disk A) (Q Q' : A → list Answered → Prop) d :
  obeys known m Q d → (∀ a new, Q a new → Q' a new) → obeys known m Q' d.
Proof. intros Hm HQ. eapply spec_post; [exact Hm|]. intros a d' _ (new & E & ? & ?). exists new. auto. Qed.

Lemma obeys_bind {A B} known (m : M Disk A) (k : A → M Disk B) Q R d :
  obeys known m Q d →
  (∀ a new d', Q a new → obeys (learned root known new) (k a) (λ b rest, R b (new ++ rest)) d') →
  obeys known (bind m k) R d.
Proof.
  intros Hm Hk. eapply spec_bind; [exact Hm|]. intros a d' _ (new & E & Hg & HQ).
  eapply spec_post; [by apply (Hk a new d')|]. intros b d'' _ (rest & E' & Hg' & HR).
  exists (new ++ rest). split; [by rewrite E', E, app_assoc|]. split; [by apply guarded_app|done].
Qed.

Lemma obeys_ret {A} known (a : A) (Q : A → list Answered → Prop) d : Q a [] → obeys known (ret a) Q d.
Proof. intros HQ. apply spec_ret. exists []. by rewrite app_nil_r. Qed.

(** The note in the event log ends and asks for nothing. *)
Lemma obeys_repaired known fields (Q : unit → list Answered → Prop) d :
  Q tt [] → obeys known (service_configuration_repaired fields) Q d.
Proof.
  intros HQ. pose proof (leaves_write_event (λ _, False) ltac:(done) Notice "service-configuration-repaired"
    [("fields", String.concat "," fields)%string] None [] d) as Hl.
  fold (service_configuration_repaired fields) in Hl. unfold obeys, spec, wp in *.
  destruct (service_configuration_repaired fields d) as [[[] d']|] eqn:E; [|done]. destruct Hl as [Hr _].
  split; [by eapply run_mono|]. exists []. rewrite app_nil_r. split; [by eapply silent_repaired|done].
Qed.

Lemma reconfigure_obeys known binary d :
  obeys known (reconfigure root binary) (λ r, configure_shown root binary (is_ok r)) d.
Proof.
  unfold obeys, spec, wp. rewrite reconfigure_eq.
  change (obeys known (let? fields := configure_owned root binary in
    let! _ := match fields with [] => ret tt | _ => service_configuration_repaired fields end in ret (Ok tt))
    (λ r, configure_shown root binary (is_ok r)) d).
  eapply obeys_bind; [apply heeds_obeys, configure_heeds|]. intros [fields|e] new d' Hs.
  - apply (obeys_bind _ _ _ (λ _ rest, rest = [])); [destruct fields; [by apply obeys_ret|by apply obeys_repaired]|].
    intros [] rest d'' ->. apply obeys_ret. by rewrite app_nil_r.
  - apply obeys_ret. by rewrite app_nil_r.
Qed.

Lemma perform_obeys known op d : obeys known (perform op) (λ _ _, True) d.
Proof.
  assert (∀ A (m : M Disk A) Q, obeys known m Q d → obeys known (ends m) (λ _ _, True) d) as Hends.
  { intros A m Q Hm. eapply obeys_bind; [exact Hm|]. intros. by apply obeys_ret. }
  destruct op; cbn [perform]; eapply Hends;
    first [apply reconfigure_obeys|apply heeds_obeys].
  - apply install_heeds.
  - apply start_heeds.
  - apply running_heeds.
  - apply stop_heeds.
  - apply remove_heeds.
  - apply fixed_heeds.
  - apply legacy_heeds.
  - apply points_heeds.
Qed.

Lemma perform_all_obeys known ops d : obeys known (perform_all ops) (λ _ _, True) d.
Proof.
  revert known d. induction ops as [|op ops IH]; intros known d; cbn [perform_all]; [by apply obeys_ret|].
  eapply obeys_bind; [apply perform_obeys|]. intros [] new d' _. apply IH.
Qed.

(** The service is the installer's own: its configuration was read and says so, or the
    installer created it. *)
Definition proved_own (service : Handle) (calls : list Answered) : Prop :=
  (∃ raw config, Called (QueryServiceConfigW service) (Ok raw) ∈ calls ∧ parse_config raw = Ok config ∧
     owned_service_identity config root = true) ∨
  (∃ name display rights kind start control image group dependencies account,
     Called (CreateServiceW name display rights kind start control image group dependencies account) (Ok service) ∈ calls).

Lemma learned_own service calls : service ∈ learned root [] calls → proved_own service calls.
Proof.
  unfold learned, proved_own. cbn [app]. intros Hs. apply list_elem_of_In, in_concat in Hs as (k & Hk & Hs).
  apply in_map_iff in Hk as (e & <- & He). apply list_elem_of_In in Hs, He.
  destruct e as [A c a]. cbn [learn] in Hs. destruct c; try (by apply not_elem_of_nil in Hs); destruct a as [x|]; try (by apply not_elem_of_nil in Hs).
  - apply list_elem_of_singleton in Hs as ->. right. by do 10 eexists.
  - destruct (parse_config x) as [config|] eqn:Ep; [|by apply not_elem_of_nil in Hs].
    destruct (owned_service_identity config root) eqn:Eo; [|by apply not_elem_of_nil in Hs].
    apply list_elem_of_singleton in Hs as ->. left. by exists x, config.
Qed.

(** C11. A foreign service is never changed.  Whatever the service control manager answers
    and however long it takes, every sequence of operations ends; and no service is
    started, controlled or configured unless its configuration was read before and proved
    that it is the installer's own, or the installer had created it. *)
Theorem foreign_service_is_never_changed ops d :
  ∃ d' calls, perform_all ops d = Some (tt, d') ∧ answered d' = answered d ++ calls ∧
    ∀ before A (c : WindowsCall A) a after service,
      calls = before ++ Called c a :: after → changes c = Some service → proved_own service before.
Proof.
  destruct (spec_runs _ _ _ _ (perform_all_obeys [] ops d)) as ([] & d' & E & _ & calls & Ec & Hg & _).
  exists d', calls. split_and!; [done|done|]. intros before A c a after service Es Hc. apply learned_own.
  by eapply (proj1 (guarded_spec _ _ _) Hg).
Qed.

Lemma obeys_run {A} known (m : M Disk A) Q d :
  obeys known m Q d → ∃ a d' calls, m d = Some (a, d') ∧ answered d' = answered d ++ calls ∧ Q a calls.
Proof. intros Hm. destruct (spec_runs _ _ _ _ Hm) as (a & d' & E & _ & calls & Ec & _ & HQ). by exists a, d', calls. Qed.

(** C14. A service is deleted only after all of this, in this order: its configuration
    proved to be the installer's own, its configuration was read, the service was stopped,
    and the configuration that is read from the service about to be deleted is the one
    read before.  Stopped means, in this order again: there is no such service, or one was
    opened, proved to be owned and stood still; or a look found it in a process, that
    process was opened, a second look found the service in no other process, it was asked
    to stop, every look that followed found it in no other process and the last one that
    it stood still, and the opened process was seen to exit.  A removal succeeds only
    when a name was looked up and there was no such service, and it always ends. *)
Theorem removal_deletes_only_the_verified_service d :
  ∃ r d' calls, remove root d = Some (r, d') ∧ answered d' = answered d ++ calls ∧
    removal_shown root r calls.
Proof. eapply obeys_run, heeds_obeys, (remove_heeds _ _ []). Qed.

(** C15. A stop that succeeds has happened: there is no such service; or it was opened,
    proved to be owned and stood still already; or the very process that ran it was seen
    to exit.  For that, in this order: a look at the service reported the identity of its
    process; the process of that identity was opened; a second look found the service in
    no other process; only then the service was asked to stop; every later look found it
    in no other process, the last one that it stood still; and the wait for the opened
    process reported its end.  A stop always ends. *)
Theorem stop_is_seen_to_its_end d :
  ∃ r d' calls, stop root d = Some (r, d') ∧ answered d' = answered d ++ calls ∧ (r = Ok tt → stop_shown root calls).
Proof.
  destruct (obeys_run _ _ _ _ (heeds_obeys _ _ _ _ (stop_heeds _ root [] d))) as (r & d' & calls & E & Ec & _ & Hs).
  by exists r, d', calls.
Qed.

(** C16. A start that succeeds was confirmed by the service itself: the service control
    manager reported it running in a process, and that very process served a valid report
    of readiness, for the profile that was asked for.  A start always ends. *)
Theorem start_is_confirmed_by_the_service digest d :
  ∃ r d' calls, start_and_wait_ready_for root digest d = Some (r, d') ∧ answered d' = answered d ++ calls ∧
    (r = Ok tt → start_shown digest calls).
Proof.
  destruct (obeys_run _ _ _ _ (heeds_obeys _ _ _ _ (start_heeds _ root [] digest d))) as (r & d' & calls & E & Ec & _ & Hs).
  by exists r, d', calls.
Qed.

(** A reconfiguration that succeeds has set the image path of the given program, which
    is one of the protected directory, and the last thing it saw is the configuration of
    the service, free of any drift from the fixed contract; it always ends and deletes no
    service. *)
Theorem reconfiguration_restores_the_contract binary d :
  ∃ r d' calls, reconfigure root binary d = Some (r, d') ∧ answered d' = answered d ++ calls ∧
    configure_shown root binary (is_ok r) calls.
Proof. eapply obeys_run, (reconfigure_obeys []). Qed.
End Guarantees.

(** ** A service that does stop *)

Section Stopping.
Context `{World, Windows, EventJson, !Setup, HealthJson, DebugFormat, BuildFeatures} (root : Path).

(** The service is the installer's own and runs in one process until [t], when it stops;
    a process that has ended may be gone, and a service that has stopped may say so. *)
Record stops_at (service pid process : Handle) (t : N) : Prop := {
  name_known d name rights : reply d (OpenServiceW name rights) = Ok service;
  identity_owned d : ∃ raw config,
    reply d (QueryServiceConfigW service) = Ok raw ∧ parse_config raw = Ok config ∧ owned_service_identity config root = true;
  active_before d : (clock d < t)%N →
    ∃ raw, reply d (QueryServiceStatusEx service) = Ok raw ∧ dwCurrentState raw ≠ 1%N ∧ dwProcessId raw = pid;
  stopped_after d : (t <= clock d)%N →
    ∃ raw, reply d (QueryServiceStatusEx service) = Ok raw ∧ dwCurrentState raw = 1%N;
  pid_is_one : pid ≠ 0%N;
  process_opens d : reply d (OpenProcess SYNCHRONIZE pid) = Ok process ∨
    (t <= clock d)%N ∧ ∃ e, reply d (OpenProcess SYNCHRONIZE pid) = Err e ∧ has_code e ERROR_INVALID_PARAMETER = true;
  stop_accepted d : reply d (ControlService service SERVICE_CONTROL_STOP) = Ok tt ∨
    (t <= clock d)%N ∧ ∃ e, reply d (ControlService service SERVICE_CONTROL_STOP) = Err e ∧ has_code e ERROR_SERVICE_NOT_ACTIVE = true;
  process_exits d ms : (t <= clock d)%N → reply d (WaitForSingleObject process ms) = Ok WAIT_OBJECT_0
}.

(** [m] ends with an answer and a time that satisfy [Q]. *)
Definition live {A : Type} (m : M Disk A) (Q : A → N → Prop) (d : Disk) : Prop :=
  ∃ a d', m d = Some (a, d') ∧ (clock d <= clock d')%N ∧ Q a (clock d').

Lemma live_ret {A} (a : A) (Q : A → N → Prop) d : Q a (clock d) → live (ret a) Q d.
Proof. intros HQ. exists a, d. split_and!; [done|lia|done]. Qed.

Lemma live_bind {A B} (m : M Disk A) (k : A → M Disk B) Q R d :
  live m Q d → (∀ a d', (clock d <= clock d')%N → Q a (clock d') → live (k a) R d') → live (bind m k) R d.
Proof.
  intros (a & d1 & E & Hc & HQ) Hk. destruct (Hk a d1 Hc HQ) as (b & d2 & E2 & Hc2 & HR).
  exists b, d2. unfold bind. rewrite E. split_and!; [done|lia|done].
Qed.

Lemma live_mono {A} (m : M Disk A) (Q Q' : A → N → Prop) d : live m Q d → (∀ a n, Q a n → Q' a n) → live m Q' d.
Proof. intros (a & d' & ? & ? & ?) HQ. exists a, d'. auto. Qed.

Lemma live_ok {A B E} (a : A) (k : A → M Disk (result B E)) Q d : live (k a) Q d → live (let? x := ret (Ok a) in k x) Q d.
Proof. done. Qed.

Lemma live_now {B} (k : N → M Disk B) Q d : live (k (clock d)) Q d → live (bind instant_now k) Q d.
Proof. done. Qed.

Lemma live_windows {A} (c : WindowsCall A) (Q : A → N → Prop) d :
  (∀ d1, (clock d <= clock d1)%N → Q (reply d1 c) (clock d1)) → live (windows c) Q d.
Proof.
  intros HQ. set (d1 := pass_time (elapsed (calls d)) (next_call d)).
  exists (reply d1 c), (remember (Called c (reply d1 c)) d1).
  assert (clock d <= clock d1)%N as Hc by (cbn; lia). split_and!; [done|done|exact (HQ d1 Hc)].
Qed.

Lemma live_asked {A B} (c : WindowsCall A) (f : A → B) (Q : B → N → Prop) d :
  (∀ d1, (clock d <= clock d1)%N → Q (f (reply d1 c)) (clock d1)) → live (bind (windows c) (λ r, ret (f r))) Q d.
Proof.
  intros HQ. apply (live_bind _ _ (λ a now, Q (f a) now)); [by apply live_windows|]. intros a d1 _ ?. by apply live_ret.
Qed.

Context (service pid process : Handle) (t : N) (Hstops : stops_at service pid process t).

(** A look at the service sees its process until [t] and that it stopped after it. *)
Lemma live_status {C} (k : ServiceStatusSnapshot → M Disk (result C SetupError)) Q d :
  (∀ status d1, (clock d <= clock d1)%N → process_capture_target status = Ok (Pid pid) → (clock d1 < t)%N → live (k status) Q d1) →
  (∀ status d1, (clock d <= clock d1)%N → process_capture_target status = Ok AlreadyStopped → (t <= clock d1)%N → live (k status) Q d1) →
  live (let? status := lift_io (service_status service) in k status) Q d.
Proof.
  intros Hrun Hstop. eapply (live_bind _ _ (λ r now, ∃ status, r = Ok status ∧
    (process_capture_target status = Ok (Pid pid) ∧ (now < t)%N ∨ process_capture_target status = Ok AlreadyStopped ∧ (t <= now)%N))).
  - unfold lift_io, service_status. eapply (live_bind _ _ (λ r now, ∃ status, r = Ok status ∧
      (process_capture_target status = Ok (Pid pid) ∧ (now < t)%N ∨ process_capture_target status = Ok AlreadyStopped ∧ (t <= now)%N))).
    + apply live_asked. intros d1 _. destruct (N.lt_ge_cases (clock d1) t) as [Hl|Hl].
      * destruct (active_before _ _ _ _ Hstops _ Hl) as (raw & -> & Hs & Hp). exists (snapshot raw). split; [done|]. left. split; [|done].
        unfold process_capture_target. cbn [snapshot state snapshot_process_id]. rewrite bool_decide_false by (by rewrite stopped_raw).
        rewrite Hp. by rewrite (proj2 (N.eqb_neq _ _) (pid_is_one _ _ _ _ Hstops)).
      * destruct (stopped_after _ _ _ _ Hstops _ Hl) as (raw & -> & Hs). exists (snapshot raw). split; [done|]. right. split; [|done].
        by apply capture_target_stopped, stopped_raw.
    + intros r d1 _ (status & -> & Hs). apply live_ret. by exists status.
  - intros r d1 Hc (status & -> & [[Ht Hl]|[Ht Hl]]); auto.
Qed.

Lemma live_capture fuel deadline d :
  live (capture_service_process (S fuel) service deadline) (λ r _, r = Ok None ∨ r = Ok (Some (pid, process))) d.
Proof.
  cbn [capture_service_process]. apply live_status; intros status d1 Hc1 Ht Hl; rewrite Ht; [|by apply live_ret; left].
  apply live_ok.
  eapply (live_bind _ _ (λ opened now, opened = Ok process ∨ (t <= now)%N ∧ ∃ e, opened = Err e ∧ has_code e ERROR_INVALID_PARAMETER = true)).
  - apply live_windows. intros d2 _. apply (process_opens _ _ _ _ Hstops).
  - intros opened d2 Hc2 [->|(Ht2 & e & -> & Hcode)].
    + apply live_status; intros again d3 Hc3 Ht3 Hl3; unfold observe_process_identity; rewrite Ht3; cbn [result_bind];
        [rewrite N.eqb_refl|]; apply live_ret; by right.
    + rewrite Hcode. apply live_status; intros again d3 Hc3 Ht3 Hl3; [lia|].
      unfold observe_process_identity. rewrite Ht3. apply live_ret. by left.
Qed.

Lemma live_retry {B} deadline pause text (k : unit → M Disk (result B SetupError)) Q d :
  (clock d < deadline)%N → live (k tt) Q (pass_time (N.min (saturating_sub deadline (clock d)) pause) d) →
  live (let? x := wait_before_retry deadline pause text in k x) Q d.
Proof.
  intros Hd (b & d' & E & Hc & HQ). exists b, d'. split_and!; [|cbn in Hc; lia|done].
  unfold saturating_sub in *. unfold wait_before_retry, instant_now, bind, gets, saturating_sub.
  rewrite (proj2 (N.eqb_neq (deadline - clock d) 0)) by lia. exact E.
Qed.

Lemma live_stopped fuel deadline d :
  (t <= deadline)%N → lasts fuel POLL_PAUSE deadline d →
  live (wait_for_stopped_process fuel service pid deadline) (λ r now, r = Ok tt ∧ (t <= now)%N) d.
Proof.
  intros Hd. revert d. induction fuel as [|fuel IH]; intros d Hlast; [by destruct Hlast as (n & ? & _)|].
  cbn [wait_for_stopped_process]. apply live_status; intros status d1 Hc1 Ht Hl.
  - assert (stopping_process_is_complete pid status = Ok false) as ->.
    { unfold stopping_process_is_complete, observe_process_identity. rewrite Ht. cbn [result_bind]. by rewrite N.eqb_refl. }
    apply live_ok. apply live_retry; [lia|]. apply IH, lasts_next; [by eapply lasts_later|lia].
  - assert (stopping_process_is_complete pid status = Ok true) as ->.
    { unfold stopping_process_is_complete, observe_process_identity. by rewrite Ht. }
    apply live_ok. by apply live_ret.
Qed.

(** C17. A service that stops is stopped: when the service is the installer's own and stops
    by itself within the thirty seconds of the timeout, then the stop succeeds, however
    long the calls take. *)
Theorem a_service_that_stops_is_stopped d :
  (t <= clock d + STATE_TIMEOUT)%N → ∃ d', stop root d = Some (Ok tt, d').
Proof.
  intros Ht. enough (live (stop root) (λ r _, r = Ok tt) d) as (r & d' & E & _ & ->) by (by exists d').
  unfold stop. eapply (live_bind _ _ (λ r _, r = Ok (Some service))).
  { unfold lift_io, open_service, open_named_service, scm_open.
    eapply (live_bind _ _ (λ r _, r = Ok (Some service))); [|intros r d1 _ ->; by apply live_ret].
    apply live_asked. intros d1 _. by rewrite (name_known _ _ _ _ Hstops). }
  intros r d1 Hc1 ->. eapply (live_bind _ _ (λ r _, r = Ok tt)).
  { unfold ensure_owned, lift_io, service_config.
    eapply (live_bind _ _ (λ r _, ∃ config, r = Ok config ∧ owned_service_identity config root = true)).
    - eapply (live_bind _ _ (λ r _, ∃ config, r = Ok config ∧ owned_service_identity config root = true)).
      + apply live_asked. intros d2 _. destruct (identity_owned _ _ _ _ Hstops d2) as (raw & config & -> & Ep & Eo). by exists config.
      + intros r d2 _ (config & -> & Eo). apply live_ret. by exists config.
    - intros r d2 _ (config & -> & Eo). rewrite Eo. by apply live_ret. }
  intros r d2 Hc2 ->. apply live_now. cbv zeta. 
  eapply live_bind; [apply live_capture|]. intros r d3 Hc3 [->| ->]; [by apply live_ret|]. cbv iota.
  eapply (live_bind _ _ (λ r now, ∃ outcome, r = Ok outcome)).
  { unfold lift_io, service_stop. eapply (live_bind _ _ (λ r _, ∃ outcome, r = Ok outcome)).
    - apply live_asked. intros d4 _. destruct (stop_accepted _ _ _ _ Hstops d4) as [->|(_ & e & -> & ->)]; by eexists.
    - intros r d4 _ [outcome ->]. apply live_ret. by eexists. }
  intros r d4 Hc4 [outcome ->]. eapply live_bind.
  { apply live_stopped; [|eapply lasts_later; [|apply lasts_polls; [done|reflexivity]]]; cbn [clock] in *; lia. }
  intros r d5 Hc5 [-> Ht5]. cbv iota. unfold wait_for_process_exit. apply live_now. cbv zeta.
  unfold handle_wait. eapply (live_bind _ _ (λ r _, r = Ok Signaled)).
  - apply live_asked. intros d6 Hc6. rewrite (process_exits _ _ _ _ Hstops) by lia. done.
  - intros r d6 _ ->. by apply live_ret.
Qed.
End Stopping.

(** ** A service that runs for a second *)

Definition example_image : string :=
  quoted (str_bytes "C:\Program Files\MacType Control Center\Service\bin\0.2.0\mactype-service.exe").

Definition example_raw_config : QUERY_SERVICE_CONFIGW :=
  {| dwServiceType := 16; dwStartType := 2; dwErrorControl := 1; lpBinaryPathName := Some example_image;
     lpLoadOrderGroup := Some ""; dwTagId := 0; lpDependencies := []; lpServiceStartName := Some "LocalSystem";
     lpDisplayName := Some SERVICE_DISPLAY_NAME |}.

Definition example_status (code : N) : SERVICE_STATUS_PROCESS :=
  {| dwCurrentState := code; dwProcessId := 77; dwWin32ExitCode := 0; dwServiceSpecificExitCode := 0 |}.

Definition example_reply (A : Type) (d : Disk) (c : WindowsCall A) : A :=
  match c in WindowsCall A return A with
  | OpenSCManagerW _ => Ok tt
  | OpenServiceW _ _ | CreateServiceW _ _ _ _ _ _ _ _ _ _ => Ok 1%N
  | QueryServiceStatusEx _ => Ok (example_status (if (clock d <? from_secs 1)%N then 4 else 1))
  | QueryServiceConfigW _ => Ok example_raw_config
  | StartServiceW _ | ControlService _ _ | DeleteService _ | ChangeServiceConfigW _ _ _ _ _ _ _ _ _
  | ChangeServiceConfig2W _ _ => Ok tt
  | OpenProcess _ _ => Ok 2%N
  | WaitForSingleObject _ _ => Ok WAIT_OBJECT_0
  | OpenPipe _ => Ok 3%N
  | GetNamedPipeServerProcessId _ => Ok 77%N
  | ReadPipe _ _ => Ok []
  | QueryServiceConfig2W _ _ => Err (plain_error "not asked for")
  | QueryServiceObjectSecurity _ _ => Ok []
  | SetServiceObjectSecurity _ _ _ => Ok tt
  end.

#[export] Instance example_windows : Windows := { reply := example_reply; canonical _ p := Ok p }.

#[export] Instance example_setup : @Setup example_world.
Proof.
  refine {| harden_machine_directory _ := ret (Ok tt);
            known_folder_path k := ret (Ok [match k with ProgramFilesFolder => "F:" | ProgramDataFolder => "D:" end]%string);
            current_executable := ret (Ok (str_bytes "F:\setup.exe"));
            system_time _ := 0%Z; lowercase := map to_ascii_lowercase; lossy_text := bytes_str;
            machine_folder k := [match k with ProgramFilesFolder => "F:" | ProgramDataFolder => "D:" end]%string |}.
  - intros p P d. by apply spec_ret.
  - intros k P d. apply spec_ret. split_and!; [done|done|]. by intros p <-%(inj Ok).
  - intros P d. by apply spec_ret.
Defined.

#[export] Instance example_debug_format : DebugFormat.
Proof. refine {| debug_strings l := pretty.pretty (Npos (encode l)) |}. Defined.

#[export] Instance example_features : BuildFeatures := { ci_test_adapter := false }.

Lemma example_stops : @stops_at example_windows example_root 1%N 77%N 2%N (from_secs 1).
Proof.
  split; try done; try (by intros; first [reflexivity|left]).
  - intros d. exists example_raw_config, {| service_type := 16; start_type := 2; error_control := 1; image_path := example_image;
      account := "LocalSystem"; service_display_name := SERVICE_DISPLAY_NAME; load_order_group := ""; tag_id := 0; dependencies := [] |}.
    split; [done|]. split; [done|]. by vm_compute.
  - intros d Hd. exists (example_status 4). split_and!; [|done|done]. cbn [reply example_windows example_reply].
    by rewrite (proj2 (N.ltb_lt _ _) Hd).
  - intros d Hd. exists (example_status 1). split; [|done]. cbn [reply example_windows example_reply].
    by rewrite (proj2 (N.ltb_ge _ _) Hd).
Qed.

Section Example.
#[local] Existing Instance example_event_json.
#[local] Instance no_health : HealthJson := { health_from_slice _ := None }.

Lemma a_service_that_stops_is_stopped_witness :
  (from_secs 1 <= clock (disk_of ∅) + STATE_TIMEOUT)%N ∧ ∃ d', stop example_root (disk_of ∅) = Some (Ok tt, d').
Proof.
  assert (from_secs 1 <= clock (disk_of ∅) + STATE_TIMEOUT)%N as Ht by (vm_compute; discriminate).
  split; [exact Ht|]. exact (a_service_that_stops_is_stopped example_root 1%N 77%N 2%N (from_secs 1) example_stops (disk_of ∅) Ht).
Defined.

(** The same stop, computed: it polls until the service has stopped. *)
Example stop_takes_a_second :
  match stop example_root (disk_of ∅) with
  | Some (Ok tt, d') => (from_secs 1 <=? clock d')%N && (clock d' <? from_secs 2)%N
  | _ => false
  end = true.
Proof. by vm_compute. Qed.

(** A removal reads the configuration it compares with in a call of its own, after the one
    that proved the identity: a service that is exchanged between the two, gone when it is
    to be stopped, and back when it is to be deleted, is deleted although it is foreign. *)
Definition config_reads (calls : list Answered) : nat :=
  length (omap (λ e, match e with Called (QueryServiceConfigW _) _ => Some tt | _ => None end) calls).

Definition example_foreign_config : QUERY_SERVICE_CONFIGW :=
  {| dwServiceType := 16; dwStartType := 2; dwErrorControl := 1; lpBinaryPathName := Some "C:\other.exe";
     lpLoadOrderGroup := None; dwTagId := 0; lpDependencies := []; lpServiceStartName := Some "LocalSystem";
     lpDisplayName := None |}.

Definition no_such_service : IoError :=
  {| not_found := false; raw_os_error := Some ERROR_SERVICE_DOES_NOT_EXIST; io_text := "no such service" |}.

Definition racing_reply (A : Type) (d : Disk) (c : WindowsCall A) : A :=
  match c in WindowsCall A return A with
  | OpenServiceW _ rights =>
      if (rights =? service_rights StopAccess)%N || existsb (λ e, match e with Called (DeleteService _) _ => true | _ => false end) (answered d)
      then Err no_such_service else Ok 1%N
  | QueryServiceConfigW _ =>
      Ok (match config_reads (answered d) with 0 => example_raw_config | _ => example_foreign_config end)
  | c => example_reply _ d c
  end.

Example exchanged_service_is_deleted :
  match @remove example_world {| reply := racing_reply; canonical _ p := Ok p |} _ _ example_root (disk_of ∅) with
  | Some (Ok tt, d') =>
      existsb (λ e, match e with Called (DeleteService _) _ => true | _ => false end) (answered d')
      && forallb (λ e, match e with
                       | Called (DeleteService _) _ => true
                       | Called (QueryServiceConfigW _) (Ok raw) =>
                           bool_decide (lpBinaryPathName raw = Some example_image)
                           || match parse_config raw with Ok c => negb (owned_service_identity c example_root) | Err _ => false end
                       | _ => true
                       end) (answered d')
  | _ => false
  end = true.
Proof. by vm_compute. Qed.
End Example.
