(* ===== verification/SetupBroker.v ===== *)
(** * The broker of the setup program

    [service-runtime/setup/src/windows/broker.rs] and [broker/], [windows/runtime_recovery.rs],
    [windows/installer.rs] and [installer/], [windows/machine_lock.rs], [lib.rs] and
    [main.rs]: how one run of the setup program takes the machine's lock, recovers what an
    earlier run left behind, and performs its command over the runtime, the profile and
    the service. *)

From stdpp Require Import pretty.
From S2P Require Export Deployment ProfileStore InstallBootstrap Conflicts ServiceManager Uninstall.

(** ** The machine's lock *)

Inductive MutexAcquisition := MutexAcquired | MutexAbandoned | MutexTimedOut.

(** The named mutex of the platform and the check of its security
    ([machine_lock/security.rs]): they change no file and no service. *)
Class Locking `{World} := {
  machine_setup_lock_descriptor : M Disk (result unit SetupError);
  create_mutex : string → M Disk (result Handle IoError);
  verify_machine_setup_lock : Handle → M Disk (result unit SetupError);
  acquire_mutex : Handle → N → M Disk (result MutexAcquisition IoError);
  descriptor_quiet : quiet_call machine_setup_lock_descriptor;
  create_quiet name : quiet_call (create_mutex name);
  verify_quiet mutex : quiet_call (verify_machine_setup_lock mutex);
  acquire_quiet mutex timeout : quiet_call (acquire_mutex mutex timeout)
}.

(** The profile that the distribution brings along. *)
Class Distribution := { bundled_default_profile : list ascii }.

Definition SETUP_MUTEX_NAME : string := "Global\MacTypeControlCenter.Setup.v1".
Definition SETUP_MUTEX_TIMEOUT : N := from_secs 30.

Definition foreign_lock_error (detail : string) : SetupError :=
  Runtime ("foreign machine setup lock rejected: " ++ detail).

Section Lock.
Context `{World, !Locking}.

Definition acquire_named_with_timeout (name : string) (timeout : N) : M Disk (result unit SetupError) :=
  let? _ := machine_setup_lock_descriptor in
  let! created := create_mutex name in
  match created with
  | Err error =>
      ret (Err (if has_code error ERROR_ACCESS_DENIED
                then foreign_lock_error "the named object cannot be opened for security verification"
                else Io error))
  | Ok mutex =>
      let? _ := verify_machine_setup_lock mutex in
      let! acquired := acquire_mutex mutex timeout in
      ret (match acquired with
           | Ok (MutexAcquired | MutexAbandoned) => Ok tt
           | Ok MutexTimedOut => Err (Runtime
               "another machine setup operation did not finish before the bounded wait expired")
           | Err error => Err (Io error)
           end)
  end.

Definition acquire_setup_lock : M Disk (result unit SetupError) :=
  acquire_named_with_timeout SETUP_MUTEX_NAME SETUP_MUTEX_TIMEOUT.
End Lock.

(** ** Answers as text *)

Definition json_string (text : string) : string := bytes_str [DOUBLE_QUOTE] ++ text ++ bytes_str [DOUBLE_QUOTE].

Definition json_member (name value : string) : string := json_string name ++ ":" ++ value.

Definition json_object (members : list string) : string := "{" ++ String.concat "," members ++ "}".

Definition json_bool (b : bool) : string := if b then "true" else "false".

(** [{"ok":true,"verb":..] and what follows. *)
Definition verb_result (v : string) (members : list string) : string :=
  json_object (json_member "ok" "true" :: json_member "verb" (json_string v) :: members).

Definition version_result (v version : string) : string := verb_result v [json_member "version" (json_string version)].

Definition blocker_code (b : BootstrapBlocker) : string :=
  match b with
  | LegacyService => "legacy-service"
  | LegacyTrayMode => "legacy-tray-mode"
  | AppInit => "appinit"
  | ForeignOpenService => "foreign-open-service"
  | UnknownMachineState => "unknown-machine-state"
  | InconsistentOwnedState => "inconsistent-owned-state"
  end.

Definition outcome_json (o : BootstrapOutcome) (v : string) : string :=
  match o with
  | Applied digest preserved started =>
      verb_result v [json_member "outcome" (json_string "applied");
        json_member "activeProfileDigest" (match digest with Some d => json_string d | None => "null" end);
        json_member "preservedExistingProfile" (json_bool preserved);
        json_member "serviceStarted" (json_bool started)]
  | SkippedBlocked reason =>
      verb_result v [json_member "outcome" (json_string "skipped-blocked"); json_member "reason" (json_string (blocker_code reason))]
  end.

Definition uninstall_json (o : UninstallOutcome) : string :=
  verb_result "uninstall-owned"
    match o with
    | Removed => [json_member "outcome" (json_string "removed")]
    | AlreadyAbsent => [json_member "outcome" (json_string "already-absent")]
    | UninstallBlocked reason =>
        [json_member "outcome" (json_string "skipped-blocked"); json_member "reason" (json_string (blocker_code reason))]
    end.

(** ** The plans *)

Inductive RepairStep := RepairStop | RepairRuntime | RepairStartReady.
Inductive UpgradeStep := UpgradeStop | UpgradeRuntime | UpgradeStartReady.
Inductive UpgradeRecoveryStep := RecoverExactBinding | StartPreviousReady.

#[export] Instance RepairStep_eq_dec : EqDecision RepairStep.
Proof. solve_decision. Defined.
#[export] Instance UpgradeStep_eq_dec : EqDecision UpgradeStep.
Proof. solve_decision. Defined.
#[export] Instance UpgradeRecoveryStep_eq_dec : EqDecision UpgradeRecoveryStep.
Proof. solve_decision. Defined.
#[export] Instance BootstrapPreflight_eq_dec : EqDecision BootstrapPreflight.
Proof. solve_decision. Defined.
#[export] Instance InstalledRuntime_eq_dec : EqDecision InstalledRuntime.
Proof. solve_decision. Defined.

Definition repair_plan (was_running : bool) : list RepairStep :=
  if was_running then [RepairStop; RepairRuntime; RepairStartReady] else [RepairRuntime].

Definition upgrade_plan (was_running : bool) : list UpgradeStep :=
  if was_running then [UpgradeStop; UpgradeRuntime; UpgradeStartReady] else [UpgradeRuntime].

Definition upgrade_recovery_plan (was_running : bool) : list UpgradeRecoveryStep :=
  if was_running then [RecoverExactBinding; StartPreviousReady] else [RecoverExactBinding].

Definition combine_operation_and_restore_error (operation restoration : SetupError) : SetupError :=
  Runtime (display operation ++ "; additionally failed to restore the caller's service state: " ++ display restoration).

Section Broker.
Context `{World, Windows, EventJson, !Setup, !Desktop, !Locking, HealthJson, DebugFormat, BuildFeatures, Distribution}.
Context `{Sha256, ActivationJson, PointerJson, StoreJson, DeferredDelete, RepairJson, ProfileStoreJson}.

(** [FixedPayload::beside_setup_executable] of [deployment.rs] *)
Definition beside_setup_executable : M Disk (result FixedPayload SetupError) :=
  let? executable := lift_io current_executable in
  let? parent := ret (ok_or (path_parent (named_path executable)) (Runtime "setup executable has no parent")) in
  ret (Ok {| payload_root := path_join parent "payload" |}).

Section Commands.
Context (paths : MachinePaths).
Notation root := (service_root paths).

(** ** [runtime_recovery.rs] *)

Definition inspect_binding (candidate previous : option Path) : M Disk (result RuntimeServiceBinding SetupError) :=
  let points_to := λ binary, match binary with
                             | Some binary => owned_service_points_to root binary
                             | None => ret (Ok false)
                             end in
  let! observed := observe_fixed_service root in
  match observed with
  | ServiceAbsent => ret (Ok AbsentBinding)
  | OwnedStopped | OwnedRunning =>
      let? is_candidate := points_to candidate in
      if is_candidate then ret (Ok CandidateBinding)
      else
        let? is_previous := points_to previous in
        if is_previous then ret (Ok PreviousBinding)
        else ret (Err (CleanupUnknown "owned service image matches neither side of the runtime activation receipt"))
  | Foreign => ret (Err (CleanupUnknown "fixed service name became foreign during runtime activation recovery"))
  | ServiceUnknown => ret (Err (CleanupUnknown "fixed service state is unknown during runtime activation recovery"))
  end.

Definition candidate_changed_before_rollback : SetupError :=
  CleanupUnknown "candidate service binding changed before exact runtime rollback".

Definition restore_previous_binding (candidate : Path) (previous : option Path) : M Disk (result unit SetupError) :=
  let! observed := observe_fixed_service root in
  let? _ :=
    match observed with
    | OwnedRunning =>
        let? is_candidate := owned_service_points_to root candidate in
        if negb is_candidate then ret (Err candidate_changed_before_rollback) else stop root
    | OwnedStopped =>
        let? is_candidate := owned_service_points_to root candidate in
        if negb is_candidate then ret (Err candidate_changed_before_rollback) else ret (Ok tt)
    | ServiceAbsent | Foreign | ServiceUnknown => ret (Err candidate_changed_before_rollback)
    end in
  match previous with
  | Some previous => reconfigure root previous
  | None => ServiceManager.remove root
  end.

Definition runtime_recovery : M Disk (result (option InstalledRuntime) SetupError) :=
  recover_runtime_with_service_binding paths inspect_binding restore_previous_binding.

(** ** [broker/service.rs] *)

Definition broker_install : M Disk (result string SetupError) :=
  let? _ := create_protected_directory root in
  let? _ := harden_machine_directory root in
  let? payload := beside_setup_executable in
  let! installed := deploy_with_prepare_and_health_check paths payload (install root) (λ _ _, ret (Ok tt)) in
  match installed with
  | Ok (installed, _) =>
      let? _ := harden_machine_directory root in
      ret (Ok (version_result "install" (installed_version installed)))
  | Err operation =>
      let! recovered := runtime_recovery in
      match recovered with
      | Err restoration => ret (Err (combine_operation_and_restore_error operation restoration))
      | Ok _ =>
          let! _ := rollback_completed "service" in
          ret (Err operation)
      end
  end.

Definition restore_upgrade_state (previous : InstalledRuntime) (plan : list UpgradeRecoveryStep)
    : M Disk (result unit SetupError) :=
  let? recovered := runtime_recovery in
  if bool_decide (recovered ≠ Some previous)
  then ret (Err (CleanupUnknown
    "failed upgrade did not recover the exact previous runtime; refusing to infer a service restart"))
  else if bool_decide (StartPreviousReady ∈ plan) then start_and_wait_ready root
  else ret (Ok tt).

Definition broker_upgrade : M Disk (result string SetupError) :=
  let? was_running := is_running root in
  let plan := upgrade_plan was_running in
  let recovery_plan := upgrade_recovery_plan was_running in
  let? _ := (if bool_decide (UpgradeStop ∈ plan) then stop root else ret (Ok tt)) in
  let? payload := beside_setup_executable in
  let? found := inspect_current_stable paths in
  let? previous := ret (ok_or found (Runtime "no active protected runtime exists before upgrade")) in
  let! installed := deploy_with_prepare_and_health_check paths payload (reconfigure root)
    (λ _ _, if bool_decide (UpgradeStartReady ∈ plan) then start_and_wait_ready root else ret (Ok tt)) in
  match installed with
  | Ok (installed, _) =>
      let? _ := harden_machine_directory root in
      ret (Ok (version_result "upgrade" (installed_version installed)))
  | Err operation =>
      let! restored := restore_upgrade_state previous recovery_plan in
      match restored with
      | Err restoration => ret (Err (combine_operation_and_restore_error operation restoration))
      | Ok _ =>
          let! _ := rollback_completed "upgrade" in
          ret (Err operation)
      end
  end.

(** The closure [repair] of [repair]. *)
Definition repair_steps (plan : list RepairStep) : M Disk (result unit SetupError) :=
  let? payload := with_err (at_machine_path "locate fixed repair payload" root) beside_setup_executable in
  let? _ := with_err (at_machine_path "repair protected runtime transaction" root)
    (repair_current_with_prepare_and_health_check paths payload (reconfigure root) (λ _ _, ret (Ok tt))) in
  let? _ := with_err (at_machine_path "synchronize active profile after repair" (active_profile paths))
    (synchronize_active_runtime paths) in
  let? _ := harden_machine_directory root in
  if bool_decide (RepairStartReady ∈ plan)
  then with_err (at_machine_path "restart service after repair" root) (start_and_wait_ready root)
  else ret (Ok tt).

Definition broker_repair : M Disk (result string SetupError) :=
  let? was_running := with_err (at_machine_path "inspect service state before repair" root) (is_running root) in
  let plan := repair_plan was_running in
  let? _ := (if bool_decide (RepairStop ∈ plan)
             then with_err (at_machine_path "stop service before repair" root) (stop root) else ret (Ok tt)) in
  let! repaired := repair_steps plan in
  match repaired with
  | Ok _ => ret (Ok (verb_result "repair" []))
  | Err operation =>
      let! recovered := runtime_recovery in
      match recovered with
      | Err restoration => ret (Err (combine_operation_and_restore_error operation restoration))
      | Ok _ =>
          let! restarted := (if bool_decide (RepairStartReady ∈ plan) then start_and_wait_ready root else ret (Ok tt)) in
          match restarted with
          | Err restoration => ret (Err (combine_operation_and_restore_error operation restoration))
          | Ok _ =>
              let! _ := rollback_completed "service" in
              ret (Err operation)
          end
      end
  end.

Definition broker_remove : M Disk (result string SetupError) :=
  let? _ := ServiceManager.remove root in
  ret (Ok (verb_result "remove" [])).

Definition broker_start : M Disk (result string SetupError) :=
  let? found := current paths in
  let? installed := ret (ok_or found no_active_runtime) in
  let? _ := synchronize_active_runtime paths in
  let? _ := harden_machine_directory root in
  let? _ := reconfigure root (service_binary installed) in
  let? _ := start_and_wait_ready root in
  ret (Ok (verb_result "start" [json_member "health" (json_string "ready")])).

Definition broker_stop : M Disk (result string SetupError) :=
  let? _ := stop root in
  ret (Ok (verb_result "stop" [])).

Definition broker_restore_runtime : M Disk (result string SetupError) :=
  let? running := is_running root in
  let? _ := (if running then stop root else ret (Ok tt)) in
  let? restored := restore_pinned_current_with_health_check paths (reconfigure root) in
  let? _ := harden_machine_directory root in
  ret (Ok (version_result "restore-runtime" (installed_version restored))).

(** ** [broker/profile.rs] *)

Definition harden_runtime_if_installed : M Disk (result unit SetupError) :=
  let! installed := is_file (runtime_pointer paths) in
  if installed then harden_machine_directory root else ret (Ok tt).

Definition broker_publish (profile_input : option (list ascii)) : M Disk (result string SetupError) :=
  let? input := ret (ok_or profile_input (Runtime "publish-profile requires stdin bytes")) in
  let? data_root := ret (ok_or (path_parent (active_profile paths)) (Runtime "profile root is unavailable")) in
  let? _ := create_protected_directory data_root in
  let? _ := harden_machine_directory data_root in
  let? generation := publish_and_activate paths input {| display_name := "MacType Control Center" |} in
  let? _ := harden_machine_directory data_root in
  let? _ := harden_runtime_if_installed in
  ret (Ok (verb_result "publish-profile" [json_member "generation" (json_string generation)])).

Definition broker_rollback : M Disk (result string SetupError) :=
  let? generation := store_rollback paths in
  let? _ := harden_runtime_if_installed in
  let! _ := rollback_completed "profile" in
  ret (Ok (verb_result "rollback" [json_member "generation"
    (match generation with Some generation => json_string generation | None => "null" end)])).

(** ** [broker.rs] *)

Definition prepare_machine_storage_for_command (command : BrokerCommand) : M Disk (result unit SetupError) :=
  match command with
  | Manifest.Repair => harden_machine_directory root
  | _ => ret (Ok tt)
  end.

Definition perform_command (command : BrokerCommand) (profile_input : option (list ascii))
    : M Disk (result string SetupError) :=
  match command with
  | Manifest.Install => broker_install
  | Manifest.Upgrade => broker_upgrade
  | Manifest.Repair => broker_repair
  | Manifest.Remove => broker_remove
  | Manifest.Start => broker_start
  | Manifest.Stop => broker_stop
  | Manifest.RestoreRuntime => broker_restore_runtime
  | Manifest.PublishProfile => broker_publish profile_input
  | Manifest.Rollback => broker_rollback
  | Manifest.MigrateFromLegacy => ret (Err (Runtime "legacy migration requires the separately verified migration workflow"))
  end.

(** ** [installer/preflight.rs] *)

Definition inspect_snapshot : M Disk BootstrapPreflight :=
  let! current := inspect_current_stable paths in
  let protected_runtime :=
    match current with Ok (Some _) => RuntimeActive | Ok None => RuntimeAbsent | Err _ => RuntimeUnknown end in
  let! active := inspect_active_generation_stable paths in
  let protected_profile :=
    match active with
    | Ok (Some generation) => ProfileActive (directory_name generation)
    | Ok None => ProfileAbsent
    | Err _ => ProfileUnknown
    end in
  let! observed := observe_fixed_service root in
  let! open_service :=
    match observed with
    | OwnedStopped | OwnedRunning =>
        match current with
        | Ok (Some current) =>
            let! points := owned_service_points_to root (service_binary current) in
            ret (match points with Ok true => observed | Ok false | Err _ => ServiceUnknown end)
        | Ok None | Err _ => ret ServiceUnknown
        end
    | ServiceAbsent | Foreign | ServiceUnknown => ret observed
    end in
  let! legacy_service := observe_legacy_service in
  let! legacy_tray := observe_tray_conflict in
  let! appinit := observe_appinit_conflict in
  ret {| InstallBootstrap.open_service := open_service; protected_profile := protected_profile; protected_runtime := protected_runtime;
         legacy_service := legacy_service; legacy_tray := legacy_tray; appinit := appinit |}.

Definition validate_mode_matches_profile (mode : BootstrapProfileMode) (active : option GenerationId)
    : result unit SetupError :=
  let refusal := Err (Runtime "bootstrap mode no longer matches the protected active profile") in
  match mode, active with
  | (PublishBundledDefault | LeaveUnpublished), None => Ok tt
  | PreserveExisting generation, Some active =>
      if (directory_name active =? generation)%string then Ok tt else refusal
  | _, _ => refusal
  end.

Definition validate_and_harden_installer_root : M Disk (result unit SetupError) :=
  let? app_root := ret (ok_or (path_parent root) (Runtime "protected application root is unavailable")) in
  let? program_files := ret (ok_or (path_parent app_root) (Runtime "trusted Program Files root is unavailable")) in
  let? executable := lift_io current_executable in
  if negb (protected_installer_broker_layout (path_text program_files) executable)
  then ret (Err (Runtime "installer broker is not in the fixed Program Files layout"))
  else
    let executable := named_path executable in
    let? _ := reject_reparse_ancestors executable in
    let expected := path_join (path_join app_root "service-runtime") "mactype-service-setup.exe" in
    let? actual := lift_io (canonicalize executable) in
    let? expected := lift_io (canonicalize expected) in
    if negb (eq_ignore_ascii_case (path_display actual) (path_display expected))
    then ret (Err (Runtime "installer broker canonical path differs from the fixed protected path"))
    else
      let? _ := harden_machine_directory app_root in
      reject_reparse_ancestors actual.

(** ** [installer/transaction.rs] *)

Definition profile_root : result Path SetupError :=
  ok_or (path_parent (active_profile paths)) (Runtime "protected profile root is unavailable").

(** What the preparation of an installation does with the profile; it sets the captured
    variable [published_default]. *)
Definition prepare_profile (mode : BootstrapProfileMode) : M Disk (result (option GenerationId) SetupError) :=
  match mode with
  | PublishBundledDefault =>
      let? active := inspect_active_generation_stable paths in
      match active with
      | Some _ => ret (Err (Runtime "an active profile appeared after fresh-install preflight"))
      | None =>
          let? data_root := ret profile_root in
          let? _ := create_protected_directory data_root in
          let? _ := harden_machine_directory data_root in
          let? generation := publish_and_activate paths bundled_default_profile
                               {| display_name := "MacType Control Center bundled default" |} in
          let! _ := modify (set_captured true) in
          ret (Ok (Some generation))
      end
  | PreserveExisting generation =>
      let? generation := ret (profile_checked (generation_parse ("sha256:" ++ generation))) in
      let? active := inspect_active_generation_stable paths in
      if bool_decide (active ≠ Some generation)
      then ret (Err (Runtime "protected active profile changed after preflight"))
      else
        let? _ := synchronize_active_runtime paths in
        ret (Ok (Some generation))
  | LeaveUnpublished =>
      let? active := inspect_active_generation_stable paths in
      match active with
      | Some _ => ret (Err (Runtime "a protected profile appeared after fresh-install preflight"))
      | None => ret (Ok None)
      end
  end.

Definition prepare_bootstrap (snapshot : BootstrapPreflight) (plan : BootstrapPlan) (binary : Path)
    : M Disk (result (option GenerationId) SetupError) :=
  let? generation := prepare_profile (plan_profile plan) in
  let? _ :=
    match generation with
    | Some _ =>
        let? data_root := ret profile_root in
        harden_machine_directory data_root
    | None => ret (Ok tt)
    end in
  let? _ := harden_machine_directory root in
  let? _ :=
    match InstallBootstrap.open_service snapshot with
    | ServiceAbsent => install root binary
    | OwnedStopped | OwnedRunning => reconfigure root binary
    | Foreign | ServiceUnknown => ret (Err (Runtime "bootstrap service identity changed after preflight"))
    end in
  ret (Ok generation).

Definition bootstrap_health (plan : BootstrapPlan) (generation : option GenerationId) : M Disk (result unit SetupError) :=
  if negb (start_service plan) then ret (Ok tt)
  else
    let? generation := ret (ok_or generation
      (Runtime "bootstrap cannot start the service without a published profile")) in
    start_and_wait_ready_for_profile root generation.

(** [if let Err(error) = .. { failures.push(format!("..{error}")) }] *)
Definition failure_of {A : Type} (text : string) (r : result A SetupError) : list string :=
  match r with Ok _ => [] | Err error => [text ++ display error]%string end.

Definition restart_failures (snapshot : BootstrapPreflight) (previous_profile : option GenerationId) : M Disk (list string) :=
  match InstallBootstrap.open_service snapshot with
  | ServiceAbsent | OwnedStopped => ret []
  | OwnedRunning =>
      match previous_profile with
      | Some generation =>
          let! synchronized := synchronize_active_runtime paths in
          match synchronized with
          | Err error => ret (failure_of "restore runtime profile: " (Err error : result unit SetupError))
          | Ok _ =>
              let! restarted := start_and_wait_ready_for_profile root generation in
              ret (failure_of "restart prior service: " restarted)
          end
      | None => ret ["running service snapshot had no protected profile"%string]
      end
  | Foreign | ServiceUnknown => ret ["service identity changed during rollback"%string]
  end.

Definition restore_after_failure (snapshot : BootstrapPreflight) (previous_runtime : option InstalledRuntime)
    (previous_profile : option GenerationId) (published_default : bool) : M Disk (result unit SetupError) :=
  let? recovered := with_err (unknown "recover exact service and runtime binding: ") runtime_recovery in
  if bool_decide (recovered ≠ previous_runtime)
  then ret (Err (CleanupUnknown
    "bootstrap failure did not recover the exact previous runtime; refusing to infer profile or service state"))
  else
    let! profile_failures :=
      (if published_default
       then let! restored := store_rollback paths in ret (failure_of "restore profile: " restored)
       else ret []) in
    let! service_failures := restart_failures snapshot previous_profile in
    match profile_failures ++ service_failures with
    | [] =>
        let! _ := rollback_completed "bootstrap-install" in
        ret (Ok tt)
    | failures => ret (Err (CleanupUnknown (String.concat "; " failures)))
    end.

Definition apply_transaction (snapshot : BootstrapPreflight) (plan : BootstrapPlan)
    : M Disk (result (option string) SetupError) :=
  let? previous_runtime := inspect_current_stable paths in
  let? previous_profile := inspect_active_generation_stable paths in
  let? _ := ret (validate_mode_matches_profile (plan_profile plan) previous_profile) in
  let? _ := create_protected_directory root in
  let? _ := harden_machine_directory root in
  let? _ := (if bool_decide (InstallBootstrap.open_service snapshot = OwnedRunning) then stop root else ret (Ok tt)) in
  let? payload := beside_setup_executable in
  let! _ := modify (set_captured false) in
  let! activation := deploy_with_prepare_and_health_check paths payload (prepare_bootstrap snapshot plan)
                       (λ _ generation, bootstrap_health plan generation) in
  match activation with
  | Ok (_, generation) => ret (Ok generation)
  | Err operation =>
      let! published_default := gets captured in
      let! restoration := restore_after_failure snapshot previous_runtime previous_profile published_default in
      match restoration with
      | Ok _ => ret (Err operation)
      | Err restoration =>
          ret (Err (RollbackFailed ("bootstrap failed (" ++ display operation ++ ")")
                      ("rollback failed (" ++ display restoration ++ ")")))
      end
  end.

(** ** [installer.rs] *)

Definition apply_inspected (inspected : option BootstrapPreflight) (plan : BootstrapPlan)
    : M Disk (result (option string) SetupError) :=
  let? expected := ret (ok_or inspected (Runtime "bootstrap mutation was requested before preflight")) in
  let! actual := inspect_snapshot in
  if bool_decide (actual ≠ expected)
  then ret (Err (Runtime "machine integration state changed after bootstrap preflight"))
  else apply_transaction actual plan.

(** The closure of [remove_owned_installation]. *)
Definition remove_observed_service (observed_service : OpenServiceObservation) : M Disk (result unit SetupError) :=
  let! actual := observe_fixed_service root in
  match observed_service, actual with
  | ServiceAbsent, ServiceAbsent => ret (Ok tt)
  | (OwnedStopped | OwnedRunning), ServiceAbsent => ret (Ok tt)
  | (OwnedStopped | OwnedRunning), (OwnedStopped | OwnedRunning) => ServiceManager.remove root
  | _, _ => ret (Err (Runtime "open service identity changed during uninstall"))
  end.

(** The installer's machine: the disk, unless something on it did not end, and the last
    inspection. *)
Record WindowsInstallerBackend := { backend_disk : option Disk; inspected : option BootstrapPreflight }.

Definition on_disk {A : Type} (stuck : A) (m : M Disk A) (b : WindowsInstallerBackend) : A * WindowsInstallerBackend :=
  match backend_disk b with
  | None => (stuck, b)
  | Some d =>
      match m d with
      | Some (a, d') => (a, {| backend_disk := Some d'; inspected := inspected b |})
      | None => (stuck, {| backend_disk := None; inspected := inspected b |})
      end
  end.

Definition unknown_machine : BootstrapPreflight :=
  {| InstallBootstrap.open_service := ServiceUnknown; protected_profile := ProfileUnknown; protected_runtime := RuntimeUnknown;
     legacy_service := ConflictUnknown; legacy_tray := ConflictUnknown; appinit := ConflictUnknown |}.

#[local] Instance installer_backend : InstallBootstrapBackend WindowsInstallerBackend := {|
  inspect_machine b :=
    let '(snapshot, b) := on_disk unknown_machine inspect_snapshot b in
    (snapshot, {| backend_disk := backend_disk b; inspected := Some snapshot |});
  apply_atomically plan b := on_disk (Err InvalidMetadata) (apply_inspected (inspected b) plan) b
|}.

#[local] Instance uninstaller_backend : UninstallBackend WindowsInstallerBackend := {|
  inspect_open_service b := on_disk ServiceUnknown (observe_fixed_service root) b;
  remove_owned_installation observed b :=
    on_disk (Err InvalidMetadata) (remove_receipted_installation_after paths (remove_observed_service observed)) b
|}.

(** A run over a backend that starts with the disk. *)
Definition with_backend {A : Type} (f : WindowsInstallerBackend → A * WindowsInstallerBackend) : M Disk A :=
  λ d, let '(a, b) := f {| backend_disk := Some d; inspected := None |} in option_map (pair a) (backend_disk b).

Definition bootstrap_with (policy : BootstrapStartPolicy) : M Disk (result BootstrapOutcome SetupError) :=
  with_backend (run_install_bootstrap_with policy).

Definition uninstall_with : M Disk (result UninstallOutcome SetupError) := with_backend run_uninstall_owned_with.
End Commands.

(** ** Whole runs *)

(** [broker.rs], [run] *)
Definition run_command (command : BrokerCommand) (profile_input : option (list ascii)) : M Disk (result string SetupError) :=
  let? _ := acquire_setup_lock in
  let? paths := known_machine_paths in
  let root := service_root paths in
  let? _ := prepare_event_log_directory paths in
  let? _ := prepare_machine_storage_for_command paths command in
  let? _ := with_err (at_machine_path "connect to Service Control Manager" root) connect in
  let? _ := with_err (at_machine_path "recover protected runtime state" root) (runtime_recovery paths) in
  let? _ := with_err (at_machine_path "recover protected profile state" (active_profile paths))
    (recover_interrupted_activation paths) in
  perform_command paths command profile_input.

(** What [run_bootstrap] and [run_uninstall] do before their work. *)
Definition prepare_installer : M Disk (result MachinePaths SetupError) :=
  let? _ := acquire_setup_lock in
  let? paths := known_machine_paths in
  let? _ := validate_and_harden_installer_root paths in
  let? _ := connect in
  let? _ := runtime_recovery paths in
  ret (Ok paths).

Definition run_bootstrap (policy : BootstrapStartPolicy) : M Disk (result BootstrapOutcome SetupError) :=
  let? paths := prepare_installer in bootstrap_with paths policy.

Definition run_uninstall : M Disk (result UninstallOutcome SetupError) :=
  let? paths := prepare_installer in uninstall_with paths.

(** [lib.rs], [run_broker_command] and [run_setup_command] *)
Definition perform_setup_command (command : SetupCommand) (profile_input : option (list ascii))
    : M Disk (result string SetupError) :=
  match command with
  | BrokerVerb command => run_command command profile_input
  | BootstrapInstall policy =>
      let? outcome := run_bootstrap policy in
      ret (Ok (outcome_json outcome (policy_verb policy)))
  | UninstallOwned =>
      let? outcome := run_uninstall in
      ret (Ok (uninstall_json outcome))
  end.

Definition run_setup_command (command : SetupCommand) (profile_input : option (list ascii))
    : M Disk (result string SetupError) :=
  let! result := perform_setup_command command profile_input in
  let! _ := match result with
            | Err error => command_failed command error profile_input
            | Ok _ => ret tt
            end in
  ret result.

(** ** [main.rs] *)

Definition SETUP_FAILURE_EXIT_CODE : Z := 1.
Definition SETUP_ROLLBACK_FAILURE_EXIT_CODE : Z := 3.

Fixpoint exit_code_for (error : SetupError) : Z :=
  match error with
  | RollbackFailed _ _ => SETUP_ROLLBACK_FAILURE_EXIT_CODE
  | MachineOperation _ _ source => exit_code_for source
  | _ => SETUP_FAILURE_EXIT_CODE
  end.

(** [std::io::stdin().take(MAX_PROFILE_BYTES as u64 + 1).read_to_end(..)] *)
Definition read_input (stdin : result (list ascii) IoError) : result (list ascii) IoError :=
  let-? bytes := stdin in Ok (take_bytes (MAX_PROFILE_BYTES + 1) bytes).

(** The exit code, and what is printed on the standard output. *)
Definition setup_main (arguments : list string) (stdin : result (list ascii) IoError) : M Disk (Z * option string) :=
  match parse_setup_command arguments with
  | None => ret (2%Z, None)
  | Some command =>
      let run := λ input,
        let! result := run_setup_command command input in
        ret (match result with
             | Ok output => (0%Z, Some output)
             | Err error => (exit_code_for error, None)
             end) in
      match command with
      | BrokerVerb Manifest.PublishProfile =>
          match read_input stdin with
          | Err _ => ret (1%Z, None)
          | Ok profile => run (Some profile)
          end
      | _ => run None
      end
  end.
End Broker.
