(* ===== verification/DeploymentFrames.v ===== *)
(** * What a deployment leaves alone

    Staging, the exchange of a damaged generation and its recovery never touch the pointer
    of the active runtime nor the receipt of the activation, in no state they pass
    through; so the activation transaction is the only part of a deployment that does. *)

From stdpp Require Import pretty.
From S2P Require Export RepairFacts ProfileStoreFrames GenerationFacts Deployment.

Lemma leaves_mono {A : Type} (Q Q' : Path → Prop) (m : M Disk A) : (∀ q, Q' q → Q q) → leaves Q m → leaves Q' m.
Proof. intros HQ Hm d. eapply spec_mono; [apply Hm| |]; [intros n Hn q Hq|intros a d' _ Hn q Hq]; by apply Hn, HQ. Qed.

Section DeploymentFrames.
Context `{World, Sha256, ActivationJson, PointerJson, StoreJson, DeferredDelete, RepairJson, !DeferredDeleteLaws}
  (program_files program_data : Path).
Notation paths := (machine_layout program_files program_data).
Notation root := (service_root (machine_layout program_files program_data)).

(** The two files of the activation transaction. *)
Definition transaction_file (q : Path) : Prop := q = runtime_pointer paths ∨ q = runtime_activation_journal paths.

Lemma leaves_framed {A : Type} (m : M Disk A) : leaves transaction_file m → framed program_files program_data m.
Proof.
  intros Hm d X Y [Hx Hy]. eapply spec_mono; [apply Hm| |done].
  intros n Hn. unfold in_view. rewrite !Hn by (unfold transaction_file; auto). by split.
Qed.

Lemma framed_leaves {A : Type} (m : M Disk A) : framed program_files program_data m → leaves transaction_file m.
Proof.
  intros Hm d. assert (∀ n, in_view program_files program_data (λ X Y,
    X = nodes d !! runtime_pointer paths ∧ Y = nodes d !! runtime_activation_journal paths) n → agree transaction_file (nodes d) n)
    as Hview by (intros n [HX HY] q [-> | ->]; done).
  assert (spec (agree transaction_file (nodes d)) m (λ _ _, True) d) as Hs
    by (eapply spec_mono; [apply (Hm d _ _ (conj eq_refl eq_refl))|exact Hview|done]).
  unfold spec, wp in *. destruct (m d) as [[a d']|]; [|done]. destruct Hs as [Hr _]. split; [done|].
  destruct Hr as (v & Ev & Hv & Hn & _). rewrite Hn. destruct v as [|n v]; [done|]. by apply Forall_inv in Hv.
Qed.

(** A name directly in the root of the service. *)
Lemma transaction_child q : transaction_file q → ∃ name, q = path_join root name ∧ starts_with "." name = false ∧
  name ≠ "bin" ∧ name ≠ "runtime-receipts" ∧ name ≠ "runtime-repair.json".
Proof. intros [->| ->]; [exists "current.json"|exists "runtime-activation.json"]; by split_and!. Qed.

Lemma transaction_not_prefix q name t :
  transaction_file q → (name = "bin" ∨ name = "runtime-receipts" ∨ name = "runtime-repair.json") →
  ¬ q `prefix_of` path_join root name ++ t ∧ ¬ path_join root name `prefix_of` q.
Proof.
  intros (n & -> & _ & Hbin & Hrec & Hrep)%transaction_child Hname. assert (n ≠ name) as Hne by (destruct Hname as [-> |[-> | ->]]; done). split.
  - by apply siblings_not_prefix.
  - intros Hp. apply (siblings_not_prefix root name n []); [done|]. by rewrite app_nil_r.
Qed.

Lemma transaction_not_hidden q : transaction_file q → hidden q = false.
Proof. intros (n & -> & Hn & _)%transaction_child. by rewrite hidden_join. Qed.

(** Everything in one of the directories, and the directories themselves. *)
Lemma transaction_off name p q :
  (name = "bin" ∨ name = "runtime-receipts" ∨ name = "runtime-repair.json") →
  path_join root name `prefix_of` p → transaction_file q → ¬ p `prefix_of` q ∧ ¬ q `prefix_of` p.
Proof.
  intros Hname [t ->] Hq. split; intros Hp.
  - apply (transaction_not_prefix q name [] Hq Hname). etrans; [|exact Hp]. by eexists.
  - revert Hp. apply (proj1 (transaction_not_prefix q name t Hq Hname)).
Qed.

(** A path of a generation, and that of the journal of a repair. *)
Lemma not_transaction name s q : (name = "bin" ∨ name = "runtime-receipts" ∨ name = "runtime-repair.json") →
  q = path_join root name ++ s → ¬ transaction_file q.
Proof.
  intros Hname -> Hq. assert (path_join root name `prefix_of` path_join root name ++ s) as Hp by (by eexists).
  destruct (transaction_off name _ _ Hname Hp Hq) as [Hn _]. by apply Hn.
Qed.

Lemma generation_off p q : runtime_versions paths `prefix_of` p → transaction_file q → off p q.
Proof. intros Hp Hq. destruct (transaction_off "bin" p q); auto. Qed.

Lemma generation_not_above p q : runtime_versions paths `prefix_of` p → transaction_file q → q ∉ ancestors p.
Proof. intros Hp Hq Hin%ancestors_prefix. by destruct (transaction_off "bin" p q); auto. Qed.

Lemma leaves_off {A : Type} p (m : M Disk A) :
  runtime_versions paths `prefix_of` p → leaves (off p) m → leaves transaction_file m.
Proof. intros Hp. apply leaves_mono. intros q. by apply generation_off. Qed.

Lemma leaves_below {A : Type} name (m : M Disk A) : leaves (off (path_join (runtime_versions paths) name)) m → leaves transaction_file m.
Proof. apply leaves_off. by eexists. Qed.

(** ** The exchange of a generation *)

#[local] Hint Resolve leaves_verify_receipt : frame.

Lemma bin_join name : runtime_versions paths `prefix_of` path_join (runtime_versions paths) name.
Proof. by eexists. Qed.
#[local] Hint Resolve bin_join : core.

Lemma leaves_entry_staging name n : leaves transaction_file (remove_staging (path_join (runtime_versions paths) name) n).
Proof. apply (leaves_below name), remove_staging_leaves. Qed.

Lemma leaves_entry_receipted name n :
  leaves transaction_file (remove_receipted_runtime_directory (path_join (runtime_versions paths) name) n).
Proof. apply (leaves_below name), remove_receipted_leaves. Qed.

Lemma leaves_entry_backup name n :
  leaves transaction_file (remove_verified_backup_directory (path_join (runtime_versions paths) name) n).
Proof. apply (leaves_below name), remove_backup_leaves. Qed.

Lemma leaves_entry_rename a b : leaves transaction_file
  (fs_rename_directory (path_join (runtime_versions paths) a) (path_join (runtime_versions paths) b)).
Proof.
  apply leaves_rename_directory. intros q Hq. unfold below.
  split; apply bool_decide_eq_false; by apply generation_off.
Qed.

Lemma leaves_matches (Q : Path → Prop) p n : leaves Q (runtime_directory_matches p n).
Proof. apply leaves_quiet. intros P d. apply directory_matches_quiet. Qed.
#[local] Hint Resolve leaves_entry_staging leaves_entry_receipted leaves_entry_backup leaves_entry_rename leaves_matches : frame.

Section Entries.
Context (v staging backup : string).
Notation D := (path_join (runtime_versions paths) v).
Notation S := (path_join (runtime_versions paths) staging).
Notation B := (path_join (runtime_versions paths) backup).

Lemma leaves_recover_prepared o n : leaves transaction_file (recover_prepared_repair D S B o n).
Proof. unfold recover_prepared_repair. frame. Qed.

Lemma leaves_recover_unverified o n : leaves transaction_file (recover_unverified_repair D S B o n).
Proof. unfold recover_unverified_repair. frame. Qed.

Lemma leaves_recover_verified o n : leaves transaction_file (recover_verified_repair D S B o n).
Proof. unfold recover_verified_repair. frame. Qed.
End Entries.
#[local] Hint Resolve leaves_recover_prepared leaves_recover_unverified leaves_recover_verified : frame.

Lemma journal_not_transaction : ¬ transaction_file (repair_journal_path paths).
Proof. eapply (not_transaction "runtime-repair.json" []); [auto|]. by rewrite app_nil_r. Qed.
#[local] Hint Resolve journal_not_transaction : core.

Lemma leaves_remove_journal : leaves transaction_file (remove_repair_journal paths).
Proof. unfold remove_repair_journal. frame. Qed.

Lemma transaction_untouched p q : ¬ transaction_file p → transaction_file q → ¬ q `prefix_of` p → untouched p q.
Proof. intros Hp Hq Hn. apply untouched_spec. split; [by apply transaction_not_hidden|done]. Qed.

Lemma leaves_write_repair j : leaves transaction_file (write_repair_journal paths j).
Proof.
  unfold write_repair_journal. apply leaves_try; [apply leaves_ret|]. intros bytes. apply leaves_atomic_write.
  intros q Hq. apply transaction_untouched; [done..|]. intros Hp.
  destruct (transaction_off "runtime-repair.json" (repair_journal_path paths) q) as [_ Hn]; [auto|done|done|]. by apply Hn.
Qed.
#[local] Hint Resolve leaves_remove_journal leaves_write_repair : frame.

Lemma leaves_reject_present (Q : Path → Prop) candidates : leaves Q (reject_present candidates).
Proof. induction candidates; cbn [reject_present]; frame. Qed.
#[local] Hint Resolve leaves_reject_present : frame.

Lemma leaves_recover_repair : leaves transaction_file (recover_interrupted_repair paths).
Proof. unfold recover_interrupted_repair. frame. Qed.
#[local] Hint Resolve leaves_recover_repair : frame.

Lemma leaves_or_recover step rest : leaves transaction_file step → leaves transaction_file rest →
  leaves transaction_file (or_recover paths step rest).
Proof. intros. unfold or_recover, fail_repair_and_recover. apply leaves_bind; [done|]. intros r. frame. Qed.

Lemma leaves_existing (Q : Path → Prop) directory expected : leaves Q (verify_existing_payload directory expected).
Proof. apply leaves_quiet. intros P d. eapply spec_post; [apply verify_existing_payload_spec|]. by intros r d' _ [? _]. Qed.
#[local] Hint Resolve leaves_existing : frame.

Lemma leaves_write_payload name entries :
  leaves transaction_file (write_payload (path_join (runtime_versions paths) name) entries).
Proof.
  apply write_payload_leaves. intros name' Hq. revert Hq. eapply (not_transaction "bin" [name; name']); [auto|].
  unfold path_join. change (runtime_versions paths) with (root ++ ["bin"]). by rewrite <- !app_assoc.
Qed.

Lemma leaves_create_entry name : leaves transaction_file (create_protected_directory (path_join (runtime_versions paths) name)).
Proof. apply leaves_protected_directory. intros q Hq. by apply generation_not_above. Qed.
#[local] Hint Resolve leaves_write_payload leaves_create_entry : frame.

Lemma leaves_read_directory_receipt (Q : Path → Prop) p : leaves Q (read_runtime_directory_receipt p).
Proof. apply leaves_quiet. intros P d. eapply spec_post; [apply read_directory_receipt_quiet|]. by intros r d' _ [? _]. Qed.

Lemma leaves_remove_repair name : leaves transaction_file (remove_repair_directory (path_join (runtime_versions paths) name)).
Proof. apply (leaves_below name), remove_repair_directory_leaves. Qed.
#[local] Hint Resolve leaves_read_directory_receipt leaves_remove_repair : frame.

Lemma leaves_exchange v staging backup payload journal :
  leaves transaction_file (exchange_runtime paths (path_join (runtime_versions paths) v)
    (path_join (runtime_versions paths) staging) (path_join (runtime_versions paths) backup) payload journal).
Proof. unfold exchange_runtime. apply leaves_try; [apply leaves_write_repair|]. intros _. repeat apply leaves_or_recover; frame. Qed.

Lemma leaves_replace v payload :
  leaves transaction_file (replace_runtime_payload paths (path_join (runtime_versions paths) v) payload).
Proof.
  pose proof leaves_exchange. unfold replace_runtime_payload. frame.
Qed.

(** ** Staging *)

Lemma leaves_legacy_collision version files :
  leaves transaction_file (remove_legacy_staging_collision (runtime_versions paths) version files).
Proof.
  eapply leaves_mono; [|apply (legacy_collision_leaves program_files program_data
    {| verified := {| verified_version := version; verified_files := [] |}; payload_files := files |})].
  intros q Hq. cbv beta. apply generation_off; [by eexists|done].
Qed.

Lemma leaves_remove_entry name : leaves transaction_file (fs_remove_dir_all (path_join (runtime_versions paths) name)).
Proof. apply leaves_remove_dir_all. intros q Hq. unfold below. apply bool_decide_eq_false. by apply generation_off. Qed.

Lemma leaves_create_versions : leaves transaction_file (create_protected_directory (runtime_versions paths)).
Proof. apply leaves_protected_directory. intros q Hq. by apply generation_not_above. Qed.

Lemma leaves_receipt payload : leaves transaction_file (write_runtime_receipt paths payload).
Proof.
  assert (∀ s q, transaction_file q → ¬ q `prefix_of` path_join root "runtime-receipts" ++ s) as Hnot.
  { intros s q Hq. destruct (transaction_off "runtime-receipts" (path_join root "runtime-receipts" ++ s) q); [auto|by eexists|done|done]. }
  unfold write_runtime_receipt. apply leaves_try; [|intros _; apply leaves_try; [apply leaves_ret|intros bytes]].
  - apply leaves_protected_directory. intros q Hq Hin%ancestors_prefix. apply (Hnot [] q Hq). by rewrite app_nil_r.
  - apply leaves_atomic_write. intros q Hq. apply untouched_spec. split; [by apply transaction_not_hidden|]. by apply (Hnot [_]).
Qed.
#[local] Hint Resolve leaves_replace leaves_legacy_collision leaves_remove_entry leaves_create_versions leaves_receipt : frame.

Lemma leaves_stage_payload payload replace :
  leaves transaction_file (stage_payload paths payload
    (path_join (runtime_versions paths) (verified_version (verified payload))) replace (replace_runtime_payload paths)).
Proof. unfold stage_payload. frame. Qed.

(** ** Reading *)

Lemma leaves_load (Q : Path → Prop) package : leaves Q (payload_load package).
Proof. apply leaves_quiet. intros P d. eapply spec_post; [apply payload_load_spec|]. by intros r d' _ [? _]. Qed.

Lemma leaves_store_verify (Q : Path → Prop) v directory : leaves Q (store_verify paths v directory).
Proof. apply leaves_quiet. intros P d. eapply spec_post; [apply store_verify_spec|]. by intros r d' _ [? _]. Qed.

Lemma leaves_is_file (Q : Path → Prop) p : leaves Q (is_file p).
Proof. unfold is_file. apply leaves_bind; [apply leaves_read|]. intros. apply leaves_ret. Qed.
#[local] Hint Resolve leaves_store_verify leaves_is_file : frame.

Lemma leaves_verify_pinned (Q : Path → Prop) v : leaves Q (verify_pinned paths v).
Proof.
  unfold verify_pinned. apply leaves_try; [|intros; apply leaves_ret].
  apply leaves_quiet. intros P d. eapply spec_post; [apply load_verified_pins_spec|]. by intros r d' _ [? _].
Qed.

Lemma leaves_current (Q : Path → Prop) : leaves Q (current paths).
Proof. unfold current, read_active_pointer. frame. Qed.
#[local] Hint Resolve leaves_current : frame.

Lemma leaves_pending (Q : Path → Prop) : leaves Q (transaction_pending paths).
Proof. unfold transaction_pending. frame. Qed.
#[local] Hint Resolve leaves_pending : frame.

Lemma leaves_inspect_current (Q : Path → Prop) : leaves Q (inspect_current_stable paths).
Proof. unfold inspect_current_stable. frame. Qed.

Lemma leaves_reject_transaction (Q : Path → Prop) : leaves Q (reject_pending_runtime_transaction paths).
Proof. unfold reject_pending_runtime_transaction, transaction_journals, reject_pending, fs_symlink_metadata. frame. Qed.
End DeploymentFrames.
