(* ===== verification/DeploymentSafety.v ===== *)
(** * What a deployment does to the active runtime

    The deployment, the repair, the recovery and the inspection of [Deployment.v] seen
    from the pointer of the active runtime and the receipt of the activation: whatever
    fails and wherever a run is cut off, they stay those of one activation. *)

From S2P Require Export DeploymentFrames.

Section Consistency.
Context `{World, Sha256, ActivationJsonLaws, PointerJson, StoreJson, DeferredDelete, RepairJson, !DeferredDeleteLaws}
  (program_files program_data : Path).
Notation paths := (machine_layout program_files program_data).
Notation view_of S := (in_view program_files program_data S).
Notation at_view := (at_view program_files program_data).
Notation framed := (framed program_files program_data).
Notation transaction_file := (transaction_file program_files program_data).
Notation installed := (installed program_files program_data).

(** The pointer and the receipt of an activation from [old] to some other generation,
    or of none. *)
Definition from_old (old : option RuntimePointer) : View := λ X Y,
  settled old X Y ∨ ∃ new ph, pointer_validate new = true ∧ pending old new ph X Y.

Definition consistent : View := λ X Y, ∃ old, optional_pointer_invalid old = false ∧ from_old old X Y.

(** The active runtime is the one, and no activation is under way. *)
Definition active_is (o : option RuntimePointer) (m : Nodes) : Prop :=
  optional_pointer_invalid o = false ∧ view_of (settled o) m.

Lemma active_consistent o m : active_is o m → view_of consistent m.
Proof. intros [Ho Hm]. exists o. split; [done|]. by left. Qed.

Lemma transaction_consistent old new X Y : optional_pointer_invalid old = false → pointer_validate new = true →
  in_transaction old new X Y → consistent X Y.
Proof. intros Ho Hn [HS|[ph HP]]; exists old; (split; [done|]); [by left|right; eauto]. Qed.

(** [m] keeps the pointer and the receipt consistent, in every state on the way. *)
Definition keeps {A : Type} (m : M Disk A) : Prop := ∀ d, view_of consistent (nodes d) →
  spec (view_of consistent) m (λ _ d', view_of consistent (nodes d')) d.

Lemma keeps_return {A : Type} (a : A) : keeps (ret a).
Proof. intros d Hd. by apply spec_ret. Qed.

Lemma keeps_then {A B : Type} (m : M Disk A) (k : A → M Disk B) : keeps m → (∀ a, keeps (k a)) → keeps (bind m k).
Proof. intros Hm Hk d Hd. eapply spec_bind; [by apply Hm|]. intros a d' _ Hd'. by apply Hk. Qed.

Lemma keeps_try {A B E : Type} (m : M Disk (result A E)) (k : A → M Disk (result B E)) :
  keeps m → (∀ a, keeps (k a)) → keeps (let? x := m in k x).
Proof. intros Hm Hk. apply keeps_then; [done|]. intros [a|e]; [apply Hk|apply keeps_return]. Qed.

Lemma agree_view (S : View) m m' : agree transaction_file m m' → view_of S m → view_of S m'.
Proof. intros Ha. unfold in_view. rewrite !Ha by (unfold DeploymentFrames.transaction_file; auto). done. Qed.

Lemma keeps_leaves {A : Type} (m : M Disk A) : leaves transaction_file m → keeps m.
Proof.
  intros Hm d Hd. eapply spec_mono; [apply Hm| |]; [intros n Hn|intros a d' _ Hn]; by apply (agree_view consistent (nodes d)).
Qed.

Lemma keeps_with_err {A : Type} f (m : M Disk (result A SetupError)) : keeps m → keeps (with_err f m).
Proof. intros. apply keeps_then; [done|]. intros. apply keeps_return. Qed.

Lemma leaves_at {A : Type} (m : M Disk A) (S : View) d :
  leaves transaction_file m → view_of S (nodes d) → spec (view_of S) m (λ _ d', view_of S (nodes d')) d.
Proof.
  intros Hm Hd. eapply spec_mono; [apply Hm| |]; [intros n Hn|intros a d' _ Hn]; by apply (agree_view S (nodes d)).
Qed.

(** ** Recovery *)

Context (Hsight : truthful).

(** A recovery settles: when it reports success no activation is under way, and the
    answer is the active runtime. *)
Definition settles (m : M Disk (result (option InstalledRuntime) SetupError)) : Prop :=
  ∀ d, view_of consistent (nodes d) → spec (view_of consistent) m (λ r d', view_of consistent (nodes d') ∧
    ∀ i, r = Ok i → ∃ o, active_is o (nodes d') ∧ i = option_map installed o) d.

Lemma settles_keeps m : settles m → keeps m.
Proof. intros Hm d Hd. eapply spec_post; [by apply Hm|]. by intros r d' _ [? _]. Qed.

Lemma here d : at_view d (nodes d !! runtime_pointer paths) (nodes d !! runtime_activation_journal paths).
Proof. done. Qed.

Lemma uncommitted_consistent old new X Y : optional_pointer_invalid old = false → pointer_validate new = true →
  uncommitted old new X Y → consistent X Y.
Proof. intros Ho Hn [HS|(ph & _ & HP)]; apply (transaction_consistent old new); auto; [by left|right; by exists ph]. Qed.

Lemma committed_consistent old new X Y : optional_pointer_invalid old = false → pointer_validate new = true →
  committed old new X Y → consistent X Y.
Proof.
  intros Ho Hn [HP|HS]; [apply (transaction_consistent old new); auto; right; by exists Committed|].
  exists (Some new). split; [by apply negb_false_iff|by left].
Qed.

Lemma recovered_active o r d : optional_pointer_invalid o = false →
  recovered program_files program_data o r d →
  ∀ i, r = Ok i → ∃ o, active_is o (nodes d) ∧ i = option_map installed o.
Proof.
  intros Ho Hr i Hi. destruct (Hr i Hi) as (-> & X & [<- HY] & HX). exists o. split; [|done].
  split; [done|]. by split.
Qed.

(** Every state of the run was consistent, so the last is. *)
Lemma spec_ends {A : Type} (m : M Disk A) (R : A → Disk → Prop) d :
  view_of consistent (nodes d) → spec (view_of consistent) m R d →
  spec (view_of consistent) m (λ a d', view_of consistent (nodes d') ∧ R a d') d.
Proof. intros Hd Hm. eapply spec_post; [exact Hm|]. intros a d' Hr HR. split; [by apply (run_nodes _ _ _ Hr)|done]. Qed.

#[local] Hint Extern 0 RuntimeServices => exact (store_services paths) : typeclass_instances.

Section Recovery.
Context (inspect : option Path → option Path → M Disk (result RuntimeServiceBinding SetupError))
  (restore_binding : Path → option Path → M Disk (result unit SetupError)).
Context (Hinspect : ∀ c p, framed (inspect c p)) (Hrestore : ∀ c p, framed (restore_binding c p)).

Lemma settles_recover_with_binding : settles (recover_with_service_binding paths inspect restore_binding).
Proof.
  intros d Hd. pose proof Hd as (old & Ho & Hcase). apply spec_ends; [done|].
  destruct Hcase as [[HY HX]|(new & ph & Hnew & HP)].
  - eapply spec_post; [eapply (recover_binding_settled program_files program_data Hsight inspect restore_binding);
      [split; [reflexivity|exact HY]|exact HX]|].
    intros r d' _ Hr. by eapply recovered_active.
  - assert (uncommitted old new (nodes d !! runtime_pointer paths) (nodes d !! runtime_activation_journal paths) ∨
      committed old new (nodes d !! runtime_pointer paths) (nodes d !! runtime_activation_journal paths)) as [HU|HC].
    { destruct (decide (ph = Committed)) as [->|Hne]; [right; by left|left; right; eauto]. }
    + eapply spec_mono; [eapply (recover_binding_uncommitted_at program_files program_data old new Ho Hnew Hsight);
        try done; [apply materialize_framed|intros; apply verify_framed]| |].
      * intros n [[EX EY]|[Hn _]]; [unfold in_view; rewrite EX, EY; exact Hd|by eapply uncommitted_consistent].
      * intros r d' _ [Hr _]. by eapply recovered_active.
    + eapply spec_mono; [eapply (recover_binding_committed_at program_files program_data old new Ho Hnew Hsight);
        try done; [apply materialize_framed|intros; apply verify_framed]| |].
      * intros n Hn. by eapply committed_consistent.
      * intros r d' _ [Hr _]. eapply recovered_active; [|exact Hr]. by apply negb_false_iff.
Qed.

Lemma settles_runtime_recovery : settles (recover_runtime_with_service_binding paths inspect restore_binding).
Proof.
  intros d Hd. unfold recover_runtime_with_service_binding.
  eapply spec_try; [by apply keeps_leaves, Hd; apply leaves_recover_repair|cbv beta..].
  - intros [] d1 _ Hd1. by apply settles_recover_with_binding.
  - by intros e d1 _ Hd1.
Qed.
End Recovery.

Lemma settles_recover : settles (recover paths).
Proof.
  intros d Hd. pose proof Hd as (old & Ho & Hcase). apply spec_ends; [done|].
  destruct Hcase as [[HY HX]|(new & ph & Hnew & HP)].
  - eapply spec_post; [eapply (recover_settled program_files program_data Hsight); [split; [reflexivity|exact HY]|exact HX]|].
    intros r d' _ Hr. by eapply recovered_active.
  - destruct (decide (ph = Committed)) as [->|Hne].
    + eapply spec_mono; [eapply (recover_committed_at program_files program_data old new Ho Hnew Hsight);
        [apply materialize_framed|intros; apply verify_framed|apply here|by left]| |].
      * intros n Hn. by eapply committed_consistent.
      * intros r d' _ Hr. eapply recovered_active; [|exact Hr]. by apply negb_false_iff.
    + eapply spec_mono; [eapply (recover_uncommitted_at program_files program_data old new Ho Hnew Hsight);
        [apply materialize_framed|apply here|right; eauto]| |].
      * intros n Hn. by eapply uncommitted_consistent.
      * intros r d' _ Hr. by eapply recovered_active.
Qed.

Lemma settles_recover_runtime : settles (recover_runtime paths).
Proof.
  intros d Hd. unfold recover_runtime.
  eapply spec_try; [by apply keeps_leaves, Hd; apply leaves_recover_repair|cbv beta..].
  - intros [] d1 _ Hd1. by apply settles_recover.
  - by intros e d1 _ Hd1.
Qed.

(** ** Deploying *)

(** A deployment begins with no receipt. *)
Lemma reject_pending_at P d :
  spec P (reject_pending_runtime_transaction paths) (λ r d', nodes d' = nodes d ∧
    (r = Ok tt → nodes d !! runtime_activation_journal paths = None)) d.
Proof.
  unfold reject_pending_runtime_transaction, transaction_journals. cbn [reject_pending].
  eapply spec_bind; [by apply symlink_metadata_at|]. intros [n|e] d1 _ [Hn1 He].
  { apply spec_ret. by split. }
  destruct (not_found e); [|by apply spec_ret; split].
  eapply spec_bind; [by apply symlink_metadata_at|]. intros [n|e'] d2 _ [Hn2 _]; [apply spec_ret; split; [congruence|done]|].
  destruct (not_found e'); apply spec_ret; (split; [congruence|]); auto.
Qed.

Lemma load_version P package d :
  spec P (payload_load package) (λ r d', nodes d' = nodes d ∧ ∀ payload, r = Ok payload →
    ∃ new, version new = verified_version (verified payload) ∧ new_pointer (version new) = Ok new) d.
Proof.
  eapply spec_post; [apply payload_load_spec|]. intros r d' _ [Hn Hr]. split; [done|]. intros payload Hp.
  destruct (Hr payload Hp) as [[json (m & _ & _ & Hv & _ & _ & _ & Ev)%verify_runtime_manifest_spec] _].
  exists {| pointer_schema := RUNTIME_POINTER_SCHEMA; version := verified_version (verified payload) |}. split; [done|].
  unfold new_pointer. cbn [version]. unfold pointer_validate. cbn [pointer_schema version].
  rewrite N.eqb_refl, Ev. cbn [verified_version]. by rewrite valid_version_is_component.
Qed.

Lemma stage_at (S : View) payload replace d :
  view_of S (nodes d) →
  spec (view_of S) (stage paths payload replace (replace_runtime_payload paths)) (λ r d', view_of S (nodes d') ∧
    ∀ p, r = Ok p → path_join p SERVICE_BINARY = service_binary_of paths (verified_version (verified payload))) d.
Proof.
  intros Hd. unfold stage. eapply spec_try; [apply (leaves_at _ S); [|exact Hd]|cbv beta|by intros].
  { apply leaves_with_err, leaves_stage_payload. }
  intros [] d1 _ Hd1. eapply spec_try; [apply (leaves_at _ S); [|exact Hd1]|cbv beta|by intros].
  { apply leaves_with_err, leaves_receipt. }
  intros [] d2 _ Hd2. apply spec_ret. split; [done|]. by intros p <-%(inj Ok).
Qed.

Section Deploy.
Context {T : Type} (package : FixedPayload) (prepare : Path → M Disk (result T SetupError))
  (health_check : Path → T → M Disk (result unit SetupError)) (replace_invalid : bool).
Context (Hprep : ∀ binary, framed (prepare binary)) (Hhealth : ∀ binary t, framed (health_check binary t)).

(** The new generation is active, or becomes so with the next recovery: its receipt is
    committed.  Preparation and health check succeeded for it. *)
Definition deployed (old : option RuntimePointer) (new : RuntimePointer) (m : Nodes) : Prop :=
  pointer_validate new = true ∧ view_of (committed old new) m ∧
  was_prepared program_files program_data old new (service_binary_of paths (version new)) prepare ∧
  was_healthy program_files program_data old new (service_binary_of paths (version new)) health_check.

Lemma deploy_at old d :
  optional_pointer_invalid old = false → view_of (from_old old) (nodes d) →
  spec (view_of (λ X Y, from_old old X Y ∨ ∃ new, pointer_validate new = true ∧ committed old new X Y))
    (deploy paths package prepare health_check replace_invalid true)
    (λ r d', match r with
             | Ok (i, t) => ∃ new, deployed old new (nodes d') ∧
                 went_through (service_binary_of paths (version new)) prepare health_check d d' ∧ i = installed new
             | Err _ => view_of (λ X Y, from_old old X Y ∨ ∃ new, pointer_validate new = true ∧ committed old new X Y) (nodes d')
             end) d.
Proof.
  intros Ho Hd. unfold deploy. try_then reject_pending_at; [|intros e d1 _ [-> _]; by left].
  intros [] d1 Hl1%run_later [Hn1 HY]. specialize (HY eq_refl). rewrite <- Hn1 in *. clear Hn1.
  assert (view_of (settled old) (nodes d1)) as Hset.
  { destruct Hd as [|(new & ph & _ & (b & _ & Hb) & _)]; [done|]. unfold in_view in *. by rewrite HY in Hb. }
  try_then load_version; [|intros e d2 _ [-> _]; by left; left].
  intros payload d2 Hl2%run_later [Hn2 Hp]. destruct (Hp payload eq_refl) as (new & Hv & Hnew). rewrite <- Hn2 in Hset.
  clear Hd HY Hp Hn2. rewrite <- Hv. pose proof (proj2 (proj1 (new_pointer_valid _ _) Hnew)) as Hvalid.
  eapply spec_try; [eapply spec_mono; [by apply (stage_at (settled old))| |intros r d3 _ Hr; exact Hr]|cbv beta..].
  { intros n Hn. by left; left. }
  2: { intros e d3 _ [Hd3 _]. by left; left. }
  intros destination d3 Hl3%run_later [[HY HX] Hb]. rewrite (Hb destination eq_refl), <- Hv.
  eapply spec_try; [eapply spec_mono; [eapply (activate_at program_files program_data old new Ho Hvalid Hsight);
    [apply materialize_framed|apply Hprep|intros; apply Hhealth|done|split; [reflexivity|exact HY]|exact HX]| |
    intros r d4 Hr Hout; exact (conj Hr Hout)]|cbv beta..].
  { intros n [[HS|[ph HP]] _]; left; [by left|right; eauto]. }
  2: { intros e d4 _ [Hr _]. eapply run_nodes; [eapply run_mono; [exact Hr|]|].
       - intros n [[HS|[ph HP]] _]; left; [by left|right; eauto].
       - left; left. by split. }
  intros [o n t] d4 _ [_ Hout]. cbn in Hout. destruct Hout as (-> & -> & Hwp & Hwh & Hgone & X & Y & Hd4 & HX4 & HY4).
  eapply spec_try; [eapply spec_mono; [eapply (finalize_at program_files program_data old new Hsight t);
    [intros; apply retain_framed|exact Hd4|exact HX4|exact HY4]| |intros r d5 _ Hr; exact Hr]|cbv beta..].
  { intros n' Hn. right. eauto. }
  2: { intros e d5 _ (Y' & [<- <-] & HC & _). right. eauto. }
  intros t' d5 Hl5%run_later (Y' & [<- <-] & HC & _). apply spec_ret. exists new. split; [by split_and!|]. split; [|done].
  destruct Hgone as (e1 & t0 & e2 & e3 & e4 & Hl & Hp & Hl' & Hh & Hl4). exists e1, t0, e2, e3, e4.
  split_and!; [do 3 (etrans; [eassumption|]); exact Hl|done|done|done|by etrans].
Qed.

Lemma keeps_deploy : keeps (deploy paths package prepare health_check replace_invalid true).
Proof.
  intros d (old & Ho & Hd). eapply spec_mono; [by apply (deploy_at old)| |].
  - intros n [Hn|(new & Hv & HC)]; [by exists old|by eapply committed_consistent].
  - intros [[i t]|e] d' _ Hr.
    + destruct Hr as (new & (Hv & HC & _) & _). by eapply committed_consistent.
    + destruct Hr as [Hn|(new & Hv & HC)]; [by exists old|by eapply committed_consistent].
Qed.
End Deploy.

Lemma keeps_repair {T : Type} package (prepare : Path → M Disk (result T SetupError)) health_check :
  (∀ binary, framed (prepare binary)) → (∀ binary t, framed (health_check binary t)) →
  keeps (repair_current_with_prepare_and_health_check paths package prepare health_check).
Proof.
  intros Hprep Hhealth. unfold repair_current_with_prepare_and_health_check.
  apply keeps_try; [|intros _; by apply keeps_deploy]. apply keeps_leaves.
  pose proof (leaves_reject_transaction program_files program_data transaction_file).
  pose proof (leaves_current program_files program_data transaction_file). pose proof (leaves_load transaction_file).
  unfold validate_repair_payload. frame.
Qed.

Lemma keeps_restore_pinned health_check :
  (∀ binary, leaves transaction_file (health_check binary)) →
  keeps (restore_pinned_current_with_health_check paths health_check).
Proof.
  intros Hhealth. unfold restore_pinned_current_with_health_check.
  apply keeps_try; [apply settles_keeps, settles_recover_runtime|]. intros _. apply keeps_leaves.
  pose proof (leaves_current program_files program_data transaction_file).
  pose proof (leaves_verify_pinned program_files program_data transaction_file). frame.
Qed.

(** ** Inspecting *)

Lemma transaction_pending_spec P d :
  spec P (transaction_pending paths) (λ b d', nodes d' = nodes d ∧
    (b = false → node_exists (nodes d) (runtime_activation_journal paths) = false)) d.
Proof.
  unfold transaction_pending. spec_then path_exists_spec. intros activation d1 _ (Hn1 & _ & Ha).
  specialize (Ha (sees Hsight)). destruct activation; [by apply spec_ret|].
  eapply spec_post; [apply path_exists_spec|]. intros b d2 _ (Hn2 & _). split; [congruence|done].
Qed.

Lemma settled_unless_pending old m : view_of (from_old old) m →
  node_exists m (runtime_activation_journal paths) = false → view_of (settled old) m.
Proof.
  intros [HS|(new & ph & _ & (b & _ & Hb) & _)] Hno; [done|]. unfold node_exists in Hno. by rewrite Hb in Hno.
Qed.

(** The runtime that an inspection reports is active, and nothing is under way. *)
Lemma inspect_current_at P old d :
  view_of (from_old old) (nodes d) →
  spec P (inspect_current_stable paths) (λ r d',
    ∀ i, r = Ok i → view_of (settled old) (nodes d') ∧ i = option_map installed old) d.
Proof.
  intros Hd. unfold inspect_current_stable. cbv zeta.
  spec_then transaction_pending_spec. intros pending d1 _ [Hn1 Hp]. destruct pending; [by apply spec_ret|].
  assert (view_of (settled old) (nodes d1)) as [HY HX] by (rewrite Hn1; apply settled_unless_pending; auto).
  try_then (current_at program_files program_data Hsight P d1 old); [exact HX|apply here| |done].
  intros found d2 _ [Hd2 Hfound]. specialize (Hfound found eq_refl).
  apply (spec_try _ _ _ (λ _ d3, nodes d3 = nodes d2)); [| |done].
  { destruct found as [i|]; [|by apply spec_ret]. destruct (path_parent _); [|by apply spec_ret].
    eapply spec_post; [apply store_verify_spec|]. by intros r d3 _ [? _]. }
  intros [] d3 _ Hn3. spec_then transaction_pending_spec. intros pending d4 _ [Hn4 _].
  destruct pending; apply spec_ret; [done|]. intros i <-%(inj Ok). split; [|done].
  unfold in_view. destruct Hd2 as [EX EY]. by rewrite Hn4, Hn3, EX, EY.
Qed.
End Consistency.
