(* ===== verification/SetupBrokerFrames.v ===== *)
(** * What a run of the setup program leaves alone

    Every step of the setup program but the recovery, the deployment and the removal of
    the runtime leaves the pointer of the active runtime and the receipt of the
    activation as they are: the lock, the event log, the hardening of directories, the
    service manager, the observation of other installations and the store of profiles. *)

From S2P Require Export DeploymentSafety ServiceManagerSafety SetupBroker.

Lemma quiet_leaves `{World} {A : Type} Q (m : M Disk A) : quiet_call m → leaves Q m.
Proof. intros Hm. apply leaves_quiet. intros P d. eapply spec_post; [apply Hm|]. by intros a d' _ [? _]. Qed.

Lemma leaves_eq {A : Type} Q (m m' : M Disk A) : (∀ d, m d = m' d) → leaves Q m' → leaves Q m.
Proof. intros E Hm d. specialize (Hm d). unfold spec, wp in *. by rewrite E. Qed.

Lemma leaves_try_ret `{World} {A B E : Type} Q (r : result A E) (k : A → M Disk (result B E)) :
  (∀ a, r = Ok a → leaves Q (k a)) → leaves Q (let? x := ret r in k x).
Proof. intros Hk. destruct r as [a|e]; [by apply (Hk a)|apply leaves_ret]. Qed.

Lemma ok_or_some {A E : Type} (o : option A) (e : E) a : ok_or o e = Ok a → o = Some a.
Proof. destruct o; [by intros ->%(inj Ok)|done]. Qed.

Section Quiet.
Context `{World, Windows, EventJson, !Setup, !Desktop, !Locking, HealthJson, DebugFormat, BuildFeatures} (Q : Path → Prop).

Lemma heeds_leaves {A : Type} root (m : M Disk A) (R : A → list Answered → Prop) :
  (∀ P d, heeds P root [] m R d) → leaves Q m.
Proof. intros Hm. apply leaves_quiet. intros P d. eapply spec_post; [apply Hm|]. by intros a d' _ [? _]. Qed.

Lemma leaves_stop root : leaves Q (stop root).
Proof. eapply heeds_leaves. intros. apply stop_heeds. Qed.

Lemma leaves_remove root : leaves Q (ServiceManager.remove root).
Proof. eapply heeds_leaves. intros. apply remove_heeds. Qed.

Lemma leaves_install root binary : leaves Q (install root binary).
Proof. eapply heeds_leaves. intros. apply install_heeds. Qed.

Lemma leaves_running root : leaves Q (is_running root).
Proof. eapply heeds_leaves. intros. apply running_heeds. Qed.

Lemma leaves_observe root : leaves Q (observe_fixed_service root).
Proof. eapply heeds_leaves. intros. apply fixed_heeds. Qed.

Lemma leaves_observe_legacy : leaves Q observe_legacy_service.
Proof. eapply (heeds_leaves []). intros. apply legacy_heeds. Qed.

Lemma leaves_points_to root binary : leaves Q (owned_service_points_to root binary).
Proof. eapply heeds_leaves. intros. apply points_heeds. Qed.

Lemma leaves_connect : leaves Q connect.
Proof.
  eapply (heeds_leaves [] _ (λ _ _, True)). intros P d. unfold connect, lift_io. apply heeds_call; [auto with heed|].
  intros a d' _. by apply heeds_ret.
Qed.

Lemma leaves_lock : leaves Q acquire_setup_lock.
Proof.
  unfold acquire_setup_lock, acquire_named_with_timeout.
  apply leaves_try; [apply quiet_leaves, descriptor_quiet|]. intros _.
  apply leaves_bind; [apply quiet_leaves, create_quiet|]. intros [mutex|error]; [|apply leaves_ret].
  apply leaves_try; [apply quiet_leaves, verify_quiet|]. intros _.
  apply leaves_bind; [apply quiet_leaves, acquire_quiet|]. intros; apply leaves_ret.
Qed.
End Quiet.

#[export] Hint Resolve leaves_stop leaves_remove leaves_install leaves_running leaves_observe leaves_observe_legacy
  leaves_points_to leaves_connect leaves_lock : frame.

(** ** Looking for other installations *)

Section Observing.
Context `{World, !Desktop} (Q : Path → Prop).

#[local] Hint Extern 1 (leaves _ _) => (apply quiet_leaves; first
  [apply registry_open_quiet|apply registry_values_quiet|apply registry_dword_quiet|apply registry_units_quiet
  |apply processes_quiet|apply session_quiet|apply apartment_quiet|apply startup_quiet|apply shortcut_quiet
  |apply link_quiet]) : frame.

Lemma leaves_views conflict views : leaves Q (observe_views conflict views).
Proof.
  revert conflict. induction views as [|view views IH]; intros conflict; cbn [observe_views]; [apply leaves_ret|].
  unfold read_enabled, observe_view_with, read_dlls, open_appinit_key, or_unknown. frame.
Qed.

Lemma leaves_appinit : leaves Q observe_appinit_conflict.
Proof. pose proof leaves_views. unfold observe_appinit_conflict. frame. Qed.

Lemma leaves_processes processes : leaves Q (observe_processes processes).
Proof. induction processes as [|entry processes IH]; cbn [observe_processes]; frame. Qed.

Lemma leaves_run_view root view : leaves Q (observe_run_view root view).
Proof. unfold observe_run_view. frame. Qed.

Lemma leaves_startup_entry p name : leaves Q (observe_startup_entry p name).
Proof. unfold observe_startup_entry, inspect_shortcut, startup_text_might_launch_mactray, fs_symlink_metadata, fs_metadata. frame. Qed.

Lemma leaves_startup_entries folder names : leaves Q (observe_startup_entries folder names).
Proof. pose proof leaves_startup_entry. induction names as [|name names IH]; cbn [observe_startup_entries]; frame. Qed.

Lemma leaves_tray : leaves Q observe_tray_conflict.
Proof.
  pose proof leaves_processes. pose proof leaves_run_view. pose proof leaves_startup_entries.
  unfold observe_tray_conflict, observe_interactive_processes, observe_run_entries, observe_startup_folders, fs_read_dir. frame.
Qed.
End Observing.

#[export] Hint Resolve leaves_appinit leaves_tray : frame.

(** ** The steps of a run *)

Section Run.
Context `{World, Windows, EventJson, !Setup, !Desktop, !Locking, HealthJson, DebugFormat, BuildFeatures, Distribution}.
Context `{Sha256, ActivationJson, PointerJson, StoreJson, DeferredDelete, RepairJson, ProfileStoreJson, !DeferredDeleteLaws}.

Notation program_files := (machine_folder ProgramFilesFolder).
Notation program_data := (machine_folder ProgramDataFolder).
Notation paths := (machine_layout program_files program_data).
Notation tf := (transaction_file program_files program_data).

Context (Hapart : unrelated program_files program_data).

(** The runtime is in one folder, the profiles and the logs are in the other. *)
Lemma data_unrelated q t : tf q → unrelated q (program_data ++ t)%list.
Proof. intros [-> | ->]; cbn; unfold path_join; rewrite <- !app_assoc; by apply unrelated_app. Qed.

Lemma log_apart q : tf q → SetupEvents.apart (event_log_dir machine_here) q.
Proof.
  intros Hq. assert (event_log_dir machine_here = (program_data ++ ["MacType"; "ControlCenter"; "logs"])%list) as ->
    by (cbn; unfold path_join; by rewrite <- !app_assoc).
  destruct (data_unrelated q ["MacType"; "ControlCenter"; "logs"] Hq) as [Ha Hb]. split; [by intros Hin%ancestors_prefix|].
  by apply bool_decide_eq_false.
Qed.

Lemma transaction_outside q : tf q → outside (paths := paths) q.
Proof.
  intros Hq. split; [|split].
  - by apply (transaction_not_hidden program_files program_data).
  - intros v. assert (runtime_versions paths `prefix_of` generated paths v) as Hp
      by (eexists [v; GENERATED_PROFILE_NAME]; unfold generated, path_join; by rewrite <- !app_assoc).
    destruct (transaction_off program_files program_data "bin" _ q (or_introl eq_refl) Hp Hq) as [_ Hn]. exact Hn.
  - intros t. assert (∀ s, profile_generations paths ++ s = program_data ++ ["MacType"; "ControlCenter"; "generations"] ++ s)%list as E
      by (intros s; cbn; unfold path_join; by rewrite <- !app_assoc).
    destruct (data_unrelated q (["MacType"; "ControlCenter"; "generations"] ++ t)%list Hq) as [Ha _].
    destruct (data_unrelated q ["MacType"; "ControlCenter"; "generations"] Hq) as [_ Hb].
    split; [|by rewrite E]. specialize (E []). rewrite !app_nil_r in E. by rewrite E.
Qed.

Lemma store_file_untouched p q : p ∈ store_files (paths := paths) → tf q → untouched p q.
Proof.
  intros Hp Hq. apply untouched_spec. split; [by apply (transaction_not_hidden program_files program_data)|].
  assert (∃ t, p = program_data ++ t)%list as [t ->].
  { unfold store_files in Hp. cbn in Hp. unfold path_join in Hp. rewrite <- !app_assoc in Hp.
    repeat (apply elem_of_cons in Hp as [->|Hp]; [by eexists|]). by apply elem_of_nil in Hp. }
  by destruct (data_unrelated q t Hq).
Qed.

Lemma leaves_start root digest : leaves tf (start_and_wait_ready_for root digest).
Proof. eapply heeds_leaves. intros. apply start_heeds. Qed.

Lemma leaves_harden_here p : leaves tf (harden_machine_directory p).
Proof. apply leaves_harden. Qed.

Lemma leaves_write_here severity code ps detail redactions : leaves tf (write_event severity code ps detail redactions).
Proof. apply leaves_write_event, log_apart. Qed.

Lemma leaves_prepare_log_here : leaves tf (prepare_event_log_directory paths).
Proof. apply (leaves_prepare_log tf), log_apart. Qed.

Lemma leaves_reconfigure root binary : leaves tf (reconfigure root binary).
Proof.
  eapply leaves_eq; [apply reconfigure_eq|]. apply leaves_try.
  - eapply heeds_leaves. intros. apply configure_heeds.
  - intros fields. apply leaves_bind; [|intros; apply leaves_ret]. destruct fields; [apply leaves_ret|apply leaves_write_here].
Qed.

#[local] Hint Resolve leaves_start leaves_harden_here leaves_write_here leaves_prepare_log_here leaves_reconfigure : frame.

Lemma leaves_rollback_completed command : leaves tf (rollback_completed command).
Proof. apply leaves_write_here. Qed.

Lemma leaves_recover_profile_here : leaves tf (recover_interrupted_activation paths).
Proof. apply leaves_recover_profile; [apply transaction_outside|apply store_file_untouched]. Qed.

Lemma leaves_publish_here bytes metadata : leaves tf (publish_and_activate paths bytes metadata).
Proof. apply leaves_publish; [apply transaction_outside|apply store_file_untouched]. Qed.

Lemma leaves_rollback_here : leaves tf (store_rollback paths).
Proof. apply leaves_store_rollback; [apply transaction_outside|apply store_file_untouched]. Qed.

Lemma leaves_inspect_profile_here : leaves tf (inspect_active_generation_stable paths).
Proof. apply leaves_inspect_profile. Qed.

Lemma leaves_synchronize_here : leaves tf (synchronize_active_runtime paths).
Proof. apply leaves_synchronize; [apply transaction_outside|apply store_file_untouched]. Qed.
#[local] Hint Resolve leaves_rollback_completed leaves_recover_profile_here leaves_publish_here leaves_rollback_here
  leaves_inspect_profile_here leaves_synchronize_here : frame.

Lemma leaves_known_paths : leaves tf known_machine_paths.
Proof. apply leaves_quiet. intros P d. eapply spec_post; [apply known_machine_spec|]. by intros r d' _ [? _]. Qed.

Lemma leaves_executable : leaves tf current_executable.
Proof. apply quiet_leaves. exact executable_quiet. Qed.

Lemma leaves_beside : leaves tf beside_setup_executable.
Proof. pose proof leaves_executable. unfold beside_setup_executable. frame. Qed.

(** The directories that are made are in the root of the service or in that of the data. *)
Lemma leaves_create_root : leaves tf (create_protected_directory (service_root paths)).
Proof.
  apply leaves_protected_directory. intros q Hq Hin%ancestors_prefix.
  destruct (transaction_child program_files program_data q Hq) as (name & -> & _). by apply child_not_prefix in Hin.
Qed.

Lemma leaves_create_data data : path_parent (active_profile paths) = Some data → leaves tf (create_protected_directory data).
Proof.
  intros Hp. apply leaves_protected_directory. intros q Hq Hin%ancestors_prefix.
  destruct (path_parent_spec _ _ Hp) as [name Hname].
  assert (unrelated q (active_profile paths)) as [Ha _].
  { assert (active_profile paths = (program_data ++ ["MacType"; "ControlCenter"; "active.json"])%list) as ->
      by (cbn; unfold path_join; by rewrite <- !app_assoc). by apply data_unrelated. }
  apply Ha. rewrite Hname. etrans; [exact Hin|by eexists].
Qed.
#[local] Hint Resolve leaves_known_paths leaves_executable leaves_beside leaves_create_root leaves_create_data : frame.

Notation root := (service_root paths).

Lemma leaves_inspect_binding candidate previous : leaves tf (inspect_binding paths candidate previous).
Proof. unfold inspect_binding. frame. Qed.

Lemma leaves_restore_binding candidate previous : leaves tf (restore_previous_binding paths candidate previous).
Proof. unfold restore_previous_binding. frame. Qed.

Lemma leaves_harden_runtime : leaves tf (harden_runtime_if_installed paths).
Proof. unfold harden_runtime_if_installed, is_file. frame. Qed.
#[local] Hint Resolve leaves_harden_runtime : frame.

Lemma leaves_broker_publish input : leaves tf (broker_publish paths input).
Proof.
  unfold broker_publish. apply leaves_try_ret. intros bytes _. apply leaves_try_ret. intros data Hdata%ok_or_some. frame.
Qed.

Lemma leaves_broker_rollback : leaves tf (broker_rollback paths).
Proof. unfold broker_rollback. frame. Qed.

Lemma leaves_inspect_snapshot : leaves tf (inspect_snapshot paths).
Proof. pose proof (leaves_inspect_current program_files program_data tf). unfold inspect_snapshot. frame. Qed.
#[local] Hint Resolve leaves_inspect_binding leaves_restore_binding leaves_broker_publish leaves_broker_rollback
  leaves_inspect_snapshot leaves_inspect_current leaves_current leaves_reject_transaction : frame.

Lemma leaves_captured (Q : Path → Prop) b : leaves Q (modify (set_captured b)).
Proof. apply leaves_quiet. intros P d. split; [|by destruct d]. by exists []; destruct d; split_and!; [|constructor|..]. Qed.

(** What the installation of a bootstrap prepares. *)
Lemma leaves_prepare_profile mode : leaves tf (prepare_profile paths mode).
Proof.
  unfold prepare_profile. destruct mode.
  - apply leaves_try; [frame|]. intros [active|]; [frame|]. apply leaves_try_ret. intros data Hdata%ok_or_some.
    apply leaves_try; [frame|]. intros _. apply leaves_try; [frame|]. intros _. apply leaves_try; [frame|]. intros generation.
    apply leaves_bind; [apply leaves_captured|]. intros; apply leaves_ret.
  - apply leaves_try_ret. intros generation _. frame.
  - frame.
Qed.

Lemma leaves_prepare_bootstrap snapshot plan binary : leaves tf (prepare_bootstrap paths snapshot plan binary).
Proof.
  pose proof leaves_prepare_profile. unfold prepare_bootstrap. apply leaves_try; [done|]. intros generation.
  apply leaves_try; [destruct generation; [apply leaves_try_ret; intros data _; frame|frame]|]. intros _. frame.
Qed.

Lemma leaves_bootstrap_health plan generation : leaves tf (bootstrap_health paths plan generation).
Proof.
  unfold bootstrap_health, start_and_wait_ready_for_profile. destruct (negb _); [frame|]. apply leaves_try_ret. intros digest _. frame.
Qed.

Lemma leaves_restart_failures snapshot previous : leaves tf (restart_failures paths snapshot previous).
Proof. unfold restart_failures, start_and_wait_ready_for_profile. frame. Qed.

Lemma leaves_remove_observed observed : leaves tf (remove_observed_service paths observed).
Proof. unfold remove_observed_service. frame. Qed.

Lemma leaves_canonicalize p : leaves tf (canonicalize p).
Proof. apply leaves_quiet. intros P d. eapply spec_post; [apply (canonicalize_unheard P p)|]. by intros ??? [? _]. Qed.

Lemma leaves_validate_installer : leaves tf (validate_and_harden_installer_root paths).
Proof.
  unfold validate_and_harden_installer_root. do 2 (apply leaves_try_ret; intros ? _).
  pose proof leaves_canonicalize. frame.
Qed.
End Run.

#[export] Hint Resolve leaves_start leaves_harden_here leaves_write_here leaves_prepare_log_here leaves_reconfigure
  leaves_rollback_completed leaves_recover_profile_here leaves_publish_here leaves_rollback_here leaves_inspect_profile_here
  leaves_synchronize_here leaves_known_paths leaves_executable leaves_beside leaves_create_root leaves_create_data
  leaves_harden_runtime leaves_inspect_binding leaves_restore_binding leaves_broker_publish leaves_broker_rollback
  leaves_inspect_snapshot leaves_inspect_current leaves_current leaves_reject_transaction leaves_verify_pinned leaves_load
  leaves_prepare_bootstrap leaves_bootstrap_health leaves_restart_failures leaves_remove_observed
  leaves_validate_installer : frame.
