(* ===== verification/SetupBrokerSafety.v ===== *)
(** * What every run of the setup program preserves

    The runs of [SetupBroker.v] and the active runtime: every run ends, and in every
    state that any sequence of runs passes through, each cut off anywhere, the pointer
    of the active runtime and the receipt of the activation are those of one activation,
    so that the recovery at the start of the next run can settle it.  A failed upgrade
    says so when it could not put the previous runtime back. *)

From S2P Require Export SetupBrokerFrames UninstallFacts.
From S2P Require ProfileStoreFacts.

Create HintDb keep.

Ltac keep_step :=
  match goal with
  | |- keeps _ _ (let _ := _ in _) => cbv zeta
  | |- keeps _ _ (match ?x with _ => _ end) => destruct x eqn:?
  | |- keeps _ _ (bind _ _) => apply keeps_then; [|intros ?]
  | |- keeps _ _ (with_err _ _) => apply keeps_with_err
  | |- keeps _ _ (ret _) => apply keeps_return
  | |- keeps _ _ _ => solve [eauto with keep | apply keeps_leaves; frame]
  end.
Ltac keep := repeat keep_step.

Section Safety.
Context `{World, Windows, EventJson, !Setup, !Desktop, !Locking, HealthJson, DebugFormat, BuildFeatures, Distribution}.
Context `{Sha256, ActivationJsonLaws, PointerJson, StoreJson, DeferredDelete, RepairJson, ProfileStoreJson, !DeferredDeleteLaws}.

Notation program_files := (machine_folder ProgramFilesFolder).
Notation program_data := (machine_folder ProgramDataFolder).
Notation paths := (machine_layout program_files program_data).
Notation root := (service_root paths).
Notation tf := (transaction_file program_files program_data).
Notation keeps := (keeps program_files program_data).
Notation view_of S := (in_view program_files program_data S).

Context (Hapart : unrelated program_files program_data) (Hsight : truthful).

(** ** Removing the runtime *)

Lemma keeps_remove_owned before : keeps before → keeps (remove_owned paths before).
Proof.
  intros Hbefore. unfold remove_owned. apply keeps_try; [|intros planned; apply keeps_try; [done|intros _]].
  { apply keeps_leaves, leaves_quiet. intros P d. eapply spec_post; [apply prepare_spec|]. by intros r d' _ [? _]. }
  intros d Hd. eapply spec_try; [apply prepare_spec|cbv beta|by intros e d1 _ [-> _]].
  intros plan d1 _ [Hn Hplan]. destruct (Hplan plan eq_refl) as [Hprepared _]. rewrite <- Hn in Hd.
  case_bool_decide; [by apply spec_ret|]. destruct Hprepared as [->|[Howned Hof]].
  { unfold execute_owned_removal. by apply spec_ret. }
  rewrite <- Hn in Howned, Hof. clear Hn Hplan d.
  assert (nodes d1 !! runtime_activation_journal paths = None) as HY.
  { destruct (nodes d1 !! runtime_activation_journal paths) eqn:E; [|done]. exfalso.
    assert (owned_entry "runtime-activation.json" = true); [|done].
    apply (owned_entries _ _ _ Howned). unfold in_root. exact (mk_is_Some _ _ E). }
  assert (∀ m, erases (removable program_files program_data (nodes d1)) (nodes d1) m → view_of consistent m) as Herased.
  { intros m Hm. destruct Hd as (old & Ho & [[_ HX]|(new & ph & _ & (b & _ & Hb) & _)]); [|by rewrite HY in Hb].
    assert (m !! runtime_activation_journal paths = None) as HY' by (destruct (Hm (runtime_activation_journal paths)) as [->|[_ ?]]; done).
    destruct (Hm (runtime_pointer paths)) as [EX|[_ EX]].
    - exists old. split; [done|]. left. split; [done|]. by rewrite EX.
    - exists None. split; [done|]. left. by split. }
  eapply spec_mono; [apply (execute_erasing _ _ (nodes d1) plan Hof)|exact Herased|]. intros r d2 _. apply Herased.
Qed.

(** ** The commands *)

Lemma settles_runtime_recovery_here : settles program_files program_data (runtime_recovery paths).
Proof. apply settles_runtime_recovery; [done| |]; intros c p; apply leaves_framed; frame. Qed.

Lemma keeps_recovery : keeps (runtime_recovery paths).
Proof. apply settles_keeps, settles_runtime_recovery_here. Qed.

Lemma keeps_deployment {T : Type} package (prepare : Path → M Disk (result T SetupError)) health_check :
  (∀ binary, leaves tf (prepare binary)) → (∀ binary t, leaves tf (health_check binary t)) →
  keeps (deploy_with_prepare_and_health_check paths package prepare health_check).
Proof. intros Hp Hh. apply keeps_deploy; [done| |]; intros; by apply leaves_framed. Qed.

Lemma keeps_repairing {T : Type} package (prepare : Path → M Disk (result T SetupError)) health_check :
  (∀ binary, leaves tf (prepare binary)) → (∀ binary t, leaves tf (health_check binary t)) →
  keeps (repair_current_with_prepare_and_health_check paths package prepare health_check).
Proof. intros Hp Hh. apply keeps_repair; [done| |]; intros; by apply leaves_framed. Qed.
#[local] Hint Resolve keeps_recovery : keep.
#[local] Hint Extern 1 (keeps (deploy_with_prepare_and_health_check _ _ _ _)) => (apply keeps_deployment; intros; frame) : keep.
#[local] Hint Extern 1 (keeps (repair_current_with_prepare_and_health_check _ _ _ _)) => (apply keeps_repairing; intros; frame) : keep.
#[local] Hint Extern 1 (keeps (restore_pinned_current_with_health_check _ _)) => (apply keeps_restore_pinned; [done|intros; frame]) : keep.

Lemma keeps_install : keeps (broker_install paths).
Proof. unfold broker_install. keep. Qed.

Lemma keeps_restore_upgrade previous plan : keeps (restore_upgrade_state paths previous plan).
Proof. unfold restore_upgrade_state, start_and_wait_ready. keep. Qed.
#[local] Hint Resolve keeps_restore_upgrade : keep.

Lemma keeps_upgrade : keeps (broker_upgrade paths).
Proof. unfold broker_upgrade, start_and_wait_ready. keep. Qed.

Lemma keeps_repair_steps plan : keeps (repair_steps paths plan).
Proof. unfold repair_steps, start_and_wait_ready. keep. Qed.
#[local] Hint Resolve keeps_repair_steps : keep.

Lemma keeps_broker_repair : keeps (broker_repair paths).
Proof. unfold broker_repair, start_and_wait_ready. keep. Qed.

Lemma keeps_start : keeps (broker_start paths).
Proof. unfold broker_start, start_and_wait_ready. keep. Qed.

Lemma keeps_restore_runtime : keeps (broker_restore_runtime paths).
Proof. unfold broker_restore_runtime. keep. Qed.
#[local] Hint Resolve keeps_install keeps_upgrade keeps_broker_repair keeps_start keeps_restore_runtime : keep.

Lemma keeps_perform command input : keeps (perform_command paths command input).
Proof. unfold perform_command, broker_remove, broker_stop. destruct command; keep. Qed.

Lemma keeps_restore_after_failure snapshot runtime profile published :
  keeps (restore_after_failure paths snapshot runtime profile published).
Proof. unfold restore_after_failure. keep. Qed.
#[local] Hint Resolve keeps_perform keeps_restore_after_failure : keep.

Lemma leaves_gets_captured (Q : Path → Prop) : leaves Q (gets captured).
Proof. apply leaves_quiet. intros P d. by apply spec_gets. Qed.
#[local] Hint Resolve leaves_captured leaves_gets_captured : frame.

Lemma keeps_apply snapshot plan : keeps (apply_transaction paths snapshot plan).
Proof. unfold apply_transaction. keep. Qed.
#[local] Hint Resolve keeps_apply : keep.

Lemma keeps_apply_inspected inspected plan : keeps (apply_inspected paths inspected plan).
Proof. unfold apply_inspected. keep. Qed.
#[local] Hint Resolve keeps_apply_inspected : keep.

(** ** The installer *)

Lemma keeps_eq {A : Type} (m m' : M Disk A) : (∀ d, m d = m' d) → keeps m' → keeps m.
Proof. intros E Hm d Hd. specialize (Hm d Hd). unfold spec, wp in *. by rewrite E. Qed.

(** A run over the installer's backend is a computation on the disk. *)
Definition bootstrap_on_disk (policy : BootstrapStartPolicy) : M Disk (result BootstrapOutcome SetupError) :=
  let! snapshot := inspect_snapshot paths in
  match bootstrap_blocker snapshot with
  | Some reason => ret (Ok (SkippedBlocked reason))
  | None =>
      let '(plan, preserved) := bootstrap_plan policy snapshot in
      let! applied := apply_inspected paths (Some snapshot) plan in
      ret (let-? digest := applied in
           let-? active := accepted_digest (plan_profile plan) digest in
           Ok (Applied active preserved (start_service plan)))
  end.

Lemma bootstrap_with_eq policy d : bootstrap_with paths policy d = bootstrap_on_disk policy d.
Proof.
  unfold bootstrap_with, with_backend, run_install_bootstrap_with, bootstrap_on_disk.
  cbn [inspect_machine apply_atomically installer_backend]. unfold on_disk, bind. cbn [backend_disk].
  destruct (inspect_snapshot paths d) as [[snapshot d1]|]; [|done]. cbn [backend_disk inspected].
  destruct (bootstrap_blocker snapshot); [done|]. destruct (bootstrap_plan policy snapshot) as [plan preserved].
  by destruct (apply_inspected paths (Some snapshot) plan d1) as [[r d2]|].
Qed.

Definition uninstall_on_disk : M Disk (result UninstallOutcome SetupError) :=
  let! observation := observe_fixed_service root in
  match observation with
  | ServiceAbsent | OwnedStopped | OwnedRunning =>
      let! removed := remove_receipted_installation_after paths (remove_observed_service paths observation) in
      ret match removed with
          | Err error => Err (Runtime ("owned installation removal failed: " ++ display error))
          | Ok runtime_removed =>
              if bool_decide (observation = ServiceAbsent) && negb runtime_removed then Ok AlreadyAbsent else Ok Removed
          end
  | Foreign => ret (Ok (UninstallBlocked ForeignOpenService))
  | ServiceUnknown => ret (Ok (UninstallBlocked UnknownMachineState))
  end.

Lemma uninstall_with_eq d : uninstall_with paths d = uninstall_on_disk d.
Proof.
  unfold uninstall_with, with_backend, run_uninstall_owned_with, uninstall_on_disk.
  cbn [inspect_open_service remove_owned_installation uninstaller_backend]. unfold on_disk, bind. cbn [backend_disk].
  destruct (observe_fixed_service root d) as [[observation d1]|]; [|done]. cbn [backend_disk].
  destruct observation; try done;
    (destruct (remove_receipted_installation_after paths _ d1) as [[[runtime_removed|error] d2]|]; [|done..]);
    cbn [backend_disk]; by destruct (_ && _).
Qed.

Lemma keeps_bootstrap policy : keeps (bootstrap_with paths policy).
Proof. eapply keeps_eq; [apply bootstrap_with_eq|]. unfold bootstrap_on_disk. keep. Qed.

Lemma keeps_uninstall : keeps (uninstall_with paths).
Proof.
  eapply keeps_eq; [apply uninstall_with_eq|]. unfold uninstall_on_disk, remove_receipted_installation_after.
  assert (∀ observed, keeps (remove_owned paths (remove_observed_service paths observed)))
    by (intros; apply keeps_remove_owned; keep). keep.
Qed.

(** ** Whole runs *)

(** The machine's folders are where they are. *)
Lemma keeps_paths {B : Type} (k : MachinePaths → M Disk (result B SetupError)) :
  keeps (k paths) → keeps (let? p := known_machine_paths in k p).
Proof.
  intros Hk d Hd. eapply spec_try; [apply known_machine_spec|cbv beta..].
  - intros p d1 _ [Hn Hp]. rewrite (Hp p eq_refl). apply Hk. by rewrite Hn.
  - by intros e d1 _ [-> _].
Qed.

Lemma keeps_command command input : keeps (run_command command input).
Proof.
  unfold run_command. apply keeps_try; [keep|]. intros _. apply keeps_paths. unfold prepare_machine_storage_for_command. keep.
Qed.

Lemma keeps_prepare {B : Type} (k : MachinePaths → M Disk (result B SetupError)) :
  keeps (k paths) → keeps (let? p := prepare_installer in k p).
Proof.
  intros Hk. eapply keeps_eq; [intros d; unfold prepare_installer; repeat (rewrite try_assoc; apply try_cong; intros); done|].
  apply keeps_try; [keep|]. intros _. apply keeps_paths.
  do 3 (apply (keeps_try program_files program_data); [keep|intros _]). exact Hk.
Qed.

Lemma keeps_setup command input : keeps (perform_setup_command command input).
Proof.
  unfold perform_setup_command, run_bootstrap, run_uninstall. destruct command as [command|policy|]; [apply keeps_command|..].
  - apply keeps_try; [|intros; keep]. apply (keeps_prepare (λ p, bootstrap_with p policy)), keeps_bootstrap.
  - apply keeps_try; [|intros; keep]. apply (keeps_prepare (λ p, uninstall_with p)), keeps_uninstall.
Qed.

Lemma keeps_run_setup command input : keeps (run_setup_command command input).
Proof. pose proof keeps_setup. unfold run_setup_command, command_failed. keep. Qed.

Lemma keeps_main arguments stdin : keeps (setup_main arguments stdin).
Proof. pose proof keeps_run_setup. unfold setup_main. keep. Qed.

(** ** Failing, and putting things back *)

Notation installed := (ActivationFacts.installed program_files program_data).
Notation active_is := (active_is program_files program_data).
Notation committed old new := (view_of (committed old new)).

Lemma installed_inj p q : pointer_validate p = true → pointer_validate q = true → installed p = installed q → p = q.
Proof.
  intros Hp Hq [= E _]. unfold pointer_validate in Hp, Hq. destruct p, q. cbn in *. andb_split. by subst.
Qed.

Lemma same_runtime o old : optional_pointer_invalid o = false → optional_pointer_invalid old = false →
  option_map installed o = option_map installed old → o = old.
Proof.
  intros Ho Hold. destruct o as [p|], old as [q|]; try done. cbn. intros [= E]. apply negb_false_iff in Ho, Hold.
  f_equal. apply installed_inj; [done..|]. unfold ActivationFacts.installed. by rewrite E.
Qed.

(** A step that leaves the active runtime alone keeps it. *)
Lemma active_leaves {A : Type} (m : M Disk A) o d : leaves tf m → active_is o (nodes d) →
  spec (view_of consistent) m (λ _ d', active_is o (nodes d')) d.
Proof.
  intros Hm [Ho Hd]. eapply spec_mono; [by apply (leaves_at program_files program_data m (ActivationFacts.settled o))|..].
  - intros n Hn. eapply active_consistent. by split.
  - by intros a d' _ Hd'.
Qed.

(** A recovery that brings the runtime back that was active. *)
Lemma recovery_restores old d :
  optional_pointer_invalid old = false → view_of consistent (nodes d) →
  spec (view_of consistent) (runtime_recovery paths) (λ r d', view_of consistent (nodes d') ∧
    (r = Ok (option_map installed old) → active_is old (nodes d'))) d.
Proof.
  intros Ho Hd. eapply spec_post; [by apply settles_runtime_recovery_here|]. intros r d' _ [Hc Hr].
  split; [done|]. intros ->. destruct (Hr _ eq_refl) as (o & Hact & E). by rewrite <- (same_runtime o old (proj1 Hact) Ho).
Qed.

(** The deployment of a command, from an active runtime. *)
Lemma deployment_at {T : Type} package (prepare : Path → M Disk (result T SetupError)) health_check old d :
  (∀ binary, leaves tf (prepare binary)) → (∀ binary t, leaves tf (health_check binary t)) → active_is old (nodes d) →
  spec (view_of consistent) (deploy_with_prepare_and_health_check paths package prepare health_check) (λ r d',
    view_of consistent (nodes d') ∧ ∀ i t, r = Ok (i, t) → ∃ new, i = installed new ∧
      deployed program_files program_data prepare health_check old new (nodes d') ∧
      went_through (service_binary_of paths (version new)) prepare health_check d d') d.
Proof.
  intros Hp Hh Hact. pose proof (active_consistent _ _ _ _ Hact) as Hc. destruct Hact as [Ho Hd].
  apply spec_ends; [done|]. eapply spec_mono; [apply (deploy_at program_files program_data Hsight package prepare health_check
    false (λ b, leaves_framed _ _ _ (Hp b)) (λ b t, leaves_framed _ _ _ (Hh b t)) old d Ho); by left|..].
  - intros n [Hn|(new & Hv & HC)]; [by exists old|by eapply committed_consistent].
  - intros [[i t]|e] d' _ Hr; [|done]. intros ?? [= <- <-]. destruct Hr as (new & ? & ? & ->). eauto.
Qed.

(** *** Upgrading *)

(** The health check of an upgrade: a service that ran must run again and be ready. *)
Definition upgrade_health (was_running : bool) : Path → unit → M Disk (result unit SetupError) :=
  λ _ _, if bool_decide (UpgradeStartReady ∈ upgrade_plan was_running) then start_and_wait_ready root else ret (Ok tt).

(** An upgrade to a generation that is active now, by the calls that were made: the last
    of the first ones told whether the service ran; one that ran was stopped; the service
    was pointed at the new generation; and one that ran was started again and was ready. *)
Definition upgraded (old : option RuntimePointer) (new : RuntimePointer) (d d' : Disk) : Prop :=
  ∃ was_running asked stopped between configured between' started rest,
    answered d' = answered d ++ asked ++ stopped ++ between ++ configured ++ between' ++ started ++ rest ∧
    state_seen was_running asked ∧
    (if was_running : bool then stop_shown root stopped else stopped = []) ∧
    configure_shown root (service_binary_of paths (version new)) true configured ∧
    (if was_running then start_shown None started else started = []) ∧
    deployed program_files program_data (reconfigure root) (upgrade_health was_running) old new (nodes d').

Definition upgrade_outcome (old : option RuntimePointer) (start : Disk) (r : result string SetupError) (d : Disk) : Prop :=
  match r with
  | Ok text => ∃ new, text = version_result "upgrade" (version new) ∧ upgraded old new start d
  | Err e =>
      active_is old (nodes d) ∨
      ((∃ operation restoration, e = combine_operation_and_restore_error operation restoration) ∧
         exit_code_for e = SETUP_FAILURE_EXIT_CODE) ∨
      (∃ new d0, upgraded old new start d ∧ harden_machine_directory root d0 = Some (Err e, d))
  end.

(** A step that leaves the active runtime alone, and the calls it makes. *)
Lemma active_shown {A : Type} (m : M Disk A) o known Q d : leaves tf m → active_is o (nodes d) → obeys root known m Q d →
  spec (view_of consistent) m (λ a d', active_is o (nodes d') ∧ ∃ new, answered d' = answered d ++ new ∧ Q a new) d.
Proof.
  intros Hm Hact Hq. eapply spec_mono; [eapply spec_conj; [by apply (active_leaves m o)|exact Hq]|..]; cbv beta.
  - by intros n [? _].
  - intros a d' _ [? (new & ? & _ & ?)]. eauto.
Qed.

(** What a deployment for an upgrade has asked of the service. *)
Lemma upgrade_calls binary was_running d d' : went_through binary (reconfigure root) (upgrade_health was_running) d d' →
  ∃ between configured between' started rest,
    answered d' = answered d ++ between ++ configured ++ between' ++ started ++ rest ∧
    configure_shown root binary true configured ∧ (if was_running then start_shown None started else started = []).
Proof.
  intros (d1 & [] & d2 & d3 & d4 & (_ & _ & between & E1) & Hc & (_ & _ & between' & E3) & Hh & (_ & _ & rest & E5)).
  destruct (spec_result _ _ _ _ _ _ (reconfigure_obeys root [] binary d1) Hc) as (_ & configured & E2 & _ & Hconfigured).
  assert (∃ started, answered d4 = answered d3 ++ started ∧ (if was_running then start_shown None started else started = []))
    as (started & E4 & Hstarted).
  { unfold upgrade_health in Hh. destruct was_running; cbn in Hh.
    - destruct (spec_result _ _ _ _ _ _ (heeds_obeys _ _ _ _ _ (start_heeds (λ _, True) root [] None d3)) Hh)
        as (_ & started & ? & _ & _ & Hs). exists started. auto.
    - exists []. split; [|done]. injection Hh as <-. by rewrite app_nil_r. }
  exists between, configured, between', started, rest. split; [|done]. by rewrite E5, E4, E3, E2, E1, <- !app_assoc.
Qed.

Lemma deployed_agree {T : Type} (prepare : Path → M Disk (result T SetupError)) health_check old new m m' :
  agree tf m m' → deployed program_files program_data prepare health_check old new m →
  deployed program_files program_data prepare health_check old new m'.
Proof. intros Ha (Hv & HC & ?). split; [done|]. split; [|done]. by eapply agree_view. Qed.

Lemma deployed_consistent {T : Type} (prepare : Path → M Disk (result T SetupError)) health_check old new m :
  optional_pointer_invalid old = false → deployed program_files program_data prepare health_check old new m → view_of consistent m.
Proof. intros Ho (Hv & HC & _). by eapply committed_consistent. Qed.

Lemma restore_upgrade_at plan previous old d :
  optional_pointer_invalid old = false → Some previous = option_map installed old → view_of consistent (nodes d) →
  spec (view_of consistent) (restore_upgrade_state paths previous plan) (λ r d', is_ok r = true → active_is old (nodes d')) d.
Proof.
  intros Ho Hprev Hd. unfold restore_upgrade_state. eapply spec_try; [by apply (recovery_restores old)|cbv beta|by intros].
  intros recovered d1 _ [Hc Hr]. case_bool_decide as Hne; [by apply spec_ret|].
  assert (active_is old (nodes d1)) as Hact.
  { apply Hr. f_equal. rewrite <- Hprev. by destruct (decide (recovered = Some previous)) as [|[]]. }
  case_bool_decide; [|by apply spec_ret].
  eapply spec_post; [apply active_leaves; [unfold start_and_wait_ready; frame|exact Hact]|]. done.
Qed.

Lemma harden_at {B : Type} (Q : result B SetupError → Disk → Prop) (k : unit → M Disk (result B SetupError)) p d :
  view_of consistent (nodes d) →
  (∀ d', later d d' → nodes d' = nodes d → spec (view_of consistent) (k tt) Q d') →
  (∀ e d0 d1, later d d1 → nodes d1 = nodes d → harden_machine_directory p d0 = Some (Err e, d1) → Q (Err e) d1) →
  spec (view_of consistent) (let? x := harden_machine_directory p in k x) Q d.
Proof.
  intros Hd Hk He. assert (∀ P, spec P (harden_machine_directory p) (λ r d', nodes d' = nodes d ∧ harden_machine_directory p d = Some (r, d')) d) as Hs.
  { intros P. pose proof (harden_quiet p P d) as Hq. unfold spec, wp in *. destruct (harden_machine_directory p d) as [[r d']|]; [|done].
    destruct Hq as [? [? _]]. done. }
  eapply spec_try; [apply Hs|cbv beta..].
  - intros [] d1 Hl%run_later [Hn _]. by apply Hk.
  - intros e d1 Hl%run_later [Hn E]. by apply (He e d d1).
Qed.

Lemma upgrade_at old d : active_is old (nodes d) →
  spec (view_of consistent) (broker_upgrade paths) (upgrade_outcome old d) d.
Proof.
  intros Hact. unfold broker_upgrade. pose proof (proj1 Hact) as Ho.
  eapply spec_try; [apply (active_shown (is_running root) old []);
    [frame|exact Hact|apply heeds_obeys, running_heeds]|cbv beta|by intros e d1 _ [Hd1 _]; left].
  intros was_running d1 _ (Hact1 & asked & E1 & _ & Hseen). specialize (Hseen was_running eq_refl). cbv zeta.
  eapply (spec_try _ _ _ (λ r d', active_is old (nodes d') ∧ ∃ new, answered d' = answered d1 ++ new ∧
    (r = Ok tt → if was_running : bool then stop_shown root new else new = []))); [|cbv beta|by intros e d2 _ [Hd2 _]; left].
  { destruct was_running; cbn; [|apply spec_ret; split; [done|exists []; by rewrite app_nil_r]].
    eapply spec_post; [apply (active_shown (stop root) old []); [frame|exact Hact1|apply heeds_obeys, stop_heeds]|]; cbv beta.
    intros r d2 _ (? & new & ? & _ & ?). eauto. }
  intros [] d2 _ (Hact2 & stopped & E2 & Hstopped). specialize (Hstopped eq_refl).
  eapply spec_try; [apply active_leaves; [frame|exact Hact2]|cbv beta|by intros e d3 _ Hd3; left].
  intros package d3 Hl3%run_later Hact3.
  eapply (spec_try _ _ _ (λ r d', active_is old (nodes d') ∧ ∀ i, r = Ok i → i = option_map installed old)); [| |by intros e d4 _ [Hd4 _]; left].
  { eapply spec_mono; [eapply spec_conj; [apply (active_leaves (inspect_current_stable paths) old d3); [frame|exact Hact3]|
      apply (inspect_current_at program_files program_data Hsight (view_of consistent) old d3); left; apply Hact3]|..]; cbv beta.
    - by intros n [? _].
    - intros r d' _ [? Hr]. split; [done|]. intros i Hi. by apply Hr. }
  intros found d4 Hl4%run_later [Hact4 Hfound]. specialize (Hfound found eq_refl).
  apply try_pure; [|by intros; left]. intros previous Hprevious%ok_or_some. subst found.
  eapply spec_bind; [apply (deployment_at package (reconfigure root) (upgrade_health was_running) old d4);
    [intros; frame|intros; unfold upgrade_health, start_and_wait_ready; destruct (bool_decide _); frame|exact Hact4]|].
  intros [[i t]|operation] d5 _ [Hc Hdep].
  - destruct (Hdep i t eq_refl) as (new & -> & Hnew & Hgone).
    assert (∀ d', nodes d' = nodes d5 → later d5 d' → upgraded old new d d') as Hupgraded.
    { intros d' Hn Hl. destruct (upgrade_calls _ _ _ d' (went_through_later _ _ _ _ _ _ _ (transitivity Hl3 Hl4) Hgone Hl))
        as (between & configured & between' & started & rest & E & ? & ?).
      exists was_running, asked, stopped, between, configured, between', started, rest. rewrite Hn.
      split_and!; [by rewrite E, E2, E1, <- !app_assoc|done..]. }
    apply harden_at; [done|..].
    + intros d6 Hl6 Hn6. apply spec_ret. exists new. auto.
    + intros e d0 d6 Hl6 Hn6 E. right. right. exists new, d0. auto.
  - eapply spec_bind; [by apply (restore_upgrade_at _ previous old)|]. intros [[]|restoration] d6 _ Hr.
    + specialize (Hr eq_refl). eapply spec_bind; [apply active_leaves; [frame|exact Hr]|].
      intros [] d7 _ Hd7. apply spec_ret. by left.
    + apply spec_ret. right. left. split; [eauto|done].
Qed.

(** *** Installing *)

Definition installation_outcome (snapshot : BootstrapPreflight) (plan : BootstrapPlan) (old : option RuntimePointer)
    (r : result (option string) SetupError) (d : Disk) : Prop :=
  match r with
  | Ok _ => ∃ new, deployed program_files program_data (prepare_bootstrap paths snapshot plan)
      (λ _ generation, bootstrap_health paths plan generation) old new (nodes d)
  | Err e => active_is old (nodes d) ∨ ∃ operation restoration, e = RollbackFailed operation restoration
  end.

Lemma restore_installation_at snapshot profile published old d :
  optional_pointer_invalid old = false → view_of consistent (nodes d) →
  spec (view_of consistent) (restore_after_failure paths snapshot (option_map installed old) profile published)
    (λ r d', is_ok r = true → active_is old (nodes d')) d.
Proof.
  intros Ho Hd. unfold restore_after_failure.
  apply (spec_try _ _ _ (λ r d', view_of consistent (nodes d') ∧ (r = Ok (option_map installed old) → active_is old (nodes d')))).
  { apply with_err_spec. eapply spec_post; [by apply (recovery_restores old)|]. intros r d1 _ [Hc Hr]. split; [done|].
    intros E. apply Hr. by destruct r; [apply (inj Ok) in E as ->|]. }
  2: by intros.
  intros recovered d1 _ [Hc Hr]. case_bool_decide as Hne; [by apply spec_ret|].
  assert (active_is old (nodes d1)) as Hact.
  { apply Hr. f_equal. by destruct (decide (recovered = option_map installed old)) as [|[]]. }
  clear Hr Hc Hne. eapply spec_bind; [apply active_leaves; [destruct published; frame|exact Hact]|].
  intros failures d2 _ Hd2. eapply spec_bind; [apply active_leaves; [frame|exact Hd2]|].
  intros more d3 _ Hd3. destruct (failures ++ more)%list; [|by apply spec_ret].
  eapply spec_bind; [apply active_leaves; [frame|exact Hd3]|]. intros [] d4 _ Hd4. by apply spec_ret.
Qed.

Lemma installation_at snapshot plan old d : active_is old (nodes d) →
  spec (view_of consistent) (apply_transaction paths snapshot plan) (installation_outcome snapshot plan old) d.
Proof.
  intros Hact. unfold apply_transaction. pose proof (proj1 Hact) as Ho.
  eapply (spec_try _ _ _ (λ r d', active_is old (nodes d') ∧ ∀ i, r = Ok i → i = option_map installed old)); [| |by intros e d4 _ [Hd4 _]; left].
  { eapply spec_mono; [eapply spec_conj; [apply (active_leaves (inspect_current_stable paths) old d); [frame|exact Hact]|
      apply (inspect_current_at program_files program_data Hsight (view_of consistent) old d); left; apply Hact]|..]; cbv beta.
    - by intros n [? _].
    - intros r d' _ [? Hr]. split; [done|]. intros i Hi. by apply Hr. }
  intros runtime d1 _ [Hact1 Hruntime]. rewrite (Hruntime runtime eq_refl). clear Hruntime.
  eapply spec_try; [apply active_leaves; [frame|exact Hact1]|cbv beta|by intros; left]. intros profile d2 _ Hact2.
  apply try_pure; [|by intros; left]. intros [] _.
  eapply spec_try; [apply active_leaves; [frame|exact Hact2]|cbv beta|by intros; left]. intros [] d3 _ Hact3.
  eapply spec_try; [apply active_leaves; [frame|exact Hact3]|cbv beta|by intros; left]. intros [] d4 _ Hact4.
  eapply spec_try; [apply active_leaves; [destruct (bool_decide _); frame|exact Hact4]|cbv beta|by intros; left]. intros [] d5 _ Hact5.
  eapply spec_try; [apply active_leaves; [frame|exact Hact5]|cbv beta|by intros; left]. intros package d6 _ Hact6.
  eapply spec_bind; [apply active_leaves; [apply leaves_captured|exact Hact6]|]. intros [] d7 _ Hact7.
  eapply spec_bind; [apply (deployment_at package (prepare_bootstrap paths snapshot plan)
    (λ _ generation, bootstrap_health paths plan generation) old d7); [intros; frame|intros; frame|exact Hact7]|].
  intros [[i t]|operation] d8 _ [Hc Hdep].
  { apply spec_ret. destruct (Hdep i t eq_refl) as (new & _ & ? & _). by exists new. }
  eapply spec_bind; [apply (spec_gets _ _ (λ _ d', nodes d' = nodes d8)); done|]. intros published d9 _ Hn9. cbv beta in Hn9.
  eapply spec_bind; [apply (restore_installation_at snapshot profile published old); [done|by rewrite Hn9]|].
  intros [[]|restoration] d10 _ Hr; apply spec_ret; [left; by apply Hr|right; eauto].
Qed.
End Safety.

(** ** Sequences of runs *)

(** The machine as a run of the program finds it. *)
Record Machine := {
  machine_world : World;
  machine_windows : Windows;
  machine_setup : @Setup machine_world;
  machine_desktop : @Desktop machine_world;
  machine_locking : @Locking machine_world
}.

Section Runs.
Context `{EventJson, HealthJson, DebugFormat, BuildFeatures, Distribution}.
Context `{Sha256, ActivationJsonLaws, PointerJson, StoreJson, DeferredDelete, RepairJson, ProfileStoreJson, !DeferredDeleteLaws}.

(** The folders of the machine, which are the same for every run. *)
Context (folder : KnownFolder → Path).
Notation paths := (machine_layout (folder ProgramFilesFolder) (folder ProgramDataFolder)).

Record sees_machine (mc : Machine) : Prop := {
  machine_truthful : @truthful (machine_world mc);
  machine_folders : @machine_folder (machine_world mc) (machine_setup mc) = folder
}.

Definition setup_run (mc : Machine) (arguments : list string) (stdin : result (list ascii) IoError) : M Disk (Z * option string) :=
  @setup_main (machine_world mc) (machine_windows mc) _ (machine_setup mc) (machine_desktop mc) (machine_locking mc)
    _ _ _ _ _ _ _ _ _ _ _ arguments stdin.

Definition recovery_run (mc : Machine) : M Disk (result (option InstalledRuntime) SetupError) :=
  @runtime_recovery (machine_world mc) (machine_windows mc) _ (machine_setup mc) _ _ _ _ _ _ _ _ paths.

(** The states of the disk that a sequence of runs leaves behind, each with arguments,
    input and machine of its own, and each cut off anywhere. *)
Inductive setup_reached (start : Nodes) : Nodes → Prop :=
| setup_reached_start : setup_reached start start
| setup_reached_run mc arguments stdin m d r d' m' :
    setup_reached start m → sees_machine mc → nodes d = m →
    setup_run mc arguments stdin d = Some (r, d') → visited d d' m' → setup_reached start m'.

Context (Hapart : unrelated (folder ProgramFilesFolder) (folder ProgramDataFolder)).
Notation whole := (in_view (folder ProgramFilesFolder) (folder ProgramDataFolder) consistent).

Lemma setup_run_whole mc arguments stdin d : sees_machine mc → whole (nodes d) →
  spec whole (setup_run mc arguments stdin) (λ _ d', whole (nodes d')) d.
Proof.
  intros [Ht Hf]. destruct mc as [w win s desk lock]. unfold setup_run. cbn in *. subst folder. intros Hd.
  by apply (@keeps_main w).
Qed.

Lemma recovery_run_settles mc : sees_machine mc →
  settles (folder ProgramFilesFolder) (folder ProgramDataFolder) (recovery_run mc).
Proof.
  intros [Ht Hf]. destruct mc as [w win s desk lock]. unfold recovery_run. cbn in *. subst folder.
  by apply (@settles_runtime_recovery_here w).
Qed.

Lemma reached_whole start m : whole start → setup_reached start m → whole m.
Proof.
  intros Hs. induction 1 as [|mc arguments stdin m d r d' m' _ IH Hmc <- E Hv]; [done|].
  destruct (spec_result _ _ _ _ _ _ (setup_run_whole mc arguments stdin d Hmc IH) E) as [Hr _].
  by apply (run_visited _ _ _ _ Hr).
Qed.

(** C4. However the runs of the setup program are cut off, the next one finds the active
    runtime whole: in every state that any sequence of runs passes through, whatever
    they were asked for, whatever failed and wherever each ended, the pointer of the
    active runtime and the receipt of the activation are those of one activation; from
    there every further run ends with an exit code, and the recovery that it begins with
    ends, and when that reports success no activation is under way and it answered the
    runtime that is active.  Each run is taken to see the machine as it is: no look
    at the disk says by mistake that something is missing, and the machine's two
    folders, which lie apart, stay where they are. *)
Theorem runs_leave_the_runtime_recoverable start m
  (Hstart : whole start) (Hreached : setup_reached start m) :
  whole m ∧
  ∀ mc d, sees_machine mc → nodes d = m →
    (∀ arguments stdin, ∃ code output d', setup_run mc arguments stdin d = Some ((code, output), d')) ∧
    ∃ r d', recovery_run mc d = Some (r, d') ∧ whole (nodes d') ∧
      ∀ i, r = Ok i → ∃ o, active_is (folder ProgramFilesFolder) (folder ProgramDataFolder) o (nodes d') ∧
        i = option_map (ActivationFacts.installed (folder ProgramFilesFolder) (folder ProgramDataFolder)) o.
Proof.
  pose proof (reached_whole start m Hstart Hreached) as Hm. split; [done|]. intros mc d Hmc <-. split.
  - intros arguments stdin. destruct (spec_runs _ _ _ _ (setup_run_whole mc arguments stdin d Hmc Hm)) as ([code output] & d' & E & _).
    by exists code, output, d'.
  - destruct (spec_runs _ _ _ _ (recovery_run_settles mc Hmc d Hm)) as (r & d' & E & _ & Hc & Hr). eauto.
Qed.
End Runs.

Section Outcomes.
Context `{World, Windows, EventJson, !Setup, !Desktop, !Locking, HealthJson, DebugFormat, BuildFeatures, Distribution}.
Context `{Sha256, ActivationJsonLaws, PointerJson, StoreJson, DeferredDelete, RepairJson, ProfileStoreJson, !DeferredDeleteLaws}.
Notation program_files := (machine_folder ProgramFilesFolder).
Notation program_data := (machine_folder ProgramDataFolder).
Notation paths := (machine_layout program_files program_data).
Notation whole := (in_view program_files program_data consistent).

(** C5. An upgrade ends in one of four ways, whatever fails.  It reports the version of a
    generation that is active now, or becomes so with the next recovery: then the last of
    the calls that asked for the state of the service told whether it ran; a service that
    ran was stopped, and the stop was seen to its end; the service was pointed at the new
    binary, and its configuration was read back and is free of drift; and a service that
    ran was started again, reported running and answered with a valid report of
    readiness, all in this order and in this run.  Or the runtime that was active before
    is still, or again, the active one.  Or the error says that the caller's state could
    not be restored, though with the exit code of an ordinary failure.  Or only the last
    hardening of the directory failed, and its error is reported although the new
    generation is active, with all that the first way shows.  Whatever it passes
    through, the next run can recover.  No look at the disk is taken to say by mistake that
    something is missing, and the two folders of the machine lie apart. *)
Theorem failed_upgrade_is_undone_or_said old d
  (Hapart : unrelated program_files program_data) (Hsight : truthful)
  (Hactive : active_is program_files program_data old (nodes d)) :
  ∃ r d', broker_upgrade paths d = Some (r, d') ∧ (∀ m, visited d d' m → whole m) ∧
    match r with
    | Ok text => ∃ new, text = version_result "upgrade" (version new) ∧ upgraded old new d d'
    | Err e =>
        active_is program_files program_data old (nodes d') ∨
        ((∃ operation restoration, e = combine_operation_and_restore_error operation restoration) ∧
           exit_code_for e = SETUP_FAILURE_EXIT_CODE) ∨
        (∃ new d0, upgraded old new d d' ∧ harden_machine_directory (service_root paths) d0 = Some (Err e, d'))
    end.
Proof.
  destruct (spec_runs _ _ _ _ (upgrade_at Hapart Hsight old d Hactive)) as (r & d' & E & Hr & Hout).
  exists r, d'. split; [done|]. split; [|done]. intros m. by apply run_visited.
Qed.

(** C6. The installer's transaction either activates a generation, prepared as the plan
    says and with its health check passed, or ends with the runtime active that was
    active before; and when that fails too the program exits with the code for a failed
    rollback.  No look at the disk is taken to say by mistake that something is missing,
    and the two folders of the machine lie apart. *)
Theorem failed_installation_is_undone_or_exits_three snapshot plan old d
  (Hapart : unrelated program_files program_data) (Hsight : truthful)
  (Hactive : active_is program_files program_data old (nodes d)) :
  ∃ r d', apply_transaction paths snapshot plan d = Some (r, d') ∧ (∀ m, visited d d' m → whole m) ∧
    match r with
    | Ok _ => ∃ new, deployed program_files program_data (prepare_bootstrap paths snapshot plan)
        (λ _ generation, bootstrap_health paths plan generation) old new (nodes d')
    | Err e => active_is program_files program_data old (nodes d') ∨ exit_code_for e = 3%Z
    end.
Proof.
  destruct (spec_runs _ _ _ _ (installation_at Hapart Hsight snapshot plan old d Hactive)) as (r & d' & E & Hr & Hout).
  exists r, d'. split; [done|]. split; [intros m; by apply run_visited|].
  destruct r as [digest|e]; [done|]. destruct Hout as [?|(operation & restoration & ->)]; [by left|by right].
Qed.
End Outcomes.

(** ** An installation, run *)

Section Example.
#[local] Existing Instances example_event_json ProfileStoreFacts.example_profile_json.
Import Manifest.

Definition example_folder (k : KnownFolder) : Path :=
  ["C:"; match k with ProgramFilesFolder => "Program Files" | ProgramDataFolder => "ProgramData" end]%string.

Definition example_layout : MachinePaths := machine_layout (example_folder ProgramFilesFolder) (example_folder ProgramDataFolder).

Definition example_locking : @Locking example_world := {|
  machine_setup_lock_descriptor := ret (Ok tt);
  create_mutex _ := ret (Ok 9%N);
  verify_machine_setup_lock _ := ret (Ok tt);
  acquire_mutex _ _ := ret (Ok MutexAcquired);
  descriptor_quiet := ret_quiet _;
  create_quiet _ := ret_quiet _;
  verify_quiet _ := ret_quiet _;
  acquire_quiet _ _ := ret_quiet _
|}.

Definition program_files_setup : @Setup example_world.
Proof.
  refine {| harden_machine_directory _ := ret (Ok tt);
            known_folder_path k := ret (Ok (example_folder k));
            current_executable :=
              ret (Ok (str_bytes "C:\Program Files\MacType Control Center\service-runtime\mactype-service-setup.exe"));
            system_time _ := 0%Z; lowercase := map to_ascii_lowercase; lossy_text := bytes_str;
            machine_folder := example_folder |}.
  - intros p P d. by apply spec_ret.
  - intros k P d. apply spec_ret. split_and!; [done|done|]. by intros p <-%(inj Ok).
  - intros P d. by apply spec_ret.
Defined.

Definition example_distribution : Distribution := {| bundled_default_profile := str_bytes "[General]" |}.

(** A service control manager that remembers the image it was given; the service is
    stopped. *)
Definition service_image (image : option string) (e : Answered) : option string :=
  match e with
  | Called (CreateServiceW _ _ _ _ _ _ given _ _ _) _ => Some given
  | Called (ChangeServiceConfigW _ _ _ _ (Some given) _ _ _ _) _ => Some given
  | Called (DeleteService _) _ => None
  | _ => image
  end.

Definition fresh_reply (A : Type) (d : Disk) (c : WindowsCall A) : A :=
  let image := foldl service_image None (answered d) in
  match c in WindowsCall A return A with
  | OpenServiceW _ rights => match image with None => Err no_such_service | Some _ => Ok 1%N end
  | QueryServiceStatusEx _ => Ok (example_status 1)
  | QueryServiceConfigW _ =>
      Ok {| dwServiceType := 16; dwStartType := 2; dwErrorControl := 1; lpBinaryPathName := image;
            lpLoadOrderGroup := Some ""%string; dwTagId := 0; lpDependencies := []; lpServiceStartName := Some "LocalSystem"%string;
            lpDisplayName := Some SERVICE_DISPLAY_NAME |}
  | c => example_reply _ d c
  end.

Definition fresh_windows : Windows := {| reply := fresh_reply; canonical _ p := Ok p |}.

Definition example_machine (windows : Windows) : Machine := {|
  machine_world := example_world; machine_windows := windows; machine_setup := program_files_setup;
  machine_desktop := clean_desktop; machine_locking := example_locking |}.

#[local] Existing Instances example_distribution.

Definition with_directories (p : Path) (m : Nodes) : Nodes := fold_right (λ a m, <[a := Directory]> m) m (ancestors p).

(** The payload lies next to the executable of the setup program. *)
Definition example_payload : Path :=
  (example_folder ProgramFilesFolder ++ ["MacType Control Center"; "service-runtime"; "payload"])%list.

Definition install_disk : Nodes :=
  with_directories (path_join example_payload "files") (with_directories (example_folder ProgramDataFolder)
    (<[ path_join example_payload "manifest.json" := File (str_bytes "{}") ]>
       (kmap (λ name, path_join (path_join example_payload "files") name) (File <$> example_package)))).

Definition installing : option ((Z * option string) * Disk) :=
  setup_run (example_machine fresh_windows) ["install"%string] (Ok []) (disk_of install_disk).

Example installation_succeeds :
  match installing with
  | Some ((code, Some output), d) =>
      (code =? 0)%Z && (output =? version_result "install" "1.0.0")%string && (1 <? length (history d)) &&
      bool_decide (nodes d !! runtime_pointer example_layout = Some (File (str_bytes "1.0.0"))) &&
      bool_decide (nodes d !! runtime_activation_journal example_layout = None)
  | _ => false
  end = true.
Proof. by vm_compute. Qed.

Example stopping_succeeds :
  match setup_run (example_machine example_windows) ["stop"%string] (Ok []) (disk_of install_disk) with
  | Some ((code, Some output), d) => (code =? 0)%Z && (output =? verb_result "stop" [])%string
  | _ => false
  end = true.
Proof. by vm_compute. Qed.

(** The installer puts the runtime on an empty machine, and the uninstaller takes it away. *)
Definition run_of (verb : string) (d : Disk) : option ((Z * option string) * Disk) :=
  setup_run (example_machine fresh_windows) [verb] (Ok []) d.

Example installer_and_uninstaller :
  match run_of "bootstrap-install-preserve-run-state" (disk_of (<[example_startup := Directory]> install_disk)) with
  | Some ((code, Some output), d) =>
      (code =? 0)%Z && (output =? outcome_json (Applied None false false) "bootstrap-install-preserve-run-state")%string &&
      match run_of "uninstall-owned" d with
      | Some ((code, Some output), d) =>
          (code =? 0)%Z && (output =? uninstall_json Removed)%string && match tree (nodes d) (service_root example_layout) with [] => true | _ => false end
      | _ => false
      end
  | _ => false
  end = true.
Proof. by vm_compute. Qed.

Lemma example_folders_apart : unrelated (example_folder ProgramFilesFolder) (example_folder ProgramDataFolder).
Proof. by apply (siblings_unrelated ["C:"%string]). Qed.

Lemma example_sees windows : sees_machine example_folder (example_machine windows).
Proof. split; [exact example_truthful|done]. Qed.

(** The disk a run ends with. *)
Definition ending {A : Type} (run : option (A * Disk)) : Disk := match run with Some (_, d) => d | None => disk_of ∅ end.

Lemma nothing_is_whole : in_view (example_folder ProgramFilesFolder) (example_folder ProgramDataFolder) consistent install_disk.
Proof. exists None. split; [done|]. left. split; by vm_compute. Qed.

Lemma installation_reached x d : installing = Some (x, d) → (1 <? length (history d)) = true →
  setup_reached example_folder install_disk (nodes d).
Proof.
  intros E Hlen. pose proof (setup_run_whole example_folder example_folders_apart (example_machine fresh_windows) ["install"%string] (Ok [])
    (disk_of install_disk) (example_sees _) nothing_is_whole) as Hs.
  destruct (spec_result _ _ _ _ _ _ Hs E) as [Hr _].
  refine (setup_reached_run example_folder _ (example_machine fresh_windows) _ _ _ _ _ _ _ (setup_reached_start _ _)
    (example_sees _) eq_refl E (run_ends _ _ _ Hr _)).
  apply Nat.ltb_lt in Hlen. cbn. lia.
Qed.

Lemma runs_leave_the_runtime_recoverable_witness :
  ∃ output d, installing = Some ((0%Z, Some output), d) ∧ output = version_result "install" "1.0.0" ∧
    ∃ r d', recovery_run example_folder (example_machine example_windows) (disk_of (nodes d)) = Some (r, d').
Proof.
  pose proof installation_succeeds as Hok.
  destruct installing as [[[code [output|]] d]|] eqn:E; [|discriminate Hok..].
  apply andb_true_iff in Hok as [[[[Hcode Hout]%andb_true_iff Hlen]%andb_true_iff _]%andb_true_iff _].
  apply Z.eqb_eq in Hcode as ->. apply String.eqb_eq in Hout.
  exists output, d. split; [reflexivity|]. split; [exact Hout|].
  destruct (runs_leave_the_runtime_recoverable example_folder example_folders_apart install_disk (nodes d)
    nothing_is_whole (installation_reached _ _ E Hlen)) as [_ Hnext].
  destruct (Hnext (example_machine example_windows) (disk_of (nodes d)) (example_sees _) eq_refl) as (_ & r & d' & Er & _).
  exists r, d'. exact Er.
Defined.

Definition example_pointer : RuntimePointer := {| pointer_schema := RUNTIME_POINTER_SCHEMA; version := "1.0.0" |}.

Lemma example_is_active : active_is (example_folder ProgramFilesFolder) (example_folder ProgramDataFolder)
  (Some example_pointer) (nodes (ending installing)).
Proof. split; [done|]. split; [by vm_compute|]. exists (str_bytes "1.0.0"). split; by vm_compute. Qed.

(** The upgrade of the installed runtime. *)
Definition upgrading : option (result string SetupError * Disk) :=
  @broker_upgrade example_world fresh_windows _ program_files_setup _ _ _ _ _ _ _ _ _ example_layout (ending installing).

Example upgrade_succeeds : option_map fst upgrading = Some (Ok (version_result "upgrade" "1.0.0")).
Proof. by vm_compute. Qed.

Lemma failed_upgrade_is_undone_or_said_witness :
  ∃ new d', upgrading = Some (Ok (version_result "upgrade" (version new)), d') ∧
    @upgraded example_world fresh_windows _ program_files_setup _ _ _ (Some example_pointer) new (ending installing) d'.
Proof.
  destruct (failed_upgrade_is_undone_or_said (H := example_world) (H0 := fresh_windows) (H2 := program_files_setup)
    (Some example_pointer) (ending installing) example_folders_apart example_truthful example_is_active) as (r & d' & E & _ & Hout).
  change (upgrading = Some (r, d')) in E. pose proof upgrade_succeeds as Hok. rewrite E in Hok |- *.
  cbn [option_map fst] in Hok. injection Hok as ->. destruct Hout as (new & Htext & Hnew).
  exists new, d'. split; [|exact Hnew]. f_equal. f_equal. f_equal. exact Htext.
Defined.

(** The installer's transaction on a machine that has nothing. *)
Definition example_plan : BootstrapPlan := {| plan_profile := LeaveUnpublished; start_service := false |}.

Definition example_snapshot : BootstrapPreflight := {|
  InstallBootstrap.open_service := ServiceAbsent; protected_profile := ProfileAbsent; protected_runtime := RuntimeAbsent;
  legacy_service := Clear; legacy_tray := Clear; appinit := Clear |}.

Definition applying : option (result (option string) SetupError * Disk) :=
  @apply_transaction example_world fresh_windows _ program_files_setup _ _ _ _ _ _ _ _ _ _ _ example_layout
    example_snapshot example_plan (disk_of install_disk).

Example applying_succeeds : option_map fst applying = Some (Ok None).
Proof. by vm_compute. Qed.

Lemma nothing_is_active : active_is (example_folder ProgramFilesFolder) (example_folder ProgramDataFolder) None install_disk.
Proof. split; [done|]. split; by vm_compute. Qed.

Lemma failed_installation_is_undone_or_exits_three_witness :
  ∃ new d', applying = Some (Ok None, d') ∧ pointer_validate new = true ∧
    in_view (example_folder ProgramFilesFolder) (example_folder ProgramDataFolder) (committed None new) (nodes d').
Proof.
  destruct (failed_installation_is_undone_or_exits_three (H := example_world) (H0 := fresh_windows) (H2 := program_files_setup)
    example_snapshot example_plan None (disk_of install_disk) example_folders_apart example_truthful nothing_is_active)
    as (r & d' & E & _ & Hout).
  change (applying = Some (r, d')) in E. pose proof applying_succeeds as Hok. rewrite E in Hok |- *.
  cbn [option_map fst] in Hok. injection Hok as ->. destruct Hout as (new & Hv & HC & _).
  exists new, d'. split; [reflexivity|]. split; [exact Hv|exact HC].
Defined.
End Example.
