(* ===== verification/Traces.v ===== *)
(** * What a computation calls

    The control center drives the machine through traits whose implementations are not
    part of it.  A trait is a type class over a state, each call answers from that state
    as it likes, and a state that keeps notes implements every trait its own state
    implements.  [tells m Q] describes the notes of [m] and its answer, in every state. *)

From S2P Require Export Prelude.

(** A call of a trait: it always answers. *)
Definition call_of {S A : Type} (f : S → A * S) : M S A := λ s, Some (f s).

Record Noted (S E : Type) := mk_noted { inner : S; notes : list E }.
Arguments mk_noted {S E}.
Arguments inner {S E}.
Arguments notes {S E}.

(** The call with a note of it, the latest note last. *)
Definition noted {S E A : Type} (note : A → E) (f : S → A * S) (t : Noted S E) : A * Noted S E :=
  let '(a, s) := f (inner t) in (a, mk_noted s (notes t ++ [note a])).

Section Says.
Context {S E : Type}.

(** [m] answers, and [Q] holds of its answer and the notes it adds. *)
Definition tells {A : Type} (m : M (Noted S E) A) (Q : A → list E → Prop) : Prop :=
  ∀ t, ∃ a t' new, m t = Some (a, t') ∧ notes t' = notes t ++ new ∧ Q a new.

Lemma tells_ret {A} (a : A) (Q : A → list E → Prop) : Q a [] → tells (ret a) Q.
Proof. intros HQ t. exists a, t, []. by rewrite app_nil_r. Qed.

Lemma tells_mono {A} (m : M (Noted S E) A) (P Q : A → list E → Prop) :
  tells m P → (∀ a new, P a new → Q a new) → tells m Q.
Proof. intros Hm HQ t. destruct (Hm t) as (a & t' & new & E1 & E2 & HP). exists a, t', new. auto. Qed.

Lemma tells_bind {A B} (m : M (Noted S E) A) (k : A → M (Noted S E) B) P (Q : B → list E → Prop) :
  tells m P → (∀ a new, P a new → tells (k a) (λ b rest, Q b (new ++ rest))) → tells (bind m k) Q.
Proof.
  intros Hm Hk t. destruct (Hm t) as (a & t1 & new & E1 & N1 & HP).
  destruct (Hk a new HP t1) as (b & t2 & rest & E2 & N2 & HQ).
  exists b, t2, (new ++ rest). unfold bind. rewrite E1. split; [done|]. split; [|done].
  by rewrite N2, N1, app_assoc.
Qed.

(** [let? x := m in k]: an error ends the computation. *)
Lemma tells_try {A B F} (m : M (Noted S E) (result A F)) (k : A → M (Noted S E) (result B F)) P (Q : result B F → list E → Prop) :
  tells m P → (∀ a new, P (Ok a) new → tells (k a) (λ b rest, Q b (new ++ rest))) →
  (∀ e new, P (Err e) new → Q (Err e) new) → tells (let? x := m in k x) Q.
Proof.
  intros Hm Hk He. eapply tells_bind; [exact Hm|]. intros [a|e] new HP; [by apply Hk|].
  apply tells_ret. rewrite app_nil_r. by apply He.
Qed.

Lemma tells_call {A} (note : A → E) (f : S → A * S) (Q : A → list E → Prop) :
  (∀ a, Q a [note a]) → tells (call_of (noted note f)) Q.
Proof.
  intros HQ t. unfold call_of, noted. destruct (f (inner t)) as [a s]. by eexists a, _, [note a].
Qed.

(** What is said holds of the run from any notes. *)
Lemma tells_run {A} (m : M (Noted S E) A) (Q : A → list E → Prop) s :
  tells m Q → ∃ a t', m (mk_noted s []) = Some (a, t') ∧ Q a (notes t').
Proof. intros Hm. destruct (Hm (mk_noted s [])) as (a & t' & new & E1 & E2 & HQ). exists a, t'. by rewrite E2. Qed.
End Says.

(** One call, then the rest, with the note in front. *)
Lemma tells_then {S E A B} (note : A → E) (f : S → A * S) (k : A → M (Noted S E) B) (Q : B → list E → Prop) :
  (∀ a, tells (k a) (λ b rest, Q b (note a :: rest))) → tells (bind (call_of (noted note f)) k) Q.
Proof. intros Hk. apply (tells_bind _ _ (λ a new, new = [note a])); [by apply tells_call|]. by intros a new ->. Qed.

(** The same, for a call whose answers are not arbitrary. *)
Lemma tells_then_from {S E A B} (note : A → E) (f : S → A * S) (k : A → M (Noted S E) B) (Q : B → list E → Prop) :
  (∀ s, tells (k (fst (f s))) (λ b rest, Q b (note (fst (f s)) :: rest))) → tells (bind (call_of (noted note f)) k) Q.
Proof.
  intros Hk. apply (tells_bind _ _ (λ a new, new = [note a] ∧ ∃ s, a = fst (f s))); [|by intros a new [-> [s ->]]].
  intros t. unfold call_of, noted. destruct (f (inner t)) as [a s] eqn:Ef. eexists a, _, [note a]. do 3 (split; [done|]).
  exists (inner t). by rewrite Ef.
Qed.

(** A step without a call. *)
Lemma tells_step {S E A B F} (a : A) (k : A → M (Noted S E) (result B F)) (Q : result B F → list E → Prop) :
  tells (k a) Q → tells (let? x := ret (Ok a) in k x) Q.
Proof. intros Hk. exact Hk. Qed.

Lemma tells_stop {S E A B F} (e : F) (k : A → M (Noted S E) (result B F)) (Q : result B F → list E → Prop) :
  Q (Err e) [] → tells (let? x := ret (Err e) in k x) Q.
Proof. intros He. by apply tells_ret. Qed.

(** ** Computations that answer *)

Definition answers {S A : Type} (m : M S A) : Prop := ∀ s, ∃ a s', m s = Some (a, s').

Lemma answers_ret {S A} (a : A) : answers (S := S) (ret a).
Proof. intros s. by exists a, s. Qed.

Lemma answers_call {S A} (f : S → A * S) : answers (call_of f).
Proof. intros s. unfold call_of. destruct (f s) as [a s']. by exists a, s'. Qed.

Lemma answers_bind {S A B} (m : M S A) (k : A → M S B) : answers m → (∀ a, answers (k a)) → answers (bind m k).
Proof. intros Hm Hk s. destruct (Hm s) as (a & s' & E). unfold bind. rewrite E. apply Hk. Qed.

Lemma answers_then_from {S A B} (f : S → A * S) (k : A → M S B) :
  (∀ s, answers (k (fst (f s)))) → answers (bind (call_of f) k).
Proof. intros Hk s. unfold bind, call_of. specialize (Hk s). destruct (f s) as [a s']. apply Hk. Qed.

(** [answer] goes through a computation that has no loop and no panic. *)
Create HintDb answers.
#[export] Hint Resolve answers_ret answers_call : answers.

Ltac answer :=
  repeat first
    [ solve [eauto with answers]
    | apply answers_bind; [|intros]
    | match goal with |- answers (let _ := _ in _) => cbv zeta end
    | case_match ].

(** The notes [E] of several interfaces hold the notes [C] of one of them. *)
Class Notes (C E : Type) := {
  note_of : C → E;
  as_note : E → option C;
  as_note_of c : as_note (note_of c) = Some c
}.

#[export] Instance Notes_same C : Notes C C := {
  note_of c := c; as_note := Some; as_note_of c := eq_refl
}.
