(* ===== verification/MachineService.v ===== *)
(** * The service as the control center sees it

    [control-center/src-tauri/src/service_contract.rs],
    [machine_integration/model.rs], [machine_integration/legacy_mactray/model.rs] and
    [machine_integration/open_service/action_failure.rs]: the status of the new service
    and of what an older MacType left on the machine, the actions on the machine and the
    failures they report, and the codes these cross a process boundary as. *)

From S2P Require Export Profile Health.

(** ** [service_contract.rs] *)

Inductive ServiceBackend := OpenSource | LegacyMacTray | ForeignBackend | NoBackend.
Inductive InstallationState := NotInstalled | Current | Outdated | Invalid | Inaccessible | DeletePending.
Inductive RuntimeState := Stopped | StartPending | Running | StopPending | Paused | UnknownRuntime.
Inductive ServiceHealth := UnknownHealth | Initializing | Ready | Degraded | Failed.
Inductive ServiceManagementPackageState := PackageReady | PackageNotInstalled | PackageIncomplete | PackageUntrusted.

#[export] Instance ServiceBackend_eq_dec : EqDecision ServiceBackend.
Proof. solve_decision. Defined.
#[export] Instance InstallationState_eq_dec : EqDecision InstallationState.
Proof. solve_decision. Defined.
#[export] Instance RuntimeState_eq_dec : EqDecision RuntimeState.
Proof. solve_decision. Defined.
#[export] Instance ServiceHealth_eq_dec : EqDecision ServiceHealth.
Proof. solve_decision. Defined.
#[export] Instance ServiceManagementPackageState_eq_dec : EqDecision ServiceManagementPackageState.
Proof. solve_decision. Defined.

Record SystemServiceStatus := {
  backend : ServiceBackend;
  installation : InstallationState;
  runtime : RuntimeState;
  service_health : ServiceHealth;
  binary_path : option string;
  win32_error : option N;
  active_digest : option string;
  configuration_drift : bool;
  can_install : bool;
  can_remove : bool;
  can_start : bool;
  can_stop : bool;
  can_repair : bool;
  can_upgrade : bool
}.

#[export] Instance SystemServiceStatus_eq_dec : EqDecision SystemServiceStatus.
Proof. solve_decision. Defined.

Definition system_injection_active (s : SystemServiceStatus) (expected_digest : option string) : bool :=
  bool_decide (backend s = OpenSource) && bool_decide (installation s = Current)
  && bool_decide (runtime s = Running) && bool_decide (service_health s = Ready)
  && bool_decide (is_Some expected_digest) && bool_decide (active_digest s = expected_digest).

(** [{:?}] *)
Definition debug_backend (b : ServiceBackend) : string :=
  match b with OpenSource => "OpenSource" | LegacyMacTray => "LegacyMacTray" | ForeignBackend => "Foreign" | NoBackend => "None" end.

Definition debug_installation (i : InstallationState) : string :=
  match i with
  | NotInstalled => "Absent" | Current => "Current" | Outdated => "Outdated" | Invalid => "Invalid"
  | Inaccessible => "Inaccessible" | DeletePending => "DeletePending"
  end.

Definition debug_runtime (r : RuntimeState) : string :=
  match r with
  | Stopped => "Stopped" | StartPending => "StartPending" | Running => "Running" | StopPending => "StopPending"
  | Paused => "Paused" | UnknownRuntime => "Unknown"
  end.

Definition debug_health (h : ServiceHealth) : string :=
  match h with
  | UnknownHealth => "Unknown" | Initializing => "Initializing" | Ready => "Ready" | Degraded => "Degraded" | Failed => "Failed"
  end.

(** ** [legacy_mactray/model.rs] *)

Inductive LegacyTrayProcessState :=
| TrayAbsent
| TrustedCurrentSession (pid creation_time : N) (path : Path)
| TrustedOtherSession (session_id : N) (path : Path)
| UntrustedSameName (session_id : option N) (path : option Path)
| TrayUnknown (error : StructuredServiceError).

Inductive LegacyTrayStartupSource :=
| CurrentUserRun32 | CurrentUserRun64 | LocalMachineRun32 | LocalMachineRun64 | CurrentUserStartup.

Record LegacyTrayStartupEntry := {
  source_kind : LegacyTrayStartupSource;
  display_name : string;
  target_path : Path
}.

Inductive LegacyTrayStartupState :=
| StartupAbsent
| StartupDetected (entries : list LegacyTrayStartupEntry)
| StartupUntrusted (entries : list LegacyTrayStartupEntry)
| StartupUnknown (error : StructuredServiceError).

Inductive LegacyTrayConflictState := Clear | ConflictDetected | ConflictUnknown.

#[export] Instance LegacyTrayConflictState_eq_dec : EqDecision LegacyTrayConflictState.
Proof. solve_decision. Defined.

Record LegacyTrayStatus := {
  process : LegacyTrayProcessState;
  startup : LegacyTrayStartupState;
  conflict : LegacyTrayConflictState;
  can_request_exit : bool;
  can_disable_startup : bool
}.

(** [LegacyTrayStatus::from_states] *)
Definition from_states (process : LegacyTrayProcessState) (startup : LegacyTrayStartupState) : LegacyTrayStatus :=
  {| process := process; startup := startup;
     conflict :=
       match process, startup with
       | TrayUnknown _, _ | _, StartupUnknown _ => ConflictUnknown
       | TrayAbsent, StartupAbsent => Clear
       | _, _ => ConflictDetected
       end;
     can_request_exit := match process with TrustedCurrentSession _ _ _ => true | _ => false end;
     can_disable_startup := match startup with StartupDetected (_ :: _) => true | _ => false end |}.

Definition blocks_machine_change (s : LegacyTrayStatus) : bool := bool_decide (conflict s ≠ Clear).

(** ** [model.rs] *)

Inductive MachineAction :=
| ActInstall | ActUpgrade | ActRepair | ActRemove | ActStart | ActStop | ActPublishProfile | ActDesignateProfile
| ActMigrateFromLegacy | ActRollback | ActRemoveLegacy.

#[export] Instance MachineAction_eq_dec : EqDecision MachineAction.
Proof. solve_decision. Defined.

Definition debug_action (a : MachineAction) : string :=
  match a with
  | ActInstall => "Install" | ActUpgrade => "Upgrade" | ActRepair => "Repair" | ActRemove => "Remove" | ActStart => "Start"
  | ActStop => "Stop" | ActPublishProfile => "PublishProfile" | ActDesignateProfile => "DesignateProfile"
  | ActMigrateFromLegacy => "MigrateFromLegacy" | ActRollback => "Rollback" | ActRemoveLegacy => "RemoveLegacy"
  end.

(** [SystemServiceAction] of [open_service/request.rs], and the conversion of
    [system_backend.rs]. *)
Inductive SystemServiceAction :=
| ServiceInstall | ServiceUpgrade | ServiceRepair | ServiceRemove | ServiceStart | ServiceStop | ServicePublishProfile
| ServiceDesignateProfile | ServiceMigrateFromLegacy | ServiceRollback | ServiceRemoveLegacy
| DisableLegacyTrayAutostart | RestoreLegacyTrayAutostart.

#[export] Instance SystemServiceAction_eq_dec : EqDecision SystemServiceAction.
Proof. solve_decision. Defined.

Definition service_action_from (a : MachineAction) : SystemServiceAction :=
  match a with
  | ActInstall => ServiceInstall | ActUpgrade => ServiceUpgrade | ActRepair => ServiceRepair | ActRemove => ServiceRemove
  | ActStart => ServiceStart | ActStop => ServiceStop | ActPublishProfile => ServicePublishProfile
  | ActDesignateProfile => ServiceDesignateProfile | ActMigrateFromLegacy => ServiceMigrateFromLegacy
  | ActRollback => ServiceRollback | ActRemoveLegacy => ServiceRemoveLegacy
  end.

Inductive DesignationEffect := Live | NextStart.

(** The fields of [MachineStatus] that decide; the others are shown only. *)
Record MachineStatus := {
  new_service : SystemServiceStatus;
  legacy_tray : LegacyTrayStatus;
  registry_conflict : bool
}.

(** ** [open_service/action_failure.rs] *)

Inductive AppInitConflictContext := AppInitIntegrationChange | AppInitIntegrationChanges | AppInitServiceChange.
Inductive LegacyTrayBlockContext := TrayIntegrationChange | TrayServiceChange.
Inductive LegacyServiceBlockContext := ApplyProfile | StartNewService.
Inductive InstallationPreflightKind := PreflightRequired | PreflightIncomplete | PreflightUntrusted.

Record InstallationPreflightDiagnostics := {
  expected_installed_control_center : option string;
  current_executable : option string;
  expected_executable_exists : option bool;
  installed_control_center : string;
  current_bundle : string;
  selected_service_package : string;
  setup_broker : string;
  runtime_manifest : string;
  runtime_payload : string;
  elevation_attempted : bool;
  elevated_revalidation : string;
  machine_state_changed : bool;
  rollback_required : bool
}.

Inductive ActionBlocker :=
| AdministratorApprovalCancelled
| AppInitConflict (context : AppInitConflictContext)
| AppInitRegistryModeConflict
| LegacyTrayModeBlocks (context : LegacyTrayBlockContext)
| LegacyServiceStillInstalled (context : LegacyServiceBlockContext)
| FixedServiceNameForeignOrInaccessible
| InstallationPreflight (kind : InstallationPreflightKind) (diagnostics : InstallationPreflightDiagnostics).

#[export] Instance InstallationPreflightKind_eq_dec : EqDecision InstallationPreflightKind.
Proof. solve_decision. Defined.
#[export] Instance InstallationPreflightDiagnostics_eq_dec : EqDecision InstallationPreflightDiagnostics.
Proof. solve_decision. Defined.
#[export] Instance AppInitConflictContext_eq_dec : EqDecision AppInitConflictContext.
Proof. solve_decision. Defined.
#[export] Instance LegacyTrayBlockContext_eq_dec : EqDecision LegacyTrayBlockContext.
Proof. solve_decision. Defined.
#[export] Instance LegacyServiceBlockContext_eq_dec : EqDecision LegacyServiceBlockContext.
Proof. solve_decision. Defined.
#[export] Instance ActionBlocker_eq_dec : EqDecision ActionBlocker.
Proof. solve_decision. Defined.

Definition INTERNAL_OPERATION_FAILURE_PREFIX : string := "control-center-internal-operation-failed:".
Definition INSTALLATION_REQUIRED_PREFIX : string := "control-center-installation-required:".
Definition INSTALLATION_INCOMPLETE_PREFIX : string := "control-center-installation-incomplete:".
Definition INSTALLATION_UNTRUSTED_PREFIX : string := "control-center-installation-untrusted:".

Definition blocker_message (b : ActionBlocker) : string :=
  match b with
  | AdministratorApprovalCancelled => "administrator approval was cancelled"
  | AppInitConflict AppInitIntegrationChange => "AppInit conflicts block this machine integration change"
  | AppInitConflict AppInitIntegrationChanges => "AppInit conflicts block machine integration changes"
  | AppInitConflict AppInitServiceChange => "AppInit conflicts block this service change"
  | AppInitRegistryModeConflict => "AppInit registry mode conflicts with legacy service migration"
  | LegacyTrayModeBlocks TrayIntegrationChange => "the legacy MacTray tray mode blocks this machine integration change"
  | LegacyTrayModeBlocks TrayServiceChange => "the legacy MacTray tray mode blocks this service change"
  | LegacyServiceStillInstalled ApplyProfile =>
      "a legacy MacType service is still installed; migrate it before applying the profile"
  | LegacyServiceStillInstalled StartNewService =>
      "a legacy MacType service is still installed; migrate it before starting the new service"
  | FixedServiceNameForeignOrInaccessible =>
      "the fixed service name became foreign or inaccessible; SCM rollback was refused"
  | InstallationPreflight PreflightRequired _ => INSTALLATION_REQUIRED_PREFIX
  | InstallationPreflight PreflightIncomplete _ => INSTALLATION_INCOMPLETE_PREFIX
  | InstallationPreflight PreflightUntrusted _ => INSTALLATION_UNTRUSTED_PREFIX
  end.

Definition stage_code (b : ActionBlocker) : string :=
  match b with
  | AdministratorApprovalCancelled => "blocker/administrator-approval-cancelled"
  | AppInitConflict AppInitIntegrationChange => "blocker/appinit-machine-integration-change"
  | AppInitConflict AppInitIntegrationChanges => "blocker/appinit-machine-integration-changes"
  | AppInitConflict AppInitServiceChange => "blocker/appinit-service-change"
  | AppInitRegistryModeConflict => "blocker/appinit-registry-mode-conflict"
  | LegacyTrayModeBlocks TrayIntegrationChange => "blocker/legacy-tray-machine-integration-change"
  | LegacyTrayModeBlocks TrayServiceChange => "blocker/legacy-tray-service-change"
  | LegacyServiceStillInstalled ApplyProfile => "blocker/legacy-service-apply-profile"
  | LegacyServiceStillInstalled StartNewService => "blocker/legacy-service-start-new-service"
  | FixedServiceNameForeignOrInaccessible => "blocker/fixed-service-name-foreign-or-inaccessible"
  | InstallationPreflight PreflightRequired _ => "blocker/installation-required"
  | InstallationPreflight PreflightIncomplete _ => "blocker/installation-incomplete"
  | InstallationPreflight PreflightUntrusted _ => "blocker/installation-untrusted"
  end.

Definition unavailable_preflight : InstallationPreflightDiagnostics :=
  {| expected_installed_control_center := None; current_executable := None; expected_executable_exists := None;
     installed_control_center := "unavailable"; current_bundle := "unavailable"; selected_service_package := "none";
     setup_broker := "unavailable"; runtime_manifest := "unavailable"; runtime_payload := "unavailable";
     elevation_attempted := true; elevated_revalidation := "unavailable"; machine_state_changed := false;
     rollback_required := false |}.

Definition from_stage_code (stage : string) (diagnostics : option InstallationPreflightDiagnostics) : option ActionBlocker :=
  let preflight kind := Some (InstallationPreflight kind (default unavailable_preflight diagnostics)) in
  if (stage =? "blocker/administrator-approval-cancelled")%string then Some AdministratorApprovalCancelled
  else if (stage =? "blocker/appinit-machine-integration-change")%string then Some (AppInitConflict AppInitIntegrationChange)
  else if (stage =? "blocker/appinit-machine-integration-changes")%string then Some (AppInitConflict AppInitIntegrationChanges)
  else if (stage =? "blocker/appinit-service-change")%string then Some (AppInitConflict AppInitServiceChange)
  else if (stage =? "blocker/appinit-registry-mode-conflict")%string then Some AppInitRegistryModeConflict
  else if (stage =? "blocker/legacy-tray-machine-integration-change")%string then Some (LegacyTrayModeBlocks TrayIntegrationChange)
  else if (stage =? "blocker/legacy-tray-service-change")%string then Some (LegacyTrayModeBlocks TrayServiceChange)
  else if (stage =? "blocker/legacy-service-apply-profile")%string then Some (LegacyServiceStillInstalled ApplyProfile)
  else if (stage =? "blocker/legacy-service-start-new-service")%string then Some (LegacyServiceStillInstalled StartNewService)
  else if (stage =? "blocker/fixed-service-name-foreign-or-inaccessible")%string then Some FixedServiceNameForeignOrInaccessible
  else if (stage =? "blocker/installation-required")%string then preflight PreflightRequired
  else if (stage =? "blocker/installation-incomplete")%string then preflight PreflightIncomplete
  else if (stage =? "blocker/installation-untrusted")%string then preflight PreflightUntrusted
  else None.

Inductive RollbackOutcome :=
| RollbackFailed | RollbackCompleted | FailClosedLegacyStopped | NotApplicable | NotApplicableOrUnavailable.

#[export] Instance RollbackOutcome_eq_dec : EqDecision RollbackOutcome.
Proof. solve_decision. Defined.

Definition outcome_as_str (o : RollbackOutcome) : string :=
  match o with
  | RollbackFailed => "failed"
  | RollbackCompleted => "completed"
  | FailClosedLegacyStopped => "fail-closed-legacy-stopped"
  | NotApplicable => "not-applicable"
  | NotApplicableOrUnavailable => "not-applicable-or-unavailable"
  end.

Definition outcome_from_wire (value : string) : option RollbackOutcome :=
  if (value =? "failed")%string then Some RollbackFailed
  else if (value =? "completed")%string then Some RollbackCompleted
  else if (value =? "fail-closed-legacy-stopped")%string then Some FailClosedLegacyStopped
  else if (value =? "not-applicable")%string then Some NotApplicable
  else if (value =? "not-applicable-or-unavailable")%string then Some NotApplicableOrUnavailable
  else None.

Inductive ActionFailureKind := Blocked (blocker : ActionBlocker) | Internal.

#[export] Instance ActionFailureKind_eq_dec : EqDecision ActionFailureKind.
Proof. solve_decision. Defined.

Record ActionFailure := {
  kind : ActionFailureKind;
  stage : option string;
  detail : string;
  rollback : RollbackOutcome;
  channel_failure : option string
}.

#[export] Instance ActionFailure_eq_dec : EqDecision ActionFailure.
Proof. solve_decision. Defined.

Definition blocked (b : ActionBlocker) : ActionFailure :=
  {| kind := Blocked b; stage := None; detail := blocker_message b;
     rollback := match b with InstallationPreflight _ _ => NotApplicable | _ => NotApplicableOrUnavailable end;
     channel_failure := None |}.

Definition blocked_with_detail (b : ActionBlocker) (detail : string) : ActionFailure :=
  {| kind := Blocked b; stage := None; detail := detail; rollback := rollback (blocked b); channel_failure := None |}.

Definition internal (detail : string) : ActionFailure :=
  {| kind := Internal; stage := None; detail := detail; rollback := NotApplicableOrUnavailable; channel_failure := None |}.

Definition internal_at (stage detail : string) : ActionFailure :=
  {| kind := Internal; stage := Some stage; detail := detail; rollback := NotApplicableOrUnavailable; channel_failure := None |}.

Definition installation_preflight (k : InstallationPreflightKind) (diagnostics : InstallationPreflightDiagnostics)
    (detail : string) : ActionFailure :=
  blocked_with_detail (InstallationPreflight k diagnostics) detail.

Definition with_rollback (outcome : RollbackOutcome) (f : ActionFailure) : ActionFailure :=
  {| kind := kind f; stage := stage f; detail := detail f; rollback := outcome; channel_failure := channel_failure f |}.

Definition with_channel_failure (channel : string) (f : ActionFailure) : ActionFailure :=
  {| kind := kind f; stage := stage f; detail := detail f; rollback := rollback f; channel_failure := Some channel |}.

Definition append_detail (suffix : string) (f : ActionFailure) : ActionFailure :=
  {| kind := kind f; stage := stage f; detail := detail f ++ suffix; rollback := rollback f; channel_failure := channel_failure f |}.

Definition diagnostics_of (f : ActionFailure) : option InstallationPreflightDiagnostics :=
  match kind f with Blocked (InstallationPreflight _ diagnostics) => Some diagnostics | _ => None end.

Definition user_message (f : ActionFailure) : string := detail f.

(** ** The codes are read back *)

Definition blocker_diagnostics (b : ActionBlocker) : option InstallationPreflightDiagnostics :=
  match b with InstallationPreflight _ diagnostics => Some diagnostics | _ => None end.

(** What crosses the boundary between the processes as a code arrives as the blocker
    and the outcome it was sent for. *)
Lemma codes_are_read_back b o :
  from_stage_code (stage_code b) (blocker_diagnostics b) = Some b ∧ outcome_from_wire (outcome_as_str o) = Some o.
Proof. split; [by destruct b as [|[]| |[]|[]| |[] ?]|by destruct o]. Qed.
