(* ===== verification/MachineActions.v ===== *)
(** * Actions on the machine

    [control-center/src-tauri/src/machine_integration/orchestrator.rs], [publish.rs],
    [designation.rs], [status.rs] and [appinit.rs]: which action on the machine is
    dispatched, and the publication of a profile with its undoing, against the trait
    [MachineBackend]. *)

From stdpp Require Import pretty.
From S2P Require Export Traces MachineService AppInit.

(** ** The trait [MachineBackend] *)

Class MachineBackend (S : Type) := {
  new_service_status : S → SystemServiceStatus * S;
  service_management_package_state : S → ServiceManagementPackageState * S;
  legacy_tray_status : S → LegacyTrayStatus * S;
  appinit_conflict : S → result bool string * S;
  legacy_service_blocks_activation : S → result bool string * S;
  execute_action : MachineAction → option (list ascii) → S → result unit ActionFailure * S
}.

(** ** [designation.rs] and [status.rs] *)

Inductive DesignationPlan := PublishLive | HoldForNextStart | KeepLocalUntilServiceStart.

#[export] Instance DesignationPlan_eq_dec : EqDecision DesignationPlan.
Proof. solve_decision. Defined.

Definition stable_installation (i : InstallationState) : bool :=
  match i with NotInstalled | Current | Outdated => true | _ => false end.

Definition stable_runtime (r : RuntimeState) : bool := match r with Running | Stopped => true | _ => false end.

Definition profile_publication_supported (service : SystemServiceStatus) (registry_mode_detected : bool) : bool :=
  negb registry_mode_detected && bool_decide (backend service ≠ ForeignBackend)
  && stable_installation (installation service) && stable_runtime (runtime service).

Definition system_modes_supported (service : SystemServiceStatus) (registry_mode_detected : bool)
    (package : ServiceManagementPackageState) : bool :=
  bool_decide (package = PackageReady) && profile_publication_supported service registry_mode_detected.

Definition designation_plan_with_package (status : MachineStatus) (package : ServiceManagementPackageState) : DesignationPlan :=
  let service := new_service status in
  if bool_decide (runtime service = Running) then PublishLive
  else if bool_decide (runtime service = Stopped)
          && match installation service with Current | Outdated => true | _ => false end
          && system_modes_supported service (registry_conflict status) package
          && negb (registry_conflict status) && negb (blocks_machine_change (legacy_tray status))
  then HoldForNextStart
  else KeepLocalUntilServiceStart.

Definition project_new_service_capabilities (status : SystemServiceStatus) (registry_conflict : bool)
    (legacy_tray_conflict : LegacyTrayConflictState) : SystemServiceStatus :=
  if registry_conflict || bool_decide (legacy_tray_conflict ≠ Clear) then
    {| backend := backend status; installation := installation status; runtime := runtime status;
       service_health := service_health status; binary_path := binary_path status; win32_error := win32_error status;
       active_digest := active_digest status; configuration_drift := configuration_drift status;
       can_install := false; can_remove := false; can_start := false;
       can_stop := can_stop status && bool_decide (backend status = OpenSource) && bool_decide (runtime status = Running);
       can_repair := false; can_upgrade := false |}
  else status.

Definition project_system_injection_active (status : SystemServiceStatus) (registry_conflict : bool)
    (legacy_tray_conflict : LegacyTrayConflictState) (expected_profile_digest : option string) : bool :=
  negb registry_conflict && bool_decide (legacy_tray_conflict = Clear)
  && system_injection_active status expected_profile_digest.

(** [appinit_view_conflict] *)
Definition appinit_view_conflict (enabled : result bool unit) (value : result (option (list N)) unit) : result bool unit :=
  let-? enabled := enabled in
  if negb enabled then Ok false
  else let-? value := value in map_err (λ _, tt) (appinit_mactype_conflict true value).

(** [bytes.is_empty() || bytes.len() > MAX_PROFILE_BYTES] *)
Definition outside_the_range (profile : list ascii) : bool :=
  (bytes_len profile =? 0)%N || (MAX_PROFILE_BYTES <? bytes_len profile)%N.

(** ** [orchestrator.rs] *)

Inductive TrayLoginState := LoginPaused | Observing | UsingRunningNewService.

Definition native_action_authorized (status : SystemServiceStatus) (action : MachineAction) : option bool :=
  match action with
  | ActInstall => Some (can_install status)
  | ActUpgrade => Some (can_upgrade status)
  | ActRepair => Some (can_repair status)
  | ActRemove => Some (can_remove status)
  | ActStart => Some (can_start status)
  | ActStop => Some (can_stop status)
  | ActPublishProfile | ActDesignateProfile | ActMigrateFromLegacy | ActRollback | ActRemoveLegacy => None
  end.

(** The actions that carry a profile. *)
Definition carries_profile (action : MachineAction) : bool :=
  match action with
  | ActStart | ActPublishProfile | ActDesignateProfile | ActMigrateFromLegacy | ActRemoveLegacy => true
  | _ => false
  end.

Definition profile_contract_is_valid (action : MachineAction) (profile : option (list ascii)) : bool :=
  (if carries_profile action then bool_decide (is_Some profile) else bool_decide (profile = None))
  && negb (match profile with Some bytes => outside_the_range bytes | None => false end).

(** [matches!(action, Rollback | Stop)] *)
Definition always_possible (action : MachineAction) : bool :=
  match action with ActRollback | ActStop => true | _ => false end.

Definition starts_injection (action : MachineAction) : bool :=
  match action with ActInstall | ActStart | ActPublishProfile => true | _ => false end.

(** The last guard of an action that is not native. *)
Definition unsafe_status (status : SystemServiceStatus) : bool :=
  bool_decide (backend status = ForeignBackend) || negb (stable_installation (installation status))
  || negb (stable_runtime (runtime status)).

Section Orchestrator.
Context {S : Type} `{MachineBackend S}.

Definition tray_login_with (paused ci_smoke : bool) (expected_profile_digest : option string) : M S TrayLoginState :=
  let! status := call_of new_service_status in
  ret (if paused then LoginPaused
       else if negb ci_smoke && system_injection_active status expected_profile_digest then UsingRunningNewService
       else Observing).

Definition refuse_activation_with_legacy_service (action : MachineAction) : M S (result unit ActionFailure) :=
  if starts_injection action then
    let! blocks := call_of legacy_service_blocks_activation in
    match map_err (internal_at "observe-legacy-service") blocks with
    | Err e => ret (Err e)
    | Ok true => ret (Err (blocked (LegacyServiceStillInstalled StartNewService)))
    | Ok false => ret (Ok tt)
    end
  else ret (Ok tt).

(** The guards up to the observed status: whether an AppInit conflict was seen. *)
Definition observe_conflicts (action : MachineAction) : M S (result bool ActionFailure) :=
  if always_possible action then ret (Ok false)
  else
    let! tray := call_of legacy_tray_status in
    if blocks_machine_change tray then ret (Err (blocked (LegacyTrayModeBlocks TrayIntegrationChange)))
    else
      let! conflict := call_of appinit_conflict in
      ret (map_err (internal_at "observe-appinit-conflict") conflict).

Definition execute_machine_action_with (action : MachineAction) (profile : option (list ascii)) :
    M S (result unit ActionFailure) :=
  if negb (profile_contract_is_valid action profile) then
    ret (Err (internal "the machine action has an invalid profile payload"))
  else
    let? appinit_conflict := observe_conflicts action in
    let! status := call_of new_service_status in
    if bool_decide (action = ActRollback) then call_of (execute_action action profile)
    else
      match native_action_authorized status action with
      | Some authorized =>
          if negb authorized then
            ret (Err (internal ("the current service status does not authorize " ++ debug_action action)))
          else if appinit_conflict && bool_decide (action ≠ ActStop) then
            ret (Err (blocked (AppInitConflict AppInitIntegrationChange)))
          else
            let? _ := refuse_activation_with_legacy_service action in
            let dispatched := if bool_decide (action = ActStart) && bool_decide (is_Some profile)
                              then ActPublishProfile else action in
            call_of (execute_action dispatched profile)
      | None =>
          if appinit_conflict then ret (Err (blocked (AppInitConflict AppInitIntegrationChange)))
          else if unsafe_status status then
            ret (Err (internal "the machine integration state is foreign, transitioning, or unsafe"))
          else
            let? _ := refuse_activation_with_legacy_service action in
            call_of (execute_action action profile)
      end.
End Orchestrator.

(** ** [publish.rs] *)

Definition READY_ATTEMPTS : nat := 200.

Definition digest_or_missing (d : option string) : string := default "missing" d.

Definition not_ready_message (status : SystemServiceStatus) (expected_digest : string) : string :=
  "the new service did not become Ready with the published profile: backend=" ++ debug_backend (backend status)
  ++ ", installation=" ++ debug_installation (installation status) ++ ", runtime=" ++ debug_runtime (runtime status)
  ++ ", health=" ++ debug_health (service_health status) ++ ", activeProfileDigest="
  ++ digest_or_missing (active_digest status) ++ ", expectedProfileDigest=" ++ expected_digest ++ ", win32Error="
  ++ match win32_error status with Some error => pretty error | None => "none" end.

Definition combine_rollback_error (primary : ActionFailure) (rolled_back : result unit ActionFailure) : ActionFailure :=
  match rolled_back with
  | Ok _ => primary
  | Err cleanup =>
      with_rollback RollbackFailed
        (append_detail ("; machine integration cleanup is unknown: " ++ user_message cleanup) primary)
  end.

Section Publish.
Context {S : Type} `{MachineBackend S} `{Sha256}.

(** The loop of [wait_for_published_profile_with]: between two attempts it sleeps. *)
Fixpoint observe_published (expected_digest : string) (attempts : nat) (last : option SystemServiceStatus) :
    M S (result unit ActionFailure) :=
  match attempts with
  | 0 =>
      match last with
      | None => no_answer
      | Some status => ret (Err (internal (not_ready_message status expected_digest)))
      end
  | Datatypes.S attempts =>
      let! status := call_of new_service_status in
      if system_injection_active status (Some expected_digest) then ret (Ok tt)
      else observe_published expected_digest attempts (Some status)
  end.

Definition wait_for_published_profile_with (expected_digest : string) (maximum_attempts : nat) :
    M S (result unit ActionFailure) :=
  if maximum_attempts =? 0 then ret (Err (internal "published profile verification has no polling budget"))
  else observe_published expected_digest maximum_attempts None.

(** [failures.push(format!("{label}: {error}"))] *)
Definition attempt (label : string) (action : MachineAction) (failures : list string) : M S (list string) :=
  let! r := call_of (execute_action action None) in
  ret (match r with Ok _ => failures | Err error => failures ++ [(label ++ ": " ++ user_message error)%string] end).

Fixpoint attempt_all (steps : list (string * MachineAction)) (failures : list string) : M S (list string) :=
  match steps with
  | [] => ret failures
  | (label, action) :: steps' =>
      let! failures := attempt label action failures in
      attempt_all steps' failures
  end.

(** What undoes a publication, in order. *)
Definition cleanup_steps (before : SystemServiceStatus) (profile_changed : bool) : list (string * MachineAction) :=
  [("stop", ActStop)] ++ (if profile_changed then [("profile rollback", ActRollback)] else [])
  ++ match installation before with
     | NotInstalled => [("remove newly installed service", ActRemove)]
     | _ => if bool_decide (runtime before = Running) then [("restart prior service", ActStart)] else []
     end.

Definition rollback_published_profile (before : SystemServiceStatus) (profile_changed : bool) : M S (result unit ActionFailure) :=
  let! failures := attempt_all (cleanup_steps before profile_changed) [] in
  ret (match failures with
       | [] => Ok tt
       | _ => Err (internal (String.concat "; " failures))
       end).

(** The actions after the profile, each with [and_then]. *)
Fixpoint execute_all (actions : list MachineAction) : M S (result unit ActionFailure) :=
  match actions with
  | [] => ret (Ok tt)
  | action :: actions' =>
      let? _ := call_of (execute_action action None) in
      execute_all actions'
  end.

Definition activation_actions (i : InstallationState) : option (list MachineAction) :=
  match i with
  | NotInstalled => Some [ActInstall; ActStart]
  | Outdated => Some [ActUpgrade; ActStart]
  | Current => Some [ActStart]
  | _ => None
  end.

(** A failure after the profile was published is undone. *)
Definition or_undo (before : SystemServiceStatus) (profile_changed : bool) (m : M S (result unit ActionFailure)) :
    M S (result unit ActionFailure) :=
  let! r := m in
  match r with
  | Ok _ => ret (Ok tt)
  | Err error =>
      let! rolled_back := rollback_published_profile before profile_changed in
      ret (Err (combine_rollback_error error rolled_back))
  end.

Definition publish_profile_transaction_with (profile : list ascii) : M S (result unit ActionFailure) :=
  if outside_the_range profile then
    ret (Err (internal "the published profile payload is outside the allowed range"))
  else
    let! before := call_of new_service_status in
    if unsafe_status before then ret (Err (internal "the new service is foreign, transitioning, or unsafe"))
    else
      let expected := from_profile_bytes profile in
      let profile_changed := bool_decide (active_digest before ≠ Some expected) in
      let was_running := bool_decide (runtime before = Running) in
      let? _ := (if was_running then call_of (execute_action ActStop None) else ret (Ok tt)) in
      let! published := call_of (execute_action ActPublishProfile (Some profile)) in
      match published with
      | Err error =>
          if was_running then
            let! restarted := call_of (execute_action ActStart None) in
            ret (Err (match restarted with
                      | Ok _ => error
                      | Err restart =>
                          with_rollback RollbackFailed (append_detail
                            ("; machine integration cleanup is unknown because the prior service could not be restarted: "
                             ++ user_message restart) error)
                      end))
          else ret (Err error)
      | Ok _ =>
          match activation_actions (installation before) with
          | None => no_answer
          | Some actions =>
              let? _ := or_undo before profile_changed (execute_all actions) in
              or_undo before profile_changed (wait_for_published_profile_with expected READY_ATTEMPTS)
          end
      end.

(** [designation_status_with] *)
Definition designation_status_with : M S MachineStatus :=
  let! conflict := call_of appinit_conflict in
  let! tray := call_of legacy_tray_status in
  let! service := call_of new_service_status in
  ret {| new_service := service; legacy_tray := tray;
         registry_conflict := match conflict with Ok conflict => conflict | Err _ => true end |}.

Definition designate_profile_transaction_with (profile : list ascii) : M S (result unit ActionFailure) :=
  if outside_the_range profile then
    ret (Err (internal "the designated profile payload is outside the allowed range"))
  else
    let! status := designation_status_with in
    let! package := call_of service_management_package_state in
    match designation_plan_with_package status package with
    | PublishLive =>
        let! blocks := call_of legacy_service_blocks_activation in
        match map_err internal blocks with
        | Err e => ret (Err e)
        | Ok true => ret (Err (blocked (LegacyServiceStillInstalled ApplyProfile)))
        | Ok false => publish_profile_transaction_with profile
        end
    | HoldForNextStart => call_of (execute_action ActPublishProfile (Some profile))
    | KeepLocalUntilServiceStart => ret (Ok tt)
    end.

Definition execute_designation_plan_with (profile : list ascii) (plan : DesignationPlan) : M S (result DesignationEffect ActionFailure) :=
  if outside_the_range profile then
    ret (Err (internal "the designated profile payload is outside the allowed range"))
  else
    match plan with
    | PublishLive =>
        let? _ := execute_machine_action_with ActPublishProfile (Some profile) in
        ret (Ok Live)
    | HoldForNextStart =>
        let? _ := execute_machine_action_with ActDesignateProfile (Some profile) in
        ret (Ok NextStart)
    | KeepLocalUntilServiceStart => ret (Ok NextStart)
    end.
End Publish.
