(* ===== verification/MachineActionFacts.v ===== *)
(** * What the actions on the machine promise

    Nothing is dispatched while something on the machine conflicts with it, and the
    publication of a profile either takes effect, as it was observed to, or every step
    of its undoing is tried. *)

From stdpp Require Import pretty.
From S2P Require Export MachineActions.

(** ** The calls of the trait *)

Inductive MachineCall :=
| Saw (status : SystemServiceStatus)
| SawPackage (package : ServiceManagementPackageState)
| SawTray (tray : LegacyTrayStatus)
| SawAppInit (answer : result bool string)
| SawLegacy (answer : result bool string)
| Executed (action : MachineAction) (profile : option (list ascii)) (answer : result unit ActionFailure).

#[export] Instance Noted_backend S `{MachineBackend S} : MachineBackend (Noted S MachineCall) := {
  new_service_status := noted Saw new_service_status;
  service_management_package_state := noted SawPackage service_management_package_state;
  legacy_tray_status := noted SawTray legacy_tray_status;
  appinit_conflict := noted SawAppInit appinit_conflict;
  legacy_service_blocks_activation := noted SawLegacy legacy_service_blocks_activation;
  execute_action action profile := noted (Executed action profile) (execute_action action profile)
}.

Notation Step := (MachineAction * option (list ascii))%type.

Definition executed_step (c : MachineCall) : option (Step * bool) :=
  match c with Executed action profile answer => Some (action, profile, is_ok answer) | _ => None end.

(** The actions that were executed, with what came of them. *)
Definition executed (calls : list MachineCall) : list (Step * bool) := omap executed_step calls.

Definition succeeded (steps : list Step) : list (Step * bool) := map (λ step, (step, true)) steps.

Lemma executed_app l k : executed (l ++ k) = executed l ++ executed k.
Proof. apply omap_app. Qed.

Section Dispatch.
Context {S : Type} `{MachineBackend S}.
Notation T := (Noted S MachineCall).

(** What was seen before anything was done. *)
Definition only_seen (calls : list MachineCall) : Prop := executed calls = [].

Lemma observe_conflicts_tells action :
  tells (observe_conflicts (S := T) action) (λ r seen, only_seen seen ∧ ∀ conflict, r = Ok conflict →
    always_possible action = true ∧ conflict = false ∨
    ∃ tray, SawTray tray ∈ seen ∧ MachineService.conflict tray = Clear ∧ SawAppInit (Ok conflict) ∈ seen).
Proof.
  unfold observe_conflicts. destruct (always_possible action).
  { apply tells_ret. split; [done|]. intros conflict <-%(inj Ok). by left. }
  apply tells_then. intros tray. unfold blocks_machine_change. case_bool_decide as Htray.
  { apply tells_ret. by split. }
  apply tells_then. intros answer. apply tells_ret. split; [done|]. intros conflict Hok. right.
  exists tray. split; [by left|]. split; [done|].
  destruct answer; [|done]. apply (inj Ok) in Hok as ->. right. by left.
Qed.

Lemma refuse_activation_tells action :
  tells (refuse_activation_with_legacy_service (S := T) action) (λ r seen, only_seen seen ∧
    (r = Ok tt → starts_injection action = true → SawLegacy (Ok false) ∈ seen)).
Proof.
  unfold refuse_activation_with_legacy_service. destruct (starts_injection action); [|by apply tells_ret].
  apply tells_then. intros [[]|e]; apply tells_ret; split; try done. intros _ _. by left.
Qed.

(** The guards under which an action is dispatched. *)
Definition authorized (action : MachineAction) (seen : list MachineCall) : Prop :=
  (always_possible action = true ∨
   ∃ tray, SawTray tray ∈ seen ∧ MachineService.conflict tray = Clear ∧ SawAppInit (Ok false) ∈ seen) ∧
  (∃ status, Saw status ∈ seen ∧
   match native_action_authorized status action with
   | Some authorized => authorized = true
   | None => action = ActRollback ∨ unsafe_status status = false
   end) ∧
  (starts_injection action = true → SawLegacy (Ok false) ∈ seen).

Definition dispatched_as (action : MachineAction) : MachineAction :=
  match action with ActStart => ActPublishProfile | _ => action end.

(** At most one action is executed, at the end, under all its guards. *)
Definition dispatches (action : MachineAction) (profile : option (list ascii)) (r : result unit ActionFailure)
    (calls : list MachineCall) : Prop :=
  only_seen calls ∧ is_err r = true ∨
  ∃ seen, calls = seen ++ [Executed (dispatched_as action) profile r] ∧ only_seen seen ∧ authorized action seen.

Lemma refuses action profile e calls : only_seen calls → dispatches action profile (Err e) calls.
Proof. by left. Qed.

Lemma dispatched_start action profile :
  profile_contract_is_valid action profile = true →
  (if bool_decide (action = ActStart) && bool_decide (is_Some profile) then ActPublishProfile else action) = dispatched_as action.
Proof.
  unfold profile_contract_is_valid. destruct action; try done. cbn. by case_bool_decide.
Qed.

(** The last guard and the execution. *)
Lemma execute_authorized action profile seen :
  only_seen seen →
  (∀ more, (starts_injection action = true → SawLegacy (Ok false) ∈ more) → only_seen more → authorized action (seen ++ more)) →
  tells (let? _ := refuse_activation_with_legacy_service (S := T) action in
        call_of (execute_action (dispatched_as action) profile))
    (λ r calls, dispatches action profile r (seen ++ calls)).
Proof.
  intros Hseen Hauth. eapply tells_try; [apply refuse_activation_tells|..]; cbv beta.
  - intros [] more [Hmore Hlegacy]. apply tells_call. intros r. right. exists (seen ++ more).
    rewrite app_assoc. split; [done|]. unfold only_seen in *. rewrite executed_app, Hseen, Hmore. split; [done|].
    apply Hauth; [by apply Hlegacy|done].
  - intros e more [Hmore _]. apply refuses. unfold only_seen in *. by rewrite executed_app, Hseen, Hmore.
Qed.

Lemma execute_machine_action_tells action profile :
  tells (execute_machine_action_with (S := T) action profile) (λ r calls,
    dispatches action profile r calls ∧ (profile_contract_is_valid action profile = false → calls = [])).
Proof.
  unfold execute_machine_action_with. destruct (profile_contract_is_valid action profile) eqn:Ep; cbn [negb].
  2: { apply tells_ret. split; [by apply refuses|done]. }
  eapply tells_mono; [|intros r calls Hd; split; [exact Hd|by intros ?]].
  eapply tells_try; [apply observe_conflicts_tells|..]; cbv beta.
  2: { intros e seen [Hseen _]. by apply refuses. }
  intros conflict seen [Hseen Hconflict]. specialize (Hconflict conflict eq_refl).
  apply tells_then. intros status.
  assert (only_seen (seen ++ [Saw status])) as Hseen' by (unfold only_seen in *; by rewrite executed_app, Hseen).
  assert (∀ calls, seen ++ Saw status :: calls = (seen ++ [Saw status]) ++ calls) as Hshift
    by (intros; by rewrite <- app_assoc).
  assert (∀ more, conflict = false ∨ always_possible action = true →
    match native_action_authorized status action with Some b => b = true | None => action = ActRollback ∨ unsafe_status status = false end →
    (starts_injection action = true → SawLegacy (Ok false) ∈ more) → authorized action ((seen ++ [Saw status]) ++ more)) as Hauth.
  { intros more Hfalse Hnative Hlegacy. split; [|split].
    - destruct Hconflict as [[Hc _]|(tray & Htray & Hclear & Happ)]; [by left|]. destruct Hfalse as [->|Hc]; [|by left].
      right. exists tray. rewrite !elem_of_app. auto.
    - exists status. rewrite !elem_of_app. split; [left; right; by left|done].
    - intros Hs. apply elem_of_app. right. by apply Hlegacy. }
  case_bool_decide as Hrollback.
  { subst action. apply tells_call. intros r. right. exists (seen ++ [Saw status]). rewrite <- app_assoc. split; [done|].
    split; [done|]. rewrite <- (app_nil_r (seen ++ [Saw status])). apply Hauth; [by right|by left|done]. }
  destruct (native_action_authorized status action) as [allowed|] eqn:Enative.
  - destruct allowed; cbn [negb]; [|apply tells_ret; rewrite Hshift, app_nil_r; by apply refuses].
    destruct (conflict && bool_decide (action ≠ ActStop)) eqn:Ec; [apply tells_ret; rewrite Hshift, app_nil_r; by apply refuses|].
    rewrite (dispatched_start action profile Ep).
    eapply tells_mono; [apply execute_authorized; [exact Hseen'|]|intros r calls Hd; by rewrite Hshift].
    intros more Hlegacy _. apply Hauth; [|done|done].
    destruct conflict; [|by left]. right. cbn in Ec. apply bool_decide_eq_false, dec_stable in Ec. by subst.
  - destruct conflict; [apply tells_ret; rewrite Hshift, app_nil_r; by apply refuses|].
    destruct (unsafe_status status) eqn:Eu; [apply tells_ret; rewrite Hshift, app_nil_r; by apply refuses|].
    assert (dispatched_as action = action) as Hd by (by destruct action).
    pose proof (execute_authorized action profile (seen ++ [Saw status]) Hseen') as Hlast. rewrite Hd in Hlast.
    eapply tells_mono; [apply Hlast|intros r calls Hc; by rewrite Hshift].
    intros more Hlegacy _. apply Hauth; [by left|by right|done].
Qed.
End Dispatch.

(** ** Publication *)

Section Publication.
Context {S : Type} `{MachineBackend S} `{Sha256}.
Notation T := (Noted S MachineCall).

Lemma executed_saw status calls : executed (Saw status :: calls) = executed calls.
Proof. done. Qed.

(** Every step is tried, whatever the others answered; the failures are told. *)
Lemma attempt_all_tells steps failures :
  tells (attempt_all (S := T) steps failures) (λ told calls,
    map fst (executed calls) = map (λ s, (snd s, None)) steps ∧
    (told = failures ∨ told ≠ []) ∧ (Exists (λ x, snd x = false) (executed calls) → told ≠ []) ∧ (failures ≠ [] → told ≠ [])).
Proof.
  revert failures. induction steps as [|[label action] steps IH]; intros failures; cbn [attempt_all].
  { apply tells_ret. split; [done|]. split; [by left|]. split; [by intros Hf%Exists_nil|done]. }
  unfold attempt. intros t. specialize (IH).
  eapply (tells_bind _ _ (λ told calls, ∃ answer, calls = [Executed action None answer] ∧
    (is_ok answer = true → told = failures) ∧ (is_ok answer = false → told ≠ []) ∧ (failures ≠ [] → told ≠ []))).
  { apply tells_then. intros [u|e]; apply tells_ret; eexists; (split; [reflexivity|]); split_and!; try done.
    - intros _ Hnil. by apply app_eq_nil in Hnil as [_ ?].
    - intros _ Hnil. by apply app_eq_nil in Hnil as [_ ?]. }
  intros told calls (answer & -> & Hok & Hbad & Hkeep). eapply tells_mono; [apply IH|]. cbv beta.
  intros told' rest (Hsteps & Hcase & Hexists & Hgrow). cbn [app executed omap list_omap executed_step map fst snd].
  fold (executed rest). split; [by f_equal|]. split; [|split].
  - destruct Hcase as [->|]; [|by right]. destruct (is_ok answer); [left; by apply Hok|right; by apply Hbad].
  - intros [Hf|Hf]%Exists_cons; [|by apply Hexists]. apply Hgrow, Hbad. exact Hf.
  - intros Hf. by apply Hgrow, Hkeep.
Qed.

Lemma rollback_tells before changed :
  tells (rollback_published_profile (S := T) before changed) (λ r calls,
    map fst (executed calls) = map (λ s, (snd s, None)) (cleanup_steps before changed) ∧
    (Exists (λ x, snd x = false) (executed calls) → is_err r = true)).
Proof.
  unfold rollback_published_profile. eapply tells_bind; [apply attempt_all_tells|]. cbv beta.
  intros told calls (Hsteps & _ & Hexists & _). apply tells_ret. rewrite app_nil_r. split; [done|].
  intros Hf. by destruct told; [destruct (Hexists Hf)|].
Qed.

Lemma execute_all_tells actions :
  tells (execute_all (S := T) actions) (λ r calls, ∃ k,
    match r with
    | Ok _ => k = length actions ∧ executed calls = succeeded (map (λ a, (a, None)) actions)
    | Err _ => ∃ a, actions !! k = Some a ∧
        executed calls = succeeded (map (λ a, (a, None)) (take k actions)) ++ [((a, None), false)]
    end).
Proof.
  induction actions as [|a actions IH]; cbn [execute_all]; [apply tells_ret; by exists 0|].
  apply tells_then. intros [[]|e].
  - eapply tells_mono; [apply IH|]. cbv beta. intros r calls [k Hk]. exists (Datatypes.S k).
    destruct r; [destruct Hk as [-> Hk]; split; [done|]|destruct Hk as (a' & Ha & Hk); exists a'; split; [done|]];
      cbn [executed omap list_omap executed_step is_ok]; fold (executed calls); by rewrite Hk.
  - apply tells_ret. exists 0, a. by split.
Qed.

Lemma observe_published_tells digest attempts last :
  0 < attempts →
  tells (observe_published (S := T) digest attempts last) (λ r calls, executed calls = [] ∧
    match r with
    | Ok _ => ∃ status, list.last calls = Some (Saw status) ∧ system_injection_active status (Some digest) = true
    | Err _ => length calls = attempts ∧ ∀ c, c ∈ calls → ∃ status, c = Saw status ∧ system_injection_active status (Some digest) = false
    end).
Proof.
  revert last. induction attempts as [|attempts IH]; intros last Hpos; [lia|]. cbn [observe_published].
  apply tells_then. intros status. destruct (system_injection_active status (Some digest)) eqn:E.
  { apply tells_ret. split; [done|]. by exists status. }
  destruct attempts as [|attempts].
  { cbn [observe_published]. apply tells_ret. split; [done|]. split; [done|].
    intros c ->%list_elem_of_singleton. by exists status. }
  eapply tells_mono; [apply IH; lia|]. cbv beta. intros r calls [Hex Hr]. split; [done|]. destruct r as [u|e].
  - destruct Hr as (final & Hlast & Hact). exists final. split; [|done]. by destruct calls.
  - destruct Hr as [Hlen Hr]. split; [simpl; by rewrite Hlen|]. intros c [->|Hc]%elem_of_cons; [by exists status|by apply Hr].
Qed.

(** *** A publication as a whole *)

(** What is executed before the profile is published. *)
Definition stopping (before : SystemServiceStatus) : list Step :=
  if bool_decide (runtime before = Running) then [(ActStop, None)] else [].

Definition restarting (before : SystemServiceStatus) : list Step :=
  if bool_decide (runtime before = Running) then [(ActStart, None)] else [].

(** What undoes a publication: the service is stopped, the profile is rolled back if it
    was another one, and the service that was not there is removed, or the one that ran
    is started. *)
Definition undoing (before : SystemServiceStatus) (changed : bool) : list Step :=
  [(ActStop, None)] ++ (if changed then [(ActRollback, None)] else [])
  ++ (if bool_decide (installation before = NotInstalled) then [(ActRemove, None)] else restarting before).

Lemma cleanup_undoes before changed : map (λ s, (snd s, None)) (cleanup_steps before changed) = undoing before changed.
Proof.
  unfold cleanup_steps, undoing, restarting. destruct changed, (installation before), (bool_decide (runtime before = Running)); reflexivity.
Qed.

Definition failed_step (x : Step * bool) : Prop := snd x = false.

(** The steps were all tried, and a failure among them is reported. *)
Definition tried (steps : list Step) (e : ActionFailure) (calls : list (Step * bool)) : Prop :=
  map fst calls = steps ∧ (Exists failed_step calls → rollback e = RollbackFailed).

(** How a publication can go. *)
Inductive publication (profile : list ascii) (before : SystemServiceStatus) (actions : list MachineAction) :
    result unit ActionFailure → list (Step * bool) → Prop :=
| NotStopped e : runtime before = Running → publication profile before actions (Err e) [((ActStop, None), false)]
| NotPublished e back :
    tried (restarting before) e back →
    publication profile before actions (Err e)
      (succeeded (stopping before) ++ [((ActPublishProfile, Some profile), false)] ++ back)
| NotActivated e k a back :
    actions !! k = Some a →
    tried (undoing before (bool_decide (active_digest before ≠ Some (from_profile_bytes profile)))) e back →
    publication profile before actions (Err e)
      (succeeded (stopping before ++ [(ActPublishProfile, Some profile)] ++ map (λ a, (a, None)) (take k actions))
       ++ [((a, None), false)] ++ back)
| NotReady e back :
    tried (undoing before (bool_decide (active_digest before ≠ Some (from_profile_bytes profile)))) e back →
    publication profile before actions (Err e)
      (succeeded (stopping before ++ [(ActPublishProfile, Some profile)] ++ map (λ a, (a, None)) actions) ++ back)
| Effective :
    publication profile before actions (Ok tt)
      (succeeded (stopping before ++ [(ActPublishProfile, Some profile)] ++ map (λ a, (a, None)) actions)).

(** A failed step and the undoing that follows it. *)
Lemma or_undo_tells before changed (m : M T (result unit ActionFailure)) P :
  tells m P →
  tells (or_undo before changed m) (λ r calls,
    match r with
    | Ok _ => P (Ok tt) calls
    | Err e => ∃ first error back, P (Err error) first ∧ executed calls = executed first ++ back ∧ tried (undoing before changed) e back
    end).
Proof.
  intros Hm. unfold or_undo. eapply tells_bind; [exact Hm|]. intros [[]|error] first HP.
  { apply tells_ret. by rewrite app_nil_r. }
  eapply tells_bind; [apply rollback_tells|]. cbv beta. intros back calls [Hsteps Hfail]. apply tells_ret.
  exists first, error, (executed calls). rewrite app_nil_r. split; [done|]. split; [apply executed_app|].
  split; [by rewrite Hsteps, cleanup_undoes|]. intros Hf. specialize (Hfail Hf). by destruct back.
Qed.

Definition active_in_the_end (digest : string) (calls : list MachineCall) : Prop :=
  ∃ status, list.last calls = Some (Saw status) ∧ system_injection_active status (Some digest) = true.

Lemma last_in_front l k digest : active_in_the_end digest k → active_in_the_end digest (l ++ k).
Proof. intros (status & Hlast & Hact). exists status. by rewrite last_app, Hlast. Qed.

Lemma publish_tells profile :
  tells (publish_profile_transaction_with (S := T) profile) (λ r calls,
    only_seen calls ∧ is_err r = true ∨
    ∃ before actions, list.head calls = Some (Saw before) ∧ unsafe_status before = false ∧
      activation_actions (installation before) = Some actions ∧ outside_the_range profile = false ∧
      publication profile before actions r (executed calls) ∧
      (r = Ok tt → active_in_the_end (from_profile_bytes profile) calls)).
Proof.
  unfold publish_profile_transaction_with. destruct (outside_the_range profile) eqn:Erange.
  { apply tells_ret. by left. }
  apply tells_then. intros before. destruct (unsafe_status before) eqn:Eu; [apply tells_ret; by left|]. cbv zeta.
  assert (∃ actions, activation_actions (installation before) = Some actions) as [actions Eactions].
  { unfold unsafe_status in Eu. destruct (installation before); try (by eexists); cbn in Eu; by rewrite orb_true_r in Eu. }
  rewrite Eactions. eapply tells_mono; [|intros r calls Hr; right; exists before, actions; repeat (split; [done|]); exact Hr].
  set (changed := bool_decide _).
  eapply (tells_try _ _ (λ r calls, match r with
     | Ok _ => executed calls = succeeded (stopping before)
     | Err _ => runtime before = Running ∧ executed calls = [((ActStop, None), false)] end)).
  { unfold stopping. case_bool_decide; [|by apply tells_ret]. apply tells_call. by intros [[]|e]. }
  2: { intros e calls [Hrun Hstop]. cbn [app]. rewrite executed_saw, Hstop. split; [by constructor|done]. }
  intros [] stops Hstops. apply tells_then. intros [[]|e].
  - eapply tells_try; [apply or_undo_tells, execute_all_tells|..]; cbv beta.
    + intros [] activated (k & -> & Hact). eapply tells_mono; [apply or_undo_tells, observe_published_tells; unfold READY_ATTEMPTS; lia|].
      cbv beta. intros r calls Hr. split.
      * cbn [app]. rewrite executed_saw, executed_app. cbn [executed omap list_omap executed_step is_ok].
        fold (executed (activated ++ calls)). rewrite executed_app, Hstops, Hact.
        destruct r as [[]|e].
        -- destruct Hr as [-> _]. rewrite app_nil_r. unfold succeeded. rewrite !map_app || idtac.
           change ((ActPublishProfile, Some profile, true) :: map (λ step : Step, (step, true)) (map (λ a, (a, None)) actions))
             with (succeeded ([(ActPublishProfile, Some profile)] ++ map (λ a, (a, None)) actions)).
           unfold succeeded. rewrite <- map_app. apply Effective.
        -- destruct Hr as (first & error & back & [-> _] & -> & Htried).
           pose proof (NotReady profile before actions e back Htried) as Hrun.
           unfold succeeded in *. rewrite !map_app in Hrun. rewrite <- !app_assoc in Hrun. exact Hrun.
      * intros ->. destruct Hr as (_ & Hr). apply (last_in_front (Saw before :: stops ++ [Executed ActPublishProfile (Some profile) (Ok tt)] ++ activated)) in Hr.
        cbn [app] in Hr. rewrite <- !app_assoc in Hr. exact Hr.
    + intros e calls (first & error & back & (k & a & Ha & Hact) & Hcalls & Htried). split; [|done].
      cbn [app]. rewrite executed_saw, executed_app. cbn [executed omap list_omap executed_step is_ok].
      fold (executed calls). rewrite Hcalls, Hstops, Hact.
      pose proof (NotActivated profile before actions e k a back Ha Htried) as Hrun.
      unfold succeeded in *. rewrite !map_app in Hrun. rewrite <- !app_assoc in Hrun |- *. exact Hrun.
  - assert (∀ e' back, tried (restarting before) e' (executed back) →
      publication profile before actions (Err e') (executed (Saw before :: stops ++ Executed ActPublishProfile (Some profile) (Err e) :: back))) as Hnot.
    { intros e' back Hback. rewrite executed_saw, executed_app, Hstops. by apply NotPublished. }
    unfold restarting in Hnot. case_bool_decide as Hrunning.
    + apply tells_then. intros restarted. apply tells_ret. split; [|by destruct restarted]. cbn [app]. apply Hnot.
      split; [done|]. intros [Hf|Hf%Exists_nil]%Exists_cons; [|done]. by destruct restarted.
    + apply tells_ret. split; [|done]. cbn [app]. apply Hnot. split; [done|]. by intros Hf%Exists_nil.
Qed.
End Publication.

(** ** Properties *)

(** C22. No action on the machine is dispatched while something conflicts with it: against
    any backend, an action ends with an answer, and it executes nothing and reports an
    error, or it executes one action, last, with the profile it was given: itself, or
    the publication in place of a start.  Then the profile fits the action; a status was
    seen that authorizes it; unless it is a rollback or a stop, the older tray and
    AppInit were seen not to conflict; and if it starts the injection, the older
    service was seen not to block it. *)
Theorem machine_action_is_guarded {S} `{MachineBackend S} action profile (s : S) :
  ∃ r t, execute_machine_action_with (S := Noted S MachineCall) action profile (mk_noted s []) = Some (r, t) ∧
    dispatches action profile r (notes t) ∧
    (profile_contract_is_valid action profile = false → notes t = []).
Proof. apply (tells_run _ _ s (execute_machine_action_tells action profile)). Qed.

(** C23. The publication of a profile takes effect or is undone: against any backend it
    ends with an answer.  When it reports success, the service was stopped if it ran,
    the profile was published, the service was installed or upgraded if it had to be
    and started, in that order, each successfully, and the last thing seen was the
    service at work with this profile.  When it fails behind the publication, every
    step that undoes it was tried, in order: the stop, the rollback of the profile if it
    was another one, and the removal of a service that was not there or the restart of
    one that ran; and when one of these failed, the failure says so. *)
Theorem publication_takes_effect_or_is_undone {S} `{MachineBackend S, Sha256} profile (s : S) :
  ∃ r t, publish_profile_transaction_with (S := Noted S MachineCall) profile (mk_noted s []) = Some (r, t) ∧
    (only_seen (notes t) ∧ is_err r = true ∨
     ∃ before actions, list.head (notes t) = Some (Saw before) ∧ unsafe_status before = false ∧
       activation_actions (installation before) = Some actions ∧ outside_the_range profile = false ∧
       publication profile before actions r (executed (notes t)) ∧
       (r = Ok tt → active_in_the_end (from_profile_bytes profile) (notes t))).
Proof. apply (tells_run _ _ s (publish_tells profile)). Qed.
