(* ===== verification/Migration.v ===== *)
(** * The migration from the older MacType

    [control-center/src-tauri/src/machine_integration/open_service/migration.rs],
    [open_service/startup_lifecycle.rs] and [legacy_mactray/startup_coordinator.rs]: the
    older service is stopped, the new one takes over, and the older one is removed, each
    step undone when a later one fails, against the traits of these files. *)

From S2P Require Export MachineActions.

Record MigrationVerification := {
  scm_running_ready : bool;
  active_digest_match : bool;
  telemetry_verified : bool
}.

Definition permits_removal (v : MigrationVerification) : bool :=
  scm_running_ready v && active_digest_match v && telemetry_verified v.

(** ** The trait [MigrationBackend], with its snapshot of the new service *)

Class MigrationBackend (S Snapshot : Type) := {
  prepare_legacy_backup : S → result unit ActionFailure * S;
  legacy_backup_is_valid : S → bool * S;
  capture_open_service : S → result Snapshot string * S;
  stop_legacy : S → result unit string * S;
  publish_profile : Snapshot → list ascii → S → result unit string * S;
  activate_open_service : Snapshot → S → result unit string * S;
  strict_ready : string → S → result bool string * S;
  verify_injection_smoke : string → S → result bool string * S;
  complete_migration : Snapshot → S → result unit string * S;
  rollback_open_service : Snapshot → S → result unit ActionFailure * S;
  restore_legacy : S → result unit string * S;
  removal_verification : string → S → result MigrationVerification string * S;
  remove_legacy : S → result unit string * S
}.

(** The actions of the setup program that activate the new service. *)
Definition migration_activation_actions (i : InstallationState) : result (list SystemServiceAction) string :=
  match i with
  | NotInstalled => Ok [ServiceInstall; ServiceStart]
  | Outdated => Ok [ServiceUpgrade; ServiceStart]
  | Current => Ok [ServiceStart]
  | _ => Err "the open service snapshot cannot be activated safely"%string
  end.

Section Migrate.
Context {S Snapshot : Type} `{!MigrationBackend S Snapshot} `{Sha256}.

Definition rollback_migration_failure (snapshot : Snapshot) (stage primary : string) : M S ActionFailure :=
  let! open_rollback := call_of (rollback_open_service snapshot) in
  let! legacy_rollback := call_of restore_legacy in
  let error := (stage ++ ": " ++ primary)%string in
  let error := match open_rollback with
    | Err failure => (error ++ "; open service rollback failed: " ++ user_message failure)%string
    | Ok _ => error
    end in
  let error := match legacy_rollback with
    | Err failure => (error ++ "; legacy service restore failed: " ++ failure)%string
    | Ok _ => error
    end in
  ret (with_rollback (if is_err open_rollback || is_err legacy_rollback then RollbackFailed else RollbackCompleted)
         (internal_at stage error)).

(** A step whose failure is rolled back. *)
Definition or_roll_back (snapshot : Snapshot) (stage : string) (step : M S (result unit string)) : M S (result unit ActionFailure) :=
  let! r := step in
  match r with
  | Ok _ => ret (Ok tt)
  | Err error => let! failure := rollback_migration_failure snapshot stage error in ret (Err failure)
  end.

(** [Ok(false)] is a failure with a text of its own. *)
Definition must_hold (text : string) (step : M S (result bool string)) : M S (result unit string) :=
  let! r := step in
  ret (match r with Ok true => Ok tt | Ok false => Err text | Err error => Err error end).

Definition validate_backup_failure : ActionFailure :=
  internal_at "validate legacy backup" "validate legacy backup: backup receipt is invalid".

Definition prepare_failure (failure : ActionFailure) : ActionFailure :=
  match kind failure with
  | Blocked _ => failure
  | Internal => internal_at "prepare legacy backup" ("prepare legacy backup: " ++ user_message failure)
  end.

Definition migrate_from_legacy (profile : list ascii) : M S (result unit ActionFailure) :=
  let! prepared := call_of prepare_legacy_backup in
  match map_err prepare_failure prepared with
  | Err failure => ret (Err failure)
  | Ok _ =>
      let! valid := call_of legacy_backup_is_valid in
      if negb valid then ret (Err validate_backup_failure)
      else
        let! captured := call_of capture_open_service in
        match captured with
        | Err error => ret (Err (internal_at "capture open service state" ("capture open service state: " ++ error)))
        | Ok snapshot =>
            let? _ := or_roll_back snapshot "stop legacy service" (call_of stop_legacy) in
            let? _ := or_roll_back snapshot "publish active profile" (call_of (publish_profile snapshot profile)) in
            let? _ := or_roll_back snapshot "activate open service" (call_of (activate_open_service snapshot)) in
            let expected := from_profile_bytes profile in
            let? _ := or_roll_back snapshot "verify open service readiness"
                        (must_hold "strict Ready or profile digest mismatch" (call_of (strict_ready expected))) in
            let? _ := or_roll_back snapshot "verify x86/x64 injection smoke"
                        (must_hold "both fixed-architecture marker processes were not injected"
                           (call_of (verify_injection_smoke expected))) in
            or_roll_back snapshot "complete migration runtime protection" (call_of (complete_migration snapshot))
        end
  end.

Definition remove_legacy_after_verification (profile : list ascii) : M S (result unit ActionFailure) :=
  let! valid := call_of legacy_backup_is_valid in
  if negb valid then ret (Err validate_backup_failure)
  else
    let expected := from_profile_bytes profile in
    let! verification := call_of (removal_verification expected) in
    match verification with
    | Err error => ret (Err (internal_at "verify legacy removal gate" ("verify legacy removal gate: " ++ error)))
    | Ok verification =>
        if negb (permits_removal verification) then
          ret (Err (internal_at "verify legacy removal gate"
            "verify legacy removal gate: Ready, profile digest, or x86/x64 telemetry is missing"))
        else
          let! removed := call_of remove_legacy in
          ret (match removed with
               | Ok _ => Ok tt
               | Err error => Err (with_rollback FailClosedLegacyStopped (internal_at "remove legacy service"
                   ("remove legacy service: " ++ error ++ "; the legacy service remains stopped and disabled")))
               end)
    end.
End Migrate.

(** ** The startup entries of the older tray *)

Class StartupReceiptRestorer (S : Type) := {
  restore_local_machine : S → result unit ActionFailure * S;
  restore_current_user : S → result unit ActionFailure * S
}.

Definition append_failure (label : string) (failure : option ActionFailure) (r : result unit ActionFailure) : option ActionFailure :=
  match r with
  | Ok _ => failure
  | Err error =>
      let suffix := ("; " ++ label ++ " startup restoration failed: " ++ user_message error)%string in
      Some (match failure with
            | Some failure => append_detail suffix failure
            | None => internal_at "startup-restoration" suffix
            end)
  end.

Definition combine_action_and_restoration (action machine user : result unit ActionFailure) : result unit ActionFailure :=
  let failure := match action with Ok _ => None | Err failure => Some failure end in
  let failure := append_failure "local-machine" failure machine in
  let failure := append_failure "current-user" failure user in
  let failure := if is_err machine || is_err user then option_map (with_rollback RollbackFailed) failure else failure in
  match failure with None => Ok tt | Some failure => Err failure end.

Definition changes_startup (action : SystemServiceAction) : bool :=
  match action with ServiceInstall | ServiceMigrateFromLegacy => true | _ => false end.

Section Startup.
Context {S : Type} `{StartupReceiptRestorer S}.

Definition finish_action_with_startup_receipts (action : SystemServiceAction) (action_result : result unit ActionFailure) :
    M S (result unit ActionFailure) :=
  let must_restore := match action_result with
    | Err failure => bool_decide (diagnostics_of failure = None)
    | Ok _ => false
    end && changes_startup action in
  if negb must_restore then ret action_result
  else
    let! machine := call_of restore_local_machine in
    let! user := call_of restore_current_user in
    ret (combine_action_and_restoration action_result machine user).
End Startup.

Class LegacyTrayStartupCoordinator (S : Type) := {
  observe_status : S → LegacyTrayStatus * S;
  disable_current_user : S → result unit string * S;
  disable_local_machine : S → result unit string * S;
  restore_local_machine_entries : S → result unit string * S;
  restore_current_user_entries : S → result unit string * S
}.

Definition with_cleanup_error (primary cleanup_name : string) (cleanup : result unit string) : string :=
  match cleanup with
  | Ok _ => primary
  | Err cleanup => primary ++ "; " ++ cleanup_name ++ " failed: " ++ cleanup
  end.

Definition tray_is_absent (s : LegacyTrayStatus) : bool := match process s with TrayAbsent => true | _ => false end.
Definition startup_is_absent (s : LegacyTrayStatus) : bool := match startup s with StartupAbsent => true | _ => false end.

Section DisableStartup.
Context {S : Type} `{LegacyTrayStartupCoordinator S}.

Definition disable_legacy_tray_startup_with : M S (result unit string) :=
  let! before := call_of observe_status in
  if negb (tray_is_absent before) then
    ret (Err "MacTray must be absent before its startup entries can be disabled"%string)
  else
    match startup before with
    | StartupAbsent => ret (Ok tt)
    | StartupUntrusted _ => ret (Err "untrusted MacTray startup entries require manual review"%string)
    | StartupUnknown _ => ret (Err "MacTray startup state is unknown"%string)
    | StartupDetected _ =>
        let? _ := call_of disable_current_user in
        let! machine := call_of disable_local_machine in
        match machine with
        | Err error =>
            let! cleanup := call_of restore_current_user_entries in
            ret (Err (with_cleanup_error error "current-user startup restoration" cleanup))
        | Ok _ =>
            let! after := call_of observe_status in
            if tray_is_absent after && startup_is_absent after then ret (Ok tt)
            else
              let! machine_restore := call_of restore_local_machine_entries in
              let! user_restore := call_of restore_current_user_entries in
              ret (Err (with_cleanup_error
                (with_cleanup_error "MacTray conflict state was not clear after startup disable"
                   "local-machine startup restoration" machine_restore)
                "current-user startup restoration" user_restore))
        end
    end.
End DisableStartup.
