(* ===== verification/MigrationFacts.v ===== *)
(** * What the migration promises

    The older service is only touched when there is a valid backup of it, every failure
    after that ends with both services rolled back, and it is only removed behind a
    verification, after which it is never started again. *)

From S2P Require Export Migration.

(** ** The calls of the trait *)

Inductive MigrationCall (Snapshot : Type) :=
| PreparedBackup (answer : result unit ActionFailure)
| CheckedBackup (valid : bool)
| CapturedService (answer : result Snapshot string)
| StoppedLegacy (answer : result unit string)
| PublishedProfile (snapshot : Snapshot) (profile : list ascii) (answer : result unit string)
| ActivatedService (snapshot : Snapshot) (answer : result unit string)
| AskedReady (digest : string) (answer : result bool string)
| AskedSmoke (digest : string) (answer : result bool string)
| CompletedMigration (snapshot : Snapshot) (answer : result unit string)
| RolledBackService (snapshot : Snapshot) (answer : result unit ActionFailure)
| RestoredLegacy (answer : result unit string)
| AskedRemoval (digest : string) (answer : result MigrationVerification string)
| RemovedLegacy (answer : result unit string).
Arguments PreparedBackup {Snapshot}.
Arguments CheckedBackup {Snapshot}.
Arguments CapturedService {Snapshot}.
Arguments StoppedLegacy {Snapshot}.
Arguments PublishedProfile {Snapshot}.
Arguments ActivatedService {Snapshot}.
Arguments AskedReady {Snapshot}.
Arguments AskedSmoke {Snapshot}.
Arguments CompletedMigration {Snapshot}.
Arguments RolledBackService {Snapshot}.
Arguments RestoredLegacy {Snapshot}.
Arguments AskedRemoval {Snapshot}.
Arguments RemovedLegacy {Snapshot}.

#[export] Instance Noted_migration S Snapshot `{!MigrationBackend S Snapshot} :
    MigrationBackend (Noted S (MigrationCall Snapshot)) Snapshot := {
  prepare_legacy_backup := noted PreparedBackup prepare_legacy_backup;
  legacy_backup_is_valid := noted CheckedBackup legacy_backup_is_valid;
  capture_open_service := noted CapturedService capture_open_service;
  stop_legacy := noted StoppedLegacy stop_legacy;
  publish_profile snapshot profile := noted (PublishedProfile snapshot profile) (publish_profile snapshot profile);
  activate_open_service snapshot := noted (ActivatedService snapshot) (activate_open_service snapshot);
  strict_ready digest := noted (AskedReady digest) (strict_ready digest);
  verify_injection_smoke digest := noted (AskedSmoke digest) (verify_injection_smoke digest);
  complete_migration snapshot := noted (CompletedMigration snapshot) (complete_migration snapshot);
  rollback_open_service snapshot := noted (RolledBackService snapshot) (rollback_open_service snapshot);
  restore_legacy := noted RestoredLegacy restore_legacy;
  removal_verification digest := noted (AskedRemoval digest) (removal_verification digest);
  remove_legacy := noted RemovedLegacy remove_legacy
}.

Section Migrating.
Context {S Snapshot : Type} `{!MigrationBackend S Snapshot} `{Sha256}.
Notation Call := (MigrationCall Snapshot).
Notation T := (Noted S (MigrationCall Snapshot)).

(** A migration without a failure, behind the snapshot. *)
Definition preparation (snapshot : Snapshot) : list Call :=
  [PreparedBackup (Ok tt); CheckedBackup true; CapturedService (Ok snapshot)].

Definition progress (snapshot : Snapshot) (profile : list ascii) : list Call :=
  [StoppedLegacy (Ok tt); PublishedProfile snapshot profile (Ok tt); ActivatedService snapshot (Ok tt);
   AskedReady (from_profile_bytes profile) (Ok true); AskedSmoke (from_profile_bytes profile) (Ok true);
   CompletedMigration snapshot (Ok tt)].

(** The same call as [good], with another answer that is no success. *)
Definition fails_at (good c : Call) : Prop :=
  match good, c with
  | StoppedLegacy _, StoppedLegacy answer => is_err answer = true
  | PublishedProfile sn p _, PublishedProfile sn' p' answer => sn' = sn ∧ p' = p ∧ is_err answer = true
  | ActivatedService sn _, ActivatedService sn' answer => sn' = sn ∧ is_err answer = true
  | AskedReady d _, AskedReady d' answer => d' = d ∧ answer ≠ Ok true
  | AskedSmoke d _, AskedSmoke d' answer => d' = d ∧ answer ≠ Ok true
  | CompletedMigration sn _, CompletedMigration sn' answer => sn' = sn ∧ is_err answer = true
  | _, _ => False
  end.

(** Nothing but the backup and the snapshot. *)
Definition harmless (c : Call) : bool :=
  match c with PreparedBackup _ | CheckedBackup _ | CapturedService _ => true | _ => false end.

(** Both services were rolled back, the new one first, and the failure tells how it went. *)
Definition rolled_back (snapshot : Snapshot) (f : ActionFailure) (calls : list Call) : Prop :=
  ∃ service legacy, calls = [RolledBackService snapshot service; RestoredLegacy legacy] ∧ kind f = Internal ∧
    rollback f = if is_ok service && is_ok legacy then RollbackCompleted else RollbackFailed.

Definition step_tells (snapshot : Snapshot) (good : Call) (r : result unit ActionFailure) (calls : list Call) : Prop :=
  match r with
  | Ok _ => calls = [good]
  | Err f => ∃ c rest, fails_at good c ∧ calls = c :: rest ∧ rolled_back snapshot f rest
  end.

Lemma or_roll_back_tells snapshot name (step : M T (result unit string)) good :
  tells step (λ r calls, match r with Ok _ => calls = [good] | Err _ => ∃ c, fails_at good c ∧ calls = [c] end) →
  tells (or_roll_back snapshot name step) (step_tells snapshot good).
Proof.
  intros Hstep. unfold or_roll_back. eapply tells_bind; [exact Hstep|]. intros [[]|error] calls Hcalls.
  { apply tells_ret. by rewrite app_nil_r. }
  destruct Hcalls as (c & Hbad & ->). unfold rollback_migration_failure, bind at 2.
  eapply (tells_bind _ _ (λ f rest, rolled_back snapshot f rest)).
  - apply tells_then. intros service. apply tells_then. intros legacy. apply tells_ret.
    exists service, legacy. split; [done|]. split; [done|]. by destruct service, legacy.
  - intros f rest Hrest. apply tells_ret. rewrite app_nil_r. by exists c, rest.
Qed.

Lemma must_hold_tells text (note : result bool string → Call) (f : T → result bool string * T) (g : S → result bool string * S) :
  f = noted note g → (∀ answer, answer ≠ Ok true → fails_at (note (Ok true)) (note answer)) →
  tells (must_hold text (call_of f)) (λ r calls, match r with Ok _ => calls = [note (Ok true)] | Err _ => ∃ c, fails_at (note (Ok true)) c ∧ calls = [c] end).
Proof.
  intros -> Hbad. unfold must_hold. apply tells_then. intros answer.
  destruct (decide (answer = Ok true)) as [->|Hne]; [by apply tells_ret|].
  destruct answer as [[]|e]; [done|..]; apply tells_ret; eexists; (split; [by apply Hbad|done]).
Qed.

(** How a migration can go. *)
Definition migrates (profile : list ascii) (r : result unit ActionFailure) (calls : list Call) : Prop :=
  is_err r = true ∧ Forall (λ c, harmless c = true) calls ∨
  ∃ snapshot,
    (r = Ok tt ∧ calls = preparation snapshot ++ progress snapshot profile) ∨
    ∃ k good c rest f, r = Err f ∧ progress snapshot profile !! k = Some good ∧ fails_at good c ∧
      calls = preparation snapshot ++ take k (progress snapshot profile) ++ c :: rest ∧ rolled_back snapshot f rest.

(** A call that succeeds, or is the failing call. *)
Ltac plain_call := intros [[]|e]; [done|eexists; split; [|reflexivity]; by repeat split].

(** The steps from the [k]-th on. *)
Definition finishes (snapshot : Snapshot) (profile : list ascii) (k : nat) (r : result unit ActionFailure) (calls : list Call) : Prop :=
  (r = Ok tt ∧ calls = drop k (progress snapshot profile)) ∨
  ∃ j good c rest f, r = Err f ∧ progress snapshot profile !! (k + j) = Some good ∧ fails_at good c ∧
    calls = take j (drop k (progress snapshot profile)) ++ c :: rest ∧ rolled_back snapshot f rest.

Lemma finishes_step snapshot profile k good (step rest : M T (result unit ActionFailure)) :
  progress snapshot profile !! k = Some good →
  tells step (step_tells snapshot good) → tells rest (finishes snapshot profile (Datatypes.S k)) →
  tells (let? _ := step in rest) (finishes snapshot profile k).
Proof.
  intros Hk Hstep Hrest. eapply tells_try; [exact Hstep|..]; cbv beta.
  - intros [] calls Hcalls. simpl in Hcalls. subst calls. eapply tells_mono; [exact Hrest|]. cbv beta. intros r calls Hr.
    pose proof (drop_S _ _ _ Hk) as Hdrop.
    destruct Hr as [[-> ->]|(j & good' & c & back & f & -> & Hj & Hbad & -> & Hback)]; [left; by rewrite Hdrop|].
    right. exists (Datatypes.S j), good', c, back, f. rewrite Nat.add_succ_r, Hdrop. by split_and!.
  - intros f calls (c & back & Hbad & -> & Hback). right. exists 0, good, c, back, f. rewrite Nat.add_0_r. by split_and!.
Qed.

Lemma finishes_last snapshot profile k good (step : M T (result unit ActionFailure)) :
  progress snapshot profile !! k = Some good → length (progress snapshot profile) = Datatypes.S k →
  tells step (step_tells snapshot good) → tells step (finishes snapshot profile k).
Proof.
  intros Hk Hlen Hstep. eapply tells_mono; [exact Hstep|]. cbv beta. intros [[]|f] calls Hcalls.
  - simpl in Hcalls. subst calls. left. split; [done|]. rewrite (drop_S _ _ _ Hk). by rewrite drop_ge by lia.
  - destruct Hcalls as (c & back & Hbad & -> & Hback). right. exists 0, good, c, back, f. rewrite Nat.add_0_r. by split_and!.
Qed.

Lemma migrate_tells profile : tells (migrate_from_legacy (S := T) (Snapshot := Snapshot) profile) (migrates profile).
Proof.
  unfold migrate_from_legacy. apply tells_then. intros prepared.
  destruct prepared as [[]|e]; cbn [map_err]; [|apply tells_ret; left; split; [done|by repeat constructor]].
  apply tells_then. intros valid. destruct valid; cbn [negb]; [|apply tells_ret; left; split; [done|by repeat constructor]].
  apply tells_then. intros captured. destruct captured as [snapshot|e]; [|apply tells_ret; left; split; [done|by repeat constructor]].
  apply (tells_mono _ (finishes snapshot profile 0)); [|intros r calls Hr; right; exists snapshot;
    destruct Hr as [[-> ->]|(j & good & c & rest & f & -> & Hj & Hbad & -> & Hback)];
    [left; split; [done|exact eq_refl]|right; exists j, good, c, rest, f; by split_and!]].
  cbv zeta.
  apply (finishes_step snapshot profile 0 (StoppedLegacy (Ok tt))); [done|apply or_roll_back_tells, tells_call; plain_call|].
  apply (finishes_step snapshot profile 1 (PublishedProfile snapshot profile (Ok tt))); [done|apply or_roll_back_tells, tells_call; plain_call|].
  apply (finishes_step snapshot profile 2 (ActivatedService snapshot (Ok tt))); [done|apply or_roll_back_tells, tells_call; plain_call|].
  apply (finishes_step snapshot profile 3 (AskedReady (from_profile_bytes profile) (Ok true)));
    [done|by apply or_roll_back_tells; eapply (must_hold_tells _ (AskedReady (from_profile_bytes profile))); [reflexivity|]|].
  apply (finishes_step snapshot profile 4 (AskedSmoke (from_profile_bytes profile) (Ok true)));
    [done|by apply or_roll_back_tells; eapply (must_hold_tells _ (AskedSmoke (from_profile_bytes profile))); [reflexivity|]|].
  apply (finishes_last snapshot profile 5 (CompletedMigration snapshot (Ok tt))); [done|done|].
  apply or_roll_back_tells, tells_call; plain_call.
Qed.

(** The removal: the answer of each of its steps, as far as it went. *)
Definition removes (profile : list ascii) (r : result unit ActionFailure) (calls : list Call) : Prop :=
  let digest := from_profile_bytes profile in
  (is_err r = true ∧ (calls = [CheckedBackup false] ∨
     ∃ answer, calls = [CheckedBackup true; AskedRemoval digest answer] ∧
       match answer with Ok v => permits_removal v = false | Err _ => True end)) ∨
  ∃ v answer, permits_removal v = true ∧ calls = [CheckedBackup true; AskedRemoval digest (Ok v); RemovedLegacy answer] ∧
    is_ok r = is_ok answer ∧ (∀ f, r = Err f → rollback f = FailClosedLegacyStopped).

Lemma remove_tells profile : tells (remove_legacy_after_verification (S := T) (Snapshot := Snapshot) profile) (removes profile).
Proof.
  unfold remove_legacy_after_verification. apply tells_then. intros valid.
  destruct valid; cbn [negb]; [|apply tells_ret; left; split; [done|by left]]. cbv zeta.
  apply tells_then. intros verification. destruct verification as [v|e].
  2: { apply tells_ret. left. split; [done|]. right. by exists (Err e). }
  destruct (permits_removal v) eqn:Ev; cbn [negb].
  2: { apply tells_ret. left. split; [done|]. right. by exists (Ok v). }
  apply tells_then. intros answer. apply tells_ret. right. exists v, answer. split; [done|]. split; [done|].
  split; [by destruct answer|]. intros f. destruct answer; [done|]. by intros <-%(inj Err).
Qed.
End Migrating.

(** ** The startup entries *)

Inductive StartupCall :=
| SawTrayStatus (status : LegacyTrayStatus)
| DisabledUser (answer : result unit string)
| DisabledMachine (answer : result unit string)
| RestoredMachine (answer : result unit string)
| RestoredUser (answer : result unit string).

#[export] Instance Noted_startup S `{LegacyTrayStartupCoordinator S} : LegacyTrayStartupCoordinator (Noted S StartupCall) := {
  observe_status := noted SawTrayStatus observe_status;
  disable_current_user := noted DisabledUser disable_current_user;
  disable_local_machine := noted DisabledMachine disable_local_machine;
  restore_local_machine_entries := noted RestoredMachine restore_local_machine_entries;
  restore_current_user_entries := noted RestoredUser restore_current_user_entries
}.

Definition all_absent (s : LegacyTrayStatus) : bool := tray_is_absent s && startup_is_absent s.

(** How disabling the startup entries can go. *)
Inductive disables_startup : result unit string → list StartupCall → Prop :=
| NothingToDo s : all_absent s = true → disables_startup (Ok tt) [SawTrayStatus s]
| NotDisabled s e : all_absent s = false → disables_startup (Err e) [SawTrayStatus s]
| UserNotDisabled s e : tray_is_absent s = true → disables_startup (Err e) [SawTrayStatus s; DisabledUser (Err e)]
| MachineNotDisabled s e e' undo :
    tray_is_absent s = true →
    disables_startup (Err e') [SawTrayStatus s; DisabledUser (Ok tt); DisabledMachine (Err e); RestoredUser undo]
| SeenDisabled s s' :
    tray_is_absent s = true → all_absent s' = true →
    disables_startup (Ok tt) [SawTrayStatus s; DisabledUser (Ok tt); DisabledMachine (Ok tt); SawTrayStatus s']
| StillThere s s' e machine user :
    tray_is_absent s = true → all_absent s' = false →
    disables_startup (Err e) [SawTrayStatus s; DisabledUser (Ok tt); DisabledMachine (Ok tt); SawTrayStatus s';
      RestoredMachine machine; RestoredUser user].

Lemma disable_startup_tells {S} `{LegacyTrayStartupCoordinator S} :
  tells (disable_legacy_tray_startup_with (S := Noted S StartupCall)) disables_startup.
Proof.
  unfold disable_legacy_tray_startup_with. apply tells_then. intros before.
  destruct (tray_is_absent before) eqn:Et; cbn [negb].
  2: { apply tells_ret, NotDisabled. unfold all_absent. by rewrite Et. }
  assert (all_absent before = startup_is_absent before) as Hall by (unfold all_absent; by rewrite Et).
  destruct (startup before) eqn:Es; unfold startup_is_absent in Hall; rewrite Es in Hall;
    [by apply tells_ret, NothingToDo| |by apply tells_ret, NotDisabled..].
  apply tells_then. intros [[]|e]; [|by apply tells_ret, UserNotDisabled].
  apply tells_then. intros [[]|e].
  2: { apply tells_then. intros undo. by apply tells_ret, MachineNotDisabled. }
  apply tells_then. intros after. fold (all_absent after). destruct (all_absent after) eqn:Ea; [by apply tells_ret, SeenDisabled|].
  apply tells_then. intros machine. apply tells_then. intros user. by apply tells_ret, StillThere.
Qed.

(** ** Properties *)

(** C24. A migration is completed or rolled back: against any backend it ends with an
    answer.  Nothing but the backup and the snapshot is touched unless the backup is
    valid; then the older service is stopped, the profile published, the new service
    activated, seen ready and seen to inject, in that order, and the migration is
    completed; or a step is the first that fails, and then exactly the new service and
    then the older one are rolled back, and the failure tells whether both were. *)
Theorem migration_completes_or_rolls_back {S Snapshot} `{!MigrationBackend S Snapshot, Sha256} profile (s : S) :
  ∃ r t, migrate_from_legacy (S := Noted S (MigrationCall Snapshot)) (Snapshot := Snapshot) profile (mk_noted s []) = Some (r, t) ∧
    migrates profile r (notes t).
Proof. apply (tells_run _ _ s (migrate_tells profile)). Qed.

(** The older service is removed only behind its verification, and nothing is started
    again when that fails: against any backend the removal ends with an answer; it
    removes the service only with a valid backup and after the readiness, the digest
    and the telemetry were verified, and it never rolls back or restores a service, so
    a failed removal reports the older service as stopped. *)
Theorem removal_is_verified_and_final {S Snapshot} `{!MigrationBackend S Snapshot, Sha256} profile (s : S) :
  ∃ r t, remove_legacy_after_verification (S := Noted S (MigrationCall Snapshot)) (Snapshot := Snapshot) profile (mk_noted s []) = Some (r, t) ∧
    removes profile r (notes t).
Proof. apply (tells_run _ _ s (remove_tells profile)). Qed.

(** Disabling the startup entries of the older tray ends with them seen gone, or with what
    was disabled restored. *)
Theorem startup_is_disabled_or_restored {S} `{LegacyTrayStartupCoordinator S} (s : S) :
  ∃ r t, disable_legacy_tray_startup_with (S := Noted S StartupCall) (mk_noted s []) = Some (r, t) ∧
    disables_startup r (notes t).
Proof. apply (tells_run _ _ s disable_startup_tells). Qed.
