(* ===== verification/BrokerWire.v ===== *)
(** * What crosses to the elevated broker

    [control-center/src-tauri/src/machine_integration/open_service/request.rs],
    [broker_result.rs] and [profile_transfer/]: the command line of the elevated broker,
    the frames of the profile that is sent to it and of the result it reports, and the
    loops that receive them from a pipe in pieces of any size. *)

From stdpp Require Import pretty.
From S2P Require Import EventText Manifest.
From S2P Require Export Migration.

(** ** Numbers as texts, as the Standard Library reads them *)

(** [char::to_digit] *)
Definition to_digit (radix : N) (b : ascii) : option N :=
  let digit := if is_ascii_digit b then Some (N_of_ascii b - 48)%N
    else if is_ascii_lowercase b then Some (N_of_ascii b - 87)%N
    else if is_ascii_uppercase b then Some (N_of_ascii b - 55)%N
    else None in
  match digit with Some d => if (d <? radix)%N then Some d else None | None => None end.

Fixpoint read_number (radix max acc : N) (l : list ascii) : option N :=
  match l with
  | [] => Some acc
  | b :: l' =>
      match to_digit radix b with
      | None => None
      | Some d => if (acc * radix + d <=? max)%N then read_number radix max (acc * radix + d) l' else None
      end
  end.

(** [from_str_radix] of an unsigned integer: a leading plus is allowed. *)
Definition from_str_radix (radix max : N) (l : list ascii) : option N :=
  match l with
  | [] => None
  | b :: l' =>
      if (b =? "+")%char then match l' with [] => None | _ => read_number radix max 0 l' end
      else read_number radix max 0 l
  end.

(** ** [request.rs] *)

Definition broker_command (a : SystemServiceAction) : option BrokerCommand :=
  match a with
  | ServiceInstall => Some Install
  | ServiceUpgrade => Some Upgrade
  | ServiceRepair => Some Repair
  | ServiceRemove => Some Remove
  | ServiceStart => Some Start
  | ServiceStop => Some Stop
  | ServicePublishProfile => Some PublishProfile
  | ServiceMigrateFromLegacy => Some MigrateFromLegacy
  | ServiceRollback => Some Manifest.Rollback
  | ServiceDesignateProfile | ServiceRemoveLegacy | DisableLegacyTrayAutostart
  | RestoreLegacyTrayAutostart => None
  end.

(** A panic of [verb] would be [None] as well; [action_has_a_verb] shows that there is none. *)
Definition setup_verb (a : SystemServiceAction) : option string :=
  match broker_command a with
  | Some MigrateFromLegacy | Some RestoreRuntime | None => None
  | Some command => verb command
  end.

(** [None] is a panic. *)
Definition broker_verb (a : SystemServiceAction) : option string :=
  match broker_command a with
  | Some command => verb command
  | None =>
      match a with
      | ServiceDesignateProfile => Some "designate-profile"%string
      | ServiceRemoveLegacy => Some "remove-legacy"%string
      | DisableLegacyTrayAutostart => Some "disable-legacy-tray-autostart"%string
      | RestoreLegacyTrayAutostart => Some "restore-legacy-tray-autostart"%string
      | _ => None
      end
  end.

Definition from_broker_verb (value : string) : option SystemServiceAction :=
  match parse_verb value with
  | Some command =>
      match command with
      | Install => Some ServiceInstall
      | Upgrade => Some ServiceUpgrade
      | Repair => Some ServiceRepair
      | Remove => Some ServiceRemove
      | Start => Some ServiceStart
      | Stop => Some ServiceStop
      | PublishProfile => Some ServicePublishProfile
      | MigrateFromLegacy => Some ServiceMigrateFromLegacy
      | Manifest.Rollback => Some ServiceRollback
      | RestoreRuntime => None
      end
  | None =>
      if (value =? "designate-profile")%string then Some ServiceDesignateProfile
      else if (value =? "remove-legacy")%string then Some ServiceRemoveLegacy
      else if (value =? "disable-legacy-tray-autostart")%string then Some DisableLegacyTrayAutostart
      else if (value =? "restore-legacy-tray-autostart")%string then Some RestoreLegacyTrayAutostart
      else None
  end.

Definition needs_profile_input (a : SystemServiceAction) : bool :=
  match a with
  | ServicePublishProfile | ServiceDesignateProfile | ServiceMigrateFromLegacy | ServiceRemoveLegacy => true
  | _ => false
  end.

Definition BROKER_SWITCH : string := "--control-center-service-broker".
Definition BROKER_TRANSFER_SWITCH : string := "--broker-transfer-v1".
Definition PROFILE_TRANSFER_NONCE_BYTES : nat := 16.

(** A nonce is an array of sixteen bytes. *)
Record ProfileTransferToken := {
  token_server_pid : N;
  token_nonce : list ascii
}.

Record PrivilegedRequest := {
  request_action : SystemServiceAction;
  request_transfer : ProfileTransferToken
}.

(** The loop that writes one byte per pair of digits. *)
Fixpoint decode_pairs (outputs : nat) (l : list ascii) : option (list ascii) :=
  match outputs with
  | O => Some []
  | Datatypes.S outputs =>
      match from_str_radix 16 U8_MAX (take 2 l), decode_pairs outputs (drop 2 l) with
      | Some b, Some rest => Some (ascii_of_N b :: rest)
      | _, _ => None
      end
  end.

Definition NONCE_NOT_CANONICAL : string := "the profile transfer nonce is not canonical".

Definition parse_profile_transfer_nonce (value : string) : result (list ascii) string :=
  if negb (str_len value =? N.of_nat (PROFILE_TRANSFER_NONCE_BYTES * 2))%N
     || negb (forallb (λ b, is_ascii_digit b || byte_in "a" "f" b) (str_bytes value))
  then Err NONCE_NOT_CANONICAL
  else ok_or (decode_pairs PROFILE_TRANSFER_NONCE_BYTES (str_bytes value)) NONCE_NOT_CANONICAL.

(** [profile_transfer_nonce_text] of [profile_transfer/shared.rs] *)
Definition profile_transfer_nonce_text (nonce : list ascii) : string := bytes_str (hex nonce).

(** An [OsString]: its text, or units that are not Unicode. *)
Inductive OsString := Unicode (text : string) | NotUnicode (units : list N).

Definition to_str (s : OsString) : option string :=
  match s with Unicode text => Some text | NotUnicode _ => None end.

Definition os_is (s : OsString) (text : string) : bool :=
  match s with Unicode t => (t =? text)%string | NotUnicode _ => false end.

(** [text.parse::<u32>().ok().filter(|pid| *pid != 0 && pid.to_string() == text)] *)
Definition canonical_pid (text : string) : option N :=
  match from_str_radix 10 U32_MAX (str_bytes text) with
  | Some pid => if negb (pid =? 0)%N && (pretty pid =? text)%string then Some pid else None
  | None => None
  end.

Definition transfer_from_arguments (remaining : list OsString) : result ProfileTransferToken string :=
  match remaining with
  | [switch; pid; nonce] =>
      if negb (os_is switch BROKER_TRANSFER_SWITCH) then Err "service broker actions require one versioned transfer token"%string
      else
        let-? pid_text := ok_or (to_str pid) "the broker transfer PID is not Unicode"%string in
        let-? server_pid := ok_or (canonical_pid pid_text) "the broker transfer PID is not canonical"%string in
        let-? nonce_text := ok_or (to_str nonce) "the broker transfer nonce is not Unicode"%string in
        let-? nonce := parse_profile_transfer_nonce nonce_text in
        Ok {| token_server_pid := server_pid; token_nonce := nonce |}
  | _ => Err "service broker actions require one versioned transfer token"%string
  end.

Definition privileged_request_from_arguments (arguments : list OsString) : result (option PrivilegedRequest) string :=
  match arguments with
  | [] | [_] => Ok None
  | _ :: switch :: arguments =>
      if negb (os_is switch BROKER_SWITCH) then Ok None
      else
        let-? verb := ok_or (match arguments with [] => None | value :: _ => to_str value end)
                        "the elevated service broker requires one fixed verb"%string in
        let-? action := ok_or (from_broker_verb verb) "unsupported elevated service broker verb"%string in
        let-? transfer := transfer_from_arguments (tail arguments) in
        Ok (Some {| request_action := action; request_transfer := transfer |})
  end.

(** ** Frames

    The frame of a profile and the frame of a result have the same shape: what tells them
    apart is their format, with the texts of the errors. *)

Record FrameFormat := {
  frame_magic : list ascii;
  frame_version : N;
  max_payload : N;
  read_limit : N;
  size_error : string;
  header_error : string;
  length_error : string;
  digest_error : string;
  digest_invalid : string;
  oversize_error : string;
  closed_error : string;
  trailing_error : string;
  receiving : string;
  no_progress : string
}.

Definition HEADER_BYTES : nat := 4 + 2 + 2 + 4 + PROFILE_TRANSFER_NONCE_BYTES + 32.

(** [to_le_bytes] and [from_le_bytes] *)
Fixpoint to_le_bytes (width : nat) (n : N) : list ascii :=
  match width with O => [] | Datatypes.S width => ascii_of_N (n mod 256) :: to_le_bytes width (n / 256) end.

Fixpoint from_le_bytes (l : list ascii) : N :=
  match l with [] => 0 | b :: l' => N_of_ascii b + 256 * from_le_bytes l' end.

(** [frame[first..last]] *)
Definition slice (frame : list ascii) (first last : nat) : list ascii := take (last - first) (drop first frame).

Definition payload_length (frame : list ascii) : N := from_le_bytes (slice frame 8 12).

Section Frames.
Context `{Sha256} (f : FrameFormat).

(** [profile_transfer_digest] and [digest_bytes]: the digest is read back from its text. *)
Definition frame_digest (bytes : list ascii) : result (list ascii) string :=
  match bytes_strip_prefix (str_bytes "sha256:") (str_bytes (sha256_digest bytes)) with
  | None => Err (digest_invalid f)
  | Some hex =>
      if negb (bytes_len hex =? 64)%N then Err (digest_invalid f)
      else ok_or (decode_pairs 32 hex) (digest_invalid f)
  end.

Definition encode_frame (payload nonce : list ascii) : result (list ascii) string :=
  if (bytes_len payload =? 0)%N || (max_payload f <? bytes_len payload)%N then Err (size_error f)
  else
    let-? digest := frame_digest payload in
    Ok (frame_magic f ++ to_le_bytes 2 (frame_version f) ++ to_le_bytes 2 0
        ++ to_le_bytes 4 (bytes_len payload mod 2 ^ 32) ++ nonce ++ digest ++ payload).

(** The checks of the first eight bytes. *)
Definition header_is_foreign (frame : list ascii) : bool :=
  negb (bool_decide (slice frame 0 4 = frame_magic f))
  || negb (from_le_bytes (slice frame 4 6) =? frame_version f)%N
  || negb (from_le_bytes (slice frame 6 8) =? 0)%N.

Definition length_is_invalid (n : N) : bool := (n =? 0)%N || (max_payload f <? n)%N.

Definition decode_frame (frame expected_nonce : list ascii) : result (list ascii) string :=
  if (length frame <? HEADER_BYTES)%nat || header_is_foreign frame
     || negb (bool_decide (slice frame 12 28 = expected_nonce))
  then Err (header_error f)
  else if length_is_invalid (payload_length frame)
          || negb (bytes_len frame =? N.of_nat HEADER_BYTES + payload_length frame)%N
  then Err (length_error f)
  else
    let payload := drop HEADER_BYTES frame in
    let-? digest := frame_digest payload in
    if negb (bool_decide (slice frame 28 60 = digest)) then Err (digest_error f)
    else Ok payload.
End Frames.

(** ** The formats of [request.rs] and of [broker_result.rs], with the texts of their loops *)

Definition profile_format : FrameFormat := {|
  frame_magic := str_bytes "MTPT"; frame_version := 1; max_payload := MAX_PROFILE_BYTES; read_limit := 64 * 1024;
  size_error := "profile transfer payload size is outside the allowed range";
  header_error := "profile transfer frame header is invalid";
  length_error := "profile transfer frame length is invalid";
  digest_error := "profile transfer frame digest does not match";
  digest_invalid := "profile transfer digest is invalid";
  oversize_error := "the profile pipe frame exceeds the fixed size limit";
  closed_error := "the profile pipe closed before sending a complete frame";
  trailing_error := "profile transfer frame has trailing bytes";
  receiving := "receiving the profile pipe frame";
  no_progress := "reading the profile pipe made no progress" |}.

Definition MAX_BROKER_RESULT_BYTES : N := 32 * 1024.

Definition result_format : FrameFormat := {|
  frame_magic := str_bytes "MTBR"; frame_version := 1; max_payload := MAX_BROKER_RESULT_BYTES; read_limit := 16 * 1024;
  size_error := "broker result exceeds the fixed size limit";
  header_error := "broker result frame header is invalid";
  length_error := "broker result frame length is invalid";
  digest_error := "broker result frame digest does not match";
  digest_invalid := "broker result digest is invalid";
  oversize_error := "the broker result frame exceeds the fixed size limit";
  closed_error := "the broker result pipe closed before sending a complete frame";
  trailing_error := "broker result frame has trailing bytes";
  receiving := "receiving the broker result frame";
  no_progress := "reading the broker result pipe made no progress" |}.

Definition encode_profile_transfer_frame `{Sha256} : list ascii → list ascii → result (list ascii) string :=
  encode_frame profile_format.

Definition decode_profile_transfer_frame `{Sha256} : list ascii → list ascii → result (list ascii) string :=
  decode_frame profile_format.

(** ** [broker_result.rs] *)

Inductive BrokerResultDisposition := DispositionSuccess | DispositionBlocked | DispositionFailure.

#[export] Instance BrokerResultDisposition_eq_dec : EqDecision BrokerResultDisposition.
Proof. solve_decision. Defined.

Record BrokerResultMessage := {
  operation : string;
  disposition : BrokerResultDisposition;
  message_stage : string;
  error_chain : string;
  message_rollback : string;
  final_state : string
}.

Definition MAX_OPERATION_BYTES : N := 64.
Definition MAX_STAGE_BYTES : N := 256.
Definition MAX_ERROR_CHAIN_BYTES : N := 24 * 1024.

(** [bounded_text] of this file: its callers bound by more than the suffix. *)
Definition bounded_message_text (value : string) (maximum_bytes : N) : string :=
  if (str_len value <=? maximum_bytes)%N then value
  else bytes_str (take (floor_char_boundary (str_bytes value) (N.to_nat (maximum_bytes - bytes_len TRUNCATED))) (str_bytes value)
                  ++ TRUNCATED).

Definition message_success (operation : string) : BrokerResultMessage :=
  {| operation := bounded_message_text operation MAX_OPERATION_BYTES; disposition := DispositionSuccess;
     message_stage := ""; error_chain := ""; message_rollback := ""; final_state := "" |}.

Definition message_from_failure (operation : string) (failure : ActionFailure) : BrokerResultMessage :=
  let '(disposition, stage) := match kind failure with
    | Blocked blocker => (DispositionBlocked, stage_code blocker)
    | Internal => (DispositionFailure, default operation (stage failure))
    end in
  {| operation := bounded_message_text operation MAX_OPERATION_BYTES; disposition := disposition;
     message_stage := bounded_message_text stage MAX_STAGE_BYTES;
     error_chain := bounded_message_text (detail failure) MAX_ERROR_CHAIN_BYTES;
     message_rollback := outcome_as_str (rollback failure); final_state := "" |}.

(** [serde_json] on the message: what is written is read back. *)
Class ResultJson := {
  message_to_vec : BrokerResultMessage → result (list ascii) string;
  message_from_slice : list ascii → result BrokerResultMessage string;
  message_is_read_back : ∀ m bytes, message_to_vec m = Ok bytes → message_from_slice bytes = Ok m
}.

Definition encode_broker_result_frame `{Sha256, ResultJson} (message : BrokerResultMessage) (nonce : list ascii) :
    result (list ascii) string :=
  let-? payload := message_to_vec message in
  encode_frame result_format payload nonce.

Definition decode_broker_result_frame `{Sha256, ResultJson} (frame expected_nonce : list ascii) :
    result BrokerResultMessage string :=
  let-? payload := decode_frame result_format frame expected_nonce in
  message_from_slice payload.

(** ** [profile_transfer/]: the pipes *)

(** An [io::Error]: its text and its code. *)
Record OsError := { os_text : string; raw_os_error : option Z }.

Definition os_code (e : OsError) : Z := default 0%Z (raw_os_error e).

Inductive PipeError :=
| PeerExited | PipeTimedOut | PeerCheck (e : OsError) | PipeIo (e : OsError) | PipeNoProgress | PipeCancel (e : OsError).

Definition map_pipe_error (error : PipeError) (operation no_progress : string) : string :=
  match error with
  | PeerExited => "the elevated broker exited while " ++ operation
  | PipeTimedOut => operation ++ " timed out"
  | PeerCheck error => "checking the elevated broker while " ++ operation ++ " failed with " ++ pretty (os_code error)
  | PipeIo error => operation ++ " failed with " ++ pretty (os_code error)
  | PipeNoProgress => no_progress
  | PipeCancel error => "cancelling the profile pipe operation failed with " ++ pretty (os_code error)
  end.

Inductive PipeAccess := PipeRead | PipeWrite.

(** The pipes of [mactype_service_platform] by their names: the end that created a pipe
    and the end that opens it.  A call waits until the deadline it is given; the time is
    part of the state. *)
Class Pipes (S : Type) := {
  pipe_open : string → PipeAccess → S → result unit PipeError * S;
  pipe_server_process_id : string → S → result N OsError * S;
  pipe_connect : string → S → result unit PipeError * S;
  pipe_client_process_id : string → S → result N OsError * S;
  pipe_read : string → N → S → result (list ascii) PipeError * S;
  pipe_write_all : string → list ascii → S → result unit PipeError * S
}.

Definition pipe_name (kind : string) (token : ProfileTransferToken) : string :=
  "\\.\pipe\MacTypeControlCenter." ++ kind ++ ".v1." ++ pretty (token_server_pid token) ++ "."
  ++ profile_transfer_nonce_text (token_nonce token).

Definition profile_pipe_name : ProfileTransferToken → string := pipe_name "profile".
Definition result_pipe_name : ProfileTransferToken → string := pipe_name "broker-result".

Definition map_open_error (error : PipeError) (timed_out operation no_progress : string) : string :=
  match error with
  | PipeTimedOut => timed_out
  | PipeIo error => os_text error
  | other => map_pipe_error other operation no_progress
  end.

Section Receive.
Context {S : Type} `{Pipes S} `{Sha256}.

(** [Some total] once the first twelve bytes are there. *)
Definition expect_total (f : FrameFormat) (frame : list ascii) (expected : option N) : result (option N) string :=
  match expected with
  | Some _ => Ok expected
  | None =>
      if (length frame <? 12)%nat then Ok None
      else if header_is_foreign f frame then Err (header_error f)
      else if length_is_invalid f (payload_length frame) then Err (length_error f)
      else Ok (Some (N.of_nat HEADER_BYTES + payload_length frame)%N)
  end.

(** The loop of [receive_profile_from_pipe_bounded] and of [receive_from].  A read that
    answers more than it was asked for would panic. *)
Fixpoint receive_frame (fuel : nat) (f : FrameFormat) (name : string) (nonce frame : list ascii) (expected : option N) :
    M S (result (list ascii) string) :=
  match fuel with
  | O => no_answer
  | Datatypes.S fuel =>
      let total := default (N.of_nat HEADER_BYTES + max_payload f)%N expected in
      let remaining := (total - bytes_len frame)%N in
      if (remaining =? 0)%N then ret (Err (oversize_error f))
      else
        let asked := N.min remaining (read_limit f) in
        let! read := call_of (pipe_read name asked) in
        match map_err (λ e, map_pipe_error e (receiving f) (no_progress f)) read with
        | Err e => ret (Err e)
        | Ok chunk =>
            if (asked <? bytes_len chunk)%N then no_answer
            else if (bytes_len chunk =? 0)%N then ret (Err (closed_error f))
            else
              let frame := frame ++ chunk in
              match expect_total f frame expected with
              | Err e => ret (Err e)
              | Ok expected =>
                  if match expected with Some total => (total <? bytes_len frame)%N | None => false end
                  then ret (Err (trailing_error f))
                  else if bool_decide (expected = Some (bytes_len frame)) then ret (decode_frame f frame nonce)
                  else receive_frame fuel f name nonce frame expected
              end
        end
  end.

(** Each read brings a byte. *)
Definition receive_fuel (f : FrameFormat) : nat := N.to_nat (N.of_nat HEADER_BYTES + max_payload f + 1).

Definition receive_profile_from_pipe_bounded (token : ProfileTransferToken) (timeout : N) : M S (result (list ascii) string) :=
  let name := profile_pipe_name token in
  if (token_server_pid token =? 0)%N || (timeout =? 0)%N then
    ret (Err "the profile pipe token or timeout is invalid"%string)
  else
    let! opened := call_of (pipe_open name PipeRead) in
    let? _ := ret (map_err (λ e, map_open_error e "connecting to the profile pipe timed out"
                "connecting to the profile pipe" "connecting to the profile pipe made no progress") opened) in
    let! pid := call_of (pipe_server_process_id name) in
    let? pid := ret (map_err (λ e, "querying the profile pipe server failed with " ++ pretty (os_code e))%string pid) in
    if negb (pid =? token_server_pid token)%N then
      ret (Err "the profile pipe server PID does not match the broker token"%string)
    else receive_frame (receive_fuel profile_format) profile_format name (token_nonce token) [] None.

(** [BrokerResultPipeServer::receive_from] *)
Definition receive_result_from `{ResultJson} (token : ProfileTransferToken) (expected_client_pid timeout : N) :
    M S (result BrokerResultMessage string) :=
  let name := result_pipe_name token in
  if (expected_client_pid =? 0)%N || (timeout =? 0)%N then
    ret (Err "the broker result pipe peer or timeout is invalid"%string)
  else
    let! connected := call_of (pipe_connect name) in
    let? _ := ret (map_err (λ e, map_pipe_error e "waiting for the broker result pipe client"
                "connecting the broker result pipe made no progress") connected) in
    let! pid := call_of (pipe_client_process_id name) in
    let? pid := ret (map_err (λ e, "querying the broker result pipe client failed with " ++ pretty (os_code e))%string pid) in
    if negb (pid =? expected_client_pid)%N then
      ret (Err "the first broker result pipe client is not the elevated broker"%string)
    else
      let? payload := receive_frame (receive_fuel result_format) result_format name (token_nonce token) [] None in
      ret (message_from_slice payload).

(** [BrokerResultPipeWriter::connect] *)
Definition connect_result_writer (token : ProfileTransferToken) (timeout : N) : M S (result unit string) :=
  let name := result_pipe_name token in
  if (token_server_pid token =? 0)%N || (timeout =? 0)%N then
    ret (Err "the broker result pipe token or timeout is invalid"%string)
  else
    let! opened := call_of (pipe_open name PipeWrite) in
    let? _ := ret (map_err (λ e, map_open_error e "connecting to the broker result pipe timed out"
                "connecting to the broker result pipe" "connecting to the broker result pipe made no progress") opened) in
    let! pid := call_of (pipe_server_process_id name) in
    let? pid := ret (map_err (λ e, "querying the broker result pipe server failed with " ++ pretty (os_code e))%string pid) in
    if negb (pid =? token_server_pid token)%N then
      ret (Err "the broker result pipe server PID does not match the broker token"%string)
    else ret (Ok tt).

(** [BrokerResultPipeWriter::send] *)
Definition send_result `{ResultJson} (token : ProfileTransferToken) (message : BrokerResultMessage) (timeout : N) :
    M S (result unit string) :=
  if (timeout =? 0)%N then ret (Err "the broker result pipe timeout is invalid"%string)
  else
    let? frame := ret (encode_broker_result_frame message (token_nonce token)) in
    let! written := call_of (pipe_write_all (result_pipe_name token) frame) in
    ret (map_err (λ e, map_pipe_error e "sending the broker result frame" "writing the broker result pipe made no progress") written).

(** [ProfilePipeServer::send_to], with the frame that was made when the pipe was. *)
Definition send_profile_to (token : ProfileTransferToken) (frame : list ascii) (expected_client_pid timeout : N) :
    M S (result unit string) :=
  let name := profile_pipe_name token in
  if (expected_client_pid =? 0)%N || (timeout =? 0)%N then
    ret (Err "the profile pipe peer or timeout is invalid"%string)
  else
    let! connected := call_of (pipe_connect name) in
    let? _ := ret (map_err (λ e, map_pipe_error e "waiting for the profile pipe client"
                "connecting the profile pipe made no progress") connected) in
    let! pid := call_of (pipe_client_process_id name) in
    let? pid := ret (map_err (λ e, "querying the profile pipe client failed with " ++ pretty (os_code e))%string pid) in
    if negb (pid =? expected_client_pid)%N then
      ret (Err "the first profile pipe client is not the elevated broker"%string)
    else
      let! written := call_of (pipe_write_all name frame) in
      ret (map_err (λ e, map_pipe_error e "sending the profile pipe frame" "writing the profile pipe made no progress") written).
End Receive.
