(* ===== verification/BrokerWireFacts.v ===== *)
(** * What crosses to the elevated broker arrives

    The properties of [BrokerWire]: the command line and the frames are read back exactly,
    and a frame is received whatever pieces the pipe delivers it in. *)

From stdpp Require Import pretty.
From S2P Require Import EventText Manifest.
From S2P Require Export BrokerWire.

(** ** Digits *)

Lemma hex_byte_is_read b : from_str_radix 16 U8_MAX (hex_byte b) = Some (N_of_ascii b).
Proof. destruct b as [[] [] [] [] [] [] [] []]; reflexivity. Qed.

Lemma lower_hex_is_digit b : is_lower_hex b = true → ∃ d, (d < 16)%N ∧ b = hex_digit d.
Proof.
  intros Hb. exists (if is_ascii_digit b then N_of_ascii b - 48 else N_of_ascii b - 87)%N.
  revert Hb. destruct b as [[] [] [] [] [] [] [] []]; first [discriminate|intros _; split; [reflexivity|reflexivity]].
Qed.

Lemma hex_byte_of d e : (d < 16)%N → (e < 16)%N → hex_byte (ascii_of_N (16 * d + e)) = [hex_digit d; hex_digit e].
Proof.
  intros Hd He. unfold hex_byte. rewrite N_ascii_embedding by lia.
  replace ((16 * d + e) / 16)%N with d; [replace ((16 * d + e) mod 16)%N with e; [done|]|].
  - rewrite N.mul_comm, N.add_comm, N.Div0.mod_add. symmetry. by apply N.mod_small.
  - rewrite N.mul_comm, N.add_comm, N.div_add, N.div_small by lia. done.
Qed.

Lemma decode_pairs_hex bytes : decode_pairs (length bytes) (hex bytes) = Some bytes.
Proof.
  induction bytes as [|b bytes IH]; [done|]. cbn [length decode_pairs].
  change (hex (b :: bytes)) with (hex_byte b ++ hex bytes).
  change (take 2 (hex_byte b ++ hex bytes)) with (hex_byte b). change (drop 2 (hex_byte b ++ hex bytes)) with (hex bytes).
  by rewrite hex_byte_is_read, IH, ascii_N_embedding.
Qed.

(** What the digits of [k] bytes in small letters stand for. *)
Lemma decode_pairs_of_hex k l :
  length l = 2 * k → forallb is_lower_hex l = true → ∃ bytes, length bytes = k ∧ l = hex bytes.
Proof.
  revert l. induction k as [|k IH]; intros l Hlen Hl.
  { exists []. by apply nil_length_inv in Hlen. }
  destruct l as [|a [|b l]]; [cbn in Hlen; lia..|]. cbn [forallb length] in *. andb_split.
  destruct (lower_hex_is_digit a) as (d & Hd & ->); [done|]. destruct (lower_hex_is_digit b) as (e & He & ->); [done|].
  destruct (IH l) as (bytes & Hbytes & ->); [lia|done|]. exists (ascii_of_N (16 * d + e) :: bytes). split; [simpl; lia|].
  change (hex (?x :: ?r)) with (hex_byte x ++ hex r). by rewrite hex_byte_of.
Qed.

(** A nonce is read back from its text, and from no other text. *)
Lemma nonce_is_read_back value nonce :
  parse_profile_transfer_nonce value = Ok nonce ↔ length nonce = PROFILE_TRANSFER_NONCE_BYTES ∧ value = profile_transfer_nonce_text nonce.
Proof.
  unfold parse_profile_transfer_nonce, profile_transfer_nonce_text. fold is_lower_hex. split.
  - destruct (negb _) eqn:Elen; [done|]. apply negb_false_iff, N.eqb_eq in Elen. cbn [orb].
    destruct (negb (forallb _ _)) eqn:Ehex; [done|]. apply negb_false_iff in Ehex.
    destruct (decode_pairs_of_hex PROFILE_TRANSFER_NONCE_BYTES (str_bytes value)) as (bytes & Hlen & Hbytes); [|done|].
    { rewrite str_len_bytes in Elen. unfold bytes_len in Elen. apply Nat2N.inj in Elen. rewrite Elen. unfold PROFILE_TRANSFER_NONCE_BYTES. lia. }
    rewrite Hbytes, <- Hlen, decode_pairs_hex. intros Hn%(inj Ok). subst bytes. split; [done|].
    rewrite <- Hbytes. unfold bytes_str, str_bytes. by rewrite string_of_list_ascii_of_string.
  - intros [Hlen ->]. unfold str_bytes, bytes_str. rewrite list_ascii_of_string_of_list_ascii, hex_lower.
    rewrite str_len_bytes. unfold bytes_len, str_bytes. rewrite list_ascii_of_string_of_list_ascii, hex_length, Hlen.
    rewrite <- Hlen at 3. by rewrite decode_pairs_hex.
Qed.

(** ** Decimal numbers *)

Lemma digit_is_read r : (r < 10)%N → to_digit 10 (pretty_N_char r) = Some r.
Proof.
  intros Hr. assert (r = 0 ∨ r = 1 ∨ r = 2 ∨ r = 3 ∨ r = 4 ∨ r = 5 ∨ r = 6 ∨ r = 7 ∨ r = 8 ∨ r = 9)%N as Hcase by lia.
  by repeat destruct Hcase as [->|Hcase]; try subst r.
Qed.

Lemma number_is_read max n s :
  (n <= max)%N → read_number 10 max 0 (str_bytes (pretty_N_go n s)) = read_number 10 max n (str_bytes s).
Proof.
  revert s. induction (N.lt_wf_0 n) as [n _ IH]. intros s Hn.
  destruct (decide (0 < n)%N) as [Hpos|Hpos]; [|assert (n = 0%N) as -> by lia; by rewrite pretty_N_go_0].
  rewrite pretty_N_go_step by done. rewrite IH; [|by apply N.div_lt|].
  2: { etransitivity; [|exact Hn]. apply N.Div0.div_le_upper_bound. lia. }
  change (str_bytes (String ?c s)) with (c :: str_bytes s). cbn [read_number].
  rewrite digit_is_read by by apply N.mod_lt. rewrite (N.mul_comm (n / 10)), <- (N.div_mod n 10) by done.
  by apply N.leb_le in Hn as ->.
Qed.

Lemma pretty_is_read max n : (n <= max)%N → from_str_radix 10 max (str_bytes (pretty n)) = Some n.
Proof.
  intros Hn. destruct (pretty_N_digits n) as [Hne Hdigits]. unfold from_str_radix.
  destruct (str_bytes (pretty n)) as [|b l] eqn:E; [done|].
  destruct (Ascii.eqb_spec b "+") as [->|]; [done|]. rewrite <- E.
  unfold pretty, pretty_N in *. destruct (decide (n = 0%N)) as [->|]; [by destruct max|]. by rewrite number_is_read.
Qed.

Lemma pid_is_read_back text pid : canonical_pid text = Some pid ↔ (0 < pid <= U32_MAX)%N ∧ text = pretty pid.
Proof.
  unfold canonical_pid. split.
  - destruct (from_str_radix _ _ _) as [n|] eqn:E; [|done]. destruct (_ && _) eqn:Eb; [|done]. intros [= <-].
    apply andb_true_iff in Eb as [Hpos Htext]. apply negb_true_iff, N.eqb_neq in Hpos. apply String.eqb_eq in Htext as <-.
    split; [|done]. split; [lia|]. destruct (decide (n <= U32_MAX)%N) as [|Hbig]; [done|].
    exfalso. revert E. unfold from_str_radix.
    assert (∀ l acc, (acc <= U32_MAX)%N → read_number 10 U32_MAX acc l = Some n → (n <= U32_MAX)%N) as Hbound.
    { induction l as [|b l IH]; intros acc Hacc; cbn [read_number]; [by intros [= <-]|].
      destruct (to_digit 10 b); [|done]. destruct (_ <=? _)%N eqn:Ele; [|done]. apply N.leb_le in Ele. by apply IH. }
    destruct (str_bytes (pretty n)) as [|b l]; [done|]. destruct (b =? "+")%char; [destruct l; [done|]|];
      intros Hr; exact (Hbig (Hbound _ 0%N (N.le_0_l _) Hr)).
  - intros [[Hpos Hmax] ->]. rewrite pretty_is_read by done. rewrite String.eqb_refl.
    destruct (N.eqb_spec pid 0); [lia|done].
Qed.

(** ** Verbs *)

Lemma verb_is_read_back value a : from_broker_verb value = Some a ↔ broker_verb a = Some value.
Proof.
  split.
  - unfold from_broker_verb. destruct (parse_verb value) as [c|] eqn:E.
    + unfold parse_verb in E. destruct (List.find _ BROKER_COMMANDS) as [[c' v]|] eqn:Ef; [|done].
      apply find_some in Ef as [Hin Hv]. injection E as ->. apply String.eqb_eq in Hv. cbn in Hv. subst v.
      apply list_elem_of_In in Hin. unfold BROKER_COMMANDS in Hin.
      repeat (apply elem_of_cons in Hin as [[= -> ->]|Hin]; [by try intros [= <-]|]). by apply elem_of_nil in Hin.
    + repeat match goal with |- context [(value =? ?w)%string] =>
        destruct (String.eqb_spec value w) as [->|]; [by intros [= <-]|] end. done.
  - destruct a; intros [= <-]; reflexivity.
Qed.

Lemma action_has_a_verb a : is_Some (broker_verb a).
Proof. destruct a; by eexists. Qed.

(** The command line: the words of [parameters], behind the program. *)
Definition request_words (verb : string) (token : ProfileTransferToken) : list string :=
  [BROKER_SWITCH; verb; BROKER_TRANSFER_SWITCH; pretty (token_server_pid token); profile_transfer_nonce_text (token_nonce token)].

Definition valid_token (token : ProfileTransferToken) : Prop :=
  (0 < token_server_pid token <= U32_MAX)%N ∧ length (token_nonce token) = PROFILE_TRANSFER_NONCE_BYTES.

Lemma os_is_true s text : os_is s text = true ↔ s = Unicode text.
Proof. destruct s; cbn; [rewrite String.eqb_eq; split; [by intros ->|by intros [= ->]]|split; done]. Qed.

Lemma ok_or_Ok {A E} (o : option A) (e : E) a : ok_or o e = Ok a ↔ o = Some a.
Proof. destruct o; cbn; split; by intros [= ->]. Qed.

Lemma result_bind_Ok {A B E} (r : result A E) (k : A → result B E) b :
  result_bind r k = Ok b ↔ ∃ a, r = Ok a ∧ k a = Ok b.
Proof. destruct r; cbn; [split; [by eexists|by intros (? & [= ->] & ?)]|split; [done|by intros (? & ? & _)]]. Qed.

Lemma to_str_Some s text : to_str s = Some text ↔ s = Unicode text.
Proof. destruct s; cbn; split; by intros [= ->]. Qed.

Lemma transfer_is_read_back remaining token :
  transfer_from_arguments remaining = Ok token ↔
  valid_token token ∧ remaining = map Unicode [BROKER_TRANSFER_SWITCH; pretty (token_server_pid token); profile_transfer_nonce_text (token_nonce token)].
Proof.
  unfold transfer_from_arguments, valid_token. split.
  - destruct remaining as [|switch [|pid [|nonce [|? ?]]]]; try done. destruct (os_is _ _) eqn:Es; [|done].
    apply os_is_true in Es as ->. cbn [negb].
    intros (pid_text & Hpid & H)%result_bind_Ok. apply ok_or_Ok, to_str_Some in Hpid as ->.
    apply result_bind_Ok in H as (p & Hp & H). apply ok_or_Ok, pid_is_read_back in Hp as [Hrange ->].
    apply result_bind_Ok in H as (nonce_text & Hnonce & H). apply ok_or_Ok, to_str_Some in Hnonce as ->.
    apply result_bind_Ok in H as (n & Hn & [= <-]). apply nonce_is_read_back in Hn as [Hlen ->]. done.
  - intros [[Hrange Hlen] ->]. destruct token as [pid nonce]. cbn [token_server_pid token_nonce map os_is to_str ok_or result_bind] in *.
    rewrite String.eqb_refl, (proj2 (pid_is_read_back (pretty pid) pid)) by done. cbn [negb ok_or result_bind].
    by rewrite (proj2 (nonce_is_read_back (profile_transfer_nonce_text nonce) nonce)).
Qed.

Lemma request_is_read_back arguments request :
  privileged_request_from_arguments arguments = Ok (Some request) ↔
  valid_token (request_transfer request) ∧
  ∃ program verb, broker_verb (request_action request) = Some verb ∧
    arguments = program :: map Unicode (request_words verb (request_transfer request)).
Proof.
  unfold privileged_request_from_arguments, request_words. split.
  - destruct arguments as [|program [|switch arguments]]; [done..|]. destruct (os_is _ _) eqn:Es; [|done].
    apply os_is_true in Es as ->. cbn [negb].
    intros (verb & Hverb & H)%result_bind_Ok. apply ok_or_Ok in Hverb. destruct arguments as [|value arguments]; [done|].
    apply to_str_Some in Hverb as ->. apply result_bind_Ok in H as (a & Ha & H). apply ok_or_Ok, verb_is_read_back in Ha.
    apply result_bind_Ok in H as (token & Htoken & [= <-]). apply transfer_is_read_back in Htoken as [Hvalid Hrest].
    cbn in Hrest |- *. subst arguments. split; [done|]. by exists program, verb.
  - intros (Hvalid & program & verb & Hverb & ->). destruct request as [a token]. cbn [request_action request_transfer] in *.
    cbn [map os_is]. rewrite String.eqb_refl. cbn [negb to_str ok_or result_bind].
    rewrite (proj2 (verb_is_read_back verb a)) by done. cbn [ok_or result_bind tail].
    by rewrite (proj2 (transfer_is_read_back _ token)).
Qed.

(** ** Frames *)

Lemma le_bytes_length width n : length (to_le_bytes width n) = width.
Proof. revert n. induction width as [|width IH]; intros n; cbn; [done|]. by rewrite IH. Qed.

Lemma le_bytes_are_read width n : (n < 256 ^ N.of_nat width)%N → from_le_bytes (to_le_bytes width n) = n.
Proof.
  revert n. induction width as [|width IH]; intros n Hn; cbn [to_le_bytes from_le_bytes]; [cbn in Hn; lia|].
  rewrite N_ascii_embedding by by apply N.mod_lt. rewrite IH.
  - rewrite N.add_comm. symmetry. by apply N.div_mod.
  - apply N.Div0.div_lt_upper_bound. by rewrite <- N.pow_succ_r', <- Nat2N.inj_succ.
Qed.

Lemma from_le_bytes_inj a b : length a = length b → from_le_bytes a = from_le_bytes b → a = b.
Proof.
  revert b. induction a as [|x a IH]; intros [|y b] Hlen; try done. cbn [from_le_bytes length] in *. intros E.
  pose proof (N_ascii_bounded x). pose proof (N_ascii_bounded y).
  assert (N_of_ascii x = N_of_ascii y ∧ from_le_bytes a = from_le_bytes b) as [Hx Ha] by lia.
  f_equal; [|apply IH; [lia|done]]. by rewrite <- (ascii_N_embedding x), Hx, ascii_N_embedding.
Qed.

(** What is asked of a format. *)
Definition format_ok (f : FrameFormat) : Prop :=
  length (frame_magic f) = 4 ∧ (frame_version f < 2 ^ 16)%N ∧ (0 < read_limit f)%N ∧ (max_payload f < 2 ^ 32)%N.

Lemma profile_format_ok : format_ok profile_format.
Proof. by vm_compute. Qed.

Lemma result_format_ok : format_ok result_format.
Proof. by vm_compute. Qed.

Section FrameFacts.
Context `{Sha256} (f : FrameFormat).

Lemma digest_is_the_hash bytes : frame_digest f bytes = Ok (sha256 bytes).
Proof.
  unfold frame_digest. rewrite digest_bytes, bytes_strip_prefix_of. unfold bytes_len.
  rewrite hex_length, sha256_length. cbn [N.of_nat negb N.eqb Pos.eqb].
  pose proof (decode_pairs_hex (sha256 bytes)) as E. rewrite sha256_length in E. by rewrite E.
Qed.

Lemma slice_glue (l : list ascii) i j : i ≤ j → drop i l = slice l i j ++ drop j l.
Proof.
  intros Hij. unfold slice. rewrite <- (take_drop (j - i) (drop i l)) at 1. rewrite drop_drop. do 2 f_equal. lia.
Qed.

Lemma slice_length (l : list ascii) i j : i ≤ j → j ≤ length l → length (slice l i j) = j - i.
Proof. intros Hij Hl. unfold slice. rewrite length_take, length_drop. lia. Qed.

Lemma slice_first (x l : list ascii) j : length x = j → slice (x ++ l) 0 j = x.
Proof. intros <-. unfold slice. rewrite drop_0, Nat.sub_0_r. by rewrite take_app_length. Qed.

Lemma slice_skip (x l : list ascii) i j k : length x = k → k ≤ i → slice (x ++ l) i j = slice l (i - k) (j - k).
Proof.
  intros <- Hi. unfold slice. rewrite drop_app_ge by done. f_equal. destruct (decide (length x ≤ j)); lia.
Qed.

(** The parts of a frame. *)
Definition frame_of (version reserved size nonce digest payload : list ascii) : list ascii :=
  frame_magic f ++ version ++ reserved ++ size ++ nonce ++ digest ++ payload.

Context (Hf : format_ok f).

Lemma frame_parts version reserved size nonce digest payload :
  length version = 2 → length reserved = 2 → length size = 4 → length nonce = 16 → length digest = 32 →
  let frame := frame_of version reserved size nonce digest payload in
  slice frame 0 4 = frame_magic f ∧ slice frame 4 6 = version ∧ slice frame 6 8 = reserved ∧
  slice frame 8 12 = size ∧ slice frame 12 28 = nonce ∧ slice frame 28 60 = digest ∧ drop 60 frame = payload ∧
  length frame = 60 + length payload.
Proof.
  intros Hv Hr Hs Hn Hd frame. destruct Hf as (Hm & _). unfold frame, frame_of.
  rewrite slice_first by done.
  rewrite !(slice_skip (frame_magic f) _ _ _ 4) by (done || lia). cbn [Nat.sub].
  rewrite slice_first by done. rewrite !(slice_skip version _ _ _ 2) by (done || lia). cbn [Nat.sub].
  rewrite slice_first by done. rewrite !(slice_skip reserved _ _ _ 2) by (done || lia). cbn [Nat.sub].
  rewrite slice_first by done. rewrite !(slice_skip size _ _ _ 4) by (done || lia). cbn [Nat.sub].
  rewrite slice_first by done. rewrite !(slice_skip nonce _ _ _ 16) by (done || lia). cbn [Nat.sub].
  rewrite slice_first by done. repeat (split; [done|]). split; [|rewrite !length_app; lia].
  rewrite !app_assoc, drop_app_ge; rewrite !length_app; [|lia].
  replace (60 - _) with 0 by lia. by rewrite drop_0.
Qed.

Lemma frame_is_parts frame :
  60 ≤ length frame →
  frame = slice frame 0 4 ++ slice frame 4 6 ++ slice frame 6 8 ++ slice frame 8 12 ++ slice frame 12 28
          ++ slice frame 28 60 ++ drop 60 frame.
Proof.
  intros Hlen. rewrite <- !slice_glue by lia. by rewrite drop_0.
Qed.

(** A frame is decoded to the payload it was encoded from, and nothing else is decoded. *)
Lemma frames_are_exact frame nonce payload :
  length nonce = PROFILE_TRANSFER_NONCE_BYTES →
  decode_frame f frame nonce = Ok payload ↔ encode_frame f payload nonce = Ok frame.
Proof.
  intros Hnonce. destruct Hf as (Hm & Hv & Hl & Hp). unfold decode_frame, encode_frame, header_is_foreign, length_is_invalid, payload_length.
  change HEADER_BYTES with 60. rewrite !digest_is_the_hash. cbn [result_bind]. split.
  - destruct (_ || _ || _) eqn:Ehead; [done|]. apply orb_false_iff in Ehead as [Ehead En]. apply orb_false_iff in Ehead as [Elen Eh].
    apply orb_false_iff in Eh as [Eh Er]. apply orb_false_iff in Eh as [Em Ev].
    apply negb_false_iff, bool_decide_eq_true in En. apply negb_false_iff, bool_decide_eq_true in Em.
    apply negb_false_iff, N.eqb_eq in Er. apply negb_false_iff, N.eqb_eq in Ev. apply Nat.ltb_ge in Elen.
    destruct (_ || _) eqn:El; [done|]. apply orb_false_iff in El as [Hrange Elength]. apply negb_false_iff, N.eqb_eq in Elength.
    case_bool_decide as Ed; [|done]. intros [= <-]. 
    assert (bytes_len (drop 60 frame) = from_le_bytes (slice frame 8 12)) as Hsize.
    { unfold bytes_len in *. rewrite length_drop. lia. }
    rewrite Hsize, Hrange. f_equal. rewrite (frame_is_parts frame Elen) at 4.
    rewrite Em, En, Ed. do 2 f_equal; [|f_equal; [|f_equal]].
    + apply from_le_bytes_inj; [by rewrite le_bytes_length, slice_length by lia|]. rewrite le_bytes_are_read; [done|exact Hv].
    + apply from_le_bytes_inj; [by rewrite le_bytes_length, slice_length by lia|]. by rewrite le_bytes_are_read.
    + apply orb_false_iff in Hrange as [_ Hmax]. apply N.ltb_ge in Hmax.
      rewrite N.mod_small by lia. apply from_le_bytes_inj; [by rewrite le_bytes_length, slice_length by lia|].
      rewrite le_bytes_are_read; [done|]. change (256 ^ N.of_nat 4)%N with (2 ^ 32)%N. lia.
  - destruct (_ || _) eqn:Hrange; [done|]. intros <-%(inj Ok).
    pose proof Hrange as [_ Hmax]%orb_false_iff. apply N.ltb_ge in Hmax. rewrite N.mod_small by lia.
    pose proof (frame_parts (to_le_bytes 2 (frame_version f)) (to_le_bytes 2 0) (to_le_bytes 4 (bytes_len payload)) nonce
      (sha256 payload) payload) as Hparts. cbv zeta in Hparts. unfold frame_of in Hparts.
    destruct Hparts as (-> & -> & -> & -> & -> & -> & -> & Hlength); [apply le_bytes_length..|done|apply sha256_length|].
    match type of Hlength with length ?x = _ => assert (bytes_len x = N.of_nat 60 + bytes_len payload)%N as Hbytes
      by (unfold bytes_len at 1; rewrite Hlength; unfold bytes_len; lia) end.
    rewrite Hlength, Hbytes. rewrite !le_bytes_are_read; [|..].
    + rewrite Hrange. rewrite !bool_decide_eq_true_2 by done. cbn [negb orb].
      destruct (Nat.ltb_spec (60 + length payload) 60); [lia|]. cbn [orb].
      by rewrite !N.eqb_refl.
    + change (256 ^ N.of_nat 4)%N with (2 ^ 32)%N. lia.
    + done.
    + exact Hv.
Qed.
End FrameFacts.
