(* ===== verification/BrokerTransferFacts.v ===== *)
(** * A frame is received as it was sent

    The loop of [BrokerWire] that receives a frame: against any pipe it ends, and it
    answers only what the bytes it read are the frame of; and a frame that is written to
    a pipe is received, in whatever pieces the pipe delivers it. *)

From S2P Require Import EventText Manifest.
From S2P Require Export BrokerWireFacts.

(** ** The calls of a pipe, noted *)

Inductive PipeCall :=
| OpenedPipe (name : string) (access : PipeAccess) (answer : result unit PipeError)
| SawServer (name : string) (answer : result N OsError)
| ConnectedPipe (name : string) (answer : result unit PipeError)
| SawClient (name : string) (answer : result N OsError)
| ReadPipe (name : string) (asked : N) (answer : result (list ascii) PipeError)
| WrotePipe (name : string) (bytes : list ascii) (answer : result unit PipeError).

#[export] Instance Noted_pipes S E `{Pipes S, Notes PipeCall E} : Pipes (Noted S E) := {
  pipe_open name access := noted (λ a, note_of (OpenedPipe name access a)) (pipe_open name access);
  pipe_server_process_id name := noted (λ a, note_of (SawServer name a)) (pipe_server_process_id name);
  pipe_connect name := noted (λ a, note_of (ConnectedPipe name a)) (pipe_connect name);
  pipe_client_process_id name := noted (λ a, note_of (SawClient name a)) (pipe_client_process_id name);
  pipe_read name asked := noted (λ a, note_of (ReadPipe name asked a)) (pipe_read name asked);
  pipe_write_all name bytes := noted (λ a, note_of (WrotePipe name bytes a)) (pipe_write_all name bytes)
}.

(** A read answers no more than it was asked for. *)
Class BoundedReads (S : Type) `{Pipes S} :=
  reads_are_bounded name asked s chunk : fst (pipe_read name asked s) = Ok chunk → (bytes_len chunk <= asked)%N.

Definition received_chunk {E} `{Notes PipeCall E} (e : E) : list ascii :=
  match as_note e with Some (ReadPipe _ _ (Ok chunk)) => chunk | _ => [] end.

(** The bytes the pipes delivered. *)
Definition received {E} `{Notes PipeCall E} (calls : list E) : list ascii := concat (map received_chunk calls).

Lemma received_app {E} `{Notes PipeCall E} (a b : list E) : received (a ++ b) = received a ++ received b.
Proof. unfold received. by rewrite map_app, concat_app. Qed.

Lemma received_note {E} `{Notes PipeCall E} c (calls : list E) :
  received (note_of c :: calls) = match c with ReadPipe _ _ (Ok chunk) => chunk | _ => [] end ++ received calls.
Proof. unfold received. cbn [map concat]. unfold received_chunk at 1. by rewrite as_note_of. Qed.

Section Receiving.
Context {S E : Type} `{BoundedReads S} `{Notes PipeCall E} `{Sha256} (f : FrameFormat) (name : string) (nonce : list ascii).
Notation T := (Noted S E).

Definition bound : N := N.of_nat HEADER_BYTES + max_payload f.

Lemma expect_total_bound frame expected total :
  match expected with Some t => (t <= bound)%N | None => True end →
  expect_total f frame expected = Ok total → match total with Some t => (t <= bound)%N | None => True end.
Proof.
  intros Hexp. unfold expect_total. destruct expected as [t|]; [by intros [= <-]|].
  destruct (_ <? _); [by intros [= <-]|]. destruct (header_is_foreign _ _); [done|].
  destruct (length_is_invalid _ _) eqn:El; [done|]. intros [= <-]. unfold bound, length_is_invalid in *.
  apply orb_false_iff in El as [_ El]. apply N.ltb_ge in El. lia.
Qed.

Lemma receive_frame_tells fuel frame expected :
  (bound < bytes_len frame + N.of_nat fuel)%N → (bytes_len frame <= default bound expected)%N →
  match expected with Some t => (t <= bound)%N | None => True end →
  tells (receive_frame (S := T) fuel f name nonce frame expected) (λ r calls, ∀ payload,
    r = Ok payload → decode_frame f (frame ++ received calls) nonce = Ok payload).
Proof.
  revert frame expected. induction fuel as [|fuel IH]; intros frame expected Hfuel Hlen Hexp; cbn [receive_frame].
  { exfalso. destruct expected as [t|]; cbn in *; lia. }
  assert (default bound expected <= bound)%N as Hdefault by (by destruct expected).
  fold bound. destruct (N.eqb_spec (default bound expected - bytes_len frame) 0) as [|Hleft]; [by apply tells_ret|].
  apply tells_then_from. intros s. destruct (fst (pipe_read _ _ s)) as [chunk|e] eqn:Eread; cbn [map_err]; [|by apply tells_ret].
  pose proof (reads_are_bounded _ _ _ _ Eread) as Hchunk. destruct (N.ltb_spec (N.min (default bound expected - bytes_len frame) (read_limit f)) (bytes_len chunk)) as [|_]; [lia|].
  destruct (N.eqb_spec (bytes_len chunk) 0) as [|Hpos]; [by apply tells_ret|].
  assert (bytes_len (frame ++ chunk) = bytes_len frame + bytes_len chunk)%N as Hgrow.
  { unfold bytes_len. rewrite length_app. lia. }
  destruct (expect_total f (frame ++ chunk) expected) as [total|e] eqn:Etotal; [|by apply tells_ret].
  pose proof (expect_total_bound _ _ _ Hexp Etotal) as Htotal.
  assert (bytes_len (frame ++ chunk) <= bound)%N as Hsmall by lia.
  destruct (match total with Some _ => _ | None => _ end) eqn:Etrail; [by apply tells_ret|].
  case_bool_decide.
  - apply tells_ret. intros payload. by rewrite received_note, app_nil_r.
  - eapply tells_mono; [apply IH; [lia| |done]|].
    + destruct total as [t|]; cbn [default]; [by apply N.ltb_ge in Etrail|done].
    + cbv beta. intros r calls Hr payload Hp. rewrite received_note, app_assoc. by apply Hr.
Qed.

Lemma receive_tells :
  tells (receive_frame (S := T) (receive_fuel f) f name nonce [] None) (λ r calls, ∀ payload,
    r = Ok payload → decode_frame f (received calls) nonce = Ok payload).
Proof.
  apply (receive_frame_tells (receive_fuel f) [] None); [|apply N.le_0_l|done].
  unfold receive_fuel, bound. rewrite N2Nat.id. lia.
Qed.
End Receiving.

(** ** A pipe between two processes

    What is written is read, in pieces of at most the sizes given, one byte at least, and
    of any size once the sizes are used up. *)

Record Feed := {
  feed_bytes : list ascii;
  feed_sizes : list N;
  feed_server : N;
  feed_client : N
}.

Definition feed_piece (asked : N) (s : Feed) : nat :=
  N.to_nat (match feed_sizes s with [] => asked | size :: _ => N.min asked (size + 1) end).

#[export] Instance Feed_pipes : Pipes Feed := {
  pipe_open _ _ s := (Ok tt, s);
  pipe_server_process_id _ s := (Ok (feed_server s), s);
  pipe_connect _ s := (Ok tt, s);
  pipe_client_process_id _ s := (Ok (feed_client s), s);
  pipe_read _ asked s :=
    (Ok (take (feed_piece asked s) (feed_bytes s)),
     {| feed_bytes := drop (feed_piece asked s) (feed_bytes s); feed_sizes := tail (feed_sizes s);
        feed_server := feed_server s; feed_client := feed_client s |});
  pipe_write_all _ bytes s :=
    (Ok tt, {| feed_bytes := feed_bytes s ++ bytes; feed_sizes := feed_sizes s;
               feed_server := feed_server s; feed_client := feed_client s |})
}.

Section Delivery.
Context `{Sha256} (f : FrameFormat) (Hf : format_ok f) (name : string) (nonce payload frame : list ascii).
Context (Hnonce : length nonce = PROFILE_TRANSFER_NONCE_BYTES) (Hframe : encode_frame f payload nonce = Ok frame).

Lemma slice_of_front (x y : list ascii) i j : j ≤ length x → slice (x ++ y) i j = slice x i j.
Proof.
  intros Hj. unfold slice. destruct (decide (i ≤ length x)).
  - rewrite drop_app_le by done. rewrite take_app_le; [done|]. rewrite length_drop. lia.
  - replace (j - i) with 0 by lia. by rewrite !take_0.
Qed.

(** What the loop finds in the front of the frame. *)
Lemma frame_is_expected front back :
  frame = front ++ back →
  expect_total f front None = Ok (if (length front <? 12)%nat then None else Some (bytes_len frame)).
Proof.
  intros ->. pose proof (proj2 (frames_are_exact f Hf _ _ _ Hnonce) Hframe) as Hdecode.
  unfold decode_frame in Hdecode. destruct (_ || _ || _) eqn:Ehead; [done|].
  apply orb_false_iff in Ehead as [[_ Ehead]%orb_false_iff _]. destruct (_ || _) eqn:El; [done|]. clear Hdecode.
  apply orb_false_iff in El as [El Elen]. apply negb_false_iff, N.eqb_eq in Elen.
  unfold expect_total. destruct (Nat.ltb_spec (length front) 12) as [|Hlen]; [done|].
  unfold header_is_foreign, payload_length in *. rewrite (slice_of_front front back 0 4), (slice_of_front front back 4 6), (slice_of_front front back 6 8) in Ehead by lia.
  rewrite (slice_of_front front back 8 12) in El, Elen by lia.
  by rewrite Ehead, El, Elen.
Qed.

Lemma frame_fits : (0 < bytes_len frame <= bound f)%N.
Proof.
  pose proof (proj2 (frames_are_exact f Hf _ _ _ Hnonce) Hframe) as Hdecode. unfold decode_frame in Hdecode.
  destruct (_ || _ || _); [done|]. destruct (_ || _) eqn:El; [done|]. unfold length_is_invalid, bound in *.
  apply orb_false_iff in El as [[_ El]%orb_false_iff Elen]. apply negb_false_iff, N.eqb_eq in Elen.
  apply N.ltb_ge in El. unfold HEADER_BYTES in *. lia.
Qed.

Lemma receive_delivers fuel front s :
  frame = front ++ feed_bytes s → (bytes_len front < bytes_len frame)%N → (bound f < bytes_len front + N.of_nat fuel)%N →
  ∃ s', receive_frame fuel f name nonce front (if (length front <? 12)%nat then None else Some (bytes_len frame)) s = Some (Ok payload, s').
Proof.
  revert front s. induction fuel as [|fuel IH]; intros front s Hsplit Hlen Hfuel; pose proof frame_fits as Hfits; [lia|].
  cbn [receive_frame]. fold (bound f). set (expected := if length front <? 12 then None else Some (bytes_len frame)).
  assert (bytes_len frame <= default (bound f) expected)%N as Htotal by (unfold expected; destruct (_ <? _); cbn; lia).
  destruct (N.eqb_spec (default (bound f) expected - bytes_len front) 0) as [|_]; [lia|].
  set (asked := N.min _ _). assert (0 < asked)%N as Hasked by (destruct Hf as (_ & _ & Hl & _); lia).
  unfold bind, call_of. cbn [pipe_read Feed_pipes map_err]. set (piece := feed_piece asked s).
  assert (0 < piece ∧ piece ≤ N.to_nat asked) as [Hpiece Hmax].
  { unfold piece, feed_piece. destruct (feed_sizes s); lia. }
  assert (bytes_len frame = bytes_len front + bytes_len (feed_bytes s))%N as Hsum.
  { rewrite Hsplit. unfold bytes_len. rewrite length_app. lia. }
  destruct (N.ltb_spec asked (bytes_len (take piece (feed_bytes s)))) as [Hbad|_].
  { unfold bytes_len in Hbad. rewrite length_take in Hbad. lia. }
  destruct (N.eqb_spec (bytes_len (take piece (feed_bytes s))) 0) as [Hbad|Hsome].
  { unfold bytes_len in Hbad, Hsum, Hlen. rewrite length_take in Hbad. lia. }
  set (front' := front ++ take piece (feed_bytes s)).
  assert (frame = front' ++ drop piece (feed_bytes s)) as Hsplit'.
  { unfold front'. by rewrite <- app_assoc, take_drop. }
  assert (expect_total f front' expected = Ok (if length front' <? 12 then None else Some (bytes_len frame))) as ->.
  { unfold expected. destruct (Nat.ltb_spec (length front) 12) as [Hshort|Hlong].
    - by apply (frame_is_expected _ (drop piece (feed_bytes s))).
    - cbn [expect_total]. destruct (Nat.ltb_spec (length front') 12) as [Hbad|]; [|done].
      unfold front' in Hbad. rewrite length_app in Hbad. lia. }
  assert (bytes_len front' = bytes_len front + bytes_len (take piece (feed_bytes s)))%N as Hgrow.
  { unfold front', bytes_len. rewrite length_app. lia. }
  assert (bytes_len front' + bytes_len (drop piece (feed_bytes s)) = bytes_len frame)%N as Hrest.
  { rewrite Hsplit'. unfold bytes_len. rewrite length_app. lia. }
  assert ((match (if length front' <? 12 then None else Some (bytes_len frame)) with
           | Some total => (total <? bytes_len front')%N | None => false end) = false) as ->.
  { destruct (length front' <? 12); [done|]. apply N.ltb_ge. lia. }
  case_bool_decide as Edone.
  - destruct (length front' <? 12); [done|]. injection Edone as Edone.
    assert (drop piece (feed_bytes s) = []) as Hnil. { apply nil_length_inv. unfold bytes_len in *. lia. }
    rewrite Hnil, app_nil_r in Hsplit'. rewrite <- Hsplit'. eexists. unfold ret.
    by rewrite (proj2 (frames_are_exact f Hf _ _ _ Hnonce) Hframe).
  - apply IH; [exact Hsplit'| |lia]. cbn [feed_bytes].
    destruct (Nat.ltb_spec (length front') 12) as [Hshort|]; [|apply N.le_neq; split; [lia|congruence]].
    pose proof (proj2 (frames_are_exact f Hf _ _ _ Hnonce) Hframe) as Hdecode. unfold decode_frame in Hdecode.
    destruct (_ || _ || _) eqn:Ehead; [done|]. apply orb_false_iff in Ehead as [[Ehead _]%orb_false_iff _].
    apply Nat.ltb_ge in Ehead. unfold HEADER_BYTES, bytes_len in *. lia.
Qed.
End Delivery.

(** ** A profile on its way *)

(** The process at the other end was seen, and it was the one the token names. *)
Definition saw_server {E} `{Notes PipeCall E} (token : ProfileTransferToken) (calls : list E) : Prop :=
  note_of (SawServer (profile_pipe_name token) (Ok (token_server_pid token))) ∈ calls.

Lemma receive_profile_tells {S E} `{BoundedReads S, Notes PipeCall E, Sha256} token timeout :
  length (token_nonce token) = PROFILE_TRANSFER_NONCE_BYTES →
  tells (receive_profile_from_pipe_bounded (S := Noted S E) token timeout) (λ r calls, ∀ profile,
    r = Ok profile →
    saw_server token calls ∧ encode_profile_transfer_frame profile (token_nonce token) = Ok (received calls)).
Proof.
  intros Hnonce. unfold receive_profile_from_pipe_bounded. destruct (_ || _); [by apply tells_ret|].
  apply tells_then. intros opened. destruct opened as [[]|e]; cbn [map_err]; [apply tells_step|by apply tells_stop].
  apply tells_then. intros pid. destruct pid as [pid|e]; cbn [map_err]; [apply tells_step|by apply tells_stop].
  destruct (N.eqb_spec pid (token_server_pid token)) as [->|]; [|by apply tells_ret]. cbn [negb].
  eapply tells_mono; [apply receive_tells|]. cbv beta. intros r calls Hr profile Hp. split.
  - unfold saw_server. right. left.
  - rewrite !received_note. apply frames_are_exact; [apply profile_format_ok|done|by apply Hr].
Qed.

Lemma profile_delivers `{Sha256} token profile frame s client timeout :
  valid_token token → encode_profile_transfer_frame profile (token_nonce token) = Ok frame →
  feed_bytes s = [] → feed_server s = token_server_pid token → feed_client s = client → (0 < client)%N → (0 < timeout)%N →
  ∃ s', (let? _ := send_profile_to token frame client timeout in receive_profile_from_pipe_bounded token timeout) s = Some (Ok profile, s').
Proof.
  intros [Hpid Hnonce] Hframe Hempty Hserver Hclient Hpos Htime. unfold send_profile_to, receive_profile_from_pipe_bounded.
  destruct (N.eqb_spec client 0); [lia|]. destruct (N.eqb_spec timeout 0); [lia|].
  destruct (N.eqb_spec (token_server_pid token) 0); [lia|]. cbn [orb].
  unfold bind at 1 2 3 4 5. unfold call_of at 1 2 3. cbn [pipe_connect pipe_client_process_id pipe_write_all Feed_pipes map_err ret feed_client].
  rewrite Hclient, N.eqb_refl. cbn [negb]. unfold bind, call_of, ret at 1 2 3 4.
  cbn [pipe_open pipe_server_process_id Feed_pipes map_err feed_server]. rewrite Hserver, N.eqb_refl. cbn [negb].
  destruct (receive_delivers profile_format profile_format_ok (profile_pipe_name token) (token_nonce token) profile frame Hnonce Hframe
    (receive_fuel profile_format) [] {| feed_bytes := feed_bytes s ++ frame; feed_sizes := feed_sizes s; feed_server := feed_server s; feed_client := feed_client s |}) as [s' Hs'].
  - by rewrite Hempty.
  - by apply (frame_fits profile_format profile_format_ok (token_nonce token) profile).
  - unfold receive_fuel, bound. rewrite N2Nat.id. lia.
  - exists s'. rewrite Hserver in Hs'. exact Hs'.
Qed.

(** C26. A profile arrives at the elevated broker as it was sent: against any pipe, receiving
    it ends with an answer, and when that is a profile, the process at the other end was
    the one the broker was told of, and the bytes it delivered are exactly the frame of
    this profile with the nonce of this request.  A frame that is written to the pipe is
    received as the profile it was made of, in whatever pieces the pipe delivers it. *)
Theorem profile_arrives_as_sent `{Sha256} token :
  valid_token token →
  (∀ S (pipes : Pipes S) (bounded : BoundedReads S) timeout (s : S), ∃ r t,
     receive_profile_from_pipe_bounded (S := Noted S PipeCall) token timeout (mk_noted s []) = Some (r, t) ∧
     ∀ profile, r = Ok profile →
       saw_server token (notes t) ∧ encode_profile_transfer_frame profile (token_nonce token) = Ok (received (notes t))) ∧
  (∀ profile sizes client timeout, (0 < bytes_len profile <= MAX_PROFILE_BYTES)%N → (0 < client)%N → (0 < timeout)%N →
     ∃ frame s', encode_profile_transfer_frame profile (token_nonce token) = Ok frame ∧
       (let? _ := send_profile_to token frame client timeout in receive_profile_from_pipe_bounded token timeout)
         {| feed_bytes := []; feed_sizes := sizes; feed_server := token_server_pid token; feed_client := client |} = Some (Ok profile, s')).
Proof.
  intros Hvalid. split.
  - intros S ? ? timeout s. destruct (tells_run _ _ s (receive_profile_tells token timeout (proj2 Hvalid))) as (r & t & E & Hr). by exists r, t.
  - intros profile sizes client timeout Hsize Hclient Htime.
    destruct (encode_profile_transfer_frame profile (token_nonce token)) as [frame|e] eqn:Eframe.
    + set (s := {| feed_bytes := []; feed_sizes := sizes; feed_server := token_server_pid token; feed_client := client |}).
      destruct (profile_delivers token profile frame s client timeout Hvalid Eframe eq_refl eq_refl eq_refl Hclient Htime) as [s' Hs'].
      by exists frame, s'.
    + exfalso. revert Eframe. unfold encode_profile_transfer_frame, encode_frame. rewrite digest_is_the_hash.
      cbn [max_payload profile_format]. destruct (N.eqb_spec (bytes_len profile) 0); [lia|].
      by destruct (N.ltb_spec MAX_PROFILE_BYTES (bytes_len profile)); [lia|].
Qed.

Definition example_token : ProfileTransferToken := {| token_server_pid := 4711; token_nonce := repeat "a"%char 16 |}.

Lemma profile_arrives_as_sent_witness :
  ∃ frame s', encode_profile_transfer_frame (str_bytes "[General]") (token_nonce example_token) = Ok frame ∧
    (let? _ := send_profile_to example_token frame 815 1000 in receive_profile_from_pipe_bounded example_token 1000)
      {| feed_bytes := []; feed_sizes := [0%N; 20%N]; feed_server := 4711; feed_client := 815 |} = Some (Ok (str_bytes "[General]"), s').
Proof.
  refine (proj2 (profile_arrives_as_sent example_token _) (str_bytes "[General]") [0%N; 20%N] 815%N 1000%N _ _ _).
  - split; [split; [reflexivity|discriminate]|reflexivity].
  - split; [reflexivity|discriminate].
  - reflexivity.
  - reflexivity.
Defined.
