(* ===== verification/Broker.v ===== *)
(** * The elevated broker and its launcher

    [control-center/src-tauri/src/machine_integration/open_service/broker.rs] and
    [broker/elevation.rs], [broker/process.rs], [broker/setup.rs]: the control center
    starts itself again with the rights of an administrator, hands it the profile over a
    pipe, and reads the result of the one action from another. *)

From stdpp Require Import pretty.
From S2P Require Import EventText Manifest.
From S2P Require Export WindowsCalls BrokerWire.

(** ** What the broker and its launcher call *)

Record PackageFailure := {
  package_kind : InstallationPreflightKind;
  package_diagnostics : InstallationPreflightDiagnostics;
  package_error : string
}.

Inductive PipeDirection := Inbound | Outbound.

(** The launcher's side: one process is launched, and all calls on a process are on it. *)
Class BrokerLauncher (S : Type) := {
  service_package : S → result string PackageFailure * S;
  own_process_id : S → N * S;
  random_nonce : S → result (list ascii) string * S;
  pipe_descriptor : string → S → result unit OsError * S;
  pipe_create : string → PipeDirection → N → S → result unit OsError * S;
  launch_elevated : string → string → S → result unit OsError * S;
  process_pid : S → result N OsError * S;
  process_wait : N → S → result WaitOutcome OsError * S;
  process_terminate : N → S → result unit OsError * S;
  process_exit_code : S → result (option N) OsError * S
}.

(** The broker's side, apart from the pipes and the traits of [Migration]. *)
Inductive StartupReceiptScope := CurrentUser | LocalMachine.

Class BrokerHost (S : Type) := {
  arm_kill_on_close_job : S → result (result unit string) string * S;
  current_service_package : S → result string PackageFailure * S;
  record_action_failure : SystemServiceAction → option (list ascii) → ActionFailure → S → unit * S;
  disable_startup_scope : StartupReceiptScope → S → result unit string * S;
  restore_startup_scope : StartupReceiptScope → S → result unit string * S;
  query_service : S → SystemServiceStatus * S;
  query_tray : S → LegacyTrayStatus * S;
  registry_conflict_detected : S → bool * S;
  query_legacy_service : S → result bool string * S;
  (** The setup program with a verb and its input: the exit code and what it wrote. *)
  run_child : string → option (list ascii) → S → result (option Z * string * string) string * S
}.

(** ** [broker/process.rs] *)

Inductive BrokerTermination := AlreadyExited | Terminated.

Definition combine_broker_cleanup_error (operation_error : string) (cleanup : result BrokerTermination string) : string :=
  match cleanup with Ok _ => operation_error | Err cleanup_error => operation_error ++ "; " ++ cleanup_error end.

Definition process_state_text (state : result WaitOutcome OsError) : string :=
  match state with
  | Ok TimedOut => "timed out"
  | Ok Signaled => "signaled"
  | Ok Abandoned => "abandoned"
  | Err error => pretty (os_code error)
  end.

Section Launcher.
Context {S : Type} `{BrokerLauncher S}.

Definition terminate_broker_process : M S (result BrokerTermination string) :=
  let! initial := call_of (process_wait 0) in
  let? initial := ret (map_err (λ e, "elevated broker cleanup is unknown: initial process wait failed with "
                                     ++ pretty (os_code e))%string initial) in
  if bool_decide (initial = Signaled) then ret (Ok AlreadyExited)
  else
    let! terminated := call_of (process_terminate 21) in
    match terminated with
    | Err error =>
        let! after_failure := call_of (process_wait 0) in
        ret (match after_failure with
             | Ok Signaled => Ok AlreadyExited
             | state => Err ("elevated broker cleanup is unknown: TerminateProcess failed with " ++ pretty (os_code error)
                             ++ " and the process state is " ++ process_state_text state)%string
             end)
    | Ok _ =>
        let! confirmed := call_of (process_wait (from_millis 5000)) in
        ret (match confirmed with
             | Ok Signaled => Ok Terminated
             | Ok TimedOut => Err "elevated broker cleanup is unknown: termination was not confirmed within 5000 ms"%string
             | Ok Abandoned => Err "elevated broker cleanup is unknown: termination confirmation returned abandoned"%string
             | Err error => Err ("elevated broker cleanup is unknown: termination confirmation failed with "
                                 ++ pretty (os_code error))%string
             end)
    end.

(** ** [broker/elevation.rs] *)

Definition BROKER_TIMEOUT : N := from_secs (5 * 60).
Definition PROFILE_PIPE_TIMEOUT : N := from_secs 60.
Definition PROFILE_PIPE_SDDL : string := "D:P(A;;GA;;;SY)(A;;GA;;;BA)(A;;GA;;;OW)".
Definition PROFILE_PIPE_BUFFER_BYTES : N := 64 * 1024.
Definition ERROR_CANCELLED : Z := 1223.
Definition STILL_ACTIVE : N := 259.

(** [cleanup_failure], with the termination it is given. *)
Definition terminate_and_fail (operation_error : string) : M S (result unit ActionFailure) :=
  let! cleanup := terminate_broker_process in
  ret (Err (internal (combine_broker_cleanup_error operation_error cleanup))).

Definition finished_exit_code : M S (option N) :=
  let! waited := call_of (process_wait 0) in
  match waited with
  | Ok Signaled =>
      let! code := call_of process_exit_code in
      ret (match code with Ok (Some code) => Some code | Ok None => Some STILL_ACTIVE | Err _ => None end)
  | _ => ret None
  end.

Definition broker_channel_failure (exit_code : option N) (channel_error : string) : ActionFailure :=
  let detail := match exit_code with
    | None => "broker result channel failed: " ++ channel_error
    | Some code => "elevated service broker failed with exit code " ++ pretty code
                   ++ "; broker result channel failed: " ++ channel_error
    end%string in
  with_channel_failure channel_error (internal_at "broker-result-channel" detail).

Definition interpret_broker_exit (expected_operation : string) (exit_code : N) (broker_result : option BrokerResultMessage) :
    result unit ActionFailure :=
  match broker_result with
  | None => Err (internal ("elevated service broker failed with exit code " ++ pretty exit_code))
  | Some m =>
      if negb (operation m =? expected_operation)%string then
        Err (internal_at "broker-result-operation" "elevated service broker reported a result for another operation")
      else if (exit_code =? 0)%N then
        if bool_decide (disposition m = DispositionSuccess) then Ok tt
        else Err (internal_at (message_stage m)
               ("elevated service broker reported " ++ message_stage m ++ " after a successful exit: " ++ error_chain m))
      else if bool_decide (disposition m = DispositionSuccess) then
        Err (internal ("elevated service broker failed with exit code " ++ pretty exit_code ++ " after reporting success"))
      else
        let detail := (error_chain m ++ "; elevated service broker exit code " ++ pretty exit_code)%string in
        let outcome := default NotApplicableOrUnavailable (outcome_from_wire (message_rollback m)) in
        let failure := if bool_decide (disposition m = DispositionBlocked)
          then match from_stage_code (message_stage m) None with
               | Some blocker => blocked_with_detail blocker detail
               | None => internal_at (message_stage m) detail
               end
          else internal_at (message_stage m) detail in
        Err (with_rollback outcome failure)
  end.

(** [BrokerResultPipeServer::create] *)
Definition create_result_server : M S (result ProfileTransferToken string) :=
  let! nonce := call_of random_nonce in
  let? nonce := ret (map_err (λ e, "generating the profile transfer nonce failed: " ++ e)%string nonce) in
  let! pid := call_of own_process_id in
  let token := {| token_server_pid := pid; token_nonce := nonce |} in
  let! descriptor := call_of (pipe_descriptor PROFILE_PIPE_SDDL) in
  let? _ := ret (map_err (λ e, "creating the local broker result pipe ACL failed with " ++ pretty (os_code e))%string descriptor) in
  let! created := call_of (pipe_create (result_pipe_name token) Inbound (N.of_nat HEADER_BYTES + MAX_BROKER_RESULT_BYTES)) in
  ret (match created with
       | Ok _ => Ok token
       | Err e => Err ("creating the first broker result pipe instance failed with " ++ pretty (os_code e))%string
       end).

(** [ProfilePipeServer::create_with_nonce]: the token and the frame. *)
Definition create_profile_server `{Sha256} (profile nonce : list ascii) : M S (result (ProfileTransferToken * list ascii) string) :=
  let! pid := call_of own_process_id in
  let token := {| token_server_pid := pid; token_nonce := nonce |} in
  let? frame := ret (encode_profile_transfer_frame profile (token_nonce token)) in
  let! descriptor := call_of (pipe_descriptor PROFILE_PIPE_SDDL) in
  let? _ := ret (map_err (λ e, "creating the local profile pipe ACL failed with " ++ pretty (os_code e))%string descriptor) in
  let! created := call_of (pipe_create (profile_pipe_name token) Outbound (N.min (bytes_len frame) PROFILE_PIPE_BUFFER_BYTES)) in
  ret (match created with
       | Ok _ => Ok (token, frame)
       | Err e => Err ("creating the first profile pipe instance failed with " ++ pretty (os_code e))%string
       end).

(** The command line the broker is launched with. *)
Definition broker_parameters (verb : string) (token : ProfileTransferToken) : string :=
  BROKER_SWITCH ++ " " ++ verb ++ " " ++ BROKER_TRANSFER_SWITCH ++ " " ++ pretty (token_server_pid token)
  ++ " " ++ profile_transfer_nonce_text (token_nonce token).

Definition launch_failure (error : OsError) : ActionFailure :=
  if bool_decide (raw_os_error error = Some ERROR_CANCELLED) then blocked AdministratorApprovalCancelled
  else internal_at "launch-elevated-broker" ("ShellExecuteExW failed with " ++ pretty (os_code error)).

(** Waiting for the end of the broker and its exit code. *)
Definition await_broker : M S (result N ActionFailure) :=
  let! waited := call_of (process_wait BROKER_TIMEOUT) in
  let! ended := match waited with
    | Ok Signaled => ret (Ok tt)
    | Ok TimedOut => terminate_and_fail "elevated service broker timed out"
    | Ok Abandoned => terminate_and_fail "waiting for the elevated service broker returned an abandoned wait"
    | Err error => terminate_and_fail ("waiting for the elevated service broker failed with " ++ pretty (os_code error))
    end in
  match ended with
  | Err failure => ret (Err failure)
  | Ok _ =>
      let! code := call_of process_exit_code in
      ret (match code with
           | Ok (Some code) => Ok code
           | Ok None => Ok STILL_ACTIVE
           | Err _ => Err (internal_at "read-broker-exit-code" "could not read the elevated service broker exit code")
           end)
  end.

Context `{Pipes S} `{Sha256} `{ResultJson}.

(** The result, or the failure of its channel. *)
Definition await_result (token : ProfileTransferToken) (broker_pid : N) : M S (result BrokerResultMessage ActionFailure) :=
  let! received := receive_result_from token broker_pid BROKER_TIMEOUT in
  match received with
  | Ok message => ret (Ok message)
  | Err error =>
      let! finished := finished_exit_code in
      match finished with
      | Some code => ret (Err (broker_channel_failure (Some code) error))
      | None =>
          let! cleanup := terminate_broker_process in
          let failure := broker_channel_failure None error in
          ret (Err (match cleanup with
                    | Ok _ => failure
                    | Err cleanup_error => with_rollback RollbackFailed (append_detail ("; " ++ cleanup_error) failure)
                    end))
      end
  end.

Definition launch_elevated_broker (action : SystemServiceAction) (executable : string) (token : ProfileTransferToken)
    (profile_transfer : option (ProfileTransferToken * list ascii)) : M S (result unit ActionFailure) :=
  if negb (Bool.eqb (bool_decide (is_Some profile_transfer)) (needs_profile_input action)) then
    ret (Err (internal "the elevated broker has invalid profile transfer state"))
  else
    match broker_verb action with
    | None => no_answer
    | Some verb =>
        let! launched := call_of (launch_elevated executable (broker_parameters verb token)) in
        let? _ := ret (map_err launch_failure launched) in
        let! pid := call_of process_pid in
        match pid with
        | Err _ => terminate_and_fail "could not identify the elevated service broker process"
        | Ok broker_pid =>
            let! sent := match profile_transfer with
              | Some (server, frame) => send_profile_to server frame broker_pid PROFILE_PIPE_TIMEOUT
              | None => ret (Ok tt)
              end in
            match sent with
            | Err error => terminate_and_fail error
            | Ok _ =>
                let? broker_result := await_result token broker_pid in
                let? exit_code := await_broker in
                ret (interpret_broker_exit verb exit_code (Some broker_result))
            end
        end
    end.

Definition run_elevated_at (action : SystemServiceAction) (profile_input : option (list ascii)) (executable : string) :
    M S (result unit ActionFailure) :=
  if negb (Bool.eqb (bool_decide (is_Some profile_input)) (needs_profile_input action)) then
    ret (Err (internal "the elevated service action has an invalid profile payload"))
  else
    let! created := create_result_server in
    let? token := ret (map_err (internal_at "create-result-channel") created) in
    match profile_input with
    | None => launch_elevated_broker action executable token None
    | Some profile =>
        let! profile_created := create_profile_server profile (token_nonce token) in
        let? transfer := ret (map_err (internal_at "create-profile-channel") profile_created) in
        launch_elevated_broker action executable token (Some transfer)
    end.

Definition package_failure (failure : PackageFailure) : ActionFailure :=
  installation_preflight (package_kind failure) (package_diagnostics failure) (package_error failure).

Definition run_elevated (action : SystemServiceAction) (profile_input : option (list ascii)) : M S (result unit ActionFailure) :=
  let! package := call_of service_package in
  let? control_center := ret (map_err package_failure package) in
  run_elevated_at action profile_input control_center.
End Launcher.

(** ** [broker/setup.rs] *)

Definition SETUP_ROLLBACK_FAILURE_EXIT_CODE : Z := 3.

Definition setup_failure_message (verb : string) (exit_code : option Z) (stderr stdout : string) : string :=
  let status := match exit_code with Some code => "with exit code " ++ pretty code | None => "without an exit code" end%string in
  let detail := if str_is_empty stderr then stdout else stderr in
  if str_is_empty detail then "setup broker " ++ verb ++ " failed " ++ status ++ " without diagnostic output"
  else "setup broker " ++ verb ++ " failed " ++ status ++ ": " ++ detail.

Definition setup_failure (verb : string) (exit_code : option Z) (stderr stdout : string) : ActionFailure :=
  let failure := internal_at verb (setup_failure_message verb exit_code stderr stdout) in
  if bool_decide (exit_code = Some SETUP_ROLLBACK_FAILURE_EXIT_CODE) then with_rollback RollbackFailed failure else failure.

Definition MAX_SETUP_OUTPUT_BYTES : N := 16 * 1024.

(** [capture_setup_output], the bytes that are kept of what is read in pieces, and
    whether any was not. *)
Fixpoint capture_setup_output (pieces : list (list ascii)) (captured : list ascii) (truncated : bool) : list ascii * bool :=
  match pieces with
  | [] => (captured, truncated)
  | piece :: pieces =>
      let kept := N.min (bytes_len piece) (MAX_SETUP_OUTPUT_BYTES - bytes_len captured) in
      capture_setup_output pieces (captured ++ take (N.to_nat kept) piece) (truncated || (kept <? bytes_len piece)%N)
  end.

Section Setup.
Context {S : Type} `{BrokerHost S}.

Definition run_setup_process (verb : string) (profile : option (list ascii)) (s : S) : result unit ActionFailure * S :=
  let '(ran, s) := run_child verb profile s in
  (match ran with
   | Err error => Err (internal_at verb error)
   | Ok (exit_code, stdout, stderr) =>
       if bool_decide (exit_code = Some 0%Z) then Ok tt else Err (setup_failure verb exit_code stderr stdout)
   end, s).

Definition run_setup_typed (action : SystemServiceAction) (profile : option (list ascii)) (s : S) : result unit ActionFailure * S :=
  match setup_verb action with
  | None => (Err (internal "the requested action is not a setup broker verb"), s)
  | Some verb =>
      if negb (Bool.eqb (bool_decide (is_Some profile)) (bool_decide (action = ServicePublishProfile)))
      then (Err (internal "only publish-profile accepts stdin bytes"), s)
      else run_setup_process verb profile s
  end.

(** With the text of the failure only. *)
Definition run_setup (action : SystemServiceAction) (profile : option (list ascii)) (s : S) : result unit string * S :=
  let '(ran, s) := run_setup_typed action profile s in (map_err user_message ran, s).

Definition run_restore_pinned_runtime (s : S) : result unit string * S :=
  let '(ran, s) := run_setup_process "restore-runtime" None s in (map_err user_message ran, s).

(** [OpenServicePublishBackend], with the default of [service_management_package_state]. *)
#[local] Instance OpenServicePublishBackend : MachineBackend S := {
  new_service_status := query_service;
  service_management_package_state s := (PackageReady, s);
  legacy_tray_status := query_tray;
  appinit_conflict s := let '(conflict, s) := registry_conflict_detected s in (Ok conflict, s);
  legacy_service_blocks_activation := query_legacy_service;
  execute_action action profile := run_setup_typed (service_action_from action) profile
}.

Definition publish_and_activate `{Sha256} (profile : list ascii) : M S (result unit ActionFailure) :=
  let! conflict := call_of registry_conflict_detected in
  if conflict then ret (Err (blocked (AppInitConflict AppInitIntegrationChanges)))
  else
    let! blocks := call_of query_legacy_service in
    match map_err internal blocks with
    | Err e => ret (Err e)
    | Ok true => ret (Err (blocked (LegacyServiceStillInstalled ApplyProfile)))
    | Ok false => publish_profile_transaction_with profile
    end.

Definition designate_and_hold `{Sha256} (profile : list ascii) : M S (result unit ActionFailure) :=
  let! conflict := call_of registry_conflict_detected in
  if conflict then ret (Err (blocked (AppInitConflict AppInitIntegrationChanges)))
  else designate_profile_transaction_with profile.

(** ** [broker.rs] *)

Definition refuse_conflicting_environment_for_activation : M S (result unit ActionFailure) :=
  let! conflict := call_of registry_conflict_detected in
  if conflict then ret (Err (blocked (AppInitConflict AppInitServiceChange)))
  else
    let! tray := call_of query_tray in
    if blocks_machine_change tray then ret (Err (blocked (LegacyTrayModeBlocks TrayServiceChange)))
    else
      let! blocks := call_of query_legacy_service in
      ret (match map_err (internal_at "observe-legacy-service") blocks with
           | Err e => Err e
           | Ok true => Err (blocked (LegacyServiceStillInstalled StartNewService))
           | Ok false => Ok tt
           end).

Context {Snapshot : Type} `{!MigrationBackend S Snapshot} `{Pipes S} `{Sha256} `{ResultJson}.

Definition run_profile_action (action : SystemServiceAction) (profile : list ascii) : M S (result unit ActionFailure) :=
  match action with
  | ServicePublishProfile => publish_and_activate profile
  | ServiceDesignateProfile => designate_and_hold profile
  | ServiceMigrateFromLegacy => migrate_from_legacy (Snapshot := Snapshot) profile
  | ServiceRemoveLegacy => remove_legacy_after_verification (Snapshot := Snapshot) profile
  | _ => ret (Err (internal "the privileged action does not accept profile input"))
  end.

(** The two steps of the job: it is created, and this process is put into it. *)
Definition arm_job : M S (result unit ActionFailure) :=
  let! armed := call_of arm_kill_on_close_job in
  ret (match armed with
       | Err error => Err (internal_at "create-kill-on-close-job" error)
       | Ok (Err error) => Err (internal_at "arm-kill-on-close-job" error)
       | Ok (Ok _) => Ok tt
       end).

(** The action of [run_privileged], between its two ends of the result's pipe. *)
Definition privileged_action (action : SystemServiceAction) (transfer : ProfileTransferToken) : M S (result unit ActionFailure) :=
  let? _ := arm_job in
  let! package := call_of current_service_package in
  match map_err package_failure package with
  | Err failure =>
      let! _ := call_of (record_action_failure action None failure) in
      ret (Err failure)
  | Ok _ =>
      if needs_profile_input action then
        let! received := receive_profile_from_pipe_bounded transfer PROFILE_PIPE_TIMEOUT in
        let? profile := ret (map_err (internal_at "receive-profile") received) in
        run_profile_action action profile
      else
        match action with
        | DisableLegacyTrayAutostart =>
            let! r := call_of (disable_startup_scope LocalMachine) in
            ret (map_err (internal_at "disable-legacy-tray-autostart") r)
        | RestoreLegacyTrayAutostart =>
            let! r := call_of (restore_startup_scope LocalMachine) in
            ret (map_err (internal_at "restore-legacy-tray-autostart") r)
        | ServiceInstall | ServiceStart =>
            let? _ := refuse_conflicting_environment_for_activation in
            call_of (run_setup_typed action None)
        | _ => call_of (run_setup_typed action None)
        end
  end.

Definition result_message (verb : string) (r : result unit ActionFailure) : BrokerResultMessage :=
  match r with Ok _ => message_success verb | Err failure => message_from_failure verb failure end.

(** What [run_privileged] answers of the action and of the report of its result. *)
Definition after_report (r : result unit ActionFailure) (sent : result unit string) : result unit ActionFailure :=
  match r, sent with
  | r, Ok _ => r
  | Ok _, Err channel =>
      Err (with_channel_failure channel (internal_at "report-broker-result"
        ("operation completed but reporting the broker result failed: " ++ channel)))
  | Err failure, Err channel =>
      Err (with_channel_failure channel (append_detail ("; reporting the broker result failed: " ++ channel) failure))
  end.

Definition run_privileged (action : SystemServiceAction) (transfer : ProfileTransferToken) : M S (result unit ActionFailure) :=
  let! connected := connect_result_writer transfer PROFILE_PIPE_TIMEOUT in
  match map_err (internal_at "connect-result-channel") connected with
  | Err failure => ret (Err failure)
  | Ok _ =>
      let! r := privileged_action action transfer in
      match broker_verb action with
      | None => no_answer
      | Some verb =>
          let! sent := send_result transfer (result_message verb r) PROFILE_PIPE_TIMEOUT in
          ret (after_report r sent)
      end
  end.

(** [dispatch_privileged_command] of [mod.rs]: the exit code of the process, if it was
    started as the broker. *)
Definition dispatch_privileged_command (arguments : list OsString) : M S (option N) :=
  match privileged_request_from_arguments arguments with
  | Ok None => ret None
  | Err _ => ret (Some 21%N)
  | Ok (Some request) =>
      let! r := run_privileged (request_action request) (request_transfer request) in
      ret (Some (if is_ok r then 0 else 21)%N)
  end.
End Setup.
