(* ===== verification/BrokerFacts.v ===== *)
(** * The elevated broker reports what it did

    The properties of [Broker]: what the launcher takes for a success, what becomes of the
    process it launched, and how the result of the broker crosses to it. *)

From stdpp Require Import pretty.
From S2P Require Import EventText Manifest MachineActionFacts MigrationFacts.
From S2P Require Export Broker BrokerTransferFacts.

(** ** The launcher, noted *)

Inductive LauncherCall :=
| OnPipe (c : PipeCall)
| FoundPackage (answer : result string PackageFailure)
| SawOwnPid (pid : N)
| DrewNonce (answer : result (list ascii) string)
| DescribedPipe (answer : result unit OsError)
| CreatedPipe (name : string) (answer : result unit OsError)
| Launched (executable parameters : string) (answer : result unit OsError)
| SawPid (answer : result N OsError)
| Waited (timeout : N) (answer : result WaitOutcome OsError)
| TriedTermination (code : N) (answer : result unit OsError)
| SawExitCode (answer : result (option N) OsError).

#[export] Instance Notes_launcher : Notes PipeCall LauncherCall := {
  note_of := OnPipe;
  as_note e := match e with OnPipe c => Some c | _ => None end;
  as_note_of c := eq_refl
}.

#[export] Instance Noted_launcher S `{BrokerLauncher S} : BrokerLauncher (Noted S LauncherCall) := {
  service_package := noted FoundPackage service_package;
  own_process_id := noted SawOwnPid own_process_id;
  random_nonce := noted DrewNonce random_nonce;
  pipe_descriptor sddl := noted DescribedPipe (pipe_descriptor sddl);
  pipe_create name direction buffer := noted (CreatedPipe name) (pipe_create name direction buffer);
  launch_elevated executable parameters := noted (Launched executable parameters) (launch_elevated executable parameters);
  process_pid := noted SawPid process_pid;
  process_wait timeout := noted (Waited timeout) (process_wait timeout);
  process_terminate code := noted (TriedTermination code) (process_terminate code);
  process_exit_code := noted SawExitCode process_exit_code
}.

(** The process was seen to have ended, it was told to, or its state could not be
    queried. *)
Definition accounted (calls : list LauncherCall) : Prop :=
  Exists (λ c, match c with
               | Waited _ (Ok Signaled) | TriedTermination 21 _ | Waited 0 (Err _) => True
               | _ => False
               end) calls.

Lemma accounted_front a b : accounted b → accounted (a ++ b).
Proof. intros Hb. apply Exists_app. by right. Qed.

Lemma accounted_back a b : accounted a → accounted (a ++ b).
Proof. intros Ha. apply Exists_app. by left. Qed.

Lemma accounted_cons c b : accounted b → accounted (c :: b).
Proof. intros Hb. by apply Exists_cons_tl. Qed.

#[local] Hint Resolve accounted_front accounted_back accounted_cons : core.

Section LauncherFacts.
Context {S : Type} `{BrokerLauncher S} `{BoundedReads S} `{Sha256} `{ResultJson}.
Notation T := (Noted S LauncherCall).

Lemma terminate_tells : tells (terminate_broker_process (S := T)) (λ _ calls, accounted calls).
Proof.
  unfold terminate_broker_process. apply tells_then. intros initial. destruct initial as [initial|e]; cbn [map_err].
  2: { apply tells_stop. by apply Exists_cons_hd. }
  apply tells_step. case_bool_decide as Ei; [subst; apply tells_ret; by apply Exists_cons_hd|].
  apply tells_then. intros terminated. destruct terminated.
  - apply tells_then. intros confirmed. apply tells_ret. apply Exists_cons_tl. by apply Exists_cons_hd.
  - apply tells_then. intros after. apply tells_ret. apply Exists_cons_tl. by apply Exists_cons_hd.
Qed.

Lemma terminate_and_fail_tells text :
  tells (terminate_and_fail (S := T) text) (λ r calls, is_err r = true ∧ accounted calls).
Proof.
  unfold terminate_and_fail. eapply tells_bind; [apply terminate_tells|]. intros cleanup calls Hc. apply tells_ret. split; [done|].
  by rewrite app_nil_r.
Qed.

Definition saw_end (code : N) (calls : list LauncherCall) : Prop :=
  Waited BROKER_TIMEOUT (Ok Signaled) ∈ calls ∧ (SawExitCode (Ok (Some code)) ∈ calls ∨ code = STILL_ACTIVE).

Lemma await_broker_tells :
  tells (await_broker (S := T)) (λ r calls, accounted calls ∧
    ∀ code, r = Ok code → received calls = [] ∧ saw_end code calls).
Proof.
  unfold await_broker. apply tells_then. intros waited.
  assert (∀ text, tells (let! ended := terminate_and_fail (S := T) text in
    match ended with Err failure => ret (Err failure) | Ok _ => let! code := call_of process_exit_code in
      ret (match code with Ok (Some code) => Ok code | Ok None => Ok STILL_ACTIVE
           | Err _ => Err (internal_at "read-broker-exit-code" "could not read the elevated service broker exit code") end) end)
    (λ r rest, accounted (Waited BROKER_TIMEOUT waited :: rest) ∧
       ∀ code, r = Ok code → received (Waited BROKER_TIMEOUT waited :: rest) = [] ∧ saw_end code (Waited BROKER_TIMEOUT waited :: rest))) as Hfail.
  { intros text. eapply tells_bind; [apply terminate_and_fail_tells|]. cbv beta. intros [[]|f] calls [Hf Hc]; [done|].
    apply tells_ret. rewrite app_nil_r. split; [by apply accounted_cons|done]. }
  destruct waited as [[]|e]; [|apply Hfail..].
  apply tells_then. intros code. apply tells_ret. split; [by apply Exists_cons_hd|].
  destruct code as [[code|]|e]; [intros c [= <-]|intros c [= <-]|done]; (split; [done|]); split; try (by left).
  - left. right. left.
  - by right.
Qed.

Lemma receive_result_tells token pid timeout :
  tells (receive_result_from (S := T) token pid timeout) (λ r calls, ∀ message, r = Ok message →
    OnPipe (SawClient (result_pipe_name token) (Ok pid)) ∈ calls ∧
    decode_broker_result_frame (received calls) (token_nonce token) = Ok message).
Proof.
  unfold receive_result_from. destruct (_ || _); [by apply tells_ret|].
  apply tells_then. intros [[]|e]; cbn [map_err]; [apply tells_step|by apply tells_stop].
  apply tells_then. intros [client|e]; cbn [map_err]; [apply tells_step|by apply tells_stop].
  destruct (N.eqb_spec client pid) as [->|]; [|by apply tells_ret]. cbn [negb].
  eapply tells_try; [apply receive_tells|cbv beta|by intros e new _].
  intros payload new Hnew. apply tells_ret. intros message Hm. split; [right; left|].
  rewrite app_nil_r. change (OnPipe ?a :: OnPipe ?b :: new) with (note_of a :: note_of b :: new). rewrite !received_note.
  unfold decode_broker_result_frame. cbn [app]. by rewrite (Hnew payload).
Qed.

Lemma finished_tells : tells (finished_exit_code (S := T)) (λ r calls, is_Some r → accounted calls).
Proof.
  unfold finished_exit_code. apply tells_then. intros [[]|e]; try (apply tells_ret; by intros [? ?]).
  apply tells_then. intros code. apply tells_ret. intros _. by apply Exists_cons_hd.
Qed.

Lemma await_result_tells token pid :
  tells (await_result (S := T) token pid) (λ r calls,
    match r with
    | Ok message => OnPipe (SawClient (result_pipe_name token) (Ok pid)) ∈ calls ∧
        decode_broker_result_frame (received calls) (token_nonce token) = Ok message
    | Err _ => accounted calls
    end).
Proof.
  unfold await_result. eapply tells_bind; [apply receive_result_tells|]. cbv beta. intros [message|e] calls Hc.
  { apply tells_ret. rewrite app_nil_r. by apply Hc. }
  eapply tells_bind; [apply finished_tells|]. cbv beta. intros [code|] more Hm; [apply tells_ret; eauto|].
  eapply tells_bind; [apply terminate_tells|]. cbv beta. intros cleanup rest Hr. apply tells_ret. eauto 6.
Qed.

(** *** A launch as a whole *)

(** The profile was written to the process [pid], as the frame of this nonce. *)
Definition profile_sent (nonce : list ascii) (pid : N) (profile : list ascii) (calls : list LauncherCall) : Prop :=
  ∃ server frame, token_nonce server = nonce ∧ encode_profile_transfer_frame profile nonce = Ok frame ∧
    OnPipe (SawClient (profile_pipe_name server) (Ok pid)) ∈ calls ∧
    OnPipe (WrotePipe (profile_pipe_name server) frame (Ok tt)) ∈ calls.

(** What stands behind a success of the request [token]: the broker was launched with it,
    it took the profile, it sent a success of this action, and it ended with the code 0. *)
Definition confirmed (verb executable : string) (token : ProfileTransferToken) (profile : option (list ascii))
    (calls : list LauncherCall) : Prop :=
  ∃ pid message,
    Launched executable (broker_parameters verb token) (Ok tt) ∈ calls ∧ SawPid (Ok pid) ∈ calls ∧
    (∀ bytes, profile = Some bytes → profile_sent (token_nonce token) pid bytes calls) ∧
    OnPipe (SawClient (result_pipe_name token) (Ok pid)) ∈ calls ∧
    decode_broker_result_frame (received calls) (token_nonce token) = Ok message ∧
    operation message = verb ∧ disposition message = DispositionSuccess ∧
    saw_end 0 calls.

(** A broker that was launched is accounted for. *)
Definition launches_accounted (calls : list LauncherCall) : Prop :=
  Exists (λ c, match c with Launched _ _ (Ok _) => True | _ => False end) calls → accounted calls.

Lemma interpreted_ok verb code result :
  interpret_broker_exit verb code result = Ok tt →
  ∃ message, result = Some message ∧ operation message = verb ∧ code = 0%N ∧ disposition message = DispositionSuccess.
Proof.
  unfold interpret_broker_exit. destruct result as [m|]; [|done].
  destruct (String.eqb_spec (operation m) verb) as [Hop|]; [|done]. cbn [negb].
  destruct (N.eqb_spec code 0) as [->|]; (case_bool_decide; [|done]); [|done]. intros _. by exists m.
Qed.

Lemma send_profile_tells server frame pid timeout :
  tells (send_profile_to (S := T) server frame pid timeout) (λ r calls, r = Ok tt → received calls = [] ∧
    OnPipe (SawClient (profile_pipe_name server) (Ok pid)) ∈ calls ∧
    OnPipe (WrotePipe (profile_pipe_name server) frame (Ok tt)) ∈ calls).
Proof.
  unfold send_profile_to. destruct (_ || _); [by apply tells_ret|].
  apply tells_then. intros [[]|e]; cbn [map_err]; [apply tells_step|by apply tells_stop].
  apply tells_then. intros [client|e]; cbn [map_err]; [apply tells_step|by apply tells_stop].
  destruct (N.eqb_spec client pid) as [->|]; [|by apply tells_ret]. cbn [negb].
  apply tells_then. intros [[]|e]; apply tells_ret; [intros _|done]. split; [done|].
  split; [right; left|right; right; left].
Qed.

(** What the calls of a launch amount to. *)
Definition launch_outcome (verb executable : string) (token : ProfileTransferToken) (profile : option (list ascii))
    (r : result unit ActionFailure) (calls : list LauncherCall) : Prop :=
  launches_accounted calls ∧
  (r = Ok tt → confirmed verb executable token profile calls).

Lemma outcome_failed verb executable token profile f calls :
  accounted calls → launch_outcome verb executable token profile (Err f) calls.
Proof. intros Hc. split; [by intros _|done]. Qed.

Lemma launch_tells action verb executable token profile transfer :
  broker_verb action = Some verb → is_Some transfer ↔ is_Some profile →
  (∀ server frame bytes, transfer = Some (server, frame) → profile = Some bytes →
     token_nonce server = token_nonce token ∧ encode_profile_transfer_frame bytes (token_nonce token) = Ok frame) →
  tells (launch_elevated_broker (S := T) action executable token transfer) (launch_outcome verb executable token profile).
Proof.
  intros Hverb Hsome Hmade. unfold launch_elevated_broker. rewrite Hverb. destruct (negb _).
  { apply tells_ret. split; [by intros Hl%Exists_nil|done]. }
  apply tells_then. intros [[]|e]; cbn [map_err]; [apply tells_step|apply tells_stop].
  2: { split; [by intros [Hl|Hl%Exists_nil]%Exists_cons|done]. }
  apply tells_then. intros [pid|e].
  2: { eapply tells_mono; [apply terminate_and_fail_tells|]. cbv beta. intros [[]|f] calls [Hf Hc]; [done|].
       apply outcome_failed. eauto. }
  eapply (tells_bind _ _ (λ sent calls, sent = Ok tt → received calls = [] ∧
    ∀ bytes, profile = Some bytes → profile_sent (token_nonce token) pid bytes calls)).
  { destruct transfer as [[server frame]|].
    - eapply tells_mono; [apply send_profile_tells|]. cbv beta. intros sent calls Hsent Hok.
      destruct (Hsent Hok) as (Hread & Hclient & Hwrote). split; [done|]. intros bytes Hbytes.
      destruct (Hmade server frame bytes eq_refl Hbytes) as [Hnonce Hframe]. by exists server, frame.
    - apply tells_ret. intros _. split; [done|]. intros bytes ->. destruct (proj2 Hsome) as [? ?]; done. }
  intros [[]|e] sent Hsent.
  2: { eapply tells_mono; [apply terminate_and_fail_tells|]. cbv beta. intros [[]|f] calls [Hf Hc]; [done|].
       apply outcome_failed. eauto. }
  destruct (Hsent eq_refl) as [Hquiet Hprofile].
  eapply tells_try; [apply await_result_tells|cbv beta|].
  2: { intros f calls Hc. apply outcome_failed. cbv beta in Hc. eauto. }
  intros message result [Hclient Hdecode].
  eapply tells_try; [apply await_broker_tells|cbv beta|].
  2: { intros f calls [Hc _]. apply outcome_failed. eauto 6. }
  intros code ended [Hended Hcode]. destruct (Hcode code eq_refl) as [Hsilent [Hwait Hexit]]. apply tells_ret. split.
  { intros _. eauto 6 using accounted_back. }
  intros (m & [= <-] & Hop & -> & Hdisp)%interpreted_ok. exists pid, message. rewrite app_nil_r.
  split; [left|]. split; [right; left|]. split.
  { intros bytes Hbytes. destruct (Hprofile bytes Hbytes) as (server & frame & ? & ? & ? & ?). exists server, frame.
    do 2 (split; [done|]). split; do 2 right; apply elem_of_app; by left. }
  split; [do 2 right; apply elem_of_app; right; apply elem_of_app; by left|]. split.
  { rewrite <- Hdecode. f_equal. unfold received at 1. cbn [map concat received_chunk as_note Notes_launcher app].
    fold (received (sent ++ result ++ ended)). by rewrite !received_app, Hquiet, Hsilent, app_nil_r. }
  do 2 (split; [done|]). split; [do 2 right; apply elem_of_app; right; apply elem_of_app; by right|].
  destruct Hexit as [Hexit|]; [left|done]. do 2 right. apply elem_of_app; right; apply elem_of_app; by right.
Qed.

(** What comes before the launch neither reads nor launches. *)
Definition prepares (c : LauncherCall) : bool :=
  match c with OnPipe _ | Launched _ _ _ => false | _ => true end.

Lemma outcome_behind verb executable token profile r before calls :
  forallb prepares before = true → launch_outcome verb executable token profile r calls →
  launch_outcome verb executable token profile r (before ++ calls).
Proof.
  intros Hbefore. induction before as [|c before IH]; [done|]. cbn [forallb app] in *. andb_split.
  intros [Hacc Hok]%IH; [|done]. split.
  - intros [Hc|Hc]%Exists_cons; [by destruct c|]. by apply accounted_cons, Hacc.
  - intros Hr. destruct (Hok Hr) as (pid & message & ? & ? & Hprofile & ? & Hdecode & ? & ? & Hwait & Hexit). exists pid, message.
    split; [by right|]. split; [by right|]. split.
    { intros bytes Hbytes. destruct (Hprofile bytes Hbytes) as (server & frame & ? & ? & ? & ?). exists server, frame.
      do 2 (split; [done|]). split; by right. }
    split; [by right|]. split; [by destruct c|]. do 2 (split; [done|]). split; [by right|].
    destruct Hexit; [left; by right|by right].
Qed.

Lemma create_result_tells :
  tells (create_result_server (S := T)) (λ _ calls, forallb prepares calls = true).
Proof.
  unfold create_result_server. apply tells_then. intros [nonce|e]; cbn [map_err]; [apply tells_step|by apply tells_stop].
  apply tells_then. intros pid. apply tells_then. intros [[]|e]; cbn [map_err]; [apply tells_step|by apply tells_stop].
  apply tells_then. intros created. by apply tells_ret.
Qed.

Lemma create_profile_tells profile nonce :
  tells (create_profile_server (S := T) profile nonce) (λ r calls, forallb prepares calls = true ∧
    ∀ server frame, r = Ok (server, frame) → token_nonce server = nonce ∧ encode_profile_transfer_frame profile nonce = Ok frame).
Proof.
  unfold create_profile_server. apply tells_then. intros pid. cbn [token_nonce].
  destruct (encode_profile_transfer_frame profile nonce) as [frame|e]; [apply tells_step|by apply tells_stop].
  apply tells_then. intros [[]|e]; cbn [map_err]; [apply tells_step|by apply tells_stop].
  apply tells_then. intros [[]|e]; apply tells_ret; (split; [done|]); [by intros ? ? [= <- <-]|done].
Qed.

Lemma run_elevated_tells action verb executable profile :
  broker_verb action = Some verb →
  tells (run_elevated_at (S := T) action profile executable) (λ r calls, launches_accounted calls ∧
    (bool_decide (is_Some profile) ≠ needs_profile_input action → is_err r = true ∧ calls = []) ∧
    (r = Ok tt → ∃ token, confirmed verb executable token profile calls)).
Proof.
  intros Hverb. unfold run_elevated_at. destruct (Bool.eqb_spec (bool_decide (is_Some profile)) (needs_profile_input action)) as [Hfits|Hfits];
    cbn [negb].
  2: { apply tells_ret. split; [by intros Hl%Exists_nil|done]. }
  assert (∀ r token calls, launch_outcome verb executable token profile r calls → launches_accounted calls ∧
    (bool_decide (is_Some profile) ≠ needs_profile_input action → is_err r = true ∧ calls = []) ∧
    (r = Ok tt → ∃ token, confirmed verb executable token profile calls)) as Hdone.
  { intros r token calls [Hacc Hok]. split; [done|]. split; [done|]. intros Hr. exists token. by apply Hok. }
  eapply tells_bind; [apply create_result_tells|]. cbv beta. intros [token|e] before Hbefore; cbn [map_err].
  2: { apply tells_stop. apply (Hdone _ {| token_server_pid := 0; token_nonce := [] |}).
       apply outcome_behind; [done|]. split; [by intros Hl%Exists_nil|done]. }
  apply tells_step. destruct profile as [bytes|].
  - eapply tells_bind; [apply create_profile_tells|]. cbv beta. intros [[server frame]|e] made [Hmade Hframe]; cbn [map_err].
    + apply tells_step. eapply tells_mono.
      * apply (launch_tells action verb executable token (Some bytes) (Some (server, frame)) Hverb); [done|].
        intros ? ? ? [= <- <-] [= <-]. by apply Hframe.
      * cbv beta. intros r calls Hr. by apply (Hdone _ token), outcome_behind, outcome_behind.
    + apply tells_stop. apply (Hdone _ token), outcome_behind; [done|]. apply outcome_behind; [done|].
      split; [by intros Hl%Exists_nil|done].
  - eapply tells_mono.
    + apply (launch_tells action verb executable token None None Hverb); done.
    + cbv beta. intros r calls Hr. by apply (Hdone _ token), outcome_behind.
Qed.
End LauncherFacts.

(** ** The result *)

Definition without_diagnostics (b : ActionBlocker) : ActionBlocker :=
  match b with InstallationPreflight kind _ => InstallationPreflight kind unavailable_preflight | b => b end.

(** The failure that the launcher makes of a failure of the broker. *)
Definition crossed (verb : string) (f : ActionFailure) : ActionFailure :=
  let detail := (bounded_message_text (detail f) MAX_ERROR_CHAIN_BYTES ++ "; elevated service broker exit code 21")%string in
  match kind f with
  | Blocked b => {| kind := Blocked (without_diagnostics b); stage := None; detail := detail; rollback := rollback f; channel_failure := None |}
  | Internal => {| kind := Internal; stage := Some (bounded_message_text (default verb (stage f)) MAX_STAGE_BYTES); detail := detail;
                   rollback := rollback f; channel_failure := None |}
  end.

Definition exit_code_of (r : result unit ActionFailure) : N := if is_ok r then 0 else 21.

Lemma stage_code_is_short b : bounded_message_text (stage_code b) MAX_STAGE_BYTES = stage_code b.
Proof. by destruct b as [|[]| |[]|[]| |[] ?]. Qed.

Lemma stage_code_is_read b : from_stage_code (stage_code b) None = Some (without_diagnostics b).
Proof. by destruct b as [|[]| |[]|[]| |[] ?]. Qed.

Lemma result_is_read_back action verb r :
  broker_verb action = Some verb →
  interpret_broker_exit verb (exit_code_of r) (Some (result_message verb r)) = map_err (crossed verb) r.
Proof.
  intros Hverb. assert (bounded_message_text verb MAX_OPERATION_BYTES = verb) as Hshort by (by destruct action; injection Hverb as <-).
  unfold interpret_broker_exit. assert (operation (result_message verb r) = verb) as ->.
  { destruct r as [[]|f]; [done|]. cbn. unfold message_from_failure. by destruct (kind f). }
  rewrite String.eqb_refl. cbn [negb]. destruct r as [[]|f]; [done|].
  cbn [exit_code_of is_ok N.eqb result_message map_err]. unfold message_from_failure, crossed.
  destruct (kind f) as [b|] eqn:Ek; cbn [disposition message_stage error_chain message_rollback];
    rewrite (proj2 (codes_are_read_back AdministratorApprovalCancelled (rollback f))).
  - rewrite bool_decide_eq_false_2 by done. rewrite bool_decide_eq_true_2 by done. by rewrite stage_code_is_short, stage_code_is_read.
  - by rewrite !bool_decide_eq_false_2.
Qed.

(** ** The broker answers *)

Section Answers.
Context {S : Type} `{Sha256}.

Lemma observe_published_answers `{MachineBackend S} digest attempts last :
  attempts ≠ 0 ∨ last ≠ None → answers (observe_published (S := S) digest attempts last).
Proof.
  revert last. induction attempts as [|attempts IH]; intros last Hsome; cbn [observe_published].
  { destruct last; [answer|by destruct Hsome]. }
  apply answers_bind; [answer|]. intros status. case_match; [answer|]. apply IH. by right.
Qed.

Lemma attempt_all_answers `{MachineBackend S} steps failures : answers (attempt_all (S := S) steps failures).
Proof.
  revert failures. induction steps as [|[label action] steps IH]; intros failures; cbn [attempt_all]; [answer|].
  unfold attempt. apply answers_bind; [answer|apply IH].
Qed.

Lemma execute_all_answers `{MachineBackend S} actions : answers (execute_all (S := S) actions).
Proof. induction actions as [|a actions IH]; cbn [execute_all]; answer. Qed.

#[local] Hint Resolve attempt_all_answers execute_all_answers : answers.

Lemma or_undo_answers `{MachineBackend S} before changed (m : M S (result unit ActionFailure)) :
  answers m → answers (or_undo before changed m).
Proof. intros Hm. unfold or_undo, rollback_published_profile. answer. Qed.

Lemma publish_answers `{MachineBackend S} profile : answers (publish_profile_transaction_with (S := S) profile).
Proof.
  unfold publish_profile_transaction_with. case_match; [answer|]. apply answers_bind; [answer|]. intros before.
  destruct (unsafe_status before) eqn:Eu; [answer|]. cbv zeta. apply answers_bind; [answer|]. intros stopped.
  destruct stopped; [|answer]. apply answers_bind; [answer|]. intros published. destruct published; [|answer].
  destruct (activation_actions (installation before)) eqn:Ea.
  - apply answers_bind; [apply or_undo_answers, execute_all_answers|]. intros activated. destruct activated; [|answer].
    apply or_undo_answers. unfold wait_for_published_profile_with. cbn [READY_ATTEMPTS Nat.eqb].
    apply observe_published_answers. by left.
  - exfalso. unfold unsafe_status in Eu. destruct (installation before); cbn in Ea, Eu; try done; by rewrite orb_true_r in Eu.
Qed.

Lemma designate_answers `{MachineBackend S} profile : answers (designate_profile_transaction_with (S := S) profile).
Proof.
  unfold designate_profile_transaction_with, designation_status_with. pose proof publish_answers. answer.
Qed.

Lemma migrate_answers {Snapshot} `{!MigrationBackend S Snapshot} profile :
  answers (migrate_from_legacy (S := S) (Snapshot := Snapshot) profile).
Proof.
  assert (∀ snapshot name (m : M S (result unit string)), answers m → answers (or_roll_back (Snapshot := Snapshot) snapshot name m)) as Hroll.
  { intros snapshot name m Hm. unfold or_roll_back, rollback_migration_failure. answer. }
  unfold migrate_from_legacy, must_hold. answer.
Qed.

Lemma remove_answers {Snapshot} `{!MigrationBackend S Snapshot} profile :
  answers (remove_legacy_after_verification (S := S) (Snapshot := Snapshot) profile).
Proof. unfold remove_legacy_after_verification. answer. Qed.

Lemma receive_frame_answers `{BoundedReads S} f name nonce fuel frame expected :
  (bound f < bytes_len frame + N.of_nat fuel)%N → (bytes_len frame <= default (bound f) expected)%N →
  match expected with Some t => (t <= bound f)%N | None => True end →
  answers (receive_frame (S := S) fuel f name nonce frame expected).
Proof.
  revert frame expected. induction fuel as [|fuel IH]; intros frame expected Hfuel Hlen Hexp; cbn [receive_frame].
  { exfalso. destruct expected as [t|]; cbn in *; lia. }
  fold (bound f). assert (default (bound f) expected <= bound f)%N as Hdefault by (by destruct expected).
  destruct (N.eqb_spec (default (bound f) expected - bytes_len frame) 0) as [|Hleft]; [answer|].
  apply answers_then_from. intros s. destruct (fst (pipe_read _ _ s)) as [chunk|e] eqn:Eread; cbn [map_err]; [|answer].
  pose proof (reads_are_bounded _ _ _ _ Eread) as Hchunk.
  destruct (N.ltb_spec (N.min (default (bound f) expected - bytes_len frame) (read_limit f)) (bytes_len chunk)) as [|_]; [lia|].
  destruct (N.eqb_spec (bytes_len chunk) 0) as [|Hpos]; [answer|].
  assert (bytes_len (frame ++ chunk) = bytes_len frame + bytes_len chunk)%N as Hgrow.
  { unfold bytes_len. rewrite length_app. lia. }
  destruct (expect_total f (frame ++ chunk) expected) as [total|e] eqn:Etotal; [|answer].
  pose proof (expect_total_bound f _ _ _ Hexp Etotal) as Htotal.
  destruct (match total with Some _ => _ | None => _ end) eqn:Etrail; [answer|]. case_bool_decide; [answer|].
  apply IH; [lia| |done]. destruct total as [t|]; cbn [default]; [by apply N.ltb_ge in Etrail|lia].
Qed.

Lemma receive_profile_answers `{BoundedReads S} token timeout :
  answers (receive_profile_from_pipe_bounded (S := S) token timeout).
Proof.
  assert (answers (receive_frame (S := S) (receive_fuel profile_format) profile_format (profile_pipe_name token) (token_nonce token) [] None)).
  { apply receive_frame_answers; [|apply N.le_0_l|done]. unfold receive_fuel, bound. rewrite N2Nat.id. lia. }
  unfold receive_profile_from_pipe_bounded. answer.
Qed.

Lemma privileged_action_answers {Snapshot} `{BrokerHost S, !MigrationBackend S Snapshot, BoundedReads S, ResultJson} action transfer :
  answers (privileged_action (S := S) (Snapshot := Snapshot) action transfer).
Proof.
  unfold privileged_action, run_profile_action, arm_job, publish_and_activate, designate_and_hold, refuse_conflicting_environment_for_activation.
  pose proof receive_profile_answers. pose proof @publish_answers. pose proof @designate_answers.
  pose proof (migrate_answers (Snapshot := Snapshot)). pose proof (remove_answers (Snapshot := Snapshot)).
  answer.
Qed.
End Answers.

(** The request that the command line carries: its words are those of [request_words]. *)
Lemma parameters_are_words verb token : broker_parameters verb token = String.concat " " (request_words verb token).
Proof. reflexivity. Qed.

(** ** Properties *)

(** C25. A success of an elevated action is confirmed: against any machine, a launch ends with
    an answer.  It answers success only when the broker was launched with the request of
    this action, whose words are read back as that action and that channel, took the
    profile from the process it was told of, sent the success of this very action with the
    nonce of this request from the process that was launched, and was seen to end with
    the code 0.  A broker that was launched is never left behind unnoticed: it was seen to
    have ended, it was told to, or its state could not be queried.  And an action whose
    profile does not fit it launches nothing. *)
Theorem elevated_success_is_confirmed {S} `{BrokerLauncher S, BoundedReads S, Sha256, ResultJson} action profile executable (s : S) :
  ∃ verb r t, broker_verb action = Some verb ∧
    run_elevated_at (S := Noted S LauncherCall) action profile executable (mk_noted s []) = Some (r, t) ∧
    launches_accounted (notes t) ∧
    (bool_decide (is_Some profile) ≠ needs_profile_input action → is_err r = true ∧ notes t = []) ∧
    (r = Ok tt → ∃ token, confirmed verb executable token profile (notes t) ∧
       broker_parameters verb token = String.concat " " (request_words verb token) ∧
       (valid_token token → ∀ program,
          privileged_request_from_arguments (program :: map Unicode (request_words verb token))
          = Ok (Some {| request_action := action; request_transfer := token |}))).
Proof.
  destruct (action_has_a_verb action) as [verb Hverb]. exists verb.
  destruct (tells_run _ _ s (run_elevated_tells action verb executable profile Hverb)) as (r & t & E & Hacc & Hfits & Hok).
  exists r, t. do 4 (split; [done|]). intros Hr. destruct (Hok Hr) as [token Htoken]. exists token. do 2 (split; [done|]).
  intros Hvalid program. apply request_is_read_back. split; [done|]. by exists program, verb.
Qed.

(** The broker reports what it did: on any machine it ends with an answer.  Unless it
    cannot connect to its launcher, it performs the action and sends the result; it ends
    with a success only when the action succeeded and the result was sent.  What the
    launcher makes of the frame and of the exit code is the result of the action: a
    success of a success, and of a failure the same blocker, the same outcome of the
    rollback and the same text, cut to its bound. *)
Theorem broker_reports_what_it_did {S Snapshot} `{BrokerHost S, !MigrationBackend S Snapshot, BoundedReads S, Sha256, ResultJson}
    action transfer (s : S) :
  ∃ verb r' s', broker_verb action = Some verb ∧
    run_privileged (S := S) (Snapshot := Snapshot) action transfer s = Some (r', s') ∧
    ((∃ e, r' = Err (internal_at "connect-result-channel" e)) ∨
     ∃ r s1 s2, privileged_action (S := S) (Snapshot := Snapshot) action transfer s1 = Some (r, s2) ∧
       match encode_broker_result_frame (result_message verb r) (token_nonce transfer) with
       | Err e => r' = after_report r (Err e)
       | Ok frame =>
           match fst (pipe_write_all (result_pipe_name transfer) frame s2) with Ok _ => r' = r | Err _ => is_err r' = true end ∧
           (length (token_nonce transfer) = PROFILE_TRANSFER_NONCE_BYTES → ∃ message,
              decode_broker_result_frame frame (token_nonce transfer) = Ok message ∧
              interpret_broker_exit verb (exit_code_of r) (Some message) = map_err (crossed verb) r)
       end).
Proof.
  destruct (action_has_a_verb action) as [verb Hverb]. exists verb. unfold run_privileged. rewrite Hverb.
  assert (answers (connect_result_writer (S := S) transfer PROFILE_PIPE_TIMEOUT)) as Hconnect.
  { unfold connect_result_writer. answer. }
  destruct (Hconnect s) as (connected & s1 & E). unfold bind at 1. rewrite E.
  destruct connected as [[]|e]; cbn [map_err]; [|eexists _, _; split; [done|]; split; [reflexivity|]; left; by eexists].
  destruct (privileged_action_answers (Snapshot := Snapshot) action transfer s1) as (r & s2 & Er). unfold bind at 1. rewrite Er.
  unfold send_result. change (PROFILE_PIPE_TIMEOUT =? 0)%N with false. cbv iota.
  destruct (encode_broker_result_frame (result_message verb r) (token_nonce transfer)) as [frame|e] eqn:Eframe.
  - unfold bind, ret, call_of. destruct (pipe_write_all (result_pipe_name transfer) frame s2) as [written s3] eqn:Ew. cbv beta iota. eexists _, _. split; [done|].
    split; [reflexivity|]. right. exists r, s1, s2. split; [done|]. rewrite Eframe, Ew. cbn [fst]. split.
    + destruct written; destruct r; done.
    + intros Hnonce. exists (result_message verb r). split; [|by apply (result_is_read_back action)].
      unfold encode_broker_result_frame in Eframe. apply result_bind_Ok in Eframe as (payload & Epayload & Eframe).
      unfold decode_broker_result_frame. rewrite (proj2 (frames_are_exact result_format result_format_ok _ _ payload Hnonce) Eframe).
      cbn [result_bind]. by apply message_is_read_back.
  - eexists _, _. split; [done|]. split; [reflexivity|]. right. exists r, s1, s2. split; [done|]. by rewrite Eframe.
Qed.

(** ** Examples *)

(** A codec of the message: the bits of the number stdpp counts it by. *)
Fixpoint positive_bytes (p : positive) : list ascii :=
  match p with xH => [] | xO p => "0"%char :: positive_bytes p | xI p => "1"%char :: positive_bytes p end.

Fixpoint bytes_positive (l : list ascii) : positive :=
  match l with [] => xH | b :: l => if (b =? "1")%char then xI (bytes_positive l) else xO (bytes_positive l) end.

Lemma bytes_of_positive p : bytes_positive (positive_bytes p) = p.
Proof. induction p as [p IH|p IH|]; cbn; [by rewrite IH..|done]. Qed.

Definition message_fields (m : BrokerResultMessage) : list string :=
  [operation m; match disposition m with DispositionSuccess => "success" | DispositionBlocked => "blocked" | DispositionFailure => "failure" end;
   message_stage m; error_chain m; message_rollback m; final_state m].

Definition fields_message (fields : list string) : option BrokerResultMessage :=
  match fields with
  | [operation; disposition; stage; chain; rollback; final] =>
      Some {| operation := operation;
              disposition := if (disposition =? "success")%string then DispositionSuccess
                             else if (disposition =? "blocked")%string then DispositionBlocked else DispositionFailure;
              message_stage := stage; error_chain := chain; message_rollback := rollback; final_state := final |}
  | _ => None
  end.

#[export, refine] Instance example_json : ResultJson := {
  message_to_vec m := Ok (positive_bytes (encode (message_fields m)));
  message_from_slice bytes := ok_or (decode (bytes_positive bytes) ≫= fields_message) "not a message"%string
}.
Proof. intros m bytes <-%(inj Ok). rewrite bytes_of_positive, decode_encode. by destruct m as [? [] ? ? ? ?]. Defined.

#[export] Instance Feed_reads : BoundedReads Feed.
Proof.
  intros name asked s chunk [= <-]. unfold bytes_len. rewrite length_take. unfold feed_piece. destruct (feed_sizes s); lia.
Qed.

(** A process that ends with the code 0. *)
#[export] Instance example_launcher : BrokerLauncher Feed := {
  service_package s := (Ok "MacType Control Center.exe"%string, s);
  own_process_id s := (feed_server s, s);
  random_nonce s := (Ok (repeat "a"%char 16), s);
  pipe_descriptor _ s := (Ok tt, s);
  pipe_create _ _ _ s := (Ok tt, s);
  launch_elevated _ _ s := (Ok tt, s);
  process_pid s := (Ok (feed_client s), s);
  process_wait _ s := (Ok Signaled, s);
  process_terminate _ s := (Ok tt, s);
  process_exit_code s := (Ok (Some 0%N), s)
}.

(** The broker has written that it stopped the service, and the pipe delivers ten bytes at
    first. *)
Definition example_feed : Feed := {|
  feed_bytes := match encode_broker_result_frame (message_success "stop") (repeat "a"%char 16) with Ok frame => frame | Err _ => [] end;
  feed_sizes := [9%N]; feed_server := 4711; feed_client := 815 |}.

Example example_launch :
  option_map fst (run_elevated_at (S := Feed) ServiceStop None "MacType Control Center.exe" example_feed) = Some (Ok tt).
Proof. vm_compute. reflexivity. Qed.

Lemma elevated_success_is_confirmed_witness :
  ∃ verb r t, broker_verb ServiceStop = Some verb ∧
    run_elevated_at (S := Noted Feed LauncherCall) ServiceStop None "MacType Control Center.exe" (mk_noted example_feed []) = Some (r, t) ∧
    launches_accounted (notes t).
Proof.
  destruct (elevated_success_is_confirmed ServiceStop None "MacType Control Center.exe" example_feed)
    as (verb & r & t & Hverb & Hrun & Hacc & _).
  exists verb, r, t. exact (conj Hverb (conj Hrun Hacc)).
Defined.

Definition example_status : SystemServiceStatus :=
  {| backend := OpenSource; installation := Current; runtime := Running; service_health := Ready; binary_path := None;
     win32_error := None; active_digest := None; configuration_drift := false; can_install := false; can_remove := true;
     can_start := false; can_stop := true; can_repair := true; can_upgrade := false |}.

(** A machine on which every step succeeds. *)
#[export] Instance example_host : BrokerHost Feed := {
  arm_kill_on_close_job s := (Ok (Ok tt), s);
  current_service_package s := (Ok "mactype-service-setup.exe"%string, s);
  record_action_failure _ _ _ s := (tt, s);
  disable_startup_scope _ s := (Ok tt, s);
  restore_startup_scope _ s := (Ok tt, s);
  query_service s := (example_status, s);
  query_tray s := (from_states TrayAbsent StartupAbsent, s);
  registry_conflict_detected s := (false, s);
  query_legacy_service s := (Ok false, s);
  run_child _ _ s := (Ok (Some 0%Z, ""%string, ""%string), s)
}.

#[export] Instance example_migration : MigrationBackend Feed unit := {
  prepare_legacy_backup s := (Ok tt, s);
  legacy_backup_is_valid s := (true, s);
  capture_open_service s := (Ok tt, s);
  stop_legacy s := (Ok tt, s);
  publish_profile _ _ s := (Ok tt, s);
  activate_open_service _ s := (Ok tt, s);
  strict_ready _ s := (Ok true, s);
  verify_injection_smoke _ s := (Ok true, s);
  complete_migration _ s := (Ok tt, s);
  rollback_open_service _ s := (Ok tt, s);
  restore_legacy s := (Ok tt, s);
  removal_verification _ s := (Ok {| scm_running_ready := true; active_digest_match := true; telemetry_verified := true |}, s);
  remove_legacy s := (Ok tt, s)
}.

Lemma broker_reports_what_it_did_witness :
  ∃ verb r' s', broker_verb ServiceStop = Some verb ∧
    run_privileged (S := Feed) (Snapshot := unit) ServiceStop example_token example_feed = Some (r', s').
Proof.
  destruct (broker_reports_what_it_did (S := Feed) (Snapshot := unit) ServiceStop example_token example_feed)
    as (verb & r' & s' & Hverb & Hrun & _).
  exists verb, r', s'. exact (conj Hverb Hrun).
Defined.
