(* ===== verification/LegacyService.v ===== *)
(** * The older service

    [control-center/src-tauri/src/machine_integration/legacy_mactray/]: [model.rs],
    [ownership.rs], [restore_contract.rs] and, of [windows/], [common.rs], [control.rs],
    [snapshot.rs] and [restore.rs].  What the control center knows of the service of an
    older MacType, how it tells that the service is one, and the operations by which a
    migration stops, removes and restores it. *)

From stdpp Require Import pretty.
From S2P Require Export ScmConfiguration ProfileStore ProfileText.

(** ** [model.rs] *)

Inductive ServicePresence :=
| PresenceAbsent | Owned | CompatibleUnquoted | PresenceForeign | PresenceDeletePending | PresenceInaccessible.

Inductive ServiceRuntimeState :=
| RuntimeStopped | RuntimeStartPending | RuntimeStopPending | RuntimeRunning | RuntimeContinuePending
| RuntimePausePending | RuntimePaused | RuntimeUnknown.

#[export] Instance ServicePresence_eq_dec : EqDecision ServicePresence.
Proof. solve_decision. Defined.
#[export] Instance ServiceRuntimeState_eq_dec : EqDecision ServiceRuntimeState.
Proof. solve_decision. Defined.

Definition stable_state (state : ServiceRuntimeState) : bool :=
  match state with RuntimeRunning | RuntimeStopped => true | _ => false end.

Definition require_stable_migration_state (state : ServiceRuntimeState) : result unit string :=
  if stable_state state then Ok tt
  else Err "legacy SCM service must be exactly running or stopped for migration"%string.

Record LegacyServiceStatus := {
  presence : ServicePresence;
  runtime_state : ServiceRuntimeState;
  binary_path : option string;
  win32_error : option N;
  trusted_binary_available : bool;
  registry_conflict : bool;
  can_remove : bool;
  can_stop : bool
}.

Record LegacyConfiguration := {
  legacy_display_name : string;
  legacy_binary_path : string;
  legacy_service_type : N;
  legacy_start_type : N;
  legacy_error_control : N;
  legacy_load_order_group : option string;
  legacy_tag_id : N;
  legacy_account : string;
  legacy_dependencies : list string
}.

Record FailureAction := { action_type : Z; delay_ms : N }.

Record FailureActionsConfiguration := {
  reset_period_seconds : N;
  reboot_message : option string;
  failure_command : option string;
  failure_actions : list FailureAction
}.

Inductive ServiceTriggerConfiguration := NoTriggers.

Definition snapshot_trigger_configuration (trigger_count : N) (has_trigger_data has_reserved_data : bool)
    : result ServiceTriggerConfiguration string :=
  if (trigger_count =? 0)%N && negb has_trigger_data && negb has_reserved_data then Ok NoTriggers
  else Err "custom legacy service triggers are not migration-safe"%string.

Record ServiceExtendedConfiguration := {
  extended_description : option string;
  extended_failure_actions : FailureActionsConfiguration;
  extended_failure_actions_on_non_crash : bool;
  extended_delayed_auto_start : bool;
  extended_service_sid_type : N;
  extended_required_privileges : list string;
  extended_preshutdown_timeout_ms : N;
  extended_triggers : ServiceTriggerConfiguration;
  extended_security_descriptor : list ascii
}.

Record LegacyScmSnapshot := {
  snapshot_presence : ServicePresence;
  snapshot_state : ServiceRuntimeState;
  snapshot_configuration : LegacyConfiguration;
  snapshot_extended : ServiceExtendedConfiguration
}.

#[export] Instance LegacyConfiguration_eq_dec : EqDecision LegacyConfiguration.
Proof. solve_decision. Defined.
#[export] Instance FailureAction_eq_dec : EqDecision FailureAction.
Proof. solve_decision. Defined.
#[export] Instance FailureActionsConfiguration_eq_dec : EqDecision FailureActionsConfiguration.
Proof. solve_decision. Defined.
#[export] Instance ServiceTriggerConfiguration_eq_dec : EqDecision ServiceTriggerConfiguration.
Proof. solve_decision. Defined.
#[export] Instance ServiceExtendedConfiguration_eq_dec : EqDecision ServiceExtendedConfiguration.
Proof. solve_decision. Defined.

(** ** [ownership.rs] *)

Definition MACTYPE_SERVICE_TYPE : N := 16.
Definition MACTYPE_SERVICE_START : N := 2.
Definition MACTYPE_SERVICE_START_DISABLED : N := 4.
Definition MACTYPE_SERVICE_ERROR : N := 1.

Definition owned_presence (p : ServicePresence) : bool :=
  match p with Owned | CompatibleUnquoted => true | _ => false end.

(** The path without the prefix that [canonicalize] puts in front of it. *)
Definition service_command_path (path : Path) : string :=
  default (path_display path) (strip_prefix "\\?\" (path_display path)).

(** The command lines of the older service: the path of its program, quoted or not. *)
Definition quoted_command (trusted : string) : string :=
  bytes_str [DOUBLE_QUOTE] ++ trusted ++ bytes_str [DOUBLE_QUOTE] ++ " -service".
Definition unquoted_command (trusted : string) : string := trusted ++ " -service".

(** The settings that no owned service may have. *)
Definition foreign_settings (start_types : list N) (configuration : LegacyConfiguration) : bool :=
  negb (legacy_service_type configuration =? MACTYPE_SERVICE_TYPE)%N
  || negb (bool_decide (legacy_start_type configuration ∈ start_types))
  || negb (legacy_error_control configuration =? MACTYPE_SERVICE_ERROR)%N
  || negb (legacy_display_name configuration =? "MacType")%string
  || bool_decide (is_Some (legacy_load_order_group configuration))
  || negb (legacy_tag_id configuration =? 0)%N
  || negb (eq_ignore_ascii_case (legacy_account configuration) "LocalSystem")
  || match legacy_dependencies configuration with
     | [dependency] => negb (eq_ignore_ascii_case dependency "winmgmt")
     | _ => true
     end.

(** [str::trim] *)
Definition trim_whitespace (s : string) : string := bytes_str (utf8 (trim (utf8_decode (str_bytes s)))).

Definition classify_configuration (configuration : LegacyConfiguration) (trusted : Path) : ServicePresence :=
  if foreign_settings [MACTYPE_SERVICE_START; MACTYPE_SERVICE_START_DISABLED] configuration then PresenceForeign
  else
    let trusted := service_command_path trusted in
    let actual := trim_whitespace (legacy_binary_path configuration) in
    if eq_ignore_ascii_case actual (quoted_command trusted) then Owned
    else if eq_ignore_ascii_case actual (unquoted_command trusted) then CompatibleUnquoted
    else PresenceForeign.

Definition with_capabilities (presence : ServicePresence) (state : ServiceRuntimeState) (binary_path : option string)
    (win32_error : option N) (trusted_binary_available registry_conflict : bool) : LegacyServiceStatus :=
  let owned := owned_presence presence in
  {| presence := presence; runtime_state := state; binary_path := binary_path; win32_error := win32_error;
     trusted_binary_available := trusted_binary_available; registry_conflict := registry_conflict;
     can_remove := owned && bool_decide (state = RuntimeStopped) && negb registry_conflict;
     can_stop := owned && bool_decide (state = RuntimeRunning) && trusted_binary_available && negb registry_conflict |}.

Definition status_from_configuration (configuration : LegacyConfiguration) (state : ServiceRuntimeState)
    (expected_binary : option Path) (trusted_binary_available registry_conflict : bool) : LegacyServiceStatus :=
  let presence := match expected_binary with
                  | Some path => classify_configuration configuration path
                  | None => PresenceForeign
                  end in
  with_capabilities presence state (Some (legacy_binary_path configuration)) None trusted_binary_available registry_conflict.

(** [Path::strip_prefix], by components. *)
Definition path_strip_prefix (root p : Path) : option Path :=
  if bool_decide (take (length root) p = root) then Some (drop (length root) p) else None.

Definition is_trusted_mactray_layout (program_files candidate : Path) : bool :=
  match path_strip_prefix program_files candidate with
  | Some [mactype; mactray] => eq_ignore_ascii_case mactype "MacType" && eq_ignore_ascii_case mactray "MacTray.exe"
  | _ => false
  end.

(** ** [restore_contract.rs] *)

Inductive ServiceRestoreStep :=
| RestoreCore | RestoreDescription | RestoreFailureActions | RestoreFailureActionsFlag | RestoreDelayedAutoStart
| RestoreServiceSidType | RestoreRequiredPrivileges | RestorePreshutdownTimeout | RestoreTriggers | RestoreSecurityDescriptor.

#[export] Instance ServiceRestoreStep_eq_dec : EqDecision ServiceRestoreStep.
Proof. solve_decision. Defined.

Definition restore_label (step : ServiceRestoreStep) : string :=
  match step with
  | RestoreCore => "core"
  | RestoreDescription => "description"
  | RestoreFailureActions => "failure-actions"
  | RestoreFailureActionsFlag => "failure-actions-flag"
  | RestoreDelayedAutoStart => "delayed-auto-start"
  | RestoreServiceSidType => "service-sid-type"
  | RestoreRequiredPrivileges => "required-privileges"
  | RestorePreshutdownTimeout => "preshutdown-timeout"
  | RestoreTriggers => "triggers"
  | RestoreSecurityDescriptor => "security-descriptor"
  end.

Definition SERVICE_RESTORE_ORDER : list ServiceRestoreStep :=
  [RestoreCore; RestoreDescription; RestoreFailureActions; RestoreFailureActionsFlag; RestoreDelayedAutoStart;
   RestoreServiceSidType; RestoreRequiredPrivileges; RestorePreshutdownTimeout; RestoreTriggers; RestoreSecurityDescriptor].

(** The loop of [perform_service_configuration_restore]: without the core nothing else is
    restored. *)
Fixpoint restore_steps {S : Type} (restore : ServiceRestoreStep → M S (result unit string))
    (steps : list ServiceRestoreStep) (failures : list string) : M S (list string) :=
  match steps with
  | [] => ret failures
  | step :: steps =>
      let! restored := restore step in
      match restored with
      | Ok _ => restore_steps restore steps failures
      | Err error =>
          let failures := (failures ++ [restore_label step ++ ": " ++ error]%string)%list in
          if bool_decide (step = RestoreCore) then ret failures else restore_steps restore steps failures
      end
  end.

Definition perform_service_configuration_restore {S : Type} (restore : ServiceRestoreStep → M S (result unit string))
    : M S (result unit string) :=
  let! failures := restore_steps restore SERVICE_RESTORE_ORDER [] in
  ret (match failures with
       | [] => Ok tt
       | failures => Err ("legacy SCM configuration restore failed [" ++ String.concat "; " failures ++ "]")%string
       end).

Definition verify_restored_configuration (expected : LegacyScmSnapshot) (actual_configuration : LegacyConfiguration)
    (actual_extended : ServiceExtendedConfiguration) : result unit string :=
  if bool_decide (actual_configuration ≠ snapshot_configuration expected)
  then Err "legacy SCM core configuration did not round-trip exactly"%string
  else if bool_decide (actual_extended ≠ snapshot_extended expected)
  then Err "legacy SCM Config2 or security configuration did not round-trip exactly"%string
  else Ok tt.

(** ** [windows/common.rs] *)

Inductive LegacyFolder := LegacyProgramFiles | LegacyProgramData | LegacyLocalAppData.

(** The folders of Windows and whether AppInit loads MacType. *)
Class LegacyHost `{World} := {
  legacy_folder_path : LegacyFolder → M Disk (result Path IoError);
  legacy_folder : LegacyFolder → Path;    (* a folder of the machine does not move *)
  registry_conflict_detected : M Disk bool;
  legacy_folder_quiet k P d :
    spec P (legacy_folder_path k) (λ r d', nodes d' = nodes d ∧ answered d' = answered d ∧
      ∀ p, r = Ok p → p = legacy_folder k) d;
  registry_conflict_quiet P d :
    spec P registry_conflict_detected (λ _ d', nodes d' = nodes d ∧ answered d' = answered d) d
}.

Definition ERROR_INVALID_DATA : N := 13.
Definition ERROR_SERVICE_EXISTS : N := 1073.
Definition ERROR_DUPLICATE_SERVICE_NAME : N := 1078.
Definition SC_MANAGER_CONNECT : N := 1.
Definition SC_MANAGER_CREATE_SERVICE : N := 2.

(** The name of the older service. *)
Definition MACTYPE : string := "MacType".

Definition win32_code (error : IoError) : N := default ERROR_INVALID_DATA (raw_os_error error).

Definition runtime_of_state (state : ServiceState) : ServiceRuntimeState :=
  match state with
  | StateStopped => RuntimeStopped
  | StateStartPending => RuntimeStartPending
  | StateStopPending => RuntimeStopPending
  | StateRunning => RuntimeRunning
  | StateContinuePending => RuntimeContinuePending
  | StatePausePending => RuntimePausePending
  | StatePaused => RuntimePaused
  | StateOther _ => RuntimeUnknown
  end.

Definition configuration_of (config : ServiceConfig) : LegacyConfiguration :=
  {| legacy_display_name := service_display_name config; legacy_binary_path := image_path config;
     legacy_service_type := service_type config; legacy_start_type := start_type config;
     legacy_error_control := error_control config;
     legacy_load_order_group := if (load_order_group config =? "")%string then None else Some (load_order_group config);
     legacy_tag_id := tag_id config; legacy_account := account config; legacy_dependencies := dependencies config |}.

(** [.map_err(|code| format!("{operation} failed with {code}"))] *)
Definition with_code {A : Type} (operation : string) (r : result A N) : result A string :=
  map_err (λ code, operation ++ " failed with " ++ pretty code)%string r.

Definition mactray_below (program_files : Path) : Path := program_files ++ ["MacType"; "MacTray.exe"]%string.

Section Common.
Context `{World, Windows, SecurityDescriptors, !LegacyHost}.

Definition program_files_root : M Disk (option Path) :=
  let! folder := legacy_folder_path LegacyProgramFiles in
  match folder with
  | Err _ => ret None
  | Ok folder =>
      let! root := canonicalize folder in
      match root with
      | Err _ => ret None
      | Ok root => let! directory := is_dir root in ret (if directory then Some root else None)
      end
  end.

Definition expected_mactray_path : M Disk (option Path) :=
  let! root := program_files_root in ret (option_map mactray_below root).

Definition trusted_mactray_path : M Disk (option Path) :=
  let! root := program_files_root in
  match root with
  | None => ret None
  | Some root =>
      let! candidate := canonicalize (mactray_below root) in
      match candidate with
      | Err _ => ret None
      | Ok candidate =>
          let! file := is_file candidate in
          ret (if file && is_trusted_mactray_layout root candidate then Some candidate else None)
      end
  end.

Definition query_runtime (service : Handle) : M Disk (result ServiceRuntimeState N) :=
  let! status := service_status service in
  ret (match status with
       | Ok status => Ok (runtime_of_state (state status))
       | Err error => Err (win32_code error)
       end).

Definition query_configuration (service : Handle) : M Disk (result LegacyConfiguration N) :=
  let! configuration := service_config service in
  ret (match configuration with
       | Ok configuration => Ok (configuration_of configuration)
       | Err error => Err (win32_code error)
       end).

Definition with_win32 {A : Type} (m : M Disk (result A IoError)) : M Disk (result A N) :=
  let! r := m in ret (map_err win32_code r).

Definition open_for (access : ServiceAccess) : M Disk (result Handle N) :=
  let? _ := with_win32 (windows (OpenSCManagerW SC_MANAGER_CONNECT)) in
  let? service := with_win32 (scm_open MACTYPE access) in
  ret (match service with Some service => Ok service | None => Err ERROR_SERVICE_DOES_NOT_EXIST end).

(** ** [windows/control.rs] *)

Definition inaccessible (code : N) (trusted registry : bool) : LegacyServiceStatus :=
  with_capabilities PresenceInaccessible RuntimeUnknown None (Some code) trusted registry.

(** The status of an open handle. *)
Definition query_handle (service : Handle) (expected : option Path) (trusted_available registry_conflict : bool)
    : M Disk LegacyServiceStatus :=
  let! state := query_runtime service in
  match state with
  | Err code => ret (inaccessible code trusted_available registry_conflict)
  | Ok state =>
      let! configuration := query_configuration service in
      ret (match configuration with
           | Err code => inaccessible code trusted_available registry_conflict
           | Ok configuration =>
               status_from_configuration configuration state expected trusted_available registry_conflict
           end)
  end.

Definition legacy_query (registry_conflict : bool) : M Disk LegacyServiceStatus :=
  let! expected := expected_mactray_path in
  let! trusted := trusted_mactray_path in
  let trusted_available := bool_decide (is_Some trusted) in
  let! manager := windows (OpenSCManagerW SC_MANAGER_CONNECT) in
  match manager with
  | Err error => ret (inaccessible (win32_code error) trusted_available registry_conflict)
  | Ok _ =>
      let! service := scm_open MACTYPE QueryStatusAndConfigAccess in
      match service with
      | Ok (Some service) => query_handle service expected trusted_available registry_conflict
      | Ok None =>
          ret (with_capabilities PresenceAbsent RuntimeUnknown None None trusted_available registry_conflict)
      | Err error =>
          let code := win32_code error in
          ret (if (code =? ERROR_SERVICE_MARKED_FOR_DELETE)%N
               then with_capabilities PresenceDeletePending RuntimeUnknown None None trusted_available registry_conflict
               else with_capabilities PresenceInaccessible RuntimeUnknown None (Some code) trusted_available registry_conflict)
      end
  end.

Definition LEGACY_POLL_ROUNDS : nat := 120.
Definition LEGACY_POLL_PAUSE : N := from_millis 250.

Definition unsafe_change : string := "legacy service changed to an unsafe state".

(** The loops [for _ in 0..120]. *)
Fixpoint wait_for_rounds (rounds : nat) (target : ServiceRuntimeState) : M Disk (result unit string) :=
  match rounds with
  | 0 => ret (Err "legacy service operation timed out after 30 seconds"%string)
  | S rounds =>
      let! status := legacy_query false in
      if bool_decide (runtime_state status = target)
         || bool_decide (target = RuntimeStopped) && bool_decide (presence status = PresenceAbsent)
      then ret (Ok tt)
      else match presence status with
           | PresenceForeign | PresenceInaccessible => ret (Err unsafe_change)
           | _ => let! _ := sleep LEGACY_POLL_PAUSE in wait_for_rounds rounds target
           end
  end.

Definition wait_for (target : ServiceRuntimeState) : M Disk (result unit string) := wait_for_rounds LEGACY_POLL_ROUNDS target.

Fixpoint wait_absent_rounds (rounds : nat) : M Disk (result unit string) :=
  match rounds with
  | 0 => ret (Err "legacy service removal timed out after 30 seconds"%string)
  | S rounds =>
      let! conflict := registry_conflict_detected in
      let! status := legacy_query conflict in
      match presence status with
      | PresenceAbsent => ret (Ok tt)
      | PresenceForeign | PresenceInaccessible => ret (Err unsafe_change)
      | Owned | CompatibleUnquoted | PresenceDeletePending =>
          let! _ := sleep LEGACY_POLL_PAUSE in wait_absent_rounds rounds
      end
  end.

Definition legacy_wait_until_absent : M Disk (result unit string) := wait_absent_rounds LEGACY_POLL_ROUNDS.

(** [m.map_err(|error| format!("{operation} failed with {}", win32_code(&error)))] *)
Definition in_code {A : Type} (operation : string) (m : M Disk (result A IoError)) : M Disk (result A string) :=
  let! r := with_win32 m in ret (with_code operation r).

Definition opened (operation : string) (access : ServiceAccess) : M Disk (result Handle string) :=
  let! r := open_for access in ret (with_code operation r).

Definition legacy_start : M Disk (result unit string) :=
  let? service := opened "OpenServiceW" StartAccess in
  let? _ := in_code "StartServiceW" (service_start service) in
  wait_for RuntimeRunning.

Definition legacy_stop : M Disk (result unit string) :=
  let? service := opened "OpenServiceW" StopAccess in
  let? _ := in_code "ControlService" (service_stop service) in
  wait_for RuntimeStopped.

Definition creation_of (configuration : LegacyConfiguration) : ServiceCreation :=
  {| creation_display_name := legacy_display_name configuration;
     creation_service_type := legacy_service_type configuration;
     creation_start_type := legacy_start_type configuration;
     creation_error_control := legacy_error_control configuration;
     creation_image_path := legacy_binary_path configuration;
     creation_load_order_group := legacy_load_order_group configuration;
     creation_dependencies := legacy_dependencies configuration;
     creation_account := legacy_account configuration |}.

Definition create_service_configuration (configuration : LegacyConfiguration) : M Disk (result unit string) :=
  let? _ := in_code "OpenSCManagerW for service creation"
              (windows (OpenSCManagerW (N.lor SC_MANAGER_CONNECT SC_MANAGER_CREATE_SERVICE))) in
  let! created := create_service MACTYPE (creation_of configuration) StartAccess in
  match created with
  | Err error =>
      let code := win32_code error in
      let failed := Err ("CreateServiceW failed with " ++ pretty code)%string in
      if (code =? ERROR_SERVICE_EXISTS)%N || (code =? ERROR_DUPLICATE_SERVICE_NAME)%N then
        let! status := legacy_query false in
        ret (if owned_presence (presence status) then Ok tt else failed)
      else ret failed
  | Ok _ =>
      let! created := legacy_query false in
      ret (if owned_presence (presence created) then Ok tt
           else Err "Windows created a MacType service with unexpected configuration"%string)
  end.

Definition gone (code : N) : bool :=
  (code =? ERROR_SERVICE_DOES_NOT_EXIST)%N || (code =? ERROR_SERVICE_MARKED_FOR_DELETE)%N.

Definition delete_owned_service : M Disk (result unit string) :=
  let! service := open_for DeleteAccess in
  match service with
  | Err code =>
      if gone code then legacy_wait_until_absent
      else ret (Err ("OpenServiceW for deletion failed with " ++ pretty code)%string)
  | Ok service =>
      let! deleted := with_win32 (service_delete service) in
      match deleted with
      | Err code =>
          if gone code then legacy_wait_until_absent else ret (Err ("DeleteService failed with " ++ pretty code)%string)
      | Ok _ => legacy_wait_until_absent
      end
  end.

Definition set_start_type (start_type : N) : M Disk (result unit string) :=
  let? service := opened "OpenServiceW for start-type change" ChangeStartTypeAccess in
  in_code ("ChangeServiceConfigW(start type " ++ pretty start_type ++ ")")%string (service_set_start_type service start_type).

Definition SERVICE_DISABLED : N := 4.

Definition migration_stop : M Disk (result unit string) :=
  let! status := legacy_query false in
  if negb (owned_presence (presence status))
  then ret (Err "only an owned legacy service can be stopped for migration"%string)
  else
    let? _ := ret (require_stable_migration_state (runtime_state status)) in
    let? _ := (if bool_decide (runtime_state status = RuntimeRunning) then legacy_stop else ret (Ok tt)) in
    set_start_type SERVICE_DISABLED.

Definition migration_remove : M Disk (result unit string) :=
  let! status := legacy_query false in
  if negb (owned_presence (presence status)) || negb (bool_decide (runtime_state status = RuntimeStopped))
  then ret (Err "legacy service must be owned and stopped before removal"%string)
  else delete_owned_service.

(** The last branch of the [match] is unreachable, and does not answer. *)
Definition migration_restore_running_state (snapshot : LegacyScmSnapshot) : M Disk (result unit string) :=
  let? _ := ret (require_stable_migration_state (snapshot_state snapshot)) in
  let! current := legacy_query false in
  if negb (owned_presence (presence current))
  then ret (Err "only an owned legacy service can have its runtime state restored"%string)
  else
    let? _ := ret (require_stable_migration_state (runtime_state current)) in
    let? _ := set_start_type (legacy_start_type (snapshot_configuration snapshot)) in
    match snapshot_state snapshot, runtime_state current with
    | RuntimeRunning, RuntimeStopped => legacy_start
    | RuntimeStopped, RuntimeRunning => legacy_stop
    | RuntimeRunning, RuntimeRunning | RuntimeStopped, RuntimeStopped => ret (Ok tt)
    | _, _ => no_answer
    end.
End Common.

(** ** [windows/snapshot.rs] *)

Definition query_error (error : IoError) : string := "QueryServiceConfig2W failed: " ++ io_text error.

(** An error of the kind [InvalidData] carries no code of Windows. *)
Definition unsupported_failure_action (error : IoError) : bool :=
  negb (bool_decide (is_Some (raw_os_error error)))
  && bytes_contains (str_bytes "unsupported failure action") (str_bytes (io_text error)).

Definition failure_actions_from (actions : PlatformFailureActions) : FailureActionsConfiguration :=
  {| reset_period_seconds := reset_period actions; reboot_message := reboot actions; failure_command := run_command actions;
     failure_actions := map (λ action, {| action_type := failure_action_as_raw (action_kind action);
                                          delay_ms := action_delay_ms action |}) (failure_action_list actions) |}.

Section Snapshot.
Context `{World, Windows, SecurityDescriptors, !LegacyHost}.

Definition queried {A : Type} (m : M Disk (result A IoError)) : M Disk (result A string) :=
  let! r := m in ret (map_err query_error r).

Definition service_has_triggers (service : Handle) : M Disk (result bool string) :=
  let? trigger := queried (trigger_info service) in
  ret (Ok (negb (trigger_count trigger =? 0)%N || has_trigger_data trigger || has_reserved_data trigger)).

Definition query_extended_configuration (service : Handle) : M Disk (result ServiceExtendedConfiguration string) :=
  let? description := queried (service_description service) in
  let! read_actions := service_failure_actions service in
  let? actions := ret (map_err (λ error, if unsupported_failure_action error
                                         then "legacy service has an unsupported failure action"%string
                                         else query_error error) read_actions) in
  let? on_non_crash := queried (failure_actions_on_non_crash_failures service) in
  let? delayed := queried (delayed_auto_start service) in
  let? sid_type := queried (service_sid_type service) in
  if negb (bool_decide (sid_type ∈ [0; 1; 3]%N))
  then ret (Err "legacy service has an unsupported service SID type"%string)
  else
    let? privileges := queried (required_privileges service) in
    let? preshutdown := queried (preshutdown_timeout_ms service) in
    let? trigger := queried (trigger_info service) in
    let? security := queried (object_security service) in
    let? triggers := ret (snapshot_trigger_configuration (trigger_count trigger) (has_trigger_data trigger) (has_reserved_data trigger)) in
    ret (Ok {| extended_description := description; extended_failure_actions := failure_actions_from actions;
               extended_failure_actions_on_non_crash := on_non_crash; extended_delayed_auto_start := delayed;
               extended_service_sid_type := sid_type; extended_required_privileges := privileges;
               extended_preshutdown_timeout_ms := preshutdown; extended_triggers := triggers;
               extended_security_descriptor := descriptor_bytes security |}).

Definition migration_snapshot (registry_conflict_seen : bool) : M Disk (result LegacyScmSnapshot string) :=
  let! status := legacy_query registry_conflict_seen in
  if registry_conflict status || negb (owned_presence (presence status))
  then ret (Err "legacy SCM service is not exactly owned and migration-safe"%string)
  else
    let? _ := ret (require_stable_migration_state (runtime_state status)) in
    let? service := opened "OpenServiceW for migration snapshot" InspectAccess in
    let! read_configuration := query_configuration service in
    let? configuration := ret (with_code "QueryServiceConfigW for migration snapshot" read_configuration) in
    let? extended := query_extended_configuration service in
    let! read_state := query_runtime service in
    let? final_state := ret (with_code "QueryServiceStatusEx for snapshot" read_state) in
    let? _ := ret (require_stable_migration_state final_state) in
    if bool_decide (final_state ≠ runtime_state status)
    then ret (Err "legacy SCM service state changed while taking its snapshot"%string)
    else ret (Ok {| snapshot_presence := presence status; snapshot_state := runtime_state status;
                    snapshot_configuration := configuration; snapshot_extended := extended |}).

(** ** [windows/restore.rs] *)

Definition MAX_SNAPSHOT_TEXT : nat := 32767.

Definition validate_snapshot_string (name value : string) : result unit string :=
  if bool_decide ("000"%char ∈ str_bytes value)
     || (MAX_SNAPSHOT_TEXT <? length (encode_utf16 (utf8_decode (str_bytes value))))%nat
  then Err ("legacy SCM " ++ name ++ " is not safely restorable")%string
  else Ok tt.

Fixpoint validate_snapshot_strings (named : list (string * string)) : result unit string :=
  match named with
  | [] => Ok tt
  | (name, value) :: named => let-? _ := validate_snapshot_string name value in validate_snapshot_strings named
  end.

(** [if let Some(value) = value { if value.is_empty() { .. } validate_snapshot_string(..)?; }] *)
Definition validate_optional_text (empty name : string) (value : option string) : result unit string :=
  match value with
  | Some value => if (value =? "")%string then Err empty else validate_snapshot_string name value
  | None => Ok tt
  end.

Definition validated_security_descriptor_snapshot (bytes : list ascii) : result SelfRelativeSecurityDescriptor string :=
  if bool_decide (bytes = []) || (MAX_SECURITY_DESCRIPTOR_BYTES <? bytes_len bytes)%N
  then Err "legacy SCM security descriptor size is invalid"%string
  else map_err (λ _, "legacy SCM security descriptor is invalid"%string) (from_bytes bytes MAX_SECURITY_DESCRIPTOR_BYTES).

Definition validate_snapshot_for_restore (snapshot : LegacyScmSnapshot) : result unit string :=
  let configuration := snapshot_configuration snapshot in
  let extended := snapshot_extended snapshot in
  let actions := extended_failure_actions extended in
  let-? _ := require_stable_migration_state (snapshot_state snapshot) in
  let-? _ := validate_snapshot_strings
    [("display name", legacy_display_name configuration); ("binary path", legacy_binary_path configuration);
     ("account", legacy_account configuration)]%string in
  let-? _ := validate_optional_text "legacy SCM load-order group must use None for an empty value" "load-order group"
               (legacy_load_order_group configuration) in
  let-? _ := validate_snapshot_strings (map (pair "dependency"%string) (legacy_dependencies configuration)) in
  let-? _ := validate_optional_text "legacy SCM description must use None for an empty value" "description"
               (extended_description extended) in
  let-? _ := validate_snapshot_strings (map (pair "failure reboot message"%string) (option_list (reboot_message actions))
               ++ map (pair "failure command"%string) (option_list (failure_command actions))) in
  if (MAX_FAILURE_ACTIONS <? length (failure_actions actions))%nat
     || existsb (λ action, negb (bool_decide (is_Some (failure_action_from_raw (action_type action))))) (failure_actions actions)
  then Err "legacy SCM failure actions are not safely restorable"%string
  else if negb (bool_decide (extended_service_sid_type extended ∈ [0; 1; 3]%N))
     || (MAX_REQUIRED_PRIVILEGES <? length (extended_required_privileges extended))%nat
  then Err "legacy SCM SID or privilege configuration is invalid"%string
  else
    let-? _ := validate_snapshot_strings (map (pair "required privilege"%string) (extended_required_privileges extended)) in
    let-? _ := validated_security_descriptor_snapshot (extended_security_descriptor extended) in
    Ok tt.

(** [config2_result], with the number of the level. *)
Definition config2_result (information_level : N) (m : M Disk (result unit IoError)) : M Disk (result unit string) :=
  in_code ("ChangeServiceConfig2W(" ++ pretty information_level ++ ")")%string m.

Definition config_of (configuration : LegacyConfiguration) : ServiceConfig :=
  {| service_type := legacy_service_type configuration; start_type := legacy_start_type configuration;
     error_control := legacy_error_control configuration; image_path := legacy_binary_path configuration;
     account := legacy_account configuration; service_display_name := legacy_display_name configuration;
     load_order_group := default ""%string (legacy_load_order_group configuration); tag_id := legacy_tag_id configuration;
     dependencies := legacy_dependencies configuration |}.

Fixpoint platform_actions (actions : list FailureAction) : result (list PlatformFailureAction) string :=
  match actions with
  | [] => Ok []
  | action :: actions =>
      match failure_action_from_raw (action_type action) with
      | None => Err "legacy service has an unsupported failure action"%string
      | Some kind =>
          let-? rest := platform_actions actions in
          Ok ({| action_kind := kind; action_delay_ms := delay_ms action |} :: rest)
      end
  end.

(** One step of the restoration.  The privilege that is enabled, if it can be, around the
    last one is not modelled: the answer of the call tells whether it was missing. *)
Definition restore_step (service : Handle) (snapshot : LegacyScmSnapshot) (step : ServiceRestoreStep) : M Disk (result unit string) :=
  let extended := snapshot_extended snapshot in
  match step with
  | RestoreCore => in_code "ChangeServiceConfigW" (set_config service (config_of (snapshot_configuration snapshot)))
  | RestoreDescription => config2_result 1 (set_optional_description service (extended_description extended))
  | RestoreFailureActions =>
      let failure := extended_failure_actions extended in
      let? actions := ret (platform_actions (failure_actions failure)) in
      config2_result 2 (set_failure_actions service
        {| reset_period := reset_period_seconds failure; reboot := reboot_message failure;
           run_command := failure_command failure; failure_action_list := actions |})
  | RestoreFailureActionsFlag =>
      config2_result 4 (set_failure_actions_on_non_crash_failures service (extended_failure_actions_on_non_crash extended))
  | RestoreDelayedAutoStart => config2_result 3 (set_delayed_auto_start service (extended_delayed_auto_start extended))
  | RestoreServiceSidType => config2_result 5 (set_service_sid_type service (extended_service_sid_type extended))
  | RestoreRequiredPrivileges => config2_result 6 (set_required_privileges service (extended_required_privileges extended))
  | RestorePreshutdownTimeout => config2_result 7 (set_preshutdown_timeout_ms service (extended_preshutdown_timeout_ms extended))
  | RestoreTriggers =>
      let? triggers := service_has_triggers service in
      if triggers then config2_result 8 (clear_triggers service) else ret (Ok tt)
  | RestoreSecurityDescriptor =>
      let? descriptor := ret (validated_security_descriptor_snapshot (extended_security_descriptor extended)) in
      in_code "SetServiceObjectSecurity" (set_object_security service descriptor)
  end.

(** What must hold of the service before its configuration is restored. *)
Definition prepare_restore (snapshot : LegacyScmSnapshot) : M Disk (result unit string) :=
  let! status := legacy_query false in
  match presence status with
  | PresenceAbsent => create_service_configuration (snapshot_configuration snapshot)
  | Owned | CompatibleUnquoted =>
      let? _ := ret (require_stable_migration_state (runtime_state status)) in
      let? current := opened "OpenServiceW for restore preflight" InspectAccess in
      let? _ := query_extended_configuration current in
      if bool_decide (runtime_state status ≠ RuntimeStopped) then legacy_stop else ret (Ok tt)
  | PresenceForeign | PresenceDeletePending | PresenceInaccessible =>
      ret (Err "refusing to overwrite an unsafe MacType SCM service"%string)
  end.

Definition restore_service_configuration (snapshot : LegacyScmSnapshot) : M Disk (result unit string) :=
  let? _ := ret (validate_snapshot_for_restore snapshot) in
  let? _ := prepare_restore snapshot in
  let! verified := legacy_query false in
  if negb (owned_presence (presence verified)) || negb (bool_decide (runtime_state verified = RuntimeStopped))
  then ret (Err "legacy SCM service changed before configuration restore"%string)
  else
    let? preflight := opened "OpenServiceW for final restore preflight" InspectAccess in
    let? _ := query_extended_configuration preflight in
    let? service := opened "OpenServiceW for restore" RestoreAccess in
    let? _ := perform_service_configuration_restore (restore_step service snapshot) in
    let! read_configuration := query_configuration service in
    let? restored_configuration := ret (with_code "QueryServiceConfigW after configuration restore" read_configuration) in
    let? restored_extended := query_extended_configuration service in
    ret (verify_restored_configuration snapshot restored_configuration restored_extended).
End Snapshot.

(** ** [mod.rs] *)

Definition SERVICE_DISABLED_START_TYPE : N := 4.

Definition retired_owned_service (presence : ServicePresence) (state : ServiceRuntimeState) (start_type : N) : bool :=
  owned_presence presence && bool_decide (state = RuntimeStopped) && (start_type =? SERVICE_DISABLED_START_TYPE)%N.

Section Blocks.
Context `{World, Windows, SecurityDescriptors, !LegacyHost}.

Definition legacy_service_blocks_activation : M Disk (result bool string) :=
  let! observed := legacy_query false in
  match presence observed with
  | PresenceAbsent => ret (Ok false)
  | PresenceInaccessible =>
      ret (Err "a legacy MacType service is present but its state is inaccessible; resolve it before changing the new service"%string)
  | Owned | CompatibleUnquoted =>
      if bool_decide (runtime_state observed = RuntimeStopped) then
        let! taken := migration_snapshot false in
        ret (match taken with
             | Err error => Err ("could not verify the stopped legacy service retirement state: " ++ error)%string
             | Ok snapshot =>
                 Ok (negb (retired_owned_service (snapshot_presence snapshot) (snapshot_state snapshot)
                             (legacy_start_type (snapshot_configuration snapshot))))
             end)
      else ret (Ok true)
  | PresenceForeign | PresenceDeletePending => ret (Ok true)
  end.

(** [trusted_installation_root] *)
Definition trusted_installation_root : M Disk (option Path) :=
  let! path := expected_mactray_path in
  ret (match path with Some path => path_parent path | None => None end).
End Blocks.
