(* ===== verification/LegacyServiceFacts.v ===== *)
(** * What the control center does to the older service

    The calls of [LegacyService], in any world: every operation ends, whatever Windows
    answers; the older service is changed only behind an answer that proves it to be one,
    deleted only behind one that it stands still, and created only where there is none;
    a restored configuration is the one that was saved. *)

From S2P Require Export LegacyService ServiceManagerSafety.

Section Minding.
Context `{World, Windows, SecurityDescriptors, !LegacyHost} (P : Nodes → Prop).

(** ** What the answers so far prove *)

Definition trusted_path (path : Path) : Prop :=
  ∃ d root, canonical d (legacy_folder LegacyProgramFiles) = Ok root ∧ path = mactray_below root.

Definition opened_as (service : Handle) (calls : list Answered) : Prop :=
  ∃ rights, Called (OpenServiceW MACTYPE rights) (Ok service) ∈ calls.

(** The service of the name is the older MacType: its program lies where that is installed. *)
Definition own_shown (service : Handle) (calls : list Answered) : Prop :=
  ∃ raw config path, Called (QueryServiceConfigW service) (Ok raw) ∈ calls ∧ parse_config raw = Ok config ∧
    trusted_path path ∧ owned_presence (classify_configuration (configuration_of config) path) = true.

Definition stopped_shown (service : Handle) (calls : list Answered) : Prop :=
  ∃ status, Called (QueryServiceStatusEx service) (Ok status) ∈ calls ∧ state_from_raw (dwCurrentState status) = StateStopped.

Definition absent_shown (calls : list Answered) : Prop :=
  ∃ rights e, Called (OpenServiceW MACTYPE rights) (Err e) ∈ calls ∧ has_code e ERROR_SERVICE_DOES_NOT_EXIST = true.

Definition owned_known (calls : list Answered) : Prop := ∃ service, opened_as service calls ∧ own_shown service calls.

Definition stopped_known (calls : list Answered) : Prop :=
  ∃ service, opened_as service calls ∧ own_shown service calls ∧ stopped_shown service calls.

(** What must be known before a call. *)
Definition warranted {A : Type} (c : WindowsCall A) (known : list Answered) : Prop :=
  match c with
  | DeleteService service => opened_as service known ∧ stopped_known known
  | StartServiceW service | ControlService service _ | ChangeServiceConfigW service _ _ _ _ _ _ _ _
  | ChangeServiceConfig2W service _ | SetServiceObjectSecurity service _ _ => opened_as service known ∧ owned_known known
  | CreateServiceW name _ _ _ _ _ _ _ _ _ => name = MACTYPE ∧ absent_shown known
  | _ => True
  end.

Fixpoint warrants (known calls : list Answered) : Prop :=
  match calls with
  | [] => True
  | e :: calls => match e with Called c _ => warranted c known end ∧ warrants (known ++ [e]) calls
  end.

Lemma opened_mono service calls calls' : calls ⊆ calls' → opened_as service calls → opened_as service calls'.
Proof. intros Hs [rights ?]. exists rights. set_solver. Qed.

Lemma own_mono service calls calls' : calls ⊆ calls' → own_shown service calls → own_shown service calls'.
Proof. intros Hs (raw & config & path & ? & ?). exists raw, config, path. set_solver. Qed.

Lemma stopped_mono service calls calls' : calls ⊆ calls' → stopped_shown service calls → stopped_shown service calls'.
Proof. intros Hs (status & ? & ?). exists status. set_solver. Qed.

Lemma absent_mono calls calls' : calls ⊆ calls' → absent_shown calls → absent_shown calls'.
Proof. intros Hs (rights & e & ? & ?). exists rights, e. set_solver. Qed.

Lemma owned_known_mono calls calls' : calls ⊆ calls' → owned_known calls → owned_known calls'.
Proof. intros Hs (service & ? & ?). exists service. eauto using opened_mono, own_mono. Qed.

Lemma stopped_known_mono calls calls' : calls ⊆ calls' → stopped_known calls → stopped_known calls'.
Proof. intros Hs (service & ? & ? & ?). exists service. split_and!; eauto using opened_mono, own_mono, stopped_mono. Qed.

Lemma stopped_owned calls : stopped_known calls → owned_known calls.
Proof. intros (service & ? & ? & _). by exists service. Qed.

Lemma warrants_app known new rest : warrants known new → warrants (known ++ new) rest → warrants known (new ++ rest).
Proof.
  revert known. induction new as [|e new IH]; intros known Hn Hr; [by rewrite app_nil_r in Hr|].
  destruct Hn as [? Hn]. split; [done|]. apply IH; [done|]. by rewrite <- app_assoc.
Qed.

Lemma warrants_spec known calls :
  warrants known calls → ∀ before A (c : WindowsCall A) a after, calls = before ++ Called c a :: after → warranted c (known ++ before).
Proof.
  revert known. induction calls as [|e calls IH]; intros known Hw before A c a after E; [by destruct before|].
  destruct Hw as [He Hw]. destruct before as [|e' before]; injection E as -> E.
  - by rewrite app_nil_r.
  - specialize (IH _ Hw before A c a after E). by rewrite <- app_assoc in IH.
Qed.

(** ** Computations that mind it

    [minds known m Q d]: behind the calls [known], every call of [m] is warranted, and
    [Q] holds of its answer and all the calls. *)

Definition minds {A : Type} (known : list Answered) (m : M Disk A) (Q : A → list Answered → Prop) (d : Disk) : Prop :=
  hears P m (λ a new, warrants known new ∧ Q a (known ++ new)) d.

Lemma minds_ret {A} known (a : A) Q d : Q a known → minds known (ret a) Q d.
Proof. intros HQ. apply hears_ret. split; [done|]. by rewrite app_nil_r. Qed.

Lemma minds_mono {A} known (m : M Disk A) (Q Q' : A → list Answered → Prop) d :
  minds known m Q d → (∀ a calls, known ⊆ calls → Q a calls → Q' a calls) → minds known m Q' d.
Proof. intros Hm HQ. eapply hears_mono; [exact Hm|]. intros a new [? ?]. split; [done|]. apply HQ; [set_solver|done]. Qed.

Lemma minds_bind {A B} known (m : M Disk A) (k : A → M Disk B) Q R d :
  minds known m Q d → (∀ a calls d', known ⊆ calls → Q a calls → minds calls (k a) R d') → minds known (bind m k) R d.
Proof.
  intros Hm Hk. eapply hears_bind; [exact Hm|]. intros a new d' _ [Hw HQ].
  eapply hears_mono; [apply (Hk a (known ++ new) d'); [set_solver|done]|].
  intros b rest [Hr HR]. split; [by apply warrants_app|]. by rewrite app_assoc.
Qed.

Lemma minds_try {A B E} known (m : M Disk (result A E)) (k : A → M Disk (result B E)) Q R d :
  minds known m Q d → (∀ a calls d', known ⊆ calls → Q (Ok a) calls → minds calls (k a) R d') →
  (∀ e calls, known ⊆ calls → Q (Err e) calls → R (Err e) calls) → minds known (let? x := m in k x) R d.
Proof.
  intros Hm Hk He. eapply minds_bind; [exact Hm|]. intros [a|e] calls d' Hs HQ; [by apply Hk|by apply minds_ret, He].
Qed.

Lemma minds_pure {A B E} known (r : result A E) (k : A → M Disk (result B E)) R d :
  (∀ a, r = Ok a → minds known (k a) R d) → (∀ e, r = Err e → R (Err e) known) → minds known (let? x := ret r in k x) R d.
Proof. intros Hk He. destruct r as [a|e]; [by apply Hk|by apply minds_ret, He]. Qed.

Lemma minds_unheard {A} known (m : M Disk A) (Q : A → Prop) d : unheard P m Q → minds known m (λ a calls, calls = known ∧ Q a) d.
Proof. intros Hm. eapply hears_mono; [by apply hears_unheard|]. intros a new [-> HQ]. by rewrite app_nil_r. Qed.

Lemma minds_windows {A} known (c : WindowsCall A) d :
  warranted c known → minds known (windows c) (λ a calls, calls = known ++ [Called c a]) d.
Proof. intros Hw. eapply hears_mono; [apply hears_windows|]. by intros a new ->. Qed.

Lemma minds_sleep {B} known n (k : unit → M Disk B) R d : (∀ d', minds known (k tt) R d') → minds known (bind (sleep n) k) R d.
Proof. intros Hk. apply hears_sleep, Hk. Qed.

Lemma minds_run {A} known (m : M Disk A) Q d : minds known m Q d →
  ∃ a d' new, m d = Some (a, d') ∧ nodes d' = nodes d ∧ answered d' = answered d ++ new ∧ warrants known new ∧ Q a (known ++ new).
Proof. intros Hm. destruct (spec_runs _ _ _ _ Hm) as (a & d' & E & _ & Hn & new & Ea & ? & ?). exists a, d', new. auto. Qed.
(** ** The operations *)

Lemma unheard_any {A} (m : M Disk A) (Q : A → Prop) : unheard P m Q → unheard P m (λ _, True).
Proof. intros Hm d. eapply spec_post; [apply Hm|]. by intros a d' _ (? & ? & _). Qed.

Lemma folder_unheard k : unheard P (legacy_folder_path k) (λ r, ∀ p, r = Ok p → p = legacy_folder k).
Proof. intros d. apply legacy_folder_quiet. Qed.

Lemma conflict_unheard : unheard P registry_conflict_detected (λ _, True).
Proof. intros d. eapply spec_post; [apply registry_conflict_quiet|]. by intros a d' _ [? ?]. Qed.

Lemma canonical_unheard p : unheard P (canonicalize p) (λ r, ∃ d, r = canonical d p).
Proof. intros d. split; [apply run_still; [done|done|later]|]. split_and!; [done|done|by exists d]. Qed.

Lemma is_dir_unheard p : unheard P (is_dir p) (λ _, True).
Proof.
  apply unheard_quiet; [|apply silent_is_dir]. intros d. unfold is_dir, fs_metadata.
  eapply spec_bind; [apply os_read_spec|]. intros r d' _ [Hn _]. by apply spec_ret.
Qed.

Lemma root_unheard : unheard P program_files_root (λ r, ∀ root, r = Some root → ∃ d, canonical d (legacy_folder LegacyProgramFiles) = Ok root).
Proof.
  unfold program_files_root. eapply unheard_bind; [apply folder_unheard|]. intros [folder|e] Hf; [|by apply unheard_ret].
  rewrite (Hf folder eq_refl). eapply unheard_bind; [apply canonical_unheard|]. intros [root|e] [d Hd]; [|by apply unheard_ret].
  eapply unheard_bind; [apply is_dir_unheard|]. intros [] _; apply unheard_ret; [|done]. intros r [= <-]. by exists d.
Qed.

Lemma expected_unheard : unheard P expected_mactray_path (λ r, ∀ path, r = Some path → trusted_path path).
Proof.
  unfold expected_mactray_path. eapply unheard_bind; [apply root_unheard|]. intros [root|] Hr; apply unheard_ret; [|done].
  intros path [= <-]. destruct (Hr root eq_refl) as [d Hd]. by exists d, root.
Qed.

Lemma trusted_unheard : unheard P trusted_mactray_path (λ _, True).
Proof.
  unfold trusted_mactray_path. eapply unheard_bind; [apply root_unheard|]. intros [root|] _; [|by apply unheard_ret].
  eapply unheard_bind; [apply canonicalize_unheard|]. intros [candidate|e] _; [|by apply unheard_ret].
  eapply unheard_bind; [apply is_file_unheard|]. intros file _. by apply unheard_ret.
Qed.

(** What a status tells. *)
Definition query_knows (status : LegacyServiceStatus) (calls : list Answered) : Prop :=
  (owned_presence (presence status) = true → owned_known calls) ∧
  (owned_presence (presence status) = true → runtime_state status = RuntimeStopped → stopped_known calls) ∧
  (presence status = PresenceAbsent → absent_shown calls).

Lemma minds_call {A B} known (c : WindowsCall A) (k : A → M Disk B) R d :
  warranted c known → (∀ a d', minds (known ++ [Called c a]) (k a) R d') → minds known (bind (windows c) k) R d.
Proof. intros Hw Hk. eapply minds_bind; [by apply minds_windows|]. intros a calls d' _ ->. apply Hk. Qed.

Lemma open_minds known name access d : name = MACTYPE →
  minds known (scm_open name access) (λ r calls, match r with
    | Ok (Some service) => opened_as service calls
    | Ok None => absent_shown calls
    | Err _ => True
    end) d.
Proof.
  intros ->. unfold scm_open. apply minds_call; [done|]. intros [service|e] d'; apply minds_ret; cbn.
  - exists (service_rights access). set_solver.
  - destruct (has_code e _) eqn:Ee; [|done]. exists (service_rights access), e. set_solver.
Qed.

Lemma status_minds known service d :
  minds known (query_runtime service) (λ r calls, known ⊆ calls ∧ (r = Ok RuntimeStopped → stopped_shown service calls)) d.
Proof.
  unfold query_runtime, service_status. eapply (minds_bind _ _ _ (λ r calls, known ⊆ calls ∧
    ∀ s, r = Ok s → state s = StateStopped → stopped_shown service calls)).
  - apply minds_call; [done|]. intros [status|e] d'; apply minds_ret; (split; [set_solver|]); [|done].
    intros s [= <-] Hs. exists status. split; [set_solver|done].
  - intros [s|e] calls d' _ [Hk Hs]; apply minds_ret; (split; [done|]); [|done].
    intros [= E]. apply (Hs s eq_refl). by destruct (state s).
Qed.

Lemma configuration_minds known service d :
  minds known (query_configuration service) (λ r calls, known ⊆ calls ∧ ∀ c, r = Ok c → ∃ raw config,
    Called (QueryServiceConfigW service) (Ok raw) ∈ calls ∧ parse_config raw = Ok config ∧ c = configuration_of config) d.
Proof.
  unfold query_configuration, service_config. eapply (minds_bind _ _ _ (λ r calls, known ⊆ calls ∧ ∀ config, r = Ok config → ∃ raw,
    Called (QueryServiceConfigW service) (Ok raw) ∈ calls ∧ parse_config raw = Ok config)).
  - apply minds_call; [done|]. intros [raw|e] d'; apply minds_ret; (split; [set_solver|]); [|done].
    intros config E. exists raw. split; [set_solver|done].
  - intros [config|e] calls d' _ [Hk Hc]; apply minds_ret; (split; [done|]); [|done].
    intros c [= <-]. destruct (Hc config eq_refl) as (raw & ? & ?). by exists raw, config.
Qed.

Lemma query_minds known conflict d : minds known (legacy_query conflict) query_knows d.
Proof.
  assert (∀ code trusted calls, query_knows (inaccessible code trusted conflict) calls) as Hina by (by intros; split_and!).
  unfold legacy_query. eapply minds_bind; [apply minds_unheard, expected_unheard|]. intros expected ? d1 _ [-> Hexp].
  eapply minds_bind; [apply minds_unheard, trusted_unheard|]. intros trusted ? d2 _ [-> _]. cbv zeta.
  apply minds_call; [done|]. intros [manager|e] d3; [|by apply minds_ret].
  eapply minds_bind; [by apply open_minds|]. intros [[service|]|e] calls d4 _ Ho.
  - unfold query_handle. eapply minds_bind; [apply status_minds|]. intros [st|code] calls1 d5 _ [Hk1 Hst]; [|by apply minds_ret].
    eapply minds_bind; [apply configuration_minds|]. intros [c|code] calls2 d6 _ [Hk2 Hc]; apply minds_ret; [|done].
    destruct (Hc c eq_refl) as (raw & config & Hin & Ep & ->). unfold query_knows. cbn.
    destruct expected as [path|]; [|by split_and!].
    assert (owned_presence (classify_configuration (configuration_of config) path) = true → own_shown service calls2) as Hown
      by (intros; exists raw, config, path; auto).
    assert (opened_as service calls2) by (eapply opened_mono; [|done]; set_solver).
    split_and!.
    + intros. exists service. auto.
    + intros ? ->. exists service. split_and!; [done|auto|]. eapply stopped_mono; [|by apply Hst]. done.
    + unfold classify_configuration. by repeat case_match.
  - apply minds_ret. by split_and!.
  - apply minds_ret. by destruct (_ =? _)%N; split_and!.
Qed.

(** [under W m]: wherever [W] is known, every call of [m] is warranted. *)
Definition under {A : Type} (W : list Answered → Prop) (m : M Disk A) : Prop :=
  ∀ known d, W known → minds known m (λ _ _, True) d.

(** What is known stays known. *)
Definition lasting (W : list Answered → Prop) : Prop := ∀ calls calls', calls ⊆ calls' → W calls → W calls'.

Lemma lasting_always : lasting (λ _, True). Proof. done. Qed.
Lemma lasting_owned : lasting owned_known. Proof. exact owned_known_mono. Qed.
Lemma lasting_stopped : lasting stopped_known. Proof. exact stopped_known_mono. Qed.
Lemma lasting_opened service (W : list Answered → Prop) : lasting W → lasting (λ calls, opened_as service calls ∧ W calls).
Proof. intros HW calls calls' Hs [? ?]. split; [by eapply opened_mono|by eapply HW]. Qed.

Lemma under_ret {A} W (a : A) : under W (ret a).
Proof. intros known d _. by apply minds_ret. Qed.

Lemma under_bind {A B} W (m : M Disk A) (k : A → M Disk B) :
  lasting W → under W m → (∀ a, under W (k a)) → under W (bind m k).
Proof. intros HW Hm Hk known d Hw. eapply minds_bind; [by apply Hm|]. intros a calls d' Hs _. by apply Hk, (HW known). Qed.

Lemma under_query {B} W conflict (k : LegacyServiceStatus → M Disk B) : lasting W →
  (∀ status, under (λ calls, W calls ∧ query_knows status calls) (k status)) → under W (bind (legacy_query conflict) k).
Proof.
  intros HW Hk known d Hw. eapply minds_bind; [apply query_minds|]. intros status calls d' Hs Hq. apply Hk. split; [|done].
  by apply (HW known).
Qed.

Lemma under_weaken {A} (W W' : list Answered → Prop) (m : M Disk A) : (∀ calls, W calls → W' calls) → under W' m → under W m.
Proof. intros HW Hm known d Hw. by apply Hm, HW. Qed.

Lemma under_windows {A} W (c : WindowsCall A) : (∀ calls, W calls → warranted c calls) → under W (windows c).
Proof. intros Hw known d HW. eapply minds_mono; [apply minds_windows, Hw, HW|done]. Qed.

Lemma under_unheard {A} W (m : M Disk A) (Q : A → Prop) : unheard P m Q → under W m.
Proof. intros Hm known d _. eapply minds_mono; [by apply minds_unheard|done]. Qed.

Lemma under_sleep {B} W n (k : unit → M Disk B) : under W (k tt) → under W (bind (sleep n) k).
Proof. intros Hk known d Hw. apply minds_sleep. intros d'. by apply Hk. Qed.
End Minding.

Create HintDb lasting.
#[export] Hint Resolve lasting_always lasting_owned lasting_stopped lasting_opened : lasting.

(** [under] goes through a computation; what is left are its changes. *)
Ltac behave :=
  repeat first
    [ match goal with
      | |- ∀ _, _ => intros
      | |- under _ _ (ret _) => apply under_ret
      | |- under _ _ (bind (sleep _) _) => apply under_sleep
      | |- under _ _ (bind _ _) => apply under_bind; [solve [eauto with lasting]|..]
      | |- under _ _ (windows _) => apply under_windows; solve [intros; cbn; tauto]
      | |- under _ _ (let _ := _ in _) => cbv zeta
      | |- under _ _ (if ?b then _ else _) => destruct b
      | |- under _ _ (match ?x with _ => _ end) => destruct x
      end
    | solve [eauto with behaves] ].

Create HintDb behaves.

Section Changes.
Context `{World, Windows, SecurityDescriptors, !LegacyHost} (P : Nodes → Prop).
Notation under := (under P).
Notation minds := (minds P).
Notation always := (λ _ : list Answered, True).
Notation owned_open service := (λ calls, opened_as service calls ∧ owned_known calls).

Lemma under_always {A} W (m : M Disk A) : under always m → under W m.
Proof. intros Hm. by eapply under_weaken; [|exact Hm]. Qed.

Lemma with_win32_minds {A} known (m : M Disk (result A IoError)) (Q : A → list Answered → Prop) d :
  minds known m (λ r calls, ∀ a, r = Ok a → Q a calls) d →
  minds known (with_win32 m) (λ r calls, ∀ a, r = Ok a → Q a calls) d.
Proof.
  intros Hm. eapply minds_bind; [exact Hm|]. intros [a|e] calls d' _ HQ; apply minds_ret; [|done]. intros b [= <-]. by apply HQ.
Qed.

Lemma open_for_minds known access d :
  minds known (open_for access) (λ r calls, ∀ service, r = Ok service → opened_as service calls) d.
Proof.
  unfold open_for. eapply minds_try; [apply (with_win32_minds _ _ (λ _ _, True)); eapply minds_mono; [by apply minds_windows|done]| |done].
  intros [] calls d1 _ _. eapply minds_try; [apply (with_win32_minds _ _ (λ found calls, ∀ service, found = Some service → opened_as service calls))| |done].
  - eapply minds_mono; [by apply open_minds|]. intros r ? _ Hr found -> service ->. exact Hr.
  - intros [service|] ? ? _ Ho; apply minds_ret; [|done]. intros s [= <-]. by apply (Ho _ eq_refl).
Qed.

Lemma opened_minds known operation access d :
  minds known (opened operation access) (λ r calls, ∀ service, r = Ok service → opened_as service calls) d.
Proof.
  unfold opened. eapply minds_bind; [apply open_for_minds|]. intros [service|code] calls d1 _ Ho; apply minds_ret; [|done].
  intros s [= <-]. by apply Ho.
Qed.

Lemma under_opened {B} (W : list Answered → Prop) operation access (k : Handle → M Disk (result B string)) : lasting W →
  (∀ service, under (λ calls, opened_as service calls ∧ W calls) (k service)) → under W (let? service := opened operation access in k service).
Proof.
  intros HW Hk known d Hw. eapply minds_try; [apply opened_minds| |done]. intros service calls d' Hs Ho. apply Hk. split; [by apply Ho|].
  by apply (HW known).
Qed.

Lemma wait_for_behaves rounds target : under always (wait_for_rounds rounds target).
Proof. induction rounds as [|rounds IH]; cbn [wait_for_rounds]; [behave|]. apply under_query; [done|]. behave; by apply under_always. Qed.

Lemma wait_absent_behaves rounds : under always (wait_absent_rounds rounds).
Proof.
  induction rounds as [|rounds IH]; cbn [wait_absent_rounds]; [behave|].
  apply under_bind; [done|eapply under_unheard, conflict_unheard|]. intros conflict. apply under_query; [done|]. behave; by apply under_always.
Qed.

Lemma start_behaves : under owned_known legacy_start.
Proof.
  apply under_opened; [auto with lasting|]. intros service. unfold in_code, with_win32, service_start.
  behave. by apply under_always, wait_for_behaves.
Qed.

Lemma stop_behaves : under owned_known legacy_stop.
Proof.
  apply under_opened; [auto with lasting|]. intros service. unfold in_code, with_win32, service_stop.
  behave. by apply under_always, wait_for_behaves.
Qed.

Lemma set_start_type_behaves n : under owned_known (set_start_type n).
Proof. apply under_opened; [auto with lasting|]. intros service. unfold in_code, with_win32, service_set_start_type. behave. Qed.


Lemma under_open_for {B} (W : list Answered → Prop) access (k : result Handle N → M Disk B) : lasting W →
  (∀ service, under (λ calls, opened_as service calls ∧ W calls) (k (Ok service))) → (∀ code, under W (k (Err code))) →
  under W (bind (open_for access) k).
Proof.
  intros HW Hk He known d Hw. eapply minds_bind; [apply open_for_minds|]. intros [service|code] calls d' Hs Ho.
  - apply Hk. split; [by apply Ho|by apply (HW known)].
  - apply He. by apply (HW known).
Qed.

Lemma delete_behaves : under stopped_known delete_owned_service.
Proof.
  apply under_open_for; [auto with lasting|..].
  - intros service. unfold with_win32, service_delete. behave; by apply under_always, wait_absent_behaves.
  - intros code. behave; by apply under_always, wait_absent_behaves.
Qed.

Lemma lasting_absent : lasting absent_shown. Proof. exact absent_mono. Qed.

Lemma lasting_knows status : lasting (query_knows status).
Proof.
  intros calls calls' Hs (? & ? & ?). split_and!; eauto using owned_known_mono, stopped_known_mono, absent_mono.
Qed.

Lemma lasting_both W W' : lasting W → lasting W' → lasting (λ calls, W calls ∧ W' calls).
Proof. intros HW HW' calls calls' Hs [? ?]. split; [by eapply HW|by eapply HW']. Qed.

Lemma query_behaves conflict : under always (legacy_query conflict).
Proof. intros known d _. eapply minds_mono; [apply query_minds|done]. Qed.

Lemma create_behaves configuration : under absent_shown (create_service_configuration configuration).
Proof.
  unfold create_service_configuration, in_code, with_win32, create_service.
  pose proof lasting_absent. pose proof query_behaves. behave; by apply under_always.
Qed.

(** What a query proves, once its answer is examined. *)
Lemma under_owned {A} (W : list Answered → Prop) status (m : M Disk A) : owned_presence (presence status) = true → under owned_known m →
  under (λ calls, W calls ∧ query_knows status calls) m.
Proof. intros Ho Hm. eapply under_weaken; [|exact Hm]. intros calls [_ [Hk _]]. auto. Qed.

Lemma under_stopped {A} (W : list Answered → Prop) status (m : M Disk A) :
  owned_presence (presence status) = true → runtime_state status = RuntimeStopped → under stopped_known m →
  under (λ calls, W calls ∧ query_knows status calls) m.
Proof. intros Ho Hs Hm. eapply under_weaken; [|exact Hm]. intros calls [_ (_ & Hk & _)]. auto. Qed.

Hint Resolve set_start_type_behaves start_behaves stop_behaves delete_behaves : behaves.

Lemma migration_stop_behaves : under always migration_stop.
Proof.
  unfold migration_stop. apply under_query; [done|]. intros status. destruct (owned_presence (presence status)) eqn:Eo; cbn [negb]; [|behave].
  apply under_owned; [done|]. behave.
Qed.

Lemma migration_remove_behaves : under always migration_remove.
Proof.
  unfold migration_remove. apply under_query; [done|]. intros status. destruct (owned_presence (presence status)) eqn:Eo; cbn [negb orb]; [|behave].
  case_bool_decide as Es; cbn [negb]; [|behave]. apply under_stopped; [done..|]. behave.
Qed.

Lemma under_pure {A B E} W (r : result A E) (k : A → M Disk (result B E)) :
  (∀ a, r = Ok a → under W (k a)) → under W (let? x := ret r in k x).
Proof. intros Hk known d Hw. apply minds_pure; [|done]. intros a Ha. by apply (Hk a Ha). Qed.

Lemma stable_required state : require_stable_migration_state state = Ok tt → state = RuntimeRunning ∨ state = RuntimeStopped.
Proof. destruct state; intros E; by auto || discriminate E. Qed.

Lemma restore_running_behaves snapshot : under always (migration_restore_running_state snapshot).
Proof.
  unfold migration_restore_running_state. apply under_pure. intros [] Hsaved%stable_required.
  apply under_query; [done|]. intros status. destruct (owned_presence (presence status)) eqn:Eo; cbn [negb]; [|behave].
  apply under_owned; [done|]. apply under_pure. intros [] Hnow%stable_required.
  apply under_bind; [apply lasting_owned|behave|]. intros [[]|e]; [|behave].
  destruct Hsaved as [-> | ->], Hnow as [-> | ->]; behave.
Qed.

(** *** Reading and restoring the whole configuration *)

(** What one query of a setting said. *)
Definition read_as {A B : Type} (service : Handle) (level : ConfigLevel A) (f : A → result B IoError) (value : B) (e : Answered) : Prop :=
  ∃ raw, e = Called (QueryServiceConfig2W service level) (Ok raw) ∧ f raw = Ok value.

Definition failure_actions_of_answer (failure : FailureActionsAnswer) : result PlatformFailureActions IoError :=
  if (MAX_FAILURE_ACTIONS <? length (lpsaActions failure))%nat
  then Err (invalid_data "SCM response array is invalid")
  else
    let-? actions := failure_actions_of (lpsaActions failure) in
    let-? reboot_message := strict_optional_text (lpRebootMsg failure) in
    let-? command := strict_optional_text (lpCommand failure) in
    Ok {| reset_period := dwResetPeriod failure; reboot := reboot_message; run_command := command;
          failure_action_list := actions |}.

Definition flag_set (flag : Z) : result bool IoError := Ok (negb (flag =? 0)%Z).

Definition privileges_of_answer (privileges : list (list N)) : result (list string) IoError :=
  if (MAX_REQUIRED_PRIVILEGES <? length privileges)%nat then Err (invalid_data "MULTI_SZ has too many entries")
  else privileges_of privileges.

(** The calls [read] are the nine queries of the settings of [service], and say that they are [e]. *)
Definition extended_read (service : Handle) (e : ServiceExtendedConfiguration) (read : list Answered) : Prop :=
  ∃ description actions platform non_crash delayed sid privileges preshutdown trigger raw_trigger security raw_security,
    read = [description; actions; non_crash; delayed; sid; privileges; preshutdown; trigger; security] ∧
    read_as service SERVICE_CONFIG_DESCRIPTION strict_optional_text (extended_description e) description ∧
    read_as service SERVICE_CONFIG_FAILURE_ACTIONS failure_actions_of_answer platform actions ∧
    extended_failure_actions e = failure_actions_from platform ∧
    read_as service SERVICE_CONFIG_FAILURE_ACTIONS_FLAG flag_set (extended_failure_actions_on_non_crash e) non_crash ∧
    read_as service SERVICE_CONFIG_DELAYED_AUTO_START_INFO flag_set (extended_delayed_auto_start e) delayed ∧
    read_as service SERVICE_CONFIG_SERVICE_SID_INFO Ok (extended_service_sid_type e) sid ∧
    read_as service SERVICE_CONFIG_REQUIRED_PRIVILEGES_INFO privileges_of_answer (extended_required_privileges e) privileges ∧
    read_as service SERVICE_CONFIG_PRESHUTDOWN_INFO Ok (extended_preshutdown_timeout_ms e) preshutdown ∧
    read_as service SERVICE_CONFIG_TRIGGER_INFO Ok raw_trigger trigger ∧
    cTriggers raw_trigger = 0%N ∧ pTriggers raw_trigger = false ∧ pReserved raw_trigger = false ∧
    security = Called (QueryServiceObjectSecurity service
      (Scm.union [OWNER_SECURITY_INFORMATION; GROUP_SECURITY_INFORMATION; DACL_SECURITY_INFORMATION])) (Ok raw_security) ∧
    raw_security = extended_security_descriptor e.

Lemma read_minds {A B} known service (level : ConfigLevel A) (f : A → result B IoError) d :
  minds known (let? raw := config2 service level in ret (f raw)) (λ r calls, ∀ value, r = Ok value →
    ∃ e, calls = known ++ [e] ∧ read_as service level f value e) d.
Proof.
  apply minds_call; [done|]. intros [raw|e] d'; apply minds_ret; [|done]. intros value Ev. eexists. split; [done|]. by exists raw.
Qed.

Lemma query_level_minds {A} known service (level : ConfigLevel A) d :
  minds known (config2 service level) (λ r calls, ∀ value, r = Ok value → ∃ e, calls = known ++ [e] ∧ read_as service level Ok value e) d.
Proof. eapply minds_mono; [by apply minds_windows|]. intros r calls _ -> value ->. eexists. split; [done|]. by exists value. Qed.

Lemma queried_minds {A} known (m : M Disk (result A IoError)) (Q : A → list Answered → Prop) d :
  minds known m (λ r calls, ∀ value, r = Ok value → Q value calls) d →
  minds known (queried m) (λ r calls, ∀ value, r = Ok value → Q value calls) d.
Proof.
  intros Hm. eapply minds_bind; [exact Hm|]. intros [a|e] calls d' _ HQ; apply minds_ret; [|done]. intros b [= <-]. by apply HQ.
Qed.

(** One setting is read, then the rest. *)
Lemma minds_setting {A B} known (m : M Disk (result A string)) (k : A → M Disk (result B string)) (Q : A → Answered → Prop)
    (R : result B string → list Answered → Prop) d :
  (∀ d, minds known m (λ r calls, ∀ value, r = Ok value → ∃ e, calls = known ++ [e] ∧ Q value e) d) →
  (∀ value e d', Q value e → minds (known ++ [e]) (k value) R d') → (∀ error calls, R (Err error) calls) →
  minds known (let? x := m in k x) R d.
Proof.
  intros Hm Hk He. eapply minds_try; [apply Hm| |by intros]. intros value calls d' _ HQ.
  destruct (HQ value eq_refl) as (e & -> & Hq). by apply (Hk value e).
Qed.

Lemma actions_minds known service d :
  minds known (service_failure_actions service) (λ r calls, ∀ value, r = Ok value →
    ∃ e, calls = known ++ [e] ∧ read_as service SERVICE_CONFIG_FAILURE_ACTIONS failure_actions_of_answer value e) d.
Proof. apply (read_minds known service SERVICE_CONFIG_FAILURE_ACTIONS failure_actions_of_answer). Qed.

Lemma security_minds known service d :
  minds known (object_security service) (λ r calls, ∀ value, r = Ok value → ∃ e, calls = known ++ [e] ∧
    e = Called (QueryServiceObjectSecurity service
      (Scm.union [OWNER_SECURITY_INFORMATION; GROUP_SECURITY_INFORMATION; DACL_SECURITY_INFORMATION])) (Ok (descriptor_bytes value))) d.
Proof.
  apply minds_call; [done|]. intros [raw|e] d'; apply minds_ret; [|done]. intros value Ev.
  apply from_bytes_exact in Ev. eexists. split; [done|]. by rewrite Ev.
Qed.

Lemma trigger_minds known service d :
  minds known (trigger_info service) (λ r calls, ∀ value, r = Ok value → ∃ e, calls = known ++ [e] ∧
    ∃ raw, read_as service SERVICE_CONFIG_TRIGGER_INFO Ok raw e ∧ trigger_count value = cTriggers raw ∧
      has_trigger_data value = pTriggers raw ∧ has_reserved_data value = pReserved raw) d.
Proof.
  apply minds_call; [done|]. intros [raw|e] d'; apply minds_ret; [|done]. intros value [= <-].
  eexists. split; [done|]. exists raw. split; [by exists raw|done].
Qed.

Lemma no_triggers_inv count data reserved t : snapshot_trigger_configuration count data reserved = Ok t →
  count = 0%N ∧ data = false ∧ reserved = false.
Proof.
  unfold snapshot_trigger_configuration. destruct (count =? 0)%N eqn:Ec, data, reserved; try done. by apply N.eqb_eq in Ec.
Qed.

Lemma extended_minds known service d :
  minds known (query_extended_configuration service) (λ r calls, ∀ e, r = Ok e →
    ∃ read, calls = known ++ read ∧ extended_read service e read) d.
Proof.
  unfold query_extended_configuration.
  eapply minds_setting; [intros; apply queried_minds, read_minds| |done]. intros description e1 d1 H1'.
  eapply (minds_bind _ _ _ _ (λ r calls, ∀ value, r = Ok value →
    ∃ e, calls = (known ++ [e1]) ++ [e] ∧ read_as service SERVICE_CONFIG_FAILURE_ACTIONS failure_actions_of_answer value e));
    [apply actions_minds|].
  intros read_actions calls d2 _ Hactions. apply minds_pure; [|done]. intros platform Ep.
  destruct read_actions as [actions|error]; [|by destruct (unsupported_failure_action error)]. injection Ep as <-.
  destruct (Hactions actions eq_refl) as (e2 & -> & H2').
  eapply minds_setting; [intros; apply queried_minds, (read_minds _ _ SERVICE_CONFIG_FAILURE_ACTIONS_FLAG flag_set)| |done]. intros non_crash e3 d3 H3'.
  eapply minds_setting; [intros; apply queried_minds, (read_minds _ _ SERVICE_CONFIG_DELAYED_AUTO_START_INFO flag_set)| |done]. intros delayed e4 d4 H4'.
  eapply minds_setting; [intros; apply queried_minds, query_level_minds| |done]. intros sid e5 d5 H5'.
  destruct (negb _); [by apply minds_ret|].
  eapply minds_setting; [intros; apply queried_minds, (read_minds _ _ SERVICE_CONFIG_REQUIRED_PRIVILEGES_INFO privileges_of_answer)| |done]. intros privileges e6 d6 H6'.
  eapply minds_setting; [intros; apply queried_minds, query_level_minds| |done]. intros preshutdown e7 d7 H7'.
  eapply minds_setting; [intros; apply queried_minds, trigger_minds| |done]. intros trigger e8 d8 (raw & H8' & Ec & Ed & Er).
  eapply minds_setting; [intros; apply queried_minds, security_minds| |done]. intros security e9 d9 ->.
  apply minds_pure; [|done]. intros [] (Hc & Hd & Hr)%no_triggers_inv. apply minds_ret. intros e [= <-].
  eexists. split; [by rewrite <- !app_assoc|].
  exists e1, e2, actions, e3, e4, e5, e6, e7, e8, raw. do 2 eexists. cbn.
  split_and!; try done; congruence.
Qed.

Lemma extended_behaves W service : under W (query_extended_configuration service).
Proof. intros known d _. eapply minds_mono; [apply extended_minds|done]. Qed.

Lemma restore_step_behaves service snapshot step : under (owned_open service) (restore_step service snapshot step).
Proof.
  destruct step; cbn [restore_step];
    unfold config2_result, in_code, with_win32, service_has_triggers, queried, trigger_info, config2, set_config, set_optional_description,
      set_failure_actions, set_failure_actions_on_non_crash_failures, set_delayed_auto_start, set_service_sid_type,
      set_required_privileges, set_preshutdown_timeout_ms, clear_triggers, set_object_security; behave.
Qed.

Lemma restore_steps_behave (W : list Answered → Prop) restore steps failures : lasting W →
  (∀ step, under W (restore step)) → under W (restore_steps restore steps failures).
Proof.
  intros HW Hr. revert failures. induction steps as [|step steps IH]; intros failures; cbn [restore_steps]; behave.
Qed.

Lemma prepare_owned_behaves (status : LegacyServiceStatus) : under owned_known
  (let? _ := ret (require_stable_migration_state (runtime_state status)) in
   let? current := opened "OpenServiceW for restore preflight" InspectAccess in
   let? _ := query_extended_configuration current in
   if bool_decide (runtime_state status ≠ RuntimeStopped) then legacy_stop else ret (Ok tt)).
Proof.
  apply under_pure. intros [] _. apply under_opened; [apply lasting_owned|]. intros service.
  apply under_bind; [auto with lasting|apply extended_behaves|]. intros [e|e]; [|behave].
  destruct (bool_decide _); [|behave]. eapply under_weaken; [|apply stop_behaves]. by intros calls [].
Qed.

Lemma prepare_restore_behaves snapshot : under always (prepare_restore snapshot).
Proof.
  unfold prepare_restore. apply under_query; [done|]. intros status.
  destruct (presence status) eqn:Ep;
    [|apply under_owned; [by rewrite Ep|apply prepare_owned_behaves]..|behave|behave|behave].
  eapply under_weaken; [|apply create_behaves]. intros calls [_ (_ & _ & Ha)]. auto.
Qed.

Lemma perform_behaves service snapshot : under (owned_open service) (perform_service_configuration_restore (restore_step service snapshot)).
Proof.
  unfold perform_service_configuration_restore. apply under_bind; [auto with lasting| |behave].
  apply restore_steps_behave; [auto with lasting|]. apply restore_step_behaves.
Qed.

(** The last that was read of the service is what was saved. *)
Definition restored_shown (snapshot : LegacyScmSnapshot) (calls : list Answered) : Prop :=
  ∃ service before raw config read, opened_as service before ∧
    calls = before ++ [Called (QueryServiceConfigW service) (Ok raw)] ++ read ∧
    parse_config raw = Ok config ∧ configuration_of config = snapshot_configuration snapshot ∧
    extended_read service (snapshot_extended snapshot) read.

Lemma configuration_last known service d :
  minds known (query_configuration service) (λ r calls, ∀ c, r = Ok c → ∃ raw config,
    calls = known ++ [Called (QueryServiceConfigW service) (Ok raw)] ∧ parse_config raw = Ok config ∧ c = configuration_of config) d.
Proof.
  unfold query_configuration, service_config. eapply (minds_bind _ _ _ _ (λ r calls, ∀ config, r = Ok config → ∃ raw,
    calls = known ++ [Called (QueryServiceConfigW service) (Ok raw)] ∧ parse_config raw = Ok config)).
  - apply minds_call; [done|]. intros [raw|e] d'; apply minds_ret; [|done]. intros config E. by exists raw.
  - intros [config|e] calls d' _ Hc; apply minds_ret; [|done]. intros c [= <-]. destruct (Hc config eq_refl) as (raw & ? & ?). by exists raw, config.
Qed.

Lemma restore_minds known snapshot d :
  minds known (restore_service_configuration snapshot) (λ r calls, r = Ok tt → restored_shown snapshot calls) d.
Proof.
  unfold restore_service_configuration. apply minds_pure; [|done]. intros [] _.
  eapply minds_try; [by apply prepare_restore_behaves| |done]. intros [] calls1 d1 _ _.
  eapply minds_bind; [apply query_minds|]. intros status calls2 d2 _ Hq.
  destruct (owned_presence (presence status)) eqn:Eo; cbn [negb orb]; [|by apply minds_ret].
  case_bool_decide as Es; cbn [negb]; [|by apply minds_ret]. destruct Hq as [Hown _]. specialize (Hown Eo).
  eapply minds_try; [apply opened_minds| |done]. intros preflight calls3 d3 Hs3 _.
  eapply minds_try; [by apply (extended_behaves always)| |done]. intros e calls4 d4 Hs4 _.
  eapply minds_try; [apply opened_minds| |done]. intros service calls5 d5 Hs5 Hopen. specialize (Hopen service eq_refl).
  eapply (minds_try _ _ _ _ (λ _ calls, opened_as service calls)); [| |done].
  { eapply minds_mono; [apply perform_behaves|].
    - split; [done|]. eapply owned_known_mono; [|exact Hown]. set_solver.
    - intros r calls Hs _. by eapply opened_mono. }
  intros [] calls6 d6 _ Hopen6.
  eapply minds_bind; [apply configuration_last|]. intros r calls7 d7 _ Hc. apply minds_pure; [|done]. intros c Ec.
  destruct r as [c'|code]; [|done]. injection Ec as ->. destruct (Hc c eq_refl) as (raw & config & -> & Hparse & ->).
  eapply minds_try; [apply extended_minds| |done]. intros extended calls8 d8 _ He. destruct (He extended eq_refl) as (read & -> & Hread).
  apply minds_ret. intros Hv. unfold verify_restored_configuration in Hv. case_bool_decide as E1; [done|]. case_bool_decide as E2; [done|].
  exists service, calls6, raw, config, read. rewrite <- app_assoc.
  by rewrite <- E2.
Qed.

Lemma snapshot_behaves conflict : under always (migration_snapshot conflict).
Proof.
  unfold migration_snapshot. apply under_query; [done|]. intros status. destruct (registry_conflict status || _); [behave|].
  apply under_always, under_pure. intros [] _. apply under_opened; [done|]. intros service.
  apply under_bind; [auto with lasting|intros k ? _; eapply minds_mono; [apply configuration_minds|done]|]. intros r.
  apply under_pure. intros c _. apply under_bind; [auto with lasting|apply extended_behaves|]. intros [e|e]; [|behave].
  apply under_bind; [auto with lasting|intros k ? _; eapply minds_mono; [apply status_minds|done]|]. intros s. behave.
Qed.
End Changes.

(** ** Any run of operations *)

Inductive LegacyOperation :=
| TakeSnapshot (conflict : bool) | StopForMigration | RemoveForMigration | RestoreConfiguration (snapshot : LegacyScmSnapshot)
| RestoreRunningState (snapshot : LegacyScmSnapshot) | AskWhetherItBlocks.

Section Guarantees.
Context `{World, Windows, SecurityDescriptors, !LegacyHost}.
Notation always := (λ _ : list Answered, True).
Notation everywhere := (λ _ : Nodes, True).

(** [m] for its effect. *)
Definition carried_out {A : Type} (m : M Disk A) : M Disk unit := let! _ := m in ret tt.

Definition carry_out (o : LegacyOperation) : M Disk unit :=
  match o with
  | TakeSnapshot conflict => carried_out (migration_snapshot conflict)
  | StopForMigration => carried_out migration_stop
  | RemoveForMigration => carried_out migration_remove
  | RestoreConfiguration snapshot => carried_out (restore_service_configuration snapshot)
  | RestoreRunningState snapshot => carried_out (migration_restore_running_state snapshot)
  | AskWhetherItBlocks => carried_out legacy_service_blocks_activation
  end.

Fixpoint carry_out_all (operations : list LegacyOperation) : M Disk unit :=
  match operations with
  | [] => ret tt
  | o :: operations => let! _ := carry_out o in carry_out_all operations
  end.

Lemma blocks_behaves : under everywhere always legacy_service_blocks_activation.
Proof.
  unfold legacy_service_blocks_activation. apply under_query; [done|]. intros status. apply under_always.
  pose proof (snapshot_behaves everywhere). behave.
Qed.

Lemma carried_behaves {A} (m : M Disk A) : under everywhere always m → under everywhere always (carried_out m).
Proof. intros Hm. apply under_bind; [done|done|]. intros a. apply under_ret. Qed.

Lemma carry_out_all_behaves operations : under everywhere always (carry_out_all operations).
Proof.
  induction operations as [|o operations IH]; cbn [carry_out_all]; [apply under_ret|].
  apply under_bind; [done| |by intros]. destruct o; cbn [carry_out]; apply carried_behaves.
  - apply snapshot_behaves.
  - apply migration_stop_behaves.
  - apply migration_remove_behaves.
  - intros known d _. eapply minds_mono; [apply restore_minds|done].
  - apply restore_running_behaves.
  - apply blocks_behaves.
Qed.

(** C12. Whatever the control center does to the older service, in any order, and whatever
    Windows answers: every operation ends; the service is started, stopped or
    reconfigured only through a handle of its name and behind an answer that proved it to
    be the older MacType, the one whose program lies below Program Files; it is deleted
    only behind an answer that it also stands still; and it is created only behind the
    answer that there is none.  No operation touches the disk. *)
Theorem older_service_is_changed_only_when_proved operations d :
  ∃ d' calls, carry_out_all operations d = Some (tt, d') ∧ nodes d' = nodes d ∧ answered d' = answered d ++ calls ∧
    ∀ before A (c : WindowsCall A) a after, calls = before ++ Called c a :: after → warranted c before.
Proof.
  destruct (minds_run _ _ _ _ _ (carry_out_all_behaves operations [] d I)) as ([] & d' & calls & E & Hn & Ea & Hw & _).
  exists d', calls. split_and!; [done..|]. exact (warrants_spec [] calls Hw).
Qed.

(** C13. A restoration of the older service always ends, and when it reports success the
    last thing it read, after its last change, is the whole configuration that was saved:
    every setting of the service, its description, its recovery, its privileges and its
    access rights. *)
Theorem restored_configuration_is_the_saved_one snapshot d :
  ∃ r d' calls, restore_service_configuration snapshot d = Some (r, d') ∧ answered d' = answered d ++ calls ∧
    (r = Ok tt → restored_shown snapshot calls).
Proof.
  destruct (minds_run _ _ _ _ _ (restore_minds everywhere [] snapshot d)) as (r & d' & calls & E & _ & Ea & _ & Hr).
  by exists r, d', calls.
Qed.
End Guarantees.

(** ** An example *)

Section Example.
Definition legacy_program_files : Path := ["C:"; "Program Files"]%string.

#[local] Instance example_legacy_host : @LegacyHost example_world.
Proof.
  refine (@Build_LegacyHost example_world (λ k, ret (Ok legacy_program_files)) (λ _, legacy_program_files) (ret false) _ _).
  - intros k P d. apply spec_ret. split_and!; [done|done|]. by intros p [= <-].
  - intros P d. by apply spec_ret.
Defined.

#[local] Instance example_descriptors : SecurityDescriptors := {
  IsValidSecurityDescriptor _ := true;
  GetSecurityDescriptorControl _ := Ok SE_SELF_RELATIVE;
  GetSecurityDescriptorLength := bytes_len
}.

Definition example_mactype : LegacyConfiguration := {|
  legacy_display_name := "MacType"; legacy_binary_path := quoted_command "C:\Program Files\MacType\MacTray.exe";
  legacy_service_type := 16; legacy_start_type := 2; legacy_error_control := 1; legacy_load_order_group := None;
  legacy_tag_id := 0; legacy_account := "LocalSystem"; legacy_dependencies := ["winmgmt"%string] |}.

Definition raw_of (c : LegacyConfiguration) : QUERY_SERVICE_CONFIGW := {|
  dwServiceType := legacy_service_type c; dwStartType := legacy_start_type c; dwErrorControl := legacy_error_control c;
  lpBinaryPathName := Some (legacy_binary_path c); lpLoadOrderGroup := legacy_load_order_group c; dwTagId := legacy_tag_id c;
  lpDependencies := legacy_dependencies c; lpServiceStartName := Some (legacy_account c); lpDisplayName := Some (legacy_display_name c) |}.

Definition example_level (A : Type) (l : ConfigLevel A) : A :=
  match l in ConfigLevel A return A with
  | SERVICE_CONFIG_DESCRIPTION => None
  | SERVICE_CONFIG_FAILURE_ACTIONS => {| dwResetPeriod := 0; lpRebootMsg := None; lpCommand := None; lpsaActions := [(1%Z, 5%N)] |}
  | SERVICE_CONFIG_FAILURE_ACTIONS_FLAG => 0%Z
  | SERVICE_CONFIG_DELAYED_AUTO_START_INFO => 0%Z
  | SERVICE_CONFIG_SERVICE_SID_INFO => 0%N
  | SERVICE_CONFIG_REQUIRED_PRIVILEGES_INFO => []
  | SERVICE_CONFIG_PRESHUTDOWN_INFO => 0%N
  | SERVICE_CONFIG_TRIGGER_INFO => {| cTriggers := 0; pTriggers := false; pReserved := false |}
  end.

Definition was_deleted (d : Disk) : bool :=
  existsb (λ e, match e with Called (DeleteService _) _ => true | _ => false end) (answered d).

(** The older service, stopped, until it is deleted. *)
Definition legacy_reply (A : Type) (d : Disk) (c : WindowsCall A) : A :=
  match c in WindowsCall A return A with
  | OpenServiceW _ _ =>
      if was_deleted d then Err {| not_found := false; raw_os_error := Some ERROR_SERVICE_DOES_NOT_EXIST; io_text := "gone" |} else Ok 1%N
  | QueryServiceStatusEx _ => Ok (example_status 1)
  | QueryServiceConfigW _ => Ok (raw_of example_mactype)
  | QueryServiceConfig2W _ l => Ok (example_level _ l)
  | QueryServiceObjectSecurity _ _ => Ok (str_bytes "O:SY")
  | SetServiceObjectSecurity _ _ _ => Ok tt
  | c => example_reply _ d c
  end.

#[local] Instance legacy_windows : Windows := { reply := legacy_reply; canonical _ p := Ok p }.

Definition legacy_disk : Disk := disk_of (<[legacy_program_files := Directory]> (<[mactray_below legacy_program_files := File []]> ∅)).

Definition example_snapshot_taken : option (result LegacyScmSnapshot string) := option_map fst (migration_snapshot false legacy_disk).

Example restoring_succeeds :
  match example_snapshot_taken with
  | Some (Ok snapshot) => option_map fst (restore_service_configuration snapshot legacy_disk) = Some (Ok tt)
  | _ => False
  end.
Proof. by vm_compute. Qed.

Example stopping_and_removing :
  option_map fst (migration_stop legacy_disk) = Some (Ok tt) ∧ option_map fst (migration_remove legacy_disk) = Some (Ok tt).
Proof. by vm_compute. Qed.
End Example.
